(* ===== verification/_CoqProject ===== *)
-Q . S2P
Prelude.v
F64.v
Text.v
MixState.v
Msg.v
Shape.v
Topology.v
TopologyWf.v
Reconciled.v
Rt.v
Core.v
CoreSync.v
CoreCmd.v
CoreApply.v
CoreSpec.v
Disk.v
Codec.v
Store.v
Chain.v
Live.v
Crash.v
Boot.v
PersistSpec.v
Frame.v
Dsp.v
Mga.v
Media.v
Wire.v
Control.v
Processor.v
Render.v
RtTargets.v
RtHolds.v
RtSched.v
RtSafe.v
DspSpec.v
RtFade.v
Mirror.v
CtlFrame.v
CtlRt.v
CtlPeers.v
CtlLive.v
CtlTruth.v
CtlEnd.v
CtlTotal.v
ControlSpec.v
MirrorSpec.v
AsyncWire.v
Client.v
ClientSpec.v
ServerSpec.v
MediaSpec.v
Health.v
HealthSpec.v
LoginGuard.v
GuardSpec.v
Roster.v
RosterSpec.v
Config.v
UiMsg.v
SiteView.v
View.v
BandStore.v
Sessions.v
Pages.v
Lineups.v
LineupSpec.v
LineupStore.v
Switch.v
SwitchSpec.v
People.v
Migrate.v
Watch.v
WatchSpec.v
Backup.v
PersonSpec.v
PageUi.v
PageSpec.v
BandSpec.v
RtSpec.v
