(* ===== verification/Prelude.v ===== *)
(** * iemmixer: a verification development of the in-ear monitor mixer's engine

    The repository is a stage monitor mixer: a real-time engine mixes the inputs
    of an audio network card into one stereo mix per band member, a web server
    (its only client besides a supervisor) edits the mixes over a control pipe
    for the pages of the members and the sound engineer, and the engine keeps
    the mix state across crashes.  This library models the engine below
    src/crates (iem-engine, iem-engine-proto, iem-dsp, iem-limiter-mga), the
    judge of the box's health (iem-dante-dev), and of the web server (iem-server),
    its data (iem-core) and the page in the browser (iem-ui) the parts that
    decide something.

    ** How the program works, and where it is modelled

    A site file is compiled into a [Topology] (inputs, groups, mixes, the mixes
    and peers each mix hears, the render order).  The [Core] is the single
    writer of the mix state: a request changes the state, raises the revision
    and yields a group of [RtOp]s.  The control loop owns the core, the
    connections and the state directory: it answers requests, broadcasts the
    changes, pushes the groups onto the ring of the real-time thread and saves.
    The processor on the real-time thread pops the groups, each at its sample
    time, and renders blocks.

    The web server holds a copy of the engine's state (the mirror), shows each
    page its part of it, turns what a page asks for into commands, and keeps the
    band's own files: presets, history, and for every line-up of the roster the
    mixes it last played with.  A page shows what it is told and draws ahead
    what it asked for.

    Vocabulary.
    - Prelude: results, loops with early return, [u64] arithmetic;
      Text: Rust's string operations; F64: [f64] as the Standard Library's
      IEEE-754 binary64, executable and without axioms.
    - MixState, Msg, Wire, Shape (iem-engine-proto/src/ids.rs, state.rs,
      msg.rs and msg/, shape.rs): ids, the state, every command, error, change
      and message, and the caps of every field.  Frame (frame.rs, media.rs):
      the frames of the two pipes.
    Topology and state.
    - Topology, TopologyWf (iem-engine/src/site.rs, topology.rs): [compile] and
      the invariant [topo_wf] a compiled site has.
    - Reconciled (core/state.rs): the state laid out by the topology's indices.
    The control core.
    - Rt (cmd.rs, params.rs): the messages to the real-time thread, and the
      memory of the last message per slot ([rt_mem]), the abstract real-time
      thread the core is proved against.
    - Core (core.rs, core/commands.rs): the whole core, a monad [CoreM] that
      keeps what was written before an error, as a method on [&mut self] does.
      CoreSync holds the invariant [core_wf], the specification [want] of the
      memory and the contract [step_ok] of one operation; CoreCmd proves it of
      every command, CoreApply of batches and runs (with a concrete site, core
      and math library for the witnesses), CoreSpec states the results.
    Persistence.
    - Disk (persist/files.rs, persist.rs), Codec (persist.rs), Store
      (persist.rs, persist/chain.rs), Chain (persist/chain.rs): file operations
      over a map of files and a script of faults, file names and the listing,
      encode and decode, the save protocol and its schedule, the load chain and
      the boot's recovery.
    - Live specifies which file of a directory is the state; Crash and Boot are
      Hoare-style specifications ([io_spec]) of the save and of the recovery;
      PersistSpec states the results.
    The control loop.
    - Control (control.rs and control/): connections and roles, requests,
      effects, broadcasts, the queue to the real-time thread, saves, meters and
      status, the tick and the ways a run ends; [turn] is one message or tick
      and [run] a sequence of them.
    - CtlFrame: what each step leaves alone; CtlRt: the real-time thread in
      step, and the ring; CtlPeers, CtlLive: connections and what they were told
      (the class [Talk] is what the messages of the loop promise to an
      invariant); CtlTruth: that what they were told is true; CtlEnd: how a run
      ends; CtlTotal: that it goes on; ControlSpec states the results.
    The server's side of the control pipe.
    - Mirror (iem-server/src/engine/mirror.rs): the server's copy of the state,
      with what each operation of the core announces; MirrorSpec composes the
      control loop with the mirror.
    - AsyncWire (engine/wire.rs): the frames as the server reads and writes
      them; Client (engine/client.rs): the connection's task, its callers and
      the writer as steps that interleave; ClientSpec: what callers are told;
      ServerSpec composes the control loop, the mirror and the client.
    The real-time side.
    - Media (iem-engine/src/resample.rs, media.rs and the media pump of
      engine.rs): the half-band filter, the framers of what is listened to and
      the talkback's feed; MediaSpec states the results.
    - Dsp (iem-dsp/src/ramp.rs, pan.rs, meter.rs, sanitize.rs, eq.rs; the
      engine's latency.rs), Mga (iem-limiter-mga/src/lib.rs): the kernels.
    - Processor (rt.rs): the processor's state, its start and the commands;
      Render (rt.rs, rt/render.rs, probe.rs): the segments of a block.
    - RtTargets: what the processor heads for; RtHolds: it holds the messages
      it applied; RtSched: when it applies them; RtSafe: what sounds where;
      RtFade: what nodes pass on and the shutdown's fade; DspSpec and RtSpec
      state the results, RtSpec with the control loop composed with the
      processor.
    The box and the server's rules.
    - Health (iem-dante-dev/src/health.rs, lib.rs): the units systemd shows, the
      server's answer, the verdict and the command lines; HealthSpec.
    - LoginGuard (iem-server/src/login_guard.rs, with the standard library's
      addresses): the budgets of failed logins, the clients' keys and the gate
      before the hashing; GuardSpec.
    - Roster (iem-core/src/roster.rs, with [validate_member_id] of config.rs and
      [validate] of iem-server's roster_watch.rs): people, line-ups, every check
      and its text; RosterSpec, also against [compile].
    - Config (iem-core/src/config.rs, tunnel.rs): the site's settings with every
      rule, the frame policy's origins and what a parse error shows.
    The pages.
    - UiMsg (iem-core/src/ws.rs, types.rs, lineup.rs): what a page and the server
      say to each other.  SiteView (iem-server/src/site_view.rs,
      roster_state.rs): the people, inputs and pages of the line-up that plays.
      View (view.rs): what a page shows of the mirror, the updates of a change,
      and the command, or the refusal, of what a page asks for.
    - BandStore (band_store.rs, iem-core/src/band.rs): presets, history, pins;
      BandSpec.
    - Sessions (solo.rs, talk.rs, meters.rs) and Pages (mixer_ws.rs, console.rs,
      lib.rs): what the pages share, and one page's session; PersonSpec composes
      a page's commands with the control core.
    - PageUi (iem-ui/src/pages/mixer/connection.rs, helpers.rs, state.rs,
      components.rs, handshake.rs, lifecycle.rs): the page; PageSpec composes the
      mirror, the session and the page.
    The line-ups.
    - Lineups (iem-core/src/backup.rs; iem-server/src/backup.rs,
      lineup_store.rs, roster_watch.rs): a line-up's stored state, the rules of a
      line-up on a state, and who takes which mix along; LineupSpec.
    - LineupStore (lineup_store.rs, and of lib.rs the gate and the start): the
      line-ups' files, and the [World] the server's operations run in.
    - Switch (lineup_switch.rs): the switch of the band that plays, its replay
      and its way back; SwitchSpec, over the parts of a world these read
      ([Scene]).
    - People (pin_store.rs, photo_store.rs, people_removal.rs): what a person
      leaves on the disk, and its removal.  Migrate (lineup_store.rs): the
      legacy files moved into a line-up.
    - Watch (roster_watch.rs): the start with a roster, the look at a changed
      one, and the transition of every line-up's state to it; WatchSpec.
    - Backup (iem-core/src/backup.rs; iem-server/src/backup_store.rs, backup.rs,
      backup_routes.rs): the backups' files with their names and retention, what
      a backup holds, the preview of a restore and the restore; its theorems are
      in the same file, as triples over the same [Scene].

    ** What the theorems show

    - State and topology: a compiled site is well-formed, each of its
      nodes wired to the card channels the site gives it ([compile_wf]);
      reconciling makes every field finite and within its caps
      ([reconcile_normalizes]).
    - Core: the invariant over any requests, errors change nothing, a success
      raises the revision by one, and ([rt_in_step]) the messages sent bring the memory of the real-time thread
      to the specification [want] of the new core.
    - Persistence: a crash or a fault at any file operation of a save leaves
      the old or the new state live; the recovery keeps what was loaded.
    - Control loop: after any turns the messages taken, in the ring and waiting
      are together a full sync with the core ([control_rt_in_step]); clients
      told of every revision in order; at most one controller; only it edits;
      [Saved] means saved; every way out releases the driver in order; a thread
      that keeps up empties the queue.
    - Mirror: the server's copy of every connection, after whatever was asked,
      is in step with the core and never has to ask again ([mirror_follows]).
    - Client: a caller gets the reply to its own request and nobody waits on a
      lost connection, and the client tries again after the time that its end
      calls for ([nobody_left_waiting], and [answers_are_replies] of ClientSpec); an edit the
      engine acknowledged is in the server's copy ([acknowledged_is_visible]).
    - Processor: fed what the control loop pushed, it holds exactly a prefix of
      it and, once its ring is empty, heads for the core's state
      ([processor_follows_core]: the composition of the two threads); a block is
      a course of moves, each applying a group or rendering the next frames
      (RtSched), groups whole and on their sample ([commands_on_time]); a HIL test signal never reaches a mix's
      output; every node's signal is a number within the sanitiser's limit; the
      fade-out completes; a block always completes, all of its
      frames rendered in order ([processor_goes_on]).
    - Media path: a listener gets exactly the samples of the tap, filtered once
      and framed; the talkback's fast path is its reference definition.
    - Health: the verdict is a function of the reasons, each said exactly when
      it holds; the units are read whatever order they are shown in.
    - Login guard: its bounded books answer as if they remembered everything
      ([guard_refines_history]); no wait is longer than a minute and a client
      that waits one is admitted ([never_a_lockout]).
    - Roster: accepted exactly when it is well-formed and fits the site
      ([validate_iff]); what is reported depends on no name and on no invalid id
      ([problems_keep_names_secret]).  Configuration: no origin of an accepted
      one leaves its place in the frame policy's header ([frame_ancestors_safe]).
    - Pages: once its queues are empty a page shows what the mirror holds,
      whatever was lost or reset in between ([page_follows]); what somebody who
      is not the engineer sends changes nothing but their own mix and the inputs
      they own ([person_keeps_to_their_page]); a member's history, where there is
      room for it, takes a new entry as it was given and keeps what is pinned
      ([history_kept]).
    - Line-ups: a switch, whatever fails, ends with one band that plays or with
      an intent from which it is finished ([switch_is_whole]); the process may end
      anywhere in it, and a restart and its replay leave one of the two bands
      playing, on what is stored for it ([crash_is_finished]); the replay ends,
      frees the pages and gives the engine what was stored ([replay_ends]).  A line-up's rules hold once they were applied
      ([rules_hold]) and give back what they muted ([silenced_given_back]); a
      person's mix goes along to their new set ([mix_goes_along]).
    - Roster watch: a changed roster is carried out on every line-up's state or
      on none that was not planned, and the running state goes last
      ([roster_change_is_whole]); what tries again after a failure or a crash
      moves nobody a second time ([nobody_moves_twice]).  What is removed is
      exactly what those who are no person of the roster any more left
      ([removal_is_exact]).
    - Backups: what was captured comes back, the other line-ups' stored states
      included, and a refused restore changes nothing ([restore_gives_back]); a
      save leaves every file there was as it was ([backup_never_overwrites]), and
      the retention deletes outdated backups only ([prune_before_spec]).

    ** How effects are modelled

    - Threads meet in rings.  A ring is the list of its commands; how many the
      real-time thread takes before each attempt to push is a script ([q_pops]),
      so every interleaving of the two threads at the points where the control
      loop looks at the ring is one script.  On the other side the commands of
      [drive] land between blocks: what is pushed during a block is that of the
      next one.
    - The clock is an argument of each turn; whether a write to a connection
      fails is a script ([next_send]); a file operation is carried out, fails
      (a failed write leaving any part of it) or is where the process ends, as
      its script says; past a script's end everything succeeds.
    - The server's operations on line-ups run in a [World]: a durable write, a
      removal, a request to the engine and the wait for it each take their outcome
      from a script, the end of the process included; past a script's end
      everything succeeds.  A durable write is a synced temporary file renamed:
      it is done whole or not at all.  The engine keeps what it holds while it is
      away.
    - A panic is [None] or [CCrash].  Integers are [Z] with the source's wrap or
      saturation written out; indices into [Vec]s are [nat].
    - [powf] is the class [Libm], the rest of the math library [RtMath]; nothing
      is assumed of them but [LibmOk] ([powf x 0 = 1]) and, where a level must
      be finite and not negative, [LibmSane].  serde_json and SHA-256 are the
      classes [Json], [ClientJson], [Encodable] and [Sha256]; what is used of
      them is a hypothesis of the theorem that uses it.  The device's own report
      is the class [Device], the JSON of the server's version [VersionJson], the
      order a [HashMap] is gone through in [HashIter], the text of a float
      [ShowF32], the JSON of the band's files [Serde], the UTC day of a time
      [UtcDay], the name of an [io::Error]'s kind [OsKind]; the readers of TOML
      texts are arguments.

    ** Fuel

    [apply_due_fuel] has the ring's length (each round takes at least one
    command); [process_loop] the frames of the block (a segment has at least
    one); [chunks_fuel] the length of the list; the reader of Frame the length
    of the reader's plan; the polling loops of Store and Chain the attempts the
    code counts, and so has [save_from] the names it tries; [split_fuel] the
    string's length; [attempts] the waits the engine
    stays away for and one for each try; [landed] the scripted waits and answers
    ([landed_ends]).  Theorems say that each is enough ([processor_goes_on],
    [read_frame_total], [save_succeeds]).

    ** Not modelled

    Opening sockets, pipes, files and audio devices, starting threads and
    processes (engine.rs, pipe.rs, dante.rs, iem-audio-io, the supervisor's
    client): calls of the operating system.  The text of log lines and of TOML
    and JSON files.  Of the web server: HTTP routes, tokens and certificates,
    pushes to phones, the tunnel's watch, the backups' schedule and
    its alarms, the command line that checks a roster file.  That a record of what the running state follows may fail to be
    written once its import is in the engine is modelled and allowed by the
    theorems where the record makes no difference to this transition.  Of the
    browser: drawing, gestures, audio and the modals. *)

From stdpp Require Export base tactics list gmap strings sorting.
From stdpp Require Import options.

#[global] Arguments Nat.ltb : simpl never.
#[global] Arguments Nat.leb : simpl never.
#[global] Arguments Nat.eqb : simpl never.

(** ** Results: Rust's [Result<A, E>], with the error type first so that it is
    a monad in its value. *)

Inductive result (E A : Type) : Type :=
| Ok (a : A)
| Err (e : E).
Arguments Ok {E A} a.
Arguments Err {E A} e.

#[export] Instance result_ret (E : Type) : MRet (result E) := fun A a => Ok a.
#[export] Instance result_bind (E : Type) : MBind (result E) :=
  fun A B f m => match m with Ok a => f a | Err e => Err e end.
#[export] Instance result_fmap (E : Type) : FMap (result E) :=
  fun A B f m => match m with Ok a => Ok (f a) | Err e => Err e end.

#[export] Instance result_eq_dec (E A : Type) :
  EqDecision E -> EqDecision A -> EqDecision (result E A).
Proof. solve_decision. Defined.

(** [Option::ok_or]. *)
Definition ok_or {E A : Type} (o : option A) (e : E) : result E A :=
  match o with Some a => Ok a | None => Err e end.

(** An early [return Err(e)] when the condition holds. *)
Definition fail_if {E : Type} (b : bool) (e : E) : result E unit :=
  if b then Err e else Ok tt.

Definition is_ok {E A : Type} (r : result E A) : bool :=
  match r with Ok _ => true | Err _ => false end.

(** A fallible left fold: a [for] loop whose body may return an error. *)
Fixpoint foldM {E S A : Type} (f : S -> A -> result E S) (s : S) (l : list A) : result E S :=
  match l with
  | [] => Ok s
  | x :: l => match f s x with Ok s' => foldM f s' l | Err e => Err e end
  end.

Section results.
Context {E : Type}.

Lemma bind_ok {A B : Type} (m : result E A) (f : A -> result E B) (b : B) :
  m ≫= f = Ok b <-> exists a, m = Ok a /\ f a = Ok b.
Proof. destruct m as [a|e]; cbn; split; [|intros (?&?&?)| |intros (?&?&?)]; try congruence; intros; simplify_eq; eauto. Qed.

Lemma fmap_ok {A B : Type} (m : result E A) (f : A -> B) (b : B) :
  f <$> m = Ok b <-> exists a, m = Ok a /\ b = f a.
Proof. destruct m as [a|e]; cbn; split; [|intros (?&?&?)| |intros (?&?&?)]; try congruence; intros; simplify_eq; eauto. Qed.

Lemma ok_or_ok {A : Type} (o : option A) (e : E) (a : A) :
  ok_or o e = Ok a <-> o = Some a.
Proof. destruct o; cbn; split; congruence. Qed.

Lemma ok_or_err {A : Type} (o : option A) (e e' : E) :
  ok_or o e = Err e' <-> o = None /\ e = e'.
Proof. destruct o; cbn; split; intuition congruence. Qed.

Lemma fail_if_ok (b : bool) (e : E) (u : unit) : fail_if b e = Ok u <-> b = false.
Proof. destruct b, u; cbn; split; congruence. Qed.

Lemma foldM_app {S A : Type} (f : S -> A -> result E S) s l1 l2 :
  foldM f s (l1 ++ l2) = match foldM f s l1 with Ok s' => foldM f s' l2 | Err e => Err e end.
Proof. revert s. induction l1 as [|x l1 IH]; intros s; cbn; [done|]. by destruct (f s x). Qed.

(** Invariant rule for a fallible loop: [I] is indexed by the processed prefix. *)
Lemma foldM_ind {S A : Type} (f : S -> A -> result E S) (I : list A -> S -> Prop) s0 l s :
  I [] s0 ->
  (forall pre x post s s', l = pre ++ x :: post -> I pre s -> f s x = Ok s' -> I (pre ++ [x]) s') ->
  foldM f s0 l = Ok s -> I l s.
Proof.
  intros H0 Hstep.
  cut (forall post pre s1, l = pre ++ post -> I pre s1 -> foldM f s1 post = Ok s -> I l s).
  { intros H. by apply (H l [] s0). }
  induction post as [|x post IH]; intros pre s1 Hl HI Hf; cbn in Hf.
  - rewrite app_nil_r in Hl. by simplify_eq.
  - destruct (f s1 x) as [s'|] eqn:Hx; [|done].
    eapply (IH (pre ++ [x])); [by rewrite <-app_assoc| |done].
    by eapply Hstep.
Qed.
End results.

(** ** [std::io::ErrorKind]: the kinds the program tells apart. *)
Inductive IoKind :=
| NotFound | Interrupted | WouldBlock | TimedOut | InvalidData | InvalidInput | UnexpectedEof | OtherKind.

#[export] Instance IoKind_eq_dec : EqDecision IoKind.
Proof. solve_decision. Defined.

Create HintDb iem.
Create Rewrite HintDb iem_rw.
#[export] Hint Rewrite @bind_ok @fmap_ok @ok_or_ok @fail_if_ok : iem_rw.

(** Invert a chain of result binds in a hypothesis. *)
Ltac res_inv H :=
  repeat first
    [ progress cbn beta iota in H
    | rewrite bind_ok in H | rewrite fmap_ok in H
    | rewrite ok_or_ok in H | rewrite fail_if_ok in H
    | match type of H with
      | exists _, _ => let x := fresh "x" in destruct H as [x H]
      | _ /\ _ => let H' := fresh "H" in destruct H as [H' H]
      end ].

(** Split a boolean conjunction or disjunction in the context. *)
Ltac bool_inv :=
  repeat match goal with
  | H : _ && _ = true |- _ => apply andb_true_iff in H as [? ?]
  | H : _ || _ = false |- _ => apply orb_false_iff in H as [? ?]
  | H : negb _ = true |- _ => apply negb_true_iff in H
  | H : negb _ = false |- _ => apply negb_false_iff in H
  | H : bool_decide _ = true |- _ => apply bool_decide_eq_true_1 in H
  | H : bool_decide _ = false |- _ => apply bool_decide_eq_false_1 in H
  end.

(** ** Machine integers *)

Definition u16_max : Z := 65535.
Definition u64_max : Z := 18446744073709551615.

(** [u64 + u64] as a release build computes it. *)
Definition u64_wrapping_add (a b : Z) : Z := ((a + b) mod (u64_max + 1))%Z.
(** [u64::saturating_add]. *)
Definition u64_saturating_add (a b : Z) : Z := Z.min (a + b) u64_max.

Definition u64_ok (a : Z) : Prop := (0 <= a <= u64_max)%Z.

Lemma u64_wrapping_add_small a b :
  (0 <= a + b <= u64_max)%Z -> u64_wrapping_add a b = (a + b)%Z.
Proof. intros H. apply Z.mod_small. lia. Qed.

Lemma u64_wrapping_add_ok a b : u64_ok (u64_wrapping_add a b).
Proof.
  pose proof (Z.mod_pos_bound (a + b) (u64_max + 1) ltac:(done)).
  unfold u64_wrapping_add, u64_ok. lia.
Qed.

Lemma u64_saturating_add_ok a b : u64_ok a -> u64_ok b -> u64_ok (u64_saturating_add a b).
Proof. unfold u64_ok, u64_saturating_add. lia. Qed.

(** ** Ordered maps

    A Rust [BTreeMap] is a [gmap] read in key order. *)

Definition btree_keys {V : Type} (m : gmap string V) : list string :=
  merge_sort String.le (map_to_list m).*1.

Lemma elem_of_btree_keys {V : Type} (m : gmap string V) k :
  k ∈ btree_keys m <-> is_Some (m !! k).
Proof.
  unfold btree_keys. rewrite merge_sort_Permutation, list_elem_of_fmap. split.
  - intros [[k' v] [-> Hin]]. apply elem_of_map_to_list in Hin. by exists v.
  - intros [v Hv]. exists (k, v). by rewrite elem_of_map_to_list.
Qed.

Lemma NoDup_btree_keys {V : Type} (m : gmap string V) : NoDup (btree_keys m).
Proof. unfold btree_keys. rewrite merge_sort_Permutation. apply NoDup_fst_map_to_list. Qed.

Lemma btree_keys_empty {V : Type} : btree_keys (∅ : gmap string V) = [].
Proof. done. Qed.

#[export] Hint Rewrite @elem_of_btree_keys : iem_rw.

(** ** Lists *)

(** [iter().position(p)] *)
Definition position {A : Type} (p : A -> bool) (l : list A) : option nat :=
  fst <$> list_find (fun x => Is_true (p x)) l.

Lemma position_Some {A : Type} (p : A -> bool) l i :
  position p l = Some i <->
  exists x, l !! i = Some x /\ p x = true /\ (forall j y, l !! j = Some y -> j < i -> p y = false).
Proof.
  unfold position. rewrite fmap_Some. split.
  - intros [[j x] [Hf ->]]. apply list_find_Some in Hf as (? & Hp & Hlt). exists x.
    split_and!; [done|destruct (p x); [done|by destruct Hp]|].
    intros j' y Hy Hj. specialize (Hlt _ _ Hy Hj). destruct (p y); [by destruct Hlt|done].
  - intros (x & Hl & Hp & Hlt). exists (i, x). split; [|done]. apply list_find_Some.
    split_and!; [done|by rewrite Hp|].
    intros j y Hy Hj. rewrite (Hlt _ _ Hy Hj). by intros [].
Qed.

Lemma position_None {A : Type} (p : A -> bool) l :
  position p l = None <-> forall x, x ∈ l -> p x = false.
Proof.
  unfold position. rewrite fmap_None, list_find_None, Forall_forall.
  split; intros H x Hx; specialize (H x Hx); destruct (p x); cbn in *; naive_solver.
Qed.

Lemma existsb_elem {A : Type} (p : A -> bool) l :
  existsb p l = true <-> exists x, x ∈ l /\ p x = true.
Proof. rewrite existsb_exists. setoid_rewrite list_elem_of_In. done. Qed.

Lemma existsb_none {A : Type} (p : A -> bool) l :
  existsb p l = false <-> forall x, x ∈ l -> p x = false.
Proof.
  rewrite <-not_true_iff_false, existsb_elem. split.
  - intros H x Hx. apply not_true_iff_false. naive_solver.
  - intros H [x [Hx Hp]]. by rewrite (H x Hx) in Hp.
Qed.

Lemma elem_of_concat {A : Type} (ls : list (list A)) x : x ∈ concat ls <-> exists l, l ∈ ls /\ x ∈ l.
Proof. rewrite list_elem_of_In, in_concat. setoid_rewrite <-list_elem_of_In. done. Qed.

Lemma elem_of_concat_imap {A B : Type} (f : nat -> A -> list B) l x :
  x ∈ concat (imap f l) <-> exists i a, l !! i = Some a /\ x ∈ f i a.
Proof.
  rewrite elem_of_concat. split.
  - intros (y & [i Hi]%list_elem_of_lookup & Hx). rewrite list_lookup_imap in Hi.
    apply fmap_Some in Hi as (a & Ha & ->). eauto.
  - intros (i & a & Ha & Hx). exists (f i a). split; [|done].
    apply list_elem_of_lookup. exists i. by rewrite list_lookup_imap, Ha.
Qed.

(** ** Maps built by inserting in a loop *)

Lemma foldl_insert_lookup {A V : Type} (k : A -> string) (g : string -> V) (l : list A) (m : gmap string V) i :
  foldl (fun acc x => <[k x := g (k x)]> acc) m l !! i
  = if decide (i ∈ k <$> l) then Some (g i) else m !! i.
Proof.
  revert m. induction l as [|x l IH]; intros m; cbn.
  - by rewrite decide_False by apply not_elem_of_nil.
  - rewrite IH. destruct (decide (i ∈ k <$> l)) as [Hin|Hin].
    + by rewrite decide_True by (apply elem_of_cons; by right).
    + destruct (decide (i = k x)) as [->|Hne].
      * by rewrite lookup_insert_eq, decide_True by (apply elem_of_cons; by left).
      * rewrite lookup_insert_ne by done. rewrite decide_False; [done|].
        rewrite elem_of_cons. tauto.
Qed.

Lemma foldl_insert_notin {A V : Type} (k : A -> string) (f : A -> V) (l : list A) (m : gmap string V) i :
  i ∉ k <$> l -> foldl (fun acc x => <[k x := f x]> acc) m l !! i = m !! i.
Proof.
  revert m. induction l as [|x l IH]; intros m; cbn; [done|].
  rewrite not_elem_of_cons. intros [? ?]. by rewrite IH, lookup_insert_ne.
Qed.

(** With distinct keys every element's own value is found. *)
Lemma foldl_insert_in {A V : Type} (k : A -> string) (f : A -> V) (l : list A) (m : gmap string V) x :
  NoDup (k <$> l) -> x ∈ l -> foldl (fun acc x => <[k x := f x]> acc) m l !! k x = Some (f x).
Proof.
  revert m. induction l as [|y l IH]; intros m; cbn; [by intros _ ?%not_elem_of_nil|].
  intros [Hy Hl]%NoDup_cons [->|Hin]%elem_of_cons.
  - by rewrite foldl_insert_notin, lookup_insert_eq.
  - by apply IH.
Qed.

Lemma foldl_insert_is_Some {A V : Type} (k : A -> string) (f : A -> V) (l : list A) i :
  is_Some (foldl (fun acc x => <[k x := f x]> acc) (∅ : gmap string V) l !! i) <-> i ∈ k <$> l.
Proof.
  cut (forall m : gmap string V, is_Some (foldl (fun acc x => <[k x := f x]> acc) m l !! i)
       <-> i ∈ k <$> l \/ is_Some (m !! i)).
  { intros H. rewrite H, lookup_empty. split; [|by left]. by intros [|[? [=]]]. }
  induction l as [|x l IH]; intros m; cbn.
  - split; [by right|]. by intros [?%not_elem_of_nil|].
  - rewrite IH, elem_of_cons, lookup_insert_is_Some. destruct (decide (i = k x)); naive_solver.
Qed.

(** A loop that inserts [zip keys values]. *)
Lemma foldl_pairs {A V : Type} (k : A -> string) (l : list (A * V)) (m : gmap string V) :
  foldl (fun acc '(x, y) => <[k x := y]> acc) m l = foldl (fun acc p => <[k p.1 := p.2]> acc) m l.
Proof. revert m. induction l as [|[x y] l IH]; intros m; cbn; [done|]. apply IH. Qed.

Lemma fmap_zip_fst {A V B : Type} (k : A -> B) (l : list A) (vs : list V) :
  length vs = length l -> (fun p => k p.1) <$> zip l vs = k <$> l.
Proof.
  revert vs. induction l as [|a l IH]; intros [|v vs]; cbn; intros H; [done..|].
  f_equal. apply IH. lia.
Qed.

Lemma zip_insert_lookup {A V : Type} (k : A -> string) (l : list A) (vs : list V) i a v :
  NoDup (k <$> l) -> length vs = length l -> l !! i = Some a -> vs !! i = Some v ->
  foldl (fun acc '(x, y) => <[k x := y]> acc) (∅ : gmap string V) (zip l vs) !! k a = Some v.
Proof.
  intros Hnd Hlen Ha Hv.
  assert (Hz : zip l vs !! i = Some (a, v)) by (apply lookup_zip_with_Some; eauto).
  rewrite foldl_pairs.
  change (k a) with ((fun p : A * V => k p.1) (a, v)). change v with (snd (a, v)) at 2.
  apply (foldl_insert_in (fun p : A * V => k p.1) snd).
  - by rewrite fmap_zip_fst.
  - by eapply list_elem_of_lookup_2.
Qed.

Lemma zip_insert_is_Some {A V : Type} (k : A -> string) (l : list A) (vs : list V) i :
  length vs = length l ->
  is_Some (foldl (fun acc '(x, y) => <[k x := y]> acc) (∅ : gmap string V) (zip l vs) !! i) <-> i ∈ k <$> l.
Proof.
  intros Hlen.
  rewrite foldl_pairs.
  rewrite (foldl_insert_is_Some (fun p : A * V => k p.1) snd).
  by rewrite fmap_zip_fst.
Qed.

Lemma zip_insert_Some {A V : Type} (k : A -> string) (l : list A) (vs : list V) i v :
  NoDup (k <$> l) -> length vs = length l ->
  foldl (fun acc '(x, y) => <[k x := y]> acc) (∅ : gmap string V) (zip l vs) !! i = Some v -> v ∈ vs.
Proof.
  intros Hnd Hlen Hi.
  assert (i ∈ k <$> l) as Hin by (eapply zip_insert_is_Some; [exact Hlen|by eexists]).
  apply list_elem_of_fmap in Hin as (a & -> & [j Hj]%list_elem_of_lookup).
  destruct (lookup_lt_is_Some_2 vs j) as [w Hw]; [rewrite Hlen; by eapply lookup_lt_Some|].
  rewrite (zip_insert_lookup k l vs j a w) in Hi by done. simplify_eq. by eapply list_elem_of_lookup_2.
Qed.

(** Changing one of the values changes its key. *)
Lemma zip_insert_update {A V : Type} (k : A -> string) (l : list A) (vs : list V) i a v :
  NoDup (k <$> l) -> length vs = length l -> l !! i = Some a ->
  foldl (fun acc '(x, y) => <[k x := y]> acc) (∅ : gmap string V) (zip l (<[i := v]> vs))
  = <[k a := v]> (foldl (fun acc '(x, y) => <[k x := y]> acc) (∅ : gmap string V) (zip l vs)).
Proof.
  intros Hnd Hlen Ha. assert (Hlen' : length (<[i := v]> vs) = length l) by by rewrite length_insert.
  apply map_eq. intros j. destruct (decide (j ∈ k <$> l)) as [Hj|Hj].
  - apply list_elem_of_fmap in Hj as (b & -> & [n Hn]%list_elem_of_lookup).
    assert (Hlt : (n < length vs)%nat) by (rewrite Hlen; by eapply lookup_lt_Some).
    destruct (lookup_lt_is_Some_2 vs n Hlt) as [w Hw].
    destruct (decide (n = i)) as [->|Hne].
    + simplify_eq. rewrite lookup_insert_eq. apply (zip_insert_lookup k _ _ i); try done. by apply list_lookup_insert_eq.
    + rewrite lookup_insert_ne.
      * rewrite (zip_insert_lookup k l (<[i := v]> vs) n b w), (zip_insert_lookup k l vs n b w); try done.
        by rewrite list_lookup_insert_ne.
      * intros Hk. apply Hne. eapply (NoDup_lookup (k <$> l)); [exact Hnd|..]; rewrite list_lookup_fmap; [by rewrite Hn|].
        by rewrite Ha, <-Hk.
  - assert (Hki : k a ∈ k <$> l) by (apply list_elem_of_fmap; exists a; split; [done|by eapply list_elem_of_lookup_2]).
    rewrite lookup_insert_ne by (intros <-; done).
    trans (@None V); [|symmetry]; apply eq_None_not_Some; by rewrite zip_insert_is_Some.
Qed.
