(* ===== verification/F64.v ===== *)
(** * Binary64 floating point

    Rust's [f64] as the Standard Library's [spec_float] at precision 53: an
    axiom-free, executable model of IEEE-754 binary64 (one NaN, the payload is
    never observed by the code modelled here).  Holds the operations the
    modelled code uses (comparison, [clamp], [is_finite], multiplication,
    [round], the saturating [as u64]) and the order lemmas about them.

    Then the arithmetic of the audio path and of [f32]. *)

From S2P Require Import Prelude.
From Stdlib Require Import SpecFloat.
From stdpp Require Import options.
Local Open Scope Z_scope.

Abbreviation f64 := spec_float.

Definition f64_prec : Z := 53.
Definition f64_emax : Z := 1024.

#[export] Instance f64_eq_dec : EqDecision f64.
Proof. solve_decision. Defined.

(** Decimal literals: [n / 10^k] rounded to nearest, as the compiler reads a
    float literal. *)
Definition f64_lit (n : Z) (k : Z) : f64 :=
  match n with
  | Z0 => S754_zero false
  | Zpos p => SFdiv f64_prec f64_emax (S754_finite false p 0) (S754_finite false (Z.to_pos (10 ^ k)) 0)
  | Zneg p => SFdiv f64_prec f64_emax (S754_finite true p 0) (S754_finite false (Z.to_pos (10 ^ k)) 0)
  end.

(** [==], [<], [<=] on [f64] (false on NaN). *)
Definition f64_eqb (x y : f64) : bool := SFeqb x y.
Definition f64_ltb (x y : f64) : bool := SFltb x y.
Definition f64_leb (x y : f64) : bool := SFleb x y.

Definition f64_is_finite (x : f64) : bool :=
  match x with S754_zero _ | S754_finite _ _ _ => true | _ => false end.

(** [f64::clamp]. *)
Definition f64_clamp (v lo hi : f64) : f64 :=
  let v := if f64_ltb v lo then lo else v in
  if f64_ltb hi v then hi else v.

Definition f64_mul (x y : f64) : f64 := SFmul f64_prec f64_emax x y.
Definition f64_div (x y : f64) : f64 := SFdiv f64_prec f64_emax x y.

(** [f64::from(u32)]. *)
Definition f64_of_u32 (n : Z) : f64 := binary_normalize f64_prec f64_emax n 0 false.

(** [x.round() as u64]: nearest integer, ties away from zero, then saturated
    into [0 .. 2^64) (NaN and negatives give 0). *)
Definition f64_round_u64 (x : f64) : Z :=
  match x with
  | S754_zero _ | S754_nan | S754_infinity true => 0
  | S754_infinity false => u64_max
  | S754_finite true _ _ => 0
  | S754_finite false m e =>
      Z.min u64_max
        (if 0 <=? e then Z.pos m * 2 ^ e
         else (Z.pos m + 2 ^ (- e - 1)) / 2 ^ (- e))
  end.

(** ** Order *)

Definition f64_is_nan (x : f64) : bool := match x with S754_nan => true | _ => false end.

Lemma SFcompare_antisym (x y : f64) :
  SFcompare y x = CompOpp <$> SFcompare x y.
Proof.
  destruct x as [sx|sx| |sx mx ex], y as [sy|sy| |sy my ey]; cbn;
    repeat match goal with b : bool |- _ => destruct b end; cbn; try done;
    rewrite (Z.compare_antisym ex ey); destruct (Z.compare_spec ex ey); cbn; try done;
    rewrite (Pos.compare_antisym mx my : Pos.compare_cont Eq my mx = _);
    change (Pos.compare_cont Eq mx my) with (Pos.compare mx my); by destruct (Pos.compare mx my).
Qed.

Lemma SFcompare_total (x y : f64) :
  f64_is_nan x = false -> f64_is_nan y = false -> is_Some (SFcompare x y).
Proof.
  destruct x as [[]|[]| |[] ? ex], y as [[]|[]| |[] ? ey]; cbn; try done; intros; eauto;
    destruct (ex ?= ey); eauto.
Qed.

Lemma f64_finite_nan x : f64_is_finite x = true -> f64_is_nan x = false.
Proof. by destruct x. Qed.

Lemma f64_ltb_leb x y :
  f64_is_nan x = false -> f64_is_nan y = false ->
  f64_ltb x y = false <-> f64_leb y x = true.
Proof.
  intros Hx Hy. unfold f64_ltb, f64_leb, SFltb, SFleb.
  rewrite (SFcompare_antisym x y). destruct (SFcompare_total x y Hx Hy) as [c ->].
  by destruct c.
Qed.

Lemma f64_leb_refl x : f64_is_nan x = false -> f64_leb x x = true.
Proof.
  destruct x as [[]|[]| |[] m e]; cbn; try done; intros _; unfold f64_leb, SFleb; cbn;
    rewrite Z.compare_refl, Pos.compare_cont_refl; done.
Qed.

Lemma f64_eqb_refl x : f64_is_nan x = false -> f64_eqb x x = true.
Proof.
  destruct x as [[]|[]| |[] m e]; cbn; try done; intros _; unfold f64_eqb, SFeqb; cbn;
    rewrite Z.compare_refl, Pos.compare_cont_refl; done.
Qed.

(** Numeric equality identifies only the two zeros. *)
Lemma f64_eqb_spec x y :
  f64_eqb x y = true ->
  x = y \/ (exists s s', x = S754_zero s /\ y = S754_zero s').
Proof.
  unfold f64_eqb, SFeqb.
  destruct x as [sx|sx| |sx mx ex], y as [sy|sy| |sy my ey]; cbn;
    repeat match goal with b : bool |- _ => destruct b end; try done; intros H; eauto 10;
    left; destruct (Z.compare_spec ex ey); subst; try done;
    destruct (Pos.compare_cont Eq mx my) eqn:Hc; try done;
    apply Pos.compare_eq in Hc; by subst.
Qed.

(** ** Ranges *)

Definition f64_in (r : f64 * f64) (v : f64) : bool := f64_leb r.1 v && f64_leb v r.2.

(** A usable range: finite, ordered bounds. *)
Definition range_ok (r : f64 * f64) : bool :=
  f64_is_finite r.1 && f64_is_finite r.2 && f64_leb r.1 r.2.

Lemma f64_clamp_in r v :
  range_ok r = true -> f64_is_nan v = false -> f64_in r (f64_clamp v r.1 r.2) = true.
Proof.
  destruct r as [lo hi]; unfold range_ok, f64_in, f64_clamp; cbn. intros H Hv. bool_inv.
  assert (f64_is_nan lo = false) by by apply f64_finite_nan.
  assert (f64_is_nan hi = false) by by apply f64_finite_nan.
  destruct (f64_ltb v lo) eqn:Hlo.
  - assert (f64_ltb hi lo = false) as -> by by apply f64_ltb_leb.
    by rewrite f64_leb_refl.
  - destruct (f64_ltb hi v) eqn:Hhi.
    + by rewrite f64_leb_refl, andb_true_r.
    + apply f64_ltb_leb in Hlo, Hhi; try done. by rewrite Hlo, Hhi.
Qed.

Lemma f64_in_nan r v : range_ok r = true -> f64_in r v = true -> f64_is_nan v = false.
Proof.
  destruct r as [lo hi], v as [| | |]; unfold f64_in, range_ok; cbn; try done.
  intros _. by destruct lo as [[]|[]| |[]].
Qed.

Lemma f64_clamp_id r v :
  range_ok r = true -> f64_in r v = true -> f64_clamp v r.1 r.2 = v.
Proof.
  intros Hr Hin. pose proof (f64_in_nan _ _ Hr Hin) as Hv.
  destruct r as [lo hi]; unfold range_ok, f64_in, f64_clamp in *; cbn in *. bool_inv.
  assert (f64_is_nan lo = false) by by apply f64_finite_nan.
  assert (f64_is_nan hi = false) by by apply f64_finite_nan.
  assert (f64_ltb v lo = false) as -> by by apply f64_ltb_leb.
  by assert (f64_ltb hi v = false) as -> by by apply f64_ltb_leb.
Qed.

Lemma f64_clamp_finite r v :
  range_ok r = true -> f64_is_finite v = true -> f64_is_finite (f64_clamp v r.1 r.2) = true.
Proof.
  destruct r as [lo hi]; unfold range_ok, f64_clamp; cbn. intros H Hv. bool_inv.
  by repeat case_match.
Qed.

Lemma f64_in_finite r v : range_ok r = true -> f64_in r v = true -> f64_is_finite v = true.
Proof.
  destruct r as [lo hi]; unfold range_ok, f64_in; cbn. intros; bool_inv.
  by destruct v as [|[]| |], lo as [|[]| |[]], hi as [|[]| |[]].
Qed.

Lemma f64_round_u64_ok x : u64_ok (f64_round_u64 x).
Proof.
  unfold u64_ok, f64_round_u64. destruct x as [|[]| |[] m e]; try done.
  destruct (Z.leb_spec 0 e) as [He|He].
  - assert (0 < 2 ^ e) by (by apply Z.pow_pos_nonneg). unfold u64_max in *; nia.
  - assert (0 < 2 ^ (- e - 1)) by (apply Z.pow_pos_nonneg; lia).
    assert (0 < 2 ^ (- e)) by (apply Z.pow_pos_nonneg; lia).
    pose proof (Z.div_pos (Z.pos m + 2 ^ (- e - 1)) (2 ^ (- e))). unfold u64_max. lia.
Qed.

#[export] Hint Resolve f64_finite_nan f64_leb_refl f64_eqb_refl : iem.

(** * More of binary64: the arithmetic of the audio path

    Addition, subtraction, square root, [min], [max], truncation, casts and the
    constants of [core::f64::consts], over the same [spec_float] as [F64].
    The functions a platform's math library computes ([sin], [tan], [exp], ...)
    are the parameter [RtMath]. *)

From S2P Require Import Prelude.
From Stdlib Require Import SpecFloat.
From stdpp Require Import options.
Local Open Scope Z_scope.

Declare Scope f64_scope.
Delimit Scope f64_scope with F.

Definition f64_add (x y : f64) : f64 := SFadd f64_prec f64_emax x y.
Definition f64_sub (x y : f64) : f64 := SFsub f64_prec f64_emax x y.
Definition f64_neg (x : f64) : f64 := SFopp x.
Definition f64_abs (x : f64) : f64 := SFabs x.
Definition f64_sqrt (x : f64) : f64 := SFsqrt f64_prec f64_emax x.

Infix "+" := f64_add : f64_scope.
Infix "-" := f64_sub : f64_scope.
Infix "*" := f64_mul : f64_scope.
Infix "/" := f64_div : f64_scope.
Notation "- x" := (f64_neg x) : f64_scope.

(** [f64::max], [f64::min]: a NaN gives the other value. *)
Definition f64_max (x y : f64) : f64 :=
  if f64_is_nan x then y else if f64_is_nan y then x else if f64_ltb x y then y else x.
Definition f64_min (x y : f64) : f64 :=
  if f64_is_nan x then y else if f64_is_nan y then x else if f64_ltb y x then y else x.

(** [x as f32]: rounded to binary32. *)
Definition f64_as_f32 (x : f64) : f64 :=
  match x with S754_finite s m e => binary_round 24 128 s m e | x => x end.

(** [n as f64] of a [u64] and of a [usize]. *)
Definition f64_of_u64 (n : Z) : f64 := binary_normalize f64_prec f64_emax n 0 false.

(** The integer part of a magnitude. *)
Definition int_part (m : positive) (e : Z) : Z := if 0 <=? e then Z.pos m * 2 ^ e else Z.pos m / 2 ^ (- e).

Definition f64_trunc (x : f64) : f64 :=
  match x with
  | S754_finite s m e =>
      if 0 <=? e then x
      else binary_normalize f64_prec f64_emax ((if s then -1 else 1) * int_part m e) 0 s
  | x => x
  end.

Definition f64_fract (x : f64) : f64 := f64_sub x (f64_trunc x).

(** [x as usize]. *)
Definition f64_as_usize (x : f64) : nat :=
  match x with
  | S754_finite false m e => Z.to_nat (Z.min u64_max (int_part m e))
  | S754_infinity false => Z.to_nat u64_max
  | _ => 0%nat
  end.

Definition u32_max : Z := 4294967295.
Definition u32_wrapping_add (a b : Z) : Z := (a + b) mod (u32_max + 1).

(** [x.round() as u32]. *)
Definition f64_round_u32 (x : f64) : Z := Z.min u32_max (f64_round_u64 x).

Definition f64_0 : f64 := S754_zero false.
Definition f64_1 : f64 := Eval vm_compute in f64_lit 1 0.
Definition f64_2 : f64 := Eval vm_compute in f64_lit 2 0.
Definition f64_half : f64 := Eval vm_compute in f64_lit 5 1.
Definition f64_20 : f64 := Eval vm_compute in f64_lit 20 0.
Definition f64_1000 : f64 := Eval vm_compute in f64_lit 1000 0.

Definition PI : f64 := Eval vm_compute in f64_lit 314159265358979323846264338327950288 35.
Definition TAU : f64 := Eval vm_compute in f64_lit 628318530717958647692528676655900577 35.
Definition FRAC_PI_2 : f64 := Eval vm_compute in f64_lit 157079632679489661923132169163975144 35.
Definition FRAC_PI_4 : f64 := Eval vm_compute in f64_lit 785398163397448309615660845819875721 36.
Definition LN_2 : f64 := Eval vm_compute in f64_lit 693147180559945309417232121458176568 36.
Definition SQRT_2 : f64 := Eval vm_compute in f64_lit 141421356237309504880168872420969808 35.

(** [f64::sin], [tan], [sinh], [log2], [log10], [exp2], [exp] of the platform. *)
Class RtMath := {
  f64_sin : f64 -> f64;
  f64_tan : f64 -> f64;
  f64_sinh : f64 -> f64;
  f64_log2 : f64 -> f64;
  f64_log10 : f64 -> f64;
  f64_exp2 : f64 -> f64;
  f64_exp : f64 -> f64;
}.

Example consts_ok : PI = S754_finite false 7074237752028440 (-51) /\ f64_fract (f64_lit 125 2) = f64_lit 25 2
  /\ f64_as_usize (f64_lit 199 1) = 19%nat.
Proof. split_and!; vm_compute; reflexivity. Qed.
