(* ===== verification/Text.v ===== *)
(** * Text

    The string operations of Rust's standard library that the modelled code
    uses, on byte strings: prefix and suffix stripping, [split_once], decimal
    formatting (with zero padding), [str::parse] of unsigned integers with its
    overflow error, hexadecimal formatting, cutting a string at a UTF-8
    character boundary, and splitting it into pieces and lines. *)

From S2P Require Import Prelude.
From Stdlib Require Import Ascii.
From Stdlib Require String.
From stdpp Require Import options.
Local Open Scope Z_scope.

Definition slen (s : string) : nat := String.length s.

(** ** Slicing *)

(** [s.get(..n)] *)
Fixpoint str_take (n : nat) (s : string) : string :=
  match n, s with
  | S n, String c s => String c (str_take n s)
  | _, _ => ""
  end.

Fixpoint strip_prefix (p s : string) : option string :=
  match p, s with
  | EmptyString, _ => Some s
  | String a p, String b s => if decide (a = b) then strip_prefix p s else None
  | String _ _, EmptyString => None
  end.

(** [s.strip_suffix(p)]: the first suffix of [s] equal to [p], cut off. *)
Fixpoint strip_suffix (p s : string) : option string :=
  if decide (s = p) then Some ""
  else match s with
       | EmptyString => None
       | String c s => String c <$> strip_suffix p s
       end.

(** [s.split_once(sep)]: around the first occurrence of [sep]. *)
Fixpoint split_once (sep s : string) : option (string * string) :=
  match strip_prefix sep s with
  | Some rest => Some ("", rest)
  | None =>
      match s with
      | EmptyString => None
      | String c s => '(a, b) ← split_once sep s; Some (String c a, b)
      end
  end.

Fixpoint str_forallb (p : ascii -> bool) (s : string) : bool :=
  match s with EmptyString => true | String c s => p c && str_forallb p s end.

Lemma str_app_cons c (a b : string) : String c a +:+ b = String c (a +:+ b).
Proof. done. Qed.

Lemma str_app_nil_l (a : string) : "" +:+ a = a.
Proof. done. Qed.

Lemma str_app_assoc (a b c : string) : (a +:+ b) +:+ c = a +:+ (b +:+ c).
Proof. induction a as [|x a IH]; [done|]. by rewrite !str_app_cons, IH. Qed.

Lemma str_app_nil_r (a : string) : a +:+ "" = a.
Proof. induction a as [|x a IH]; [done|]. by rewrite str_app_cons, IH. Qed.

Lemma slen_app (a b : string) : slen (a +:+ b) = (slen a + slen b)%nat.
Proof. unfold slen. induction a as [|x a IH]; [done|]. rewrite str_app_cons. cbn. by rewrite IH. Qed.

Lemma str_forallb_app p (a b : string) : str_forallb p (a +:+ b) = str_forallb p a && str_forallb p b.
Proof. induction a as [|x a IH]; [done|]. rewrite str_app_cons. cbn. by rewrite IH, andb_assoc. Qed.

Lemma strip_prefix_Some p s r : strip_prefix p s = Some r <-> s = p +:+ r.
Proof.
  revert s. induction p as [|a p IH]; intros s; cbn.
  - split; [by intros [= ->]|by intros ->].
  - destruct s as [|b s]; [split; [done|by intros [=]]|].
    case_decide; subst; [rewrite IH, str_app_cons; split; congruence|].
    rewrite str_app_cons. split; [done|congruence].
Qed.

Lemma strip_prefix_app p r : strip_prefix p (p +:+ r) = Some r.
Proof. by apply strip_prefix_Some. Qed.

Lemma strip_suffix_app p r : strip_suffix p (r +:+ p) = Some r.
Proof.
  induction r as [|c r IH]; cbn.
  - change ("" +:+ p) with p. destruct p; cbn; by rewrite decide_True by done.
  - rewrite str_app_cons. cbn. rewrite decide_False.
    + by rewrite IH.
    + intros H. apply (f_equal slen) in H. rewrite <-str_app_cons, slen_app in H. cbn in H. lia.
Qed.

Lemma strip_suffix_Some p s r : strip_suffix p s = Some r -> s = r +:+ p.
Proof.
  revert r. induction s as [|c s IH]; intros r; cbn; case_decide; subst; try congruence.
  - by intros [= <-].
  - by intros [= <-].
  - rewrite fmap_Some. intros (r' & Hr & ->). rewrite str_app_cons. f_equal. by apply IH.
Qed.

(** A separator that starts with a character [s] lacks is found at its first
    copy. *)
Lemma split_once_app (c : ascii) sep' (a b : string) :
  str_forallb (fun x => negb (bool_decide (x = c))) a = true ->
  split_once (String c sep') (a +:+ String c sep' +:+ b) = Some (a, b).
Proof.
  induction a as [|x a IH]; cbn; intros H.
  - rewrite str_app_nil_l, str_app_cons. cbn. by rewrite decide_True, strip_prefix_app by done.
  - bool_inv. rewrite str_app_cons. cbn. rewrite decide_False by congruence. by rewrite IH.
Qed.

Lemma split_once_None (c : ascii) sep' (a : string) :
  str_forallb (fun x => negb (bool_decide (x = c))) a = true ->
  split_once (String c sep') a = None.
Proof.
  induction a as [|x a IH]; cbn; intros H; [done|].
  bool_inv. rewrite decide_False by congruence. by rewrite IH.
Qed.

(** ** Decimal numbers *)

Definition digit_char (d : Z) : ascii := ascii_of_nat (48 + Z.to_nat d).

Definition digit_val (c : ascii) : option Z :=
  let n := Z.of_nat (nat_of_ascii c) in
  if (48 <=? n) && (n <=? 57) then Some (n - 48) else None.

(** The decimal digits of [n], most significant first; [fuel] bounds their
    number. *)
Fixpoint dec_digits (fuel : nat) (n : Z) (acc : string) : string :=
  match fuel with
  | O => acc
  | S fuel =>
      let acc := String (digit_char (n mod 10)) acc in
      if n <? 10 then acc else dec_digits fuel (n / 10) acc
  end.

(** [format!("{n}")] of an unsigned integer. *)
Definition dec (n : Z) : string := dec_digits (S (Z.to_nat (Z.log2 n))) n "".

Fixpoint zeros (n : nat) : string :=
  match n with O => "" | S n => String "0" (zeros n) end.

(** [format!("{n:0w}")]: padded with zeros to at least [w] characters. *)
Definition dec_pad (w : nat) (n : Z) : string := zeros (w - slen (dec n)) +:+ dec n.

(** The digit loop of [str::parse] for an unsigned integer of maximum [max]. *)
Fixpoint parse_digits (max : Z) (acc : Z) (s : string) : option Z :=
  match s with
  | EmptyString => Some acc
  | String c s =>
      d ← digit_val c;
      let acc := acc * 10 + d in
      if max <? acc then None else parse_digits max acc s
  end.

(** [s.parse::<uN>().ok()]: an optional [+], then at least one digit. *)
Definition parse_uint (max : Z) (s : string) : option Z :=
  match s with
  | EmptyString => None
  | String c rest =>
      if decide (c = "+"%char)
      then match rest with EmptyString => None | _ => parse_digits max 0 rest end
      else parse_digits max 0 s
  end.

Definition parse_u64 : string -> option Z := parse_uint u64_max.
Definition parse_u32 : string -> option Z := parse_uint 4294967295.

Definition is_digit (c : ascii) : bool := bool_decide (is_Some (digit_val c)).

Lemma digit_val_char d : 0 <= d < 10 -> digit_val (digit_char d) = Some d.
Proof.
  intros Hd. assert (exists k, d = Z.of_nat k /\ (k < 10)%nat) as (k & -> & Hk).
  { exists (Z.to_nat d). lia. }
  do 10 (destruct k as [|k]; [done|]). lia.
Qed.

Lemma dec_digits_app fuel n acc : dec_digits fuel n acc = dec_digits fuel n "" +:+ acc.
Proof.
  revert n acc. induction fuel as [|fuel IH]; intros n acc; cbn; [done|].
  destruct (n <? 10); [done|]. rewrite IH, (IH _ (String _ "")).
  by rewrite str_app_assoc.
Qed.

Lemma parse_digits_app max acc a b :
  parse_digits max acc (a +:+ b) = acc' ← parse_digits max acc a; parse_digits max acc' b.
Proof.
  revert acc. induction a as [|c a IH]; intros acc; [done|].
  rewrite str_app_cons. cbn. destruct (digit_val c); cbn; [|done]. by case_match.
Qed.

Lemma parse_dec_digits max fuel n :
  0 <= n <= max -> n < 2 ^ Z.of_nat fuel ->
  parse_digits max 0 (dec_digits fuel n "") = Some n.
Proof.
  revert n. induction fuel as [|fuel IH]; intros n Hn Hf; [cbn in *; f_equal; lia|].
  cbn [dec_digits]. pose proof (Z.mod_pos_bound n 10 ltac:(done)).
  pose proof (Z.div_mod n 10 ltac:(done)).
  destruct (Z.ltb_spec n 10).
  - cbn. rewrite digit_val_char by done. cbn. rewrite Z.mod_small, Z.mul_0_l, Z.add_0_l by lia.
    destruct (Z.ltb_spec max n); [lia|]. done.
  - rewrite dec_digits_app, parse_digits_app, IH; [| |].
    + cbn. rewrite digit_val_char by done. cbn.
      replace (n / 10 * 10 + n mod 10) with n by lia.
      destruct (Z.ltb_spec max n); [lia|]. done.
    + split; [apply Z.div_pos; lia|]. apply Z.div_le_upper_bound; lia.
    + apply Z.div_lt_upper_bound; [done|]. rewrite Nat2Z.inj_succ, Z.pow_succ_r in Hf; lia.
Qed.

Lemma dec_fuel n : 0 <= n -> n < 2 ^ Z.of_nat (S (Z.to_nat (Z.log2 n))).
Proof.
  intros Hn. rewrite Nat2Z.inj_succ, Z2Nat.id by apply Z.log2_nonneg.
  destruct (decide (n = 0)) as [->|]; [done|]. apply Z.log2_spec. lia.
Qed.

Lemma digit_char_digit n : is_digit (digit_char (n mod 10)) = true.
Proof.
  unfold is_digit. rewrite digit_val_char; [done|]. by apply Z.mod_pos_bound.
Qed.

Lemma dec_digits_digits fuel n acc :
  str_forallb is_digit acc = true -> str_forallb is_digit (dec_digits fuel n acc) = true.
Proof.
  revert n acc. induction fuel as [|fuel IH]; intros n acc H; cbn -[digit_char]; [done|].
  destruct (n <? 10); [|apply IH]; cbn; by rewrite digit_char_digit.
Qed.

Lemma dec_is_digits n : str_forallb is_digit (dec n) = true.
Proof. by apply dec_digits_digits. Qed.

Lemma zeros_digits k : str_forallb is_digit (zeros k) = true.
Proof. by induction k. Qed.

Lemma dec_pad_digits w n : str_forallb is_digit (dec_pad w n) = true.
Proof. unfold dec_pad. by rewrite str_forallb_app, zeros_digits, dec_is_digits. Qed.

Lemma dec_digits_nonempty fuel n acc : dec_digits (S fuel) n acc <> "".
Proof.
  revert n acc. induction fuel as [|fuel IH]; intros n acc; cbn -[digit_char dec_digits].
  - cbn. by destruct (n <? 10).
  - cbn [dec_digits]. destruct (n <? 10); [done|]. apply IH.
Qed.

Lemma dec_nonempty n : dec n <> "".
Proof. apply dec_digits_nonempty. Qed.

Lemma parse_digits_zeros max k s : 0 <= max -> parse_digits max 0 (zeros k +:+ s) = parse_digits max 0 s.
Proof.
  intros Hm. induction k as [|k IH]; [done|]. cbn [zeros]. rewrite str_app_cons. cbn.
  change (digit_val "0") with (Some 0). cbn. change (0 * 10 + 0) with 0.
  destruct (Z.ltb_spec max 0); [lia|]. done.
Qed.

(** A string that starts with a digit is parsed by the digit loop. *)
Lemma parse_uint_digits max s :
  s <> "" -> str_forallb is_digit s = true -> parse_uint max s = parse_digits max 0 s.
Proof.
  destruct s as [|c s]; [done|]. cbn -[parse_digits]. intros _ H. bool_inv.
  rewrite decide_False; [done|]. intros ->. by match goal with H : is_digit _ = true |- _ => vm_compute in H end.
Qed.

Lemma parse_dec max n : 0 <= n <= max -> parse_uint max (dec n) = Some n.
Proof.
  intros Hn. rewrite parse_uint_digits by (apply dec_nonempty || apply dec_is_digits).
  apply parse_dec_digits; [done|]. apply dec_fuel; lia.
Qed.

Lemma parse_dec_pad max w n : 0 <= n <= max -> parse_uint max (dec_pad w n) = Some n.
Proof.
  intros Hn. rewrite parse_uint_digits; [|..|apply dec_pad_digits].
  - unfold dec_pad. rewrite parse_digits_zeros by lia.
    apply parse_dec_digits; [done|]. apply dec_fuel; lia.
  - unfold dec_pad. intros H. apply (f_equal slen) in H. rewrite slen_app in H.
    pose proof (dec_nonempty n). destruct (dec n); [done|]. cbn in H. lia.
Qed.

(** Decimal formatting is injective on [u64]. *)
Lemma dec_inj n m : u64_ok n -> u64_ok m -> dec n = dec m -> n = m.
Proof.
  intros Hn Hm H. pose proof (parse_dec u64_max n Hn) as H1.
  rewrite H, parse_dec in H1 by done. congruence.
Qed.

(** The bounds a successful parse guarantees. *)
Lemma parse_digits_bound max acc s n :
  0 <= acc <= max -> parse_digits max acc s = Some n -> 0 <= n <= max.
Proof.
  revert acc. induction s as [|c s IH]; intros acc Hacc; cbn; [by intros [= <-]|].
  destruct (digit_val c) as [d|] eqn:Hd; cbn; [|done].
  destruct (Z.ltb_spec max (acc * 10 + d)); [done|]. apply IH.
  unfold digit_val in Hd. case_match eqn:Hc; [|done]. bool_inv. simplify_eq. lia.
Qed.

Lemma parse_uint_bound max s n : 0 <= max -> parse_uint max s = Some n -> 0 <= n <= max.
Proof.
  intros Hm. unfold parse_uint. destruct s as [|c s]; [done|].
  repeat case_match; try done; apply parse_digits_bound; lia.
Qed.

(** ** Hexadecimal *)

Definition hex_digit (d : Z) : ascii :=
  ascii_of_nat (Z.to_nat (if d <? 10 then 48 + d else 87 + d)).

(** [bytes.iter().map(|b| format!("{b:02x}")).collect()] *)
Fixpoint hex (bytes : list Z) : string :=
  match bytes with
  | [] => ""
  | b :: bytes => String (hex_digit (b / 16)) (String (hex_digit (b mod 16)) (hex bytes))
  end.

(** ** Cutting at a character boundary *)

Definition byte_at (s : string) (i : nat) : option Z :=
  Z.of_nat ∘ nat_of_ascii <$> String.get i s.

(** [s.is_char_boundary(i)]: the ends, or a byte that is no UTF-8
    continuation byte. *)
Definition is_char_boundary (s : string) (i : nat) : bool :=
  if decide (i = 0%nat) then true
  else match byte_at s i with
       | None => bool_decide (i = slen s)
       | Some b => (b <? 128) || (192 <=? b)
       end.

(** [while !s.is_char_boundary(end) { end -= 1 }] *)
Fixpoint boundary_below (s : string) (n : nat) : nat :=
  match n with
  | O => O
  | S n' => if is_char_boundary s n then n else boundary_below s n'
  end.

Lemma boundary_below_le s n : (boundary_below s n <= n)%nat.
Proof. induction n as [|n IH]; cbn; [done|]. case_match; lia. Qed.

Lemma boundary_below_boundary s n : is_char_boundary s (boundary_below s n) = true.
Proof. induction n as [|n IH]; cbn [boundary_below]; [done|]. by destruct (is_char_boundary s (S n)) eqn:?. Qed.

(** The cut is the last boundary at or before the limit. *)
Lemma boundary_below_max s n i :
  (i <= n)%nat -> is_char_boundary s i = true -> (i <= boundary_below s n)%nat.
Proof.
  induction n as [|n IH]; cbn [boundary_below]; intros Hi Hb; [lia|].
  destruct (is_char_boundary s (S n)) eqn:E; [done|].
  destruct (decide (i = S n)) as [->|]; [congruence|]. apply IH; [lia|done].
Qed.

Lemma slen_str_take n s : slen (str_take n s) = Nat.min n (slen s).
Proof.
  unfold slen. revert s. induction n as [|n IH]; intros [|c s]; cbn; [done..|]. by rewrite IH.
Qed.

Lemma str_take_all n s : (slen s <= n)%nat -> str_take n s = s.
Proof.
  unfold slen. revert s. induction n as [|n IH]; intros [|c s]; cbn; intros H; [done|lia|done|].
  f_equal. apply IH. lia.
Qed.

Lemma str_take_prefix n s : exists r, s = str_take n s +:+ r.
Proof.
  revert s. induction n as [|n IH]; intros s; [by exists s|].
  destruct s as [|c s]; [by exists ""|]. destruct (IH s) as [r Hr]. exists r.
  cbn. rewrite str_app_cons. by f_equal.
Qed.

(** ** Pieces *)

Definition newline : string := String (ascii_of_nat 10) "".
Definition carriage : string := String (ascii_of_nat 13) "".

(** [s.split(sep)] for a separator that is not empty. *)
Fixpoint split_fuel (fuel : nat) (sep s : string) : list string :=
  match fuel with
  | O => [s]
  | S fuel => match split_once sep s with Some (a, b) => a :: split_fuel fuel sep b | None => [s] end
  end.
Definition split (sep s : string) : list string := split_fuel (slen s) sep s.

(** [s.lines()]: without the end of each line, and without a last empty one. *)
Fixpoint chomp (pieces : list string) : list string :=
  match pieces with
  | [] => []
  | [last] => if decide (last = "") then [] else [last]
  | line :: pieces => default line (strip_suffix carriage line) :: chomp pieces
  end.
Definition lines (s : string) : list string := chomp (split newline s).

(** [pieces.join(sep)]. *)
Fixpoint join (sep : string) (l : list string) : string :=
  match l with [] => "" | [x] => x | x :: l => x +:+ sep +:+ join sep l end.

Lemma slen_cons c s : slen (String c s) = S (slen s).
Proof. done. Qed.

Definition lacks (c : ascii) (s : string) : Prop := str_forallb (fun x => negb (bool_decide (x = c))) s = true.

Lemma split_once_Some sep s a b : split_once sep s = Some (a, b) -> s = a +:+ sep +:+ b.
Proof.
  revert a b. induction s as [|c s IH]; intros a b; cbn.
  - destruct (strip_prefix sep "") as [r|] eqn:Hp; [|done]. intros [= <- <-]. by apply strip_prefix_Some in Hp.
  - destruct (strip_prefix sep (String c s)) as [r|] eqn:Hp; [intros [= <- <-]; by apply strip_prefix_Some in Hp|].
    destruct (split_once sep s) as [[x y]|] eqn:Hs; cbn; [|done]. intros [= <- <-]. rewrite str_app_cons. f_equal. by apply IH.
Qed.

Lemma split_fuel_enough sep s n : sep <> "" -> (slen s <= n)%nat -> split_fuel n sep s = split sep s.
Proof.
  intros Hsep. assert (Hlen : forall a b, split_once sep a = Some b -> (slen b.2 < slen a)%nat).
  { intros a [x y] ->%split_once_Some. cbn [snd]. rewrite !slen_app. destruct sep; [done|]. rewrite slen_cons. lia. }
  assert (Hgo : forall k n m s, (slen s <= k)%nat -> (slen s <= n)%nat -> (slen s <= m)%nat -> split_fuel n sep s = split_fuel m sep s).
  { induction k as [|k IH]; intros n' m s' Hk Hn Hm.
    - destruct s'; [|rewrite slen_cons in Hk; lia]. assert (He : split_once sep "" = None) by (by destruct sep).
      destruct n', m; cbn [split_fuel]; by rewrite ?He.
    - destruct n' as [|n']; [destruct s'; [|rewrite slen_cons in Hn; lia]; destruct m; [done|]; cbn [split_fuel]; by destruct sep|].
      destruct m as [|m]; [destruct s'; [|rewrite slen_cons in Hm; lia]; cbn [split_fuel]; by destruct sep|].
      cbn [split_fuel]. destruct (split_once sep s') as [[a b]|] eqn:Hs; [|done]. f_equal.
      pose proof (Hlen _ _ Hs). cbn [snd] in *. apply IH; lia. }
  intros Hn. by apply (Hgo (slen s)).
Qed.

Lemma split_cons sep s a b : sep <> "" -> split_once sep s = Some (a, b) -> split sep s = a :: split sep b.
Proof.
  intros Hsep Hs. pose proof (split_once_Some _ _ _ _ Hs) as He. unfold split at 1.
  assert (Hl : (slen b < slen s)%nat) by (rewrite He, !slen_app; destruct sep; [done|]; rewrite slen_cons; lia).
  destruct (slen s) as [|n]; [lia|]. cbn [split_fuel]. rewrite Hs. f_equal. apply split_fuel_enough; [done|lia].
Qed.

Lemma split_one sep s : split_once sep s = None -> split sep s = [s].
Proof. intros Hs. unfold split. destruct (slen s); cbn [split_fuel]; by rewrite ?Hs. Qed.

(** What lacks the separator's first character is passed over. *)
Lemma split_once_skip c sep a s :
  lacks c a -> split_once (String c sep) (a +:+ s) = ('(x, y) ← split_once (String c sep) s; Some (a +:+ x, y)).
Proof.
  unfold lacks. induction a as [|x a IH]; intros Ha.
  - rewrite str_app_nil_l. by destruct (split_once _ s) as [[? ?]|].
  - cbn in Ha. bool_inv. rewrite str_app_cons. cbn. rewrite decide_False by congruence. rewrite IH by done.
    by destruct (split_once _ s) as [[? ?]|].
Qed.

Lemma strip_suffix_lacks c s : lacks c s -> strip_suffix (String c "") s = None.
Proof.
  unfold lacks. induction s as [|x s IH]; intros Hs; [done|]. cbn in *. bool_inv.
  rewrite decide_False by congruence. by rewrite IH.
Qed.

(** A text of lines: each line that is not the last ends in a newline. *)
Definition line_text (ls : list string) : Prop := Forall (fun l => lacks "010" l /\ lacks "013" l /\ l <> "") ls.

Lemma chomp_lines ls : line_text ls -> chomp ls = ls.
Proof.
  induction 1 as [|l ls (Hn & Hc & He) Hls IH]; [done|]. destruct ls as [|l' ls]; cbn [chomp].
  - by rewrite decide_False.
  - change carriage with (String "013" ""). rewrite strip_suffix_lacks by done. cbn [default from_option]. f_equal. exact IH.
Qed.

Lemma join_cons sep x y l : join sep (x :: y :: l) = x +:+ sep +:+ join sep (y :: l).
Proof. done. Qed.

Lemma split_join_lacking c ls :
  Forall (lacks c) ls -> ls <> [] -> split (String c "") (join (String c "") ls) = ls.
Proof.
  intros Hls Hne. induction Hls as [|l ls Hn Hls IH]; [done|]. destruct ls as [|l' ls].
  - cbn [join]. apply split_one. by apply split_once_None.
  - rewrite join_cons. erewrite split_cons; [| |by apply split_once_app]; [|done].
    by rewrite IH.
Qed.

Lemma split_join ls : line_text ls -> ls <> [] -> split newline (join newline ls) = ls.
Proof. intros Hls. apply split_join_lacking. eapply Forall_impl; [exact Hls|]. by intros l (Hn & _ & _). Qed.

Lemma lines_join ls : line_text ls -> ls <> [] -> lines (join newline ls) = ls.
Proof. intros Hls Hne. unfold lines. rewrite split_join by done. by apply chomp_lines. Qed.
