(* ===== verification/MixState.v ===== *)
(** * Ids of inputs, groups and mixes ([iem-engine-proto/src/ids.rs])

    [InputId], [GroupId] and [MixId] are newtypes around a [String]; they share
    one namespace in the site file, and are strings here.

    Then the mix state ([state.rs]): every level, EQ, limiter and mix with its default. *)

From S2P Require Import Prelude Text.
From Stdlib Require Import Ascii.
From stdpp Require Import options.

Abbreviation InputId := string.
Abbreviation GroupId := string.
Abbreviation MixId := string.

(** Longest id in bytes. *)
Definition MAX_ID_LEN : nat := 64.

Definition is_ascii_lowercase (c : ascii) : bool :=
  (97 <=? nat_of_ascii c) && (nat_of_ascii c <=? 122).
Definition is_ascii_digit (c : ascii) : bool :=
  (48 <=? nat_of_ascii c) && (nat_of_ascii c <=? 57).

Definition id_char (c : ascii) : bool :=
  is_ascii_lowercase c || is_ascii_digit c
  || bool_decide (c = "_"%char) || bool_decide (c = "."%char) || bool_decide (c = "-"%char).

(** 1 to 64 bytes of [a-z 0-9 _ . -], starting with a letter or digit. *)
Definition valid_id (s : string) : bool :=
  let first_ok :=
    match s with
    | EmptyString => false
    | String c _ => is_ascii_lowercase c || is_ascii_digit c
    end in
  first_ok && (slen s <=? MAX_ID_LEN) && str_forallb id_char s.

(** What a level in a mix reads: an input, or another mix the mix hears. *)
Inductive Source :=
| SrcInput (id : InputId)
| SrcMix (id : MixId).

#[export] Instance Source_eq_dec : EqDecision Source.
Proof. solve_decision. Defined.

(** [Display for Source]: the id alone. *)
Definition Source_to_string (s : Source) : string :=
  match s with SrcInput id => id | SrcMix id => id end.

(** Whose EQ a command addresses. *)
Inductive EqTarget :=
| EqInput (id : InputId)
| EqMix (id : MixId)
| EqGroup (mix : MixId) (group : GroupId).

#[export] Instance EqTarget_eq_dec : EqDecision EqTarget.
Proof. solve_decision. Defined.

Example valid_id_longest :
  valid_id "eng_mic.a-1" = true /\ valid_id "" = false /\ valid_id "Mic1" = false /\ valid_id "-x" = false.
Proof. by vm_compute. Qed.

(** An ASCII byte never continues a UTF-8 character. *)
Lemma id_char_ascii c : id_char c = true -> (nat_of_ascii c < 128)%nat.
Proof. by destruct c as [[] [] [] [] [] [] [] []]; vm_compute; intros; (done || lia). Qed.

(** * The mix state ([iem-engine-proto/src/state.rs])

    What the engine persists about the mix, and its transient state.  Values
    are in dB, Hz, octaves and pan -1..1.  [powf] of the platform's math
    library, whose precision Rust leaves open, is the operation of the class
    [Libm]; [LibmOk] is the one fact the development uses of it. *)

From S2P Require Import Prelude F64 Text.
From Stdlib Require Import SpecFloat.
From stdpp Require Import vector.
From stdpp Require Import options.
Local Open Scope Z_scope.

(** The platform's [f64::powf]. *)
Class Libm := powf : f64 -> f64 -> f64.

Definition f64_one : f64 := Eval vm_compute in f64_lit 1 0.
Definition f64_zero : f64 := S754_zero false.

(** [pow(x, +-0) = 1] for every [x] (IEEE 754-2008, 9.2.1). *)
Class LibmOk `{Libm} : Prop := powf_zero : forall b s, powf b (S754_zero s) = f64_one.

(** Persisted schema version. *)
Definition SCHEMA : Z := 2.

(** Gains at or below this many dB are silence. *)
Definition DB_OFF : f64 := Eval vm_compute in f64_lit (-150) 0.

Definition f64_ten : f64 := Eval vm_compute in f64_lit 10 0.
Definition f64_twenty : f64 := Eval vm_compute in f64_lit 20 0.

(** Linear gain of [db]; at or below [DB_OFF] (and for NaN) exactly 0. *)
Definition db_to_lin `{Libm} (db : f64) : f64 :=
  if f64_ltb DB_OFF db then powf f64_ten (f64_div db f64_twenty) else f64_zero.

Inductive BandKind := HighPass | LowShelf | Peak | HighShelf.

#[export] Instance BandKind_eq_dec : EqDecision BandKind.
Proof. solve_decision. Defined.

Record EqBand := mkEqBand {
  b_kind : BandKind;
  b_enabled : bool;
  b_freq_hz : f64;
  b_gain_db : f64;
  b_bw_oct : f64;
}.

Definition EqBand_default : EqBand :=
  Eval vm_compute in mkEqBand Peak false (f64_lit 1000 0) (f64_lit 0 0) (f64_lit 1 0).

(** A five-band EQ with its global gain. *)
Record Eq := mkEq {
  e_gain_db : f64;
  e_bands : vec EqBand 5;
}.

Definition off (kind : BandKind) (freq_hz bw_oct : f64) : EqBand :=
  mkEqBand kind false freq_hz f64_zero bw_oct.

(** ReaEQ's standard flat layout. *)
Definition Eq_default : Eq :=
  Eval vm_compute in
  mkEq (f64_lit 0 0)
    [# off HighPass (f64_lit 8020834168547682 14) (f64_lit 2 0);
       off LowShelf (f64_lit 2003077623397404 13) (f64_lit 2 0);
       off Peak (f64_lit 8019398157380639 13) (f64_lit 1 0);
       off Peak (f64_lit 29962342070275295 13) (f64_lit 1 0);
       off HighShelf (f64_lit 8016061124722856 12) (f64_lit 2 0)].

Record Limiter := mkLimiter { l_enabled : bool; l_limit_db : f64 }.

Definition Limiter_default : Limiter := Eval vm_compute in mkLimiter true (f64_lit (-6) 0).

(** An input strip. *)
Record InputState := mkInputState {
  i_trim_db : f64;
  i_processing : bool;
  i_muted : bool;
  i_eq : Eq;
}.

Definition InputState_default : InputState := mkInputState f64_zero true false Eq_default.

(** The level of one source in a mix: off by default. *)
Record Level := mkLevel { lv_gain_db : f64; lv_pan : f64; lv_muted : bool }.

Definition Level_default : Level := mkLevel DB_OFF f64_zero false.

(** A group's strip in one mix. *)
Record MixGroup := mkMixGroup { g_gain_db : f64; g_muted : bool; g_eq : Eq }.

Definition MixGroup_default : MixGroup := mkMixGroup f64_zero false Eq_default.

(** A mix's output. *)
Record MixOut := mkMixOut {
  o_volume_db : f64;
  o_muted : bool;
  o_eq : Eq;
  o_limiter : Limiter;
}.

Definition MixOut_default : MixOut := mkMixOut f64_zero false Eq_default Limiter_default.

(** One listener's mix. *)
Record Mix := mkMix {
  m_out : MixOut;
  m_inputs : gmap InputId Level;
  m_groups : gmap GroupId MixGroup;
  m_mixes : gmap MixId Level;
}.

Definition Mix_default : Mix := mkMix MixOut_default ∅ ∅ ∅.

(** The level of [source], if this mix holds one. *)
Definition Mix_level (x : Mix) (source : Source) : option Level :=
  match source with
  | SrcInput id => m_inputs x !! id
  | SrcMix id => m_mixes x !! id
  end.

(** Everything the engine persists about the mix. *)
Record MixState := mkMixState {
  s_inputs : gmap InputId InputState;
  s_mixes : gmap MixId Mix;
}.

Definition MixState_default : MixState := mkMixState ∅ ∅.

(** The soloed sources of one mix. *)
Record Solo := mkSolo { solo_mix : MixId; solo_sources : list Source }.

(** A running test signal. *)
Record TestSignal := mkTestSignal {
  ts_input : InputId;
  ts_hz : f64;
  ts_dbfs : f64;
  ts_ttl_s : f64;
}.

(** Engine state that is never persisted; slot 0 of [t_listen] is the
    engineer's listen tap, slot 1 one other mix's. *)
Record Transient := mkTransient {
  t_solo : list Solo;
  t_listen : option MixId * option MixId;
  t_test_signal : option TestSignal;
}.

(** ** Derived [PartialEq]: field by field, floats numerically. *)

Definition EqBand_eqb (a b : EqBand) : bool :=
  bool_decide (b_kind a = b_kind b) && bool_decide (b_enabled a = b_enabled b)
  && f64_eqb (b_freq_hz a) (b_freq_hz b) && f64_eqb (b_gain_db a) (b_gain_db b)
  && f64_eqb (b_bw_oct a) (b_bw_oct b).

Definition bands_eqb (a b : list EqBand) : bool :=
  (length a =? length b)%nat && forallb (fun p => EqBand_eqb p.1 p.2) (zip a b).

Definition Eq_eqb (a b : Eq) : bool :=
  f64_eqb (e_gain_db a) (e_gain_db b)
  && bands_eqb (vec_to_list (e_bands a)) (vec_to_list (e_bands b)).

Definition Limiter_eqb (a b : Limiter) : bool :=
  bool_decide (l_enabled a = l_enabled b) && f64_eqb (l_limit_db a) (l_limit_db b).

Definition InputState_eqb (a b : InputState) : bool :=
  f64_eqb (i_trim_db a) (i_trim_db b) && bool_decide (i_processing a = i_processing b)
  && bool_decide (i_muted a = i_muted b) && Eq_eqb (i_eq a) (i_eq b).

Definition Level_eqb (a b : Level) : bool :=
  f64_eqb (lv_gain_db a) (lv_gain_db b) && f64_eqb (lv_pan a) (lv_pan b)
  && bool_decide (lv_muted a = lv_muted b).

Definition MixGroup_eqb (a b : MixGroup) : bool :=
  f64_eqb (g_gain_db a) (g_gain_db b) && bool_decide (g_muted a = g_muted b)
  && Eq_eqb (g_eq a) (g_eq b).

Definition MixOut_eqb (a b : MixOut) : bool :=
  f64_eqb (o_volume_db a) (o_volume_db b) && bool_decide (o_muted a = o_muted b)
  && Eq_eqb (o_eq a) (o_eq b) && Limiter_eqb (o_limiter a) (o_limiter b).

(** ** Numeric equality as a setoid

    [==] identifies the two zeros.  [feq] is that relation made reflexive on
    NaN, so it is an equivalence; on values that are not NaN it is [==]. *)

Definition feq (x y : f64) : Prop :=
  x = y \/ exists s s', x = S754_zero s /\ y = S754_zero s'.

#[export] Instance feq_equiv : Equivalence feq.
Proof.
  split; unfold feq.
  - by left.
  - intros x y [->|(s & s' & -> & ->)]; eauto 10.
  - intros x y z [->|(s & s' & -> & ->)] [<-|(t & t' & ? & ->)]; simplify_eq; eauto 10.
Qed.

Lemma feq_eqb x y : f64_eqb x y = true -> feq x y.
Proof. apply f64_eqb_spec. Qed.

(** Adding dB values that are numerically equal gives the same linear gain. *)
#[export] Instance db_to_lin_proper `{LibmOk} : Proper (feq ==> eq) db_to_lin.
Proof.
  intros x y [->|(s & s' & -> & ->)]; [done|].
  unfold db_to_lin. replace (f64_ltb DB_OFF (S754_zero s)) with true by by destruct s.
  replace (f64_ltb DB_OFF (S754_zero s')) with true by by destruct s'.
  destruct s, s'; cbn; by rewrite !powf_zero.
Qed.

Definition band_feq (a b : EqBand) : Prop :=
  b_kind a = b_kind b /\ b_enabled a = b_enabled b /\ feq (b_freq_hz a) (b_freq_hz b)
  /\ feq (b_gain_db a) (b_gain_db b) /\ feq (b_bw_oct a) (b_bw_oct b).

Definition eq_feq (a b : Eq) : Prop :=
  feq (e_gain_db a) (e_gain_db b)
  /\ Forall2 band_feq (vec_to_list (e_bands a)) (vec_to_list (e_bands b)).

#[export] Instance band_feq_equiv : Equivalence band_feq.
Proof.
  split; unfold band_feq.
  - intros a. by split_and!.
  - intros a b. naive_solver (by symmetry).
  - intros a b c (?&?&?&?&?) (?&?&?&?&?). split_and!; by etrans.
Qed.

#[export] Instance eq_feq_equiv : Equivalence eq_feq.
Proof.
  split; unfold eq_feq.
  - intros a. by split.
  - intros a b [? ?]. split; by symmetry.
  - intros a b c [? ?] [? ?]. split; by etrans.
Qed.

Lemma band_feq_eqb a b : EqBand_eqb a b = true -> band_feq a b.
Proof.
  unfold EqBand_eqb, band_feq. intros H. bool_inv.
  split_and!; (done || by apply feq_eqb).
Qed.

Lemma bands_feq_eqb a b : bands_eqb a b = true -> Forall2 band_feq a b.
Proof.
  revert b. unfold bands_eqb. induction a as [|x a IH]; intros [|y b] H; cbn in H; try done.
  bool_inv. constructor; [by apply band_feq_eqb|]. apply IH. by apply andb_true_iff.
Qed.

Lemma eq_feq_eqb a b : Eq_eqb a b = true -> eq_feq a b.
Proof.
  unfold Eq_eqb, eq_feq. intros H. bool_inv. split; [by apply feq_eqb|by apply bands_feq_eqb].
Qed.

Definition limiter_feq (a b : Limiter) : Prop :=
  l_enabled a = l_enabled b /\ feq (l_limit_db a) (l_limit_db b).

Lemma limiter_feq_eqb a b : Limiter_eqb a b = true -> limiter_feq a b.
Proof. unfold Limiter_eqb, limiter_feq. intros H. bool_inv. split; [done|by apply feq_eqb]. Qed.

#[export] Hint Resolve feq_eqb band_feq_eqb eq_feq_eqb limiter_feq_eqb : iem.
