(* ===== verification/Msg.v ===== *)
(** * Protocol messages ([iem-engine-proto/src/msg.rs], [msg/cmd.rs],
    [msg/client.rs], [msg/engine.rs])

    The commands with the roles that may send them, the errors and changes the
    engine answers with, the topology as the protocol describes it, and the
    version negotiation. *)

From S2P Require Import Prelude F64 Text MixState.
From stdpp Require Import options.
Local Open Scope Z_scope.

Inductive Cmd :=
| SetInput (input : InputId) (trim_db : option f64) (muted processing : option bool)
| SetMix (mix : MixId) (volume_db : option f64) (muted : option bool)
| SetLevel (mix : MixId) (source : Source) (gain_db pan : option f64) (muted : option bool)
| SetGroup (mix : MixId) (group : GroupId) (gain_db : option f64) (muted : option bool)
| SetEq (target : EqTarget) (eq : Eq)
| SetLimiter (mix : MixId) (enabled : option bool) (limit_db : option f64)
| ResetLimiterStats (mix : MixId)
| SetSolo (mix : MixId) (sources : list Source)
| StartListen (mix : MixId)
| StopListen (mix : MixId)
| StartTestSignal (input : InputId) (hz dbfs ttl_s : f64)
| StopTestSignal
| Batch (ops : list Cmd)
| ImportState (state : MixState)
| GetState
| GetTopology
| SaveNow
| Shutdown
| InjectFault
| Ping
| Arm
| HilTestSignal (input : InputId) (hz dbfs ttl_s : f64) (card_tx : list Z) (listen : bool).

(** Commands an observer connection may send. *)
Definition is_read_only (c : Cmd) : bool :=
  match c with GetState | GetTopology | Ping => true | _ => false end.

(** Commands only the supervisor may send. *)
Definition is_supervisor (c : Cmd) : bool :=
  match c with Arm | HilTestSignal _ _ _ _ _ _ | InjectFault => true | _ => false end.

(** Commands a supervisor connection may send. *)
Definition supervisor_may (c : Cmd) : bool :=
  is_read_only c || is_supervisor c
  || match c with Shutdown | SaveNow | StartTestSignal _ _ _ _ | StopTestSignal => true | _ => false end.

Inductive Role := Control | Observe | Supervisor.

#[export] Instance Role_eq_dec : EqDecision Role.
Proof. solve_decision. Defined.

Inductive ErrCode :=
| BadRequest | Unsupported | UnknownId | BadValue | Forbidden | NoSource
| NotController | TooLarge | NotSupervisor.

#[export] Instance ErrCode_eq_dec : EqDecision ErrCode.
Proof. solve_decision. Defined.

Record ErrorBody := mkErrorBody { eb_code : ErrCode; eb_msg : string }.

Record InputInfo := mkInputInfo {
  ii_id : InputId;
  ii_channels : Z;
  ii_talkback : bool;
  ii_group : option GroupId;
}.

Record GroupInfo := mkGroupInfo { gi_id : GroupId; gi_inputs : list InputId }.

Record MixInfo := mkMixInfo {
  mi_id : MixId;
  mi_channels : Z;
  mi_mixes : list MixId;
  mi_peers : list MixId;
}.

Record TopologyInfo := mkTopologyInfo {
  ti_hash : string;
  ti_sample_rate : Z;
  ti_engineer : MixId;
  ti_inputs : list InputInfo;
  ti_groups : list GroupInfo;
  ti_mixes : list MixInfo;
}.

(** One changed entity, carried whole. *)
Inductive Change :=
| ChInput (id : InputId) (state : InputState)
| ChMixOut (mix : MixId) (out : MixOut)
| ChLevel (mix : MixId) (source : Source) (level : Level)
| ChGroup (mix : MixId) (group : GroupId) (state : MixGroup)
| ChSolo (mix : MixId) (sources : list Source)
| ChListen (listen : option MixId * option MixId)
| ChTestSignal (signal : option TestSignal)
| ChLimiterStatsReset (mix : MixId).

(** The protocol version this build speaks. *)
Definition PROTO : Z := 1.

(** The version both sides speak; [checked_add] on [u16]. *)
Definition negotiate (ours theirs : Z) : option Z :=
  if ours <=? theirs then Some ours
  else if (theirs + 1 <=? u16_max) && (theirs + 1 =? ours) && (0 <? theirs) then Some theirs
  else None.

(** Longest error text echoed back. *)
Definition MAX_MSG : nat := 200.

Definition short (text : string) : string :=
  if (slen text <=? MAX_MSG)%nat then text
  else str_take (boundary_below text MAX_MSG) text.

(** ** Lemmas *)

(** Role sets: a supervisor never changes the mix, and everything an observer
    may do the supervisor may too. *)
Lemma read_only_supervisor_may c : is_read_only c = true -> supervisor_may c = true.
Proof. by destruct c. Qed.

Lemma negotiate_spec ours theirs v :
  0 <= theirs <= u16_max -> 0 <= ours <= u16_max ->
  negotiate ours theirs = Some v <->
  (ours <= theirs /\ v = ours) \/ (theirs + 1 = ours /\ 0 < theirs /\ v = theirs).
Proof.
  intros Ht Ho. unfold negotiate.
  destruct (Z.leb_spec ours theirs); [split; [naive_solver|intros [[? ->]|?]; [done|lia]]|].
  destruct (Z.leb_spec (theirs + 1) u16_max); cbn; [|lia].
  destruct (Z.eqb_spec (theirs + 1) ours), (Z.ltb_spec 0 theirs); cbn;
    split; intros; naive_solver lia.
Qed.
