(* ===== verification/Shape.v ===== *)
(** * A mix state shaped by a topology ([iem-engine-proto/src/shape.rs])

    The caps the engine applies to every field from any sender, and
    [reconcile]: every slot the topology has present, known values capped,
    missing ones defaulted, and what the topology lacks dropped and named. *)

From S2P Require Import Prelude F64 Text MixState Msg.
From stdpp Require Import vector.
From stdpp Require Import options.

Abbreviation Range := (f64 * f64)%type.

Definition TRIM_DB : Range := Eval vm_compute in (DB_OFF, f64_lit 24 0).
Definition FADER_DB : Range := Eval vm_compute in (DB_OFF, f64_lit 12 0).
Definition PAN : Range := Eval vm_compute in (f64_lit (-1) 0, f64_lit 1 0).
Definition EQ_FREQ : Range := Eval vm_compute in (f64_lit 20 0, f64_lit 24000 0).
Definition EQ_GAIN_DB : Range := Eval vm_compute in (DB_OFF, f64_lit 12041199826559248 15).
Definition EQ_BW : Range := Eval vm_compute in (f64_lit 1 2, f64_lit 4 0).
Definition LIMIT_DB : Range := Eval vm_compute in (f64_lit (-6) 0, f64_lit 0 0).

(** [v] clamped into [r]; [None] when [v] is not finite. *)
Definition cap (v : f64) (r : Range) : option f64 :=
  if f64_is_finite v then Some (f64_clamp v r.1 r.2) else None.

Definition fix_ (v : f64) (r : Range) (default : f64) : f64 :=
  match cap v r with Some x => x | None => default end.

Definition band_is_finite (b : EqBand) : bool :=
  f64_is_finite (b_freq_hz b) && f64_is_finite (b_gain_db b) && f64_is_finite (b_bw_oct b).

(** Every EQ value finite. *)
Definition eq_is_finite (e : Eq) : bool :=
  f64_is_finite (e_gain_db e) && forallb band_is_finite (vec_to_list (e_bands e)).

Definition cap_band (b : EqBand) : EqBand :=
  let d := EqBand_default in
  mkEqBand (b_kind b) (b_enabled b)
    (fix_ (b_freq_hz b) EQ_FREQ (b_freq_hz d))
    (fix_ (b_gain_db b) EQ_GAIN_DB (b_gain_db d))
    (fix_ (b_bw_oct b) EQ_BW (b_bw_oct d)).

Definition cap_eq (e : Eq) : Eq :=
  mkEq (fix_ (e_gain_db e) EQ_GAIN_DB f64_zero) (vmap cap_band (e_bands e)).

Definition cap_input (s : InputState) : InputState :=
  mkInputState (fix_ (i_trim_db s) TRIM_DB f64_zero) (i_processing s) (i_muted s) (cap_eq (i_eq s)).

Definition cap_level (s : Level) : Level :=
  mkLevel (fix_ (lv_gain_db s) FADER_DB DB_OFF) (fix_ (lv_pan s) PAN f64_zero) (lv_muted s).

Definition cap_group (s : MixGroup) : MixGroup :=
  mkMixGroup (fix_ (g_gain_db s) FADER_DB f64_zero) (g_muted s) (cap_eq (g_eq s)).

Definition cap_limiter (l : Limiter) : Limiter :=
  mkLimiter (l_enabled l) (fix_ (l_limit_db l) LIMIT_DB LIMIT_DB.1).

Definition cap_out (s : MixOut) : MixOut :=
  mkMixOut (fix_ (o_volume_db s) FADER_DB f64_zero) (o_muted s) (cap_eq (o_eq s))
    (cap_limiter (o_limiter s)).

(** An id cut to 64 bytes for a message, at a character boundary. *)
Definition clip (s : string) : string :=
  str_take (boundary_below s (Nat.min (slen s) 64)) s.

(** [o.map(f).unwrap_or_default()] *)
Definition map_or {A B : Type} (f : A -> B) (d : B) (o : option A) : B :=
  match o with Some a => f a | None => d end.

Definition known_input (topo : TopologyInfo) (id : InputId) : bool :=
  existsb (fun i => bool_decide (ii_id i = id)) (ti_inputs topo).
Definition known_group (topo : TopologyInfo) (id : GroupId) : bool :=
  existsb (fun g => bool_decide (gi_id g = id)) (ti_groups topo).
Definition known_mix (topo : TopologyInfo) (id : MixId) : bool :=
  existsb (fun m => bool_decide (mi_id m = id)) (ti_mixes topo).
Definition hears (node : MixInfo) (id : MixId) : bool :=
  bool_decide (id ∈ mi_mixes node) || bool_decide (id ∈ mi_peers node).

(** One mix of the topology, filled from the given one. *)
Definition reconcile_mix (topo : TopologyInfo) (node : MixInfo) (given : option Mix) : Mix :=
  let inputs :=
    foldl (fun acc i =>
        <[ii_id i := map_or cap_level Level_default (x ← given; m_inputs x !! ii_id i)]> acc)
      ∅ (ti_inputs topo) in
  let mixes :=
    foldl (fun acc h => <[h := map_or cap_level Level_default (x ← given; m_mixes x !! h)]> acc)
      ∅ (mi_mixes node ++ mi_peers node) in
  let groups :=
    foldl (fun acc g =>
        <[gi_id g := map_or cap_group MixGroup_default (x ← given; m_groups x !! gi_id g)]> acc)
      ∅ (ti_groups topo) in
  mkMix (map_or (fun x => cap_out (m_out x)) MixOut_default given) inputs groups mixes.

(** What one given mix holds that the topology does not. *)
Definition dropped_mix (topo : TopologyInfo) (node : MixInfo) (x : Mix) : list string :=
  let name := clip (mi_id node) in
  ((fun id => "mix " +:+ name +:+ " input " +:+ clip id) <$>
     filter (fun id => known_input topo id = false) (btree_keys (m_inputs x)))
  ++ ((fun id => "mix " +:+ name +:+ " group " +:+ clip id) <$>
     filter (fun id => known_group topo id = false) (btree_keys (m_groups x)))
  ++ ((fun id => "mix " +:+ name +:+ " hearing " +:+ clip id) <$>
     filter (fun id => hears node id = false) (btree_keys (m_mixes x))).

(** [state] shaped by [topo], and what the topology does not have, named. *)
Definition reconcile (topo : TopologyInfo) (state : MixState) : MixState * list string :=
  let inputs :=
    foldl (fun acc n =>
        <[ii_id n := map_or cap_input InputState_default (s_inputs state !! ii_id n)]> acc)
      ∅ (ti_inputs topo) in
  let dropped0 :=
    (fun id => "input " +:+ clip id) <$>
      filter (fun id => known_input topo id = false) (btree_keys (s_inputs state)) in
  let step '(mixes, dropped) node :=
    let given := s_mixes state !! mi_id node in
    (<[mi_id node := reconcile_mix topo node given]> mixes,
     dropped ++ map_or (dropped_mix topo node) [] given) in
  let '(mixes, dropped) := foldl step (∅, dropped0) (ti_mixes topo) in
  let dropped_mixes :=
    (fun id => "mix " +:+ clip id) <$>
      filter (fun id => known_mix topo id = false) (btree_keys (s_mixes state)) in
  (mkMixState inputs mixes, dropped ++ dropped_mixes).

(** ** Well-formed values: every field inside its range *)

Definition band_ok (b : EqBand) : bool :=
  f64_in EQ_FREQ (b_freq_hz b) && f64_in EQ_GAIN_DB (b_gain_db b) && f64_in EQ_BW (b_bw_oct b).
Definition eq_ok (e : Eq) : bool :=
  f64_in EQ_GAIN_DB (e_gain_db e) && forallb band_ok (vec_to_list (e_bands e)).
Definition input_ok (s : InputState) : bool := f64_in TRIM_DB (i_trim_db s) && eq_ok (i_eq s).
Definition level_ok (l : Level) : bool := f64_in FADER_DB (lv_gain_db l) && f64_in PAN (lv_pan l).
Definition group_ok (g : MixGroup) : bool := f64_in FADER_DB (g_gain_db g) && eq_ok (g_eq g).
Definition out_ok (o : MixOut) : bool :=
  f64_in FADER_DB (o_volume_db o) && eq_ok (o_eq o) && f64_in LIMIT_DB (l_limit_db (o_limiter o)).

Lemma ranges_ok :
  Forall (fun r => range_ok r = true) [TRIM_DB; FADER_DB; PAN; EQ_FREQ; EQ_GAIN_DB; EQ_BW; LIMIT_DB].
Proof. repeat constructor. Qed.

(** [cap] gives a value of the range, and gives one exactly for finite values. *)
Lemma cap_in r v x : range_ok r = true -> cap v r = Some x -> f64_in r x = true.
Proof.
  unfold cap. intros Hr. destruct (f64_is_finite v) eqn:Hv; [|done]. intros [= <-].
  apply f64_clamp_in; auto with iem.
Qed.

Lemma cap_id r v : range_ok r = true -> f64_in r v = true -> cap v r = Some v.
Proof. intros Hr Hv. unfold cap. by rewrite (f64_in_finite r v), f64_clamp_id. Qed.

Lemma cap_None v r : cap v r = None <-> f64_is_finite v = false.
Proof. unfold cap. by destruct (f64_is_finite v). Qed.

Lemma fix_in r v d : range_ok r = true -> f64_in r d = true -> f64_in r (fix_ v r d) = true.
Proof. unfold fix_. intros Hr Hd. destruct (cap v r) eqn:Hc; [by eapply cap_in|done]. Qed.

Lemma fix_id r v d : range_ok r = true -> f64_in r v = true -> fix_ v r d = v.
Proof. intros Hr Hv. unfold fix_. by rewrite cap_id. Qed.

Lemma cap_band_ok b : band_ok (cap_band b) = true.
Proof. unfold band_ok, cap_band; cbn [b_freq_hz b_gain_db b_bw_oct]. by rewrite !fix_in. Qed.

Lemma cap_eq_ok e : eq_ok (cap_eq e) = true.
Proof.
  unfold eq_ok, cap_eq; cbn [e_gain_db e_bands]. rewrite fix_in by done.
  rewrite vec_to_list_map. apply forallb_forall. intros b.
  rewrite <-list_elem_of_In, list_elem_of_fmap. intros (b' & -> & _). apply cap_band_ok.
Qed.

Lemma cap_input_ok s : input_ok (cap_input s) = true.
Proof. unfold input_ok, cap_input; cbn [i_trim_db i_eq]. by rewrite fix_in, cap_eq_ok. Qed.

Lemma cap_level_ok s : level_ok (cap_level s) = true.
Proof. unfold level_ok, cap_level; cbn [lv_gain_db lv_pan]. by rewrite !fix_in. Qed.

Lemma cap_group_ok s : group_ok (cap_group s) = true.
Proof. unfold group_ok, cap_group; cbn [g_gain_db g_eq]. by rewrite fix_in, cap_eq_ok. Qed.

Lemma cap_out_ok s : out_ok (cap_out s) = true.
Proof.
  unfold out_ok, cap_out, cap_limiter; cbn [o_volume_db o_eq o_limiter l_limit_db].
  by rewrite !fix_in, cap_eq_ok.
Qed.

(** Caps do nothing to a value inside its ranges. *)
Lemma cap_band_id b : band_ok b = true -> cap_band b = b.
Proof. unfold band_ok, cap_band. intros H; bool_inv. rewrite !fix_id by done. by destruct b. Qed.

Lemma cap_eq_id e : eq_ok e = true -> cap_eq e = e.
Proof.
  unfold eq_ok, cap_eq. destruct e as [g bands]; cbn [e_gain_db e_bands]. intros H; bool_inv.
  rewrite fix_id by done. f_equal. apply vec_to_list_inj2. rewrite vec_to_list_map.
  match goal with H : forallb _ _ = true |- _ => revert H end.
  generalize (vec_to_list bands) as l. induction l as [|b l IH]; cbn; intros Hl; [done|].
  bool_inv. by rewrite cap_band_id, IH.
Qed.

Lemma cap_input_id s : input_ok s = true -> cap_input s = s.
Proof. unfold input_ok, cap_input. intros H; bool_inv. rewrite fix_id, cap_eq_id by done. by destruct s. Qed.

Lemma cap_level_id s : level_ok s = true -> cap_level s = s.
Proof. unfold level_ok, cap_level. intros H; bool_inv. rewrite !fix_id by done. by destruct s. Qed.

Lemma cap_group_id s : group_ok s = true -> cap_group s = s.
Proof. unfold group_ok, cap_group. intros H; bool_inv. rewrite fix_id, cap_eq_id by done. by destruct s. Qed.

Lemma cap_out_id s : out_ok s = true -> cap_out s = s.
Proof.
  unfold out_ok, cap_out, cap_limiter. intros H; bool_inv. rewrite !fix_id, cap_eq_id by done.
  by destruct s as [? ? ? []].
Qed.

Lemma defaults_ok :
  input_ok InputState_default = true /\ level_ok Level_default = true
  /\ group_ok MixGroup_default = true /\ out_ok MixOut_default = true.
Proof. by vm_compute. Qed.

Lemma map_or_ok {A B : Type} (p : B -> bool) (f : A -> B) d o :
  (forall a, p (f a) = true) -> p d = true -> p (map_or f d o) = true.
Proof. by destruct o; cbn. Qed.

(** ** The shape [reconcile] gives *)

Definition mix_fits (topo : TopologyInfo) (node : MixInfo) (x : Mix) : Prop :=
  out_ok (m_out x) = true
  /\ (forall id, is_Some (m_inputs x !! id) <-> id ∈ ii_id <$> ti_inputs topo)
  /\ (forall id, is_Some (m_mixes x !! id) <-> id ∈ mi_mixes node ++ mi_peers node)
  /\ (forall id, is_Some (m_groups x !! id) <-> id ∈ gi_id <$> ti_groups topo)
  /\ map_Forall (fun _ l => level_ok l = true) (m_inputs x)
  /\ map_Forall (fun _ l => level_ok l = true) (m_mixes x)
  /\ map_Forall (fun _ g => group_ok g = true) (m_groups x).

(** A state with exactly the topology's slots, every value in range. *)
Definition fits (topo : TopologyInfo) (s : MixState) : Prop :=
  (forall id, is_Some (s_inputs s !! id) <-> id ∈ ii_id <$> ti_inputs topo)
  /\ map_Forall (fun _ i => input_ok i = true) (s_inputs s)
  /\ (forall id, is_Some (s_mixes s !! id) <-> id ∈ mi_id <$> ti_mixes topo)
  /\ (forall node x, node ∈ ti_mixes topo -> s_mixes s !! mi_id node = Some x -> mix_fits topo node x).

(** Distinct mix ids, as [Topology.compile] guarantees. *)
Definition mixes_distinct (topo : TopologyInfo) : Prop := NoDup (mi_id <$> ti_mixes topo).

(** One reconciled mix, slot by slot. *)
Lemma reconcile_mix_inputs topo node given id :
  m_inputs (reconcile_mix topo node given) !! id
  = if decide (id ∈ ii_id <$> ti_inputs topo)
    then Some (map_or cap_level Level_default (x ← given; m_inputs x !! id)) else None.
Proof.
  cbn. by rewrite (foldl_insert_lookup ii_id (fun id => map_or cap_level Level_default (x ← given; m_inputs x !! id))).
Qed.

Lemma reconcile_mix_mixes topo node given id :
  m_mixes (reconcile_mix topo node given) !! id
  = if decide (id ∈ mi_mixes node ++ mi_peers node)
    then Some (map_or cap_level Level_default (x ← given; m_mixes x !! id)) else None.
Proof.
  cbn -[foldl]. rewrite (foldl_insert_lookup (fun x => x) (fun id => map_or cap_level Level_default (x ← given; m_mixes x !! id))).
  by rewrite list_fmap_id.
Qed.

Lemma reconcile_mix_groups topo node given id :
  m_groups (reconcile_mix topo node given) !! id
  = if decide (id ∈ gi_id <$> ti_groups topo)
    then Some (map_or cap_group MixGroup_default (x ← given; m_groups x !! id)) else None.
Proof.
  cbn. by rewrite (foldl_insert_lookup gi_id (fun id => map_or cap_group MixGroup_default (x ← given; m_groups x !! id))).
Qed.

Lemma reconcile_inputs topo state id :
  s_inputs (reconcile topo state).1 !! id
  = if decide (id ∈ ii_id <$> ti_inputs topo)
    then Some (map_or cap_input InputState_default (s_inputs state !! id)) else None.
Proof.
  unfold reconcile. destruct (foldl _ _ (ti_mixes topo)). cbn.
  by rewrite (foldl_insert_lookup ii_id (fun id => map_or cap_input InputState_default (s_inputs state !! id))).
Qed.

(** The loop over the mixes, split into its two accumulators. *)
Lemma reconcile_loop topo state (m0 : gmap MixId Mix) (d0 : list string) (l : list MixInfo) :
  foldl (fun '((mixes, dropped) : gmap MixId Mix * list string) node =>
      (<[mi_id node := reconcile_mix topo node (s_mixes state !! mi_id node)]> mixes,
       dropped ++ map_or (dropped_mix topo node) [] (s_mixes state !! mi_id node))) (m0, d0) l
  = (foldl (fun (acc : gmap MixId Mix) node => <[mi_id node := reconcile_mix topo node (s_mixes state !! mi_id node)]> acc) m0 l,
     d0 ++ (l ≫= fun node => map_or (dropped_mix topo node) [] (s_mixes state !! mi_id node))).
Proof.
  revert m0 d0. induction l as [|node l IH]; intros m0 d0; cbn; [by rewrite app_nil_r|].
  rewrite IH. f_equal. by rewrite <-app_assoc.
Qed.

Lemma reconcile_mixes topo state :
  s_mixes (reconcile topo state).1
  = foldl (fun acc node => <[mi_id node := reconcile_mix topo node (s_mixes state !! mi_id node)]> acc)
      ∅ (ti_mixes topo).
Proof. unfold reconcile. cbv zeta. by rewrite reconcile_loop. Qed.

Lemma reconcile_dropped topo state :
  (reconcile topo state).2
  = ((fun id => "input " +:+ clip id) <$> filter (fun id => known_input topo id = false) (btree_keys (s_inputs state)))
    ++ (ti_mixes topo ≫= fun node => map_or (dropped_mix topo node) [] (s_mixes state !! mi_id node))
    ++ ((fun id => "mix " +:+ clip id) <$> filter (fun id => known_mix topo id = false) (btree_keys (s_mixes state))).
Proof. unfold reconcile. cbv zeta. rewrite reconcile_loop. cbn. by rewrite <-app_assoc. Qed.

Lemma known_input_spec topo id : known_input topo id = true <-> id ∈ ii_id <$> ti_inputs topo.
Proof.
  unfold known_input. rewrite existsb_elem, list_elem_of_fmap.
  setoid_rewrite bool_decide_eq_true. naive_solver.
Qed.

Lemma known_group_spec topo id : known_group topo id = true <-> id ∈ gi_id <$> ti_groups topo.
Proof.
  unfold known_group. rewrite existsb_elem, list_elem_of_fmap.
  setoid_rewrite bool_decide_eq_true. naive_solver.
Qed.

Lemma known_mix_spec topo id : known_mix topo id = true <-> id ∈ mi_id <$> ti_mixes topo.
Proof.
  unfold known_mix. rewrite existsb_elem, list_elem_of_fmap.
  setoid_rewrite bool_decide_eq_true. naive_solver.
Qed.

Lemma hears_spec node id : hears node id = true <-> id ∈ mi_mixes node ++ mi_peers node.
Proof. unfold hears. rewrite orb_true_iff, !bool_decide_eq_true, elem_of_app. done. Qed.

#[export] Hint Rewrite known_input_spec known_group_spec known_mix_spec hears_spec : iem_rw.

(** The mix a topology node gets is looked up by its own id. *)
Lemma reconcile_mix_lookup topo state node :
  mixes_distinct topo -> node ∈ ti_mixes topo ->
  s_mixes (reconcile topo state).1 !! mi_id node
  = Some (reconcile_mix topo node (s_mixes state !! mi_id node)).
Proof. intros Hnd Hin. rewrite reconcile_mixes. by rewrite foldl_insert_in. Qed.

Lemma lookup_if_is_Some {V : Type} (o : option V) (P : Prop) `{!Decision P} (v : V) :
  o = (if decide P then Some v else None) -> is_Some o <-> P.
Proof.
  intros ->. case_decide; split; try done; by intros [? ?].
Qed.

Lemma reconcile_mix_fits topo node given : mix_fits topo node (reconcile_mix topo node given).
Proof.
  unfold mix_fits. split_and!.
  - cbn. by apply (map_or_ok out_ok); [intros; apply cap_out_ok|].
  - intros id. eapply lookup_if_is_Some, reconcile_mix_inputs.
  - intros id. eapply lookup_if_is_Some, reconcile_mix_mixes.
  - intros id. eapply lookup_if_is_Some, reconcile_mix_groups.
  - intros id l. rewrite reconcile_mix_inputs. case_decide; [|done]. intros [= <-].
    apply (map_or_ok level_ok); [apply cap_level_ok|done].
  - intros id l. rewrite reconcile_mix_mixes. case_decide; [|done]. intros [= <-].
    apply (map_or_ok level_ok); [apply cap_level_ok|done].
  - intros id l. rewrite reconcile_mix_groups. case_decide; [|done]. intros [= <-].
    apply (map_or_ok group_ok); [apply cap_group_ok|done].
Qed.

(** Two maps with the same keys, equal slot by slot. *)
Lemma map_eq_keys {V : Type} (m1 m2 : gmap string V) (P : string -> Prop) (f : option V -> V)
    `{!forall i, Decision (P i)} :
  (forall i, is_Some (m2 !! i) <-> P i) ->
  (forall i, m1 !! i = if decide (P i) then Some (f (m2 !! i)) else None) ->
  (forall i v, m2 !! i = Some v -> f (Some v) = v) ->
  m1 = m2.
Proof.
  intros Hk H1 Hf. apply map_eq. intros i. rewrite H1. case_decide as Hi.
  - apply Hk in Hi as [v Hv]. rewrite Hv. f_equal. eauto.
  - destruct (m2 !! i) eqn:E; [|done]. by destruct Hi; apply Hk.
Qed.

Lemma reconcile_mix_fixed topo node x :
  mix_fits topo node x -> reconcile_mix topo node (Some x) = x.
Proof.
  intros (Ho & Hi & Hm & Hg & Hli & Hlm & Hlg).
  assert (Hmi : m_inputs (reconcile_mix topo node (Some x)) = m_inputs x).
  { eapply (map_eq_keys _ _ _ (map_or cap_level Level_default) Hi (reconcile_mix_inputs topo node (Some x))).
    intros i v Hv. apply cap_level_id. by eapply Hli. }
  assert (Hmm : m_mixes (reconcile_mix topo node (Some x)) = m_mixes x).
  { eapply (map_eq_keys _ _ _ (map_or cap_level Level_default) Hm (reconcile_mix_mixes topo node (Some x))).
    intros i v Hv. apply cap_level_id. by eapply Hlm. }
  assert (Hmg : m_groups (reconcile_mix topo node (Some x)) = m_groups x).
  { eapply (map_eq_keys _ _ _ (map_or cap_group MixGroup_default) Hg (reconcile_mix_groups topo node (Some x))).
    intros i v Hv. apply cap_group_id. by eapply Hlg. }
  destruct x as [o i g m]; cbn in Hmi, Hmm, Hmg.
  unfold reconcile_mix; cbn. rewrite Hmi, Hmm, Hmg. by rewrite cap_out_id.
Qed.

Lemma fmap_nil_iff {A B : Type} (f : A -> B) (l : list A) : f <$> l = [] <-> l = [].
Proof. by destruct l. Qed.

Lemma filter_unknown_nil {V : Type} (m : gmap string V) (known : string -> bool) :
  filter (fun id => known id = false) (btree_keys m) = []
  <-> forall id, is_Some (m !! id) -> known id = true.
Proof.
  split.
  - intros Hf id Hid. destruct (known id) eqn:E; [done|].
    assert (id ∈ filter (fun id => known id = false) (btree_keys m)) as Hin.
    { apply list_elem_of_filter. split; [done|]. by apply elem_of_btree_keys. }
    rewrite Hf in Hin. by apply not_elem_of_nil in Hin.
  - intros H. destruct (filter _ _) as [|id l] eqn:E; [done|].
    assert (id ∈ filter (fun id => known id = false) (btree_keys m)) as Hin.
    { rewrite E. apply elem_of_cons. by left. }
    apply list_elem_of_filter in Hin as [Hk Hin]. apply elem_of_btree_keys in Hin.
    by rewrite (H id Hin) in Hk.
Qed.

(** Every id a state names is one the topology has. *)
Definition all_known (topo : TopologyInfo) (s : MixState) : Prop :=
  (forall id, is_Some (s_inputs s !! id) -> id ∈ ii_id <$> ti_inputs topo)
  /\ (forall id, is_Some (s_mixes s !! id) -> id ∈ mi_id <$> ti_mixes topo)
  /\ forall node x, node ∈ ti_mixes topo -> s_mixes s !! mi_id node = Some x ->
       (forall id, is_Some (m_inputs x !! id) -> id ∈ ii_id <$> ti_inputs topo)
       /\ (forall id, is_Some (m_groups x !! id) -> id ∈ gi_id <$> ti_groups topo)
       /\ (forall id, is_Some (m_mixes x !! id) -> id ∈ mi_mixes node ++ mi_peers node).

Lemma fits_all_known topo s : fits topo s -> all_known topo s.
Proof.
  intros (Hi & _ & Hm & Hn). split_and!; [naive_solver|naive_solver|].
  intros node x Hin Hx. destruct (Hn _ _ Hin Hx) as (_ & H1 & H2 & H3 & _). naive_solver.
Qed.

Lemma dropped_mix_nil topo node x :
  dropped_mix topo node x = [] <->
  (forall id, is_Some (m_inputs x !! id) -> id ∈ ii_id <$> ti_inputs topo)
  /\ (forall id, is_Some (m_groups x !! id) -> id ∈ gi_id <$> ti_groups topo)
  /\ (forall id, is_Some (m_mixes x !! id) -> id ∈ mi_mixes node ++ mi_peers node).
Proof.
  unfold dropped_mix. rewrite !app_nil, !fmap_nil_iff, !filter_unknown_nil.
  setoid_rewrite known_input_spec. setoid_rewrite known_group_spec. by setoid_rewrite hears_spec.
Qed.

Lemma bind_nil_iff {A B : Type} (f : A -> list B) (l : list A) :
  (l ≫= f) = [] <-> forall x, x ∈ l -> f x = [].
Proof.
  induction l as [|x l IH]; cbn; [split; [by intros _ ? ?%not_elem_of_nil|done]|].
  rewrite app_nil, IH. setoid_rewrite elem_of_cons. naive_solver.
Qed.

Lemma reconcile_dropped_nil topo s : (reconcile topo s).2 = [] <-> all_known topo s.
Proof.
  rewrite reconcile_dropped, !app_nil, !fmap_nil_iff, !filter_unknown_nil, bind_nil_iff.
  setoid_rewrite known_input_spec. setoid_rewrite known_mix_spec. unfold all_known.
  enough ((forall node, node ∈ ti_mixes topo -> map_or (dropped_mix topo node) [] (s_mixes s !! mi_id node) = [])
    <-> (forall node x, node ∈ ti_mixes topo -> s_mixes s !! mi_id node = Some x -> dropped_mix topo node x = []))
    as ->; [setoid_rewrite dropped_mix_nil; tauto|].
  split.
  - intros H node x Hin Hx. specialize (H node Hin). by rewrite Hx in H.
  - intros H node Hin. destruct (s_mixes s !! mi_id node) as [x|] eqn:Hx; cbn; eauto.
Qed.

(** Whatever state it is given, [reconcile] makes it fit. *)
Lemma reconcile_fits (topo : TopologyInfo) (s : MixState) :
  mixes_distinct topo -> fits topo (reconcile topo s).1.
Proof.
  intros Hnd. unfold fits. split_and!.
  - intros id. eapply lookup_if_is_Some, reconcile_inputs.
  - intros id l. rewrite reconcile_inputs. case_decide; [|done]. intros [= <-].
    apply (map_or_ok input_ok); [apply cap_input_ok|done].
  - intros id. rewrite reconcile_mixes. apply foldl_insert_is_Some.
  - intros node x Hin. rewrite reconcile_mix_lookup by done. intros [= <-].
    apply reconcile_mix_fits.
Qed.

(** A state that fits is left alone. *)
Lemma reconcile_fixed (topo : TopologyInfo) (s : MixState) :
  mixes_distinct topo -> fits topo s -> reconcile topo s = (s, []).
Proof.
  intros Hnd Hfit. apply injective_projections; cbn [fst snd].
  2: { apply reconcile_dropped_nil. by apply fits_all_known. }
  destruct Hfit as (Hi & Hio & Hm & Hn).
  assert (Hinp : s_inputs (reconcile topo s).1 = s_inputs s).
  { eapply (map_eq_keys _ _ _ (map_or cap_input InputState_default) Hi (reconcile_inputs topo s)).
    intros i v Hv. apply cap_input_id. by eapply Hio. }
  assert (Hmix : s_mixes (reconcile topo s).1 = s_mixes s).
  { apply map_eq. intros i. destruct (decide (i ∈ mi_id <$> ti_mixes topo)) as [Hin|Hin].
    - pose proof (proj2 (Hm i) Hin) as [x Hx].
      apply list_elem_of_fmap in Hin as (node & -> & Hin).
      rewrite reconcile_mix_lookup, Hx by done. f_equal. apply reconcile_mix_fixed. eauto.
    - rewrite reconcile_mixes, foldl_insert_notin by done. rewrite lookup_empty.
      destruct (s_mixes s !! i) eqn:E; [|done]. by destruct Hin; apply Hm. }
  destruct (reconcile topo s) as [[i m] d]; cbn in *. subst. by destruct s.
Qed.

(** A small topology description for the witnesses. *)
Definition demo_info : TopologyInfo :=
  mkTopologyInfo "h" 48000 "m1" [mkInputInfo "mic1" 1 false None] [mkGroupInfo "stems" []]
    [mkMixInfo "m1" 2 [] []].

(** ** Properties *)

(** C32: whatever state the engine is given, [reconcile] makes it fit the
    topology: exactly the topology's inputs and mixes, in every mix exactly a
    level per input, a level per heard mix and peer and a strip per group, and
    every value finite and inside its range; a second pass then changes and
    drops nothing. *)
Theorem reconcile_normalizes (topo : TopologyInfo) (s : MixState) :
  mixes_distinct topo ->
  fits topo (reconcile topo s).1
  /\ reconcile topo (reconcile topo s).1 = ((reconcile topo s).1, []).
Proof. intros Hd. split; [by apply reconcile_fits|]. by apply reconcile_fixed, reconcile_fits. Qed.

Lemma reconcile_normalizes_witness : fits demo_info (reconcile demo_info MixState_default).1.
Proof.
  apply (reconcile_normalizes demo_info MixState_default).
  unfold mixes_distinct; cbn. apply NoDup_singleton.
Defined.

(** Every id the topology has gets its given value, capped into its range,
    or its default when the state has none: inputs, a mix's output, its levels
    of inputs and heard mixes, its group strips; every other id gets none. *)
Theorem reconcile_values (topo : TopologyInfo) (s : MixState) (node : MixInfo) :
  mixes_distinct topo -> node ∈ ti_mixes topo ->
  exists x, s_mixes (reconcile topo s).1 !! mi_id node = Some x
  /\ let given := s_mixes s !! mi_id node in
     m_out x = map_or (fun g => cap_out (m_out g)) MixOut_default given
     /\ (forall id, m_inputs x !! id = if decide (id ∈ ii_id <$> ti_inputs topo)
          then Some (map_or cap_level Level_default (g ← given; m_inputs g !! id)) else None)
     /\ (forall id, m_mixes x !! id = if decide (id ∈ mi_mixes node ++ mi_peers node)
          then Some (map_or cap_level Level_default (g ← given; m_mixes g !! id)) else None)
     /\ (forall id, m_groups x !! id = if decide (id ∈ gi_id <$> ti_groups topo)
          then Some (map_or cap_group MixGroup_default (g ← given; m_groups g !! id)) else None)
     /\ (forall id, s_inputs (reconcile topo s).1 !! id = if decide (id ∈ ii_id <$> ti_inputs topo)
          then Some (map_or cap_input InputState_default (s_inputs s !! id)) else None).
Proof.
  intros Hd Hin. eexists. split; [by apply reconcile_mix_lookup|]. cbn zeta. split_and!.
  - by destruct (s_mixes s !! mi_id node).
  - apply reconcile_mix_inputs.
  - apply reconcile_mix_mixes.
  - apply reconcile_mix_groups.
  - apply reconcile_inputs.
Qed.

Lemma reconcile_values_witness :
  exists x, s_mixes (reconcile demo_info MixState_default).1 !! "m1" = Some x.
Proof.
  destruct (reconcile_values demo_info MixState_default (mkMixInfo "m1" 2 [] [])) as (x & Hx & _).
  - unfold mixes_distinct; cbn. apply NoDup_singleton.
  - by apply list_elem_of_singleton.
  - by exists x.
Defined.

(** Nothing is lost silently: [reconcile] reports no dropped id exactly when
    every id of the given state (inputs, mixes, and in each mix its inputs,
    groups and heard mixes) is one the topology has. *)
Theorem reconcile_drops_named (topo : TopologyInfo) (s : MixState) :
  (reconcile topo s).2 = [] <-> all_known topo s.
Proof. apply reconcile_dropped_nil. Qed.
