(* ===== verification/Topology.v ===== *)
(** * The compiled topology ([iem-engine/src/site.rs], [iem-engine/src/topology.rs])

    The site's [[engine]] table, its validation and compilation into inputs,
    groups and mixes with their channels, the mixes each mix hears and its
    peers, the render order, and the level slots of a mix.  [compile] is one
    Rust function; its loops are named here one by one, in the code's order.
    The SHA-256 of the topology's JSON is the operation of [TopoHash]. *)

From S2P Require Import Prelude Text MixState Msg.
From stdpp Require Import options.
Local Open Scope Z_scope.

(** ** The site *)

Record SiteInput := mkSiteInput { si_id : string; si_rx : list Z; si_talkback : bool }.
Record SiteGroup := mkSiteGroup { sg_id : string; sg_inputs : list string }.
Record SiteMix := mkSiteMix {
  sm_id : string;
  sm_tx : list Z;
  sm_mixes : list string;
  sm_peers : list string;
}.

Record Site := mkSite {
  site_channels : Z;
  site_engineer : string;
  site_inputs : list SiteInput;
  site_groups : list SiteGroup;
  site_mixes : list SiteMix;
}.

Inductive SiteError :=
| Toml (e : string)
| Io (e : string)
| NoEngineTable
| BadId (id : string)
| DuplicateId (id : string)
| ChannelCount (id expected : string) (got : nat)
| ChannelRange (id : string) (ch : Z)
| ChannelReused (ch : Z)
| UnknownInput (group input : string)
| EmptyGroup (group : string)
| SecondGroup (input : string)
| HeardMix (mix heard : string)
| Peer (mix peer : string)
| PeersOnNonSet (mix : string)
| HearsItselfBack (mix heard : string)
| SecondTalkback
| Engineer (id : string)
| HilTx (why : string).

(** ** The topology *)

Record InputNode := mkInputNode {
  in_id : InputId;
  in_rx : nat * nat;
  in_stereo : bool;
  in_talkback : bool;
  in_group : option nat;
}.

Record GroupNode := mkGroupNode { gn_id : GroupId; gn_inputs : list nat }.

Record MixNode := mkMixNode {
  mn_id : MixId;
  mn_tx : option nat * option nat;
  mn_mono : bool;
  mn_mixes : list nat;
  mn_peers : list nat;
  mn_shadow : bool;
}.

(** Whether it hears no other mix, whole or as a peer. *)
Definition hears_nothing (n : MixNode) : bool :=
  match mn_mixes n, mn_peers n with [], [] => true | _, _ => false end.

Record Topology := mkTopology {
  t_inputs : list InputNode;
  t_groups : list GroupNode;
  t_mixes : list MixNode;
  t_order : list nat;
  t_direct : list nat;
  t_rx : list Z;
  t_tx : list Z;
  t_engineer : nat;
  t_hash : string;
  t_input_index : gmap InputId nat;
  t_group_index : gmap GroupId nat;
  t_mix_index : gmap MixId nat;
}.

(** ** Validation and compilation *)

Definition check_channels (id : string) (chans : list Z) (map : Z) (used : gset Z)
    : result SiteError (gset Z) :=
  foldM (fun used ch =>
      if (ch =? 0) || (map <? ch) then Err (ChannelRange id ch)
      else if decide (ch ∈ used) then Err (ChannelReused ch)
      else Ok ({[ch]} ∪ used))
    used chans.

Definition check_id (seen : gset string) (id : string) : result SiteError (gset string) :=
  if negb (valid_id id) then Err (BadId id)
  else if decide (id ∈ seen) then Err (DuplicateId id)
  else Ok ({[id]} ∪ seen).

Definition site_ids (site : Site) : list string :=
  (si_id <$> site_inputs site) ++ (sg_id <$> site_groups site) ++ (sm_id <$> site_mixes site).

(** [iter().enumerate().map(|(i, x)| (key(x), i)).collect()] into a map: the
    last index of a key wins. *)
Definition index_of {A : Type} (key : A -> string) (l : list A) : gmap string nat :=
  foldl (fun acc '(i, x) => <[key x := i]> acc) ∅ (zip (seq 0 (length l)) l).

Record InputsAcc := mkInputsAcc {
  ia_rx : list Z;
  ia_used : gset Z;
  ia_talkback : bool;
  ia_inputs : list InputNode;
}.

Definition compile_input (channels : Z) (acc : InputsAcc) (input : SiteInput)
    : result SiteError InputsAcc :=
  let n := length (si_rx input) in
  if negb ((1 <=? n)%nat && (n <=? 2)%nat) then Err (ChannelCount (si_id input) "1 or 2" n)
  else
    used ← check_channels (si_id input) (si_rx input) channels (ia_used acc);
    if si_talkback input && ia_talkback acc then Err SecondTalkback
    else
      let first := length (ia_rx acc) in
      let stereo := (n =? 2)%nat in
      Ok (mkInputsAcc
            (ia_rx acc ++ si_rx input) used (ia_talkback acc || si_talkback input)
            (ia_inputs acc ++
               [mkInputNode (si_id input) (first, if stereo then S first else first) stereo
                  (si_talkback input) None])).

Definition compile_inputs (site : Site) : result SiteError InputsAcc :=
  foldM (compile_input (site_channels site)) (mkInputsAcc [] ∅ false []) (site_inputs site).

Definition with_group (n : InputNode) (g : option nat) : InputNode :=
  mkInputNode (in_id n) (in_rx n) (in_stereo n) (in_talkback n) g.

(** One name of a group's list. *)
Definition compile_member (pos : gmap string nat) (gid : string) (g : nat)
    (acc : list InputNode * list nat) (name : string)
    : result SiteError (list InputNode * list nat) :=
  let '(inputs, members) := acc in
  match pos !! name with
  | None => Err (UnknownInput gid name)
  | Some i =>
      match inputs !! i with
      | None => Ok (inputs, members)
      | Some node =>
          match in_group node with
          | Some _ => Err (SecondGroup name)
          | None => Ok (<[i := with_group node (Some g)]> inputs, members ++ [i])
          end
      end
  end.

Definition compile_group (pos : gmap string nat) (acc : list InputNode * list GroupNode)
    (group : SiteGroup) : result SiteError (list InputNode * list GroupNode) :=
  let '(inputs, groups) := acc in
  if (length (sg_inputs group) =? 0)%nat then Err (EmptyGroup (sg_id group))
  else
    '(inputs, members) ←
      foldM (compile_member pos (sg_id group) (length groups)) (inputs, []) (sg_inputs group);
    Ok (inputs, groups ++ [mkGroupNode (sg_id group) (merge_sort (≤)%nat members)]).

Definition compile_groups (site : Site) (inputs : list InputNode)
    : result SiteError (list InputNode * list GroupNode) :=
  foldM (compile_group (index_of si_id (site_inputs site))) (inputs, []) (site_groups site).

(** [iter().enumerate().filter(p).map(|(i, _)| i)] *)
Definition indices_where {A : Type} (p : A -> bool) (l : list A) : list nat :=
  filter (fun i => match l !! i with Some x => p x | None => false end = true) (seq 0 (length l)).

Definition direct_inputs (inputs : list InputNode) : list nat :=
  indices_where (fun n => match in_group n with None => true | Some _ => false end) inputs.

Record MixesAcc := mkMixesAcc {
  xa_tx : list Z;
  xa_used : gset Z;
  xa_declared : gmap string nat;
  xa_mixes : list MixNode;
}.

Definition compile_heard (declared : gmap string nat) (mix : string) (heard : list nat) (name : string)
    : result SiteError (list nat) :=
  match declared !! name with
  | Some s => if decide (s ∈ heard) then Err (HeardMix mix name) else Ok (heard ++ [s])
  | None => Err (HeardMix mix name)
  end.

Definition compile_mix (channels : Z) (acc : MixesAcc) (mix : SiteMix) : result SiteError MixesAcc :=
  let n := length (sm_tx mix) in
  if negb ((1 <=? n)%nat && (n <=? 2)%nat) then Err (ChannelCount (sm_id mix) "1 or 2" n)
  else
    used ← check_channels (sm_id mix) (sm_tx mix) channels (xa_used acc);
    heard ← foldM (compile_heard (xa_declared acc) (sm_id mix)) [] (sm_mixes mix);
    let first := length (xa_tx acc) in
    let mono := (n =? 1)%nat in
    Ok (mkMixesAcc
          (xa_tx acc ++ sm_tx mix) used
          (<[sm_id mix := length (xa_mixes acc)]> (xa_declared acc))
          (xa_mixes acc ++
             [mkMixNode (sm_id mix) (Some first, if mono then None else Some (S first)) mono heard [] false])).

Definition compile_mixes (site : Site) : result SiteError MixesAcc :=
  foldM (compile_mix (site_channels site)) (mkMixesAcc [] ∅ ∅ []) (site_mixes site).

(** [mixes.get(m).is_some_and(|n| !n.mono)] *)
Definition is_stereo (mixes : list MixNode) (m : nat) : bool :=
  match mixes !! m with Some n => negb (mn_mono n) | None => false end.

Definition compile_engineer (site : Site) (acc : MixesAcc) : result SiteError nat :=
  match xa_declared acc !! site_engineer site with
  | Some m => if is_stereo (xa_mixes acc) m then Ok m else Err (Engineer (site_engineer site))
  | None => Err (Engineer (site_engineer site))
  end.

(** Whether mix [m] may hear mix [s] as its next peer. *)
Definition peer_allowed (mixes : list MixNode) (engineer m : nat) (peers : list nat) (s : nat) : bool :=
  negb (s =? m)%nat && negb (s =? engineer)%nat && is_stereo mixes s
  && match mixes !! m with Some n => negb (bool_decide (s ∈ mn_mixes n)) | None => false end
  && negb (bool_decide (s ∈ peers)).

Definition compile_peer (declared : gmap string nat) (mixes : list MixNode) (engineer m : nat)
    (mix : string) (peers : list nat) (name : string) : result SiteError (list nat) :=
  match declared !! name with
  | Some s => if peer_allowed mixes engineer m peers s then Ok (peers ++ [s]) else Err (Peer mix name)
  | None => Err (Peer mix name)
  end.

Definition with_peers (n : MixNode) (peers : list nat) : MixNode :=
  mkMixNode (mn_id n) (mn_tx n) (mn_mono n) (mn_mixes n) peers (mn_shadow n).

Definition compile_mix_peers (declared : gmap string nat) (engineer : nat) (mixes : list MixNode)
    (p : nat * SiteMix) : result SiteError (list MixNode) :=
  let '(m, mix) := p in
  if negb (length (sm_peers mix) =? 0)%nat && ((m =? engineer)%nat || negb (is_stereo mixes m))
  then Err (PeersOnNonSet (sm_id mix))
  else
    peers ← foldM (compile_peer declared mixes engineer m (sm_id mix)) [] (sm_peers mix);
    Ok (alter (fun n => with_peers n peers) m mixes).

Definition compile_peers (site : Site) (declared : gmap string nat) (engineer : nat)
    (mixes : list MixNode) : result SiteError (list MixNode) :=
  foldM (compile_mix_peers declared engineer) mixes
    (zip (seq 0 (length (site_mixes site))) (site_mixes site)).

(** The own outputs a mix heard whole brings along. *)
Definition carry_heard (site : Site) (carries : list (gset nat)) (m : nat) (own : gset nat) (h : nat)
    : result SiteError (gset nat) :=
  match carries !! h with
  | None => Ok own
  | Some brought =>
      if decide (m ∈ brought)
      then
        let name i := match site_mixes site !! i with Some x => sm_id x | None => "" end in
        Err (HearsItselfBack (name m) (name h))
      else Ok (own ∪ brought)
  end.

Definition carry_mix (site : Site) (carries : list (gset nat)) (node : MixNode)
    : result SiteError (list (gset nat)) :=
  let m := length carries in
  own ← foldM (carry_heard site carries m) (list_to_set (mn_peers node) ∪ {[m]}) (mn_mixes node);
  Ok (carries ++ [own]).

Definition check_carries (site : Site) (mixes : list MixNode) : result SiteError (list (gset nat)) :=
  foldM (carry_mix site) [] mixes.

Definition with_shadow (n : MixNode) (shadow : bool) : MixNode :=
  mkMixNode (mn_id n) (mn_tx n) (mn_mono n) (mn_mixes n) (mn_peers n) shadow.

Definition heard_as_peer (mixes : list MixNode) (m : nat) : bool :=
  existsb (fun n => bool_decide (m ∈ mn_peers n)) mixes.

Definition set_shadows (mixes : list MixNode) : list MixNode :=
  imap (fun m n => with_shadow n (heard_as_peer mixes m && negb (hears_nothing n))) mixes.

Definition render_order (mixes : list MixNode) : list nat :=
  indices_where hears_nothing mixes ++ indices_where (fun n => negb (hears_nothing n)) mixes.

(** ** The compiled topology's queries *)

Definition input_index (t : Topology) (id : InputId) : option nat := t_input_index t !! id.
Definition group_index (t : Topology) (id : GroupId) : option nat := t_group_index t !! id.
Definition mix_index (t : Topology) (id : MixId) : option nat := t_mix_index t !! id.

(** Level slots of mix [m]: every input, then the mixes it hears, then its
    peers. *)
Definition levels (t : Topology) (m : nat) : nat :=
  (length (t_inputs t)
   + match t_mixes t !! m with
     | Some n => length (mn_mixes n) + length (mn_peers n)
     | None => 0
     end)%nat.

(** Peers heard in all, and mixes with a shadow. *)
Definition peering (t : Topology) : nat * nat :=
  (sum_list_with (fun n => length (mn_peers n)) (t_mixes t),
   length (filter (fun n => mn_shadow n = true) (t_mixes t))).

(** The level slot of [source] in mix [m]. *)
Definition slot (t : Topology) (m : nat) (source : Source) : option nat :=
  node ← t_mixes t !! m;
  match source with
  | SrcInput id => input_index t id
  | SrcMix id =>
      s ← mix_index t id;
      k ← match position (fun h => bool_decide (h = s)) (mn_mixes node) with
          | Some k => Some k
          | None =>
              k ← position (fun p => bool_decide (p = s)) (mn_peers node);
              Some (length (mn_mixes node) + k)%nat
          end;
      Some (length (t_inputs t) + k)%nat
  end.

(** The mix whose TX is card channel [ch], if any. *)
Definition mix_on_tx (t : Topology) (ch : Z) : option MixNode :=
  slot ← position (fun c => bool_decide (c = ch)) (t_tx t);
  snd <$> list_find (fun m => (mn_tx m).1 = Some slot \/ (mn_tx m).2 = Some slot) (t_mixes t).

Definition mix_tx_refusal (t : Topology) (ch : Z) : option string :=
  (fun m => "card output " +:+ dec ch +:+ " is mix " +:+ mn_id m
            +:+ "'s TX: the HIL signal goes only to spare outputs") <$> mix_on_tx t ch.

(** HIL's spare outputs an engine opens at most ([cmd.rs]). *)
Definition MAX_HIL : nat := 8.

Definition hil_output (t : Topology) (outputs : list Z) (ch : Z) : result SiteError (list Z) :=
  if ch =? 0 then Err (HilTx ("card output " +:+ dec ch +:+ ": card channels count from 1"))
  else match mix_tx_refusal t ch with
       | Some why => Err (HilTx why)
       | None =>
           if decide (ch ∈ t_rx t) then
             Err (HilTx ("card channel " +:+ dec ch
                         +:+ " is a topology input: its loopback return would read the band"))
           else if decide (ch ∈ outputs) then
             Err (HilTx ("card output " +:+ dec ch +:+ " is listed twice"))
           else Ok (outputs ++ [ch])
       end.

Definition hil_outputs (t : Topology) (hil_tx : list Z) : result SiteError (list Z) :=
  if (MAX_HIL <? length hil_tx)%nat then
    Err (HilTx (dec (Z.of_nat (length hil_tx)) +:+ " card outputs: at most " +:+ dec (Z.of_nat MAX_HIL)))
  else foldM (hil_output t) [] hil_tx.

(** The source of level slot [k] in mix [m]; [checked_sub] on [usize]. *)
Definition source (t : Topology) (m k : nat) : option Source :=
  node ← t_mixes t !! m;
  match t_inputs t !! k with
  | Some n => Some (SrcInput (in_id n))
  | None =>
      if (k <? length (t_inputs t))%nat then None
      else
        let j := (k - length (t_inputs t))%nat in
        s ← match mn_mixes node !! j with
            | Some s => Some s
            | None =>
                if (j <? length (mn_mixes node))%nat then None
                else mn_peers node !! (j - length (mn_mixes node))%nat
            end;
        n ← t_mixes t !! s;
        Some (SrcMix (mn_id n))
  end.

(** The only rate the engine runs at. *)
Definition SAMPLE_RATE : Z := 96000.

(** The topology as the protocol describes it. *)
Definition info (t : Topology) : TopologyInfo :=
  let mix_id m := mn_id <$> t_mixes t !! m in
  mkTopologyInfo (t_hash t) SAMPLE_RATE
    (match mix_id (t_engineer t) with Some id => id | None => "" end)
    ((fun n => mkInputInfo (in_id n) (if in_stereo n then 2 else 1) (in_talkback n)
                 (g ← in_group n; gn_id <$> t_groups t !! g)) <$> t_inputs t)
    ((fun g => mkGroupInfo (gn_id g) (omap (fun i => in_id <$> t_inputs t !! i) (gn_inputs g)))
       <$> t_groups t)
    ((fun n => mkMixInfo (mn_id n) (if mn_mono n then 1 else 2)
                 (omap mix_id (mn_mixes n)) (omap mix_id (mn_peers n))) <$> t_mixes t).

(** SHA-256, in hex, of the topology's JSON. *)
Class TopoHash := topo_hash : TopologyInfo -> string.

Definition with_hash (t : Topology) (h : string) : Topology :=
  mkTopology (t_inputs t) (t_groups t) (t_mixes t) (t_order t) (t_direct t) (t_rx t) (t_tx t)
    (t_engineer t) h (t_input_index t) (t_group_index t) (t_mix_index t).

(** Validates the site and compiles its topology. *)
Definition compile `{TopoHash} (site : Site) : result SiteError Topology :=
  _ ← foldM check_id ∅ (site_ids site);
  ins ← compile_inputs site;
  '(inputs, groups) ← compile_groups site (ia_inputs ins);
  let direct := direct_inputs inputs in
  acc ← compile_mixes site;
  engineer ← compile_engineer site acc;
  mixes ← compile_peers site (xa_declared acc) engineer (xa_mixes acc);
  _ ← check_carries site mixes;
  let mixes := set_shadows mixes in
  let topo :=
    mkTopology inputs groups mixes (render_order mixes) direct (ia_rx ins) (xa_tx acc) engineer ""
      (index_of in_id inputs) (index_of gn_id groups) (index_of mn_id mixes) in
  Ok (with_hash topo (topo_hash (info topo))).

(** ** A small concrete site *)

Definition demo_site : Site :=
  mkSite 8 "eng"
    [mkSiteInput "mic1" [1] false; mkSiteInput "keys" [2; 3] false; mkSiteInput "talk" [4] true]
    [mkSiteGroup "stems" ["keys"]]
    [mkSiteMix "m1" [1; 2] [] ["m2"]; mkSiteMix "m2" [3; 4] [] []; mkSiteMix "eng" [5; 6] ["m1"; "m2"] [];
     mkSiteMix "tr" [7] [] []].

#[export] Instance demo_hash : TopoHash := fun _ => "h".

Example compile_demo :
  (match compile demo_site with
   | Ok t => (t_order t, t_direct t, levels t 0, levels t 2, slot t 0 (SrcMix "m2"), source t 2 4,
              t_engineer t)
   | Err _ => ([], [], 0, 0, None, None, 0)%nat
   end)
  = ([1; 3; 0; 2], [0; 2], 4, 5, Some 3, Some (SrcMix "m2"), 2)%nat.
Proof. by vm_compute. Qed.
