(* ===== verification/TopologyWf.v ===== *)
(** * What a compiled topology guarantees

    Every loop of [Topology.compile] against its invariant, then
    [compile_wf]: a site that compiles gives a well-formed topology.  The
    later components use the topology only through [topo_wf]. *)

From S2P Require Import Prelude Text MixState Msg Topology.
From stdpp Require Import options.
Local Open Scope Z_scope.

(** ** Channels *)

Definition channel_ok (map ch : Z) : Prop := ch <> 0 /\ ch <= map.

Lemma check_channels_ok id chans map used used' :
  check_channels id chans map used = Ok used' ->
  NoDup chans /\ Forall (channel_ok map) chans /\ (forall c, c ∈ chans -> c ∉ used)
  /\ used' = list_to_set chans ∪ used.
Proof.
  unfold check_channels. revert used. induction chans as [|c chans IH]; intros used; cbn.
  - intros [= ->]. split_and!; [constructor|constructor|by intros ? ?%not_elem_of_nil|set_solver].
  - destruct (Z.eqb_spec c 0), (Z.ltb_spec map c); cbn; try done.
    case_decide as Hc; [done|]. intros (Hnd & Hok & Hnew & ->)%IH. split_and!.
    + constructor; [|done]. intros Hin. specialize (Hnew c Hin). set_solver.
    + by constructor.
    + intros c' [->|Hin]%elem_of_cons; [done|]. specialize (Hnew c' Hin). set_solver.
    + set_solver.
Qed.

(** What one node's channels add to the card's list. *)
Lemma channels_extend id chans map rx used used' :
  NoDup rx -> Forall (channel_ok map) rx -> used = list_to_set rx ->
  check_channels id chans map used = Ok used' ->
  NoDup (rx ++ chans) /\ Forall (channel_ok map) (rx ++ chans) /\ used' = list_to_set (rx ++ chans).
Proof.
  intros Hnd Hok -> (Hnd' & Hok' & Hnew & ->)%check_channels_ok. split_and!.
  - apply NoDup_app. split_and!; [done| |done]. intros c Hc Hc'. apply (Hnew c Hc'). set_solver.
  - by apply Forall_app.
  - rewrite list_to_set_app_L. set_solver.
Qed.

(** ** Ids *)

Lemma check_ids_ok l seen seen' :
  foldM check_id seen l = Ok seen' ->
  NoDup l /\ Forall (fun id => valid_id id = true) l /\ (forall id, id ∈ l -> id ∉ seen).
Proof.
  revert seen. induction l as [|id l IH]; intros seen; cbn.
  - intros _. split_and!; [constructor|constructor|by intros ? ?%not_elem_of_nil].
  - unfold check_id at 1. destruct (valid_id id) eqn:Hv; cbn; [|done].
    case_decide; [done|]. intros (Hnd & Hok & Hnew)%IH. split_and!.
    + constructor; [|done]. intros Hin. specialize (Hnew id Hin). set_solver.
    + by constructor.
    + intros id' [->|Hin]%elem_of_cons; [done|]. specialize (Hnew id' Hin). set_solver.
Qed.

(** ** Index maps *)

Lemma index_of_snoc {A : Type} (key : A -> string) (l : list A) x :
  index_of key (l ++ [x]) = <[key x := length l]> (index_of key l).
Proof.
  unfold index_of. rewrite length_app, seq_app. cbn.
  rewrite zip_with_app by by rewrite length_seq. cbn. by rewrite foldl_snoc.
Qed.

Lemma index_of_Some {A : Type} (key : A -> string) (l : list A) k i :
  NoDup (key <$> l) -> index_of key l !! k = Some i <-> key <$> l !! i = Some k.
Proof.
  revert i. induction l as [|x l IH] using rev_ind; intros i.
  - intros _. split; done.
  - rewrite index_of_snoc, fmap_app. cbn. rewrite NoDup_app.
    intros (Hnd & Hx & _). destruct (decide (k = key x)) as [->|Hne].
    + rewrite lookup_insert_eq. split.
      * intros [= <-]. by rewrite list_lookup_middle.
      * intros Hi. destruct (decide (i < length l)%nat) as [Hlt|].
        -- rewrite lookup_app_l in Hi by done. exfalso. apply (Hx (key x)); [|set_solver].
           rewrite <-list_lookup_fmap in Hi. by eapply list_elem_of_lookup_2.
        -- destruct (decide (i = length l)) as [->|]; [done|].
           rewrite lookup_ge_None_2 in Hi; [done|]. rewrite length_app. cbn. lia.
    + rewrite lookup_insert_ne, IH by done. split.
      * intros Hi. rewrite lookup_app_l; [done|]. apply fmap_Some in Hi as (y & Hy & _).
        by eapply lookup_lt_Some.
      * intros Hi. apply fmap_Some in Hi as (y & Hy & ->).
        apply lookup_app_Some in Hy as [->|[_ Hy]]; [done|].
        apply list_lookup_singleton_Some in Hy as [_ <-]. done.
Qed.

(** ** Inputs *)

(** An input's indices into the card's RX list. *)
Definition rx_fits (rx : list Z) (n : InputNode) : Prop :=
  let '(a, b) := in_rx n in
  (b < length rx)%nat /\ b = (if in_stereo n then S a else a).

Record inputs_inv (channels : Z) (pre : list SiteInput) (acc : InputsAcc) : Prop := {
  ii_nodup : NoDup (ia_rx acc);
  ii_range : Forall (channel_ok channels) (ia_rx acc);
  ii_used : ia_used acc = list_to_set (ia_rx acc);
  ii_ids : in_id <$> ia_inputs acc = si_id <$> pre;
  ii_ungrouped : Forall (fun n => in_group n = None) (ia_inputs acc);
  ii_rx : Forall (rx_fits (ia_rx acc)) (ia_inputs acc);
  ii_talk : length (filter (fun n => in_talkback n = true) (ia_inputs acc))
            = if ia_talkback acc then 1%nat else 0%nat;
}.

Lemma rx_fits_app rx rx' n : rx_fits rx n -> rx_fits (rx ++ rx') n.
Proof. unfold rx_fits. destruct (in_rx n). rewrite length_app. intros [? ?]. split; [lia|done]. Qed.

Lemma compile_input_inv channels pre acc x acc' :
  inputs_inv channels pre acc -> compile_input channels acc x = Ok acc' ->
  inputs_inv channels (pre ++ [x]) acc'.
Proof.
  intros [Hnd Hr Hu Hids Hg Hrx Ht] H. unfold compile_input in H.
  destruct (_ && _) eqn:Hn; cbn in H; [|done]. bool_inv.
  destruct (check_channels _ _ _ _) as [used|] eqn:Hc; cbn in H; [|done].
  destruct (si_talkback x && ia_talkback acc) eqn:Htb; [done|]. simplify_eq.
  destruct (channels_extend _ _ _ _ _ _ Hnd Hr Hu Hc) as (? & ? & ->).
  repeat match goal with H : (_ <=? _)%nat = true |- _ => apply Nat.leb_le in H end.
  split; cbn; try done.
  - rewrite !fmap_app. cbn. by f_equal.
  - apply Forall_app. split; [done|]. by repeat constructor.
  - apply Forall_app. split; [eapply Forall_impl; [exact Hrx|]; intros; by apply rx_fits_app|].
    repeat constructor; cbn; rewrite length_app; destruct (Nat.eqb_spec (length (si_rx x)) 2); cbn; lia.
  - rewrite filter_app, length_app, Ht. rewrite filter_cons, filter_nil. cbn.
    by destruct (ia_talkback acc), (si_talkback x).
Qed.

Lemma compile_inputs_inv site acc :
  compile_inputs site = Ok acc -> inputs_inv (site_channels site) (site_inputs site) acc.
Proof.
  apply (foldM_ind _ (inputs_inv (site_channels site))).
  - split; cbn; try done; constructor.
  - intros pre x post s s' _ HI Hf. by eapply compile_input_inv.
Qed.

(** ** Groups *)

(** The group of input [i]. *)
Definition group_at (inputs : list InputNode) (i : nat) : option nat := n ← inputs !! i; in_group n.

(** Which inputs are in group [g]. *)
Definition in_groups (groups : list GroupNode) (g i : nat) : Prop :=
  exists gn, groups !! g = Some gn /\ i ∈ gn_inputs gn.

Definition ungroup (n : InputNode) : InputNode := with_group n None.

Lemma group_at_insert (inputs : list InputNode) i g n j :
  inputs !! i = Some n ->
  group_at (<[i := with_group n (Some g)]> inputs) j = if decide (j = i) then Some g else group_at inputs j.
Proof.
  intros Hi. unfold group_at. pose proof (lookup_lt_Some _ _ _ Hi). case_decide; subst.
  - by rewrite list_lookup_insert_eq.
  - by rewrite list_lookup_insert_ne.
Qed.

Lemma ungroup_insert (inputs : list InputNode) i g n :
  inputs !! i = Some n -> ungroup <$> <[i := with_group n g]> inputs = ungroup <$> inputs.
Proof.
  intros Hi. rewrite list_fmap_insert. apply list_insert_id. rewrite list_lookup_fmap, Hi. done.
Qed.

Record members_inv (inputs0 : list InputNode) (groups : list GroupNode)
    (acc : list InputNode * list nat) : Prop := {
  mb_same : ungroup <$> acc.1 = ungroup <$> inputs0;
  mb_nodup : NoDup acc.2;
  mb_lt : Forall (fun i => (i < length inputs0)%nat) acc.2;
  mb_group : forall i g, group_at acc.1 i = Some g <->
    in_groups groups g i \/ (g = length groups /\ i ∈ acc.2);
}.

Lemma in_groups_lt groups g i : in_groups groups g i -> (g < length groups)%nat.
Proof. intros (gn & H & _). by eapply lookup_lt_Some. Qed.

Lemma compile_member_inv inputs0 groups pos gid acc name acc' :
  members_inv inputs0 groups acc -> compile_member pos gid (length groups) acc name = Ok acc' ->
  members_inv inputs0 groups acc'.
Proof.
  destruct acc as [inputs members]. intros [Hs Hnd Hlt Hg] H. unfold compile_member in H.
  destruct (pos !! name) as [i|]; [|done].
  destruct (inputs !! i) as [n|] eqn:Hi; [|by simplify_eq].
  destruct (in_group n) eqn:Hgn; [done|]. simplify_eq. cbn in *.
  assert (Hnone : group_at inputs i = None) by (unfold group_at; by rewrite Hi).
  assert (Hnew : i ∉ members).
  { intros Hin. assert (group_at inputs i = Some (length groups)) by (apply Hg; by right). congruence. }
  assert (Hlen : length inputs = length inputs0).
  { apply (f_equal length) in Hs. by rewrite !length_fmap in Hs. }
  split; cbn.
  - by rewrite ungroup_insert.
  - apply NoDup_app. split_and!; [done|set_solver|apply NoDup_singleton].
  - apply Forall_app. split; [done|]. repeat constructor. rewrite <-Hlen. by eapply lookup_lt_Some.
  - intros j g. rewrite group_at_insert by done. case_decide as Hj; subst.
    + split; [intros [= <-]; right; set_solver|].
      intros [Hin|[-> _]]; [|done].
      assert (group_at inputs i = Some g) by (apply Hg; by left). congruence.
    + rewrite Hg. set_solver.
Qed.

Record groups_inv (inputs0 : list InputNode) (pre : list SiteGroup)
    (acc : list InputNode * list GroupNode) : Prop := {
  gi_same : ungroup <$> acc.1 = ungroup <$> inputs0;
  gi_ids : gn_id <$> acc.2 = sg_id <$> pre;
  gi_members : Forall (fun gn => NoDup (gn_inputs gn) /\ Sorted (≤)%nat (gn_inputs gn)
                 /\ Forall (fun i => (i < length inputs0)%nat) (gn_inputs gn)) acc.2;
  gi_group : forall i g, group_at acc.1 i = Some g <-> in_groups acc.2 g i;
}.

Lemma in_groups_snoc groups gn g i :
  in_groups (groups ++ [gn]) g i <-> in_groups groups g i \/ (g = length groups /\ i ∈ gn_inputs gn).
Proof.
  unfold in_groups. split.
  - intros (gn' & H & Hin). apply lookup_app_Some in H as [H|[Hge H]]; [left; eauto|].
    apply list_lookup_singleton_Some in H as [? ->]. right. split; [lia|done].
  - intros [(gn' & H & Hin)|[-> Hin]].
    + exists gn'. split; [by apply lookup_app_l_Some|done].
    + exists gn. split; [|done]. by rewrite list_lookup_middle.
Qed.

Lemma compile_group_inv inputs0 pos pre acc x acc' :
  groups_inv inputs0 pre acc -> compile_group pos acc x = Ok acc' ->
  groups_inv inputs0 (pre ++ [x]) acc'.
Proof.
  destruct acc as [inputs groups]. intros [Hs Hids Hm Hg] H. unfold compile_group in H. cbn in *.
  destruct (length (sg_inputs x) =? 0)%nat; [done|].
  destruct (foldM _ _ _) as [[inputs' members]|] eqn:Hf; cbn in H; [|done]. simplify_eq.
  assert (members_inv inputs0 groups (inputs', members)) as [Hs' Hnd Hlt Hg'].
  { apply (foldM_ind (compile_member pos (sg_id x) (length groups)) (fun _ => members_inv inputs0 groups)
             (inputs, []) (sg_inputs x)); [|intros; by eapply compile_member_inv|done].
    split; cbn; [done|constructor|constructor|]. intros i g. rewrite Hg. set_solver. }
  split; cbn in *.
  - done.
  - rewrite !fmap_app. cbn. by rewrite Hids.
  - apply Forall_app. split; [done|]. repeat constructor; cbn.
    + by rewrite merge_sort_Permutation.
    + apply Sorted_merge_sort, _.
    + by rewrite merge_sort_Permutation.
  - intros i g. rewrite Hg', in_groups_snoc. cbn. by rewrite merge_sort_Permutation.
Qed.

Lemma compile_groups_inv site inputs acc :
  Forall (fun n => in_group n = None) inputs ->
  compile_groups site inputs = Ok acc -> groups_inv inputs (site_groups site) acc.
Proof.
  intros Hn. apply (foldM_ind _ (groups_inv inputs)).
  - split; cbn; [done|done|constructor|]. intros i g. unfold group_at, in_groups. split.
    + destruct (inputs !! i) as [n|] eqn:Hi; cbn; [|done].
      rewrite Forall_lookup in Hn. by rewrite (Hn _ _ Hi).
    + by intros (? & ? & _).
  - intros pre x post s s' _ HI Hf. by eapply compile_group_inv.
Qed.

(** ** Mixes *)

(** A mix's indices into the card's TX list. *)
Definition tx_fits (tx : list Z) (n : MixNode) : Prop :=
  exists a, (a < length tx)%nat
    /\ mn_tx n = (Some a, if mn_mono n then None else Some (S a))
    /\ (mn_mono n = false -> (S a < length tx)%nat).

(** Heard mixes are declared before their mix, each once. *)
Definition heard_ok (m : nat) (n : MixNode) : Prop :=
  NoDup (mn_mixes n) /\ Forall (fun h => (h < m)%nat) (mn_mixes n).

Record mixes_inv (channels : Z) (pre : list SiteMix) (acc : MixesAcc) : Prop := {
  xi_nodup : NoDup (xa_tx acc);
  xi_range : Forall (channel_ok channels) (xa_tx acc);
  xi_used : xa_used acc = list_to_set (xa_tx acc);
  xi_ids : mn_id <$> xa_mixes acc = sm_id <$> pre;
  xi_declared : xa_declared acc = index_of sm_id pre;
  xi_tx : Forall (tx_fits (xa_tx acc)) (xa_mixes acc);
  xi_heard : forall m n, xa_mixes acc !! m = Some n -> heard_ok m n;
  xi_peers : Forall (fun n => mn_peers n = [] /\ mn_shadow n = false) (xa_mixes acc);
}.

Lemma tx_fits_app tx tx' n : tx_fits tx n -> tx_fits (tx ++ tx') n.
Proof.
  intros (a & ? & ? & ?). exists a. rewrite length_app. split_and!; [lia|done|].
  intros Hm. specialize (H1 Hm). lia.
Qed.

Lemma compile_heard_ok declared mix heard0 names heard :
  NoDup heard0 -> foldM (compile_heard declared mix) heard0 names = Ok heard ->
  NoDup heard /\ (forall s, s ∈ heard -> s ∈ heard0 \/ exists name, declared !! name = Some s).
Proof.
  revert heard0. induction names as [|name names IH]; intros heard0 Hnd; cbn.
  - intros [= <-]. split; [done|]. by left.
  - unfold compile_heard at 1. destruct (declared !! name) as [s|] eqn:Hs; [|done].
    case_decide as Hin; [done|]. intros [Hnd' Hd]%IH.
    + split; [done|]. intros s' [Hs'|?]%Hd; [|by right].
      apply elem_of_app in Hs' as [?| ->%list_elem_of_singleton]; eauto.
    + apply NoDup_app. split_and!; [done|set_solver|apply NoDup_singleton].
Qed.

Lemma compile_mix_inv channels pre acc x acc' :
  NoDup (sm_id <$> (pre ++ [x])) ->
  mixes_inv channels pre acc -> compile_mix channels acc x = Ok acc' ->
  mixes_inv channels (pre ++ [x]) acc'.
Proof.
  intros Hdis [Hnd Hr Hu Hids Hdec Htx Hh Hp] H. unfold compile_mix in H.
  destruct (_ && _) eqn:Hn; cbn in H; [|done]. bool_inv.
  destruct (check_channels _ _ _ _) as [used|] eqn:Hc; cbn in H; [|done].
  destruct (foldM _ _ _) as [heard|] eqn:Hf; cbn in H; [|done]. simplify_eq.
  destruct (channels_extend _ _ _ _ _ _ Hnd Hr Hu Hc) as (? & ? & ->).
  repeat match goal with H : (_ <=? _)%nat = true |- _ => apply Nat.leb_le in H end.
  assert (Hlen : length (xa_mixes acc) = length pre).
  { apply (f_equal length) in Hids. by rewrite !length_fmap in Hids. }
  rewrite fmap_app, NoDup_app in Hdis. destruct Hdis as [Hdis _].
  apply compile_heard_ok in Hf as [Hhnd Hhd]; [|constructor].
  split; cbn; try done.
  - rewrite !fmap_app. cbn. by f_equal.
  - by rewrite index_of_snoc, Hdec, Hlen.
  - apply Forall_app. split; [eapply Forall_impl; [exact Htx|]; intros; by apply tx_fits_app|].
    repeat constructor. exists (length (xa_tx acc)). cbn. rewrite length_app.
    split_and!; [lia|done|]. destruct (Nat.eqb_spec (length (sm_tx x)) 1); [done|lia].
  - intros m n Hm. apply lookup_app_Some in Hm as [Hm|[Hge Hm]]; [by apply Hh|].
    apply list_lookup_singleton_Some in Hm as [Hm <-]. split; cbn; [done|].
    apply Forall_forall. intros s Hs. apply Hhd in Hs as [?%not_elem_of_nil|[name Hs]]; [done|].
    rewrite Hdec in Hs. apply index_of_Some in Hs; [|done].
    apply fmap_Some in Hs as (y & Hy & _). apply lookup_lt_Some in Hy. lia.
  - apply Forall_app. split; [done|]. by repeat constructor.
Qed.

Lemma compile_mixes_inv site acc :
  NoDup (sm_id <$> site_mixes site) ->
  compile_mixes site = Ok acc -> mixes_inv (site_channels site) (site_mixes site) acc.
Proof.
  intros Hdis. apply (foldM_ind _ (mixes_inv (site_channels site))).
  - split; cbn; try done; try constructor. 
  - intros pre x post s s' Hl HI Hf. eapply compile_mix_inv; [|done..].
    rewrite Hl, cons_middle, app_assoc, fmap_app, NoDup_app in Hdis. apply Hdis.
Qed.

(** ** Peers *)

(** A mix up to its peers. *)
Definition unpeer (n : MixNode) : MixNode := with_peers n [].

Definition peers_ok (mixes : list MixNode) (engineer m : nat) (n : MixNode) : Prop :=
  NoDup (mn_mixes n ++ mn_peers n)
  /\ Forall (fun s => s <> m /\ s <> engineer /\ is_stereo mixes s = true) (mn_peers n)
  /\ (mn_peers n <> [] -> m <> engineer /\ mn_mono n = false).

Lemma unpeer_lookup (l1 l2 : list MixNode) m n1 :
  unpeer <$> l1 = unpeer <$> l2 -> l1 !! m = Some n1 ->
  exists n2, l2 !! m = Some n2 /\ mn_id n2 = mn_id n1 /\ mn_tx n2 = mn_tx n1
    /\ mn_mono n2 = mn_mono n1 /\ mn_mixes n2 = mn_mixes n1 /\ mn_shadow n2 = mn_shadow n1.
Proof.
  intros Hs Hm. assert ((unpeer <$> l2) !! m = Some (unpeer n1)) as H2.
  { by rewrite <-Hs, list_lookup_fmap, Hm. }
  rewrite list_lookup_fmap, fmap_Some in H2. destruct H2 as (n2 & H2 & Heq).
  exists n2. unfold unpeer, with_peers in Heq. by simplify_eq.
Qed.

Lemma is_stereo_unpeer l1 l2 m : unpeer <$> l1 = unpeer <$> l2 -> is_stereo l1 m = is_stereo l2 m.
Proof.
  intros Hs. unfold is_stereo. destruct (l1 !! m) as [n1|] eqn:H1.
  - destruct (unpeer_lookup _ _ _ _ Hs H1) as (n2 & -> & _ & _ & -> & _). done.
  - destruct (l2 !! m) as [n2|] eqn:H2; [|done]. symmetry in Hs.
    destruct (unpeer_lookup _ _ _ _ Hs H2) as (n1 & H1' & _). congruence.
Qed.

Lemma compile_peer_ok declared mixes engineer m n mix peers0 names peers :
  mixes !! m = Some n ->
  NoDup (mn_mixes n ++ peers0) ->
  Forall (fun s => s <> m /\ s <> engineer /\ is_stereo mixes s = true) peers0 ->
  foldM (compile_peer declared mixes engineer m mix) peers0 names = Ok peers ->
  NoDup (mn_mixes n ++ peers)
  /\ Forall (fun s => s <> m /\ s <> engineer /\ is_stereo mixes s = true) peers
  /\ length peers = (length peers0 + length names)%nat.
Proof.
  intros Hm. revert peers0. induction names as [|name names IH]; intros peers0 Hnd Hf; cbn.
  - intros [= <-]. split_and!; [done|done|lia].
  - unfold compile_peer at 1. destruct (declared !! name) as [s|]; [|done].
    destruct (peer_allowed _ _ _ _ _) eqn:Ha; [|done]. unfold peer_allowed in Ha.
    rewrite Hm in Ha. bool_inv.
    repeat match goal with H : (_ =? _)%nat = false |- _ => apply Nat.eqb_neq in H end.
    intros (HA & HB & HC)%IH.
    + rewrite length_app in HC. cbn in HC. split_and!; [done|done|lia].
    + rewrite app_assoc. apply NoDup_app. split_and!; [done|set_solver|apply NoDup_singleton].
    + apply Forall_app. split; [done|]. by repeat constructor.
Qed.

Record peers_inv (mixes0 : list MixNode) (engineer : nat) (done : nat) (mixes : list MixNode) : Prop := {
  pi_same : unpeer <$> mixes = unpeer <$> mixes0;
  pi_ok : forall m n, mixes !! m = Some n -> peers_ok mixes0 engineer m n;
  pi_todo : forall m n, (done <= m)%nat -> mixes !! m = Some n -> mn_peers n = [];
}.

Lemma compile_mix_peers_inv declared engineer mixes0 mixes m x mixes' :
  peers_inv mixes0 engineer m mixes -> compile_mix_peers declared engineer mixes (m, x) = Ok mixes' ->
  peers_inv mixes0 engineer (S m) mixes'.
Proof.
  intros [Hs Hok Htodo] H. unfold compile_mix_peers in H.
  destruct (_ && _) eqn:Hset; [done|].
  destruct (foldM _ _ _) as [peers|] eqn:Hf; cbn in H; [|done]. simplify_eq.
  destruct (mixes !! m) as [n|] eqn:Hm.
  2: { split.
       - rewrite <-Hs. f_equal. apply list_eq. intros i. rewrite list_lookup_alter. case_decide; subst; by rewrite ?Hm.
       - intros i ni. rewrite list_lookup_alter. case_decide; subst; [by rewrite Hm|by apply Hok].
       - intros i ni Hi. rewrite list_lookup_alter. case_decide; subst; [by rewrite Hm|]. apply Htodo. lia. }
  pose proof (Hok _ _ Hm) as (Hnd & _ & _). pose proof (Htodo _ _ (le_n m) Hm) as Hnil. rewrite Hnil in Hnd.
  eapply compile_peer_ok in Hf as (Hnd' & Hf' & Hlen); [|done|done|constructor].
  split.
  - rewrite <-Hs. apply list_eq. intros i. rewrite !list_lookup_fmap, list_lookup_alter.
    case_decide; subst; [|done]. by rewrite Hm.
  - intros i ni. rewrite list_lookup_alter. case_decide; subst; [|by apply Hok].
    rewrite Hm. intros [= <-]. split_and!; cbn; [done| |].
    + eapply Forall_impl; [exact Hf'|]. cbn. intros s (? & ? & Hst). split_and!; [done..|].
      by rewrite <-(is_stereo_unpeer mixes).
    + intros Hne. destruct (length (sm_peers x) =? 0)%nat eqn:Hz.
      { apply Nat.eqb_eq in Hz. destruct peers; [done|cbn in Hlen; lia]. }
      cbn in Hset. apply orb_false_iff in Hset as [He Hst]. apply Nat.eqb_neq in He.
      split; [done|]. unfold is_stereo in Hst. rewrite Hm in Hst. by destruct (mn_mono n).
  - intros i ni Hi. rewrite list_lookup_alter_ne by lia. apply Htodo. lia.
Qed.

Lemma zip_seq_prefix {A : Type} (l : list A) pre x post s :
  zip (seq s (length l)) l = pre ++ x :: post -> x.1 = (s + length pre)%nat.
Proof.
  revert s pre. induction l as [|a l IH]; intros s pre H; cbn in H; [by destruct pre|].
  destruct pre as [|p pre]; cbn in H; injection H as Hx Hr; [by subst; cbn; lia|].
  apply IH in Hr. cbn. lia.
Qed.

Lemma compile_peers_inv site declared engineer mixes0 mixes :
  (forall m n, mixes0 !! m = Some n -> heard_ok m n) ->
  Forall (fun n => mn_peers n = [] /\ mn_shadow n = false) mixes0 ->
  compile_peers site declared engineer mixes0 = Ok mixes ->
  unpeer <$> mixes = unpeer <$> mixes0
  /\ (forall m n, mixes !! m = Some n -> peers_ok mixes0 engineer m n).
Proof.
  intros Hh Hp H. cut (peers_inv mixes0 engineer (length (zip (seq 0 (length (site_mixes site))) (site_mixes site))) mixes).
  { by intros []. }
  revert H. apply (foldM_ind _ (fun pre => peers_inv mixes0 engineer (length pre))).
  - rewrite Forall_lookup in Hp. split; cbn; [done| |].
    + intros m n Hm. unfold peers_ok. destruct (Hp _ _ Hm) as [-> _]. destruct (Hh _ _ Hm) as [? _].
      split_and!; rewrite ?app_nil_r; done.
    + intros m n _ Hm. by destruct (Hp _ _ Hm).
  - intros pre [m x] post s s' Hl HI Hf. apply zip_seq_prefix in Hl. cbn in Hl. subst m.
    rewrite length_app, Nat.add_1_r. by eapply compile_mix_peers_inv.
Qed.

(** ** What a mix's whole output brings along *)

(** [brings mixes h o]: mix [o]'s own output is part of mix [h]'s whole output. *)
Inductive brings (mixes : list MixNode) : nat -> nat -> Prop :=
| brings_own h n : mixes !! h = Some n -> brings mixes h h
| brings_peer h n p : mixes !! h = Some n -> p ∈ mn_peers n -> brings mixes h p
| brings_heard h n h' o :
    mixes !! h = Some n -> h' ∈ mn_mixes n -> brings mixes h' o -> brings mixes h o.

Lemma carry_heard_ok site carries m own hs own' :
  foldM (carry_heard site carries m) own hs = Ok own' ->
  own ⊆ own' /\ forall h brought, h ∈ hs -> carries !! h = Some brought -> m ∉ brought /\ brought ⊆ own'.
Proof.
  revert own. induction hs as [|h hs IH]; intros own; cbn.
  - intros [= <-]. split; [done|]. by intros ? ? ?%not_elem_of_nil.
  - unfold carry_heard at 1. destruct (carries !! h) as [b|] eqn:Hh.
    + case_decide as Hm; [done|]. intros [Hsub Hall]%IH. split; [set_solver|].
      intros h' b' [->|Hin]%elem_of_cons Hb'; [|by eapply Hall]. simplify_eq. split; [done|set_solver].
    + intros [Hsub Hall]%IH. split; [done|].
      intros h' b' [->|Hin]%elem_of_cons Hb'; [congruence|by eapply Hall].
Qed.

Record carries_inv (mixes pre : list MixNode) (carries : list (gset nat)) : Prop := {
  ca_len : length carries = length pre;
  ca_brings : forall h own o, carries !! h = Some own -> brings mixes h o -> o ∈ own;
  ca_heard : forall m n h, pre !! m = Some n -> h ∈ mn_mixes n -> ~ brings mixes h m;
}.

Lemma check_carries_ok site mixes carries :
  (forall m n, mixes !! m = Some n -> heard_ok m n) ->
  check_carries site mixes = Ok carries ->
  forall m n h, mixes !! m = Some n -> h ∈ mn_mixes n -> ~ brings mixes h m.
Proof.
  intros Hh H. cut (carries_inv mixes mixes carries); [by intros []|].
  revert H. apply (foldM_ind (carry_mix site) (carries_inv mixes)).
  { split; by try intros ? ? ? ?. }
  intros pre x post cs cs' Hl [Hlen Hb Hno] H. unfold carry_mix in H.
  destruct (foldM _ _ _) as [own|] eqn:Hf; cbn in H; [|done]. simplify_eq.
  apply carry_heard_ok in Hf as [Hsub Hall]. rewrite Hlen in *.
  assert (Hx : (pre ++ x :: post) !! length pre = Some x) by by rewrite list_lookup_middle.
  destruct (Hh _ _ Hx) as [_ Hlt]. rewrite Forall_forall in Hlt.
  assert (Hc : forall h, h ∈ mn_mixes x -> exists b, cs !! h = Some b).
  { intros h Hin. apply lookup_lt_is_Some_2. rewrite Hlen. auto. }
  split.
  - rewrite !length_app. cbn. lia.
  - intros h own' o Hlk Hbr. apply lookup_app_Some in Hlk as [Hlk|[Hge Hlk]]; [by eapply Hb|].
    apply list_lookup_singleton_Some in Hlk as [Hz <-].
    assert (h = length pre) as -> by lia. inversion Hbr as [? n Hn|? n p Hn Hp|? n h' ? Hn Hin Hbr']; subst.
    + apply Hsub. set_solver.
    + rewrite Hx in Hn. simplify_eq. apply Hsub. set_solver.
    + rewrite Hx in Hn. simplify_eq. destruct (Hc _ Hin) as [b Hcb].
      destruct (Hall _ _ Hin Hcb) as [_ Hsub']. apply Hsub'. by eapply Hb.
  - intros m n h Hm Hin Hbr. apply lookup_app_Some in Hm as [Hm|[Hge Hm]]; [by eapply Hno|].
    apply list_lookup_singleton_Some in Hm as [Hz <-]. assert (m = length pre) as -> by lia.
    destruct (Hc _ Hin) as [b Hcb]. destruct (Hall _ _ Hin Hcb) as [Hnot _].
    apply Hnot. by eapply Hb.
Qed.

(** ** Shadows and the render order *)

Lemma set_shadows_lookup mixes m :
  set_shadows mixes !! m
  = (fun n => with_shadow n (heard_as_peer mixes m && negb (hears_nothing n))) <$> mixes !! m.
Proof. unfold set_shadows. by rewrite list_lookup_imap. Qed.

Lemma set_shadows_brings mixes h o : brings (set_shadows mixes) h o -> brings mixes h o.
Proof.
  induction 1 as [h n Hn|h n p Hn Hp|h n h' o Hn Hin _ IH];
    rewrite set_shadows_lookup in Hn; apply fmap_Some in Hn as (n0 & Hn & ->); cbn in *.
  - by eapply brings_own.
  - by eapply brings_peer.
  - by eapply brings_heard.
Qed.

Lemma is_stereo_shadows mixes m : is_stereo (set_shadows mixes) m = is_stereo mixes m.
Proof. unfold is_stereo. rewrite set_shadows_lookup. by destruct (mixes !! m). Qed.

Lemma elem_of_indices_where {A : Type} (p : A -> bool) (l : list A) i :
  i ∈ indices_where p l <-> exists x, l !! i = Some x /\ p x = true.
Proof.
  unfold indices_where. rewrite list_elem_of_filter, elem_of_seq. split.
  - intros [Hp _]. destruct (l !! i) as [x|]; [eauto|done].
  - intros (x & Hx & Hp). rewrite Hx. split; [done|]. apply lookup_lt_Some in Hx. lia.
Qed.

Lemma NoDup_indices_where {A : Type} (p : A -> bool) (l : list A) : NoDup (indices_where p l).
Proof. apply NoDup_filter, NoDup_seq. Qed.

Lemma render_order_perm mixes : render_order mixes ≡ₚ seq 0 (length mixes).
Proof.
  apply NoDup_Permutation.
  - apply NoDup_app. split_and!; [apply NoDup_indices_where| |apply NoDup_indices_where].
    intros i (x & Hx & Hp)%elem_of_indices_where (y & Hy & Hq)%elem_of_indices_where.
    simplify_eq. by rewrite Hp in Hq.
  - apply NoDup_seq.
  - intros i. unfold render_order. rewrite elem_of_app, !elem_of_indices_where, elem_of_seq. split.
    + intros [(x & Hx & _)|(x & Hx & _)]; apply lookup_lt_Some in Hx; lia.
    + intros [_ Hlt]. destruct (lookup_lt_is_Some_2 mixes i) as [x Hx]; [lia|].
      destruct (hears_nothing x) eqn:E; [left|right]; exists x; by rewrite ?E.
Qed.

Lemma indices_where_sorted {A : Type} (p : A -> bool) (l : list A) :
  StronglySorted (fun a b => (a < b)%nat) (indices_where p l).
Proof.
  unfold indices_where. generalize 0%nat as s, (length l) as n. intros s n. revert s.
  induction n as [|n IH]; intros s; cbn [seq]; [constructor|]. rewrite filter_cons.
  case_decide; [|apply IH]. constructor; [apply IH|]. apply Forall_forall.
  intros x [_ Hx]%list_elem_of_filter. apply elem_of_seq in Hx. lia.
Qed.

(** [a] comes before [b] in [l]. *)
Definition before (l : list nat) (a b : nat) : Prop :=
  exists i j, l !! i = Some a /\ l !! j = Some b /\ (i < j)%nat.

Lemma before_app_lr l1 l2 a b : a ∈ l1 -> b ∈ l2 -> before (l1 ++ l2) a b.
Proof.
  intros [i Hi]%list_elem_of_lookup [j Hj]%list_elem_of_lookup.
  exists i, (length l1 + j)%nat. pose proof (lookup_lt_Some _ _ _ Hi).
  split_and!; [by apply lookup_app_l_Some|by rewrite lookup_app_r, Nat.add_comm, Nat.add_sub by lia|lia].
Qed.

Lemma before_app_r l1 l2 a b : before l2 a b -> before (l1 ++ l2) a b.
Proof.
  intros (i & j & Hi & Hj & Hlt). exists (length l1 + i)%nat, (length l1 + j)%nat.
  rewrite !lookup_app_r by lia. rewrite !(Nat.add_comm (length l1)), !Nat.add_sub. split_and!; [done..|lia].
Qed.

Lemma StronglySorted_before l a b :
  StronglySorted (fun a b => (a < b)%nat) l -> a ∈ l -> b ∈ l -> (a < b)%nat -> before l a b.
Proof.
  induction 1 as [|x l Hs IH Hf]; [by intros ?%not_elem_of_nil|]. rewrite Forall_forall in Hf.
  intros [->|Ha]%elem_of_cons [->|Hb]%elem_of_cons Hlt; [lia| | |].
  - apply list_elem_of_lookup in Hb as [j Hj]. exists 0%nat, (S j). split_and!; [done..|lia].
  - specialize (Hf a Ha). lia.
  - destruct (IH Ha Hb Hlt) as (i & j & ? & ? & ?). exists (S i), (S j). split_and!; [done..|lia].
Qed.

(** Every mix a mix hears whole, and every peer that hears nothing, is
    rendered before it. *)
Lemma render_order_before mixes m n s ns :
  (forall m n, mixes !! m = Some n -> heard_ok m n) ->
  mixes !! m = Some n -> mixes !! s = Some ns ->
  s ∈ mn_mixes n \/ (s ∈ mn_peers n /\ hears_nothing ns = true) ->
  before (render_order mixes) s m.
Proof.
  intros Hh Hm Hs Hsm. unfold render_order.
  assert (Hmr : m ∈ indices_where (fun n => negb (hears_nothing n)) mixes).
  { apply elem_of_indices_where. exists n. split; [done|]. unfold hears_nothing.
    destruct Hsm as [H|[H _]]; by destruct (mn_mixes n), (mn_peers n); try apply not_elem_of_nil in H. }
  destruct (hears_nothing ns) eqn:Hns.
  - apply before_app_lr; [|done]. apply elem_of_indices_where. eauto.
  - apply before_app_r. destruct Hsm as [Hin|[_ ?]]; [|done]. apply StronglySorted_before; [|..].
    + apply indices_where_sorted.
    + apply elem_of_indices_where. exists ns. by rewrite Hns.
    + done.
    + destruct (Hh _ _ Hm) as [_ Hf]. rewrite Forall_forall in Hf. auto.
Qed.

(** ** The well-formed topology *)

Record topo_wf (channels : Z) (t : Topology) : Prop := {
  wf_ids : NoDup ((in_id <$> t_inputs t) ++ (gn_id <$> t_groups t) ++ (mn_id <$> t_mixes t));
  wf_valid : Forall (fun id => valid_id id = true)
    ((in_id <$> t_inputs t) ++ (gn_id <$> t_groups t) ++ (mn_id <$> t_mixes t));
  wf_input_index : forall id i, input_index t id = Some i <-> in_id <$> t_inputs t !! i = Some id;
  wf_group_index : forall id i, group_index t id = Some i <-> gn_id <$> t_groups t !! i = Some id;
  wf_mix_index : forall id i, mix_index t id = Some i <-> mn_id <$> t_mixes t !! i = Some id;
  wf_rx : NoDup (t_rx t) /\ Forall (channel_ok channels) (t_rx t);
  wf_tx : NoDup (t_tx t) /\ Forall (channel_ok channels) (t_tx t);
  wf_input_rx : Forall (rx_fits (t_rx t)) (t_inputs t);
  wf_mix_tx : Forall (tx_fits (t_tx t)) (t_mixes t);
  wf_talkback : (length (filter (fun n => in_talkback n = true) (t_inputs t)) <= 1)%nat;
  wf_groups : forall i g, group_at (t_inputs t) i = Some g <-> in_groups (t_groups t) g i;
  wf_members : Forall (fun gn => NoDup (gn_inputs gn) /\ Sorted (≤)%nat (gn_inputs gn)
    /\ Forall (fun i => (i < length (t_inputs t))%nat) (gn_inputs gn)) (t_groups t);
  wf_direct : forall i, i ∈ t_direct t <-> exists n, t_inputs t !! i = Some n /\ in_group n = None;
  wf_heard : forall m n, t_mixes t !! m = Some n -> heard_ok m n;
  wf_peers : forall m n, t_mixes t !! m = Some n -> peers_ok (t_mixes t) (t_engineer t) m n;
  wf_engineer : is_stereo (t_mixes t) (t_engineer t) = true;
  wf_shadow : forall m n, t_mixes t !! m = Some n ->
    mn_shadow n = heard_as_peer (t_mixes t) m && negb (hears_nothing n);
  wf_order : t_order t = render_order (t_mixes t);
  wf_acyclic : forall m n h, t_mixes t !! m = Some n -> h ∈ mn_mixes n -> ~ brings (t_mixes t) h m;
}.

Lemma heard_as_peer_spec mixes m :
  heard_as_peer mixes m = true <-> exists i n, mixes !! i = Some n /\ m ∈ mn_peers n.
Proof.
  unfold heard_as_peer. rewrite existsb_elem. split.
  - intros (n & [i Hi]%list_elem_of_lookup & Hp%bool_decide_eq_true). eauto.
  - intros (i & n & Hi & Hp). exists n. rewrite bool_decide_eq_true. split; [|done].
    by eapply list_elem_of_lookup_2.
Qed.

Lemma heard_as_peer_shadows mixes m : heard_as_peer (set_shadows mixes) m = heard_as_peer mixes m.
Proof.
  apply eq_true_iff_eq. rewrite !heard_as_peer_spec. setoid_rewrite set_shadows_lookup.
  split.
  - intros (i & n & (n0 & H & ->)%fmap_Some & Hin). eauto.
  - intros (i & n & H & Hin). exists i. eexists. rewrite H. by split.
Qed.

Lemma ids_of_shadows mixes : mn_id <$> set_shadows mixes = mn_id <$> mixes.
Proof.
  apply list_eq. intros i. rewrite !list_lookup_fmap, set_shadows_lookup. by destruct (mixes !! i).
Qed.

(** Shadows change neither ids, channels, heard mixes nor peers. *)
Lemma mixes_wf_shadows engineer mixes :
  (forall m n, mixes !! m = Some n -> heard_ok m n /\ peers_ok mixes engineer m n) ->
  forall m n, set_shadows mixes !! m = Some n -> heard_ok m n /\ peers_ok (set_shadows mixes) engineer m n.
Proof.
  intros H m n Hm. rewrite set_shadows_lookup in Hm. apply fmap_Some in Hm as (n0 & Hm & ->).
  destruct (H _ _ Hm) as [Hh (H1 & H2 & H3)]. split; [done|]. split_and!; [done| |done].
  eapply Forall_impl; [exact H2|]. cbn. intros s. by rewrite is_stereo_shadows.
Qed.

Lemma unpeer_ids (l : list MixNode) : mn_id <$> (unpeer <$> l) = mn_id <$> l.
Proof. induction l as [|n l IH]; [done|]. cbn. by f_equal. Qed.

(** ** The nodes are the site's *)

(** [ix] are the places of [xs] in [l]. *)
Definition points {A : Type} (l : list A) (ix : list nat) (xs : list A) : Prop := Forall2 (fun i x => l !! i = Some x) ix xs.

Lemma points_app {A : Type} (l l' : list A) ix xs : points l ix xs -> points (l ++ l') ix xs.
Proof. intros Hp. eapply Forall2_impl; [exact Hp|]. intros i x. apply lookup_app_l_Some. Qed.

Lemma points_new {A : Type} (l xs : list A) : points (l ++ xs) (seq (length l) (length xs)) xs.
Proof.
  revert l. induction xs as [|x xs IH]; intros l; cbn; constructor; [by apply list_lookup_middle|].
  specialize (IH (l ++ [x])). by rewrite length_app, Nat.add_1_r, <-app_assoc in IH.
Qed.

(** One or two places from [first] on. *)
Lemma one_or_two first n :
  (1 <= n)%nat -> (n <= 2)%nat -> seq first n = if (n =? 2)%nat then [first; S first] else [first].
Proof. by destruct n as [|[|[|n]]]; try lia. Qed.

(** A node's places in the card's lists. *)
Definition input_ix (n : InputNode) : list nat := if in_stereo n then [(in_rx n).1; (in_rx n).2] else [(in_rx n).1].
Definition mix_ix (n : MixNode) : list nat := omap id [(mn_tx n).1; (mn_tx n).2].

(** The places of names, resolved one by one. *)
Lemma resolved {E T : Type} (pos : gmap string nat) (I : T -> Prop) (out : T -> list nat) (f : T -> string -> result E T) a names a' :
  (forall a name a', I a -> f a name = Ok a' -> I a' /\ exists s, pos !! name = Some s /\ out a' = out a ++ [s]) ->
  I a -> foldM f a names = Ok a' ->
  I a' /\ exists added, out a' = out a ++ added /\ Forall2 (fun s name => pos !! name = Some s) added names.
Proof.
  intros Hf. revert a. induction names as [|name names IH]; intros a Ha; cbn.
  - intros [= <-]. split; [done|]. exists []. by rewrite app_nil_r.
  - destruct (f a name) as [a1|] eqn:H1; [|done]. destruct (Hf _ _ _ Ha H1) as (Ha1 & s & Hs & Ho). intros H2.
    destruct (IH _ Ha1 H2) as (Ha' & added & Ho' & Hall). split; [done|]. exists (s :: added).
    split; [by rewrite Ho', Ho, <-app_assoc|by constructor].
Qed.

Lemma index_points {A : Type} (key : A -> string) (l : list A) ix names :
  NoDup (key <$> l) -> Forall2 (fun s name => index_of key l !! name = Some s) ix names -> points (key <$> l) ix names.
Proof.
  intros Hnd Hall. eapply Forall2_impl; [exact Hall|]. intros s name Hs. apply index_of_Some in Hs; [|done]. by rewrite list_lookup_fmap.
Qed.

(** *** Inputs *)

Definition input_of (rx : list Z) (n : InputNode) (x : SiteInput) : Prop :=
  in_id n = si_id x /\ in_talkback n = si_talkback x /\ points rx (input_ix n) (si_rx x).

Lemma compile_inputs_of site acc :
  compile_inputs site = Ok acc ->
  Forall2 (input_of (ia_rx acc)) (ia_inputs acc) (site_inputs site) /\ ia_rx acc = concat (si_rx <$> site_inputs site).
Proof.
  apply (foldM_ind _ (fun pre acc => Forall2 (input_of (ia_rx acc)) (ia_inputs acc) pre /\ ia_rx acc = concat (si_rx <$> pre))); [done|].
  intros pre x post s s' _ [HI Hrx] H. unfold compile_input in H.
  destruct (_ && _) eqn:Hn; cbn in H; [|done]. bool_inv.
  destruct (check_channels _ _ _ _) as [used|] eqn:Hc; cbn in H; [|done].
  destruct (si_talkback x && ia_talkback s); [done|]. simplify_eq. cbn [ia_rx ia_inputs].
  repeat match goal with H : (_ <=? _)%nat = true |- _ => apply Nat.leb_le in H end.
  split; [|by rewrite fmap_app, concat_app, Hrx; cbn; rewrite app_nil_r].
  apply Forall2_app.
  - eapply Forall2_impl; [exact HI|]. intros n y (? & ? & ?). split_and!; [done..|by apply points_app].
  - repeat constructor. unfold input_ix. cbn [in_stereo in_rx fst snd].
    pose proof (points_new (ia_rx s) (si_rx x)) as Hp. rewrite one_or_two in Hp by done. by destruct (_ =? 2)%nat.
Qed.

(** *** Groups *)

Definition group_of (ids : list string) (g : GroupNode) (x : SiteGroup) : Prop :=
  gn_id g = sg_id x /\ exists members, gn_inputs g ≡ₚ members /\ points ids members (sg_inputs x).

Lemma compile_groups_of site inputs inputs' groups :
  NoDup (si_id <$> site_inputs site) -> length inputs = length (site_inputs site) ->
  compile_groups site inputs = Ok (inputs', groups) ->
  Forall2 (group_of (si_id <$> site_inputs site)) groups (site_groups site).
Proof.
  intros Hnd Hlen Hf. set (ids := si_id <$> site_inputs site).
  apply (foldM_ind _ (fun pre (acc : list InputNode * list GroupNode) => length acc.1 = length ids /\ Forall2 (group_of ids) acc.2 pre)) in Hf; [apply Hf| |].
  { split; [|done]. unfold ids. by rewrite length_fmap. }
  clear inputs inputs' groups Hlen Hf. intros pre x post [inputs groups] acc' _ [Hlen HI] H. unfold compile_group in H.
  destruct (length (sg_inputs x) =? 0)%nat; [done|]. destruct (foldM _ _ _) as [[inputs' members]|] eqn:Hf; cbn in H; [|done]. simplify_eq. cbn in *.
  apply (resolved (index_of si_id (site_inputs site)) (fun acc => length acc.1 = length ids) snd) in Hf; [|clear -Hnd|done].
  2:{ intros [ins ms] name a' Hl. unfold compile_member. destruct (index_of _ _ !! name) as [i|] eqn:Hi; [|done].
      assert (Hlt : (i < length ids)%nat).
      { apply index_of_Some in Hi; [|done]. unfold ids. rewrite <-list_lookup_fmap in Hi. by eapply lookup_lt_Some. }
      destruct (lookup_lt_is_Some_2 ins i) as [node Hnode]; [cbn in Hl; lia|]. rewrite Hnode. destruct (in_group node); [done|].
      intros [= <-]. cbn. split; [by rewrite length_insert|]. by exists i. }
  cbn in Hf. destruct Hf as (Hl & added & -> & Hall). split; [done|]. apply Forall2_app; [done|]. repeat constructor. cbn [gn_inputs].
  exists added. split; [apply merge_sort_Permutation|]. by apply index_points.
Qed.

(** *** Mixes *)

Definition mix_of (tx : list Z) (ids : list string) (n : MixNode) (x : SiteMix) : Prop :=
  mn_id n = sm_id x /\ points tx (mix_ix n) (sm_tx x) /\ points ids (mn_mixes n) (sm_mixes x).

Lemma compile_mixes_of site acc :
  NoDup (sm_id <$> site_mixes site) -> compile_mixes site = Ok acc ->
  Forall2 (mix_of (xa_tx acc) (sm_id <$> site_mixes site)) (xa_mixes acc) (site_mixes site)
  /\ xa_tx acc = concat (sm_tx <$> site_mixes site) /\ xa_declared acc = index_of sm_id (site_mixes site).
Proof.
  intros Hnd. apply (foldM_ind _ (fun pre acc => Forall2 (mix_of (xa_tx acc) (sm_id <$> pre)) (xa_mixes acc) pre
    /\ xa_tx acc = concat (sm_tx <$> pre) /\ xa_declared acc = index_of sm_id pre)); [done|].
  intros pre x post s s' Hl (HI & Htx & Hdec) H. unfold compile_mix in H.
  destruct (_ && _) eqn:Hn; cbn in H; [|done]. bool_inv.
  destruct (check_channels _ _ _ _) as [used|] eqn:Hc; cbn in H; [|done].
  destruct (foldM _ _ _) as [heard|] eqn:Hf; cbn in H; [|done]. simplify_eq. cbn [xa_tx xa_mixes xa_declared].
  repeat match goal with H : (_ <=? _)%nat = true |- _ => apply Nat.leb_le in H end.
  assert (Hpre : NoDup (sm_id <$> pre)) by (rewrite Hl, fmap_app, NoDup_app in Hnd; apply Hnd).
  split_and!.
  - rewrite fmap_app. apply Forall2_app.
    + eapply Forall2_impl; [exact HI|]. intros n y (? & ? & ?). split_and!; [done|by apply points_app..].
    + repeat constructor; cbn [mn_id mn_mixes].
      * pose proof (points_new (xa_tx s) (sm_tx x)) as Hp. rewrite one_or_two in Hp by done. unfold mix_ix. cbn [mn_tx fst snd].
        by destruct (length (sm_tx x)) as [|[|[|]]]; try lia.
      * apply (resolved (xa_declared s) (fun _ => True) id) in Hf; [|clear|done].
        2:{ intros a name a' _. unfold compile_heard. destruct (xa_declared s !! name) as [i|]; [|done]. case_decide; [done|].
            intros [= <-]. split; [done|]. by exists i. }
        cbn in Hf. destruct Hf as (_ & added & -> & Hall). rewrite Hdec in Hall. by apply points_app, index_points.
  - rewrite fmap_app, concat_app, Htx. cbn. by rewrite app_nil_r.
  - rewrite index_of_snoc, Hdec. f_equal. by eapply Forall2_length.
Qed.

Lemma zip_seq_lookup {A : Type} (l : list A) pre m x post :
  zip (seq 0 (length l)) l = pre ++ (m, x) :: post -> m = length pre /\ l !! m = Some x.
Proof.
  intros Hz. pose proof (zip_seq_prefix _ _ _ _ _ Hz) as Hm. cbn in Hm. split; [done|].
  assert (Hlk : zip (seq 0 (length l)) l !! m = Some (m, x)) by (rewrite Hz; subst m; by apply list_lookup_middle).
  by apply lookup_zip_with_Some in Hlk as (i & y & [= <- <-] & _ & Hy).
Qed.

Definition peers_of (ids : list string) (n : MixNode) (x : SiteMix) : Prop := points ids (mn_peers n) (sm_peers x).

Lemma compile_peers_of site engineer mixes0 mixes :
  NoDup (sm_id <$> site_mixes site) -> length mixes0 = length (site_mixes site) ->
  Forall (fun n => mn_peers n = []) mixes0 ->
  compile_peers site (index_of sm_id (site_mixes site)) engineer mixes0 = Ok mixes ->
  forall m n x, mixes !! m = Some n -> site_mixes site !! m = Some x -> peers_of (sm_id <$> site_mixes site) n x.
Proof.
  intros Hnd Hlen Hnone Hf. set (ids := sm_id <$> site_mixes site). set (l := zip (seq 0 (length (site_mixes site))) (site_mixes site)) in *.
  assert (Hl : length l = length (site_mixes site)) by (unfold l; rewrite length_zip_with, length_seq; lia).
  apply (foldM_ind _ (fun pre ms => (forall m n, (length pre <= m)%nat -> ms !! m = Some n -> mn_peers n = [])
    /\ forall m n x, (m < length pre)%nat -> ms !! m = Some n -> site_mixes site !! m = Some x -> peers_of ids n x)) in Hf.
  - intros m n x Hn Hx. destruct Hf as [_ Hf]. eapply Hf; [|done..]. fold l. rewrite Hl. by eapply lookup_lt_Some.
  - rewrite Forall_lookup in Hnone. split; [intros m n _; apply Hnone|cbn; lia].
  - intros pre [m x] post ms ms' Hz [Hrest HI] H. apply zip_seq_lookup in Hz as [-> Hx]. unfold compile_mix_peers in H.
    destruct (_ && _); [done|]. destruct (foldM _ _ _) as [peers|] eqn:Hp; cbn in H; [|done]. simplify_eq.
    apply (resolved (index_of sm_id (site_mixes site)) (fun _ => True) id) in Hp; [|clear|done].
    2:{ intros a name a' _. unfold compile_peer. destruct (index_of _ _ !! name) as [i|]; [|done]. destruct (peer_allowed _ _ _ _ _); [|done].
        intros [= <-]. split; [done|]. by exists i. }
    cbn in Hp. destruct Hp as (_ & added & -> & Hall). rewrite length_app. cbn [length].
    split; [intros m' n Hm; rewrite list_lookup_alter_ne by lia; apply Hrest; lia|]. intros m' n y Hm Hn Hy.
    destruct (decide (m' = length pre)) as [->|Hne].
    + rewrite list_lookup_alter_eq in Hn. apply fmap_Some in Hn as (n0 & _ & ->). rewrite Hx in Hy. injection Hy as <-. by apply index_points.
    + rewrite list_lookup_alter_ne in Hn by done. eapply HI; [|done..]. lia.
Qed.

(** The topology [t] has the nodes of the site, each wired to the channels the
    site gives it, hearing whom the site says it hears. *)
Record of_site (site : Site) (t : Topology) : Prop := {
  os_rx : t_rx t = concat (si_rx <$> site_inputs site);
  os_tx : t_tx t = concat (sm_tx <$> site_mixes site);
  os_inputs : Forall2 (input_of (t_rx t)) (t_inputs t) (site_inputs site);
  os_groups : Forall2 (group_of (in_id <$> t_inputs t)) (t_groups t) (site_groups site);
  os_mixes : Forall2 (mix_of (t_tx t) (mn_id <$> t_mixes t)) (t_mixes t) (site_mixes site);
  os_peers : Forall2 (peers_of (mn_id <$> t_mixes t)) (t_mixes t) (site_mixes site);
  os_engineer : mn_id <$> t_mixes t !! t_engineer t = Some (site_engineer site);
}.

Section compile.
Context `{TopoHash}.

(** The pieces a successful compile went through. *)
Lemma compile_inv site t :
  compile site = Ok t ->
  exists seen ins inputs groups acc engineer mixes carries,
    foldM check_id ∅ (site_ids site) = Ok seen
    /\ compile_inputs site = Ok ins
    /\ compile_groups site (ia_inputs ins) = Ok (inputs, groups)
    /\ compile_mixes site = Ok acc
    /\ compile_engineer site acc = Ok engineer
    /\ compile_peers site (xa_declared acc) engineer (xa_mixes acc) = Ok mixes
    /\ check_carries site mixes = Ok carries
    /\ t_inputs t = inputs /\ t_groups t = groups /\ t_mixes t = set_shadows mixes
    /\ t_order t = render_order (set_shadows mixes) /\ t_direct t = direct_inputs inputs
    /\ t_rx t = ia_rx ins /\ t_tx t = xa_tx acc /\ t_engineer t = engineer
    /\ t_input_index t = index_of in_id inputs /\ t_group_index t = index_of gn_id groups
    /\ t_mix_index t = index_of mn_id (set_shadows mixes).
Proof.
  unfold compile. intros Hc.
  apply bind_ok in Hc as (seen & ? & Hc). apply bind_ok in Hc as (ins & ? & Hc).
  apply bind_ok in Hc as ([inputs groups] & ? & Hc). apply bind_ok in Hc as (acc & ? & Hc).
  apply bind_ok in Hc as (engineer & ? & Hc). apply bind_ok in Hc as (mixes & ? & Hc).
  apply bind_ok in Hc as (carries & ? & Hc). injection Hc as <-.
  exists seen, ins, inputs, groups, acc, engineer, mixes, carries. by split_and!.
Qed.

Lemma compile_engineer_ok site acc engineer :
  compile_engineer site acc = Ok engineer -> is_stereo (xa_mixes acc) engineer = true.
Proof.
  unfold compile_engineer. destruct (xa_declared acc !! _); [|done].
  destruct (is_stereo _ _) eqn:E; [|done]. by intros [= <-].
Qed.

Lemma rx_fits_ungroup rx n : rx_fits rx (ungroup n) <-> rx_fits rx n.
Proof. done. Qed.

(** Everything about inputs but their group survives the grouping. *)
Lemma ungroup_same l1 l2 :
  ungroup <$> l1 = ungroup <$> l2 ->
  in_id <$> l1 = in_id <$> l2
  /\ (forall rx, Forall (rx_fits rx) l1 <-> Forall (rx_fits rx) l2)
  /\ length (filter (fun n => in_talkback n = true) l1) = length (filter (fun n => in_talkback n = true) l2).
Proof.
  revert l2. induction l1 as [|a l1 IH]; intros [|b l2] Hs; try done.
  cbn in Hs. injection Hs as H1 H2 H3 H4 Hs. destruct (IH l2 Hs) as (Hi & Hr & Ht).
  split_and!.
  - cbn. by f_equal.
  - intros rx. rewrite !Forall_cons, Hr. unfold rx_fits. by rewrite H2, H3.
  - rewrite !filter_cons, H4. case_decide; cbn; by rewrite Ht.
Qed.

(** A site that compiles gives a well-formed topology with the site's nodes
    in the site's order. *)
Lemma compile_topo_wf (site : Site) (t : Topology) :
  compile site = Ok t ->
  topo_wf (site_channels site) t
  /\ site_ids site = (in_id <$> t_inputs t) ++ (gn_id <$> t_groups t) ++ (mn_id <$> t_mixes t).
Proof.
  intros (seen & ins & inputs & groups & acc & engineer & mixes & carries & Hids & Hin & Hgr & Hmx
          & Hen & Hpe & Hca & Hti & Htg & Htm & Hto & Htd & Hrx & Htx & Hte & Hii & Hgi & Hmi)%compile_inv.
  apply check_ids_ok in Hids as (Hnd & Hval & _).
  apply compile_inputs_inv in Hin as [Irx Irng _ Iids Iun Ifit Italk].
  apply compile_groups_inv in Hgr as [Gsame Gids Gmem Ggrp]; [|done]. cbn in *.
  destruct (ungroup_same _ _ Gsame) as (Uids & Urx & Utalk).
  assert (Hlen : length inputs = length (ia_inputs ins)).
  { apply (f_equal length) in Gsame. by rewrite !length_fmap in Gsame. }
  apply compile_mixes_inv in Hmx as [Xtx Xrng _ Xids _ Xfit Xheard Xpeers].
  2: { unfold site_ids in Hnd. rewrite !NoDup_app in Hnd. by destruct Hnd as (_ & _ & _ & _ & ?). }
  apply compile_engineer_ok in Hen.
  apply compile_peers_inv in Hpe as [Psame Pok]; [|done|done].
  assert (Mids : mn_id <$> mixes = mn_id <$> xa_mixes acc).
  { rewrite <-(unpeer_ids mixes), Psame. apply unpeer_ids. }
  assert (Mheard : forall m n, mixes !! m = Some n -> heard_ok m n /\ peers_ok mixes engineer m n).
  { intros m n Hm. destruct (unpeer_lookup _ _ _ _ Psame Hm) as (n0 & Hn0 & _ & _ & _ & Hmm & _).
    split.
    - destruct (Xheard _ _ Hn0) as [? ?]. by split; rewrite <-Hmm.
    - destruct (Pok _ _ Hm) as (? & Hf & ?). split_and!; [done| |done].
      eapply Forall_impl; [exact Hf|]. cbn. intros s (? & ? & ?). split_and!; [done..|].
      by rewrite (is_stereo_unpeer _ (xa_mixes acc)). }
  assert (Hall : site_ids site = (in_id <$> inputs) ++ (gn_id <$> groups) ++ (mn_id <$> set_shadows mixes)).
  { unfold site_ids. by rewrite Uids, Iids, Gids, ids_of_shadows, Mids, Xids. }
  rewrite Hall in Hnd, Hval.
  pose proof Hnd as (Nin & _ & (Ngr & _ & Nmx)%NoDup_app)%NoDup_app.
  split; [|by rewrite Hti, Htg, Htm].
  split; rewrite ?Hti, ?Htg, ?Htm, ?Hto, ?Htd, ?Hrx, ?Htx, ?Hte.
  - done.
  - done.
  - intros id i. unfold input_index. rewrite Hii. by apply index_of_Some.
  - intros id i. unfold group_index. rewrite Hgi. by apply index_of_Some.
  - intros id i. unfold mix_index. rewrite Hmi. by apply index_of_Some.
  - done.
  - done.
  - by apply Urx.
  - apply Forall_lookup. intros m n Hm. rewrite set_shadows_lookup in Hm.
    apply fmap_Some in Hm as (n0 & Hm & ->).
    destruct (unpeer_lookup _ _ _ _ Psame Hm) as (n1 & Hn1 & _ & Ht & Hmo & _).
    rewrite Forall_lookup in Xfit. specialize (Xfit _ _ Hn1). unfold tx_fits in *. cbn.
    by rewrite <-Ht, <-Hmo.
  - rewrite Utalk, Italk. destruct (ia_talkback ins); lia.
  - done.
  - by rewrite Hlen.
  - intros i. unfold direct_inputs. rewrite elem_of_indices_where.
    split; intros (n & Hn & Hg); exists n; split; try done; by destruct (in_group n).
  - intros m n Hm. by eapply (mixes_wf_shadows engineer mixes Mheard).
  - intros m n Hm. by eapply (mixes_wf_shadows engineer mixes Mheard).
  - by rewrite is_stereo_shadows, (is_stereo_unpeer _ _ _ Psame).
  - intros m n Hm. rewrite heard_as_peer_shadows. rewrite set_shadows_lookup in Hm.
    apply fmap_Some in Hm as (n0 & Hm & ->). done.
  - done.
  - intros m n h Hm Hh Hbr. rewrite set_shadows_lookup in Hm. apply fmap_Some in Hm as (n0 & Hm & ->).
    apply set_shadows_brings in Hbr. eapply check_carries_ok; [|exact Hca|exact Hm|exact Hh|exact Hbr].
    intros m' n' Hm'. by apply Mheard.
Qed.

Lemma compile_of_site (site : Site) (t : Topology) : compile site = Ok t -> of_site site t.
Proof.
  intros Hc. pose proof (compile_topo_wf _ _ Hc) as [_ Hall]. revert Hc.
  intros (seen & ins & inputs & groups & acc & engineer & mixes & carries & Hids & Hin & Hgr & Hmx
          & Hen & Hpe & _ & Hti & Htg & Htm & _ & _ & Hrx & Htx & Hte & _)%compile_inv.
  apply check_ids_ok in Hids as (Hnd & _ & _). unfold site_ids in Hnd. rewrite !NoDup_app in Hnd. destruct Hnd as (Nin & _ & _ & _ & Nmx).
  pose proof (compile_inputs_inv _ _ Hin) as [_ _ _ Iids Iun _ _]. apply compile_inputs_of in Hin as [Hins Hrxs].
  pose proof (compile_groups_inv _ _ _ Iun Hgr) as [Gsame _ _ _]. cbn in Gsame.
  apply compile_groups_of in Hgr; [|done|by eapply Forall2_length].
  pose proof (compile_mixes_inv _ _ Nmx Hmx) as [_ _ _ Xids _ _ Xheard Xpeers].
  apply compile_mixes_of in Hmx as (Hmxs & Htxs & Hdec); [|done]. rewrite Hdec in Hpe.
  pose proof (compile_peers_inv _ _ _ _ _ Xheard Xpeers Hpe) as [Psame _].
  assert (Mlen : length (xa_mixes acc) = length (site_mixes site)) by by eapply Forall2_length.
  assert (Mids : mn_id <$> set_shadows mixes = sm_id <$> site_mixes site).
  { rewrite ids_of_shadows, <-(unpeer_ids mixes), Psame, unpeer_ids. exact Xids. }
  assert (Iid : in_id <$> inputs = si_id <$> site_inputs site) by (destruct (ungroup_same _ _ Gsame) as [-> _]; exact Iids).
  assert (Hnone : Forall (fun n => mn_peers n = []) (xa_mixes acc)) by (eapply Forall_impl; [exact Xpeers|]; by intros ? []).
  pose proof (compile_peers_of _ _ _ _ Nmx Mlen Hnone Hpe) as Hpeers.
  assert (Hlen : length (set_shadows mixes) = length (site_mixes site)) by (apply (f_equal length) in Mids; by rewrite !length_fmap in Mids).
  split; rewrite ?Hti, ?Htg, ?Htm, ?Hrx, ?Htx, ?Hte, ?Mids, ?Iid; try done.
  - apply Forall2_same_length_lookup_2; [apply (f_equal length) in Iid; by rewrite !length_fmap in Iid|]. intros i n x Hn Hx.
    assert (Hu : (ungroup <$> ia_inputs ins) !! i = Some (ungroup n)) by (by rewrite <-Gsame, list_lookup_fmap, Hn).
    rewrite list_lookup_fmap in Hu. apply fmap_Some in Hu as (n0 & Hn0 & Hu). pose proof (Forall2_lookup_lr _ _ _ _ _ _ Hins Hn0 Hx) as Ho.
    unfold input_of, input_ix, ungroup, with_group in *. destruct n, n0. cbn in *. by simplify_eq.
  - apply Forall2_same_length_lookup_2; [done|]. intros m n x Hn Hx. rewrite set_shadows_lookup in Hn. apply fmap_Some in Hn as (n1 & Hn1 & ->).
    destruct (unpeer_lookup _ _ _ _ Psame Hn1) as (n0 & Hn0 & Hi & Ht & Hmo & Hmm & _). pose proof (Forall2_lookup_lr _ _ _ _ _ _ Hmxs Hn0 Hx) as Ho.
    unfold mix_of, mix_ix in *. cbn. by rewrite <-Hi, <-Ht, <-Hmm.
  - apply Forall2_same_length_lookup_2; [done|]. intros m n x Hn Hx. rewrite set_shadows_lookup in Hn. apply fmap_Some in Hn as (n1 & Hn1 & ->).
    exact (Hpeers m n1 x Hn1 Hx).
  - unfold compile_engineer in Hen. destruct (xa_declared acc !! _) as [m|] eqn:Hm; [|done]. destruct (is_stereo _ _); [|done]. injection Hen as <-.
    rewrite Hdec in Hm. apply index_of_Some in Hm; [|done].
    rewrite <-list_lookup_fmap in Hm. by rewrite <-list_lookup_fmap, Mids.
Qed.
End compile.

(** ** Level slots *)

#[local] Unset Default Proof Using.

Section slots.
Context {channels : Z} {t : Topology} (Hwf : topo_wf channels t).

(** The mixes a mix has levels for, in slot order. *)
Definition heard_list (n : MixNode) : list nat := mn_mixes n ++ mn_peers n.

Lemma levels_heard m n :
  t_mixes t !! m = Some n -> levels t m = (length (t_inputs t) + length (heard_list n))%nat.
Proof. intros Hm. unfold levels, heard_list. by rewrite Hm, length_app. Qed.

Lemma heard_list_NoDup m n : t_mixes t !! m = Some n -> NoDup (heard_list n).
Proof. intros Hm. by destruct (wf_peers _ _ Hwf _ _ Hm). Qed.

(** Every heard mix exists. *)
Lemma heard_list_lookup m n s :
  t_mixes t !! m = Some n -> s ∈ heard_list n -> is_Some (t_mixes t !! s).
Proof.
  intros Hm [Hin|Hin]%elem_of_app.
  - destruct (wf_heard _ _ Hwf _ _ Hm) as [_ Hf]. rewrite Forall_forall in Hf.
    specialize (Hf _ Hin). apply lookup_lt_Some in Hm. apply lookup_lt_is_Some_2. lia.
  - destruct (wf_peers _ _ Hwf _ _ Hm) as (_ & Hf & _). rewrite Forall_forall in Hf.
    destruct (Hf _ Hin) as (_ & _ & Hs). unfold is_stereo in Hs. by destruct (t_mixes t !! s).
Qed.

(** The two-list search of [slot] is one position in the joined list. *)
Lemma heard_position n s :
  match position (fun h => bool_decide (h = s)) (mn_mixes n) with
  | Some k => Some k
  | None => k ← position (fun p => bool_decide (p = s)) (mn_peers n); Some (length (mn_mixes n) + k)%nat
  end = position (fun h => bool_decide (h = s)) (heard_list n).
Proof.
  unfold heard_list. destruct (position _ (mn_mixes n)) as [k|] eqn:H1.
  - symmetry. apply position_Some in H1 as (x & Hx & Hp & Hlt). apply position_Some. exists x.
    split_and!; [by apply lookup_app_l_Some|done|]. intros j y Hy Hj.
    apply (Hlt j y); [|done]. rewrite lookup_app_l in Hy; [done|].
    apply lookup_lt_Some in Hx. lia.
  - rewrite position_None in H1. destruct (position _ (mn_peers n)) as [k|] eqn:H2; cbn; symmetry.
    + apply position_Some in H2 as (x & Hx & Hp & Hlt). apply position_Some. exists x.
      split_and!; [|done|].
      * rewrite lookup_app_r by lia. by replace (_ + k - _)%nat with k by lia.
      * intros j y Hy Hj. apply lookup_app_Some in Hy as [Hy|[Hge Hy]].
        -- apply H1. by eapply list_elem_of_lookup_2.
        -- eapply Hlt; [exact Hy|lia].
    + rewrite position_None in H2. apply position_None. intros x [Hx|Hx]%elem_of_app; auto.
Qed.

Lemma position_eq_NoDup (l : list nat) s k :
  NoDup l -> position (fun h => bool_decide (h = s)) l = Some k <-> l !! k = Some s.
Proof.
  intros Hnd. rewrite position_Some. split.
  - intros (x & Hx & Hp%bool_decide_eq_true & _). by subst.
  - intros Hk. exists s. split_and!; [done|by apply bool_decide_eq_true|].
    intros j y Hy Hj. apply bool_decide_eq_false. intros ->.
    pose proof (NoDup_lookup _ _ _ _ Hnd Hk Hy). lia.
Qed.

(** A slot of a mix that exists: an input's index, or a position among the
    heard mixes and peers. *)
Lemma slot_spec m n src k :
  t_mixes t !! m = Some n ->
  slot t m src = Some k <->
  match src with
  | SrcInput id => in_id <$> t_inputs t !! k = Some id
  | SrcMix id => exists j s, k = (length (t_inputs t) + j)%nat /\ heard_list n !! j = Some s
                   /\ mn_id <$> t_mixes t !! s = Some id
  end.
Proof.
  intros Hm. unfold slot. rewrite Hm. cbn. destruct src as [id|id].
  - apply (wf_input_index _ _ Hwf).
  - split.
    + intros (s & Hs & H)%bind_Some. rewrite heard_position in H.
      apply bind_Some in H as (j & Hj & [= <-]).
      apply position_eq_NoDup in Hj; [|by eapply heard_list_NoDup].
      exists j, s. split_and!; [done..|]. by apply (wf_mix_index _ _ Hwf).
    + intros (j & s & -> & Hj & Hs). apply (wf_mix_index _ _ Hwf) in Hs. rewrite Hs. cbn.
      rewrite heard_position.
      by rewrite (proj2 (position_eq_NoDup _ _ _ (heard_list_NoDup _ _ Hm)) Hj).
Qed.

Lemma source_input m n k i :
  t_mixes t !! m = Some n -> t_inputs t !! k = Some i -> source t m k = Some (SrcInput (in_id i)).
Proof. intros Hm Hk. unfold source. by rewrite Hm, Hk. Qed.

Lemma source_heard m n j s ns :
  t_mixes t !! m = Some n -> heard_list n !! j = Some s -> t_mixes t !! s = Some ns ->
  source t m (length (t_inputs t) + j) = Some (SrcMix (mn_id ns)).
Proof.
  intros Hm Hj Hs. unfold source. rewrite Hm. cbn.
  rewrite lookup_ge_None_2 by lia.
  destruct (Nat.ltb_spec (length (t_inputs t) + j) (length (t_inputs t))); [lia|].
  replace (length (t_inputs t) + j - length (t_inputs t))%nat with j by lia.
  unfold heard_list in Hj. apply lookup_app_Some in Hj as [Hj|[Hge Hj]].
  - rewrite Hj. cbn. by rewrite Hs.
  - rewrite lookup_ge_None_2 by done. destruct (Nat.ltb_spec j (length (mn_mixes n))); [lia|].
    rewrite Hj. cbn. by rewrite Hs.
Qed.

(** Every level slot of a mix has a source, and exactly those do. *)
Lemma source_is_Some m n k :
  t_mixes t !! m = Some n -> is_Some (source t m k) <-> (k < levels t m)%nat.
Proof.
  intros Hm. rewrite (levels_heard _ _ Hm).
  destruct (decide (k < length (t_inputs t))%nat) as [Hk|Hk].
  - destruct (lookup_lt_is_Some_2 _ _ Hk) as [i Hi]. rewrite (source_input _ _ _ _ Hm Hi).
    split; [lia|eauto].
  - assert (exists j, k = (length (t_inputs t) + j)%nat) as [j ->].
    { exists (k - length (t_inputs t))%nat. lia. }
    destruct (heard_list n !! j) as [s|] eqn:Hj.
    + destruct (heard_list_lookup _ _ _ Hm (list_elem_of_lookup_2 _ _ _ Hj)) as [ns Hs].
      rewrite (source_heard _ _ _ _ _ Hm Hj Hs). apply lookup_lt_Some in Hj. split; [lia|eauto].
    + split; [|apply lookup_ge_None_1 in Hj; lia]. intros [x Hx]. exfalso. revert Hx.
      unfold source. rewrite Hm. cbn. rewrite lookup_ge_None_2 by lia.
      destruct (Nat.ltb_spec (length (t_inputs t) + j) (length (t_inputs t))); [lia|].
      replace (length (t_inputs t) + j - length (t_inputs t))%nat with j by lia.
      apply lookup_ge_None_1 in Hj. unfold heard_list in Hj. rewrite length_app in Hj.
      rewrite lookup_ge_None_2 by lia. destruct (j <? length (mn_mixes n))%nat; cbn; [done|].
      by rewrite lookup_ge_None_2 by lia.
Qed.

(** [slot] and [source] are inverse to each other. *)
Lemma slot_source m n :
  t_mixes t !! m = Some n ->
  (forall src k, slot t m src = Some k <-> source t m k = Some src)
  /\ (forall k, is_Some (source t m k) <-> (k < levels t m)%nat).
Proof.
  intros Hm. split; [|by intros k; eapply source_is_Some].
  assert (Hto : forall src k, slot t m src = Some k -> source t m k = Some src).
  { intros src k Hk. apply (slot_spec _ _ _ _ Hm) in Hk. destruct src as [id|id].
    - apply fmap_Some in Hk as (i & Hi & ->). by eapply source_input.
    - destruct Hk as (j & s & -> & Hj & Hs). apply fmap_Some in Hs as (ns & Hs & ->).
      by eapply source_heard. }
  intros src k. split; [apply Hto|]. intros Hsrc.
  assert (Hk : (k < levels t m)%nat) by (by apply (source_is_Some _ _ _ Hm)).
  rewrite (levels_heard _ _ Hm) in Hk.
  destruct (decide (k < length (t_inputs t))%nat) as [Hlt|Hge].
  - destruct (lookup_lt_is_Some_2 _ _ Hlt) as [i Hi]. rewrite (source_input _ _ _ _ Hm Hi) in Hsrc.
    simplify_eq. apply (slot_spec _ _ _ _ Hm). by rewrite Hi.
  - assert (exists j, k = (length (t_inputs t) + j)%nat) as [j ->].
    { exists (k - length (t_inputs t))%nat. lia. }
    destruct (lookup_lt_is_Some_2 (heard_list n) j) as [s Hj]; [lia|].
    destruct (heard_list_lookup _ _ _ Hm (list_elem_of_lookup_2 _ _ _ Hj)) as [ns Hs].
    rewrite (source_heard _ _ _ _ _ Hm Hj Hs) in Hsrc. simplify_eq.
    apply (slot_spec _ _ _ _ Hm). exists j, s. by rewrite Hs.
Qed.
End slots.

(** ** HIL's spare outputs *)

Lemma mix_on_tx_None t ch :
  mix_on_tx t ch = None ->
  forall a m, t_tx t !! a = Some ch -> (forall j, t_tx t !! j = Some ch -> j = a) ->
    m ∈ t_mixes t -> (mn_tx m).1 <> Some a /\ (mn_tx m).2 <> Some a.
Proof.
  unfold mix_on_tx. intros H a m Ha Huniq Hm.
  destruct (position _ _) as [b|] eqn:Hp; cbn in H.
  - apply position_Some in Hp as (x & Hx & Hb%bool_decide_eq_true & _). subst x.
    rewrite (Huniq b Hx) in H. apply fmap_None, list_find_None in H.
    rewrite Forall_forall in H. specialize (H m Hm). tauto.
  - rewrite position_None in Hp. specialize (Hp ch (list_elem_of_lookup_2 _ _ _ Ha)).
    apply bool_decide_eq_false in Hp. done.
Qed.

Lemma hil_outputs_fold t outs0 hil_tx outs :
  NoDup outs0 ->
  foldM (hil_output t) outs0 hil_tx = Ok outs ->
  outs = outs0 ++ hil_tx /\ NoDup outs
  /\ Forall (fun ch => ch <> 0 /\ mix_on_tx t ch = None /\ ch ∉ t_rx t) hil_tx.
Proof.
  revert outs0. induction hil_tx as [|ch hil_tx IH]; intros outs0 Hnd; cbn.
  - intros [= <-]. rewrite app_nil_r. split_and!; [done|done|constructor].
  - unfold hil_output at 1. destruct (Z.eqb_spec ch 0); [done|].
    destruct (mix_tx_refusal t ch) eqn:Href; [done|].
    case_decide as Hrx; [done|]. case_decide as Hdup; [done|]. intros (-> & Hnd' & Hf)%IH.
    + rewrite <-app_assoc in *. split_and!; [done|done|]. constructor; [|done].
      split_and!; [done| |done]. unfold mix_tx_refusal in Href. by apply fmap_None in Href.
    + apply NoDup_app. split_and!; [done|set_solver|apply NoDup_singleton].
Qed.

(** ** The demo site *)

Definition demo_topo : Topology :=
  match compile demo_site with
  | Ok t => t
  | Err _ => mkTopology [] [] [] [] [] [] [] 0 "" ∅ ∅ ∅
  end.

Lemma demo_compiles : compile demo_site = Ok demo_topo.
Proof.
  unfold demo_topo. destruct (compile demo_site) as [t|e] eqn:E; [done|].
  apply (f_equal is_ok) in E. exfalso. revert E. by vm_compute.
Qed.

Lemma demo_wf : topo_wf 8 demo_topo.
Proof. apply (compile_topo_wf demo_site), demo_compiles. Qed.

(** Mix [m] of the demo site. *)
Definition demo_mix (m : nat) : MixNode :=
  match t_mixes demo_topo !! m with Some n => n | None => mkMixNode "" (None, None) false [] [] false end.

(** ** Properties *)

(** C23: a site that compiles gives a well-formed topology: ids valid and all
    distinct across inputs, groups and mixes; the index maps exact inverses
    of the lists; card channels nonzero, within the card and never reused;
    every node's channel indices inside the card lists; groups and inputs
    agreeing on membership; heard mixes declared earlier, each once; peers
    other stereo set mixes, disjoint from the heard mixes, never the
    engineer's; shadows exactly where a peer that hears something is heard;
    and no mix ever hearing its own output back.  The nodes are the site's, in
    the site's order: each input and mix is wired to the very channels the site
    gives it, so no two nodes share one, each group has the inputs, each mix
    hears the mixes and the peers the site lists, and the engineer is its own. *)
Theorem compile_wf `{TopoHash} (site : Site) (t : Topology) :
  compile site = Ok t ->
  topo_wf (site_channels site) t
  /\ site_ids site = (in_id <$> t_inputs t) ++ (gn_id <$> t_groups t) ++ (mn_id <$> t_mixes t)
  /\ of_site site t.
Proof. intros Hc. destruct (compile_topo_wf _ _ Hc). split_and!; [done..|by apply compile_of_site]. Qed.

Lemma compile_wf_witness : topo_wf 8 demo_topo /\ site_ids demo_site <> [].
Proof. split; [exact (proj1 (compile_wf demo_site demo_topo demo_compiles))|done]. Defined.

(** In a well-formed topology the level slots of a mix and its sources
    are in bijection: [slot] sends a source the mix hears to a slot below
    [levels], whose [source] is that source again; and every slot below
    [levels] has a source, which [slot] sends back to it. *)
Theorem slot_source_bijection channels t m n :
  topo_wf channels t -> t_mixes t !! m = Some n ->
  (forall src k, slot t m src = Some k <-> source t m k = Some src)
  /\ (forall k, is_Some (source t m k) <-> (k < levels t m)%nat).
Proof. intros Hwf. apply (slot_source Hwf). Qed.

Lemma slot_source_bijection_witness :
  (slot demo_topo 0 (SrcMix "m2") = Some 3 <-> source demo_topo 0 3 = Some (SrcMix "m2"))%nat.
Proof. apply (slot_source_bijection 8 demo_topo 0 (demo_mix 0) demo_wf). by vm_compute. Defined.

(** The render order runs through every mix once, and the processor never
    reads a mix before it is rendered: a mix heard whole, and a peer that
    hears nothing itself, come before the mixes that hear them. *)
Theorem order_topological channels t m n s ns :
  topo_wf channels t -> t_mixes t !! m = Some n -> t_mixes t !! s = Some ns ->
  t_order t ≡ₚ seq 0 (length (t_mixes t))
  /\ (s ∈ mn_mixes n \/ (s ∈ mn_peers n /\ hears_nothing ns = true) -> before (t_order t) s m).
Proof.
  intros Hwf Hm Hs. rewrite (wf_order _ _ Hwf). split; [apply render_order_perm|].
  intros H. eapply render_order_before; [|exact Hm|exact Hs|exact H]. apply (wf_heard _ _ Hwf).
Qed.

Lemma order_topological_witness : before (t_order demo_topo) 1 0.
Proof.
  apply (order_topological 8 demo_topo 0 (demo_mix 0) 1 (demo_mix 1)); [apply demo_wf|by vm_compute..|].
  right. split; [|by vm_compute]. by apply (bool_decide_unpack _); vm_compute.
Defined.

(** The spare outputs the engine opens for the HIL signal can never reach
    a band member: when [hil_outputs] accepts the site's list it is that list,
    at most [MAX_HIL] distinct nonzero channels, none of them a topology input
    and none of them the TX channel of any mix. *)
Theorem hil_outputs_safe channels (t : Topology) (hil_tx outs : list Z) :
  topo_wf channels t -> hil_outputs t hil_tx = Ok outs ->
  outs = hil_tx /\ (length outs <= MAX_HIL)%nat /\ NoDup outs
  /\ forall ch, ch ∈ outs -> ch <> 0 /\ ch ∉ t_rx t
     /\ forall m a, m ∈ t_mixes t -> (mn_tx m).1 = Some a \/ (mn_tx m).2 = Some a ->
          t_tx t !! a <> Some ch.
Proof.
  intros Hwf. unfold hil_outputs. destruct (Nat.ltb_spec MAX_HIL (length hil_tx)); [done|].
  intros (-> & Hnd & Hf)%hil_outputs_fold; [|constructor]. cbn in *. split_and!; [done..|].
  rewrite Forall_forall in Hf. intros ch Hch. destruct (Hf ch Hch) as (H0 & Hmix & Hrx).
  split_and!; [done..|]. intros m a Hm Htx Ha.
  destruct (wf_tx _ _ Hwf) as [Hndtx _].
  destruct (mix_on_tx_None _ _ Hmix a m Ha) as [? ?]; [|done|tauto].
  intros j Hj. by eapply NoDup_lookup.
Qed.

Lemma hil_outputs_safe_witness : NoDup [9; 10].
Proof. apply (hil_outputs_safe 8 demo_topo [9; 10] [9; 10] demo_wf). by vm_compute. Defined.
