(* ===== verification/Reconciled.v ===== *)
(** * The mix state in topology order ([iem-engine/src/core/state.rs])

    [MixRec] and [Reconciled] lay the shaped state out by the topology's
    indices; [to_state] is the way back to the protocol's form, and
    [defaults_muted] the end of the load chain. *)

From S2P Require Import Prelude F64 Text MixState Msg Shape Topology TopologyWf.
From stdpp Require Import options.

(** One mix in topology order: its output, its level slots and group strips. *)
Record MixRec := mkMixRec { r_out : MixOut; r_levels : list Level; r_groups : list MixGroup }.

Record Reconciled := mkReconciled { r_inputs : list InputState; r_mixes : list MixRec }.

Definition or_default {A : Type} (d : A) (o : option A) : A := match o with Some a => a | None => d end.

Definition layout_mix (topo : Topology) (shaped : MixState) (m : nat) (node : MixNode) : MixRec :=
  let mix := s_mixes shaped !! mn_id node in
  mkMixRec
    (map_or m_out MixOut_default mix)
    ((fun k => or_default Level_default (src ← source topo m k; x ← mix; Mix_level x src))
       <$> seq 0 (levels topo m))
    ((fun g => or_default MixGroup_default (x ← mix; m_groups x !! gn_id g)) <$> t_groups topo).

(** The state for this topology, and what the topology does not have. *)
Definition reconcile_topo (topo : Topology) (state : MixState) : Reconciled * list string :=
  let '(shaped, dropped) := reconcile (info topo) state in
  (mkReconciled
     ((fun n => or_default InputState_default (s_inputs shaped !! in_id n)) <$> t_inputs topo)
     (imap (layout_mix topo shaped) (t_mixes topo)),
   dropped).

(** One level slot back into the protocol's mix. *)
Definition put_level (topo : Topology) (m : nat) (mix : Mix) (p : nat * Level) : Mix :=
  let '(k, level) := p in
  match source topo m k with
  | Some (SrcInput id) => mkMix (m_out mix) (<[id := level]> (m_inputs mix)) (m_groups mix) (m_mixes mix)
  | Some (SrcMix id) => mkMix (m_out mix) (m_inputs mix) (m_groups mix) (<[id := level]> (m_mixes mix))
  | None => mix
  end.

Definition mix_of_rec (topo : Topology) (m : nat) (rec : MixRec) : Mix :=
  let mix := mkMix (r_out rec) ∅ ∅ ∅ in
  let mix := foldl (put_level topo m) mix (zip (seq 0 (length (r_levels rec))) (r_levels rec)) in
  mkMix (m_out mix) (m_inputs mix)
    (foldl (fun acc '(g, s) => <[gn_id g := s]> acc) ∅ (zip (t_groups topo) (r_groups rec)))
    (m_mixes mix).

(** The protocol form of a reconciled state. *)
Definition to_state (topo : Topology) (r : Reconciled) : MixState :=
  mkMixState
    (foldl (fun acc '(n, s) => <[in_id n := s]> acc) ∅ (zip (t_inputs topo) (r_inputs r)))
    (foldl (fun acc '(m, (node, rec)) => <[mn_id node := mix_of_rec topo m rec]> acc) ∅
       (zip (seq 0 (length (t_mixes topo))) (zip (t_mixes topo) (r_mixes r)))).

Definition mute_out (o : MixOut) : MixOut := mkMixOut (o_volume_db o) true (o_eq o) (o_limiter o).
Definition mute_rec (rec : MixRec) : MixRec := mkMixRec (mute_out (r_out rec)) (r_levels rec) (r_groups rec).

(** The end of the load chain: defaults with every mix muted. *)
Definition defaults_muted (topo : Topology) : MixState :=
  let r := (reconcile_topo topo MixState_default).1 in
  to_state topo (mkReconciled (r_inputs r) (mute_rec <$> r_mixes r)).

(** ** A layout that fits its topology *)

Definition rec_ok (topo : Topology) (m : nat) (rec : MixRec) : Prop :=
  out_ok (r_out rec) = true
  /\ length (r_levels rec) = levels topo m /\ Forall (fun l => level_ok l = true) (r_levels rec)
  /\ length (r_groups rec) = length (t_groups topo) /\ Forall (fun g => group_ok g = true) (r_groups rec).

Record layout_ok (topo : Topology) (r : Reconciled) : Prop := {
  lo_inputs : length (r_inputs r) = length (t_inputs topo);
  lo_inputs_ok : Forall (fun i => input_ok i = true) (r_inputs r);
  lo_mixes : length (r_mixes r) = length (t_mixes topo);
  lo_mixes_ok : forall m rec, r_mixes r !! m = Some rec -> rec_ok topo m rec;
}.

Lemma or_default_ok {A : Type} (p : A -> bool) d o :
  p d = true -> (forall a, o = Some a -> p a = true) -> p (or_default d o) = true.
Proof. destruct o; cbn; auto. Qed.

#[local] Unset Default Proof Using.

Section layout.
Context {channels : Z} {topo : Topology} (Hwf : topo_wf channels topo).

Lemma wf_nodup_inputs : NoDup (in_id <$> t_inputs topo).
Proof. pose proof (wf_ids _ _ Hwf) as H. rewrite NoDup_app in H. apply H. Qed.

Lemma wf_nodup_groups : NoDup (gn_id <$> t_groups topo).
Proof. pose proof (wf_ids _ _ Hwf) as H. rewrite !NoDup_app in H. apply H. Qed.

Lemma wf_nodup_mixes : NoDup (mn_id <$> t_mixes topo).
Proof. pose proof (wf_ids _ _ Hwf) as H. rewrite !NoDup_app in H. apply H. Qed.

Lemma info_mix_ids : mi_id <$> ti_mixes (info topo) = mn_id <$> t_mixes topo.
Proof. cbn. rewrite <-list_fmap_compose. done. Qed.

Lemma info_input_ids : ii_id <$> ti_inputs (info topo) = in_id <$> t_inputs topo.
Proof. cbn. rewrite <-list_fmap_compose. done. Qed.

Lemma info_group_ids : gi_id <$> ti_groups (info topo) = gn_id <$> t_groups topo.
Proof. cbn. rewrite <-list_fmap_compose. done. Qed.

Lemma info_distinct : mixes_distinct (info topo).
Proof. unfold mixes_distinct. rewrite info_mix_ids. apply wf_nodup_mixes. Qed.

Lemma reconcile_topo_fst state :
  (reconcile_topo topo state).1
  = mkReconciled
      ((fun n => or_default InputState_default (s_inputs (reconcile (info topo) state).1 !! in_id n)) <$> t_inputs topo)
      (imap (layout_mix topo (reconcile (info topo) state).1) (t_mixes topo)).
Proof. unfold reconcile_topo. by destruct (reconcile (info topo) state). Qed.

(** The protocol's description of mix [m]. *)
Definition mix_info (n : MixNode) : MixInfo :=
  let mix_id m := mn_id <$> t_mixes topo !! m in
  mkMixInfo (mn_id n) (if mn_mono n then 1 else 2)%Z (omap mix_id (mn_mixes n)) (omap mix_id (mn_peers n)).

Lemma mix_info_in n : n ∈ t_mixes topo -> mix_info n ∈ ti_mixes (info topo).
Proof. intros Hin. cbn. apply list_elem_of_fmap. exists n. by split. Qed.

(** Whatever state it is given, the layout has the topology's sizes and
    every value in range. *)
Lemma reconcile_topo_ok state : layout_ok topo (reconcile_topo topo state).1.
Proof.
  rewrite reconcile_topo_fst.
  pose proof (reconcile_fits (info topo) state info_distinct) as Hfit.
  generalize dependent (reconcile (info topo) state).1. intros shaped (_ & Hin & _ & Hmix).
  destruct defaults_ok as (Di & Dl & Dg & Do). split; cbn.
  - by rewrite length_fmap.
  - apply Forall_fmap, Forall_forall. intros n _. cbn. apply or_default_ok; [done|]. intros i. apply Hin.
  - by rewrite length_imap.
  - intros m rec Hm. rewrite list_lookup_imap in Hm. apply fmap_Some in Hm as (n & Hn & ->).
    assert (Hx : forall x, s_mixes shaped !! mn_id n = Some x -> mix_fits (info topo) (mix_info n) x).
    { intros x Hx. by apply Hmix; [apply mix_info_in; eapply list_elem_of_lookup_2|]. }
    unfold rec_ok, layout_mix; cbn.
    destruct (s_mixes shaped !! mn_id n) as [x|]; cbn.
    + destruct (Hx x eq_refl) as (Ho & _ & _ & _ & Hli & Hlm & Hlg).
      split_and!; [done|by rewrite length_fmap, length_seq| |by rewrite length_fmap|].
      * apply Forall_fmap, Forall_forall. intros k _. cbn. apply or_default_ok; [done|].
        intros l Hl. destruct (source topo m k) as [[id|id]|]; cbn in Hl; [..|done].
        -- by eapply Hli.
        -- by eapply Hlm.
      * apply Forall_fmap, Forall_forall. intros g _. cbn. apply or_default_ok; [done|]. intros l. apply Hlg.
    + split_and!; [done|by rewrite length_fmap, length_seq| |by rewrite length_fmap|];
        apply Forall_fmap, Forall_forall; intros ? _; cbn; by try destruct (source topo m _).
Qed.
End layout.

(** ** Round trip *)

Section roundtrip.
Context {channels : Z} {topo : Topology} (Hwf : topo_wf channels topo).

Lemma put_level_lookup m mix k l src :
  Mix_level (put_level topo m mix (k, l)) src
  = if decide (source topo m k = Some src) then Some l else Mix_level mix src.
Proof.
  unfold put_level. destruct (source topo m k) as [[id|id]|], src as [id'|id']; cbn;
    case_decide; try congruence; simplify_eq; by rewrite ?lookup_insert_eq, ?lookup_insert_ne by congruence.
Qed.

Lemma put_levels_Some m mix ps src l :
  Mix_level (foldl (put_level topo m) mix ps) src = Some l ->
  (exists k, (k, l) ∈ ps /\ source topo m k = Some src) \/ Mix_level mix src = Some l.
Proof.
  revert mix. induction ps as [|[k l'] ps IH]; intros mix; cbn [foldl]; [by right|].
  intros [(k' & Hin & Hs)|H]%IH.
  - left. exists k'. split; [|done]. apply elem_of_cons. by right.
  - rewrite put_level_lookup in H. case_decide; [|by right]. simplify_eq.
    left. exists k. split; [|done]. apply elem_of_cons. by left.
Qed.

Lemma put_levels_lookup m n mix ps k l src :
  t_mixes topo !! m = Some n -> source topo m k = Some src -> (k, l) ∈ ps -> NoDup ps.*1 ->
  Mix_level (foldl (put_level topo m) mix ps) src = Some l.
Proof.
  intros Hm Hs. destruct (slot_source Hwf _ _ Hm) as [Hb _].
  revert mix. induction ps as [|[k' l'] ps IH] using rev_ind; [by intros ? ?%not_elem_of_nil|].
  intros mix Hin Hnd. rewrite foldl_snoc, put_level_lookup.
  rewrite fmap_app, NoDup_app in Hnd. destruct Hnd as (Hnd & Hnew & _). cbn in Hnew.
  apply elem_of_app in Hin as [Hin|Hin].
  - rewrite decide_False; [by apply IH|]. intros Hk.
    assert (k = k') as -> by (apply Hb in Hs; apply Hb in Hk; congruence).
    apply (Hnew k'); [|set_solver]. apply list_elem_of_fmap. by exists (k', l).
  - apply list_elem_of_singleton in Hin. simplify_eq. by rewrite decide_True.
Qed.

Lemma put_levels_rest m mix ps :
  m_out (foldl (put_level topo m) mix ps) = m_out mix.
Proof.
  revert mix. induction ps as [|[k l] ps IH]; intros mix; cbn [foldl]; [done|].
  rewrite IH. unfold put_level. by destruct (source topo m k) as [[]|].
Qed.

Lemma mix_of_rec_level m rec src :
  Mix_level (mix_of_rec topo m rec) src
  = Mix_level (foldl (put_level topo m) (mkMix (r_out rec) ∅ ∅ ∅)
                 (zip (seq 0 (length (r_levels rec))) (r_levels rec))) src.
Proof. by destruct src. Qed.

(** A level slot of the record is found under its source. *)
Lemma mix_of_rec_lookup m n rec k l src :
  t_mixes topo !! m = Some n -> r_levels rec !! k = Some l -> source topo m k = Some src ->
  Mix_level (mix_of_rec topo m rec) src = Some l.
Proof.
  intros Hm Hl Hs. rewrite mix_of_rec_level. eapply put_levels_lookup; [done|done| |].
  - apply (list_elem_of_lookup_2 _ k). apply lookup_zip_with_Some. exists k, l.
    split_and!; [done| |done]. apply lookup_seq. split; [done|]. by eapply lookup_lt_Some.
  - rewrite fst_zip by by rewrite length_seq. apply NoDup_seq.
Qed.

Lemma mix_of_rec_Some m rec src l :
  Mix_level (mix_of_rec topo m rec) src = Some l ->
  exists k, r_levels rec !! k = Some l /\ source topo m k = Some src.
Proof.
  rewrite mix_of_rec_level. intros [(k & Hin & Hs)|H]%put_levels_Some.
  - exists k. split; [|done]. apply list_elem_of_lookup in Hin as [i Hi].
    apply lookup_zip_with_Some in Hi as (k' & l' & ? & Hk & Hl). simplify_eq.
    apply lookup_seq in Hk as [-> _]. done.
  - by destruct src; cbn in H; rewrite lookup_empty in H.
Qed.

Lemma mix_of_rec_is_Some m n rec src :
  t_mixes topo !! m = Some n -> length (r_levels rec) = levels topo m ->
  is_Some (Mix_level (mix_of_rec topo m rec) src) <-> is_Some (slot topo m src).
Proof.
  intros Hm Hlen. destruct (slot_source Hwf _ _ Hm) as [Hb Hlt]. split.
  - intros [l (k & _ & Hs)%mix_of_rec_Some]. exists k. by apply Hb.
  - intros [k Hk]. apply Hb in Hk. assert (k < levels topo m) as Hkl by (apply Hlt; by eexists).
    rewrite <-Hlen in Hkl. destruct (lookup_lt_is_Some_2 _ _ Hkl) as [l Hl].
    exists l. by eapply mix_of_rec_lookup.
Qed.

(** The mixes the protocol says a mix hears are those it has slots for. *)
Lemma heard_ids_slot m n id :
  t_mixes topo !! m = Some n ->
  id ∈ mi_mixes (mix_info (topo:=topo) n) ++ mi_peers (mix_info (topo:=topo) n)
  <-> is_Some (slot topo m (SrcMix id)).
Proof.
  intros Hm. cbn. rewrite <-omap_app, list_elem_of_omap. split.
  - intros (s & Hs & Hid). apply list_elem_of_lookup in Hs as [j Hj].
    exists (length (t_inputs topo) + j)%nat. apply (slot_spec Hwf _ _ _ _ Hm). eauto.
  - intros [k Hk]. apply (slot_spec Hwf _ _ _ _ Hm) in Hk as (j & s & _ & Hj & Hid).
    exists s. split; [|done]. by eapply list_elem_of_lookup_2.
Qed.

Lemma input_ids_slot m n id :
  t_mixes topo !! m = Some n ->
  id ∈ ii_id <$> ti_inputs (info topo) <-> is_Some (slot topo m (SrcInput id)).
Proof.
  intros Hm. rewrite info_input_ids, list_elem_of_fmap. split.
  - intros (i & -> & [k Hk]%list_elem_of_lookup). exists k. apply (slot_spec Hwf _ _ _ _ Hm). by rewrite Hk.
  - intros [k Hk]. apply (slot_spec Hwf _ _ _ _ Hm) in Hk. apply fmap_Some in Hk as (i & Hi & ->).
    exists i. split; [done|]. by eapply list_elem_of_lookup_2.
Qed.

Lemma mix_of_rec_fits m n rec :
  t_mixes topo !! m = Some n -> rec_ok topo m rec -> mix_fits (info topo) (mix_info (topo:=topo) n) (mix_of_rec topo m rec).
Proof.
  intros Hm (Ho & Hl & Hlo & Hg & Hgo). rewrite Forall_lookup in Hlo. rewrite Forall_forall in Hgo.
  assert (Hlev : forall src l, Mix_level (mix_of_rec topo m rec) src = Some l -> level_ok l = true).
  { intros src l (k & Hk & _)%mix_of_rec_Some. by eapply Hlo. }
  unfold mix_fits. split_and!.
  - unfold mix_of_rec; cbn [m_out]. by rewrite put_levels_rest.
  - intros id. rewrite (input_ids_slot _ _ _ Hm). by apply (mix_of_rec_is_Some _ _ _ (SrcInput id) Hm).
  - intros id. rewrite (heard_ids_slot _ _ _ Hm). by apply (mix_of_rec_is_Some _ _ _ (SrcMix id) Hm).
  - intros id. rewrite info_group_ids. cbn [mix_of_rec m_groups]. by apply zip_insert_is_Some.
  - intros id l. apply (Hlev (SrcInput id)).
  - intros id l. apply (Hlev (SrcMix id)).
  - intros id g Hid. apply Hgo. cbn [mix_of_rec m_groups] in Hid.
    eapply zip_insert_Some; [|done|exact Hid]. apply (wf_nodup_groups Hwf).
Qed.

(** The fold over the mixes as a plain zip. *)
Lemma to_state_mixes_eq r :
  s_mixes (to_state topo r)
  = foldl (fun acc '(n, x) => <[mn_id n := x]> acc) ∅
      (zip (t_mixes topo) (imap (mix_of_rec topo) (take (length (t_mixes topo)) (r_mixes r)))).
Proof.
  cbn. generalize (∅ : gmap MixId Mix) as acc. generalize (t_mixes topo) as ns, (r_mixes r) as rs.
  enough (H : forall ns rs s acc,
    foldl (fun acc '(m, (node, rec)) => <[mn_id node := mix_of_rec topo m rec]> acc) acc
      (zip (seq s (length ns)) (zip ns rs))
    = foldl (fun acc '(n, x) => <[mn_id n := x]> acc) acc
        (zip ns (imap (fun i => mix_of_rec topo (s + i)) (take (length ns) rs)))) by (intros; apply H).
  induction ns as [|n ns IH]; intros [|rec rs] s acc; [done..|]. cbn. rewrite IH, Nat.add_0_r.
  f_equal. f_equal. apply imap_ext. intros i x _. cbn. by replace (s + S i) with (S s + i) by lia.
Qed.

Lemma to_state_fits r : layout_ok topo r -> fits (info topo) (to_state topo r).
Proof.
  intros [Hli Hio Hlm Hmo]. rewrite Forall_forall in Hio.
  assert (Hmix : s_mixes (to_state topo r)
    = foldl (fun acc '(n, x) => <[mn_id n := x]> acc) ∅ (zip (t_mixes topo) (imap (mix_of_rec topo) (r_mixes r)))).
  { rewrite to_state_mixes_eq. by rewrite take_ge by lia. }
  unfold fits. split_and!.
  - intros id. rewrite info_input_ids. by apply zip_insert_is_Some.
  - intros id i Hid. apply Hio. eapply zip_insert_Some; [apply (wf_nodup_inputs Hwf)|done|exact Hid].
  - intros id. rewrite info_mix_ids, Hmix. apply zip_insert_is_Some. by rewrite length_imap.
  - intros node x Hin Hx. cbn in Hin. apply list_elem_of_fmap in Hin as (n & -> & [m Hm]%list_elem_of_lookup).
    rewrite Hmix in Hx. cbn [mi_id] in Hx.
    destruct (lookup_lt_is_Some_2 (r_mixes r) m) as [rec Hrec]; [rewrite Hlm; by eapply lookup_lt_Some|].
    rewrite (zip_insert_lookup mn_id _ _ m n (mix_of_rec topo m rec)) in Hx; [|..].
    + simplify_eq. apply mix_of_rec_fits; [done|]. by apply Hmo.
    + apply (wf_nodup_mixes Hwf).
    + by rewrite length_imap.
    + done.
    + by rewrite list_lookup_imap, Hrec.
Qed.

(** A layout's protocol form reconciles back to it. *)
Lemma to_state_roundtrip (r : Reconciled) :
  layout_ok topo r -> reconcile_topo topo (to_state topo r) = (r, []).
Proof.
  intros Hok. pose proof Hok as [Hli _ Hlm Hmo].
  unfold reconcile_topo. rewrite (reconcile_fixed _ _ (info_distinct Hwf) (to_state_fits _ Hok)).
  f_equal. destruct r as [ri rm]; cbn [r_inputs r_mixes] in *. f_equal.
  - apply list_eq_same_length with (n := length (t_inputs topo)); [done|by rewrite length_fmap|].
    intros i x y Hi Hx Hy. rewrite list_lookup_fmap in Hx. apply fmap_Some in Hx as (n & Hn & ->).
    cbn [to_state s_inputs r_inputs].
    by rewrite (zip_insert_lookup in_id _ _ i n y (wf_nodup_inputs Hwf) Hli Hn Hy).
  - apply list_eq_same_length with (n := length (t_mixes topo)); [done|by rewrite length_imap|].
    intros m x rec Hi Hx Hrec. rewrite list_lookup_imap in Hx. apply fmap_Some in Hx as (n & Hn & ->).
    destruct (Hmo _ _ Hrec) as (_ & Hll & _ & Hlg & _).
    assert (Hmix : s_mixes (to_state topo (mkReconciled ri rm)) !! mn_id n = Some (mix_of_rec topo m rec)).
    { rewrite to_state_mixes_eq. cbn [r_mixes]. rewrite take_ge by lia.
      apply (zip_insert_lookup mn_id _ _ m); [apply (wf_nodup_mixes Hwf)|by rewrite length_imap|done|].
      by rewrite list_lookup_imap, Hrec. }
    unfold layout_mix. rewrite Hmix. destruct rec as [o ls gs]; cbn [r_levels r_groups map_or] in *. f_equal.
    + unfold mix_of_rec; cbn [m_out]. by rewrite put_levels_rest.
    + apply list_eq_same_length with (n := levels topo m); [done|by rewrite length_fmap, length_seq|].
      intros k x y Hk Hx Hy. rewrite list_lookup_fmap, lookup_seq_lt in Hx by done. cbn in Hx. simplify_eq.
      destruct (slot_source Hwf _ _ Hn) as [_ Hlt].
      destruct (proj2 (Hlt k) Hk) as [src Hsrc]. rewrite Hsrc. cbn [mbind option_bind].
      by rewrite (mix_of_rec_lookup _ _ (mkMixRec o ls gs) _ _ _ Hn Hy Hsrc).
    + apply list_eq_same_length with (n := length (t_groups topo)); [done|by rewrite length_fmap|].
      intros g x y Hk Hx Hy. rewrite list_lookup_fmap in Hx. apply fmap_Some in Hx as (gn & Hgn & ->).
      cbn [mbind option_bind mix_of_rec m_groups r_groups].
      by rewrite (zip_insert_lookup gn_id _ _ g gn y (wf_nodup_groups Hwf) Hlg Hgn Hy).
Qed.
End roundtrip.

(** ** Properties *)

(** Saving and loading the mix state loses nothing: for every layout that
    fits a compiled topology, reconciling its protocol form gives the layout
    back exactly and drops nothing. *)
Theorem reconcile_to_state channels (topo : Topology) (r : Reconciled) :
  topo_wf channels topo -> layout_ok topo r -> reconcile_topo topo (to_state topo r) = (r, []).
Proof. intros Hwf. apply (to_state_roundtrip Hwf). Qed.

Lemma reconcile_to_state_witness :
  let r := (reconcile_topo demo_topo MixState_default).1 in
  reconcile_topo demo_topo (to_state demo_topo r) = (r, []).
Proof. apply (reconcile_to_state 8 demo_topo _ demo_wf), (reconcile_topo_ok demo_wf). Defined.

(** The end of the load chain is silent: the state [defaults_muted] gives
    for a compiled topology fits it, and the layout made of it is the default
    layout with every mix muted. *)
Theorem defaults_muted_silent channels (topo : Topology) :
  topo_wf channels topo ->
  fits (info topo) (defaults_muted topo)
  /\ exists r, reconcile_topo topo (defaults_muted topo) = (r, [])
     /\ r_inputs r = r_inputs (reconcile_topo topo MixState_default).1
     /\ r_mixes r = mute_rec <$> r_mixes (reconcile_topo topo MixState_default).1
     /\ Forall (fun rec => o_muted (r_out rec) = true) (r_mixes r).
Proof.
  intros Hwf. unfold defaults_muted. cbn zeta.
  pose proof (reconcile_topo_ok Hwf MixState_default) as Hok.
  set (r := (reconcile_topo topo MixState_default).1) in *.
  assert (Hm : layout_ok topo (mkReconciled (r_inputs r) (mute_rec <$> r_mixes r))).
  { destruct Hok as [H1 H2 H3 H4]. split; cbn; [done|done|by rewrite length_fmap|].
    intros m rec Hr. rewrite list_lookup_fmap in Hr. apply fmap_Some in Hr as (rec0 & Hr & ->).
    destruct (H4 _ _ Hr) as (?&?&?&?&?). by split_and!. }
  split; [by apply (to_state_fits Hwf)|]. eexists. split; [by apply (to_state_roundtrip Hwf)|].
  split_and!; [done|done|]. cbn. apply Forall_fmap, Forall_forall. done.
Qed.

Lemma defaults_muted_silent_witness : fits (info demo_topo) (defaults_muted demo_topo).
Proof. apply (defaults_muted_silent 8 demo_topo demo_wf). Defined.
