(* ===== verification/Rt.v ===== *)
(** * Commands to the real-time thread ([iem-engine/src/cmd.rs], [params.rs])

    The messages the control core sends to the RT thread, with linear values
    and 16-bit indices, and the conversion of protocol values to them.  The
    slot a message addresses ([rt_slot]) and the memory of the last message
    per slot ([rt_mem]) are the specification the core is proved against: the
    RT thread holds, per slot, what the last message said. *)

From S2P Require Import Prelude F64 Text MixState Msg Shape Topology.
From stdpp Require Import vector.
From stdpp Require Import options.
Local Open Scope Z_scope.

(** ** DSP parameters *)

Inductive DspKind := DspHighPass | DspLowShelf | DspPeak | DspHighShelf.

#[export] Instance DspKind_eq_dec : EqDecision DspKind.
Proof. solve_decision. Defined.

Definition dsp_kind (k : BandKind) : DspKind :=
  match k with
  | HighPass => DspHighPass
  | LowShelf => DspLowShelf
  | Peak => DspPeak
  | HighShelf => DspHighShelf
  end.

Record DspBand := mkDspBand {
  db_kind : DspKind;
  db_enabled : bool;
  db_freq_hz : f64;
  db_gain_lin : f64;
  db_bw_oct : f64;
}.

Record EqParams := mkEqParams { ep_bands : vec DspBand 5; ep_global_gain : f64 }.

Record InputParams := mkInputParams { ip_trim : f64; ip_muted : bool; ip_processing : bool }.

(** X13 test signal. *)
Definition TEST_HZ : Range := Eval vm_compute in (f64_lit 20 0, f64_lit 20000 0).
Definition TEST_DBFS : Range := Eval vm_compute in (f64_lit (-120) 0, f64_lit (-20) 0).
Definition TEST_TTL_S : Range := Eval vm_compute in (f64_lit 1 3, f64_lit 120 0).

Section params.
Context `{Libm}.

Definition dsp_band (b : EqBand) : DspBand :=
  mkDspBand (dsp_kind (b_kind b)) (b_enabled b) (b_freq_hz b) (db_to_lin (b_gain_db b)) (b_bw_oct b).

(** The DSP form of a (capped) EQ. *)
Definition eq_params (e : Eq) : EqParams :=
  mkEqParams (vmap dsp_band (e_bands e)) (db_to_lin (e_gain_db e)).

Definition input_params (s : InputState) : InputParams :=
  mkInputParams (db_to_lin (i_trim_db s)) (i_muted s) (i_processing s).
End params.

(** ** Messages *)

(** The spare outputs a HIL test signal sounds on, by HIL slot. *)
Abbreviation HilMask := (list bool).

Inductive RtOp :=
| RtNop
| RtInput (i : Z) (p : InputParams)
| RtInputEq (i : Z) (eq : EqParams)
| RtMixOut (m : Z) (volume : f64) (muted : bool)
| RtMixEq (m : Z) (eq : EqParams)
| RtLimiter (m : Z) (enabled : bool) (limit_db : f64)
| RtResetLimiter (m : Z)
| RtLevel (m k : Z) (gain pan : f64) (muted : bool)
| RtGroup (m g : Z) (gain : f64) (muted : bool)
| RtGroupEq (m g : Z) (eq : EqParams)
| RtListen (slot : Z) (mix : option Z)
| RtTestSignal (i : Z) (hz amp : f64) (ttl : Z)
| RtHilTestSignal (i : Z) (hz amp : f64) (ttl : Z) (mask : HilMask) (listen : bool)
| RtStopTestSignal
| RtFadeOut
| RtPanic
| RtArm.

Record RtCmd := mkRtCmd { rc_at : Z; rc_group : Z; rc_op : RtOp }.

(** The chunk [push_group] writes into a ring with room for [slots] commands:
    [None] when nothing is written. *)
Definition push_group (slots : nat) (at_ : Z) (ops : list RtOp) : option (list RtCmd) :=
  let n := length ops in
  if (u16_max <? Z.of_nat n)%Z then None
  else if (n =? 0)%nat then None
  else if (slots <? n)%nat then None
  else Some (imap (fun k op => mkRtCmd at_ (if (k =? 0)%nat then Z.of_nat n else 0) op) ops).

(** ** Slots: what a message overwrites *)

Inductive rt_slot :=
| SlInput (i : Z) | SlInputEq (i : Z)
| SlMixOut (m : Z) | SlMixEq (m : Z) | SlLimiter (m : Z)
| SlLevel (m k : Z)
| SlGroup (m g : Z) | SlGroupEq (m g : Z)
| SlListen (s : Z).

#[export] Instance rt_slot_eq_dec : EqDecision rt_slot.
Proof. solve_decision. Defined.

Definition slot_of (op : RtOp) : option rt_slot :=
  match op with
  | RtInput i _ => Some (SlInput i)
  | RtInputEq i _ => Some (SlInputEq i)
  | RtMixOut m _ _ => Some (SlMixOut m)
  | RtMixEq m _ => Some (SlMixEq m)
  | RtLimiter m _ _ => Some (SlLimiter m)
  | RtLevel m k _ _ _ => Some (SlLevel m k)
  | RtGroup m g _ _ => Some (SlGroup m g)
  | RtGroupEq m g _ => Some (SlGroupEq m g)
  | RtListen s _ => Some (SlListen s)
  | _ => None
  end.

(** The last message per slot. *)
Definition rt_mem : Type := rt_slot -> option RtOp.

Definition rt_write (mem : rt_mem) (op : RtOp) : rt_mem :=
  fun s => if decide (slot_of op = Some s) then Some op else mem s.

Definition rt_run (mem : rt_mem) (ops : list RtOp) : rt_mem := foldl rt_write mem ops.

(** ** Numeric equality of messages: equal up to the sign of zeros. *)

Definition dsp_band_feq (a b : DspBand) : Prop :=
  db_kind a = db_kind b /\ db_enabled a = db_enabled b /\ feq (db_freq_hz a) (db_freq_hz b)
  /\ feq (db_gain_lin a) (db_gain_lin b) /\ feq (db_bw_oct a) (db_bw_oct b).

Definition eq_params_feq (a b : EqParams) : Prop :=
  Forall2 dsp_band_feq (vec_to_list (ep_bands a)) (vec_to_list (ep_bands b))
  /\ feq (ep_global_gain a) (ep_global_gain b).

Definition op_feq (a b : RtOp) : Prop :=
  match a, b with
  | RtInput i p, RtInput i' p' =>
      i = i' /\ feq (ip_trim p) (ip_trim p') /\ ip_muted p = ip_muted p' /\ ip_processing p = ip_processing p'
  | RtInputEq i e, RtInputEq i' e' => i = i' /\ eq_params_feq e e'
  | RtMixOut m v mu, RtMixOut m' v' mu' => m = m' /\ feq v v' /\ mu = mu'
  | RtMixEq m e, RtMixEq m' e' => m = m' /\ eq_params_feq e e'
  | RtLimiter m en l, RtLimiter m' en' l' => m = m' /\ en = en' /\ feq l l'
  | RtLevel m k g p mu, RtLevel m' k' g' p' mu' => m = m' /\ k = k' /\ feq g g' /\ feq p p' /\ mu = mu'
  | RtGroup m g v mu, RtGroup m' g' v' mu' => m = m' /\ g = g' /\ feq v v' /\ mu = mu'
  | RtGroupEq m g e, RtGroupEq m' g' e' => m = m' /\ g = g' /\ eq_params_feq e e'
  | _, _ => a = b
  end.

#[export] Instance dsp_band_feq_equiv : Equivalence dsp_band_feq.
Proof.
  split; unfold dsp_band_feq.
  - intros a. by split_and!.
  - intros a b (?&?&?&?&?). split_and!; by symmetry.
  - intros a b c (?&?&?&?&?) (?&?&?&?&?). split_and!; by etrans.
Qed.

#[export] Instance eq_params_feq_equiv : Equivalence eq_params_feq.
Proof.
  split; unfold eq_params_feq.
  - intros a. by split.
  - intros a b [? ?]. split; by symmetry.
  - intros a b c [? ?] [? ?]. split; by etrans.
Qed.

#[export] Instance op_feq_equiv : Equivalence op_feq.
Proof.
  split.
  - intros []; cbn; split_and?; reflexivity.
  - intros [] []; cbn; try congruence; intros; destruct_and?; split_and?; by symmetry.
  - intros [] [] []; cbn; try congruence; intros; destruct_and?; split_and?; by etrans.
Qed.

(** Two memories that hold numerically equal messages. *)
Definition mem_feq (a b : rt_mem) : Prop := forall s, option_Forall2 op_feq (a s) (b s).

#[export] Instance mem_feq_equiv : Equivalence mem_feq.
Proof.
  split.
  - intros a s. reflexivity.
  - intros a b H s. symmetry. apply H.
  - intros a b c H1 H2 s. etrans; [apply H1|apply H2].
Qed.

(** ** Running messages *)

Lemma rt_run_app mem a b : rt_run mem (a ++ b) = rt_run (rt_run mem a) b.
Proof. apply foldl_app. Qed.

Lemma rt_run_cons mem op ops : rt_run mem (op :: ops) = rt_run (rt_write mem op) ops.
Proof. done. Qed.

Lemma rt_run_notin mem ops s :
  Forall (fun op => slot_of op <> Some s) ops -> rt_run mem ops s = mem s.
Proof.
  revert mem. induction ops as [|op ops IH]; intros mem H; [done|].
  apply Forall_cons in H as [Hop H]. rewrite rt_run_cons, IH by done. unfold rt_write.
  by rewrite decide_False.
Qed.

(** The last message of a slot is what its memory holds. *)
Lemma rt_run_last mem ops s op :
  last (filter (fun o => slot_of o = Some s) ops) = Some op -> rt_run mem ops s = Some op.
Proof.
  induction ops as [|o ops IH] using rev_ind; [done|].
  rewrite filter_app, rt_run_app. rewrite filter_cons, filter_nil. cbn.
  unfold rt_write at 1. case_decide.
  - rewrite last_snoc. by intros [= ->].
  - rewrite app_nil_r. apply IH.
Qed.

(** A list of messages that, slot by slot, agrees with [want] leaves a memory
    that agreed elsewhere in agreement everywhere. *)
Lemma rt_run_agree (want mem : rt_mem) ops :
  Forall (fun op => exists s, slot_of op = Some s /\ want s = Some op) ops ->
  (forall s, Forall (fun op => slot_of op <> Some s) ops -> option_Forall2 op_feq (mem s) (want s)) ->
  mem_feq (rt_run mem ops) want.
Proof.
  intros Hops Hrest s.
  destruct (decide (Forall (fun op => slot_of op <> Some s) ops)) as [Hn|Hn].
  - rewrite rt_run_notin by done. by apply Hrest.
  - apply not_Forall_Exists in Hn; [|intros op; apply _].
    destruct (last (filter (fun o => slot_of o = Some s) ops)) as [op|] eqn:Hl.
    + rewrite (rt_run_last _ _ _ _ Hl). assert (op ∈ filter (fun o => slot_of o = Some s) ops) as Hin.
      { by apply last_Some_elem_of. }
      apply list_elem_of_filter in Hin as [Hs Hin]. rewrite Forall_forall in Hops.
      destruct (Hops op Hin) as (s' & Hs' & Hw). simplify_eq. rewrite Hw. reflexivity.
    + exfalso. apply last_None in Hl. apply Exists_exists in Hn as (op & Hin & Hs). apply dec_stable in Hs.
      assert (op ∈ filter (fun o => slot_of o = Some s) ops) as H2 by by apply list_elem_of_filter.
      rewrite Hl in H2. by apply not_elem_of_nil in H2.
Qed.

Lemma eq_params_proper `{LibmOk} a b : eq_feq a b -> eq_params_feq (eq_params a) (eq_params b).
Proof.
  intros [Hg Hb]. split; cbn; [|by rewrite Hg].
  rewrite !vec_to_list_map. apply Forall2_fmap. eapply Forall2_impl; [exact Hb|].
  intros x y (? & ? & ? & Hgain & ?). unfold dsp_band_feq; cbn. split_and!; [by f_equal|done..| |done].
  by rewrite Hgain.
Qed.
