(* ===== verification/Core.v ===== *)
(** * The control core ([iem-engine/src/core.rs], [core/commands.rs])

    The single writer of the mix state: one request becomes the new revision,
    the changed entities and one group of RT commands.  Each method of [Core]
    is a computation in [CoreM], which passes the core along and, like a Rust
    method on [&mut self] that returns early, keeps whatever was written to it
    when it fails. *)

From S2P Require Import Prelude F64 Text MixState Msg Shape Topology TopologyWf Reconciled Rt.
From Stdlib Require Import SpecFloat.
From stdpp Require Import vector.
From stdpp Require Import options.
Local Open Scope Z_scope.

Definition MAX_CMDS_PER_BLOCK : nat := 512.
Definition MAX_BATCH : nat := 256.
Definition MAX_SOLO : nat := 64.

Record CmdError := mkCmdError { ce_code : ErrCode; ce_msg : string }.

(** ** The HIL mask *)

Definition hil_mask_channel (topo : Topology) (hil : list Z) (mask : HilMask) (ch : Z)
    : result CmdError HilMask :=
  match mix_tx_refusal topo ch with
  | Some why => Err (mkCmdError Forbidden why)
  | None =>
      slot ← ok_or (position (fun c => bool_decide (c = ch)) hil)
               (mkCmdError UnknownId
                  ("card output " +:+ dec ch +:+ " is not a HIL output of this engine ([guard] hil_tx)"));
      if (slot <? length mask)%nat then Ok (<[slot := true]> mask)
      else Err (mkCmdError BadValue
                  ("card output " +:+ dec ch +:+ " is beyond the first " +:+ dec (Z.of_nat MAX_HIL) +:+ " HIL outputs"))
  end.

(** The HIL signal's outputs among the engine's spare outputs [hil]. *)
Definition hil_mask (topo : Topology) (hil card_tx : list Z) : result CmdError HilMask :=
  if (length card_tx =? 0)%nat
  then Err (mkCmdError BadValue "the HIL test signal names no card output")
  else foldM (hil_mask_channel topo hil) (replicate MAX_HIL false) card_tx.

(** ** State *)

Record Flags := mkFlags { fl_test_signal : bool; fl_fault_injection : bool }.

Inductive Effect := ENone | ESendState | ESendTopology | ESave | EShutdown | EImported.

#[export] Instance Effect_eq_dec : EqDecision Effect.
Proof. solve_decision. Defined.

Record Outcome := mkOutcome {
  out_rev : Z;
  out_changes : list Change;
  out_rt : list RtOp;
  out_effect : Effect;
}.

Record Partial := mkPartial {
  p_changes : list Change;
  p_rt : list RtOp;
  p_effect : option Effect;
  p_bump : bool;
}.

Definition Partial_default : Partial := mkPartial [] [] None false.
Definition Partial_changed (changes : list Change) (rt : list RtOp) : Partial :=
  mkPartial changes rt None (negb (length changes =? 0)%nat).
Definition Partial_effect (e : Effect) : Partial := mkPartial [] [] (Some e) false.

(** [c_solo]: per mix its soloed level slots; [c_listen] slot 0 is the
    engineer's, slot 1 one other mix's; [c_hil_test]: the running test signal
    is the card-masked one. *)
Record Core := mkCore {
  c_topo : Topology;
  c_s : Reconciled;
  c_solo : gmap nat (gset nat);
  c_listen : option nat * option nat;
  c_test : option TestSignal;
  c_hil_test : bool;
  c_hil : list Z;
  c_rev : Z;
  c_flags : Flags;
}.

Definition Core_new (topo : Topology) (state : MixState) (rev : Z) (flags : Flags) : Core :=
  mkCore topo (reconcile_topo topo state).1 ∅ (None, None) None false [] rev flags.

Definition with_hil (c : Core) (hil : list Z) : Core :=
  mkCore (c_topo c) (c_s c) (c_solo c) (c_listen c) (c_test c) (c_hil_test c) hil (c_rev c) (c_flags c).

(** Field updates. *)
Definition set_s (s : Reconciled) (c : Core) : Core :=
  mkCore (c_topo c) s (c_solo c) (c_listen c) (c_test c) (c_hil_test c) (c_hil c) (c_rev c) (c_flags c).
Definition set_solos (solo : gmap nat (gset nat)) (c : Core) : Core :=
  mkCore (c_topo c) (c_s c) solo (c_listen c) (c_test c) (c_hil_test c) (c_hil c) (c_rev c) (c_flags c).
Definition set_listens (l : option nat * option nat) (c : Core) : Core :=
  mkCore (c_topo c) (c_s c) (c_solo c) l (c_test c) (c_hil_test c) (c_hil c) (c_rev c) (c_flags c).
Definition set_test (t : option TestSignal) (c : Core) : Core :=
  mkCore (c_topo c) (c_s c) (c_solo c) (c_listen c) t (c_hil_test c) (c_hil c) (c_rev c) (c_flags c).
Definition set_hil_test (b : bool) (c : Core) : Core :=
  mkCore (c_topo c) (c_s c) (c_solo c) (c_listen c) (c_test c) b (c_hil c) (c_rev c) (c_flags c).
Definition set_rev (rev : Z) (c : Core) : Core :=
  mkCore (c_topo c) (c_s c) (c_solo c) (c_listen c) (c_test c) (c_hil_test c) (c_hil c) rev (c_flags c).

Definition set_input_at (i : nat) (new : InputState) (s : Reconciled) : Reconciled :=
  mkReconciled (<[i := new]> (r_inputs s)) (r_mixes s).
Definition alter_mix (f : MixRec -> MixRec) (m : nat) (s : Reconciled) : Reconciled :=
  mkReconciled (r_inputs s) (alter f m (r_mixes s)).

(** ** The monad *)

Definition CoreM (A : Type) : Type := Core -> Core * result CmdError A.

#[export] Instance CoreM_ret : MRet CoreM := fun A a c => (c, Ok a).
#[export] Instance CoreM_bind : MBind CoreM := fun A B f m c =>
  let '(c', r) := m c in match r with Ok a => f a c' | Err e => (c', Err e) end.

(** [expr?] on a [Result]. *)
Definition lift {A : Type} (r : result CmdError A) : CoreM A := fun c => (c, r).
Definition err {A : Type} (code : ErrCode) (msg : string) : CoreM A := lift (Err (mkCmdError code msg)).
Definition gets {A : Type} (f : Core -> A) : CoreM A := fun c => (c, Ok (f c)).
Definition modify (f : Core -> Core) : CoreM unit := fun c => (f c, Ok tt).

(** ** Reading *)

Definition mix_id_of (topo : Topology) (m : nat) : option MixId := mn_id <$> t_mixes topo !! m.

(** The soloed slots of a mix in ascending order, as a [BTreeSet] iterates. *)
Definition sorted_set (s : gset nat) : list nat := merge_sort (≤)%nat (elements s).
Definition sorted_keys {A : Type} (m : gmap nat A) : list nat := merge_sort (≤)%nat (map_to_list m).*1.

Definition listen_ids (c : Core) : option MixId * option MixId :=
  let '(a, b) := c_listen c in (a ≫= mix_id_of (c_topo c), b ≫= mix_id_of (c_topo c)).

Definition core_state (c : Core) : MixState := to_state (c_topo c) (c_s c).

Definition transient (c : Core) : Transient :=
  mkTransient
    (omap (fun m =>
         set ← c_solo c !! m;
         id ← mix_id_of (c_topo c) m;
         Some (mkSolo id (omap (source (c_topo c) m) (sorted_set set))))
       (sorted_keys (c_solo c)))
    (listen_ids c)
    (c_test c).

Definition find_input (id : InputId) : CoreM nat := fun c =>
  (c, ok_or (input_index (c_topo c) id) (mkCmdError UnknownId ("unknown input " +:+ clip id))).
Definition find_mix (id : MixId) : CoreM nat := fun c =>
  (c, ok_or (mix_index (c_topo c) id) (mkCmdError UnknownId ("unknown mix " +:+ clip id))).
Definition find_group (id : GroupId) : CoreM nat := fun c =>
  (c, ok_or (group_index (c_topo c) id) (mkCmdError UnknownId ("unknown group " +:+ clip id))).

Definition get_input (c : Core) (i : nat) : InputState := or_default InputState_default (r_inputs (c_s c) !! i).
Definition get_out (c : Core) (m : nat) : MixOut := map_or r_out MixOut_default (r_mixes (c_s c) !! m).
Definition get_level (c : Core) (m k : nat) : Level :=
  or_default Level_default (r ← r_mixes (c_s c) !! m; r_levels r !! k).
Definition get_strip (c : Core) (m g : nat) : MixGroup :=
  or_default MixGroup_default (r ← r_mixes (c_s c) !! m; r_groups r !! g).

(** [u16::try_from(i).unwrap_or(u16::MAX)] *)
Definition ix (i : nat) : Z := Z.min (Z.of_nat i) u16_max.

Definition capped (v : f64) (r : Range) (what : string) : result CmdError f64 :=
  ok_or (cap v r) (mkCmdError BadValue (what +:+ " is not finite")).

(** [if let Some(v) = field { x = capped(v)? }] *)
Definition capped_opt (v : option f64) (r : Range) (what : string) (old : f64) : result CmdError f64 :=
  match v with Some v => capped v r what | None => Ok old end.

(** [if let Some(v) = field { x = v }] *)
Definition opt_or {A : Type} (v : option A) (old : A) : A := match v with Some v => v | None => old end.

(** Commands allowed inside a batch: state edits only. *)
Definition batchable (cmd : Cmd) : bool :=
  match cmd with
  | SetInput _ _ _ _ | SetMix _ _ _ | SetLevel _ _ _ _ _ | SetGroup _ _ _ _ | SetEq _ _
  | SetLimiter _ _ _ | ResetLimiterStats _ | SetSolo _ _ | StartListen _ | StopListen _ => true
  | _ => false
  end.

Section core.
Context `{Libm}.

(** ** RT commands *)

Definition out_op (m : nat) (o : MixOut) : RtOp := RtMixOut (ix m) (db_to_lin (o_volume_db o)) (o_muted o).
Definition limiter_op (m : nat) (o : MixOut) : RtOp :=
  RtLimiter (ix m) (l_enabled (o_limiter o)) (l_limit_db (o_limiter o)).
Definition group_op (m g : nat) (s : MixGroup) : RtOp :=
  RtGroup (ix m) (ix g) (db_to_lin (g_gain_db s)) (g_muted s).

(** A level a solo silences: its mix has a solo that does not hold it. *)
Definition solo_out (c : Core) (m k : nat) : bool :=
  match c_solo c !! m with Some set => negb (bool_decide (k ∈ set)) | None => false end.

Definition level_op (c : Core) (m k : nat) : RtOp :=
  let l := get_level c m k in
  RtLevel (ix m) (ix k) (db_to_lin (lv_gain_db l)) (lv_pan l) (lv_muted l || solo_out c m k).

(** Every level of mix [m], as the RT thread must hold it. *)
Definition level_ops (c : Core) (m : nat) : list RtOp := level_op c m <$> seq 0 (levels (c_topo c) m).

Definition sync_input (i : nat) (s : InputState) : list RtOp :=
  [RtInput (ix i) (input_params s); RtInputEq (ix i) (eq_params (i_eq s))].

Definition sync_group (m g : nat) (strip : MixGroup) : list RtOp :=
  [group_op m g strip; RtGroupEq (ix m) (ix g) (eq_params (g_eq strip))].

Definition sync_mix (c : Core) (m : nat) (rec : MixRec) : list RtOp :=
  [out_op m (r_out rec); RtMixEq (ix m) (eq_params (o_eq (r_out rec))); limiter_op m (r_out rec)]
  ++ level_ops c m ++ concat (imap (sync_group m) (r_groups rec)).

(** Commands that bring an RT processor to this state. *)
Definition full_sync (c : Core) : list RtOp :=
  concat (imap sync_input (r_inputs (c_s c))) ++ concat (imap (sync_mix c) (r_mixes (c_s c))).

(** ** The per-entity setters *)

Definition set_input (i : nat) (new : InputState) : CoreM Partial := fun c =>
  match r_inputs (c_s c) !! i, t_inputs (c_topo c) !! i with
  | Some old, Some node =>
      if InputState_eqb old new then (c, Ok Partial_default)
      else
        let rt :=
          (if InputState_eqb (mkInputState (i_trim_db old) (i_processing old) (i_muted old) (i_eq new)) new
           then [] else [RtInput (ix i) (input_params new)])
          ++ (if Eq_eqb (i_eq old) (i_eq new) then [] else [RtInputEq (ix i) (eq_params (i_eq new))]) in
        (set_s (set_input_at i new (c_s c)) c, Ok (Partial_changed [ChInput (in_id node) new] rt))
  | _, _ => (c, Ok Partial_default)
  end.

Definition set_out (m : nat) (new : MixOut) : CoreM Partial := fun c =>
  match r_mixes (c_s c) !! m, t_mixes (c_topo c) !! m with
  | Some rec, Some node =>
      let old := r_out rec in
      if MixOut_eqb old new then (c, Ok Partial_default)
      else
        let rt :=
          (if f64_eqb (o_volume_db old) (o_volume_db new) && bool_decide (o_muted old = o_muted new)
           then [] else [out_op m new])
          ++ (if Eq_eqb (o_eq old) (o_eq new) then [] else [RtMixEq (ix m) (eq_params (o_eq new))])
          ++ (if Limiter_eqb (o_limiter old) (o_limiter new) then [] else [limiter_op m new]) in
        (set_s (alter_mix (fun r => mkMixRec new (r_levels r) (r_groups r)) m (c_s c)) c,
         Ok (Partial_changed [ChMixOut (mn_id node) new] rt))
  | _, _ => (c, Ok Partial_default)
  end.

Definition set_level (m k : nat) (new : Level) : CoreM Partial := fun c =>
  match t_mixes (c_topo c) !! m, source (c_topo c) m k with
  | Some node, Some src =>
      match r ← r_mixes (c_s c) !! m; r_levels r !! k with
      | None => (c, Ok Partial_default)
      | Some slot =>
          if Level_eqb slot new then (c, Ok Partial_default)
          else
            let c' := set_s (alter_mix (fun r => mkMixRec (r_out r) (<[k := new]> (r_levels r)) (r_groups r)) m (c_s c)) c in
            (c', Ok (Partial_changed [ChLevel (mn_id node) src new] [level_op c' m k]))
      end
  | _, _ => (c, Ok Partial_default)
  end.

Definition set_group (m g : nat) (new : MixGroup) : CoreM Partial := fun c =>
  match t_mixes (c_topo c) !! m, t_groups (c_topo c) !! g with
  | Some node, Some group =>
      match r ← r_mixes (c_s c) !! m; r_groups r !! g with
      | None => (c, Ok Partial_default)
      | Some old =>
          if MixGroup_eqb old new then (c, Ok Partial_default)
          else
            let rt :=
              (if f64_eqb (g_gain_db old) (g_gain_db new) && bool_decide (g_muted old = g_muted new)
               then [] else [group_op m g new])
              ++ (if Eq_eqb (g_eq old) (g_eq new) then [] else [RtGroupEq (ix m) (ix g) (eq_params (g_eq new))]) in
            (set_s (alter_mix (fun r => mkMixRec (r_out r) (r_levels r) (<[g := new]> (r_groups r))) m (c_s c)) c,
             Ok (Partial_changed [ChGroup (mn_id node) (gn_id group) new] rt))
      end
  | _, _ => (c, Ok Partial_default)
  end.

(** ** Solo and listen *)

Definition solo_slot (topo : Topology) (m : nat) (mix : MixId) (new : gset nat) (src : Source)
    : result CmdError (gset nat) :=
  k ← ok_or (slot topo m src)
        (mkCmdError BadValue (clip (Source_to_string src) +:+ " is not heard in " +:+ clip mix));
  Ok ({[k]} ∪ new).

Definition set_solo (mix : MixId) (sources : list Source) : CoreM Partial :=
  m ← find_mix mix;
  if (MAX_SOLO <? length sources)%nat
  then err BadValue ("at most " +:+ dec (Z.of_nat MAX_SOLO) +:+ " solo sources")
  else
    topo ← gets c_topo;
    new ← lift (foldM (solo_slot topo m mix) ∅ sources);
    solo ← gets c_solo;
    if decide (or_default ∅ (solo !! m) = new) then mret Partial_default
    else
      let list := omap (source topo m) (sorted_set new) in
      _ ← modify (set_solos (if decide (new = ∅) then delete m solo else <[m := new]> solo));
      rt ← gets (fun c => level_ops c m);
      mret (Partial_changed [ChSolo mix list] rt).

Definition listen_partial (rt : list RtOp) : CoreM Partial :=
  match rt with
  | [] => mret Partial_default
  | _ => listen ← gets listen_ids; mret (Partial_changed [ChListen listen] rt)
  end.

Definition listen_slot (l : option nat * option nat) (slot : nat) : option nat :=
  match slot with O => l.1 | _ => l.2 end.
Definition set_listen_slot (l : option nat * option nat) (slot : nat) (v : option nat)
    : option nat * option nat :=
  match slot with O => (v, l.2) | _ => (l.1, v) end.

(** Slot 0 is the engineer's tap, slot 1 one other mix's. *)
Definition start_listen (mix : MixId) : CoreM Partial :=
  m ← find_mix mix;
  c ← gets id;
  let slot := if (m =? t_engineer (c_topo c))%nat then 0%nat else 1%nat in
  let current := listen_slot (c_listen c) slot in
  if decide (current = Some m) then mret Partial_default
  else if (slot =? 1)%nat && bool_decide (is_Some current)
  then err NoSource "another mix is being listened to"
  else
    _ ← modify (fun c => set_listens (set_listen_slot (c_listen c) slot (Some m)) c);
    listen_partial [RtListen (Z.of_nat slot) (Some (ix m))].

Definition stop_listen (mix : MixId) : CoreM Partial :=
  m ← find_mix mix;
  l ← gets c_listen;
  let hit slot := bool_decide (listen_slot l slot = Some m) in
  let clear slot l := if hit slot then set_listen_slot l slot None else l in
  let op slot := if hit slot then [RtListen (Z.of_nat slot) None] else [] in
  _ ← modify (set_listens (clear 1%nat (clear 0%nat l)));
  listen_partial (op 0%nat ++ op 1%nat).

(** ** One command *)

Definition cmd_set_input (input : InputId) (trim_db : option f64) (muted processing : option bool) : CoreM Partial :=
  i ← find_input input;
  c ← gets id;
  let old := get_input c i in
  trim ← lift (capped_opt trim_db TRIM_DB "trim_db" (i_trim_db old));
  set_input i (mkInputState trim (opt_or processing (i_processing old)) (opt_or muted (i_muted old)) (i_eq old)).

Definition cmd_set_mix (mix : MixId) (volume_db : option f64) (muted : option bool) : CoreM Partial :=
  m ← find_mix mix;
  c ← gets id;
  let old := get_out c m in
  volume ← lift (capped_opt volume_db FADER_DB "volume_db" (o_volume_db old));
  set_out m (mkMixOut volume (opt_or muted (o_muted old)) (o_eq old) (o_limiter old)).

Definition cmd_set_level (mix : MixId) (src : Source) (gain_db pan : option f64) (muted : option bool) : CoreM Partial :=
  m ← find_mix mix;
  c ← gets id;
  k ← lift (ok_or (slot (c_topo c) m src)
              (mkCmdError UnknownId ("mix " +:+ clip mix +:+ " does not hear " +:+ clip (Source_to_string src))));
  let old := get_level c m k in
  gain ← lift (capped_opt gain_db FADER_DB "gain_db" (lv_gain_db old));
  p ← lift (capped_opt pan PAN "pan" (lv_pan old));
  set_level m k (mkLevel gain p (opt_or muted (lv_muted old))).

Definition cmd_set_group (mix : MixId) (group : GroupId) (gain_db : option f64) (muted : option bool) : CoreM Partial :=
  m ← find_mix mix;
  g ← find_group group;
  c ← gets id;
  let old := get_strip c m g in
  gain ← lift (capped_opt gain_db FADER_DB "gain_db" (g_gain_db old));
  set_group m g (mkMixGroup gain (opt_or muted (g_muted old)) (g_eq old)).

Definition cmd_set_eq (target : EqTarget) (eq : Eq) : CoreM Partial :=
  if negb (eq_is_finite eq) then err BadValue "an EQ value is not finite"
  else
    let eq := cap_eq eq in
    match target with
    | EqInput id =>
        i ← find_input id; c ← gets (fun c => c);
        let old := get_input c i in
        set_input i (mkInputState (i_trim_db old) (i_processing old) (i_muted old) eq)
    | EqMix id =>
        m ← find_mix id; c ← gets (fun c => c);
        let old := get_out c m in
        set_out m (mkMixOut (o_volume_db old) (o_muted old) eq (o_limiter old))
    | EqGroup mix group =>
        m ← find_mix mix; g ← find_group group; c ← gets (fun c => c);
        let old := get_strip c m g in
        set_group m g (mkMixGroup (g_gain_db old) (g_muted old) eq)
    end.

Definition cmd_set_limiter (mix : MixId) (enabled : option bool) (limit_db : option f64) : CoreM Partial :=
  m ← find_mix mix;
  c ← gets id;
  let old := get_out c m in
  limit ← lift (capped_opt limit_db LIMIT_DB "limit_db" (l_limit_db (o_limiter old)));
  set_out m (mkMixOut (o_volume_db old) (o_muted old) (o_eq old)
               (mkLimiter (opt_or enabled (l_enabled (o_limiter old))) limit)).

Definition cmd_reset_limiter (mix : MixId) : CoreM Partial :=
  m ← find_mix mix;
  mret (Partial_changed [ChLimiterStatsReset mix] [RtResetLimiter (ix m)]).

Definition test_flag : CoreM unit :=
  f ← gets c_flags;
  if fl_test_signal f then mret tt else err Forbidden "the engine runs without the test-signal flag".

Definition need_fault_injection : CoreM unit :=
  f ← gets c_flags;
  if fl_fault_injection f then mret tt else err Forbidden "the engine runs without the fault-injection flag".

(** A sine replaces [input] for [ttl_s]; with [mask] it sounds only on
    those spare outputs. *)
Definition start_test (input : InputId) (hz dbfs ttl_s : f64) (mask : option HilMask) (listen : bool) : CoreM Partial :=
  i ← find_input input;
  hz ← lift (capped hz TEST_HZ "hz");
  dbfs ← lift (capped dbfs TEST_DBFS "dbfs");
  ttl_s ← lift (capped ttl_s TEST_TTL_S "ttl_s");
  let signal := mkTestSignal input hz dbfs ttl_s in
  _ ← modify (set_test (Some signal));
  _ ← modify (set_hil_test (bool_decide (is_Some mask)));
  let amp := db_to_lin dbfs in
  let ttl := f64_round_u64 (f64_mul ttl_s (f64_of_u32 SAMPLE_RATE)) in
  let op := match mask with
            | None => RtTestSignal (ix i) hz amp ttl
            | Some mask => RtHilTestSignal (ix i) hz amp ttl mask listen
            end in
  mret (Partial_changed [ChTestSignal (Some signal)] [op]).

Definition cmd_start_test (input : InputId) (hz dbfs ttl_s : f64) : CoreM Partial :=
  _ ← test_flag;
  c ← gets id;
  if c_hil_test c && bool_decide (is_Some (c_test c))
  then err Forbidden "a HIL test signal runs until its TTL ends"
  else start_test input hz dbfs ttl_s None false.

Definition cmd_hil_test (input : InputId) (hz dbfs ttl_s : f64) (card_tx : list Z) (listen : bool) : CoreM Partial :=
  _ ← test_flag;
  if f64_ltb TEST_DBFS.2 dbfs
  then err BadValue "dbfs is above the test-signal cap of -20 dBFS"
  else
    c ← gets id;
    mask ← lift (hil_mask (c_topo c) (c_hil c) card_tx);
    start_test input hz dbfs ttl_s (Some mask) listen.

Definition cmd_stop_test : CoreM Partial :=
  t ← gets c_test;
  _ ← modify (set_test None);
  match t with
  | Some _ => mret (Partial_changed [ChTestSignal None] [RtStopTestSignal])
  | None => mret Partial_default
  end.

Definition cmd_import (state : MixState) : CoreM Partial :=
  _ ← modify (fun c => set_s (reconcile_topo (c_topo c) state).1 c);
  rt ← gets full_sync;
  mret (mkPartial [] rt (Some EImported) true).

Definition one (cmd : Cmd) : CoreM Partial :=
  match cmd with
  | SetInput input trim_db muted processing => cmd_set_input input trim_db muted processing
  | SetMix mix volume_db muted => cmd_set_mix mix volume_db muted
  | SetLevel mix source gain_db pan muted => cmd_set_level mix source gain_db pan muted
  | SetGroup mix group gain_db muted => cmd_set_group mix group gain_db muted
  | SetEq target eq => cmd_set_eq target eq
  | SetLimiter mix enabled limit_db => cmd_set_limiter mix enabled limit_db
  | ResetLimiterStats mix => cmd_reset_limiter mix
  | SetSolo mix sources => set_solo mix sources
  | StartListen mix => start_listen mix
  | StopListen mix => stop_listen mix
  | StartTestSignal input hz dbfs ttl_s => cmd_start_test input hz dbfs ttl_s
  | HilTestSignal input hz dbfs ttl_s card_tx listen => cmd_hil_test input hz dbfs ttl_s card_tx listen
  | StopTestSignal => cmd_stop_test
  | InjectFault => _ ← need_fault_injection; mret (mkPartial [] [RtPanic] None false)
  | Batch _ => err BadRequest "nested batch"
  | ImportState state => cmd_import state
  | GetState => mret (Partial_effect ESendState)
  | GetTopology => mret (Partial_effect ESendTopology)
  | SaveNow => mret (Partial_effect ESave)
  | Shutdown => mret (Partial_effect EShutdown)
  | Ping => mret Partial_default
  | Arm => mret (mkPartial [] [RtArm] None false)
  end.

(** ** Requests *)

(** One command of a batch, on the batch's own copy of the core. *)
Definition batch_step (acc : Core * Partial) (op : Cmd) : result CmdError (Core * Partial) :=
  let '(next, all) := acc in
  if negb (batchable op) then Err (mkCmdError BadRequest "a batch holds state edits only")
  else
    let '(next, r) := one op next in
    p ← r;
    Ok (next, mkPartial (p_changes all ++ p_changes p) (p_rt all ++ p_rt p) (p_effect all)
                (p_bump all || p_bump p)).

Definition batch (ops : list Cmd) : CoreM Partial := fun c =>
  if (MAX_BATCH <? length ops)%nat
  then (c, Err (mkCmdError BadValue ("a batch holds at most " +:+ dec (Z.of_nat MAX_BATCH) +:+ " commands")))
  else
    match foldM batch_step (c, Partial_default) ops with
    | Err e => (c, Err e)
    | Ok (next, all) =>
        if (MAX_CMDS_PER_BLOCK <? length (p_rt all))%nat
        then (c, Err (mkCmdError BadValue "the batch needs more commands than one block applies"))
        else (next, Ok all)
    end.

Definition finish (p : Partial) : CoreM Outcome :=
  _ ← modify (fun c => if p_bump p then set_rev (u64_wrapping_add (c_rev c) 1) c else c);
  rev ← gets c_rev;
  mret (mkOutcome rev (p_changes p) (p_rt p) (opt_or (p_effect p) ENone)).

Definition apply (cmd : Cmd) : CoreM Outcome :=
  partial ← match cmd with Batch ops => batch ops | other => one other end;
  finish partial.

(** Clears the solo of one mix ([clear_solos]'s loop body). *)
Definition clear_solo (acc : Core * Partial) (m : nat) : Core * Partial :=
  let '(c, p) := acc in
  let c := set_solos (delete m (c_solo c)) c in
  let changes := match mix_id_of (c_topo c) m with Some id => [ChSolo id []] | None => [] end in
  (c, mkPartial (p_changes p ++ changes) (p_rt p ++ level_ops c m) (p_effect p) (p_bump p)).

(** Clears every solo. *)
Definition clear_solos : CoreM Outcome := fun c =>
  let '(c, p) := foldl clear_solo (c, Partial_default) (sorted_keys (c_solo c)) in
  finish (mkPartial (p_changes p) (p_rt p) (p_effect p) (negb (length (p_changes p) =? 0)%nat)) c.

(** The test signal's TTL ran out. *)
Definition end_test_signal : CoreM Outcome :=
  t ← gets c_test;
  _ ← modify (set_test None);
  finish (match t with
          | Some _ => Partial_changed [ChTestSignal None] []
          | None => Partial_default
          end).
End core.
