(* ===== verification/CoreSync.v ===== *)
(** * The control core's invariant and its contract with the RT thread

    [core_wf] is the core's well-formedness; [want] the specification of the
    RT thread's memory at a core; [step_ok] what every operation of the core
    owes: an error changes nothing, a success keeps the core well-formed, its
    RT messages bring a memory in step with the old core in step with the new
    one, and a success that does not bump the revision changes nothing. *)

From S2P Require Import Prelude F64 Text MixState Msg Shape Topology TopologyWf Reconciled Rt Core.
From Stdlib Require Import SpecFloat.
From stdpp Require Import vector.
From stdpp Require Import options.
Local Open Scope Z_scope.
#[local] Unset Default Proof Using.

(** ** Well-formedness *)

Definition solo_wf (topo : Topology) (solo : gmap nat (gset nat)) : Prop :=
  forall m set, solo !! m = Some set ->
    (m < length (t_mixes topo))%nat /\ set <> ∅ /\ forall k, k ∈ set -> (k < levels topo m)%nat.

Definition listen_wf (topo : Topology) (l : option nat * option nat) : Prop :=
  (forall m, l.1 = Some m -> m = t_engineer topo)
  /\ (forall m, l.2 = Some m -> m <> t_engineer topo /\ (m < length (t_mixes topo))%nat).

Definition test_wf (topo : Topology) (flags : Flags) (t : option TestSignal) : Prop :=
  forall s, t = Some s ->
    fl_test_signal flags = true /\ is_Some (input_index topo (ts_input s))
    /\ f64_in TEST_HZ (ts_hz s) = true /\ f64_in TEST_DBFS (ts_dbfs s) = true
    /\ f64_in TEST_TTL_S (ts_ttl_s s) = true.

(** Indices that fit the RT commands' 16 bits. *)
Definition fits16 (topo : Topology) : Prop :=
  Z.of_nat (length (t_inputs topo)) <= u16_max + 1 /\ Z.of_nat (length (t_mixes topo)) <= u16_max + 1
  /\ Z.of_nat (length (t_groups topo)) <= u16_max + 1
  /\ forall m, (m < length (t_mixes topo))%nat -> Z.of_nat (levels topo m) <= u16_max + 1.

Record core_wf (channels : Z) (c : Core) : Prop := {
  cw_topo : topo_wf channels (c_topo c);
  cw_fits : fits16 (c_topo c);
  cw_layout : layout_ok (c_topo c) (c_s c);
  cw_solo : solo_wf (c_topo c) (c_solo c);
  cw_listen : listen_wf (c_topo c) (c_listen c);
  cw_test : test_wf (c_topo c) (c_flags c) (c_test c);
}.

(** What no command changes. *)
Definition core_frame (c c' : Core) : Prop :=
  c_topo c' = c_topo c /\ c_hil c' = c_hil c /\ c_flags c' = c_flags c /\ c_rev c' = c_rev c.

(** ** The RT thread's memory at a core *)

(** A 16-bit index back as a list index. *)
Definition unix (i : Z) : option nat := if 0 <=? i then Some (Z.to_nat i) else None.

Section want.
Context `{Libm}.

Definition want (c : Core) : rt_mem := fun s =>
  match s with
  | SlInput i =>
      j ← unix i; x ← r_inputs (c_s c) !! j; Some (RtInput i (input_params x))
  | SlInputEq i =>
      j ← unix i; x ← r_inputs (c_s c) !! j; Some (RtInputEq i (eq_params (i_eq x)))
  | SlMixOut m =>
      j ← unix m; r ← r_mixes (c_s c) !! j;
      Some (RtMixOut m (db_to_lin (o_volume_db (r_out r))) (o_muted (r_out r)))
  | SlMixEq m =>
      j ← unix m; r ← r_mixes (c_s c) !! j; Some (RtMixEq m (eq_params (o_eq (r_out r))))
  | SlLimiter m =>
      j ← unix m; r ← r_mixes (c_s c) !! j;
      Some (RtLimiter m (l_enabled (o_limiter (r_out r))) (l_limit_db (o_limiter (r_out r))))
  | SlLevel m k =>
      j ← unix m; i ← unix k; r ← r_mixes (c_s c) !! j; l ← r_levels r !! i;
      Some (RtLevel m k (db_to_lin (lv_gain_db l)) (lv_pan l) (lv_muted l || solo_out c j i))
  | SlGroup m g =>
      j ← unix m; i ← unix g; r ← r_mixes (c_s c) !! j; s ← r_groups r !! i;
      Some (RtGroup m g (db_to_lin (g_gain_db s)) (g_muted s))
  | SlGroupEq m g =>
      j ← unix m; i ← unix g; r ← r_mixes (c_s c) !! j; s ← r_groups r !! i;
      Some (RtGroupEq m g (eq_params (g_eq s)))
  | SlListen s =>
      if decide (s = 0) then Some (RtListen 0 (ix <$> (c_listen c).1))
      else if decide (s = 1) then Some (RtListen 1 (ix <$> (c_listen c).2))
      else None
  end.

(** A fresh RT thread listens to nothing. *)
Definition mem_init : rt_mem := fun s =>
  match s with
  | SlListen s => if decide (s = 0 \/ s = 1) then Some (RtListen s None) else None
  | _ => None
  end.

Definition synced (c : Core) (mem : rt_mem) : Prop := mem_feq mem (want c).

(** The contract of one operation. *)
Definition step_ok (channels : Z) (c : Core) (out : Core * result CmdError Partial) : Prop :=
  match out.2 with
  | Err _ => out.1 = c
  | Ok p =>
      core_wf channels out.1 /\ core_frame c out.1
      /\ (forall mem, synced c mem -> synced out.1 (rt_run mem (p_rt p)))
      /\ (p_bump p = false -> out.1 = c)
      /\ (p_bump p = true <-> p_changes p <> [] \/ p_effect p = Some EImported)
  end.
End want.

Lemma unix_ix i : Z.of_nat i <= u16_max -> unix (ix i) = Some i.
Proof.
  unfold unix, ix, u16_max. intros Hi. destruct (Z.leb_spec 0 (Z.min (Z.of_nat i) 65535)); [|lia]. f_equal. lia.
Qed.

Lemma ix_unix i z : Z.of_nat i <= u16_max -> unix z = Some i -> z = ix i.
Proof.
  unfold unix, ix, u16_max. intros Hi. destruct (Z.leb_spec 0 z); [|done]. intros [= <-]. lia.
Qed.

Lemma ix_inj i j : Z.of_nat i <= u16_max -> Z.of_nat j <= u16_max -> ix i = ix j -> i = j.
Proof. unfold ix, u16_max. lia. Qed.

(** The rule every setter uses: its messages are the new memory's, and the
    slots they leave out did not change numerically. *)
Lemma sync_step `{Libm} c c' ops mem :
  Forall (fun op => exists s, slot_of op = Some s /\ want c' s = Some op) ops ->
  (forall s, Forall (fun op => slot_of op <> Some s) ops -> option_Forall2 op_feq (want c s) (want c' s)) ->
  synced c mem -> synced c' (rt_run mem ops).
Proof.
  intros Hops Hrest Hs. apply rt_run_agree; [done|]. intros s Hn.
  etrans; [apply Hs|by apply Hrest].
Qed.

Lemma step_ok_noop `{Libm} channels c p :
  core_wf channels c -> p_rt p = [] -> p_changes p = [] -> p_bump p = false -> p_effect p <> Some EImported ->
  step_ok channels c (c, Ok p).
Proof.
  intros Hwf Hrt Hch Hb He. unfold step_ok; cbn. split_and!; [done|done|by rewrite Hrt|done|].
  rewrite Hb, Hch. split; [done|]. by intros [|].
Qed.

Lemma step_ok_default `{Libm} channels c :
  core_wf channels c -> step_ok channels c (c, Ok Partial_default).
Proof. intros. by apply step_ok_noop. Qed.

#[export] Hint Resolve step_ok_default : iem.

(** ** Layout updates *)

Lemma set_input_at_ok topo s i new :
  layout_ok topo s -> input_ok new = true -> layout_ok topo (set_input_at i new s).
Proof.
  intros [H1 H2 H3 H4] Hn. split; cbn; [by rewrite length_insert| |done|done].
  apply Forall_insert; done.
Qed.

Lemma alter_mix_ok topo s f m :
  layout_ok topo s -> (forall rec, rec_ok topo m rec -> rec_ok topo m (f rec)) ->
  layout_ok topo (alter_mix f m s).
Proof.
  intros [H1 H2 H3 H4] Hf. split; cbn; [done|done|by rewrite length_alter|].
  intros j rec. rewrite list_lookup_alter. case_decide; subst; [|by apply H4].
  intros (rec0 & Hr & ->)%fmap_Some. auto.
Qed.

(** ** Values after a cap *)

Lemma capped_opt_in v r what old x :
  range_ok r = true -> f64_in r old = true -> capped_opt v r what old = Ok x -> f64_in r x = true.
Proof.
  intros Hr Ho. unfold capped_opt. destruct v as [v|]; [|by intros [= <-]].
  unfold capped. rewrite ok_or_ok. by apply cap_in.
Qed.

Lemma get_input_ok topo c i : layout_ok topo (c_s c) -> input_ok (get_input c i) = true.
Proof.
  intros [_ Hi _ _]. rewrite Forall_lookup in Hi. unfold get_input. apply or_default_ok; [done|]. intros a. apply Hi.
Qed.

Lemma get_out_ok topo c m : layout_ok topo (c_s c) -> out_ok (get_out c m) = true.
Proof.
  intros [_ _ _ Hm]. unfold get_out. destruct (r_mixes (c_s c) !! m) as [r|] eqn:E; cbn; [|done].
  by destruct (Hm _ _ E).
Qed.

Lemma get_level_ok topo c m k : layout_ok topo (c_s c) -> level_ok (get_level c m k) = true.
Proof.
  intros [_ _ _ Hm]. unfold get_level. apply or_default_ok; [done|].
  intros l. destruct (r_mixes (c_s c) !! m) as [r|] eqn:E; cbn; [|done].
  destruct (Hm _ _ E) as (_ & _ & Hl & _). rewrite Forall_lookup in Hl. apply Hl.
Qed.

Lemma get_strip_ok topo c m g : layout_ok topo (c_s c) -> group_ok (get_strip c m g) = true.
Proof.
  intros [_ _ _ Hm]. unfold get_strip. apply or_default_ok; [done|].
  intros l. destruct (r_mixes (c_s c) !! m) as [r|] eqn:E; cbn; [|done].
  destruct (Hm _ _ E) as (_ & _ & _ & _ & Hg). rewrite Forall_lookup in Hg. apply Hg.
Qed.

(** ** The setters keep the contract *)

Lemma core_wf_set_s channels c s :
  core_wf channels c -> layout_ok (c_topo c) s -> core_wf channels (set_s s c).
Proof. intros [] Hs. by split. Qed.

Section setters.
Context `{LibmOk} {channels : Z}.

(** Messages present unless the compared parts are equal. *)
Lemma Forall_if_nil {A : Type} (P : A -> Prop) (b : bool) (x : A) :
  (b = false -> P x) -> Forall P (if b then [] else [x]).
Proof. destruct b; intros; [constructor|]. repeat constructor. auto. Qed.

Lemma if_nil_notin (b : bool) (x : RtOp) s :
  slot_of x = Some s -> Forall (fun op => slot_of op <> Some s) (if b then [] else [x]) -> b = true.
Proof. destruct b; [done|]. intros Hx Hf. by apply Forall_cons in Hf as [? _]. Qed.

Lemma unix_eq i z : Z.of_nat i <= u16_max -> unix z = Some i -> ix i = z.
Proof. intros Hi Hz. symmetry. by apply ix_unix. Qed.

Lemma db_to_lin_eqb a b : f64_eqb a b = true -> feq (db_to_lin a) (db_to_lin b).
Proof. intros Hab%feq_eqb. by rewrite Hab. Qed.

Lemma set_input_step c i new :
  core_wf channels c -> input_ok new = true -> step_ok channels c (set_input i new c).
Proof.
  intros Hwf Hn. unfold set_input.
  destruct (r_inputs (c_s c) !! i) as [old|] eqn:Hold; [|by auto with iem].
  destruct (t_inputs (c_topo c) !! i) as [node|] eqn:Hnode; [|by auto with iem].
  destruct (InputState_eqb old new) eqn:Heq; [by auto with iem|].
  unfold step_ok; cbn [fst snd Partial_changed p_rt p_bump p_changes p_effect length].
  assert (Hi : Z.of_nat i <= u16_max).
  { destruct (cw_fits _ _ Hwf) as (? & _). apply lookup_lt_Some in Hnode. unfold u16_max in *. lia. }
  assert (Hlen : (i < length (r_inputs (c_s c)))%nat) by by eapply lookup_lt_Some.
  split_and!; [|done| |done|by split; [left|]].
  { apply core_wf_set_s; [done|]. apply set_input_at_ok; [apply (cw_layout _ _ Hwf)|done]. }
  intros mem. apply sync_step.
  - apply Forall_app; split; apply Forall_if_nil; intros _; eexists; (split; [done|]);
      cbn; rewrite unix_ix by done; cbn; by rewrite list_lookup_insert_eq.
  - intros s Hs. apply Forall_app in Hs as [Hs1 Hs2].
    destruct s as [z|z|z|z|z|z z'|z z'|z z'|z]; cbn; try reflexivity.
    + destruct (unix z) as [j|] eqn:Hz; cbn; [|constructor].
      destruct (decide (j = i)) as [->|Hne]; [|rewrite list_lookup_insert_ne by done; reflexivity].
      rewrite Hold, list_lookup_insert_eq by done. cbn. constructor.
      apply (if_nil_notin _ _ (SlInput z)) in Hs1; [|cbn; by rewrite (unix_eq _ _ Hi Hz)].
      unfold InputState_eqb in Hs1; cbn in Hs1. bool_inv.
      cbn. split_and!; [done|by apply db_to_lin_eqb|done|done].
    + destruct (unix z) as [j|] eqn:Hz; cbn; [|constructor].
      destruct (decide (j = i)) as [->|Hne]; [|rewrite list_lookup_insert_ne by done; reflexivity].
      rewrite Hold, list_lookup_insert_eq by done. cbn. constructor.
      apply (if_nil_notin _ _ (SlInputEq z)) in Hs2; [|cbn; by rewrite (unix_eq _ _ Hi Hz)].
      cbn. split; [done|]. apply eq_params_proper. by apply eq_feq_eqb.
Qed.

(** The slots of another mix, and those whose value is read from a part the
    update keeps. *)
Ltac other_mix Hrec :=
  repeat match goal with
  | |- context [ unix ?z ] => destruct (unix z) eqn:?; cbn; [|constructor]
  end;
  match goal with |- context [alter ?f ?m ?l !! ?j] =>
    destruct (decide (m = j)) as [<-|?];
      [rewrite list_lookup_alter_eq, Hrec|rewrite list_lookup_alter_ne by done]
  end; cbn; try reflexivity.

(** [Some (Sl… (ix m) …) = Some (Sl… z …)] from [unix z = Some m]. *)
Ltac slot_eq := cbn; f_equal; f_equal; eapply unix_eq; eassumption.

Lemma mix_bound c m node : core_wf channels c -> t_mixes (c_topo c) !! m = Some node -> Z.of_nat m <= u16_max.
Proof.
  intros Hwf Hn. destruct (cw_fits _ _ Hwf) as (_ & ? & _). apply lookup_lt_Some in Hn. lia.
Qed.

Lemma group_bound c g node : core_wf channels c -> t_groups (c_topo c) !! g = Some node -> Z.of_nat g <= u16_max.
Proof.
  intros Hwf Hn. destruct (cw_fits _ _ Hwf) as (_ & _ & ? & _). apply lookup_lt_Some in Hn. lia.
Qed.

Lemma level_bound c m node k :
  core_wf channels c -> t_mixes (c_topo c) !! m = Some node -> (k < levels (c_topo c) m)%nat -> Z.of_nat k <= u16_max.
Proof.
  intros Hwf Hn Hk. destruct (cw_fits _ _ Hwf) as (_ & _ & _ & Hl).
  specialize (Hl m (lookup_lt_Some _ _ _ Hn)). lia.
Qed.

Lemma set_out_step c m new :
  core_wf channels c -> out_ok new = true -> step_ok channels c (set_out m new c).
Proof.
  intros Hwf Hn. unfold set_out.
  destruct (r_mixes (c_s c) !! m) as [rec|] eqn:Hrec; [|by auto with iem].
  destruct (t_mixes (c_topo c) !! m) as [node|] eqn:Hnode; [|by auto with iem].
  destruct (MixOut_eqb (r_out rec) new) eqn:Heq; [by auto with iem|].
  unfold step_ok; cbn [fst snd Partial_changed p_rt p_bump p_changes p_effect length].
  pose proof (mix_bound _ _ _ Hwf Hnode) as Hm.
  split_and!; [|done| |done|by split; [left|]].
  { apply core_wf_set_s; [done|]. apply alter_mix_ok; [apply (cw_layout _ _ Hwf)|]. intros r (?&?&?&?&?). by split_and!. }
  intros mem. apply sync_step.
  - repeat (apply Forall_app; split); apply Forall_if_nil; intros _; eexists; (split; [done|]);
      cbn; rewrite unix_ix by done; cbn; by rewrite list_lookup_alter_eq, Hrec.
  - intros s [Hs1 [Hs2 Hs3]%Forall_app]%Forall_app.
    destruct s as [z|z|z|z|z|z z'|z z'|z z'|z]; cbn; try reflexivity; other_mix Hrec.
    + apply (if_nil_notin _ _ (SlMixOut z)) in Hs1; [|slot_eq].
      constructor. bool_inv. cbn. split_and!; [done|by apply db_to_lin_eqb|done].
    + apply (if_nil_notin _ _ (SlMixEq z)) in Hs2; [|slot_eq].
      constructor. cbn. split; [done|]. by apply eq_params_proper, eq_feq_eqb.
    + apply (if_nil_notin _ _ (SlLimiter z)) in Hs3; [|slot_eq].
      constructor. unfold Limiter_eqb in Hs3. bool_inv. cbn. split_and!; [done|done|by apply feq_eqb].
Qed.

Lemma set_level_step c m k new :
  core_wf channels c -> level_ok new = true -> step_ok channels c (set_level m k new c).
Proof.
  intros Hwf Hn. unfold set_level.
  destruct (t_mixes (c_topo c) !! m) as [node|] eqn:Hnode; [|by auto with iem].
  destruct (source (c_topo c) m k) as [src|] eqn:Hsrc; [|by auto with iem].
  destruct (r_mixes (c_s c) !! m) as [rec|] eqn:Hrec; cbn [mbind option_bind]; [|by auto with iem].
  destruct (r_levels rec !! k) as [old|] eqn:Hold; [|by auto with iem].
  destruct (Level_eqb old new) eqn:Heq; [by auto with iem|].
  unfold step_ok; cbn [fst snd Partial_changed p_rt p_bump p_changes p_effect length].
  pose proof (mix_bound _ _ _ Hwf Hnode) as Hm.
  assert (Hk : Z.of_nat k <= u16_max).
  { eapply level_bound; [done..|]. destruct (lo_mixes_ok _ _ (cw_layout _ _ Hwf) _ _ Hrec) as (_ & <- & _).
    by eapply lookup_lt_Some. }
  split_and!; [|done| |done|by split; [left|]].
  { apply core_wf_set_s; [done|]. apply alter_mix_ok; [apply (cw_layout _ _ Hwf)|]. intros r (?&?&?&?&?).
    split_and!; cbn; [done|by rewrite length_insert|by apply Forall_insert|done|done]. }
  intros mem. apply sync_step.
  - apply Forall_singleton. eexists. split; [done|]. unfold level_op, get_level. cbn.
    rewrite !unix_ix by done. cbn. rewrite list_lookup_alter_eq, Hrec. cbn.
    by rewrite list_lookup_insert_eq by (by eapply lookup_lt_Some).
  - intros s [Hs _]%Forall_cons.
    destruct s as [z|z|z|z|z|z z'|z z'|z z'|z]; cbn; try reflexivity; other_mix Hrec.
    rewrite list_lookup_insert_ne; [reflexivity|]. intros ->. apply Hs. cbn.
    slot_eq.
Qed.

Lemma set_group_step c m g new :
  core_wf channels c -> group_ok new = true -> step_ok channels c (set_group m g new c).
Proof.
  intros Hwf Hn. unfold set_group.
  destruct (t_mixes (c_topo c) !! m) as [node|] eqn:Hnode; [|by auto with iem].
  destruct (t_groups (c_topo c) !! g) as [gnode|] eqn:Hg; [|by auto with iem].
  destruct (r_mixes (c_s c) !! m) as [rec|] eqn:Hrec; cbn [mbind option_bind]; [|by auto with iem].
  destruct (r_groups rec !! g) as [old|] eqn:Hold; [|by auto with iem].
  destruct (MixGroup_eqb old new) eqn:Heq; [by auto with iem|].
  unfold step_ok; cbn [fst snd Partial_changed p_rt p_bump p_changes p_effect length].
  pose proof (mix_bound _ _ _ Hwf Hnode) as Hm. pose proof (group_bound _ _ _ Hwf Hg) as Hgb.
  assert (g < length (r_groups rec))%nat as Hlt by by eapply lookup_lt_Some.
  split_and!; [|done| |done|by split; [left|]].
  { apply core_wf_set_s; [done|]. apply alter_mix_ok; [apply (cw_layout _ _ Hwf)|]. intros r (?&?&?&?&?).
    split_and!; cbn; [done|done|done|by rewrite length_insert|by apply Forall_insert]. }
  intros mem. apply sync_step.
  - apply Forall_app; split; apply Forall_if_nil; intros _; eexists; (split; [done|]);
      cbn; rewrite !unix_ix by done; cbn; rewrite list_lookup_alter_eq, Hrec; cbn;
      by rewrite list_lookup_insert_eq.
  - intros s [Hs1 Hs2]%Forall_app.
    destruct s as [z|z|z|z|z|z z'|z z'|z z'|z]; cbn; try reflexivity; other_mix Hrec.
    all: match goal with |- context [<[?k := _]> (r_groups _) !! ?n] =>
      destruct (decide (n = k)) as [->|]; [|by rewrite list_lookup_insert_ne by done] end.
    all: rewrite Hold, list_lookup_insert_eq by done; cbn; constructor.
    + apply (if_nil_notin _ _ (SlGroup z z')) in Hs1; [|slot_eq].
      bool_inv. cbn. split_and!; [done|done|by apply db_to_lin_eqb|done].
    + apply (if_nil_notin _ _ (SlGroupEq z z')) in Hs2; [|slot_eq].
      cbn. split_and!; [done|done|]. by apply eq_params_proper, eq_feq_eqb.
Qed.
End setters.
