(* ===== verification/CoreCmd.v ===== *)
(** * Every command of the core keeps the contract

    [one_step]: each command of [core.rs]'s [one], on a well-formed core,
    satisfies [step_ok]. *)

From S2P Require Import Prelude F64 Text MixState Msg Shape Topology TopologyWf Reconciled Rt Core CoreSync.
From Stdlib Require Import SpecFloat.
From stdpp Require Import vector.
From stdpp Require Import options.
Local Open Scope Z_scope.
#[local] Unset Default Proof Using.

#[local] Arguments rt_run : simpl never.

(** ** The monad's rules *)

Lemma bind_pure `{Libm} {A : Type} channels (m : CoreM A) (f : A -> CoreM Partial) c :
  (m c).1 = c -> (forall a, m c = (c, Ok a) -> step_ok channels c (f a c)) ->
  step_ok channels c ((m ≫= f) c).
Proof.
  unfold mbind, CoreM_bind. destruct (m c) as [c' [a|e]]; cbn; intros -> Hf; [by apply Hf|done].
Qed.

Lemma err_step `{Libm} channels c code msg : step_ok channels c (err code msg c).
Proof. done. Qed.

#[export] Hint Resolve err_step : iem.

(** Runs a computation that only reads. *)
Ltac pure x H :=
  apply bind_pure; [try reflexivity|intros x H; cbn in H; try (injection H as H)].

(** Messages that address no slot leave a memory in step with any core that
    wants the same. *)
Lemma synced_noslot `{Libm} c c' mem ops :
  Forall (fun op => slot_of op = None) ops -> (forall s, want c' s = want c s) ->
  synced c mem -> synced c' (rt_run mem ops).
Proof.
  intros Hops Hw Hs s. rewrite rt_run_notin, Hw; [apply Hs|].
  eapply Forall_impl; [exact Hops|]. cbn. intros op -> [=].
Qed.

(** ** Solo *)

Section solo.
Context `{LibmOk} {channels : Z}.

(** The level messages of mix [m] carry any change of its solo. *)
Lemma level_ops_sync c c' m node mem :
  core_wf channels c' -> t_mixes (c_topo c') !! m = Some node ->
  c_s c' = c_s c -> c_listen c' = c_listen c ->
  (forall j, j <> m -> c_solo c' !! j = c_solo c !! j) ->
  synced c mem -> synced c' (rt_run mem (level_ops c' m)).
Proof.
  intros Hwf Hnode Hs Hl Hsolo. apply sync_step.
  - unfold level_ops. apply Forall_fmap, Forall_forall. intros k Hk%elem_of_seq. cbn.
    eexists. split; [done|]. pose proof (mix_bound _ _ _ Hwf Hnode).
    pose proof (level_bound _ _ _ k Hwf Hnode ltac:(lia)).
    cbn. rewrite !unix_ix by done. cbn.
    assert (Hlt : (m < length (r_mixes (c_s c')))%nat).
    { rewrite (lo_mixes _ _ (cw_layout _ _ Hwf)). by eapply lookup_lt_Some. }
    apply lookup_lt_is_Some in Hlt as [rec Hrec].
    destruct (lo_mixes_ok _ _ (cw_layout _ _ Hwf) _ _ Hrec) as (_ & Hlen & _).
    destruct (lookup_lt_is_Some_2 (r_levels rec) k) as [l Hlv]; [lia|].
    unfold level_op, get_level. by rewrite Hrec; cbn; rewrite Hlv.
  - intros s Hn. destruct s as [z|z|z|z|z|z z'|z z'|z z'|z]; cbn; rewrite ?Hs, ?Hl; try reflexivity.
    destruct (unix z) as [j|] eqn:Hz, (unix z') as [k|] eqn:Hz'; cbn; try constructor.
    destruct (decide (j = m)) as [->|Hne]; [|unfold solo_out; rewrite Hsolo by done; reflexivity].
    destruct (r_mixes (c_s c) !! m) as [rec|] eqn:Hrec; cbn; [|constructor].
    destruct (r_levels rec !! k) as [l|] eqn:Hlv; cbn; [|constructor].
    exfalso. rewrite <-Hs in Hrec.
    destruct (lo_mixes_ok _ _ (cw_layout _ _ Hwf) _ _ Hrec) as (_ & Hlen & _).
    apply lookup_lt_Some in Hlv. rewrite Forall_forall in Hn. apply (Hn (level_op c' m k)).
    + apply list_elem_of_fmap. exists k. split; [done|]. apply elem_of_seq. lia.
    + cbn. f_equal. f_equal; apply unix_eq; try done.
      * by eapply mix_bound.
      * eapply level_bound; [done..|lia].
Qed.

Lemma core_wf_set_solos c solo :
  core_wf channels c -> solo_wf (c_topo c) solo -> core_wf channels (set_solos solo c).
Proof. intros [] Hs. by split. Qed.

Lemma solo_wf_delete topo solo m : solo_wf topo solo -> solo_wf topo (delete m solo).
Proof. intros Hs j set [_ Hj]%lookup_delete_Some. by apply Hs. Qed.

Lemma solo_set_wf topo m mix sources new :
  foldM (solo_slot topo m mix) ∅ sources = Ok new ->
  forall k, k ∈ new <-> exists src, src ∈ sources /\ slot topo m src = Some k.
Proof.
  apply (foldM_ind _ (fun pre new => forall k, k ∈ new <-> exists src, src ∈ pre /\ slot topo m src = Some k)).
  - intros k. split; [by intros ?%elem_of_empty|]. by intros (src & ?%not_elem_of_nil & _).
  - intros pre src _ s s' _ IH Hstep k. unfold solo_slot in Hstep. res_inv Hstep. injection Hstep as <-.
    setoid_rewrite elem_of_app. setoid_rewrite list_elem_of_singleton.
    rewrite elem_of_union, elem_of_singleton, IH. naive_solver.
Qed.

Lemma slot_lt c m node src k :
  core_wf channels c -> t_mixes (c_topo c) !! m = Some node -> slot (c_topo c) m src = Some k ->
  (k < levels (c_topo c) m)%nat.
Proof.
  intros Hwf Hn Hs. destruct (slot_source (cw_topo _ _ Hwf) m node Hn) as [H1 H2].
  apply H2. exists src. by apply H1.
Qed.

Lemma find_mix_ok {c} {mix : MixId} {e : CmdError} {m} :
  core_wf channels c -> ok_or (mix_index (c_topo c) mix) e = Ok m ->
  exists node, t_mixes (c_topo c) !! m = Some node /\ mn_id node = mix.
Proof.
  intros Hwf Hf. res_inv Hf.
  apply (wf_mix_index _ _ (cw_topo _ _ Hwf)) in Hf. by apply fmap_Some in Hf as (n & ? & ->); eauto.
Qed.

Lemma set_solo_step c mix sources : core_wf channels c -> step_ok channels c (set_solo mix sources c).
Proof.
  intros Hwf. unfold set_solo. pure m Hm.
  destruct (find_mix_ok Hwf Hm) as (node & Hnode & _).
  destruct (_ <? _)%nat; [by auto with iem|].
  pure topo Ht. subst topo. pure new Hnew. pure solo Hsolo. subst solo.
  case_decide as Hsame; [by apply step_ok_default|].
  unfold step_ok; cbn [fst snd Partial_changed p_rt p_bump p_changes p_effect length mbind CoreM_bind modify gets mret CoreM_ret].
  set (solo := if decide (new = ∅) then _ else _).
  assert (Hswf : solo_wf (c_topo c) solo).
  { pose proof (cw_solo _ _ Hwf) as Hs. subst solo. case_decide as Hempty; [by apply solo_wf_delete|].
    intros j set [[-> ->]|[_ Hj]]%lookup_insert_Some; [|by apply Hs].
    split_and!; [by eapply lookup_lt_Some|done|]. intros k Hk.
    apply (solo_set_wf _ _ _ _ _ Hnew) in Hk as (src & _ & Hk). by eapply slot_lt. }
  assert (Hwf' := core_wf_set_solos _ _ Hwf Hswf).
  split_and!; [done|done| |done|by split; [left|]].
  intros mem. eapply level_ops_sync; try done.
  intros j Hj. subst solo. cbn. case_decide; [by rewrite lookup_delete_ne|by rewrite lookup_insert_ne].
Qed.
End solo.

(** ** Listen *)

#[local] Arguments set_listens : simpl never.

Section listen.
Context `{LibmOk} {channels : Z}.

Lemma core_wf_set_listens c l :
  core_wf channels c -> listen_wf (c_topo c) l -> core_wf channels (set_listens l c).
Proof. intros [] Hs. by split. Qed.

(** Messages that carry every change of the two listen slots. *)
Lemma listen_sync c l ops mem :
  (forall op, op ∈ ops -> op = RtListen 0 (ix <$> l.1) \/ op = RtListen 1 (ix <$> l.2)) ->
  (RtListen 0 (ix <$> l.1) ∈ ops \/ l.1 = (c_listen c).1) ->
  (RtListen 1 (ix <$> l.2) ∈ ops \/ l.2 = (c_listen c).2) ->
  synced c mem -> synced (set_listens l c) (rt_run mem ops).
Proof.
  intros Hops H0' H1'. apply sync_step.
  - apply Forall_forall. intros op Hin. by destruct (Hops _ Hin) as [-> | ->]; eexists.
  - intros s Hn. rewrite Forall_forall in Hn. destruct s as [z|z|z|z|z|z z'|z z'|z z'|z]; unfold set_listens; cbn; try reflexivity.
    case_decide as Hz0; [|case_decide as Hz1; [|reflexivity]]; constructor; subst z.
    + destruct H0' as [Hin| ->]; [by destruct (Hn _ Hin)|reflexivity].
    + destruct H1' as [Hin| ->]; [by destruct (Hn _ Hin)|reflexivity].
Qed.

Lemma start_listen_step c mix : core_wf channels c -> step_ok channels c (start_listen mix c).
Proof.
  intros Hwf. unfold start_listen. pure m Hm.
  destruct (find_mix_ok Hwf Hm) as (node & Hnode & _).
  pure c0 Hc. subst c0. case_decide as Hcur; [by apply step_ok_default|].
  pose proof (cw_listen _ _ Hwf) as [Hl0 Hl1]. pose proof (lookup_lt_Some _ _ _ Hnode).
  destruct (Nat.eqb_spec m (t_engineer (c_topo c))) as [He|He]; cbn [listen_slot] in Hcur; cbn.
  - split_and!; [|done| |done|by split; [left|]].
    + apply core_wf_set_listens; [done|]. split; cbn; [by intros ? [= <-]|done].
    + intros mem. apply listen_sync; cbn; [intros op ->%list_elem_of_singleton; by left| |by right].
      left. by apply list_elem_of_singleton.
  - case_bool_decide as Hsome; cbn; [done|].
    split_and!; [|done| |done|by split; [left|]].
    + apply core_wf_set_listens; [done|]. split; cbn; [done|by intros ? [= <-]].
    + intros mem. apply listen_sync; cbn; [intros op ->%list_elem_of_singleton; by right|by right|].
      left. by apply list_elem_of_singleton.
Qed.

Lemma stop_listen_step c mix : core_wf channels c -> step_ok channels c (stop_listen mix c).
Proof.
  intros Hwf. unfold stop_listen. pure m Hm. pure l Hl. subst l.
  pose proof (cw_listen _ _ Hwf) as [Hl0 Hl1]. destruct (c_listen c) as [l0 l1] eqn:Hl. cbn in Hl0, Hl1.
  cbn [listen_slot set_listen_slot fst snd mbind CoreM_bind modify].
  case_bool_decide as H0'; case_bool_decide as H1'; cbn; simplify_eq.
  1-3: split_and!; [|done| |done|by split; [left|]];
    [apply core_wf_set_listens; [done|]; split; by cbn|].
  all: try (intros mem; apply listen_sync; cbn; [intros op; rewrite ?elem_of_cons, ?elem_of_nil; naive_solver|..];
    rewrite ?Hl, ?elem_of_cons; cbn; by eauto).
  assert (Hc : set_listens (l0, l1) c = c) by (rewrite <-Hl; by destruct c).
  change (step_ok channels c (set_listens (l0, l1) c, Ok Partial_default)).
  rewrite Hc. by apply step_ok_default.
Qed.
End listen.

(** ** Test signals *)

Section tests.
Context `{LibmOk} {channels : Z}.

Lemma core_wf_tests c t b :
  core_wf channels c -> test_wf (c_topo c) (c_flags c) t -> core_wf channels (set_hil_test b (set_test t c)).
Proof. intros [] Hs. by split. Qed.

Lemma core_wf_set_test c t :
  core_wf channels c -> test_wf (c_topo c) (c_flags c) t -> core_wf channels (set_test t c).
Proof. intros [] Hs. by split. Qed.

Lemma start_test_step c input hz dbfs ttl_s mask listen :
  core_wf channels c -> fl_test_signal (c_flags c) = true ->
  step_ok channels c (start_test input hz dbfs ttl_s mask listen c).
Proof.
  intros Hwf Hf. unfold start_test.
  pure i Hi. pure hz' Hhz. pure dbfs' Hdb. pure ttl' Httl.
  unfold capped in *. res_inv Hi. res_inv Hhz. res_inv Hdb. res_inv Httl.
  apply cap_in in Hhz; [|done]. apply cap_in in Hdb; [|done]. apply cap_in in Httl; [|done].
  unfold step_ok; cbn -[set_test set_hil_test].
  split_and!; [|done| |done|by split; [left|]].
  - apply core_wf_tests; [done|]. intros s [= <-]. cbn. by split_and!.
  - intros mem. apply synced_noslot; [by destruct mask; repeat constructor|]. by intros [].
Qed.

Lemma test_flag_ok c : (test_flag c).1 = c.
Proof. unfold test_flag, mbind, CoreM_bind, err, lift; cbn. by destruct (fl_test_signal (c_flags c)). Qed.

Lemma test_flag_true c u c' : test_flag c = (c', Ok u) -> fl_test_signal (c_flags c) = true.
Proof. unfold test_flag, mbind, CoreM_bind, err, lift; cbn. by destruct (fl_test_signal (c_flags c)). Qed.

Lemma cmd_start_test_step c input hz dbfs ttl_s :
  core_wf channels c -> step_ok channels c (cmd_start_test input hz dbfs ttl_s c).
Proof.
  intros Hwf. unfold cmd_start_test. apply bind_pure; [apply test_flag_ok|]. intros u Hu%test_flag_true.
  pure c0 Hc. subst c0. destruct (_ && _); [by auto with iem|]. by apply start_test_step.
Qed.

Lemma cmd_hil_test_step c input hz dbfs ttl_s card_tx listen :
  core_wf channels c -> step_ok channels c (cmd_hil_test input hz dbfs ttl_s card_tx listen c).
Proof.
  intros Hwf. unfold cmd_hil_test. apply bind_pure; [apply test_flag_ok|]. intros u Hu%test_flag_true.
  destruct (f64_ltb _ _); [by auto with iem|]. pure c0 Hc. subst c0. pure hm Hm. by apply start_test_step.
Qed.

Lemma cmd_stop_test_step c : core_wf channels c -> step_ok channels c (cmd_stop_test c).
Proof.
  intros Hwf. unfold cmd_stop_test. pure t Ht.
  destruct t as [t|].
  - unfold step_ok; cbn -[set_test]. split_and!; [|done| |done|by split; [left|]].
    + by apply core_wf_set_test.
    + intros mem. apply synced_noslot; [by repeat constructor|]. by intros [].
  - change (step_ok channels c (set_test None c, Ok Partial_default)).
    assert (set_test None c = c) as -> by (rewrite <-Ht; by destruct c). by apply step_ok_default.
Qed.
End tests.

(** ** Full sync *)

Section full.
Context `{LibmOk} {channels : Z}.

Lemma full_sync_elem c op :
  op ∈ full_sync c <->
  (exists i x, r_inputs (c_s c) !! i = Some x /\ op ∈ sync_input i x)
  \/ (exists m rec, r_mixes (c_s c) !! m = Some rec /\ op ∈ sync_mix c m rec).
Proof. unfold full_sync. by rewrite elem_of_app, !elem_of_concat_imap. Qed.

Lemma sync_mix_elem c m rec op :
  op ∈ sync_mix c m rec <->
  op = out_op m (r_out rec) \/ op = RtMixEq (ix m) (eq_params (o_eq (r_out rec))) \/ op = limiter_op m (r_out rec)
  \/ (exists k, (k < levels (c_topo c) m)%nat /\ op = level_op c m k)
  \/ (exists g s, r_groups rec !! g = Some s /\ (op = group_op m g s \/ op = RtGroupEq (ix m) (ix g) (eq_params (g_eq s)))).
Proof.
  unfold sync_mix. rewrite !elem_of_app, elem_of_concat_imap, !elem_of_cons, elem_of_nil.
  unfold level_ops. rewrite list_elem_of_fmap. setoid_rewrite elem_of_seq.
  setoid_rewrite elem_of_cons. setoid_rewrite list_elem_of_singleton. split.
  - intros [[?|[?|[?|[]]]]|[(k&?&?)|?]]; [by auto..| |by eauto 10]. right; right; right; left. exists k. split; [lia|done].
  - intros [?|[?|[?|[(k&?&?)|?]]]]; [by auto 10..| |by eauto 10]. right; left. exists k. split; [done|lia].
Qed.

(** The indices of a well-formed core fit 16 bits. *)
Lemma core_bounds c :
  core_wf channels c ->
  (forall i x, r_inputs (c_s c) !! i = Some x -> Z.of_nat i <= u16_max)
  /\ (forall m rec, r_mixes (c_s c) !! m = Some rec ->
      Z.of_nat m <= u16_max /\ length (r_levels rec) = levels (c_topo c) m
      /\ (forall k, (k < levels (c_topo c) m)%nat -> Z.of_nat k <= u16_max)
      /\ (forall g s, r_groups rec !! g = Some s -> Z.of_nat g <= u16_max)).
Proof.
  intros Hwf. destruct (cw_fits _ _ Hwf) as (F1 & F2 & F3 & F4), (cw_layout _ _ Hwf) as [L1 L2 L3 L4]. split.
  - intros i x Hi%lookup_lt_Some. lia.
  - intros m rec Hm. destruct (L4 _ _ Hm) as (_ & Hlen & _ & Hg & _). apply lookup_lt_Some in Hm.
    specialize (F4 m ltac:(lia)). split_and!; [lia|done|lia|]. intros g s Hgs%lookup_lt_Some. lia.
Qed.

Lemma full_sync_sound c op :
  core_wf channels c -> op ∈ full_sync c -> exists s, slot_of op = Some s /\ want c s = Some op.
Proof.
  intros Hwf. destruct (core_bounds _ Hwf) as [B1 B2]. rewrite full_sync_elem. intros [(i & x & Hi & Hop)|(m & rec & Hm & Hop)].
  - pose proof (B1 _ _ Hi). unfold sync_input in Hop. rewrite !elem_of_cons, elem_of_nil in Hop.
    destruct Hop as [-> |[-> |[]]]; eexists; (split; [done|]); cbn; rewrite unix_ix by done; cbn; by rewrite Hi.
  - destruct (B2 _ _ Hm) as (Bm & Hlen & Bk & Bg). rewrite sync_mix_elem in Hop.
    destruct Hop as [-> |[-> |[-> |[(k & Hk & ->)|(g & s & Hg & [-> | ->])]]]];
      eexists; (split; [done|]); cbn; rewrite ?unix_ix by eauto; cbn; rewrite ?Hm; cbn; rewrite ?Hg; try done.
    destruct (lookup_lt_is_Some_2 (r_levels rec) k) as [l Hl]; [lia|].
    rewrite Hl. unfold level_op, get_level. by rewrite Hm; cbn; rewrite Hl.
Qed.

(** Every slot but a listen slot is in a full sync. *)
Lemma full_sync_complete c s op :
  core_wf channels c -> want c s = Some op -> (forall z, s <> SlListen z) ->
  op ∈ full_sync c /\ slot_of op = Some s.
Proof.
  intros Hwf Hw Hs. destruct (core_bounds _ Hwf) as [B1 B2]. rewrite full_sync_elem.
  destruct s as [z|z|z|z|z|z z'|z z'|z z'|z]; cbn in Hw; [..|by destruct (Hs z)].
  all: destruct (unix z) as [j|] eqn:Hz; cbn in Hw; [|done].
  1-2: destruct (r_inputs (c_s c) !! j) as [x|] eqn:Hx; cbn in Hw; [|done]; injection Hw as <-.
  1-2: split; [|done]; left; exists j, x; split; [done|]; unfold sync_input;
    rewrite (unix_eq j z) by eauto; rewrite !elem_of_cons; by auto.
  all: try (destruct (unix z') as [k|] eqn:Hz'; cbn in Hw; [|done]).
  all: destruct (r_mixes (c_s c) !! j) as [rec|] eqn:Hrec; cbn in Hw; [|done];
    destruct (B2 _ _ Hrec) as (Bm & Hlen & Bk & Bg); pose proof (unix_eq _ _ Bm Hz) as Ez.
  1-3: injection Hw as <-; split; [|done]; right; exists j, rec; rewrite sync_mix_elem;
    unfold out_op, limiter_op; rewrite Ez; by auto.
  - destruct (r_levels rec !! k) as [l|] eqn:Hl; cbn in Hw; [|done]. injection Hw as <-. split; [|done].
    right. exists j, rec. split; [done|]. rewrite sync_mix_elem. right; right; right; left. exists k.
    apply lookup_lt_Some in Hl as Hk. rewrite Hlen in Hk. split; [done|].
    unfold level_op, get_level. rewrite Hrec; cbn; rewrite Hl; cbn. by rewrite Ez, (unix_eq k z') by eauto.
  - destruct (r_groups rec !! k) as [g|] eqn:Hg; cbn in Hw; [|done]. injection Hw as <-. split; [|done].
    right. exists j, rec. split; [done|]. rewrite sync_mix_elem. do 4 right. exists k, g. split; [done|].
    left. unfold group_op. by rewrite Ez, (unix_eq k z') by eauto.
  - destruct (r_groups rec !! k) as [g|] eqn:Hg; cbn in Hw; [|done]. injection Hw as <-. split; [|done].
    right. exists j, rec. split; [done|]. rewrite sync_mix_elem. do 4 right. exists k, g. split; [done|].
    right. by rewrite Ez, (unix_eq k z') by eauto.
Qed.

(** A full sync brings any memory in step, listen slots and slots outside
    the topology apart. *)
Lemma full_sync_run c mem :
  core_wf channels c ->
  (forall s, want c s = None \/ (exists z, s = SlListen z) -> option_Forall2 op_feq (mem s) (want c s)) ->
  synced c (rt_run mem (full_sync c)).
Proof.
  intros Hwf Hrest. apply rt_run_agree.
  - apply Forall_forall. intros op. by apply full_sync_sound.
  - intros s Hn. apply Hrest. destruct (want c s) as [op|] eqn:Hw; [|by left].
    destruct s as [z|z|z|z|z|z z'|z z'|z z'|z]; try (by right; eexists).
    all: eapply full_sync_complete in Hw; [|done|done]; destruct Hw as [Hin Hs];
      rewrite Forall_forall in Hn; by destruct (Hn _ Hin).
Qed.

(** The slots a core addresses depend on its topology only. *)
Lemma want_dom c c' s :
  core_wf channels c -> core_wf channels c' -> c_topo c' = c_topo c ->
  want c' s = None -> want c s = None.
Proof.
  intros Hwf Hwf' Ht. rewrite !eq_None_not_Some. intros Hn H1. apply Hn. clear Hn. revert H1.
  destruct (cw_layout _ _ Hwf) as [L1 L2 L3 L4], (cw_layout _ _ Hwf') as [L1' L2' L3' L4']. rewrite Ht in *.
  assert (Hin : forall i, is_Some (r_inputs (c_s c) !! i) -> is_Some (r_inputs (c_s c') !! i)).
  { intros i. rewrite !lookup_lt_is_Some. lia. }
  assert (Hmx : forall m r, r_mixes (c_s c) !! m = Some r -> exists r', r_mixes (c_s c') !! m = Some r'
    /\ length (r_levels r') = length (r_levels r) /\ length (r_groups r') = length (r_groups r)).
  { intros m r Hm. destruct (lookup_lt_is_Some_2 (r_mixes (c_s c')) m) as [r' Hr'].
    { apply lookup_lt_Some in Hm. lia. }
    destruct (L4 _ _ Hm) as (_&?&_&?&_), (L4' _ _ Hr') as (_&?&_&?&_). exists r'. split_and!; [done|lia..]. }
  destruct s as [z|z|z|z|z|z z'|z z'|z z'|z]; cbn; repeat case_decide; try (by intros _; eexists); try by intros [? [=]].
  all: intros (op & Hw); destruct (unix z) as [n|]; cbn in Hw; [|done];
    try (destruct (unix z') as [n0|]; cbn in Hw; [|done]).
  1-2: destruct (r_inputs (c_s c) !! n) as [x|] eqn:Hx; [|done];
    destruct (Hin n ltac:(by eexists)) as [x' Hx']; cbn; rewrite Hx'; by eexists.
  all: destruct (r_mixes (c_s c) !! n) as [r|] eqn:Hr; [|done];
    destruct (Hmx _ _ Hr) as (r' & Hr' & Hll & Hlg); cbn; rewrite Hr'; try by eexists.
  all: cbn in Hw |- *.
  - destruct (r_levels r !! n0) as [l|] eqn:Hl; [|done]. apply lookup_lt_Some in Hl.
    destruct (lookup_lt_is_Some_2 (r_levels r') n0) as [l' Hl']; [lia|]. rewrite Hl'. by eexists.
  - destruct (r_groups r !! n0) as [l|] eqn:Hl; [|done]. apply lookup_lt_Some in Hl.
    destruct (lookup_lt_is_Some_2 (r_groups r') n0) as [l' Hl']; [lia|]. rewrite Hl'. by eexists.
  - destruct (r_groups r !! n0) as [l|] eqn:Hl; [|done]. apply lookup_lt_Some in Hl.
    destruct (lookup_lt_is_Some_2 (r_groups r') n0) as [l' Hl']; [lia|]. rewrite Hl'. by eexists.
Qed.

Lemma cmd_import_step c state : core_wf channels c -> step_ok channels c (cmd_import state c).
Proof.
  intros Hwf. unfold step_ok, cmd_import; cbn -[full_sync reconcile_topo set_s].
  assert (Hwf' : core_wf channels (set_s (reconcile_topo (c_topo c) state).1 c)).
  { apply core_wf_set_s; [done|]. apply (reconcile_topo_ok (cw_topo _ _ Hwf)). }
  split_and!; [done|done| |done|by split; [right|]].
  intros mem Hs. apply full_sync_run; [done|]. intros s [Hn|[z ->]]; [|apply Hs].
  rewrite Hn. specialize (Hs s). by rewrite (want_dom c _ s Hwf Hwf' eq_refl Hn) in Hs.
Qed.
End full.

(** ** One command *)

(** A computation whose success has no effect but its changes. *)
Definition no_effect (m : CoreM Partial) : Prop := forall c p, (m c).2 = Ok p -> p_effect p = None.

Lemma no_effect_bind {A : Type} (m : CoreM A) (f : A -> CoreM Partial) :
  (forall a, no_effect (f a)) -> no_effect (m ≫= f).
Proof.
  intros Hf c p. unfold mbind, CoreM_bind. destruct (m c) as [c' [a|e]]; [apply Hf|done].
Qed.

Lemma no_effect_ret p : p_effect p = None -> no_effect (mret p).
Proof. intros Hp c p' [= <-]. done. Qed.

Lemma no_effect_err code msg : no_effect (err code msg).
Proof. done. Qed.

Lemma no_effect_if (b : bool) m1 m2 : no_effect m1 -> no_effect m2 -> no_effect (if b then m1 else m2).
Proof. by destruct b. Qed.

Lemma no_effect_decide (P : Prop) `{Decision P} m1 m2 :
  no_effect m1 -> no_effect m2 -> no_effect (if decide P then m1 else m2).
Proof. by case_decide. Qed.

Section one.
Context `{LibmOk} {channels : Z}.

Lemma no_effect_set_input i new : no_effect (set_input i new).
Proof. intros c p. unfold set_input. repeat case_match; cbn; by intros [= <-]. Qed.
Lemma no_effect_set_out m new : no_effect (set_out m new).
Proof. intros c p. unfold set_out. repeat case_match; cbn; by intros [= <-]. Qed.
Lemma no_effect_set_level m k new : no_effect (set_level m k new).
Proof. intros c p. unfold set_level. repeat case_match; cbn; by intros [= <-]. Qed.
Lemma no_effect_set_group m g new : no_effect (set_group m g new).
Proof. intros c p. unfold set_group. repeat case_match; cbn; by intros [= <-]. Qed.

Lemma no_effect_listen rt : no_effect (listen_partial rt).
Proof. destruct rt; [by apply no_effect_ret|]. apply no_effect_bind. intros l. by apply no_effect_ret. Qed.

Lemma batchable_no_effect cmd : batchable cmd = true -> no_effect (one cmd).
Proof.
  destruct cmd; cbn; try done; intros _.
  all: unfold cmd_set_input, cmd_set_mix, cmd_set_level, cmd_set_group, cmd_set_eq, cmd_set_limiter,
    cmd_reset_limiter, set_solo, start_listen, stop_listen; cbn zeta.
  all: repeat first
    [ apply no_effect_bind; intros ? | apply no_effect_if | apply no_effect_decide
    | apply no_effect_err | apply no_effect_set_input | apply no_effect_set_out
    | apply no_effect_set_level | apply no_effect_set_group | apply no_effect_listen
    | by apply no_effect_ret | case_match ].
Qed.

(** The parts of an old value that is in range are in range. *)
Ltac value_ok :=
  repeat match goal with
  | |- context [get_input ?c ?i] => pose proof (get_input_ok (c_topo c) c i); generalize dependent (get_input c i); intros
  | |- context [get_out ?c ?i] => pose proof (get_out_ok (c_topo c) c i); generalize dependent (get_out c i); intros
  | |- context [get_level ?c ?i ?k] =>
      pose proof (get_level_ok (c_topo c) c i k); generalize dependent (get_level c i k); intros
  | |- context [get_strip ?c ?i ?k] =>
      pose proof (get_strip_ok (c_topo c) c i k); generalize dependent (get_strip c i k); intros
  end;
  repeat match goal with Hl : layout_ok ?t ?s, Hx : layout_ok ?t ?s -> _ |- _ => specialize (Hx Hl) end;
  unfold input_ok, out_ok, level_ok, group_ok in *; cbn in *; bool_inv;
  rewrite ?andb_true_iff; split_and?; eauto using capped_opt_in, cap_eq_ok.

Lemma cmd_set_input_step c input trim_db muted processing :
  core_wf channels c -> step_ok channels c (cmd_set_input input trim_db muted processing c).
Proof.
  intros Hwf. pose proof (cw_layout _ _ Hwf). unfold cmd_set_input.
  pure i Hi. pure c0 Hc. subst c0. pure trim Ht. apply set_input_step; [done|]. value_ok.
Qed.

Lemma cmd_set_mix_step c mix volume_db muted :
  core_wf channels c -> step_ok channels c (cmd_set_mix mix volume_db muted c).
Proof.
  intros Hwf. pose proof (cw_layout _ _ Hwf). unfold cmd_set_mix.
  pure m Hm. pure c0 Hc. subst c0. pure v Hv. apply set_out_step; [done|]. value_ok.
Qed.

Lemma cmd_set_level_step c mix src gain_db pan muted :
  core_wf channels c -> step_ok channels c (cmd_set_level mix src gain_db pan muted c).
Proof.
  intros Hwf. pose proof (cw_layout _ _ Hwf). unfold cmd_set_level.
  pure m Hm. pure c0 Hc. subst c0. pure k Hk. pure gain Hg. pure p Hp. apply set_level_step; [done|]. value_ok.
Qed.

Lemma cmd_set_group_step c mix group gain_db muted :
  core_wf channels c -> step_ok channels c (cmd_set_group mix group gain_db muted c).
Proof.
  intros Hwf. pose proof (cw_layout _ _ Hwf). unfold cmd_set_group.
  pure m Hm. pure g Hg. pure c0 Hc. subst c0. pure gain Hgain. apply set_group_step; [done|]. value_ok.
Qed.

Lemma cmd_set_limiter_step c mix enabled limit_db :
  core_wf channels c -> step_ok channels c (cmd_set_limiter mix enabled limit_db c).
Proof.
  intros Hwf. pose proof (cw_layout _ _ Hwf). unfold cmd_set_limiter.
  pure m Hm. pure c0 Hc. subst c0. pure l Hl. apply set_out_step; [done|]. value_ok.
Qed.

Lemma cmd_set_eq_step c target eq :
  core_wf channels c -> step_ok channels c (cmd_set_eq target eq c).
Proof.
  intros Hwf. pose proof (cw_layout _ _ Hwf). unfold cmd_set_eq.
  destruct (negb (eq_is_finite eq)); [by auto with iem|]. cbn zeta. destruct target.
  - pure i Hi. pure c0 Hc. subst c0. apply set_input_step; [done|]. value_ok.
  - pure m Hm. pure c0 Hc. subst c0. apply set_out_step; [done|]. value_ok.
  - pure m Hm. pure g Hg. pure c0 Hc. subst c0. apply set_group_step; [done|]. value_ok.
Qed.

Lemma cmd_reset_limiter_step c mix :
  core_wf channels c -> step_ok channels c (cmd_reset_limiter mix c).
Proof.
  intros Hwf. unfold cmd_reset_limiter. pure m Hm. unfold step_ok; cbn.
  split_and!; [done|done| |done|by split; [left|]].
  intros mem. apply synced_noslot; [by repeat constructor|done].
Qed.

Lemma cmd_fault_step c :
  core_wf channels c ->
  step_ok channels c (one InjectFault c).
Proof.
  intros Hwf. cbn [one]. apply bind_pure.
  { unfold need_fault_injection, mbind, CoreM_bind, err, lift; cbn. by destruct (fl_fault_injection (c_flags c)). }
  intros u _. unfold step_ok; cbn. split_and!; [done|done| |done|by split; [|intros [|]]].
  intros mem. apply synced_noslot; [by repeat constructor|done].
Qed.

(** Every command keeps the contract. *)
Lemma one_step c cmd : core_wf channels c -> step_ok channels c (one cmd c).
Proof.
  intros Hwf. destruct cmd; cbn [one];
    eauto using cmd_set_input_step, cmd_set_mix_step, cmd_set_level_step, cmd_set_group_step, cmd_set_eq_step,
      cmd_set_limiter_step, cmd_reset_limiter_step, set_solo_step, start_listen_step, stop_listen_step,
      cmd_start_test_step, cmd_hil_test_step, cmd_stop_test_step, cmd_import_step with iem;
    try by apply step_ok_noop.
  - by apply cmd_fault_step.
  - unfold step_ok; cbn. split_and!; [done|done| |done|by split; [|intros [|]]].
    intros mem. apply synced_noslot; [by repeat constructor|done].
Qed.
End one.
