(* ===== verification/CoreApply.v ===== *)
(** * Requests to the core: batches, revisions, the RT thread in step

    The contract of [apply], [clear_solos] and [end_test_signal], and what any
    sequence of them keeps: the core well-formed, and a memory that starts
    from a full sync in step with it.

    Then a concrete installation for the witnesses. *)

From S2P Require Import Prelude F64 Text MixState Msg Shape Topology TopologyWf Reconciled Rt Core CoreSync CoreCmd.
From Stdlib Require Import SpecFloat.
From stdpp Require Import vector.
From stdpp Require Import options.
Local Open Scope Z_scope.
#[local] Unset Default Proof Using.
#[local] Arguments rt_run : simpl never.

(** ** Batches *)

Lemma step_ok_seq `{Libm} channels c c1 p1 c2 p2 :
  step_ok channels c (c1, Ok p1) -> step_ok channels c1 (c2, Ok p2) ->
  p_effect p1 = None -> p_effect p2 = None ->
  step_ok channels c
    (c2, Ok (mkPartial (p_changes p1 ++ p_changes p2) (p_rt p1 ++ p_rt p2) (p_effect p1) (p_bump p1 || p_bump p2))).
Proof.
  unfold step_ok; cbn. intros (Hw1 & (F1&F2&F3&F4) & Hs1 & Hn1 & Hb1) (Hw2 & (G1&G2&G3&G4) & Hs2 & Hn2 & Hb2) He1 He2.
  split_and!; [done|unfold core_frame; split_and!; congruence| | |].
  - intros mem Hs. rewrite rt_run_app. auto.
  - intros [Ha Hb]%orb_false_iff. rewrite (Hn2 Hb). auto.
  - rewrite orb_true_iff, Hb1, Hb2, He1, He2. split.
    + intros [[?|?]|[?|?]]; try done; left; intros [??]%app_eq_nil; done.
    + intros [Hne|]; [|done]. destruct (p_changes p1); [|by do 2 left].
      right. left. cbn in Hne. done.
Qed.

Section apply.
Context `{LibmOk} {channels : Z}.

Lemma batch_step_ok c acc op acc' :
  batch_step acc op = Ok acc' ->
  step_ok channels c (acc.1, Ok acc.2) /\ p_effect acc.2 = None ->
  core_wf channels acc.1 ->
  step_ok channels c (acc'.1, Ok acc'.2) /\ p_effect acc'.2 = None /\ core_wf channels acc'.1.
Proof.
  destruct acc as [next all]. unfold batch_step; cbn [fst snd]. intros Hstep [Hok He] Hwf.
  destruct (batchable op) eqn:Hb; cbn [negb] in Hstep; [|done].
  pose proof (one_step next op Hwf) as H1.
  pose proof (batchable_no_effect op Hb next) as Heff.
  destruct (one op next) as [next' [p|e]]; cbn in Hstep; [|done]. injection Hstep as <-. cbn [fst snd p_effect].
  specialize (Heff p eq_refl). split_and!; [|done|by destruct H1].
  by eapply step_ok_seq.
Qed.

Lemma batch_fold_ok c ops acc :
  core_wf channels c -> foldM batch_step (c, Partial_default) ops = Ok acc ->
  step_ok channels c (acc.1, Ok acc.2).
Proof.
  intros Hwf Hf.
  cut (step_ok channels c (acc.1, Ok acc.2) /\ p_effect acc.2 = None /\ core_wf channels acc.1); [by intros []|].
  revert Hf. apply (foldM_ind _ (fun _ acc => step_ok channels c (acc.1, Ok acc.2) /\ p_effect acc.2 = None /\ core_wf channels acc.1)).
  - split_and!; [by apply step_ok_default|done|done].
  - intros _ op _ s s' _ (? & ? & ?) Hs. by eapply batch_step_ok.
Qed.

Lemma batch_ok c ops : core_wf channels c -> step_ok channels c (batch ops c).
Proof.
  intros Hwf. unfold batch. destruct (_ <? _)%nat; [done|].
  destruct (foldM batch_step _ ops) as [[next all]|e] eqn:Hf; [|done].
  destruct (_ <? _)%nat; [done|]. apply (batch_fold_ok c ops (next, all) Hwf Hf).
Qed.

(** ** Outcomes *)

(** What a request owes: as [step_ok], with the revision one higher exactly
    when something changed. *)
Definition apply_ok (c : Core) (out : Core * result CmdError Outcome) : Prop :=
  match out.2 with
  | Err _ => out.1 = c
  | Ok o =>
      core_wf channels out.1
      /\ c_topo out.1 = c_topo c /\ c_hil out.1 = c_hil c /\ c_flags out.1 = c_flags c
      /\ (forall mem, synced c mem -> synced out.1 (rt_run mem (out_rt o)))
      /\ out_rev o = c_rev out.1
      /\ ((out.1 = c /\ out_changes o = [] /\ out_effect o <> EImported)
          \/ (c_rev out.1 = u64_wrapping_add (c_rev c) 1
              /\ (out_changes o <> [] \/ out_effect o = EImported)))
  end.

Lemma core_wf_set_rev c rev : core_wf channels c -> core_wf channels (set_rev rev c).
Proof. intros []. by split. Qed.

Lemma synced_set_rev c rev mem : synced (set_rev rev c) mem <-> synced c mem.
Proof. done. Qed.

Lemma finish_eq p c :
  finish p c =
    let c' := if p_bump p then set_rev (u64_wrapping_add (c_rev c) 1) c else c in
    (c', Ok (mkOutcome (c_rev c') (p_changes p) (p_rt p) (opt_or (p_effect p) ENone))).
Proof. done. Qed.

Lemma finish_ok c c' p :
  step_ok channels c (c', Ok p) -> apply_ok c (finish p c').
Proof.
  rewrite finish_eq. unfold step_ok, apply_ok; cbn [fst snd]. intros (Hwf & (F1&F2&F3&F4) & Hs & Hn & Hb).
  destruct (p_bump p) eqn:Hbump; cbn [c_rev out_rev out_changes out_rt out_effect].
  - split_and!; [by apply core_wf_set_rev|done|done|done|done|done|].
    right. split; [by rewrite F4|]. destruct Hb as [Hb _]. destruct (Hb eq_refl) as [|E]; [by left|right].
    by rewrite E.
  - split_and!; try done. left. split_and!; [by apply Hn| |].
    + destruct (p_changes p); [done|]. destruct Hb as [_ Hb]. by discriminate Hb; left.
    + intros He. destruct Hb as [_ Hb]. enough (false = true) by done. apply Hb. right.
      destruct (p_effect p) as [x|]; cbn in He; congruence.
Qed.

Lemma apply_contract c cmd : core_wf channels c -> apply_ok c (Core.apply cmd c).
Proof.
  intros Hwf. unfold Core.apply, mbind, CoreM_bind.
  set (r := (match cmd with Batch ops => batch ops | _ => one cmd end) c).
  assert (Hr : step_ok channels c r).
  { subst r. destruct cmd; try exact (one_step c _ Hwf). by apply batch_ok. }
  destruct r as [c' [p|e]]; [by apply finish_ok|exact Hr].
Qed.

(** ** The core's own events *)

Lemma clear_solo_ok c acc m :
  step_ok channels c (acc.1, Ok (mkPartial (p_changes acc.2) (p_rt acc.2) None (negb (length (p_changes acc.2) =? 0)%nat))) ->
  is_Some (c_solo acc.1 !! m) ->
  let acc' := clear_solo acc m in
  step_ok channels c (acc'.1, Ok (mkPartial (p_changes acc'.2) (p_rt acc'.2) None (negb (length (p_changes acc'.2) =? 0)%nat))).
Proof.
  destruct acc as [c1 p]. cbn [fst snd]. intros Hok [set Hset].
  assert (Hwf1 : core_wf channels c1) by apply Hok.
  destruct (cw_solo _ _ Hwf1 _ _ Hset) as (Hm & _ & _).
  apply lookup_lt_is_Some in Hm as [node Hnode].
  assert (Hwf' : core_wf channels (set_solos (delete m (c_solo c1)) c1)).
  { apply core_wf_set_solos; [done|]. apply solo_wf_delete, (cw_solo _ _ Hwf1). }
  cbn. unfold mix_id_of. rewrite Hnode. cbn.
  eapply (step_ok_seq channels c c1 _ _ (mkPartial [ChSolo (mn_id node) []] _ None true)) in Hok; cbn in Hok; [..|done|done].
  - cbn in *. revert Hok. generalize (p_changes p) as l. intros l Hok.
    assert (Hl : negb (length (l ++ [ChSolo (mn_id node) []]) =? 0)%nat = true).
    { rewrite length_app. cbn. destruct (Nat.eqb_spec (length l + 1) 0); [lia|done]. }
    rewrite Hl. rewrite orb_true_r in Hok. exact Hok.
  - unfold step_ok; cbn -[set_solos]. split_and!; [exact Hwf'|done| |done|by split; [left|]].
    intros mem. eapply level_ops_sync; [done|exact Hnode|done|done|]. intros j Hj. cbn. by rewrite lookup_delete_ne.
Qed.

Lemma clear_solo_fst acc m : (clear_solo acc m).1 = set_solos (delete m (c_solo acc.1)) acc.1.
Proof. by destruct acc. Qed.

Lemma clear_solo_loop c ms acc :
  NoDup ms -> (forall m, m ∈ ms -> is_Some (c_solo acc.1 !! m)) ->
  step_ok channels c (acc.1, Ok (mkPartial (p_changes acc.2) (p_rt acc.2) None (negb (length (p_changes acc.2) =? 0)%nat))) ->
  let acc' := foldl clear_solo acc ms in
  step_ok channels c (acc'.1, Ok (mkPartial (p_changes acc'.2) (p_rt acc'.2) None (negb (length (p_changes acc'.2) =? 0)%nat)))
  /\ forall m, is_Some (c_solo acc'.1 !! m) <-> is_Some (c_solo acc.1 !! m) /\ m ∉ ms.
Proof.
  revert acc. induction ms as [|m ms IH]; intros acc Hnd Hin Hok; cbn [foldl].
  { split; [done|]. intros m. split; [intros; split; [done|by apply not_elem_of_nil]|by intros []]. }
  apply NoDup_cons in Hnd as [Hm Hnd].
  assert (Hk : is_Some (c_solo acc.1 !! m)) by (apply Hin, list_elem_of_here).
  destruct (IH (clear_solo acc m) Hnd) as [H1 H2].
  - intros m' Hm'. rewrite clear_solo_fst. cbn. rewrite lookup_delete_ne by (by intros ->).
    by apply Hin, list_elem_of_further.
  - by apply clear_solo_ok.
  - split; [done|]. intros m'. rewrite H2, clear_solo_fst, not_elem_of_cons. cbn.
    rewrite lookup_delete_is_Some. naive_solver.
Qed.

Lemma sorted_keys_spec {A : Type} (m : gmap nat A) :
  NoDup (sorted_keys m) /\ forall k, k ∈ sorted_keys m <-> is_Some (m !! k).
Proof.
  unfold sorted_keys. split.
  - rewrite merge_sort_Permutation. apply NoDup_fst_map_to_list.
  - intros k. rewrite merge_sort_Permutation, list_elem_of_fmap. split.
    + intros ([k' v] & -> & Hin%elem_of_map_to_list). by eexists.
    + intros [v Hv]. exists (k, v). by rewrite elem_of_map_to_list.
Qed.

Lemma clear_solos_run c :
  core_wf channels c ->
  apply_ok c (clear_solos c) /\ c_solo (clear_solos c).1 = ∅.
Proof.
  intros Hwf. unfold clear_solos. destruct (sorted_keys_spec (c_solo c)) as [Hnd Hkeys].
  destruct (clear_solo_loop c (sorted_keys (c_solo c)) (c, Partial_default) Hnd) as [H1 H2].
  { intros m. apply Hkeys. }
  { by apply step_ok_noop. }
  destruct (foldl clear_solo _ _) as [c' p] eqn:Hf. cbn [fst snd] in H1, H2.
  assert (Heff : p_effect p = None).
  { change p with (c', p).2. rewrite <-Hf. clear. generalize (sorted_keys (c_solo c)) as l.
    intros l. induction l as [|m l IH] using rev_ind; [done|]. rewrite foldl_snoc.
    destruct (foldl clear_solo _ l). by cbn in *. }
  rewrite Heff. split; [by apply finish_ok|].
  rewrite finish_eq. cbn [fst]. assert (c_solo c' = ∅) as He.
  { apply map_empty. intros m. apply eq_None_not_Some. rewrite H2. rewrite Hkeys. by intros [? []]. }
  by case_match.
Qed.

Lemma end_test_signal_ok c : core_wf channels c -> apply_ok c (end_test_signal c).
Proof.
  intros Hwf. unfold end_test_signal, mbind, CoreM_bind, gets, modify. apply finish_ok.
  destruct (c_test c) as [t|] eqn:Ht.
  - unfold step_ok; cbn -[set_test]. split_and!; [|done|done|done|by split; [left|]].
    by apply core_wf_set_test.
  - assert (set_test None c = c) as -> by (rewrite <-Ht; by destruct c). by apply step_ok_default.
Qed.

(** ** Sequences of events *)

Lemma Core_new_wf topo state rev flags :
  topo_wf channels topo -> fits16 topo -> core_wf channels (Core_new topo state rev flags).
Proof.
  intros Hwf Hf. split; cbn; [done|done|by apply (reconcile_topo_ok Hwf)| |by split|by intros ? [=]].
  intros m set Hm. by rewrite lookup_empty in Hm.
Qed.

Lemma Core_new_synced topo state rev flags :
  topo_wf channels topo -> fits16 topo ->
  synced (Core_new topo state rev flags) (rt_run mem_init (full_sync (Core_new topo state rev flags))).
Proof.
  intros Hwf Hf. apply (full_sync_run (channels := channels)); [by apply Core_new_wf|].
  intros s [Hn|[z ->]].
  - rewrite Hn. destruct s as [z|z|z|z|z|z z'|z z'|z z'|z]; cbn in *; try constructor.
    repeat case_decide; try done. destruct_or?; done.
  - cbn. repeat case_decide; subst; try reflexivity; naive_solver.
Qed.
End apply.

(** What the control thread asks of the core: a client's command, the clearing
    of every solo, the end of a test signal's TTL. *)
Inductive core_event := EvCommand (cmd : Cmd) | EvClearSolos | EvTestEnded.

Definition run_event `{Libm} (c : Core) (ev : core_event) : Core * result CmdError Outcome :=
  match ev with
  | EvCommand cmd => Core.apply cmd c
  | EvClearSolos => clear_solos c
  | EvTestEnded => end_test_signal c
  end.

(** A core and the RT memory that got the messages of every outcome. *)
Definition run_events `{Libm} (st : Core * rt_mem) (evs : list core_event) : Core * rt_mem :=
  foldl (fun '(c, mem) ev =>
    let '(c', r) := run_event c ev in
    (c', match r with Ok o => rt_run mem (out_rt o) | Err _ => mem end)) st evs.

Lemma run_event_ok `{LibmOk} {channels : Z} c ev :
  core_wf channels c -> apply_ok (channels := channels) c (run_event c ev).
Proof.
  intros Hwf. destruct ev; cbn; [by apply apply_contract|by apply clear_solos_run|by apply end_test_signal_ok].
Qed.

Lemma run_events_cons `{Libm} c mem ev evs :
  run_events (c, mem) (ev :: evs)
  = run_events ((run_event c ev).1,
                match (run_event c ev).2 with Ok o => rt_run mem (out_rt o) | Err _ => mem end) evs.
Proof. unfold run_events; cbn. by destruct (run_event c ev). Qed.

Lemma run_events_ok `{LibmOk} {channels : Z} evs : forall c mem,
  core_wf channels c -> synced c mem ->
  core_wf channels (run_events (c, mem) evs).1 /\ c_topo (run_events (c, mem) evs).1 = c_topo c
  /\ synced (run_events (c, mem) evs).1 (run_events (c, mem) evs).2.
Proof.
  induction evs as [|ev evs IH]; intros c mem Hwf Hs; [done|].
  rewrite run_events_cons. pose proof (run_event_ok c ev Hwf) as Hok.
  destruct (run_event c ev) as [c' [o|e]]; cbn in Hok; cbn [fst snd].
  - destruct Hok as (Hwf' & Ht & _ & _ & Hsync & _).
    destruct (IH c' (rt_run mem (out_rt o)) Hwf' (Hsync _ Hs)) as (?&?&?). split_and!; [done|by rewrite <-Ht|done].
  - subst c'. by apply IH.
Qed.

(** * A concrete installation for the witnesses

    The site of [Topology.demo_site] compiled, a power function with
    [powf x 0 = 1], and a core on that topology. *)

From S2P Require Import Prelude F64 Text MixState Msg Shape Topology TopologyWf Reconciled Rt Core CoreSync CoreCmd.
From Stdlib Require Import SpecFloat.
From stdpp Require Import options.
Local Open Scope Z_scope.

#[export] Instance demo_libm : Libm := fun b e => match e with S754_zero _ => f64_one | _ => b end.

#[export] Instance demo_libm_ok : LibmOk.
Proof. by intros b s. Qed.

(** Functions in place of the platform's. *)
#[export] Instance demo_rtmath : RtMath := {|
  f64_sin x := x; f64_tan x := x; f64_sinh x := x; f64_log2 x := x; f64_log10 x := x; f64_exp2 x := x; f64_exp _ := f64_half;
|}.

Lemma demo_fits16 : fits16 demo_topo.
Proof.
  unfold fits16, u16_max. split_and!; [by vm_compute..|].
  intros [|[|[|[|m]]]] Hm; [by vm_compute..|]. exfalso. revert Hm. vm_compute. lia.
Qed.

Definition demo_flags : Flags := mkFlags true false.
Definition demo_core : Core := with_hil (Core_new demo_topo MixState_default 7 demo_flags) [9; 10].

Lemma demo_core_wf : core_wf 8 demo_core.
Proof. destruct (Core_new_wf demo_topo MixState_default 7 demo_flags demo_wf demo_fits16). by split. Qed.
