(* ===== verification/CoreSpec.v ===== *)
(** * What the control core promises

    The properties of [core.rs] and [core/commands.rs]: the invariant over any
    run, the RT thread kept in step, errors that change nothing, revisions,
    batches, solo, listen, the test signals' guards, single edits. *)

From S2P Require Import Prelude F64 Text MixState Msg Shape Topology TopologyWf Reconciled Rt Core CoreSync CoreCmd CoreApply.
From Stdlib Require Import SpecFloat.
From stdpp Require Import vector.
From stdpp Require Import options.
Local Open Scope Z_scope.
#[local] Unset Default Proof Using.
#[local] Arguments rt_run : simpl never.

(** The reference reading of a batch: one command after the other. *)
Fixpoint run_ones `{Libm} (c : Core) (ops : list Cmd) : result CmdError (Core * list Partial) :=
  match ops with
  | [] => Ok (c, [])
  | op :: ops =>
      let '(c, r) := one op c in
      p ← r;
      '(c, ps) ← run_ones c ops;
      Ok (c, p :: ps)
  end.

(** The partials of a batch put together. *)
Definition join_partials (ps : list Partial) : Partial :=
  mkPartial (ps ≫= p_changes) (ps ≫= p_rt) None (existsb p_bump ps).

(** ** Lemmas *)

Section lemmas.
Context `{LibmOk} {channels : Z}.

Lemma batch_fold_iff ops : forall c all c' p,
  foldM batch_step (c, all) ops = Ok (c', p) <->
  Forall (fun op => batchable op = true) ops
  /\ exists ps, run_ones c ops = Ok (c', ps)
     /\ p = mkPartial (p_changes all ++ (ps ≫= p_changes)) (p_rt all ++ (ps ≫= p_rt)) (p_effect all)
              (p_bump all || existsb p_bump ps).
Proof.
  induction ops as [|op ops IH]; intros c all c' p; cbn [foldM run_ones].
  - split.
    + intros [= <- <-]. split; [done|]. exists []. split; [done|]. destruct all; cbn. by rewrite !app_nil_r, orb_false_r.
    + intros (_ & ps & [= <- <-] & ->). cbn. destruct all; cbn. by rewrite !app_nil_r, orb_false_r.
  - rewrite Forall_cons. unfold batch_step at 1. destruct (batchable op); cbn [negb]; [|naive_solver].
    destruct (one op c) as [c1 [p1|e]]; cbn; [|naive_solver].
    rewrite IH. cbn. split.
    + intros (Hb & ps & Hr & ->). split; [done|]. exists (p1 :: ps). cbn. rewrite Hr. cbn.
      by rewrite <-!app_assoc, <-orb_assoc.
    + intros ([_ Hb] & ps & Hr & ->). split; [done|].
      destruct (run_ones c1 ops) as [[c2 ps2]|e]; cbn in Hr; [|done]. injection Hr as <- <-.
      exists ps2. split; [done|]. cbn. by rewrite <-!app_assoc, <-orb_assoc.
Qed.

Lemma hil_mask_fold topo hil chans : forall mask0 mask,
  length mask0 = MAX_HIL ->
  foldM (hil_mask_channel topo hil) mask0 chans = Ok mask ->
  length mask = MAX_HIL
  /\ Forall (fun ch => mix_tx_refusal topo ch = None
               /\ exists s, hil !! s = Some ch /\ mask !! s = Some true) chans
  /\ forall s, mask !! s = Some true -> mask0 !! s = Some true
       \/ exists ch, ch ∈ chans /\ hil !! s = Some ch.
Proof.
  induction chans as [|ch chans IH]; intros mask0 mask Hlen; cbn [foldM].
  - intros [= <-]. split_and!; [done|done|by left].
  - unfold hil_mask_channel at 1. destruct (mix_tx_refusal topo ch) eqn:Href; [done|].
    destruct (position _ hil) as [s|] eqn:Hp; cbn; [|done].
    destruct (Nat.ltb_spec s (length mask0)) as [Hs|]; [|done].
    apply position_Some in Hp as (ch' & Hch & ->%bool_decide_eq_true & _).
    intros Hf. destruct (IH _ _ ltac:(by rewrite length_insert) Hf) as (H1 & H2 & H3).
    assert (Hkeep : mask !! s = Some true).
    { revert Hf. assert (Hs0 : (<[s:=true]> mask0) !! s = Some true) by by apply list_lookup_insert_eq.
      revert Hs0. generalize (<[s := true]> mask0) as m0. clear. intros m0 Hs0 Hf.
      apply (foldM_ind _ (fun _ m => m !! s = Some true) m0 chans mask Hs0) in Hf; [done|].
      intros _ x _ m m' _ Hm. unfold hil_mask_channel. destruct (mix_tx_refusal _ x); [done|].
      destruct (position _ _) as [s'|]; cbn; [|done]. destruct (s' <? length m)%nat; [|done].
      intros [= <-]. destruct (decide (s = s')) as [->|]; [|by rewrite list_lookup_insert_ne].
      apply list_lookup_insert_eq. by eapply lookup_lt_Some. }
    split_and!; [done|constructor; [by eauto|done]|].
    intros s' Hs'. destruct (H3 _ Hs') as [Hin|(ch2 & ? & ?)].
    + destruct (decide (s' = s)) as [->|]; [right; exists ch; split; [by left|done]|].
      rewrite list_lookup_insert_ne in Hin by done. by left.
    + right. exists ch2. split; [by right|done].
Qed.

(** The soloed slots of a mix after [set_solo]. *)
Lemma set_solo_result c mix sources c' p :
  core_wf channels c -> set_solo mix sources c = (c', Ok p) ->
  exists m new, mix_index (c_topo c) mix = Some m
    /\ (forall k, k ∈ new <-> exists src, src ∈ sources /\ slot (c_topo c) m src = Some k)
    /\ (forall src, src ∈ sources -> is_Some (slot (c_topo c) m src))
    /\ c_solo c' !! m = (if decide (new = ∅) then None else Some new)
    /\ (forall j, j <> m -> c_solo c' !! j = c_solo c !! j)
    /\ c_s c' = c_s c /\ c_topo c' = c_topo c.
Proof.
  intros Hwf. unfold set_solo, mbind, CoreM_bind. unfold find_mix at 1.
  destruct (mix_index (c_topo c) mix) as [m|] eqn:Hm; cbn [ok_or]; [|done].
  destruct (_ <? _)%nat; [done|]. cbn [gets].
  unfold lift at 1. destruct (foldM _ _ _) as [new|] eqn:Hnew; [|done].
  pose proof (solo_set_wf _ _ _ _ _ Hnew) as Hk.
  assert (Hall : forall src, src ∈ sources -> is_Some (slot (c_topo c) m src)).
  { revert Hnew. clear. apply (foldM_ind _ (fun pre _ => forall src, src ∈ pre -> is_Some (slot (c_topo c) m src))).
    - by intros src ?%not_elem_of_nil.
    - intros pre x _ s s' _ IH Hx src [?| ->%list_elem_of_singleton]%elem_of_app; [by apply IH|].
      unfold solo_slot in Hx. res_inv Hx. by eexists. }
  assert (Hlen : length sources = 0%nat -> new = ∅).
  { destruct sources; [|done]. by injection Hnew as <-. }
  case_decide as Hsame.
  - intros [= <- <-]. exists m, new. split_and!; try done.
    destruct (c_solo c !! m) as [old|] eqn:Hold; cbn in Hsame; subst new.
    + destruct (cw_solo _ _ Hwf _ _ Hold) as (_ & Hne & _). by rewrite decide_False.
    + by rewrite decide_True.
  - intros [= <- <-]. exists m, new. split_and!; try done; cbn.
    + case_decide; [by rewrite lookup_delete_eq|by rewrite lookup_insert_eq].
    + intros j Hj. case_decide; [by rewrite lookup_delete_ne|by rewrite lookup_insert_ne].
Qed.

Lemma apply_one c cmd c' o :
  (forall ops, cmd <> Batch ops) -> Core.apply cmd c = (c', Ok o) ->
  exists c1 p, one cmd c = (c1, Ok p) /\ finish p c1 = (c', Ok o).
Proof.
  intros Hb. unfold Core.apply, mbind, CoreM_bind.
  assert (match cmd with Batch ops => batch ops | _ => one cmd end = one cmd) as ->.
  { destruct cmd; try done. by destruct (Hb ops). }
  destruct (one cmd c) as [c1 [p|e]]; [eauto|done].
Qed.

Lemma finish_frame p c c' o :
  finish p c = (c', Ok o) ->
  c_s c' = c_s c /\ c_solo c' = c_solo c /\ c_topo c' = c_topo c /\ c_listen c' = c_listen c
  /\ c_test c' = c_test c /\ out_rt o = p_rt p /\ out_changes o = p_changes p.
Proof. rewrite finish_eq. intros [= <- <-]. by destruct (p_bump p). Qed.
End lemmas.

(** The indices of a level command. *)
Definition level_at (c : Core) (mix : MixId) (src : Source) (m k : nat) : Prop :=
  mix_index (c_topo c) mix = Some m /\ slot (c_topo c) m src = Some k.

Section edits.
Context `{LibmOk}.

Lemma set_level_result m k new c c' p :
  set_level m k new c = (c', Ok p) ->
  c_topo c' = c_topo c /\ c_solo c' = c_solo c
  /\ r_inputs (c_s c') = r_inputs (c_s c)
  /\ (forall j, get_out c' j = get_out c j) /\ (forall j g, get_strip c' j g = get_strip c j g)
  /\ (forall j i, ~ (j = m /\ i = k) -> get_level c' j i = get_level c j i)
  /\ (get_level c' m k = new \/ get_level c' m k = get_level c m k).
Proof.
  unfold set_level.
  destruct (t_mixes (c_topo c) !! m) as [node|]; [|intros [= <- <-]; by split_and!; try right].
  destruct (source (c_topo c) m k) as [src|]; [|intros [= <- <-]; by split_and!; try right].
  destruct (r_mixes (c_s c) !! m) as [rec|] eqn:Hrec; cbn [mbind option_bind];
    [|intros [= <- <-]; by split_and!; try right].
  destruct (r_levels rec !! k) as [old|] eqn:Hold; [|intros [= <- <-]; by split_and!; try right].
  destruct (Level_eqb old new); [intros [= <- <-]; by split_and!; try right|].
  intros [= <- <-]. unfold get_out, get_strip, get_level; cbn.
  assert (Hk : (k < length (r_levels rec))%nat) by by eapply lookup_lt_Some.
  split_and!; try done.
  - intros j. destruct (decide (m = j)) as [<-|]; [by rewrite list_lookup_alter_eq, Hrec|by rewrite list_lookup_alter_ne].
  - intros j g. destruct (decide (m = j)) as [<-|]; [by rewrite list_lookup_alter_eq, Hrec|by rewrite list_lookup_alter_ne].
  - intros j i Hne. destruct (decide (m = j)) as [<-|]; [|by rewrite list_lookup_alter_ne].
    rewrite list_lookup_alter_eq, Hrec. cbn. rewrite list_lookup_insert_ne; [done|]. intros ->. by apply Hne.
  - left. rewrite list_lookup_alter_eq, Hrec. cbn. by rewrite list_lookup_insert_eq.
Qed.

Lemma set_level_same m k new c c' p node src :
  t_mixes (c_topo c) !! m = Some node -> source (c_topo c) m k = Some src ->
  is_Some (r ← r_mixes (c_s c) !! m; r_levels r !! k) ->
  set_level m k new c = (c', Ok p) ->
  get_level c' m k = new \/ (c' = c /\ p_rt p = [] /\ p_changes p = [] /\ Level_eqb (get_level c m k) new = true).
Proof.
  unfold set_level. intros -> -> [old Hold]. unfold get_level. rewrite Hold.
  destruct (Level_eqb old new) eqn:E; intros [= <- <-]; [by right|]. left. cbn.
  destruct (r_mixes (c_s c) !! m) as [rec|] eqn:Hrec; cbn in Hold; [|done].
  rewrite list_lookup_alter_eq, Hrec. cbn. rewrite list_lookup_insert_eq; [done|]. by eapply lookup_lt_Some.
Qed.
End edits.

(** ** Properties *)

(** C13: from any compiled topology and any loaded state, whatever commands,
    solo clearings and test endings the core is given, it stays well-formed:
    the layout has exactly the topology's slots with every value in range,
    solos name existing slots of existing mixes and are never empty, listen
    slot 0 is only ever the engineer's mix and slot 1 only another one, and a
    test signal exists only with the test-signal flag, on an existing input,
    inside its caps. *)
Theorem core_invariant `{LibmOk} channels topo state rev flags hil mem evs :
  topo_wf channels topo -> fits16 topo ->
  core_wf channels (run_events (with_hil (Core_new topo state rev flags) hil, mem) evs).1.
Proof.
  intros Hwf Hf.
  assert (Hc : core_wf channels (with_hil (Core_new topo state rev flags) hil)).
  { destruct (Core_new_wf topo state rev flags Hwf Hf). by split. }
  generalize dependent (with_hil (Core_new topo state rev flags) hil). intros c Hc.
  revert c mem Hc. induction evs as [|ev evs IH]; intros c mem Hc; [done|].
  rewrite run_events_cons. apply IH. pose proof (run_event_ok c ev Hc) as Hok.
  destruct (run_event c ev) as [c' [o|e]]; cbn in *; [apply Hok|by subst].
Qed.

Lemma core_invariant_witness :
  core_wf 8 (run_events (demo_core, mem_init) [EvCommand (SetSolo "m1" [SrcInput "mic1"]); EvClearSolos]).1.
Proof. apply (core_invariant 8 demo_topo MixState_default 7 demo_flags [9; 10]); [apply demo_wf|apply demo_fits16]. Defined.

(** C30: an RT thread that starts empty, gets the core's full sync and then the
    messages of every outcome holds, slot by slot, what the core's state says
    (up to the sign of zeros): inputs, EQs, mix outputs, limiters, levels with
    the solo folded into their mutes, group strips and the two listen slots.
    The incremental updates are equivalent to a full sync. *)
Theorem rt_in_step `{LibmOk} channels topo state rev flags evs :
  topo_wf channels topo -> fits16 topo ->
  let c0 := Core_new topo state rev flags in
  let st := run_events (c0, rt_run mem_init (full_sync c0)) evs in
  synced st.1 st.2.
Proof.
  intros Hwf Hf. cbn zeta.
  apply (run_events_ok (channels := channels)); [by apply Core_new_wf|by apply (Core_new_synced (channels := channels))].
Qed.

Lemma rt_in_step_witness :
  let c0 := Core_new demo_topo MixState_default 7 demo_flags in
  let st := run_events (c0, rt_run mem_init (full_sync c0))
              [EvCommand (SetSolo "m1" [SrcInput "mic1"]); EvCommand (SetMix "m1" None (Some true))] in
  synced st.1 st.2.
Proof. apply (rt_in_step 8); [apply demo_wf|apply demo_fits16]. Defined.

(** C27: a refused command changes nothing: when [apply] returns an error (a
    refused batch included, wherever in it the error arose) the core is what it
    was. *)
Theorem apply_error_unchanged `{LibmOk} channels c cmd c' e :
  core_wf channels c -> Core.apply cmd c = (c', Err e) -> c' = c.
Proof.
  intros Hwf He. pose proof (apply_contract c cmd Hwf) as Hok. by rewrite He in Hok.
Qed.

Lemma apply_error_unchanged_witness :
  (Core.apply (Batch [SetMix "m1" None (Some true); SetMix "nope" None None]) demo_core).1 = demo_core.
Proof.
  destruct (Core.apply (Batch [SetMix "m1" None (Some true); SetMix "nope" None None]) demo_core) as [c' [o|e]] eqn:E.
  - exfalso. apply (f_equal (fun x => is_ok x.2)) in E. revert E. by vm_compute.
  - exact (apply_error_unchanged 8 demo_core _ c' e demo_core_wf E).
Defined.

(** The revision counts changes exactly: a command that succeeds reports
    the core's revision; either nothing changed and it reports no change, or
    the revision is one higher (wrapping at 64 bits) and the outcome carries a
    change or the note that a state was imported. *)
Theorem apply_revision `{LibmOk} channels c cmd c' o :
  core_wf channels c -> Core.apply cmd c = (c', Ok o) ->
  out_rev o = c_rev c'
  /\ ((c' = c /\ out_changes o = [] /\ out_effect o <> EImported)
      \/ (c_rev c' = u64_wrapping_add (c_rev c) 1 /\ (out_changes o <> [] \/ out_effect o = EImported))).
Proof.
  intros Hwf Ho. pose proof (apply_contract c cmd Hwf) as Hok. rewrite Ho in Hok.
  by destruct Hok as (_ & _ & _ & _ & _ & ? & ?).
Qed.

Lemma apply_revision_witness :
  let r := Core.apply (SetMix "m1" None (Some true)) demo_core in
  match r.2 with Ok o => out_rev o = 8 /\ out_rev o = c_rev r.1 | Err _ => False end.
Proof.
  cbn zeta. destruct (Core.apply (SetMix "m1" None (Some true)) demo_core) as [c' [o|e]] eqn:E.
  - split.
    + apply (f_equal (fun x => match x.2 with Ok o => out_rev o | Err _ => 0 end)) in E. cbn [snd] in E. rewrite <-E. by vm_compute.
    + exact (proj1 (apply_revision 8 demo_core _ c' o demo_core_wf E)).
  - apply (f_equal (fun x => is_ok x.2)) in E. revert E. by vm_compute.
Defined.

(** A batch is exactly its commands one after the other, all or nothing:
    it succeeds when it holds at most 256 commands, all of them state edits,
    each succeeding on the core the ones before it left, and their RT messages
    together fit one block of 512; the result is then the last core with the
    changes and messages in order.  Otherwise the core is unchanged. *)
Theorem batch_is_sequence `{Libm} ops c c' p :
  (batch ops c = (c', Ok p) <->
     (length ops <= MAX_BATCH)%nat /\ Forall (fun op => batchable op = true) ops
     /\ exists ps, run_ones c ops = Ok (c', ps) /\ p = join_partials ps
        /\ (length (p_rt p) <= MAX_CMDS_PER_BLOCK)%nat)
  /\ ((batch ops c).1 = c \/ is_ok (batch ops c).2 = true).
Proof.
  unfold batch. destruct (Nat.ltb_spec MAX_BATCH (length ops)) as [Hl|Hl].
  { split; [|by left]. split; [done|]. intros [? _]. lia. }
  destruct (foldM batch_step (c, Partial_default) ops) as [[next all]|e] eqn:Hf.
  - apply batch_fold_iff in Hf as (Hb & ps & Hps & ->). cbn.
    destruct (Nat.ltb_spec MAX_CMDS_PER_BLOCK (length (ps ≫= p_rt))) as [Hr|Hr].
    + split; [|by left]. split; [done|]. intros (_ & _ & ps' & Hps' & -> & Hr'). rewrite Hps in Hps'. simplify_eq.
      cbn in Hr'. lia.
    + split; [|by right]. split.
      * intros [= <- <-]. split_and!; [done|done|]. exists ps. by split_and!.
      * intros (_ & _ & ps' & Hps' & -> & _). rewrite Hps in Hps'. by simplify_eq.
  - split; [|by left]. split; [done|]. intros (_ & Hb & ps & Hps & -> & _). exfalso.
    assert (foldM batch_step (c, Partial_default) ops = Ok (c', join_partials ps)) as Hok; [|by rewrite Hok in Hf].
    apply batch_fold_iff. split; [done|]. by exists ps.
Qed.

(** The commands an observer connection may send never change the core,
    never send the RT thread anything and never report a change. *)
Theorem read_only_unchanged `{Libm} cmd c :
  is_read_only cmd = true ->
  exists effect, Core.apply cmd c = (c, Ok (mkOutcome (c_rev c) [] [] effect)).
Proof. destruct cmd; try done; intros _; by eexists. Qed.

Lemma read_only_unchanged_witness :
  exists effect, Core.apply GetState demo_core = (demo_core, Ok (mkOutcome (c_rev demo_core) [] [] effect)).
Proof. by apply (read_only_unchanged GetState demo_core). Defined.

(** After a solo command the RT thread mutes, in that mix, exactly the
    levels the user muted and, unless the solo is empty, those of every source
    outside it. *)
Theorem solo_mutes `{LibmOk} channels c mix sources c' o mem m k :
  core_wf channels c -> synced c mem -> Core.apply (SetSolo mix sources) c = (c', Ok o) ->
  mix_index (c_topo c) mix = Some m -> (k < levels (c_topo c) m)%nat ->
  exists gain pan,
    rt_run mem (out_rt o) (SlLevel (ix m) (ix k))
    = Some (RtLevel (ix m) (ix k) gain pan
        (lv_muted (get_level c m k)
         || (negb (bool_decide (sources = []))
             && negb (existsb (fun src => bool_decide (slot (c_topo c) m src = Some k)) sources)))).
Proof.
  intros Hwf Hs Ho Hm Hk.
  pose proof (apply_contract c (SetSolo mix sources) Hwf) as Hok. rewrite Ho in Hok.
  destruct Hok as (Hwf' & Ht & _ & _ & Hsync & _). specialize (Hsync mem Hs). cbn in Hwf', Ht, Hsync.
  apply apply_one in Ho as (c1 & p & H1 & Hfin); [|done]. cbn in H1.
  apply (set_solo_result _ _ _ _ _ Hwf) in H1 as (m' & new & Hm' & Hnew & Hall & Hsolo & _ & Hs1 & Ht1).
  rewrite Hm in Hm'. injection Hm' as <-.
  destruct (finish_frame _ _ _ _ Hfin) as (Hfs & Hfsolo & _).
  destruct (core_bounds _ Hwf') as [_ B2].
  destruct (lookup_lt_is_Some_2 (r_mixes (c_s c')) m) as [rec Hrec].
  { rewrite (lo_mixes _ _ (cw_layout _ _ Hwf')), Ht. pose proof (cw_topo _ _ Hwf) as Htw.
    apply (wf_mix_index _ _ Htw) in Hm. apply fmap_Some in Hm as (n & ? & _). by eapply lookup_lt_Some. }
  destruct (B2 _ _ Hrec) as (Bm & Hlen & Bk & _). rewrite Ht in Hlen, Bk.
  destruct (lookup_lt_is_Some_2 (r_levels rec) k) as [l Hl]; [lia|].
  specialize (Hsync (SlLevel (ix m) (ix k))). cbn in Hsync. rewrite !unix_ix in Hsync by auto. cbn in Hsync.
  rewrite Hrec in Hsync; cbn in Hsync. rewrite Hl in Hsync; cbn in Hsync.
  inversion Hsync as [op op' Hop Hrun Heq|]; subst. destruct op; cbn in Hop; try done.
  destruct Hop as (-> & -> & _ & _ & ->). exists gain, pan. do 3 f_equal.
  - unfold get_level. rewrite <-Hs1, <-Hfs, Hrec. cbn. by rewrite Hl.
  - unfold solo_out. rewrite Hfsolo, Hsolo.
    destruct sources as [|s0 sources].
    { rewrite decide_True; [done|]. apply set_eq. intros x. rewrite Hnew. split; [by intros (?&?%not_elem_of_nil&_)|by intros ?%elem_of_empty]. }
    rewrite decide_False.
    2: { intros Hemp. destruct (Hall s0 ltac:(by left)) as [k0 Hk0].
         assert (k0 ∈ new) as Hin; [|by rewrite Hemp in Hin; apply elem_of_empty in Hin].
         apply Hnew. exists s0. split; [by left|done]. }
    rewrite (bool_decide_eq_false_2 (s0 :: sources = [])) by done. cbn [negb andb]. f_equal.
    apply eq_true_iff_eq. rewrite bool_decide_eq_true, Hnew, existsb_elem. by setoid_rewrite bool_decide_eq_true.
Qed.

Lemma solo_mutes_witness :
  exists o gain pan,
    (Core.apply (SetSolo "m1" [SrcInput "mic1"]) demo_core).2 = Ok o
    /\ rt_run (want demo_core) (out_rt o) (SlLevel (ix 0) (ix 1)) = Some (RtLevel (ix 0) (ix 1) gain pan true).
Proof.
  destruct (Core.apply (SetSolo "m1" [SrcInput "mic1"]) demo_core) as [c' [o|e]] eqn:E.
  - destruct (solo_mutes 8 demo_core "m1" [SrcInput "mic1"] c' o (want demo_core) 0 1 demo_core_wf) as (g & p & Hr).
    + intros s. reflexivity.
    + exact E.
    + by vm_compute.
    + apply Nat.ltb_lt. by vm_compute.
    + exists o, g, p. split; [done|]. rewrite Hr. by do 2 f_equal.
  - exfalso. apply (f_equal (fun x => is_ok x.2)) in E. revert E. by vm_compute.
Defined.

(** A level command changes one level: it is what the command says (each
    given value capped into its range, each missing one kept), up to a value
    that compares equal to the old one; every other level, output, strip and
    input, and every solo, is unchanged. *)
Theorem set_level_effect `{LibmOk} channels c mix src gain_db pan muted c' o :
  core_wf channels c -> Core.apply (SetLevel mix src gain_db pan muted) c = (c', Ok o) ->
  exists m k gain p, level_at c mix src m k
  /\ let old := get_level c m k in
     let new := mkLevel gain p (opt_or muted (lv_muted old)) in
     capped_opt gain_db FADER_DB "gain_db" (lv_gain_db old) = Ok gain
     /\ capped_opt pan PAN "pan" (lv_pan old) = Ok p
     /\ (get_level c' m k = new \/ (c' = c /\ Level_eqb old new = true))
     /\ (forall j i, ~ (j = m /\ i = k) -> get_level c' j i = get_level c j i)
     /\ (forall j, get_out c' j = get_out c j) /\ (forall j g, get_strip c' j g = get_strip c j g)
     /\ (forall i, get_input c' i = get_input c i) /\ c_solo c' = c_solo c.
Proof.
  intros Hwf Ho. pose proof Ho as Hap. apply apply_one in Ho as (c1 & part & H1 & Hfin); [|done].
  destruct (finish_frame _ _ _ _ Hfin) as (Fs & Fsolo & Ft & _ & _ & _ & Fch).
  pose proof (apply_contract c (SetLevel mix src gain_db pan muted) Hwf) as Hok. rewrite Hap in Hok.
  destruct Hok as (_ & _ & _ & _ & _ & _ & Hrev).
  cbn [one] in H1. unfold cmd_set_level, mbind, CoreM_bind in H1. unfold find_mix at 1 in H1.
  destruct (mix_index (c_topo c) mix) as [m|] eqn:Hm; cbn in H1; [|done].
  destruct (slot (c_topo c) m src) as [k|] eqn:Hk; cbn in H1; [|done].
  destruct (capped_opt gain_db FADER_DB "gain_db" (lv_gain_db (get_level c m k))) as [gain|] eqn:Hg; cbn in H1; [|done].
  destruct (capped_opt pan PAN "pan" (lv_pan (get_level c m k))) as [p|] eqn:Hp; cbn in H1; [|done].
  exists m, k, gain, p. split; [by split|]. cbn zeta. split_and!; [done|done|..].
  all: pose proof (set_level_result _ _ _ _ _ _ H1) as (Rt & Rsolo & Rin & Rout & Rstrip & Rlev & _).
  - pose proof (wf_mix_index _ _ (cw_topo _ _ Hwf)) as Hmi. apply Hmi in Hm. apply fmap_Some in Hm as (node & Hnode & _).
    pose proof (slot_lt _ _ _ _ _ Hwf Hnode Hk) as Hlt.
    destruct (slot_source (cw_topo _ _ Hwf) _ _ Hnode) as [Hss _]. apply Hss in Hk.
    assert (Hsome : is_Some (r ← r_mixes (c_s c) !! m; r_levels r !! k)).
    { destruct (lookup_lt_is_Some_2 (r_mixes (c_s c)) m) as [rec Hrec].
      { rewrite (lo_mixes _ _ (cw_layout _ _ Hwf)). by eapply lookup_lt_Some. }
      rewrite Hrec. cbn. apply lookup_lt_is_Some.
      by destruct (lo_mixes_ok _ _ (cw_layout _ _ Hwf) _ _ Hrec) as (_ & -> & _). }
    destruct (set_level_same _ _ _ _ _ _ _ _ Hnode Hk Hsome H1) as [Heq|(-> & _ & Hc & Heq)].
    + left. unfold get_level in *. by rewrite Fs.
    + right. split; [|done]. cbn [fst] in Hrev. destruct Hrev as [[-> _]|[_ [Hne|He]]]; [done|by rewrite Fch, Hc in Hne|].
      exfalso. revert Hfin He. rewrite finish_eq. intros [= _ <-]. cbn.
      assert (p_effect part = None) as ->; [|done].
      pose proof (no_effect_set_level m k (mkLevel gain p (opt_or muted (lv_muted (get_level c m k)))) c part) as Hn.
      rewrite H1 in Hn. by apply Hn.
  - intros j i Hne. unfold get_level in *. rewrite Fs. by apply Rlev.
  - intros j. unfold get_out in *. rewrite Fs. by apply Rout.
  - intros j g. unfold get_strip in *. rewrite Fs. by apply Rstrip.
  - intros i. unfold get_input. by rewrite Fs, Rin.
  - by rewrite Fsolo, Rsolo.
Qed.

Lemma set_level_effect_witness :
  exists c' m k, level_at demo_core "m1" (SrcInput "mic1") m k
    /\ (forall j i, ~ (j = m /\ i = k) -> get_level c' j i = get_level demo_core j i).
Proof.
  destruct (Core.apply (SetLevel "m1" (SrcInput "mic1") None None (Some true)) demo_core) as [c' [o|e]] eqn:E.
  - destruct (set_level_effect 8 demo_core _ _ _ _ _ c' o demo_core_wf E) as (m & k & g & p & Hat & _ & _ & _ & Hrest & _).
    exists c', m, k. exact (conj Hat Hrest).
  - exfalso. apply (f_equal (fun x => is_ok x.2)) in E. revert E. by vm_compute.
Defined.

(** The mask of a HIL test signal opens exactly the asked outputs: an
    accepted mask has one flag per HIL slot, every asked channel is one of the
    engine's spare outputs and its slot is set, every set slot is an asked
    channel, and no asked channel is the TX channel of a mix. *)
Theorem hil_mask_safe topo hil card_tx mask :
  hil_mask topo hil card_tx = Ok mask ->
  length mask = MAX_HIL /\ card_tx <> []
  /\ Forall (fun ch => mix_tx_refusal topo ch = None
               /\ exists s, hil !! s = Some ch /\ mask !! s = Some true) card_tx
  /\ forall s, mask !! s = Some true -> exists ch, ch ∈ card_tx /\ hil !! s = Some ch.
Proof.
  unfold hil_mask. destruct (Nat.eqb_spec (length card_tx) 0) as [|Hne]; [done|].
  intros (Hl & Hall & Hset)%hil_mask_fold; [|by rewrite length_replicate].
  split_and!; [done|by intros ->|done|]. intros s Hs. destruct (Hset s Hs) as [Hr|?]; [|done].
  by apply lookup_replicate in Hr as [? _].
Qed.

Lemma hil_mask_safe_witness :
  match hil_mask demo_topo [9; 10] [10] with Ok mask => length mask = MAX_HIL | Err _ => False end.
Proof.
  destruct (hil_mask demo_topo [9; 10] [10]) as [mask|e] eqn:E.
  - exact (proj1 (hil_mask_safe demo_topo [9; 10] [10] mask E)).
  - apply (f_equal is_ok) in E. revert E. by vm_compute.
Defined.

(** Without the test-signal flag every command that starts a test signal
    is forbidden and changes nothing; with it, a started signal is the running
    one, and a plain test signal never replaces a running HIL one. *)
Theorem test_signal_guarded `{Libm} c input hz dbfs ttl_s card_tx listen :
  (fl_test_signal (c_flags c) = false ->
     (exists e, Core.apply (StartTestSignal input hz dbfs ttl_s) c = (c, Err e) /\ ce_code e = Forbidden)
     /\ (exists e, Core.apply (HilTestSignal input hz dbfs ttl_s card_tx listen) c = (c, Err e) /\ ce_code e = Forbidden))
  /\ (c_hil_test c = true -> is_Some (c_test c) ->
     exists e, Core.apply (StartTestSignal input hz dbfs ttl_s) c = (c, Err e) /\ ce_code e = Forbidden).
Proof.
  assert (Hflag : fl_test_signal (c_flags c) = false ->
    exists e, test_flag c = (c, Err e) /\ ce_code e = Forbidden).
  { intros Hf. unfold test_flag, mbind, CoreM_bind; cbn. rewrite Hf. by eexists. }
  split; [intros Hf; split|intros Hh Ht].
  1-2: destruct (Hflag Hf) as (e & He & Hc); exists e; split; [|done];
    unfold Core.apply; cbn [one]; unfold cmd_start_test, cmd_hil_test;
    unfold mbind, CoreM_bind; by rewrite He.
  destruct (fl_test_signal (c_flags c)) eqn:Hf.
  - assert (Htf : test_flag c = (c, Ok tt)) by (unfold test_flag, mbind, CoreM_bind; cbn; by rewrite Hf).
    eexists. unfold Core.apply; cbn [one]; unfold cmd_start_test, mbind, CoreM_bind. rewrite Htf. cbn.
    rewrite Hh, bool_decide_eq_true_2 by done. cbn. by split.
  - destruct (Hflag eq_refl) as (e & He & Hc). exists e. split; [|done].
    unfold Core.apply; cbn [one]; unfold cmd_start_test, mbind, CoreM_bind. by rewrite He.
Qed.

Lemma test_signal_guarded_witness :
  let c := Core_new demo_topo MixState_default 7 (mkFlags false false) in
  exists e, Core.apply (StartTestSignal "mic1" f64_one f64_one f64_one) c = (c, Err e) /\ ce_code e = Forbidden.
Proof.
  cbn zeta.
  exact (proj1 (proj1 (test_signal_guarded (Core_new demo_topo MixState_default 7 (mkFlags false false))
                         "mic1" f64_one f64_one f64_one [] false) eq_refl)).
Defined.

(** Clearing the solos leaves none: no mix keeps a solo, nothing else of
    the mix state, listen slots and test signal changes, and an RT memory in
    step stays in step, so no level is silenced by a solo any more. *)
Theorem clear_solos_clears `{LibmOk} channels c :
  core_wf channels c ->
  let c' := (clear_solos c).1 in
  c_solo c' = ∅
  /\ exists o, (clear_solos c).2 = Ok o
     /\ (forall mem, synced c mem -> synced c' (rt_run mem (out_rt o)))
     /\ (c_solo c <> ∅ <-> c_rev c' = u64_wrapping_add (c_rev c) 1 /\ out_changes o <> []).
Proof.
  intros Hwf. destruct (clear_solos_run c Hwf) as [Hok He]. split; [done|].
  destruct (clear_solos c) as [c' [o|e]] eqn:E.
  2: { exfalso. revert E. unfold clear_solos. destruct (foldl _ _ _) as [? ?]. by rewrite finish_eq. }
  cbn in He, Hok |- *. destruct Hok as (_ & _ & _ & _ & Hs & Hr & Hcase). exists o. split_and!; [done|done|].
  assert (Heff : out_effect o <> EImported).
  { revert E. unfold clear_solos. destruct (foldl _ _ _) as [c1 p1] eqn:Hf. rewrite finish_eq. intros [= _ <-]. cbn.
    assert (p_effect p1 = None) as ->; [|done]. change p1 with (c1, p1).2. rewrite <-Hf.
    generalize (sorted_keys (c_solo c)) as l. clear. intros l.
    induction l as [|m l IH] using rev_ind; [done|]. rewrite foldl_snoc. destruct (foldl clear_solo _ l). by cbn in *. }
  split.
  - intros Hne. destruct Hcase as [(-> & _ & _)|[? [?|]]]; [done|by split|done].
  - intros [_ Hch]. intros Hemp.
    revert E Hch. unfold clear_solos. rewrite Hemp. cbn. intros [= _ <-]. done.
Qed.

Lemma clear_solos_clears_witness : c_solo (clear_solos demo_core).1 = ∅.
Proof. exact (proj1 (clear_solos_clears 8 demo_core demo_core_wf)). Defined.

(** What the engine sends or saves as its state is complete: importing the
    core's own snapshot into it leaves the mix state exactly as it is, and
    bumps the revision once. *)
Theorem import_own_snapshot `{LibmOk} channels c :
  core_wf channels c ->
  exists o, Core.apply (ImportState (core_state c)) c = (set_rev (u64_wrapping_add (c_rev c) 1) c, Ok o)
    /\ out_rt o = full_sync c /\ out_effect o = EImported.
Proof.
  intros Hwf.
  assert (Hrt : (reconcile_topo (c_topo c) (core_state c)).1 = c_s c).
  { unfold core_state. by rewrite (to_state_roundtrip (cw_topo _ _ Hwf) _ (cw_layout _ _ Hwf)). }
  assert (Hset : set_s (c_s c) c = c) by by destruct c.
  assert (Hone : one (ImportState (core_state c)) c = (c, Ok (mkPartial [] (full_sync c) (Some EImported) true))).
  { cbn [one]. unfold cmd_import, mbind, CoreM_bind, modify, gets. rewrite Hrt, Hset. done. }
  eexists. unfold Core.apply, mbind, CoreM_bind. rewrite Hone, finish_eq. cbn [p_bump]. by split.
Qed.

Lemma import_own_snapshot_witness :
  exists o, Core.apply (ImportState (core_state demo_core)) demo_core
            = (set_rev (u64_wrapping_add (c_rev demo_core) 1) demo_core, Ok o).
Proof. destruct (import_own_snapshot 8 demo_core demo_core_wf) as (o & Ho & _). by exists o. Defined.
