(* ===== verification/Disk.v ===== *)
(** * File names of the state directory ([iem-engine/src/persist.rs])

    Every revision the engine commits is carried by a file name: a
    generation's ([gen-<seq>-r<rev>.json]) or the marker's
    ([current.json.rev-<rev>]).  This file models the names, their parsing and
    the listing made of a directory's entries.  A path is the name of a file
    in the state directory; the directory itself is [dir_path].

    Then the file operations over them ([persist/files.rs]), each of which can fail or be cut off. *)

From S2P Require Import Prelude Text.
From Stdlib Require Import Ascii.
From stdpp Require Import options.
Local Open Scope Z_scope.

Abbreviation Path := string.

Definition dir_path : Path := "".

(** ** I/O errors *)

(** What the engine writes around an error's text when it passes it on. *)
Inductive IoNote :=
| NCannotRead (name : string)
| NMovedAside (aside : Path)
| NSyncAfterAside (aside : Path).

(** An [io::Error]: its kind, the system's text, the engine's notes around it
    (innermost first). *)
Record IoError := mkIoError { e_kind : IoKind; e_text : string; e_notes : list IoNote }.

Definition add_note (n : IoNote) (e : IoError) : IoError :=
  mkIoError (e_kind e) (e_text e) (e_notes e ++ [n]).

(** ** Names *)

Definition GENERATIONS : nat := 20.
Definition CURRENT : Path := "current.json".
Definition BASELINE : Path := "baseline.json".
Definition TMP : Path := "save.tmp".
Definition NEW : Path := "save.new".
Definition ORPHAN : string := "save.tmp.orphan-".
Definition MARK : string := "current.json.rev-".

Definition generation_name (seq : Z) (rev : option Z) : Path :=
  match rev with
  | Some rev => "gen-" +:+ dec_pad 10 seq +:+ "-r" +:+ dec rev +:+ ".json"
  | None => "gen-" +:+ dec_pad 10 seq +:+ ".json"
  end.

Definition generation_parts (name : string) : option (Z * option Z) :=
  rest ← strip_prefix "gen-" name;
  stem ← strip_suffix ".json" rest;
  match split_once "-r" stem with
  | Some (seq, rev) => seq ← parse_u64 seq; rev ← parse_u64 rev; Some (seq, Some rev)
  | None => seq ← parse_u64 stem; Some (seq, None)
  end.

Definition mark_name (rev : Z) : Path := MARK +:+ dec rev.
Definition mark_rev (name : string) : option Z := strip_prefix MARK name ≫= parse_u64.
Definition orphan_number (name : string) : option Z := strip_prefix ORPHAN name ≫= parse_u32.

(** ** The listing *)

Record Listing := mkListing {
  l_generations : list (Z * Path);
  l_marks : list (Z * Path);
  l_orphans : list (Z * (string * Path));
  l_floor : option Z;
}.

Definition Listing_default : Listing := mkListing [] [] [] None.

(** [Ord] of a pair with a number first. *)
Definition num_le (a b : Z * Path) : Prop := a.1 < b.1 \/ (a.1 = b.1 /\ String.le a.2 b.2).

#[export] Instance num_le_dec : RelDecision num_le.
Proof. intros a b. unfold num_le. apply _. Defined.

Definition orphan_le (a b : Z * (string * Path)) : Prop :=
  a.1 < b.1 \/ (a.1 = b.1 /\ ((a.2.1 <> b.2.1 /\ String.le a.2.1 b.2.1) \/ (a.2.1 = b.2.1 /\ String.le a.2.2 b.2.2))).

#[export] Instance orphan_le_dec : RelDecision orphan_le.
Proof. intros a b. unfold orphan_le. apply _. Defined.

(** [Option::max]: [None] is the least. *)
Definition opt_max (a b : option Z) : option Z :=
  match a, b with
  | Some a, Some b => Some (Z.max a b)
  | Some a, None => Some a
  | None, b => b
  end.

(** A directory entry: its name when it is UTF-8, and its path; or the error
    reading it. *)
Abbreviation Entry := (result IoError (option string * Path)).

Definition list_entry (listed : Listing) (entry : Entry) : result IoError Listing :=
  '(name, path) ← entry;
  Ok (match name with
      | None => listed
      | Some name =>
          match generation_parts name with
          | Some (seq, rev) =>
              mkListing (l_generations listed ++ [(seq, path)]) (l_marks listed) (l_orphans listed)
                (opt_max (l_floor listed) rev)
          | None =>
              match mark_rev name with
              | Some rev =>
                  mkListing (l_generations listed) (l_marks listed ++ [(rev, path)]) (l_orphans listed)
                    (opt_max (l_floor listed) (Some rev))
              | None =>
                  match orphan_number name with
                  | Some n =>
                      mkListing (l_generations listed) (l_marks listed)
                        (l_orphans listed ++ [(n, (name, path))]) (l_floor listed)
                  | None => listed
                  end
              end
          end
      end).

Definition sort_listing (l : Listing) : Listing :=
  mkListing (merge_sort num_le (l_generations l)) (merge_sort num_le (l_marks l))
    (merge_sort orphan_le (l_orphans l)) (l_floor l).

Definition listing (entries : list Entry) : result IoError Listing :=
  sort_listing <$> foldM list_entry Listing_default entries.

(** ** Lemmas *)

#[export] Instance num_le_trans : Transitive num_le.
Proof. intros a b c [?|[? ?]] [?|[? ?]]; unfold num_le; [left; lia..|right]. split; [lia|by etrans]. Qed.

#[export] Instance num_le_total : Total num_le.
Proof.
  intros [a x] [b y]. unfold num_le; cbn. destruct (Z.lt_trichotomy a b) as [?|[->|?]]; [left; by left| |right; left; lia].
  destruct (total String.le x y); [left|right]; by right.
Qed.

#[export] Instance num_le_antisym : AntiSymm (=) num_le.
Proof.
  intros [a x] [b y]. unfold num_le; cbn. intros [?|[-> ?]] [?|[? ?]]; try lia. f_equal. by apply (anti_symm String.le).
Qed.

#[export] Instance orphan_le_trans : Transitive orphan_le.
Proof.
  intros [a [x p]] [b [y q]] [c [z r]]. unfold orphan_le; cbn.
  intros [?|[-> H1]] [?|[-> H2]]; [left; lia..|right]. split; [done|].
  destruct H1 as [[Hn H1]|[-> H1]], H2 as [[Hn' H2]|[-> H2]].
  - left. split; [|by etrans]. intros ->. by apply Hn, (anti_symm String.le).
  - left. by split.
  - left. by split.
  - right. split; [done|by etrans].
Qed.

#[export] Instance orphan_le_total : Total orphan_le.
Proof.
  intros [a [x p]] [b [y q]]. unfold orphan_le; cbn.
  destruct (Z.lt_trichotomy a b) as [?|[->|?]]; [left; by left| |right; left; lia].
  destruct (decide (x = y)) as [->|Hne].
  - destruct (total String.le p q); [left|right]; right; split_and!; try done; by right.
  - destruct (total String.le x y); [left|right]; right; split_and!; try done; by left.
Qed.

#[export] Instance orphan_le_antisym : AntiSymm (=) orphan_le.
Proof.
  intros [a [x p]] [b [y q]]. unfold orphan_le; cbn. intros [?|[-> H1]] [?|[E H2]]; try lia. clear E. f_equal.
  assert (x = y) as ->.
  { destruct H1 as [[_ H1]|[-> _]]; [|done]. destruct H2 as [[_ H2]|[-> _]]; [|done]. by apply (anti_symm String.le). }
  f_equal. destruct H1 as [[? _]|[_ H1]]; [done|]. destruct H2 as [[? _]|[_ H2]]; [done|].
  by apply (anti_symm String.le).
Qed.

Lemma digits_no_dash s : str_forallb is_digit s = true -> str_forallb (fun x => negb (bool_decide (x = "-"%char))) s = true.
Proof.
  induction s as [|c s IH]; cbn; [done|]. intros [Hc Hs]%andb_true_iff. rewrite IH by done.
  rewrite andb_true_r. apply negb_true_iff, bool_decide_eq_false. intros ->. by vm_compute in Hc.
Qed.

Lemma generation_parts_name seq rev :
  u64_ok seq -> (forall r, rev = Some r -> u64_ok r) ->
  generation_parts (generation_name seq rev) = Some (seq, rev).
Proof.
  intros Hs Hr. unfold generation_parts, generation_name, parse_u64. destruct rev as [rev|].
  - rewrite strip_prefix_app. cbn [mbind option_bind].
    replace (dec_pad 10 seq +:+ "-r" +:+ dec rev +:+ ".json") with ((dec_pad 10 seq +:+ "-r" +:+ dec rev) +:+ ".json")
      by by rewrite !str_app_assoc.
    rewrite strip_suffix_app. cbn [mbind option_bind].
    rewrite (split_once_app "-" "r") by apply digits_no_dash, dec_pad_digits.
    rewrite parse_dec_pad by done. cbn [mbind option_bind]. by rewrite parse_dec by (apply Hr; done).
  - rewrite strip_prefix_app. cbn [mbind option_bind]. rewrite strip_suffix_app. cbn [mbind option_bind].
    rewrite (split_once_None "-" "r") by apply digits_no_dash, dec_pad_digits.
    by rewrite parse_dec_pad.
Qed.

Lemma mark_rev_name rev : u64_ok rev -> mark_rev (mark_name rev) = Some rev.
Proof. intros Hr. unfold mark_rev, mark_name. rewrite strip_prefix_app. by apply parse_dec. Qed.

(** The entries of a directory whose files are [names]. *)
Definition entry (name : Path) : Entry := Ok (Some name, name).

Definition gen_entry (name : Path) : option (Z * Path) := (fun p => (p.1, name)) <$> generation_parts name.
Definition mark_entry (name : Path) : option (Z * Path) :=
  match generation_parts name with Some _ => None | None => (fun r => (r, name)) <$> mark_rev name end.
Definition orphan_entry (name : Path) : option (Z * (string * Path)) :=
  match generation_parts name, mark_rev name with
  | None, None => (fun n => (n, (name, name))) <$> orphan_number name
  | _, _ => None
  end.

(** The revision a name shows. *)
Definition shown_rev (name : Path) : option Z :=
  match generation_parts name with Some (_, rev) => rev | None => mark_rev name end.

Definition gens_of (names : list Path) : list (Z * Path) := merge_sort num_le (omap gen_entry names).
Definition marks_of (names : list Path) : list (Z * Path) := merge_sort num_le (omap mark_entry names).

Lemma opt_max_none_r a : opt_max a None = a.
Proof. by destruct a. Qed.

Lemma list_entries_fold names : forall L,
  foldM list_entry L (entry <$> names)
  = Ok (mkListing (l_generations L ++ omap gen_entry names) (l_marks L ++ omap mark_entry names)
          (l_orphans L ++ omap orphan_entry names) (foldl opt_max (l_floor L) (shown_rev <$> names))).
Proof.
  induction names as [|n names IH]; intros L; [cbn; rewrite !app_nil_r; by destruct L|].
  cbn -[generation_parts mark_rev orphan_number]. unfold gen_entry, mark_entry, orphan_entry, shown_rev.
  destruct (generation_parts n) as [[seq rev]|] eqn:Hg; cbn -[generation_parts mark_rev orphan_number].
  { rewrite IH. cbn. by rewrite <-app_assoc. }
  destruct (mark_rev n) as [r|] eqn:Hm; cbn -[generation_parts mark_rev orphan_number].
  { rewrite IH. cbn. by rewrite <-app_assoc. }
  destruct (orphan_number n) as [k|] eqn:Ho; cbn -[generation_parts mark_rev orphan_number];
    rewrite IH, ?opt_max_none_r; cbn; by rewrite <-?app_assoc.
Qed.

Lemma listing_names names :
  listing (entry <$> names)
  = Ok (mkListing (gens_of names) (marks_of names) (merge_sort orphan_le (omap orphan_entry names))
          (foldl opt_max None (shown_rev <$> names))).
Proof. unfold listing. by rewrite list_entries_fold. Qed.

(** An entry that could not be read fails the listing. *)
Lemma listing_bad_entry pre post e :
  (forall x, x ∈ pre -> is_ok x = true) -> listing (pre ++ Err e :: post) = Err e.
Proof.
  intros Hpre. unfold listing. rewrite foldM_app.
  assert (exists L, foldM list_entry Listing_default pre = Ok L) as [L ->]; [|done].
  generalize Listing_default. induction pre as [|x pre IH]; intros L; cbn; [by eexists|].
  pose proof (Hpre x ltac:(by left)) as Hx. destruct x as [[name path]|]; [|done]. cbn.
  apply IH. intros y Hy. apply Hpre. by right.
Qed.

(** [merge_sort] of a permuted list is the same list. *)
Lemma merge_sort_perm {A : Type} (R : relation A) `{!RelDecision R, !Transitive R, !Total R, !AntiSymm (=) R} l1 l2 :
  l1 ≡ₚ l2 -> merge_sort R l1 = merge_sort R l2.
Proof.
  intros Hp. apply (StronglySorted_unique R).
  - by apply (StronglySorted_merge_sort R).
  - by apply (StronglySorted_merge_sort R).
  - by rewrite !merge_sort_Permutation.
Qed.

Lemma opt_max_comm a b c : opt_max (opt_max a b) c = opt_max (opt_max a c) b.
Proof. destruct a, b, c; cbn; f_equal; lia. Qed.

Lemma foldl_opt_max_perm l1 l2 a : l1 ≡ₚ l2 -> foldl opt_max a l1 = foldl opt_max a l2.
Proof.
  intros Hp. revert a. induction Hp as [|x l1 l2 _ IH|x y l|l1 l2 l3 _ IH1 _ IH2]; intros a; cbn; [done|apply IH| |].
  - by rewrite opt_max_comm.
  - by rewrite IH1.
Qed.

(** The floor is the highest revision any name shows. *)
Lemma foldl_opt_max_ge l a r :
  a = Some r \/ Some r ∈ l -> exists f, foldl opt_max a l = Some f /\ r <= f.
Proof.
  revert a r. induction l as [|x l IH]; intros a r; cbn.
  - intros [->|?%not_elem_of_nil]; [by exists r|done].
  - intros H.
    assert (exists r', (opt_max a x = Some r' \/ Some r' ∈ l) /\ r <= r') as (r' & H' & Hle).
    { rewrite elem_of_cons in H. destruct H as [->|[<-|H]]; [| |by exists r; split; [right|]].
      - destruct x as [x|]; cbn; eexists; (split; [by left|]); lia.
      - destruct a as [a|]; cbn; eexists; (split; [by left|]); lia. }
    destruct (IH _ _ H') as (f & ? & ?). exists f. split; [done|lia].
Qed.

Lemma foldl_opt_max_in l a f : foldl opt_max a l = Some f -> a = Some f \/ Some f ∈ l.
Proof.
  revert a. induction l as [|x l IH]; intros a; cbn; [by left|].
  intros [H|H]%IH; [|right; by right].
  destruct a as [a|], x as [x|]; cbn in H; simplify_eq; [|by left|right; by left].
  destruct (Z.max_spec a x) as [[_ E]|[_ E]]; rewrite E; [right; by left|by left].
Qed.

(** ** Properties *)

(** What a save writes into a name is what a listing reads out of it: a
    generation's name gives back its number and revision (or the missing
    revision), a marker's name its revision, for every 64-bit number. *)
Theorem names_roundtrip seq rev :
  u64_ok seq -> u64_ok rev ->
  generation_parts (generation_name seq (Some rev)) = Some (seq, Some rev)
  /\ generation_parts (generation_name seq None) = Some (seq, None)
  /\ mark_rev (mark_name rev) = Some rev.
Proof.
  intros Hs Hr. split_and!.
  - apply generation_parts_name; [done|]. by intros r [= <-].
  - by apply generation_parts_name.
  - by apply mark_rev_name.
Qed.

Lemma names_roundtrip_witness :
  generation_parts (generation_name 7 (Some 9)) = Some (7, Some 9) /\ generation_name 7 (Some 9) = "gen-0000000007-r9.json".
Proof. split; [apply (names_roundtrip 7 9); by vm_compute|by vm_compute]. Defined.

(** A listing depends on which files there are, never on the order the
    system gives them in: generations, markers and orphans come sorted, and
    the floor is a revision some name shows, at least every revision shown. *)
Theorem listing_order_independent names names' :
  names ≡ₚ names' ->
  listing (entry <$> names) = listing (entry <$> names')
  /\ exists L, listing (entry <$> names) = Ok L
     /\ (forall n r, n ∈ names -> shown_rev n = Some r -> exists f, l_floor L = Some f /\ r <= f)
     /\ (forall f, l_floor L = Some f -> exists n, n ∈ names' /\ shown_rev n = Some f).
Proof.
  intros Hp. split.
  - rewrite !listing_names. do 2 f_equal; unfold gens_of, marks_of.
    + apply (merge_sort_perm num_le). by rewrite Hp.
    + apply (merge_sort_perm num_le). by rewrite Hp.
    + apply (merge_sort_perm orphan_le). by rewrite Hp.
    + apply foldl_opt_max_perm. by rewrite Hp.
  - eexists. split; [apply listing_names|]. cbn. split.
    + intros n r Hn Hr. apply foldl_opt_max_ge. right. apply list_elem_of_fmap. by exists n.
    + intros f [?|Hf]%foldl_opt_max_in; [done|]. apply list_elem_of_fmap in Hf as (n & Hn & Hin).
      exists n. by rewrite <-Hp.
Qed.

Lemma listing_order_independent_witness :
  listing (entry <$> ["gen-0000000003-r50.json"; "current.json.rev-60"; "gen-0000000001.json"])
  = listing (entry <$> ["gen-0000000001.json"; "gen-0000000003-r50.json"; "current.json.rev-60"]).
Proof.
  apply (listing_order_independent ["gen-0000000003-r50.json"; "current.json.rev-60"; "gen-0000000001.json"]
           ["gen-0000000001.json"; "gen-0000000003-r50.json"; "current.json.rev-60"]).
  by apply (bool_decide_unpack _); vm_compute.
Defined.

(** * File operations that can fail or be cut off ([persist/files.rs])

    The state directory is a map from file names to contents.  Every operation
    of [Files] takes the next element of a fault script: it is carried out
    ([Go], and past the script's end), fails (a failed write may leave a part
    of the file written), or the process ends there ([Crash], again possibly
    mid-write); a listing may hold an entry that cannot be read ([BadEntry]).
    A crash is a process crash: what the operations before it did stays. *)

From S2P Require Import Prelude Text.
From stdpp Require Import options.

Inductive fault :=
| Go
| Fail (e : IoError) (part : option nat)
| BadEntry (e : IoError) (at_ : nat)
| Crash (part : option nat).

Abbreviation Dir := (gmap Path string).

(** The directory, the store's [tmp_own] flag, the faults to come, and how
    often a read paused. *)
Record World := mkWorld {
  w_files : Dir;
  w_own : bool;
  w_script : list fault;
  w_pauses : nat;
}.

Inductive Outcome (A : Type) :=
| ODone (w : World) (r : result IoError A)
| OCrash (w : World).
Arguments ODone {A} w r.
Arguments OCrash {A} w.

Definition IoM (A : Type) : Type := World -> Outcome A.

#[export] Instance IoM_ret : MRet IoM := fun A a w => ODone w (Ok a).
#[export] Instance IoM_bind : MBind IoM := fun A B f m w =>
  match m w with
  | ODone w (Ok a) => f a w
  | ODone w (Err e) => ODone w (Err e)
  | OCrash w => OCrash w
  end.

Definition io_lift {A : Type} (r : result IoError A) : IoM A := fun w => ODone w r.
(** A call whose error is a value for the caller, not an early return. *)
Definition attempt {A : Type} (m : IoM A) : IoM (result IoError A) := fun w =>
  match m w with ODone w r => ODone w (Ok r) | OCrash w => OCrash w end.
(** [Result::map_err] *)
Definition io_map_err {A : Type} (f : IoError -> IoError) (m : IoM A) : IoM A := fun w =>
  match m w with
  | ODone w (Err e) => ODone w (Err (f e))
  | o => o
  end.

Definition get_own : IoM bool := fun w => ODone w (Ok (w_own w)).
Definition set_own (b : bool) : IoM unit := fun w =>
  ODone (mkWorld (w_files w) b (w_script w) (w_pauses w)) (Ok tt).

Definition set_files (d : Dir) (s : list fault) (w : World) : World :=
  mkWorld d (w_own w) s (w_pauses w).

(** One operation: what it does when carried out, and what a failure or a
    crash part-way leaves. *)
Definition io_op {A : Type} (go : Dir -> result IoError (Dir * A)) (part : nat -> Dir -> Dir) : IoM A := fun w =>
  let d := w_files w in
  let left p := match p with Some n => part n d | None => d end in
  let run s :=
    match go d with
    | Ok (d', a) => ODone (set_files d' s w) (Ok a)
    | Err e => ODone (set_files d s w) (Err e)
    end in
  match w_script w with
  | [] => run []
  | Go :: s | BadEntry _ _ :: s => run s
  | Fail e p :: s => ODone (set_files (left p) s w) (Err e)
  | Crash p :: s => OCrash (set_files (left p) s w)
  end.

Definition no_part (n : nat) (d : Dir) : Dir := d.

Definition not_found : IoError := mkIoError NotFound "entity not found" [].

(** ** The operations *)

Definition fs_read (path : Path) : IoM string :=
  io_op (fun d => match d !! path with Some b => Ok (d, b) | None => Err not_found end) no_part.

Definition fs_write (path : Path) (bytes : string) : IoM unit :=
  io_op (fun d => Ok (<[path := bytes]> d, tt)) (fun n d => <[path := str_take n bytes]> d).

Definition fs_sync_file (path : Path) : IoM unit :=
  io_op (fun d => match d !! path with Some _ => Ok (d, tt) | None => Err not_found end) no_part.

Definition fs_rename (from to : Path) : IoM unit :=
  io_op (fun d => match d !! from with
                  | Some b => Ok (<[to := b]> (delete from d), tt)
                  | None => Err not_found
                  end) no_part.

Definition fs_remove (path : Path) : IoM unit :=
  io_op (fun d => match d !! path with Some _ => Ok (delete path d, tt) | None => Err not_found end) no_part.

Definition fs_exists (path : Path) : IoM bool :=
  io_op (fun d => Ok (d, bool_decide (is_Some (d !! path)))) no_part.

Definition fs_sync_dir : IoM unit := io_op (fun d => Ok (d, tt)) no_part.

Definition dir_names (d : Dir) : list Path := (map_to_list d).*1.

Definition fs_list : IoM (list Entry) := fun w =>
  let entries := entry <$> dir_names (w_files w) in
  match w_script w with
  | BadEntry e n :: s => ODone (set_files (w_files w) s w) (Ok (take n entries ++ Err e :: drop n entries))
  | _ => io_op (fun d => Ok (d, entry <$> dir_names d)) no_part w
  end.

Definition fs_pause : IoM unit := fun w =>
  ODone (mkWorld (w_files w) (w_own w) (w_script w) (S (w_pauses w))) (Ok tt).

(** ** Reasoning about computations that may crash

    [io_spec P m Q C]: from a directory and flag that satisfy [P], whatever
    the faults, [m] ends with [Q] of its result, or crashes with a directory
    that satisfies [C]. *)

Definition io_spec {A : Type} (P : Dir -> bool -> Prop) (m : IoM A)
    (Q : result IoError A -> Dir -> bool -> Prop) (C : Dir -> Prop) : Prop :=
  forall w, P (w_files w) (w_own w) ->
    match m w with
    | ODone w' r => Q r (w_files w') (w_own w')
    | OCrash w' => C (w_files w')
    end.

Lemma spec_ret {A : Type} (P : Dir -> bool -> Prop) (a : A) (Q : result IoError A -> Dir -> bool -> Prop) C :
  (forall d o, P d o -> Q (Ok a) d o) -> io_spec P (mret a) Q C.
Proof. intros HQ w Hp. by apply HQ. Qed.

Lemma spec_bind {A B : Type} P (m : IoM A) (f : A -> IoM B) R Q (C : Dir -> Prop) :
  io_spec P m R C ->
  (forall a, io_spec (R (Ok a)) (f a) Q C) ->
  (forall e d o, R (Err e) d o -> Q (Err e) d o) ->
  io_spec P (m ≫= f) Q C.
Proof.
  intros Hm Hf He w Hp. unfold mbind, IoM_bind. specialize (Hm w Hp).
  destruct (m w) as [w' [a|e]|w']; [by apply Hf|by apply He|done].
Qed.

Lemma spec_conseq {A : Type} P P' (m : IoM A) Q Q' (C C' : Dir -> Prop) :
  io_spec P m Q C -> (forall d o, P' d o -> P d o) -> (forall r d o, Q r d o -> Q' r d o) ->
  (forall d, C d -> C' d) -> io_spec P' m Q' C'.
Proof.
  intros Hm HP HQ HC w Hw. specialize (Hm w (HP _ _ Hw)). destruct (m w); auto.
Qed.

(** What a precondition says of no directory may be used at once. *)
Lemma spec_pure {A : Type} (F : Prop) P (m : IoM A) Q C :
  (forall d o, P d o -> F) -> (F -> io_spec P m Q C) -> io_spec P m Q C.
Proof. intros HF Hm w Hp. exact (Hm (HF _ _ Hp) w Hp). Qed.

(** An operation: done, not done, or cut part-way. *)
Lemma spec_op {A : Type} (go : Dir -> result IoError (Dir * A)) part (P : Dir -> bool -> Prop) Q (C : Dir -> Prop) :
  (forall d o, P d o ->
     (match go d with Ok (d', a) => Q (Ok a) d' o | Err e => Q (Err e) d o end)
     /\ (forall e, Q (Err e) d o) /\ (forall e n, Q (Err e) (part n d) o)
     /\ C d /\ (forall n, C (part n d))) ->
  io_spec P (io_op go part) Q C.
Proof.
  intros H w Hp. unfold io_op. destruct (H _ _ Hp) as (Hgo & H1 & H2 & H3 & H4).
  destruct (w_script w) as [|[|e [n|]|e n|[n|]] s]; cbn; auto;
    destruct (go (w_files w)) as [[d' a]|e']; cbn; auto.
Qed.

(** The same for an operation that is all or nothing. *)
Lemma spec_atomic {A : Type} (go : Dir -> result IoError (Dir * A)) (P : Dir -> bool -> Prop) Q (C : Dir -> Prop) :
  (forall d o, P d o ->
     (match go d with Ok (d', a) => Q (Ok a) d' o | Err e => Q (Err e) d o end)
     /\ (forall e, Q (Err e) d o) /\ C d) ->
  io_spec P (io_op go no_part) Q C.
Proof. intros H. apply spec_op. intros d o Hp. destruct (H d o Hp) as (?&?&?). by split_and!. Qed.

Lemma spec_attempt {A : Type} P (m : IoM A) Q C :
  io_spec P m Q C -> io_spec P (attempt m) (fun r d o => exists r', r = Ok r' /\ Q r' d o) C.
Proof. intros Hm w Hp. specialize (Hm w Hp). unfold attempt. destruct (m w); eauto. Qed.

Lemma spec_map_err {A : Type} P (m : IoM A) f (Q : result IoError A -> Dir -> bool -> Prop) C :
  io_spec P m (fun r d o => Q (match r with Ok a => Ok a | Err e => Err (f e) end) d o) C ->
  io_spec P (io_map_err f m) Q C.
Proof. intros Hm w Hp. specialize (Hm w Hp). unfold io_map_err. by destruct (m w) as [w' [|]|]. Qed.

Lemma spec_lift {A : Type} (P : Dir -> bool -> Prop) (r : result IoError A) C :
  io_spec P (io_lift r) (fun r' d o => r' = r /\ P d o) C.
Proof. intros w Hp. by split. Qed.
