(* ===== verification/Codec.v ===== *)
(** * State files ([persist.rs]: [Persisted], [encode], [decode])

    A state file is [{format, schema, sha256, payload}].  serde_json and
    SHA-256 are parameters ([Json], [Sha256]); what the development uses of
    them is [json_ok p]: the texts they make for [p] parse back.  serde_json
    round trips every finite [f64], which is all a reconciled state holds. *)

From S2P Require Import Prelude F64 Text MixState Disk.
From stdpp Require Import options.
Local Open Scope Z_scope.

Definition FORMAT : string := "iemmixer-state".

Record Persisted := mkPersisted {
  pe_rev : Z;
  pe_topology_hash : string;
  pe_saved_unix_ms : Z;
  pe_state : MixState;
  pe_counters : gmap MixId Z;
}.

Definition Persisted_default : Persisted := mkPersisted 0 "" 0 MixState_default ∅.

(** [FileOut] and [FileIn]: what a state file holds, the payload as raw text. *)
Record StateFile := mkStateFile {
  f_format : string;
  f_schema : Z;
  f_sha256 : string;
  f_payload : string;
}.

(** serde_json: serialising and parsing the payload and the file. *)
Class Json := {
  persisted_json : Persisted -> result IoError string;
  persisted_of_json : string -> result string Persisted;
  raw_value : string -> result IoError string;
  file_json : StateFile -> result IoError string;
  file_of_json : string -> result string StateFile;
}.

(** SHA-256 of a text. *)
Class Sha256 := sha256 : string -> list Z.

Inductive DecodeError :=
| NotStateFile (e : string)
| WrongFormat (format : string)
| OldSchema (schema : Z)
| ChecksumMismatch
| BadPayload (e : string).

Definition map_err {E E' A : Type} (f : E -> E') (r : result E A) : result E' A :=
  match r with Ok a => Ok a | Err e => Err (f e) end.

Section codec.
Context `{Json, Sha256}.

Definition digest (text : string) : string := hex (sha256 text).

Definition encode (p : Persisted) : result IoError string :=
  text ← persisted_json p;
  payload ← raw_value text;
  file_json (mkStateFile FORMAT SCHEMA (digest payload) payload).

Definition decode (bytes : string) : result DecodeError Persisted :=
  file ← map_err NotStateFile (file_of_json bytes);
  if negb (String.eqb (f_format file) FORMAT) then Err (WrongFormat (f_format file))
  else if f_schema file <? SCHEMA then Err (OldSchema (f_schema file))
  else if negb (String.eqb (digest (f_payload file)) (f_sha256 file)) then Err ChecksumMismatch
  else map_err BadPayload (persisted_of_json (f_payload file)).

(** The serialised texts of [p] parse back to what was serialised. *)
Definition json_ok (p : Persisted) : Prop :=
  exists text bytes,
    persisted_json p = Ok text /\ raw_value text = Ok text /\ persisted_of_json text = Ok p
    /\ file_json (mkStateFile FORMAT SCHEMA (digest text) text) = Ok bytes
    /\ file_of_json bytes = Ok (mkStateFile FORMAT SCHEMA (digest text) text).

Lemma encode_decode p : json_ok p -> exists bytes, encode p = Ok bytes /\ decode bytes = Ok p.
Proof.
  intros (text & bytes & H1 & H2 & H3 & H4 & H5). exists bytes.
  unfold encode, decode. rewrite H1. cbn. rewrite H2. cbn. rewrite H4, H5. split; [done|]. cbn.
  rewrite !String.eqb_refl. cbn. by rewrite H3.
Qed.
End codec.

(** ** A small concrete codec for the witnesses

    It keeps the revision only, so [json_ok] holds for states that are default
    but for it. *)

#[export] Instance demo_sha : Sha256 := fun text => [Z.of_nat (slen text) mod 256].

#[export] Instance demo_json : Json := {|
  persisted_json p := Ok (dec (pe_rev p));
  persisted_of_json t :=
    match parse_u64 t with
    | Some rev => Ok (mkPersisted rev "" 0 MixState_default ∅)
    | None => Err "not a number"
    end;
  raw_value t := Ok t;
  file_json f := Ok (f_format f +:+ "|" +:+ dec (f_schema f) +:+ "|" +:+ f_sha256 f +:+ "|" +:+ f_payload f);
  file_of_json t :=
    match split_once "|" t with
    | Some (format, t) =>
        match split_once "|" t with
        | Some (schema, t) =>
            match split_once "|" t, parse_u32 schema with
            | Some (sha, payload), Some schema => Ok (mkStateFile format schema sha payload)
            | _, _ => Err "no checksum"
            end
        | None => Err "no schema"
        end
    | None => Err "no format"
    end;
|}.

Definition demo_persisted (rev : Z) : Persisted := mkPersisted rev "" 0 MixState_default ∅.

Lemma demo_json_ok_5 : json_ok (demo_persisted 5).
Proof. eexists _, _. split_and!; [by vm_compute..|]. by vm_compute. Qed.

Lemma demo_json_ok_6 : json_ok (demo_persisted 6).
Proof. eexists _, _. split_and!; [by vm_compute..|]. by vm_compute. Qed.

(** ** Properties *)

(** A saved state is read back exactly: what [encode] writes, [decode]
    accepts and gives back. *)
Theorem encode_decode_roundtrip `{Json, Sha256} p :
  json_ok p -> exists bytes, encode p = Ok bytes /\ decode bytes = Ok p.
Proof. apply encode_decode. Qed.

Lemma encode_decode_roundtrip_witness :
  exists bytes, encode (demo_persisted 5) = Ok bytes /\ decode bytes = Ok (demo_persisted 5).
Proof. apply (encode_decode_roundtrip (demo_persisted 5)), demo_json_ok_5. Defined.

(** [decode] accepts exactly the files that parse, name this format, are
    of this schema or a newer one, carry the SHA-256 of their payload, and whose
    payload parses; any other file is refused with the reason of the first
    check that fails. *)
Theorem decode_accepts `{Json, Sha256} bytes p :
  (decode bytes = Ok p <->
     exists f, file_of_json bytes = Ok f /\ f_format f = FORMAT /\ SCHEMA <= f_schema f
       /\ digest (f_payload f) = f_sha256 f /\ persisted_of_json (f_payload f) = Ok p)
  /\ (forall f, file_of_json bytes = Ok f -> f_format f = FORMAT -> f_schema f < SCHEMA ->
        decode bytes = Err (OldSchema (f_schema f)))
  /\ (forall f, file_of_json bytes = Ok f -> f_format f = FORMAT -> SCHEMA <= f_schema f ->
        digest (f_payload f) <> f_sha256 f -> decode bytes = Err ChecksumMismatch).
Proof.
  unfold decode. split_and!.
  - split.
    + intros Hd. apply bind_ok in Hd as (f & Hf & Hd). exists f.
      destruct (file_of_json bytes) as [f'|]; cbn in Hf; [|done]. injection Hf as ->.
      destruct (String.eqb_spec (f_format f) FORMAT); cbn in Hd; [|done].
      destruct (Z.ltb_spec (f_schema f) SCHEMA); [done|].
      destruct (String.eqb_spec (digest (f_payload f)) (f_sha256 f)); cbn in Hd; [|done].
      destruct (persisted_of_json (f_payload f)); cbn in Hd; [|done]. injection Hd as ->. by split_and!.
    + intros (f & -> & Hfmt & Hs & Hd & Hp). cbn. rewrite Hfmt, Hd, Hp, !String.eqb_refl. cbn.
      by destruct (Z.ltb_spec (f_schema f) SCHEMA); [lia|].
  - intros f -> Hfmt Hs. cbn. rewrite Hfmt, String.eqb_refl. cbn.
    by destruct (Z.ltb_spec (f_schema f) SCHEMA); [|lia].
  - intros f -> Hfmt Hs Hd. cbn. rewrite Hfmt, String.eqb_refl. cbn.
    destruct (Z.ltb_spec (f_schema f) SCHEMA); [lia|].
    by destruct (String.eqb_spec (digest (f_payload f)) (f_sha256 f)).
Qed.

Lemma decode_accepts_witness :
  decode "iemmixer-state|1|00|5" = Err (OldSchema 1).
Proof.
  destruct (decode_accepts "iemmixer-state|1|00|5" (demo_persisted 5)) as (_ & H & _).
  apply (H (mkStateFile "iemmixer-state" 1 "00" "5")); by vm_compute.
Defined.
