(* ===== verification/Store.v ===== *)
(** * Saving ([persist.rs]: [Store], [SaveSchedule]; [persist/chain.rs]:
    [orphan_tmp], [move_aside])

    The save protocol as the code runs it, operation by operation, and the
    schedule that decides when a save is due. *)

From S2P Require Import Prelude Text MixState Disk Codec.
From stdpp Require Import options.
Local Open Scope Z_scope.

(** Names tried for a file moved aside. *)
Definition QUARANTINE_NAMES : nat := 1000.

Definition aside_name (name : Path) (tag : string) (n : nat) : Path :=
  name +:+ "." +:+ tag +:+ "-" +:+ dec (Z.of_nat n).

Record Committed := mkCommitted {
  cm_generation : Z;
  cm_pruning : option IoError;
  cm_orphaned : option Path;
}.

Definition naming_orphan (orphaned : option Path) (e : IoError) : IoError :=
  match orphaned with Some aside => add_note (NMovedAside aside) e | None => e end.

(** ** Directory operations *)

Definition write_synced (path : Path) (bytes : string) : IoM unit :=
  _ ← fs_write path bytes;
  fs_sync_file path.

Definition store_list : IoM Listing :=
  entries ← fs_list;
  io_lift (listing entries).

Definition generations : IoM (list (Z * Path)) :=
  listed ← store_list;
  mret (l_generations listed).

(** Renames [path] to the first free [<path>.<tag>-<n>] among [ns]: where it
    went, and how the directory sync after it went. *)
Fixpoint move_aside_from (ns : list nat) (path : Path) (tag : string) : IoM (Path * result IoError unit) :=
  match ns with
  | [] => io_lift (Err (mkIoError OtherKind ("copies of " +:+ path +:+ " are aside already") []))
  | n :: ns =>
      let aside := aside_name path tag n in
      taken ← fs_exists aside;
      if taken : bool then move_aside_from ns path tag
      else
        _ ← fs_rename path aside;
        synced ← attempt fs_sync_dir;
        mret (aside, synced)
  end.

Definition move_aside (path : Path) (tag : string) : IoM (Path * result IoError unit) :=
  move_aside_from (seq 1 QUARANTINE_NAMES) path tag.

(** Moves a [save.tmp] that is not this store's own aside. *)
Definition orphan_tmp : IoM (option Path) :=
  own ← get_own;
  if own : bool then mret None
  else
    there ← fs_exists TMP;
    if negb there then mret None
    else
      '(aside, synced) ← move_aside TMP "orphan";
      _ ← io_lift (map_err (add_note (NSyncAfterAside aside)) synced);
      mret (Some aside).

(** Renames the marker [old] to show [rev], or creates it. *)
Definition mark (old : option Path) (rev : Z) : IoM unit :=
  let new := mark_name rev in
  match old with
  | Some old => if decide (old = new) then mret tt else fs_rename old new
  | None => fs_write new ""
  end.

Fixpoint remove_all (paths : list Path) : IoM unit :=
  match paths with
  | [] => mret tt
  | path :: paths => _ ← fs_remove path; remove_all paths
  end.

(** Removes the oldest generations beyond [GENERATIONS]. *)
Definition prune : IoM unit :=
  gens ← generations;
  let excess := (length gens - GENERATIONS)%nat in
  remove_all (take excess gens).*2.

(** [listed.generations.last().map_or(0, |g| g.0) + 1] *)
Definition next_seq (gens : list (Z * Path)) : Z :=
  u64_wrapping_add (match last gens with Some g => g.1 | None => 0 end) 1.

(** [current.json] becomes the newest generation, if it exists. *)
Definition rotate (listed : Listing) : IoM Z :=
  there ← fs_exists CURRENT;
  if there : bool
  then
    let generation := next_seq (l_generations listed) in
    _ ← fs_rename CURRENT (generation_name generation (fst <$> last (l_marks listed)));
    mret generation
  else mret 0.

(** The renames that end a save of revision [rev]. *)
Definition commit_tmp (rev : Z) : IoM Committed :=
  listed ← store_list;
  generation ← rotate listed;
  _ ← mark (snd <$> last (l_marks listed)) rev;
  _ ← fs_rename TMP CURRENT;
  _ ← fs_sync_dir;
  pruned ← attempt prune;
  mret (mkCommitted generation (match pruned with Err e => Some e | Ok _ => None end) None).

Section save.
Context `{Json, Sha256}.

Definition save (p : Persisted) : IoM Committed :=
  bytes ← io_lift (encode p);
  _ ← write_synced NEW bytes;
  orphaned ← orphan_tmp;
  _ ← io_map_err (naming_orphan orphaned) (fs_rename NEW TMP);
  _ ← set_own true;
  committed ← io_map_err (naming_orphan orphaned) (commit_tmp (pe_rev p));
  mret (mkCommitted (cm_generation committed) (cm_pruning committed) orphaned).
End save.

(** ** The lock *)

Definition LOCK_POLL : Z := 100.

(** [lock_within]: [tries] answers of the operating system, the last one after
    the loop; the result and how often it slept. *)
Fixpoint lock_poll (tries : nat) (lock : nat -> result IoError unit) (at_ : nat) : result IoError unit * nat :=
  match tries with
  | O => (lock at_, 0%nat)
  | S tries =>
      match lock at_ with
      | Err e => if decide (e_kind e = WouldBlock)
                 then let '(r, slept) := lock_poll tries lock (S at_) in (r, S slept)
                 else (Err e, 0%nat)
      | Ok u => (Ok u, 0%nat)
      end
  end.

Definition lock_within (wait_ms : Z) (lock : nat -> result IoError unit) : result IoError unit * nat :=
  lock_poll (Z.to_nat (wait_ms / LOCK_POLL)) lock 0.

(** ** The schedule: times in nanoseconds *)

Record SaveSchedule := mkSaveSchedule { ss_first : option Z; ss_last : option Z }.

Definition SaveSchedule_default : SaveSchedule := mkSaveSchedule None None.

Definition QUIET : Z := 1000000000.
Definition MAX_DELAY : Z := 5000000000.

Definition changed (now : Z) (s : SaveSchedule) : SaveSchedule :=
  mkSaveSchedule (Some (match ss_first s with Some f => f | None => now end)) (Some now).

Definition pending (s : SaveSchedule) : bool := bool_decide (is_Some (ss_first s)).

(** [now.saturating_duration_since(t)] *)
Definition since (now t : Z) : Z := Z.max 0 (now - t).

Definition due (now : Z) (s : SaveSchedule) : bool :=
  match ss_first s, ss_last s with
  | Some first, Some last => (QUIET <=? since now last) || (MAX_DELAY <=? since now first)
  | _, _ => false
  end.

Definition saved (s : SaveSchedule) : SaveSchedule := SaveSchedule_default.
