(* ===== verification/Chain.v ===== *)
(** * The load chain and the boot's recovery ([persist/chain.rs])

    Which file holds the state, what a load reports about the others, and how
    the boot normalizes the directory to what was loaded.  The texts of alarms
    and reasons are values that name what they say. *)

From S2P Require Import Prelude Text MixState Msg Shape Topology Reconciled Disk Codec Store.
From stdpp Require Import options.
Local Open Scope Z_scope.

Definition REV_JUMP : Z := 1000000.
Definition READ_TRIES : nat := 5.
Definition READ_PAUSES : nat := 10.

(** Whether a read that failed may succeed when tried again. *)
Definition transient_error (e : IoError) : bool :=
  match e_kind e with Interrupted | WouldBlock | TimedOut => true | _ => false end.

(** ** Data *)

Inductive Source := SCurrent | SInterrupted | SGeneration (seq : Z) | SBaseline | SDefaults.

#[export] Instance Source_eq_dec : EqDecision Source.
Proof. solve_decision. Defined.

Inductive FileState := FsMissing | FsUnreadable | FsDamaged | FsValid.

#[export] Instance FileState_eq_dec : EqDecision FileState.
Proof. solve_decision. Defined.

Inductive Reading := Tolerant | Strict.

Inductive Read := RdMissing | RdUnreadable | RdDamaged | RdValid (p : Persisted).

Definition read_file_state (r : Read) : FileState :=
  match r with
  | RdMissing => FsMissing
  | RdUnreadable => FsUnreadable
  | RdDamaged => FsDamaged
  | RdValid _ => FsValid
  end.

(** Why a file that exists is not used. *)
Inductive Reason :=
| WhyIo (e : IoError)
| WhyDecode (e : DecodeError)
| WhyNotNewer (rev : Z) (than : Source) (other : Z)
| WhyUnlisted (e : IoError).

Inductive Alarm :=
| AlCannotRead (name : Path) (e : IoError)
| AlTmpOlder (rev : Z) (than : Source) (other : Z)
| AlTmpUncompared (e : IoError)
| AlNamesUnlisted (e : IoError)
| AlContinues (names : list Path) (rev : Z) (floor : option Z)
| AlOrphansUnlisted (e : IoError)
| AlOrphanAbove (name : Path) (rev own : Z)
| AlOrphanUnreadable (name : Path) (e : IoError).

(** What a pick gathers besides its choice. *)
Record Pick := mkPick {
  pk_rejected : list (Path * Reason);
  pk_alarms : list Alarm;
  pk_current_json : FileState;
  pk_save_tmp : FileState;
  pk_passed_over : list Path;
  pk_paused : nat;
}.

Definition Pick_default : Pick := mkPick [] [] FsMissing FsMissing [] 0.

Definition reject (path : Path) (why : Reason) (k : Pick) : Pick :=
  mkPick (pk_rejected k ++ [(path, why)]) (pk_alarms k) (pk_current_json k) (pk_save_tmp k) (pk_passed_over k) (pk_paused k).
Definition alarm (a : Alarm) (k : Pick) : Pick :=
  mkPick (pk_rejected k) (pk_alarms k ++ [a]) (pk_current_json k) (pk_save_tmp k) (pk_passed_over k) (pk_paused k).
Definition pass_over (path : Path) (k : Pick) : Pick :=
  mkPick (pk_rejected k) (pk_alarms k) (pk_current_json k) (pk_save_tmp k) (pk_passed_over k ++ [path]) (pk_paused k).
Definition found_current (s : FileState) (k : Pick) : Pick :=
  mkPick (pk_rejected k) (pk_alarms k) s (pk_save_tmp k) (pk_passed_over k) (pk_paused k).
Definition found_tmp (s : FileState) (k : Pick) : Pick :=
  mkPick (pk_rejected k) (pk_alarms k) (pk_current_json k) s (pk_passed_over k) (pk_paused k).
Definition set_paused (n : nat) (k : Pick) : Pick :=
  mkPick (pk_rejected k) (pk_alarms k) (pk_current_json k) (pk_save_tmp k) (pk_passed_over k) n.

Record Loaded := mkLoaded {
  ld_persisted : Persisted;
  ld_source : Source;
  ld_rejected : list (Path * Reason);
  ld_dropped : list string;
  ld_alarms : list Alarm;
  ld_current_json : FileState;
  ld_save_tmp : FileState;
}.

Definition with_rev (rev : Z) (p : Persisted) : Persisted :=
  mkPersisted rev (pe_topology_hash p) (pe_saved_unix_ms p) (pe_state p) (pe_counters p).
Definition with_state (s : MixState) (p : Persisted) : Persisted :=
  mkPersisted (pe_rev p) (pe_topology_hash p) (pe_saved_unix_ms p) s (pe_counters p).

Definition add_alarms (als : list Alarm) (l : Loaded) : Loaded :=
  mkLoaded (ld_persisted l) (ld_source l) (ld_rejected l) (ld_dropped l) (ld_alarms l ++ als)
    (ld_current_json l) (ld_save_tmp l).

(** ** The monad of a pick: file operations with the [Pick] at hand

    A method on [&mut Pick] that returns an error keeps what it gathered. *)

Definition PickM (A : Type) : Type := Pick -> IoM (Pick * result IoError A).

#[export] Instance PickM_ret : MRet PickM := fun A a k => mret (k, Ok a).
#[export] Instance PickM_bind : MBind PickM := fun A B f m k =>
  '(k, r) ← m k;
  match r with
  | Ok a => f a k
  | Err e => mret (k, Err e)
  end.

Definition pick_fail {A : Type} (e : IoError) : PickM A := fun k => mret (k, Err e).
Definition note (f : Pick -> Pick) : PickM unit := fun k => mret (f k, Ok tt).
(** A file operation's result as a value. *)
Definition pick_attempt {A : Type} (m : IoM A) : PickM (result IoError A) := fun k =>
  r ← attempt m; mret (k, Ok r).

(** ** Reading *)

(** One read, then up to [more] others while its error may pass and the load's
    pauses are not spent: the pauses after it and the file's bytes. *)
Fixpoint read_loop (more : nat) (path : Path) (paused : nat) : IoM (nat * result IoError (option string)) :=
  r ← attempt (fs_read path);
  match r with
  | Ok bytes => mret (paused, Ok (Some bytes))
  | Err e =>
      if decide (e_kind e = NotFound) then mret (paused, Ok None)
      else
        match more with
        | S more =>
            if transient_error e && (paused <? READ_PAUSES)%nat
            then _ ← fs_pause; read_loop more path (S paused)
            else mret (paused, Err e)
        | O => mret (paused, Err e)
        end
  end.

Definition read_tried (path : Path) (paused : nat) : IoM (nat * result IoError (option string)) :=
  read_loop (READ_TRIES - 1) path paused.

Section chain.
Context `{Json, Sha256}.

Definition read_state (path : Path) (reading : Reading) : PickM Read := fun k =>
  '(paused, r) ← read_tried path (pk_paused k);
  let k := set_paused paused k in
  match r with
  | Ok None => mret (k, Ok RdMissing)
  | Ok (Some bytes) =>
      match decode bytes with
      | Ok p => mret (k, Ok (RdValid p))
      | Err why => mret (reject path (WhyDecode why) k, Ok RdDamaged)
      end
  | Err e =>
      match reading with
      | Strict => mret (k, Err (add_note (NCannotRead path) e))
      | Tolerant => mret (reject path (WhyIo e) (alarm (AlCannotRead path e) k), Ok RdUnreadable)
      end
  end.

(** Whether an interrupted save supersedes the state it competes with. *)
Definition supersedes (interrupted other : Persisted) : bool := pe_rev other <=? pe_rev interrupted.

(** The newest valid generation, passing over the unreadable ones. *)
Fixpoint newest_valid (gens : list (Z * Path)) (reading : Reading) : PickM (option (Persisted * Z * Path)) :=
  match gens with
  | [] => mret None
  | (seq, path) :: gens =>
      r ← read_state path reading;
      match r with
      | RdValid generation => mret (Some (generation, seq, path))
      | RdUnreadable => _ ← note (pass_over path); newest_valid gens reading
      | RdMissing | RdDamaged => newest_valid gens reading
      end
  end.

(** The generations, and the error that kept them from being listed. *)
Definition pick_generations (reading : Reading) : PickM (list (Z * Path) * option IoError) :=
  r ← pick_attempt generations;
  match r with
  | Ok gens => mret (gens, None)
  | Err e =>
      match reading with
      | Strict => pick_fail e
      | Tolerant => _ ← note (reject dir_path (WhyUnlisted e)); mret ([], Some e)
      end
  end.

(** The pick when [current.json] is valid. *)
Definition pick_current (current : Persisted) (tmp : Read) : PickM (option (Persisted * Source * Path)) :=
  match tmp with
  | RdValid tmp =>
      if supersedes tmp current then mret (Some (tmp, SInterrupted, TMP))
      else
        _ ← note (reject TMP (WhyNotNewer (pe_rev tmp) SCurrent (pe_rev current)));
        _ ← note (alarm (AlTmpOlder (pe_rev tmp) SCurrent (pe_rev current)));
        mret (Some (current, SCurrent, CURRENT))
  | RdMissing | RdUnreadable | RdDamaged => mret (Some (current, SCurrent, CURRENT))
  end.

(** The pick when it is not: [save.tmp] against the newest generation. *)
Definition pick_older (tmp : Read) (newest : option (Persisted * Z * Path)) (unlisted : option IoError)
    : PickM (option (Persisted * Source * Path)) :=
  match tmp, newest with
  | RdValid tmp, Some (generation, seq, path) =>
      if negb (supersedes tmp generation)
      then
        _ ← note (reject TMP (WhyNotNewer (pe_rev tmp) (SGeneration seq) (pe_rev generation)));
        _ ← note (alarm (AlTmpOlder (pe_rev tmp) (SGeneration seq) (pe_rev generation)));
        mret (Some (generation, SGeneration seq, path))
      else
        _ ← (match unlisted with Some e => note (alarm (AlTmpUncompared e)) | None => mret tt end);
        mret (Some (tmp, SInterrupted, TMP))
  | RdValid tmp, None =>
      _ ← (match unlisted with Some e => note (alarm (AlTmpUncompared e)) | None => mret tt end);
      mret (Some (tmp, SInterrupted, TMP))
  | _, Some (generation, seq, path) => mret (Some (generation, SGeneration seq, path))
  | _, None => mret None
  end.

(** The live state, its source and its file. *)
Definition pick_live (reading : Reading) : PickM (option (Persisted * Source * Path)) :=
  current ← read_state CURRENT reading;
  _ ← note (found_current (read_file_state current));
  _ ← (if decide (read_file_state current = FsUnreadable) then note (pass_over CURRENT) else mret tt);
  tmp ← read_state TMP reading;
  _ ← note (found_tmp (read_file_state tmp));
  match current with
  | RdValid current => pick_current current tmp
  | _ =>
      '(gens, unlisted) ← pick_generations reading;
      newest ← newest_valid (rev gens) reading;
      pick_older tmp newest unlisted
  end.

(** [live_state]: the strict pick's source. *)
Definition live_state : IoM (option Source) :=
  '(_, r) ← pick_live Strict Pick_default;
  found ← io_lift r;
  mret ((fun x : Persisted * Source * Path => x.1.2) <$> found).

Definition live_file : IoM (option Path) :=
  '(_, r) ← pick_live Strict Pick_default;
  found ← io_lift r;
  mret ((fun x : Persisted * Source * Path => x.2) <$> found).

(** A loaded state, reconciled against the topology. *)
Definition settle (topo : Topology) (p : Persisted) (source : Source) (k : Pick) : Loaded :=
  let '(r, dropped) := reconcile_topo topo (pe_state p) in
  mkLoaded (with_state (to_state topo r) p) source (pk_rejected k) dropped (pk_alarms k)
    (pk_current_json k) (pk_save_tmp k).

(** The end of the chain. *)
Definition load_defaults (topo : Topology) (k : Pick) : Loaded :=
  mkLoaded (mkPersisted 0 (t_hash topo) 0 (defaults_muted topo) ∅) SDefaults (pk_rejected k) [] (pk_alarms k)
    (pk_current_json k) (pk_save_tmp k).

(** The chain, and the live files it passed over. *)
Definition load_chain (topo : Topology) : IoM (Loaded * list Path) :=
  '(k, r) ← pick_live Tolerant Pick_default;
  let '(k, live) :=
    match r with Ok live => (k, live) | Err e => (reject dir_path (WhyIo e) k, None) end in
  let passed_over := pk_passed_over k in
  match live with
  | Some (p, source, _) => mret (settle topo p source k, passed_over)
  | None =>
      '(k, baseline) ← read_state BASELINE Tolerant k;
      match baseline with
      | Ok (RdValid p) => mret (settle topo p SBaseline k, passed_over)
      | _ => mret (load_defaults topo k, passed_over)
      end
  end.

(** Continues above the live files passed over. *)
Definition continue_above (passed_over : list Path) (listed : result IoError Listing) (l : Loaded) : Loaded :=
  let '(floor, unlisted) :=
    match listed with Ok listed => (l_floor listed, []) | Err e => (None, [AlNamesUnlisted e]) end in
  let rev := u64_saturating_add (Z.max (pe_rev (ld_persisted l)) (match floor with Some f => f | None => 0 end)) REV_JUMP in
  mkLoaded (with_rev rev (ld_persisted l)) (ld_source l) (ld_rejected l) (ld_dropped l)
    (ld_alarms l ++ unlisted ++ [AlContinues passed_over rev floor]) (ld_current_json l) (ld_save_tmp l).

(** The alarms of the orphans above the state loaded. *)
Fixpoint orphan_alarms (own : Z) (orphans : list (Z * (string * Path))) : IoM (list Alarm) :=
  match orphans with
  | [] => mret []
  | (_, (name, path)) :: orphans =>
      '(_, r) ← read_tried path READ_PAUSES;
      let here :=
        match r with
        | Ok (Some bytes) =>
            match decode bytes with
            | Ok orphan => if own <? pe_rev orphan then [AlOrphanAbove name (pe_rev orphan) own] else []
            | Err _ => []
            end
        | Ok None => []
        | Err e => [AlOrphanUnreadable name e]
        end in
      rest ← orphan_alarms own orphans;
      mret (here ++ rest)
  end.

Definition orphans_above (own : Z) (listed : result IoError Listing) : IoM (list Alarm) :=
  match listed with
  | Ok listed => orphan_alarms own (l_orphans listed)
  | Err e => mret [AlOrphansUnlisted e]
  end.

Definition load (topo : Topology) : IoM Loaded :=
  '(loaded, passed_over) ← load_chain topo;
  let own := pe_rev (ld_persisted loaded) in
  listed ← attempt store_list;
  let loaded := match passed_over with [] => loaded | _ => continue_above passed_over listed loaded end in
  alarms ← orphans_above own listed;
  mret (add_alarms alarms loaded).

(** ** Recovery *)

Inductive Trouble :=
| TrAsideUnsynced (aside : Path) (e : IoError)
| TrNotAside (e : IoError)
| TrTmpStays
| TrPruning (e : IoError)
| TrFinish (e : IoError).

Record Recovery := mkRecovery {
  rc_quarantined : option Path;
  rc_finished : bool;
  rc_failed : list Trouble;
  rc_warnings : list Trouble;
}.

Definition finish_interrupted (rev : Z) : IoM Committed :=
  _ ← fs_sync_file TMP;
  commit_tmp rev.

(** A damaged [current.json] is moved aside. *)
Definition quarantine (l : Loaded) : IoM (option Path * list Trouble) :=
  if decide (ld_current_json l = FsDamaged)
  then
    moved ← attempt (move_aside CURRENT "damaged");
    mret (match moved with
          | Ok (aside, synced) =>
              (Some aside, match synced with Err e => [TrAsideUnsynced aside e] | Ok _ => [] end)
          | Err e => (None, [TrNotAside e])
          end)
  else mret (None, []).

Definition recover (l : Loaded) : IoM Recovery :=
  _ ← set_own (bool_decide (ld_save_tmp l = FsMissing) || bool_decide (ld_source l = SInterrupted));
  '(quarantined, failed) ← quarantine l;
  if bool_decide (ld_source l = SInterrupted) && bool_decide (ld_current_json l = FsUnreadable)
  then mret (mkRecovery quarantined false failed [TrTmpStays])
  else if decide (ld_source l = SInterrupted)
  then
    finished ← attempt (finish_interrupted (pe_rev (ld_persisted l)));
    mret (match finished with
          | Ok committed =>
              mkRecovery quarantined true failed
                (match cm_pruning committed with Some why => [TrPruning why] | None => [] end)
          | Err e => mkRecovery quarantined false (failed ++ [TrFinish e]) []
          end)
  else mret (mkRecovery quarantined false failed []).
End chain.
