(* ===== verification/Live.v ===== *)
(** * The live state: specification of the load chain's pick

    [live_spec] says, of a directory's contents alone, which file holds the
    state; [pick_live] computes it when no read fails ([pick_live_spec]).  The
    lemmas here say which changes of a directory leave it alone. *)

From S2P Require Import Prelude Text MixState Msg Shape Topology Reconciled Disk Codec Store Chain.
From stdpp Require Import options.
Local Open Scope Z_scope.
#[local] Unset Default Proof Using.

Section live.
Context `{Json, Sha256}.

(** ** The specification *)

Definition valid_at (d : Dir) (path : Path) : option Persisted :=
  match d !! path with
  | Some b => match decode b with Ok p => Some p | Err _ => None end
  | None => None
  end.

(** The first valid file of a list. *)
Fixpoint first_valid (d : Dir) (gens : list (Z * Path)) : option (Persisted * Z * Path) :=
  match gens with
  | [] => None
  | (seq, path) :: gens =>
      match valid_at d path with Some p => Some (p, seq, path) | None => first_valid d gens end
  end.

Definition newest (d : Dir) : option (Persisted * Z * Path) :=
  first_valid d (rev (gens_of (dir_names d))).

(** [save.tmp] against a valid [current.json]. *)
Definition current_spec (c : Persisted) (tmp : option Persisted) : Persisted * Source * Path :=
  match tmp with
  | Some t => if supersedes t c then (t, SInterrupted, TMP) else (c, SCurrent, CURRENT)
  | None => (c, SCurrent, CURRENT)
  end.

(** [save.tmp] against the newest valid generation. *)
Definition older_spec (tmp : option Persisted) (gen : option (Persisted * Z * Path)) : option (Persisted * Source * Path) :=
  match tmp, gen with
  | Some t, Some (g, seq, path) =>
      Some (if supersedes t g then (t, SInterrupted, TMP) else (g, SGeneration seq, path))
  | Some t, None => Some (t, SInterrupted, TMP)
  | None, Some (g, seq, path) => Some (g, SGeneration seq, path)
  | None, None => None
  end.

Definition live_spec (d : Dir) : option (Persisted * Source * Path) :=
  match valid_at d CURRENT with
  | Some c => Some (current_spec c (valid_at d TMP))
  | None => older_spec (valid_at d TMP) (newest d)
  end.

Definition live_state_of (d : Dir) : option Persisted := (fun x => x.1.1) <$> live_spec d.

(** ** The pick computes it *)

Definition quiet (d : Dir) (o : bool) (n : nat) : World := mkWorld d o [] n.

Definition state_at (d : Dir) (path : Path) : Read :=
  match d !! path with
  | None => RdMissing
  | Some b => match decode b with Ok p => RdValid p | Err _ => RdDamaged end
  end.

Lemma valid_state_at d path : valid_at d path = match state_at d path with RdValid p => Some p | _ => None end.
Proof. unfold valid_at, state_at. destruct (d !! path) as [b|]; [|done]. by destruct (decode b). Qed.

Lemma read_state_quiet d o n path reading k :
  exists k', read_state path reading k (quiet d o n) = ODone (quiet d o n) (Ok (k', Ok (state_at d path)))
    /\ pk_passed_over k' = pk_passed_over k /\ pk_alarms k' = pk_alarms k
    /\ pk_current_json k' = pk_current_json k /\ pk_save_tmp k' = pk_save_tmp k.
Proof.
  unfold read_state, read_tried, state_at. cbn. unfold mbind at 1, IoM_bind at 1.
  unfold read_loop; cbn. unfold mbind, IoM_bind, attempt, fs_read, io_op; cbn.
  destruct (d !! path) as [b|]; cbn; [|by eexists]. destruct (decode b); cbn; by eexists.
Qed.

Lemma pick_bind_done {A B : Type} (m : PickM A) (f : A -> PickM B) k w k' w' a :
  m k w = ODone w' (Ok (k', Ok a)) -> (m ≫= f) k w = f a k' w'.
Proof. intros Hm. unfold mbind, PickM_bind, mbind, IoM_bind. by rewrite Hm. Qed.

Lemma newest_valid_quiet d o n reading gens : forall k,
  exists k', newest_valid gens reading k (quiet d o n) = ODone (quiet d o n) (Ok (k', Ok (first_valid d gens)))
    /\ pk_passed_over k' = pk_passed_over k /\ pk_alarms k' = pk_alarms k
    /\ pk_current_json k' = pk_current_json k /\ pk_save_tmp k' = pk_save_tmp k.
Proof.
  induction gens as [|[seq path] gens IH]; intros k; cbn; [by eexists|].
  destruct (read_state_quiet d o n path reading k) as (k1 & Hr & E1 & E2 & E3 & E4).
  rewrite (pick_bind_done _ _ _ _ _ _ _ Hr), valid_state_at.
  destruct (state_at d path) as [| | |p] eqn:Hs.
  - destruct (IH k1) as (k2 & -> & ?&?&?&?). exists k2. split_and!; [done|congruence..].
  - exfalso. unfold state_at in Hs. destruct (d !! path) as [b|]; [|done]. by destruct (decode b).
  - destruct (IH k1) as (k2 & -> & ?&?&?&?). exists k2. split_and!; [done|congruence..].
  - exists k1. by split_and!.
Qed.

Lemma generations_quiet d o n :
  generations (quiet d o n) = ODone (quiet d o n) (Ok (gens_of (dir_names d))).
Proof.
  unfold generations, store_list, fs_list, io_op, mbind, IoM_bind; cbn.
  unfold io_lift. by rewrite listing_names.
Qed.

(** A pick that passed nothing over and found these states. *)
Definition found (k : Pick) (c t : Read) : Prop :=
  pk_passed_over k = [] /\ pk_current_json k = read_file_state c /\ pk_save_tmp k = read_file_state t.

Definition valid_of (r : Read) : option Persisted := match r with RdValid p => Some p | _ => None end.

Lemma state_at_readable d path : state_at d path <> RdUnreadable.
Proof. unfold state_at. destruct (d !! path) as [b|]; [|done]. by destruct (decode b). Qed.

Lemma pick_current_quiet p c t k w :
  found k c t ->
  exists k', pick_current p t k w = ODone w (Ok (k', Ok (Some (current_spec p (valid_of t))))) /\ found k' c t.
Proof.
  intros Hk. unfold pick_current, current_spec. destruct t as [| | |q]; try by exists k.
  cbn [valid_of]. destruct (supersedes q p); [by exists k|]. eexists. split; [done|]. done.
Qed.

Lemma pick_older_quiet c t gen k w :
  found k c t ->
  exists k', pick_older t gen None k w = ODone w (Ok (k', Ok (older_spec (valid_of t) gen))) /\ found k' c t.
Proof.
  intros Hk. unfold pick_older, older_spec.
  destruct t as [| | |q], gen as [[[g seq] path]|]; cbn [valid_of]; try by exists k.
  destruct (supersedes q g); cbn [negb]; [by exists k|]. eexists. split; [done|]. done.
Qed.

Lemma pick_generations_quiet d o n reading k :
  pick_generations reading k (quiet d o n) = ODone (quiet d o n) (Ok (k, Ok (gens_of (dir_names d), None))).
Proof.
  unfold pick_generations.
  rewrite (pick_bind_done _ _ k _ k (quiet d o n) (Ok (gens_of (dir_names d)))); [done|].
  unfold pick_attempt, mbind, IoM_bind, attempt. by rewrite generations_quiet.
Qed.

Lemma pick_live_spec d o n reading :
  exists k, pick_live reading Pick_default (quiet d o n) = ODone (quiet d o n) (Ok (k, Ok (live_spec d)))
    /\ found k (state_at d CURRENT) (state_at d TMP).
Proof.
  unfold pick_live.
  destruct (read_state_quiet d o n CURRENT reading Pick_default) as (k1 & Hr1 & E1 & _ & E1c & E1t).
  rewrite (pick_bind_done _ _ _ _ _ _ _ Hr1).
  pose proof (state_at_readable d CURRENT) as Hc.
  unfold live_spec. rewrite !valid_state_at. set (c := state_at d CURRENT) in *.
  rewrite (pick_bind_done _ _ _ _ (found_current (read_file_state c) k1) (quiet d o n) tt) by done.
  rewrite decide_False by by destruct c.
  rewrite (pick_bind_done _ _ _ _ (found_current (read_file_state c) k1) (quiet d o n) tt) by done.
  destruct (read_state_quiet d o n TMP reading (found_current (read_file_state c) k1)) as (k2 & Hr2 & E2 & _ & E2c & E2t).
  rewrite (pick_bind_done _ _ _ _ _ _ _ Hr2). set (t := state_at d TMP) in *.
  rewrite (pick_bind_done _ _ _ _ (found_tmp (read_file_state t) k2) (quiet d o n) tt) by done.
  assert (Hk : found (found_tmp (read_file_state t) k2) c t).
  { split_and!; cbn; [by rewrite E2; cbn; rewrite E1|by rewrite E2c|done]. }
  generalize dependent (found_tmp (read_file_state t) k2). intros k Hk.
  assert (Holder : exists k', ('(gens, unlisted) ← pick_generations reading;
         newest ← newest_valid (rev gens) reading; pick_older t newest unlisted) k (quiet d o n)
       = ODone (quiet d o n) (Ok (k', Ok (older_spec (valid_of t) (newest d)))) /\ found k' c t).
  { rewrite (pick_bind_done _ _ _ _ _ _ _ (pick_generations_quiet d o n reading k)).
    destruct (newest_valid_quiet d o n reading (rev (gens_of (dir_names d))) k) as (k3 & Hr3 & E3 & _ & E3c & E3t).
    rewrite (pick_bind_done _ _ _ _ _ _ _ Hr3). apply pick_older_quiet.
    destruct Hk as (K1 & K2 & K3). split_and!; congruence. }
  clearbody c. destruct c as [| | |p]; [exact Holder|exact Holder|exact Holder|].
  by apply pick_current_quiet.
Qed.

(** ** What leaves the live state alone *)

(** The files the pick reads. *)
Definition state_path (path : Path) : Prop :=
  path = CURRENT \/ path = TMP \/ is_Some (generation_parts path).

Lemma valid_at_eq d d' path : d' !! path = d !! path -> valid_at d' path = valid_at d path.
Proof. unfold valid_at. by intros ->. Qed.

Lemma elem_of_dir_names (d : Dir) path : path ∈ dir_names d <-> is_Some (d !! path).
Proof.
  unfold dir_names. rewrite list_elem_of_fmap. split.
  - intros ([k v] & -> & Hin%elem_of_map_to_list). by eexists.
  - intros [v Hv]. exists (path, v). by rewrite elem_of_map_to_list.
Qed.

Lemma NoDup_dir_names (d : Dir) : NoDup (dir_names d).
Proof. apply NoDup_fst_map_to_list. Qed.

Lemma gen_entry_path name seq path : gen_entry name = Some (seq, path) -> path = name /\ is_Some (generation_parts name).
Proof. unfold gen_entry. intros (p & Hp & [= _ ->])%fmap_Some. split; [done|by exists p]. Qed.

Lemma elem_of_gens names seq path :
  (seq, path) ∈ gens_of names <-> path ∈ names /\ exists rev, generation_parts path = Some (seq, rev).
Proof.
  unfold gens_of. rewrite merge_sort_Permutation, list_elem_of_omap. split.
  - intros (name & Hin & Hg). unfold gen_entry in Hg. apply fmap_Some in Hg as ([s r] & Hg & [= -> ->]). eauto.
  - intros (Hin & r & Hg). exists path. split; [done|]. unfold gen_entry. by rewrite Hg.
Qed.

Lemma NoDup_gens names : NoDup names -> NoDup (omap gen_entry names).
Proof.
  induction 1 as [|n names Hn _ IH]; cbn [omap list_omap]; [constructor|].
  destruct (gen_entry n) as [[seq path]|] eqn:Hg; [|done]. constructor; [|done].
  rewrite list_elem_of_omap. intros (n' & Hin & Hg').
  apply gen_entry_path in Hg as [-> _]. apply gen_entry_path in Hg' as [-> _]. done.
Qed.

(** The generations are those of the directory's names, whatever else is there. *)
Lemma gens_of_same names names' :
  NoDup names -> NoDup names' ->
  (forall path, is_Some (generation_parts path) -> path ∈ names <-> path ∈ names') ->
  gens_of names = gens_of names'.
Proof.
  intros H1 H2 Hs. apply (merge_sort_perm num_le). apply NoDup_Permutation; [by apply NoDup_gens..|].
  intros [seq path]. rewrite !list_elem_of_omap. split; intros (n & Hin & Hg);
    destruct (gen_entry_path _ _ _ Hg) as [-> Hsome]; exists n; (split; [|done]); by apply (Hs n Hsome).
Qed.

Lemma first_valid_eq d d' gens :
  (forall seq path, (seq, path) ∈ gens -> d' !! path = d !! path) -> first_valid d' gens = first_valid d gens.
Proof.
  induction gens as [|[seq path] gens IH]; intros Hg; cbn; [done|].
  rewrite (valid_at_eq d) by (eapply Hg; by left). rewrite IH; [done|]. intros s q Hin. eapply Hg. by right.
Qed.

Lemma gens_frame d d' :
  (forall path, is_Some (generation_parts path) -> d' !! path = d !! path) ->
  gens_of (dir_names d') = gens_of (dir_names d).
Proof.
  intros Hd. apply gens_of_same; [apply NoDup_dir_names..|].
  intros path Hp. rewrite !elem_of_dir_names. by rewrite Hd.
Qed.

Lemma newest_eq d d' :
  (forall path, is_Some (generation_parts path) -> d' !! path = d !! path) -> newest d' = newest d.
Proof.
  intros Hd. unfold newest. rewrite (gens_frame d d' Hd).
  apply first_valid_eq. intros seq path Hin. apply list_elem_of_In, in_rev, list_elem_of_In in Hin.
  apply elem_of_gens in Hin as (_ & r & Hg). apply Hd. by eexists.
Qed.

Lemma live_frame d d' :
  (forall path, state_path path -> d' !! path = d !! path) -> live_spec d' = live_spec d.
Proof.
  intros Hd. unfold live_spec.
  rewrite (valid_at_eq d d' CURRENT), (valid_at_eq d d' TMP), (newest_eq d d'); [done|..].
  - intros path Hp. apply Hd. by right; right.
  - apply Hd. by right; left.
  - apply Hd. by left.
Qed.

Lemma mark_not_state rev : ~ state_path (mark_name rev).
Proof. intros [H1|[H1|[x H1]]]; by vm_compute in H1. Qed.

Lemma mark_entry_not_state name r path : mark_entry name = Some (r, path) -> path = name /\ ~ state_path path.
Proof.
  unfold mark_entry. destruct (generation_parts name) eqn:Hg; [done|].
  intros (x & Hm & [= _ ->])%fmap_Some. split; [done|].
  intros [->|[->|[y Hy]]]; [by vm_compute in Hm|by vm_compute in Hm|congruence].
Qed.

Lemma aside_not_state_tmp n : ~ state_path (aside_name TMP "orphan" n).
Proof. intros [H1|[H1|[x H1]]]; by vm_compute in H1. Qed.

Lemma aside_not_state_current n : ~ state_path (aside_name CURRENT "damaged" n).
Proof. intros [H1|[H1|[x H1]]]; by vm_compute in H1. Qed.

Lemma new_not_state : ~ state_path NEW.
Proof. intros [H1|[H1|[x H1]]]; by vm_compute in H1. Qed.

Lemma generation_state seq rev : is_Some (generation_parts (generation_name seq rev)) -> state_path (generation_name seq rev).
Proof. by right; right. Qed.

(** ** A whole load when no operation fails *)

Lemma io_bind_done {A B : Type} (m : IoM A) (f : A -> IoM B) w w' a :
  m w = ODone w' (Ok a) -> (m ≫= f) w = f a w'.
Proof. intros Hm. unfold mbind, IoM_bind. by rewrite Hm. Qed.

Lemma orphan_alarms_quiet own d o n orphans :
  exists als, orphan_alarms own orphans (quiet d o n) = ODone (quiet d o n) (Ok als).
Proof.
  induction orphans as [|[k [name path]] orphans [als IH]]; cbn [orphan_alarms]; [by eexists|].
  assert (exists r, read_tried path READ_PAUSES (quiet d o n) = ODone (quiet d o n) (Ok r)) as [r Hr].
  { unfold read_tried, read_loop; cbn. unfold mbind, IoM_bind, attempt, fs_read, io_op; cbn.
    destruct (d !! path); cbn; by eexists. }
  rewrite (io_bind_done _ _ _ _ _ Hr). destruct r as [paused r].
  rewrite (io_bind_done _ _ _ _ _ IH). by eexists.
Qed.

(** What the end of the chain gives when nothing is live. *)
Definition fallback (topo : Topology) (d : Dir) (l : Loaded) : Prop :=
  match valid_at d BASELINE with
  | Some p => ld_source l = SBaseline /\ ld_persisted l = with_state (to_state topo (reconcile_topo topo (pe_state p)).1) p
  | None => ld_source l = SDefaults /\ ld_persisted l = mkPersisted 0 (t_hash topo) 0 (defaults_muted topo) ∅
  end.

Definition loads (topo : Topology) (d : Dir) (l : Loaded) : Prop :=
  match live_spec d with
  | Some (p, src, _) =>
      ld_source l = src /\ ld_persisted l = with_state (to_state topo (reconcile_topo topo (pe_state p)).1) p
  | None => fallback topo d l
  end
  /\ ld_current_json l = read_file_state (state_at d CURRENT)
  /\ ld_save_tmp l = read_file_state (state_at d TMP).

Lemma settle_loads topo p src k :
  ld_source (settle topo p src k) = src
  /\ ld_persisted (settle topo p src k) = with_state (to_state topo (reconcile_topo topo (pe_state p)).1) p
  /\ ld_current_json (settle topo p src k) = pk_current_json k /\ ld_save_tmp (settle topo p src k) = pk_save_tmp k.
Proof. unfold settle. by destruct (reconcile_topo topo (pe_state p)). Qed.

Lemma load_chain_quiet topo d o n :
  exists l, load_chain topo (quiet d o n) = ODone (quiet d o n) (Ok (l, [])) /\ loads topo d l.
Proof.
  unfold load_chain. destruct (pick_live_spec d o n Tolerant) as (k & Hk & Hp & Hc & Ht).
  rewrite (io_bind_done _ _ _ _ _ Hk). unfold loads.
  destruct (live_spec d) as [[[p src] path]|].
  - rewrite Hp. eexists. split; [done|].
    destruct (settle_loads topo p src k) as (-> & -> & -> & ->). by rewrite Hc, Ht.
  - rewrite Hp. destruct (read_state_quiet d o n BASELINE Tolerant k) as (k' & Hr & E1 & _ & E3 & E4).
    rewrite (io_bind_done _ _ _ _ _ Hr). unfold fallback. rewrite valid_state_at.
    destruct (state_at d BASELINE) as [| | |p]; eexists; (split; [done|]).
    1-3: cbn; by rewrite E3, E4, Hc, Ht.
    destruct (settle_loads topo p SBaseline k') as (-> & -> & -> & ->). by rewrite E3, E4, Hc, Ht.
Qed.

Lemma load_quiet topo d o n :
  exists l, load topo (quiet d o n) = ODone (quiet d o n) (Ok l) /\ loads topo d l.
Proof.
  unfold load. destruct (load_chain_quiet topo d o n) as (l & Hl & Hls).
  rewrite (io_bind_done _ _ _ _ _ Hl).
  assert (exists L, attempt store_list (quiet d o n) = ODone (quiet d o n) (Ok (Ok L))) as [L HL].
  { unfold attempt, store_list, fs_list, io_op, mbind, IoM_bind, io_lift; cbn. rewrite listing_names. by eexists. }
  rewrite (io_bind_done _ _ _ _ _ HL).
  destruct (orphan_alarms_quiet (pe_rev (ld_persisted l)) d o n (l_orphans L)) as [als Ha].
  rewrite (io_bind_done (orphans_above _ (Ok L)) _ _ _ _ Ha). by eexists.
Qed.
End live.
