(* ===== verification/Crash.v ===== *)
(** * Saving survives every fault

    Hoare-style specifications ([Disk.io_spec]) of the steps of a save and of
    the boot's recovery: whatever operation fails or is the last one before a
    crash, the live state is the old one or the new one, and the new one when
    the save reports success. *)

From S2P Require Import Prelude Text MixState Msg Shape Topology Reconciled Disk Codec Store Chain Live.
From stdpp Require Import options.
Local Open Scope Z_scope.
#[local] Unset Default Proof Using.

Lemma StronglySorted_snoc {A : Type} (R : relation A) l x :
  StronglySorted R l -> Forall (fun y => R y x) l -> StronglySorted R (l ++ [x]).
Proof.
  induction 1 as [|y l Hs IH Hy]; cbn; intros Hx; [repeat constructor|].
  apply Forall_cons in Hx as [Hyx Hx]. constructor; [by apply IH|].
  apply Forall_app. split; [done|]. by constructor.
Qed.

Lemma StronglySorted_last {A : Type} (R : relation A) `{!Reflexive R} l x y :
  StronglySorted R l -> last l = Some x -> y ∈ l -> R y x.
Proof.
  induction 1 as [|z l Hs IH Hz]; [done|]. rewrite last_cons.
  destruct (last l) as [w|] eqn:Hl; intros [= <-] Hy; apply elem_of_cons in Hy as [->|Hy].
  - rewrite Forall_forall in Hz. apply Hz. by apply last_Some_elem_of.
  - by apply IH.
  - done.
  - apply last_None in Hl. subst l. by apply not_elem_of_nil in Hy.
Qed.

#[export] Instance num_le_refl : Reflexive num_le.
Proof. intros [a x]. right. by split. Qed.

Section crash.
Context `{Json, Sha256}.

(** ** Listings and the next generation *)

(** No generation has the last 64-bit number. *)
Definition seq_ok (d : Dir) : Prop :=
  forall seq path, (seq, path) ∈ gens_of (dir_names d) -> seq < u64_max.

Definition is_listing (d : Dir) (L : Listing) : Prop :=
  l_generations L = gens_of (dir_names d) /\ l_marks L = marks_of (dir_names d).

Lemma store_list_spec (P : Dir -> bool -> Prop) (C : Dir -> Prop) :
  (forall d o, P d o -> C d) ->
  io_spec P store_list (fun r d o => P d o /\ forall L, r = Ok L -> is_listing d L) C.
Proof.
  intros HC w Hp. unfold store_list, mbind, IoM_bind, fs_list, io_op, io_lift; cbn.
  pose proof (listing_names (dir_names (w_files w))) as Hl.
  assert (Hgo : forall r : result IoError Listing, r = listing (entry <$> dir_names (w_files w)) ->
    forall L, r = Ok L -> is_listing (w_files w) L).
  { intros r -> L HL. rewrite Hl in HL. by injection HL as <-. }
  destruct (w_script w) as [|[|e pt|e n|pt] s] eqn:Hs; cbn.
  - split; [done|]. by eapply Hgo.
  - split; [done|]. by eapply Hgo.
  - destruct pt; cbn; by split.
  - split; [done|]. intros L HL. rewrite listing_bad_entry in HL; [done|].
    intros x Hx. apply elem_of_take in Hx as (i & Hx & _). apply list_elem_of_lookup_2, list_elem_of_fmap in Hx as (y & -> & _). done.
  - destruct pt; cbn; by eapply HC.
Qed.

Lemma gens_sorted names : StronglySorted num_le (gens_of names).
Proof. apply (StronglySorted_merge_sort num_le). Qed.

Lemma gen_seq_bounds names seq path : (seq, path) ∈ gens_of names -> 0 <= seq <= u64_max.
Proof.
  intros (_ & rev & Hg)%elem_of_gens. unfold generation_parts in Hg.
  apply bind_Some in Hg as (rest & _ & Hg). apply bind_Some in Hg as (stem & _ & Hg).
  destruct (split_once "-r" stem) as [[s r]|].
  - apply bind_Some in Hg as (n & Hn & Hg). apply bind_Some in Hg as (m & _ & [= <- _]).
    by apply (parse_uint_bound u64_max) in Hn.
  - apply bind_Some in Hg as (n & Hn & [= <- _]). by apply (parse_uint_bound u64_max) in Hn.
Qed.

Lemma mark_rev_bounds names rev path : (rev, path) ∈ marks_of names -> u64_ok rev /\ mark_entry path = Some (rev, path).
Proof.
  unfold marks_of. rewrite merge_sort_Permutation, list_elem_of_omap. intros (name & _ & Hm).
  destruct (mark_entry_not_state _ _ _ Hm) as [-> _]. split; [|done]. unfold mark_entry in Hm.
  destruct (generation_parts name); [done|]. apply fmap_Some in Hm as (r & Hm & [= ->]).
  unfold mark_rev in Hm. apply bind_Some in Hm as (t & _ & Ht). by apply (parse_uint_bound u64_max) in Ht.
Qed.

(** The next generation's number is above every one there is. *)
Lemma next_seq_above d seq path :
  seq_ok d -> (seq, path) ∈ gens_of (dir_names d) -> seq < next_seq (gens_of (dir_names d)).
Proof.
  intros Hok Hin. unfold next_seq. destruct (last (gens_of (dir_names d))) as [[s q]|] eqn:Hl.
  - assert (Hle : num_le (seq, path) (s, q)) by (eapply (StronglySorted_last num_le); [apply gens_sorted|done|done]).
    assert (Hs : (s, q) ∈ gens_of (dir_names d)) by by apply last_Some_elem_of.
    pose proof (Hok _ _ Hs). pose proof (gen_seq_bounds _ _ _ Hs). cbn [fst].
    rewrite u64_wrapping_add_small by lia. destruct Hle as [?|[? _]]; cbn [fst] in *; lia.
  - apply last_None in Hl. rewrite Hl in Hin. by apply not_elem_of_nil in Hin.
Qed.

Lemma next_seq_ok d : seq_ok d -> u64_ok (next_seq (gens_of (dir_names d))).
Proof. intros _. apply u64_wrapping_add_ok. Qed.

(** ** Rotating [current.json] *)

Definition gen_name (d : Dir) : Path :=
  generation_name (next_seq (gens_of (dir_names d))) (fst <$> last (marks_of (dir_names d))).

Lemma gen_name_parts d :
  generation_parts (gen_name d) = Some (next_seq (gens_of (dir_names d)), fst <$> last (marks_of (dir_names d))).
Proof.
  apply generation_parts_name; [apply u64_wrapping_add_ok|].
  intros r (m & Hm & ->)%fmap_Some. destruct m as [r' path].
  apply last_Some_elem_of in Hm. by apply mark_rev_bounds in Hm as [? _].
Qed.

Lemma gen_name_fresh d : seq_ok d -> d !! gen_name d = None.
Proof.
  intros Hok. apply eq_None_not_Some. rewrite <-elem_of_dir_names. intros Hin.
  assert ((next_seq (gens_of (dir_names d)), gen_name d) ∈ gens_of (dir_names d)) as Hg.
  { apply elem_of_gens. split; [done|]. eexists. apply gen_name_parts. }
  pose proof (next_seq_above _ _ _ Hok Hg). lia.
Qed.

Lemma gen_name_other d : gen_name d <> CURRENT /\ gen_name d <> TMP /\ gen_name d <> NEW.
Proof.
  pose proof (gen_name_parts d) as Hp.
  assert (generation_parts CURRENT = None) by by vm_compute.
  assert (generation_parts TMP = None) by by vm_compute.
  assert (generation_parts NEW = None) by by vm_compute.
  split_and!; intros He; rewrite He in Hp; congruence.
Qed.

Lemma gens_rotated d b :
  seq_ok d ->
  gens_of (dir_names (<[gen_name d := b]> (delete CURRENT d)))
  = gens_of (dir_names d) ++ [(next_seq (gens_of (dir_names d)), gen_name d)].
Proof.
  intros Hok. apply (StronglySorted_unique num_le).
  - apply gens_sorted.
  - apply StronglySorted_snoc; [apply gens_sorted|]. apply Forall_forall. intros [seq path] Hin.
    left. cbn. by eapply next_seq_above.
  - apply NoDup_Permutation.
    + unfold gens_of. rewrite merge_sort_Permutation. apply NoDup_gens, NoDup_dir_names.
    + apply NoDup_app. split_and!; [|intros [s q] Hin E%list_elem_of_singleton|apply NoDup_singleton].
      * unfold gens_of. rewrite merge_sort_Permutation. apply NoDup_gens, NoDup_dir_names.
      * injection E as -> ->. pose proof (next_seq_above _ _ _ Hok Hin). lia.
    + intros [seq path]. rewrite elem_of_app, list_elem_of_singleton, !elem_of_gens, !elem_of_dir_names.
      destruct (decide (path = gen_name d)) as [->|Hne].
      * rewrite lookup_insert_eq, gen_name_parts. split.
        -- intros (_ & r & [= <- _]). by right.
        -- intros [(Hin & _)|[= ->]]; [|split; [by eexists|by eexists]].
           rewrite gen_name_fresh in Hin by done. by destruct Hin.
      * rewrite lookup_insert_ne by done. destruct (decide (path = CURRENT)) as [->|Hnc].
        -- split; [intros (_ & r & Hr); by vm_compute in Hr|]. intros [(_ & r & Hr)|[= _ E]]; [by vm_compute in Hr|by destruct Hne].
        -- rewrite lookup_delete_ne by done. split; [by left|]. intros [?|[= _ E]]; [done|by destruct Hne].
Qed.

(** The interrupted save [p] is the live state. *)
Definition tmp_live (p : Persisted) (d : Dir) : Prop := live_spec d = Some (p, SInterrupted, TMP).

Lemma tmp_live_valid p d : tmp_live p d -> valid_at d TMP = Some p.
Proof.
  unfold tmp_live, live_spec, current_spec, older_spec.
  destruct (valid_at d CURRENT) as [c|], (valid_at d TMP) as [t|], (newest d) as [[[g s] q]|];
    repeat case_match; congruence.
Qed.

Lemma rotate_live p d b :
  seq_ok d -> tmp_live p d -> d !! CURRENT = Some b -> tmp_live p (<[gen_name d := b]> (delete CURRENT d)).
Proof.
  intros Hok Hl Hb. pose proof (tmp_live_valid _ _ Hl) as Ht.
  destruct (gen_name_other d) as (N1 & N2 & _). unfold tmp_live, live_spec in *.
  set (d' := <[gen_name d := b]> (delete CURRENT d)).
  assert (Hc' : valid_at d' CURRENT = None).
  { unfold valid_at, d'. by rewrite lookup_insert_ne, lookup_delete_eq by done. }
  assert (Ht' : valid_at d' TMP = Some p).
  { rewrite <-Ht. apply valid_at_eq. unfold d'. by rewrite lookup_insert_ne, lookup_delete_ne by done. }
  assert (Hg : valid_at d' (gen_name d) = valid_at d CURRENT).
  { unfold valid_at, d'. by rewrite lookup_insert_eq, Hb. }
  rewrite Hc', Ht'. unfold newest. unfold d' at 2. rewrite gens_rotated by done.
  rewrite rev_app_distr. cbn [rev app first_valid]. rewrite Hg. rewrite Ht in Hl.
  destruct (valid_at d CURRENT) as [c|]; cbn [current_spec older_spec] in *.
  - destruct (supersedes p c); [done|]. by simplify_eq.
  - rewrite (first_valid_eq d d'); [exact Hl|]. intros seq path Hin.
    apply list_elem_of_In, in_rev, list_elem_of_In in Hin. apply elem_of_gens in Hin as (Hin & r & Hr).
    unfold d'. rewrite lookup_insert_ne.
    + rewrite lookup_delete_ne; [done|]. intros <-. by vm_compute in Hr.
    + intros <-. apply elem_of_dir_names in Hin. rewrite gen_name_fresh in Hin by done. by destruct Hin.
Qed.

(** ** Operations that change no state file *)

Lemma exists_spec path (P : Dir -> bool -> Prop) (C : Dir -> Prop) :
  (forall d o, P d o -> C d) ->
  io_spec P (fs_exists path)
    (fun r d o => P d o /\ forall b, r = Ok b -> b = bool_decide (is_Some (d !! path))) C.
Proof.
  intros HC. apply spec_atomic. intros d o Hp. split_and!; try done; [by intros b [= <-]|by eapply HC].
Qed.

Lemma sync_dir_spec (P : Dir -> bool -> Prop) (C : Dir -> Prop) :
  (forall d o, P d o -> C d) -> io_spec P fs_sync_dir (fun _ d o => P d o) C.
Proof. intros HC. apply spec_atomic. intros d o Hp. split_and!; try done. by eapply HC. Qed.

Lemma sync_file_spec path (P : Dir -> bool -> Prop) (C : Dir -> Prop) :
  (forall d o, P d o -> C d) -> io_spec P (fs_sync_file path) (fun _ d o => P d o) C.
Proof.
  intros HC. apply spec_atomic. intros d o Hp. split_and!; [by destruct (d !! path)|done|by eapply HC].
Qed.

(** Writing or renaming files the pick does not read. *)
Lemma write_other path bytes d : ~ state_path path -> live_spec (<[path := bytes]> d) = live_spec d.
Proof. intros Hp. apply live_frame. intros q Hq. apply lookup_insert_ne. by intros <-. Qed.

Lemma rename_other from to b d :
  ~ state_path from -> ~ state_path to -> live_spec (<[to := b]> (delete from d)) = live_spec d.
Proof.
  intros Hf Ht. apply live_frame. intros q Hq.
  rewrite lookup_insert_ne by (by intros <-). apply lookup_delete_ne. by intros <-.
Qed.

(** ** The commit *)

(** [current.json] holds [p] and no save is pending. *)
Definition settled (p : Persisted) (d : Dir) : Prop := valid_at d CURRENT = Some p /\ d !! TMP = None.

Lemma settled_live p d : settled p d -> live_spec d = Some (p, SCurrent, CURRENT).
Proof. intros [Hc Ht]. unfold live_spec. rewrite Hc. unfold valid_at. by rewrite Ht. Qed.

Lemma settled_state p d : settled p d -> live_state_of d = Some p.
Proof. intros Hs. unfold live_state_of. by rewrite (settled_live _ _ Hs). Qed.

Lemma tmp_live_state p d : tmp_live p d -> live_state_of d = Some p.
Proof. unfold live_state_of. by intros ->. Qed.

Lemma rotate_spec p o0 L :
  io_spec (fun d o => tmp_live p d /\ seq_ok d /\ o = o0 /\ is_listing d L) (rotate L)
    (fun _ d o => tmp_live p d /\ o = o0) (fun d => live_state_of d = Some p).
Proof.
  unfold rotate. eapply spec_bind.
  - apply exists_spec. intros d o (Ht & _). by apply tmp_live_state.
  - intros there. destruct there.
    2: { apply spec_ret. by intros d o ((? & _ & ? & _) & _). }
    eapply spec_bind with (R := fun _ d o => tmp_live p d /\ o = o0).
    + apply spec_atomic. intros d o ((Ht & Hok & -> & Hg & Hm) & _).
      split_and!; [|done|by apply tmp_live_state].
      destruct (d !! CURRENT) as [b|] eqn:Hb; [|done]. rewrite Hg, Hm. split; [|done].
      by apply rotate_live.
    + intros _. by apply spec_ret.
    + done.
  - by intros e d o ((? & _ & ? & _) & _).
Qed.

Lemma mark_spec p o0 old rev :
  (forall path, old = Some path -> ~ state_path path) ->
  io_spec (fun d o => tmp_live p d /\ o = o0) (mark old rev) (fun _ d o => tmp_live p d /\ o = o0)
    (fun d => live_state_of d = Some p).
Proof.
  intros Hold. unfold mark. destruct old as [old|]; cbn zeta; [case_decide|].
  - by apply spec_ret.
  - apply spec_atomic. intros d o [Ht ->]. split_and!; [|done|by apply tmp_live_state].
    destruct (d !! old) as [b|]; [|done]. split; [|done]. unfold tmp_live.
    rewrite rename_other; [done|by apply Hold|apply mark_not_state].
  - assert (Hw : forall bytes d, tmp_live p d -> tmp_live p (<[mark_name rev := bytes]> d)).
    { intros bytes d Ht. unfold tmp_live. rewrite write_other; [done|apply mark_not_state]. }
    apply spec_op. intros d o [Ht ->].
    split_and!; intros; try (apply tmp_live_state); try split; try done; by apply Hw.
Qed.

Lemma remove_all_spec p o0 paths :
  Forall (fun path => path <> CURRENT) paths ->
  io_spec (fun d o => settled p d /\ o = o0) (remove_all paths) (fun _ d o => settled p d /\ o = o0)
    (fun d => live_state_of d = Some p).
Proof.
  induction 1 as [|path paths Hpath _ IH]; cbn [remove_all].
  - by apply spec_ret.
  - eapply spec_bind with (R := fun _ d o => settled p d /\ o = o0); [|done|done].
    apply spec_atomic. intros d o [Hs ->]. split_and!; [|done|by apply settled_state].
    destruct (d !! path); [|done]. split; [|done]. destruct Hs as [Hc Ht]. split.
    + rewrite <-Hc. apply valid_at_eq. by apply lookup_delete_ne.
    + by apply lookup_delete_None; right.
Qed.

Lemma prune_spec p o0 :
  io_spec (fun d o => settled p d /\ o = o0) prune (fun _ d o => settled p d /\ o = o0)
    (fun d => live_state_of d = Some p).
Proof.
  unfold prune, generations.
  eapply spec_bind with (R := fun r d o => (settled p d /\ o = o0)
    /\ forall gens, r = Ok gens -> Forall (fun g => snd g <> CURRENT) gens).
  - eapply spec_bind.
    + apply store_list_spec. by intros d o [Hs _]; apply settled_state.
    + intros L. apply spec_ret. intros d o (Hs & HL). split; [done|]. intros gens [= <-]. destruct (HL L eq_refl) as [-> _].
      apply Forall_forall. intros [seq path] (_ & r & Hr)%elem_of_gens. cbn. intros ->. by vm_compute in Hr.
    + intros e d o [Hs _]. by split.
  - intros gens. cbn zeta.
    apply (spec_pure (Forall (fun g : Z * Path => snd g <> CURRENT) gens)); [intros d o [_ Hg]; by apply Hg|].
    intros Hg. eapply spec_conseq; [apply (remove_all_spec p o0)|by intros d o [? _]|done|done].
    apply Forall_fmap. by apply Forall_take.
  - by intros e d o [? _].
Qed.

(** The commit, cut off or failing anywhere, leaves the save in [save.tmp]
    or in [current.json]; when it succeeds it is in [current.json]. *)
Lemma commit_spec p o0 rev :
  io_spec (fun d o => tmp_live p d /\ seq_ok d /\ o = o0) (commit_tmp rev)
    (fun r d o => o = o0 /\ (tmp_live p d \/ settled p d) /\ (is_ok r = true -> settled p d))
    (fun d => live_state_of d = Some p).
Proof.
  unfold commit_tmp.
  eapply spec_bind; [apply store_list_spec; by intros d o (Ht & _); apply tmp_live_state| |].
  2: { intros e d o ((? & _ & ?) & _). split_and!; [done|by left|done]. }
  intros L. apply (spec_pure (forall path, snd <$> last (l_marks L) = Some path -> ~ state_path path)).
  { intros d o [_ HL] path (m & Hm & ->)%fmap_Some. destruct m as [r q]. destruct (HL L eq_refl) as [_ HLm].
    rewrite HLm in Hm. apply last_Some_elem_of, mark_rev_bounds in Hm as [_ Hm]. by eapply mark_entry_not_state. }
  intros Hmark. eapply spec_bind.
  { eapply spec_conseq; [apply (rotate_spec p o0 L)| |done|done]. intros d o ((?&?&?) & HL). split_and!; auto. }
  2: { intros e d o [? ?]. split_and!; [done|by left|done]. }
  intros generation. eapply spec_bind; [by apply mark_spec| |].
  2: { intros e d o [? ?]. split_and!; [done|by left|done]. }
  intros ?. eapply spec_bind with (R := fun r d o => o = o0 /\ (tmp_live p d \/ settled p d) /\ (is_ok r = true -> settled p d)).
  { apply spec_atomic. intros d o [Ht ->]. split_and!; [|intros e; split_and!; [done|by left|done]|by apply tmp_live_state].
    pose proof (tmp_live_valid _ _ Ht) as Hv. unfold valid_at in Hv. destruct (d !! TMP) as [b|] eqn:Hb; [|done].
    assert (settled p (<[CURRENT := b]> (delete TMP d))); [|by split_and!; [|right|]].
    split; [unfold valid_at; by rewrite lookup_insert_eq|]. by rewrite lookup_insert_ne, lookup_delete_eq by done. }
  2: done.
  intros ?. eapply spec_bind with (R := fun r d o => settled p d /\ o = o0).
  { eapply spec_conseq; [apply (sync_dir_spec (fun d o => settled p d /\ o = o0) (fun d => live_state_of d = Some p))| |done|done].
    - by intros d o [? _]; apply settled_state.
    - intros d o (-> & _ & Hs). split; [by apply Hs|done]. }
  2: { intros e d o [Hs ->]. split_and!; [done|by right|done]. }
  intros ?. eapply spec_bind; [apply spec_attempt, prune_spec| |].
  2: { intros e d o (r' & _ & Hs & ->). split_and!; [done|by right|done]. }
  intros pruned. apply spec_ret. intros d o (r' & _ & Hs & ->). split_and!; [done|by right|done].
Qed.

(** ** Moving a file aside *)

Lemma move_aside_from_spec (K C : Dir -> Prop) path tag o0 ns :
  (forall d, K d -> C d) ->
  (forall d b n, K d -> d !! path = Some b -> K (<[aside_name path tag n := b]> (delete path d))) ->
  io_spec (fun d o => K d /\ o = o0) (move_aside_from ns path tag) (fun _ d o => K d /\ o = o0) C.
Proof.
  intros HC HK. induction ns as [|n ns IH]; cbn [move_aside_from].
  - intros w Hw. exact Hw.
  - eapply spec_bind; [apply exists_spec; intros d o [? _]; auto| |by intros e d o [? _]].
    intros taken. destruct taken; [eapply spec_conseq; [exact IH|by intros d o [? _]|done|done]|].
    eapply spec_bind with (R := fun _ d o => K d /\ o = o0); [|intros ?|done].
    + apply spec_atomic. intros d o [[Hk ->] _]. split_and!; [|done|by apply HC].
      destruct (d !! path) as [b|] eqn:Hb; [|done]. split; [by apply HK|done].
    + eapply spec_bind; [apply spec_attempt, sync_dir_spec; intros d o [? _]; auto| |].
      * intros synced. apply spec_ret. by intros d o (? & _ & ?).
      * by intros e d o (? & _ & ?).
Qed.

Lemma orphan_tmp_spec (K C : Dir -> Prop) o0 :
  (forall d, K d -> C d) ->
  (o0 = false -> forall d b n, K d -> d !! TMP = Some b -> K (<[aside_name TMP "orphan" n := b]> (delete TMP d))) ->
  io_spec (fun d o => K d /\ o = o0) orphan_tmp (fun _ d o => K d /\ o = o0) C.
Proof.
  intros HC HK. unfold orphan_tmp.
  eapply spec_bind with (R := fun r d o => (K d /\ o = o0) /\ r = Ok o0).
  { intros w [Hk Ho]. cbn. by rewrite Ho. }
  2: { by intros e d o [? [=]]. }
  intros own. apply (spec_pure (own = o0)); [by intros d o [_ [= ->]]|]. intros ->.
  destruct o0; [apply spec_ret; by intros d o [? _]|].
  eapply spec_bind; [apply exists_spec; intros d o [[? _] _]; auto| |by intros e d o [[? _] _]].
  intros there. destruct there; cbn [negb]; [|apply spec_ret; by intros d o [[? _] _]].
  eapply spec_bind.
  { eapply spec_conseq; [apply (move_aside_from_spec K C TMP "orphan" false (seq 1 QUARANTINE_NAMES) HC (HK eq_refl))| |done|done].
    by intros d o [[? _] _]. }
  2: done.
  intros [aside synced]. eapply spec_bind; [apply spec_lift| |].
  - intros u. apply spec_ret. by intros d o [_ ?].
  - by intros e d o [_ ?].
Qed.

(** What is live does not come from [save.tmp]. *)
Definition not_tmp (L : option (Persisted * Source * Path)) : Prop :=
  forall x, L = Some x -> x.1.2 <> SInterrupted.

(** A [save.tmp] that is not live can go. *)
Lemma drop_tmp L d b path :
  ~ state_path path -> live_spec d = L -> not_tmp L ->
  live_spec (<[path := b]> (delete TMP d)) = L.
Proof.
  intros Hp HL Hn. set (d' := <[path := b]> (delete TMP d)).
  assert (Hne : forall q, state_path q -> path <> q) by by intros q Hq <-.
  assert (Hc : valid_at d' CURRENT = valid_at d CURRENT).
  { apply valid_at_eq. unfold d'. rewrite lookup_insert_ne by (apply Hne; by left). by apply lookup_delete_ne. }
  assert (Ht : valid_at d' TMP = None).
  { unfold valid_at, d'. rewrite lookup_insert_ne by (apply Hne; by right; left). by rewrite lookup_delete_eq. }
  assert (Hg : newest d' = newest d).
  { apply newest_eq. intros q Hq. unfold d'. rewrite lookup_insert_ne by (apply Hne; by right; right).
    apply lookup_delete_ne. intros <-. by destruct Hq as [x Hq]; vm_compute in Hq. }
  unfold live_spec in *. rewrite Hc, Ht, Hg. subst L.
  destruct (valid_at d CURRENT) as [c|]; unfold current_spec, older_spec in *;
    destruct (valid_at d TMP) as [t|]; [|done| |done].
  - destruct (supersedes t c); [|done]. exfalso. by apply (Hn _ eq_refl).
  - destruct (newest d) as [[[g s] q]|]; [|exfalso; by apply (Hn _ eq_refl)].
    destruct (supersedes t g); [|done]. exfalso. by apply (Hn _ eq_refl).
Qed.

(** A newer complete save takes [save.tmp]'s name: it is the live state. *)
Lemma takes_tmp L d p bytes :
  live_spec d = L -> (forall x, L = Some x -> pe_rev x.1.1 <= pe_rev p) -> decode bytes = Ok p ->
  tmp_live p (<[TMP := bytes]> (delete NEW d)).
Proof.
  intros HL Hrev Hd. set (d' := <[TMP := bytes]> (delete NEW d)).
  assert (Hc : valid_at d' CURRENT = valid_at d CURRENT).
  { apply valid_at_eq. unfold d'. by rewrite lookup_insert_ne, lookup_delete_ne by done. }
  assert (Ht : valid_at d' TMP = Some p) by (unfold valid_at, d'; by rewrite lookup_insert_eq, Hd).
  assert (Hg : newest d' = newest d).
  { apply newest_eq. intros q Hq. unfold d'. rewrite lookup_insert_ne.
    - apply lookup_delete_ne. intros <-. by destruct Hq as [x Hq]; vm_compute in Hq.
    - intros <-. by destruct Hq as [x Hq]; vm_compute in Hq. }
  unfold tmp_live, live_spec in *. rewrite Hc, Ht, Hg. subst L.
  assert (Hsup : forall q, pe_rev q <= pe_rev p -> supersedes p q = true) by (intros q Hq; by apply Z.leb_le).
  destruct (valid_at d CURRENT) as [c|]; unfold current_spec, older_spec in *.
  - rewrite Hsup; [done|]. destruct (valid_at d TMP) as [t|]; [|by apply (Hrev _ eq_refl)].
    specialize (Hrev _ eq_refl). destruct (supersedes t c) eqn:E; [|done]. apply Z.leb_le in E. cbn in Hrev. lia.
  - destruct (newest d) as [[[g s] q]|]; [|done]. rewrite Hsup; [done|].
    destruct (valid_at d TMP) as [t|]; [|by apply (Hrev _ eq_refl)].
    specialize (Hrev _ eq_refl). destruct (supersedes t g) eqn:E; [|done]. apply Z.leb_le in E. cbn in Hrev. lia.
Qed.

Lemma seq_ok_frame d d' :
  (forall path, is_Some (generation_parts path) -> d' !! path = d !! path) -> seq_ok d -> seq_ok d'.
Proof. intros Hd Hok. unfold seq_ok. by rewrite (gens_frame d d' Hd). Qed.

Lemma aside_new_tmp n : aside_name TMP "orphan" n <> NEW.
Proof. intros E. by vm_compute in E. Qed.

(** ** One save *)

(** What a save of [p] over the live state [L] may leave, whatever happens:
    the old state or [p]; [p] in [current.json] when it succeeds; and the
    store's flag never claims a live [save.tmp] for someone else. *)
Definition saved_or_kept (L : option (Persisted * Source * Path)) (p : Persisted) (d : Dir) : Prop :=
  live_state_of d = ((fun x => x.1.1) <$> L) \/ live_state_of d = Some p.

Lemma save_spec p L o0 bytes :
  encode p = Ok bytes -> decode bytes = Ok p ->
  (forall x, L = Some x -> pe_rev x.1.1 <= pe_rev p) -> (o0 = false -> not_tmp L) ->
  io_spec (fun d o => live_spec d = L /\ seq_ok d /\ o = o0) (save p)
    (fun r d o => saved_or_kept L p d /\ (is_ok r = true -> settled p d) /\ (o = false -> not_tmp (live_spec d)))
    (saved_or_kept L p).
Proof.
  intros He Hd Hrev Hown. unfold save, write_synced.
  set (K := fun d : Dir => live_spec d = L /\ seq_ok d).
  assert (HKL : forall d, K d -> saved_or_kept L p d) by (intros d [<- _]; by left).
  assert (Hkeep : forall d o, K d -> o = o0 -> saved_or_kept L p d /\ (o = false -> not_tmp (live_spec d))).
  { intros d o Hk ->. split; [by apply HKL|]. destruct Hk as [-> _]. done. }
  assert (Hnew : forall d b, K d -> K (<[NEW := b]> d)).
  { intros d b [Hl Hok]. split; [by rewrite write_other by apply new_not_state|].
    eapply seq_ok_frame; [|done]. intros q [x Hq]. apply lookup_insert_ne. intros <-. by vm_compute in Hq. }
  eapply spec_bind; [apply spec_lift|intros b|].
  2: { by intros e d o [HE _]; rewrite He in HE. }
  apply (spec_pure (b = bytes)); [intros d o [HE _]; congruence|]. intros ->.
  eapply spec_bind with (R := fun r d o => (K d /\ o = o0) /\ (is_ok r = true -> d !! NEW = Some bytes)).
  { eapply spec_bind with (R := fun r d o => (K d /\ o = o0) /\ (is_ok r = true -> d !! NEW = Some bytes)).
    - apply spec_op. intros d o (_ & Hl & Hok & ->). assert (K d) as Hk by by split.
      split; [split; [split; [by apply Hnew|done]|intros _; apply lookup_insert_eq]|].
      split; [intros e; split; [by split|done]|].
      split; [intros e n; split; [split; [by apply Hnew|done]|done]|].
      split; [by apply HKL|intros n; by apply HKL, Hnew].
    - intros ?. eapply spec_conseq; [apply (sync_file_spec NEW (fun d o => (K d /\ o = o0) /\ d !! NEW = Some bytes) (saved_or_kept L p))| | |done].
      + intros d o [[Hk _] _]. by apply HKL.
      + intros d o [? Hb]. split; [done|]. by apply Hb.
      + intros r d o [? Hb]. by split.
    - by intros e d o [? _]. }
  2: { intros e d o [[Hk Ho] _]. destruct (Hkeep d o Hk Ho). by split_and!. }
  intros ?. set (K' := fun d => K d /\ d !! NEW = Some bytes).
  eapply spec_bind with (R := fun _ d o => K' d /\ o = o0).
  { eapply spec_conseq; [apply (orphan_tmp_spec K' (saved_or_kept L p) o0)| |done|done].
    - intros d [Hk _]. by apply HKL.
    - intros Ho d b n [[Hl Hok] Hb] Ht. split; [split|].
      + apply drop_tmp; [apply aside_not_state_tmp|done|by apply Hown].
      + eapply seq_ok_frame; [|done]. intros q [x Hq]. rewrite lookup_insert_ne.
        * apply lookup_delete_ne. intros <-. by vm_compute in Hq.
        * intros <-. by vm_compute in Hq.
      + rewrite lookup_insert_ne by apply aside_new_tmp. by rewrite lookup_delete_ne.
    - intros d o [[Hk ->] Hb]. split; [split; [done|by apply Hb]|done]. }
  2: { intros e d o [[Hk _] Ho]. destruct (Hkeep d o Hk Ho). by split_and!. }
  intros orphaned. set (T := fun d => tmp_live p d /\ seq_ok d).
  assert (HT : forall d, K' d -> T (<[TMP := bytes]> (delete NEW d))).
  { intros d [[Hl Hok] Hb]. split; [by eapply takes_tmp|].
    eapply seq_ok_frame; [|done]. intros q [x Hq]. rewrite lookup_insert_ne.
    - apply lookup_delete_ne. intros <-. by vm_compute in Hq.
    - intros <-. by vm_compute in Hq. }
  eapply spec_bind with (R := fun r d o => (is_ok r = true /\ T d) \/ (is_ok r = false /\ K' d /\ o = o0)).
  { apply spec_map_err, spec_atomic. intros d o [Hk ->]. split_and!; [|intros e; by right|apply HKL, Hk].
    destruct Hk as [Hk Hb]. rewrite Hb. left. split; [done|]. by apply HT. }
  2: { intros e d o [[? _]|(_ & [Hk _] & Ho)]; [done|]. destruct (Hkeep d o Hk Ho). by split_and!. }
  intros ?. eapply spec_bind with (R := fun _ d o => T d /\ o = true).
  { intros w [[_ Ht]|[? _]]; [|done]. cbn. by split. }
  2: { intros e d o [[Ht _] ->]. split_and!; [right; by apply tmp_live_state|done|done]. }
  intros ?. eapply spec_bind with (R := fun r d o => o = true /\ (tmp_live p d \/ settled p d) /\ (is_ok r = true -> settled p d)).
  { apply spec_map_err. eapply spec_conseq; [apply (commit_spec p true (pe_rev p))| | |].
    - intros d o [[? ?] ->]. done.
    - intros r d o (-> & ? & ?). split_and!; [done|done|]. by destruct r.
    - intros d Hl. by right. }
  - intros cm. apply spec_ret. intros d o (-> & _ & Hs). specialize (Hs eq_refl).
    split_and!; [right; by apply settled_state|done|done].
  - intros e d o (-> & Ht & _). split_and!; [|done|done]. right.
    destruct Ht; [by apply tmp_live_state|by apply settled_state].
Qed.
End crash.
