(* ===== verification/Boot.v ===== *)
(** * The boot's recovery, and operations that succeed

    [recover_spec]: whatever fails while the boot normalizes the directory,
    the live state stays what was loaded.  [save_quiet]: a save no operation
    of which fails succeeds. *)

From S2P Require Import Prelude Text MixState Msg Shape Topology Reconciled Disk Codec Store Chain Live Crash.
From stdpp Require Import options.
Local Open Scope Z_scope.
#[local] Unset Default Proof Using.

Section boot.
Context `{Json, Sha256}.

(** A [current.json] that is not valid can go. *)
Lemma drop_current d b path :
  ~ state_path path -> valid_at d CURRENT = None ->
  live_spec (<[path := b]> (delete CURRENT d)) = live_spec d.
Proof.
  intros Hp Hc. set (d' := <[path := b]> (delete CURRENT d)).
  assert (Hne : forall q, state_path q -> path <> q) by by intros q Hq <-.
  assert (Hc' : valid_at d' CURRENT = None).
  { unfold valid_at, d'. rewrite lookup_insert_ne by (apply Hne; by left). by rewrite lookup_delete_eq. }
  assert (Ht : valid_at d' TMP = valid_at d TMP).
  { apply valid_at_eq. unfold d'. rewrite lookup_insert_ne by (apply Hne; by right; left). by apply lookup_delete_ne. }
  assert (Hg : newest d' = newest d).
  { apply newest_eq. intros q Hq. unfold d'. rewrite lookup_insert_ne by (apply Hne; by right; right).
    apply lookup_delete_ne. intros <-. by destruct Hq as [x Hq]; vm_compute in Hq. }
  unfold live_spec. by rewrite Hc, Hc', Ht, Hg.
Qed.

Lemma state_at_damaged d path : read_file_state (state_at d path) = FsDamaged -> valid_at d path = None.
Proof. rewrite valid_state_at. by destruct (state_at d path). Qed.

Lemma loads_not_unreadable topo d l : loads topo d l -> ld_current_json l <> FsUnreadable.
Proof.
  intros (_ & -> & _). pose proof (state_at_readable d CURRENT). by destruct (state_at d CURRENT).
Qed.

Lemma live_spec_tmp d p path : live_spec d = Some (p, SInterrupted, path) -> path = TMP.
Proof.
  unfold live_spec, current_spec, older_spec.
  destruct (valid_at d CURRENT) as [c|], (valid_at d TMP) as [t|], (newest d) as [[[g sq] q]|];
    repeat case_match; congruence.
Qed.

Lemma loads_interrupted topo d l :
  loads topo d l -> ld_source l = SInterrupted ->
  exists p, tmp_live p d /\ pe_rev (ld_persisted l) = pe_rev p.
Proof.
  intros [Hl _] Hs. unfold tmp_live. destruct (live_spec d) as [[[p src] path]|] eqn:E.
  - destruct Hl as [<- ->]. rewrite Hs in *. exists p. split; [|done]. by rewrite (live_spec_tmp _ _ _ E).
  - unfold fallback in Hl. destruct (valid_at d BASELINE); destruct Hl; congruence.
Qed.

Lemma loads_not_interrupted topo d l :
  loads topo d l -> ld_source l <> SInterrupted -> not_tmp (live_spec d).
Proof.
  intros [Hl _] Hs [[p src] path] Hx. rewrite Hx in Hl. cbn. destruct Hl as [E _]. congruence.
Qed.

Lemma quarantine_spec (L : option (Persisted * Source * Path)) (l : Loaded) o0 :
  io_spec (fun d o => live_spec d = L /\ seq_ok d /\ o = o0 /\ (ld_current_json l = FsDamaged -> valid_at d CURRENT = None))
    (quarantine l)
    (fun r d o => is_ok r = true /\ live_spec d = L /\ seq_ok d /\ o = o0)
    (fun d => live_spec d = L).
Proof.
  unfold quarantine. case_decide as Hdam.
  2: { apply spec_ret. by intros d o (? & ? & ? & _). }
  set (K := fun d => live_spec d = L /\ seq_ok d /\ valid_at d CURRENT = None).
  eapply spec_bind with (R := fun r d o => is_ok r = true /\ K d /\ o = o0).
  - eapply spec_conseq; [apply spec_attempt, (move_aside_from_spec K (fun d => live_spec d = L) CURRENT "damaged" o0 (seq 1 QUARANTINE_NAMES))| | |done].
    + by intros d [? _].
    + intros d b n (Hl & Hok & Hc) Hb. split_and!.
      * by rewrite drop_current by (apply aside_not_state_current || done).
      * eapply seq_ok_frame; [|done]. intros q [x Hq]. rewrite lookup_insert_ne.
        -- apply lookup_delete_ne. intros <-. by vm_compute in Hq.
        -- intros <-. by vm_compute in Hq.
      * unfold valid_at. rewrite lookup_insert_ne; [by rewrite lookup_delete_eq|].
        intros E. by vm_compute in E.
    + intros d o (Hl & Hok & -> & Hc). split; [|done]. split_and!; auto.
    + intros r d o (r' & -> & Hk & ->). by split_and!.
  - intros moved. apply spec_ret. intros d o (_ & (? & ? & _) & ->). by split_and!.
  - by intros e d o [? _].
Qed.

Lemma recover_spec topo l d0 :
  loads topo d0 l -> seq_ok d0 ->
  io_spec (fun d _ => d = d0) (recover l)
    (fun r d o => live_state_of d = live_state_of d0 /\ (o = false -> not_tmp (live_spec d))
       /\ forall rc, r = Ok rc ->
            (ld_source l = SInterrupted -> (rc_finished rc = true /\ exists p, settled p d) \/ rc_failed rc <> [])
            /\ (ld_source l <> SInterrupted -> rc_finished rc = false))
    (fun d => live_state_of d = live_state_of d0).
Proof.
  intros Hl Hok. unfold recover.
  set (o0 := bool_decide (ld_save_tmp l = FsMissing) || bool_decide (ld_source l = SInterrupted)).
  assert (Ho : o0 = false -> not_tmp (live_spec d0)).
  { intros [_ Hs]%orb_false_iff. apply bool_decide_eq_false in Hs. by eapply loads_not_interrupted. }
  eapply spec_bind with (R := fun r d o => is_ok r = true /\ d = d0 /\ o = o0).
  { intros w Hw. cbn. by split_and!. }
  2: { by intros e d o [? _]. }
  intros ?. eapply spec_bind.
  { eapply spec_conseq; [apply (quarantine_spec (live_spec d0) l o0)| |done|].
    - intros d o (_ & -> & ->). split_and!; [done|done|done|]. intros Hd. apply state_at_damaged.
      destruct Hl as (_ & Hc & _). congruence.
    - intros d Hd. unfold live_state_of. by rewrite Hd. }
  2: { by intros e d o [? _]. }
  intros [quarantined failed]. pose proof (loads_not_unreadable _ _ _ Hl) as Hu.
  rewrite (bool_decide_eq_false_2 (ld_current_json l = FsUnreadable)) by done. rewrite andb_false_r.
  case_decide as Hs.
  - destruct (loads_interrupted _ _ _ Hl Hs) as (p & Hp & Hrev).
    assert (HL : live_state_of d0 = Some p) by by apply tmp_live_state.
    eapply spec_bind.
    { apply spec_attempt. unfold finish_interrupted.
      eapply spec_bind with (R := fun _ d o => tmp_live p d /\ seq_ok d /\ o = o0).
      - eapply spec_conseq; [apply (sync_file_spec TMP (fun d o => tmp_live p d /\ seq_ok d /\ o = o0) (fun d => live_state_of d = live_state_of d0))| |done|done].
        + intros d o (Ht & _). rewrite HL. by apply tmp_live_state.
        + intros d o (_ & Hd & ? & ?). split_and!; [|done|done]. unfold tmp_live. by rewrite Hd.
      - intros ?. eapply spec_conseq; [apply (commit_spec p o0)|done|done|]. intros d Hd. by rewrite HL.
      - intros e d o (Ht & _ & ->). split_and!; [done|by left|done]. }
    2: { by intros e d o (? & [=] & _). }
    intros finished. apply spec_ret. intros d o (r & [= ->] & -> & Ht & Hset).
    split_and!.
    + rewrite HL. destruct Ht; [by apply tmp_live_state|by apply settled_state].
    + intros E. subst o0. rewrite (bool_decide_eq_true_2 (ld_source l = SInterrupted)), orb_true_r in E by done. done.
    + intros rc [= <-]. split; [|done]. intros _.
      destruct r as [cm|e]; cbn; [left; eauto|right]. by destruct failed.
  - apply spec_ret. intros d o (_ & Hd & _ & ->). unfold live_state_of. rewrite Hd. split_and!; [done|done|].
    intros rc [= <-]. by split.
Qed.

(** ** A save no operation of which fails *)

(** [m] ends well from a directory without faults. *)
Definition io_total {A : Type} (P : Dir -> bool -> Prop) (m : IoM A) (Q : A -> Dir -> bool -> Prop) : Prop :=
  forall d o n, P d o -> exists d' o' a, m (quiet d o n) = ODone (quiet d' o' n) (Ok a) /\ Q a d' o'.

Lemma total_bind {A B : Type} P (m : IoM A) (f : A -> IoM B) R Q :
  io_total P m R -> (forall a, io_total (R a) (f a) Q) -> io_total P (m ≫= f) Q.
Proof.
  intros Hm Hf d o n Hp. destruct (Hm d o n Hp) as (d1 & o1 & a & H1 & Hr).
  rewrite (io_bind_done _ _ _ _ _ H1). by apply Hf.
Qed.

Lemma total_ret {A : Type} (P : Dir -> bool -> Prop) (a : A) (Q : A -> Dir -> bool -> Prop) :
  (forall d o, P d o -> Q a d o) -> io_total P (mret a) Q.
Proof. intros HQ d o n Hp. exists d, o, a. by split; [|apply HQ]. Qed.

Lemma total_op {A : Type} (go : Dir -> result IoError (Dir * A)) part (P : Dir -> bool -> Prop) (Q : A -> Dir -> bool -> Prop) :
  (forall d o, P d o -> exists d' a, go d = Ok (d', a) /\ Q a d' o) -> io_total P (io_op go part) Q.
Proof.
  intros H1 d o n Hp. destruct (H1 d o Hp) as (d' & a & Hg & Hq). exists d', o, a. unfold io_op; cbn. rewrite Hg.
  by split.
Qed.

Lemma total_attempt {A : Type} P (m : IoM A) (Q : A -> Dir -> bool -> Prop) :
  io_total P m Q -> io_total P (attempt m) (fun r d o => exists a, r = Ok a /\ Q a d o).
Proof.
  intros Hm d o n Hp. destruct (Hm d o n Hp) as (d' & o' & a & H1 & Hq). unfold attempt. rewrite H1. eauto 10.
Qed.

Lemma total_map_err {A : Type} P (m : IoM A) f (Q : A -> Dir -> bool -> Prop) :
  io_total P m Q -> io_total P (io_map_err f m) Q.
Proof. intros Hm d o n Hp. destruct (Hm d o n Hp) as (d' & o' & a & H1 & Hq). unfold io_map_err. rewrite H1. eauto. Qed.

Lemma store_list_total (P : Dir -> bool -> Prop) :
  io_total P store_list (fun L d o => P d o /\ is_listing d L).
Proof.
  intros d o n Hp. unfold store_list, fs_list, io_op, mbind, IoM_bind, io_lift; cbn. rewrite listing_names.
  by eexists _, _, _.
Qed.

Lemma exists_total (P : Dir -> bool -> Prop) path :
  io_total P (fs_exists path) (fun b d o => P d o /\ b = bool_decide (is_Some (d !! path))).
Proof. apply total_op. intros d o Hp. by eexists _, _. Qed.

Lemma remove_all_total paths d0 o0 :
  NoDup paths -> Forall (fun q => is_Some (d0 !! q)) paths ->
  io_total (fun d o => d = d0 /\ o = o0) (remove_all paths)
    (fun _ d o => o = o0 /\ forall q, d !! q = if decide (q ∈ paths) then None else d0 !! q).
Proof.
  revert d0. induction paths as [|path paths IH]; intros d0 Hnd Hall; cbn [remove_all].
  - apply total_ret. intros d o [-> ->]. split; [done|]. intros q. by rewrite decide_False by apply not_elem_of_nil.
  - apply NoDup_cons in Hnd as [Hn Hnd]. apply Forall_cons in Hall as [[b Hb] Hall].
    eapply total_bind with (R := fun _ d o => d = delete path d0 /\ o = o0).
    + apply total_op. intros d o [-> ->]. rewrite Hb. by eexists _, _.
    + intros ?. intros d o n Hp. destruct (IH (delete path d0) Hnd) with (d := d) (o := o) (n := n) as (d' & o' & a' & H1 & -> & Hq).
      * rewrite Forall_forall in *. intros q Hq. rewrite lookup_delete_ne; [by apply Hall|]. by intros ->.
      * done.
      * exists d', o0, a'. split; [done|]. split; [done|]. intros q. rewrite Hq.
        destruct (decide (q = path)) as [->|Hne].
        -- rewrite (decide_True (P := path ∈ path :: paths)) by by left. rewrite lookup_delete_eq. by case_decide.
        -- rewrite lookup_delete_ne by done. destruct (decide (q ∈ paths)).
           ++ rewrite decide_True; [done|by right].
           ++ rewrite decide_False; [done|]. by intros [?|?]%elem_of_cons.
Qed.

(** The generations that stay. *)
Definition kept (gens : list (Z * Path)) : list (Z * Path) := drop (length gens - GENERATIONS) gens.

Lemma gens_paths_nodup names : NoDup names -> NoDup (gens_of names).*2.
Proof.
  intros Hn. apply NoDup_fmap_2_strong; [|unfold gens_of; rewrite merge_sort_Permutation; by apply NoDup_gens].
  intros [s1 q1] [s2 q2] (_ & r1 & H1)%elem_of_gens (_ & r2 & H2)%elem_of_gens. cbn. intros ->. congruence.
Qed.

(** The generations that go. *)
Definition pruned (gens : list (Z * Path)) : list Path := (take (length gens - GENERATIONS) gens).*2.

Lemma elem_of_pruned names q :
  NoDup names -> q ∈ pruned (gens_of names) <-> exists seq, (seq, q) ∈ gens_of names /\ (seq, q) ∉ kept (gens_of names).
Proof.
  intros Hn. pose proof (gens_paths_nodup _ Hn) as Hnd. unfold pruned, kept.
  set (gens := gens_of names) in *. set (k := (length gens - GENERATIONS)%nat).
  rewrite <-(take_drop k gens), fmap_app, NoDup_app in Hnd. destruct Hnd as (_ & Hdis & _).
  rewrite list_elem_of_fmap. split.
  - intros ([seq q'] & -> & Hin). exists seq. split.
    + rewrite <-(take_drop k gens), elem_of_app. by left.
    + intros Hd. apply (Hdis q'); apply list_elem_of_fmap; by exists (seq, q').
  - intros (seq & Hin & Hd). exists (seq, q). split; [done|].
    rewrite <-(take_drop k gens), elem_of_app in Hin. tauto.
Qed.

Lemma prune_total d0 o0 :
  io_total (fun d o => d = d0 /\ o = o0) prune
    (fun _ d o => o = o0 /\ gens_of (dir_names d) = kept (gens_of (dir_names d0))
       /\ forall q, q ∉ pruned (gens_of (dir_names d0)) -> d !! q = d0 !! q).
Proof.
  intros d o n [-> ->]. unfold prune, generations. cbn zeta.
  set (gens := gens_of (dir_names d0)).
  rewrite (io_bind_done _ _ _ _ _ (generations_quiet d0 o0 n)). fold gens.
  destruct (remove_all_total (pruned gens) d0 o0) with (d := d0) (o := o0) (n := n) as (d' & o' & u & H1 & -> & Hq).
  - unfold pruned. rewrite fmap_take. eapply sublist_NoDup; [|apply sublist_take]. apply gens_paths_nodup, NoDup_dir_names.
  - apply Forall_forall. intros q (seq & Hin & _)%elem_of_pruned; [|apply NoDup_dir_names].
    apply elem_of_gens in Hin as [Hin _]. by apply elem_of_dir_names.
  - done.
  - exists d', o0, u. split; [exact H1|]. split_and!; [done| |].
    + apply (StronglySorted_unique num_le); [apply gens_sorted| |].
      * unfold kept. eapply (StronglySorted_app_1_r _ (take (length gens - GENERATIONS) gens)). rewrite take_drop. apply gens_sorted.
      * apply NoDup_Permutation.
        -- unfold gens_of. rewrite merge_sort_Permutation. apply NoDup_gens, NoDup_dir_names.
        -- unfold kept. eapply sublist_NoDup; [|apply sublist_drop]. unfold gens, gens_of. rewrite merge_sort_Permutation. apply NoDup_gens, NoDup_dir_names.
        -- intros [seq q]. rewrite elem_of_gens, elem_of_dir_names, Hq. case_decide as Hp.
           ++ split; [by intros [[? [=]] _]|]. intros Hk. exfalso.
              apply elem_of_pruned in Hp as (seq' & Hin & Hnk); [|apply NoDup_dir_names].
              assert (Hin2 : (seq, q) ∈ gens) by (unfold kept in Hk; by eapply subseteq_drop).
              apply elem_of_gens in Hin as (_ & r1 & G1). apply elem_of_gens in Hin2 as (_ & r2 & G2).
              rewrite G1 in G2. by simplify_eq.
           ++ rewrite <-elem_of_dir_names, <-elem_of_gens. fold gens. split.
              ** intros Hin. destruct (decide ((seq, q) ∈ kept gens)) as [|Hnk]; [done|].
                 destruct Hp. apply elem_of_pruned; [apply NoDup_dir_names|]. by exists seq.
              ** intros Hk. unfold kept in Hk. by eapply subseteq_drop.
    + intros q Hn. rewrite Hq. by rewrite decide_False.
Qed.

(** The generations after a rotation. *)
Definition rotated (d : Dir) : list (Z * Path) :=
  gens_of (dir_names d)
  ++ (if decide (is_Some (d !! CURRENT)) then [(next_seq (gens_of (dir_names d)), gen_name d)] else []).

Lemma rotate_total d0 o0 L :
  seq_ok d0 -> is_listing d0 L ->
  io_total (fun d o => d = d0 /\ o = o0) (rotate L)
    (fun g d o => o = o0 /\ gens_of (dir_names d) = rotated d0
       /\ (forall q, q <> CURRENT -> q <> gen_name d0 -> d !! q = d0 !! q)
       /\ (forall b, d0 !! CURRENT = Some b -> g = next_seq (gens_of (dir_names d0)) /\ d !! gen_name d0 = Some b)
       /\ (d0 !! CURRENT = None -> g = 0)).
Proof.
  intros Hok [HLg HLm]. unfold rotate, rotated.
  eapply total_bind; [apply exists_total|]. intros there. destruct there.
  - eapply total_bind with (R := fun _ d o => o = o0 /\ exists b, d0 !! CURRENT = Some b
      /\ d = <[gen_name d0 := b]> (delete CURRENT d0)).
    + apply total_op. intros d o [[-> ->] Hb]. symmetry in Hb. apply bool_decide_eq_true in Hb as [b Hb]. rewrite Hb, HLg, HLm.
      eexists _, _. split; [done|]. split; [done|]. by exists b.
    + intros u. apply total_ret. intros d o (-> & b & Hb & ->).
      rewrite decide_True by by eexists. split_and!; [done|by apply gens_rotated| | |congruence].
      * intros q H1 H2. by rewrite lookup_insert_ne, lookup_delete_ne.
      * intros b' Hb'. rewrite lookup_insert_eq, HLg. by simplify_eq.
  - apply total_ret. intros d o [[-> ->] Hb]. symmetry in Hb. apply bool_decide_eq_false, eq_None_not_Some in Hb.
    rewrite decide_False by (rewrite Hb; by intros [? ?]). rewrite app_nil_r. split_and!; try done. intros b. congruence.
Qed.

Lemma mark_total d0 o0 old rev :
  (forall path, old = Some path -> ~ state_path path /\ is_Some (d0 !! path)) ->
  io_total (fun d o => d = d0 /\ o = o0) (mark old rev)
    (fun _ d o => o = o0 /\ forall q, state_path q -> d !! q = d0 !! q).
Proof.
  intros Hold. unfold mark. destruct old as [old|]; cbn zeta; [case_decide|].
  - apply total_ret. by intros d o [-> ->].
  - destruct (Hold old eq_refl) as [Hs [b Hb]]. apply total_op. intros d o [-> ->]. rewrite Hb.
    eexists _, _. split; [done|]. split; [done|]. intros q Hq.
    rewrite lookup_insert_ne by (intros <-; by apply (mark_not_state rev)).
    apply lookup_delete_ne. by intros <-.
  - apply total_op. intros d o [-> ->]. eexists _, _. split; [done|]. split; [done|]. intros q Hq.
    apply lookup_insert_ne. intros <-. by apply (mark_not_state rev).
Qed.

(** What a commit of [bytes] leaves. *)
Definition committed (d0 : Dir) (bytes : string) (cm : Committed) (d : Dir) : Prop :=
  d !! CURRENT = Some bytes /\ d !! TMP = None /\ cm_pruning cm = None
  /\ gens_of (dir_names d) = kept (rotated d0)
  /\ (forall b, d0 !! CURRENT = Some b ->
        cm_generation cm = next_seq (gens_of (dir_names d0)) /\ d !! gen_name d0 = Some b)
  /\ (d0 !! CURRENT = None -> cm_generation cm = 0).

Lemma kept_last gens x : x ∈ kept (gens ++ [x]).
Proof.
  unfold kept. rewrite length_app. cbn [length]. unfold GENERATIONS.
  rewrite drop_app_le by lia. apply elem_of_app. right. by apply list_elem_of_singleton.
Qed.

Lemma commit_total d0 o0 rev bytes :
  seq_ok d0 -> d0 !! TMP = Some bytes ->
  io_total (fun d o => d = d0 /\ o = o0) (commit_tmp rev) (fun cm d o => o = o0 /\ committed d0 bytes cm d).
Proof.
  intros Hok Hb d o n [-> ->]. unfold commit_tmp. destruct (gen_name_other d0) as (N1 & N2 & _).
  destruct (store_list_total (fun d o => d = d0 /\ o = o0) d0 o0 n ltac:(done)) as (d' & o' & L & HL & [-> ->] & Hl).
  rewrite (io_bind_done _ _ _ _ _ HL). destruct Hl as [HLg HLm].
  destruct (rotate_total d0 o0 L Hok ltac:(done) d0 o0 n ltac:(done)) as (d1 & o1 & g & Hg & -> & Gg & Gq & Gb & Gn).
  rewrite (io_bind_done _ _ _ _ _ Hg).
  destruct (mark_total d1 o0 (snd <$> last (l_marks L)) rev) with (d := d1) (o := o0) (n := n)
    as (d2 & o2 & u & Hm & -> & Mq); [|done|].
  { intros path (m & Hm & ->)%fmap_Some. destruct m as [r q]. rewrite HLm in Hm. apply last_Some_elem_of in Hm.
    pose proof (mark_rev_bounds _ _ _ Hm) as [_ He]. destruct (mark_entry_not_state _ _ _ He) as [_ Hs]. cbn.
    split; [done|]. rewrite Gq; [|intros ->; apply Hs; by left|].
    - apply elem_of_dir_names. unfold marks_of in Hm. rewrite merge_sort_Permutation, list_elem_of_omap in Hm.
      destruct Hm as (name & Hin & He'). by destruct (mark_entry_not_state _ _ _ He') as [-> _].
    - intros ->. apply Hs. right; right. rewrite gen_name_parts. by eexists. }
  rewrite (io_bind_done _ _ _ _ _ Hm).
  assert (Ht : d2 !! TMP = Some bytes) by (rewrite Mq by (by right; left); by rewrite Gq).
  set (d3 := <[CURRENT := bytes]> (delete TMP d2)).
  assert (Hr : fs_rename TMP CURRENT (quiet d2 o0 n) = ODone (quiet d3 o0 n) (Ok tt)).
  { unfold fs_rename, io_op; cbn. by rewrite Ht. }
  rewrite (io_bind_done _ _ _ _ _ Hr). rewrite (io_bind_done fs_sync_dir _ _ (quiet d3 o0 n) tt) by done.
  destruct (prune_total d3 o0 d3 o0 n ltac:(done)) as (d4 & o4 & v & Hp & -> & Pg & Pq).
  rewrite (io_bind_done (attempt prune) _ _ (quiet d4 o0 n) (Ok v)) by (unfold attempt; by rewrite Hp).
  eexists d4, o0, _. split; [done|]. split; [done|].
  assert (Hgen3 : gens_of (dir_names d3) = rotated d0).
  { rewrite <-Gg. transitivity (gens_of (dir_names d2)).
    - apply gens_frame. intros q [x Hq]. unfold d3. rewrite lookup_insert_ne by (intros <-; by vm_compute in Hq).
      apply lookup_delete_ne. intros <-. by vm_compute in Hq.
    - apply gens_frame. intros q Hq. apply Mq. by right; right. }
  rewrite Hgen3 in Pg, Pq.
  assert (Hcur : forall q, generation_parts q = None -> d4 !! q = d3 !! q).
  { intros q Hq. apply Pq. rewrite <-Hgen3. intros (s & Hin & _)%elem_of_pruned; [|apply NoDup_dir_names].
    apply elem_of_gens in Hin as (_ & r & Hr'). congruence. }
  split_and!.
  - rewrite Hcur by by vm_compute. apply lookup_insert_eq.
  - rewrite Hcur by by vm_compute. unfold d3. by rewrite lookup_insert_ne, lookup_delete_eq by done.
  - done.
  - done.
  - intros b Hb'. destruct (Gb b Hb') as [-> Hgb]. split; [done|]. rewrite Pq.
    + unfold d3. rewrite lookup_insert_ne, lookup_delete_ne by done. rewrite Mq; [done|].
      right; right. rewrite gen_name_parts. by eexists.
    + rewrite <-Hgen3. intros (s & Hin & Hnk)%elem_of_pruned; [|apply NoDup_dir_names]. rewrite Hgen3 in Hin, Hnk.
      assert (s = next_seq (gens_of (dir_names d0))) as ->.
      { rewrite <-Hgen3 in Hin. apply elem_of_gens in Hin as (_ & r & Hr'). rewrite gen_name_parts in Hr'. congruence. }
      apply Hnk. unfold rotated. rewrite decide_True by by eexists. apply kept_last.
  - done.
Qed.

Lemma save_total p bytes d0 o0 n :
  encode p = Ok bytes -> seq_ok d0 -> o0 = true \/ d0 !! TMP = None ->
  let d1 := <[TMP := bytes]> (delete NEW (<[NEW := bytes]> d0)) in
  exists d cm, save p (quiet d0 o0 n) = ODone (quiet d true n) (Ok cm)
    /\ committed d1 bytes cm d /\ cm_orphaned cm = None.
Proof.
  intros He Hok Hown d1. unfold save. rewrite (io_bind_done (io_lift (encode p)) _ _ (quiet d0 o0 n) bytes) by by rewrite He.
  set (dn := <[NEW := bytes]> d0).
  assert (Hw : write_synced NEW bytes (quiet d0 o0 n) = ODone (quiet dn o0 n) (Ok tt)).
  { unfold write_synced. rewrite (io_bind_done _ _ _ (quiet dn o0 n) tt) by done.
    unfold fs_sync_file, io_op; cbn. unfold dn. by rewrite lookup_insert_eq. }
  rewrite (io_bind_done _ _ _ _ _ Hw).
  assert (Ho : orphan_tmp (quiet dn o0 n) = ODone (quiet dn o0 n) (Ok None)).
  { unfold orphan_tmp. rewrite (io_bind_done get_own _ _ (quiet dn o0 n) o0) by done.
    destruct o0; [done|]. destruct Hown as [|Ht]; [done|].
    rewrite (io_bind_done (fs_exists TMP) _ _ (quiet dn false n) false); [done|].
    unfold fs_exists, io_op; cbn. unfold dn. rewrite lookup_insert_ne by done. by rewrite Ht. }
  rewrite (io_bind_done _ _ _ _ _ Ho).
  rewrite (io_bind_done _ _ _ (quiet d1 o0 n) tt).
  2: { unfold io_map_err, fs_rename, io_op; cbn. unfold dn. by rewrite lookup_insert_eq. }
  rewrite (io_bind_done (set_own true) _ _ (quiet d1 true n) tt) by done.
  assert (Hok1 : seq_ok d1).
  { eapply seq_ok_frame; [|done]. intros q [x Hq]. unfold d1.
    rewrite lookup_insert_ne, lookup_delete_ne, lookup_insert_ne; [done|..]; intros <-; by vm_compute in Hq. }
  destruct (commit_total d1 true (pe_rev p) bytes Hok1) with (d := d1) (o := true) (n := n)
    as (d & o & cm & Hc & -> & Hcm); [by apply lookup_insert_eq|done|].
  rewrite (io_bind_done _ _ _ (quiet d true n) cm) by (unfold io_map_err; by rewrite Hc).
  eexists d, _. split; [done|]. by split.
Qed.
End boot.
