(* ===== verification/PersistSpec.v ===== *)
(** * What persistence promises

    The properties of [persist.rs] and [persist/chain.rs]: crash safety of a
    save and of the boot's recovery, what a save leaves, which state a load
    finds, retries and their bound, the revision jump, the lock, the save
    schedule. *)

From S2P Require Import Prelude Text MixState Msg Shape Topology TopologyWf Reconciled Disk Codec Store Chain Live Crash Boot.
From stdpp Require Import options.
Local Open Scope Z_scope.
#[local] Unset Default Proof Using.

(** ** Counting pauses *)

(** Operations that never pause. *)
Definition unpaused {A : Type} (m : IoM A) : Prop :=
  forall w, match m w with ODone w' _ | OCrash w' => w_pauses w' = w_pauses w end.

Lemma unpaused_op {A : Type} (go : Dir -> result IoError (Dir * A)) part : unpaused (io_op go part).
Proof.
  intros w. unfold io_op. destruct (w_script w) as [|[|e pt|e n|pt] s]; try done;
    destruct (go (w_files w)) as [[d a]|e']; done.
Qed.

Lemma unpaused_bind {A B : Type} (m : IoM A) (f : A -> IoM B) :
  unpaused m -> (forall a, unpaused (f a)) -> unpaused (m ≫= f).
Proof.
  intros Hm Hf w. specialize (Hm w). unfold mbind, IoM_bind. destruct (m w) as [w' [a|e]|w']; try done.
  specialize (Hf a w'). destruct (f a w'); congruence.
Qed.

Lemma unpaused_attempt {A : Type} (m : IoM A) : unpaused m -> unpaused (attempt m).
Proof. intros Hm w. specialize (Hm w). unfold attempt. by destruct (m w). Qed.

Lemma unpaused_ret {A : Type} (a : A) : unpaused (mret a).
Proof. done. Qed.

Lemma unpaused_lift {A : Type} (r : result IoError A) : unpaused (io_lift r).
Proof. done. Qed.

Lemma unpaused_list : unpaused store_list.
Proof.
  apply unpaused_bind; [|intros; apply unpaused_lift]. intros w. unfold fs_list.
  destruct (w_script w) as [|[]]; try done; apply (unpaused_op (fun d => Ok (d, entry <$> dir_names d)) no_part).
Qed.

(** Computations that spend at most the pauses left of a load's [READ_PAUSES]. *)
Definition budgeted {A : Type} (m : nat -> IoM (nat * A)) : Prop :=
  forall n w, (n <= READ_PAUSES)%nat ->
    match m n w with
    | ODone w' (Ok (n', _)) => (w_pauses w' + n = w_pauses w + n')%nat /\ (n' <= READ_PAUSES)%nat
    | ODone w' (Err _) | OCrash w' => (w_pauses w' + n <= w_pauses w + READ_PAUSES)%nat
    end.

Lemma read_loop_budget more path : budgeted (read_loop more path).
Proof.
  induction more as [|more IH]; intros n w Hn; cbn [read_loop].
  - pose proof (unpaused_op (fun d => match d !! path with Some b => Ok (d, b) | None => Err not_found end) no_part w) as Hr.
    unfold mbind, IoM_bind, attempt. change (io_op _ no_part w) with (fs_read path w) in Hr.
    destruct (fs_read path w) as [w' [b|e]|w']; cbn in *; [lia| |lia]. case_decide; cbn; lia.
  - pose proof (unpaused_op (fun d => match d !! path with Some b => Ok (d, b) | None => Err not_found end) no_part w) as Hr.
    unfold mbind, IoM_bind, attempt. change (io_op _ no_part w) with (fs_read path w) in Hr.
    destruct (fs_read path w) as [w' [b|e]|w']; cbn in *; [lia| |lia]. case_decide; cbn; [lia|].
    destruct (transient_error e && (n <? READ_PAUSES)%nat) eqn:E; cbn; [|lia].
    apply andb_true_iff in E as [_ E%Nat.ltb_lt].
    specialize (IH (S n) (mkWorld (w_files w') (w_own w') (w_script w') (S (w_pauses w'))) ltac:(lia)). cbn in IH.
    destruct (read_loop more path (S n) _) as [w2 [[n2 r]|e2]|w2]; lia.
Qed.

Section pauses.
Context `{Json, Sha256}.

(** The same for a step of a pick, whose count is in the [Pick]. *)
Definition pick_budgeted {A : Type} (m : PickM A) : Prop :=
  forall k w, (pk_paused k <= READ_PAUSES)%nat ->
    match m k w with
    | ODone w' (Ok (k', _)) =>
        (w_pauses w' + pk_paused k = w_pauses w + pk_paused k')%nat /\ (pk_paused k' <= READ_PAUSES)%nat
    | ODone w' (Err _) | OCrash w' => (w_pauses w' + pk_paused k <= w_pauses w + READ_PAUSES)%nat
    end.

Lemma budget_ret {A : Type} (a : A) : pick_budgeted (mret a).
Proof. intros k w Hk. cbn. lia. Qed.

Lemma budget_fail {A : Type} e : pick_budgeted (@pick_fail A e).
Proof. intros k w Hk. cbn. lia. Qed.

Lemma budget_note f : (forall k, pk_paused (f k) = pk_paused k) -> pick_budgeted (note f).
Proof. intros Hf k w Hk. cbn. rewrite Hf. lia. Qed.

Lemma budget_attempt {A : Type} (m : IoM A) : unpaused m -> pick_budgeted (pick_attempt m).
Proof.
  intros Hm k w Hk. specialize (Hm w). unfold pick_attempt, mbind, IoM_bind, attempt.
  destruct (m w) as [w' r|w']; cbn; lia.
Qed.

Lemma budget_bind {A B : Type} (m : PickM A) (f : A -> PickM B) :
  pick_budgeted m -> (forall a, pick_budgeted (f a)) -> pick_budgeted (m ≫= f).
Proof.
  intros Hm Hf k w Hk. specialize (Hm k w Hk). unfold mbind, PickM_bind, mbind, IoM_bind.
  destruct (m k w) as [w' [[k' [a|e]]|e]|w']; cbn; try done.
  destruct Hm as [Hm Hk']. specialize (Hf a k' w' Hk'). destruct (f a k' w') as [w2 [[k2 r]|e2]|w2]; lia.
Qed.

Lemma budget_read_state path reading : pick_budgeted (read_state path reading).
Proof.
  intros k w Hk. unfold read_state, read_tried. pose proof (read_loop_budget (READ_TRIES - 1) path (pk_paused k) w Hk) as Hr.
  unfold mbind, IoM_bind. destruct (read_loop _ path (pk_paused k) w) as [w' [[n r]|e]|w']; [|done|done].
  destruct r as [[b|]|e]; cbn; [destruct (decode b); cbn; lia|lia|]. destruct reading; cbn; lia.
Qed.

Lemma budget_newest gens reading : pick_budgeted (newest_valid gens reading).
Proof.
  induction gens as [|[seq path] gens IH]; cbn [newest_valid]; [apply budget_ret|].
  apply budget_bind; [apply budget_read_state|]. intros [| | |p]; [done| |done|apply budget_ret].
  apply budget_bind; [by apply budget_note|done].
Qed.

Lemma budget_pick_live reading : pick_budgeted (pick_live reading).
Proof.
  unfold pick_live. apply budget_bind; [apply budget_read_state|]. intros current.
  apply budget_bind; [by apply budget_note|]. intros ?.
  apply budget_bind; [case_decide; [by apply budget_note|apply budget_ret]|]. intros ?.
  apply budget_bind; [apply budget_read_state|]. intros tmp.
  apply budget_bind; [by apply budget_note|]. intros ?.
  assert (Holder : pick_budgeted ('(gens, unlisted) ← pick_generations reading;
      newest ← newest_valid (rev gens) reading; pick_older tmp newest unlisted)).
  { apply budget_bind.
    - apply budget_bind; [apply budget_attempt, unpaused_bind; [apply unpaused_list|intros; apply unpaused_ret]|].
      intros [gens|e]; [apply budget_ret|]. destruct reading; [|apply budget_fail].
      apply budget_bind; [by apply budget_note|intros; apply budget_ret].
    - intros [gens unlisted]. apply budget_bind; [apply budget_newest|]. intros newest. unfold pick_older.
      repeat case_match; repeat first [apply budget_ret | apply budget_bind; [by apply budget_note|intros ?]
        | apply budget_bind; [apply budget_ret|intros ?]]. }
  destruct current as [| | |c]; try exact Holder. unfold pick_current.
  repeat case_match; repeat first [apply budget_ret | apply budget_bind; [by apply budget_note|intros ?]].
Qed.

(** At most [k] pauses. *)
Definition within {A : Type} (k : nat) (m : IoM A) : Prop :=
  forall w, match m w with ODone w' _ | OCrash w' => (w_pauses w' <= w_pauses w + k)%nat end.

Lemma within_bind {A B : Type} j k (m : IoM A) (f : A -> IoM B) :
  within j m -> (forall a, within k (f a)) -> within (j + k) (m ≫= f).
Proof.
  intros Hm Hf w. specialize (Hm w). unfold mbind, IoM_bind.
  destruct (m w) as [w' [a|e]|w']; [|lia|lia]. specialize (Hf a w'). destruct (f a w'); lia.
Qed.

Lemma unpaused_within {A : Type} (m : IoM A) : unpaused m -> within 0 m.
Proof. intros Hm w. specialize (Hm w). destruct (m w); lia. Qed.

Lemma read_loop_within more path n : (n <= READ_PAUSES)%nat -> within (READ_PAUSES - n) (read_loop more path n).
Proof.
  intros Hn w. pose proof (read_loop_budget more path n w Hn) as Hr.
  destruct (read_loop more path n w) as [w' [[n' r]|e]|w']; lia.
Qed.

Lemma orphan_alarms_within own orphans : within 0 (orphan_alarms own orphans).
Proof.
  induction orphans as [|[n [name path]] orphans IH]; cbn [orphan_alarms]; [by apply unpaused_within|].
  apply (within_bind 0 0); [by apply (read_loop_within (READ_TRIES - 1) path READ_PAUSES)|].
  intros [paused r]. cbn zeta. apply (within_bind 0 0); [exact IH|]. intros rest. by apply unpaused_within.
Qed.

Lemma load_chain_within topo : within READ_PAUSES (load_chain topo).
Proof.
  intros w. unfold load_chain. pose proof (budget_pick_live Tolerant Pick_default w ltac:(cbn; lia)) as Hb.
  unfold mbind, IoM_bind. destruct (pick_live Tolerant Pick_default w) as [w' [[k r]|e]|w']; [|cbn in Hb; lia|cbn in Hb; lia].
  cbn in Hb. destruct Hb as [Hb Hk].
  assert (Hbase : forall k' : Pick, pk_paused k' = pk_paused k ->
    match ('(k, baseline) ← read_state BASELINE Tolerant k';
           match baseline with
           | Ok (RdValid p) => mret (settle topo p SBaseline k, pk_passed_over k')
           | _ => mret (load_defaults topo k, pk_passed_over k')
           end : IoM (Loaded * list Path)) w'
    with ODone w2 _ | OCrash w2 => (w_pauses w2 <= w_pauses w + READ_PAUSES)%nat end).
  { intros k' Hk'. pose proof (budget_read_state BASELINE Tolerant k' w' ltac:(lia)) as Hr.
    unfold mbind, IoM_bind. destruct (read_state BASELINE Tolerant k' w') as [w2 [[k2 b]|e]|w2]; [|lia|lia].
    destruct b as [[| | |p]|e]; cbn; lia. }
  destruct r as [[[[p src] path]|]|e]; [cbn; lia| |].
  - exact (Hbase k eq_refl).
  - exact (Hbase (reject dir_path (WhyIo e) k) eq_refl).
Qed.
End pauses.

(** ** Concrete directories for the witnesses *)

Definition demo_bytes (rev : Z) : string :=
  match encode (demo_persisted rev) with Ok b => b | Err _ => "" end.

(** Revision 5 saved, [save.tmp] absent. *)
Definition demo_dir : Dir := <[CURRENT := demo_bytes 5]> (<[mark_name 5 := ""]> ∅).

Lemma demo_seq_ok : seq_ok demo_dir.
Proof.
  intros seq path Hin. exfalso. apply list_elem_of_In in Hin. revert Hin.
  assert (gens_of (dir_names demo_dir) = []) as -> by by vm_compute. done.
Qed.

Lemma demo_live : live_spec demo_dir = Some (demo_persisted 5, SCurrent, CURRENT).
Proof. by vm_compute. Qed.

(** An interrupted save of revision 6 above it. *)
Definition demo_dir_tmp : Dir := <[TMP := demo_bytes 6]> demo_dir.

Lemma demo_tmp_seq_ok : seq_ok demo_dir_tmp.
Proof.
  intros seq path Hin. exfalso. apply list_elem_of_In in Hin. revert Hin.
  assert (gens_of (dir_names demo_dir_tmp) = []) as -> by by vm_compute. done.
Qed.

(** ** Properties *)

(** C7: no state rolls back over a save: whatever operation of [save] fails
    (a failed or torn write, a refused rename, an unreadable listing entry) and
    wherever the process dies in it, the file the next load picks holds the
    state that was live before or the new one, and the new one when [save]
    reported success, then in [current.json] with no [save.tmp] left. *)
Theorem save_crash_safe `{Json, Sha256} p w :
  json_ok p -> seq_ok (w_files w) ->
  (forall q src path, live_spec (w_files w) = Some (q, src, path) -> pe_rev q <= pe_rev p) ->
  (w_own w = false -> not_tmp (live_spec (w_files w))) ->
  match save p w with
  | ODone w' r =>
      (live_state_of (w_files w') = live_state_of (w_files w) \/ live_state_of (w_files w') = Some p)
      /\ (is_ok r = true -> live_spec (w_files w') = Some (p, SCurrent, CURRENT) /\ w_files w' !! TMP = None)
  | OCrash w' =>
      live_state_of (w_files w') = live_state_of (w_files w) \/ live_state_of (w_files w') = Some p
  end.
Proof.
  intros Hj Hok Hrev Hown. destruct (encode_decode p Hj) as (bytes & He & Hd).
  pose proof (save_spec p (live_spec (w_files w)) (w_own w) bytes He Hd) as Hs.
  specialize (Hs ltac:(by intros [[q src] path] Hx; apply (Hrev q src path)) Hown w ltac:(done)).
  destruct (save p w) as [w' r|w']; [|exact Hs].
  destruct Hs as (Hk & Hset & _). split; [exact Hk|]. intros Hr. specialize (Hset Hr).
  split; [by apply settled_live|apply Hset].
Qed.

Lemma save_crash_safe_witness :
  match save (demo_persisted 6) (mkWorld demo_dir true [Go; Go; Go; Go; Go; Crash None] 0) with
  | OCrash w' => live_state_of (w_files w') = Some (demo_persisted 5) \/ live_state_of (w_files w') = Some (demo_persisted 6)
  | ODone _ _ => False
  end.
Proof.
  pose proof (save_crash_safe (demo_persisted 6) (mkWorld demo_dir true [Go; Go; Go; Go; Go; Crash None] 0)
                demo_json_ok_6 demo_seq_ok) as Hs. cbn [w_files w_own] in Hs.
  specialize (Hs ltac:(by intros q src path Hl; rewrite demo_live in Hl; injection Hl as <- _ _; vm_compute) ltac:(done)).
  destruct (save _ _) as [w' r|w'] eqn:E.
  - apply (f_equal (fun o => match o with ODone _ _ => true | OCrash _ => false end)) in E. revert E. by vm_compute.
  - replace (live_state_of demo_dir) with (Some (demo_persisted 5)) in Hs by by vm_compute. exact Hs.
Defined.

(** A save no operation of which fails succeeds: with no [save.tmp] of
    someone else's in the way, [save] returns a commit without a pruning
    error or orphan; [current.json] holds exactly the encoded state; the
    previous [current.json], byte for byte, is the newest generation, under
    the next number; the generations kept are the newest [GENERATIONS]. *)
Theorem save_succeeds `{Json, Sha256} p d o n :
  json_ok p -> seq_ok d -> o = true \/ d !! TMP = None ->
  exists d' cm bytes,
    save p (quiet d o n) = ODone (quiet d' true n) (Ok cm)
    /\ encode p = Ok bytes /\ d' !! CURRENT = Some bytes /\ d' !! TMP = None
    /\ cm_pruning cm = None /\ cm_orphaned cm = None
    /\ (length (gens_of (dir_names d')) <= GENERATIONS)%nat
    /\ match d !! CURRENT with
       | Some old =>
           cm_generation cm = next_seq (gens_of (dir_names d))
           /\ exists path, last (gens_of (dir_names d')) = Some (cm_generation cm, path) /\ d' !! path = Some old
       | None => cm_generation cm = 0 /\ gens_of (dir_names d') = kept (gens_of (dir_names d))
       end.
Proof.
  intros Hj Hok Hown. destruct (encode_decode p Hj) as (bytes & He & _).
  destruct (save_total p bytes d o n He Hok Hown) as (d' & cm & Hs & Hc & Ho).
  set (d1 := <[TMP := bytes]> (delete NEW (<[NEW := bytes]> d))) in *.
  destruct Hc as (Hcur & Htmp & Hpr & Hg & Hold & Hnone).
  assert (Hcur1 : d1 !! CURRENT = d !! CURRENT).
  { unfold d1. by rewrite lookup_insert_ne, lookup_delete_ne, lookup_insert_ne. }
  assert (Hg1 : gens_of (dir_names d1) = gens_of (dir_names d)).
  { apply gens_frame. intros q [x Hq]. unfold d1.
    rewrite lookup_insert_ne, lookup_delete_ne, lookup_insert_ne; [done|..]; intros <-; by vm_compute in Hq. }
  rewrite Hcur1 in Hold, Hnone. rewrite Hg1 in Hold.
  exists d', cm, bytes. split_and!; try done.
  - rewrite Hg. unfold kept. rewrite length_drop. lia.
  - unfold rotated in Hg. rewrite Hcur1, Hg1 in Hg. destruct (d !! CURRENT) as [old|].
    + rewrite decide_True in Hg by by eexists. destruct (Hold old eq_refl) as [Hgen Hp]. split; [done|].
      exists (gen_name d1). split; [|done]. rewrite Hgen, Hg. unfold kept.
      rewrite length_app. cbn [length]. unfold GENERATIONS. rewrite drop_app_le by lia. by rewrite last_snoc.
    + rewrite decide_False, app_nil_r in Hg by by intros [? ?]. by split; [apply Hnone|].
Qed.

Lemma save_succeeds_witness :
  exists d' cm, save (demo_persisted 6) (quiet demo_dir true 0) = ODone (quiet d' true 0) (Ok cm) /\ cm_generation cm = 1.
Proof.
  destruct (save_succeeds (demo_persisted 6) demo_dir true 0 demo_json_ok_6 demo_seq_ok (or_introl eq_refl))
    as (d' & cm & bytes & Hs & _ & _ & _ & _ & _ & _ & Hm).
  exists d', cm. split; [exact Hs|]. exact (proj1 Hm).
Defined.

(** The load chain finds the live state: with no failing operation a load
    ends, changes nothing, and gives, reconciled against the topology, the
    state of [live_spec]: a valid [save.tmp] at least as new as what it
    competes with, else a valid [current.json], else the newest valid
    generation; else the baseline; else the muted defaults at revision 0. *)
Theorem load_finds_live `{Json, Sha256} topo d o n :
  exists l, load topo (quiet d o n) = ODone (quiet d o n) (Ok l)
    /\ match live_spec d with
       | Some (p, src, _) =>
           ld_source l = src /\ pe_rev (ld_persisted l) = pe_rev p
           /\ pe_state (ld_persisted l) = to_state topo (reconcile_topo topo (pe_state p)).1
       | None =>
           match valid_at d BASELINE with
           | Some p => ld_source l = SBaseline /\ pe_rev (ld_persisted l) = pe_rev p
           | None => ld_source l = SDefaults /\ pe_rev (ld_persisted l) = 0
                     /\ pe_state (ld_persisted l) = defaults_muted topo
           end
       end.
Proof.
  destruct (load_quiet topo d o n) as (l & Hl & Hd & _ & _). exists l. split; [done|].
  destruct (live_spec d) as [[[p src] path]|].
  - destruct Hd as [-> ->]. by split_and!.
  - unfold fallback in Hd. destruct (valid_at d BASELINE); destruct Hd as [-> ->]; by split_and!.
Qed.

(** C25: the boot's recovery keeps what was loaded: from a directory and what a
    fault-free load found in it, whatever step of [recover] fails and wherever
    the process dies, the live state stays the loaded one; recovery of an
    interrupted save either finishes it, leaving it in [current.json], or
    reports a failed step; and the store never takes a live [save.tmp] for
    another's. *)
Theorem recover_keeps_live `{Json, Sha256} topo l w :
  loads topo (w_files w) l -> seq_ok (w_files w) ->
  match recover l w with
  | ODone w' r =>
      live_state_of (w_files w') = live_state_of (w_files w)
      /\ (w_own w' = false -> not_tmp (live_spec (w_files w')))
      /\ forall rc, r = Ok rc -> ld_source l = SInterrupted ->
           (rc_finished rc = true /\ exists p, settled p (w_files w')) \/ rc_failed rc <> []
  | OCrash w' => live_state_of (w_files w') = live_state_of (w_files w)
  end.
Proof.
  intros Hl Hok. pose proof (recover_spec topo l (w_files w) Hl Hok w eq_refl) as Hr.
  destruct (recover l w) as [w' r|w']; [|exact Hr]. destruct Hr as (H1 & H2 & H3).
  split_and!; [done|done|]. intros rc Hrc. by apply H3.
Qed.

Lemma recover_keeps_live_witness :
  exists l, loads demo_topo demo_dir_tmp l
  /\ match recover l (mkWorld demo_dir_tmp false [Go; Go; Go; Crash None] 0) with
     | ODone w' _ | OCrash w' => live_state_of (w_files w') = Some (demo_persisted 6)
     end.
Proof.
  destruct (load_quiet demo_topo demo_dir_tmp false 0) as (l & _ & Hl). exists l. split; [exact Hl|].
  pose proof (recover_keeps_live demo_topo l (mkWorld demo_dir_tmp false [Go; Go; Go; Crash None] 0) Hl demo_tmp_seq_ok) as Hr.
  cbn [w_files] in Hr. replace (live_state_of demo_dir_tmp) with (Some (demo_persisted 6)) in Hr by by vm_compute.
  destruct (recover _ _) as [w' r|w']; [exact (proj1 Hr)|exact Hr].
Defined.

(** A boot on an interrupted save, no operation of which fails, finishes
    it: [save.tmp] becomes [current.json] with its content, nothing is left
    to recover, and the next load finds the same state as [current.json]. *)
Theorem recover_finishes `{Json, Sha256} topo l p d o n :
  loads topo d l -> seq_ok d -> live_spec d = Some (p, SInterrupted, TMP) ->
  (forall k, (k < QUARANTINE_NAMES)%nat -> d !! aside_name CURRENT "damaged" (S k) = None) ->
  exists d' rc, recover l (quiet d o n) = ODone (quiet d' true n) (Ok rc)
    /\ rc_finished rc = true /\ rc_failed rc = [] /\ rc_warnings rc = []
    /\ d' !! CURRENT = d !! TMP /\ d' !! TMP = None
    /\ live_spec d' = Some (p, SCurrent, CURRENT).
Proof.
  intros Hl Hok Hlive Hfree. pose proof (tmp_live_valid _ _ Hlive) as Hv.
  assert (Hsrc : ld_source l = SInterrupted) by (destruct Hl as [Hl _]; rewrite Hlive in Hl; by destruct Hl).
  unfold recover. rewrite (bool_decide_eq_true_2 (ld_source l = SInterrupted)), orb_true_r by done.
  rewrite (io_bind_done (set_own true) _ _ (quiet d true n) tt) by done.
  pose proof (loads_not_unreadable _ _ _ Hl) as Hu.
  assert (Hq : exists dq aside, quarantine l (quiet d true n) = ODone (quiet dq true n) (Ok (aside, []))
    /\ tmp_live p dq /\ seq_ok dq /\ dq !! TMP = d !! TMP).
  { unfold quarantine. case_decide as Hdam; [|by exists d, None].
    assert (Hc : valid_at d CURRENT = None) by (apply state_at_damaged; destruct Hl as (_ & Hc & _); congruence).
    assert (Hsome : exists b, d !! CURRENT = Some b).
    { destruct Hl as (_ & Hc' & _). rewrite Hdam in Hc'. unfold state_at in Hc'. destruct (d !! CURRENT); [by eexists|done]. }
    destruct Hsome as [b Hb].
    set (dq := <[aside_name CURRENT "damaged" 1 := b]> (delete CURRENT d)).
    assert (Hm : attempt (move_aside CURRENT "damaged") (quiet d true n)
      = ODone (quiet dq true n) (Ok (Ok (aside_name CURRENT "damaged" 1, Ok tt)))).
    { unfold move_aside. change (seq 1 QUARANTINE_NAMES) with (1%nat :: seq 2 (QUARANTINE_NAMES - 1)). cbn [move_aside_from].
      unfold attempt at 1. rewrite (io_bind_done (fs_exists _) _ _ (quiet d true n) false).
      2: { unfold fs_exists, io_op; cbn -[aside_name]. by rewrite (Hfree 0%nat) by (unfold QUARANTINE_NAMES; lia). }
      rewrite (io_bind_done _ _ _ (quiet dq true n) tt); [done|].
      unfold fs_rename, io_op; cbn -[aside_name]. by rewrite Hb. }
    rewrite (io_bind_done _ _ _ _ _ Hm). exists dq, (Some (aside_name CURRENT "damaged" 1)). split; [done|].
    split_and!.
    - unfold tmp_live, dq. by rewrite drop_current by (apply aside_not_state_current || done).
    - eapply seq_ok_frame; [|done]. intros q [x Hx]. unfold dq. rewrite lookup_insert_ne.
      + apply lookup_delete_ne. intros <-. by vm_compute in Hx.
      + intros <-. by vm_compute in Hx.
    - unfold dq. rewrite lookup_insert_ne; [by apply lookup_delete_ne|]. intros E. by vm_compute in E. }
  destruct Hq as (dq & aside & Hq & Htq & Hokq & Hbq). rewrite (io_bind_done _ _ _ _ _ Hq).
  rewrite (bool_decide_eq_false_2 (ld_current_json l = FsUnreadable)), andb_false_r by done. rewrite decide_True by done.
  unfold valid_at in Hv. destruct (d !! TMP) as [bytes|] eqn:Hb; [|done].
  destruct (commit_total dq true (pe_rev (ld_persisted l)) bytes Hokq Hbq dq true n ltac:(done)) as (d' & o' & cm & Hc & -> & Hcm).
  destruct Hcm as (C1 & C2 & C3 & _).
  rewrite (io_bind_done (attempt _) _ _ (quiet d' true n) (Ok cm)).
  2: { unfold attempt, finish_interrupted. rewrite (io_bind_done _ _ _ (quiet dq true n) tt); [by rewrite Hc|].
       unfold fs_sync_file, io_op; cbn. by rewrite Hbq. }
  eexists d', _. split; [done|]. rewrite C3. split_and!; try done.
  apply settled_live. split; [|done]. unfold valid_at. by rewrite C1.
Qed.

Lemma recover_finishes_witness :
  exists l d' rc, loads demo_topo demo_dir_tmp l /\ recover l (quiet demo_dir_tmp false 0) = ODone (quiet d' true 0) (Ok rc)
    /\ live_spec d' = Some (demo_persisted 6, SCurrent, CURRENT).
Proof.
  destruct (load_quiet demo_topo demo_dir_tmp false 0) as (l & _ & Hl).
  destruct (recover_finishes demo_topo l (demo_persisted 6) demo_dir_tmp false 0 Hl demo_tmp_seq_ok) as (d' & rc & Hr & _ & _ & _ & _ & _ & Hs).
  - by vm_compute.
  - intros k _. unfold demo_dir_tmp, demo_dir.
    rewrite !lookup_insert_ne; [apply lookup_empty|..]; intros E; by vm_compute in E.
  - by exists l, d', rc.
Defined.

(** However many files stay locked, a load pauses at most [READ_PAUSES]
    times in all (2 s), so the boot's wait is bounded, whatever fails. *)
Theorem load_pauses_bounded `{Json, Sha256} topo w :
  match load topo w with
  | ODone w' _ | OCrash w' => (w_pauses w' <= w_pauses w + READ_PAUSES)%nat
  end.
Proof.
  assert (Hw : within (READ_PAUSES + (0 + (0 + 0))) (load topo)).
  { unfold load. apply within_bind; [apply load_chain_within|]. intros [loaded passed]. cbn zeta.
    apply within_bind; [apply unpaused_within, unpaused_attempt, unpaused_list|]. intros listed.
    apply within_bind; [|intros als; by apply unpaused_within].
    destruct listed as [L|e]; [apply orphan_alarms_within|by apply unpaused_within]. }
  specialize (Hw w). by rewrite !Nat.add_0_r in Hw.
Qed.

(** A read is tried again exactly while its error may pass: after [k]
    passing errors (an interrupted, would-block or timed-out read) the next
    good read gives the file's bytes, for up to four errors; five are the
    error; any other error is one at once; a missing file is missing at once. *)
Theorem read_retries path d o s pauses paused (errs : list IoError) :
  Forall (fun e => transient_error e = true) errs -> (length errs <= 5)%nat -> (paused + length errs <= READ_PAUSES)%nat ->
  let script := ((fun e => Fail e None) <$> errs) ++ Go :: s in
  read_tried path paused (mkWorld d o script pauses)
  = if (length errs <? READ_TRIES)%nat
    then ODone (mkWorld d o s (pauses + length errs)) (Ok ((paused + length errs)%nat, Ok (d !! path)))
    else ODone (mkWorld d o (Go :: s) (pauses + 4)) (Ok ((paused + 4)%nat,
           match last errs with Some e => Err e | None => Ok None end)).
Proof.
  intros Hall Hlen Hp. cbn zeta. unfold read_tried, READ_TRIES, READ_PAUSES in *.
  assert (Hread : forall more n p, (n <= 10)%nat ->
    read_loop more path n (mkWorld d o (Go :: s) p) = ODone (mkWorld d o s p) (Ok (n, Ok (d !! path)))).
  { intros more n p _. destruct more; cbn [read_loop]; unfold mbind, IoM_bind, attempt, fs_read, io_op; cbn;
      by destruct (d !! path). }
  assert (Hstep : forall more n p e script, transient_error e = true -> (n < 10)%nat ->
    read_loop (S more) path n (mkWorld d o (Fail e None :: script) p)
    = read_loop more path (S n) (mkWorld d o script (S p))).
  { intros more n p e script He Hn. cbn [read_loop]. unfold mbind, IoM_bind, attempt, fs_read, io_op, fs_pause; cbn.
    rewrite decide_False by (intros E; unfold transient_error in He; by rewrite E in He).
    rewrite He. unfold READ_PAUSES. by destruct (Nat.ltb_spec n 10); [|lia]. }
  assert (Hlast : forall n p e script, transient_error e = true ->
    read_loop 0 path n (mkWorld d o (Fail e None :: script) p) = ODone (mkWorld d o script p) (Ok (n, Err e))).
  { intros n p e script He. cbn [read_loop]. unfold mbind, IoM_bind, attempt, fs_read, io_op; cbn.
    by rewrite decide_False by (intros E; unfold transient_error in He; by rewrite E in He). }
  destruct errs as [|e1 [|e2 [|e3 [|e4 [|e5 [|e6 errs]]]]]]; 
    cbn [length] in Hlen, Hp; cbn [length fmap list_fmap app last Nat.sub]; [..|lia].
  all: repeat match goal with H : Forall _ (_ :: _) |- _ => apply Forall_cons in H as [? H] end.
  all: rewrite ?Hstep by (done || lia).
  1-5: rewrite Hread by lia.
  6: rewrite Hlast by done.
  all: match goal with |- context [(?a <? ?b)%nat] => destruct (Nat.ltb_spec a b); [|lia] || (exfalso; lia) || idtac end.
  all: try lia; repeat f_equal; lia.
Qed.

Lemma read_retries_witness :
  read_tried CURRENT 0 (mkWorld demo_dir true [Fail (mkIoError TimedOut "t" []) None; Go] 0)
  = ODone (mkWorld demo_dir true [] 1) (Ok (1%nat, Ok (demo_dir !! CURRENT))).
Proof.
  apply (read_retries CURRENT demo_dir true [] 0 0 [mkIoError TimedOut "t" []]);
    [by repeat constructor|cbn; lia|cbn; unfold READ_PAUSES; lia].
Defined.

(** Past a live file that cannot be read the revision jumps: it is at least
    [REV_JUMP] above the state loaded and above every revision any file name of
    the directory shows (or the highest 64-bit number), so the session's saves
    outrank whatever the unread file holds; nothing else of the loaded state
    changes. *)
Theorem continue_above_outranks names L passed_over l :
  listing (entry <$> names) = Ok L -> u64_ok (pe_rev (ld_persisted l)) ->
  let l' := continue_above passed_over (Ok L) l in
  u64_ok (pe_rev (ld_persisted l'))
  /\ (forall r, r = pe_rev (ld_persisted l) \/ (exists n, n ∈ names /\ shown_rev n = Some r) ->
        r + REV_JUMP <= pe_rev (ld_persisted l') \/ pe_rev (ld_persisted l') = u64_max)
  /\ pe_rev (ld_persisted l) <= pe_rev (ld_persisted l')
  /\ pe_state (ld_persisted l') = pe_state (ld_persisted l)
  /\ ld_source l' = ld_source l.
Proof.
  intros HL Hu. rewrite listing_names in HL. injection HL as <-.
  assert (Hshown : forall n r, shown_rev n = Some r -> u64_ok r).
  { intros n r. unfold shown_rev. destruct (generation_parts n) as [[s rev]|] eqn:Hg.
    - intros ->. unfold generation_parts in Hg. apply bind_Some in Hg as (rest & _ & Hg). apply bind_Some in Hg as (stem & _ & Hg).
      destruct (split_once "-r" stem) as [[a b]|].
      + apply bind_Some in Hg as (x & _ & Hg). apply bind_Some in Hg as (y & Hy & [= _ <-]).
        by apply (parse_uint_bound u64_max) in Hy.
      + by apply bind_Some in Hg as (x & _ & [= _ <-]).
    - unfold mark_rev. intros Hm. apply bind_Some in Hm as (t & _ & Ht). by apply (parse_uint_bound u64_max) in Ht. }
  cbn zeta. unfold continue_above. cbn [l_floor ld_persisted ld_source with_rev pe_rev pe_state].
  set (floor := foldl opt_max None (shown_rev <$> names)).
  assert (Hf : match floor with Some f => 0 <= f <= u64_max | None => True end).
  { destruct floor as [f|] eqn:E; [|done]. apply foldl_opt_max_in in E as [?|E]; [done|].
    apply list_elem_of_fmap in E as (n & Hn & _). exact (Hshown n f (eq_sym Hn)). }
  unfold u64_saturating_add, u64_ok, REV_JUMP in *. destruct Hu as [Hu1 Hu2]. split_and!; try done.
  - destruct floor; lia.
  - destruct floor; lia.
  - intros r Hr. assert (r <= Z.max (pe_rev (ld_persisted l)) (match floor with Some f => f | None => 0 end)) as Hle.
    { destruct Hr as [->|(n & Hn & Hs)]; [destruct floor; lia|].
      destruct (foldl_opt_max_ge (shown_rev <$> names) None r) as (f & Hff & ?).
      { right. apply list_elem_of_fmap. by exists n. }
      unfold floor. rewrite Hff. lia. }
    destruct floor; lia.
  - destruct floor; lia.
Qed.

Lemma continue_above_outranks_witness :
  exists L l', listing (entry <$> ["gen-0000000003-r50.json"; "current.json.rev-60"]) = Ok L
  /\ l' = continue_above [CURRENT] (Ok L) (mkLoaded (demo_persisted 5) SDefaults [] [] [] FsUnreadable FsMissing)
  /\ ld_source l' = SDefaults.
Proof.
  eexists _, _. split; [apply listing_names|]. split; [done|].
  eapply (continue_above_outranks ["gen-0000000003-r50.json"; "current.json.rev-60"]); [apply listing_names|].
  by vm_compute.
Defined.

(** Waiting for the state directory ends: [lock_within] tries at most once
    more than the wait holds polls, sleeps before each further try, gives the
    first answer that is not "held by another", and that error only after the
    whole wait. *)
Theorem lock_within_bounded wait_ms lock :
  let '(r, slept) := lock_within wait_ms lock in
  (slept <= Z.to_nat (wait_ms / LOCK_POLL))%nat
  /\ r = lock slept
  /\ (forall k, (k < slept)%nat -> exists e, lock k = Err e /\ e_kind e = WouldBlock)
  /\ ((slept < Z.to_nat (wait_ms / LOCK_POLL))%nat -> forall e, r = Err e -> e_kind e <> WouldBlock).
Proof.
  unfold lock_within. generalize (Z.to_nat (wait_ms / LOCK_POLL)) as tries. intros tries.
  cut (forall at_, let '(r, slept) := lock_poll tries lock at_ in
    (slept <= tries)%nat /\ r = lock (at_ + slept)%nat
    /\ (forall k, (k < slept)%nat -> exists e, lock (at_ + k)%nat = Err e /\ e_kind e = WouldBlock)
    /\ ((slept < tries)%nat -> forall e, r = Err e -> e_kind e <> WouldBlock)).
  { intros Hc. specialize (Hc 0%nat). exact Hc. }
  induction tries as [|tries IH]; intros at_; cbn [lock_poll].
  - rewrite Nat.add_0_r. split_and!; [done|done|lia|lia].
  - destruct (lock at_) as [u|e] eqn:E; [|case_decide as Hk].
    + rewrite Nat.add_0_r, E. split_and!; [lia|done|lia|done].
    + specialize (IH (S at_)). destruct (lock_poll tries lock (S at_)) as [r slept]. destruct IH as (I1 & I2 & I3 & I4).
      split_and!; [lia|by rewrite <-Nat.add_succ_comm| |intros; apply I4; [lia|done]].
      intros [|k] Hlt; [rewrite Nat.add_0_r; eauto|]. rewrite <-Nat.add_succ_comm. apply I3. lia.
    + rewrite Nat.add_0_r, E. split_and!; [lia|done|lia|]. by intros _ e' [= <-].
Qed.

(** A save comes one quiet second after the last change, and at most five
    seconds after the first: after changes at [t0], then at [ts] in order, one
    is pending and it is due exactly when a second passed since the last or
    five since the first; after [saved] none is due. *)
Theorem schedule_due t0 ts now :
  Sorted Z.le (t0 :: ts) ->
  let s := foldl (fun s t => changed t s) SaveSchedule_default (t0 :: ts) in
  pending s = true
  /\ (due now s = true <-> QUIET <= now - List.last ts t0 \/ MAX_DELAY <= now - t0)
  /\ (t0 + MAX_DELAY <= now -> due now s = true)
  /\ (due now s = true -> t0 + QUIET <= now)
  /\ due now (saved s) = false /\ pending (saved s) = false.
Proof.
  intros Hsort. cbn zeta.
  assert (Hs : foldl (fun s t => changed t s) SaveSchedule_default (t0 :: ts) = mkSaveSchedule (Some t0) (Some (List.last ts t0))).
  { cbn. clear. change (changed t0 SaveSchedule_default) with (mkSaveSchedule (Some t0) (Some t0)).
    cut (forall l, foldl (fun s t => changed t s) (mkSaveSchedule (Some t0) (Some l)) ts = mkSaveSchedule (Some t0) (Some (List.last ts l))).
    { intros Hc. apply Hc. }
    induction ts as [|t ts IH]; intros l; [done|]. cbn [foldl]. unfold changed at 2. cbn [ss_first].
    rewrite IH. destruct ts; [done|]. f_equal. f_equal. change (List.last (t :: z :: ts) l) with (List.last (z :: ts) l).
    clear. revert z. induction ts as [|x ts IH]; intros z; [done|]. apply IH. }
  rewrite Hs. unfold due, since, pending, QUIET, MAX_DELAY; cbn [ss_first ss_last saved SaveSchedule_default].
  assert (Hge : t0 <= List.last ts t0).
  { apply Sorted_StronglySorted in Hsort; [|intros a b c; lia]. apply StronglySorted_inv in Hsort as [_ Hall].
    clear -Hall. destruct ts as [|t ts] using rev_ind; [done|]. rewrite List.last_last.
    apply Forall_app in Hall as [_ Hall]. by apply Forall_cons in Hall as [? _]. }
  rewrite orb_true_iff, !Z.leb_le. split_and!; try done; lia.
Qed.

Lemma schedule_due_witness :
  due 1500000000 (foldl (fun s t => changed t s) SaveSchedule_default [0; 500000000]) = true.
Proof.
  destruct (schedule_due 0 [500000000] 1500000000) as (_ & Hd & _); [by repeat constructor|].
  apply Hd. left. by vm_compute.
Defined.
