(* ===== verification/Frame.v ===== *)
(** * Pipe frames ([iem-engine-proto/src/frame.rs], [media.rs])

    The control pipe's frames (a little-endian [u32] length and that many
    bytes) and the media pipe's (a 20-byte header and 32-bit samples).  Bytes
    are integers 0..255; a sample is its 32-bit pattern.  A reader delivers
    its bytes in pieces of any size, with interruptions and errors in between,
    as its plan says. *)

From S2P Require Import Prelude.
From stdpp Require Import options.
Local Open Scope Z_scope.

Definition MAX_FRAME : Z := 1048576.

Inductive FrameError := FrIo (k : IoKind) | FrTooLarge (n : Z) | FrClosed.

(** ** Little-endian integers *)

Fixpoint le_bytes (width : nat) (n : Z) : list Z :=
  match width with O => [] | S width => n mod 256 :: le_bytes width (n / 256) end.

Fixpoint from_le_bytes (bytes : list Z) : Z :=
  match bytes with [] => 0 | b :: bytes => b + 256 * from_le_bytes bytes end.

(** ** Readers *)

(** The next read delivers at most [S n] bytes, or fails. *)
Inductive ReadEvent := RChunk (n : nat) | RFail (k : IoKind).

Record Reader := mkReader { rd_bytes : list Z; rd_plan : list ReadEvent }.

(** One [Read::read] into a buffer of [want] bytes. *)
Definition reader_read (want : nat) (rd : Reader) : Reader * result IoKind (list Z) :=
  match rd_plan rd with
  | [] => (mkReader (drop want (rd_bytes rd)) [], Ok (take want (rd_bytes rd)))
  | RFail k :: plan => (mkReader (rd_bytes rd) plan, Err k)
  | RChunk n :: plan =>
      let m := Nat.min (S n) want in
      (mkReader (drop m (rd_bytes rd)) plan, Ok (take m (rd_bytes rd)))
  end.

(** The loop of [read_head]: fills [want] bytes; [eof] is the error of an end
    of stream before the first. *)
Fixpoint fill (fuel want : nat) (got : list Z) (eof : FrameError) (rd : Reader)
    : option (Reader * result FrameError (list Z)) :=
  match fuel with
  | O => None
  | S fuel =>
      let rest := (want - length got)%nat in
      if decide (rest = 0%nat) then Some (rd, Ok got)
      else
        match reader_read rest rd with
        | (rd, Ok []) => Some (rd, Err (match got with [] => eof | _ => FrIo UnexpectedEof end))
        | (rd, Ok bytes) => fill fuel want (got ++ bytes) eof rd
        | (rd, Err Interrupted) => fill fuel want got eof rd
        | (rd, Err k) => Some (rd, Err (FrIo k))
        end
  end.

(** Every turn takes an event of the plan or a byte. *)
Definition fill_fuel (want : nat) (rd : Reader) : nat := S (S (want + length (rd_plan rd))).

Definition read_head (want : nat) (rd : Reader) : option (Reader * result FrameError (list Z)) :=
  fill (fill_fuel want rd) want [] FrClosed rd.

(** [Read::read_exact]. *)
Definition read_exact (want : nat) (rd : Reader) : option (Reader * result FrameError (list Z)) :=
  fill (fill_fuel want rd) want [] (FrIo UnexpectedEof) rd.

(** ** Control frames *)

(** The bytes [write_frame] hands to [write_all]: [body] is the message's
    JSON, [written] and [flushed] the errors of the writer. *)
Definition write_frame (body : result string (list Z)) (written flushed : option IoKind) : result FrameError (list Z) :=
  match body with
  | Err _ => Err (FrIo OtherKind)
  | Ok body =>
      let n := Z.of_nat (length body) in
      if MAX_FRAME <? n then Err (FrTooLarge n)
      else
        match written, flushed with
        | Some k, _ => Err (FrIo k)
        | None, Some k => Err (FrIo k)
        | None, None => Ok (le_bytes 4 n ++ body)
        end
  end.

Definition read_frame (rd : Reader) : option (Reader * result FrameError (list Z)) :=
  match read_head 4 rd with
  | None => None
  | Some (rd, Err e) => Some (rd, Err e)
  | Some (rd, Ok head) =>
      let len := from_le_bytes head in
      if MAX_FRAME <? len then Some (rd, Err (FrTooLarge len))
      else read_exact (Z.to_nat len) rd
  end.

(** ** Media frames *)

Definition MEDIA_HEADER : nat := 20.
Definition FRAME_48K : Z := 960.
Definition MAX_SAMPLES : Z := 4 * FRAME_48K.
Definition MAGIC : list Z := [73; 69; 77; 70].
Definition MEDIA_VERSION : Z := 1.

Record MediaHeader := mkMediaHeader { md_stream : Z; md_channels : Z; md_seq : Z; md_frames : Z }.

Definition media_samples (h : MediaHeader) : Z := md_frames h * md_channels h.

Definition write_media (h : MediaHeader) (samples : list Z) (written flushed : option IoKind) : result IoKind (list Z) :=
  if negb (Z.of_nat (length samples) =? media_samples h) || (MAX_SAMPLES <? media_samples h)
  then Err InvalidInput
  else
    match written, flushed with
    | Some k, _ => Err k
    | None, Some k => Err k
    | None, None =>
        Ok (MAGIC ++ [MEDIA_VERSION; md_stream h; md_channels h; 0] ++ le_bytes 8 (md_seq h)
            ++ le_bytes 2 (md_frames h) ++ [0; 0] ++ concat (le_bytes 4 <$> samples))
    end.

(** The 4-byte pieces of a list, and what is left. *)
Fixpoint chunks4 (bytes : list Z) : list (list Z) :=
  match bytes with
  | a :: b :: c :: d :: bytes => [a; b; c; d] :: chunks4 bytes
  | _ => []
  end.

Definition read_media (rd : Reader) : option (Reader * result FrameError (MediaHeader * list Z)) :=
  match read_head MEDIA_HEADER rd with
  | None => None
  | Some (rd, Err e) => Some (rd, Err e)
  | Some (rd, Ok head) =>
      let magic := take 4 head in
      let meta := take 4 (drop 4 head) in
      let seq := take 8 (drop 8 head) in
      let frames := take 2 (drop 16 head) in
      if negb (bool_decide (magic = MAGIC)) then Some (rd, Err (FrIo InvalidData))
      else
        match meta with
        | [version; stream; channels; _] =>
            if negb (version =? MEDIA_VERSION) then Some (rd, Err (FrIo InvalidData))
            else
              let h := mkMediaHeader stream channels (from_le_bytes seq) (from_le_bytes frames) in
              let n := media_samples h in
              if MAX_SAMPLES <? n then Some (rd, Err (FrTooLarge n))
              else
                match read_exact (Z.to_nat (4 * n)) rd with
                | None => None
                | Some (rd, Err e) => Some (rd, Err e)
                | Some (rd, Ok bytes) => Some (rd, Ok (h, from_le_bytes <$> chunks4 bytes))
                end
        | _ => Some (rd, Err (FrIo InvalidData))
        end
  end.

(** ** Lemmas *)

Definition byte_ok (b : Z) : Prop := 0 <= b < 256.

Lemma length_le_bytes width n : length (le_bytes width n) = width.
Proof. revert n. induction width as [|w IH]; intros n; cbn; [done|]. by rewrite IH. Qed.

Lemma le_bytes_ok width n : Forall byte_ok (le_bytes width n).
Proof.
  revert n. induction width as [|w IH]; intros n; cbn; [constructor|]. constructor; [|done].
  by apply Z.mod_pos_bound.
Qed.

Lemma from_le_bytes_le width n : 0 <= n < 256 ^ Z.of_nat width -> from_le_bytes (le_bytes width n) = n.
Proof.
  revert n. induction width as [|w IH]; intros n Hn; cbn -[Z.mul]; [cbn in Hn; lia|].
  rewrite IH.
  - pose proof (Z.div_mod n 256 ltac:(lia)). lia.
  - rewrite Nat2Z.inj_succ, Z.pow_succ_r in Hn by lia. split; [apply Z.div_pos; lia|].
    apply Z.div_lt_upper_bound; lia.
Qed.

(** A plan without errors other than interruptions. *)
Definition plan_ok (plan : list ReadEvent) : Prop :=
  Forall (fun ev => match ev with RChunk _ => True | RFail k => k = Interrupted end) plan.

(** One read of a plan without errors: interrupted, or some bytes, none only
    at the end of the stream. *)
Lemma reader_read_ok want rd :
  plan_ok (rd_plan rd) -> (0 < want)%nat ->
  exists rd', plan_ok (rd_plan rd') /\
    ((reader_read want rd = (rd', Err Interrupted) /\ rd_bytes rd' = rd_bytes rd
        /\ length (rd_plan rd) = S (length (rd_plan rd')))
     \/ exists m, reader_read want rd = (rd', Ok (take m (rd_bytes rd))) /\ rd_bytes rd' = drop m (rd_bytes rd)
        /\ (0 < m <= want)%nat /\ (length (rd_plan rd') <= length (rd_plan rd))%nat).
Proof.
  intros Hp Hw. unfold reader_read. destruct rd as [bytes plan]; cbn [rd_plan rd_bytes] in *.
  destruct plan as [|[n|k] plan]; [|apply Forall_cons in Hp as [? Hp]..].
  - exists (mkReader (drop want bytes) []). split; [exact Hp|]. right. exists want. split_and!; try done; cbn; lia.
  - exists (mkReader (drop (Nat.min (S n) want) bytes) plan). split; [exact Hp|]. right.
    exists (Nat.min (S n) want). split_and!; try done; cbn [rd_plan length]; lia.
  - exists (mkReader bytes plan). subst k. split; [exact Hp|]. by left.
Qed.

(** The loop ends, and gives the bytes asked for if the stream has them. *)
Lemma fill_ok fuel want eof : forall got rd,
  plan_ok (rd_plan rd) -> (want - length got + length (rd_plan rd) < fuel)%nat -> (length got <= want)%nat ->
  exists rd', plan_ok (rd_plan rd') /\
    ((want - length got <= length (rd_bytes rd))%nat /\
       fill fuel want got eof rd = Some (rd', Ok (got ++ take (want - length got) (rd_bytes rd)))
       /\ rd_bytes rd' = drop (want - length got) (rd_bytes rd)
     \/ (length (rd_bytes rd) < want - length got)%nat /\
       fill fuel want got eof rd
       = Some (rd', Err (match got ++ rd_bytes rd with [] => eof | _ => FrIo UnexpectedEof end))).
Proof.
  induction fuel as [|fuel IH]; intros got rd Hp Hf Hl; [lia|]. cbn [fill].
  case_decide as Hz.
  { exists rd. split; [done|]. left. rewrite Hz. cbn. rewrite drop_0, app_nil_r. split_and!; [lia|done|done]. }
  destruct (reader_read_ok (want - length got) rd Hp ltac:(lia)) as (rd' & Hp' & [(Hr & Hb & Hlen)|(m & Hr & Hb & Hm & Hlen)]);
    rewrite Hr.
  - rewrite <-Hb. apply IH; [done|lia|done].
  - destruct (take m (rd_bytes rd)) as [|b bs] eqn:Ht.
    { exists rd'. split; [done|]. right.
      assert (rd_bytes rd = []) as -> by (destruct (rd_bytes rd), m; cbn in Ht; (done || lia)).
      rewrite app_nil_r. cbn. split; [lia|]. done. }
    rewrite <-Ht. assert (Hlb : (0 < length (take m (rd_bytes rd)))%nat) by (rewrite Ht; cbn; lia).
    rewrite length_take in Hlb.
    destruct (IH (got ++ take m (rd_bytes rd)) rd' Hp') as (rd2 & Hp2 & Hcase).
    { rewrite length_app, length_take. lia. }
    { rewrite length_app, length_take. lia. }
    exists rd2. split; [done|]. rewrite length_app, length_take in Hcase. rewrite Hb, length_drop in Hcase.
    destruct Hcase as [(H1 & H2 & H3)|(H1 & H2)].
    + left. split_and!; [lia| |].
      * rewrite H2. do 3 f_equal. rewrite <-app_assoc. f_equal.
        destruct (decide (m <= length (rd_bytes rd))%nat).
        -- rewrite Nat.min_l by lia. replace (want - length got)%nat with (m + (want - (length got + m)))%nat by lia.
           by rewrite take_take_drop.
        -- rewrite !take_ge; [|rewrite ?length_drop; lia..]. rewrite drop_ge by lia. by rewrite app_nil_r.
      * rewrite H3, drop_drop. destruct (decide (m <= length (rd_bytes rd))%nat).
        -- f_equal. lia.
        -- rewrite !drop_ge by lia. done.
    + right. split; [lia|]. rewrite H2. do 3 f_equal. rewrite <-app_assoc, take_drop. done.
Qed.

Lemma read_head_ok want rd :
  plan_ok (rd_plan rd) ->
  exists rd', plan_ok (rd_plan rd') /\
    ((want <= length (rd_bytes rd))%nat /\ read_head want rd = Some (rd', Ok (take want (rd_bytes rd)))
       /\ rd_bytes rd' = drop want (rd_bytes rd)
     \/ (length (rd_bytes rd) < want)%nat /\ read_head want rd
       = Some (rd', Err (match rd_bytes rd with [] => FrClosed | _ => FrIo UnexpectedEof end))).
Proof.
  intros Hp. destruct (fill_ok (fill_fuel want rd) want FrClosed [] rd Hp) as (rd' & Hp' & Hc);
    [unfold fill_fuel; cbn; lia|cbn; lia|]. exists rd'. split; [done|]. cbn [length app] in Hc. by rewrite Nat.sub_0_r in Hc.
Qed.

Lemma read_exact_ok want rd :
  plan_ok (rd_plan rd) ->
  exists rd', plan_ok (rd_plan rd') /\
    ((want <= length (rd_bytes rd))%nat /\ read_exact want rd = Some (rd', Ok (take want (rd_bytes rd)))
       /\ rd_bytes rd' = drop want (rd_bytes rd)
     \/ (length (rd_bytes rd) < want)%nat /\ read_exact want rd = Some (rd', Err (FrIo UnexpectedEof))).
Proof.
  intros Hp. destruct (fill_ok (fill_fuel want rd) want (FrIo UnexpectedEof) [] rd Hp) as (rd' & Hp' & Hc);
    [unfold fill_fuel; cbn; lia|cbn; lia|]. exists rd'. split; [done|]. cbn [length app] in Hc. rewrite Nat.sub_0_r in Hc.
  destruct Hc as [Hc|[Hc1 Hc2]]; [by left|right]. split; [done|]. unfold read_exact. rewrite Hc2. by destruct (rd_bytes rd).
Qed.

Lemma concat_le4 samples :
  Forall (fun s => 0 <= s < 256 ^ 4) samples ->
  length (concat (le_bytes 4 <$> samples)) = (4 * length samples)%nat
  /\ from_le_bytes <$> chunks4 (concat (le_bytes 4 <$> samples)) = samples.
Proof.
  induction 1 as [|s samples Hs _ [IH1 IH2]]; [done|]. cbn [fmap list_fmap concat].
  split; [rewrite length_app, length_le_bytes, IH1; cbn; lia|].
  pose proof (from_le_bytes_le 4 s Hs) as Hf. cbn [le_bytes] in *. cbn [app chunks4 fmap list_fmap].
  f_equal; [exact Hf|exact IH2].
Qed.

Lemma Ok_inj {E A} (x y : A) : Ok x =@{result E A} Ok y -> x = y.
Proof. by inversion 1. Qed.

(** ** Properties *)

(** A control frame arrives whole, however the pipe cuts it up: when the
    stream holds a frame [write_frame] wrote, any plan of short reads and
    interruptions ends with exactly its body, and the stream left at the next
    frame; a body above [MAX_FRAME] is never written. *)
Theorem frame_roundtrip body rest plan frame :
  write_frame (Ok body) None None = Ok frame -> plan_ok plan ->
  exists rd, read_frame (mkReader (frame ++ rest) plan) = Some (rd, Ok body)
    /\ rd_bytes rd = rest /\ plan_ok (rd_plan rd) /\ Z.of_nat (length body) <= MAX_FRAME.
Proof.
  unfold write_frame, read_frame. destruct (Z.ltb_spec MAX_FRAME (Z.of_nat (length body))) as [|Hm]; [done|].
  intros <-%Ok_inj Hp. rewrite <-app_assoc.
  destruct (read_head_ok 4 (mkReader (le_bytes 4 (Z.of_nat (length body)) ++ body ++ rest) plan) Hp)
    as (rd1 & Hp1 & [(_ & -> & Hb1)|(Hlt & _)]).
  2: { cbn [rd_bytes] in Hlt. rewrite length_app, length_le_bytes in Hlt. lia. }
  cbn [rd_bytes] in *. rewrite take_app_length' by (symmetry; apply length_le_bytes).
  rewrite drop_app_length' in Hb1 by (symmetry; apply length_le_bytes).
  rewrite from_le_bytes_le by (unfold MAX_FRAME in Hm; cbn; lia).
  destruct (Z.ltb_spec MAX_FRAME (Z.of_nat (length body))); [lia|]. rewrite Nat2Z.id.
  destruct (read_exact_ok (length body) rd1 Hp1) as (rd2 & Hp2 & [(_ & -> & Hb2)|(Hlt & _)]).
  - exists rd2. rewrite Hb1 in *. rewrite take_app_length, drop_app_length in *. by split_and!.
  - rewrite Hb1, length_app in Hlt. lia.
Qed.

Lemma frame_roundtrip_witness :
  exists rd, read_frame (mkReader ([3; 0; 0; 0; 1; 2; 3] ++ [9]) [RChunk 0; RFail Interrupted; RChunk 1]) = Some (rd, Ok [1; 2; 3])
    /\ rd_bytes rd = [9].
Proof.
  destruct (frame_roundtrip [1; 2; 3] [9] [RChunk 0; RFail Interrupted; RChunk 1] [3; 0; 0; 0; 1; 2; 3]) as (rd & H1 & H2 & _).
  - by vm_compute.
  - by repeat constructor.
  - by exists rd.
Defined.

(** What a reader does with any stream (short reads and interruptions
    included): it ends; an empty stream is [Closed], one that ends inside a
    header or body is an unexpected end; an announced length above
    [MAX_FRAME] is refused with its size before a byte of the body is read. *)
Theorem read_frame_total bytes plan :
  plan_ok plan ->
  exists rd r, read_frame (mkReader bytes plan) = Some (rd, r)
  /\ (bytes = [] -> r = Err FrClosed)
  /\ (bytes <> [] -> (length bytes < 4)%nat -> r = Err (FrIo UnexpectedEof))
  /\ ((4 <= length bytes)%nat ->
      let len := from_le_bytes (take 4 bytes) in
      (MAX_FRAME < len -> r = Err (FrTooLarge len) /\ rd_bytes rd = drop 4 bytes)
      /\ (len <= MAX_FRAME -> Z.of_nat (length (drop 4 bytes)) < len -> r = Err (FrIo UnexpectedEof))
      /\ (0 <= len <= MAX_FRAME -> len <= Z.of_nat (length (drop 4 bytes)) -> r = Ok (take (Z.to_nat len) (drop 4 bytes)))).
Proof.
  intros Hp. unfold read_frame.
  destruct (read_head_ok 4 (mkReader bytes plan) Hp) as (rd1 & Hp1 & [(Hl & -> & Hb1)|(Hl & ->)]); cbn [rd_bytes] in *.
  - destruct (Z.ltb_spec MAX_FRAME (from_le_bytes (take 4 bytes))) as [Hm|Hm].
    + eexists _, _. split; [done|]. split_and!; [intros ->; cbn in *; lia|intros _ ?; lia|]. intros _. cbn zeta. split_and!; [done|lia|lia].
    + destruct (read_exact_ok (Z.to_nat (from_le_bytes (take 4 bytes))) rd1 Hp1) as (rd2 & Hp2 & [(Hl2 & -> & Hb2)|(Hl2 & ->)]).
      * eexists _, _. split; [done|]. split_and!; [intros ->; cbn in *; lia|intros _ ?; lia|]. intros _. cbn zeta. rewrite Hb1 in *. split_and!; [lia|lia|done].
      * eexists _, _. split; [done|]. split_and!; [intros ->; cbn in *; lia|intros _ ?; lia|]. intros _. cbn zeta. rewrite Hb1 in *. split_and!; [lia|done|lia].
  - eexists _, _. split; [done|]. split_and!; [by intros ->|by destruct bytes|intros ?; lia].
Qed.

Lemma read_frame_total_witness :
  exists rd, read_frame (mkReader [255; 255; 255; 0; 7] []) = Some (rd, Err (FrTooLarge 16777215)) /\ rd_bytes rd = [7].
Proof.
  destruct (read_frame_total [255; 255; 255; 0; 7] []) as (rd & r & Hr & _ & _ & Hbig); [constructor|].
  destruct (Hbig ltac:(cbn; lia)) as (Hb & _). destruct (Hb ltac:(by vm_compute)) as (-> & Hd). by exists rd.
Defined.

(** A media frame arrives as it was sent: header fields at their widths and
    the samples bit for bit, however the pipe cuts it up; [write_media]
    refuses a frame whose samples do not match its header or exceed
    [MAX_SAMPLES], so every frame it writes is one [read_media] accepts. *)
Theorem media_roundtrip h samples rest plan frame :
  byte_ok (md_stream h) -> byte_ok (md_channels h) -> u64_ok (md_seq h) -> 0 <= md_frames h <= u16_max ->
  Forall (fun s => 0 <= s < 256 ^ 4) samples ->
  write_media h samples None None = Ok frame -> plan_ok plan ->
  exists rd, read_media (mkReader (frame ++ rest) plan) = Some (rd, Ok (h, samples)) /\ rd_bytes rd = rest.
Proof.
  intros Hs Hc Hq Hf Hsm. unfold write_media.
  destruct (Z.eqb_spec (Z.of_nat (length samples)) (media_samples h)) as [Hn|]; [|done].
  destruct (Z.ltb_spec MAX_SAMPLES (media_samples h)) as [|Hmax]; [done|]. cbn [negb orb]. intros <-%Ok_inj Hp.
  destruct (concat_le4 samples Hsm) as [Hlen Hback].
  set (body := concat (le_bytes 4 <$> samples)) in *.
  set (head := MAGIC ++ [MEDIA_VERSION; md_stream h; md_channels h; 0] ++ le_bytes 8 (md_seq h) ++ le_bytes 2 (md_frames h) ++ [0; 0]).
  assert (Hhl : length head = 20%nat) by (unfold head; rewrite !length_app, !length_le_bytes; done).
  match goal with |- context [mkReader ?l plan] => replace l with (head ++ body ++ rest) end.
  2: { unfold head. by rewrite <-!app_assoc. }
  unfold read_media.
  destruct (read_head_ok MEDIA_HEADER (mkReader (head ++ body ++ rest) plan) Hp) as (rd1 & Hp1 & [(_ & -> & Hb1)|(Hlt & _)]).
  2: { cbn [rd_bytes] in Hlt. rewrite length_app in Hlt. unfold MEDIA_HEADER in Hlt. lia. }
  cbn [rd_bytes] in *. unfold MEDIA_HEADER in *. rewrite take_app_length' by done. rewrite drop_app_length' in Hb1 by done.
  assert (Hmeta : take 4 (drop 4 head) = [MEDIA_VERSION; md_stream h; md_channels h; 0]) by done.
  assert (Hseq : take 8 (drop 8 head) = le_bytes 8 (md_seq h)).
  { unfold head. cbn [MAGIC app drop]. rewrite ?drop_0. by rewrite take_app_length' by (symmetry; apply length_le_bytes). }
  assert (Hfr : take 2 (drop 16 head) = le_bytes 2 (md_frames h)).
  { unfold head. change 16%nat with (8 + 8)%nat. rewrite <-drop_drop. cbn [MAGIC app drop]. rewrite ?drop_0.
    rewrite drop_app_length' by (symmetry; apply length_le_bytes). by rewrite take_app_length' by (symmetry; apply length_le_bytes). }
  change (take 4 head) with MAGIC. rewrite bool_decide_eq_true_2 by done. cbn [negb].
  rewrite Hmeta, Hseq, Hfr. cbn [Z.eqb MEDIA_VERSION Pos.eqb negb].
  rewrite !from_le_bytes_le by (unfold u64_ok, u64_max, u16_max in *; cbn; lia).
  assert (Hh : mkMediaHeader (md_stream h) (md_channels h) (md_seq h) (md_frames h) = h) by by destruct h.
  rewrite Hh. destruct (Z.ltb_spec MAX_SAMPLES (media_samples h)); [lia|].
  replace (Z.to_nat (4 * media_samples h)) with (length body) by lia.
  destruct (read_exact_ok (length body) rd1 Hp1) as (rd2 & Hp2 & [(_ & -> & Hb2)|(Hlt & _)]).
  - exists rd2. rewrite Hb1 in *. rewrite take_app_length, drop_app_length in *. by rewrite Hback.
  - rewrite Hb1, length_app in Hlt. lia.
Qed.

Lemma media_roundtrip_witness :
  exists rd frame, write_media (mkMediaHeader 16 1 7 2) [1; 4294967295] None None = Ok frame
    /\ read_media (mkReader (frame ++ [5]) [RChunk 3]) = Some (rd, Ok (mkMediaHeader 16 1 7 2, [1; 4294967295])).
Proof.
  destruct (media_roundtrip (mkMediaHeader 16 1 7 2) [1; 4294967295] [5] [RChunk 3]
              ([73; 69; 77; 70; 1; 16; 1; 0; 7; 0; 0; 0; 0; 0; 0; 0; 2; 0; 0; 0; 1; 0; 0; 0; 255; 255; 255; 255])) as (rd & Hr & _).
  1-4: by vm_compute.
  - by repeat constructor.
  - by vm_compute.
  - by repeat constructor.
  - eexists rd, _. split; [|exact Hr]. by vm_compute.
Defined.
