(* ===== verification/Dsp.v ===== *)
(** * The DSP kernels ([iem-dsp/src/ramp.rs], [pan.rs], [meter.rs],
    [sanitize.rs])

    Linear ramps, the measured pan law with its smoothed gain pair, the peak
    meters and the sanitiser.  A block of samples is a list per channel.

    Then the five-band EQ ([eq.rs]) and the engine's loopback latency probe
    ([iem-engine/src/latency.rs]). *)

From S2P Require Import Prelude F64.
From Stdlib Require Import SpecFloat.
From stdpp Require Import options.
Local Open Scope Z_scope.

(** ** Ramps ([ramp.rs]) *)

Definition GAIN_MS : f64 := Eval vm_compute in f64_lit 10 0.
Definition PAN_MS : f64 := Eval vm_compute in f64_lit 10 0.
Definition MUTE_MS : f64 := Eval vm_compute in f64_lit 5 0.
Definition EQ_MS : f64 := Eval vm_compute in f64_lit 20 0.

(** Samples in [ms] milliseconds, rounded, at least 1. *)
Definition samples (ms sample_rate : f64) : Z :=
  Z.max (f64_round_u32 (ms * sample_rate / f64_1000)%F) 1.

Record Ramp := mkRamp {
  ra_value : f64;
  ra_target : f64;
  ra_step : f64;
  ra_left : Z;
  ra_len : Z;
}.

Definition Ramp_new (value : f64) (len : Z) : Ramp :=
  mkRamp value value f64_0 0 (if len =? 0 then 1 else len).

Definition is_moving (r : Ramp) : bool := 0 <? ra_left r.

(** Towards [target] from the current value, over the full length. *)
Definition ramp_set (target : f64) (r : Ramp) : Ramp :=
  if f64_eqb target (ra_target r) then r
  else mkRamp (ra_value r) target ((target - ra_value r) / f64_of_u32 (ra_len r))%F (ra_len r) (ra_len r).

Definition ramp_jump (value : f64) (r : Ramp) : Ramp := Ramp_new value (ra_len r).

(** One sample on: the ramp after it; its value is the sample's. *)
Definition ramp_tick (r : Ramp) : Ramp :=
  if 0 <? ra_left r then
    let left := ra_left r - 1 in
    mkRamp (if left =? 0 then ra_target r else (ra_value r + ra_step r)%F) (ra_target r) (ra_step r) left (ra_len r)
  else r.

(** ** The pan law ([pan.rs]) *)

Definition MAGNITUDE : list f64 := Eval vm_compute in
  [SQRT_2; f64_lit 1413442003770097 15; f64_lit 14111213638902695 16; f64_lit 1407233637679557 15;
   f64_lit 14017484365850923 16; f64_lit 13946224041647768 16; f64_lit 13857983687078865 16;
   f64_lit 13752042016004387 16; f64_lit 13627513381348282 16; f64_lit 13483329027347901 16;
   f64_lit 13318213620807011 16; f64_lit 13130656059467758 16; f64_lit 12918873247387341 16;
   f64_lit 12680765120099933 16; f64_lit 12413858657590862 16; f64_lit 12115237885030046 16;
   f64_lit 11781455848733056 16; f64_lit 11408423148202314 16; f64_lit 10991265624823106 16;
   f64_lit 1052414098036256 15; f64_1].

(** Past |p| = 1. *)
Definition GHOST : f64 := Eval vm_compute in f64_lit 947585901963744 15.

Definition node (k : nat) : f64 := match MAGNITUDE !! k with Some m => m | None => GHOST end.

Definition f64_3 : f64 := Eval vm_compute in f64_lit 3 0.
Definition f64_4 : f64 := Eval vm_compute in f64_lit 4 0.
Definition f64_5 : f64 := Eval vm_compute in f64_lit 5 0.

(** Catmull-Rom of the table at [a] in [0, 1]. *)
Definition magnitude (a : f64) : f64 :=
  let x := (a * f64_20)%F in
  let i := Nat.min (f64_as_usize x) 20 in
  let t := (x - f64_of_u64 (Z.of_nat i))%F in
  let y0 := node (if (i =? 0)%nat then 1 else i - 1) in
  let y1 := node i in
  let y2 := node (i + 1) in
  let y3 := node (i + 2) in
  (y1 + f64_half * t * (y2 - y0 + t * (f64_2 * y0 - f64_5 * y1 + f64_4 * y2 - y3 + t * (f64_3 * (y1 - y2) + y3 - y0))))%F.

Definition f64_m1 : f64 := Eval vm_compute in f64_lit (-1) 0.

Section pan.
Context `{RtMath}.

(** The pan gains of [p], clamped to [-1, 1]; centre when it is not finite. *)
Definition gains (p : f64) : f64 * f64 :=
  let p := if f64_is_finite p then f64_clamp p f64_m1 f64_1 else f64_0 in
  let m := magnitude (f64_abs p) in
  ((m * f64_sin ((f64_1 - p) * FRAC_PI_4))%F, (m * f64_sin ((f64_1 + p) * FRAC_PI_4))%F).

Definition send_gains (vol : f64) (muted : bool) (pan : f64) : f64 * f64 :=
  if muted then (f64_0, f64_0)
  else let '(l, r) := gains pan in ((vol * l)%F, (vol * r)%F).

Definition mono_downmix (l r gl gr : f64) : f64 := ((gl * l + gr * r) * f64_half)%F.

(** [v * gains(p)] over 10 ms, mute over 5 ms. *)
Record StereoGain := mkStereoGain { sg_l : Ramp; sg_r : Ramp; sg_on : Ramp }.

Definition gate (muted : bool) : f64 := if muted then f64_0 else f64_1.

Definition StereoGain_new (sample_rate vol : f64) (muted : bool) (pan : f64) : StereoGain :=
  let '(gl, gr) := send_gains vol false pan in
  let len := samples GAIN_MS sample_rate in
  mkStereoGain (Ramp_new gl len) (Ramp_new gr len) (Ramp_new (gate muted) (samples MUTE_MS sample_rate)).

Definition sg_set (vol : f64) (muted : bool) (pan : f64) (g : StereoGain) : StereoGain :=
  let '(gl, gr) := send_gains vol false pan in
  mkStereoGain (ramp_set gl (sg_l g)) (ramp_set gr (sg_r g)) (ramp_set (gate muted) (sg_on g)).

(** The gains of every sample while no ramp moves. *)
Definition sg_steady (g : StereoGain) : option (f64 * f64) :=
  if is_moving (sg_l g) || is_moving (sg_r g) || is_moving (sg_on g) then None
  else
    let on := ra_value (sg_on g) in
    Some ((ra_value (sg_l g) * on)%F, (ra_value (sg_r g) * on)%F).

Definition sg_tick (g : StereoGain) : StereoGain * (f64 * f64) :=
  let on := ramp_tick (sg_on g) in
  let l := ramp_tick (sg_l g) in
  let r := ramp_tick (sg_r g) in
  (mkStereoGain l r on, ((ra_value l * ra_value on)%F, (ra_value r * ra_value on)%F)).
End pan.

(** ** Meters ([meter.rs]): a peak per channel *)

Definition PeakMeter_new (channels : nat) : list f64 := replicate channels f64_0.

Definition peak_sample (peak x : f64) : f64 :=
  let a := f64_abs x in if f64_ltb peak a then a else peak.

Definition observe (peaks : list f64) (chans : list (list f64)) : list f64 :=
  zip_with (fun peak ch => foldl peak_sample peak ch) peaks chans ++ drop (length chans) peaks.

(** The peaks, and the meter after they are taken. *)
Definition take_peaks (peaks : list f64) : list f64 * list f64 := (peaks, (fun _ => f64_0) <$> peaks).

Definition f64_m150 : f64 := Eval vm_compute in f64_lit (-150) 0.

Definition to_db `{RtMath} (x : f64) : f64 :=
  if f64_ltb f64_0 x then f64_max (f64_20 * f64_log10 x)%F f64_m150 else f64_m150.

Definition seconds (n : Z) (sample_rate : f64) : f64 := (f64_of_u64 n / sample_rate)%F.

(** ** The sanitiser ([sanitize.rs]) *)

Definition LIMIT : f64 := Eval vm_compute in f64_lit 1000000 0.

Definition bad_sample (x : f64) : bool := f64_is_nan x || f64_ltb LIMIT (f64_abs x).

Definition silence (ch : list f64) : list f64 := replicate (length ch) f64_0.

(** Whether the block tripped; then it is zeroed. *)
Definition sanitize (chans : list (list f64)) : bool * list (list f64) :=
  let bad := existsb (existsb bad_sample) chans in
  (bad, if bad then silence <$> chans else chans).

Definition Trips_default : Z := 0.

Definition check (count : Z) (chans : list (list f64)) : Z * bool * list (list f64) :=
  let '(tripped, chans) := sanitize chans in
  (if tripped then u64_wrapping_add count 1 else count, tripped, chans).

(** * The five-band EQ ([iem-dsp/src/eq.rs])

    Each band is a state-variable filter designed at ReaEQ's effective values;
    a change ramps its keys (log frequency, dB, log bandwidth) and redesigns
    the filter every [DESIGN_EVERY] samples and at the target. *)

From S2P Require Import Prelude F64 Text MixState Msg Shape Topology Rt.
From Stdlib Require Import SpecFloat.
From stdpp Require Import vector.
From stdpp Require Import options.
Local Open Scope Z_scope.

Definition BANDS : nat := 5.
Definition FREQ_MIN : f64 := Eval vm_compute in f64_lit 20 0.
Definition FREQ_MAX : f64 := Eval vm_compute in f64_lit 24000 0.
Definition NYQUIST_FRACTION : f64 := Eval vm_compute in f64_lit 49 2.
Definition BW_MIN : f64 := Eval vm_compute in f64_lit 1 2.
Definition BW_MAX : f64 := Eval vm_compute in f64_lit 4 0.
Definition GAIN_MAX : f64 := Eval vm_compute in f64_lit 4 0.
Definition SHELF_GAIN_MIN : f64 := Eval vm_compute in f64_lit 1 6.
Definition SHELF_SLOPE_MAX : f64 := Eval vm_compute in f64_lit 12 1.
Definition RAMP_DB_MIN : f64 := Eval vm_compute in f64_lit (-120) 0.
Definition DESIGN_EVERY : Z := 16.
Definition DENORMAL : f64 := Eval vm_compute in f64_lit 1 30.

(** Finite and not negative. *)
Definition value_ok (x : f64) : bool := f64_is_finite x && f64_leb f64_0 x.

Definition is_valid (b : DspBand) : bool :=
  value_ok (db_freq_hz b) && value_ok (db_gain_lin b) && value_ok (db_bw_oct b).

Definition flat (kind : DspKind) (freq_hz bw_oct : f64) : DspBand := mkDspBand kind false freq_hz f64_1 bw_oct.

(** ReaEQ's layout, every band off and flat. *)
Definition standard_flat : EqParams := Eval vm_compute in
  mkEqParams [# flat DspHighPass (f64_lit 8020834168547682 14) f64_2;
                flat DspLowShelf (f64_lit 2003077623397404 13) f64_2;
                flat DspPeak (f64_lit 8019398157380639 13) f64_1;
                flat DspPeak (f64_lit 29962342070275295 13) f64_1;
                flat DspHighShelf (f64_lit 8016061124722856 12) f64_2] f64_1.

(** y = m0 x + m1 band + m2 low *)
Record Coefs := mkCoefs { cf_g : f64; cf_k : f64; cf_a1 : f64; cf_a2 : f64; cf_a3 : f64; cf_m0 : f64; cf_m1 : f64; cf_m2 : f64 }.

Definition svf (g k m0 m1 m2 : f64) : Coefs :=
  let a1 := (f64_1 / (f64_1 + g * (g + k)))%F in
  let a2 := (g * a1)%F in
  mkCoefs g k a1 a2 (g * a2)%F m0 m1 m2.

Definition flush (x : f64) : f64 := if f64_ltb (f64_abs x) DENORMAL then f64_0 else x.

(** One sample through the filter with its two states. *)
Definition coefs_tick (c : Coefs) (s : f64 * f64) (x : f64) : (f64 * f64) * f64 :=
  let '(ic1, ic2) := s in
  let v3 := (x - ic2)%F in
  let v1 := (cf_a1 c * ic1 + cf_a2 c * v3)%F in
  let v2 := (ic2 + cf_a2 c * ic1 + cf_a3 c * v3)%F in
  ((flush (f64_2 * v1 - ic1)%F, flush (f64_2 * v2 - ic2)%F), (cf_m0 c * x + cf_m1 c * v1 + cf_m2 c * v2)%F).

(** A band with its ramped keys and one filter state per channel. *)
Record BandState := mkBandState {
  bs_target : DspBand;
  bs_freq : Ramp;
  bs_gain : Ramp;
  bs_bw : Ramp;
  bs_wet : Ramp;
  bs_coefs : Coefs;
  bs_state : list (f64 * f64);
  bs_len : Z;
  bs_step : Z;
}.

Record Equalizer := mkEqualizer { eq_sample_rate : f64; eq_bands : list BandState; eq_global : Ramp }.

Definition bypassed (s : BandState) : bool := f64_eqb (ra_value (bs_wet s)) f64_0 && negb (is_moving (bs_wet s)).
Definition moving (s : BandState) : bool := is_moving (bs_freq s) || is_moving (bs_gain s) || is_moving (bs_bw s).

Definition zero_state (s : BandState) : BandState :=
  mkBandState (bs_target s) (bs_freq s) (bs_gain s) (bs_bw s) (bs_wet s) (bs_coefs s)
    ((fun _ => (f64_0, f64_0)) <$> bs_state s) (bs_len s) (bs_step s).

Definition set_wet (wet : Ramp) (s : BandState) : BandState :=
  mkBandState (bs_target s) (bs_freq s) (bs_gain s) (bs_bw s) wet (bs_coefs s) (bs_state s) (bs_len s) (bs_step s).

Definition set_coefs (c : Coefs) (s : BandState) : BandState :=
  mkBandState (bs_target s) (bs_freq s) (bs_gain s) (bs_bw s) (bs_wet s) c (bs_state s) (bs_len s) (bs_step s).

Definition on_off (b : DspBand) : f64 := if db_enabled b then f64_1 else f64_0.

(** One sample of a band on channel [ch]. *)
Definition band_tick (s : BandState) (ch : nat) (x : f64) : BandState * f64 :=
  let wet := ra_value (bs_wet s) in
  if f64_eqb wet f64_0 then (s, x)
  else
    match bs_state s !! ch with
    | None => (s, x)
    | Some st =>
        let '(st, y) := coefs_tick (bs_coefs s) st x in
        (mkBandState (bs_target s) (bs_freq s) (bs_gain s) (bs_bw s) (bs_wet s) (bs_coefs s)
           (<[ch := st]> (bs_state s)) (bs_len s) (bs_step s),
         if f64_eqb wet f64_1 then y else (x + wet * (y - x))%F)
    end.

(** A sample of channel [ch] through every band in turn. *)
Fixpoint bands_tick (bands : list BandState) (ch : nat) (x : f64) : list BandState * f64 :=
  match bands with
  | [] => ([], x)
  | b :: bands =>
      let '(b, x) := band_tick b ch x in
      let '(bands, x) := bands_tick bands ch x in
      (b :: bands, x)
  end.

(** A frame of one sample per channel, from channel [ch] on. *)
Fixpoint frame_tick (bands : list BandState) (gain : f64) (ch : nat) (xs : list f64) : list BandState * list f64 :=
  match xs with
  | [] => (bands, [])
  | x :: xs =>
      let '(bands, y) := bands_tick bands ch x in
      let '(bands, ys) := frame_tick bands gain (S ch) xs in
      (bands, (y * gain)%F :: ys)
  end.

Definition eq_reset (e : Equalizer) : Equalizer :=
  mkEqualizer (eq_sample_rate e) (zero_state <$> eq_bands e) (eq_global e).

Definition is_identity (e : Equalizer) : bool :=
  negb (is_moving (eq_global e)) && f64_eqb (ra_value (eq_global e)) f64_1 && forallb bypassed (eq_bands e).

(** [Equalizer::params]: the targets. *)
Definition eq_targets (e : Equalizer) : list DspBand * f64 := (bs_target <$> eq_bands e, ra_target (eq_global e)).

Section eq.
Context `{Libm, RtMath}.

Definition design (b : DspBand) (fs : f64) : Coefs :=
  let f := f64_min (f64_clamp (db_freq_hz b) FREQ_MIN FREQ_MAX) (NYQUIST_FRACTION * fs)%F in
  let bw := f64_clamp (db_bw_oct b) BW_MIN BW_MAX in
  let gain := f64_min (db_gain_lin b) GAIN_MAX in
  let g := f64_tan (PI * f / fs)%F in
  let w0 := (TAU * f / fs)%F in
  let warp := if f64_leb w0 FRAC_PI_2 then (w0 / f64_sin w0)%F else FRAC_PI_2 in
  let q_inv := (f64_2 * f64_sinh (LN_2 / f64_2 * bw * warp))%F in
  let shelf_a := f64_sqrt (f64_max gain SHELF_GAIN_MIN) in
  let s := f64_min (f64_1 / (bw * bw))%F SHELF_SLOPE_MAX in
  let shelf_k :=
    f64_sqrt (f64_max ((shelf_a + f64_1 / shelf_a) * (f64_1 / s - f64_1) + f64_2)%F f64_0) in
  match db_kind b with
  | DspHighPass => svf g q_inv f64_1 (- q_inv)%F f64_m1
  | DspPeak =>
      if f64_leb gain f64_0 then svf g q_inv f64_1 (- q_inv)%F f64_0
      else
        let a := f64_sqrt gain in
        let k := (q_inv / a)%F in
        svf g k f64_1 (k * (a * a - f64_1))%F f64_0
  | DspLowShelf =>
      let a := shelf_a in
      svf (g / f64_sqrt a)%F shelf_k f64_1 (shelf_k * (a - f64_1))%F (a * a - f64_1)%F
  | DspHighShelf =>
      let a := shelf_a in
      svf (g * f64_sqrt a)%F shelf_k (a * a)%F (shelf_k * (f64_1 - a) * a)%F (f64_1 - a * a)%F
  end.

(** |H| at [freq]. *)
Definition coefs_magnitude (c : Coefs) (fs freq : f64) : f64 :=
  let t := (f64_tan (PI * freq / fs) / cf_g c)%F in
  let nr := (cf_m0 c + cf_m2 c - cf_m0 c * t * t)%F in
  let ni := ((cf_m0 c * cf_k c + cf_m1 c) * t)%F in
  let dr := (f64_1 - t * t)%F in
  let di := (cf_k c * t)%F in
  f64_sqrt ((nr * nr + ni * ni) / (dr * dr + di * di))%F.

Definition f64_499m : f64 := Eval vm_compute in f64_lit 499 3.
Definition f64_1e_15 : f64 := Eval vm_compute in f64_lit 1 15.
Definition f64_m300 : f64 := Eval vm_compute in f64_lit (-300) 0.

Definition response_db (params : EqParams) (sample_rate freq_hz : f64) : f64 :=
  let f := f64_max (f64_min freq_hz (f64_499m * sample_rate)%F) f64_0 in
  let mag :=
    foldl (fun m b => (m * coefs_magnitude (design b sample_rate) sample_rate f)%F) (ep_global_gain params)
      (filter (fun b => db_enabled b = true) (vec_to_list (ep_bands params))) in
  if f64_ltb f64_1e_15 mag then (f64_20 * f64_log10 mag)%F else f64_m300.

Definition freq_key (b : DspBand) : f64 := f64_log2 (f64_max (db_freq_hz b) FREQ_MIN).
Definition gain_key (b : DspBand) : f64 :=
  if f64_ltb f64_0 (db_gain_lin b) then f64_max (f64_20 * f64_log10 (db_gain_lin b))%F RAMP_DB_MIN else RAMP_DB_MIN.
Definition bw_key (b : DspBand) : f64 := f64_log2 (f64_max (db_bw_oct b) BW_MIN).

Definition BandState_new (channels : nat) (b : DspBand) (fs : f64) (len : Z) : BandState :=
  mkBandState b (Ramp_new (freq_key b) len) (Ramp_new (gain_key b) len) (Ramp_new (bw_key b) len)
    (Ramp_new (on_off b) len) (design b fs) (replicate channels (f64_0, f64_0)) len 0.

Definition band_set (b : DspBand) (fs : f64) (s : BandState) : BandState :=
  let s :=
    if negb (bool_decide (db_kind b = db_kind (bs_target s))) || bypassed s
    then set_wet (bs_wet s) (BandState_new (length (bs_state s)) b fs (bs_len s))
    else
      let same := f64_eqb (freq_key b) (ra_target (bs_freq s)) && f64_eqb (gain_key b) (ra_target (bs_gain s))
                  && f64_eqb (bw_key b) (ra_target (bs_bw s)) in
      let s :=
        mkBandState b (ramp_set (freq_key b) (bs_freq s)) (ramp_set (gain_key b) (bs_gain s))
          (ramp_set (bw_key b) (bs_bw s)) (bs_wet s) (bs_coefs s) (bs_state s) (bs_len s)
          (if same then bs_step s else 0) in
      if moving s then s else set_coefs (design b fs) s in
  set_wet (ramp_set (on_off b) (bs_wet s)) s.

(** A sample on: the ramps, the redesigns, the bypassed filter's state. *)
Definition band_advance (fs : f64) (s : BandState) : BandState :=
  let wet := ramp_tick (bs_wet s) in
  let s :=
    if moving s then
      let f := ramp_tick (bs_freq s) in
      let db := ramp_tick (bs_gain s) in
      let bw := ramp_tick (bs_bw s) in
      let step := u32_wrapping_add (bs_step s) 1 in
      let t := bs_target s in
      let s := mkBandState t f db bw wet (bs_coefs s) (bs_state s) (bs_len s) step in
      if negb (moving s) then set_coefs (design t fs) s
      else if step mod DESIGN_EVERY =? 0
      then
        set_coefs (design (mkDspBand (db_kind t) (db_enabled t) (f64_exp2 (ra_value f))
                             (powf f64_ten (ra_value db / f64_20)%F) (f64_exp2 (ra_value bw))) fs) s
      else s
    else set_wet wet s in
  if bypassed s then zero_state s else s.

(** At rest at its bands and global gain; an invalid one is flat and off. *)
Definition Equalizer_at (channels : nat) (params : list DspBand * f64) (sample_rate : f64) : Equalizer :=
  let len := samples EQ_MS sample_rate in
  mkEqualizer sample_rate
    (zip_with (fun d b => BandState_new channels (if is_valid b then b else d) sample_rate len)
       (vec_to_list (ep_bands standard_flat)) params.1)
    (Ramp_new (if value_ok params.2 then params.2 else f64_1) len).

Definition Equalizer_new (channels : nat) (params : EqParams) (sample_rate : f64) : Equalizer :=
  Equalizer_at channels (vec_to_list (ep_bands params), ep_global_gain params) sample_rate.

(** New targets; an invalid band or global gain is ignored. *)
Definition eq_set (params : EqParams) (e : Equalizer) : Equalizer * bool :=
  let bands := zip_with (fun s b => if is_valid b then band_set b (eq_sample_rate e) s else s)
                 (eq_bands e) (vec_to_list (ep_bands params)) in
  let global := if value_ok (ep_global_gain params) then ramp_set (ep_global_gain params) (eq_global e) else eq_global e in
  (mkEqualizer (eq_sample_rate e) bands global,
   forallb is_valid (vec_to_list (ep_bands params)) && value_ok (ep_global_gain params)).

(** One frame in place. *)
Definition eq_frame (e : Equalizer) (xs : list f64) : Equalizer * list f64 :=
  let bands := band_advance (eq_sample_rate e) <$> eq_bands e in
  let global := ramp_tick (eq_global e) in
  let '(bands, ys) := frame_tick bands (ra_value global) 0 xs in
  (mkEqualizer (eq_sample_rate e) bands global, ys).

(** [Equalizer::process] on a stereo block. *)
Fixpoint eq_process (e : Equalizer) (l r : list f64) : Equalizer * (list f64 * list f64) :=
  match l, r with
  | x :: l, y :: r =>
      let '(e, ys) := eq_frame e [x; y] in
      let '(e, (l, r)) := eq_process e l r in
      match ys with
      | [x; y] => (e, (x :: l, y :: r))
      | _ => (e, (x :: l, y :: r))
      end
  | l, r => (e, (l, r))
  end.
End eq.

(** ** The loopback latency probe ([iem-engine/src/latency.rs]) *)

From S2P Require Import Prelude F64.
From Stdlib Require Import SpecFloat.
From stdpp Require Import options.
Local Open Scope Z_scope.

Definition ONSET : f64 := Eval vm_compute in f64_lit 1 3.
Definition MIN_ROUND_TRIP : Z := 16.
Definition QUIET_BEFORE : Z := 9600.

Record LatencyProbe := mkLatencyProbe {
  lp_emitted_at : option Z;
  lp_arrived_at : option Z;
  lp_spoiled : bool;
  lp_last_loud : option Z;
}.

Definition LatencyProbe_new : LatencyProbe := mkLatencyProbe None None false None.

(** A new run; what the return carried stays. *)
Definition probe_reset (p : LatencyProbe) : LatencyProbe := mkLatencyProbe None None false (lp_last_loud p).

(** The first emit of a run counts; a return that sounded just before spoils it. *)
Definition emitted (at_ : Z) (p : LatencyProbe) : LatencyProbe :=
  match lp_emitted_at p with
  | Some _ => p
  | None =>
      mkLatencyProbe (Some at_) (lp_arrived_at p)
        (lp_spoiled p || match lp_last_loud p with Some l => at_ <=? u64_saturating_add l QUIET_BEFORE | None => false end)
        (lp_last_loud p)
  end.

(** A loud sample of a return. *)
Definition loud (at_ : Z) (p : LatencyProbe) : LatencyProbe :=
  let last := Some (match lp_last_loud p with Some l => Z.max l at_ | None => at_ end) in
  let p := mkLatencyProbe (lp_emitted_at p) (lp_arrived_at p) (lp_spoiled p) last in
  match lp_emitted_at p with
  | None => p
  | Some emit =>
      if lp_spoiled p then p
      else if at_ <? u64_saturating_add emit MIN_ROUND_TRIP
      then mkLatencyProbe (lp_emitted_at p) None true last
      else
        mkLatencyProbe (lp_emitted_at p) (Some (match lp_arrived_at p with Some a => Z.min a at_ | None => at_ end))
          false last
  end.

Fixpoint feed (ret : list f64) (base : Z) (i : nat) (p : LatencyProbe) : LatencyProbe :=
  match ret with
  | [] => p
  | s :: ret =>
      let p := if f64_leb ONSET (f64_abs s) then loud (u64_saturating_add base (Z.of_nat i)) p else p in
      feed ret base (S i) p
  end.

(** The round trip in samples, once known. *)
Definition round_trip (p : LatencyProbe) : option Z :=
  match lp_emitted_at p, lp_arrived_at p with
  | Some e, Some a => if e <=? a then Some (a - e) else None
  | _, _ => None
  end.

Definition round_trip_ms (sample_rate : Z) (p : LatencyProbe) : option f64 :=
  let sr := f64_of_u32 sample_rate in
  if f64_ltb f64_0 sr then (fun n => (f64_of_u64 n * f64_1000 / sr)%F) <$> round_trip p else None.
