(* ===== verification/Mga.v ===== *)
(** * The output limiter ([iem-limiter-mga/src/lib.rs])

    The MGA JS limiter, one stereo frame at a time, and the product's use of
    it: instant enabling, disabling over 10 ms, the count of active samples. *)

From S2P Require Import Prelude F64 Text MixState Dsp.
From Stdlib Require Import SpecFloat.
From stdpp Require Import options.
Local Open Scope Z_scope.

Definition RELEASE_MS : f64 := Eval vm_compute in f64_lit 50 0.
Definition LINK_PCT : f64 := Eval vm_compute in f64_lit 75 0.
Definition LIMIT_MIN_DB : f64 := Eval vm_compute in f64_lit (-6) 0.
Definition LIMIT_MAX_DB : f64 := Eval vm_compute in f64_lit 0 0.
Definition ACTIVE_BELOW_DB : f64 := Eval vm_compute in f64_lit (-1) 0.
Definition DISABLE_MS : f64 := Eval vm_compute in f64_lit 10 0.
Definition DENORMAL : f64 := Eval vm_compute in f64_lit 1 30.

Record Sliders := mkSliders { sl_threshold_db : f64; sl_release_ms : f64; sl_link_pct : f64; sl_ceiling_db : f64 }.

(** One channel's detector. *)
Record Channel := mkChannel { ch_t1 : f64; ch_t2 : f64; ch_m1 : f64; ch_m2 : f64; ch_env : f64 }.

Definition Channel_new (hold : f64) : Channel := mkChannel f64_0 (hold / f64_2)%F f64_0 f64_0 f64_0.

(** A window's timer and its peak, one sample on. *)
Definition window (t m hold a : f64) : f64 * f64 :=
  let t := (t + f64_1)%F in
  let '(t, m) := if f64_ltb hold t then (f64_0, f64_0) else (t, m) in
  (t, f64_max m a).

Definition held_peak (c : Channel) (x hold : f64) : Channel * f64 :=
  let a := f64_abs x in
  let '(t1, m1) := window (ch_t1 c) (ch_m1 c) hold a in
  let '(t2, m2) := window (ch_t2 c) (ch_m2 c) hold a in
  (mkChannel t1 t2 m1 m2 (ch_env c), f64_max m1 m2).

Definition set_chan_env (env : f64) (c : Channel) : Channel := mkChannel (ch_t1 c) (ch_t2 c) (ch_m1 c) (ch_m2 c) env.

(** Instant attack, release towards the held peak. *)
Definition chan_gain (c : Channel) (peak r thresh : f64) : Channel * f64 :=
  let env := if f64_ltb (ch_env c) peak then peak else (peak + r * (ch_env c - peak))%F in
  let g := if f64_ltb thresh env then (thresh / env)%F else f64_1 in
  (set_chan_env (if f64_ltb env DENORMAL then f64_0 else env) c, g).

Record Mga := mkMga {
  mg_hold : f64;
  mg_thresh : f64;
  mg_volume : f64;
  mg_r : f64;
  mg_link : f64;
  mg_left : Channel;
  mg_right : Channel;
  mg_gr_meter : f64;
  mg_gr_decay : f64;
}.

Definition f64_128 : f64 := Eval vm_compute in f64_lit 128 0.
Definition f64_m3 : f64 := Eval vm_compute in f64_lit (-3) 0.
Definition f64_5cent : f64 := Eval vm_compute in f64_lit 5 2.
Definition f64_cent : f64 := Eval vm_compute in f64_lit 1 2.

Definition mga_tick (m : Mga) (xl xr : f64) : Mga * (f64 * f64) :=
  let '(cl, pl) := held_peak (mg_left m) xl (mg_hold m) in
  let '(cr, pr) := held_peak (mg_right m) xr (mg_hold m) in
  let cl := set_chan_env (f64_max (ch_env cl) (ch_env cr * mg_link m)%F) cl in
  let cr := set_chan_env (f64_max (ch_env cl * mg_link m)%F (ch_env cr)) cr in
  let '(cl, gl) := chan_gain cl pl (mg_r m) (mg_thresh m) in
  let '(cr, gr) := chan_gain cr pr (mg_r m) (mg_thresh m) in
  let g := f64_min gl gr in
  let meter := if f64_ltb g (mg_gr_meter m) then g else f64_min (mg_gr_meter m * mg_gr_decay m)%F f64_1 in
  (mkMga (mg_hold m) (mg_thresh m) (mg_volume m) (mg_r m) (mg_link m) cl cr meter (mg_gr_decay m),
   ((xl * (gl * mg_volume m))%F, (xr * (gr * mg_volume m))%F)).

Definition mga_reset (m : Mga) : Mga :=
  mkMga (mg_hold m) (mg_thresh m) (mg_volume m) (mg_r m) (mg_link m) (Channel_new (mg_hold m)) (Channel_new (mg_hold m))
    f64_1 (mg_gr_decay m).

(** The product's limiter. *)
Record MgaLimiter := mkMgaLimiter {
  li_mga : Mga;
  li_sample_rate : f64;
  li_limit_db : f64;
  li_enabled : bool;
  li_fade : Z;
  li_fade_len : Z;
  li_active : Z;
  li_active_below : f64;
}.

Definition product_sliders (limit_db : f64) : Sliders := mkSliders limit_db RELEASE_MS LINK_PCT limit_db.

Definition clamp_limit (db : f64) : f64 := if f64_is_finite db then f64_clamp db LIMIT_MIN_DB LIMIT_MAX_DB else LIMIT_MIN_DB.

Definition set_enabled (on : bool) (l : MgaLimiter) : MgaLimiter :=
  mkMgaLimiter (li_mga l) (li_sample_rate l) (li_limit_db l) on (if on then li_fade_len l else li_fade l) (li_fade_len l)
    (li_active l) (li_active_below l).

Definition lim_frame (l : MgaLimiter) (x y : f64) : MgaLimiter * (f64 * f64) :=
  let '(mga, (yl, yr)) := mga_tick (li_mga l) x y in
  let active :=
    if li_enabled l && f64_ltb (mg_gr_meter mga) (li_active_below l) then u64_wrapping_add (li_active l) 1 else li_active l in
  let fade := if li_enabled l then li_fade l else Z.max 0 (li_fade l - 1) in
  (mkMgaLimiter mga (li_sample_rate l) (li_limit_db l) (li_enabled l) fade (li_fade_len l) active (li_active_below l),
   if fade =? li_fade_len l then (yl, yr)
   else
     let wet := (f64_of_u32 fade / f64_of_u32 (li_fade_len l))%F in
     ((x + wet * (yl - x))%F, (y + wet * (yr - y))%F)).

(** [Limiter::process] on a stereo block. *)
Fixpoint lim_process (lim : MgaLimiter) (l r : list f64) : MgaLimiter * (list f64 * list f64) :=
  match l, r with
  | x :: l, y :: r =>
      let '(lim, (x, y)) := lim_frame lim x y in
      let '(lim, (l, r)) := lim_process lim l r in
      (lim, (x :: l, y :: r))
  | l, r => (lim, (l, r))
  end.

Definition reset_active (l : MgaLimiter) : MgaLimiter :=
  mkMgaLimiter (li_mga l) (li_sample_rate l) (li_limit_db l) (li_enabled l) (li_fade l) (li_fade_len l) 0 (li_active_below l).

Definition lim_reset (l : MgaLimiter) : MgaLimiter :=
  mkMgaLimiter (mga_reset (li_mga l)) (li_sample_rate l) (li_limit_db l) (li_enabled l) (li_fade l) (li_fade_len l) (li_active l)
    (li_active_below l).

Definition active_seconds (l : MgaLimiter) : f64 := (f64_of_u64 (li_active l) / li_sample_rate l)%F.

Section mga.
Context `{Libm, RtMath}.

Definition set_sliders (sample_rate : f64) (s : Sliders) (m : Mga) : Mga :=
  let thresh := powf f64_ten (sl_threshold_db s / f64_20)%F in
  let ceiling := powf f64_ten (sl_ceiling_db s / f64_20)%F in
  let release := (sl_release_ms s / f64_1000)%F in
  mkMga (mg_hold m) thresh (ceiling / thresh)%F (f64_exp (f64_m3 / (sample_rate * f64_max release f64_5cent))%F)
    (f64_sqrt (sl_link_pct s * f64_cent)%F) (mg_left m) (mg_right m) (mg_gr_meter m) (mg_gr_decay m).

Definition Mga_new (sample_rate : f64) (s : Sliders) : Mga :=
  let hold := (sample_rate / f64_128)%F in
  set_sliders sample_rate s
    (mkMga hold f64_1 f64_1 f64_0 f64_0 (Channel_new hold) (Channel_new hold) f64_1 (f64_exp (f64_1 / sample_rate)%F)).

Definition Limiter_new (sample_rate limit_db : f64) : MgaLimiter :=
  let limit_db := clamp_limit limit_db in
  let fade_len := Z.max (f64_round_u32 (DISABLE_MS * sample_rate / f64_1000)%F) 1 in
  mkMgaLimiter (Mga_new sample_rate (product_sliders limit_db)) sample_rate limit_db true fade_len fade_len 0
    (powf f64_ten (ACTIVE_BELOW_DB / f64_20)%F).

Definition set_limit_db (db : f64) (l : MgaLimiter) : MgaLimiter :=
  let limit_db := clamp_limit db in
  mkMgaLimiter (set_sliders (li_sample_rate l) (product_sliders limit_db) (li_mga l)) (li_sample_rate l) limit_db (li_enabled l)
    (li_fade l) (li_fade_len l) (li_active l) (li_active_below l).

Definition gr_db (l : MgaLimiter) : f64 :=
  let g := mg_gr_meter (li_mga l) in
  if negb (li_enabled l) then f64_0
  else if f64_ltb f64_0 g then f64_max (f64_20 * f64_log10 g)%F f64_m150 else f64_m150.
End mga.
