(* ===== verification/Media.v ===== *)
(** * The half-band filter ([iem-engine/src/resample.rs])

    The 79-tap filter between 96 and 48 kHz, its delay line as a ring with a
    moving head, the stereo decimator and the mono interpolator.  [fir] is the
    reference: the convolution over the whole history of inputs.

    Then the media path over it ([media.rs], [engine.rs]). *)

From S2P Require Import Prelude F64.
From Stdlib Require Import SpecFloat.
From stdpp Require Import options.
Local Open Scope Z_scope.
#[local] Unset Default Proof Using.

Definition TAPS : nat := 79.
Definition BETA : f64 := Eval vm_compute in f64_lit 1006 2.
Definition CENTER : nat := Nat.div2 TAPS.
Definition f64_4 : f64 := Eval vm_compute in f64_lit 4 0.

(** The sum of a Rust iterator over [f64] starts at minus zero. *)
Definition f64_sum (l : list f64) : f64 := foldl f64_add (S754_zero true) l.

Definition bessel_i0 (x : f64) : f64 :=
  let q := (x * x / f64_4)%F in
  (foldl (fun '(sum, term) k => let term := (term * (q / f64_of_u32 (k * k)))%F in ((sum + term)%F, term))
     (f64_1, f64_1) (seqZ 1 99)).1.

Definition abs_diff (n m : nat) : nat := (n - m) + (m - n).
Definition odd_tap (n : nat) : bool := Nat.odd (abs_diff n CENTER).

Section filter.
Context `{RtMath}.

Definition raw_tap (n : nat) : f64 :=
  let half := f64_of_u64 (Z.of_nat CENTER) in
  let k := (f64_of_u64 (Z.of_nat n) - half)%F in
  let off := abs_diff n CENTER in
  if (off =? 0)%nat then f64_half
  else if Nat.even off then f64_0
  else
    let r := (k / half)%F in
    let w := bessel_i0 (BETA * f64_sqrt (f64_max (f64_1 - r * r) f64_0))%F in
    (f64_sin (PI * k / f64_2) / (PI * k) * w)%F.

Definition half_band : list f64 :=
  let h := raw_tap <$> seq 0 TAPS in
  let odd := f64_sum (snd <$> filter (fun '(n, _) => odd_tap n = true) (imap pair h)) in
  imap (fun n v => if odd_tap n then (v * (f64_half / odd))%F else v) h.

Definition nonzero : list (nat * f64) :=
  filter (fun '(_, v) => f64_eqb v f64_0 = false) (imap pair half_band).
End filter.

(** ** The delay line: the newest sample at [l_pos], [x[n - j]] at [l_pos + j]. *)

Record Line := mkLine { l_hist : list f64; l_pos : nat }.

Definition Line_new : Line := mkLine (replicate TAPS f64_0) 0.

Definition line_push (l : Line) (x : f64) : Line :=
  let pos := ((l_pos l + TAPS - 1) mod TAPS)%nat in
  mkLine (<[pos := x]> (l_hist l)) pos.

Definition line_dot (taps : list (nat * f64)) (l : Line) : f64 :=
  f64_sum ((fun '(j, h) => (h * default f64_0 (l_hist l !! ((l_pos l + j) mod TAPS)%nat))%F) <$> taps).

(** Stereo, two to one. *)
Record Decimator2 := mkDecimator2 {
  d_taps : list (nat * f64);
  d_lines : Line * Line;
  d_skip : bool;
}.

Definition Decimator2_new `{RtMath} : Decimator2 := mkDecimator2 nonzero (Line_new, Line_new) false.

Definition decimator_push (l r : f64) (d : Decimator2) : Decimator2 * option (f64 * f64) :=
  let a := line_push (d_lines d).1 l in
  let b := line_push (d_lines d).2 r in
  (mkDecimator2 (d_taps d) (a, b) (negb (d_skip d)),
   if negb (d_skip d) then Some (line_dot (d_taps d) a, line_dot (d_taps d) b) else None).

(** Mono, one to two: zeros between the samples, gain 2. *)
Record Interpolator2 := mkInterpolator2 { i_taps : list (nat * f64); i_line : Line }.

Definition Interpolator2_new `{RtMath} : Interpolator2 := mkInterpolator2 nonzero Line_new.

Definition interpolator_step (x : f64) (i : Interpolator2) : Interpolator2 * f64 :=
  let line := line_push (i_line i) x in
  (mkInterpolator2 (i_taps i) line, (f64_2 * line_dot (i_taps i) line)%F).

Definition interpolator_push (x : f64) (i : Interpolator2) : Interpolator2 * (f64 * f64) :=
  let '(i, a) := interpolator_step x i in
  let '(i, b) := interpolator_step f64_0 i in
  (i, (a, b)).

(** ** The reference *)

(** The convolution after the inputs [xs]: [x[n - j]] is the [j]-th newest. *)
Definition fir (taps : list (nat * f64)) (xs : list f64) : f64 :=
  f64_sum ((fun '(j, h) => (h * default f64_0 (reverse xs !! j))%F) <$> taps).

Record line_holds (xs : list f64) (l : Line) : Prop := {
  lh_length : length (l_hist l) = TAPS;
  lh_pos : (l_pos l < TAPS)%nat;
  lh_at : forall j, (j < TAPS)%nat -> l_hist l !! ((l_pos l + j) mod TAPS)%nat = Some (default f64_0 (reverse xs !! j));
}.

Lemma Line_new_holds : line_holds [] Line_new.
Proof.
  split; [done|vm_compute; lia|]. intros j Hj. unfold Line_new. cbn [l_hist l_pos].
  rewrite lookup_replicate_2 by (apply Nat.mod_upper_bound; done). done.
Qed.

(** The head moves one place back. *)
Lemma ring_step pos j : (pos < TAPS)%nat -> (j < TAPS)%nat ->
  (((pos + TAPS - 1) mod TAPS + S j) mod TAPS = (pos + j) mod TAPS)%nat.
Proof.
  intros Hp Hj. rewrite Nat.Div0.add_mod_idemp_l.
  replace (pos + TAPS - 1 + S j)%nat with (pos + j + 1 * TAPS)%nat by lia. apply Nat.Div0.mod_add.
Qed.

Lemma ring_apart p j : (p < TAPS)%nat -> (0 < j < TAPS)%nat -> ((p + j) mod TAPS <> p)%nat.
Proof.
  intros Hp Hj Heq. assert (Hd := Nat.div_mod_eq (p + j) TAPS). rewrite Heq in Hd.
  assert ((j = TAPS * ((p + j) / TAPS))%nat) as Hj' by lia.
  destruct ((p + j) / TAPS)%nat as [|q]; lia.
Qed.

Lemma line_push_holds xs x l : line_holds xs l -> line_holds (xs ++ [x]) (line_push l x).
Proof.
  intros [Hl Hp Ha]. assert (Hp' : ((l_pos l + TAPS - 1) mod TAPS < TAPS)%nat) by (by apply Nat.mod_upper_bound).
  split; cbn [line_push l_hist l_pos]; [by rewrite length_insert|done|].
  intros j Hj. rewrite reverse_snoc. destruct j as [|j].
  - rewrite Nat.add_0_r, Nat.mod_small by done. rewrite list_lookup_insert_eq by (rewrite Hl; done). done.
  - cbn [lookup list_lookup]. rewrite list_lookup_insert_ne by (symmetry; apply ring_apart; [done|lia]).
    rewrite ring_step by lia. apply Ha. lia.
Qed.

Definition taps_in (taps : list (nat * f64)) : Prop := Forall (fun '(j, _) => (j < TAPS)%nat) taps.

Lemma line_dot_fir taps xs l : taps_in taps -> line_holds xs l -> line_dot taps l = fir taps xs.
Proof.
  intros Ht [_ _ Ha]. unfold line_dot, fir. f_equal. apply list_fmap_ext. intros i [j h] Hi.
  rewrite Ha; [done|]. by apply (Forall_lookup_1 _ _ _ _ Ht Hi).
Qed.

Lemma nonzero_in `{RtMath} : taps_in nonzero.
Proof.
  unfold nonzero. apply Forall_forall. intros [j h] Hin. apply list_elem_of_filter in Hin as [_ Hin].
  apply list_elem_of_lookup in Hin as [i Hi]. rewrite list_lookup_imap in Hi.
  destruct (half_band !! i) as [v|] eqn:Hv; [|done]. injection Hi as -> ->.
  apply lookup_lt_Some in Hv. unfold half_band in Hv. by rewrite length_imap, length_fmap, length_seq in Hv.
Qed.
#[export] Hint Resolve nonzero_in Line_new_holds line_push_holds : resample.

(** * The engine's media path ([iem-engine/src/media.rs], [engine.rs])

    The listen taps are decimated and cut into frames of 20 ms ([TapFramer]),
    talkback frames are interpolated into the real-time thread's ring
    ([TalkbackFeed]); [media_round] is one turn of the media thread, which feeds
    the four framers and writes to the client of the moment.  [tap_samples] and
    [talk_samples] are the references: convolutions over all that was heard. *)

From S2P Require Import Prelude F64 Frame.
From Stdlib Require Import SpecFloat.
From stdpp Require Import options.
Local Open Scope Z_scope.
#[local] Unset Default Proof Using.

Definition FRAME : nat := 960.

(** A header and its interleaved stereo samples. *)
Abbreviation MediaFrame := (MediaHeader * list f64)%type.

Record TapFramer := mkTapFramer {
  tf_stream : Z;
  tf_dec : Decimator2;
  tf_seq : Z;
  tf_buf : list f64;
}.

Section media.
Context `{RtMath}.

Definition TapFramer_new (stream : Z) : TapFramer := mkTapFramer stream Decimator2_new 0 [].

(** The tap changed its source. *)
Definition tap_restart (f : TapFramer) : TapFramer := mkTapFramer (tf_stream f) Decimator2_new (tf_seq f) [].
End media.

(** [as_chunks::<2>().0]: the pairs, a last odd one left out. *)
Fixpoint pairs (l : list f64) : list (f64 * f64) :=
  match l with x :: y :: l => (x, y) :: pairs l | _ => [] end.

Definition tap_header (stream seq : Z) : MediaHeader := mkMediaHeader stream 2 seq (Z.of_nat FRAME).

Definition feed_pair (acc : TapFramer * list MediaFrame) (p : f64 * f64) : TapFramer * list MediaFrame :=
  let '(f, out) := acc in
  let '(dec, y) := decimator_push p.1 p.2 (tf_dec f) in
  match y with
  | None => (mkTapFramer (tf_stream f) dec (tf_seq f) (tf_buf f), out)
  | Some (a, b) =>
      let buf := tf_buf f ++ [f64_as_f32 a; f64_as_f32 b] in
      if (2 * FRAME <=? length buf)%nat
      then (mkTapFramer (tf_stream f) dec (u64_wrapping_add (tf_seq f) 1) [], out ++ [(tap_header (tf_stream f) (tf_seq f), buf)])
      else (mkTapFramer (tf_stream f) dec (tf_seq f) buf, out)
  end.

Definition tap_feed (interleaved : list f64) (f : TapFramer) : TapFramer * list MediaFrame :=
  foldl feed_pair (f, []) (pairs interleaved).

(** ** Talkback *)

Record TalkbackFeed := mkTalkbackFeed { tb_interp : Interpolator2 }.

Definition TalkbackFeed_new `{RtMath} : TalkbackFeed := mkTalkbackFeed Interpolator2_new.

(** A sample that is no number enters as silence. *)
Definition heard (x : f64) : f64 := if f64_is_finite x then x else f64_0.

Definition talk_sample (acc : TalkbackFeed * list f64) (x : f64) : TalkbackFeed * list f64 :=
  let '(f, scratch) := acc in
  let '(i, (a, b)) := interpolator_push (heard x) (tb_interp f) in
  (mkTalkbackFeed i, scratch ++ [f64_as_f32 a; f64_as_f32 b]).

(** Into a ring with room for [room] samples: what was pushed, and how many
    were dropped. *)
Definition talk_feed (samples : list f64) (room : nat) (f : TalkbackFeed) : TalkbackFeed * (list f64 * nat) :=
  let '(f, scratch) := foldl talk_sample (f, []) samples in
  (f, (take room scratch, length (drop room scratch))).

(** A frame on a media connection: mono talkback is fed, anything else ignored. *)
Definition TALKBACK : Z := 16.
Definition media_in (h : MediaHeader) (samples : list f64) (room : nat) (f : TalkbackFeed) : TalkbackFeed * (list f64 * nat) :=
  if (md_stream h =? TALKBACK) && (md_channels h =? 1) then talk_feed samples room f else (f, ([], 0%nat)).

(** ** The media thread *)

Inductive PumpEvent :=
| PuSent (id : Z) (frame : MediaFrame)
| PuClosed (id : Z).

Record Pump := mkPump { mp_framers : list TapFramer; mp_current : option Z }.

(** What a round finds: the new connections, what each tap's ring held, the
    connections closed meanwhile, and how many writes succeed before one fails. *)
Record PumpIn := mkPumpIn {
  pu_conns : list Z;
  pu_got : nat -> list f64;
  pu_closed : Z -> bool;
  pu_writes : nat;
}.

(** The streams of the two listen taps and the two probes. *)
Definition Pump_new `{RtMath} : Pump := mkPump (TapFramer_new <$> [0; 1; 2; 3]) None.

Definition take_conn (acc : option Z * list PumpEvent) (c : Z) : option Z * list PumpEvent :=
  (Some c, acc.2 ++ match acc.1 with Some old => [PuClosed old] | None => [] end).

Definition media_round (inp : PumpIn) (p : Pump) : Pump * list PumpEvent :=
  let '(current, log) := foldl take_conn (mp_current p, []) (pu_conns inp) in
  let fed := imap (fun i f => tap_feed (pu_got inp i) f) (mp_framers p) in
  let frames := concat fed.*2 in
  match current with
  | Some c =>
      if pu_closed inp c then (mkPump fed.*1 None, log)
      else if (pu_writes inp <? length frames)%nat
      then (mkPump fed.*1 None, log ++ (PuSent c <$> take (pu_writes inp) frames) ++ [PuClosed c])
      else (mkPump fed.*1 (Some c), log ++ (PuSent c <$> frames))
  | None => (mkPump fed.*1 None, log)
  end.

Definition media_pump `{RtMath} (rounds : list PumpIn) : Pump * list PumpEvent :=
  foldl (fun '(p, log) inp => let '(p, more) := media_round inp p in (p, log ++ more)) (Pump_new, []) rounds.

(** ** The references *)

Section reference.
Context `{RtMath}.

(** Every second sample of the filtered tap, the first one included. *)
Definition tap_at (ps : list (f64 * f64)) (k : nat) : list f64 :=
  let heard := take (S (2 * k)) ps in
  [f64_as_f32 (fir nonzero heard.*1); f64_as_f32 (fir nonzero heard.*2)].

Definition tap_samples (ps : list (f64 * f64)) : list f64 := concat (tap_at ps <$> seq 0 (Nat.div2 (S (length ps)))).

(** The whole chunks of [n]. *)
Definition chunks (n : nat) (l : list f64) : list (list f64) :=
  (fun i => take n (drop (i * n) l)) <$> seq 0 (length l / n).

Definition tap_frames (stream : Z) (ps : list (f64 * f64)) : list MediaFrame :=
  imap (fun i s => (tap_header stream (Z.of_nat i mod (u64_max + 1)), s)) (chunks (2 * FRAME) (tap_samples ps)).

(** Zeros between the samples, and where a sample is no number. *)
Definition stuffed (xs : list f64) : list f64 :=
  concat ((fun x => if f64_is_finite x then [x; f64_0] else [f64_0; f64_0]) <$> xs).

Definition talk_samples (xs : list f64) : list f64 :=
  (fun n => f64_as_f32 (f64_2 * fir nonzero (take (S n) (stuffed xs)))%F) <$> seq 0 (length (stuffed xs)).

Lemma pairs_app xs ys : Nat.even (length xs) = true -> pairs (xs ++ ys) = pairs xs ++ pairs ys.
Proof.
  revert xs. fix IH 1. intros [|x [|y xs]] He; [done|done|]. cbn. f_equal. by apply IH.
Qed.

Lemma tap_at_app ps qs k : (2 * k < length ps)%nat -> tap_at (ps ++ qs) k = tap_at ps k.
Proof. intros Hk. unfold tap_at. by rewrite take_app_le by lia. Qed.

Lemma halves n :
  n = (2 * Nat.div2 n + (if Nat.even n then 0 else 1))%nat /\ Nat.div2 (S n) = (Nat.div2 n + (if Nat.even n then 0 else 1))%nat.
Proof.
  destruct (Nat.Even_or_Odd n) as [[m ->]|[m ->]].
  - rewrite Nat.even_even, Nat.div2_succ_double, Nat.div2_double. lia.
  - replace (2 * m + 1)%nat with (S (2 * m)) by lia. rewrite Nat.even_succ, Nat.odd_even, Nat.div2_succ_double.
    replace (S (S (2 * m))) with (2 * S m)%nat by lia. rewrite Nat.div2_double. lia.
Qed.

Lemma tap_samples_snoc ps p :
  tap_samples (ps ++ [p])
  = tap_samples ps ++ (if Nat.even (length ps) then tap_at (ps ++ [p]) (Nat.div2 (length ps)) else []).
Proof.
  unfold tap_samples. rewrite length_app, Nat.add_1_r.
  change (Nat.div2 (S (S (length ps)))) with (S (Nat.div2 (length ps))).
  destruct (halves (length ps)) as [Hl ->].
  assert (He : tap_at (ps ++ [p]) <$> seq 0 (Nat.div2 (length ps) + (if Nat.even (length ps) then 0 else 1))
               = tap_at ps <$> seq 0 (Nat.div2 (length ps) + (if Nat.even (length ps) then 0 else 1))).
  { apply list_fmap_ext. intros i k Hk. apply tap_at_app. apply list_elem_of_lookup_2, elem_of_seq in Hk.
    destruct (Nat.even (length ps)); lia. }
  rewrite <-He. destruct (Nat.even (length ps)).
  - rewrite Nat.add_0_r, seq_S, fmap_app, concat_app. cbn [fmap list_fmap concat Nat.add]. by rewrite app_nil_r.
  - by rewrite Nat.add_1_r, app_nil_r.
Qed.
End reference.


(** ** Chunks *)

Definition rest (n : nat) (l : list f64) : list f64 := drop (length l / n * n) l.

Lemma div_between n q r : (r < n)%nat -> ((q * n + r) / n = q)%nat.
Proof. intros Hr. symmetry. by apply Nat.div_unique with r; [|lia]. Qed.

Lemma length_rest n l : (0 < n)%nat -> length (rest n l) = (length l mod n)%nat.
Proof. intros Hn. unfold rest. rewrite length_drop. pose proof (Nat.div_mod_eq (length l) n). lia. Qed.

(** What is added to a chunk that has begun. *)
Lemma chunks_begun n l x :
  (length (rest n l) + length x < n)%nat -> chunks n (l ++ x) = chunks n l /\ rest n (l ++ x) = rest n l ++ x.
Proof.
  intros Hlt. assert (Hn : (0 < n)%nat) by lia. rewrite length_rest in Hlt by done.
  pose proof (Nat.div_mod_eq (length l) n) as Hd.
  assert (Hq : (length (l ++ x) / n = length l / n)%nat).
  { rewrite length_app. replace (length l + length x)%nat with (length l / n * n + (length l mod n + length x))%nat by lia.
    by apply div_between. }
  unfold chunks, rest. rewrite Hq. split; [|by rewrite drop_app_le by lia].
  apply list_fmap_ext. intros i k Hk. apply list_elem_of_lookup_2, elem_of_seq in Hk.
  assert (Hb : (k * n + n <= length l)%nat) by nia.
  rewrite drop_app_le by lia. by rewrite take_app_le by (rewrite length_drop; lia).
Qed.

(** What fills a chunk. *)
Lemma chunks_filled n l x :
  (0 < n)%nat -> (length (rest n l) + length x = n)%nat ->
  chunks n (l ++ x) = chunks n l ++ [rest n l ++ x] /\ rest n (l ++ x) = [].
Proof.
  intros Hn Hlt. pose proof Hlt as Hlt'. rewrite length_rest in Hlt by done.
  pose proof (Nat.div_mod_eq (length l) n) as Hd.
  assert (Hl : length (l ++ x) = (S (length l / n) * n)%nat) by (rewrite length_app; lia).
  assert (Hq : (length (l ++ x) / n = S (length l / n))%nat) by (rewrite Hl; apply Nat.div_mul; lia).
  unfold chunks, rest. rewrite Hq. split; [|by apply drop_ge; lia].
  rewrite seq_S, fmap_app. cbn [Nat.add fmap list_fmap]. f_equal.
  - apply list_fmap_ext. intros i k Hk. apply list_elem_of_lookup_2, elem_of_seq in Hk.
    assert (Hb : (k * n + n <= length l)%nat) by nia.
    rewrite drop_app_le by lia. by rewrite take_app_le by (rewrite length_drop; lia).
  - f_equal. fold (rest n l). rewrite drop_app_le by lia. fold (rest n l). apply take_ge. rewrite length_app. lia.
Qed.

(** ** The framer *)

(** The frames of a framer fed piece by piece. *)
Definition tap_run (pieces : list (list f64)) (f : TapFramer) : TapFramer * list MediaFrame :=
  foldl (fun '(f, out) piece => let '(f, more) := tap_feed piece f in (f, out ++ more)) (f, []) pieces.

Lemma feed_pair_out f out ps :
  foldl feed_pair (f, out) ps = let '(f, more) := foldl feed_pair (f, []) ps in (f, out ++ more).
Proof.
  revert f out. induction ps as [|p ps IH]; intros f out; cbn [foldl]; [by rewrite app_nil_r|].
  assert (Hp : feed_pair (f, out) p = let '(g, more) := feed_pair (f, []) p in (g, out ++ more)).
  { unfold feed_pair. destruct (decimator_push p.1 p.2 (tf_dec f)) as [dec [[a b]|]]; [|by rewrite app_nil_r].
    destruct (_ <=? _)%nat; [done|by rewrite app_nil_r]. }
  rewrite Hp. destruct (feed_pair (f, []) p) as [g more]. rewrite (IH g (out ++ more)), (IH g more).
  destruct (foldl feed_pair (g, []) ps) as [g' more']. by rewrite app_assoc.
Qed.

Lemma tap_run_pairs pieces f :
  Forall (fun piece => Nat.even (length piece) = true) pieces ->
  tap_run pieces f = foldl feed_pair (f, []) (pairs (concat pieces)).
Proof.
  unfold tap_run. generalize (@nil MediaFrame) at 1 2. revert f. induction pieces as [|piece pieces IH]; intros f out Hp; [done|].
  apply Forall_cons in Hp as [Hx Hp]. cbn [foldl concat]. rewrite pairs_app, foldl_app by done.
  unfold tap_feed. rewrite (feed_pair_out f out). destruct (foldl feed_pair (f, []) (pairs piece)) as [g more]. by apply IH.
Qed.

Record framer_holds `{RtMath} (stream : Z) (ps : list (f64 * f64)) (acc : TapFramer * list MediaFrame) : Prop := {
  fh_stream : tf_stream acc.1 = stream;
  fh_taps : d_taps (tf_dec acc.1) = nonzero;
  fh_left : line_holds ps.*1 (d_lines (tf_dec acc.1)).1;
  fh_right : line_holds ps.*2 (d_lines (tf_dec acc.1)).2;
  fh_skip : d_skip (tf_dec acc.1) = negb (Nat.even (length ps));
  fh_seq : tf_seq acc.1 = Z.of_nat (length (chunks (2 * FRAME) (tap_samples ps))) mod (u64_max + 1);
  fh_buf : tf_buf acc.1 = rest (2 * FRAME) (tap_samples ps);
  fh_out : acc.2 = tap_frames stream ps;
}.

Lemma TapFramer_new_holds `{RtMath} stream : framer_holds stream [] (TapFramer_new stream, []).
Proof. split; try done; apply Line_new_holds. Qed.

Lemma rest_short l : (length (rest (2 * FRAME) l) < 2 * FRAME)%nat.
Proof. rewrite length_rest by (unfold FRAME; lia). apply Nat.mod_upper_bound. by unfold FRAME. Qed.

(** Even chunks of even pieces: there is room for a pair. *)
Lemma rest_even `{RtMath} ps : Nat.even (length (rest (2 * FRAME) (tap_samples ps))) = true.
Proof.
  assert (Hs : exists m, length (tap_samples ps) = (2 * m)%nat).
  { unfold tap_samples. induction (seq 0 (Nat.div2 (S (length ps)))) as [|k ks [m IH]]; [by exists 0%nat|].
    exists (S m). cbn [fmap list_fmap concat]. rewrite length_app, IH. cbn [tap_at length]. lia. }
  destruct Hs as [m Hm]. rewrite length_rest, Hm, Nat.Div0.mul_mod_distr_l, Nat.even_mul by (unfold FRAME; lia). done.
Qed.

Lemma feed_pair_holds `{RtMath} stream ps p acc :
  framer_holds stream ps acc -> framer_holds stream (ps ++ [p]) (feed_pair acc p).
Proof.
  destruct acc as [f out]. intros [H1 H2 H3 H4 H5 H6 H7 H8]. cbn [fst snd] in *.
  assert (Hl : line_holds (ps ++ [p]).*1 (line_push (d_lines (tf_dec f)).1 p.1)) by (rewrite fmap_app; by apply line_push_holds).
  assert (Hr : line_holds (ps ++ [p]).*2 (line_push (d_lines (tf_dec f)).2 p.2)) by (rewrite fmap_app; by apply line_push_holds).
  assert (Hev : Nat.even (length (ps ++ [p])) = negb (Nat.even (length ps))).
  { by rewrite length_app, Nat.add_1_r, Nat.even_succ, Nat.negb_even. }
  unfold feed_pair, decimator_push. rewrite H5, negb_involutive. destruct (Nat.even (length ps)) eqn:He.
  2: { split; cbn [fst snd tf_stream tf_dec tf_seq tf_buf d_taps d_lines d_skip]; try done; [by rewrite Hev|..];
         rewrite ?tap_samples_snoc, ?He, ?app_nil_r; try done. unfold tap_frames. by rewrite tap_samples_snoc, He, app_nil_r. }
  assert (Hy : [f64_as_f32 (line_dot (d_taps (tf_dec f)) (line_push (d_lines (tf_dec f)).1 p.1));
                f64_as_f32 (line_dot (d_taps (tf_dec f)) (line_push (d_lines (tf_dec f)).2 p.2))]
               = tap_at (ps ++ [p]) (Nat.div2 (length ps))).
  { rewrite H2, (line_dot_fir _ _ _ nonzero_in Hl), (line_dot_fir _ _ _ nonzero_in Hr). unfold tap_at.
    destruct (halves (length ps)) as [Hh _]. rewrite He in Hh.
    rewrite (take_ge (ps ++ [p])) by (rewrite length_app; cbn [length]; lia). done. }
  rewrite Hy, H7. set (x := tap_at (ps ++ [p]) (Nat.div2 (length ps))) in *.
  assert (Hx : length x = 2%nat) by done.
  assert (Hs : tap_samples (ps ++ [p]) = tap_samples ps ++ x) by (by rewrite tap_samples_snoc, He).
  pose proof (rest_short (tap_samples ps)) as Hshort. pose proof (rest_even ps) as Heven.
  rewrite length_app, Hx. destruct (Nat.leb_spec (2 * FRAME) (length (rest (2 * FRAME) (tap_samples ps)) + 2)) as [Hge|Hlt].
  - assert (Hfull : (length (rest (2 * FRAME) (tap_samples ps)) + length x = 2 * FRAME)%nat).
    { apply Nat.even_spec in Heven as [m Hm]. rewrite Hx, Hm in *. lia. }
    destruct (chunks_filled (2 * FRAME) (tap_samples ps) x ltac:(unfold FRAME; lia) Hfull) as [Hc Hb].
    split; cbn [fst snd tf_stream tf_dec tf_seq tf_buf d_taps d_lines d_skip]; try done; rewrite ?Hs, ?Hc, ?Hb; try done.
    + by rewrite Hev.
    + rewrite H6, length_app. cbn [length]. unfold u64_wrapping_add. rewrite Zplus_mod_idemp_l. f_equal. lia.
    + rewrite H8. unfold tap_frames. rewrite Hs, Hc, imap_app. f_equal. cbn. rewrite H1, H6, Nat.add_0_r. done.
  - destruct (chunks_begun (2 * FRAME) (tap_samples ps) x ltac:(lia)) as [Hc Hb].
    split; cbn [fst snd tf_stream tf_dec tf_seq tf_buf d_taps d_lines d_skip]; try done; rewrite ?Hs, ?Hc, ?Hb; try done.
    + by rewrite Hev.
    + unfold tap_frames. by rewrite Hs, Hc.
Qed.

Lemma feed_pairs_hold `{RtMath} stream qs ps acc :
  framer_holds stream ps acc -> framer_holds stream (ps ++ qs) (foldl feed_pair acc qs).
Proof.
  revert ps acc. induction qs as [|q qs IH]; intros ps acc Ha; [by rewrite app_nil_r|].
  cbn [foldl]. rewrite cons_middle, app_assoc. by apply IH, feed_pair_holds.
Qed.

Lemma chunks_rest n l : (0 < n)%nat -> concat (chunks n l) ++ rest n l = l.
Proof.
  intros Hn. assert (Hq : forall q, (q * n <= length l)%nat ->
    concat ((fun i => take n (drop (i * n) l)) <$> seq 0 q) = take (q * n) l).
  { induction q as [|q IH]; intros Hle; [done|]. rewrite seq_S, fmap_app, concat_app, IH by lia.
    cbn [Nat.add fmap list_fmap concat]. rewrite app_nil_r, take_take_drop. f_equal. lia. }
  unfold chunks, rest. rewrite Hq; [apply take_drop|]. pose proof (Nat.div_mod_eq (length l) n). lia.
Qed.

Lemma chunk_length n l c : c ∈ chunks n l -> length c = n.
Proof.
  unfold chunks. intros [i [-> Hi]]%list_elem_of_fmap. apply elem_of_seq in Hi.
  destruct (decide (n = 0%nat)) as [->|Hn]; [done|]. pose proof (Nat.div_mod_eq (length l) n) as Hd.
  rewrite length_take, length_drop. nia.
Qed.

(** ** The talkback *)

Record feed_holds `{RtMath} (xs : list f64) (f : TalkbackFeed) : Prop := {
  bh_taps : i_taps (tb_interp f) = nonzero;
  bh_line : line_holds (stuffed xs) (i_line (tb_interp f));
}.

Lemma TalkbackFeed_new_holds `{RtMath} : feed_holds [] TalkbackFeed_new.
Proof. split; [done|apply Line_new_holds]. Qed.

Lemma stuffed_app xs ys : stuffed (xs ++ ys) = stuffed xs ++ stuffed ys.
Proof. unfold stuffed. by rewrite fmap_app, concat_app. Qed.

Lemma stuffed_length xs : length (stuffed xs) = (2 * length xs)%nat.
Proof. induction xs as [|x xs IH]; [done|]. unfold stuffed in *. cbn [fmap list_fmap concat]. rewrite length_app, IH. cbn [length]. destruct (f64_is_finite x); cbn [length]; lia. Qed.

Lemma stuffed_one x : stuffed [x] = [heard x; f64_0].
Proof. unfold stuffed, heard. cbn. by destruct (f64_is_finite x). Qed.

Lemma talk_samples_app `{RtMath} xs ys :
  talk_samples (xs ++ ys)
  = talk_samples xs ++ ((fun n => f64_as_f32 (f64_2 * fir nonzero (take (S n) (stuffed (xs ++ ys))))%F)
                          <$> seq (2 * length xs) (2 * length ys)).
Proof.
  unfold talk_samples. rewrite !stuffed_length, length_app, Nat.mul_add_distr_l, seq_app, fmap_app. f_equal.
  apply list_fmap_ext. intros i n Hn. apply list_elem_of_lookup_2, elem_of_seq in Hn.
  rewrite stuffed_app, take_app_le by (rewrite stuffed_length; lia). done.
Qed.

Lemma interpolator_step_fir `{RtMath} xs x i :
  i_taps i = nonzero -> line_holds xs (i_line i) ->
  let '(i', y) := interpolator_step x i in
  i_taps i' = nonzero /\ line_holds (xs ++ [x]) (i_line i') /\ y = (f64_2 * fir nonzero (xs ++ [x]))%F.
Proof.
  intros Ht Hl. unfold interpolator_step. apply line_push_holds with (x := x) in Hl.
  split_and!; [done|done|]. by rewrite Ht, (line_dot_fir _ _ _ nonzero_in Hl).
Qed.

Lemma talk_sample_holds `{RtMath} xs x f scratch :
  feed_holds xs f -> let '(g, s) := talk_sample (f, scratch) x in
  feed_holds (xs ++ [x]) g /\ talk_samples (xs ++ [x]) = talk_samples xs ++ drop (length scratch) s /\ take (length scratch) s = scratch.
Proof.
  intros [Ht Hl]. unfold talk_sample, interpolator_push.
  pose proof (interpolator_step_fir _ (heard x) _ Ht Hl) as Ha. destruct (interpolator_step (heard x) (tb_interp f)) as [i a].
  destruct Ha as (Ht1 & Hl1 & ->).
  pose proof (interpolator_step_fir _ f64_0 _ Ht1 Hl1) as Hb. destruct (interpolator_step f64_0 i) as [i' b].
  destruct Hb as (Ht2 & Hl2 & ->). rewrite <-app_assoc in *. cbn [app] in *.
  split; [|split].
  - split; [done|]. rewrite stuffed_app, stuffed_one. exact Hl2.
  - rewrite talk_samples_app, drop_app_length. f_equal. cbn [length Nat.mul Nat.add seq fmap list_fmap].
    rewrite stuffed_app, stuffed_one.
    pose proof (stuffed_length xs) as Hs. do 2 f_equal; [|f_equal; f_equal].
    + do 2 f_equal. rewrite take_app_ge by lia. do 2 f_equal. replace (S _ - length (stuffed xs))%nat with 1%nat by lia. done.
    + do 2 f_equal. rewrite take_app_ge by lia. f_equal. replace (S _ - length (stuffed xs))%nat with 2%nat by lia. done.
  - by rewrite take_app_length.
Qed.

Lemma talk_fold_holds `{RtMath} ys xs f :
  feed_holds xs f -> let '(g, s) := foldl talk_sample (f, []) ys in
  feed_holds (xs ++ ys) g /\ talk_samples (xs ++ ys) = talk_samples xs ++ s.
Proof.
  intros Hf. induction ys as [|y ys IH] using rev_ind; [cbn; by rewrite !app_nil_r|].
  rewrite foldl_app. cbn [foldl]. destruct (foldl talk_sample (f, []) ys) as [g s]. destruct IH as [Hg Hs].
  pose proof (talk_sample_holds _ y g s Hg) as Hy. destruct (talk_sample (g, s) y) as [g' s'].
  destruct Hy as (Hg' & Hs' & Ht). rewrite app_assoc. split; [done|].
  rewrite Hs', Hs, <-app_assoc, <-Ht at 1. by rewrite take_drop.
Qed.
