(* ===== verification/Wire.v ===== *)
(** * The messages of the control pipe ([iem-engine-proto/src/msg/engine.rs],
    [msg/status.rs], [msg/client.rs])

    What the engine sends and what a client sends, and how the engine reads a
    client's bytes ([parse_client]).  serde_json is the parameter
    [ClientJson]: its two parses of the bytes. *)

From S2P Require Import Prelude F64 Text MixState Msg.
From Stdlib Require Import SpecFloat.
From stdpp Require Import options.
Local Open Scope Z_scope.

(** ** What the engine sends *)

Record Reply := mkReply { rp_id : Z; rp_rev : Z; rp_error : option ErrorBody }.

Record Hello := mkHello {
  he_proto : Z;
  he_engine_build : string;
  he_topology_hash : string;
  he_state_rev : Z;
  he_sample_rate : Z;
  he_block : Z;
  he_role : Role;
}.

Inductive AlarmCode := StateFallback | StateLost | Sanitizer | Fault | SaveFailed.

Record Alarm := mkAlarm { al_code : AlarmCode; al_detail : string }.

Record Meters := mkMeters {
  me_seq : Z;
  me_inputs : list (f64 * f64);
  me_mixes : list (f64 * f64);
  me_groups : list (f64 * f64);
  me_gr_db : list f64;
  me_limiter_active_s : list f64;
  me_trips : Z;
  me_own : list (f64 * f64);
}.

Record HilOut := mkHilOut { ho_tx : Z; ho_peak : f64 }.

Record Status := mkStatus {
  sa_callbacks : Z;
  sa_late : Z;
  sa_faulted : bool;
  sa_process_max_us : f64;
  sa_trips : Z;
  sa_tap_overruns : Z;
  sa_talkback_dropped : Z;
  sa_cmd_backlog : Z;
  sa_frames : Z;
  sa_missed : Z;
  sa_overruns : Z;
  sa_resets : Z;
  sa_held : bool;
  sa_hil : list HilOut;
  sa_loopback_samples : Z;
  sa_interval_hist : list (Z * Z);
  sa_process_hist : list (Z * Z);
  sa_hist_top_us : Z;
  sa_last_reopen_us : Z;
  sa_fault_callback_us : f64;
}.

Inductive EngineMsg :=
| MHello (h : Hello)
| MReply (r : Reply)
| MTopology (t : TopologyInfo)
| MState (rev : Z) (state : MixState) (transient : Transient)
| MDelta (rev : Z) (origin : option Z) (changes : list Change)
| MMeters (m : Meters)
| MStatus (s : Status)
| MSaved (rev generation : Z)
| MAlarm (a : Alarm)
| MDriverReleased (reason : string)
| MSuperseded.

(** ** What a client sends *)

Inductive ClientMsg :=
| CHello (proto : Z) (role : Role) (client : string)
| CRequest (id : Z) (origin : option Z) (cmd : Cmd).

(** Every [op] tag. *)
Definition OPS : list string :=
  ["set_input"; "set_mix"; "set_level"; "set_group"; "set_eq"; "set_limiter"; "reset_limiter_stats";
   "set_solo"; "start_listen"; "stop_listen"; "start_test_signal"; "stop_test_signal"; "batch";
   "import_state"; "get_state"; "get_topology"; "save_now"; "shutdown"; "inject_fault"; "ping"; "arm";
   "hil_test_signal"].

Definition error (code : ErrCode) (msg : string) : ErrorBody := mkErrorBody code (short msg).

(** A message's [type], [id] and [cmd.op], each when it is there as such. *)
Record Probe := mkProbe { pb_kind : option string; pb_id : option Z; pb_op : option string }.

(** serde_json: the bytes as a [ClientMsg], or its error; and as a [Probe]. *)
Class ClientJson := {
  client_of_json : list Z -> result string ClientMsg;
  probe_of_json : list Z -> option Probe;
}.

Definition parse_client `{ClientJson} (bytes : list Z) : result (option Z * ErrorBody) ClientMsg :=
  match client_of_json bytes with
  | Ok msg => Ok msg
  | Err err =>
      match probe_of_json bytes with
      | None => Err (None, error BadRequest err)
      | Some probe =>
          let code :=
            match pb_op probe with
            | Some op =>
                if bool_decide (pb_kind probe = Some "request") && negb (bool_decide (op ∈ OPS))
                then Unsupported else BadRequest
            | None => BadRequest
            end in
          Err (pb_id probe, error code err)
      end
  end.

(** serde_json and [write_frame]: whether a message's frame is written
    ([false] above [MAX_FRAME]). *)
Class Encodable := encodable : EngineMsg -> bool.
