(* ===== verification/Control.v ===== *)
(** * The control loop ([iem-engine/src/control.rs], [control/connections.rs],
    [control/requests.rs], [control/saving.rs], [control/status.rs],
    [control/stop.rs])

    The one thread that owns the core: connections and roles, requests and
    their answers, broadcasts, the commands it queues for the RT thread, saves,
    the tick and the ways a run ends.  The clock is read once per message and
    per tick, in nanoseconds.  What happens around the thread is in scripts:
    how many commands the RT thread takes before each attempt to queue a group
    ([q_pops]), which writes to a connection fail ([v_sends]), and the file
    faults of [Disk].  What it does is in the log of events. *)

From S2P Require Import Prelude F64 Text MixState Msg Shape Topology Reconciled Rt Core Disk Codec Store Wire.
From Stdlib Require Import SpecFloat.
From stdpp Require Import options.
Local Open Scope Z_scope.

Definition MAX_CONNS : nat := 8.
Definition FADE_WAIT : Z := 500000000.
Definition MAX_ALARMS : nat := 16.
Definition CMD_RING : nat := 4096.

(** ** State *)

Inductive Ending := EndStop | EndBackend (why : string).

Inductive CtlMsg :=
| Connected (id : Z)
| FrameIn (id : Z) (bytes : list Z)
| Closed (id : Z) (why : string).

Inductive Exit := ExShutdown (faded : bool) | ExFault (why : string) | ExBackend (why : string).

Record Settings := mkSettings { se_solo_grace : Z; se_block : Z; se_hold : bool }.

(** The command ring, what the RT thread took from it, the groups waiting for
    room, and how many commands it takes before each attempt. *)
Record Queue := mkQueue {
  q_taken : list RtCmd;
  q_ring : list RtCmd;
  q_pending : list (list RtOp);
  q_pops : list nat;
}.

(** Connections by id with the role each said hello with. *)
Record Peers := mkPeers {
  p_roles : gmap Z (option Role);
  p_controller : option Z;
  p_lost : option Z;
  p_supervisor : option Z;
}.

Record Run := mkRun {
  r_driver : bool;
  r_held : bool;
  r_deadline : option Z;
  r_counters : list Z;
  r_alarms : list Alarm;
  r_last_status : Z;
  r_settings : Settings;
  r_shutdown : bool;
  r_trips_seen : Z;
  r_hil_peaks : list f64;
}.

(** The clock, the milliseconds since 1970 ([None]: before), the writes to
    come ([true] fails). *)
Record Env := mkEnv { v_now : Z; v_epoch : option Z; v_sends : list bool }.

(** A connection refused is one that never became a peer. *)
Inductive Event :=
| EvSent (id : Z) (msg : EngineMsg)
| EvClosed (id : Z)
| EvRefused (id : Z)
| EvDriverStopped.

Record Control := mkControl {
  k_core : Core;
  k_disk : World;
  k_sched : SaveSchedule;
  k_queue : Queue;
  k_peers : Peers;
  k_run : Run;
  k_env : Env;
  k_log : list Event;
}.

Definition set_core (c : Core) (k : Control) : Control :=
  mkControl c (k_disk k) (k_sched k) (k_queue k) (k_peers k) (k_run k) (k_env k) (k_log k).
Definition set_disk (w : World) (k : Control) : Control :=
  mkControl (k_core k) w (k_sched k) (k_queue k) (k_peers k) (k_run k) (k_env k) (k_log k).
Definition set_sched (s : SaveSchedule) (k : Control) : Control :=
  mkControl (k_core k) (k_disk k) s (k_queue k) (k_peers k) (k_run k) (k_env k) (k_log k).
Definition set_queue (q : Queue) (k : Control) : Control :=
  mkControl (k_core k) (k_disk k) (k_sched k) q (k_peers k) (k_run k) (k_env k) (k_log k).
Definition set_peers (p : Peers) (k : Control) : Control :=
  mkControl (k_core k) (k_disk k) (k_sched k) (k_queue k) p (k_run k) (k_env k) (k_log k).
Definition set_run (r : Run) (k : Control) : Control :=
  mkControl (k_core k) (k_disk k) (k_sched k) (k_queue k) (k_peers k) r (k_env k) (k_log k).
Definition set_env (v : Env) (k : Control) : Control :=
  mkControl (k_core k) (k_disk k) (k_sched k) (k_queue k) (k_peers k) (k_run k) v (k_log k).
Definition set_log (l : list Event) (k : Control) : Control :=
  mkControl (k_core k) (k_disk k) (k_sched k) (k_queue k) (k_peers k) (k_run k) (k_env k) l.

Definition set_roles (roles : gmap Z (option Role)) (k : Control) : Control :=
  let p := k_peers k in set_peers (mkPeers roles (p_controller p) (p_lost p) (p_supervisor p)) k.
Definition set_controller (id lost : option Z) (k : Control) : Control :=
  let p := k_peers k in set_peers (mkPeers (p_roles p) id lost (p_supervisor p)) k.
Definition set_supervisor (id : option Z) (k : Control) : Control :=
  let p := k_peers k in set_peers (mkPeers (p_roles p) (p_controller p) (p_lost p) id) k.

Definition set_driver (b : bool) (k : Control) : Control :=
  let r := k_run k in
  set_run (mkRun b (r_held r) (r_deadline r) (r_counters r) (r_alarms r) (r_last_status r) (r_settings r)
             (r_shutdown r) (r_trips_seen r) (r_hil_peaks r)) k.
Definition set_held (b : bool) (k : Control) : Control :=
  let r := k_run k in
  set_run (mkRun (r_driver r) b (r_deadline r) (r_counters r) (r_alarms r) (r_last_status r) (r_settings r)
             (r_shutdown r) (r_trips_seen r) (r_hil_peaks r)) k.
Definition set_deadline (t : option Z) (k : Control) : Control :=
  let r := k_run k in
  set_run (mkRun (r_driver r) (r_held r) t (r_counters r) (r_alarms r) (r_last_status r) (r_settings r)
             (r_shutdown r) (r_trips_seen r) (r_hil_peaks r)) k.
Definition set_counters (l : list Z) (k : Control) : Control :=
  let r := k_run k in
  set_run (mkRun (r_driver r) (r_held r) (r_deadline r) l (r_alarms r) (r_last_status r) (r_settings r)
             (r_shutdown r) (r_trips_seen r) (r_hil_peaks r)) k.
Definition set_alarms (l : list Alarm) (k : Control) : Control :=
  let r := k_run k in
  set_run (mkRun (r_driver r) (r_held r) (r_deadline r) (r_counters r) l (r_last_status r) (r_settings r)
             (r_shutdown r) (r_trips_seen r) (r_hil_peaks r)) k.
Definition set_last_status (t : Z) (k : Control) : Control :=
  let r := k_run k in
  set_run (mkRun (r_driver r) (r_held r) (r_deadline r) (r_counters r) (r_alarms r) t (r_settings r)
             (r_shutdown r) (r_trips_seen r) (r_hil_peaks r)) k.
Definition set_shutdown (k : Control) : Control :=
  let r := k_run k in
  set_run (mkRun (r_driver r) (r_held r) (r_deadline r) (r_counters r) (r_alarms r) (r_last_status r) (r_settings r)
             true (r_trips_seen r) (r_hil_peaks r)) k.
Definition set_trips_seen (n : Z) (k : Control) : Control :=
  let r := k_run k in
  set_run (mkRun (r_driver r) (r_held r) (r_deadline r) (r_counters r) (r_alarms r) (r_last_status r) (r_settings r)
             (r_shutdown r) n (r_hil_peaks r)) k.
Definition set_hil_peaks (l : list f64) (k : Control) : Control :=
  let r := k_run k in
  set_run (mkRun (r_driver r) (r_held r) (r_deadline r) (r_counters r) (r_alarms r) (r_last_status r) (r_settings r)
             (r_shutdown r) (r_trips_seen r) l) k.
Definition set_clock (now : Z) (k : Control) : Control :=
  set_env (mkEnv now (v_epoch (k_env k)) (v_sends (k_env k))) k.

(** ** The monad: a step ends with a value, or the process ends in a file
    operation. *)

Inductive CtlOut (A : Type) := CDone (k : Control) (a : A) | CCrash (k : Control).
Arguments CDone {A} k a.
Arguments CCrash {A} k.

Definition CtlM (A : Type) : Type := Control -> CtlOut A.

#[export] Instance CtlM_ret : MRet CtlM := fun A a k => CDone k a.
#[export] Instance CtlM_bind : MBind CtlM := fun A B f m k =>
  match m k with CDone k a => f a k | CCrash k => CCrash k end.

Definition rd {A : Type} (f : Control -> A) : CtlM A := fun k => CDone k (f k).
Definition upd (f : Control -> Control) : CtlM unit := fun k => CDone (f k) tt.
Definition emit (ev : Event) : CtlM unit := upd (fun k => set_log (k_log k ++ [ev]) k).
Definition now : CtlM Z := rd (fun k => v_now (k_env k)).
Definition when (b : bool) (m : CtlM unit) : CtlM unit := if b then m else mret tt.

(** A file operation of the store. *)
Definition on_disk {A : Type} (m : IoM A) : CtlM (result IoError A) := fun k =>
  match m (k_disk k) with
  | ODone w r => CDone (set_disk w k) r
  | OCrash w => CCrash (set_disk w k)
  end.

(** A request to the core. *)
Definition on_core {A : Type} (m : CoreM A) : CtlM (result CmdError A) := fun k =>
  let '(c, r) := m (k_core k) in CDone (set_core c k) r.

(** ** Connections ([connections.rs]) *)

(** The connections in id order. *)
Definition peer_ids (p : Peers) : list Z := merge_sort Z.le (map_to_list (p_roles p)).*1.

(** Those that said hello. *)
Definition said_hello (p : Peers) : list Z :=
  filter (fun id => is_Some (p_roles p !! id ≫= fun r => r)) (peer_ids p).

(** The controller's solos stay until [solo_grace] after it left. *)
Definition drop_peer (id : Z) : CtlM unit :=
  peers ← rd k_peers;
  _ ← when (bool_decide (is_Some (p_roles peers !! id)))
        (_ ← upd (set_roles (delete id (p_roles peers))); emit (EvClosed id));
  t ← now;
  when (bool_decide (p_controller peers = Some id)) (upd (set_controller None (Some t))).

(** The next write: whether it fails. *)
Definition next_send : CtlM bool := fun k =>
  let v := k_env k in
  CDone (set_env (mkEnv (v_now v) (v_epoch v) (tail (v_sends v))) k) (match v_sends v with b :: _ => b | [] => false end).

(** A peer that takes nothing in time fails the write and is dropped. *)
Definition write (id : Z) (msg : EngineMsg) : CtlM unit :=
  peers ← rd k_peers;
  when (bool_decide (is_Some (p_roles peers !! id)))
    (failed ← next_send;
     if failed : bool then drop_peer id else emit (EvSent id msg)).

Fixpoint write_all (ids : list Z) (msg : EngineMsg) : CtlM unit :=
  match ids with
  | [] => mret tt
  | id :: ids => _ ← write id msg; write_all ids msg
  end.

Definition push_alarm (l : list Alarm) (a : Alarm) : list Alarm :=
  let l := l ++ [a] in
  if (MAX_ALARMS <? length l)%nat then tail l else l.

Section control.
Context `{Libm, Json, Sha256, ClientJson, Encodable} (engine_build : string).

Definition send (id : Z) (msg : EngineMsg) : CtlM unit := when (encodable msg) (write id msg).

(** To every connection that said hello. *)
Definition broadcast (msg : EngineMsg) : CtlM unit :=
  when (encodable msg) (peers ← rd k_peers; write_all (said_hello peers) msg).

Definition reply (id request : Z) (error : option ErrorBody) : CtlM unit :=
  rev ← rd (fun k => c_rev (k_core k));
  send id (MReply (mkReply request rev error)).

Definition alarm (code : AlarmCode) (detail : string) : CtlM unit :=
  let a := mkAlarm code detail in
  _ ← upd (fun k => set_alarms (push_alarm (r_alarms (k_run k)) a) k);
  broadcast (MAlarm a).

Definition state_msg (k : Control) : EngineMsg :=
  MState (c_rev (k_core k)) (core_state (k_core k)) (transient (k_core k)).

Fixpoint send_all (id : Z) (msgs : list EngineMsg) : CtlM unit :=
  match msgs with
  | [] => mret tt
  | msg :: msgs => _ ← send id msg; send_all id msgs
  end.

(** A new connection of a role that only one may have replaces the old one. *)
Definition supersede (id : Z) (old : option Z) : CtlM unit :=
  match old with
  | Some old =>
      when (negb (old =? id)) (_ ← send old MSuperseded; drop_peer old)
  | None => mret tt
  end.

Definition hello (id proto : Z) (role : Role) : CtlM unit :=
  match negotiate PROTO proto with
  | None =>
      _ ← reply id 0 (Some (mkErrorBody Unsupported
            ("protocol " +:+ dec proto +:+ " is not supported (the engine speaks " +:+ dec PROTO
             +:+ " and one version older)")));
      drop_peer id
  | Some proto =>
      _ ← when (bool_decide (role = Msg.Control))
            (peers ← rd k_peers; _ ← supersede id (p_controller peers); upd (set_controller (Some id) None));
      _ ← when (bool_decide (role = Supervisor))
            (peers ← rd k_peers; _ ← supersede id (p_supervisor peers); upd (set_supervisor (Some id)));
      peers ← rd k_peers;
      if bool_decide (p_roles peers !! id = None) then mret tt
      else
        _ ← upd (set_roles (<[id := Some role]> (p_roles peers)));
        k ← rd (fun k => k);
        let topo := c_topo (k_core k) in
        _ ← send id (MHello (mkHello proto engine_build (t_hash topo) (c_rev (k_core k)) SAMPLE_RATE
                               (se_block (r_settings (k_run k))) role));
        _ ← send id (MTopology (info topo));
        _ ← send id (state_msg k);
        send_all id (MAlarm <$> r_alarms (k_run k))
  end.

(** ** Commands to the RT thread ([requests.rs]) *)

(** [slice::chunks]: [fuel] is the length. *)
Fixpoint chunks_fuel {A : Type} (fuel n : nat) (l : list A) : list (list A) :=
  match fuel, l with
  | _, [] => []
  | O, _ => []
  | S fuel, _ => take n l :: chunks_fuel fuel n (drop n l)
  end.

Definition chunks {A : Type} (n : nat) (l : list A) : list (list A) := chunks_fuel (length l) n l.

(** The RT thread takes what it takes before the next attempt. *)
Definition rt_takes (q : Queue) : Queue :=
  let n := match q_pops q with n :: _ => n | [] => 0%nat end in
  mkQueue (q_taken q ++ take n (q_ring q)) (drop n (q_ring q)) (q_pending q) (tail (q_pops q)).

Fixpoint flush_groups (pending : list (list RtOp)) (q : Queue) : Queue :=
  match pending with
  | [] => mkQueue (q_taken q) (q_ring q) [] (q_pops q)
  | group :: rest =>
      let q := rt_takes q in
      match push_group (CMD_RING - length (q_ring q)) 0 group with
      | None => mkQueue (q_taken q) (q_ring q) pending (q_pops q)
      | Some cmds => flush_groups rest (mkQueue (q_taken q) (q_ring q ++ cmds) rest (q_pops q))
      end
  end.

Definition flush_rt : CtlM unit :=
  upd (fun k => set_queue (flush_groups (q_pending (k_queue k)) (k_queue k)) k).

Definition push_pending (groups : list (list RtOp)) : CtlM unit :=
  upd (fun k => let q := k_queue k in
    set_queue (mkQueue (q_taken q) (q_ring q) (q_pending q ++ groups) (q_pops q)) k).

Definition note_change : CtlM unit := upd (fun k => set_sched (changed (v_now (k_env k)) (k_sched k)) k).

(** Queues an outcome's RT commands and broadcasts its changes. *)
Definition publish (out : Core.Outcome) (origin : option Z) : CtlM unit :=
  _ ← push_pending (chunks MAX_CMDS_PER_BLOCK (out_rt out));
  _ ← flush_rt;
  match out_changes out with
  | [] => mret tt
  | changes => _ ← note_change; broadcast (MDelta (out_rev out) origin changes)
  end.

(** ** Saving ([saving.rs]) *)

(** Milliseconds since 1970, within 64 bits. *)
Definition unix_ms (epoch : option Z) : Z :=
  match epoch with
  | None => 0
  | Some ms => if ms <=? u64_max then ms else u64_max
  end.

Definition persisted (k : Control) : Persisted :=
  let topo := c_topo (k_core k) in
  mkPersisted (c_rev (k_core k)) (t_hash topo) (unix_ms (v_epoch (k_env k))) (core_state (k_core k))
    (foldl (fun acc '(b, c) => <[mn_id b := c]> acc) ∅ (zip (t_mixes topo) (r_counters (k_run k)))).

(** [Display] of an error with the engine's notes. *)
Definition note_display (text : string) (n : IoNote) : string :=
  match n with
  | NCannotRead name => name +:+ " cannot be read: " +:+ text
  | NMovedAside aside => text +:+ " (" +:+ TMP +:+ " was moved aside to " +:+ aside +:+ " first)"
  | NSyncAfterAside aside => TMP +:+ " was moved aside to " +:+ aside +:+ ", but the directory sync failed: " +:+ text
  end.

Definition io_display (e : IoError) : string := foldl note_display (e_text e) (e_notes e).

Definition save : CtlM unit :=
  _ ← upd (fun k => set_sched (saved (k_sched k)) k);
  p ← rd persisted;
  r ← on_disk (Store.save p);
  match r with
  | Ok committed =>
      _ ← match cm_orphaned committed with
          | Some aside =>
              alarm StateFallback ("a save.tmp the boot did not load was moved aside to " +:+ aside)
          | None => mret tt
          end;
      rev ← rd (fun k => c_rev (k_core k));
      broadcast (MSaved rev (cm_generation committed))
  | Err e => alarm SaveFailed ("saving the state failed: " +:+ io_display e)
  end.

(** ** Requests ([requests.rs]) *)

(** [Duration::from_secs_f64] of a positive finite number, in nanoseconds:
    the nearest one, ties to even. *)
Definition duration_ns (secs : f64) : Z :=
  match secs with
  | S754_finite false m e =>
      let n := Z.pos m * 1000000000 in
      if 0 <=? e then n * 2 ^ e
      else
        let d := 2 ^ (- e) in
        let q := n / d in
        let r := n mod d in
        if (2 * r <? d) || ((2 * r =? d) && Z.even q) then q else q + 1
  | _ => 0
  end.

(** Why a connection of a role may not send a command. *)
Definition refusal (role : option Role) (cmd : Cmd) : option ErrorBody :=
  match role with
  | None => Some (mkErrorBody BadRequest "say hello first")
  | Some Observe =>
      if is_read_only cmd then None else Some (mkErrorBody NotController "an observer may only read")
  | Some Supervisor =>
      if supervisor_may cmd then None else Some (mkErrorBody NotController "the supervisor never changes the mix")
  | Some Msg.Control =>
      if is_supervisor cmd then Some (mkErrorBody NotSupervisor "only the supervisor sends this") else None
  end.

(** The control loop's own part of a command. *)
Definition after_apply (cmd : Cmd) : CtlM unit :=
  match cmd with
  | StartTestSignal _ _ _ _ | HilTestSignal _ _ _ _ _ _ =>
      upd (fun k =>
        set_deadline ((fun t => v_now (k_env k) + duration_ns (ts_ttl_s t)) <$> t_test_signal (transient (k_core k))) k)
  | StopTestSignal => upd (set_deadline None)
  | Arm => upd (set_held false)
  | _ => mret tt
  end.

Definition run_effect (id : Z) (effect : Effect) : CtlM unit :=
  match effect with
  | ENone => mret tt
  | ESendState => k ← rd (fun k => k); send id (state_msg k)
  | ESendTopology => k ← rd (fun k => k); send id (MTopology (info (c_topo (k_core k))))
  | ESave => save
  | EShutdown => upd set_shutdown
  | EImported => k ← rd (fun k => k); _ ← broadcast (state_msg k); note_change
  end.

Definition request (id r : Z) (origin : option Z) (cmd : Cmd) : CtlM unit :=
  applied ← on_core (Core.apply cmd);
  match applied with
  | Err e => reply id r (Some (mkErrorBody (ce_code e) (ce_msg e)))
  | Ok out =>
      _ ← after_apply cmd;
      _ ← reply id r None;
      _ ← publish out origin;
      run_effect id (out_effect out)
  end.

Definition frame (id : Z) (bytes : list Z) : CtlM unit :=
  peers ← rd k_peers;
  match p_roles peers !! id with
  | None => mret tt
  | Some role =>
      match parse_client bytes with
      | Err (r, e) => reply id (match r with Some r => r | None => 0 end) (Some e)
      | Ok (CHello proto role _) => hello id proto role
      | Ok (CRequest r origin cmd) =>
          match refusal role cmd with
          | Some e => reply id r (Some e)
          | None => request id r origin cmd
          end
      end
  end.

Definition handle (msg : CtlMsg) : CtlM unit :=
  match msg with
  | Connected id =>
      peers ← rd k_peers;
      if (MAX_CONNS <=? size (p_roles peers))%nat then emit (EvRefused id)
      else upd (set_roles (<[id := None]> (p_roles peers)))
  | Closed id _ => drop_peer id
  | FrameIn id bytes => frame id bytes
  end.

(** ** Status ([status.rs]) *)

(** What the source reads of the stream's figures (a library's record). *)
Record StreamStats := mkStreamStats {
  st_callbacks : Z; st_late : Z; st_faulted : bool; st_fault : option string; st_max_process_ns : Z;
  st_frames : Z; st_missed : Z; st_overruns : Z; st_resets : Z; st_last_reopen_us : Z; st_fault_callback_ns : Z;
}.

Record HistSnapshot := mkHist { hs_interval : list (Z * Z); hs_process : list (Z * Z); hs_top_us : Z }.

(** The RT thread's counters the loop reads ([RtStatus]). *)
Record RtStatus := mkRtStatus { rs_trips : Z; rs_tap_overruns : Z; rs_loopback_samples : Z }.

Record MeterFrame := mkMeterFrame {
  mf_seq : Z; mf_inputs : list (f64 * f64); mf_mixes : list (f64 * f64); mf_groups : list (f64 * f64);
  mf_gr_db : list f64; mf_active : list Z; mf_trips : Z; mf_hil : list f64; mf_own : list (f64 * f64);
}.

Definition pair32 (p : f64 * f64) : f64 * f64 := (f64_as_f32 p.1, f64_as_f32 p.2).

Definition meters_msg (f : MeterFrame) : Meters :=
  mkMeters (mf_seq f) (pair32 <$> mf_inputs f) (pair32 <$> mf_mixes f) (pair32 <$> mf_groups f)
    (f64_as_f32 <$> mf_gr_db f) ((fun a => f64_div (f64_of_u64 a) (f64_of_u32 SAMPLE_RATE)) <$> mf_active f)
    (mf_trips f) (pair32 <$> mf_own f).

Definition f64_thousand : f64 := f64_lit 1000 0.

(** What a tick reads from outside: the backend's figures, its reason to end,
    its histograms, a new meter frame, the RT thread's and the talkback's
    counters, and the fade's flag and elapsed time at each look. *)
Record TickIn := mkTickIn {
  ti_stats : StreamStats;
  ti_ending : option Ending;
  ti_hist : HistSnapshot;
  ti_meter : option MeterFrame;
  ti_rt : RtStatus;
  ti_talkback_dropped : Z;
  ti_faded : nat -> bool;
  ti_elapsed : nat -> Z;
}.

Definition cmd_backlog (q : Queue) : Z := Z.of_nat (sum_list_with length (q_pending q)).

(** The backend's stats, default once it is released. *)
Definition StreamStats_default : StreamStats := mkStreamStats 0 0 false None 0 0 0 0 0 0 0.
Definition HistSnapshot_default : HistSnapshot := mkHist [] [] 0.
Definition driver_stats (inp : TickIn) (k : Control) : StreamStats :=
  if r_driver (k_run k) then ti_stats inp else StreamStats_default.

Definition status_msg (inp : TickIn) (st : StreamStats) (k : Control) : Status :=
  let h := if r_driver (k_run k) then ti_hist inp else HistSnapshot_default in
  mkStatus (st_callbacks st) (st_late st) (st_faulted st)
    (f64_div (f64_of_u64 (st_max_process_ns st)) f64_thousand)
    (rs_trips (ti_rt inp)) (rs_tap_overruns (ti_rt inp)) (ti_talkback_dropped inp)
    (cmd_backlog (k_queue k)) (st_frames st) (st_missed st) (st_overruns st) (st_resets st)
    (r_held (k_run k))
    (zip_with (fun tx peak => mkHilOut tx (f64_as_f32 peak)) (c_hil (k_core k)) (r_hil_peaks (k_run k)))
    (rs_loopback_samples (ti_rt inp)) (hs_interval h) (hs_process h) (hs_top_us h) (st_last_reopen_us st)
    (f64_div (f64_of_u64 (st_fault_callback_ns st)) f64_thousand).

(** [iter_mut().zip(peaks)]: the peaks beyond the shorter list stay. *)
Fixpoint max_peaks (held peaks : list f64) : list f64 :=
  match held, peaks with
  | h :: held, p :: peaks => f64_max h p :: max_peaks held peaks
  | held, _ => held
  end.

Definition note_hil (peaks : list f64) : CtlM unit :=
  upd (fun k => set_hil_peaks (max_peaks (r_hil_peaks (k_run k)) peaks) k).

(** The status to broadcast; the HIL peaks start again after it. *)
Definition next_status (inp : TickIn) (st : StreamStats) : CtlM Status :=
  status ← rd (status_msg inp st);
  _ ← upd (fun k => set_hil_peaks ((fun _ => f64_zero) <$> r_hil_peaks (k_run k)) k);
  mret status.

(** ** How a run ends ([stop.rs]) *)

(** Stops the backend and says so, before every connection closes. *)
Definition release (reason : string) : CtlM unit :=
  driver ← rd (fun k => r_driver (k_run k));
  _ ← when driver (emit EvDriverStopped);
  _ ← upd (set_driver false);
  _ ← broadcast (MDriverReleased reason);
  peers ← rd k_peers;
  _ ← upd (set_roles ∅);
  upd (fun k => set_log (k_log k ++ (EvClosed <$> peer_ids peers)) k).

(** Looks at the flag every 5 ms until it is set or [FADE_WAIT] passed; the
    look it ended at (one more follows).  [turns] is [FADE_WAIT] over 5 ms, all there can be. *)
Fixpoint fade_loop (turns : nat) (inp : TickIn) (at_ : nat) : CtlM nat :=
  match turns with
  | O => mret at_
  | S turns =>
      if negb (ti_faded inp at_) && (ti_elapsed inp at_ <? FADE_WAIT)
      then _ ← flush_rt; fade_loop turns inp (S at_)
      else mret at_
  end.

Definition fade_out (inp : TickIn) : CtlM bool :=
  _ ← push_pending [[RtFadeOut]];
  at_ ← fade_loop (Z.to_nat (FADE_WAIT / 5000000)) inp 0;
  mret (ti_faded inp (S at_)).

Definition shutdown_now (inp : TickIn) : CtlM Exit :=
  _ ← save;
  faded ← fade_out inp;
  _ ← release "shutdown";
  mret (ExShutdown faded).

Definition fault (why : string) : CtlM Exit :=
  _ ← save;
  _ ← alarm Fault why;
  _ ← release "fault";
  mret (ExFault why).

Definition backend_ended (why : string) : CtlM Exit :=
  _ ← save;
  _ ← release "backend ended";
  mret (ExBackend why).

(** ** The tick and the loop ([control.rs]) *)

Definition STATUS_EVERY : Z := 1000000000.

Definition tick_meters (frame : MeterFrame) : CtlM unit :=
  seen ← rd (fun k => r_trips_seen (k_run k));
  _ ← when (seen <? mf_trips frame)
        (_ ← upd (set_trips_seen (mf_trips frame));
         alarm Sanitizer ("sanitiser trips: " +:+ dec (mf_trips frame)));
  _ ← upd (set_counters (mf_active frame));
  _ ← note_hil (mf_hil frame);
  broadcast (MMeters (meters_msg frame)).

Definition tick_status (inp : TickIn) (st : StreamStats) : CtlM unit :=
  t ← now;
  last ← rd (fun k => r_last_status (k_run k));
  when (STATUS_EVERY <=? since t last)
    (_ ← upd (set_last_status t);
     status ← next_status inp st;
     broadcast (MStatus status)).

(** The solos clear [solo_grace] after the controller left. *)
Definition tick_solos : CtlM unit :=
  t ← now;
  k ← rd (fun k => k);
  match p_controller (k_peers k), p_lost (k_peers k) with
  | None, Some lost =>
      when (se_solo_grace (r_settings (k_run k)) <=? since t lost)
        (_ ← upd (set_controller None None);
         out ← on_core clear_solos;
         match out with Ok out => publish out None | Err _ => mret tt end)
  | _, _ => mret tt
  end.

Definition tick_test : CtlM unit :=
  t ← now;
  deadline ← rd (fun k => r_deadline (k_run k));
  match deadline with
  | Some d =>
      when (d <=? t)
        (_ ← upd (set_deadline None);
         out ← on_core end_test_signal;
         match out with Ok out => publish out None | Err _ => mret tt end)
  | None => mret tt
  end.

Definition tick_save : CtlM unit :=
  t ← now;
  sched ← rd k_sched;
  when (due t sched) save.

(** The rest of a tick of a run that goes on. *)
Definition tick_run (inp : TickIn) (st : StreamStats) : CtlM unit :=
  _ ← match ti_meter inp with Some frame => tick_meters frame | None => mret tt end;
  _ ← tick_status inp st;
  _ ← tick_solos;
  _ ← tick_test;
  tick_save.

Definition tick (inp : TickIn) : CtlM (option Exit) :=
  _ ← flush_rt;
  st ← rd (driver_stats inp);
  if st_faulted st
  then
    last ← next_status inp st;
    _ ← broadcast (MStatus last);
    exit ← fault (match st_fault st with Some why => why | None => "unknown" end);
    mret (Some exit)
  else
    driver ← rd (fun k => r_driver (k_run k));
    match (if driver : bool then ti_ending inp else None) with
    | Some (EndBackend why) => exit ← backend_ended why; mret (Some exit)
    | ending =>
        _ ← when (match ending with Some EndStop => true | _ => false end) (upd set_shutdown);
        shutdown ← rd (fun k => r_shutdown (k_run k));
        if shutdown : bool
        then exit ← shutdown_now inp; mret (Some exit)
        else _ ← tick_run inp st; mret None
    end.

(** The messages there are: the first one, then the others until a
    [Shutdown]; each with the time it is handled at. *)
Fixpoint handle_rest (msgs : list (Z * CtlMsg)) : CtlM unit :=
  match msgs with
  | [] => mret tt
  | (t, msg) :: msgs =>
      shutdown ← rd (fun k => r_shutdown (k_run k));
      if shutdown : bool then mret tt
      else _ ← upd (set_clock t); _ ← handle msg; handle_rest msgs
  end.

Definition handle_all (msgs : list (Z * CtlMsg)) : CtlM unit :=
  match msgs with
  | [] => mret tt
  | (t, msg) :: msgs => _ ← upd (set_clock t); _ ← handle msg; handle_rest msgs
  end.

(** One turn of [run]: the waiting messages and a tick at [at_]. *)
Record Turn := mkTurn { tu_msgs : list (Z * CtlMsg); tu_at : Z; tu_in : TickIn }.

Definition turn (u : Turn) : CtlM (option Exit) :=
  _ ← handle_all (tu_msgs u);
  _ ← upd (set_clock (tu_at u));
  tick (tu_in u).

(** [run], over the turns to come: [None] while it goes on after the last. *)
Fixpoint run (turns : list Turn) : CtlM (option Exit) :=
  match turns with
  | [] => mret None
  | u :: turns =>
      exit ← turn u;
      match exit with
      | Some exit => mret (Some exit)
      | None => run turns
      end
  end.
End control.

(** [Control::new]. *)
Definition Control_new (core : Core) (disk : World) (counters : list Z) (alarms : list Alarm) (settings : Settings)
    (v : Env) (pops : list nat) : Control :=
  mkControl core disk SaveSchedule_default (mkQueue [] [] [] pops) (mkPeers ∅ None None None)
    (mkRun true (se_hold settings) None counters alarms (v_now v) settings false 0
       ((fun _ => f64_zero) <$> c_hil core))
    v [].
