(* ===== verification/Processor.v ===== *)
(** * The RT processor: its state and the commands it applies
    ([iem-engine/src/rt.rs])

    The nodes of the pipeline (inputs, group strips, shadows, mixes), the
    processor at a mix state, what each command does to it, and how many
    commands a block applies.  Rings are lists: the commands the control thread
    pushed, the taps with what they hold, the talkback samples.  A panic
    ([RtPanic]) is [None]. *)

From S2P Require Import Prelude F64 Text MixState Msg Shape Topology TopologyWf Reconciled Rt Core Wire Control Dsp Mga.
From Stdlib Require Import SpecFloat.
From stdpp Require Import options.
Local Open Scope Z_scope.

Definition METER_PERIOD : Z := 3200.
Definition TAP_RING : nat := 38400.
Definition TALK_RING : nat := 11520.
Definition FADE_MS : f64 := Eval vm_compute in f64_lit 50 0.
Definition FADE_IN_MS : f64 := Eval vm_compute in f64_lit 500 0.
Definition SEG : nat := 256.
Definition TALKBACK_GAIN : f64 := Eval vm_compute in f64_lit 379934 6.
Definition TEST_CAP : f64 := Eval vm_compute in f64_lit 1 1.

Record Options := mkOptions { op_fade_in_ms : f64; op_hold : bool }.

(** ** Nodes *)

(** A stereo buffer of [SEG] samples; a segment uses the first ones. *)
Definition Stereo : Type := list f64 * list f64.
Definition Stereo_new : Stereo := (replicate SEG f64_0, replicate SEG f64_0).
Definition st_get (n : nat) (s : Stereo) : Stereo := (take n s.1, take n s.2).
(** The first samples written over. *)
Definition st_put (new s : Stereo) : Stereo :=
  (new.1 ++ drop (length new.1) s.1, new.2 ++ drop (length new.2) s.2).

(** From silence to full level over [len] samples; at once for 0. *)
Definition rise (len : Z) : Ramp :=
  let fade := Ramp_new f64_0 len in
  if 0 <? len then ramp_set f64_1 fade else ramp_jump f64_1 fade.

Record InputRt := mkInputRt {
  ir_p : Stereo;
  ir_trim : Ramp;
  ir_proc_mix : Ramp;
  ir_eq : Equalizer;
  ir_gate : Ramp;
  ir_trips : Z;
  ir_peak : list f64;
}.

Record MixLimiter := mkMixLimiter { ml_lim : MgaLimiter; ml_raise : Ramp; ml_base : Z }.

Record GroupRt := mkGroupRt { gr_eq : Equalizer; gr_fader : StereoGain; gr_trips : Z; gr_peak : list f64 }.

Record ShadowRt := mkShadowRt {
  sh_out : Stereo;
  sh_eq : Equalizer;
  sh_limiter : MixLimiter;
  sh_fader : StereoGain;
  sh_trips : Z;
  sh_peak : list f64;
}.

Record MixRt := mkMixRt {
  mr_sum : Stereo;
  mr_own : Stereo;
  mr_shadow : option ShadowRt;
  mr_levels : list StereoGain;
  mr_groups : list GroupRt;
  mr_eq : Equalizer;
  mr_limiter : MixLimiter;
  mr_fader : StereoGain;
  mr_safety : Mga;
  mr_cap : f64;
  mr_trips : Z;
  mr_peak : list f64;
}.

Record TestRt := mkTestRt {
  te_input : nat;
  te_phase : f64;
  te_inc : f64;
  te_amp : f64;
  te_left : Z;
  te_fade : Ramp;
  te_end : Z;
  te_mask : option HilMask;
  te_listen : bool;
}.

(** The output stage and whether it sounds. *)
Record Output := mkOutput { ou_fade : Ramp; ou_fade_in : Z; ou_armed : bool; ou_fading_out : bool }.

Record Clock := mkClock { ck_time : Z; ck_since_meter : Z; ck_seq : Z; ck_trips : Z }.

(** The counters the control loop reads ([RtStatus]). *)
Record RtCounters := mkRtCounters {
  rc_faded_out : bool;
  rc_trips : Z;
  rc_tap_overruns : Z;
  rc_talkback_underruns : Z;
  rc_deferred : Z;
  rc_loopback_samples : Z;
}.

(** The rings: commands, talkback in, listen taps and probe taps out. *)
Record Rings := mkRings {
  rg_cmds : list RtCmd;
  rg_talk : list f64;
  rg_taps : list (list f64);
  rg_probes : list (list f64);
}.

Record Processor := mkProcessor {
  p_topo : Topology;
  p_sr : f64;
  p_inputs : list InputRt;
  p_mixes : list MixRt;
  p_talkback_input : option nat;
  p_rings : Rings;
  p_meters : MeterFrame;
  p_published : bool;
  p_talk_gate : Ramp;
  p_listen : list (option nat);
  p_listen_lim : MgaLimiter;
  p_test : option TestRt;
  p_hil_peaks : list (list f64);
  p_hil_rx : nat;
  p_latency : LatencyProbe;
  p_output : Output;
  p_clock : Clock;
  p_status : RtCounters;
}.

Definition set_inputs (l : list InputRt) (p : Processor) : Processor :=
  mkProcessor (p_topo p) (p_sr p) l (p_mixes p) (p_talkback_input p) (p_rings p) (p_meters p) (p_published p) (p_talk_gate p)
    (p_listen p) (p_listen_lim p) (p_test p) (p_hil_peaks p) (p_hil_rx p) (p_latency p) (p_output p) (p_clock p) (p_status p).
Definition set_mixes (l : list MixRt) (p : Processor) : Processor :=
  mkProcessor (p_topo p) (p_sr p) (p_inputs p) l (p_talkback_input p) (p_rings p) (p_meters p) (p_published p) (p_talk_gate p)
    (p_listen p) (p_listen_lim p) (p_test p) (p_hil_peaks p) (p_hil_rx p) (p_latency p) (p_output p) (p_clock p) (p_status p).
Definition set_rings (r : Rings) (p : Processor) : Processor :=
  mkProcessor (p_topo p) (p_sr p) (p_inputs p) (p_mixes p) (p_talkback_input p) r (p_meters p) (p_published p) (p_talk_gate p)
    (p_listen p) (p_listen_lim p) (p_test p) (p_hil_peaks p) (p_hil_rx p) (p_latency p) (p_output p) (p_clock p) (p_status p).
Definition set_meters (f : MeterFrame) (p : Processor) : Processor :=
  mkProcessor (p_topo p) (p_sr p) (p_inputs p) (p_mixes p) (p_talkback_input p) (p_rings p) f true (p_talk_gate p)
    (p_listen p) (p_listen_lim p) (p_test p) (p_hil_peaks p) (p_hil_rx p) (p_latency p) (p_output p) (p_clock p) (p_status p).
Definition set_talk_gate (g : Ramp) (p : Processor) : Processor :=
  mkProcessor (p_topo p) (p_sr p) (p_inputs p) (p_mixes p) (p_talkback_input p) (p_rings p) (p_meters p) (p_published p) g
    (p_listen p) (p_listen_lim p) (p_test p) (p_hil_peaks p) (p_hil_rx p) (p_latency p) (p_output p) (p_clock p) (p_status p).
Definition set_listen (l : list (option nat)) (lim : MgaLimiter) (p : Processor) : Processor :=
  mkProcessor (p_topo p) (p_sr p) (p_inputs p) (p_mixes p) (p_talkback_input p) (p_rings p) (p_meters p) (p_published p)
    (p_talk_gate p) l lim (p_test p) (p_hil_peaks p) (p_hil_rx p) (p_latency p) (p_output p) (p_clock p) (p_status p).
Definition set_test_rt (t : option TestRt) (p : Processor) : Processor :=
  mkProcessor (p_topo p) (p_sr p) (p_inputs p) (p_mixes p) (p_talkback_input p) (p_rings p) (p_meters p) (p_published p)
    (p_talk_gate p) (p_listen p) (p_listen_lim p) t (p_hil_peaks p) (p_hil_rx p) (p_latency p) (p_output p) (p_clock p) (p_status p).
Definition set_hil_meters (l : list (list f64)) (p : Processor) : Processor :=
  mkProcessor (p_topo p) (p_sr p) (p_inputs p) (p_mixes p) (p_talkback_input p) (p_rings p) (p_meters p) (p_published p)
    (p_talk_gate p) (p_listen p) (p_listen_lim p) (p_test p) l (p_hil_rx p) (p_latency p) (p_output p) (p_clock p) (p_status p).
Definition set_latency (l : LatencyProbe) (p : Processor) : Processor :=
  mkProcessor (p_topo p) (p_sr p) (p_inputs p) (p_mixes p) (p_talkback_input p) (p_rings p) (p_meters p) (p_published p)
    (p_talk_gate p) (p_listen p) (p_listen_lim p) (p_test p) (p_hil_peaks p) (p_hil_rx p) l (p_output p) (p_clock p) (p_status p).
Definition set_output (o : Output) (p : Processor) : Processor :=
  mkProcessor (p_topo p) (p_sr p) (p_inputs p) (p_mixes p) (p_talkback_input p) (p_rings p) (p_meters p) (p_published p)
    (p_talk_gate p) (p_listen p) (p_listen_lim p) (p_test p) (p_hil_peaks p) (p_hil_rx p) (p_latency p) o (p_clock p) (p_status p).
Definition set_clock_rt (c : Clock) (p : Processor) : Processor :=
  mkProcessor (p_topo p) (p_sr p) (p_inputs p) (p_mixes p) (p_talkback_input p) (p_rings p) (p_meters p) (p_published p)
    (p_talk_gate p) (p_listen p) (p_listen_lim p) (p_test p) (p_hil_peaks p) (p_hil_rx p) (p_latency p) (p_output p) c (p_status p).
Definition set_status (s : RtCounters) (p : Processor) : Processor :=
  mkProcessor (p_topo p) (p_sr p) (p_inputs p) (p_mixes p) (p_talkback_input p) (p_rings p) (p_meters p) (p_published p)
    (p_talk_gate p) (p_listen p) (p_listen_lim p) (p_test p) (p_hil_peaks p) (p_hil_rx p) (p_latency p) (p_output p) (p_clock p) s.

Definition set_cmds (l : list RtCmd) (p : Processor) : Processor :=
  let r := p_rings p in set_rings (mkRings l (rg_talk r) (rg_taps r) (rg_probes r)) p.
Definition set_fade (fade : Ramp) (p : Processor) : Processor :=
  let o := p_output p in set_output (mkOutput fade (ou_fade_in o) (ou_armed o) (ou_fading_out o)) p.
Definition set_loopback (n : Z) (p : Processor) : Processor :=
  let s := p_status p in
  set_status (mkRtCounters (rc_faded_out s) (rc_trips s) (rc_tap_overruns s) (rc_talkback_underruns s) (rc_deferred s) n) p.
Definition p_time (p : Processor) : Z := ck_time (p_clock p).

(** ** Node operations *)

(** A talkback or tap ring takes what fits; whether some did not. *)
Definition push_partial (capacity : nat) (ring new : list f64) : list f64 * bool :=
  let room := (capacity - length ring)%nat in
  (ring ++ take room new, (room <? length new)%nat).

Definition ml_active (m : MixLimiter) : Z := u64_saturating_add (ml_base m) (li_active (ml_lim m)).

(** The index a command names. *)
Definition at_ix {A : Type} (f : A -> A) (i : Z) (l : list A) : list A := alter f (Z.to_nat i) l.

Definition both_fader (f : StereoGain -> StereoGain) (m : MixRt) : MixRt :=
  mkMixRt (mr_sum m) (mr_own m)
    ((fun s => mkShadowRt (sh_out s) (sh_eq s) (sh_limiter s) (f (sh_fader s)) (sh_trips s) (sh_peak s)) <$> mr_shadow m)
    (mr_levels m) (mr_groups m) (mr_eq m) (mr_limiter m) (f (mr_fader m)) (mr_safety m) (mr_cap m) (mr_trips m) (mr_peak m).
Definition both_eq (f : Equalizer -> Equalizer) (m : MixRt) : MixRt :=
  mkMixRt (mr_sum m) (mr_own m)
    ((fun s => mkShadowRt (sh_out s) (f (sh_eq s)) (sh_limiter s) (sh_fader s) (sh_trips s) (sh_peak s)) <$> mr_shadow m)
    (mr_levels m) (mr_groups m) (f (mr_eq m)) (mr_limiter m) (mr_fader m) (mr_safety m) (mr_cap m) (mr_trips m) (mr_peak m).
Definition both_limiter (f : MixLimiter -> MixLimiter) (m : MixRt) : MixRt :=
  mkMixRt (mr_sum m) (mr_own m)
    ((fun s => mkShadowRt (sh_out s) (sh_eq s) (f (sh_limiter s)) (sh_fader s) (sh_trips s) (sh_peak s)) <$> mr_shadow m)
    (mr_levels m) (mr_groups m) (mr_eq m) (f (mr_limiter m)) (mr_fader m) (mr_safety m) (mr_cap m) (mr_trips m) (mr_peak m).
Definition own_limiter (f : MixLimiter -> MixLimiter) (m : MixRt) : MixRt :=
  mkMixRt (mr_sum m) (mr_own m) (mr_shadow m) (mr_levels m) (mr_groups m) (mr_eq m) (f (mr_limiter m)) (mr_fader m)
    (mr_safety m) (mr_cap m) (mr_trips m) (mr_peak m).
Definition set_mr_levels (l : list StereoGain) (m : MixRt) : MixRt :=
  mkMixRt (mr_sum m) (mr_own m) (mr_shadow m) l (mr_groups m) (mr_eq m) (mr_limiter m) (mr_fader m) (mr_safety m) (mr_cap m)
    (mr_trips m) (mr_peak m).
Definition set_mr_groups (l : list GroupRt) (m : MixRt) : MixRt :=
  mkMixRt (mr_sum m) (mr_own m) (mr_shadow m) (mr_levels m) l (mr_eq m) (mr_limiter m) (mr_fader m) (mr_safety m) (mr_cap m)
    (mr_trips m) (mr_peak m).
Definition set_mr_cap (cap : f64) (m : MixRt) : MixRt :=
  mkMixRt (mr_sum m) (mr_own m) (mr_shadow m) (mr_levels m) (mr_groups m) (mr_eq m) (mr_limiter m) (mr_fader m) (mr_safety m) cap
    (mr_trips m) (mr_peak m).

(** X13: a test signal caps every TX. *)
Definition set_caps (on : bool) (p : Processor) : Processor :=
  set_mixes (set_mr_cap (if on then TEST_CAP else f64_1) <$> p_mixes p) p.

(** The fade-in from silence, unless it is fading out for good. *)
Definition restart_fade (p : Processor) : Processor :=
  if ou_fading_out (p_output p) then p else set_fade (rise (ou_fade_in (p_output p))) p.

(** A ramp from [value] to silence over [len] samples. *)
Definition fall (value : f64) (len : Z) : Ramp := ramp_set f64_0 (Ramp_new value len).

Definition start_test_rt (i : Z) (hz amp : f64) (ttl : Z) (mask : option HilMask) (listen : bool) (p : Processor) : Processor :=
  let p := if bool_decide (is_Some mask) then set_loopback 0 (set_latency (probe_reset (p_latency p)) p) else p in
  let len := samples FADE_MS (p_sr p) in
  let fade := ramp_set f64_1 (Ramp_new f64_0 len) in
  set_caps true
    (set_test_rt (Some (mkTestRt (Z.to_nat i) f64_0 (hz / p_sr p)%F (f64_min amp TEST_CAP) ttl fade
                          (u64_saturating_add (u64_saturating_add (p_time p) ttl) len) mask listen)) p).

Definition stop_test_rt (p : Processor) : Processor :=
  match p_test p with
  | None => p
  | Some t =>
      let len := samples FADE_MS (p_sr p) in
      set_test_rt (Some (mkTestRt (te_input t) (te_phase t) (te_inc t) (te_amp t) 0 (fall (ra_value (te_fade t)) len)
                           (u64_saturating_add (p_time p) len) (te_mask t) (te_listen t))) p
  end.

Section commands.
Context `{Libm, RtMath}.

Definition ml_new (sr : f64) (enabled : bool) (limit_db : f64) (base : Z) : MixLimiter :=
  let lim := set_enabled enabled (Limiter_new sr limit_db) in
  mkMixLimiter lim (Ramp_new (li_limit_db lim) (samples DISABLE_MS sr)) base.

(** Lowering is instant, raising ramps. *)
Definition ml_set (enabled : bool) (limit_db : f64) (m : MixLimiter) : MixLimiter :=
  let lim := set_enabled enabled (ml_lim m) in
  if f64_leb limit_db (li_limit_db lim)
  then mkMixLimiter (set_limit_db limit_db lim) (ramp_jump limit_db (ml_raise m)) (ml_base m)
  else mkMixLimiter lim (ramp_set limit_db (ml_raise m)) (ml_base m).

Definition input_set (sr : f64) (q : InputParams) (n : InputRt) : InputRt :=
  let trim := ramp_set (ip_trim q) (ir_trim n) in
  let gate := ramp_set (gate (ip_muted q)) (ir_gate n) in
  let dry := negb (is_moving (ir_proc_mix n)) && f64_eqb (ra_value (ir_proc_mix n)) f64_0 in
  let '(trim, eq) :=
    if ip_processing q && dry
    then (ramp_jump (ra_target trim) trim, Equalizer_at 2 (eq_targets (ir_eq n)) sr)
    else (trim, ir_eq n) in
  mkInputRt (ir_p n) trim (ramp_set (if ip_processing q then f64_1 else f64_0) (ir_proc_mix n)) eq gate (ir_trips n) (ir_peak n).

Definition rt_apply (op : RtOp) (p : Processor) : option Processor :=
  match op with
  | RtNop => Some p
  | RtInput i q => Some (set_inputs (at_ix (input_set (p_sr p) q) i (p_inputs p)) p)
  | RtInputEq i eq =>
      Some (set_inputs
        (at_ix (fun n => mkInputRt (ir_p n) (ir_trim n) (ir_proc_mix n) (eq_set eq (ir_eq n)).1 (ir_gate n) (ir_trips n) (ir_peak n))
           i (p_inputs p)) p)
  | RtMixOut m volume muted => Some (set_mixes (at_ix (both_fader (sg_set volume muted f64_0)) m (p_mixes p)) p)
  | RtMixEq m eq => Some (set_mixes (at_ix (both_eq (fun e => (eq_set eq e).1)) m (p_mixes p)) p)
  | RtLimiter m enabled limit_db => Some (set_mixes (at_ix (both_limiter (ml_set enabled limit_db)) m (p_mixes p)) p)
  | RtResetLimiter m =>
      Some (set_mixes (at_ix (own_limiter (fun l => mkMixLimiter (reset_active (ml_lim l)) (ml_raise l) 0)) m (p_mixes p)) p)
  | RtLevel m k gain pan muted =>
      Some (set_mixes (at_ix (fun n => set_mr_levels (at_ix (sg_set gain muted pan) k (mr_levels n)) n) m (p_mixes p)) p)
  | RtGroup m g gain muted =>
      Some (set_mixes (at_ix (fun n => set_mr_groups
        (at_ix (fun s => mkGroupRt (gr_eq s) (sg_set gain muted f64_0 (gr_fader s)) (gr_trips s) (gr_peak s)) g (mr_groups n)) n)
        m (p_mixes p)) p)
  | RtGroupEq m g eq =>
      Some (set_mixes (at_ix (fun n => set_mr_groups
        (at_ix (fun s => mkGroupRt (eq_set eq (gr_eq s)).1 (gr_fader s) (gr_trips s) (gr_peak s)) g (mr_groups n)) n)
        m (p_mixes p)) p)
  | RtListen slot mix =>
      Some (set_listen (at_ix (fun _ => Z.to_nat <$> mix) slot (p_listen p))
              (if slot =? 1 then lim_reset (p_listen_lim p) else p_listen_lim p) p)
  | RtTestSignal i hz amp ttl => Some (start_test_rt i hz amp ttl None false p)
  | RtHilTestSignal i hz amp ttl mask listen => Some (start_test_rt i hz amp ttl (Some mask) listen p)
  | RtStopTestSignal => Some (stop_test_rt p)
  | RtFadeOut =>
      let o := p_output p in
      Some (set_output (mkOutput (fall (ra_value (ou_fade o)) (samples FADE_MS (p_sr p))) (ou_fade_in o) (ou_armed o) true) p)
  | RtPanic => None
  | RtArm =>
      let o := p_output p in
      Some (if ou_armed o then p
            else restart_fade (set_output (mkOutput (ou_fade o) (ou_fade_in o) true (ou_fading_out o)) p))
  end.

(** Applies the commands in order. *)
Fixpoint apply_cmds (cmds : list RtCmd) (p : Processor) : option Processor :=
  match cmds with
  | [] => Some p
  | c :: cmds => p ← rt_apply (rc_op c) p; apply_cmds cmds p
  end.

(** The commands due within the budget: the budget left and whether a due
    group waits.  [fuel] is the number of commands in the ring. *)
Fixpoint apply_due_fuel (fuel budget : nat) (p : Processor) : option (Processor * nat * bool) :=
  match fuel, rg_cmds (p_rings p) with
  | S fuel, c :: _ =>
      if p_time p <? rc_at c then Some (p, budget, false)
      else
        let len := Z.to_nat (Z.max (rc_group c) 1) in
        if (budget <? len)%nat then Some (p, budget, true)
        else
          let cmds := rg_cmds (p_rings p) in
          p ← apply_cmds (take len cmds) (set_cmds (drop len cmds) p);
          apply_due_fuel fuel (budget - len) p
  | _, _ => Some (p, budget, false)
  end.

Definition apply_due (budget : nat) (p : Processor) : option (Processor * nat * bool) :=
  apply_due_fuel (length (rg_cmds (p_rings p))) budget p.

(** ** The processor at a state ([Processor::with_hil]) *)

Definition safety (sr : f64) : Mga := Mga_new sr (mkSliders f64_0 (f64_lit 50 0) (f64_lit 100 0) f64_0).

Definition input_new (sr : f64) (s : InputState) : InputRt :=
  let q := input_params s in
  mkInputRt Stereo_new (Ramp_new (ip_trim q) (samples GAIN_MS sr))
    (Ramp_new (if ip_processing q then f64_1 else f64_0) (samples EQ_MS sr)) (Equalizer_new 2 (eq_params (i_eq s)) sr)
    (Ramp_new (gate (ip_muted q)) (samples MUTE_MS sr)) Trips_default (PeakMeter_new 2).

Definition shadow_new (sr : f64) (out : MixOut) : ShadowRt :=
  mkShadowRt Stereo_new (Equalizer_new 2 (eq_params (o_eq out)) sr)
    (ml_new sr (l_enabled (o_limiter out)) (l_limit_db (o_limiter out)) 0)
    (StereoGain_new sr (db_to_lin (o_volume_db out)) (o_muted out) f64_0) Trips_default (PeakMeter_new 2).

Definition group_new (sr : f64) (g : MixGroup) : GroupRt :=
  mkGroupRt (Equalizer_new 2 (eq_params (g_eq g)) sr) (StereoGain_new sr (db_to_lin (g_gain_db g)) (g_muted g) f64_0)
    Trips_default (PeakMeter_new 2).

Definition mix_new (topo : Topology) (sr : f64) (counters : list Z) (m : nat) (rec : MixRec) : MixRt :=
  let out := r_out rec in
  mkMixRt Stereo_new Stereo_new
    (n ← t_mixes topo !! m; if mn_shadow n then Some (shadow_new sr out) else None)
    ((fun l => StereoGain_new sr (db_to_lin (lv_gain_db l)) (lv_muted l) (lv_pan l)) <$> r_levels rec)
    (group_new sr <$> r_groups rec)
    (Equalizer_new 2 (eq_params (o_eq out)) sr)
    (ml_new sr (l_enabled (o_limiter out)) (l_limit_db (o_limiter out)) (or_default 0 (counters !! m)))
    (StereoGain_new sr (db_to_lin (o_volume_db out)) (o_muted out) f64_0)
    (safety sr) f64_1 Trips_default (PeakMeter_new 2).

Definition frame_new (topo : Topology) (hil : nat) : MeterFrame :=
  let zero2 := (f64_0, f64_0) in
  let mixes := length (t_mixes topo) in
  mkMeterFrame 0 (replicate (length (t_inputs topo)) zero2) (replicate mixes zero2)
    (replicate (mixes * length (t_groups topo)) zero2) (replicate mixes f64_0) (replicate mixes 0) 0 (replicate hil f64_0)
    (if existsb mn_shadow (t_mixes topo) then replicate mixes zero2 else []).

Definition with_hil_rt (topo : Topology) (state : MixState) (counters : list Z) (opts : Options) (hil hil_rx : nat) : Processor :=
  let hil := Nat.min hil MAX_HIL in
  let sr := f64_of_u32 SAMPLE_RATE in
  let r := (reconcile_topo topo state).1 in
  let fade_in := if f64_ltb f64_0 (op_fade_in_ms opts) then samples (op_fade_in_ms opts) sr else 0 in
  mkProcessor topo sr (input_new sr <$> r_inputs r) (imap (mix_new topo sr counters) (r_mixes r))
    (fst <$> list_find (fun n => in_talkback n = true) (t_inputs topo))
    (mkRings [] [] [[]; []] [[]; []]) (frame_new topo hil) false
    (Ramp_new f64_0 (samples MUTE_MS sr)) [None; None] (Limiter_new sr f64_0) None
    (replicate hil (PeakMeter_new 1)) hil_rx LatencyProbe_new
    (mkOutput (if op_hold opts then Ramp_new f64_0 1 else rise fade_in) fade_in (negb (op_hold opts)) false)
    (mkClock 0 0 0 0) (mkRtCounters false 0 0 0 0 0).

Definition Processor_new (topo : Topology) (state : MixState) (counters : list Z) (opts : Options) : Processor :=
  with_hil_rt topo state counters opts 0 0.
End commands.
