(* ===== verification/Render.v ===== *)
(** * The RT processor: rendering a block ([iem-engine/src/rt/render.rs],
    [rt.rs]: [render], [publish_meters], [process]; [probe.rs])

    A block is cut into segments at the commands' times and the test signal's
    end.  A block's channels are functions from an index to the samples there
    (what the driver's [Block::input] and [Block::output] give).  Scratch
    buffers a segment writes before it reads them are local. *)

From S2P Require Import Prelude F64 Text MixState Msg Shape Topology TopologyWf Reconciled Rt Core Wire Control Dsp Mga Processor.
From Stdlib Require Import SpecFloat.
From stdpp Require Import options.
Local Open Scope Z_scope.

(** ** Blocks and slices *)

Record Block := mkBlock { bk_frames : nat; bk_in : nat -> list f64; bk_out : nat -> list f64 }.

(** [slice.get(off..off + n)] *)
Definition slice (off n : nat) (l : list f64) : option (list f64) :=
  if (off + n <=? length l)%nat then Some (take n (drop off l)) else None.

(** Element by element over the shorter. *)
Definition copy (dst src : list f64) : list f64 := zip_with (fun _ s => s) dst src ++ drop (length src) dst.

Definition write_slice (off : nat) (new l : list f64) : list f64 :=
  take off l ++ new ++ drop (off + length new) l.

(** Output [ch] rewritten between [off] and [off + n], if it is that long. *)
Definition on_output (ch off n : nat) (f : list f64 -> list f64) (b : Block) : Block :=
  match slice off n (bk_out b ch) with
  | None => b
  | Some old =>
      mkBlock (bk_frames b) (bk_in b)
        (fun c => if (c =? ch)%nat then write_slice off (f old) (bk_out b ch) else bk_out b c)
  end.

(** ** Gains *)

Definition scale (x : list f64) (g : f64) : list f64 :=
  if f64_eqb g f64_0 then silence x
  else if negb (f64_eqb g f64_1) then (fun v => (v * g)%F) <$> x
  else x.

Fixpoint ramp_walk (ramp : Ramp) (l r : list f64) : Ramp * Stereo :=
  match l, r with
  | a :: l, b :: r =>
      let ramp := ramp_tick ramp in
      let g := ra_value ramp in
      let '(ramp, (l, r)) := ramp_walk ramp l r in
      (ramp, ((a * g)%F :: l, (b * g)%F :: r))
  | l, r => (ramp, (l, r))
  end.

Definition ramp_gain (ramp : Ramp) (s : Stereo) : Ramp * Stereo :=
  if negb (is_moving ramp)
  then (ramp, (scale s.1 (ra_value ramp), scale s.2 (ra_value ramp)))
  else ramp_walk ramp s.1 s.2.

Fixpoint stereo_walk (g : StereoGain) (l r : list f64) : StereoGain * Stereo :=
  match l, r with
  | a :: l, b :: r =>
      let '(g, (gl, gr)) := sg_tick g in
      let '(g, (l, r)) := stereo_walk g l r in
      (g, ((a * gl)%F :: l, (b * gr)%F :: r))
  | l, r => (g, (l, r))
  end.

Definition stereo_gain (g : StereoGain) (s : Stereo) : StereoGain * Stereo :=
  match sg_steady g with
  | Some (gl, gr) => (g, (scale s.1 gl, scale s.2 gr))
  | None => stereo_walk g s.1 s.2
  end.

(** Element by element over the shorter; the rest of the first stays. *)
Definition zip_into (f : f64 -> f64 -> f64) (dst src : list f64) : list f64 :=
  zip_with f dst src ++ drop (length src) dst.

Fixpoint accumulate_walk (g : StereoGain) (src dst : list (f64 * f64)) : StereoGain * list (f64 * f64) :=
  match src, dst with
  | (x, y) :: src, (a, b) :: dst =>
      let '(g, (gl, gr)) := sg_tick g in
      let '(g, dst) := accumulate_walk g src dst in
      (g, ((a + gl * x)%F, (b + gr * y)%F) :: dst)
  | _, dst => (g, dst)
  end.

(** Adds a level. *)
Definition accumulate (g : StereoGain) (src dst : Stereo) : StereoGain * Stereo :=
  match sg_steady g with
  | Some (gl, gr) =>
      let add gain d s := if negb (f64_eqb gain f64_0) then zip_into (fun d s => (d + gain * s)%F) d s else d in
      (g, (add gl dst.1 src.1, add gr dst.2 src.2))
  | None =>
      let '(g, out) := accumulate_walk g (zip src.1 src.2) (zip dst.1 dst.2) in
      (g, (out.*1, out.*2))
  end.

Fixpoint ml_walk `{Libm, RtMath} (m : MixLimiter) (l r : list f64) : MixLimiter * Stereo :=
  match l, r with
  | a :: l, b :: r =>
      let raise := ramp_tick (ml_raise m) in
      let '(lim, (a, b)) := lim_frame (set_limit_db (ra_value raise) (ml_lim m)) a b in
      let '(m, (l, r)) := ml_walk (mkMixLimiter lim raise (ml_base m)) l r in
      (m, (a :: l, b :: r))
  | l, r => (m, (l, r))
  end.

Definition ml_process `{Libm, RtMath} (m : MixLimiter) (s : Stereo) : MixLimiter * Stereo :=
  if negb (is_moving (ml_raise m))
  then let '(lim, out) := lim_process (ml_lim m) s.1 s.2 in (mkMixLimiter lim (ml_raise m) (ml_base m), out)
  else ml_walk m s.1 s.2.

(** ** Sanitised nodes *)

(** A node's stereo signal through its trip counter. *)
Definition check2 (count : Z) (s : Stereo) : Z * bool * Stereo :=
  match check count [s.1; s.2] with
  | (count, tripped, [l; r]) => (count, tripped, (l, r))
  | (count, tripped, _) => (count, tripped, s)
  end.

Definition observe2 (peaks : list f64) (s : Stereo) : list f64 := observe peaks [s.1; s.2].

Definition eq_through `{Libm, RtMath} (e : Equalizer) (s : Stereo) : Equalizer * Stereo :=
  if is_identity e then (e, s) else eq_process e s.1 s.2.

(** ** A mix's own sum, and its shadow *)

(** The inputs [is] at their levels, added to [acc]. *)
Fixpoint sum_inputs (n : nat) (inputs : list InputRt) (is_ : list nat) (levels : list StereoGain) (acc : Stereo)
    : list StereoGain * Stereo :=
  match is_ with
  | [] => (levels, acc)
  | i :: is_ =>
      match inputs !! i, levels !! i with
      | Some input, Some g =>
          let '(g, acc) := accumulate g (st_get n (ir_p input)) acc in
          sum_inputs n inputs is_ (<[i := g]> levels) acc
      | _, _ => sum_inputs n inputs is_ levels acc
      end
  end.

Definition quiet_block (n : nat) : Stereo := (replicate n f64_0, replicate n f64_0).

Section render.
Context `{Libm, RtMath}.

(** Each group's strip, added to [acc]; how many tripped. *)
Fixpoint sum_groups (n : nat) (inputs : list InputRt) (specs : list GroupNode) (strips : list GroupRt)
    (levels : list StereoGain) (acc : Stereo) : list GroupRt * list StereoGain * Stereo * Z :=
  match specs, strips with
  | spec :: specs, strip :: strips =>
      let '(levels, buf) := sum_inputs n inputs (gn_inputs spec) levels (quiet_block n) in
      let '(eq, buf) := eq_through (gr_eq strip) buf in
      let '(fader, buf) := stereo_gain (gr_fader strip) buf in
      let '(count, tripped, buf) := check2 (gr_trips strip) buf in
      let eq := if tripped : bool then eq_reset eq else eq in
      let strip := mkGroupRt eq fader count (observe2 (gr_peak strip) buf) in
      let acc := (zip_into f64_add acc.1 buf.1, zip_into f64_add acc.2 buf.2) in
      let '(strips, levels, acc, trips) := sum_groups n inputs specs strips levels acc in
      (strip :: strips, levels, acc, (if tripped then 1 else 0) + trips)
  | _, strips => (strips, levels, acc, 0)
  end.

Definition own_sum (topo : Topology) (inputs : list InputRt) (n : nat) (m : MixRt) : MixRt * Z :=
  let '(levels, acc) := sum_inputs n inputs (t_direct topo) (mr_levels m) (quiet_block n) in
  let '(groups, levels, acc, trips) := sum_groups n inputs (t_groups topo) (mr_groups m) levels acc in
  (mkMixRt (mr_sum m) (st_put acc (mr_own m)) (mr_shadow m) levels groups (mr_eq m) (mr_limiter m) (mr_fader m) (mr_safety m)
     (mr_cap m) (mr_trips m) (mr_peak m),
   trips).

Definition ml_reset (m : MixLimiter) : MixLimiter := mkMixLimiter (lim_reset (ml_lim m)) (ml_raise m) (ml_base m).

Definition render_shadow (s : ShadowRt) (own : Stereo) (n : nat) : ShadowRt * bool :=
  let '(eq, x) := eq_through (sh_eq s) (st_get n own) in
  let '(limiter, x) := ml_process (sh_limiter s) x in
  let '(fader, x) := stereo_gain (sh_fader s) x in
  let '(count, tripped, x) := check2 (sh_trips s) x in
  (mkShadowRt (st_put x (sh_out s)) (if tripped then eq_reset eq else eq) (if tripped then ml_reset limiter else limiter) fader
     count (observe2 (sh_peak s) x),
   tripped).

(** The first loop over the mixes: own sums and shadows. *)
Fixpoint render_owns (topo : Topology) (inputs : list InputRt) (n : nat) (mixes : list MixRt) : list MixRt * Z :=
  match mixes with
  | [] => ([], 0)
  | m :: mixes =>
      let '(m, trips) := own_sum topo inputs n m in
      let '(m, more) :=
        match mr_shadow m with
        | None => (m, 0)
        | Some s =>
            let '(s, tripped) := render_shadow s (mr_own m) n in
            (mkMixRt (mr_sum m) (mr_own m) (Some s) (mr_levels m) (mr_groups m) (mr_eq m) (mr_limiter m) (mr_fader m) (mr_safety m)
               (mr_cap m) (mr_trips m) (mr_peak m), if tripped : bool then 1 else 0)
        end in
      let '(mixes, rest) := render_owns topo inputs n mixes in
      (m :: mixes, trips + more + rest)
  end.

(** The signals of other mixes from level slot [k] on, added to [acc]; mix [at]
    reads nothing of itself. *)
Fixpoint sum_mixes (signal : MixRt -> Stereo) (n at_ : nat) (mixes : list MixRt) (sources : list nat) (k : nat)
    (levels : list StereoGain) (acc : Stereo) : list StereoGain * Stereo :=
  match sources with
  | [] => (levels, acc)
  | s :: sources =>
      match (if (s =? at_)%nat then None else mixes !! s), levels !! k with
      | Some src, Some g =>
          let '(g, acc) := accumulate g (st_get n (signal src)) acc in
          sum_mixes signal n at_ mixes sources (S k) (<[k := g]> levels) acc
      | _, _ => sum_mixes signal n at_ mixes sources (S k) levels acc
      end
  end.

(** What a mix's peers read of it: its shadow's output, or its own. *)
Definition own_out (m : MixRt) : Stereo := match mr_shadow m with Some s => sh_out s | None => mr_sum m end.

(** The safety stage, the clamp and the fade. *)
Fixpoint tx_walk (mono : bool) (cap : f64) (safety : Mga) (l r fade : list f64) : Mga * Stereo :=
  match l, r, fade with
  | x :: l, y :: r, f :: fade =>
      let '(il, ir) := if mono then (((x + y) * f64_half)%F, f64_0) else (x, y) in
      let '(safety, (yl, yr)) := mga_tick safety il ir in
      let '(safety, (tl, tr)) := tx_walk mono cap safety l r fade in
      (safety, ((f64_clamp yl (- cap)%F cap * f)%F :: tl, (f64_clamp yr (- cap)%F cap * f)%F :: tr))
  | _, _, _ => (safety, ([], []))
  end.

(** ** Taps *)

(** Interleaved, as f32, or silent. *)
Definition tap_samples (silent : bool) (s : Stereo) : list f64 :=
  concat ((fun '(a, b) => if silent then [f64_0; f64_0] else [f64_as_f32 a; f64_as_f32 b]) <$> zip s.1 s.2).

Definition probe_samples (sine fade : list f64) : list f64 :=
  concat ((fun '(s, f) => let y := f64_as_f32 (f64_clamp s (- TEST_CAP)%F TEST_CAP * f)%F in [y; y]) <$> zip sine fade).

(** A push of [new] to ring [slot]; one overrun when some did not fit. *)
Definition push_ring (slot : nat) (new : list f64) (rings : list (list f64)) : list (list f64) * Z :=
  match rings !! slot with
  | Some ring => let '(ring, over) := push_partial TAP_RING ring new in (<[slot := ring]> rings, if over : bool then 1 else 0)
  | None => (rings, 0)
  end.

(** What the mixes leave: the mixes, the rings, the listen limiter, the
    overruns, the trips and the block. *)
Record Mixed := mkMixed {
  mx_mixes : list MixRt;
  mx_taps : list (list f64);
  mx_probes : list (list f64);
  mx_listen_lim : MgaLimiter;
  mx_overruns : Z;
  mx_trips : Z;
  mx_block : Block;
}.

(** The test signal as the mixes see it. *)
Definition hil (t : option TestRt) : bool := match t with Some t => bool_decide (is_Some (te_mask t)) | None => false end.
Definition probing (t : option TestRt) : bool :=
  match t with Some t => bool_decide (is_Some (te_mask t)) && te_listen t | None => false end.

(** A listen slot's tap, with the probe beside it. *)
Definition push_listen (slot : nat) (x : Stereo) (t : option TestRt) (sine fade : list f64) (s : Mixed) : Mixed :=
  let '(taps, over) := push_ring slot (tap_samples (hil t) x) (mx_taps s) in
  let '(probes, over') := if probing t then push_ring slot (probe_samples sine fade) (mx_probes s) else (mx_probes s, 0) in
  mkMixed (mx_mixes s) taps probes (mx_listen_lim s) (mx_overruns s + over + over') (mx_trips s) (mx_block s).

(** One TX channel of a mix. *)
Definition put_tx (silent : bool) (off n : nat) (ch : option nat) (src : list f64) (b : Block) : Block :=
  match ch with
  | None => b
  | Some ch => on_output ch off n (fun old => if silent then silence old else copy old src) b
  end.

(** Mix [m] of the render order. *)
Definition render_mix (topo : Topology) (listen : list (option nat)) (t : option TestRt) (sine fade : list f64) (off n m : nat)
    (s : Mixed) : Mixed :=
  match t_mixes topo !! m, mx_mixes s !! m with
  | Some spec, Some mix =>
      let heard := length (t_inputs topo) in
      let '(levels, x) := sum_mixes mr_sum n m (mx_mixes s) (mn_mixes spec) heard (mr_levels mix) (st_get n (mr_own mix)) in
      let '(levels, x) := sum_mixes own_out n m (mx_mixes s) (mn_peers spec) (heard + length (mn_mixes spec)) levels x in
      let '(eq, x) := eq_through (mr_eq mix) x in
      let '(limiter, x) := ml_process (mr_limiter mix) x in
      let s := if bool_decide (listen !! 0%nat = Some (Some m)) then push_listen 0 x t sine fade s else s in
      let '(fader, x) := stereo_gain (mr_fader mix) x in
      let '(count, tripped, x) := check2 (mr_trips mix) x in
      let eq := if tripped : bool then eq_reset eq else eq in
      let limiter := if tripped then ml_reset limiter else limiter in
      let peak := observe2 (mr_peak mix) x in
      let s :=
        if bool_decide (listen !! 1%nat = Some (Some m)) then
          let '(lim, y) := lim_process (mx_listen_lim s) x.1 x.2 in
          push_listen 1 y t sine fade
            (mkMixed (mx_mixes s) (mx_taps s) (mx_probes s) lim (mx_overruns s) (mx_trips s) (mx_block s))
        else s in
      let '(safety, (tl, tr)) := tx_walk (mn_mono spec) (mr_cap mix) (mr_safety mix) x.1 x.2 fade in
      let mix := mkMixRt (st_put x (mr_sum mix)) (mr_own mix) (mr_shadow mix) levels (mr_groups mix) eq limiter fader safety
                   (mr_cap mix) count peak in
      mkMixed (<[m := mix]> (mx_mixes s)) (mx_taps s) (mx_probes s) (mx_listen_lim s) (mx_overruns s)
        (mx_trips s + if tripped then 1 else 0)
        (put_tx (hil t) off n (mn_tx spec).2 tr (put_tx (hil t) off n (mn_tx spec).1 tl (mx_block s)))
  | _, _ => s
  end.

Definition add_trips (n : Z) (p : Processor) : Processor :=
  let c := p_clock p in
  let s := p_status p in
  set_status (mkRtCounters (rc_faded_out s) (u64_wrapping_add (rc_trips s) n) (rc_tap_overruns s) (rc_talkback_underruns s)
                (rc_deferred s) (rc_loopback_samples s))
    (set_clock_rt (mkClock (ck_time c) (ck_since_meter c) (ck_seq c) (u64_wrapping_add (ck_trips c) n)) p).

Definition add_overruns (n : Z) (p : Processor) : Processor :=
  let s := p_status p in
  set_status (mkRtCounters (rc_faded_out s) (rc_trips s) (u64_wrapping_add (rc_tap_overruns s) n) (rc_talkback_underruns s)
                (rc_deferred s) (rc_loopback_samples s)) p.

Definition render_mixes (sine fade : list f64) (off n : nat) (p : Processor) (b : Block) : Processor * Block :=
  let topo := p_topo p in
  let '(mixes, trips) := render_owns topo (p_inputs p) n (p_mixes p) in
  let r := p_rings p in
  let s := foldl (fun s m => render_mix topo (p_listen p) (p_test p) sine fade off n m s)
             (mkMixed mixes (rg_taps r) (rg_probes r) (p_listen_lim p) 0 trips b) (t_order topo) in
  let p := set_listen (p_listen p) (mx_listen_lim s)
             (set_rings (mkRings (rg_cmds r) (rg_talk r) (mx_taps s) (mx_probes s)) (set_mixes (mx_mixes s) p)) in
  let p := add_overruns (mx_overruns s) p in
  (if 0 <? mx_trips s then add_trips (mx_trips s) p else p, mx_block s).

(** ** Inputs *)

Fixpoint gate_walk (gate : Ramp) (xs : list f64) : Ramp * list f64 :=
  match xs with
  | [] => (gate, [])
  | x :: xs =>
      let gate := ramp_tick gate in
      let y := (x * (TALKBACK_GAIN * ra_value gate))%F in
      let '(gate, ys) := gate_walk gate xs in
      (gate, y :: ys)
  end.

(** Up to [n] talkback samples; the gate closes on underrun. *)
Definition read_talkback (n : nat) (p : Processor) : Processor * list f64 :=
  let r := p_rings p in
  let raw := take n (rg_talk r) in
  let got := length raw in
  let p := set_rings (mkRings (rg_cmds r) (drop n (rg_talk r)) (rg_taps r) (rg_probes r)) p in
  let under := (got <? n)%nat in
  let gate := ramp_set (if under then f64_0 else f64_1) (p_talk_gate p) in
  let s := p_status p in
  let p :=
    if under && (0 <? got)%nat
    then set_status (mkRtCounters (rc_faded_out s) (rc_trips s) (rc_tap_overruns s) (u64_wrapping_add (rc_talkback_underruns s) 1)
                       (rc_deferred s) (rc_loopback_samples s)) p
    else p in
  let '(gate, buf) := gate_walk gate (raw ++ replicate (n - got) f64_0) in
  (set_talk_gate gate p, buf).

(** The crossfade between wet [x] and dry [d]. *)
Fixpoint cross_walk (mix : Ramp) (l r dl dr : list f64) : Ramp * Stereo :=
  match l, r, dl, dr with
  | a :: l, b :: r, x :: dl, y :: dr =>
      let mix := ramp_tick mix in
      let m := ra_value mix in
      let '(mix, (l, r)) := cross_walk mix l r dl dr in
      if negb (f64_eqb m f64_1)
      then (mix, ((x + m * (a - x))%F :: l, (y + m * (b - y))%F :: r))
      else (mix, (a :: l, b :: r))
  | l, r, _, _ => (mix, (l, r))
  end.

(** A card channel's segment, silent where there is none. *)
Definition card_in (b : Block) (ch off n : nat) (old : list f64) : list f64 :=
  match slice off n (bk_in b ch) with Some src => copy old src | None => silence old end.

(** The processed part of an input: trim and EQ, crossfaded with the dry signal. *)
Definition input_process (node : InputRt) (x : Stereo) : InputRt * Stereo :=
  let mix := ir_proc_mix node in
  if negb (is_moving mix) && f64_eqb (ra_value mix) f64_0 then (node, x)
  else
    let dry := x in
    let '(trim, x) := ramp_gain (ir_trim node) x in
    let '(eq, x) := eq_through (ir_eq node) x in
    let '(mix, x) := if is_moving mix then cross_walk mix x.1 x.2 dry.1 dry.2 else (mix, x) in
    (mkInputRt (ir_p node) trim mix eq (ir_gate node) (ir_trips node) (ir_peak node), x).

(** Input [i]; whether it tripped. *)
Definition render_input (b : Block) (off n : nat) (t : option TestRt) (sine talk : list f64) (talkback : option nat) (i : nat)
    (spec : InputNode) (node : InputRt) : InputRt * bool :=
  let p := st_get n (ir_p node) in
  let x := (card_in b (in_rx spec).1 off n p.1, card_in b (in_rx spec).2 off n p.2) in
  let '(count, tripped, x) := check2 (ir_trips node) x in
  let eq := if tripped : bool then eq_reset (ir_eq node) else ir_eq node in
  let x := if bool_decide (te_input <$> t = Some i) then (copy x.1 sine, copy x.2 sine) else x in
  let node := mkInputRt (ir_p node) (ir_trim node) (ir_proc_mix node) eq (ir_gate node) count (ir_peak node) in
  let '(node, x) := input_process node x in
  let x := if bool_decide (talkback = Some i) then (zip_into f64_add x.1 talk, zip_into f64_add x.2 talk) else x in
  let '(gate, x) := ramp_gain (ir_gate node) x in
  let '(count, again, x) := check2 (ir_trips node) x in
  (mkInputRt (st_put x (ir_p node)) (ir_trim node) (ir_proc_mix node)
     (if again then eq_reset (ir_eq node) else ir_eq node) gate count (observe2 (ir_peak node) x),
   tripped || again).

Fixpoint render_nodes (b : Block) (off n : nat) (t : option TestRt) (sine talk : list f64) (talkback : option nat) (i : nat)
    (specs : list InputNode) (nodes : list InputRt) : list InputRt * Z :=
  match specs, nodes with
  | spec :: specs, node :: nodes =>
      let '(node, tripped) := render_input b off n t sine talk talkback i spec node in
      let '(nodes, trips) := render_nodes b off n t sine talk talkback (S i) specs nodes in
      (node :: nodes, (if tripped : bool then 1 else 0) + trips)
  | _, nodes => (nodes, 0)
  end.

Definition render_inputs (sine : list f64) (off n : nat) (p : Processor) (b : Block) : Processor :=
  let '(p, talk) := if bool_decide (is_Some (p_talkback_input p)) then read_talkback n p else (p, []) in
  let '(nodes, trips) := render_nodes b off n (p_test p) sine talk (p_talkback_input p) 0 (t_inputs (p_topo p)) (p_inputs p) in
  add_trips trips (set_inputs nodes p).

(** ** HIL's spare outputs and the loopback *)

(** Spare output [k], after the topology's TX. *)
Definition render_spare (first : nat) (mask : option HilMask) (sine fade : list f64) (off n k : nat) (peak : list f64) (b : Block)
    : list f64 * Block :=
  let sounds := match mask with Some m => or_default false (m !! k) | None => false end in
  match slice off n (bk_out b (first + k)) with
  | None => (peak, b)
  | Some old =>
      let out := if sounds
                 then zip_with (fun s f => (f64_clamp s (- TEST_CAP)%F TEST_CAP * f)%F) sine fade
                      ++ drop (length (zip sine fade)) old
                 else silence old in
      (observe peak [out], on_output (first + k) off n (fun _ => out) b)
  end.

Fixpoint render_spares (first : nat) (mask : option HilMask) (sine fade : list f64) (off n k : nat) (peaks : list (list f64))
    (b : Block) : list (list f64) * Block :=
  match peaks with
  | [] => ([], b)
  | peak :: peaks =>
      let '(peak, b) := render_spare first mask sine fade off n k peak b in
      let '(peaks, b) := render_spares first mask sine fade off n (S k) peaks b in
      (peak :: peaks, b)
  end.

Definition render_hil (sine fade : list f64) (off n : nat) (p : Processor) (b : Block) : Processor * Block :=
  let '(peaks, b) := render_spares (length (t_tx (p_topo p))) (p_test p ≫= te_mask) sine fade off n 0 (p_hil_peaks p) b in
  (set_hil_meters peaks p, b).

(** The first loud sample of a spare output, over all of them. *)
Definition first_emit (first spares off n : nat) (b : Block) : option nat :=
  foldl (fun emit k =>
    match slice off n (bk_out b (first + k)) ≫= (fun seg => fst <$> list_find (fun y => f64_leb ONSET (f64_abs y) = true) seg) with
    | Some i => Some (match emit with Some e => Nat.min e i | None => i end)
    | None => emit
    end) None (seq 0 spares).

Definition probe_latency (off n : nat) (p : Processor) (b : Block) : Processor :=
  if (p_hil_rx p =? 0)%nat then p
  else
    let probe := match first_emit (length (t_tx (p_topo p))) (length (p_hil_peaks p)) off n b with
                 | Some i => emitted (u64_saturating_add (p_time p) (Z.of_nat i)) (p_latency p)
                 | None => p_latency p
                 end in
    let probe := foldl (fun probe j => match slice off n (bk_in b (length (t_rx (p_topo p)) + j)) with
                                       | Some seg => feed seg (p_time p) 0 probe
                                       | None => probe
                                       end) probe (seq 0 (p_hil_rx p)) in
    let p := set_latency probe p in
    match round_trip probe with Some n => set_loopback n p | None => p end.

(** ** A segment *)

(** The next [n] samples of the test signal's sine. *)
Fixpoint test_render (n : nat) (t : TestRt) : TestRt * list f64 :=
  match n with
  | O => (t, [])
  | S n =>
      let '(rest, fade) := if te_left t =? 0 then (0, ramp_set f64_0 (te_fade t)) else (te_left t - 1, te_fade t) in
      let fade := ramp_tick fade in
      let y := (te_amp t * ra_value fade * f64_sin (TAU * te_phase t))%F in
      let t := mkTestRt (te_input t) (f64_fract (te_phase t + te_inc t)%F) (te_inc t) (te_amp t) rest fade (te_end t) (te_mask t)
                 (te_listen t) in
      let '(t, ys) := test_render n t in
      (t, y :: ys)
  end.

Fixpoint fade_walk (n : nat) (fade : Ramp) : Ramp * list f64 :=
  match n with
  | O => (fade, [])
  | S n =>
      let fade := ramp_tick fade in
      let y := ra_value fade in
      let '(fade, ys) := fade_walk n fade in
      (fade, y :: ys)
  end.

Definition end_test (p : Processor) : Processor :=
  match p_test p with
  | Some t => if te_end t <=? p_time p then set_caps false (set_test_rt None p) else p
  | None => p
  end.

Definition note_faded (p : Processor) : Processor :=
  if ou_fading_out (p_output p) && negb (is_moving (ou_fade (p_output p)))
  then
    let s := p_status p in
    set_status (mkRtCounters true (rc_trips s) (rc_tap_overruns s) (rc_talkback_underruns s) (rc_deferred s) (rc_loopback_samples s)) p
  else p.

Definition render (off n : nat) (p : Processor) (b : Block) : Processor * Block :=
  let p := end_test p in
  let '(fade, fades) := fade_walk n (ou_fade (p_output p)) in
  let p := set_fade fade p in
  let '(p, sine) :=
    match p_test p with
    | Some t => let '(t, sine) := test_render n t in (set_test_rt (Some t) p, sine)
    | None => (p, [])
    end in
  let p := render_inputs sine off n p b in
  let '(p, b) := render_mixes sine fades off n p b in
  let '(p, b) := render_hil sine fades off n p b in
  let p := probe_latency off n p b in
  (note_faded p, b).

(** ** Meters *)

Definition peak2 (peaks : list f64) : f64 * f64 :=
  (or_default f64_0 (peaks !! 0%nat), or_default f64_0 (peaks !! 1%nat)).
Definition peak1 (peaks : list f64) : f64 := or_default f64_0 (peaks !! 0%nat).

(** Values over the old ones, as far as both go. *)
Definition over {A : Type} (old new : list A) : list A := zip_with (fun _ x => x) old new ++ drop (length new) old.

Definition clear_mix (m : MixRt) : MixRt :=
  mkMixRt (mr_sum m) (mr_own m)
    ((fun s => mkShadowRt (sh_out s) (sh_eq s) (sh_limiter s) (sh_fader s) (sh_trips s) (take_peaks (sh_peak s)).2) <$> mr_shadow m)
    (mr_levels m)
    ((fun s => mkGroupRt (gr_eq s) (gr_fader s) (gr_trips s) (take_peaks (gr_peak s)).2) <$> mr_groups m)
    (mr_eq m) (mr_limiter m) (mr_fader m) (mr_safety m) (mr_cap m) (mr_trips m) (take_peaks (mr_peak m)).2.

Definition meter_frame (p : Processor) (f : MeterFrame) : MeterFrame :=
  let mixes := p_mixes p in
  let peaks := (fun m => peak2 (mr_peak m)) <$> mixes in
  let f_mixes := over (mf_mixes f) peaks in
  mkMeterFrame (u64_wrapping_add (ck_seq (p_clock p)) 1)
    (over (mf_inputs f) ((fun n => peak2 (ir_peak n)) <$> p_inputs p))
    f_mixes
    (over (mf_groups f) (concat ((fun m => (fun s => peak2 (gr_peak s)) <$> mr_groups m) <$> mixes)))
    (over (mf_gr_db f) ((fun m => gr_db (ml_lim (mr_limiter m))) <$> mixes))
    (over (mf_active f) ((fun m => ml_active (mr_limiter m)) <$> mixes))
    (ck_trips (p_clock p))
    (over (mf_hil f) (peak1 <$> p_hil_peaks p))
    (over (mf_own f)
       (zip_with (fun d m => match mr_shadow m with Some s => peak2 (sh_peak s) | None => d end) f_mixes mixes)).

Definition publish_meters (p : Processor) : Processor :=
  let f := meter_frame p (p_meters p) in
  let c := p_clock p in
  set_meters f
    (set_hil_meters ((fun pk => (take_peaks pk).2) <$> p_hil_peaks p)
       (set_mixes (clear_mix <$> p_mixes p)
          (set_inputs ((fun n => mkInputRt (ir_p n) (ir_trim n) (ir_proc_mix n) (ir_eq n) (ir_gate n) (ir_trips n)
                                   (take_peaks (ir_peak n)).2) <$> p_inputs p)
             (set_clock_rt (mkClock (ck_time c) (ck_since_meter c) (u64_wrapping_add (ck_seq c) 1) (ck_trips c)) p)))).

(** ** A block ([process]) *)

(** A cut at a later time shortens the segment. *)
Definition cut (time at_ : Z) (n : nat) : nat := if time <? at_ then Nat.min n (Z.to_nat (at_ - time)) else n.

(** The length of the segment at [done]. *)
Definition segment (frames done budget : nat) (next : option Z) (test_end : option Z) (time : Z) : nat :=
  let n := Nat.min (frames - done) SEG in
  let n := match next with Some at_ => if (0 <? budget)%nat then cut time at_ n else n | None => n end in
  match test_end with Some at_ => cut time at_ n | None => n end.

Definition advance (n : nat) (p : Processor) : Processor :=
  let c := p_clock p in
  set_clock_rt (mkClock (u64_wrapping_add (ck_time c) (Z.of_nat n)) (ck_since_meter c) (ck_seq c) (ck_trips c)) p.

(** The loop over the segments; [fuel] is the frames left, since a segment has
    at least one.  The commands waiting for the block's budget, if any. *)
Fixpoint process_loop (fuel done budget : nat) (late : bool) (p : Processor) (b : Block) : option (Processor * Block * bool) :=
  match fuel with
  | O => Some (p, b, late)
  | S fuel =>
      if (bk_frames b <=? done)%nat then Some (p, b, late)
      else
        '(p, budget, waits) ← apply_due budget p;
        let next := rc_at <$> head (rg_cmds (p_rings p)) in
        let whole := Nat.min (bk_frames b - done) SEG in
        let spent := (budget =? 0)%nat && match next with Some at_ => at_ <? p_time p + Z.of_nat whole | None => false end in
        let n := segment (bk_frames b) done budget next (te_end <$> p_test p) (p_time p) in
        let '(p, b) := render done n p b in
        process_loop fuel (done + n) budget (late || waits || spent) (advance n p) b
  end.

Definition note_late (late : bool) (p : Processor) : Processor :=
  if late then
    let s := p_status p in
    set_status (mkRtCounters (rc_faded_out s) (rc_trips s) (rc_tap_overruns s) (rc_talkback_underruns s)
                  (u64_wrapping_add (rc_deferred s) 1) (rc_loopback_samples s)) p
  else p.

Definition process (p : Processor) (b : Block) : option (Processor * Block) :=
  '(p, b', late) ← process_loop (bk_frames b) 0 MAX_CMDS_PER_BLOCK false p b;
  let p := note_late late p in
  let c := p_clock p in
  let since := u64_wrapping_add (ck_since_meter c) (Z.of_nat (bk_frames b)) in
  let due := METER_PERIOD <=? since in
  let p := set_clock_rt (mkClock (ck_time c) (if due then since mod METER_PERIOD else since) (ck_seq c) (ck_trips c)) p in
  Some (if due then publish_meters p else p, b').

(** A reopen of the driver. *)
Definition discontinuity (p : Processor) : Processor :=
  if ou_armed (p_output p) then restart_fade p else p.
End render.
