(* ===== verification/RtTargets.v ===== *)
(** * What the RT processor is set to, and that rendering never changes it

    The targets of a processor: every parameter its ramps, filters and limiters
    head for.  [p_targets] is what the control thread's commands set; rendering
    a block moves signals, filter states, peaks and ramps, and leaves every
    target as it was. *)

From S2P Require Import Prelude F64 Text MixState Msg Shape Topology TopologyWf Reconciled Rt Core Wire Control Dsp Mga Processor Render.
From stdpp Require Import options.
Local Open Scope Z_scope.
#[local] Unset Default Proof Using.

(** ** Targets *)

Definition EqT : Type := list DspBand * f64.
Definition GainT : Type := f64 * f64 * f64.

Record InputT := mkInputT { it_trim : f64; it_mix : f64; it_gate : f64; it_eq : EqT }.
Record LimT := mkLimT { lt_enabled : bool; lt_limit : f64 }.
Record GroupT := mkGroupT { gt_eq : EqT; gt_fader : GainT }.
Record OutT := mkOutT { ot_eq : EqT; ot_lim : LimT; ot_fader : GainT }.
Record MixT := mkMixT { mt_out : OutT; mt_shadow : option OutT; mt_levels : list GainT; mt_groups : list GroupT }.
Record ProcT := mkProcT { pt_sr : f64; pt_inputs : list InputT; pt_mixes : list MixT; pt_listen : list (option nat) }.

Definition gain_t (g : StereoGain) : GainT := (ra_target (sg_l g), ra_target (sg_r g), ra_target (sg_on g)).
Definition input_t (n : InputRt) : InputT :=
  mkInputT (ra_target (ir_trim n)) (ra_target (ir_proc_mix n)) (ra_target (ir_gate n)) (eq_targets (ir_eq n)).
Definition lim_t (m : MixLimiter) : LimT := mkLimT (li_enabled (ml_lim m)) (ra_target (ml_raise m)).
Definition group_t (g : GroupRt) : GroupT := mkGroupT (eq_targets (gr_eq g)) (gain_t (gr_fader g)).
Definition shadow_t (s : ShadowRt) : OutT := mkOutT (eq_targets (sh_eq s)) (lim_t (sh_limiter s)) (gain_t (sh_fader s)).
Definition mix_t (m : MixRt) : MixT :=
  mkMixT (mkOutT (eq_targets (mr_eq m)) (lim_t (mr_limiter m)) (gain_t (mr_fader m))) (shadow_t <$> mr_shadow m)
    (gain_t <$> mr_levels m) (group_t <$> mr_groups m).
Definition p_targets (p : Processor) : ProcT :=
  mkProcT (p_sr p) (input_t <$> p_inputs p) (mix_t <$> p_mixes p) (p_listen p).

(** ** Ramps and gains *)

Lemma ramp_tick_target r : ra_target (ramp_tick r) = ra_target r.
Proof. unfold ramp_tick. by case_match. Qed.

Lemma sg_tick_t g : gain_t (sg_tick g).1 = gain_t g.
Proof. unfold gain_t; cbn. by rewrite !ramp_tick_target. Qed.

Lemma ramp_walk_target ramp l r : ra_target (ramp_walk ramp l r).1 = ra_target ramp.
Proof.
  revert ramp r. induction l as [|a l IH]; intros ramp [|b r]; cbn; try done.
  specialize (IH (ramp_tick ramp) r). destruct (ramp_walk _ l r) as [ramp' [l' r']]. cbn in *. by rewrite IH, ramp_tick_target.
Qed.

Lemma ramp_gain_target ramp s : ra_target (ramp_gain ramp s).1 = ra_target ramp.
Proof. unfold ramp_gain. destruct (negb _); [done|apply ramp_walk_target]. Qed.

Lemma stereo_walk_t g l r : gain_t (stereo_walk g l r).1 = gain_t g.
Proof.
  revert g r. induction l as [|a l IH]; intros g [|b r]; cbn [stereo_walk]; try done.
  pose proof (sg_tick_t g) as Ht. destruct (sg_tick g) as [g' [gl gr]]. specialize (IH g' r).
  destruct (stereo_walk g' l r) as [g'' [l' r']]. cbn in *. congruence.
Qed.

Lemma stereo_gain_t g s : gain_t (stereo_gain g s).1 = gain_t g.
Proof. unfold stereo_gain. destruct (sg_steady g) as [[gl gr]|]; [done|apply stereo_walk_t]. Qed.

Lemma accumulate_walk_t g src dst : gain_t (accumulate_walk g src dst).1 = gain_t g.
Proof.
  revert g dst. induction src as [|[x y] src IH]; intros g [|[a b] dst]; cbn [accumulate_walk]; try done.
  pose proof (sg_tick_t g) as Ht. destruct (sg_tick g) as [g' [gl gr]]. specialize (IH g' dst).
  destruct (accumulate_walk g' src dst) as [g'' dst']. cbn in *. congruence.
Qed.

Lemma accumulate_t g src dst : gain_t (accumulate g src dst).1 = gain_t g.
Proof.
  unfold accumulate. destruct (sg_steady g) as [[gl gr]|]; [done|].
  pose proof (accumulate_walk_t g (zip src.1 src.2) (zip dst.1 dst.2)) as Ht. by destruct (accumulate_walk _ _ _).
Qed.

(** ** Filters and limiters *)

Lemma band_tick_target s ch x : bs_target (band_tick s ch x).1 = bs_target s.
Proof.
  unfold band_tick. destruct (f64_eqb _ _); [done|]. destruct (bs_state s !! ch) as [st|]; [|done]. by destruct (coefs_tick _ _ _).
Qed.

Lemma bands_tick_targets bands ch x : bs_target <$> (bands_tick bands ch x).1 = bs_target <$> bands.
Proof.
  revert x. induction bands as [|b bands IH]; intros x; cbn [bands_tick]; [done|].
  pose proof (band_tick_target b ch x) as Hb. destruct (band_tick b ch x) as [b' x']. specialize (IH x').
  destruct (bands_tick bands ch x') as [bands' x'']. cbn in *. by rewrite Hb, IH.
Qed.

Lemma frame_tick_targets bands gain ch xs : bs_target <$> (frame_tick bands gain ch xs).1 = bs_target <$> bands.
Proof.
  revert bands ch. induction xs as [|x xs IH]; intros bands ch; cbn [frame_tick]; [done|].
  pose proof (bands_tick_targets bands ch x) as Hb. destruct (bands_tick bands ch x) as [bands' y]. specialize (IH bands' (S ch)).
  destruct (frame_tick bands' gain (S ch) xs) as [bands'' ys]. cbn in *. congruence.
Qed.

Lemma eq_reset_t e : eq_targets (eq_reset e) = eq_targets e.
Proof. unfold eq_targets; cbn. f_equal. rewrite <-list_fmap_compose. by apply list_fmap_ext. Qed.

Section filters.
Context `{Libm, RtMath}.

Lemma band_advance_target fs s : bs_target (band_advance fs s) = bs_target s.
Proof. unfold band_advance, zero_state, set_coefs, set_wet. by repeat case_match. Qed.

Lemma eq_frame_t e xs : eq_targets (eq_frame e xs).1 = eq_targets e.
Proof.
  unfold eq_frame. pose proof (frame_tick_targets (band_advance (eq_sample_rate e) <$> eq_bands e)
    (ra_value (ramp_tick (eq_global e))) 0 xs) as Ht.
  destruct (frame_tick _ _ _ _) as [bands ys]. unfold eq_targets; cbn in *. rewrite Ht, ramp_tick_target. f_equal.
  rewrite <-list_fmap_compose. apply list_fmap_ext. intros i s _. apply band_advance_target.
Qed.

Lemma eq_process_t e l r : eq_targets (eq_process e l r).1 = eq_targets e.
Proof.
  revert e r. induction l as [|x l IH]; intros e [|y r]; cbn [eq_process]; try done.
  pose proof (eq_frame_t e [x; y]) as Hf. destruct (eq_frame e [x; y]) as [e' ys]. specialize (IH e' r).
  destruct (eq_process e' l r) as [e'' [l' r']]. cbn in *. destruct ys as [|a [|b [|]]]; cbn; congruence.
Qed.

Lemma eq_through_t e s : eq_targets (eq_through e s).1 = eq_targets e.
Proof. unfold eq_through. destruct (is_identity e); [done|apply eq_process_t]. Qed.

Lemma lim_frame_enabled l x y : li_enabled (lim_frame l x y).1 = li_enabled l.
Proof. unfold lim_frame. destruct (mga_tick _ _ _) as [mga [yl yr]]. by case_match. Qed.

Lemma lim_process_enabled lim l r : li_enabled (lim_process lim l r).1 = li_enabled lim.
Proof.
  revert lim r. induction l as [|x l IH]; intros lim [|y r]; cbn [lim_process]; try done.
  pose proof (lim_frame_enabled lim x y) as Hf. destruct (lim_frame lim x y) as [lim' [x' y']]. specialize (IH lim' r).
  destruct (lim_process lim' l r) as [lim'' [l' r']]. cbn in *. congruence.
Qed.

Lemma ml_walk_t m l r : lim_t (ml_walk m l r).1 = lim_t m.
Proof.
  revert m r. induction l as [|x l IH]; intros m [|y r]; cbn [ml_walk]; try done.
  pose proof (lim_frame_enabled (set_limit_db (ra_value (ramp_tick (ml_raise m))) (ml_lim m)) x y) as Hf.
  destruct (lim_frame _ x y) as [lim' [x' y']].
  specialize (IH (mkMixLimiter lim' (ramp_tick (ml_raise m)) (ml_base m)) r).
  destruct (ml_walk _ l r) as [m' [l' r']]. unfold lim_t in *; cbn in *. by rewrite IH, Hf, ramp_tick_target.
Qed.

Lemma ml_process_t m s : lim_t (ml_process m s).1 = lim_t m.
Proof.
  unfold ml_process. destruct (negb _); [|apply ml_walk_t].
  pose proof (lim_process_enabled (ml_lim m) s.1 s.2) as Hf. destruct (lim_process _ _ _) as [lim out].
  unfold lim_t; cbn in *. by rewrite Hf.
Qed.
End filters.

Lemma ml_reset_t m : lim_t (ml_reset m) = lim_t m.
Proof. done. Qed.

(** ** Nodes *)

(** A part replaced by one with the same targets. *)
Lemma fmap_insert_same {A B : Type} (f : A -> B) (l : list A) i x y :
  l !! i = Some x -> f y = f x -> f <$> <[i := y]> l = f <$> l.
Proof. intros Hx Hf. rewrite list_fmap_insert, Hf. apply list_insert_id. by rewrite list_lookup_fmap, Hx. Qed.

Lemma sum_inputs_t n inputs is_ levels acc : gain_t <$> (sum_inputs n inputs is_ levels acc).1 = gain_t <$> levels.
Proof.
  revert levels acc. induction is_ as [|i is_ IH]; intros levels acc; cbn [sum_inputs]; [done|].
  destruct (inputs !! i) as [input|]; [|apply IH]. destruct (levels !! i) as [g|] eqn:Hg; [|apply IH].
  pose proof (accumulate_t g (st_get n (ir_p input)) acc) as Ha. destruct (accumulate _ _ _) as [g' acc'].
  rewrite IH. by eapply fmap_insert_same.
Qed.

Lemma sum_mixes_t signal n at_ mixes sources k levels acc :
  gain_t <$> (sum_mixes signal n at_ mixes sources k levels acc).1 = gain_t <$> levels.
Proof.
  revert k levels acc. induction sources as [|s sources IH]; intros k levels acc; cbn [sum_mixes]; [done|].
  destruct (if (s =? at_)%nat then _ else _) as [src|]; [|apply IH]. destruct (levels !! k) as [g|] eqn:Hg; [|apply IH].
  pose proof (accumulate_t g (st_get n (signal src)) acc) as Ha. destruct (accumulate _ _ _) as [g' acc'].
  rewrite IH. by eapply fmap_insert_same.
Qed.

Lemma clear_mix_t m : mix_t (clear_mix m) = mix_t m.
Proof.
  unfold mix_t; cbn. f_equal; [by destruct (mr_shadow m)|]. rewrite <-list_fmap_compose. by apply list_fmap_ext.
Qed.

Section nodes.
Context `{Libm, RtMath}.

Lemma sum_groups_t n inputs specs strips levels acc :
  let '(strips', levels', _, _) := sum_groups n inputs specs strips levels acc in
  group_t <$> strips' = group_t <$> strips /\ gain_t <$> levels' = gain_t <$> levels.
Proof.
  revert strips levels acc. induction specs as [|spec specs IH]; intros [|strip strips] levels acc; cbn [sum_groups]; try done.
  pose proof (sum_inputs_t n inputs (gn_inputs spec) levels (quiet_block n)) as Hl.
  destruct (sum_inputs _ _ _ _ _) as [levels1 buf].
  pose proof (eq_through_t (gr_eq strip) buf) as He. destruct (eq_through _ _) as [eq buf1].
  pose proof (stereo_gain_t (gr_fader strip) buf1) as Hf. destruct (stereo_gain _ _) as [fader buf2].
  destruct (check2 _ _) as [[count tripped] buf3].
  specialize (IH strips levels1 (zip_into f64_add acc.1 buf3.1, zip_into f64_add acc.2 buf3.2)).
  destruct (sum_groups n inputs specs strips levels1 _) as [[[strips' levels'] acc'] trips]. destruct IH as [Hs Hl'].
  cbn in *. split; [|congruence]. f_equal; [|done]. unfold group_t; cbn. f_equal; [|done].
  destruct tripped; rewrite ?eq_reset_t; done.
Qed.

Lemma own_sum_t topo inputs n m : mix_t (own_sum topo inputs n m).1 = mix_t m.
Proof.
  unfold own_sum. pose proof (sum_inputs_t n inputs (t_direct topo) (mr_levels m) (quiet_block n)) as Hl.
  destruct (sum_inputs _ _ _ _ _) as [levels1 acc].
  pose proof (sum_groups_t n inputs (t_groups topo) (mr_groups m) levels1 acc) as Hg.
  destruct (sum_groups _ _ _ _ _ _) as [[[groups levels2] acc2] trips]. destruct Hg as [Hg Hl2].
  unfold mix_t; cbn in *. congruence.
Qed.

Lemma render_shadow_t s own n : shadow_t (render_shadow s own n).1 = shadow_t s.
Proof.
  unfold render_shadow.
  pose proof (eq_through_t (sh_eq s) (st_get n own)) as He. destruct (eq_through _ _) as [eq x].
  pose proof (ml_process_t (sh_limiter s) x) as Hl. destruct (ml_process _ _) as [limiter x1].
  pose proof (stereo_gain_t (sh_fader s) x1) as Hf. destruct (stereo_gain _ _) as [fader x2].
  destruct (check2 _ _) as [[count tripped] x3]. unfold shadow_t; cbn in *.
  destruct tripped; rewrite ?eq_reset_t, ?ml_reset_t; congruence.
Qed.

Lemma render_owns_t topo inputs n mixes : mix_t <$> (render_owns topo inputs n mixes).1 = mix_t <$> mixes.
Proof.
  induction mixes as [|m mixes IH]; cbn [render_owns]; [done|].
  pose proof (own_sum_t topo inputs n m) as Hm. destruct (own_sum topo inputs n m) as [m1 trips].
  assert (Hs : mix_t (match mr_shadow m1 with
    | None => (m1, 0)
    | Some s =>
        let '(s, tripped) := render_shadow s (mr_own m1) n in
        (mkMixRt (mr_sum m1) (mr_own m1) (Some s) (mr_levels m1) (mr_groups m1) (mr_eq m1) (mr_limiter m1) (mr_fader m1) (mr_safety m1)
           (mr_cap m1) (mr_trips m1) (mr_peak m1), if tripped : bool then 1 else 0)
    end).1 = mix_t m1).
  { destruct (mr_shadow m1) as [s|] eqn:Hsh; [|done]. pose proof (render_shadow_t s (mr_own m1) n) as Ht.
    destruct (render_shadow _ _ _) as [s' tripped]. unfold mix_t; cbn in *. by rewrite Hsh; cbn; rewrite Ht. }
  destruct (match mr_shadow m1 with None => _ | Some s => _ end) as [m2 more].
  destruct (render_owns topo inputs n mixes) as [mixes' rest]. cbn in *. congruence.
Qed.

Lemma push_listen_mixes slot x t sine fade s : mx_mixes (push_listen slot x t sine fade s) = mx_mixes s.
Proof. unfold push_listen. destruct (push_ring _ _ _) as [taps over]. by destruct (if probing t then _ else _). Qed.

Lemma render_mix_t topo listen t sine fade off n m s :
  mix_t <$> mx_mixes (render_mix topo listen t sine fade off n m s) = mix_t <$> mx_mixes s.
Proof.
  unfold render_mix. destruct (t_mixes topo !! m) as [spec|]; [|done]. destruct (mx_mixes s !! m) as [mix|] eqn:Hm; [|done].
  pose proof (sum_mixes_t mr_sum n m (mx_mixes s) (mn_mixes spec) (length (t_inputs topo)) (mr_levels mix) (st_get n (mr_own mix))) as Hl1.
  destruct (sum_mixes mr_sum _ _ _ _ _ _ _) as [levels1 x1].
  pose proof (sum_mixes_t own_out n m (mx_mixes s) (mn_peers spec) (length (t_inputs topo) + length (mn_mixes spec)) levels1 x1) as Hl2.
  destruct (sum_mixes own_out _ _ _ _ _ _ _) as [levels2 x2].
  pose proof (eq_through_t (mr_eq mix) x2) as He. destruct (eq_through _ _) as [eq x3].
  pose proof (ml_process_t (mr_limiter mix) x3) as Hl. destruct (ml_process _ _) as [limiter x4].
  set (s1 := if bool_decide _ then push_listen 0 x4 t sine fade s else s).
  assert (Hs1 : mx_mixes s1 = mx_mixes s) by (unfold s1; case_bool_decide; [apply push_listen_mixes|done]). clearbody s1.
  pose proof (stereo_gain_t (mr_fader mix) x4) as Hf. destruct (stereo_gain _ _) as [fader x5].
  destruct (check2 _ _) as [[count tripped] x6].
  match goal with |- context [if bool_decide ?P then ?a else s1] => set (s2 := if bool_decide P then a else s1) end.
  assert (Hs2 : mx_mixes s2 = mx_mixes s).
  { unfold s2. case_bool_decide; [|done]. destruct (lim_process _ _ _) as [lim y]. rewrite push_listen_mixes. done. }
  clearbody s2. destruct (tx_walk _ _ _ _ _ _) as [safety [tl tr]]. cbn [mx_mixes]. rewrite Hs2.
  apply fmap_insert_same with mix; [done|]. unfold mix_t; cbn in *.
  destruct tripped; rewrite ?eq_reset_t, ?ml_reset_t; congruence.
Qed.

Lemma render_order_t topo listen t sine fade off n order s :
  mix_t <$> mx_mixes (foldl (fun s m => render_mix topo listen t sine fade off n m s) s order) = mix_t <$> mx_mixes s.
Proof. revert s. induction order as [|m order IH]; intros s; cbn [foldl]; [done|]. by rewrite IH, render_mix_t. Qed.

Lemma render_mixes_t sine fade off n p b : p_targets (render_mixes sine fade off n p b).1 = p_targets p.
Proof.
  unfold render_mixes. pose proof (render_owns_t (p_topo p) (p_inputs p) n (p_mixes p)) as Ho.
  destruct (render_owns _ _ _ _) as [mixes trips].
  match goal with |- context [foldl _ ?s _] =>
    pose proof (render_order_t (p_topo p) (p_listen p) (p_test p) sine fade off n (t_order (p_topo p)) s) as HS end.
  cbn [mx_mixes] in HS. unfold p_targets, add_overruns, add_trips; cbn in *. destruct (0 <? _); cbn; congruence.
Qed.

(** ** Inputs and the rest of a segment *)

Lemma cross_walk_target mix l r dl dr : ra_target (cross_walk mix l r dl dr).1 = ra_target mix.
Proof.
  revert mix r dl dr. induction l as [|a l IH]; intros mix [|b r] [|x dl] [|y dr]; cbn [cross_walk]; try done.
  specialize (IH (ramp_tick mix) r dl dr). destruct (cross_walk _ l r dl dr) as [mix' [l' r']]. cbn in IH.
  rewrite ramp_tick_target in IH. by destruct (negb _).
Qed.

Lemma input_process_t node x : input_t (input_process node x).1 = input_t node.
Proof.
  unfold input_process. destruct (_ && _); [done|].
  pose proof (ramp_gain_target (ir_trim node) x) as Hr. destruct (ramp_gain _ _) as [trim x1].
  pose proof (eq_through_t (ir_eq node) x1) as He. destruct (eq_through _ _) as [eq x2].
  pose proof (cross_walk_target (ir_proc_mix node) x2.1 x2.2 x.1 x.2) as Hm.
  destruct (is_moving _); [destruct (cross_walk _ _ _ _ _) as [mix x3]|]; unfold input_t; cbn in *; congruence.
Qed.

Lemma render_input_t b off n t sine talk talkback i spec node :
  input_t (render_input b off n t sine talk talkback i spec node).1 = input_t node.
Proof.
  unfold render_input. destruct (check2 (ir_trips node) _) as [[count tripped] x1].
  match goal with |- context [input_process ?nd ?x] => pose proof (input_process_t nd x) as Hp; destruct (input_process nd x) as [node2 x2] end.
  match goal with |- context [ramp_gain ?g ?x] => pose proof (ramp_gain_target g x) as Hg; destruct (ramp_gain g x) as [gate x3] end.
  destruct (check2 _ x3) as [[count2 again] x4]. 
  assert (He : input_t (mkInputRt (ir_p node) (ir_trim node) (ir_proc_mix node)
      (if tripped : bool then eq_reset (ir_eq node) else ir_eq node) (ir_gate node) count (ir_peak node)) = input_t node)
    by (unfold input_t; cbn [ir_eq]; destruct tripped; by rewrite ?eq_reset_t).
  rewrite He in Hp. rewrite <-Hp. unfold input_t; cbn in *. f_equal; [done|]. destruct again; by rewrite ?eq_reset_t.
Qed.

Lemma render_nodes_t b off n t sine talk talkback i specs nodes :
  input_t <$> (render_nodes b off n t sine talk talkback i specs nodes).1 = input_t <$> nodes.
Proof.
  revert i nodes. induction specs as [|spec specs IH]; intros i [|node nodes]; cbn [render_nodes]; try done.
  pose proof (render_input_t b off n t sine talk talkback i spec node) as Hn.
  destruct (render_input _ _ _ _ _ _ _ _ _ _) as [node' tripped]. specialize (IH (S i) nodes).
  destruct (render_nodes _ _ _ _ _ _ _ _ _ _) as [nodes' trips]. cbn in *. congruence.
Qed.

Lemma read_talkback_t n p : p_targets (read_talkback n p).1 = p_targets p.
Proof. unfold read_talkback. destruct (gate_walk _ _) as [g buf]. cbn. by destruct (_ && _). Qed.

Lemma render_inputs_t sine off n p b : p_targets (render_inputs sine off n p b) = p_targets p.
Proof.
  unfold render_inputs.
  assert (Hk : p_targets (if bool_decide (is_Some (p_talkback_input p)) then read_talkback n p else (p, [])).1 = p_targets p)
    by (case_bool_decide; [apply read_talkback_t|done]).
  destruct (if bool_decide _ then read_talkback n p else _) as [p1 talk].
  pose proof (render_nodes_t b off n (p_test p1) sine talk (p_talkback_input p1) 0 (t_inputs (p_topo p1)) (p_inputs p1)) as Hn.
  destruct (render_nodes _ _ _ _ _ _ _ _ _ _) as [nodes trips]. rewrite <-Hk. unfold p_targets; cbn in *. congruence.
Qed.

Lemma set_caps_t on p : p_targets (set_caps on p) = p_targets p.
Proof. unfold set_caps, p_targets; cbn. f_equal. rewrite <-list_fmap_compose. by apply list_fmap_ext. Qed.

Lemma end_test_t p : p_targets (end_test p) = p_targets p.
Proof. unfold end_test. destruct (p_test p) as [t|]; [|done]. destruct (_ <=? _); [|done]. by rewrite set_caps_t. Qed.

Lemma render_t off n p b : p_targets (render off n p b).1 = p_targets p.
Proof.
  unfold render. pose proof (end_test_t p) as He. set (p0 := end_test p) in *. clearbody p0.
  destruct (fade_walk _ _) as [fade fades].
  set (pr := match p_test (set_fade fade p0) with Some t => _ | None => _ end).
  assert (Hpr : p_targets pr.1 = p_targets p0).
  { unfold pr. destruct (p_test _) as [t|]; [|done]. by destruct (test_render n t). }
  destruct pr as [p1 sine]. cbn in Hpr.
  pose proof (render_inputs_t sine off n p1 b) as Hi. set (p2 := render_inputs sine off n p1 b) in *.
  pose proof (render_mixes_t sine fades off n p2 b) as Hm. destruct (render_mixes _ _ _ _ _ _) as [p3 b3].
  unfold render_hil. destruct (render_spares _ _ _ _ _ _ _ _ _) as [peaks b4].
  rewrite <-He, <-Hpr, <-Hi, <-Hm. unfold probe_latency, note_faded; cbn.
  repeat (case_match; cbn; try done).
Qed.

Lemma publish_meters_t p : p_targets (publish_meters p) = p_targets p.
Proof.
  unfold publish_meters, p_targets; cbn. f_equal; rewrite <-list_fmap_compose; apply list_fmap_ext; [done|].
  intros i m _. apply clear_mix_t.
Qed.
End nodes.
