(* ===== verification/RtHolds.v ===== *)
(** * The RT processor holds what it was told

    [holds T op]: the targets [T] are the ones message [op] sets, on the node,
    its shadow included.  Applying a message makes the processor hold it and
    leaves it holding every message to another slot ([apply_agrees]), so a
    processor holds the memory [Rt.rt_run] of the messages it applied. *)

From S2P Require Import Prelude F64 Text MixState Msg Shape Topology TopologyWf Reconciled Rt Core Wire Control Dsp Mga Processor Render RtTargets.
From Stdlib Require Import SpecFloat.
From stdpp Require Import vector.
From stdpp Require Import options.
Local Open Scope Z_scope.
#[local] Unset Default Proof Using.

(** ** An element by its 16-bit index *)

Definition on {A : Type} (l : list A) (i : Z) (P : A -> Prop) : Prop :=
  0 <= i /\ exists x, l !! Z.to_nat i = Some x /\ P x.

Lemma on_fmap {A B : Type} (f : A -> B) l i (P : B -> Prop) : on (f <$> l) i P <-> on l i (fun x => P (f x)).
Proof.
  unfold on. split; intros [Hi (x & Hx & Hp)]; (split; [done|]).
  - apply list_lookup_fmap_Some in Hx as (y & -> & Hy). by exists y.
  - exists (f x). by rewrite list_lookup_fmap, Hx.
Qed.

Lemma on_impl {A : Type} (l : list A) i (P Q : A -> Prop) : (forall x, P x -> Q x) -> on l i P -> on l i Q.
Proof. intros Hpq [Hi (x & Hx & Hp)]. split; [done|]. exists x. auto. Qed.

(** An element after another, or itself, changed. *)
Lemma on_at {A : Type} (f : A -> A) j (l : list A) i (P Q : A -> Prop) :
  0 <= j -> (i = j -> forall x, P x -> Q (f x)) -> (i <> j -> forall x, P x -> Q x) -> on l i P -> on (at_ix f j l) i Q.
Proof.
  intros Hj Heq Hne [Hi (x & Hx & Hp)]. split; [done|]. unfold at_ix. destruct (decide (i = j)) as [->|Hn].
  - exists (f x). rewrite list_lookup_alter_eq, Hx. auto.
  - exists x. rewrite list_lookup_alter_ne by lia. auto.
Qed.

(** The element changed. *)
Lemma on_at_self {A : Type} (f : A -> A) i (l : list A) (P Q : A -> Prop) :
  (forall x, P x -> Q (f x)) -> on l i P -> on (at_ix f i l) i Q.
Proof. intros Hf Ho. apply on_at with P; [by destruct Ho|auto|done|done]. Qed.

(** An element kept. *)
Lemma on_at_keep {A : Type} (f : A -> A) j (l : list A) i (P : A -> Prop) :
  0 <= j -> (i = j -> forall x, P x -> P (f x)) -> on l i P -> on (at_ix f j l) i P.
Proof. intros Hj Hf. by apply on_at. Qed.

(** ** What a message sets *)

Definition eqt_feq (e : EqT) (q : EqParams) : Prop :=
  Forall2 dsp_band_feq e.1 (vec_to_list (ep_bands q)) /\ feq e.2 (ep_global_gain q).

Definition both (P : OutT -> Prop) (x : MixT) : Prop := P (mt_out x) /\ forall s, mt_shadow x = Some s -> P s.

Section holds.
Context `{RtMath}.

(** The gains of a volume or level with its pan and mute. *)
Definition gaint_feq (g : GainT) (vol pan : f64) (muted : bool) : Prop :=
  feq g.1.1 (send_gains vol false pan).1 /\ feq g.1.2 (send_gains vol false pan).2 /\ feq g.2 (gate muted).

Definition switch (on : bool) : f64 := if on then f64_1 else f64_0.

Definition holds (T : ProcT) (op : RtOp) : Prop :=
  match op with
  | RtInput i q =>
      on (pt_inputs T) i (fun n => feq (it_trim n) (ip_trim q) /\ feq (it_gate n) (gate (ip_muted q))
                                   /\ feq (it_mix n) (switch (ip_processing q)))
  | RtInputEq i e => on (pt_inputs T) i (fun n => eqt_feq (it_eq n) e)
  | RtMixOut m v muted => on (pt_mixes T) m (both (fun o => gaint_feq (ot_fader o) v f64_0 muted))
  | RtMixEq m e => on (pt_mixes T) m (both (fun o => eqt_feq (ot_eq o) e))
  | RtLimiter m enabled l => on (pt_mixes T) m (both (fun o => lt_enabled (ot_lim o) = enabled /\ feq (lt_limit (ot_lim o)) l))
  | RtLevel m k v pan muted => on (pt_mixes T) m (fun x => on (mt_levels x) k (fun g => gaint_feq g v pan muted))
  | RtGroup m g v muted => on (pt_mixes T) m (fun x => on (mt_groups x) g (fun s => gaint_feq (gt_fader s) v f64_0 muted))
  | RtGroupEq m g e => on (pt_mixes T) m (fun x => on (mt_groups x) g (fun s => eqt_feq (gt_eq s) e))
  | RtListen s mix => on (pt_listen T) s (fun l => l = (Z.to_nat <$> mix))
  | _ => True
  end.

(** The node of a slot exists. *)
Definition slot_in (T : ProcT) (s : rt_slot) : Prop :=
  match s with
  | SlInput i | SlInputEq i => on (pt_inputs T) i (fun _ => True)
  | SlMixOut m | SlMixEq m | SlLimiter m => on (pt_mixes T) m (fun _ => True)
  | SlLevel m k => on (pt_mixes T) m (fun x => on (mt_levels x) k (fun _ => True))
  | SlGroup m g | SlGroupEq m g => on (pt_mixes T) m (fun x => on (mt_groups x) g (fun _ => True))
  | SlListen s => on (pt_listen T) s (fun _ => True)
  end.

Definition op_in (T : ProcT) (op : RtOp) : Prop := forall s, slot_of op = Some s -> slot_in T s.

(** An EQ the filters take. *)
Definition eq_valid (q : EqParams) : Prop := Forall (fun b => is_valid b = true) (vec_to_list (ep_bands q)) /\ value_ok (ep_global_gain q) = true.

Definition op_sane (op : RtOp) : Prop :=
  match op with RtInputEq _ q | RtMixEq _ q | RtGroupEq _ _ q => eq_valid q | _ => True end.

(** Every EQ has five valid bands and a valid gain. *)
Definition eqt_ok (e : EqT) : Prop :=
  length e.1 = BANDS /\ Forall (fun b => is_valid b = true) e.1 /\ value_ok e.2 = true.

Definition targets_ok (T : ProcT) : Prop :=
  Forall (fun n => eqt_ok (it_eq n)) (pt_inputs T)
  /\ Forall (fun x => both (fun o => eqt_ok (ot_eq o)) x /\ Forall (fun s => eqt_ok (gt_eq s)) (mt_groups x)) (pt_mixes T).

(** The processor holds every message of a memory. *)
Definition agrees (T : ProcT) (mem : rt_mem) : Prop := forall s op, mem s = Some op -> op_sane op -> holds T op.

Definition keyed (mem : rt_mem) : Prop := forall s op, mem s = Some op -> slot_of op = Some s.
End holds.

(** ** The parts *)

Lemma feq_refl x : feq x x.
Proof. by left. Qed.
#[export] Hint Resolve feq_refl : iem.

Lemma ramp_set_feq t r : feq (ra_target (ramp_set t r)) t.
Proof.
  unfold ramp_set. destruct (f64_eqb t (ra_target r)) eqn:He; [|by left]. symmetry. by apply feq_eqb.
Qed.

Lemma Ramp_new_target v len : ra_target (Ramp_new v len) = v.
Proof. done. Qed.

Lemma sg_set_feq `{RtMath} vol muted pan g : gaint_feq (gain_t (sg_set vol muted pan g)) vol pan muted.
Proof.
  unfold gaint_feq, sg_set. destruct (send_gains vol false pan) as [gl gr]. unfold gain_t; cbn.
  split_and!; apply ramp_set_feq.
Qed.

Lemma ml_set_feq `{Libm, RtMath} enabled limit m :
  lt_enabled (lim_t (ml_set enabled limit m)) = enabled /\ feq (lt_limit (lim_t (ml_set enabled limit m))) limit.
Proof. unfold ml_set, lim_t. destruct (f64_leb _ _); cbn; (split; [done|]); [by left|apply ramp_set_feq]. Qed.

Section eqs.
Context `{Libm, RtMath}.

Lemma BandState_new_target n b fs len : bs_target (BandState_new n b fs len) = b.
Proof. done. Qed.

Lemma band_set_target b fs s : bs_target (band_set b fs s) = b.
Proof. unfold band_set, set_wet, set_coefs. by repeat case_match. Qed.

(** The targets after an EQ is set: the new one where it is valid. *)
Lemma eq_set_t q e :
  eq_targets (eq_set q e).1 =
    (zip_with (fun old b => if is_valid b then b else old) (bs_target <$> eq_bands e) (vec_to_list (ep_bands q)),
     if value_ok (ep_global_gain q) then ra_target (ramp_set (ep_global_gain q) (eq_global e)) else ra_target (eq_global e)).
Proof.
  unfold eq_set, eq_targets; cbn. f_equal; [|by case_match].
  rewrite zip_with_fmap_l. generalize (vec_to_list (ep_bands q)) as bs. generalize (eq_bands e) as ss.
  induction ss as [|s ss IH]; intros [|b bs]; cbn; [done..|]. rewrite IH. f_equal.
  case_match; [apply band_set_target|done].
Qed.

Lemma zip_valid olds bs :
  length olds = length bs -> Forall (fun b => is_valid b = true) bs ->
  zip_with (fun old b => if is_valid b then b else old) olds bs = bs.
Proof.
  revert bs. induction olds as [|o olds IH]; intros [|b bs] Hl Hb; cbn in *; try done.
  apply Forall_cons in Hb as [-> Hb]. f_equal. apply IH; [lia|done].
Qed.

Lemma eq_set_feq q e : eqt_ok (eq_targets e) -> eq_valid q -> eqt_feq (eq_targets (eq_set q e).1) q.
Proof.
  intros (Hl & _ & _) [Hb Hg]. rewrite eq_set_t, Hg. split; cbn.
  - rewrite zip_valid; [reflexivity| |done]. by rewrite length_vec_to_list.
  - apply ramp_set_feq.
Qed.

Lemma value_ok_feq a b : feq a b -> value_ok a = value_ok b.
Proof. by intros [->|([] & [] & -> & ->)]. Qed.

Lemma eq_set_ok q e : eqt_ok (eq_targets e) -> eqt_ok (eq_targets (eq_set q e).1).
Proof.
  intros (Hl & Hv & Hg). rewrite eq_set_t. unfold eqt_ok; cbn in *. split_and!.
  - rewrite length_zip_with, length_vec_to_list, Hl. done.
  - revert Hv. generalize (vec_to_list (ep_bands q)) as bs. generalize (bs_target <$> eq_bands e) as ss.
    induction ss as [|s ss IH]; intros [|b bs] Hv; cbn; try by constructor.
    apply Forall_cons in Hv as [Hs Hv]. constructor; [by destruct (is_valid b) eqn:Hb|auto].
  - destruct (value_ok (ep_global_gain q)) eqn:Hq; [|done]. by rewrite (value_ok_feq _ _ (ramp_set_feq _ _)).
Qed.

(** The EQ started anew at its own targets. *)
Lemma Equalizer_at_t n params fs : eqt_ok params -> eq_targets (Equalizer_at n params fs) = params.
Proof.
  destruct params as [bs g]. intros (Hl & Hv & Hg). unfold Equalizer_at, eq_targets; cbn [fst snd eq_bands eq_global Ramp_new ra_target] in *.
  rewrite Hg. f_equal. destruct bs as [|b1 [|b2 [|b3 [|b4 [|b5 [|]]]]]]; try discriminate Hl.
  repeat (apply Forall_cons in Hv as [? Hv]). cbn. by repeat (case_match; [|congruence]).
Qed.

Lemma input_set_eq sr q n : eqt_ok (eq_targets (ir_eq n)) -> eq_targets (ir_eq (input_set sr q n)) = eq_targets (ir_eq n).
Proof.
  intros Hok. unfold input_set. destruct (_ && _); cbn [ir_eq]; [by apply Equalizer_at_t|done].
Qed.

Lemma input_set_feq sr q n :
  let t := input_t (input_set sr q n) in
  feq (it_trim t) (ip_trim q) /\ feq (it_gate t) (gate (ip_muted q)) /\ feq (it_mix t) (switch (ip_processing q)).
Proof.
  unfold input_set. destruct (_ && _); cbn; (split_and!; [|apply ramp_set_feq..]); apply ramp_set_feq.
Qed.
End eqs.

(** ** Mixes under a change of one part *)

Section mixes.
Context `{Libm, RtMath}.

Lemma on_Forall {A : Type} (l : list A) i (P Q : A -> Prop) : Forall Q l -> on l i P -> on l i (fun x => P x /\ Q x).
Proof. intros Hq [Hi (x & Hx & Hp)]. split; [done|]. exists x. split; [done|]. split; [done|]. by eapply Forall_lookup in Hq. Qed.

(** What holds of the output stage and its shadow, part by part. *)
Definition parts (m : MixRt) (P : Equalizer -> MixLimiter -> StereoGain -> Prop) : Prop :=
  P (mr_eq m) (mr_limiter m) (mr_fader m) /\ forall s, mr_shadow m = Some s -> P (sh_eq s) (sh_limiter s) (sh_fader s).

Lemma both_parts P m :
  both P (mix_t m) <-> parts m (fun e l g => P (mkOutT (eq_targets e) (lim_t l) (gain_t g))).
Proof.
  unfold both, parts; cbn. destruct (mr_shadow m) as [s|]; cbn; (split; intros [H1 H2]; (split; [done|])); intros s' [= <-]; by apply H2.
Qed.

Ltac parts_tac m :=
  unfold parts; cbn; destruct (mr_shadow m) as [s|]; cbn;
  (split; intros [H1 H2]; (split; [done|])); intros s' [= <-]; by apply (H2 _ eq_refl).

Lemma parts_both_fader P f m : parts (both_fader f m) P <-> parts m (fun e l g => P e l (f g)).
Proof. parts_tac m. Qed.
Lemma parts_both_eq P f m : parts (both_eq f m) P <-> parts m (fun e l g => P (f e) l g).
Proof. parts_tac m. Qed.
Lemma parts_both_limiter P f m : parts (both_limiter f m) P <-> parts m (fun e l g => P e (f l) g).
Proof. parts_tac m. Qed.
Lemma parts_own_limiter P f m :
  (forall e l g, P e l g -> P e (f l) g) -> parts m P -> parts (own_limiter f m) P.
Proof. intros Hp [H1 H2]. split; [by apply Hp|done]. Qed.

Lemma parts_impl m (P Q : Equalizer -> MixLimiter -> StereoGain -> Prop) : (forall e l g, P e l g -> Q e l g) -> parts m P -> parts m Q.
Proof. intros Hpq [H1 H2]. split; auto. Qed.
End mixes.

(** ** One message *)

Section apply.
Context `{Libm, RtMath}.

Lemma mixes_new (p : Processor) m f (P : MixT -> Prop) (Q : MixT -> Prop) :
  on (mix_t <$> p_mixes p) m P -> (forall x, P (mix_t x) -> Q (mix_t (f x))) -> on (mix_t <$> at_ix f m (p_mixes p)) m Q.
Proof. rewrite !on_fmap. intros Ho Hf. eapply on_at_self; [|exact Ho]. done. Qed.

(** What is applied is held. *)
Lemma apply_new op p p' :
  targets_ok (p_targets p) -> op_in (p_targets p) op -> op_sane op -> rt_apply op p = Some p' -> holds (p_targets p') op.
Proof.
  intros [Hi Hm] Hin Hs Ha.
  destruct op as [|i q|i q|m v mu|m q|m en l|m|m k v pan mu|m g v mu|m g q|s mix|i hz amp ttl|i hz amp ttl mask listen| | | |];
    try exact I; cbn [rt_apply] in Ha; simplify_eq; cbn [holds pt_inputs pt_mixes pt_listen p_targets set_inputs set_mixes set_listen p_inputs p_mixes p_listen];
    specialize (Hin _ eq_refl); cbn [slot_in pt_inputs pt_mixes pt_listen p_targets] in Hin.
  - rewrite on_fmap in *. eapply on_at_self; [|exact Hin]. intros n _. apply input_set_feq.
  - pose proof (on_Forall _ _ _ _ Hi Hin) as Ho. cbn [pt_inputs p_targets] in Ho. rewrite on_fmap in *.
    eapply on_at_self; [|exact Ho]. intros n [_ Hok]. by apply eq_set_feq.
  - eapply mixes_new; [exact Hin|]. intros x _. rewrite both_parts, parts_both_fader. split; [|intros s _]; cbn [ot_fader]; apply sg_set_feq.
  - eapply mixes_new; [exact (on_Forall _ _ _ _ Hm Hin)|]. intros x [_ [Hok _]]. rewrite both_parts in Hok.
    rewrite both_parts, parts_both_eq. eapply parts_impl; [|exact Hok]. intros e l g Ho. by apply eq_set_feq.
  - eapply mixes_new; [exact Hin|]. intros x _. rewrite both_parts, parts_both_limiter. split; [|intros s _]; cbn [ot_lim]; apply ml_set_feq.
  - eapply mixes_new; [exact Hin|]. cbn. intros x Hk. rewrite on_fmap in *. eapply on_at_self; [|exact Hk].
    intros g _. exact (sg_set_feq v mu pan g).
  - eapply mixes_new; [exact Hin|]. cbn. intros x Hk. rewrite on_fmap in *. eapply on_at_self; [|exact Hk].
    intros s _. exact (sg_set_feq v mu f64_0 (gr_fader s)).
  - eapply mixes_new; [exact (on_Forall _ _ _ _ Hm Hin)|]. cbn. intros x [Hk [_ Hok]].
    pose proof (on_Forall _ _ _ _ Hok Hk) as Ho. rewrite on_fmap in *. eapply on_at_self; [|exact Ho]. intros s [_ Hs']. by apply eq_set_feq.
  - eapply on_at_self; [|exact Hin]. done.
Qed.

Lemma mixes_keep (p : Processor) j m f (P : MixT -> Prop) :
  0 <= j -> (m = j -> forall x, P (mix_t x) -> P (mix_t (f x))) -> on (mix_t <$> p_mixes p) m P -> on (mix_t <$> at_ix f j (p_mixes p)) m P.
Proof. rewrite !on_fmap. intros Hj Hf. by apply on_at_keep. Qed.

Lemma inputs_keep (p : Processor) j i f (P : InputT -> Prop) :
  targets_ok (p_targets p) -> 0 <= j ->
  (i = j -> forall n, P (input_t n) -> eqt_ok (eq_targets (ir_eq n)) -> P (input_t (f n))) ->
  on (input_t <$> p_inputs p) i P -> on (input_t <$> at_ix f j (p_inputs p)) i P.
Proof.
  intros [Hok _] Hj Hf Ho. pose proof (on_Forall _ _ _ _ Hok Ho) as Ho2. cbn [pt_inputs p_targets] in Ho2.
  rewrite !on_fmap in *. eapply on_at; [done| | |exact Ho2]; [intros Hij n [Hp He]; by apply Hf|by intros _ n [Hp _]].
Qed.

(** A message without a slot sets nothing. *)
Lemma apply_none op p p' : slot_of op = None -> rt_apply op p = Some p' -> p_targets p' = p_targets p.
Proof.
  destruct op; intros Hs Ha; cbn [rt_apply slot_of] in *; try discriminate; simplify_eq; try done.
  - unfold p_targets; cbn. f_equal. unfold at_ix. apply list_eq. intros i. rewrite !list_lookup_fmap, list_lookup_alter.
    case_decide; [subst|done]. by destruct (p_mixes p !! Z.to_nat m).
  - unfold start_test_rt. by rewrite set_caps_t.
  - unfold start_test_rt. by rewrite set_caps_t.
  - unfold stop_test_rt. by destruct (p_test p).
  - destruct (ou_armed _); [done|]. unfold restart_fade. by destruct (ou_fading_out _).
Qed.

(** The slots it leaves alone keep what they held. *)
Lemma apply_old op op2 p p' :
  targets_ok (p_targets p) -> op_in (p_targets p) op -> rt_apply op p = Some p' ->
  (forall s, slot_of op = Some s -> slot_of op2 <> Some s) ->
  holds (p_targets p) op2 -> holds (p_targets p') op2.
Proof.
  intros Hok Hin Ha Hne Hold.
  destruct (slot_of op) as [sl|] eqn:Hsl; [|by rewrite (apply_none op p p')].
  specialize (Hin _ Hsl). specialize (Hne _ eq_refl).
  destruct op as [|i q|i q|m v mu|m q|m en l|m|m k v pan mu|m g v mu|m g q|s mix|i hz amp ttl|i hz amp ttl mask listen| | | |];
    try discriminate Hsl; injection Hsl as <-; cbn [rt_apply] in Ha; simplify_eq;
    cbn [slot_in pt_inputs pt_mixes pt_listen p_targets] in Hin; pose proof (proj1 Hin) as Hj;
    destruct op2 as [|i2 q2|i2 q2|m2 v2 mu2|m2 q2|m2 en2 l2|m2|m2 k2 v2 pan2 mu2|m2 g2 v2 mu2|m2 g2 q2|s2 mix2|?|?| | | |];
    try exact Hold; cbn [slot_of] in Hne;
    cbn [holds pt_inputs pt_mixes pt_listen p_targets set_inputs set_mixes set_listen p_inputs p_mixes p_listen] in *.
  all: match goal with |- on (mix_t <$> _) _ _ => apply mixes_keep; [done| |exact Hold]; intros -> x | _ => idtac end.
  all: match goal with |- on (input_t <$> _) _ _ => apply inputs_keep; [done..| |exact Hold]; intros -> n Hn He | _ => idtac end.
  all: try (exfalso; by apply Hne).
  all: try done.
  all: try (rewrite !both_parts, ?parts_both_fader, ?parts_both_eq, ?parts_both_limiter; done).
  1: by cbn; rewrite input_set_eq.
  6: apply on_at_keep; [done| |exact Hold]; intros ->; by destruct Hne.
  all: destruct Hin as (_ & _ & _ & [Hk _]).
  all: cbn [mt_levels mt_groups mix_t set_mr_levels set_mr_groups mr_levels mr_groups]; rewrite !on_fmap; apply on_at_keep; [done|].
  all: intros -> y Hy; first [done|by destruct Hne].
Qed.

(** The EQs stay well formed. *)
Lemma Forall_at {A : Type} (P : A -> Prop) f j l : (forall x, P x -> P (f x)) -> Forall P l -> Forall P (at_ix f j l).
Proof. intros Hf Hl. apply Forall_alter; auto. Qed.

Definition mix_ok (x : MixT) : Prop := both (fun o => eqt_ok (ot_eq o)) x /\ Forall (fun s => eqt_ok (gt_eq s)) (mt_groups x).

Lemma mix_ok_parts m :
  mix_ok (mix_t m) <-> parts m (fun e _ _ => eqt_ok (eq_targets e)) /\ Forall (fun s => eqt_ok (eq_targets (gr_eq s))) (mr_groups m).
Proof. unfold mix_ok. rewrite both_parts. cbn. by rewrite Forall_fmap. Qed.

Lemma apply_ok op p p' : targets_ok (p_targets p) -> rt_apply op p = Some p' -> targets_ok (p_targets p').
Proof.
  intros Hok Ha. destruct (slot_of op) as [sl|] eqn:Hsl; [|by rewrite (apply_none op p p')].
  destruct Hok as [Hi Hm]. change (Forall mix_ok (pt_mixes (p_targets p))) in Hm. cbn [pt_inputs pt_mixes p_targets] in *.
  rewrite Forall_fmap in Hi. rewrite Forall_fmap in Hm.
  assert (Hmix : forall m f, (forall x, mix_ok (mix_t x) -> mix_ok (mix_t (f x))) ->
    targets_ok (p_targets (set_mixes (at_ix f m (p_mixes p)) p))).
  { intros m f Hf. split; cbn; rewrite Forall_fmap; [done|]. by apply Forall_at. }
  assert (Hin : forall m f, (forall x, eqt_ok (it_eq (input_t x)) -> eqt_ok (it_eq (input_t (f x)))) ->
    targets_ok (p_targets (set_inputs (at_ix f m (p_inputs p)) p))).
  { intros m f Hf. split; cbn; rewrite Forall_fmap; [|done]. by apply Forall_at. }
  destruct op; try discriminate Hsl; cbn [rt_apply] in Ha; simplify_eq.
  - apply Hin. intros x Hx. cbn. by rewrite input_set_eq.
  - apply Hin. intros x Hx. by apply eq_set_ok.
  - apply Hmix. intros x. rewrite !mix_ok_parts, parts_both_fader. done.
  - apply Hmix. intros x. rewrite !mix_ok_parts, parts_both_eq. intros [He Hg]. split; [|done].
    eapply parts_impl; [|exact He]. intros e l g Ho. by apply eq_set_ok.
  - apply Hmix. intros x. rewrite !mix_ok_parts, parts_both_limiter. done.
  - apply Hmix. intros x. rewrite !mix_ok_parts. done.
  - apply Hmix. intros x. rewrite !mix_ok_parts. intros [He Hg]. split; [done|]. cbn. by apply Forall_at.
  - apply Hmix. intros x. rewrite !mix_ok_parts. intros [He Hg]. split; [done|]. cbn. apply Forall_at; [|done].
    intros s Hs. by apply eq_set_ok.
  - split; cbn; rewrite Forall_fmap; done.
Qed.

(** ** The nodes there are *)

Definition shape (T : ProcT) : list unit * list (nat * nat) * nat :=
  ((fun _ => tt) <$> pt_inputs T, (fun x => (length (mt_levels x), length (mt_groups x))) <$> pt_mixes T, length (pt_listen T)).

Lemma on_shape {A B C : Type} (f : A -> C) (g : B -> C) l l' i (P : A -> Prop) (Q : B -> Prop) :
  f <$> l = g <$> l' -> (forall x y, f x = g y -> P x -> Q y) -> on l i P -> on l' i Q.
Proof.
  intros Hl Hpq [Hi (x & Hx & Hp)]. split; [done|].
  assert (Hy : (g <$> l') !! Z.to_nat i = Some (f x)) by by rewrite <-Hl, list_lookup_fmap, Hx.
  apply list_lookup_fmap_Some in Hy as (y & Hxy & Hy). exists y. split; [done|by eapply Hpq].
Qed.

Lemma on_length {A B : Type} (l : list A) (l' : list B) i : length l = length l' -> on l i (fun _ => True) -> on l' i (fun _ => True).
Proof.
  intros Hl [Hi (x & Hx & _)]. split; [done|]. apply lookup_lt_Some in Hx. rewrite Hl in Hx.
  apply lookup_lt_is_Some_2 in Hx as [y Hy]. by exists y.
Qed.

Lemma slot_in_shape T T' s : shape T = shape T' -> slot_in T s -> slot_in T' s.
Proof.
  intros Hs. unfold shape in Hs. injection Hs as Hi Hm Hl. destruct s; cbn; try (by eapply on_shape); try by apply on_length.
  all: eapply on_shape; [exact Hm|]; intros x y [= Hl1 Hg]; by apply on_length.
Qed.

Lemma apply_shape op p p' : rt_apply op p = Some p' -> shape (p_targets p') = shape (p_targets p).
Proof.
  intros Ha. destruct (slot_of op) as [sl|] eqn:Hsl; [|by rewrite (apply_none op p p')].
  assert (Hlen : forall (A B : Type) (h : A -> B) f j (l : list A), (forall x, h (f x) = h x) -> h <$> at_ix f j l = h <$> l).
  { intros A B h f j l Hf. apply list_eq. intros i. unfold at_ix. rewrite !list_lookup_fmap, list_lookup_alter.
    case_decide; [subst|done]. destruct (l !! Z.to_nat j); cbn; by rewrite ?Hf. }
  destruct op; try discriminate Hsl; cbn [rt_apply] in Ha; simplify_eq; unfold shape; cbn; rewrite <-?list_fmap_compose;
    (apply (f_equal2 pair); [apply (f_equal2 pair)|]); try done; try (by unfold at_ix; rewrite length_alter); apply Hlen; intros x; cbn; rewrite ?length_fmap;
    unfold at_ix; by rewrite ?length_alter.
Qed.

(** ** The memory of the messages applied *)

Lemma rt_write_keyed mem op : keyed mem -> keyed (rt_write mem op).
Proof. intros Hk s o. unfold rt_write. case_decide; [by intros [= <-]|apply Hk]. Qed.

Lemma apply_agrees op p p' mem :
  targets_ok (p_targets p) -> op_in (p_targets p) op -> keyed mem -> agrees (p_targets p) mem ->
  rt_apply op p = Some p' -> agrees (p_targets p') (rt_write mem op).
Proof.
  intros Hok Hin Hk Hag Ha s o. unfold rt_write. case_decide as Hs; [intros [= <-] Hsane; by apply (apply_new op p p')|].
  intros Ho Hsane. apply (apply_old op o p p'); [done..| |by eapply Hag]. intros s' Hs' Ho'. rewrite (Hk _ _ Ho) in Ho'. congruence.
Qed.
End apply.
