(* ===== verification/RtSched.v ===== *)
(** * When the RT processor applies its commands

    A block's commands are applied whole groups at a time, in ring order, at
    the sample they are due, within the block's budget; the ring loses exactly
    what was applied.  [account] is that account of a block, and
    [process_account] that every block has one. *)

From S2P Require Import Prelude F64 Text MixState Msg Shape Topology TopologyWf Reconciled Rt Core Wire Control Dsp Mga Processor Render RtTargets RtHolds.
From stdpp Require Import options.
Local Open Scope Z_scope.
#[local] Unset Default Proof Using.

(** ** What rendering leaves alone *)

(** What commands and rendering never touch: the topology, the command ring,
    the clock's time and the count of late blocks. *)
Definition same_env (p p' : Processor) : Prop :=
  p_topo p' = p_topo p /\ rg_cmds (p_rings p') = rg_cmds (p_rings p) /\ p_time p' = p_time p
  /\ rc_deferred (p_status p') = rc_deferred (p_status p).

#[export] Instance same_env_preorder : PreOrder same_env.
Proof. split; [by intros p|]. intros p q r (?&?&?&?) (?&?&?&?). split_and!; congruence. Qed.

Lemma put_tx_frames silent off n ch src b : bk_frames (put_tx silent off n ch src b) = bk_frames b.
Proof. unfold put_tx, on_output. destruct ch as [c|]; [|done]. by case_match. Qed.

Lemma push_listen_block slot x t sine fade s : mx_block (push_listen slot x t sine fade s) = mx_block s.
Proof. unfold push_listen. destruct (push_ring _ _ _) as [taps over]. by destruct (if probing t then _ else _). Qed.

Lemma set_caps_env on p : same_env p (set_caps on p).
Proof. done. Qed.

Section env.
Context `{Libm, RtMath}.

Lemma apply_env op p p' : rt_apply op p = Some p' -> same_env p p'.
Proof.
  destruct op; cbn [rt_apply]; intros; simplify_eq; try done.
  - unfold stop_test_rt. by destruct (p_test p).
  - destruct (ou_armed _); [done|]. unfold restart_fade. by destruct (ou_fading_out _).
Qed.

Lemma render_mix_frames topo listen t sine fade off n m s :
  bk_frames (mx_block (render_mix topo listen t sine fade off n m s)) = bk_frames (mx_block s).
Proof.
  unfold render_mix. destruct (t_mixes topo !! m) as [spec|]; [|done]. destruct (mx_mixes s !! m) as [mix|]; [|done].
  destruct (sum_mixes mr_sum _ _ _ _ _ _ _) as [levels1 x1]. destruct (sum_mixes own_out _ _ _ _ _ _ _) as [levels2 x2].
  destruct (eq_through _ _) as [eq x3]. destruct (ml_process _ _) as [limiter x4].
  destruct (stereo_gain _ _) as [fader x5]. destruct (check2 _ _) as [[count tripped] x6].
  destruct (tx_walk _ _ _ _ _ _) as [safety [tl tr]]. cbn [mx_block]. rewrite !put_tx_frames.
  destruct (bool_decide _); [destruct (lim_process _ _ _) as [lim y]; rewrite push_listen_block; cbn [mx_block]|];
    (destruct (bool_decide _); [by rewrite push_listen_block|done]).
Qed.

Lemma render_order_frames topo listen t sine fade off n order s :
  bk_frames (mx_block (foldl (fun s m => render_mix topo listen t sine fade off n m s) s order)) = bk_frames (mx_block s).
Proof. revert s. induction order as [|m order IH]; intros s; cbn [foldl]; [done|]. by rewrite IH, render_mix_frames. Qed.

Lemma render_spares_frames first mask sine fade off n k peaks b :
  bk_frames (render_spares first mask sine fade off n k peaks b).2 = bk_frames b.
Proof.
  revert k b. induction peaks as [|peak peaks IH]; intros k b; cbn [render_spares]; [done|].
  assert (Hs : bk_frames (render_spare first mask sine fade off n k peak b).2 = bk_frames b).
  { unfold render_spare, on_output. destruct (slice off n (bk_out b (first + k))); [|done]. done. }
  destruct (render_spare _ _ _ _ _ _ _ _ _) as [peak' b']. specialize (IH (S k) b').
  destruct (render_spares _ _ _ _ _ _ _ _ _) as [peaks' b'']. cbn in *. congruence.
Qed.

Lemma read_talkback_env n p : same_env p (read_talkback n p).1.
Proof. unfold read_talkback. destruct (gate_walk _ _) as [g buf]. cbn. by destruct (_ && _). Qed.

Lemma render_inputs_env sine off n p b : same_env p (render_inputs sine off n p b).
Proof.
  unfold render_inputs.
  assert (Hk : same_env p (if bool_decide (is_Some (p_talkback_input p)) then read_talkback n p else (p, [])).1)
    by (case_bool_decide; [apply read_talkback_env|done]).
  destruct (if bool_decide _ then read_talkback n p else _) as [p1 talk]. etrans; [exact Hk|].
  by destruct (render_nodes _ _ _ _ _ _ _ _ _ _) as [nodes trips].
Qed.

Lemma render_mixes_env sine fade off n p b :
  same_env p (render_mixes sine fade off n p b).1 /\ bk_frames (render_mixes sine fade off n p b).2 = bk_frames b.
Proof.
  unfold render_mixes. destruct (render_owns _ _ _ _) as [mixes trips]. cbn [fst snd]. rewrite render_order_frames. split; [|done].
  by destruct (0 <? _).
Qed.

Lemma end_test_env p : same_env p (end_test p).
Proof. unfold end_test. destruct (p_test p) as [t|]; [|done]. by destruct (_ <=? _). Qed.

Lemma render_env off n p b :
  same_env p (render off n p b).1 /\ bk_frames (render off n p b).2 = bk_frames b.
Proof.
  unfold render. pose proof (end_test_env p) as He. set (p0 := end_test p) in *. clearbody p0.
  destruct (fade_walk _ _) as [fade fades].
  set (pr := match p_test (set_fade fade p0) with Some t => _ | None => _ end).
  assert (Hpr : same_env p0 pr.1).
  { unfold pr. destruct (p_test _) as [t|]; [|done]. by destruct (test_render n t). }
  destruct pr as [p1 sine]. cbn in Hpr.
  pose proof (render_inputs_env sine off n p1 b) as Hi. set (p2 := render_inputs sine off n p1 b) in *. clearbody p2.
  pose proof (render_mixes_env sine fades off n p2 b) as [Hm Hb]. destruct (render_mixes _ _ _ _ _ _) as [p3 b3].
  cbn [fst snd] in *. unfold render_hil.
  pose proof (render_spares_frames (length (t_tx (p_topo p3))) (p_test p3 ≫= te_mask) sine fades off n 0 (p_hil_peaks p3) b3) as Hs.
  destruct (render_spares _ _ _ _ _ _ _ _ _) as [peaks b4]. cbn [fst snd] in *. split; [|congruence].
  etrans; [exact He|]. etrans; [exact Hpr|]. etrans; [exact Hi|]. etrans; [exact Hm|].
  unfold probe_latency, note_faded; cbn. repeat (case_match; cbn; try done).
Qed.
End env.

(** ** Running messages *)

(** What the processor holds of a memory. *)
Definition held `{RtMath} (p : Processor) (mem : rt_mem) : Prop :=
  targets_ok (p_targets p) /\ keyed mem /\ agrees (p_targets p) mem.

(** From one processor to the next by [cmds]. *)
Definition ran `{RtMath} (cmds : list RtCmd) (p p' : Processor) : Prop :=
  shape (p_targets p') = shape (p_targets p)
  /\ forall mem, Forall (op_in (p_targets p)) (rc_op <$> cmds) -> held p mem -> held p' (rt_run mem (rc_op <$> cmds)).

Lemma op_in_shape T T' op : shape T = shape T' -> op_in T op -> op_in T' op.
Proof. intros Hs Ho s Hsl. eapply slot_in_shape; [exact Hs|]. by apply Ho. Qed.

Lemma ran_same `{RtMath} p p' : p_targets p' = p_targets p -> ran [] p p'.
Proof. intros Ht. split; [by rewrite Ht|]. intros mem _ (Hok & Hk & Ha). unfold held. by rewrite Ht. Qed.

Lemma ran_app `{RtMath} c1 c2 p q r : ran c1 p q -> ran c2 q r -> ran (c1 ++ c2) p r.
Proof.
  intros [Hs1 H1] [Hs2 H2]. split; [congruence|]. intros mem Hin Hh. rewrite fmap_app in *. apply Forall_app in Hin as [Hi1 Hi2].
  rewrite rt_run_app. apply H2; [|by apply H1]. eapply Forall_impl; [exact Hi2|]. intros op. by apply op_in_shape.
Qed.

Lemma ran_then `{RtMath} c p q r : ran c p q -> p_targets r = p_targets q -> ran c p r.
Proof. intros Hc Ht. rewrite <-(app_nil_r c). eapply ran_app; [exact Hc|by apply ran_same]. Qed.

Lemma ran_from `{RtMath} c p q r : ran c q r -> p_targets q = p_targets p -> ran c p r.
Proof. intros Hc Ht. change c with ([] ++ c). eapply ran_app; [by apply ran_same|exact Hc]. Qed.

Section sched.
Context `{Libm, RtMath}.

Lemma apply_ran c p p' : rt_apply (rc_op c) p = Some p' -> ran [c] p p'.
Proof.
  intros Ha. split; [by apply (apply_shape (rc_op c))|]. intros mem Hin (Hok & Hk & Hag). apply Forall_cons in Hin as [Hin _].
  split_and!; [by eapply apply_ok|by apply rt_write_keyed|]. by eapply apply_agrees.
Qed.

Lemma apply_cmds_spec cmds p p' :
  apply_cmds cmds p = Some p' -> ran cmds p p' /\ same_env p p'.
Proof.
  revert p. induction cmds as [|c cmds IH]; intros p; cbn [apply_cmds]; [intros [= <-]; split; [by apply ran_same|done]|].
  destruct (rt_apply (rc_op c) p) as [q|] eqn:Hq; cbn; [|done]. intros Hr. destruct (IH _ Hr) as [H1 H2].
  split; [|etrans; [by eapply apply_env|done]]. change (c :: cmds) with ([c] ++ cmds). eapply ran_app; [by apply apply_ran|done].
Qed.

(** ** The account of a block *)

(** The groups applied, each with the sample it was applied at. *)
Abbreviation Log := (list (Z * list RtCmd)).

Definition group_len (c : RtCmd) : nat := Z.to_nat (Z.max (rc_group c) 1).
Definition all_cmds (log : Log) : list RtCmd := concat log.*2.

(** Whole groups of the ring, each due. *)
Fixpoint wholes (log : Log) (rest : list RtCmd) : Prop :=
  match log with
  | [] => True
  | (t, g) :: log =>
      (exists c, head g = Some c /\ rc_at c <= t /\ g = take (group_len c) (g ++ all_cmds log ++ rest)) /\ wholes log rest
  end.

(** Each group at its time, or as soon as those before it. *)
Fixpoint on_time (t : Z) (log : Log) : Prop :=
  match log with
  | [] => True
  | (t', g) :: log => (forall c, head g = Some c -> t' = Z.max t (rc_at c)) /\ on_time t' log
  end.

Definition head_at (P : Z -> Prop) (ring : list RtCmd) : Prop := forall c, head ring = Some c -> P (rc_at c).

Lemma wholes_app l1 l2 rest : wholes l1 (all_cmds l2 ++ rest) -> wholes l2 rest -> wholes (l1 ++ l2) rest.
Proof.
  intros H1 H2. induction l1 as [|[t g] l1 IH]; cbn in *; [done|]. destruct H1 as [(c & Hc & Hd & Hg) H1]. split; [|auto].
  exists c. split_and!; [done|done|]. rewrite Hg at 1. unfold all_cmds. by rewrite fmap_app, concat_app, <-app_assoc.
Qed.

Lemma on_time_app now t l1 l2 :
  Forall (fun e => e.1 = now) l1 -> t <= now -> on_time t l1 -> (forall t', t <= t' <= now -> on_time t' l2) -> on_time t (l1 ++ l2).
Proof.
  intros Hn Ht H1 H2. revert t Ht H1 H2. induction l1 as [|[t1 g] l1 IH]; intros t Ht H1 H2; cbn in *.
  - apply H2. lia.
  - apply Forall_cons in Hn as [Hn1 Hn]. cbn in Hn1. subst t1. destruct H1 as [Hg H1]. split; [done|].
    apply IH; [done|lia|done|]. intros t' Ht'. apply H2. lia.
Qed.

(** *** The course of a block *)

(** What a processor does in a block: it takes a group off its ring and applies
    it, or renders the next [n] frames. *)
Inductive Move := Takes (g : list RtCmd) | Renders (n : nat).

(** The processor after a group's operations, in their order. *)
Definition applied (g : list RtCmd) (p : Processor) : option Processor :=
  foldl (fun o c => p ← o; rt_apply (rc_op c) p) (Some p) g.

Lemma applied_cmds g p p' : apply_cmds g p = Some p' -> applied g p = Some p'.
Proof.
  revert p. induction g as [|c g IH]; intros p; cbn [apply_cmds]; [done|].
  destruct (rt_apply (rc_op c) p) as [q|] eqn:Hq; cbn [mbind option_bind]; [|done].
  intros Hg. apply IH in Hg. unfold applied in *. cbn. by rewrite Hq.
Qed.

#[local] Arguments applied : simpl never.

(** The moves carried out from frame [done] on; every rendering starts where the
    one before it ended. *)
Fixpoint replay (moves : list Move) (done : nat) (p : Processor) (b : Block) : option (nat * Processor * Block) :=
  match moves with
  | [] => Some (done, p, b)
  | Takes g :: moves =>
      p ← applied g (set_cmds (drop (length g) (rg_cmds (p_rings p))) p);
      replay moves done p b
  | Renders n :: moves =>
      let '(p, b) := render done n p b in
      replay moves (done + n) (advance n p) b
  end.

(** The groups the moves take, each with the sample it is applied at. *)
Fixpoint groups_at (t : Z) (moves : list Move) : Log :=
  match moves with
  | [] => []
  | Takes g :: moves => (t, g) :: groups_at t moves
  | Renders n :: moves => groups_at (t + Z.of_nat n) moves
  end.

Definition move_ok (m : Move) : Prop := match m with Takes g => (0 < length g)%nat | Renders n => (0 < n <= SEG)%nat end.

Lemma replay_app m1 m2 at_ p b :
  replay (m1 ++ m2) at_ p b = '(at_, p, b) ← replay m1 at_ p b; replay m2 at_ p b.
Proof.
  revert at_ p b. induction m1 as [|[g|n] m1 IH]; intros at_ p b; cbn; [done| |].
  - destruct (applied g _); cbn; [apply IH|done].
  - destruct (render at_ n p b). apply IH.
Qed.

Lemma groups_at_takes t gs moves : groups_at t ((Takes <$> gs) ++ moves) = ((t,.) <$> gs) ++ groups_at t moves.
Proof. induction gs as [|g gs IH]; cbn; [done|by rewrite IH]. Qed.

Lemma log_at t (log : Log) : Forall (fun e => e.1 = t) log -> ((t,.) <$> log.*2) = log.
Proof. induction 1 as [|[t' g] log Ht _ IH]; cbn in *; [done|]. by rewrite Ht, IH. Qed.

(** The commands due at a segment's start. *)
Lemma apply_due_spec fuel budget p p' left waits :
  apply_due_fuel fuel budget p = Some (p', left, waits) -> (length (rg_cmds (p_rings p)) <= fuel)%nat ->
  exists log,
    Forall (fun e => e.1 = p_time p) log
    /\ rg_cmds (p_rings p) = all_cmds log ++ rg_cmds (p_rings p')
    /\ wholes log (rg_cmds (p_rings p')) /\ (length (all_cmds log) + left <= budget)%nat
    /\ (waits = true \/ head_at (fun at_ => p_time p < at_) (rg_cmds (p_rings p')))
    /\ (forall t, t <= p_time p -> t = p_time p \/ head_at (fun at_ => p_time p <= at_) (rg_cmds (p_rings p)) -> on_time t log)
    /\ ran (all_cmds log) p p' /\ p_time p' = p_time p /\ p_topo p' = p_topo p /\ rc_deferred (p_status p') = rc_deferred (p_status p)
    /\ Forall (fun g => (0 < length g)%nat) log.*2 /\ forall done b, replay (Takes <$> log.*2) done p b = Some (done, p', b).
Proof.
  assert (Hnil : forall p w, (w = true \/ head_at (fun at_ => p_time p < at_) (rg_cmds (p_rings p))) ->
    exists log, Forall (fun e => e.1 = p_time p) log /\ rg_cmds (p_rings p) = all_cmds log ++ rg_cmds (p_rings p)
    /\ wholes log (rg_cmds (p_rings p)) /\ (length (all_cmds log) + budget <= budget)%nat
    /\ (w = true \/ head_at (fun at_ => p_time p < at_) (rg_cmds (p_rings p)))
    /\ (forall t, t <= p_time p -> t = p_time p \/ head_at (fun at_ => p_time p <= at_) (rg_cmds (p_rings p)) -> on_time t log)
    /\ ran (all_cmds log) p p /\ p_time p = p_time p /\ p_topo p = p_topo p /\ rc_deferred (p_status p) = rc_deferred (p_status p)
    /\ Forall (fun g => (0 < length g)%nat) log.*2 /\ forall done b, replay (Takes <$> log.*2) done p b = Some (done, p, b)).
  { intros q w Hw. exists []. by split_and!. }
  revert budget p Hnil. induction fuel as [|fuel IH]; intros budget p Hnil; cbn [apply_due_fuel].
  { intros [= <- <- <-] Hf. apply Hnil. right. destruct (rg_cmds (p_rings p)); [done|cbn in Hf; lia]. }
  destruct (rg_cmds (p_rings p)) as [|c cmds] eqn:Hcmds; [intros [= <- <- <-] _; rewrite <-Hcmds; apply Hnil; right; by rewrite Hcmds|].
  destruct (Z.ltb_spec (p_time p) (rc_at c)) as [Hat|Hat].
  { intros [= <- <- <-] _. rewrite <-Hcmds. apply Hnil. right. rewrite Hcmds. by intros c' [= <-]. }
  fold (group_len c). destruct (Nat.ltb_spec budget (group_len c)) as [Hb|Hb].
  { intros [= <- <- <-] _. rewrite <-Hcmds. apply Hnil. by left. }
  set (g := take (group_len c) (c :: cmds)). set (rest := drop (group_len c) (c :: cmds)).
  destruct (apply_cmds g (set_cmds rest p)) as [q|] eqn:Hq; cbn [mbind option_bind]; [|done]. intros Hr Hf.
  pose proof Hq as Happ. apply apply_cmds_spec in Hq as [Hran (Ht & Hc & Htime & Hdf)].
  assert (Hpos : (0 < group_len c)%nat) by (unfold group_len; lia).
  assert (Hg : head g = Some c) by (unfold g; destruct (group_len c); [lia|done]).
  assert (Hcut : c :: cmds = g ++ rest) by by unfold g, rest; rewrite take_drop.
  change (rg_cmds (p_rings (set_cmds rest p))) with rest in Hc. change (p_time (set_cmds rest p)) with (p_time p) in Htime.
  change (p_topo (set_cmds rest p)) with (p_topo p) in Ht. change (p_status (set_cmds rest p)) with (p_status p) in Hdf.
  apply IH in Hr as (log & Hl1 & Hl2 & Hl3 & Hl4 & Hl5 & Hl6 & Hl7 & Hl8 & Hl9 & Hl10 & Hl11 & Hl12).
  2:{ intros q' w Hw. exists []. by split_and!. }
  2:{ rewrite Hc. unfold rest. rewrite length_drop. cbn in *. lia. }
  rewrite Htime in *. rewrite Hc in *.
  exists ((p_time p, g) :: log). change (all_cmds ((p_time p, g) :: log)) with (g ++ all_cmds log). split_and!; try congruence.
  - by constructor.
  - by rewrite Hcut, Hl2, <-app_assoc.
  - split; [|done]. exists c. split_and!; [done|lia|]. by rewrite <-Hl2, <-Hcut.
  - rewrite length_app. assert (length g <= group_len c)%nat by (unfold g; rewrite length_take; lia). lia.
  - intros t Hle Hor. cbn. split; [|apply Hl6; [lia|by left]]. intros c' Hc'. rewrite Hg in Hc'. injection Hc' as <-.
    destruct Hor as [->|Hh]; [lia|]. specialize (Hh c eq_refl). cbn in Hh. lia.
  - eapply ran_app; [|exact Hl7]. by eapply ran_from.
  - cbn. constructor; [destruct g; [done|cbn; lia]|done].
  - intros done b. cbn. rewrite Hcmds, Hcut, drop_app_length, (applied_cmds _ _ _ Happ). apply Hl12.
Qed.

(** ** Segments *)

Lemma cut_bounds time at_ n : (0 < n)%nat -> (0 < cut time at_ n <= n)%nat.
Proof. unfold cut. destruct (Z.ltb_spec time at_); lia. Qed.

Lemma segment_bounds frames done budget next test_end time :
  (done < frames)%nat -> (0 < segment frames done budget next test_end time <= Nat.min (frames - done) SEG)%nat.
Proof.
  intros Hd. unfold segment. set (n := Nat.min (frames - done) SEG). assert (0 < n)%nat by (unfold n, SEG; lia).
  set (n1 := match next with Some at_ => _ | None => n end).
  assert (0 < n1 <= n)%nat by (unfold n1; destruct next; [|lia]; destruct (0 <? budget)%nat; [by apply cut_bounds|lia]).
  destruct test_end as [at_|]; [|done]. pose proof (cut_bounds time at_ n1). lia.
Qed.

Lemma segment_next frames done budget at_ test_end time :
  (done < frames)%nat -> (0 < budget)%nat -> time < at_ ->
  time + Z.of_nat (segment frames done budget (Some at_) test_end time) <= at_.
Proof.
  intros Hd Hb Ht. unfold segment. destruct (Nat.ltb_spec 0 budget); [|lia].
  set (n := Nat.min (frames - done) SEG). assert (0 < n)%nat by (unfold n, SEG; lia).
  assert (Hc : time + Z.of_nat (cut time at_ n) <= at_) by (unfold cut; destruct (Z.ltb_spec time at_); lia).
  pose proof (cut_bounds time at_ n). destruct test_end as [e|]; [|done]. pose proof (cut_bounds time e (cut time at_ n)). lia.
Qed.

(** The account of the rest of a block, from a segment's start. *)
Record account (frames : Z) (budget : nat) (log : Log) (late : bool) (p p' : Processor) : Prop := {
  ac_ring : rg_cmds (p_rings p) = all_cmds log ++ rg_cmds (p_rings p');
  ac_wholes : wholes log (rg_cmds (p_rings p'));
  ac_budget : (length (all_cmds log) <= budget)%nat;
  ac_within : Forall (fun e => p_time p <= e.1 < p_time p + frames) log;
  ac_on_time : late = false -> forall t, t <= p_time p ->
    t = p_time p \/ head_at (fun at_ => p_time p <= at_) (rg_cmds (p_rings p)) -> on_time t log;
  ac_rest : late = false -> 0 < frames -> head_at (fun at_ => p_time p' <= at_) (rg_cmds (p_rings p'));
  ac_ran : ran (all_cmds log) p p';
  ac_time : p_time p' = p_time p + frames;
  ac_topo : p_topo p' = p_topo p;
  ac_deferred : rc_deferred (p_status p') = rc_deferred (p_status p);
}.

Lemma advance_time n p : p_time p + Z.of_nat n <= u64_max -> 0 <= p_time p -> p_time (advance n p) = p_time p + Z.of_nat n.
Proof. intros Hm Hp. cbn. unfold u64_wrapping_add. apply Z.mod_small. unfold u64_max in *. fold (p_time p). lia. Qed.

Lemma account_nil budget late p p' : same_env p p' -> p_targets p' = p_targets p -> account 0 budget [] late p p'.
Proof.
  intros (Ht & Hc & Htime & Hdf) Hp. split; try done; [cbn; lia|by apply ran_same|lia].
Qed.

Lemma process_loop_account fuel done budget late p b p' b' late' :
  process_loop fuel done budget late p b = Some (p', b', late') ->
  (done <= bk_frames b)%nat -> (bk_frames b - done <= fuel)%nat -> 0 <= p_time p ->
  p_time p + Z.of_nat (bk_frames b - done) <= u64_max ->
  (exists moves, account (Z.of_nat (bk_frames b - done)) budget (groups_at (p_time p) moves) late' p p'
     /\ replay moves done p b = Some (bk_frames b, p', b') /\ Forall move_ok moves)
  /\ (late = true -> late' = true) /\ bk_frames b' = bk_frames b.
Proof.
  revert done budget late p b. induction fuel as [|fuel IH]; intros done budget late p b; cbn [process_loop].
  { intros [= <- <- <-] Hle Hf _ _. replace (bk_frames b - done)%nat with 0%nat by lia. split_and!; try done. exists [].
    split_and!; [by apply account_nil| |constructor]. cbn. do 2 f_equal. f_equal. lia. }
  destruct (Nat.leb_spec (bk_frames b) done) as [Hd|Hd].
  { intros [= <- <- <-] Hle Hf _ _. replace (bk_frames b - done)%nat with 0%nat by lia. split_and!; try done. exists [].
    split_and!; [by apply account_nil| |constructor]. cbn. do 2 f_equal. f_equal. lia. }
  destruct (apply_due budget p) as [[[p1 left] waits]|] eqn:Hdue; cbn [mbind option_bind]; [|done].
  unfold apply_due in Hdue. apply apply_due_spec in Hdue as (log1 & Hl1 & Hl2 & Hl3 & Hl4 & Hl5 & Hl6 & Hl7 & Hl8 & Hl9 & Hl10 & Hl11 & Hl12); [|lia].
  set (next := rc_at <$> head (rg_cmds (p_rings p1))).
  set (n := segment (bk_frames b) done left next (te_end <$> p_test p1) (p_time p1)).
  set (spent := _ && _).
  destruct (render done n p1 b) as [p2 b2] eqn:Hr.
  pose proof (render_env done n p1 b) as [(He1 & He2 & He3 & He4) Hfr]. pose proof (render_t done n p1 b) as Ht.
  rewrite Hr in *. cbn [fst snd] in *. intros Hloop Hle Hf Hge Hmax.
  pose proof (segment_bounds (bk_frames b) done left next (te_end <$> p_test p1) (p_time p1) Hd) as Hn. fold n in Hn.
  assert (Htime : p_time (advance n p2) = p_time p + Z.of_nat n) by (rewrite advance_time; rewrite ?He3, ?Hl8; lia).
  apply IH in Hloop as [(moves & [R1 R2 R3 R4 R5 R6 R7 R8 R9 R10] & Hre & Hmo) [Hlate Hfr']]; [|lia..].
  change (rg_cmds (p_rings (advance n p2))) with (rg_cmds (p_rings p2)) in *. change (p_topo (advance n p2)) with (p_topo p2) in *.
  change (p_status (advance n p2)) with (p_status p2) in *.
  rewrite Hfr in *. rewrite Htime in *. rewrite He2 in *. set (log2 := groups_at (p_time p + Z.of_nat n) moves) in *.
  split; [|split; [|congruence]]. 2:{ intros Hl. apply Hlate. by rewrite Hl. }
  assert (Hnext : late' = false -> head_at (fun at_ => p_time p + Z.of_nat n <= at_) (rg_cmds (p_rings p1))).
  { intros Hf'. assert (Hno : late || waits || spent = false) by (destruct (late || waits || spent); [by rewrite Hlate in Hf'|done]).
    apply orb_false_iff in Hno as [[_ Hw]%orb_false_iff Hsp]. destruct Hl5 as [Hl5|Hl5]; [congruence|].
    intros c Hc. specialize (Hl5 c Hc). cbn in Hl5. unfold spent, n, next in *. rewrite Hc in *. cbn [fmap option_fmap option_map] in *.
    destruct (Nat.eqb_spec left 0) as [->|Hz]; cbn [andb] in *.
    - apply Z.ltb_ge in Hsp. lia.
    - rewrite <-Hl8. apply segment_next; lia. }
  exists ((Takes <$> log1.*2) ++ Renders n :: moves).
  rewrite groups_at_takes, log_at by done. change (groups_at (p_time p) (Renders n :: moves)) with log2.
  split; [|split].
  2:{ rewrite replay_app, Hl12. cbn. by rewrite Hr. }
  2:{ apply Forall_app. split; [by apply Forall_fmap|]. constructor; [cbn; lia|done]. }
  assert (Hall : all_cmds (log1 ++ log2) = all_cmds log1 ++ all_cmds log2)
    by (unfold all_cmds; by rewrite fmap_app, concat_app).
  split; rewrite ?Hall.
  - by rewrite Hl2, R1, <-app_assoc.
  - apply wholes_app; [|done]. by rewrite <-R1.
  - rewrite length_app. lia.
  - apply Forall_app; split; [|eapply Forall_impl; [exact R4|]; cbn; lia].
    eapply Forall_impl; [exact Hl1|]. cbn. lia.
  - intros Hf' t Ht0 Hor. apply on_time_app with (p_time p); [done|done|by apply Hl6|].
    intros t' [_ Ht']. apply R5; [done|lia|]. right. by apply Hnext.
  - intros Hf' _. rewrite R8. destruct (decide (bk_frames b - (done + n) = 0)%nat) as [Hz|Hz].
    + assert (Hnil : log2 = []).
      { clear -R4 Hz. destruct log2 as [|e log2]; [done|]. apply Forall_cons in R4 as [R4 _]. lia. }
      rewrite Hnil in R1. cbn in R1. rewrite <-R1. rewrite Hz, Z.add_0_r. by apply Hnext.
    + rewrite R8 in R6. apply R6; [done|lia].
  - eapply ran_app; [exact Hl7|]. eapply ran_from; [exact R7|]. exact Ht.
  - rewrite R8. lia.
  - congruence.
  - congruence.
Qed.
(** ** A block *)

Lemma note_late_same late p :
  p_targets (note_late late p) = p_targets p /\ p_rings (note_late late p) = p_rings p /\ p_clock (note_late late p) = p_clock p
  /\ p_topo (note_late late p) = p_topo p
  /\ rc_deferred (p_status (note_late late p)) = if late then u64_wrapping_add (rc_deferred (p_status p)) 1 else rc_deferred (p_status p).
Proof. by destruct late. Qed.

(** What follows a block's last segment: the late block is counted and, when they
    are due, the meters are published. *)
Definition block_end (late : bool) (frames : nat) (p : Processor) : Processor :=
  let p := note_late late p in
  let c := p_clock p in
  let since := u64_wrapping_add (ck_since_meter c) (Z.of_nat frames) in
  let due := METER_PERIOD <=? since in
  let p := set_clock_rt (mkClock (ck_time c) (if due then since mod METER_PERIOD else since) (ck_seq c) (ck_trips c)) p in
  if due then publish_meters p else p.

(** The account of a block, and the count of those that were late. *)
Lemma process_account p b p' b' :
  process p b = Some (p', b') -> 0 <= p_time p -> p_time p + Z.of_nat (bk_frames b) <= u64_max ->
  exists moves late q,
    account (Z.of_nat (bk_frames b)) MAX_CMDS_PER_BLOCK (groups_at (p_time p) moves) late p q
    /\ (replay moves 0 p b = Some (bk_frames b, q, b') /\ Forall move_ok moves /\ p' = block_end late (bk_frames b) q)
    /\ p_targets p' = p_targets q /\ p_rings p' = p_rings q /\ p_time p' = p_time q /\ p_topo p' = p_topo q
    /\ rc_deferred (p_status p') = (if late then u64_wrapping_add (rc_deferred (p_status p)) 1 else rc_deferred (p_status p))
    /\ bk_frames b' = bk_frames b
    /\ process_loop (bk_frames b) 0 MAX_CMDS_PER_BLOCK false p b = Some (q, b', late).
Proof.
  unfold process. intros Hp Hge Hmax.
  destruct (process_loop _ _ _ _ _ _) as [[[q b1] late]|] eqn:Hl; cbn [mbind option_bind] in Hp; [|done].
  pose proof Hl as Hl'. apply process_loop_account in Hl as [(moves & Hacc & Hre & Hmo) [_ Hb]]; [|lia|lia|done|by rewrite Nat.sub_0_r].
  rewrite Nat.sub_0_r in Hacc. exists moves, late, q. split; [done|]. assert (Hend : p' = block_end late (bk_frames b) q /\ b' = b1) by (by injection Hp as <- <-).
  destruct Hend as [Hend ->]. split; [by split_and!|]. clear Hend. pose proof (note_late_same late q) as (H1 & H2 & H3 & H4 & H5).
  rewrite (ac_deferred _ _ _ _ _ _ Hacc) in H5. injection Hp as <-.
  destruct (METER_PERIOD <=? _); [rewrite publish_meters_t|]; (split_and!; [exact H1|exact H2| |exact H4|exact H5|exact Hb|done]);
    unfold p_time; cbn; by rewrite H3.
Qed.

(** Only [RtPanic] stops a processor. *)
Definition no_panic (cmds : list RtCmd) : Prop := Forall (fun c => rc_op c <> RtPanic) cmds.

Lemma apply_cmds_total cmds p : no_panic cmds -> is_Some (apply_cmds cmds p).
Proof.
  revert p. induction cmds as [|c cmds IH]; intros p Hn; cbn [apply_cmds]; [by eexists|].
  apply Forall_cons in Hn as [Hc Hn]. destruct (rt_apply (rc_op c) p) as [q|] eqn:Hq; cbn; [by apply IH|].
  exfalso. by destruct (rc_op c).
Qed.

Lemma apply_due_total fuel budget p : no_panic (rg_cmds (p_rings p)) -> is_Some (apply_due_fuel fuel budget p).
Proof.
  revert budget p. induction fuel as [|fuel IH]; intros budget p Hn; cbn [apply_due_fuel]; [by eexists|].
  destruct (rg_cmds (p_rings p)) as [|c cmds] eqn:Hcmds; [by eexists|].
  destruct (_ <? _); [by eexists|]. destruct (_ <? _)%nat; [by eexists|].
  set (len := Z.to_nat _). rewrite <-(take_drop len (c :: cmds)) in Hn. apply Forall_app in Hn as [Ht Hd].
  destruct (apply_cmds_total (take len (c :: cmds)) (set_cmds (drop len (c :: cmds)) p) Ht) as [q Hq]. rewrite Hq. cbn [mbind option_bind].
  apply IH. apply apply_cmds_spec in Hq as [_ (_ & -> & _)]. done.
Qed.

Lemma process_total p b : no_panic (rg_cmds (p_rings p)) -> is_Some (process p b).
Proof.
  intros Hn. unfold process.
  assert (Hl : forall fuel done budget late p b, no_panic (rg_cmds (p_rings p)) -> is_Some (process_loop fuel done budget late p b)).
  { clear. intros fuel. induction fuel as [|fuel IH]; intros done budget late p b Hn; cbn [process_loop]; [by eexists|].
    destruct (_ <=? _)%nat; [by eexists|].
    destruct (apply_due_total (length (rg_cmds (p_rings p))) budget p Hn) as [[[p1 left] waits] Hdue].
    unfold apply_due. rewrite Hdue. cbn [mbind option_bind].
    apply apply_due_spec in Hdue as (log & _ & Hc & _); [|lia]. unfold no_panic in Hn. rewrite Hc in Hn. apply Forall_app in Hn as [_ Hn].
    set (n := segment _ _ _ _ _ _). pose proof (render_env done n p1 b) as [(_ & Hcm & _) _].
    destruct (render done n p1 b) as [p2 b2]. apply IH. cbn in *. by rewrite Hcm. }
  destruct (Hl (bk_frames b) 0%nat MAX_CMDS_PER_BLOCK false p b Hn) as [[[q b1] late] ->]. by eexists.
Qed.
(** ** A ring of whole groups *)

Inductive grouped : list RtCmd -> Prop :=
| grouped_nil : grouped []
| grouped_cons c g rest : length (c :: g) = group_len c -> grouped rest -> grouped ((c :: g) ++ rest).

Lemma grouped_inv c ring :
  grouped (c :: ring) -> (group_len c <= length (c :: ring))%nat /\ grouped (drop (group_len c) (c :: ring)).
Proof.
  intros Hg. inversion Hg as [|c' g rest Hl Hr Heq]; subst. rewrite <-Hl. split.
  - cbn [length]. rewrite length_app. lia.
  - pose proof (drop_app_length (c :: g) rest) as Hd. cbn [app] in Hd. by rewrite Hd.
Qed.

(** Within the budget no group waits. *)
Lemma apply_due_grouped fuel budget p p' left waits :
  apply_due_fuel fuel budget p = Some (p', left, waits) -> grouped (rg_cmds (p_rings p)) ->
  (length (rg_cmds (p_rings p)) <= budget)%nat ->
  waits = false /\ grouped (rg_cmds (p_rings p')) /\ (length (rg_cmds (p_rings p')) <= left)%nat.
Proof.
  revert budget p. induction fuel as [|fuel IH]; intros budget p; cbn [apply_due_fuel]; [by intros [= <- <- <-]|].
  destruct (rg_cmds (p_rings p)) as [|c cmds] eqn:Hcmds; [intros [= <- <- <-]; by rewrite Hcmds|].
  destruct (_ <? _); [intros [= <- <- <-]; by rewrite Hcmds|]. fold (group_len c).
  intros Hr Hg Hb. destruct (grouped_inv _ _ Hg) as [Hlen Hrest].
  destruct (Nat.ltb_spec budget (group_len c)); [lia|].
  destruct (apply_cmds _ _) as [q|] eqn:Hq; cbn [mbind option_bind] in Hr; [|done].
  apply apply_cmds_spec in Hq as [_ (_ & Hc & _)]. cbn in Hc. apply IH in Hr; [done|by rewrite Hc|].
  rewrite Hc, length_drop. cbn [length] in *. lia.
Qed.

Lemma process_loop_grouped fuel done budget late p b p' b' late' :
  process_loop fuel done budget late p b = Some (p', b', late') -> grouped (rg_cmds (p_rings p)) ->
  (length (rg_cmds (p_rings p)) <= budget)%nat -> late' = late.
Proof.
  revert done budget late p b. induction fuel as [|fuel IH]; intros done budget late p b; cbn [process_loop]; [by intros [= <- <- <-]|].
  destruct (_ <=? _)%nat; [by intros [= <- <- <-]|].
  destruct (apply_due budget p) as [[[p1 left] waits]|] eqn:Hdue; cbn [mbind option_bind]; [|done].
  intros Hloop Hg Hb. apply apply_due_grouped in Hdue as (-> & Hg1 & Hb1); [|done..].
  set (n := segment _ _ _ _ _ _) in *. set (spent := _ && _) in *. assert (Hspent : spent = false).
  { unfold spent. destruct (Nat.eqb_spec left 0) as [->|]; [|done]. destruct (rg_cmds (p_rings p1)); [done|cbn in Hb1; lia]. }
  rewrite Hspent, !orb_false_r in Hloop. pose proof (render_env done n p1 b) as [(_ & Hc & _) _].
  destruct (render done n p1 b) as [p2 b2]. apply IH in Hloop; [done|by cbn in *; rewrite Hc..].
Qed.

(** A ring within the budget leaves no block late. *)
Lemma process_grouped p b p' b' :
  process p b = Some (p', b') -> grouped (rg_cmds (p_rings p)) -> (length (rg_cmds (p_rings p)) <= MAX_CMDS_PER_BLOCK)%nat ->
  exists q b1, process_loop (bk_frames b) 0 MAX_CMDS_PER_BLOCK false p b = Some (q, b1, false).
Proof.
  unfold process. intros Hp Hg Hl. destruct (process_loop _ _ _ _ _ _) as [[[q b1] late]|] eqn:Hloop; [|done].
  pose proof (process_loop_grouped _ _ _ _ _ _ _ _ _ Hloop Hg Hl) as ->. by exists q, b1.
Qed.
End sched.
