(* ===== verification/RtSafe.v ===== *)
(** * What sounds where: the outputs of a block

    A segment writes only its own samples, and while a HIL test signal runs it
    writes silence to every output of the topology and to every spare output the
    signal's mask leaves out ([process_silent]). *)

From S2P Require Import Prelude F64 Text MixState Msg Shape Topology TopologyWf Reconciled Rt Core Wire Control Dsp Mga Processor Render RtTargets RtHolds RtSched.
From stdpp Require Import options.
Local Open Scope Z_scope.
#[local] Unset Default Proof Using.

(** ** A channel's samples *)

(** Only the segment's samples changed. *)
Definition kept (off n : nat) (l l' : list f64) : Prop :=
  length l' = length l /\ forall i, (i < off \/ off + n <= i)%nat -> l' !! i = l !! i.

(** The segment's samples are silent. *)
Definition quiet (off n : nat) (l : list f64) : Prop := forall i, (off <= i < off + n)%nat -> (i < length l)%nat -> l !! i = Some f64_0.

#[export] Instance kept_preorder off n : PreOrder (kept off n).
Proof. split; [by intros l|]. intros a b c [? Hab] [? Hbc]. split; [congruence|]. intros i Hi. by rewrite Hbc, Hab. Qed.

Lemma slice_Some off n l old : slice off n l = Some old <-> (off + n <= length l)%nat /\ old = take n (drop off l).
Proof. unfold slice. destruct (Nat.leb_spec (off + n) (length l)); split; [intros [= <-]; done|intros [_ ->]; done|done|lia]. Qed.

Lemma write_slice_kept off n l new : (off + n <= length l)%nat -> length new = n -> kept off n l (write_slice off new l).
Proof.
  intros Hl Hn. unfold write_slice. split.
  - rewrite !length_app, length_take, length_drop. lia.
  - intros i Hi. destruct Hi.
    + rewrite lookup_app_l, lookup_take_lt by (rewrite ?length_take; lia). done.
    + rewrite !lookup_app_r; rewrite ?length_take; [|lia..]. rewrite lookup_drop. f_equal. lia.
Qed.

Lemma write_slice_at off n l new i :
  (off + n <= length l)%nat -> length new = n -> (off <= i < off + n)%nat -> write_slice off new l !! i = new !! (i - off)%nat.
Proof.
  intros Hl Hn Hi. unfold write_slice. rewrite lookup_app_r, lookup_app_l; rewrite ?length_take; [|lia..]. f_equal. lia.
Qed.

Lemma silence_at l i : (i < length l)%nat -> silence l !! i = Some f64_0.
Proof. intros Hi. unfold silence. by apply lookup_replicate_2. Qed.

Lemma length_silence l : length (silence l) = length l.
Proof. apply length_replicate. Qed.

Lemma length_copy dst src : length (copy dst src) = length dst.
Proof. unfold copy. rewrite length_app, length_zip_with, length_drop. lia. Qed.

(** ** Outputs written *)

Definition outs_kept (off n : nat) (b b' : Block) : Prop :=
  bk_frames b' = bk_frames b /\ bk_in b' = bk_in b /\ forall c, kept off n (bk_out b c) (bk_out b' c).

#[export] Instance outs_kept_preorder off n : PreOrder (outs_kept off n).
Proof.
  split; [by intros b|]. intros a b c (Hf1 & Hi1 & H1) (Hf2 & Hi2 & H2). split_and!; [congruence..|]. intros ch. etrans; [apply H1|apply H2].
Qed.

Lemma on_output_kept ch off n f b : (forall old, length old = n -> length (f old) = n) -> outs_kept off n b (on_output ch off n f b).
Proof.
  intros Hf. unfold on_output. destruct (slice off n (bk_out b ch)) as [old|] eqn:Hs; [|done].
  apply slice_Some in Hs as [Hl ->]. split_and!; [done..|]. intros c. cbn. destruct (Nat.eqb_spec c ch) as [->|]; [|done].
  apply write_slice_kept; [done|]. apply Hf. rewrite length_take, length_drop. lia.
Qed.

(** A channel written silent, or left silent. *)
Lemma on_output_quiet ch off n f b c :
  (forall old, length old = n -> f old = silence old) -> (off + n <= length (bk_out b c))%nat ->
  c = ch \/ quiet off n (bk_out b c) -> quiet off n (bk_out (on_output ch off n f b) c).
Proof.
  intros Hf Hl Hor. unfold on_output. destruct (slice off n (bk_out b ch)) as [old|] eqn:Hs.
  - apply slice_Some in Hs as [Hl' ->]. cbn. destruct (Nat.eqb_spec c ch) as [->|Hne]; [|by destruct Hor].
    assert (Hlen : length (take n (drop off (bk_out b ch))) = n) by (rewrite length_take, length_drop; lia).
    rewrite Hf by done. intros i Hi _. rewrite write_slice_at with (n := n); [|done|by rewrite length_silence|done].
    apply silence_at. lia.
  - destruct Hor as [->|Hq]; [|done]. unfold slice in Hs. destruct (Nat.leb_spec (off + n) (length (bk_out b ch))); [done|lia].
Qed.

(** A channel not written. *)
Lemma on_output_other ch off n f b c : c <> ch -> bk_out (on_output ch off n f b) c = bk_out b c.
Proof. intros Hne. unfold on_output. destruct (slice _ _ _); [|done]. cbn. by destruct (Nat.eqb_spec c ch). Qed.

Lemma put_tx_kept silent off n ch src b : outs_kept off n b (put_tx silent off n ch src b).
Proof.
  unfold put_tx. destruct ch as [ch|]; [|done]. apply on_output_kept. intros old Hl.
  destruct silent; by rewrite ?length_silence, ?length_copy.
Qed.

Lemma put_tx_quiet off n ch src b c :
  (off + n <= length (bk_out b c))%nat -> ch = Some c \/ quiet off n (bk_out b c) -> quiet off n (bk_out (put_tx true off n ch src b) c).
Proof.
  intros Hl Hor. unfold put_tx. destruct ch as [ch|]; [|by destruct Hor]. apply on_output_quiet; [done|done|].
  destruct Hor as [[= ->]|]; auto.
Qed.

(** ** The mixes' outputs *)

Definition has_tx (spec : MixNode) (c : nat) : Prop := (mn_tx spec).1 = Some c \/ (mn_tx spec).2 = Some c.

Section mixes.
Context `{Libm, RtMath}.

Lemma render_mix_kept topo listen t sine fade off n m s :
  outs_kept off n (mx_block s) (mx_block (render_mix topo listen t sine fade off n m s))
  /\ (hil t = true -> forall c, (off + n <= length (bk_out (mx_block s) c))%nat ->
      (m < length (mx_mixes s))%nat /\ (exists spec, t_mixes topo !! m = Some spec /\ has_tx spec c) \/ quiet off n (bk_out (mx_block s) c) ->
      quiet off n (bk_out (mx_block (render_mix topo listen t sine fade off n m s)) c)).
Proof.
  unfold render_mix. destruct (t_mixes topo !! m) as [spec|] eqn:Hspec; [|split; [done|]; intros _ c _ [(_ & spec & [=] & _)|?]; done].
  destruct (mx_mixes s !! m) as [mix|] eqn:Hmix;
    [|split; [done|]; intros _ c _ [(Hlt & _)|?]; [apply lookup_ge_None in Hmix; lia|done]].
  destruct (sum_mixes mr_sum _ _ _ _ _ _ _) as [levels1 x1]. destruct (sum_mixes own_out _ _ _ _ _ _ _) as [levels2 x2].
  destruct (eq_through _ _) as [eq x3]. destruct (ml_process _ _) as [limiter x4].
  set (s1 := if bool_decide _ then push_listen 0 x4 t sine fade s else s).
  assert (Hs1 : mx_block s1 = mx_block s) by (unfold s1; case_bool_decide; [apply push_listen_block|done]). clearbody s1.
  destruct (stereo_gain _ _) as [fader x5]. destruct (check2 _ _) as [[count tripped] x6].
  match goal with |- context [if bool_decide ?P then ?a else s1] => set (s2 := if bool_decide P then a else s1) end.
  assert (Hs2 : mx_block s2 = mx_block s).
  { unfold s2. case_bool_decide; [|done]. destruct (lim_process _ _ _) as [lim y]. rewrite push_listen_block. done. }
  clearbody s2. destruct (tx_walk _ _ _ _ _ _) as [safety [tl tr]]. cbn [mx_block]. rewrite Hs2. clear Hs1 Hs2.
  set (b1 := put_tx (hil t) off n (mn_tx spec).1 tl (mx_block s)).
  assert (Hk1 : outs_kept off n (mx_block s) b1) by apply put_tx_kept.
  split; [etrans; [exact Hk1|apply put_tx_kept]|]. intros Ht c Hl Hor.
  assert (Hl1 : (off + n <= length (bk_out b1 c))%nat) by (destruct Hk1 as (_ & _ & Hk1); destruct (Hk1 c) as [-> _]; done).
  assert (Hq1 : (mn_tx spec).1 = Some c \/ quiet off n (bk_out (mx_block s) c) -> quiet off n (bk_out b1 c))
    by (unfold b1; rewrite Ht; by apply put_tx_quiet).
  clearbody b1. rewrite Ht. apply put_tx_quiet; [done|].
  destruct Hor as [(_ & spec' & [= <-] & [Htx|Htx])|Hq]; [right; apply Hq1; by left|by left|right; apply Hq1; by right].
Qed.

Lemma render_order_kept topo listen t sine fade off n order s :
  let f s m := render_mix topo listen t sine fade off n m s in
  outs_kept off n (mx_block s) (mx_block (foldl f s order))
  /\ (hil t = true -> forall c, (off + n <= length (bk_out (mx_block s) c))%nat ->
      (exists m spec, m ∈ order /\ (m < length (mx_mixes s))%nat /\ t_mixes topo !! m = Some spec /\ has_tx spec c)
        \/ quiet off n (bk_out (mx_block s) c) ->
      quiet off n (bk_out (mx_block (foldl f s order)) c)).
Proof.
  cbn. revert s. induction order as [|m order IH]; intros s; cbn [foldl].
  { split; [done|]. intros _ c _ [(m & spec & []%elem_of_nil & _)|Hq]; done. }
  pose proof (render_mix_kept topo listen t sine fade off n m s) as [Hk Hq].
  pose proof (render_mix_t topo listen t sine fade off n m s) as Hlen. apply (f_equal length) in Hlen. rewrite !length_fmap in Hlen.
  set (s1 := render_mix topo listen t sine fade off n m s) in *. clearbody s1. destruct (IH s1) as [IHk IHq].
  split; [by etrans|]. intros Ht c Hl Hor.
  assert (Hl1 : (off + n <= length (bk_out (mx_block s1) c))%nat) by (destruct Hk as (_ & _ & Hk); destruct (Hk c) as [-> _]; done).
  apply IHq; [done|done|]. destruct Hor as [(m' & spec & [->|Hin]%elem_of_cons & Hlt & Hspec & Htx)|Hqs].
  - right. apply Hq; [done|done|]. left. eauto.
  - left. exists m', spec. by rewrite Hlen.
  - right. apply Hq; auto.
Qed.
End mixes.

(** ** The spare outputs *)

Definition sounds (mask : option HilMask) (k : nat) : bool :=
  match mask with Some m => or_default false (m !! k) | None => false end.

Lemma length_fade_walk n fade : length (fade_walk n fade).2 = n.
Proof.
  revert fade. induction n as [|n IH]; intros fade; cbn [fade_walk]; [done|].
  specialize (IH (ramp_tick fade)). destruct (fade_walk n _) as [f ys]. cbn in *. by rewrite IH.
Qed.

Lemma render_spare_out first mask sine fade off n k peak b :
  length fade = n ->
  let b' := (render_spare first mask sine fade off n k peak b).2 in
  outs_kept off n b b' /\ (forall c, c <> (first + k)%nat -> bk_out b' c = bk_out b c)
  /\ (sounds mask k = false -> (off + n <= length (bk_out b (first + k)))%nat -> quiet off n (bk_out b' (first + k))).
Proof.
  intros Hf. unfold render_spare. destruct (slice off n (bk_out b (first + k))) as [old|] eqn:Hs; cbn [snd].
  2:{ split_and!; try done. intros _ Hl. unfold slice in Hs. destruct (Nat.leb_spec (off + n) (length (bk_out b (first + k)))); [done|lia]. }
  apply slice_Some in Hs as [Hl Hold]. fold (sounds mask k).
  assert (Hlen : length old = n) by (subst old; rewrite length_take, length_drop; lia).
  split_and!.
  - apply on_output_kept. intros _ _. destruct (sounds mask k); [|by rewrite length_silence].
    rewrite length_app, length_zip_with, length_drop, length_zip_with. lia.
  - intros c Hc. by apply on_output_other.
  - intros -> _. apply on_output_quiet; [|done|by left]. intros o Ho. unfold silence. by rewrite Ho, Hlen.
Qed.

Lemma render_spares_out first mask sine fade off n k peaks b :
  length fade = n ->
  let b' := (render_spares first mask sine fade off n k peaks b).2 in
  outs_kept off n b b' /\ (forall c, (c < first + k)%nat -> bk_out b' c = bk_out b c)
  /\ (forall j, (k <= j < k + length peaks)%nat -> sounds mask j = false -> (off + n <= length (bk_out b (first + j)))%nat ->
      quiet off n (bk_out b' (first + j))).
Proof.
  intros Hf. revert k b. induction peaks as [|peak peaks IH]; intros k b; cbn [render_spares].
  { cbn. split_and!; [done..|]. intros j Hj. lia. }
  pose proof (render_spare_out first mask sine fade off n k peak b Hf) as (Hk & Ho & Hq).
  destruct (render_spare _ _ _ _ _ _ _ _ _) as [peak' b1]. cbn [snd] in *.
  specialize (IH (S k) b1). destruct (render_spares _ _ _ _ _ _ _ _ _) as [peaks' b2]. cbn [snd] in *.
  destruct IH as (IHk & IHo & IHq). split_and!.
  - by etrans.
  - intros c Hc. rewrite IHo by lia. apply Ho. lia.
  - intros j Hj Hm Hl. cbn [length] in Hj. destruct (decide (j = k)) as [->|Hne].
    + rewrite IHo by lia. by apply Hq.
    + apply IHq; [lia|done|]. destruct Hk as (_ & _ & Hk). destruct (Hk (first + j)%nat) as [-> _]. done.
Qed.

Lemma length_render_spares first mask sine fade off n k peaks b :
  length (render_spares first mask sine fade off n k peaks b).1 = length peaks.
Proof.
  revert k b. induction peaks as [|peak peaks IH]; intros k b; cbn [render_spares]; [done|].
  destruct (render_spare _ _ _ _ _ _ _ _ _) as [peak' b1]. specialize (IH (S k) b1).
  destruct (render_spares _ _ _ _ _ _ _ _ _) as [peaks' b2]. cbn in *. by rewrite IH.
Qed.

(** ** A segment *)

(** The test signal as the outputs depend on it, and the spare outputs there are. *)
Definition test_key (t : option TestRt) : option (option HilMask * Z) := (fun t => (te_mask t, te_end t)) <$> t.

Definition same_test (p p' : Processor) : Prop :=
  test_key (p_test p') = test_key (p_test p) /\ length (p_hil_peaks p') = length (p_hil_peaks p).

#[export] Instance same_test_preorder : PreOrder same_test.
Proof. split; [by intros p|]. intros p q r [? ?] [? ?]. split; congruence. Qed.

Lemma test_key_mask t t' : test_key t' = test_key t -> t' ≫= te_mask = t ≫= te_mask.
Proof. destruct t, t'; cbn; intros; simplify_eq; congruence. Qed.

(** An output that must stay silent under a mask: a topology output while there
    is a mask, a spare output that is not in it. *)
Definition must_be_silent (p : Processor) (mask : option HilMask) (c : nat) : Prop :=
  (is_Some mask /\ (c < length (t_tx (p_topo p)))%nat /\ exists m spec,
     m ∈ t_order (p_topo p) /\ (m < length (p_mixes p))%nat /\ t_mixes (p_topo p) !! m = Some spec /\ has_tx spec c)
  \/ exists k, (k < length (p_hil_peaks p))%nat /\ c = (length (t_tx (p_topo p)) + k)%nat /\ sounds mask k = false.

Section segment.
Context `{Libm, RtMath}.

Lemma test_render_key n t : (te_mask (test_render n t).1, te_end (test_render n t).1) = (te_mask t, te_end t).
Proof.
  revert t. induction n as [|n IH]; intros t; cbn [test_render]; [done|].
  destruct (if te_left t =? 0 then _ else _) as [rest fade].
  match goal with |- context [test_render n ?t1] => specialize (IH t1); destruct (test_render n t1) as [t' ys] end.
  cbn in *. done.
Qed.

Lemma render_inputs_test sine off n p b : same_test p (render_inputs sine off n p b).
Proof.
  unfold render_inputs.
  assert (Hk : same_test p (if bool_decide (is_Some (p_talkback_input p)) then read_talkback n p else (p, [])).1).
  { case_bool_decide; [|done]. unfold read_talkback. destruct (gate_walk _ _) as [g buf]. cbn. by destruct (_ && _). }
  destruct (if bool_decide _ then read_talkback n p else _) as [p1 talk]. etrans; [exact Hk|].
  by destruct (render_nodes _ _ _ _ _ _ _ _ _ _) as [nodes trips].
Qed.

Lemma render_mixes_out sine fade off n p b :
  let '(p', b') := render_mixes sine fade off n p b in
  same_test p p' /\ outs_kept off n b b'
  /\ (hil (p_test p) = true -> forall c, (off + n <= length (bk_out b c))%nat ->
      (exists m spec, m ∈ t_order (p_topo p) /\ (m < length (p_mixes p))%nat /\ t_mixes (p_topo p) !! m = Some spec /\ has_tx spec c) ->
      quiet off n (bk_out b' c)).
Proof.
  unfold render_mixes. pose proof (render_owns_t (p_topo p) (p_inputs p) n (p_mixes p)) as Hl.
  apply (f_equal length) in Hl. rewrite !length_fmap in Hl. destruct (render_owns _ _ _ _) as [mixes trips]. cbn [fst] in Hl.
  match goal with |- context [foldl _ ?s _] =>
    pose proof (render_order_kept (p_topo p) (p_listen p) (p_test p) sine fade off n (t_order (p_topo p)) s) as [Hk Hq] end.
  cbn [mx_block mx_mixes] in *. split_and!; [by destruct (0 <? _)|exact Hk|].
  intros Ht c Hc (m & spec & Hm & Hlt & Hx). apply Hq; [done|done|]. left. exists m, spec. by rewrite Hl.
Qed.

Lemma render_out off n p b :
  let p0 := end_test p in
  let '(p', b') := render off n p b in
  same_test p0 p' /\ outs_kept off n b b'
  /\ (forall c, must_be_silent p0 (p_test p0 ≫= te_mask) c -> (off + n <= length (bk_out b c))%nat -> quiet off n (bk_out b' c)).
Proof.
  cbn zeta. unfold render. set (p0 := end_test p). clearbody p0.
  destruct (fade_walk n (ou_fade (p_output p0))) as [fade fades] eqn:Hfades.
  assert (Hfl : length fades = n) by (pose proof (length_fade_walk n (ou_fade (p_output p0))) as Hl; by rewrite Hfades in Hl).
  set (pr := match p_test (set_fade fade p0) with Some t => _ | None => _ end).
  assert (Hpr : same_test p0 pr.1 /\ same_env p0 pr.1 /\ p_mixes pr.1 = p_mixes p0).
  { unfold pr. cbn [p_test set_fade set_output]. destruct (p_test p0) as [t|] eqn:Ht; [|done].
    pose proof (test_render_key n t) as Hk. destruct (test_render n t) as [t' sine]. cbn in Hk.
    split_and!; try done. split; [|done]. cbn. rewrite Ht. cbn. by rewrite Hk. }
  destruct pr as [p1 sine]. cbn [fst] in Hpr. destruct Hpr as (Hpt & (Hptopo & _) & Hpm).
  pose proof (render_inputs_test sine off n p1 b) as Hi. pose proof (render_inputs_env sine off n p1 b) as (Hit & _).
  pose proof (render_inputs_t sine off n p1 b) as Hix. set (p2 := render_inputs sine off n p1 b) in *. clearbody p2.
  pose proof (render_mixes_out sine fades off n p2 b) as Hm.
  pose proof (render_mixes_env sine fades off n p2 b) as [(Hmt & _) _]. destruct (render_mixes _ _ _ _ _ _) as [p3 b3].
  cbn [fst] in Hmt. destruct Hm as (Hm1 & Hm2 & Hm3). unfold render_hil.
  pose proof (render_spares_out (length (t_tx (p_topo p3))) (p_test p3 ≫= te_mask) sine fades off n 0 (p_hil_peaks p3) b3 Hfl) as (Hs1 & Hs2 & Hs3).
  pose proof (length_render_spares (length (t_tx (p_topo p3))) (p_test p3 ≫= te_mask) sine fades off n 0 (p_hil_peaks p3) b3) as Hs4.
  destruct (render_spares _ _ _ _ _ _ _ _ _) as [peaks b4]. cbn [fst snd] in *.
  assert (Hlast : same_test p0 p3) by (etrans; [exact Hpt|]; etrans; [exact Hi|exact Hm1]).
  assert (Htopo : p_topo p3 = p_topo p0) by congruence.
  assert (Hmask : p_test p3 ≫= te_mask = p_test p0 ≫= te_mask) by (apply test_key_mask, Hlast).
  assert (Hmask2 : p_test p2 ≫= te_mask = p_test p0 ≫= te_mask)
    by (apply test_key_mask; destruct Hpt as [Hpt _], Hi as [Hi _]; congruence).
  assert (Hmixes : length (p_mixes p2) = length (p_mixes p0)).
  { apply (f_equal (fun T => length (pt_mixes T))) in Hix. cbn in Hix. rewrite !length_fmap in Hix. congruence. }
  split_and!.
  - etrans; [exact Hlast|]. unfold probe_latency, note_faded. cbn.
    assert (He : same_test p3 (set_hil_meters peaks p3)) by by split.
    repeat (case_match; cbn; try done).
  - etrans; [exact Hm2|exact Hs1].
  - assert (Hlen : forall c, length (bk_out b3 c) = length (bk_out b c)) by (intros c; destruct Hm2 as (_ & _ & Hm2); apply Hm2).
    intros c [(Hsome & Hc & m & spec & Ho & Hlt & Hspec & Htx)|(k & Hk & -> & Hsound)] Hl.
    + rewrite Hs2 by (rewrite Htopo; lia). apply Hm3; [|done|].
      * unfold hil. rewrite <-Hmask2 in Hsome. destruct (p_test p2) as [t|]; [|by destruct Hsome]. cbn in Hsome. by apply bool_decide_eq_true.
      * exists m, spec. rewrite Hmixes. by replace (p_topo p2) with (p_topo p0) by congruence.
    + rewrite <-Htopo. apply Hs3; [|by rewrite Hmask|by rewrite Hlen, Htopo].
      destruct Hlast as [_ ->]. lia.
Qed.
End segment.

(** ** A block *)

(** A command that starts or stops no test signal. *)
Definition no_test (cmds : list RtCmd) : Prop :=
  Forall (fun c => match rc_op c with RtTestSignal _ _ _ _ | RtHilTestSignal _ _ _ _ _ _ | RtStopTestSignal => False | _ => True end) cmds.

Section block.
Context `{Libm, RtMath}.

Lemma apply_cmds_test cmds p p' : apply_cmds cmds p = Some p' -> no_test cmds -> p_test p' = p_test p /\ p_hil_peaks p' = p_hil_peaks p.
Proof.
  revert p. induction cmds as [|c cmds IH]; intros p; cbn [apply_cmds]; [by intros [= <-]|].
  destruct (rt_apply (rc_op c) p) as [q|] eqn:Hq; cbn [mbind option_bind]; [|done]. intros Hr Hn. apply Forall_cons in Hn as [Hc Hn].
  destruct (IH q Hr Hn) as [-> ->]. destruct (rc_op c); cbn [rt_apply] in Hq; try done; simplify_eq; try done.
  destruct (ou_armed _); [done|]. unfold restart_fade. by destruct (ou_fading_out _).
Qed.

Lemma apply_due_test fuel budget p p' left waits :
  apply_due_fuel fuel budget p = Some (p', left, waits) -> no_test (rg_cmds (p_rings p)) ->
  p_test p' = p_test p /\ p_hil_peaks p' = p_hil_peaks p.
Proof.
  revert budget p. induction fuel as [|fuel IH]; intros budget p; cbn [apply_due_fuel]; [by intros [= <- <- <-]|].
  destruct (rg_cmds (p_rings p)) as [|c cmds]; [by intros [= <- <- <-]|].
  destruct (_ <? _); [by intros [= <- <- <-]|]. destruct (_ <? _)%nat; [by intros [= <- <- <-]|]. set (len := Z.to_nat _).
  destruct (apply_cmds _ _) as [q|] eqn:Hq; cbn [mbind option_bind]; [|done]. intros Hr Hn.
  rewrite <-(take_drop len (c :: cmds)) in Hn. apply Forall_app in Hn as [Ht Hd].
  pose proof (apply_cmds_test _ _ _ Hq Ht) as [Hq1 Hq2]. apply apply_cmds_spec in Hq as [_ (_ & Hc & _)].
  destruct (IH _ _ Hr) as [-> ->]; [by rewrite Hc|done].
Qed.

Lemma must_be_silent_same p q mask c :
  p_topo q = p_topo p -> length (p_mixes q) = length (p_mixes p) -> length (p_hil_peaks q) = length (p_hil_peaks p) ->
  must_be_silent p mask c -> must_be_silent q mask c.
Proof. intros Ht Hm Hp. unfold must_be_silent. by rewrite Ht, Hm, Hp. Qed.

Lemma quiet_extend done n l l' :
  quiet 0 done l -> kept done n l l' -> quiet done n l' -> quiet 0 (done + n) l'.
Proof.
  intros Hq [Hl Hk] Hn i Hi Hlt. destruct (decide (i < done)%nat).
  - rewrite Hk by lia. apply Hq; lia.
  - apply Hn; lia.
Qed.

Lemma process_loop_silent fuel done budget late p b p' b' late' c :
  process_loop fuel done budget late p b = Some (p', b', late') ->
  (bk_frames b - done <= fuel)%nat -> 0 <= p_time p -> p_time p + Z.of_nat (bk_frames b - done) <= u64_max ->
  no_test (rg_cmds (p_rings p)) ->
  (forall t, p_test p = Some t -> p_time p + Z.of_nat (bk_frames b - done) <= te_end t) ->
  must_be_silent p (p_test p ≫= te_mask) c -> length (bk_out b c) = bk_frames b ->
  quiet 0 done (bk_out b c) -> quiet 0 (bk_frames b) (bk_out b' c) /\ length (bk_out b' c) = length (bk_out b c).
Proof.
  revert done budget late p b. induction fuel as [|fuel IH]; intros done budget late p b; cbn [process_loop].
  { intros [= <- <- <-] Hf _ _ _ _ _ _ Hq. split; [|done]. intros i Hi. apply Hq. lia. }
  destruct (Nat.leb_spec (bk_frames b) done) as [Hd|Hd].
  { intros [= <- <- <-] Hf _ _ _ _ _ _ Hq. split; [|done]. intros i Hi. apply Hq. lia. }
  destruct (apply_due budget p) as [[[p1 left] waits]|] eqn:Hdue; cbn [mbind option_bind]; [|done].
  set (n := segment _ _ _ _ _ _). set (spent := _ && _).
  assert (Hn : (0 < n <= Nat.min (bk_frames b - done) SEG)%nat) by by apply segment_bounds.
  intros Hloop Hf Hge Hmax Hnt Hend Hsil Hlen Hq.
  pose proof (apply_due_test _ _ _ _ _ _ Hdue Hnt) as [Htest1 Hpk1].
  apply apply_due_spec in Hdue as (log & _ & Hring & _ & _ & _ & _ & [Hshape _] & Htime1 & Htopo1 & _); [|lia].
  assert (Hmix1 : length (p_mixes p1) = length (p_mixes p)).
  { unfold shape in Hshape. injection Hshape as _ Hm _. apply (f_equal length) in Hm. cbn in Hm. by rewrite !length_fmap in Hm. }
  assert (He : end_test p1 = p1).
  { unfold end_test. rewrite Htest1. destruct (p_test p) as [t|] eqn:Ht; [|done]. specialize (Hend t eq_refl).
    destruct (Z.leb_spec (te_end t) (p_time p1)); [lia|done]. }
  pose proof (render_out done n p1 b) as Hout. pose proof (render_env done n p1 b) as [(Henv1 & Henv2 & Henv3 & _) _].
  pose proof (render_t done n p1 b) as Hrt. rewrite He in Hout. cbn zeta in Hout.
  destruct (render done n p1 b) as [p2 b2]. cbn [fst snd] in *. destruct Hout as ([Hk2 Hpk2] & (Hfr & _ & Hkept) & Hquiet).
  assert (Hmix2 : length (p_mixes p2) = length (p_mixes p)).
  { apply (f_equal (fun T => length (pt_mixes T))) in Hrt. cbn in Hrt. rewrite !length_fmap in Hrt. congruence. }
  assert (Htime2 : p_time (advance n p2) = p_time p + Z.of_nat n) by (rewrite advance_time; rewrite ?Henv3, ?Htime1; lia).
  rewrite <-Hfr. rewrite Htest1 in Hk2, Hquiet. rewrite <-(proj1 (Hkept c)).
  apply IH in Hloop; [done|..]; change (p_rings (advance n p2)) with (p_rings p2); change (p_test (advance n p2)) with (p_test p2).
  - rewrite Hfr. lia.
  - rewrite Htime2. lia.
  - rewrite Htime2, Hfr. lia.
  - rewrite Henv2. unfold no_test in Hnt. rewrite Hring in Hnt. by apply Forall_app in Hnt as [_ Hnt].
  - intros t Ht. rewrite Ht in Hk2. destruct (p_test p) as [t0|] eqn:Ht0; [|done]. cbn in Hk2. injection Hk2 as _ ->.
    specialize (Hend t0 eq_refl). rewrite Htime2, Hfr. lia.
  - rewrite (test_key_mask _ _ Hk2). eapply must_be_silent_same; [exact (eq_trans Henv1 Htopo1)|exact Hmix2| |exact Hsil].
    cbn. congruence.
  - destruct (Hkept c) as [-> _]. congruence.
  - apply quiet_extend with (bk_out b c); [done|apply Hkept|]. apply Hquiet; [|rewrite Hlen; lia].
    eapply must_be_silent_same; [| | |exact Hsil]; congruence.
Qed.

(** A block without test commands, within the test signal's run. *)
Lemma process_silent p b p' b' c :
  process p b = Some (p', b') -> 0 <= p_time p -> p_time p + Z.of_nat (bk_frames b) <= u64_max ->
  no_test (rg_cmds (p_rings p)) ->
  (forall t, p_test p = Some t -> p_time p + Z.of_nat (bk_frames b) <= te_end t) ->
  must_be_silent p (p_test p ≫= te_mask) c -> length (bk_out b c) = bk_frames b ->
  forall i, (i < bk_frames b)%nat -> bk_out b' c !! i = Some f64_0.
Proof.
  unfold process. intros Hp Hge Hmax Hnt Hend Hsil Hlen.
  destruct (process_loop _ _ _ _ _ _) as [[[q b1] late]|] eqn:Hl; cbn [mbind option_bind] in Hp; [|done]. injection Hp as _ <-.
  eapply process_loop_silent in Hl as [Hq Hlq]; [intros i Hi; apply Hq; lia|lia|done|by rewrite Nat.sub_0_r|done| |done|done|intros i Hi; lia].
  intros t Ht. rewrite Nat.sub_0_r. by apply Hend.
Qed.
End block.
