(* ===== verification/DspSpec.v ===== *)
(** * What the DSP kernels promise

    Ramps land on their target, an EQ becomes the filters it was set to, and the
    latency probe reports the round trip of its reference definition. *)

From S2P Require Import Prelude F64 Text MixState Msg Shape Topology Reconciled Rt CoreApply Dsp RtTargets RtHolds.
From Stdlib Require Import SpecFloat.
From stdpp Require Import vector.
From stdpp Require Import options.
Local Open Scope Z_scope.
#[local] Unset Default Proof Using.

(** ** Ramps *)

(** A ramp of length [len] with at most [k] samples to go. *)
Record ramp_in (len k : Z) (r : Ramp) : Prop := {
  ri_len : ra_len r = len;
  ri_left : 0 <= ra_left r <= k;
  ri_rest : ra_left r = 0 -> ra_value r = ra_target r;
}.

Lemma ramp_in_le len k k' r : k <= k' -> ramp_in len k r -> ramp_in len k' r.
Proof. intros Hk [H1 H2 H3]. split; [done|lia|done]. Qed.

Lemma Ramp_new_in v len : 0 < len -> ramp_in len 0 (Ramp_new v len).
Proof. intros Hl. split; cbn; [|lia|done]. by destruct (Z.eqb_spec len 0); [lia|]. Qed.

Lemma ramp_set_in t len k r : 0 < len -> k <= len -> ramp_in len k r -> ramp_in len len (ramp_set t r).
Proof.
  intros Hl Hk [H1 H2 H3]. unfold ramp_set. destruct (f64_eqb _ _); [split; [done|lia|done]|].
  split; cbn; [done|lia|]. rewrite H1. lia.
Qed.

Lemma ramp_tick_in len k r : ramp_in len k r -> ramp_in len (Z.max 0 (k - 1)) (ramp_tick r).
Proof.
  intros [H1 H2 H3]. unfold ramp_tick. destruct (Z.ltb_spec 0 (ra_left r)); [|split; [done|lia|done]].
  split; cbn; [done|lia|]. intros Hz. by rewrite (proj2 (Z.eqb_eq _ _) Hz).
Qed.

Lemma ramp_rest len r : ramp_in len 0 r -> is_moving r = false /\ ra_value r = ra_target r.
Proof. intros [_ H2 H3]. unfold is_moving. split; [apply Z.ltb_ge; lia|apply H3; lia]. Qed.

Lemma not_moving r : is_moving r = false <-> ra_left r <= 0.
Proof. unfold is_moving. apply Z.ltb_ge. Qed.

(** ** The EQ *)

Section eq.
Context `{Libm, RtMath}.
Context (fs : f64) (len : Z) (Hlen : 0 < len).

(** A band whose ramps have at most [k] samples to go: its filter is its
    target's unless it is on its way there. *)
Record band_in (k : Z) (s : BandState) : Prop := {
  bi_len : bs_len s = len;
  bi_freq : ramp_in len k (bs_freq s);
  bi_gain : ramp_in len k (bs_gain s);
  bi_bw : ramp_in len k (bs_bw s);
  bi_wet : ramp_in len k (bs_wet s);
  bi_on : feq (ra_target (bs_wet s)) (on_off (bs_target s));
  bi_design : moving s = false -> bs_coefs s = design (bs_target s) fs;
}.

Lemma band_in_le k k' s : k <= k' -> band_in k s -> band_in k' s.
Proof. intros Hk []. split; try done; by eapply ramp_in_le. Qed.

Lemma BandState_new_in n b : band_in 0 (BandState_new n b fs len).
Proof. split; try (by apply Ramp_new_in); try done. Qed.

(** A band's filter state is not what it is set to. *)
Lemma band_in_state k s s' :
  bs_target s' = bs_target s -> bs_freq s' = bs_freq s -> bs_gain s' = bs_gain s -> bs_bw s' = bs_bw s ->
  bs_wet s' = bs_wet s -> bs_coefs s' = bs_coefs s -> bs_len s' = bs_len s -> band_in k s -> band_in k s'.
Proof.
  intros H1 H2 H3 H4 H5 H6 H7 []. unfold moving in *. split; unfold moving in *; rewrite ?H1, ?H2, ?H3, ?H4, ?H5, ?H6, ?H7; done.
Qed.

Lemma band_tick_in k s ch x : band_in k s -> band_in k (band_tick s ch x).1.
Proof.
  intros Hs. unfold band_tick. destruct (f64_eqb _ _); [done|]. destruct (bs_state s !! ch) as [st|]; [|done].
  destruct (coefs_tick _ _ _) as [st' y]. by apply (band_in_state k s).
Qed.

Lemma bands_tick_in k bands ch x : Forall (band_in k) bands -> Forall (band_in k) (bands_tick bands ch x).1.
Proof.
  revert x. induction bands as [|b bands IH]; intros x Hb; cbn [bands_tick]; [done|]. apply Forall_cons in Hb as [Hb Hbs].
  pose proof (band_tick_in k b ch x Hb) as Ht. destruct (band_tick b ch x) as [b' x']. specialize (IH x' Hbs).
  destruct (bands_tick bands ch x') as [bands' x'']. by constructor.
Qed.

Lemma frame_tick_in k bands gain ch xs : Forall (band_in k) bands -> Forall (band_in k) (frame_tick bands gain ch xs).1.
Proof.
  revert bands ch. induction xs as [|x xs IH]; intros bands ch Hb; cbn [frame_tick]; [done|].
  pose proof (bands_tick_in k bands ch x Hb) as Ht. destruct (bands_tick bands ch x) as [bands' y]. specialize (IH bands' (S ch) Ht).
  by destruct (frame_tick bands' gain (S ch) xs) as [bands'' ys].
Qed.

Lemma band_advance_in k s : band_in k s -> band_in (Z.max 0 (k - 1)) (band_advance fs s).
Proof.
  intros [B1 B2 B3 B4 B5 B6 B7]. unfold band_advance.
  set (s1 := if moving s then _ else set_wet _ s).
  assert (Hs1 : band_in (Z.max 0 (k - 1)) s1).
  { subst s1. destruct (moving s) eqn:Hm.
    - set (s2 := mkBandState _ _ _ _ _ _ _ _ _).
      assert (Hr : ramp_in len (Z.max 0 (k - 1)) (bs_freq s2) /\ ramp_in len (Z.max 0 (k - 1)) (bs_gain s2)
                   /\ ramp_in len (Z.max 0 (k - 1)) (bs_bw s2) /\ ramp_in len (Z.max 0 (k - 1)) (bs_wet s2))
        by (cbn; split_and!; by apply ramp_tick_in). destruct Hr as (R1 & R2 & R3 & R4).
      assert (Hon : feq (ra_target (bs_wet s2)) (on_off (bs_target s2))) by (cbn; by rewrite ramp_tick_target).
      destruct (negb (moving s2)) eqn:Hm2; [by split|]. apply negb_false_iff in Hm2.
      destruct (_ =? 0); (split; [done..|]); unfold moving in *; cbn in *; congruence.
    - split; cbn; try done; try (eapply ramp_in_le; [|by apply ramp_tick_in]; lia).
      + apply orb_false_iff in Hm as [[Hf Hg]%orb_false_iff Hb]. destruct B2 as [? ? ?]. apply not_moving in Hf. split; [done|lia|done].
      + apply orb_false_iff in Hm as [[Hf Hg]%orb_false_iff Hb]. destruct B3 as [? ? ?]. apply not_moving in Hg. split; [done|lia|done].
      + apply orb_false_iff in Hm as [[Hf Hg]%orb_false_iff Hb]. destruct B4 as [? ? ?]. apply not_moving in Hb. split; [done|lia|done].
      + by rewrite ramp_tick_target.
      + intros _. by apply B7. }
  clearbody s1. destruct (bypassed s1); [|done]. by apply (band_in_state _ s1).
Qed.

Lemma band_set_in b s : band_in len s -> band_in len (band_set b fs s).
Proof.
  intros [B1 B2 B3 B4 B5 B6 B7]. unfold band_set.
  set (s1 := if _ || bypassed s then _ else _).
  assert (Hs1 : bs_len s1 = len /\ ramp_in len len (bs_freq s1) /\ ramp_in len len (bs_gain s1) /\ ramp_in len len (bs_bw s1)
    /\ bs_wet s1 = bs_wet s /\ bs_target s1 = b /\ (moving s1 = false -> bs_coefs s1 = design b fs)).
  { subst s1. destruct (_ || bypassed s).
    - pose proof (BandState_new_in (length (bs_state s)) b) as [N1 N2 N3 N4 _ _ N7]. rewrite B1.
      split_and!; try done; cbn; (eapply ramp_in_le; [|done]); lia.
    - set (s2 := mkBandState _ _ _ _ _ _ _ _ _).
      assert (Hr : ramp_in len len (bs_freq s2) /\ ramp_in len len (bs_gain s2) /\ ramp_in len len (bs_bw s2))
        by (cbn; split_and!; (eapply ramp_set_in; [done| |done]); lia). destruct Hr as (R1 & R2 & R3).
      destruct (moving s2) eqn:Hm2; split_and!; try done. congruence. }
  clearbody s1. destruct Hs1 as (S1 & S2 & S3 & S4 & S5 & S6 & S7). rewrite S5.
  split; cbn; try done.
  - eapply ramp_set_in; [done| |done]. lia.
  - rewrite S6. apply ramp_set_feq.
  - by rewrite S6.
Qed.

(** An EQ of [len]-sample ramps with at most [k] to go. *)
Record eq_in (k : Z) (e : Equalizer) : Prop := {
  ei_rate : eq_sample_rate e = fs;
  ei_count : length (eq_bands e) = BANDS;
  ei_bands : Forall (band_in k) (eq_bands e);
  ei_global : ramp_in len k (eq_global e);
}.

Lemma eq_in_le k k' e : k <= k' -> eq_in k e -> eq_in k' e.
Proof.
  intros Hk []. split; try done; [|by eapply ramp_in_le]. eapply Forall_impl; [done|]. intros s. by apply band_in_le.
Qed.

Lemma eq_set_in q e : eq_in len e -> eq_in len (eq_set q e).1.
Proof.
  intros [E1 E2 E3 E4]. split; cbn; [done| | |].
  - by rewrite length_zip_with, length_vec_to_list, E2.
  - rewrite E1. revert E3. generalize (vec_to_list (ep_bands q)) as bs. generalize (eq_bands e) as ss.
    induction ss as [|s ss IH]; intros [|b bs] Hs; cbn; try by constructor.
    apply Forall_cons in Hs as [Hs Hss]. constructor; [|auto]. destruct (is_valid b); [by apply band_set_in|done].
  - destruct (value_ok _); [|done]. eapply ramp_set_in; [done| |done]. lia.
Qed.

Lemma length_frame_tick bands gain ch xs : length (frame_tick bands gain ch xs).1 = length bands.
Proof.
  pose proof (frame_tick_targets bands gain ch xs) as Ht. apply (f_equal length) in Ht. by rewrite !length_fmap in Ht.
Qed.

Lemma eq_frame_in k e xs : eq_in k e -> eq_in (Z.max 0 (k - 1)) (eq_frame e xs).1.
Proof.
  intros [E1 E2 E3 E4]. unfold eq_frame. rewrite E1.
  pose proof (frame_tick_in (Z.max 0 (k - 1)) (band_advance fs <$> eq_bands e) (ra_value (ramp_tick (eq_global e))) 0 xs) as Hf.
  pose proof (length_frame_tick (band_advance fs <$> eq_bands e) (ra_value (ramp_tick (eq_global e))) 0 xs) as Hl.
  destruct (frame_tick _ _ _ _) as [bands ys]. cbn [fst] in *. rewrite length_fmap in Hl. split; cbn; [done|congruence| |by apply ramp_tick_in].
  apply Hf, Forall_fmap. eapply Forall_impl; [exact E3|]. intros s. apply band_advance_in.
Qed.

Lemma eq_process_in k e l r : length l = length r -> 0 <= k -> eq_in k e -> eq_in (Z.max 0 (k - Z.of_nat (length l))) (eq_process e l r).1.
Proof.
  revert k e r. induction l as [|x l IH]; intros k e [|y r] Hl Hk He; try done; cbn [eq_process].
  - eapply eq_in_le; [|exact He]. cbn. lia.
  - pose proof (eq_frame_in k e [x; y] He) as Hf. destruct (eq_frame e [x; y]) as [e' ys].
    injection Hl as Hl. specialize (IH (Z.max 0 (k - 1)) e' r Hl ltac:(lia) Hf). destruct (eq_process e' l r) as [e'' [l' r']].
    cbn [fst] in IH. assert (Hg : eq_in (Z.max 0 (k - Z.of_nat (length (x :: l)))) e'').
    { eapply eq_in_le; [|exact IH]. cbn [length]. lia. }
    destruct ys as [|a [|b [|]]]; exact Hg.
Qed.

Lemma eq_reset_in k e : eq_in k e -> eq_in k (eq_reset e).
Proof.
  intros [E1 E2 E3 E4]. split; cbn; [done|by rewrite length_fmap| |done]. apply Forall_fmap.
  eapply Forall_impl; [exact E3|]. intros s. by apply band_in_state.
Qed.

(** At rest: every filter is the design of its band. *)
Definition settled (e : Equalizer) : Prop :=
  Forall (fun s => moving s = false /\ is_moving (bs_wet s) = false /\ bs_coefs s = design (bs_target s) fs
                   /\ feq (ra_value (bs_wet s)) (on_off (bs_target s))) (eq_bands e)
  /\ is_moving (eq_global e) = false /\ ra_value (eq_global e) = ra_target (eq_global e).

Lemma eq_in_settled e : eq_in 0 e -> settled e.
Proof.
  intros [E1 E2 E3 E4]. split; [|by apply ramp_rest with len]. eapply Forall_impl; [exact E3|].
  intros s [B1 B2 B3 B4 B5 B6 B7]. apply ramp_rest in B2 as [R2 _], B3 as [R3 _], B4 as [R4 _], B5 as [R5 V5].
  assert (Hm : moving s = false) by (unfold moving; by rewrite R2, R3, R4). rewrite V5. split_and!; auto.
Qed.
End eq.

(** ** An EQ's history *)

Inductive eq_event := EvSet (q : EqParams) | EvBlock (frames : list (f64 * f64)) | EvReset.

Definition eq_step `{Libm, RtMath} (e : Equalizer) (ev : eq_event) : Equalizer :=
  match ev with
  | EvSet q => (eq_set q e).1
  | EvBlock frames => (eq_process e frames.*1 frames.*2).1
  | EvReset => eq_reset e
  end.

Definition eq_len (fs : f64) : Z := samples EQ_MS fs.

Section history.
Context `{Libm, RtMath}.

Lemma eq_len_pos fs : 0 < eq_len fs.
Proof. unfold eq_len, samples. lia. Qed.

Lemma standard_flat_valid : Forall (fun b => is_valid b = true) (vec_to_list (ep_bands standard_flat)).
Proof. repeat constructor. Qed.

Lemma Equalizer_new_in channels q fs : eq_in fs (eq_len fs) 0 (Equalizer_new channels q fs).
Proof.
  split; [done| | |].
  - unfold Equalizer_new, Equalizer_at. cbn [eq_bands fst]. by rewrite length_zip_with, !length_vec_to_list.
  - unfold Equalizer_new, Equalizer_at. cbn [eq_bands fst]. fold (eq_len fs).
    generalize (vec_to_list (ep_bands standard_flat)) as ds, (vec_to_list (ep_bands q)) as bs.
    induction ds as [|d ds IH]; intros [|b bs]; cbn; constructor; [apply BandState_new_in, eq_len_pos|apply IH].
  - apply Ramp_new_in, eq_len_pos.
Qed.

Lemma Equalizer_new_ok channels q fs : eqt_ok (eq_targets (Equalizer_new channels q fs)).
Proof.
  unfold Equalizer_new, Equalizer_at, eq_targets; cbn [fst snd eq_bands eq_global Ramp_new ra_target]. split_and!; cbn [fst snd].
  - by rewrite length_fmap, length_zip_with, !length_vec_to_list.
  - pose proof standard_flat_valid as Hf. revert Hf.
    generalize (vec_to_list (ep_bands standard_flat)) as ds, (vec_to_list (ep_bands q)) as bs.
    induction ds as [|d ds IH]; intros [|b bs] Hf; cbn; try by constructor. apply Forall_cons in Hf as [Hd Hf].
    constructor; [by destruct (is_valid b) eqn:Hb|by apply IH].
  - by destruct (value_ok (ep_global_gain q)) eqn:Hg.
Qed.

(** Whatever was set and played before. *)
Lemma eq_steps_in fs evs e :
  eq_in fs (eq_len fs) (eq_len fs) e -> eqt_ok (eq_targets e) ->
  let e' := foldl eq_step e evs in eq_in fs (eq_len fs) (eq_len fs) e' /\ eqt_ok (eq_targets e').
Proof.
  pose proof (eq_len_pos fs). revert e. induction evs as [|ev evs IH]; intros e He Hok; cbn [foldl]; [done|]. apply IH.
  - destruct ev as [q|frames|]; cbn [eq_step]; [by apply eq_set_in| |by apply eq_reset_in].
    eapply eq_in_le; [|apply eq_process_in; [by rewrite !length_fmap| |exact He]]; lia.
  - destruct ev as [q|frames|]; cbn [eq_step]; [by apply eq_set_ok|by rewrite eq_process_t|by rewrite eq_reset_t].
Qed.
End history.

(** ** The latency probe *)

(** What the probe sees, in order: a sample emitted, a loud sample returned. *)
Inductive probe_event := EvEmit (at_ : Z) | EvLoud (at_ : Z).

Definition probe_step (p : LatencyProbe) (ev : probe_event) : LatencyProbe :=
  match ev with EvEmit t => emitted t p | EvLoud t => loud t p end.

Definition louds (evs : list probe_event) : list Z := omap (fun ev => match ev with EvLoud t => Some t | EvEmit _ => None end) evs.

(** The events before the first emit, the emit, and those after it. *)
Fixpoint split_emit (evs : list probe_event) : option (list Z * Z * list Z) :=
  match evs with
  | [] => None
  | EvEmit e :: evs => Some ([], e, louds evs)
  | EvLoud t :: evs => '(pre, e, post) ← split_emit evs; Some (t :: pre, e, post)
  end.

Definition min_list (l : list Z) : option Z :=
  foldr (fun t m => Some (match m with Some m => Z.min t m | None => t end)) None l.

(** The round trip by definition: from the first emit to the first loud return,
    provided the return was quiet long before the emit and none came too soon. *)
Definition reference (last : option Z) (evs : list probe_event) : option Z :=
  '(pre, e, post) ← split_emit evs;
  if forallb (fun t => u64_saturating_add t QUIET_BEFORE <? e) (option_list last ++ pre)
     && forallb (fun t => u64_saturating_add e MIN_ROUND_TRIP <=? t) post
  then a ← min_list post; Some (a - e)
  else None.

(** The samples of a return that are loud, with their times. *)
Fixpoint loud_events (ret : list f64) (base : Z) (i : nat) : list probe_event :=
  match ret with
  | [] => []
  | s :: ret =>
      (if f64_leb ONSET (f64_abs s) then [EvLoud (u64_saturating_add base (Z.of_nat i))] else []) ++ loud_events ret base (S i)
  end.

Lemma feed_events ret base i p : feed ret base i p = foldl probe_step p (loud_events ret base i).
Proof.
  revert i p. induction ret as [|s ret IH]; intros i p; cbn [feed loud_events]; [done|]. rewrite foldl_app, IH. by destruct (f64_leb _ _).
Qed.

Definition min_with (o : option Z) (t : Z) : option Z := Some (match o with Some a => Z.min a t | None => t end).

(** A loud sample after the emit. *)
Lemma loud_after t e p :
  lp_emitted_at p = Some e ->
  let p' := loud t p in
  let ok := negb (lp_spoiled p) && (u64_saturating_add e MIN_ROUND_TRIP <=? t) in
  lp_emitted_at p' = Some e /\ lp_spoiled p' = negb ok
  /\ lp_arrived_at p' = if lp_spoiled p then lp_arrived_at p else if ok then min_with (lp_arrived_at p) t else None.
Proof.
  intros He. unfold loud. cbn [lp_emitted_at]. rewrite He. cbn [lp_spoiled lp_arrived_at lp_emitted_at].
  generalize (u64_saturating_add e MIN_ROUND_TRIP) as m. intros m. destruct (lp_spoiled p); [done|].
  rewrite Z.ltb_antisym. by destruct (m <=? t).
Qed.

(** The events after the emit. *)
Lemma probe_after evs e p :
  lp_emitted_at p = Some e -> e <= u64_max -> (lp_spoiled p = true -> lp_arrived_at p = None) ->
  (forall a, lp_arrived_at p = Some a -> u64_saturating_add e MIN_ROUND_TRIP <= a) ->
  round_trip (foldl probe_step p evs) =
    if negb (lp_spoiled p) && forallb (fun t => u64_saturating_add e MIN_ROUND_TRIP <=? t) (louds evs)
    then a ← foldl min_with (lp_arrived_at p) (louds evs); Some (a - e)
    else None.
Proof.
  intros He Hmax. assert (Hm : e <= u64_saturating_add e MIN_ROUND_TRIP) by (unfold u64_saturating_add, MIN_ROUND_TRIP; lia).
  revert p He. induction evs as [|ev evs IH]; intros p He Hsp Harr.
  - unfold round_trip. cbn [foldl louds omap list_omap forallb]. rewrite He, andb_true_r. destruct (lp_spoiled p); cbn [negb]; [by rewrite Hsp|].
    destruct (lp_arrived_at p) as [a|]; [|done]. specialize (Harr a eq_refl). cbn [mbind option_bind]. destruct (Z.leb_spec e a); [done|lia].
  - destruct ev as [t|t]; cbn [foldl probe_step].
    + unfold emitted. rewrite He. by apply IH.
    + destruct (loud_after t e p He) as (He' & Hs' & Ha'). set (p' := loud t p) in *. clearbody p'.
      change (louds (EvLoud t :: evs)) with (t :: louds evs). cbn [forallb foldl].
      revert Hm Harr Hs' Ha' IH. generalize (u64_saturating_add e MIN_ROUND_TRIP) as m. intros m Hm Harr Hs' Ha' IH.
      rewrite IH; [|done| |].
      * rewrite Hs', Ha', negb_involutive. destruct (lp_spoiled p); [done|]. cbn [negb andb].
        destruct (m <=? t); done.
      * rewrite Hs', Ha'. destruct (lp_spoiled p); [auto|]. cbn [negb andb]. by destruct (m <=? t).
      * intros a. rewrite Ha'. destruct (lp_spoiled p); [apply Harr|]. cbn [negb andb]. destruct (Z.leb_spec m t); [|done].
        intros [= <-]. destruct (lp_arrived_at p) as [a0|]; [specialize (Harr a0 eq_refl)|]; lia.
Qed.

Lemma min_with_foldr l o : foldl min_with o l = match o, min_list l with
  | Some a, Some b => Some (Z.min a b) | Some a, None => Some a | None, m => m end.
Proof.
  revert o. induction l as [|t l IH]; intros o; cbn [foldl]; [by destruct o|]. rewrite IH. unfold min_with.
  change (min_list (t :: l)) with (Some (match min_list l with Some m => Z.min t m | None => t end)).
  destruct o as [a|], (min_list l) as [b|]; cbn; f_equal; lia.
Qed.

Lemma quiet_max e l t pre :
  forallb (fun t => u64_saturating_add t QUIET_BEFORE <? e) (option_list l ++ t :: pre)
  = forallb (fun t => u64_saturating_add t QUIET_BEFORE <? e) (Z.max (or_default t l) t :: pre).
Proof.
  unfold u64_saturating_add. destruct l as [l|]; cbn [option_list app forallb or_default from_option]; [|by rewrite Z.max_id].
  change (option_list (Some l)) with [l]. cbn [app forallb]. rewrite andb_assoc. f_equal. generalize QUIET_BEFORE, u64_max. intros q m.
  destruct (Z.ltb_spec (Z.min (l + q) m) e), (Z.ltb_spec (Z.min (t + q) m) e), (Z.ltb_spec (Z.min (Z.max l t + q) m) e); first [done|exfalso; lia].
Qed.

Lemma probe_before evs p :
  Forall (fun ev => match ev with EvEmit e => e <= u64_max | EvLoud _ => True end) evs ->
  lp_emitted_at p = None -> lp_arrived_at p = None -> lp_spoiled p = false ->
  round_trip (foldl probe_step p evs) = reference (lp_last_loud p) evs.
Proof.
  revert p. induction evs as [|ev evs IH]; intros p Hb He Ha Hs; [by unfold round_trip; cbn; rewrite He|].
  apply Forall_cons in Hb as [Hb Hbs]. destruct ev as [e|t]; cbn [foldl probe_step].
  - unfold emitted. rewrite He, Hs, Ha. cbn [orb]. unfold reference. cbn [split_emit mbind option_bind]. rewrite app_nil_r.
    set (spoiled := match lp_last_loud p with Some l => e <=? u64_saturating_add l QUIET_BEFORE | None => false end).
    assert (Hq : forallb (fun t => u64_saturating_add t QUIET_BEFORE <? e) (option_list (lp_last_loud p)) = negb spoiled).
    { unfold spoiled. destruct (lp_last_loud p) as [l|]; [|done]. change (option_list (Some l)) with [l]. cbn [forallb]. by rewrite andb_true_r, Z.ltb_antisym. }
    rewrite Hq. rewrite probe_after with (e := e); try done. cbn [lp_spoiled lp_arrived_at]. rewrite min_with_foldr.
    destruct (negb spoiled && _); [|done]. by destruct (min_list (louds evs)).
  - rewrite IH; [|done|by unfold loud; cbn [lp_emitted_at]; rewrite He..].
    assert (Hl : lp_last_loud (loud t p) = Some (Z.max (or_default t (lp_last_loud p)) t)).
    { unfold loud. cbn [lp_emitted_at]. rewrite He. cbn. destruct (lp_last_loud p); [done|]. cbn. by rewrite Z.max_id. }
    rewrite Hl. unfold reference. cbn [split_emit]. destruct (split_emit evs) as [[[pre e] post]|]; [|done]. cbn [mbind option_bind].
    rewrite quiet_max. done.
Qed.

(** ** Properties *)

(** An EQ becomes what it is set to: whatever was set and played before,
    once a valid EQ is set and the ramps' length is played, every filter is
    exactly the design of its band, every band fully on or off as asked, the
    gain the one asked for, and nothing moves. *)
Theorem eq_settles `{Libm, RtMath} channels q0 fs evs q frames :
  eq_valid q -> eq_len fs <= Z.of_nat (length frames) ->
  let e := foldl eq_step (Equalizer_new channels q0 fs) (evs ++ [EvSet q; EvBlock frames]) in
  settled fs e /\ eqt_feq (eq_targets e) q.
Proof.
  intros Hq Hl e. unfold e. rewrite foldl_app. pose proof (eq_len_pos fs).
  destruct (eq_steps_in fs evs (Equalizer_new channels q0 fs)) as [He Hok];
    [eapply eq_in_le; [|apply Equalizer_new_in]; lia|apply Equalizer_new_ok|].
  set (e0 := foldl eq_step _ evs) in *. clearbody e0. cbn [foldl eq_step]. split.
  - eapply eq_in_settled, eq_in_le; [|apply eq_process_in; [by rewrite !length_fmap| |by apply eq_set_in]]; rewrite ?length_fmap; lia.
  - rewrite eq_process_t. by apply eq_set_feq.
Qed.

(** Twenty milliseconds at 96 kHz. *)
Lemma eq_settles_witness :
  let fs := f64_of_u32 96000 in
  settled fs (foldl eq_step (Equalizer_new 2 standard_flat fs)
    ([EvSet standard_flat; EvReset] ++ [EvSet standard_flat; EvBlock (replicate 1920 (f64_1, f64_0))])).
Proof.
  apply (eq_settles 2 standard_flat (f64_of_u32 96000) [EvSet standard_flat; EvReset] standard_flat (replicate 1920 (f64_1, f64_0))).
  - split; [apply standard_flat_valid|reflexivity].
  - rewrite length_replicate. by vm_compute.
Defined.

(** The latency probe is its definition: over any emits and loud returns, in
    any order, a run reports the time from its first emit to its earliest loud
    return, and reports nothing if the return was loud within [QUIET_BEFORE]
    samples before the emit or within [MIN_ROUND_TRIP] after it. *)
Theorem probe_is_reference p evs :
  Forall (fun ev => match ev with EvEmit e => e <= u64_max | EvLoud _ => True end) evs ->
  round_trip (foldl probe_step (probe_reset p) evs) = reference (lp_last_loud p) evs.
Proof. intros Hb. by rewrite probe_before. Qed.

Lemma probe_is_reference_witness :
  round_trip (foldl probe_step (probe_reset (mkLatencyProbe None None true (Some 100))) [EvLoud 200; EvEmit 9900; EvLoud 9950; EvLoud 9940]) = Some 40.
Proof. rewrite probe_is_reference; [by vm_compute|]. repeat constructor; unfold u64_max; lia. Defined.
