(* ===== verification/RtFade.v ===== *)
(** * The output fade

    [FadeOut] brings the output stage to silence in [FADE_MS] of samples,
    whatever else happens, and the processor then reports it ([faded]): what the
    control loop waits for before it stops the driver.

    Then what nodes pass on: samples that are numbers within the limit. *)

From S2P Require Import Prelude F64 Text MixState Msg Shape Topology TopologyWf Reconciled Rt Core Wire Control Dsp Mga Processor Render RtTargets RtHolds RtSched DspSpec.
From stdpp Require Import options.
Local Open Scope Z_scope.
#[local] Unset Default Proof Using.

(** The output stage and what is reported of it. *)
Definition same_out (p p' : Processor) : Prop :=
  p_output p' = p_output p /\ rc_faded_out (p_status p') = rc_faded_out (p_status p).

#[export] Instance same_out_preorder : PreOrder same_out.
Proof. split; [by intros p|]. intros p q r [? ?] [? ?]. split; congruence. Qed.

(** Fading out for good, with at most [k] samples to go, or silent. *)
Record fading (len k : Z) (p : Processor) : Prop := {
  fo_out : ou_fading_out (p_output p) = true;
  fo_target : f64_eqb f64_0 (ra_target (ou_fade (p_output p))) = true;
  fo_ramp : ramp_in len k (ou_fade (p_output p));
}.

(** Silent is reported. *)
Definition reported (p : Processor) : Prop := is_moving (ou_fade (p_output p)) = false -> rc_faded_out (p_status p) = true.

Lemma fading_le len k k' p : k <= k' -> fading len k p -> fading len k' p.
Proof. intros Hk []. split; [done|done|by eapply ramp_in_le]. Qed.

Lemma fading_same len k p p' : p_output p' = p_output p -> fading len k p -> fading len k p'.
Proof. intros Ho []. split; by rewrite Ho. Qed.

Lemma fall_in value len : 0 < len -> ramp_in len len (fall value len) /\ f64_eqb f64_0 (ra_target (fall value len)) = true.
Proof.
  intros Hl. unfold fall. split; [eapply ramp_set_in; [done| |by apply Ramp_new_in]; lia|].
  unfold ramp_set. cbn [Ramp_new ra_target]. by destruct (f64_eqb f64_0 value) eqn:Hv.
Qed.

Lemma fade_walk_in n len k fade :
  ramp_in len k fade -> ramp_in len (Z.max 0 (k - Z.of_nat n)) (fade_walk n fade).1 /\ ra_target (fade_walk n fade).1 = ra_target fade.
Proof.
  revert k fade. induction n as [|n IH]; intros k fade Hr; cbn [fade_walk].
  - split; [|done]. eapply ramp_in_le; [|exact Hr]. lia.
  - apply ramp_tick_in in Hr. specialize (IH _ _ Hr). rewrite ramp_tick_target in IH.
    destruct (fade_walk n (ramp_tick fade)) as [f ys]. cbn [fst] in *. destruct IH as [IH Ht]. split; [|done].
    eapply ramp_in_le; [|exact IH]. lia.
Qed.

(** A command other than [FadeOut]. *)
Definition no_fade_out (cmds : list RtCmd) : Prop := Forall (fun c => rc_op c <> RtFadeOut) cmds.

Section fade.
Context `{Libm, RtMath}.

(** While fading out, no other command touches the output's fade. *)
Lemma apply_out op p p' :
  rt_apply op p = Some p' -> op <> RtFadeOut -> ou_fading_out (p_output p) = true ->
  ou_fade (p_output p') = ou_fade (p_output p) /\ ou_fading_out (p_output p') = true
  /\ rc_faded_out (p_status p') = rc_faded_out (p_status p) /\ p_sr p' = p_sr p.
Proof.
  intros Ha Hne Ho. destruct op; cbn [rt_apply] in Ha; try done; simplify_eq; try done.
  - unfold stop_test_rt. by destruct (p_test p).
  - destruct (ou_armed _); [done|]. unfold restart_fade. cbn. by rewrite Ho.
Qed.

Lemma render_inputs_out sine off n p b : same_out p (render_inputs sine off n p b).
Proof.
  unfold render_inputs.
  assert (Hk : same_out p (if bool_decide (is_Some (p_talkback_input p)) then read_talkback n p else (p, [])).1).
  { case_bool_decide; [|done]. unfold read_talkback. destruct (gate_walk _ _) as [g buf]. cbn. by destruct (_ && _). }
  destruct (if bool_decide _ then read_talkback n p else _) as [p1 talk]. etrans; [exact Hk|].
  by destruct (render_nodes _ _ _ _ _ _ _ _ _ _) as [nodes trips].
Qed.

Lemma render_mixes_same_out sine fade off n p b : same_out p (render_mixes sine fade off n p b).1.
Proof. unfold render_mixes. destruct (render_owns _ _ _ _) as [mixes trips]. cbn [fst]. by destruct (0 <? _). Qed.

Lemma render_fade off n p b :
  let q := (render off n p b).1 in
  p_output q = mkOutput (fade_walk n (ou_fade (p_output p))).1 (ou_fade_in (p_output p)) (ou_armed (p_output p)) (ou_fading_out (p_output p))
  /\ rc_faded_out (p_status q) = (ou_fading_out (p_output q) && negb (is_moving (ou_fade (p_output q)))) || rc_faded_out (p_status p).
Proof.
  cbn zeta. unfold render.
  assert (He : same_out p (end_test p)) by (unfold end_test; destruct (p_test p); [by destruct (_ <=? _)|done]).
  set (p0 := end_test p) in *. clearbody p0. destruct He as [He1 He2]. rewrite <-He1, <-He2.
  destruct (fade_walk n (ou_fade (p_output p0))) as [fade fades].
  set (pf := set_fade fade p0). set (pr := match p_test pf with Some t => _ | None => _ end).
  assert (Hpr : same_out pf pr.1) by (unfold pr; destruct (p_test _) as [t|]; [by destruct (test_render n t)|done]).
  destruct pr as [p1 sine]. cbn in Hpr. pose proof (render_inputs_out sine off n p1 b) as Hi.
  pose proof (render_mixes_same_out sine fades off n (render_inputs sine off n p1 b) b) as Hm.
  destruct (render_mixes _ _ _ _ _ _) as [p3 b3]. cbn [fst] in Hm. unfold render_hil.
  destruct (render_spares _ _ _ _ _ _ _ _ _) as [peaks b4]. cbn [fst].
  assert (Hl : same_out p3 (probe_latency off n (set_hil_meters peaks p3) b4)).
  { unfold probe_latency. cbn. repeat (case_match; cbn; try done). }
  assert (Hall : same_out pf (probe_latency off n (set_hil_meters peaks p3) b4)).
  { etrans; [exact Hpr|]. etrans; [exact Hi|]. etrans; [exact Hm|exact Hl]. }
  set (p4 := probe_latency _ _ _ _) in *. clearbody p4. destruct Hall as [Ho Hf]. unfold note_faded. rewrite Ho.
  unfold pf in *; cbn in *. destruct (ou_fading_out _ && _) eqn:He; cbn; rewrite Ho, ?Hf; cbn; by rewrite He.
Qed.

(** A segment brings silence nearer, and reports it. *)
Lemma render_fading off n len k p b :
  fading len k p -> fading len (Z.max 0 (k - Z.of_nat n)) (render off n p b).1 /\ reported (render off n p b).1.
Proof.
  intros [F1 F2 F3]. pose proof (render_fade off n p b) as [Ho Hf]. destruct (render off n p b) as [q b1]. cbn [fst] in *.
  destruct (fade_walk_in n _ _ _ F3) as [Hr Ht]. split.
  - split; rewrite Ho; cbn; [done|by rewrite Ht|done].
  - intros Hm. rewrite Hf, Hm, Ho. cbn. by rewrite F1.
Qed.

Lemma apply_cmds_fading cmds len k p p' :
  apply_cmds cmds p = Some p' -> no_fade_out cmds -> fading len k p -> fading len k p' /\ (reported p -> reported p').
Proof.
  revert p. induction cmds as [|c cmds IH]; intros p; cbn [apply_cmds]; [by intros [= <-]|].
  destruct (rt_apply (rc_op c) p) as [q|] eqn:Hq; cbn [mbind option_bind]; [|done]. intros Hr Hn Hf. apply Forall_cons in Hn as [Hc Hn].
  destruct (apply_out _ _ _ Hq Hc (fo_out _ _ _ Hf)) as (H1 & H2 & H3 & _).
  destruct (IH q Hr Hn) as [Hf' Hr']. { destruct Hf. split; by rewrite ?H1. }
  split; [done|]. intros Hrep. apply Hr'. unfold reported. by rewrite H1, H3.
Qed.

Lemma apply_due_fading fuel budget len k p p' left waits :
  apply_due_fuel fuel budget p = Some (p', left, waits) -> no_fade_out (rg_cmds (p_rings p)) ->
  fading len k p -> fading len k p' /\ (reported p -> reported p') /\ no_fade_out (rg_cmds (p_rings p')).
Proof.
  revert budget p. induction fuel as [|fuel IH]; intros budget p; cbn [apply_due_fuel]; [by intros [= <- <- <-]|].
  destruct (rg_cmds (p_rings p)) as [|c cmds] eqn:Hcm; [intros [= <- <- <-]; by rewrite Hcm|].
  destruct (_ <? _); [intros [= <- <- <-]; by rewrite Hcm|]. destruct (_ <? _)%nat; [intros [= <- <- <-]; by rewrite Hcm|]. set (n := Z.to_nat _).
  destruct (apply_cmds _ _) as [q|] eqn:Hq; cbn [mbind option_bind]; [|done]. intros Hr Hn Hf.
  rewrite <-(take_drop n (c :: cmds)) in Hn. apply Forall_app in Hn as [Ht Hd].
  pose proof (apply_cmds_fading _ len k _ _ Hq Ht) as [Hf' Hr']; [by apply (fading_same len k p)|].
  apply apply_cmds_spec in Hq as [_ (_ & Hc & _)]. cbn in Hc.
  destruct (IH _ _ Hr) as (F & R & N); [by rewrite Hc|done|]. split_and!; [done| |done]. intros Hrep. by apply R, Hr'.
Qed.

Lemma process_loop_fading fuel done_ budget late len k p b p' b' late' :
  process_loop fuel done_ budget late p b = Some (p', b', late') -> (bk_frames b - done_ <= fuel)%nat ->
  no_fade_out (rg_cmds (p_rings p)) -> fading len k p -> 0 <= k ->
  fading len (Z.max 0 (k - Z.of_nat (bk_frames b - done_))) p' /\ no_fade_out (rg_cmds (p_rings p'))
  /\ (reported p \/ (done_ < bk_frames b)%nat -> reported p').
Proof.
  revert done_ budget late k p b. induction fuel as [|fuel IH]; intros done_ budget late k p b; cbn [process_loop].
  { intros [= <- <- <-] Hf Hn Hfa Hk. split_and!; [eapply fading_le; [|done]; lia|done|]. intros [|]; [done|lia]. }
  destruct (Nat.leb_spec (bk_frames b) done_) as [Hd|Hd].
  { intros [= <- <- <-] Hf Hn Hfa Hk. split_and!; [eapply fading_le; [|done]; lia|done|]. intros [|]; [done|lia]. }
  destruct (apply_due budget p) as [[[p1 left] waits]|] eqn:Hdue; cbn [mbind option_bind]; [|done].
  set (n := segment _ _ _ _ _ _). set (spent := _ && _). assert (Hn : (0 < n <= Nat.min (bk_frames b - done_) SEG)%nat) by by apply segment_bounds.
  intros Hloop Hf Hnf Hfa Hk. apply (apply_due_fading _ _ len k) in Hdue as (F1 & _ & N1); [|done..].
  pose proof (render_fading done_ n len k p1 b F1) as [F2 R2]. pose proof (render_env done_ n p1 b) as [(_ & Hc & _) Hfr].
  destruct (render done_ n p1 b) as [p2 b2]. cbn [fst snd] in *.
  apply (IH _ _ _ (Z.max 0 (k - Z.of_nat n))) in Hloop as (F3 & N3 & R3);
    [|rewrite Hfr; lia|by change (rg_cmds (p_rings (advance n p2))) with (rg_cmds (p_rings p2)); rewrite Hc|exact (fading_same len _ p2 (advance n p2) eq_refl F2)|lia].
  rewrite Hfr in *. split_and!; [eapply fading_le; [|exact F3]; lia|done|]. intros _. apply R3. by left.
Qed.

Lemma process_fading len k p b p' b' :
  process p b = Some (p', b') -> no_fade_out (rg_cmds (p_rings p)) -> fading len k p -> 0 <= k ->
  fading len (Z.max 0 (k - Z.of_nat (bk_frames b))) p' /\ no_fade_out (rg_cmds (p_rings p'))
  /\ (reported p \/ (0 < bk_frames b)%nat -> reported p').
Proof.
  unfold process. intros Hp Hn Hf Hk. destruct (process_loop _ _ _ _ _ _) as [[[q b1] late]|] eqn:Hl; cbn [mbind option_bind] in Hp; [|done].
  apply (process_loop_fading _ _ _ _ len k) in Hl as (F & N & R); [|lia|done..]. rewrite Nat.sub_0_r in F. injection Hp as <- <-.
  assert (Hsame : p_output (note_late late q) = p_output q /\ rc_faded_out (p_status (note_late late q)) = rc_faded_out (p_status q)
    /\ p_rings (note_late late q) = p_rings q) by by destruct late. destruct Hsame as (S1 & S2 & S3).
  destruct (METER_PERIOD <=? _); (split_and!; [eapply fading_same; [|exact F]; exact S1|cbn; by rewrite S3|]);
    intros Hor; specialize (R Hor); unfold reported in *; cbn; by rewrite S1, S2.
Qed.
End fade.

(** * What nodes pass on

    Every node's signal goes through its sanitiser before anything reads it, so
    the stored signal of an input, a shadow and a mix is always made of numbers
    within [LIMIT] ([clean]), whatever the card delivers. *)

From S2P Require Import Prelude F64 Text MixState Msg Shape Topology TopologyWf Reconciled Rt Core Wire Control Dsp Mga Processor Render RtTargets RtHolds RtSched.
From stdpp Require Import options.
Local Open Scope Z_scope.
#[local] Unset Default Proof Using.

Definition clean (s : Stereo) : Prop := Forall (fun x => bad_sample x = false) s.1 /\ Forall (fun x => bad_sample x = false) s.2.

(** A number, at most [LIMIT] in magnitude. *)
Lemma bad_sample_false x : bad_sample x = false -> f64_is_nan x = false /\ f64_leb (f64_abs x) LIMIT = true.
Proof.
  unfold bad_sample. intros [Hn Hl]%orb_false_iff. split; [done|]. apply f64_ltb_leb; [done| |done].
  by destruct x as [[]|[]| |[]].
Qed.

Definition clean_mix (m : MixRt) : Prop := clean (mr_sum m) /\ forall s, mr_shadow m = Some s -> clean (sh_out s).

Definition clean_p (p : Processor) : Prop :=
  Forall (fun n => clean (ir_p n)) (p_inputs p) /\ Forall clean_mix (p_mixes p).

(** ** The sanitiser *)

Lemma existsb_false {A : Type} (f : A -> bool) l : existsb f l = false -> Forall (fun x => f x = false) l.
Proof. induction l as [|x l IH]; cbn; [done|]. intros [Hx Hl]%orb_false_iff. constructor; auto. Qed.

Lemma silence_clean l : Forall (fun x => bad_sample x = false) (silence l).
Proof. unfold silence. by apply Forall_replicate. Qed.

(** A node's signal after its sanitiser: silent if it tripped, untouched if not. *)
Lemma check2_spec count s :
  let '(count', tripped, s') := check2 count s in
  clean s' /\ (if tripped then count' = u64_wrapping_add count 1 /\ s' = (silence s.1, silence s.2) else count' = count /\ s' = s).
Proof.
  unfold check2, check, sanitize. cbn [existsb]. destruct (existsb bad_sample s.1 || _) eqn:Hb; cbn.
  - split_and!; try done. split; apply silence_clean.
  - apply orb_false_iff in Hb as [H1 H2]. rewrite orb_false_r in H2. destruct s as [l r]. cbn in *. split_and!; try done. split; by apply existsb_false.
Qed.

Lemma check2_clean count s : clean (check2 count s).2.
Proof. pose proof (check2_spec count s) as H. destruct (check2 count s) as [[c t] s']. apply H. Qed.

Lemma st_put_clean new s : clean new -> clean s -> clean (st_put new s).
Proof. intros [Hn1 Hn2] [Hs1 Hs2]. split; cbn; apply Forall_app; split; try done; by apply Forall_drop. Qed.

Lemma Stereo_new_clean : clean Stereo_new.
Proof. split; by apply Forall_replicate. Qed.

(** A shadow changed in its settings only. *)
Lemma clean_shadow (f : ShadowRt -> ShadowRt) o :
  (forall s, sh_out (f s) = sh_out s) -> (forall s, o = Some s -> clean (sh_out s)) -> forall s, f <$> o = Some s -> clean (sh_out s).
Proof. intros Hf Ho s (s0 & -> & ->)%fmap_Some. rewrite Hf. by apply Ho. Qed.

(** ** Commands and rendering *)

Section clean.
Context `{Libm, RtMath}.

Lemma apply_clean op p p' : rt_apply op p = Some p' -> clean_p p -> clean_p p'.
Proof.
  intros Ha [Hi Hm]. destruct op; cbn [rt_apply] in Ha; simplify_eq; try done.
  - split; [|done]. apply Forall_at; [|done]. intros x. unfold input_set. by destruct (_ && _).
  - split; [|done]. by apply Forall_at.
  - split; [done|]. apply Forall_at; [|done]. intros x [Hx Hs]. split; [exact Hx|]. by apply clean_shadow.
  - split; [done|]. apply Forall_at; [|done]. intros x [Hx Hs]. split; [exact Hx|]. by apply clean_shadow.
  - split; [done|]. apply Forall_at; [|done]. intros x [Hx Hs]. split; [exact Hx|]. by apply clean_shadow.
  - split; [done|]. by apply Forall_at.
  - split; [done|]. by apply Forall_at.
  - split; [done|]. by apply Forall_at.
  - split; [done|]. by apply Forall_at.
  - split; [done|]. cbn. apply Forall_fmap. by eapply Forall_impl.
  - split; [done|]. cbn. apply Forall_fmap. by eapply Forall_impl.
  - unfold stop_test_rt. by destruct (p_test p).
  - destruct (ou_armed _); [done|]. unfold restart_fade. by destruct (ou_fading_out _).
Qed.

Lemma input_process_p node x : ir_p (input_process node x).1 = ir_p node.
Proof.
  unfold input_process. destruct (_ && _); [done|]. destruct (ramp_gain _ _) as [trim x1]. destruct (eq_through _ _) as [eq x2].
  destruct (is_moving _); [by destruct (cross_walk _ _ _ _ _)|done].
Qed.

Lemma render_input_clean b off n t sine talk talkback i spec node :
  clean (ir_p node) -> clean (ir_p (render_input b off n t sine talk talkback i spec node).1).
Proof.
  intros Hc. unfold render_input. destruct (check2 (ir_trips node) _) as [[count tripped] x1].
  match goal with |- context [input_process ?nd ?x] => pose proof (input_process_p nd x) as Hp; destruct (input_process nd x) as [node2 x2] end.
  destruct (ramp_gain _ _) as [gate x3]. pose proof (check2_clean (ir_trips node2) x3) as Hx. destruct (check2 _ x3) as [[count2 again] x4].
  cbn in *. rewrite Hp. by apply st_put_clean.
Qed.

Lemma render_nodes_clean b off n t sine talk talkback i specs nodes :
  Forall (fun n => clean (ir_p n)) nodes -> Forall (fun n => clean (ir_p n)) (render_nodes b off n t sine talk talkback i specs nodes).1.
Proof.
  revert i nodes. induction specs as [|spec specs IH]; intros i [|node nodes] Hc; cbn [render_nodes]; try done.
  apply Forall_cons in Hc as [Hc Hcs]. pose proof (render_input_clean b off n t sine talk talkback i spec node Hc) as Hn.
  destruct (render_input _ _ _ _ _ _ _ _ _ _) as [node' tripped]. specialize (IH (S i) nodes Hcs).
  destruct (render_nodes _ _ _ _ _ _ _ _ _ _) as [nodes' trips]. by constructor.
Qed.

Lemma own_sum_clean topo inputs n m : clean_mix m -> clean_mix (own_sum topo inputs n m).1.
Proof. unfold own_sum. destruct (sum_inputs _ _ _ _ _) as [l acc]. by destruct (sum_groups _ _ _ _ _ _) as [[[g l2] acc2] tr]. Qed.

Lemma render_shadow_clean s own n : clean (sh_out s) -> clean (sh_out (render_shadow s own n).1).
Proof.
  intros Hc. unfold render_shadow. destruct (eq_through _ _) as [eq x]. destruct (ml_process _ _) as [limiter x1].
  destruct (stereo_gain _ _) as [fader x2]. pose proof (check2_clean (sh_trips s) x2) as Hx. destruct (check2 _ _) as [[count tripped] x3].
  by apply st_put_clean.
Qed.

Lemma render_owns_clean topo inputs n mixes : Forall clean_mix mixes -> Forall clean_mix (render_owns topo inputs n mixes).1.
Proof.
  induction mixes as [|m mixes IH]; intros Hc; cbn [render_owns]; [done|]. apply Forall_cons in Hc as [Hm Hc]. specialize (IH Hc).
  pose proof (own_sum_clean topo inputs n m Hm) as Ho. destruct (own_sum topo inputs n m) as [m1 trips]. cbn [fst] in Ho.
  destruct (render_owns topo inputs n mixes) as [mixes' rest]. destruct (mr_shadow m1) as [s|] eqn:Hs; [|by constructor].
  pose proof (render_shadow_clean s (mr_own m1) n (proj2 Ho _ Hs)) as Hsh. destruct (render_shadow _ _ _) as [s' tripped].
  constructor; [|done]. split; [apply Ho|]. by intros s0 [= <-].
Qed.

Lemma render_mix_clean topo listen t sine fade off n m s :
  Forall clean_mix (mx_mixes s) -> Forall clean_mix (mx_mixes (render_mix topo listen t sine fade off n m s)).
Proof.
  intros Hc. unfold render_mix. destruct (t_mixes topo !! m) as [spec|]; [|done]. destruct (mx_mixes s !! m) as [mix|] eqn:Hm; [|done].
  destruct (sum_mixes mr_sum _ _ _ _ _ _ _) as [levels1 x1]. destruct (sum_mixes own_out _ _ _ _ _ _ _) as [levels2 x2].
  destruct (eq_through _ _) as [eq x3]. destruct (ml_process _ _) as [limiter x4].
  set (s1 := if bool_decide _ then push_listen 0 x4 t sine fade s else s).
  assert (Hs1 : mx_mixes s1 = mx_mixes s) by (unfold s1; case_bool_decide; [apply push_listen_mixes|done]). clearbody s1.
  destruct (stereo_gain _ _) as [fader x5]. pose proof (check2_clean (mr_trips mix) x5) as Hx. destruct (check2 _ _) as [[count tripped] x6].
  match goal with |- context [if bool_decide ?P then ?a else s1] => set (s2 := if bool_decide P then a else s1) end.
  assert (Hs2 : mx_mixes s2 = mx_mixes s).
  { unfold s2. case_bool_decide; [|done]. destruct (lim_process _ _ _) as [lim y]. by rewrite push_listen_mixes. }
  clearbody s2. destruct (tx_walk _ _ _ _ _ _) as [safety [tl tr]]. cbn [mx_mixes snd] in *. rewrite Hs2.
  apply Forall_insert; [done|]. pose proof (proj1 (Forall_lookup _ _) Hc _ _ Hm) as [Hmix Hsh].
  split; [by apply st_put_clean|done].
Qed.

Lemma render_order_clean topo listen t sine fade off n order s :
  Forall clean_mix (mx_mixes s) ->
  Forall clean_mix (mx_mixes (foldl (fun s m => render_mix topo listen t sine fade off n m s) s order)).
Proof. revert s. induction order as [|m order IH]; intros s Hc; cbn [foldl]; [done|]. by apply IH, render_mix_clean. Qed.

Lemma render_inputs_clean sine off n p b : clean_p p -> clean_p (render_inputs sine off n p b).
Proof.
  intros [Hi Hm]. unfold render_inputs.
  assert (Hk : clean_p (if bool_decide (is_Some (p_talkback_input p)) then read_talkback n p else (p, [])).1).
  { case_bool_decide; [|done]. unfold read_talkback. destruct (gate_walk _ _) as [g buf]. cbn. by destruct (_ && _). }
  destruct (if bool_decide _ then read_talkback n p else _) as [p1 talk]. destruct Hk as [Hi1 Hm1].
  pose proof (render_nodes_clean b off n (p_test p1) sine talk (p_talkback_input p1) 0 (t_inputs (p_topo p1)) (p_inputs p1) Hi1) as Hn.
  by destruct (render_nodes _ _ _ _ _ _ _ _ _ _) as [nodes trips].
Qed.

Lemma render_mixes_clean sine fade off n p b : clean_p p -> clean_p (render_mixes sine fade off n p b).1.
Proof.
  intros [Hi Hm]. unfold render_mixes. pose proof (render_owns_clean (p_topo p) (p_inputs p) n (p_mixes p) Hm) as Ho.
  destruct (render_owns _ _ _ _) as [mixes trips].
  match goal with |- context [foldl _ ?s _] =>
    pose proof (render_order_clean (p_topo p) (p_listen p) (p_test p) sine fade off n (t_order (p_topo p)) s Ho) as Hf end.
  cbn [fst]. by destruct (0 <? _).
Qed.

Lemma end_test_clean p : clean_p p -> clean_p (end_test p).
Proof.
  intros [Hi Hm]. unfold end_test. destruct (p_test p); [|done]. destruct (_ <=? _); [|done]. split; [done|]. cbn. by apply Forall_fmap.
Qed.

Lemma render_clean off n p b : clean_p p -> clean_p (render off n p b).1.
Proof.
  intros Hc. unfold render. pose proof (end_test_clean p Hc) as Hc0. set (p0 := end_test p) in *. clearbody p0.
  destruct (fade_walk _ _) as [fade fades].
  set (pr := match p_test (set_fade fade p0) with Some t => _ | None => _ end).
  assert (Hpr : clean_p pr.1) by (unfold pr; destruct (p_test _) as [t|]; [by destruct (test_render n t)|done]).
  destruct pr as [p1 sine]. cbn in Hpr.
  pose proof (render_mixes_clean sine fades off n _ b (render_inputs_clean sine off n p1 b Hpr)) as Hm.
  destruct (render_mixes _ _ _ _ _ _) as [p3 b3]. unfold render_hil. destruct (render_spares _ _ _ _ _ _ _ _ _) as [peaks b4].
  cbn [fst] in *. unfold probe_latency, note_faded; cbn. repeat (case_match; cbn; try done).
Qed.

(** ** Blocks *)

Lemma apply_cmds_clean cmds p p' : apply_cmds cmds p = Some p' -> clean_p p -> clean_p p'.
Proof.
  revert p. induction cmds as [|c cmds IH]; intros p; cbn [apply_cmds]; [by intros [= <-]|].
  destruct (rt_apply (rc_op c) p) as [q|] eqn:Hq; cbn [mbind option_bind]; [|done]. intros Hr Hc. eapply IH; [done|]. by eapply apply_clean.
Qed.

Lemma apply_due_clean fuel budget p p' left waits : apply_due_fuel fuel budget p = Some (p', left, waits) -> clean_p p -> clean_p p'.
Proof.
  revert budget p. induction fuel as [|fuel IH]; intros budget p; cbn [apply_due_fuel]; [by intros [= <- <- <-]|].
  destruct (rg_cmds (p_rings p)) as [|c cmds]; [by intros [= <- <- <-]|].
  destruct (_ <? _); [by intros [= <- <- <-]|]. destruct (_ <? _)%nat; [by intros [= <- <- <-]|].
  destruct (apply_cmds _ _) as [q|] eqn:Hq; cbn [mbind option_bind]; [|done]. intros Hr Hc. eapply IH; [done|].
  by eapply apply_cmds_clean.
Qed.

Lemma process_loop_clean fuel done_ budget late p b p' b' late' :
  process_loop fuel done_ budget late p b = Some (p', b', late') -> clean_p p -> clean_p p'.
Proof.
  revert done_ budget late p b. induction fuel as [|fuel IH]; intros done_ budget late p b; cbn [process_loop]; [by intros [= <- <- <-]|].
  destruct (_ <=? _)%nat; [by intros [= <- <- <-]|].
  destruct (apply_due budget p) as [[[p1 left] waits]|] eqn:Hdue; cbn [mbind option_bind]; [|done]. intros Hloop Hc.
  apply apply_due_clean in Hdue; [|done]. set (n := segment _ _ _ _ _ _) in *.
  pose proof (render_clean done_ n p1 b Hdue) as Hr. destruct (render done_ n p1 b) as [p2 b2]. by eapply IH.
Qed.

Lemma process_clean p b p' b' : process p b = Some (p', b') -> clean_p p -> clean_p p'.
Proof.
  unfold process. intros Hp Hc. destruct (process_loop _ _ _ _ _ _) as [[[q b1] late]|] eqn:Hl; cbn [mbind option_bind] in Hp; [|done].
  apply process_loop_clean in Hl; [|done]. injection Hp as <- <-.
  assert (Hq : clean_p (note_late late q)) by by destruct late. destruct (METER_PERIOD <=? _); [|done].
  destruct Hq as [Hi Hm]. split; cbn; apply Forall_fmap; [done|]. eapply Forall_impl; [exact Hm|]. intros m [Hs Hsh]. split; [exact Hs|].
  by apply clean_shadow.
Qed.

Lemma with_hil_clean topo state counters opts spares rx : clean_p (with_hil_rt topo state counters opts spares rx).
Proof.
  split; cbn.
  - apply Forall_fmap, Forall_forall. intros x _. apply Stereo_new_clean.
  - apply Forall_lookup. intros m x. rewrite list_lookup_imap. intros (r & _ & ->)%fmap_Some. split; [apply Stereo_new_clean|].
    cbn. destruct (t_mixes topo !! m) as [n|]; [|done]. cbn. destruct (mn_shadow n); [|done]. intros s' [= <-]. apply Stereo_new_clean.
Qed.
End clean.
