(* ===== verification/Mirror.v ===== *)
(** * The server's copy of the engine's state ([iem-server/src/engine/mirror.rs])

    The web server holds the topology, the mix state, the transient state and
    the revision as the engine's messages give them, and asks for the state
    again when a delta skips a revision.  [view_change] is one announced change;
    [MirrorSpec] proves that a mirror over the control loop's messages is the
    core.

    Then what each operation of the core announces, which is what it did. *)

From S2P Require Import Prelude F64 Text MixState Msg Shape Topology TopologyWf Reconciled Rt Core CoreSync CoreApply Wire.
From stdpp Require Import options.
Local Open Scope Z_scope.

Record Mirror := mkMirror {
  mv_hello : option Hello;
  mv_topology : option TopologyInfo;
  mv_state : MixState;
  mv_transient : Transient;
  mv_rev : Z;
  mv_synced : bool;
}.

Inductive MirrorEvent :=
| MvTopology
| MvReset
| MvChanged (origin : option Z) (changes : list Change)
| MvResync.

Definition Transient_default : Transient := mkTransient [] (None, None) None.
Definition Mirror_default : Mirror := mkMirror None None MixState_default Transient_default 0 false.

Definition set_synced (b : bool) (mv : Mirror) : Mirror :=
  mkMirror (mv_hello mv) (mv_topology mv) (mv_state mv) (mv_transient mv) (mv_rev mv) b.

(** The connection dropped. *)
Definition mirror_disconnected : Mirror -> Mirror := set_synced false.

(** [entry(mix).or_default()]. *)
Definition alter_mirror_mix (f : Mix -> Mix) (mix : MixId) (s : MixState) : MixState :=
  mkMixState (s_inputs s) (<[mix := f (or_default Mix_default (s_mixes s !! mix))]> (s_mixes s)).

Definition put_source (source : Source) (level : Level) (x : Mix) : Mix :=
  match source with
  | SrcInput id => mkMix (m_out x) (<[id := level]> (m_inputs x)) (m_groups x) (m_mixes x)
  | SrcMix id => mkMix (m_out x) (m_inputs x) (m_groups x) (<[id := level]> (m_mixes x))
  end.

Definition put_solo (mix : MixId) (sources : list Source) (l : list Solo) : list Solo :=
  let l := filter (fun s => solo_mix s <> mix) l in
  match sources with [] => l | _ => l ++ [mkSolo mix sources] end.

(** One change, on the state and the transient state. *)
Definition view_change (v : MixState * Transient) (c : Change) : MixState * Transient :=
  let '(s, t) := v in
  match c with
  | ChInput id state => (mkMixState (<[id := state]> (s_inputs s)) (s_mixes s), t)
  | ChMixOut mix out => (alter_mirror_mix (fun x => mkMix out (m_inputs x) (m_groups x) (m_mixes x)) mix s, t)
  | ChLevel mix source level => (alter_mirror_mix (put_source source level) mix s, t)
  | ChGroup mix group state =>
      (alter_mirror_mix (fun x => mkMix (m_out x) (m_inputs x) (<[group := state]> (m_groups x)) (m_mixes x)) mix s, t)
  | ChSolo mix sources => (s, mkTransient (put_solo mix sources (t_solo t)) (t_listen t) (t_test_signal t))
  | ChListen listen => (s, mkTransient (t_solo t) listen (t_test_signal t))
  | ChTestSignal signal => (s, mkTransient (t_solo t) (t_listen t) signal)
  | ChLimiterStatsReset _ => (s, t)
  end.

Definition mirror_change (mv : Mirror) (c : Change) : Mirror :=
  let '(s, t) := view_change (mv_state mv, mv_transient mv) c in
  mkMirror (mv_hello mv) (mv_topology mv) s t (mv_rev mv) (mv_synced mv).

Definition mirror_apply (msg : EngineMsg) (mv : Mirror) : Mirror * option MirrorEvent :=
  match msg with
  | MHello h => (mkMirror (Some h) (mv_topology mv) (mv_state mv) (mv_transient mv) (mv_rev mv) (mv_synced mv), None)
  | MTopology t =>
      (mkMirror (mv_hello mv) (Some t) (mv_state mv) (mv_transient mv) (mv_rev mv) (mv_synced mv), Some MvTopology)
  | MState rev state transient =>
      (mkMirror (mv_hello mv) (mv_topology mv) state transient rev true, Some MvReset)
  | MDelta rev origin changes =>
      if negb (mv_synced mv) || (rev <=? mv_rev mv) then (mv, None)
      else if negb (rev =? mv_rev mv + 1) then (set_synced false mv, Some MvResync)
      else
        let mv := foldl mirror_change mv changes in
        (mkMirror (mv_hello mv) (mv_topology mv) (mv_state mv) (mv_transient mv) rev (mv_synced mv),
         Some (MvChanged origin changes))
  | _ => (mv, None)
  end.

Definition mirror_level (mv : Mirror) (mix : MixId) (source : Source) : Level :=
  or_default Level_default (m ← s_mixes (mv_state mv) !! mix; Mix_level m source).
Definition mirror_group (mv : Mirror) (mix : MixId) (group : GroupId) : MixGroup :=
  or_default MixGroup_default (m ← s_mixes (mv_state mv) !! mix; m_groups m !! group).
Definition mirror_out (mv : Mirror) (mix : MixId) : MixOut :=
  or_default MixOut_default (m_out <$> s_mixes (mv_state mv) !! mix).
Definition mirror_input (mv : Mirror) (id : InputId) : InputState :=
  or_default InputState_default (s_inputs (mv_state mv) !! id).

(** The soloed sources of a mix, none without a solo. *)
Definition mirror_solo (mv : Mirror) (mix : MixId) : list Source :=
  match list_find (fun s => solo_mix s = mix) (t_solo (mv_transient mv)) with
  | Some (_, s) => solo_sources s
  | None => []
  end.

(** * What the core announces is what it did

    [view c]: the state and the transient state of a core as the protocol shows
    them; [same_view]: equal but for the order of the solos.  [tells c out]: the
    changes an operation announces, applied to the view before it, give the view
    after it.  Every command, the core's own events and batches tell. *)

From S2P Require Import Prelude F64 Text MixState Msg Shape Topology TopologyWf Reconciled Rt Core CoreSync CoreCmd CoreApply Wire.
From stdpp Require Import options.
Local Open Scope Z_scope.
#[local] Unset Default Proof Using.

Definition view (c : Core) : MixState * Transient := (core_state c, transient c).

Record same_view (v w : MixState * Transient) : Prop := {
  sv_state : v.1 = w.1;
  sv_solo : t_solo v.2 ≡ₚ t_solo w.2;
  sv_listen : t_listen v.2 = t_listen w.2;
  sv_test : t_test_signal v.2 = t_test_signal w.2;
}.

#[export] Instance same_view_equiv : Equivalence same_view.
Proof.
  split.
  - intros v. by split.
  - intros v w [H1 H2 H3 H4]. by split.
  - intros u v w [H1 H2 H3 H4] [K1 K2 K3 K4]. split; by etrans.
Qed.

#[export] Instance put_solo_proper mix sources : Proper (Permutation ==> Permutation) (put_solo mix sources).
Proof. intros l l' Hl. unfold put_solo. destruct sources; by rewrite Hl. Qed.

#[export] Instance view_change_proper : Proper (same_view ==> eq ==> same_view) view_change.
Proof.
  intros [s t] [s' t'] [H1 H2 H3 H4] ? c ->. cbn in *. subst s'.
  destruct c; split; cbn; try done. by rewrite H2.
Qed.

#[export] Instance view_changes_proper : Proper (same_view ==> eq ==> same_view) (foldl view_change).
Proof.
  intros v w Hv ? l ->. revert v w Hv. induction l as [|c l IH]; intros v w Hv; [done|].
  cbn [foldl]. apply IH. by rewrite Hv.
Qed.

(** ** The state *)

Lemma filter_all {A : Type} (P : A -> Prop) `{forall x, Decision (P x)} l : Forall P l -> filter P l = l.
Proof. induction 1 as [|x l Hx _ IH]; [done|]. by rewrite filter_cons_True, IH. Qed.

Section told.
Context {channels : Z} {topo : Topology} (Hwf : topo_wf channels topo).

Lemma to_state_input s i node new :
  layout_ok topo s -> t_inputs topo !! i = Some node ->
  to_state topo (set_input_at i new s)
  = mkMixState (<[in_id node := new]> (s_inputs (to_state topo s))) (s_mixes (to_state topo s)).
Proof.
  intros Hl Hi. unfold to_state, set_input_at. cbn [r_inputs r_mixes s_inputs s_mixes].
  f_equal. apply zip_insert_update; [apply (wf_nodup_inputs Hwf)|apply (lo_inputs _ _ Hl)|done].
Qed.

Lemma state_mixes s :
  length (r_mixes s) = length (t_mixes topo) -> s_mixes (to_state topo s)
  = foldl (fun acc '(n, x) => <[mn_id n := x]> acc) ∅ (zip (t_mixes topo) (imap (mix_of_rec topo) (r_mixes s))).
Proof. intros Hl. rewrite to_state_mixes_eq, take_ge; [done|]. by rewrite Hl. Qed.

Lemma state_mix s m node rec :
  layout_ok topo s -> t_mixes topo !! m = Some node -> r_mixes s !! m = Some rec ->
  s_mixes (to_state topo s) !! mn_id node = Some (mix_of_rec topo m rec).
Proof.
  intros Hl Hm Hr. rewrite state_mixes by apply (lo_mixes _ _ Hl).
  apply (zip_insert_lookup mn_id _ _ m); [apply (wf_nodup_mixes Hwf)|by rewrite length_imap, (lo_mixes _ _ Hl)|done|].
  by rewrite list_lookup_imap, Hr.
Qed.

Lemma imap_alter {A B : Type} (f : nat -> A -> B) g i l x :
  l !! i = Some x -> imap f (alter g i l) = <[i := f i (g x)]> (imap f l).
Proof.
  intros Hx. apply list_eq. intros j. rewrite list_lookup_imap, list_lookup_alter, list_lookup_insert.
  assert (Hlt : (i < length (imap f l))%nat) by (rewrite length_imap; by eapply lookup_lt_Some).
  case_decide as Hij; [subst; rewrite Hx, decide_True by done|rewrite decide_False by tauto]; [done|].
  by rewrite list_lookup_imap.
Qed.

(** Changing a record changes its mix, by [g] if that is what it does to it. *)
Lemma to_state_mix s m node rec f g :
  layout_ok topo s -> t_mixes topo !! m = Some node -> r_mixes s !! m = Some rec ->
  mix_of_rec topo m (f rec) = g (mix_of_rec topo m rec) ->
  to_state topo (alter_mix f m s) = alter_mirror_mix g (mn_id node) (to_state topo s).
Proof.
  intros Hl Hm Hr Hg. unfold alter_mirror_mix. rewrite (state_mix s m node rec) by done. cbn [or_default].
  pose proof (lo_mixes _ _ Hl) as Hlen.
  assert (He : s_mixes (to_state topo (alter_mix f m s)) = <[mn_id node := g (mix_of_rec topo m rec)]> (s_mixes (to_state topo s))).
  { rewrite !state_mixes by (cbn; by rewrite ?length_alter). cbn [alter_mix r_mixes].
    rewrite (imap_alter _ _ _ _ rec), Hg by done.
    apply zip_insert_update; [apply (wf_nodup_mixes Hwf)|by rewrite length_imap|done]. }
  rewrite <-He. done.
Qed.

Lemma mix_of_rec_out m o ls gs o' :
  mix_of_rec topo m (mkMixRec o' ls gs)
  = let x := mix_of_rec topo m (mkMixRec o ls gs) in mkMix o' (m_inputs x) (m_groups x) (m_mixes x).
Proof.
  unfold mix_of_rec. cbn [r_out r_levels r_groups].
  assert (Hf : forall ps x, foldl (put_level topo m) (mkMix o' (m_inputs x) (m_groups x) (m_mixes x)) ps
                            = let y := foldl (put_level topo m) x ps in mkMix o' (m_inputs y) (m_groups y) (m_mixes y)).
  { induction ps as [|[k l] ps IH]; intros x; [done|]. cbn [foldl]. rewrite <-IH. f_equal.
    unfold put_level. by destruct (source topo m k) as [[]|]. }
  pose proof (Hf (zip (seq 0 (length ls)) ls) (mkMix o ∅ ∅ ∅)) as He. cbn [m_inputs m_groups m_mixes] in He.
  by rewrite He.
Qed.
Lemma mix_of_rec_at m n rec src :
  t_mixes topo !! m = Some n ->
  Mix_level (mix_of_rec topo m rec) src = (k ← slot topo m src; r_levels rec !! k).
Proof.
  intros Hm. destruct (slot_source Hwf _ _ Hm) as [Hb _]. apply option_eq. intros l. split.
  - intros (k & Hl & Hs)%mix_of_rec_Some. by rewrite (proj2 (Hb src k) Hs).
  - intros (k & Hk & Hl)%bind_Some. eapply (mix_of_rec_lookup Hwf); [done|exact Hl|by apply Hb].
Qed.

Lemma mix_of_rec_put m n o ls gs k src l :
  t_mixes topo !! m = Some n -> source topo m k = Some src -> (k < length ls)%nat ->
  mix_of_rec topo m (mkMixRec o (<[k := l]> ls) gs) = put_source src l (mix_of_rec topo m (mkMixRec o ls gs)).
Proof.
  intros Hm Hs Hk. destruct (slot_source Hwf _ _ Hm) as [Hb _].
  set (x := mix_of_rec topo m (mkMixRec o (<[k := l]> ls) gs)). set (y := put_source src l _).
  assert (Hl : forall s, Mix_level x s = Mix_level y s).
  { intros s. subst x y. rewrite (mix_of_rec_at m n) by done. cbn [r_levels].
    trans (if decide (s = src) then Some l else Mix_level (mix_of_rec topo m (mkMixRec o ls gs)) s).
    - case_decide as He; [subst; rewrite (proj2 (Hb src k) Hs); cbn; by apply list_lookup_insert_eq|].
      rewrite (mix_of_rec_at m n) by done. cbn [r_levels]. destruct (slot topo m s) as [j|] eqn:Hj; cbn [mbind option_bind]; [|done].
      apply list_lookup_insert_ne. intros ->. apply Hb in Hj. congruence.
    - destruct src as [id|id], s as [id'|id']; cbn [put_source Mix_level m_inputs m_mixes]; case_decide; simplify_eq;
        by rewrite ?lookup_insert_eq, ?lookup_insert_ne by congruence. }
  assert (Ho : m_out x = m_out y /\ m_groups x = m_groups y).
  { subst x y. destruct src; cbn; by rewrite !put_levels_rest. }
  destruct x as [xo xi xg xm], y as [yo yi yg ym]. cbn [m_out m_groups] in Ho. destruct Ho as [-> ->]. f_equal.
  - apply map_eq. intros id. apply (Hl (SrcInput id)).
  - apply map_eq. intros id. apply (Hl (SrcMix id)).
Qed.

Lemma mix_of_rec_group m o ls gs g node strip :
  length gs = length (t_groups topo) -> t_groups topo !! g = Some node ->
  mix_of_rec topo m (mkMixRec o ls (<[g := strip]> gs))
  = let x := mix_of_rec topo m (mkMixRec o ls gs) in
    mkMix (m_out x) (m_inputs x) (<[gn_id node := strip]> (m_groups x)) (m_mixes x).
Proof.
  intros Hl Hg. unfold mix_of_rec. cbn [r_out r_levels r_groups m_out m_inputs m_groups m_mixes]. f_equal.
  apply zip_insert_update; [apply (wf_nodup_groups Hwf)|done..].
Qed.

(** ** The solos *)

Definition solo_entry (p : nat * gset nat) : option Solo :=
  id ← mix_id_of topo p.1; Some (mkSolo id (omap (source topo p.1) (sorted_set p.2))).

Definition solos (solo : gmap nat (gset nat)) : list Solo := omap solo_entry (map_to_list solo).

Lemma omap_entries (solo : gmap nat (gset nat)) (l : list (nat * gset nat)) :
  (forall p, p ∈ l -> solo !! p.1 = Some p.2) ->
  omap (fun m => set ← solo !! m; id ← mix_id_of topo m; Some (mkSolo id (omap (source topo m) (sorted_set set)))) l.*1
  = omap solo_entry l.
Proof.
  induction l as [|[m set] l IH]; intros Hin; [done|]. csimpl.
  rewrite IH by (intros p Hp; apply Hin; by right).
  pose proof (Hin (m, set) (list_elem_of_here _ _)) as Hs. cbn [fst snd] in Hs. by rewrite Hs.
Qed.

Lemma transient_solos c : c_topo c = topo -> t_solo (transient c) ≡ₚ solos (c_solo c).
Proof.
  intros Ht. cbn [t_solo transient]. rewrite Ht. unfold sorted_keys. rewrite merge_sort_Permutation.
  by rewrite omap_entries by (intros [m set]; apply elem_of_map_to_list).
Qed.

Lemma mix_id_inj m m' id : mix_id_of topo m = Some id -> mix_id_of topo m' = Some id -> m = m'.
Proof.
  unfold mix_id_of. intros Hm Hm'. apply (NoDup_lookup (mn_id <$> t_mixes topo) m m' id);
    [apply (wf_nodup_mixes Hwf)|by rewrite list_lookup_fmap..].
Qed.

Lemma solos_drop_other solo m id :
  mix_id_of topo m = Some id -> solo !! m = None -> filter (fun s => solo_mix s <> id) (solos solo) = solos solo.
Proof.
  intros Hid Hn. apply filter_all, Forall_forall. intros s Hs. unfold solos in Hs.
  apply list_elem_of_omap in Hs as ([m' set] & Hin & He). apply elem_of_map_to_list in Hin.
  unfold solo_entry in He. apply bind_Some in He as (id' & Hid' & [= <-]). cbn [fst] in *. cbn. intros ->.
  assert (m = m') as <- by (by eapply mix_id_inj). congruence.
Qed.

Lemma solos_drop solo m id :
  mix_id_of topo m = Some id -> filter (fun s => solo_mix s <> id) (solos solo) ≡ₚ solos (delete m solo).
Proof.
  intros Hid. destruct (solo !! m) as [set|] eqn:Hs.
  - assert (Hp : solos solo ≡ₚ mkSolo id (omap (source topo m) (sorted_set set)) :: solos (delete m solo)).
    { unfold solos. rewrite <-(map_to_list_delete solo m set Hs). cbn. unfold solo_entry at 1. cbn. by rewrite Hid. }
    rewrite Hp, filter_cons_False by (cbn; tauto).
    by rewrite (solos_drop_other _ m id Hid (lookup_delete_eq _ _)).
  - rewrite delete_id by done. by rewrite (solos_drop_other _ m id Hid Hs).
Qed.

Lemma solos_put solo m id set :
  mix_id_of topo m = Some id -> set <> ∅ -> (forall k, k ∈ set -> (k < levels topo m)%nat) ->
  solos (<[m := set]> solo) ≡ₚ put_solo id (omap (source topo m) (sorted_set set)) (solos solo).
Proof.
  intros Hid Hne Hk. unfold put_solo.
  assert (Hl : omap (source topo m) (sorted_set set) <> []).
  { destruct (set_choose_L set Hne) as [k Hin].
    assert (Hm : exists n, t_mixes topo !! m = Some n) by (unfold mix_id_of in Hid; apply fmap_Some in Hid as (n & Hn & _); eauto).
    destruct Hm as [n Hm]. destruct (slot_source Hwf _ _ Hm) as [_ Hlt].
    destruct (proj2 (Hlt k) (Hk k Hin)) as [src Hsrc]. intros He. apply (not_elem_of_nil src). rewrite <-He.
    apply list_elem_of_omap. exists k. split; [|done]. unfold sorted_set. rewrite merge_sort_Permutation. by apply elem_of_elements. }
  destruct (omap (source topo m) (sorted_set set)) as [|x xs] eqn:Hx; [done|]. rewrite <-Hx.
  rewrite (solos_drop _ m id Hid), <-insert_delete_eq. unfold solos at 1. rewrite map_to_list_insert by apply lookup_delete_eq. cbn.
  unfold solo_entry at 1. cbn [fst snd]. rewrite Hid. cbn [mbind option_bind].
  apply Permutation_cons_append.
Qed.
End told.

(** ** Operations of the core *)

Section tells.
Context `{Libm} {channels : Z}.

Definition tells_view (c : Core) (changes : list Change) (c' : Core) : Prop :=
  same_view (foldl view_change (view c) changes) (view c').

(** Apart from an import, whose new state is sent whole. *)
Definition tells (c : Core) (out : Core * result CmdError Partial) : Prop :=
  match out.2 with
  | Err _ => True
  | Ok p => p_changes p = [] /\ p_effect p = Some EImported \/ tells_view c (p_changes p) out.1
  end.

Lemma tells_same c p : p_changes p = [] -> tells c (c, Ok p).
Proof. intros Hp. right. cbn. rewrite Hp. done. Qed.

Lemma tells_nothing c c' p : p_changes p = [] -> same_view (view c) (view c') -> tells c (c', Ok p).
Proof. intros Hp Hv. right. cbn. by rewrite Hp. Qed.

Lemma tells_view_app c1 c2 c3 l1 l2 : tells_view c1 l1 c2 -> tells_view c2 l2 c3 -> tells_view c1 (l1 ++ l2) c3.
Proof. unfold tells_view. intros H1 H2. by rewrite foldl_app, H1. Qed.

Lemma view_set_s c s : view (set_s s c) = (to_state (c_topo c) s, transient c).
Proof. done. Qed.

Lemma set_input_tells c i new : core_wf channels c -> tells c (set_input i new c).
Proof.
  intros Hwf. unfold set_input.
  destruct (r_inputs (c_s c) !! i) as [old|]; [|by apply tells_same].
  destruct (t_inputs (c_topo c) !! i) as [node|] eqn:Hnode; [|by apply tells_same].
  destruct (InputState_eqb old new); [by apply tells_same|]. right. unfold tells_view. cbn [p_changes Partial_changed foldl fst snd].
  rewrite view_set_s, (to_state_input (cw_topo _ _ Hwf) _ _ node) by (done || apply (cw_layout _ _ Hwf)). done.
Qed.

Lemma set_out_tells c m new : core_wf channels c -> tells c (set_out m new c).
Proof.
  intros Hwf. unfold set_out.
  destruct (r_mixes (c_s c) !! m) as [rec|] eqn:Hrec; [|by apply tells_same].
  destruct (t_mixes (c_topo c) !! m) as [node|] eqn:Hnode; [|by apply tells_same].
  destruct (MixOut_eqb (r_out rec) new); [by apply tells_same|]. right. unfold tells_view. cbn [p_changes Partial_changed foldl fst snd].
  rewrite view_set_s, (to_state_mix (cw_topo _ _ Hwf) _ m node rec _ (fun x => mkMix new (m_inputs x) (m_groups x) (m_mixes x)));
    [done|apply (cw_layout _ _ Hwf)|done..|]. destruct rec. apply mix_of_rec_out.
Qed.

Lemma set_level_tells c m k new : core_wf channels c -> tells c (set_level m k new c).
Proof.
  intros Hwf. unfold set_level.
  destruct (t_mixes (c_topo c) !! m) as [node|] eqn:Hnode; [|by apply tells_same].
  destruct (source (c_topo c) m k) as [src|] eqn:Hsrc; [|by apply tells_same].
  destruct (r_mixes (c_s c) !! m) as [rec|] eqn:Hrec; cbn [mbind option_bind]; [|by apply tells_same].
  destruct (r_levels rec !! k) as [old|] eqn:Hold; [|by apply tells_same].
  destruct (Level_eqb old new); [by apply tells_same|]. right. unfold tells_view. cbn [p_changes Partial_changed foldl fst snd].
  cbn [fst]. rewrite view_set_s, (to_state_mix (cw_topo _ _ Hwf) _ m node rec _ (put_source src new));
    [done|apply (cw_layout _ _ Hwf)|done..|]. destruct rec. eapply (mix_of_rec_put (cw_topo _ _ Hwf)); [done|done|].
  by eapply lookup_lt_Some.
Qed.

Lemma set_group_tells c m g new : core_wf channels c -> tells c (set_group m g new c).
Proof.
  intros Hwf. unfold set_group.
  destruct (t_mixes (c_topo c) !! m) as [node|] eqn:Hnode; [|by apply tells_same].
  destruct (t_groups (c_topo c) !! g) as [group|] eqn:Hgroup; [|by apply tells_same].
  destruct (r_mixes (c_s c) !! m) as [rec|] eqn:Hrec; cbn [mbind option_bind]; [|by apply tells_same].
  destruct (r_groups rec !! g) as [old|] eqn:Hold; [|by apply tells_same].
  destruct (MixGroup_eqb old new); [by apply tells_same|]. right. unfold tells_view. cbn [p_changes Partial_changed foldl fst snd].
  rewrite view_set_s, (to_state_mix (cw_topo _ _ Hwf) _ m node rec _
    (fun x => mkMix (m_out x) (m_inputs x) (<[gn_id group := new]> (m_groups x)) (m_mixes x)));
    [done|apply (cw_layout _ _ Hwf)|done..|].
  destruct (lo_mixes_ok _ _ (cw_layout _ _ Hwf) _ _ Hrec) as (_ & _ & _ & Hlg & _).
  destruct rec. by apply (mix_of_rec_group (cw_topo _ _ Hwf)).
Qed.
(** ** Solo, listen, test signals *)

Lemma tells_pure {A : Type} (m : CoreM A) (f : A -> CoreM Partial) c :
  (m c).1 = c -> (forall a, m c = (c, Ok a) -> tells c (f a c)) -> tells c ((m ≫= f) c).
Proof.
  unfold mbind, CoreM_bind. destruct (m c) as [c' [a|e]]; cbn; intros -> Hf; [by apply Hf|done].
Qed.

Ltac reads x H := apply tells_pure; [try reflexivity|intros x H; cbn in H; try (injection H as H)].

Lemma view_set_solos c solo :
  view (set_solos solo c) = (core_state c, transient (set_solos solo c)).
Proof. done. Qed.

Lemma solo_view c solo mix sources :
  solos (topo := c_topo c) solo ≡ₚ put_solo mix sources (solos (topo := c_topo c) (c_solo c)) ->
  tells_view c [ChSolo mix sources] (set_solos solo c).
Proof.
  intros Hs. split; cbn [foldl view view_change fst snd t_solo t_listen t_test_signal]; try done.
  by rewrite !(transient_solos (topo := c_topo c)), Hs.
Qed.

Lemma set_solo_tells c mix sources : core_wf channels c -> tells c (set_solo mix sources c).
Proof.
  intros Hwf. unfold set_solo. reads m Hm. destruct (find_mix_ok Hwf Hm) as (node & Hnode & <-).
  destruct (_ <? _)%nat; [done|]. reads topo Ht. subst topo. reads new Hnew. reads solo Hsolo. subst solo.
  case_decide; [by apply tells_same|].
  right. cbn [fst snd Partial_changed p_changes mbind CoreM_bind modify gets mret CoreM_ret].
  assert (Hid : mix_id_of (c_topo c) m = Some (mn_id node)) by (unfold mix_id_of; by rewrite Hnode).
  pose proof (cw_topo _ _ Hwf) as Ht. apply solo_view. case_decide as He; [subst new|].
  - unfold put_solo, sorted_set. rewrite elements_empty. cbn. by rewrite (solos_drop Ht _ m (mn_id node)).
  - apply (solos_put Ht); [done|done|]. intros k Hk.
    apply (solo_set_wf _ _ _ _ _ Hnew) in Hk as (src & _ & Hk). by eapply slot_lt.
Qed.

Lemma listen_view c l : tells_view c [ChListen (listen_ids (set_listens l c))] (set_listens l c).
Proof. by split. Qed.

Lemma start_listen_tells c mix : core_wf channels c -> tells c (start_listen mix c).
Proof.
  intros Hwf. unfold start_listen. reads m Hm. reads c0 Hc. subst c0. case_decide; [by apply tells_same|].
  destruct (_ && _); [done|]. right. cbn -[set_listens listen_ids]. apply listen_view.
Qed.

Lemma stop_listen_tells c mix : core_wf channels c -> tells c (stop_listen mix c).
Proof.
  intros Hwf. unfold stop_listen. reads m Hm. reads l Hl. subst l.
  cbn [mbind CoreM_bind modify]. destruct (c_listen c) as [l0 l1] eqn:Hl. cbn [listen_slot set_listen_slot fst snd].
  do 2 case_bool_decide; cbn [app listen_partial mbind CoreM_bind gets mret CoreM_ret]; right;
    cbn [fst snd Partial_changed p_changes]; try apply listen_view.
  cbn. by rewrite <-Hl; destruct c.
Qed.

Lemma start_test_tells c input hz dbfs ttl_s mask listen : tells c (start_test input hz dbfs ttl_s mask listen c).
Proof.
  unfold start_test. reads i Hi. reads hz' Hhz. reads dbfs' Hdb. reads ttl' Httl. right. cbn -[set_test set_hil_test]. by split.
Qed.

Lemma cmd_start_test_tells c input hz dbfs ttl_s : tells c (cmd_start_test input hz dbfs ttl_s c).
Proof.
  unfold cmd_start_test. apply tells_pure; [apply test_flag_ok|]. intros u _.
  reads c0 Hc. subst c0. destruct (_ && _); [done|]. apply start_test_tells.
Qed.

Lemma cmd_hil_test_tells c input hz dbfs ttl_s card_tx listen : tells c (cmd_hil_test input hz dbfs ttl_s card_tx listen c).
Proof.
  unfold cmd_hil_test. apply tells_pure; [apply test_flag_ok|]. intros u _.
  destruct (f64_ltb _ _); [done|]. reads c0 Hc. subst c0. reads hm Hm. apply start_test_tells.
Qed.

Lemma set_test_view c t : tells_view c [ChTestSignal t] (set_test t c).
Proof. by split. Qed.

Lemma cmd_stop_test_tells c : tells c (cmd_stop_test c).
Proof.
  unfold cmd_stop_test. reads t Ht. cbn [mbind CoreM_bind modify]. destruct t as [t|].
  - right. apply set_test_view.
  - right. cbn. by rewrite <-Ht; destruct c.
Qed.

(** ** Every command *)

Lemma one_tells c cmd : core_wf channels c -> tells c (one cmd c).
Proof.
  intros Hwf. destruct cmd; cbn [one];
    unfold cmd_set_input, cmd_set_mix, cmd_set_level, cmd_set_group, cmd_set_limiter, cmd_set_eq, cmd_reset_limiter;
    eauto using set_solo_tells, start_listen_tells, stop_listen_tells, cmd_start_test_tells, cmd_hil_test_tells,
      cmd_stop_test_tells; try (by apply tells_same); try done; try by left.
  - reads i Hi. reads c0 Hc. subst c0. reads trim Ht. by apply set_input_tells.
  - reads m Hm. reads c0 Hc. subst c0. reads v Hv. by apply set_out_tells.
  - reads m Hm. reads c0 Hc. subst c0. reads k Hk. reads gain Hg. reads p Hp. by apply set_level_tells.
  - reads m Hm. reads g Hg. reads c0 Hc. subst c0. reads gain Hgain. by apply set_group_tells.
  - destruct (negb (eq_is_finite eq)); [done|]. cbn zeta. destruct target.
    + reads i Hi. reads c0 Hc. subst c0. by apply set_input_tells.
    + reads m Hm. reads c0 Hc. subst c0. by apply set_out_tells.
    + reads m Hm. reads g Hg. reads c0 Hc. subst c0. by apply set_group_tells.
  - reads m Hm. reads c0 Hc. subst c0. reads l Hl. by apply set_out_tells.
  - reads m Hm. right. cbn. unfold tells_view. reflexivity.
  - apply tells_pure; [|intros u _; by apply tells_same].
    unfold need_fault_injection, mbind, CoreM_bind, err, lift; cbn. by destruct (fl_fault_injection (c_flags c)).
Qed.
(** ** Requests and the core's own events *)

Definition outcome_tells (c : Core) (out : Core * result CmdError Outcome) : Prop :=
  match out.2 with
  | Err _ => True
  | Ok o => out_changes o = [] /\ out_effect o = EImported \/ tells_view c (out_changes o) out.1
  end.

Lemma finish_tells c c' p : tells c (c', Ok p) -> outcome_tells c (finish p c').
Proof.
  rewrite finish_eq. unfold tells, outcome_tells. cbn [fst snd out_changes out_effect].
  intros [[Hc He]|Hv]; [left; by rewrite He|right]. by destruct (p_bump p).
Qed.
End tells.

Section requests.
Context `{LibmOk} {channels : Z}.

Lemma batch_tells c ops : core_wf channels c -> tells c (batch ops c).
Proof.
  intros Hwf. unfold batch. destruct (_ <? _)%nat; [done|].
  destruct (foldM batch_step _ ops) as [[next all]|e] eqn:Hf; [|done]. destruct (_ <? _)%nat; [done|].
  right. cbn [fst snd]. change (tells_view c (p_changes (next, all).2) (next, all).1).
  cut (core_wf channels (next, all).1 /\ tells_view c (p_changes (next, all).2) (next, all).1); [by intros []|].
  revert Hf. apply (foldM_ind _ (fun _ acc => core_wf channels acc.1 /\ tells_view c (p_changes acc.2) acc.1)).
  - split; [done|]. unfold tells_view. reflexivity.
  - intros _ op _ [c1 p1] acc' _ [Hwf1 Hv1] Hs. unfold batch_step in Hs. cbn [fst snd] in *.
    destruct (batchable op) eqn:Hb; cbn [negb] in Hs; [|done].
    pose proof (one_step c1 op Hwf1) as H1. pose proof (one_tells c1 op Hwf1) as Ht.
    pose proof (batchable_no_effect op Hb c1) as Hn. destruct (one op c1) as [c2 [p|e]]; cbn in Hs; [|done].
    injection Hs as <-. cbn [fst snd p_changes]. specialize (Hn p eq_refl). split; [by destruct H1|].
    destruct Ht as [[_ He]|Hv]; [by rewrite Hn in He|]. by eapply tells_view_app.
Qed.

Lemma apply_tells c cmd : core_wf channels c -> outcome_tells c (Core.apply cmd c).
Proof.
  intros Hwf. unfold Core.apply, mbind, CoreM_bind.
  set (r := (match cmd with Batch ops => batch ops | _ => one cmd end) c).
  assert (Hr : tells c r).
  { subst r. destruct cmd; try exact (one_tells c _ Hwf). by apply batch_tells. }
  destruct r as [c' [p|e]]; [by apply finish_tells|done].
Qed.

Lemma clear_solo_tells c acc m :
  core_wf channels acc.1 -> is_Some (c_solo acc.1 !! m) -> tells_view c (p_changes acc.2) acc.1 ->
  let acc' := clear_solo acc m in core_wf channels acc'.1 /\ tells_view c (p_changes acc'.2) acc'.1.
Proof.
  destruct acc as [c1 p]. cbn [fst snd]. intros Hwf1 [set Hset] Hv.
  destruct (cw_solo _ _ Hwf1 _ _ Hset) as (Hm & _ & _). apply lookup_lt_is_Some in Hm as [node Hnode].
  assert (Hid : mix_id_of (c_topo c1) m = Some (mn_id node)) by (unfold mix_id_of; by rewrite Hnode).
  cbn [clear_solo fst snd p_changes]. change (c_topo (set_solos (delete m (c_solo c1)) c1)) with (c_topo c1). rewrite Hid.
  split; [by apply core_wf_set_solos, solo_wf_delete, (cw_solo _ _ Hwf1)|].
  eapply tells_view_app; [exact Hv|]. apply solo_view. unfold put_solo.
  by rewrite (solos_drop (cw_topo _ _ Hwf1) _ m (mn_id node)).
Qed.

Lemma clear_solos_tells c : core_wf channels c -> outcome_tells c (clear_solos c).
Proof.
  intros Hwf. unfold clear_solos. destruct (sorted_keys_spec (c_solo c)) as [Hnd Hkeys].
  assert (Hin : forall m, m ∈ sorted_keys (c_solo c) -> is_Some (c_solo (c, Partial_default).1 !! m)) by (intros m; apply Hkeys).
  assert (Hv : core_wf channels (c, Partial_default).1 /\ tells_view c (p_changes (c, Partial_default).2) (c, Partial_default).1)
    by (split; [done|unfold tells_view; reflexivity]).
  revert Hnd Hin Hv. generalize (c, Partial_default) as acc. generalize (sorted_keys (c_solo c)) as ms.
  induction ms as [|m ms IH]; intros acc Hnd Hin [Hwf1 Hv]; cbn [foldl].
  - destruct acc as [c' p]. apply finish_tells. by right.
  - apply NoDup_cons in Hnd as [Hm Hnd]. apply IH; [done| |].
    + intros m' Hm'. rewrite clear_solo_fst. cbn. rewrite lookup_delete_ne by (by intros ->). by apply Hin; right.
    + apply clear_solo_tells; [done|apply Hin; by left|done].
Qed.

Lemma end_test_signal_tells c : outcome_tells c (end_test_signal c).
Proof.
  unfold end_test_signal, mbind, CoreM_bind, gets, modify. apply finish_tells.
  destruct (c_test c) as [t|] eqn:Ht; right; [apply set_test_view|].
  cbn. by rewrite <-Ht; destruct c.
Qed.
End requests.
