(* ===== verification/CtlFrame.v ===== *)
(** * What the control loop's steps leave alone

    [keeps I m]: a step of the loop keeps a predicate, also where the process
    ends inside it.  The talk to connections, the saves, the meters and the
    status keep what is known of the core and of the RT thread's queue. *)

From S2P Require Import Prelude F64 Text MixState Msg Shape Topology Reconciled Rt Core Disk Codec Store Wire Control.
From stdpp Require Import options.
Local Open Scope Z_scope.
#[local] Unset Default Proof Using.

(** From [I], a step that ends ends in [J] of its value. *)
Definition leads {A : Type} (I : Control -> Prop) (m : CtlM A) (J : A -> Control -> Prop) : Prop :=
  forall k, I k -> match m k with CDone k' a => J a k' | CCrash _ => True end.

Abbreviation keeps I m := (leads I m (fun _ => I)).

Lemma leads_bind {A B : Type} I (m : CtlM A) J (f : A -> CtlM B) K :
  leads I m J -> (forall a, leads (J a) (f a) K) -> leads I (m ≫= f) K.
Proof.
  intros Hm Hf k Hk. specialize (Hm k Hk). unfold mbind, CtlM_bind.
  destruct (m k) as [k' a|k']; [by apply Hf|done].
Qed.

Lemma leads_conseq {A : Type} (I I' : Control -> Prop) (m : CtlM A) (J J' : A -> Control -> Prop) :
  leads I m J -> (forall k, I' k -> I k) -> (forall a k, J a k -> J' a k) -> leads I' m J'.
Proof. intros Hm HI HJ k Hk. specialize (Hm k (HI _ Hk)). destruct (m k); [by apply HJ|done]. Qed.

Lemma leads_rd {A : Type} I (f : Control -> A) : leads I (rd f) (fun a k => a = f k /\ I k).
Proof. by intros k Hk. Qed.

Lemma leads_ret {A : Type} (I : Control -> Prop) (a : A) (J : A -> Control -> Prop) :
  (forall k, I k -> J a k) -> leads I (mret a) J.
Proof. intros HJ k Hk. by apply HJ. Qed.

Lemma leads_upd I f (J : unit -> Control -> Prop) : (forall k, I k -> J tt (f k)) -> leads I (upd f) J.
Proof. intros Hf k. apply Hf. Qed.

(** What is kept whatever else holds may be used. *)
Lemma leads_forall {A B : Type} (I : B -> Control -> Prop) (m : CtlM A) J :
  (forall x, leads (I x) m J) -> leads (fun k => exists x, I x k) m J.
Proof. intros Hm k [x Hx]. by apply (Hm x). Qed.

Section keeps.
Context (I : Control -> Prop).

Lemma keeps_ret {A : Type} (a : A) : keeps I (mret a).
Proof. by intros k. Qed.

Lemma keeps_rd {A : Type} (f : Control -> A) : keeps I (rd f).
Proof. by intros k. Qed.

Lemma keeps_upd f : (forall k, I k -> I (f k)) -> keeps I (upd f).
Proof. intros Hf k. apply Hf. Qed.

Lemma keeps_bind {A B : Type} (m : CtlM A) (f : A -> CtlM B) :
  keeps I m -> (forall a, keeps I (f a)) -> keeps I (m ≫= f).
Proof. apply (leads_bind I m (fun _ => I)). Qed.

Lemma keeps_when b m : keeps I m -> keeps I (when b m).
Proof. intros Hm. destruct b; [done|apply keeps_ret]. Qed.

Lemma keeps_on_disk {A : Type} (m : IoM A) : (forall w k, I k -> I (set_disk w k)) -> keeps I (on_disk m).
Proof. intros Hd k Hk. unfold on_disk. destruct (m (k_disk k)); [by apply Hd|done]. Qed.
End keeps.

(** A read followed by what it feeds, from the state read. *)
Lemma rd_bind {A B : Type} (f : Control -> A) (g : A -> CtlM B) k : (rd f ≫= g) k = g (f k) k.
Proof. done. Qed.

Lemma upd_bind {B : Type} f (g : unit -> CtlM B) k : (upd f ≫= g) k = g tt (f k).
Proof. done. Qed.

Lemma bind_done {A B : Type} (m : CtlM A) (f : A -> CtlM B) k k' a : m k = CDone k' a -> (m ≫= f) k = f a k'.
Proof. unfold mbind, CtlM_bind. by intros ->. Qed.

Create HintDb keeps.
Create HintDb talk.

(** ** The part of the state the talk and the reports never touch *)

(** All the messages for the RT thread, in order: taken, in the ring, waiting. *)
Definition all_ops (q : Queue) : list RtOp := (rc_op <$> (q_taken q ++ q_ring q)) ++ concat (q_pending q).

Lemma push_group_ops slots t ops cmds : push_group slots t ops = Some cmds -> rc_op <$> cmds = ops.
Proof.
  unfold push_group. destruct (_ <? _); [done|]. destruct (_ =? _)%nat; [done|]. destruct (_ <? _)%nat; [done|].
  intros [= <-]. rewrite fmap_imap. clear. 
  assert (Hg : forall (f : nat -> nat) (l : list RtOp), imap (fun k op => rc_op (mkRtCmd t (if (f k =? 0)%nat then Z.of_nat (length ops) else 0) op)) l = l).
  { intros f l. revert f. induction l as [|x l IH]; intros f; [done|]. cbn. f_equal. apply (IH (f ∘ S)). }
  apply (Hg id).
Qed.

Lemma rt_takes_ops q : q_taken (rt_takes q) ++ q_ring (rt_takes q) = q_taken q ++ q_ring q.
Proof. cbn. by rewrite <-app_assoc, take_drop. Qed.

(** A flush moves messages on, in order: none is lost, added or overtaken. *)
Lemma flush_ops pending q :
  all_ops (flush_groups pending q) = (rc_op <$> (q_taken q ++ q_ring q)) ++ concat pending.
Proof.
  revert q. induction pending as [|group rest IH]; intros q; [done|]. cbn [flush_groups].
  destruct (push_group _ _ _) as [cmds|] eqn:Hp.
  - rewrite IH. cbn [q_taken q_ring]. rewrite app_assoc, rt_takes_ops, fmap_app, (push_group_ops _ _ _ _ Hp), <-app_assoc. done.
  - unfold all_ops. cbn [q_taken q_ring q_pending]. by rewrite rt_takes_ops.
Qed.

(** What is said of the core and the queue, and a flush does not change. *)
Definition on_engine (F : Core -> Queue -> Prop) (k : Control) : Prop := F (k_core k) (k_queue k).

Class Flushed (F : Core -> Queue -> Prop) : Prop :=
  flushed : forall c q, F c q -> F c (flush_groups (q_pending q) q).

(** Steps through a computation; the calls it makes are in the database. *)
Ltac keeps_step :=
  first
    [ apply keeps_ret | apply keeps_rd | apply keeps_when
    | apply keeps_bind; [|intros ?]
    | solve [auto with keeps nocore]
    | solve [apply keeps_upd; intros ? ?; assumption]
    | progress case_match ].
Ltac keeps_tac := repeat keeps_step.

Section engine.
Context (F : Core -> Queue -> Prop) {HF : Flushed F}.
Abbreviation E := (on_engine F).

Lemma emit_keeps ev : keeps E (emit ev).
Proof. unfold emit. keeps_tac. Qed.

Lemma next_send_keeps : keeps E next_send.
Proof. by intros k. Qed.
#[local] Hint Resolve emit_keeps next_send_keeps : keeps.

Lemma drop_peer_keeps id : keeps E (drop_peer id).
Proof. unfold drop_peer, now. keeps_tac. Qed.
#[local] Hint Resolve drop_peer_keeps : keeps.

Lemma write_keeps id msg : keeps E (write id msg).
Proof. unfold write. keeps_tac. Qed.
#[local] Hint Resolve write_keeps : keeps.

Lemma write_all_keeps ids msg : keeps E (write_all ids msg).
Proof. induction ids; cbn [write_all]; keeps_tac. Qed.

Lemma flush_rt_keeps : keeps E flush_rt.
Proof. apply keeps_upd. intros k. apply HF. Qed.
#[local] Hint Resolve write_all_keeps flush_rt_keeps : keeps.

Context `{Libm, Json, Sha256, ClientJson, Encodable} (engine_build : string).

Lemma send_keeps id msg : keeps E (send id msg).
Proof. unfold send. keeps_tac. Qed.

Lemma broadcast_keeps msg : keeps E (broadcast msg).
Proof. unfold broadcast. keeps_tac. Qed.
#[local] Hint Resolve send_keeps broadcast_keeps : keeps.

Lemma reply_keeps id r e : keeps E (reply id r e).
Proof. unfold reply. keeps_tac. Qed.

Lemma alarm_keeps code detail : keeps E (alarm code detail).
Proof. unfold alarm. keeps_tac. Qed.

Lemma send_all_keeps id msgs : keeps E (send_all id msgs).
Proof. induction msgs; cbn [send_all]; keeps_tac. Qed.

Lemma supersede_keeps id old : keeps E (supersede id old).
Proof. unfold supersede. keeps_tac. Qed.
#[local] Hint Resolve reply_keeps alarm_keeps send_all_keeps supersede_keeps : keeps.

Lemma hello_keeps id proto role : keeps E (hello engine_build id proto role).
Proof. unfold hello. keeps_tac. Qed.

Lemma on_disk_keeps {A : Type} (m : IoM A) : keeps E (on_disk m).
Proof. by apply keeps_on_disk. Qed.
#[local] Hint Resolve on_disk_keeps : keeps.

Lemma save_keeps : keeps E save.
Proof. unfold save. keeps_tac. Qed.
#[local] Hint Resolve save_keeps : keeps.

Lemma after_apply_keeps cmd : keeps E (after_apply cmd).
Proof. destruct cmd; cbn [after_apply]; keeps_tac. Qed.

Lemma note_change_keeps : keeps E note_change.
Proof. unfold note_change. keeps_tac. Qed.
#[local] Hint Resolve note_change_keeps : keeps.

Lemma run_effect_keeps id effect : keeps E (run_effect id effect).
Proof. destruct effect; cbn [run_effect]; keeps_tac. Qed.

Lemma next_status_keeps inp st : keeps E (next_status inp st).
Proof. unfold next_status. keeps_tac. Qed.
#[local] Hint Resolve next_status_keeps : keeps.

Lemma release_keeps reason : keeps E (release reason).
Proof. unfold release. keeps_tac. Qed.

Lemma fade_loop_keeps turns inp n : keeps E (fade_loop turns inp n).
Proof. revert n. induction turns as [|turns IH]; intros n; cbn [fade_loop]; keeps_tac. Qed.

Lemma tick_meters_keeps f : keeps E (tick_meters f).
Proof. unfold tick_meters, note_hil. keeps_tac. Qed.

Lemma tick_status_keeps inp st : keeps E (tick_status inp st).
Proof. unfold tick_status, now. keeps_tac. Qed.

Lemma tick_save_keeps : keeps E tick_save.
Proof. unfold tick_save, now. keeps_tac. Qed.
End engine.

#[export] Hint Resolve emit_keeps next_send_keeps drop_peer_keeps write_keeps write_all_keeps flush_rt_keeps
  send_keeps broadcast_keeps reply_keeps alarm_keeps send_all_keeps supersede_keeps hello_keeps on_disk_keeps
  save_keeps after_apply_keeps note_change_keeps run_effect_keeps next_status_keeps release_keeps
  fade_loop_keeps tick_meters_keeps tick_status_keeps tick_save_keeps : keeps.

(** ** More rules of steps *)

Lemma leads_rd_bind {A B : Type} I (f : Control -> A) (g : A -> CtlM B) J :
  (forall k0, I k0 -> leads (fun k => k = k0 /\ I k) (g (f k0)) J) -> leads I (rd f ≫= g) J.
Proof. intros Hg k Hk. rewrite rd_bind. by apply (Hg k Hk). Qed.

Lemma keeps_and {A : Type} (I J : Control -> Prop) (m : CtlM A) :
  keeps I m -> keeps J m -> keeps (fun k => I k /\ J k) m.
Proof. intros HI HJ k [Hi Hj]. specialize (HI k Hi). specialize (HJ k Hj). by destruct (m k). Qed.

Lemma leads_when (I : Control -> Prop) b m (J : unit -> Control -> Prop) :
  (b = true -> leads I m J) -> (b = false -> forall k, I k -> J tt k) -> leads I (when b m) J.
Proof. destruct b; cbn; intros Ht Hf; [by apply Ht|]. apply leads_ret. by apply Hf. Qed.
