(* ===== verification/CtlRt.v ===== *)
(** * The RT thread through the control loop

    What the loop owes the RT thread between a change of the core and its
    [publish]; after every step the messages taken, in the ring and waiting are
    together what brings the thread in step with the core.

    Then the queue to the thread, within the ring and emptied by a thread that takes. *)

From S2P Require Import Prelude F64 Text MixState Msg Shape Topology TopologyWf Reconciled Rt Core CoreSync CoreCmd CoreApply Disk Codec Store Wire Control CtlFrame.
From stdpp Require Import options.
Local Open Scope Z_scope.
#[local] Unset Default Proof Using.
#[local] Arguments rt_run : simpl never.

(** ** Chunks *)

Lemma concat_chunks {A : Type} n (l : list A) : (0 < n)%nat -> concat (chunks n l) = l.
Proof.
  intros Hn. unfold chunks. assert (Hl : (length l <= length l)%nat) by lia. revert Hl. generalize (length l) at 2 3.
  intros fuel. revert l. induction fuel as [|fuel IH]; intros [|x l] Hl; try done; [cbn in Hl; lia|].
  cbn [chunks_fuel concat]. rewrite IH, take_drop; [done|]. rewrite length_drop. cbn [length] in *. lia.
Qed.

Lemma chunks_sizes {A : Type} n (l : list A) g : (0 < n)%nat -> g ∈ chunks n l -> (0 < length g <= n)%nat.
Proof.
  intros Hn. unfold chunks. generalize (length l). intros fuel. revert l.
  induction fuel as [|fuel IH]; intros [|x l]; cbn [chunks_fuel]; try (by intros []%elem_of_nil).
  intros [-> |Hg]%elem_of_cons; [|by eapply IH]. rewrite length_take. cbn [length]. lia.
Qed.

Section in_step.
Context `{LibmOk} `{Json, Sha256, ClientJson, Encodable} (engine_build : string).
Context (channels : Z) (topo : Topology) (mem0 : rt_mem).

(** Well-formed on its topology, and in step once [ops] follow what is queued. *)
Definition owed (ops : list RtOp) (k : Control) : Prop :=
  (core_wf channels (k_core k) /\ c_topo (k_core k) = topo) /\ synced (k_core k) (rt_run mem0 (all_ops (k_queue k) ++ ops)).

Lemma owed_keeps {A : Type} (m : CtlM A) ops :
  (forall F, Flushed F -> keeps (on_engine F) m) -> keeps (owed ops) m.
Proof.
  intros Hm. apply (Hm (fun c q => (core_wf channels c /\ c_topo c = topo) /\ synced c (rt_run mem0 (all_ops q ++ ops)))).
  intros c q. by rewrite flush_ops.
Qed.

Lemma push_pending_spec groups ops :
  leads (owed (concat groups ++ ops)) (push_pending groups) (fun _ => owed ops).
Proof.
  apply leads_upd. intros k [Hwf Hs]. split; [done|]. cbn [k_core k_queue set_queue]. unfold all_ops in *.
  cbn [q_taken q_ring q_pending]. rewrite concat_app, <-!app_assoc. by rewrite <-app_assoc in Hs.
Qed.

Lemma publish_spec out origin : leads (owed (out_rt out)) (publish out origin) (fun _ => owed []).
Proof.
  unfold publish. apply (leads_bind _ _ (fun _ => owed [])).
  - eapply leads_conseq; [apply (push_pending_spec _ [])| |done].
    intros k. rewrite concat_chunks, app_nil_r by (unfold MAX_CMDS_PER_BLOCK; lia). done.
  - intros _. apply owed_keeps. intros F HF. destruct (out_changes out); keeps_tac.
Qed.

(** A change of the core leaves its outcome's messages owed. *)
Lemma on_core_spec (m : CoreM Core.Outcome) :
  (forall c, core_wf channels c -> apply_ok (channels := channels) c (m c)) ->
  leads (owed []) (on_core m) (fun r => match r with Ok out => owed (out_rt out) | Err _ => owed [] end).
Proof.
  intros Hm k [[Hwf Htopo] Hs]. unfold on_core. specialize (Hm _ Hwf).
  destruct (m (k_core k)) as [c' [out|e]]; cbn in Hm.
  - destruct Hm as (Hwf' & Ht & _ & _ & Hsync & _). split; [split; [done|by rewrite <-Htopo]|]. cbn [k_core k_queue set_core].
    specialize (Hsync _ Hs). by rewrite app_nil_r, <-rt_run_app in *.
  - subst c'. by split.
Qed.

Lemma request_spec id r origin cmd : keeps (owed []) (request id r origin cmd).
Proof.
  unfold request. eapply leads_bind; [apply on_core_spec; intros c; apply apply_contract|].
  intros [out|e]; [|apply owed_keeps; auto with keeps nocore].
  apply (leads_bind _ _ (fun _ => owed (out_rt out))); [apply owed_keeps; auto with keeps nocore|]. intros _.
  apply (leads_bind _ _ (fun _ => owed (out_rt out))); [apply owed_keeps; auto with keeps nocore|]. intros _.
  apply (leads_bind _ _ (fun _ => owed [])); [apply publish_spec|]. intros _. apply owed_keeps; auto with keeps nocore.
Qed.

Lemma frame_spec id bytes : keeps (owed []) (frame engine_build id bytes).
Proof.
  unfold frame. apply keeps_bind; [apply keeps_rd|]. intros peers. destruct (p_roles peers !! id); [|apply keeps_ret].
  destruct (parse_client bytes) as [[proto role s|r origin cmd]|[r e]];
    [apply owed_keeps; auto with keeps nocore| |apply owed_keeps; auto with keeps nocore].
  destruct (refusal _ _); [apply owed_keeps; auto with keeps nocore|]. apply request_spec.
Qed.

Lemma handle_spec msg : keeps (owed []) (handle engine_build msg).
Proof.
  destruct msg; cbn [handle]; [|apply frame_spec|apply owed_keeps; auto with keeps nocore].
  apply owed_keeps. intros F HF. keeps_tac.
Qed.

(** The core's own changes. *)
Lemma publish_own_spec (m : CoreM Core.Outcome) :
  (forall c, core_wf channels c -> apply_ok (channels := channels) c (m c)) ->
  keeps (owed []) (out ← on_core m; match out with Ok out => publish out None | Err _ => mret tt end).
Proof.
  intros Hm. eapply leads_bind; [by apply on_core_spec|]. intros [out|e]; [apply publish_spec|apply keeps_ret].
Qed.

Lemma tick_solos_spec : keeps (owed []) tick_solos.
Proof.
  unfold tick_solos, now. apply keeps_bind; [apply keeps_rd|]. intros t. apply keeps_bind; [apply keeps_rd|]. intros k.
  destruct (p_controller (k_peers k)), (p_lost (k_peers k)); try apply keeps_ret. apply keeps_when.
  apply keeps_bind; [by apply keeps_upd|]. intros _. apply publish_own_spec. intros c. apply clear_solos_run.
Qed.

Lemma tick_test_spec : keeps (owed []) tick_test.
Proof.
  unfold tick_test, now. apply keeps_bind; [apply keeps_rd|]. intros t. apply keeps_bind; [apply keeps_rd|]. intros d.
  destruct d; [|apply keeps_ret]. apply keeps_when.
  apply keeps_bind; [by apply keeps_upd|]. intros _. apply publish_own_spec. intros c. apply end_test_signal_ok.
Qed.

Lemma synced_noop c mem op : slot_of op = None -> synced c mem -> synced c (rt_run mem [op]).
Proof.
  intros Hs Hc s. unfold rt_run; cbn [foldl]. unfold rt_write. rewrite Hs, decide_False by done. apply Hc.
Qed.

Lemma fade_out_spec inp : keeps (owed []) (fade_out inp).
Proof.
  unfold fade_out. apply (leads_bind _ _ (fun _ => owed [])); [eapply leads_conseq; [apply (push_pending_spec _ [])| |done]|].
  - intros k [Hwf Hs]. split; [done|]. cbn. rewrite app_nil_r in Hs. rewrite rt_run_app. by apply synced_noop.
  - intros _. apply owed_keeps. intros F HF. keeps_tac.
Qed.

Lemma shutdown_now_spec inp : keeps (owed []) (shutdown_now inp).
Proof.
  unfold shutdown_now. apply keeps_bind; [apply owed_keeps; auto with keeps nocore|]. intros _.
  apply keeps_bind; [apply fade_out_spec|]. intros faded.
  apply keeps_bind; [apply owed_keeps; auto with keeps nocore|]. intros _. apply keeps_ret.
Qed.

Lemma tick_run_spec inp st : keeps (owed []) (tick_run inp st).
Proof.
  unfold tick_run. apply keeps_bind; [apply owed_keeps; intros; destruct (ti_meter inp); keeps_tac|]. intros _.
  apply keeps_bind; [apply owed_keeps; auto with keeps nocore|]. intros _.
  apply keeps_bind; [apply tick_solos_spec|]. intros _.
  apply keeps_bind; [apply tick_test_spec|]. intros _. apply owed_keeps; auto with keeps nocore.
Qed.

Lemma fault_keeps F (HF : Flushed F) why : keeps (on_engine F) (fault why).
Proof. unfold fault. keeps_tac. Qed.

Lemma backend_ended_keeps F (HF : Flushed F) why : keeps (on_engine F) (backend_ended why).
Proof. unfold backend_ended. keeps_tac. Qed.
#[local] Hint Resolve fault_keeps backend_ended_keeps : keeps.

Lemma tick_spec inp : keeps (owed []) (tick inp).
Proof.
  unfold tick. apply keeps_bind; [apply owed_keeps; auto with keeps nocore|]. intros _.
  apply keeps_bind; [apply keeps_rd|]. intros st. destruct (st_faulted st).
  { apply owed_keeps. intros F HF. keeps_tac. }
  apply keeps_bind; [apply keeps_rd|]. intros driver.
  assert (Hgo : forall b, keeps (owed []) (_ ← when b (upd set_shutdown); shutdown ← rd (fun k => r_shutdown (k_run k));
      if shutdown : bool then exit ← shutdown_now inp; mret (Some exit) else _ ← tick_run inp st; mret None)).
  { intros b. apply keeps_bind; [apply owed_keeps; intros; keeps_tac|]. intros _. apply keeps_bind; [apply keeps_rd|].
    intros []; (apply keeps_bind; [|intros ?; apply keeps_ret]); [apply shutdown_now_spec|apply tick_run_spec]. }
  destruct (if driver then ti_ending inp else None) as [[|why]|]; [apply Hgo| |apply Hgo].
  apply owed_keeps. intros F HF. keeps_tac.
Qed.

Lemma handle_rest_spec msgs : keeps (owed []) (handle_rest engine_build msgs).
Proof.
  induction msgs as [|[t msg] msgs IH]; cbn [handle_rest]; [apply keeps_ret|].
  apply keeps_bind; [apply keeps_rd|]. intros []; [apply keeps_ret|].
  apply keeps_bind; [by apply keeps_upd|]. intros _. apply keeps_bind; [apply handle_spec|]. by intros _.
Qed.

Lemma turn_spec u : keeps (owed []) (turn engine_build u).
Proof.
  unfold turn. apply keeps_bind; [|intros _; apply keeps_bind; [by apply keeps_upd|intros _; apply tick_spec]].
  destruct (tu_msgs u) as [|[t msg] msgs]; cbn [handle_all]; [apply keeps_ret|].
  apply keeps_bind; [by apply keeps_upd|]. intros _. apply keeps_bind; [apply handle_spec|]. intros _. apply handle_rest_spec.
Qed.

Lemma run_spec turns : keeps (owed []) (run engine_build turns).
Proof.
  induction turns as [|u turns IH]; cbn [run]; [apply keeps_ret|].
  apply keeps_bind; [apply turn_spec|]. intros [exit|]; [apply keeps_ret|done].
Qed.
End in_step.

(** * The queue of the RT thread: within the ring, and emptied by a thread that
    keeps up

    [ring_ok]: the ring is never over its size, and every group that waits for
    room is of a size one block applies.  A flush against a thread that empties
    the ring before each attempt leaves nothing waiting. *)

From S2P Require Import Prelude F64 Text MixState Msg Shape Topology Reconciled Rt Core Disk Codec Store Wire Control CtlFrame.
From stdpp Require Import options.
Local Open Scope Z_scope.
#[local] Unset Default Proof Using.

Definition group_ok (g : list RtOp) : Prop := (0 < length g <= MAX_CMDS_PER_BLOCK)%nat.

Definition ring_ok (q : Queue) : Prop := (length (q_ring q) <= CMD_RING)%nat /\ Forall group_ok (q_pending q).

Lemma push_group_some slots at_ ops cmds :
  push_group slots at_ ops = Some cmds -> (length cmds = length ops /\ length ops <= slots)%nat.
Proof.
  unfold push_group. destruct (_ <? _)%Z; [done|]. destruct (_ =? _)%nat; [done|].
  destruct (slots <? length ops)%nat eqn:Hs; [done|]. intros [= <-]. rewrite length_imap. apply Nat.ltb_ge in Hs. done.
Qed.

Lemma push_group_fits slots at_ ops :
  group_ok ops -> (length ops <= slots)%nat -> is_Some (push_group slots at_ ops).
Proof.
  unfold group_ok, push_group, MAX_CMDS_PER_BLOCK, u16_max. intros [Hp Hm] Hs.
  destruct (Z.ltb_spec 65535 (Z.of_nat (length ops))); [lia|]. destruct (Nat.eqb_spec (length ops) 0); [lia|].
  destruct (Nat.ltb_spec slots (length ops)); [lia|]. by eexists.
Qed.

Lemma flush_ring_ok pending q :
  (length (q_ring q) <= CMD_RING)%nat -> Forall group_ok pending -> ring_ok (flush_groups pending q).
Proof.
  revert q. induction pending as [|group rest IH]; intros q Hr Hp; [by split|]. cbn [flush_groups].
  assert (Hr' : (length (q_ring (rt_takes q)) <= CMD_RING)%nat) by (cbn [rt_takes q_ring]; rewrite length_drop; lia).
  destruct (push_group _ _ _) as [cmds|] eqn:Hg; [|by split].
  apply push_group_some in Hg as [Hl Hs]. apply IH; [|by apply Forall_cons in Hp as [_ Hp]].
  cbn [q_ring]. rewrite length_app. lia.
Qed.

(** A thread that takes all of the ring before each attempt. *)
Definition keeps_up (q : Queue) : Prop :=
  (length (q_pending q) <= length (q_pops q))%nat /\ Forall (fun n => CMD_RING <= n)%nat (q_pops q).

Lemma flush_drains pending q :
  (length (q_ring q) <= CMD_RING)%nat -> Forall group_ok pending ->
  (length pending <= length (q_pops q))%nat -> Forall (fun n => CMD_RING <= n)%nat (q_pops q) ->
  q_pending (flush_groups pending q) = [].
Proof.
  revert q. induction pending as [|group rest IH]; intros q Hr Hp Hl Hn; [done|]. cbn [flush_groups].
  apply Forall_cons in Hp as [Hg Hp]. destruct (q_pops q) as [|n pops] eqn:Hpops; [by cbn in Hl; lia|].
  apply Forall_cons in Hn as [Hn1 Hn].
  assert (Hring : q_ring (rt_takes q) = []) by (cbn [rt_takes q_ring]; rewrite Hpops; apply drop_ge; lia).
  rewrite Hring. cbn [length app]. rewrite Nat.sub_0_r.
  destruct (push_group_fits CMD_RING 0 group Hg) as [cmds Hc].
  { unfold group_ok, CMD_RING, MAX_CMDS_PER_BLOCK in *. lia. }
  rewrite Hc. apply push_group_some in Hc as [Hcl Hcs]. apply IH; cbn [q_ring q_pops rt_takes]; rewrite ?Hpops; cbn [tail length] in *; [lia|done|lia|done].
Qed.

(** ** Every step keeps the queue within its bounds *)

Definition bounded : Control -> Prop := on_engine (fun _ => ring_ok).

#[export] Instance ring_flushed : Flushed (fun _ => ring_ok).
Proof. intros c q [Hr Hp]. by apply flush_ring_ok. Qed.
#[export] Hint Resolve ring_flushed : keeps.

Section bounded.
Context `{Libm, Json, Sha256, ClientJson, Encodable} (engine_build : string).

Lemma push_bounded groups : Forall group_ok groups -> keeps bounded (push_pending groups).
Proof. intros Hg. apply keeps_upd. intros k [Hr Hp]. split; [done|]. by apply Forall_app. Qed.

Lemma on_core_bounded {A : Type} (m : CoreM A) : keeps bounded (on_core m).
Proof. intros k Hk. unfold on_core. by destruct (m (k_core k)). Qed.

Lemma publish_bounded out origin : keeps bounded (publish out origin).
Proof.
  unfold publish. apply keeps_bind; [|intros _; apply keeps_bind; [apply flush_rt_keeps, _|intros _]].
  - apply push_bounded, Forall_forall. intros g Hg. eapply chunks_sizes; [|done]. unfold MAX_CMDS_PER_BLOCK. lia.
  - destruct (out_changes out); unfold bounded; keeps_tac.
Qed.
#[local] Hint Resolve on_core_bounded publish_bounded : keeps.

Lemma request_bounded id r origin cmd : keeps bounded (request id r origin cmd).
Proof.
  unfold request. apply keeps_bind; [apply on_core_bounded|]. intros [out|e]; [|unfold bounded; keeps_tac].
  apply keeps_bind; [unfold bounded; keeps_tac|]. intros _. apply keeps_bind; [unfold bounded; keeps_tac|]. intros _.
  apply keeps_bind; [apply publish_bounded|]. intros _. unfold bounded. keeps_tac.
Qed.

Lemma handle_bounded msg : keeps bounded (handle engine_build msg).
Proof.
  destruct msg as [id|id bytes|id why]; cbn [handle]; [unfold bounded; keeps_tac| |unfold bounded; keeps_tac].
  unfold frame. apply keeps_bind; [apply keeps_rd|]. intros peers. destruct (p_roles peers !! id); [|apply keeps_ret].
  destruct (parse_client bytes) as [[proto role s|r origin cmd]|[r e]]; [unfold bounded; keeps_tac| |unfold bounded; keeps_tac].
  destruct (refusal _ _); [unfold bounded; keeps_tac|apply request_bounded].
Qed.

(** The core's own changes. *)
Lemma own_bounded (m : CoreM Core.Outcome) :
  keeps bounded (out ← on_core m; match out with Ok out => publish out None | Err _ => mret tt end).
Proof. apply keeps_bind; [apply on_core_bounded|]. intros [out|e]; [apply publish_bounded|apply keeps_ret]. Qed.

Lemma tick_run_bounded inp st : keeps bounded (tick_run inp st).
Proof.
  unfold tick_run. apply keeps_bind; [unfold bounded; keeps_tac|]. intros _.
  apply keeps_bind; [unfold bounded; keeps_tac|]. intros _. apply keeps_bind.
  { unfold tick_solos, now. apply keeps_bind; [apply keeps_rd|]. intros t. apply keeps_bind; [apply keeps_rd|]. intros k.
    destruct (p_controller (k_peers k)), (p_lost (k_peers k)); try apply keeps_ret. apply keeps_when, keeps_bind; [by apply keeps_upd|]. intros _. apply own_bounded. }
  intros _. apply keeps_bind.
  { unfold tick_test, now. apply keeps_bind; [apply keeps_rd|]. intros t. apply keeps_bind; [apply keeps_rd|]. intros [d|]; [|apply keeps_ret].
    apply keeps_when, keeps_bind; [by apply keeps_upd|]. intros _. apply own_bounded. }
  intros _. unfold bounded. keeps_tac.
Qed.

Lemma fade_out_bounded inp : keeps bounded (fade_out inp).
Proof.
  unfold fade_out. apply keeps_bind; [apply push_bounded|intros _; unfold bounded; keeps_tac].
  repeat constructor; cbn; unfold MAX_CMDS_PER_BLOCK; lia.
Qed.

Lemma tick_bounded inp : keeps bounded (tick inp).
Proof.
  unfold tick. apply keeps_bind; [apply flush_rt_keeps, _|]. intros _.
  apply keeps_bind; [apply keeps_rd|]. intros st. destruct (st_faulted st); [unfold bounded, fault; keeps_tac|].
  apply keeps_bind; [apply keeps_rd|]. intros driver.
  assert (Hgo : forall b, keeps bounded (_ ← when b (upd set_shutdown); shutdown ← rd (fun k => r_shutdown (k_run k));
      if shutdown : bool then exit ← shutdown_now inp; mret (Some exit) else _ ← tick_run inp st; mret None)).
  { intros b. apply keeps_bind; [unfold bounded; keeps_tac|]. intros _. apply keeps_bind; [apply keeps_rd|]. intros [].
    - apply keeps_bind; [|intros e; apply keeps_ret]. unfold shutdown_now. apply keeps_bind; [unfold bounded; keeps_tac|]. intros _.
      apply keeps_bind; [apply fade_out_bounded|]. intros faded. unfold bounded. keeps_tac.
    - apply keeps_bind; [apply tick_run_bounded|]. intros _. apply keeps_ret. }
  destruct (if driver then ti_ending inp else None) as [[|why]|]; [apply Hgo| |apply Hgo].
  unfold bounded, backend_ended. keeps_tac.
Qed.

Lemma handle_rest_bounded msgs : keeps bounded (handle_rest engine_build msgs).
Proof.
  induction msgs as [|[t msg] msgs IH]; cbn [handle_rest]; [apply keeps_ret|].
  apply keeps_bind; [apply keeps_rd|]. intros []; [apply keeps_ret|].
  apply keeps_bind; [by apply keeps_upd|]. intros _. apply keeps_bind; [apply handle_bounded|]. by intros _.
Qed.

Lemma run_bounded turns : keeps bounded (run engine_build turns).
Proof.
  induction turns as [|u turns IH]; cbn [run]; [apply keeps_ret|].
  apply keeps_bind; [|intros [exit|]; [apply keeps_ret|done]].
  unfold turn. apply keeps_bind; [|intros _; apply keeps_bind; [by apply keeps_upd|intros _; apply tick_bounded]].
  destruct (tu_msgs u) as [|[t msg] msgs]; cbn [handle_all]; [apply keeps_ret|].
  apply keeps_bind; [by apply keeps_upd|]. intros _. apply keeps_bind; [apply handle_bounded|]. intros _. apply handle_rest_bounded.
Qed.
End bounded.
