(* ===== verification/CtlPeers.v ===== *)
(** * Connections: one controller, and clients that miss nothing

    [one_each]: at most one connection of a role that only one may have, the
    one the loop names, and at most [MAX_CONNS] connections.  [told log id]:
    the newest revision a connection was told in a state or a delta; [up rev]:
    every connection that said hello was told [rev], and every delta sent was
    the successor of what its receiver had. *)

From S2P Require Import Prelude F64 Text MixState Msg Shape Topology TopologyWf Reconciled Rt Core CoreSync CoreCmd CoreApply Disk Codec Store Wire Control CtlFrame.
From stdpp Require Import options.
Local Open Scope Z_scope.
#[local] Unset Default Proof Using.

Record one_each (k : Control) : Prop := {
  oe_control : forall id, p_roles (k_peers k) !! id = Some (Some Msg.Control) -> p_controller (k_peers k) = Some id;
  oe_supervisor : forall id, p_roles (k_peers k) !! id = Some (Some Supervisor) -> p_supervisor (k_peers k) = Some id;
  oe_size : (size (p_roles (k_peers k)) <= MAX_CONNS)%nat;
}.

Definition told_event (id : Z) (acc : option Z) (ev : Event) : option Z :=
  match ev with
  | EvSent j (MState rev _ _) | EvSent j (MDelta rev _ _) => if decide (j = id) then Some rev else acc
  | EvClosed j => if decide (j = id) then None else acc
  | _ => acc
  end.

Definition told (log : list Event) (id : Z) : option Z := foldl (told_event id) None log.

(** Every delta follows on what its receiver was told last. *)
Definition deltas_ok (log : list Event) : Prop :=
  forall l1 id rev o ch l2, log = l1 ++ EvSent id (MDelta rev o ch) :: l2 ->
    exists r, told l1 id = Some r /\ rev = u64_wrapping_add r 1.

Definition up (rev : Z) (k : Control) : Prop :=
  deltas_ok (k_log k)
  /\ forall id role, p_roles (k_peers k) !! id = Some (Some role) -> told (k_log k) id = Some rev.

(** A message that says nothing of the mix state. *)
Definition plain (msg : EngineMsg) : bool :=
  match msg with MState _ _ _ | MDelta _ _ _ => false | _ => true end.

(** One that is no reply either. *)
Definition aside (msg : EngineMsg) : bool := match msg with MReply _ => false | _ => plain msg end.

Lemma aside_plain msg : aside msg = true -> plain msg = true.
Proof. by destruct msg. Qed.

Lemma told_snoc log ev id : told (log ++ [ev]) id = told_event id (told log id) ev.
Proof. unfold told. by rewrite foldl_app. Qed.

Lemma told_plain log j msg id : plain msg = true -> told (log ++ [EvSent j msg]) id = told log id.
Proof. rewrite told_snoc. by destruct msg. Qed.

Lemma told_closed log j id : told (log ++ [EvClosed j]) id = if decide (j = id) then None else told log id.
Proof. by rewrite told_snoc. Qed.

Lemma deltas_ok_snoc log ev :
  deltas_ok log ->
  (forall id rev o ch, ev = EvSent id (MDelta rev o ch) -> exists r, told log id = Some r /\ rev = u64_wrapping_add r 1) ->
  deltas_ok (log ++ [ev]).
Proof.
  intros Hl Hev l1 id rev o ch l2 Heq. destruct l2 as [|x l2 _] using rev_ind.
  - apply app_inj_tail in Heq as [-> ->]. by eapply Hev.
  - rewrite app_comm_cons, app_assoc in Heq. apply app_inj_tail in Heq as [-> ->]. by eapply Hl.
Qed.

Lemma deltas_ok_plain log ev :
  deltas_ok log -> match ev with EvSent _ msg => plain msg = true | _ => True end -> deltas_ok (log ++ [ev]).
Proof. intros Hl Hev. apply deltas_ok_snoc; [done|]. by intros id rev o ch ->. Qed.

Lemma deltas_ok_closed log ids : deltas_ok log -> deltas_ok (log ++ (EvClosed <$> ids)).
Proof.
  revert log. induction ids as [|id ids IH]; intros log Hl; cbn; [by rewrite app_nil_r|].
  rewrite cons_middle, app_assoc. apply IH. by apply deltas_ok_plain.
Qed.

(** ** The talk *)

(** The invariant while the core and the revision told do not change. *)
Definition talk_ok (c : Core) (rev : Z) (k : Control) : Prop := k_core k = c /\ up rev k /\ one_each k.

(** The state a drop ends in. *)
Definition dropped (id : Z) (k : Control) : Control :=
  let p := k_peers k in
  let k := if decide (is_Some (p_roles p !! id))
           then set_log (k_log k ++ [EvClosed id]) (set_roles (delete id (p_roles p)) k) else k in
  if decide (p_controller p = Some id) then set_controller None (Some (v_now (k_env k))) k else k.

Lemma drop_peer_eq id k : drop_peer id k = CDone (dropped id k) tt.
Proof.
  unfold drop_peer, dropped. rewrite rd_bind. unfold when, emit, now.
  destruct (decide (is_Some (p_roles (k_peers k) !! id))) as [Hs|Hs];
    [rewrite (bool_decide_eq_true_2 (is_Some _)) by exact Hs|rewrite (bool_decide_eq_false_2 (is_Some _)) by exact Hs];
    unfold mbind, CtlM_bind, rd, upd; cbn -[bool_decide]; case_bool_decide; case_decide; done.
Qed.

Lemma dropped_core id k : k_core (dropped id k) = k_core k.
Proof. unfold dropped. by repeat case_decide. Qed.

Lemma dropped_queue id k : k_queue (dropped id k) = k_queue k.
Proof. unfold dropped. by repeat case_decide. Qed.

Lemma dropped_roles id k : p_roles (k_peers (dropped id k)) = delete id (p_roles (k_peers k)).
Proof.
  unfold dropped. destruct (decide (is_Some _)) as [Hs|Hs]; case_decide; cbn; try done;
    (rewrite delete_id; [done|]; by apply eq_None_not_Some).
Qed.

Lemma dropped_controller id k :
  p_controller (k_peers (dropped id k)) = if decide (p_controller (k_peers k) = Some id) then None else p_controller (k_peers k).
Proof. unfold dropped. by repeat case_decide. Qed.

Lemma dropped_supervisor id k : p_supervisor (k_peers (dropped id k)) = p_supervisor (k_peers k).
Proof. unfold dropped. by repeat case_decide. Qed.

Lemma dropped_log id k :
  k_log (dropped id k) = k_log k \/ k_log (dropped id k) = k_log k ++ [EvClosed id].
Proof. unfold dropped. destruct (decide (is_Some _)); case_decide; cbn; auto. Qed.

Lemma dropped_one id k : one_each k -> one_each (dropped id k).
Proof.
  intros [H1 H2 H3]. split.
  - intros j. rewrite dropped_roles, dropped_controller, lookup_delete_Some. intros [Hne Hj].
    rewrite (H1 _ Hj). rewrite decide_False; [done|]. congruence.
  - intros j. rewrite dropped_roles, dropped_supervisor, lookup_delete_Some. intros [Hne Hj]. by apply H2.
  - rewrite dropped_roles. etrans; [apply map_subseteq_size, delete_subseteq|done].
Qed.

Lemma dropped_told id k j : j <> id -> told (k_log (dropped id k)) j = told (k_log k) j.
Proof. intros Hne. destruct (dropped_log id k) as [-> | ->]; [done|]. by rewrite told_closed, decide_False. Qed.

Lemma dropped_deltas id k : deltas_ok (k_log k) -> deltas_ok (k_log (dropped id k)).
Proof. intros Hl. destruct (dropped_log id k) as [-> | ->]; [done|]. by apply deltas_ok_plain. Qed.

Lemma dropped_up id rev k : up rev k -> up rev (dropped id k).
Proof.
  intros [Hd Hu]. split; [by apply dropped_deltas|]. intros j role. rewrite dropped_roles, lookup_delete_Some.
  intros [Hne Hj]. rewrite dropped_told by done. by eapply Hu.
Qed.

Lemma dropped_talk c rev id k : talk_ok c rev k -> talk_ok c rev (dropped id k).
Proof. intros (H1 & H2 & H3). split_and!; [by rewrite dropped_core|by apply dropped_up|by apply dropped_one]. Qed.

(** A write: nothing to an unknown connection; else dropped, or sent. *)
Definition sent (id : Z) (msg : EngineMsg) (k : Control) : Control := set_log (k_log k ++ [EvSent id msg]) k.
Definition next_sends (k : Control) : Control :=
  let v := k_env k in set_env (mkEnv (v_now v) (v_epoch v) (tail (v_sends v))) k.

Lemma write_cases id msg k :
  (p_roles (k_peers k) !! id = None /\ write id msg k = CDone k tt)
  \/ (is_Some (p_roles (k_peers k) !! id)
      /\ (write id msg k = CDone (dropped id (next_sends k)) tt \/ write id msg k = CDone (sent id msg (next_sends k)) tt)).
Proof.
  unfold write. rewrite rd_bind. unfold when.
  destruct (decide (is_Some (p_roles (k_peers k) !! id))) as [Hs|Hs].
  - right. split; [done|]. rewrite bool_decide_eq_true_2 by done. unfold mbind, CtlM_bind, next_send, sent, next_sends.
    destruct (v_sends (k_env k)) as [|[] sends]; [right|left|right]; [done|by rewrite drop_peer_eq|done].
  - left. rewrite bool_decide_eq_false_2 by done. split; [by apply eq_None_not_Some|done].
Qed.

Lemma one_each_peers k k' : k_peers k' = k_peers k -> one_each k -> one_each k'.
Proof. intros He [H1 H2 H3]. split; by rewrite He. Qed.

(** Events that tell nobody of a state. *)
Lemma talk_log c rev ev k :
  match ev with EvSent _ msg => plain msg = true | EvClosed _ => False | _ => True end ->
  talk_ok c rev k -> talk_ok c rev (set_log (k_log k ++ [ev]) k).
Proof.
  intros Hev (Hc & [Hd Hu] & Ho). split_and!; [done| |by apply (one_each_peers k)].
  split; [apply deltas_ok_plain; [done|by destruct ev]|]. intros j role Hj. cbn [k_log set_log].
  destruct ev as [id msg| | |]; [by rewrite told_plain by done; eapply Hu|done|rewrite told_snoc; by eapply Hu..].
Qed.

Lemma talk_same c rev k k' :
  k_core k' = k_core k -> k_peers k' = k_peers k -> k_log k' = k_log k -> talk_ok c rev k -> talk_ok c rev k'.
Proof.
  intros H1 H2 H3 (Hc & [Hd Hu] & Ho). split_and!; [by rewrite H1| |by apply (one_each_peers k)].
  split; [by rewrite H3|]. rewrite H2, H3. done.
Qed.

(** An event that says nothing of the mix state; a reply says the revision. *)
Definition says_nothing (k : Control) (ev : Event) : Prop :=
  match ev with
  | EvSent _ (MReply rp) => rp_rev rp = c_rev (k_core k)
  | EvSent _ msg => plain msg = true
  | EvClosed _ => False
  | _ => True
  end.

Lemma says_nothing_plain k ev :
  says_nothing k ev -> match ev with EvSent _ msg => plain msg = true | EvClosed _ => False | _ => True end.
Proof. by destruct ev as [id []| | |]. Qed.

(** What the talk that tells of no state keeps: a predicate that depends on the
    core, the connections and the log, survives a dropped connection and closing
    them all, and does not mind plain messages. *)
Class Talk (I : Control -> Prop) : Prop := {
  tk_same : forall k k', k_core k' = k_core k -> k_peers k' = k_peers k -> k_log k' = k_log k -> I k -> I k';
  tk_event : forall ev k, says_nothing k ev -> I k -> I (set_log (k_log k ++ [ev]) k);
  tk_dropped : forall id k, I k -> I (dropped id k);
  tk_cleared : forall k, I k -> I (set_roles ∅ k);
  tk_closed : forall ids k, p_roles (k_peers k) = ∅ -> I k -> I (set_log (k_log k ++ (EvClosed <$> ids)) k);
}.

#[export] Instance talk_ok_talk c rev : Talk (talk_ok c rev).
Proof.
  split; [apply talk_same|intros ev k Hev%says_nothing_plain; by apply talk_log|apply dropped_talk|..].
  - intros k (Hc & [Hd Hu] & _). split_and!; [done| |].
    + split; [done|]. intros id role. cbn. by rewrite lookup_empty.
    + split; cbn; [intros id; by rewrite lookup_empty..|rewrite map_size_empty; lia].
  - intros ids k He (Hc & [Hd Hu] & Ho). split_and!; [done| |by apply (one_each_peers k)].
    split; [by apply deltas_ok_closed|]. intros id role. cbn [k_peers set_log]. by rewrite He, lookup_empty.
Qed.

#[export] Hint Resolve talk_ok_talk : talk.

Section talk.
Context (I : Control -> Prop) {HI : Talk I}.

Lemma write_told id msg : leads (fun k => says_nothing k (EvSent id msg) /\ I k) (write id msg) (fun _ => I).
Proof.
  intros k [Hs Hk]. destruct (write_cases id msg k) as [[_ ->]|[_ [-> | ->]]]; [done|..];
    apply (tk_same k (next_sends k)) in Hk; try done; [by apply tk_dropped|].
  by apply (tk_event (EvSent id msg) (next_sends k)).
Qed.

Lemma write_talk id msg : aside msg = true -> keeps I (write id msg).
Proof.
  intros Hp. eapply leads_conseq; [apply (write_told id msg)| |done]. intros k Hk. split; [|done]. by destruct msg.
Qed.

Lemma write_all_talk ids msg : aside msg = true -> keeps I (write_all ids msg).
Proof.
  intros Hp. induction ids; cbn [write_all]; [apply keeps_ret|].
  apply keeps_bind; [by apply write_talk|]. by intros _.
Qed.

Lemma drop_peer_talk id : keeps I (drop_peer id).
Proof. intros k Hk. rewrite drop_peer_eq. by apply tk_dropped. Qed.

Lemma driver_stopped_talk : keeps I (emit EvDriverStopped).
Proof. apply keeps_upd. intros k. by apply tk_event. Qed.

Lemma refused_talk id : keeps I (emit (EvRefused id)).
Proof. apply keeps_upd. intros k. by apply tk_event. Qed.

(** An update of anything but the core, the connections and the log. *)
Lemma upd_talk f :
  (forall k, k_core (f k) = k_core k) -> (forall k, k_peers (f k) = k_peers k) -> (forall k, k_log (f k) = k_log k) ->
  keeps I (upd f).
Proof. intros H1 H2 H3. apply keeps_upd. intros k. by apply tk_same. Qed.

Lemma on_disk_talk {A : Type} (m : IoM A) : keeps I (on_disk m).
Proof. apply keeps_on_disk. intros w k. by apply tk_same. Qed.
End talk.

#[export] Hint Resolve drop_peer_talk driver_stopped_talk refused_talk on_disk_talk : talk.

(** A rule above, for a predicate known to be kept by the talk. *)
Tactic Notation "talk" uconstr(l) := apply l; try apply _.

Ltac talk_step :=
  first
    [ apply keeps_ret | apply keeps_rd
    | solve [auto with talk nocore]
    | solve [apply upd_talk; [auto with talk nocore|intros; done..]]
    | apply keeps_when
    | apply keeps_bind; [|intros ?]
    | progress case_match ].
Ltac talk_tac := repeat talk_step.

Section plain_talk.
Context `{Libm, Json, Sha256, ClientJson, Encodable} (engine_build : string) (I : Control -> Prop) {HI : Talk I}.

Lemma send_talk id msg : aside msg = true -> keeps I (send id msg).
Proof. intros Hp. unfold send. by apply keeps_when, write_talk. Qed.

Lemma broadcast_talk msg : aside msg = true -> keeps I (broadcast msg).
Proof. intros Hp. unfold broadcast. apply keeps_when, keeps_bind; [apply keeps_rd|]. intros peers. by apply write_all_talk. Qed.
#[local] Hint Extern 1 (leads _ (send _ _) _) => (apply send_talk; reflexivity) : talk.
#[local] Hint Extern 1 (leads _ (broadcast _) _) => (apply broadcast_talk; reflexivity) : talk.

Lemma send_all_talk id msgs : Forall (fun msg => aside msg = true) msgs -> keeps I (send_all id msgs).
Proof.
  induction 1 as [|msg msgs Hp _ IH]; cbn [send_all]; [apply keeps_ret|].
  apply keeps_bind; [by apply send_talk|]. by intros _.
Qed.

Lemma reply_talk id r e : keeps I (reply id r e).
Proof.
  unfold reply, send. apply leads_rd_bind. intros k0 _. apply leads_when; [intros _|by intros _ k [_ Hk]].
  eapply leads_conseq; [apply (write_told I)| |done]. by intros k [-> Hk].
Qed.

Lemma alarm_talk code detail : keeps I (alarm code detail).
Proof. unfold alarm. talk_tac. Qed.
#[local] Hint Resolve reply_talk alarm_talk : talk.

Lemma save_talk : keeps I save.
Proof. unfold save. talk_tac. Qed.

Lemma after_apply_talk cmd : keeps I (after_apply cmd).
Proof. destruct cmd; cbn [after_apply]; talk_tac. Qed.

Lemma flush_rt_talk : keeps I flush_rt.
Proof. unfold flush_rt. talk_tac. Qed.

Lemma push_pending_talk groups : keeps I (push_pending groups).
Proof. unfold push_pending. talk_tac. Qed.

Lemma note_change_talk : keeps I note_change.
Proof. unfold note_change. talk_tac. Qed.
#[local] Hint Resolve save_talk flush_rt_talk push_pending_talk note_change_talk : talk.

Lemma next_status_talk inp st : keeps I (next_status inp st).
Proof. unfold next_status. talk_tac. Qed.
#[local] Hint Resolve next_status_talk : talk.

Lemma fade_out_talk inp : keeps I (fade_out inp).
Proof using HI.
  unfold fade_out. apply keeps_bind; [apply push_pending_talk|]. intros _. apply keeps_bind; [|intros ?; apply keeps_ret].
  generalize 0%nat. induction (Z.to_nat _) as [|turns IH]; intros n; cbn [fade_loop]; talk_tac.
Qed.

Lemma tick_meters_talk f : keeps I (tick_meters f).
Proof. unfold tick_meters, note_hil. talk_tac. Qed.

Lemma tick_status_talk inp st : keeps I (tick_status inp st).
Proof. unfold tick_status, now. talk_tac. Qed.

Lemma tick_save_talk : keeps I tick_save.
Proof. unfold tick_save, now. talk_tac. Qed.

Lemma release_talk reason : keeps I (release reason).
Proof.
  unfold release. apply keeps_bind; [talk_tac|]. intros driver. apply keeps_bind; [talk_tac|]. intros _.
  apply keeps_bind; [talk_tac|]. intros _. apply keeps_bind; [talk_tac|]. intros _.
  apply keeps_bind; [apply keeps_rd|]. intros peers.
  eapply (leads_bind _ _ (fun _ k => p_roles (k_peers k) = ∅ /\ I k)).
  - apply leads_upd. intros k Hk. split; [done|]. by apply tk_cleared.
  - intros _. apply leads_upd. intros k [He Hk]. by apply tk_closed.
Qed.

(** The ends of a run. *)
Lemma shutdown_now_talk inp : keeps I (shutdown_now inp).
Proof.
  unfold shutdown_now. apply keeps_bind; [apply save_talk|]. intros _. apply keeps_bind; [apply fade_out_talk|]. intros f.
  apply keeps_bind; [apply release_talk|]. intros _. apply keeps_ret.
Qed.

Lemma backend_ended_talk why : keeps I (backend_ended why).
Proof.
  unfold backend_ended. apply keeps_bind; [apply save_talk|]. intros _.
  apply keeps_bind; [apply release_talk|]. intros _. apply keeps_ret.
Qed.

Lemma fault_talk why : keeps I (fault why).
Proof.
  unfold fault. apply keeps_bind; [apply save_talk|]. intros _. apply keeps_bind; [apply alarm_talk|]. intros _.
  apply keeps_bind; [apply release_talk|]. intros _. apply keeps_ret.
Qed.
End plain_talk.

(** ** Telling everyone *)

(** A broadcast of revision [rev'] with [ids] still to be told. *)
Definition telling (c : Core) (ids : list Z) (rev rev' : Z) (k : Control) : Prop :=
  k_core k = c /\ one_each k /\ deltas_ok (k_log k)
  /\ (forall id role, p_roles (k_peers k) !! id = Some (Some role) ->
        told (k_log k) id = Some (if decide (id ∈ ids) then rev else rev'))
  /\ (forall id, id ∈ ids -> p_roles (k_peers k) !! id <> Some None).

Definition tells (msg : EngineMsg) (rev rev' : Z) : Prop :=
  match msg with
  | MState r _ _ => r = rev'
  | MDelta r _ _ => r = rev' /\ rev' = u64_wrapping_add rev 1
  | _ => False
  end.

Lemma told_tells log id msg rev rev' j :
  tells msg rev rev' -> told (log ++ [EvSent id msg]) j = if decide (id = j) then Some rev' else told log j.
Proof. rewrite told_snoc. destruct msg; cbn; try done; [by intros ->|by intros [-> _]]. Qed.

Lemma deltas_ok_tells log id msg rev rev' :
  tells msg rev rev' -> told log id = Some rev -> deltas_ok log -> deltas_ok (log ++ [EvSent id msg]).
Proof.
  intros Ht Hr Hd. apply deltas_ok_snoc; [done|]. intros i r o ch [= -> ->]. destruct Ht as [-> ->]. eauto.
Qed.

Lemma write_telling c id ids rev rev' msg :
  tells msg rev rev' -> id ∉ ids ->
  leads (telling c (id :: ids) rev rev') (write id msg) (fun _ => telling c ids rev rev').
Proof.
  intros Ht Hni k Hk. destruct (write_cases id msg k) as [[Hn ->]|[Hs Hw]].
  - destruct Hk as (Hc & Ho & Hd & Hu & Hr). split_and!; try done.
    + intros j role Hj. rewrite (Hu _ _ Hj). f_equal. assert (j <> id) by congruence.
      destruct (decide (j ∈ ids)); [rewrite decide_True by set_solver|rewrite decide_False by set_solver]; done.
    + intros j Hj. apply Hr. by right.
  - assert (Hk' : telling c (id :: ids) rev rev' (next_sends k)).
    { destruct Hk as (Hc & Ho & Hd & Hu & Hr). split_and!; try done. by apply (one_each_peers k). }
    change (p_roles (k_peers k)) with (p_roles (k_peers (next_sends k))) in Hs.
    destruct Hw as [-> | ->]; revert Hk' Hs; generalize (next_sends k); clear k Hk; intros k (Hc & Ho & Hd & Hu & Hr) Hs.
    + split_and!; [by rewrite dropped_core|by apply dropped_one|by apply dropped_deltas| |].
      * intros j role. rewrite dropped_roles, lookup_delete_Some. intros [Hne Hj]. rewrite dropped_told by done.
        rewrite (Hu _ _ Hj). f_equal. destruct (decide (j ∈ ids)); [rewrite decide_True by set_solver|rewrite decide_False by set_solver]; done.
      * intros j Hj. rewrite dropped_roles, lookup_delete_ne by set_solver. apply Hr. by right.
    + assert (Hrole : exists role, p_roles (k_peers k) !! id = Some (Some role)).
      { destruct Hs as [[role|] Hs]; [by exists role|]. by destruct (Hr id ltac:(set_solver)). }
      destruct Hrole as [role Hrole]. pose proof (Hu _ _ Hrole) as Htold. rewrite decide_True in Htold by set_solver.
      split_and!; [done|by apply (one_each_peers k)|by eapply deltas_ok_tells| |].
      * intros j role' Hj. cbn [k_log sent set_log]. rewrite (told_tells _ _ _ rev rev') by done. case_decide; [subst; by rewrite decide_False|].
        rewrite (Hu _ _ Hj). f_equal. destruct (decide (j ∈ ids)); [rewrite decide_True by set_solver|rewrite decide_False by set_solver]; done.
      * intros j Hj. apply Hr. by right.
Qed.

Lemma write_all_telling c ids rev rev' msg :
  tells msg rev rev' -> NoDup ids -> leads (telling c ids rev rev') (write_all ids msg) (fun _ => talk_ok c rev').
Proof.
  intros Ht. induction 1 as [|id ids Hni _ IH]; cbn [write_all].
  - apply leads_ret. intros k (Hc & Ho & Hd & Hu & _). split_and!; [done| |done]. split; [done|].
    intros id role Hj. rewrite (Hu _ _ Hj). by rewrite decide_False by apply not_elem_of_nil.
  - apply (leads_bind _ _ (fun _ => telling c ids rev rev')); [by apply write_telling|]. by intros _.
Qed.

Lemma said_hello_spec p id : id ∈ said_hello p <-> exists role, p_roles p !! id = Some (Some role).
Proof.
  unfold said_hello, peer_ids. rewrite list_elem_of_filter, merge_sort_Permutation, list_elem_of_fmap. split.
  - intros [[role Hr] _]. apply bind_Some in Hr as (r & Hr & Hrole). exists role. by rewrite Hr, <-Hrole.
  - intros [role Hr]. rewrite Hr. split; [by exists role|]. exists (id, Some role). by rewrite elem_of_map_to_list.
Qed.

Lemma NoDup_said_hello p : NoDup (said_hello p).
Proof. unfold said_hello, peer_ids. apply NoDup_filter. rewrite merge_sort_Permutation. apply NoDup_fst_map_to_list. Qed.

Lemma broadcast_tells `{Encodable} c rev rev' msg :
  tells msg rev rev' -> encodable msg = true -> leads (talk_ok c rev) (broadcast msg) (fun _ => talk_ok c rev').
Proof.
  intros Ht He. unfold broadcast. rewrite He. cbn [when]. apply leads_rd_bind. intros k0 _.
  eapply leads_conseq; [by apply (write_all_telling c (said_hello (k_peers k0)) rev rev'), NoDup_said_hello| |done].
  intros k [-> (Hc & [Hd Hu] & Ho)]. split_and!; try done.
  - intros id role Hj. rewrite decide_True by (apply said_hello_spec; eauto). by eapply Hu.
  - intros id [role Hr]%said_hello_spec. by rewrite Hr.
Qed.
