(* ===== verification/CtlLive.v ===== *)
(** * A live connection: hello, requests and ticks keep everyone up to date

    [live]: the core is well-formed, at most one connection of each exclusive
    role is there, and every connection that said hello was told the core's
    revision.  Every message and every tick keeps it, provided the messages
    that carry the state fit a frame ([StatesFit]). *)

From S2P Require Import Prelude F64 Text MixState Msg Shape Topology TopologyWf Reconciled Rt Core CoreSync CoreCmd CoreApply Disk Codec Store Wire Control CtlFrame CtlPeers.
From stdpp Require Import options.
Local Open Scope Z_scope.
#[local] Unset Default Proof Using.

(** The states and deltas of the site fit a frame of [MAX_FRAME] bytes. *)
Class StatesFit `{Encodable} : Prop := states_fit : forall msg, plain msg = false -> encodable msg = true.

(** Up to date, [id] apart. *)
Definition but (id : Z) (c : Core) (rev : Z) (k : Control) : Prop :=
  k_core k = c /\ one_each k /\ deltas_ok (k_log k)
  /\ forall j role, j <> id -> p_roles (k_peers k) !! j = Some (Some role) -> told (k_log k) j = Some rev.

Lemma but_same id c rev k k' :
  k_core k' = k_core k -> k_peers k' = k_peers k -> k_log k' = k_log k -> but id c rev k -> but id c rev k'.
Proof.
  intros H1 H2 H3 (Hc & Ho & Hd & Hu). split_and!; [by rewrite H1|by apply (one_each_peers k)|by rewrite H3|].
  by rewrite H2, H3.
Qed.

Lemma dropped_but id j c rev k : but id c rev k -> but id c rev (dropped j k).
Proof.
  intros (Hc & Ho & Hd & Hu). split_and!; [by rewrite dropped_core|by apply dropped_one|by apply dropped_deltas|].
  intros i role Hne. rewrite dropped_roles, lookup_delete_Some. intros [Hij Hi]. rewrite dropped_told by done. by eapply Hu.
Qed.

Lemma but_gone id c rev k : but id c rev k -> p_roles (k_peers k) !! id = None -> talk_ok c rev k.
Proof.
  intros (Hc & Ho & Hd & Hu) Hn. split_and!; [done| |done]. split; [done|]. intros j role Hj.
  apply (Hu _ role); [congruence|done].
Qed.

Lemma write_but id j c rev msg : plain msg = true -> keeps (but id c rev) (write j msg).
Proof.
  intros Hp k Hk. destruct (write_cases j msg k) as [[_ ->]|[_ [-> | ->]]]; [done|..];
    apply (but_same id c rev k (next_sends k)) in Hk; try done; [by apply dropped_but|].
  destruct Hk as (Hc & Ho & Hd & Hu). split_and!; [done|by apply (one_each_peers (next_sends k))|by apply deltas_ok_plain|].
  intros i role Hne Hi. cbn [k_log sent set_log]. rewrite told_plain by done. by eapply Hu.
Qed.

Lemma write_state_but id c rev state tr : leads (but id c rev) (write id (MState rev state tr)) (fun _ => talk_ok c rev).
Proof.
  intros k Hk. destruct (write_cases id (MState rev state tr) k) as [[Hn ->]|[_ [-> | ->]]]; [by apply (but_gone id)|..];
    apply (but_same id c rev k (next_sends k)) in Hk; try done.
  - apply (but_gone id); [by apply dropped_but|]. by rewrite dropped_roles, lookup_delete_eq.
  - destruct Hk as (Hc & Ho & Hd & Hu). split_and!; [done| |by apply (one_each_peers (next_sends k))].
    split; [by apply deltas_ok_snoc|]. intros i role Hi. cbn [k_log sent set_log]. rewrite told_snoc. cbn.
    case_decide; [done|]. by apply (Hu _ role); [congruence|].
Qed.

(** ** Hello *)

Section hello.
Context `{Libm, Json, Sha256, ClientJson, StatesFit} (engine_build : string) (c : Core).
Abbreviation T := (talk_ok c (c_rev c)).

(** What a write may do to the controller's and supervisor's ids. *)
Definition ids_left (ctl sup : option Z) (k : Control) : Prop :=
  (p_controller (k_peers k) = ctl \/ p_controller (k_peers k) = None) /\ p_supervisor (k_peers k) = sup.

Lemma dropped_ids ctl sup id k : ids_left ctl sup k -> ids_left ctl sup (dropped id k).
Proof.
  intros [Hc Hs]. split; [|by rewrite dropped_supervisor]. rewrite dropped_controller. case_decide; auto.
Qed.

Lemma send_ids ctl sup id msg : keeps (ids_left ctl sup) (send id msg).
Proof.
  unfold send. apply keeps_when. intros k Hk.
  destruct (write_cases id msg k) as [[_ ->]|[_ [-> | ->]]]; [done|by apply (dropped_ids _ _ _ (next_sends k))|done].
Qed.

(** After [supersede] nobody else has the role. *)
Lemma supersede_spec (role : Role) id ctl sup :
  role = Msg.Control \/ role = Supervisor ->
  leads (fun k => T k /\ p_controller (k_peers k) = ctl /\ p_supervisor (k_peers k) = sup)
    (supersede id (if decide (role = Msg.Control) then ctl else sup))
    (fun _ k => T k /\ ids_left ctl sup k /\ forall j, p_roles (k_peers k) !! j = Some (Some role) -> j = id).
Proof.
  intros Hrole. set (old := if decide (role = Msg.Control) then ctl else sup).
  assert (Hold : forall k, T k -> ids_left ctl sup k -> forall j, p_roles (k_peers k) !! j = Some (Some role) -> old = Some j).
  { intros k (_ & _ & Ho) [Hc Hs] j Hj. subst old. destruct Hrole as [-> | ->].
    - rewrite decide_True by done. pose proof (oe_control k Ho j Hj). destruct Hc; congruence.
    - rewrite decide_False by done. pose proof (oe_supervisor k Ho j Hj). congruence. }
  clearbody old. unfold supersede. destruct old as [old|].
  - apply leads_when.
    + intros Hne. apply (leads_bind _ _ (fun _ k => T k /\ ids_left ctl sup k)).
      * eapply leads_conseq; [apply (keeps_and T (ids_left ctl sup)); [by talk send_talk|apply send_ids]| |done].
        intros k (Ht & Hc & Hs). split; [done|]. split; auto.
      * intros _ k [Ht Hi]. rewrite drop_peer_eq. split_and!; [by apply dropped_talk|by apply dropped_ids|].
        intros j. rewrite dropped_roles, lookup_delete_Some. intros [Hj1 Hj2]. specialize (Hold k Ht Hi j Hj2). congruence.
    + intros Hne k (Ht & Hc & Hs). assert (Hi : ids_left ctl sup k) by (split; auto). split_and!; [done|done|].
      intros j Hj. specialize (Hold k Ht Hi j Hj). apply negb_false_iff, Z.eqb_eq in Hne. congruence.
  - apply leads_ret. intros k (Ht & Hc & Hs). assert (Hi : ids_left ctl sup k) by (split; auto). split_and!; [done|done|].
    intros j Hj. by specialize (Hold k Ht Hi j Hj).
Qed.

(** The id the loop names for a role. *)
Definition named (role : Role) (id : Z) (k : Control) : Prop :=
  (role = Msg.Control -> p_controller (k_peers k) = Some id) /\ (role = Supervisor -> p_supervisor (k_peers k) = Some id).

Lemma claim_role_spec id role :
  leads T
    (_ ← when (bool_decide (role = Msg.Control))
           (peers ← rd k_peers; _ ← supersede id (p_controller peers); upd (set_controller (Some id) None));
     when (bool_decide (role = Supervisor))
       (peers ← rd k_peers; _ ← supersede id (p_supervisor peers); upd (set_supervisor (Some id))))
    (fun _ k => T k /\ named role id k).
Proof.
  destruct role; cbn [when bool_decide decide].
  - apply (leads_bind _ _ (fun _ k => T k /\ p_controller (k_peers k) = Some id)).
    + rewrite bool_decide_eq_true_2 by done. apply leads_rd_bind. intros k0 Hk0.
      eapply leads_bind.
      * eapply leads_conseq; [apply (supersede_spec Msg.Control id (p_controller (k_peers k0)) (p_supervisor (k_peers k0))); by left| |done].
        by intros k [-> Ht].
      * intros []. apply leads_upd. intros k ((Hc & Hu & [O1 O2 O3]) & _ & Hno). split; [|done]. split_and!; [done|done|].
        split; [|done|done]. intros j Hj. by rewrite (Hno j Hj).
    + intros _. rewrite bool_decide_eq_false_2 by done. apply leads_ret. intros k [Ht Hc]. by split.
  - rewrite !bool_decide_eq_false_2 by done. intros k Ht. by split.
  - apply (leads_bind _ _ (fun _ => T)); [rewrite bool_decide_eq_false_2 by done; apply keeps_ret|]. intros _.
    rewrite bool_decide_eq_true_2 by done. apply leads_rd_bind. intros k0 Hk0.
    eapply leads_bind.
    + eapply leads_conseq; [apply (supersede_spec Supervisor id (p_controller (k_peers k0)) (p_supervisor (k_peers k0))); by right| |done].
      by intros k [-> Ht].
    + intros []. apply leads_upd. intros k ((Hc & Hu & [O1 O2 O3]) & _ & Hno). split; [|by split]. split_and!; [done|done|].
      split; [done| |done]. intros j Hj. by rewrite (Hno j Hj).
Qed.

Lemma leads_seq {A B C : Type} I (m : CtlM A) (m' : CtlM B) (f : CtlM C) J K :
  leads I (_ ← m; m') J -> (forall b, leads (J b) f K) -> leads I (_ ← m; _ ← m'; f) K.
Proof.
  intros Hm Hf k Hk. specialize (Hm k Hk). revert Hm. unfold mbind, CtlM_bind.
  destruct (m k) as [k1 a|]; [|done]. destruct (m' k1) as [k2 b|]; [|done]. apply Hf.
Qed.

Lemma insert_role id role k :
  T k -> named role id k -> p_roles (k_peers k) !! id <> None ->
  but id c (c_rev c) (set_roles (<[id := Some role]> (p_roles (k_peers k))) k).
Proof.
  intros (Hc & [Hd Hu] & [O1 O2 O3]) [N1 N2] Hid. split_and!; [done| |done|].
  - split; cbn [k_peers set_roles set_peers p_roles p_controller p_supervisor].
    + intros j. destruct (decide (id = j)) as [<-|Hne]; [|rewrite lookup_insert_ne by done; apply O1].
      rewrite lookup_insert_eq. intros [= ->]. by apply N1.
    + intros j. destruct (decide (id = j)) as [<-|Hne]; [|rewrite lookup_insert_ne by done; apply O2].
      rewrite lookup_insert_eq. intros [= ->]. by apply N2.
    + rewrite map_size_insert. destruct (p_roles (k_peers k) !! id); [done|by destruct Hid].
  - intros j r Hne. cbn [k_peers set_roles set_peers p_roles]. rewrite lookup_insert_ne by done. apply Hu.
Qed.

Lemma send_but id j rev msg : plain msg = true -> keeps (but id c rev) (send j msg).
Proof. intros Hp. unfold send. by apply keeps_when, write_but. Qed.

Lemma send_state_but id k0 :
  k_core k0 = c -> leads (but id c (c_rev c)) (send id (state_msg k0)) (fun _ => T).
Proof.
  intros Hc. unfold send. rewrite (states_fit (state_msg k0)) by done. cbn [when].
  unfold state_msg. rewrite Hc. apply write_state_but.
Qed.

(** A hello ends with the client told the state as it is. *)
Lemma hello_talk id proto role : keeps T (hello engine_build id proto role).
Proof.
  unfold hello. destruct (negotiate PROTO proto) as [proto'|].
  2: { apply keeps_bind; [talk reply_talk|]. intros _. talk drop_peer_talk. }
  eapply leads_seq; [apply claim_role_spec|]. intros [].
  apply leads_rd_bind. intros k0 [Ht0 Hn0]. case_bool_decide as Hid.
  { intros k [-> _]. done. }
  apply (leads_bind _ _ (fun _ => but id c (c_rev c))).
  { apply leads_upd. intros k [-> _]. by apply insert_role. }
  intros _. apply leads_rd_bind. intros k1 Hk1.
  apply (leads_bind _ _ (fun _ => but id c (c_rev c))).
  { eapply leads_conseq; [by apply (send_but id id (c_rev c))| |done]. by intros k [-> _]. }
  intros _. apply (leads_bind _ _ (fun _ => but id c (c_rev c))); [by apply send_but|].
  intros _. apply (leads_bind _ _ (fun _ => T)); [apply send_state_but, Hk1|].
  intros _. talk send_all_talk. by apply Forall_fmap, Forall_forall.
Qed.
End hello.

(** ** Changes of the core are told to everyone *)

(** The core's own changes ask for nothing. *)
Definition asks_nothing (m : CoreM Core.Outcome) : Prop :=
  forall c, match (m c).2 with Ok out => out_effect out = ENone | Err _ => True end.

Lemma clear_solos_asks `{Libm} : asks_nothing clear_solos.
Proof.
  intros c. unfold clear_solos.
  assert (Hf : forall ms (acc : Core * Partial), p_effect acc.2 = None -> p_effect (foldl clear_solo acc ms).2 = None).
  { induction ms as [|m ms IH]; intros acc Hacc; [done|]. cbn [foldl]. apply IH. by destruct acc. }
  specialize (Hf (sorted_keys (c_solo c)) (c, Partial_default) eq_refl).
  destruct (foldl clear_solo _ _) as [c' p]. cbn in Hf. rewrite finish_eq. cbn. by rewrite Hf.
Qed.

Lemma end_test_signal_asks : asks_nothing end_test_signal.
Proof. intros c. unfold end_test_signal, mbind, CoreM_bind, gets, modify. destruct (c_test c); by rewrite finish_eq. Qed.

Section live.
Context `{LibmOk} `{Json, Sha256, ClientJson} `{StatesFit} (engine_build : string) (channels : Z).

Definition live (k : Control) : Prop := core_wf channels (k_core k) /\ talk_ok (k_core k) (c_rev (k_core k)) k.

Lemma live_keeps {A : Type} (m : CtlM A) : (forall c, keeps (talk_ok c (c_rev c)) m) -> keeps live m.
Proof.
  intros Hm k [Hwf Ht]. specialize (Hm _ k Ht). destruct (m k) as [k' a|]; [|done].
  unfold live. by rewrite (proj1 Hm).
Qed.

(** After a command the clients are at [rev] and the core at the outcome's
    revision. *)
Definition moved (rev : Z) (out : Core.Outcome) (k : Control) : Prop :=
  core_wf channels (k_core k) /\ talk_ok (k_core k) rev k /\ out_rev out = c_rev (k_core k)
  /\ ((c_rev (k_core k) = rev /\ out_changes out = [] /\ out_effect out <> EImported)
      \/ (c_rev (k_core k) = u64_wrapping_add rev 1 /\ (out_changes out <> [] \/ out_effect out = EImported))).

Lemma moved_keeps {A : Type} (m : CtlM A) rev out : (forall c, keeps (talk_ok c rev) m) -> keeps (moved rev out) m.
Proof.
  intros Hm k (Hwf & Ht & Hr). specialize (Hm _ k Ht). destruct (m k) as [k' a|]; [|done].
  unfold moved. by rewrite (proj1 Hm).
Qed.

Lemma talk_core c c' rev k : talk_ok c rev k -> talk_ok c' rev (set_core c' k).
Proof. intros (_ & Hu & Ho). split_and!; [done|exact Hu|by apply (one_each_peers k)]. Qed.

Lemma on_core_moved (m : CoreM Core.Outcome) :
  (forall c, core_wf channels c -> apply_ok (channels := channels) c (m c)) ->
  leads live (on_core m) (fun r k => match r with Ok out => exists rev, moved rev out k | Err _ => live k end).
Proof.
  intros Hm k [Hwf Ht]. unfold on_core. specialize (Hm _ Hwf).
  destruct (m (k_core k)) as [c' [out|e]]; cbn in Hm.
  - destruct Hm as (Hwf' & _ & _ & _ & _ & Hrev & Hcases). exists (c_rev (k_core k)).
    split_and!; [done|by eapply talk_core|done|]. destruct Hcases as [(Heq & Hch & Hne)|Hmv]; [left|right; exact Hmv].
    split_and!; [cbn; by rewrite Heq|done|done].
  - subst c'. split; [done|]. by eapply talk_core.
Qed.

(** A publish tells everyone the outcome's changes. *)
Lemma publish_moved rev out origin :
  leads (moved rev out) (publish out origin)
    (fun _ k => live k \/ (out_effect out = EImported /\ core_wf channels (k_core k) /\ talk_ok (k_core k) rev k)).
Proof.
  unfold publish. apply (leads_bind _ _ (fun _ => moved rev out)); [apply moved_keeps; intros c; talk push_pending_talk|].
  intros _. apply (leads_bind _ _ (fun _ => moved rev out)); [apply moved_keeps; intros c; talk flush_rt_talk|].
  intros _. destruct (out_changes out) as [|ch chs] eqn:Hch.
  - apply leads_ret. intros k (Hwf & Ht & _ & [(Hr & _)|(Hr & [Hne|Hi])]); [left|by rewrite Hch in Hne|by right].
    split; [done|]. by rewrite Hr.
  - apply (leads_bind _ _ (fun _ => moved rev out)); [apply moved_keeps; intros c; talk note_change_talk|].
    intros _ k (Hwf & Ht & Hrev & Hr).
    assert (Hr' : c_rev (k_core k) = u64_wrapping_add rev 1) by (rewrite Hch in Hr; destruct Hr as [(_&?&_)|[? _]]; done).
    pose proof (broadcast_tells (k_core k) rev (c_rev (k_core k)) (MDelta (out_rev out) origin (ch :: chs))
                  (conj Hrev Hr') (states_fit (MDelta (out_rev out) origin (ch :: chs)) eq_refl) k Ht) as Hb.
    destruct (broadcast _ k) as [k' a|]; [|done]. left. unfold live. by rewrite (proj1 Hb).
Qed.

Lemma state_talk rev id k0 : c_rev (k_core k0) = rev -> keeps (talk_ok (k_core k0) rev) (send id (state_msg k0)).
Proof.
  intros <-. eapply leads_conseq; [by apply send_state_but| |done].
  intros k (Hc & [Hd Hu] & Ho). split_and!; try done. intros j role _. apply Hu.
Qed.

Lemma run_effect_live id effect : keeps live (run_effect id effect).
Proof.
  apply live_keeps. intros c. destruct effect; cbn [run_effect]; [apply keeps_ret| | | | |].
  - apply leads_rd_bind. intros k0 (Hc & _). eapply leads_conseq; [by apply (state_talk (c_rev c)); rewrite Hc| |].
    + rewrite Hc. by intros k [_ Ht].
    + rewrite Hc. done.
  - apply keeps_bind; [apply keeps_rd|]. intros k0. by talk send_talk.
  - talk save_talk.
  - apply keeps_upd. intros k. by apply talk_same.
  - apply leads_rd_bind. intros k0 (Hc & _). apply (leads_bind _ _ (fun _ => talk_ok c (c_rev c))); [|intros _; talk note_change_talk].
    eapply leads_conseq; [apply (broadcast_tells c (c_rev c) (c_rev c) (state_msg k0)); [by cbn; rewrite Hc|by apply states_fit]| |done].
    by intros k [_ Ht].
Qed.

(** An import: everyone is sent the state. *)
Lemma run_effect_imported rev id :
  leads (fun k => core_wf channels (k_core k) /\ talk_ok (k_core k) rev k) (run_effect id EImported) (fun _ => live).
Proof.
  cbn [run_effect]. apply leads_rd_bind. intros k0 [Hwf0 Ht0].
  apply (leads_bind _ _ (fun _ => live)); [|intros _; apply live_keeps; intros c; talk note_change_talk].
  intros k [-> [Hwf Ht]].
  pose proof (broadcast_tells (k_core k0) rev (c_rev (k_core k0)) (state_msg k0) eq_refl (states_fit (state_msg k0) eq_refl) k0 Ht) as Hb.
  destruct (broadcast _ k0) as [k' a|]; [|done]. unfold live. by rewrite (proj1 Hb).
Qed.

Lemma request_live id r origin cmd : keeps live (request id r origin cmd).
Proof.
  unfold request. eapply leads_bind; [apply on_core_moved; intros c; apply apply_contract|].
  intros [out|e]; [|apply live_keeps; intros c; talk reply_talk].
  apply leads_forall. intros rev.
  apply (leads_bind _ _ (fun _ => moved rev out)); [apply moved_keeps; intros c; talk after_apply_talk|]. intros _.
  apply (leads_bind _ _ (fun _ => moved rev out)); [apply moved_keeps; intros c; talk reply_talk|]. intros _.
  eapply leads_bind; [apply publish_moved|]. intros _ k [Hl|(-> & Hi)]; [by apply run_effect_live|by eapply run_effect_imported].
Qed.

Lemma frame_live id bytes : keeps live (frame engine_build id bytes).
Proof.
  unfold frame. apply keeps_bind; [apply keeps_rd|]. intros peers. destruct (p_roles peers !! id); [|apply keeps_ret].
  destruct (parse_client bytes) as [[proto role s|r origin cmd]|[r e]];
    [apply live_keeps; intros c; apply hello_talk| |apply live_keeps; intros c; talk reply_talk].
  destruct (refusal _ _); [apply live_keeps; intros c; talk reply_talk|]. apply request_live.
Qed.

Lemma connected_talk c rev id : keeps (talk_ok c rev)
  (peers ← rd k_peers;
   if (MAX_CONNS <=? size (p_roles peers))%nat then emit (EvRefused id)
   else upd (set_roles (<[id := None]> (p_roles peers)))).
Proof.
  apply leads_rd_bind. intros k0 Ht0. destruct (MAX_CONNS <=? size (p_roles (k_peers k0)))%nat eqn:Hsz.
  { eapply leads_conseq; [exact (refused_talk (talk_ok c rev) id)| |done]. by intros k [_ Ht]. }
  apply leads_upd. intros k [-> (Hc & [Hd Hu] & [O1 O2 O3])]. apply Nat.leb_gt in Hsz.
  split_and!; [done|split; [done|]|split]; cbn [k_peers k_log set_roles set_peers p_roles p_controller p_supervisor].
  - intros j role. destruct (decide (id = j)) as [<-|Hne]; [by rewrite lookup_insert_eq|rewrite lookup_insert_ne by done; apply Hu].
  - intros j. destruct (decide (id = j)) as [<-|Hne]; [by rewrite lookup_insert_eq|rewrite lookup_insert_ne by done; apply O1].
  - intros j. destruct (decide (id = j)) as [<-|Hne]; [by rewrite lookup_insert_eq|rewrite lookup_insert_ne by done; apply O2].
  - rewrite map_size_insert. destruct (p_roles (k_peers k0) !! id); [exact O3|]. cbn. clear - Hsz. unfold MAX_CONNS in *. lia.
Qed.

Lemma handle_live msg : keeps live (handle engine_build msg).
Proof.
  destruct msg; cbn [handle]; [|apply frame_live|apply live_keeps; intros c; talk drop_peer_talk].
  apply live_keeps. intros c. apply connected_talk.
Qed.

(** ** The tick and the run *)

Lemma publish_own_live (m : CoreM Core.Outcome) :
  (forall c, core_wf channels c -> apply_ok (channels := channels) c (m c)) ->
  asks_nothing m ->
  keeps live (out ← on_core m; match out with Ok out => publish out None | Err _ => mret tt end).
Proof.
  intros Hm Hi. apply (leads_bind _ _ (fun r k => match r with
      | Ok out => out_effect out <> EImported /\ exists rev, moved rev out k | Err _ => live k end)).
  - intros k Hk. pose proof (on_core_moved m Hm k Hk) as Hmv. specialize (Hi (k_core k)). unfold on_core in *.
    destruct (m (k_core k)) as [c' [out|e]]; [|done]. split; [by rewrite Hi|exact Hmv].
  - intros [out|e]; [|apply keeps_ret]. intros k [Hne [rev Hmv]].
    pose proof (publish_moved rev out None k Hmv) as Hp. destruct (publish out None k); [|done].
    by destruct Hp as [|[? _]].
Qed.

Lemma tick_solos_live : keeps live tick_solos.
Proof.
  unfold tick_solos, now. apply keeps_bind; [apply keeps_rd|]. intros t. apply leads_rd_bind. intros k0 _.
  destruct (p_controller (k_peers k0)) eqn:Hp, (p_lost (k_peers k0)); try (by intros k [_ Hk]).
  eapply leads_when; [intros _|by intros _ k [_ Hk]].
  apply (leads_bind _ _ (fun _ => live)).
  - apply leads_upd. intros k [-> [Hwf (Hc & Hu & [O1 O2 O3])]]. split; [done|]. split_and!; [done|exact Hu|].
    split; [|exact O2|exact O3]. intros j Hj. by rewrite <-Hp, <-(O1 j Hj).
  - intros _. apply publish_own_live; [intros c; apply clear_solos_run|apply clear_solos_asks].
Qed.

Lemma tick_test_live : keeps live tick_test.
Proof.
  unfold tick_test, now. apply keeps_bind; [apply keeps_rd|]. intros t. apply keeps_bind; [apply keeps_rd|]. intros [d|]; [|apply keeps_ret].
  apply keeps_when. apply keeps_bind.
  - apply live_keeps. intros c. apply keeps_upd. intros k. by apply talk_same.
  - intros _. apply publish_own_live; [intros c; apply end_test_signal_ok|apply end_test_signal_asks].
Qed.

Lemma tick_run_live inp st : keeps live (tick_run inp st).
Proof.
  unfold tick_run. apply keeps_bind; [destruct (ti_meter inp); [|apply keeps_ret]; apply live_keeps; intros c; talk tick_meters_talk|].
  intros _. apply keeps_bind; [apply live_keeps; intros c; talk tick_status_talk|]. intros _.
  apply keeps_bind; [apply tick_solos_live|]. intros _. apply keeps_bind; [apply tick_test_live|]. intros _.
  apply live_keeps. intros c. talk tick_save_talk.
Qed.

Lemma tick_live inp : keeps live (tick inp).
Proof.
  unfold tick. apply keeps_bind; [apply live_keeps; intros c; talk flush_rt_talk|]. intros _.
  apply keeps_bind; [apply keeps_rd|]. intros st. destruct (st_faulted st).
  { apply live_keeps. intros c. apply keeps_bind; [talk next_status_talk|]. intros last.
    apply keeps_bind; [by talk broadcast_talk|]. intros _.
    apply keeps_bind; [talk fault_talk|]. intros e. apply keeps_ret. }
  apply keeps_bind; [apply keeps_rd|]. intros driver.
  assert (Hgo : forall b, keeps live (_ ← when b (upd set_shutdown); shutdown ← rd (fun k => r_shutdown (k_run k));
      if shutdown : bool then exit ← shutdown_now inp; mret (Some exit) else _ ← tick_run inp st; mret None)).
  { intros b. apply keeps_bind; [|intros _; apply keeps_bind; [apply keeps_rd|]].
    - apply live_keeps. intros c. apply keeps_when, keeps_upd. intros k. by apply talk_same.
    - intros []; (apply keeps_bind; [|intros ?; apply keeps_ret]); [apply live_keeps; intros c; talk shutdown_now_talk|apply tick_run_live]. }
  destruct (if driver then ti_ending inp else None) as [[|why]|]; [apply Hgo| |apply Hgo].
  apply live_keeps. intros c. apply keeps_bind; [talk backend_ended_talk|]. intros e. apply keeps_ret.
Qed.

Lemma set_clock_live t : keeps live (upd (set_clock t)).
Proof. apply live_keeps. intros c. apply keeps_upd. intros k. by apply talk_same. Qed.

Lemma handle_rest_live msgs : keeps live (handle_rest engine_build msgs).
Proof.
  induction msgs as [|[t msg] msgs IH]; cbn [handle_rest]; [apply keeps_ret|].
  apply keeps_bind; [apply keeps_rd|]. intros []; [apply keeps_ret|].
  apply keeps_bind; [apply set_clock_live|]. intros _. apply keeps_bind; [apply handle_live|]. by intros _.
Qed.

Lemma turn_live u : keeps live (turn engine_build u).
Proof.
  unfold turn. apply keeps_bind; [|intros _; apply keeps_bind; [apply set_clock_live|intros _; apply tick_live]].
  destruct (tu_msgs u) as [|[t msg] msgs]; cbn [handle_all]; [apply keeps_ret|].
  apply keeps_bind; [apply set_clock_live|]. intros _. apply keeps_bind; [apply handle_live|]. intros _. apply handle_rest_live.
Qed.

Lemma run_live turns : keeps live (run engine_build turns).
Proof.
  induction turns as [|u turns IH]; cbn [run]; [apply keeps_ret|].
  apply keeps_bind; [apply turn_live|]. intros [exit|]; [apply keeps_ret|done].
Qed.
End live.
