(* ===== verification/CtlTruth.v ===== *)
(** * What the engine says is true

    [truth H c]: every state and every delta in the log agrees with the history
    [H] of what the core was at each revision: a state is what it was at its
    revision, a delta leads from the revision before to its own.  [honest B]:
    there is such a history, and the revision is at most [B].  Every step of the
    loop keeps it, and raises the bound by the revisions it may add. *)

From S2P Require Import Prelude F64 Text MixState Msg Shape Topology TopologyWf Reconciled Rt Core CoreSync CoreCmd CoreApply Disk Codec Store Wire Control CtlFrame CtlPeers CtlLive Mirror.
From stdpp Require Import options.
Local Open Scope Z_scope.
#[local] Unset Default Proof Using.

Abbreviation View := (MixState * Transient)%type.

(** A message that agrees with the history up to [top]. *)
Definition msg_true (H : Z -> View) (top : Z) (msg : EngineMsg) : Prop :=
  match msg with
  | MState rev s t => 0 <= rev <= top /\ same_view (H rev) (s, t)
  | MDelta rev _ ch => 0 < rev <= top /\ same_view (foldl view_change (H (rev - 1)) ch) (H rev)
  | MReply rp => rp_rev rp <= top
  | _ => True
  end.

Definition event_true (H : Z -> View) (top : Z) (ev : Event) : Prop :=
  match ev with EvSent _ msg => msg_true H top msg | _ => True end.

Definition truth (H : Z -> View) (c : Core) (k : Control) : Prop :=
  k_core k = c /\ Forall (event_true H (c_rev c)) (k_log k).

Lemma truth_same H c k k' : k_core k' = k_core k -> k_log k' = k_log k -> truth H c k -> truth H c k'.
Proof. unfold truth. by intros -> ->. Qed.

Lemma truth_event H c ev k : event_true H (c_rev c) ev -> truth H c k -> truth H c (set_log (k_log k ++ [ev]) k).
Proof. intros Hev [Hc Hl]. split; [done|]. apply Forall_app_2; [done|by apply Forall_singleton]. Qed.

Lemma truth_dropped H c id k : truth H c k -> truth H c (dropped id k).
Proof.
  intros [Hc Hl]. split; [by rewrite dropped_core|]. destruct (dropped_log id k) as [-> | ->]; [done|].
  apply Forall_app_2; [done|by apply Forall_singleton].
Qed.

#[export] Instance truth_talk H c : Talk (truth H c).
Proof.
  split.
  - intros k k' H1 _ H2. by apply truth_same.
  - intros ev k Hev Hk. apply truth_event; [|done]. destruct Hk as [Hc _]. destruct ev as [id []| | |]; try done. cbn in *. rewrite Hev, Hc. lia.
  - apply truth_dropped.
  - intros k. by apply truth_same.
  - intros ids k _ [Hc Hl]. split; [done|]. apply Forall_app_2; [done|]. by apply Forall_fmap, Forall_forall.
Qed.

#[export] Hint Resolve truth_talk : talk.

Definition extend (H : Z -> View) (rev : Z) (v : View) : Z -> View := fun r => if decide (r = rev) then v else H r.

(** The past does not change. *)
Lemma msg_true_later H top v msg : msg_true H top msg -> msg_true (extend H (top + 1) v) (top + 1) msg.
Proof.
  destruct msg; cbn; try done; [lia|..]; intros [Hr Hs]; (split; [lia|]); unfold extend;
    repeat (rewrite decide_False by lia); done.
Qed.

Section truth.
Context `{LibmOk} `{Json, Sha256, ClientJson, Encodable} (engine_build : string) (channels : Z).

Lemma upd_truth Hh c f :
  (forall k, k_core (f k) = k_core k) -> (forall k, k_log (f k) = k_log k) -> keeps (truth Hh c) (upd f).
Proof. intros Hco Hlo. apply keeps_upd. intros k. by apply truth_same. Qed.

Lemma write_true Hh c id msg : msg_true Hh (c_rev c) msg -> keeps (truth Hh c) (write id msg).
Proof.
  intros Hm k Hk. destruct (write_cases id msg k) as [[_ ->]|[_ [-> | ->]]]; [done|..];
    apply (truth_same Hh c k (next_sends k)) in Hk; try done; [by apply truth_dropped|by apply truth_event].
Qed.

Lemma send_true Hh c id msg : msg_true Hh (c_rev c) msg -> keeps (truth Hh c) (send id msg).
Proof. intros Hm. by apply keeps_when, write_true. Qed.

Lemma broadcast_true Hh c msg : msg_true Hh (c_rev c) msg -> keeps (truth Hh c) (broadcast msg).
Proof.
  intros Hm. apply keeps_when, keeps_bind; [apply keeps_rd|]. intros peers. generalize (said_hello peers). intros ids.
  induction ids as [|id ids IH]; cbn [write_all]; [apply keeps_ret|].
  apply keeps_bind; [by apply write_true|]. by intros _.
Qed.

(** The history has the present. *)
Record knows (Hh : Z -> View) (c : Core) : Prop := {
  kn_now : same_view (Hh (c_rev c)) (view c);
  kn_rev : 0 <= c_rev c;
}.

Lemma state_true Hh c k0 : knows Hh c -> k_core k0 = c -> msg_true Hh (c_rev c) (state_msg k0).
Proof. intros [Hn Hr] Hc. unfold state_msg. rewrite Hc. split; [lia|exact Hn]. Qed.

Ltac truth_step :=
  first
    [ apply keeps_ret | apply keeps_rd
    | apply upd_truth; intros; done
    | apply drop_peer_talk, _ | apply refused_talk, _
    | apply send_true; exact I | apply broadcast_true; exact I
    | apply reply_talk, _ | apply alarm_talk, _ | apply save_talk, _ | apply flush_rt_talk, _ | apply push_pending_talk, _
    | apply keeps_when
    | apply keeps_bind; [|intros ?]
    | progress case_match ].

Lemma supersede_true Hh c id old : keeps (truth Hh c) (supersede id old).
Proof. unfold supersede. repeat truth_step. Qed.

Lemma hello_true Hh c id proto role : knows Hh c -> keeps (truth Hh c) (hello engine_build id proto role).
Proof.
  intros Hn. unfold hello. destruct (negotiate PROTO proto) as [proto'|]; [|repeat truth_step].
  apply keeps_bind; [apply keeps_when, keeps_bind; [apply keeps_rd|]; intros peers; apply keeps_bind; [apply supersede_true|intros _; truth_step]|].
  intros _. apply keeps_bind; [apply keeps_when, keeps_bind; [apply keeps_rd|]; intros peers; apply keeps_bind; [apply supersede_true|intros _; truth_step]|].
  intros _. apply keeps_bind; [apply keeps_rd|]. intros peers. case_bool_decide; [apply keeps_ret|].
  apply keeps_bind; [truth_step|]. intros _. apply leads_rd_bind. intros k0 [Hc _].
  apply (leads_conseq (truth Hh c) _ _ (fun _ => truth Hh c)); [|by intros k [_ Hk]|done].
  do 2 (apply keeps_bind; [by apply send_true|intros _]). apply keeps_bind; [by apply send_true, state_true|]. intros _.
  talk send_all_talk. by apply Forall_fmap, Forall_forall.
Qed.

Lemma run_effect_true Hh c id effect : knows Hh c -> keeps (truth Hh c) (run_effect id effect).
Proof.
  intros Hn. destruct effect; cbn [run_effect]; try (repeat truth_step; fail).
  - apply leads_rd_bind. intros k0 [Hc _]. apply (leads_conseq (truth Hh c) _ _ (fun _ => truth Hh c)); [|by intros k [_ Hk]|done].
    by apply send_true, state_true.
  - apply leads_rd_bind. intros k0 [Hc _]. apply (leads_conseq (truth Hh c) _ _ (fun _ => truth Hh c)); [|by intros k [_ Hk]|done].
    apply keeps_bind; [by apply broadcast_true, state_true|]. intros _. talk note_change_talk.
Qed.

(** ** A bound on the revision *)

Definition honest (B : Z) (k : Control) : Prop :=
  exists Hh c, (core_wf channels c /\ knows Hh c /\ c_rev c <= B) /\ truth Hh c k.

Lemma honest_le B B' k : B <= B' -> honest B k -> honest B' k.
Proof. intros Hb (Hh & c & (Hwf & Hn & Hr) & Hk). exists Hh, c. split_and!; [done|done|lia|done]. Qed.

Lemma honest_keeps {A : Type} B (m : CtlM A) :
  (forall Hh c, knows Hh c -> keeps (truth Hh c) m) -> keeps (honest B) m.
Proof.
  intros Hm k (Hh & c & Hs & Hk). specialize (Hm Hh c (proj1 (proj2 Hs)) k Hk).
  destruct (m k) as [k' a|]; [|done]. by exists Hh, c.
Qed.

(** After a command: its delta, if there is one, would be true. *)
Definition to_tell (o : Core.Outcome) (B : Z) (k : Control) : Prop :=
  exists Hh c, (core_wf channels c /\ knows Hh c /\ c_rev c <= B) /\ truth Hh c k
    /\ (out_changes o <> [] -> forall origin, msg_true Hh (c_rev c) (MDelta (out_rev o) origin (out_changes o))).

Lemma to_tell_keeps {A : Type} B o (m : CtlM A) :
  (forall Hh c, knows Hh c -> keeps (truth Hh c) m) -> keeps (to_tell o B) m.
Proof.
  intros Hm k (Hh & c & Hs & Hk & Ht). specialize (Hm Hh c (proj1 (proj2 Hs)) k Hk).
  destruct (m k) as [k' a|]; [|done]. by exists Hh, c.
Qed.

Lemma on_core_true B (m : CoreM Core.Outcome) :
  B + 1 <= u64_max ->
  (forall c, core_wf channels c -> apply_ok (channels := channels) c (m c) /\ outcome_tells c (m c)) ->
  leads (honest B) (on_core m) (fun r => match r with Ok o => to_tell o (B + 1) | Err _ => honest B end).
Proof.
  intros Hb Hm k (Hh & c & (Hwf & [Hn Hr0] & Hr) & [Hc Hl]). unfold on_core. rewrite Hc.
  destruct (Hm _ Hwf) as [Ha Ht]. destruct (m c) as [c' [o|e]]; cbn in Ha, Ht.
  2: { subst c'. exists Hh, c. by split_and!. }
  destruct Ha as (Hwf' & _ & _ & _ & _ & Hrev & [(-> & Hch & _)|[Hup Hch]]).
  - exists Hh, c. split_and!; try done. lia.
  - assert (Hup' : c_rev c' = c_rev c + 1).
    { rewrite Hup. unfold u64_wrapping_add, u64_max in *. rewrite Z.mod_small; lia. }
    exists (extend Hh (c_rev c + 1) (view c')), c'. split_and!; [done|split|lia|split; [done|]|].
    + rewrite Hup'. unfold extend. by rewrite decide_True.
    + lia.
    + cbn [k_log set_core]. rewrite Hup'. eapply Forall_impl; [exact Hl|]. intros [j msg| | |]; try done. apply msg_true_later.
    + intros Hne origin. cbn. rewrite Hrev, Hup'. split; [lia|]. destruct Ht as [[? _]|Ht]; [done|].
      unfold extend. rewrite decide_False, decide_True by lia.
      replace (c_rev c + 1 - 1) with (c_rev c) by lia. rewrite Hn. exact Ht.
Qed.

Lemma publish_true B o origin : leads (to_tell o B) (publish o origin) (fun _ => honest B).
Proof.
  unfold publish. apply (leads_bind _ _ (fun _ => to_tell o B)); [apply to_tell_keeps; intros; talk push_pending_talk|].
  intros _. apply (leads_bind _ _ (fun _ => to_tell o B)); [apply to_tell_keeps; intros; talk flush_rt_talk|].
  intros _ k (Hh & c & Hs & Hk & Ht).
  assert (Hp : keeps (truth Hh c) (match out_changes o with [] => mret tt | changes => _ ← note_change; broadcast (MDelta (out_rev o) origin changes) end)).
  { destruct (out_changes o) as [|ch chs]; [apply keeps_ret|]. apply keeps_bind; [talk note_change_talk|]. intros _.
    by apply broadcast_true, Ht. }
  specialize (Hp k Hk). destruct (_ k) as [k' a|]; [|done]. by exists Hh, c.
Qed.

Lemma publish_own_true B (m : CoreM Core.Outcome) :
  B + 1 <= u64_max ->
  (forall c, core_wf channels c -> apply_ok (channels := channels) c (m c) /\ outcome_tells c (m c)) ->
  leads (honest B) (out ← on_core m; match out with Ok out => publish out None | Err _ => mret tt end) (fun _ => honest (B + 1)).
Proof.
  intros Hb Hm. eapply leads_bind; [by apply on_core_true|]. intros [o|e]; [apply publish_true|].
  apply leads_ret. intros k. apply honest_le. lia.
Qed.

Lemma request_true B id r origin cmd :
  B + 1 <= u64_max -> leads (honest B) (request id r origin cmd) (fun _ => honest (B + 1)).
Proof.
  intros Hb. unfold request. eapply leads_bind.
  { apply on_core_true; [done|]. intros c Hwf. split; [by apply apply_contract|by apply (apply_tells (channels := channels))]. }
  intros [o|e].
  - apply (leads_bind _ _ (fun _ => to_tell o (B + 1))); [apply to_tell_keeps; intros; talk after_apply_talk|]. intros _.
    apply (leads_bind _ _ (fun _ => to_tell o (B + 1))); [apply to_tell_keeps; intros; talk reply_talk|]. intros _.
    apply (leads_bind _ _ (fun _ => honest (B + 1))); [apply publish_true|]. intros _.
    apply honest_keeps. intros. by apply run_effect_true.
  - eapply leads_conseq; [apply (honest_keeps (B + 1)); intros; talk reply_talk| |done]. intros k. apply honest_le. lia.
Qed.
(** ** Turns *)

Lemma honest_up {A : Type} B B' (m : CtlM A) : B <= B' -> keeps (honest B) m -> leads (honest B) m (fun _ => honest B').
Proof. intros Hb Hm. eapply leads_conseq; [exact Hm|done|]. intros a k. by apply honest_le. Qed.

Lemma frame_true B id bytes :
  B + 1 <= u64_max -> leads (honest B) (frame engine_build id bytes) (fun _ => honest (B + 1)).
Proof.
  intros Hb. unfold frame. apply (leads_bind _ _ (fun _ => honest B)); [apply keeps_rd|]. intros peers.
  destruct (p_roles peers !! id) as [role|]; [|apply honest_up; [lia|apply keeps_ret]].
  destruct (parse_client bytes) as [[proto role' s|r origin cmd]|[r e]].
  - apply honest_up; [lia|]. apply honest_keeps. intros. by apply hello_true.
  - destruct (refusal role cmd); [|by apply request_true].
    apply honest_up; [lia|]. apply honest_keeps. intros. talk reply_talk.
  - apply honest_up; [lia|]. apply honest_keeps. intros. talk reply_talk.
Qed.

Lemma handle_true B msg : B + 1 <= u64_max -> leads (honest B) (handle engine_build msg) (fun _ => honest (B + 1)).
Proof.
  intros Hb. destruct msg; cbn [handle]; [|by apply frame_true|]; apply honest_up; try lia;
    apply honest_keeps; intros Hh c _; [|talk drop_peer_talk].
  apply keeps_bind; [apply keeps_rd|]. intros peers. destruct (_ <=? _)%nat; [talk refused_talk|by apply upd_truth].
Qed.

Lemma set_clock_true B t : keeps (honest B) (upd (set_clock t)).
Proof. apply honest_keeps. intros Hh c _. by apply upd_truth. Qed.

Lemma handle_rest_true msgs B :
  B + Z.of_nat (length msgs) <= u64_max ->
  leads (honest B) (handle_rest engine_build msgs) (fun _ => honest (B + Z.of_nat (length msgs))).
Proof.
  revert B. induction msgs as [|[t msg] msgs IH]; intros B Hb; cbn [handle_rest length] in *.
  { apply honest_up; [lia|apply keeps_ret]. }
  apply (leads_bind _ _ (fun _ => honest B)); [apply keeps_rd|]. intros []; [apply honest_up; [lia|apply keeps_ret]|].
  apply (leads_bind _ _ (fun _ => honest B)); [apply set_clock_true|]. intros _.
  apply (leads_bind _ _ (fun _ => honest (B + 1))); [apply handle_true; lia|]. intros _.
  eapply leads_conseq; [apply (IH (B + 1)); lia|done|]. intros a k. apply honest_le. lia.
Qed.

Lemma tick_solos_true B : B + 1 <= u64_max -> leads (honest B) tick_solos (fun _ => honest (B + 1)).
Proof.
  intros Hb. unfold tick_solos, now. apply (leads_bind _ _ (fun _ => honest B)); [apply keeps_rd|]. intros t.
  apply (leads_bind _ _ (fun _ => honest B)); [apply keeps_rd|]. intros k0.
  destruct (p_controller (k_peers k0)), (p_lost (k_peers k0)); try (apply honest_up; [lia|apply keeps_ret]).
  apply leads_when; [intros _|intros _ k; apply honest_le; lia].
  apply (leads_bind _ _ (fun _ => honest B)); [apply honest_keeps; intros Hh c _; by apply upd_truth|]. intros _.
  apply publish_own_true; [done|]. intros c Hwf. split; [by apply clear_solos_run|by apply (clear_solos_tells (channels := channels))].
Qed.

Lemma tick_test_true B : B + 1 <= u64_max -> leads (honest B) tick_test (fun _ => honest (B + 1)).
Proof.
  intros Hb. unfold tick_test, now. apply (leads_bind _ _ (fun _ => honest B)); [apply keeps_rd|]. intros t.
  apply (leads_bind _ _ (fun _ => honest B)); [apply keeps_rd|]. intros [d|]; [|apply honest_up; [lia|apply keeps_ret]].
  apply leads_when; [intros _|intros _ k; apply honest_le; lia].
  apply (leads_bind _ _ (fun _ => honest B)); [apply honest_keeps; intros Hh c _; by apply upd_truth|]. intros _.
  apply publish_own_true; [done|]. intros c Hwf. split; [by apply end_test_signal_ok|apply end_test_signal_tells].
Qed.

Lemma tick_run_true B inp st : B + 2 <= u64_max -> leads (honest B) (tick_run inp st) (fun _ => honest (B + 2)).
Proof.
  intros Hb. unfold tick_run. apply (leads_bind _ _ (fun _ => honest B)).
  { apply honest_keeps. intros Hh c _. destruct (ti_meter inp); [talk tick_meters_talk|apply keeps_ret]. }
  intros _. apply (leads_bind _ _ (fun _ => honest B)); [apply honest_keeps; intros; talk tick_status_talk|]. intros _.
  apply (leads_bind _ _ (fun _ => honest (B + 1))); [apply tick_solos_true; lia|]. intros _.
  apply (leads_bind _ _ (fun _ => honest (B + 1 + 1))); [apply tick_test_true; lia|]. intros _.
  replace (B + 1 + 1) with (B + 2) by lia. apply honest_keeps. intros. talk tick_save_talk.
Qed.

Lemma tick_true B inp : B + 2 <= u64_max -> leads (honest B) (tick inp) (fun _ => honest (B + 2)).
Proof.
  intros Hb. unfold tick. apply (leads_bind _ _ (fun _ => honest B)); [apply honest_keeps; intros; talk flush_rt_talk|]. intros _.
  apply (leads_bind _ _ (fun _ => honest B)); [apply keeps_rd|]. intros st. destruct (st_faulted st).
  { apply honest_up; [lia|]. apply honest_keeps. intros Hh c _. apply keeps_bind; [talk next_status_talk|]. intros last.
    apply keeps_bind; [by talk broadcast_talk|]. intros _. apply keeps_bind; [talk fault_talk|]. intros e. apply keeps_ret. }
  apply (leads_bind _ _ (fun _ => honest B)); [apply keeps_rd|]. intros driver.
  assert (Hgo : forall b, leads (honest B) (_ ← when b (upd set_shutdown); shutdown ← rd (fun k => r_shutdown (k_run k));
      if shutdown : bool then exit ← shutdown_now inp; mret (Some exit) else _ ← tick_run inp st; mret None) (fun _ => honest (B + 2))).
  { intros b. apply (leads_bind _ _ (fun _ => honest B)); [apply honest_keeps; intros Hh c _; by apply keeps_when, upd_truth|].
    intros _. apply (leads_bind _ _ (fun _ => honest B)); [apply keeps_rd|]. intros [].
    - apply honest_up; [lia|]. apply honest_keeps. intros Hh c _. apply keeps_bind; [talk shutdown_now_talk|]. intros e. apply keeps_ret.
    - apply (leads_bind _ _ (fun _ => honest (B + 2))); [by apply tick_run_true|]. intros _. apply keeps_ret. }
  destruct (if driver then ti_ending inp else None) as [[|why]|]; [apply Hgo| |apply Hgo].
  apply honest_up; [lia|]. apply honest_keeps. intros Hh c _. apply keeps_bind; [talk backend_ended_talk|]. intros e. apply keeps_ret.
Qed.

(** The revisions a turn may add: one for each message, one for the solos and
    one for the test signal. *)
Definition turn_revs (u : Turn) : Z := Z.of_nat (length (tu_msgs u)) + 2.
Definition run_revs (turns : list Turn) : Z := foldr (fun u n => turn_revs u + n) 0 turns.

Lemma turn_true B u : B + turn_revs u <= u64_max -> leads (honest B) (turn engine_build u) (fun _ => honest (B + turn_revs u)).
Proof.
  intros Hb. unfold turn, turn_revs in *. set (n := Z.of_nat (length (tu_msgs u))) in *.
  apply (leads_bind _ _ (fun _ => honest (B + n))).
  - subst n. destruct (tu_msgs u) as [|[t msg] msgs]; cbn [handle_all length] in *; [apply honest_up; [lia|apply keeps_ret]|].
    apply (leads_bind _ _ (fun _ => honest B)); [apply set_clock_true|]. intros _.
    apply (leads_bind _ _ (fun _ => honest (B + 1))); [apply handle_true; lia|]. intros _.
    eapply leads_conseq; [apply (handle_rest_true msgs (B + 1)); lia|done|]. intros a k. apply honest_le. lia.
  - intros _. apply (leads_bind _ _ (fun _ => honest (B + n))); [apply set_clock_true|]. intros _.
    eapply leads_conseq; [apply (tick_true (B + n)); lia|done|]. intros a k. apply honest_le. lia.
Qed.

Lemma run_revs_nonneg turns : 0 <= run_revs turns.
Proof. unfold run_revs, turn_revs. induction turns as [|u turns IH]; cbn [foldr]; lia. Qed.

Lemma run_revs_cons u turns : run_revs (u :: turns) = turn_revs u + run_revs turns.
Proof. done. Qed.

Lemma run_true turns B :
  B + run_revs turns <= u64_max -> leads (honest B) (run engine_build turns) (fun _ => honest (B + run_revs turns)).
Proof.
  revert B. induction turns as [|u turns IH]; intros B Hb; cbn [run]; [apply honest_up; [cbn; lia|apply keeps_ret]|].
  pose proof (run_revs_nonneg turns) as Hn. rewrite run_revs_cons in *.
  apply (leads_bind _ _ (fun _ => honest (B + turn_revs u))); [apply turn_true; lia|].
  intros [exit|]; [apply honest_up; [lia|apply keeps_ret]|].
  eapply leads_conseq; [apply (IH (B + turn_revs u)); lia|done|]. intros a k. apply honest_le. lia.
Qed.

Lemma new_honest core disk counters alarms settings v pops :
  core_wf channels core -> 0 <= c_rev core ->
  honest (c_rev core) (Control_new core disk counters alarms settings v pops).
Proof. intros Hwf Hr. exists (fun _ => view core), core. by split_and!. Qed.
End truth.
