(* ===== verification/CtlEnd.v ===== *)
(** * The log of a run: connections close last, the driver stops first

    [tidy]: a connection that was sent anything is still a peer or was closed
    after its last message; nobody is told that the driver was released before
    it stopped; and the driver is stopped once the loop has let go of it.
    Every step keeps it, and a tick that ends the run leaves no driver and no
    connection. *)

From S2P Require Import Prelude F64 Text MixState Msg Shape Topology Reconciled Rt Core Disk Codec Store Wire Control CtlFrame CtlPeers.
From stdpp Require Import options.
Local Open Scope Z_scope.
#[local] Unset Default Proof Using.

(** Whether the last event of a connection was a message to it. *)
Definition open_event (id : Z) (acc : bool) (ev : Event) : bool :=
  match ev with
  | EvSent j _ => if decide (j = id) then true else acc
  | EvClosed j => if decide (j = id) then false else acc
  | _ => acc
  end.

Definition left_open (log : list Event) (id : Z) : bool := foldl (open_event id) false log.

(** Every word of a release follows the driver's stop. *)
Definition stop_first (log : list Event) : Prop :=
  forall l1 id reason l2, log = l1 ++ EvSent id (MDriverReleased reason) :: l2 -> EvDriverStopped ∈ l1.

Record tidy (k : Control) : Prop := {
  ty_open : forall id, left_open (k_log k) id = true -> is_Some (p_roles (k_peers k) !! id);
  ty_stop : stop_first (k_log k);
  ty_driver : r_driver (k_run k) = false -> EvDriverStopped ∈ k_log k;
}.

(** What the loop says without having let go of the driver. *)
Definition unreleased (msg : EngineMsg) : bool := match msg with MDriverReleased _ => false | _ => true end.

Lemma left_open_snoc log ev id : left_open (log ++ [ev]) id = open_event id (left_open log id) ev.
Proof. unfold left_open. by rewrite foldl_app. Qed.

Lemma left_open_closed log ids id : left_open (log ++ (EvClosed <$> ids)) id = true -> id ∉ ids /\ left_open log id = true.
Proof.
  revert log. induction ids as [|j ids IH]; intros log; cbn; [by rewrite app_nil_r; split; [apply not_elem_of_nil|]|].
  rewrite cons_middle, app_assoc. intros [Hni Ho]%IH. rewrite left_open_snoc in Ho. cbn in Ho.
  case_decide; [done|]. split; [|done]. by rewrite not_elem_of_cons.
Qed.

Lemma stop_first_snoc log ev :
  stop_first log -> match ev with EvSent _ (MDriverReleased _) => EvDriverStopped ∈ log | _ => True end ->
  stop_first (log ++ [ev]).
Proof.
  intros Hl Hev l1 id reason l2 Heq. destruct l2 as [|x l2 _] using rev_ind.
  - apply app_inj_tail in Heq as [-> ->]. exact Hev.
  - rewrite app_comm_cons, app_assoc in Heq. apply app_inj_tail in Heq as [-> ->]. by eapply Hl.
Qed.

Lemma stop_first_closed log ids : stop_first log -> stop_first (log ++ (EvClosed <$> ids)).
Proof.
  revert log. induction ids as [|id ids IH]; intros log Hl; cbn; [by rewrite app_nil_r|].
  rewrite cons_middle, app_assoc. apply IH. by apply stop_first_snoc.
Qed.

Lemma tidy_same k k' :
  k_log k' = k_log k -> p_roles (k_peers k') = p_roles (k_peers k) -> r_driver (k_run k') = r_driver (k_run k) ->
  tidy k -> tidy k'.
Proof. intros H1 H2 H3 [T1 T2 T3]. split; rewrite ?H1, ?H2, ?H3; done. Qed.

Lemma tidy_more_roles k roles :
  (forall id, is_Some (p_roles (k_peers k) !! id) -> is_Some (roles !! id)) -> tidy k -> tidy (set_roles roles k).
Proof. intros Hr [T1 T2 T3]. split; [|done..]. intros id Ho. by apply Hr, T1. Qed.

Lemma dropped_tidy id k : tidy k -> tidy (dropped id k).
Proof.
  intros [T1 T2 T3]. unfold dropped. destruct (decide (is_Some _)) as [Hs|Hs].
  2: { case_decide; by apply (tidy_same k). }
  assert (Hk : tidy (set_log (k_log k ++ [EvClosed id]) (set_roles (delete id (p_roles (k_peers k))) k))).
  { split; cbn -[left_open].
    - intros j. rewrite left_open_snoc. cbn. case_decide as Hj; [done|]. rewrite lookup_delete_ne by done. apply T1.
    - by apply stop_first_snoc.
    - intros Hd. apply elem_of_app. left. by apply T3. }
  case_decide; [|done]. by eapply tidy_same, Hk.
Qed.

Lemma drop_peer_tidy id : keeps tidy (drop_peer id).
Proof. intros k Hk. rewrite drop_peer_eq. by apply dropped_tidy. Qed.

(** A write of a word that may be said. *)
Lemma write_tidy_if id msg k :
  unreleased msg = true \/ r_driver (k_run k) = false -> tidy k ->
  match write id msg k with CDone k' _ => tidy k' /\ r_driver (k_run k') = r_driver (k_run k) | CCrash _ => True end.
Proof.
  intros Hm Hk. destruct (write_cases id msg k) as [[_ ->]|[Hs [-> | ->]]]; [done|..];
    apply (tidy_same k (next_sends k) eq_refl eq_refl eq_refl) in Hk.
  - split; [by apply dropped_tidy|]. unfold dropped. by repeat case_decide.
  - split; [|done]. destruct Hk as [T1 T2 T3]. split; cbn -[left_open].
    + intros j. rewrite left_open_snoc. cbn. case_decide as Hj; [by subst|]. apply T1.
    + apply stop_first_snoc; [done|]. destruct msg; try done. destruct Hm as [Hm|Hm]; [done|]. by apply T3.
    + intros Hd. apply elem_of_app. left. by apply T3.
Qed.

Lemma write_tidy id msg : unreleased msg = true -> keeps tidy (write id msg).
Proof. intros Hm k Hk. pose proof (write_tidy_if id msg k (or_introl Hm) Hk) as Hw. by destruct (write id msg k) as [k' ?|]; [destruct Hw|]. Qed.

Lemma write_all_tidy ids msg : unreleased msg = true -> keeps tidy (write_all ids msg).
Proof.
  intros Hm. induction ids; cbn [write_all]; [apply keeps_ret|].
  apply keeps_bind; [by apply write_tidy|]. by intros _.
Qed.

Create HintDb tidy.
#[export] Hint Resolve drop_peer_tidy : tidy.

Lemma upd_tidy f :
  (forall k, k_log (f k) = k_log k) -> (forall k, p_roles (k_peers (f k)) = p_roles (k_peers k)) ->
  (forall k, r_driver (k_run (f k)) = r_driver (k_run k)) -> keeps tidy (upd f).
Proof. intros H1 H2 H3. apply keeps_upd. intros k. by apply tidy_same. Qed.

Lemma on_disk_tidy {A : Type} (m : IoM A) : keeps tidy (on_disk m).
Proof. apply keeps_on_disk. intros w k. by apply tidy_same. Qed.

Lemma on_core_tidy {A : Type} (m : CoreM A) : keeps tidy (on_core m).
Proof. intros k Hk. unfold on_core. destruct (m (k_core k)) as [c r]. by apply (tidy_same k). Qed.

Lemma refused_tidy id : keeps tidy (emit (EvRefused id)).
Proof.
  apply keeps_upd. intros k [T1 T2 T3]. split; cbn -[left_open].
  - intros j. rewrite left_open_snoc. apply T1.
  - by apply stop_first_snoc.
  - intros Hd. apply elem_of_app. left. by apply T3.
Qed.
#[export] Hint Resolve on_disk_tidy on_core_tidy refused_tidy : tidy.

Ltac tidy_step :=
  first
    [ apply keeps_ret | apply keeps_rd
    | solve [auto with tidy nocore]
    | solve [apply upd_tidy; intros; done]
    | apply keeps_when
    | apply keeps_bind; [|intros ?]
    | progress case_match ].
Ltac tidy_tac := repeat tidy_step.

Section steps.
Context `{Libm, Json, Sha256, ClientJson, Encodable} (engine_build : string).

Lemma send_tidy id msg : unreleased msg = true -> keeps tidy (send id msg).
Proof. intros Hm. unfold send. by apply keeps_when, write_tidy. Qed.

Lemma broadcast_tidy msg : unreleased msg = true -> keeps tidy (broadcast msg).
Proof. intros Hm. unfold broadcast. apply keeps_when, keeps_bind; [apply keeps_rd|]. intros peers. by apply write_all_tidy. Qed.
#[local] Hint Extern 1 (leads _ (send _ _) _) => (apply send_tidy; reflexivity) : tidy.
#[local] Hint Extern 1 (leads _ (broadcast _) _) => (apply broadcast_tidy; reflexivity) : tidy.

Lemma reply_tidy id r e : keeps tidy (reply id r e).
Proof. unfold reply. tidy_tac. Qed.

Lemma alarm_tidy code detail : keeps tidy (alarm code detail).
Proof. unfold alarm. tidy_tac. Qed.

Lemma alarms_tidy id alarms : keeps tidy (send_all id (MAlarm <$> alarms)).
Proof. induction alarms; cbn [send_all fmap list_fmap]; tidy_tac. Qed.

Lemma supersede_tidy id old : keeps tidy (supersede id old).
Proof. unfold supersede. tidy_tac. Qed.
#[local] Hint Resolve reply_tidy alarm_tidy alarms_tidy supersede_tidy : tidy.

Lemma insert_tidy id role k : tidy k -> tidy (set_roles (<[id := role]> (p_roles (k_peers k))) k).
Proof. apply tidy_more_roles. intros j. rewrite lookup_insert_is_Some'. auto. Qed.

Lemma hello_tidy id proto role : keeps tidy (hello engine_build id proto role).
Proof.
  unfold hello. destruct (negotiate PROTO proto); [|tidy_tac].
  apply keeps_bind; [tidy_tac|]. intros _. apply keeps_bind; [tidy_tac|]. intros _.
  apply leads_rd_bind. intros k0 _. case_bool_decide; [by intros k [_ Hk]|].
  apply (leads_bind _ _ (fun _ => tidy)); [|intros _; tidy_tac].
  apply leads_upd. intros k [-> Hk]. by apply insert_tidy.
Qed.

Lemma save_tidy : keeps tidy save.
Proof. unfold save. tidy_tac. Qed.

Lemma after_apply_tidy cmd : keeps tidy (after_apply cmd).
Proof. destruct cmd; cbn [after_apply]; tidy_tac. Qed.

Lemma flush_rt_tidy : keeps tidy flush_rt.
Proof. unfold flush_rt. tidy_tac. Qed.

Lemma push_pending_tidy groups : keeps tidy (push_pending groups).
Proof. unfold push_pending. tidy_tac. Qed.

Lemma note_change_tidy : keeps tidy note_change.
Proof. unfold note_change. tidy_tac. Qed.
#[local] Hint Resolve hello_tidy save_tidy after_apply_tidy flush_rt_tidy push_pending_tidy note_change_tidy : tidy.

Lemma publish_tidy out origin : keeps tidy (publish out origin).
Proof. unfold publish. tidy_tac. Qed.

Lemma run_effect_tidy id effect : keeps tidy (run_effect id effect).
Proof. destruct effect; cbn [run_effect]; tidy_tac. Qed.
#[local] Hint Resolve publish_tidy run_effect_tidy : tidy.

Lemma request_tidy id r origin cmd : keeps tidy (request id r origin cmd).
Proof. unfold request. tidy_tac. Qed.
#[local] Hint Resolve request_tidy : tidy.

Lemma frame_tidy id bytes : keeps tidy (frame engine_build id bytes).
Proof. unfold frame. tidy_tac. Qed.
#[local] Hint Resolve frame_tidy : tidy.

Lemma handle_tidy msg : keeps tidy (handle engine_build msg).
Proof.
  destruct msg; cbn [handle]; [|tidy_tac..].
  apply leads_rd_bind. intros k0 _. destruct (_ <=? _)%nat.
  - eapply leads_conseq; [apply refused_tidy| |done]. by intros k [_ Hk].
  - apply leads_upd. intros k [-> Hk]. by apply insert_tidy.
Qed.

Lemma next_status_tidy inp st : keeps tidy (next_status inp st).
Proof. unfold next_status. tidy_tac. Qed.
#[local] Hint Resolve handle_tidy next_status_tidy : tidy.

Lemma fade_loop_tidy turns inp n : keeps tidy (fade_loop turns inp n).
Proof. revert n. induction turns as [|turns IH]; intros n; cbn [fade_loop]; tidy_tac. Qed.
#[local] Hint Resolve fade_loop_tidy : tidy.

Lemma tick_run_tidy inp st : keeps tidy (tick_run inp st).
Proof. unfold tick_run, tick_meters, note_hil, tick_status, tick_solos, tick_test, tick_save, now. tidy_tac. Qed.
#[local] Hint Resolve tick_run_tidy : tidy.

(** Every peer is in the list of ids. *)
Lemma elem_of_peer_ids p id : id ∈ peer_ids p <-> is_Some (p_roles p !! id).
Proof.
  unfold peer_ids. rewrite merge_sort_Permutation, list_elem_of_fmap. split.
  - intros ([j r] & -> & Hj%elem_of_map_to_list). by exists r.
  - intros [r Hr]. exists (id, r). by rewrite elem_of_map_to_list.
Qed.

(** A run that ended: no driver, no connection, and a tidy log. *)
Definition ended (k : Control) : Prop := tidy k /\ r_driver (k_run k) = false /\ p_roles (k_peers k) = ∅.

Lemma release_ended reason : leads tidy (release reason) (fun _ => ended).
Proof.
  unfold release. apply leads_rd_bind. intros k0 Hk0.
  set (gone := fun k => tidy k /\ r_driver (k_run k) = false).
  apply (leads_bind _ _ (fun _ k => tidy k /\ EvDriverStopped ∈ k_log k)).
  { destruct (r_driver (k_run k0)) eqn:Hd; cbn [when].
    - apply leads_upd. intros k [_ [T1 T2 T3]]. split; [|apply elem_of_app; right; by left].
      split; cbn -[left_open]; [intros j; rewrite left_open_snoc; apply T1|by apply stop_first_snoc|].
      intros _. apply elem_of_app. right. by left.
    - apply leads_ret. intros k [-> Hk]. split; [done|]. by apply (ty_driver _ Hk). }
  intros _. apply (leads_bind _ _ (fun _ => gone)).
  { apply leads_upd. intros k [[T1 T2 T3] Hs]. by split; [split|]. }
  intros _. apply (leads_bind _ _ (fun _ => gone)).
  { unfold broadcast. destruct (encodable _); cbn [when]; [|apply keeps_ret]. apply keeps_bind; [apply keeps_rd|]. intros peers.
    generalize (said_hello peers) as ids. induction ids as [|id ids IH]; cbn [write_all]; [apply keeps_ret|].
    apply keeps_bind; [|by intros _]. intros k [Hk Hd]. pose proof (write_tidy_if id (MDriverReleased reason) k (or_intror Hd) Hk) as Hw.
    destruct (write _ _ k); [|done]. destruct Hw as [Hw Hd']. split; [done|by rewrite Hd']. }
  intros _. apply leads_rd_bind. intros k1 [Hk1 Hd1]. apply (leads_bind _ _ (fun _ k => k = set_roles ∅ k1)).
  { apply leads_upd. by intros k [-> _]. }
  intros _. apply leads_upd. intros k ->. destruct Hk1 as [T1 T2 T3]. split; [|done].
  split; cbn -[left_open].
  - intros id [Hni Ho]%left_open_closed. destruct Hni. by apply elem_of_peer_ids, T1.
  - by apply stop_first_closed.
  - intros Hd. apply elem_of_app. left. by apply T3.
Qed.

(** Of the end of a tick: ended if it ends the run. *)
Definition ends (exit : option Exit) (k : Control) : Prop := if exit then ended k else tidy k.

Lemma release_exit (m : CtlM unit) reason (e : Exit) :
  keeps tidy m -> leads tidy (_ ← m; _ ← release reason; mret e) (fun _ => ended).
Proof.
  intros Hm. apply (leads_bind _ _ (fun _ => tidy)); [done|]. intros _.
  apply (leads_bind _ _ (fun _ => ended)); [apply release_ended|]. intros _. by apply leads_ret.
Qed.

Lemma shutdown_ended inp : leads tidy (shutdown_now inp) (fun _ => ended).
Proof.
  unfold shutdown_now. apply (leads_bind _ _ (fun _ => tidy)); [apply save_tidy|]. intros _.
  apply (leads_bind _ _ (fun _ => tidy)); [unfold fade_out; tidy_tac|]. intros faded.
  apply (leads_bind _ _ (fun _ => ended)); [apply release_ended|]. intros _. by apply leads_ret.
Qed.

Lemma exit_some (m : CtlM Exit) :
  leads tidy m (fun _ => ended) -> leads tidy (exit ← m; mret (Some exit)) ends.
Proof. intros Hm. apply (leads_bind _ _ (fun _ => ended)); [done|]. intros e. by apply leads_ret. Qed.

Lemma tick_ends inp : leads tidy (tick inp) ends.
Proof.
  unfold tick. apply (leads_bind _ _ (fun _ => tidy)); [apply flush_rt_tidy|]. intros _.
  apply (leads_bind _ _ (fun _ => tidy)); [apply keeps_rd|]. intros st. destruct (st_faulted st).
  { apply (leads_bind _ _ (fun _ => tidy)); [apply next_status_tidy|]. intros last.
    apply (leads_bind _ _ (fun _ => tidy)); [by apply broadcast_tidy|]. intros _. apply exit_some.
    unfold fault. apply (leads_bind _ _ (fun _ => tidy)); [apply save_tidy|]. intros _. apply release_exit, alarm_tidy. }
  apply (leads_bind _ _ (fun _ => tidy)); [apply keeps_rd|]. intros driver.
  assert (Hgo : forall b, leads tidy (_ ← when b (upd set_shutdown); shutdown ← rd (fun k => r_shutdown (k_run k));
      if shutdown : bool then exit ← shutdown_now inp; mret (Some exit) else _ ← tick_run inp st; mret None) ends).
  { intros b. apply (leads_bind _ _ (fun _ => tidy)); [tidy_tac|]. intros _.
    apply (leads_bind _ _ (fun _ => tidy)); [apply keeps_rd|]. intros []; [apply exit_some, shutdown_ended|].
    apply (leads_bind _ _ (fun _ => tidy)); [apply tick_run_tidy|]. intros _. by apply leads_ret. }
  destruct (if driver then ti_ending inp else None) as [[|why]|]; [apply Hgo| |apply Hgo].
  apply exit_some. apply release_exit, save_tidy.
Qed.

Lemma handle_rest_tidy msgs : keeps tidy (handle_rest engine_build msgs).
Proof. induction msgs as [|[t msg] msgs IH]; cbn [handle_rest]; tidy_tac. Qed.
#[local] Hint Resolve handle_rest_tidy : tidy.

Lemma turn_ends u : leads tidy (turn engine_build u) ends.
Proof.
  unfold turn. apply (leads_bind _ _ (fun _ => tidy)).
  - destruct (tu_msgs u) as [|[t msg] msgs]; cbn [handle_all]; tidy_tac.
  - intros _. apply (leads_bind _ _ (fun _ => tidy)); [tidy_tac|]. intros _. apply tick_ends.
Qed.

Lemma run_ends turns : leads tidy (run engine_build turns) ends.
Proof.
  induction turns as [|u turns IH]; cbn [run]; [by apply leads_ret|].
  apply (leads_bind _ _ ends); [apply turn_ends|]. intros [exit|]; [by apply leads_ret|done].
Qed.
End steps.
