(* ===== verification/CtlTotal.v ===== *)
(** * The loop goes on: no step of it ends the process

    [survives]: with no crash in the script of file faults every operation of
    the store returns, with a result or an error, and every step of the loop
    ends.  What a tick ends with is decided by what it read. *)

From S2P Require Import Prelude F64 Text MixState Msg Shape Topology Reconciled Rt Core Disk Codec Store Wire Control CtlFrame.
From stdpp Require Import options.
Local Open Scope Z_scope.
#[local] Unset Default Proof Using.

Definition no_crash (f : Disk.fault) : Prop := match f with Crash _ => False | _ => True end.
Definition calm (w : World) : Prop := Forall no_crash (w_script w).

(** ** The store *)

Definition survives {A : Type} (m : IoM A) : Prop :=
  forall w, calm w -> match m w with ODone w' _ => calm w' | OCrash _ => False end.

Lemma survives_ret {A : Type} (a : A) : survives (mret a).
Proof. by intros w. Qed.

Lemma survives_lift {A : Type} (r : result IoError A) : survives (io_lift r).
Proof. by intros w. Qed.

Lemma survives_bind {A B : Type} (m : IoM A) (f : A -> IoM B) :
  survives m -> (forall a, survives (f a)) -> survives (m ≫= f).
Proof.
  intros Hm Hf w Hw. unfold mbind, IoM_bind. specialize (Hm w Hw).
  destruct (m w) as [w' [a|e]|]; [by apply Hf|done|done].
Qed.

Lemma survives_op {A : Type} (go : Dir -> result IoError (Dir * A)) part : survives (io_op go part).
Proof.
  intros w Hw. unfold io_op, calm in *. destruct (w_script w) as [|f s] eqn:Hs; [by destruct (go _) as [[??]|]|].
  apply Forall_cons in Hw as [Hf Hw]. destruct f; [by destruct (go _) as [[??]|]|done|by destruct (go _) as [[??]|]|done].
Qed.

Lemma survives_list : survives fs_list.
Proof.
  intros w Hw. pose proof (survives_op (fun d => Ok (d, entry <$> dir_names d)) no_part w Hw) as Hop.
  unfold fs_list. destruct (w_script w) as [|[| |e n|] s] eqn:Hs; try exact Hop.
  unfold calm in *. rewrite Hs in Hw. by apply Forall_cons in Hw as [_ Hw].
Qed.

Lemma survives_attempt {A : Type} (m : IoM A) : survives m -> survives (attempt m).
Proof. intros Hm w Hw. specialize (Hm w Hw). unfold attempt. by destruct (m w). Qed.

Lemma survives_map_err {A : Type} f (m : IoM A) : survives m -> survives (io_map_err f m).
Proof. intros Hm w Hw. specialize (Hm w Hw). unfold io_map_err. by destruct (m w) as [? []|]. Qed.

Lemma survives_get_own : survives get_own.
Proof. by intros w. Qed.

Lemma survives_set_own b : survives (set_own b).
Proof. by intros w. Qed.

Create HintDb calm.
#[export] Hint Resolve survives_ret survives_lift survives_list survives_get_own survives_set_own : calm.
#[export] Hint Extern 2 (survives _) => exact (survives_op _ _) : calm.

Ltac calm_tac := repeat first
  [ solve [auto with calm nocore] | apply survives_attempt | apply survives_map_err
  | apply survives_bind; [|intros ?] | progress case_match ].

Lemma move_aside_survives path tag : survives (move_aside path tag).
Proof. unfold move_aside. generalize (seq 1 QUARANTINE_NAMES) as ns. induction ns; cbn [move_aside_from]; calm_tac. Qed.

Lemma remove_all_survives paths : survives (remove_all paths).
Proof. induction paths; cbn [remove_all]; calm_tac. Qed.
#[export] Hint Resolve move_aside_survives remove_all_survives : calm.

Lemma store_save_survives `{Json, Sha256} p : survives (Store.save p).
Proof.
  unfold Store.save, write_synced, orphan_tmp, commit_tmp, rotate, mark, prune, generations, store_list. calm_tac.
Qed.

(** ** The loop *)

(** [leads], and the process goes on. *)
Definition goes_on {A : Type} (I : Control -> Prop) (m : CtlM A) (J : A -> Control -> Prop) : Prop :=
  forall k, calm (k_disk k) -> I k ->
    match m k with CDone k' a => calm (k_disk k') /\ J a k' | CCrash _ => False end.

Abbreviation anyhow := (fun _ : Control => True).
Abbreviation going m := (goes_on anyhow m (fun _ => anyhow)).

Lemma goes_bind {A B : Type} I (m : CtlM A) J (f : A -> CtlM B) K :
  goes_on I m J -> (forall a, goes_on (J a) (f a) K) -> goes_on I (m ≫= f) K.
Proof.
  intros Hm Hf k Hc Hk. specialize (Hm k Hc Hk). unfold mbind, CtlM_bind.
  destruct (m k) as [k' a|k']; [|done]. destruct Hm as [Hc' Ha]. by apply Hf.
Qed.

Lemma goes_conseq {A : Type} (I I' : Control -> Prop) (m : CtlM A) (J J' : A -> Control -> Prop) :
  goes_on I m J -> (forall k, I' k -> I k) -> (forall a k, J a k -> J' a k) -> goes_on I' m J'.
Proof. intros Hm HI HJ k Hc Hk. specialize (Hm k Hc (HI _ Hk)). destruct (m k); [|done]. destruct Hm. split; [done|by apply HJ]. Qed.

Lemma goes_val {A : Type} (I : Control -> Prop) (m : CtlM A) (J J' : A -> Control -> Prop) :
  goes_on I m J -> (forall a k, J a k -> J' a k) -> goes_on I m J'.
Proof. intros Hm HJ. by eapply goes_conseq. Qed.

Lemma goes_ret {A : Type} (I : Control -> Prop) (a : A) (J : A -> Control -> Prop) :
  (forall k, I k -> J a k) -> goes_on I (mret a) J.
Proof. intros HJ k Hc Hk. split; [done|by apply HJ]. Qed.

Lemma goes_leads {A : Type} I (m : CtlM A) J : going m -> leads I m J -> goes_on I m J.
Proof.
  intros Hg Hl k Hc Hk. specialize (Hg k Hc Logic.I). specialize (Hl k Hk). destruct (m k); [|done]. by destruct Hg.
Qed.

Lemma going_ret {A : Type} (a : A) : going (mret a).
Proof. by apply goes_ret. Qed.

Lemma going_rd {A : Type} (f : Control -> A) : going (rd f).
Proof. by intros k Hc _. Qed.

Lemma going_upd f : (forall k, k_disk (f k) = k_disk k) -> going (upd f).
Proof. intros Hf k Hc _. cbn. by rewrite Hf. Qed.

Lemma going_bind {A B : Type} (m : CtlM A) (f : A -> CtlM B) : going m -> (forall a, going (f a)) -> going (m ≫= f).
Proof. apply (goes_bind anyhow m (fun _ => anyhow)). Qed.

Lemma going_when b m : going m -> going (when b m).
Proof. destruct b; [done|]. intros _. apply going_ret. Qed.

Lemma going_on_disk {A : Type} (m : IoM A) : survives m -> going (on_disk m).
Proof. intros Hm k Hc _. specialize (Hm _ Hc). unfold on_disk. by destruct (m (k_disk k)). Qed.

Lemma going_on_core {A : Type} (m : CoreM A) : going (on_core m).
Proof. intros k Hc _. unfold on_core. by destruct (m (k_core k)). Qed.

Lemma going_next_send : going next_send.
Proof. by intros k Hc _. Qed.

Create HintDb going.
#[export] Hint Resolve going_on_core going_next_send : going.

Ltac going_step :=
  first
    [ apply going_ret | apply going_rd
    | solve [auto with going nocore]
    | solve [apply going_upd; intros; done]
    | apply going_on_disk; solve [apply store_save_survives]
    | apply going_when
    | apply going_bind; [|intros ?]
    | progress case_match ].
Ltac going_tac := repeat going_step.

Section loop.
Context `{Libm, Json, Sha256, ClientJson, Encodable} (engine_build : string).

Lemma drop_peer_going id : going (drop_peer id).
Proof. unfold drop_peer, emit, now. going_tac. Qed.
#[local] Hint Resolve drop_peer_going : going.

Lemma write_going id msg : going (write id msg).
Proof. unfold write, emit. going_tac. Qed.
#[local] Hint Resolve write_going : going.

Lemma write_all_going ids msg : going (write_all ids msg).
Proof. induction ids; cbn [write_all]; going_tac. Qed.
#[local] Hint Resolve write_all_going : going.

Lemma send_going id msg : going (send id msg).
Proof. unfold send. going_tac. Qed.

Lemma broadcast_going msg : going (broadcast msg).
Proof. unfold broadcast. going_tac. Qed.
#[local] Hint Resolve send_going broadcast_going : going.

Lemma send_all_going id msgs : going (send_all id msgs).
Proof. induction msgs; cbn [send_all]; going_tac. Qed.
#[local] Hint Resolve send_all_going : going.

Lemma hello_going id proto role : going (hello engine_build id proto role).
Proof. unfold hello, supersede, reply. going_tac. Qed.

Lemma save_going : going save.
Proof. unfold save, alarm. going_tac. Qed.
#[local] Hint Resolve hello_going save_going : going.

Lemma publish_going out origin : going (publish out origin).
Proof. unfold publish, push_pending, flush_rt, note_change. going_tac. Qed.
#[local] Hint Resolve publish_going : going.

Lemma request_going id r origin cmd : going (request id r origin cmd).
Proof. unfold request, reply, after_apply, run_effect, note_change. going_tac. Qed.
#[local] Hint Resolve request_going : going.

Lemma handle_going msg : going (handle engine_build msg).
Proof. destruct msg; cbn [handle]; unfold frame, reply, emit; going_tac. Qed.

Lemma release_going reason : going (release reason).
Proof. unfold release, emit. going_tac. Qed.
#[local] Hint Resolve handle_going release_going : going.

Lemma flush_rt_going : going flush_rt.
Proof. unfold flush_rt. going_tac. Qed.
#[local] Hint Resolve flush_rt_going : going.

Lemma fade_loop_going turns inp n : going (fade_loop turns inp n).
Proof. revert n. induction turns as [|turns IH]; intros n; cbn [fade_loop]; going_tac. Qed.
#[local] Hint Resolve fade_loop_going : going.

Lemma tick_run_going inp st : going (tick_run inp st).
Proof. unfold tick_run, tick_meters, note_hil, tick_status, next_status, tick_solos, tick_test, tick_save, alarm, now. going_tac. Qed.
#[local] Hint Resolve tick_run_going : going.

(** ** How a tick ends *)

Inductive end_kind := GoesOn | ByFault (why : string) | ByBackend (why : string) | ByShutdown.

(** What the tick's figures and the loop's flag decide. *)
Definition tick_end (inp : TickIn) (k : Control) : end_kind :=
  let st := driver_stats inp k in
  if st_faulted st then ByFault (match st_fault st with Some why => why | None => "unknown" end)
  else
    match (if r_driver (k_run k) then ti_ending inp else None) with
    | Some (EndBackend why) => ByBackend why
    | Some EndStop => ByShutdown
    | None => if r_shutdown (k_run k) then ByShutdown else GoesOn
    end.

Definition ends_by (e : end_kind) (exit : option Exit) : Prop :=
  match e with
  | GoesOn => exit = None
  | ByFault why => exit = Some (ExFault why)
  | ByBackend why => exit = Some (ExBackend why)
  | ByShutdown => exists faded, exit = Some (ExShutdown faded)
  end.

Lemma going_goes {A : Type} I (m : CtlM A) : going m -> goes_on I m (fun _ => anyhow).
Proof. intros Hm. eapply goes_conseq; [exact Hm|done|done]. Qed.

Lemma exit_goes I (m : CtlM Exit) e :
  goes_on I m (fun exit _ => ends_by e (Some exit)) -> goes_on I (exit ← m; mret (Some exit)) (fun exit _ => ends_by e exit).
Proof. intros Hm. eapply goes_bind; [exact Hm|]. intros exit. by apply goes_ret. Qed.

Lemma fault_goes I why : goes_on I (fault why) (fun exit _ => exit = ExFault why).
Proof.
  unfold fault, alarm. do 3 (eapply goes_bind; [apply going_goes; going_tac|intros []]). by apply goes_ret.
Qed.

Lemma backend_goes I why : goes_on I (backend_ended why) (fun exit _ => exit = ExBackend why).
Proof. unfold backend_ended. do 2 (eapply goes_bind; [apply going_goes; going_tac|intros []]). by apply goes_ret. Qed.

Lemma shutdown_goes I inp : goes_on I (shutdown_now inp) (fun exit _ => exists faded, exit = ExShutdown faded).
Proof.
  unfold shutdown_now, fade_out, push_pending. eapply goes_bind; [apply going_goes; going_tac|]. intros [].
  eapply goes_bind; [apply going_goes; going_tac|]. intros faded.
  eapply goes_bind; [apply going_goes; going_tac|]. intros []. apply goes_ret. by eexists.
Qed.

Lemma tick_goes inp k0 : goes_on (fun k => k_run k = k_run k0) (tick inp) (fun exit _ => ends_by (tick_end inp k0) exit).
Proof.
  unfold tick. eapply goes_bind.
  { apply (goes_leads _ _ (fun _ k => k_run k = k_run k0)); [apply flush_rt_going|]. by apply leads_upd. }
  intros []. eapply goes_bind; [apply (goes_leads _ _ (fun st k => st = driver_stats inp k0 /\ k_run k = k_run k0)); [apply going_rd|]|].
  { intros k Hk. split; [|done]. unfold driver_stats. by rewrite Hk. }
  intros st k Hc [-> Hk]. revert k Hc Hk. unfold tick_end. destruct (st_faulted (driver_stats inp k0)).
  { change (goes_on (fun k => k_run k = k_run k0) (last ← next_status inp (driver_stats inp k0); _ ← broadcast (MStatus last);
      exit ← fault (match st_fault (driver_stats inp k0) with Some why => why | None => "unknown" end); mret (Some exit))
      (fun exit _ => ends_by (ByFault (match st_fault (driver_stats inp k0) with Some why => why | None => "unknown" end)) exit)).
    eapply goes_bind; [apply going_goes; unfold next_status; going_tac|]. intros last.
    eapply goes_bind; [apply going_goes; going_tac|]. intros []. apply exit_goes.
    eapply goes_val; [apply fault_goes|]. by intros exit _ ->. }
  set (rest := fun ending : option Ending => match ending with
    | Some (EndBackend why) => exit ← backend_ended why; mret (Some exit)
    | _ => _ ← when (match ending with Some EndStop => true | _ => false end) (upd set_shutdown);
        shutdown ← rd (fun k => r_shutdown (k_run k));
        if shutdown : bool then exit ← shutdown_now inp; mret (Some exit)
        else _ ← tick_run inp (driver_stats inp k0); mret None end).
  assert (Hrest : forall ending, goes_on (fun k => k_run k = k_run k0) (rest ending) (fun exit _ => ends_by
      (match ending with Some (EndBackend why) => ByBackend why | Some EndStop => ByShutdown
       | None => if r_shutdown (k_run k0) then ByShutdown else GoesOn end) exit)).
  { assert (Hsh : forall I, goes_on I (exit ← shutdown_now inp; mret (Some exit)) (fun exit _ => ends_by ByShutdown exit)).
    { intros I. apply exit_goes. eapply goes_val; [apply shutdown_goes|]. intros exit _ [faded ->]. by exists faded. }
    intros [[|why]|]; cbn [rest when].
    - eapply (goes_bind _ _ (fun _ k => r_shutdown (k_run k) = true)); [intros k Hc _; split; [exact Hc|reflexivity]|]. intros _ k Hc Hk.
      rewrite rd_bind, Hk. by apply (Hsh anyhow).
    - apply exit_goes. eapply goes_val; [apply backend_goes|]. by intros exit _ ->.
    - intros k Hc Hk. rewrite (bind_done _ _ _ k tt) by done. rewrite rd_bind, Hk.
      destruct (r_shutdown (k_run k0)); [by apply (Hsh anyhow)|].
      revert k Hc Hk. apply (goes_bind _ _ (fun _ => anyhow)); [apply going_goes; going_tac|]. intros _. by apply goes_ret. }
  intros k Hc Hk. rewrite rd_bind, Hk. specialize (Hrest (if r_driver (k_run k0) then ti_ending inp else None) k Hc Hk).
  by destruct (if r_driver (k_run k0) then ti_ending inp else None) as [[|why]|].
Qed.

Lemma tick_going inp : going (tick inp).
Proof. intros k Hc _. pose proof (tick_goes inp k k Hc eq_refl) as Ht. destruct (tick inp k); [|done]. by destruct Ht. Qed.

Lemma handle_rest_going msgs : going (handle_rest engine_build msgs).
Proof. induction msgs as [|[t msg] msgs IH]; cbn [handle_rest]; going_tac. Qed.
#[local] Hint Resolve tick_going handle_rest_going : going.

Lemma turn_going u : going (turn engine_build u).
Proof. unfold turn. destruct (tu_msgs u) as [|[t msg] msgs]; cbn [handle_all]; going_tac. Qed.

Lemma run_going turns : going (run engine_build turns).
Proof.
  induction turns as [|u turns IH]; cbn [run]; [apply going_ret|].
  apply going_bind; [apply turn_going|]. intros [exit|]; [apply going_ret|done].
Qed.
End loop.
