(* ===== verification/ControlSpec.v ===== *)
(** * What the control loop promises

    The properties of [control.rs] and its parts over any sequence of turns:
    the RT thread in step, clients up to date, one controller, who may change
    the mix, durable saves, the solo grace and how a run ends. *)

From S2P Require Import Prelude F64 Text MixState Msg Shape Topology TopologyWf Reconciled Rt Core CoreSync CoreCmd CoreApply Disk Codec Store Chain Live Crash Boot Wire Control CtlFrame CtlRt CtlPeers CtlLive CtlEnd CtlTotal.
From stdpp Require Import options.
Local Open Scope Z_scope.
#[local] Unset Default Proof Using.

(** ** A concrete run for the witnesses

    Five bytes strings are messages: hellos, two edits and a save. *)

#[export] Instance demo_clients : ClientJson := {|
  client_of_json bytes :=
    match bytes with
    | [0] => Ok (CHello 1 Msg.Control "mixer")
    | [1] => Ok (CHello 1 Observe "screen")
    | [2] => Ok (CRequest 5 (Some 3) (SetInput "mic1" None (Some true) None))
    | [3] => Ok (CRequest 6 None (SetSolo "m1" [SrcInput "mic1"]))
    | [4] => Ok (CRequest 7 None SaveNow)
    | _ => Err "not a message"
    end;
  probe_of_json bytes := None;
|}.

#[export] Instance demo_encodable : Encodable := fun _ => true.

#[export] Instance demo_states_fit : StatesFit.
Proof. done. Qed.

(** A codec that knows one file. *)
Definition one_json (p : Persisted) : Json := {|
  persisted_json _ := Ok "state";
  persisted_of_json _ := Ok p;
  raw_value t := Ok t;
  file_json f := Ok (f_sha256 f);
  file_of_json t := Ok (mkStateFile FORMAT SCHEMA t "state");
|}.

Lemma one_json_ok p : let _ := one_json p in json_ok p.
Proof. exists "state", (digest "state"). by split_and!. Qed.

Definition demo_settings : Settings := mkSettings 10000000000 64 false.
Definition demo_env : Env := mkEnv 0 (Some 1700000000000) [].
Definition demo_control : Control :=
  Control_new demo_core (mkWorld ∅ true [] 0) [0; 0] [] demo_settings demo_env [8%nat; 8%nat; 8%nat; 8%nat; 8%nat].

Definition demo_stats (faulted : bool) : StreamStats := mkStreamStats 1 0 faulted (Some "clock lost") 0 64 0 0 0 0 0.
Definition demo_tick (faulted : bool) : TickIn :=
  mkTickIn (demo_stats faulted) None HistSnapshot_default None (mkRtStatus 0 0 0) 0 (fun _ => true) (fun _ => 0).

(** Two clients; an edit and a solo by the controller, an edit by the observer. *)
Definition demo_turns (faulted : bool) : list Turn :=
  [mkTurn [(1, Connected 1); (2, FrameIn 1 [0]); (3, Connected 2); (4, FrameIn 2 [1])] 5 (demo_tick false);
   mkTurn [(6, FrameIn 1 [2]); (7, FrameIn 1 [3]); (8, FrameIn 2 [2])] 9 (demo_tick faulted)].

Definition demo_run `{Json} (faulted : bool) : CtlOut (option Exit) :=
  run "demo" (demo_turns faulted) demo_control.

(** Connection 1 controls, with a solo. *)
Definition demo_soloed : Control :=
  set_controller (Some 1) None (set_core (Core.apply (SetSolo "m1" [SrcInput "mic1"]) demo_core).1 demo_control).

Lemma demo_soloed_wf : core_wf 8 (k_core demo_soloed).
Proof.
  pose proof (apply_contract (channels := 8) demo_core (SetSolo "m1" [SrcInput "mic1"]) demo_core_wf) as Hok.
  change (k_core demo_soloed) with (Core.apply (SetSolo "m1" [SrcInput "mic1"]) demo_core).1.
  destruct (Core.apply _ _) as [c [o|e]]; [apply Hok|]. cbn in *. subst c. exact demo_core_wf.
Qed.

(** What a finished run left. *)
Definition finished {A : Type} (out : CtlOut A) : bool := match out with CDone _ _ => true | CCrash _ => false end.

Lemma finished_done {A : Type} (out : CtlOut A) : finished out = true -> exists k a, out = CDone k a.
Proof. destruct out as [k a|]; [by exists k, a|done]. Qed.

Lemma demo_run_done faulted : exists k exit, demo_run faulted = CDone k exit.
Proof. apply finished_done. by destruct faulted; vm_compute. Qed.

Lemma demo_synced : synced demo_core (rt_run mem_init (full_sync demo_core)).
Proof. exact (Core_new_synced demo_topo MixState_default 7 demo_flags demo_wf demo_fits16). Qed.

(** ** Lemmas *)

(** A run starts with nobody connected and nothing queued. *)
Lemma new_live channels core disk counters alarms settings v pops :
  core_wf channels core -> live channels (Control_new core disk counters alarms settings v pops).
Proof.
  intros Hwf. split; [done|]. split_and!; [done| |].
  - split; [by intros [] ?????|]. intros id role. cbn. by rewrite lookup_empty.
  - split; cbn; [intros id; by rewrite lookup_empty..|rewrite map_size_empty; lia].
Qed.

Lemma new_tidy core disk counters alarms settings v pops :
  tidy (Control_new core disk counters alarms settings v pops).
Proof. split; cbn; [by intros id|by intros [] ????|done]. Qed.

Lemma leads_done {A : Type} I (m : CtlM A) J k k' a : leads I m J -> I k -> m k = CDone k' a -> J a k'.
Proof. intros Hm Hk Hd. specialize (Hm k Hk). by rewrite Hd in Hm. Qed.

(** What a role that is not the controller's may ask leaves of the core. *)
Definition same_mix (c c' : Core) : Prop :=
  c_s c' = c_s c /\ c_solo c' = c_solo c /\ c_listen c' = c_listen c /\ c_topo c' = c_topo c.

Lemma same_mix_finish p c c' : same_mix c c' -> same_mix c (finish p c').1.
Proof. rewrite finish_eq. cbn. by destruct (p_bump p). Qed.

Lemma start_test_mix `{Libm} input hz dbfs ttl_s mask listen c :
  same_mix c (start_test input hz dbfs ttl_s mask listen c).1.
Proof.
  unfold start_test, find_input, lift, mbind, CoreM_bind.
  destruct (input_index _ _); cbn; [|done].
  destruct (capped hz _ _); cbn; [|done]. destruct (capped dbfs _ _); cbn; [|done]. by destruct (capped ttl_s _ _).
Qed.

Lemma one_supervisor_mix `{Libm} cmd c :
  supervisor_may cmd = true -> same_mix c (one cmd c).1.
Proof.
  destruct cmd as [| | | | | | | | | |input hz dbfs ttl_s| | | | | | | | | | |input hz dbfs ttl_s card_tx listen]; try done; intros _; cbn [one].
  - unfold cmd_start_test, test_flag, mbind, CoreM_bind, gets. destruct (fl_test_signal _); cbn; [|done].
    destruct (c_hil_test c && _); [done|]. apply start_test_mix.
  - unfold cmd_stop_test, mbind, CoreM_bind, gets, modify. by destruct (c_test c).
  - unfold need_fault_injection, mbind, CoreM_bind, gets. cbn. by destruct (fl_fault_injection _).
  - unfold cmd_hil_test, test_flag, mbind, CoreM_bind, gets, lift. destruct (fl_test_signal _); cbn; [|done].
    destruct (f64_ltb _ dbfs); [done|]. destruct (hil_mask _ _ _); [|done]. apply start_test_mix.
Qed.

Lemma apply_supervisor_mix `{Libm} cmd c : supervisor_may cmd = true -> same_mix c (Core.apply cmd c).1.
Proof.
  intros Hs. pose proof (one_supervisor_mix cmd c Hs) as Ho. destruct cmd; try discriminate;
    unfold Core.apply, mbind, CoreM_bind; cbv iota; destruct (one _ c) as [c' [p|e]]; cbn in Ho; try exact Ho; by apply same_mix_finish.
Qed.

Lemma apply_read_only `{Libm} cmd c : is_read_only cmd = true -> (Core.apply cmd c).1 = c.
Proof. by destruct cmd. Qed.

#[export] Instance core_only_flushed (P : Core -> Prop) : Flushed (fun c _ => P c).
Proof. by intros c q. Qed.
#[local] Hint Resolve core_only_flushed : keeps.

(** The rest of a request keeps the core as the command left it. *)
Lemma request_core `{Libm, Json, Sha256, ClientJson, Encodable} id r origin cmd (P : Core -> Prop) k :
  P (Core.apply cmd (k_core k)).1 -> match request id r origin cmd k with CDone k' _ => P (k_core k') | CCrash _ => True end.
Proof.
  intros Hp. unfold request, on_core, mbind at 1, CtlM_bind at 1. destruct (Core.apply cmd (k_core k)) as [c r0].
  cbn in Hp. assert (Hk : on_engine (fun c _ => P c) (set_core c k)) by exact Hp. revert Hk. generalize (set_core c k). clear k Hp.
  intros k Hk. destruct r0 as [out|e].
  - assert (Hg : keeps (on_engine (fun c _ => P c)) (_ ← after_apply cmd; _ ← reply id r None; _ ← publish out origin; run_effect id (out_effect out))).
    { unfold publish, push_pending. keeps_tac. }
    exact (Hg k Hk).
  - assert (Hg : keeps (on_engine (fun c _ => P c)) (reply id r (Some (mkErrorBody (ce_code e) (ce_msg e))))) by keeps_tac.
    exact (Hg k Hk).
Qed.

(** ** The words of a step

    [says P log0 w k]: since [log0] only words of [P] were sent, and the files
    are still [w]. *)
Definition says (P : EngineMsg -> Prop) (log0 : list Event) (w : World) (k : Control) : Prop :=
  k_disk k = w /\ exists l, k_log k = log0 ++ l /\ forall id msg, EvSent id msg ∈ l -> P msg.

Lemma says_event P log0 w ev k :
  match ev with EvSent _ msg => P msg | _ => True end ->
  says P log0 w k -> says P log0 w (set_log (k_log k ++ [ev]) k).
Proof.
  intros Hev (Hw & l & Hl & Hp). split; [done|]. exists (l ++ [ev]). cbn. split; [by rewrite Hl, app_assoc|].
  intros id msg [Hin|Hin]%elem_of_app; [by eapply Hp|]. apply list_elem_of_singleton in Hin. by subst ev.
Qed.

Lemma dropped_says P log0 w id k : says P log0 w k -> says P log0 w (dropped id k).
Proof.
  intros Hk. unfold dropped. destruct (decide (is_Some _)); [|by destruct (decide _); exact Hk].
  assert (Hs : says P log0 w (set_log (k_log k ++ [EvClosed id]) (set_roles (delete id (p_roles (k_peers k))) k))).
  { apply (says_event P log0 w (EvClosed id) (set_roles _ k)); [done|exact Hk]. }
  by destruct (decide _); exact Hs.
Qed.

Lemma write_says P log0 w id msg : P msg -> keeps (says P log0 w) (write id msg).
Proof.
  intros Hp k Hk. destruct (write_cases id msg k) as [[_ ->]|[_ [-> | ->]]]; [done|..].
  - apply dropped_says. exact Hk.
  - apply (says_event P log0 w (EvSent id msg) (next_sends k)); [done|exact Hk].
Qed.

Lemma broadcast_says `{Encodable} P log0 w msg : P msg -> keeps (says P log0 w) (broadcast msg).
Proof.
  intros Hp. unfold broadcast. apply keeps_when, keeps_bind; [apply keeps_rd|]. intros peers.
  generalize (said_hello peers) as ids. induction ids as [|id ids IH]; cbn [write_all]; [apply keeps_ret|].
  apply keeps_bind; [by apply write_says|]. by intros _.
Qed.

Lemma alarm_says `{Encodable} P log0 w code detail : (forall a, P (MAlarm a)) -> keeps (says P log0 w) (alarm code detail).
Proof. intros Hp. unfold alarm. apply keeps_bind; [by apply keeps_upd|]. intros _. by apply broadcast_says. Qed.

(** What the loop may say of a save of [p] when [w] is what it left. *)
Definition truly_saved `{Json, Sha256} (p : Persisted) (w : World) (msg : EngineMsg) : Prop :=
  match msg with
  | MSaved rev _ => rev = pe_rev p /\ live_spec (w_files w) = Some (p, SCurrent, CURRENT) /\ w_files w !! TMP = None
  | _ => True
  end.

(** Clearing the solos touches nothing else of the state. *)
Lemma clear_solos_s `{Libm} c : c_s (clear_solos c).1 = c_s c.
Proof.
  unfold clear_solos.
  assert (Hf : forall ms (acc : Core * Partial), c_s (foldl clear_solo acc ms).1 = c_s acc.1).
  { induction ms as [|m ms IH]; intros [c1 p1]; [done|]. cbn [foldl]. by rewrite IH. }
  specialize (Hf (sorted_keys (c_solo c)) (c, Partial_default)).
  destruct (foldl clear_solo _ _) as [c' p]. rewrite finish_eq. cbn in *. by case_match.
Qed.

Lemma publish_core `{Libm, Encodable} out origin (P : Core -> Prop) k :
  P (k_core k) -> match publish out origin k with CDone k' _ => P (k_core k') | CCrash _ => True end.
Proof.
  intros Hp. assert (Hg : keeps (on_engine (fun c _ => P c)) (publish out origin)) by (unfold publish, push_pending; keeps_tac).
  exact (Hg k Hp).
Qed.

(** ** Properties *)

(** C8: the RT thread through the control loop: after any turns (messages,
    saves, broadcasts to clients that fail, ticks, whatever room the ring has)
    the core is well-formed and the messages the RT thread took, those in the
    ring and those waiting bring it, in this order and nothing lost, in step
    with the core; once nothing is left in between, it is in step. *)
Theorem control_rt_in_step `{LibmOk} `{Json, Sha256, ClientJson, Encodable} engine_build channels mem0 k turns k' exit :
  core_wf channels (k_core k) -> synced (k_core k) (rt_run mem0 (all_ops (k_queue k))) ->
  run engine_build turns k = CDone k' exit ->
  core_wf channels (k_core k')
  /\ synced (k_core k') (rt_run mem0 (all_ops (k_queue k')))
  /\ (q_ring (k_queue k') = [] -> q_pending (k_queue k') = [] ->
      synced (k_core k') (rt_run mem0 (rc_op <$> q_taken (k_queue k')))).
Proof.
  intros Hwf Hs Hrun.
  assert (Ho : owed channels (c_topo (k_core k)) mem0 [] k) by (split; [done|by rewrite app_nil_r]).
  destruct (leads_done _ _ _ k k' exit (run_spec engine_build channels _ mem0 turns) Ho Hrun) as [[Hwf' _] Hs']. rewrite app_nil_r in Hs'. split_and!; [done|done|].
  intros Hr Hp. revert Hs'. unfold all_ops. by rewrite Hr, Hp, !app_nil_r.
Qed.

Lemma control_rt_in_step_witness :
  exists k exit, demo_run false = CDone k exit /\ synced (k_core k) (rt_run (rt_run mem_init (full_sync demo_core)) (all_ops (k_queue k))).
Proof.
  destruct (demo_run_done false) as (k & exit & Hrun). exists k, exit. split; [exact Hrun|].
  refine (proj1 (proj2 (control_rt_in_step "demo" 8 (rt_run mem_init (full_sync demo_core)) demo_control (demo_turns false) k exit demo_core_wf _ Hrun))).
  exact demo_synced.
Defined.

(** C17: every client is up to date: whatever was asked and by whom, and
    whichever writes fail, each connection that said hello was last told, in a
    state or a delta, the core's own revision, and every delta sent followed
    directly on the revision its receiver had. *)
Theorem clients_up_to_date `{LibmOk} `{Json, Sha256, ClientJson} `{StatesFit} engine_build channels
    core disk counters alarms settings v pops turns k exit :
  core_wf channels core ->
  run engine_build turns (Control_new core disk counters alarms settings v pops) = CDone k exit ->
  (forall id role, p_roles (k_peers k) !! id = Some (Some role) -> told (k_log k) id = Some (c_rev (k_core k)))
  /\ deltas_ok (k_log k).
Proof.
  intros Hwf Hrun.
  destruct (leads_done _ _ _ _ k exit (run_live engine_build channels turns) (new_live _ _ disk counters alarms settings v pops Hwf) Hrun)
    as (_ & _ & [Hd Hu] & _). by split.
Qed.

Lemma clients_up_to_date_witness :
  exists k exit, demo_run false = CDone k exit /\ deltas_ok (k_log k).
Proof.
  destruct (demo_run_done false) as (k & exit & Hrun). exists k, exit. split; [exact Hrun|].
  exact (proj2 (clients_up_to_date "demo" 8 demo_core _ _ _ _ _ _ (demo_turns false) k exit demo_core_wf Hrun)).
Defined.

(** One controller, one supervisor, at most eight connections, whatever was
    said: two connections in a role that only one may have are the same one,
    the one the loop knows. *)
Theorem one_controller `{LibmOk} `{Json, Sha256, ClientJson} `{StatesFit} engine_build channels
    core disk counters alarms settings v pops turns k exit :
  core_wf channels core ->
  run engine_build turns (Control_new core disk counters alarms settings v pops) = CDone k exit ->
  (forall role i j, role = Msg.Control \/ role = Supervisor ->
     p_roles (k_peers k) !! i = Some (Some role) -> p_roles (k_peers k) !! j = Some (Some role) -> i = j)
  /\ (forall i, p_roles (k_peers k) !! i = Some (Some Msg.Control) -> p_controller (k_peers k) = Some i)
  /\ (size (p_roles (k_peers k)) <= MAX_CONNS)%nat.
Proof.
  intros Hwf Hrun.
  destruct (leads_done _ _ _ _ k exit (run_live engine_build channels turns) (new_live _ _ disk counters alarms settings v pops Hwf) Hrun)
    as (_ & _ & _ & [O1 O2 O3]). split_and!; [|done|done].
  intros role i j [-> | ->] Hi Hj; [pose proof (O1 i Hi); pose proof (O1 j Hj)|pose proof (O2 i Hi); pose proof (O2 j Hj)]; congruence.
Qed.

Lemma one_controller_witness :
  exists k exit, demo_run false = CDone k exit /\ (size (p_roles (k_peers k)) <= MAX_CONNS)%nat.
Proof.
  destruct (demo_run_done false) as (k & exit & Hrun). exists k, exit. split; [exact Hrun|].
  exact (proj2 (proj2 (one_controller "demo" 8 demo_core _ _ _ _ _ _ (demo_turns false) k exit demo_core_wf Hrun))).
Defined.

(** C18: only the controller changes the mix: whatever bytes a connection of
    another role sends, the mix state, the solos and the listen slots stay as
    they are; and but for the supervisor's (test signals) nothing of the core
    changes at all. *)
Theorem only_controller_edits `{Libm, Json, Sha256, ClientJson, Encodable} engine_build id bytes k k' :
  p_roles (k_peers k) !! id <> Some (Some Msg.Control) ->
  frame engine_build id bytes k = CDone k' tt ->
  same_mix (k_core k) (k_core k')
  /\ (p_roles (k_peers k) !! id <> Some (Some Supervisor) -> k_core k' = k_core k).
Proof.
  intros Hrole Hf. set (c0 := k_core k). set (sup := p_roles (k_peers k) !! id <> Some (Some Supervisor)) in *.
  set (P := fun c => same_mix c0 c /\ (sup -> c = c0)). change (P (k_core k')).
  assert (Hk : P (k_core k)) by by split.
  enough (Hm : match frame engine_build id bytes k with CDone k1 _ => P (k_core k1) | CCrash _ => True end) by by rewrite Hf in Hm.
  clear Hf k'. unfold frame. rewrite rd_bind. subst sup. destruct (p_roles (k_peers k) !! id) as [role|]; [|exact Hk].
  assert (Hkeep : forall m : CtlM unit, keeps (on_engine (fun c _ => P c)) m -> match m k with CDone k1 _ => P (k_core k1) | CCrash _ => True end).
  { intros m Hm. exact (Hm k Hk). }
  destruct (parse_client bytes) as [[proto role' s|r origin cmd]|[r e]]; [apply Hkeep; keeps_tac| |apply Hkeep; keeps_tac].
  destruct (refusal role cmd) eqn:Href; [apply Hkeep; keeps_tac|]. apply request_core. subst P. cbn.
  destruct role as [[]|]; cbn in Href; try done.
  - destruct (is_read_only cmd) eqn:Hr; [|done]. by rewrite apply_read_only.
  - destruct (supervisor_may cmd) eqn:Hr; [|done]. split; [by apply apply_supervisor_mix|done].
Qed.

Lemma only_controller_edits_witness :
  exists k k', demo_run false = CDone k None /\ frame "demo" 2 [2] k = CDone k' tt /\ k_core k' = k_core k.
Proof.
  destruct (demo_run false) as [k exit|k] eqn:Hrun.
  2: { exfalso. apply (f_equal finished) in Hrun. revert Hrun. by vm_compute. }
  assert (He : exit = None).
  { apply (f_equal (fun out => match out with CDone _ e => e | CCrash _ => None end)) in Hrun. cbn in Hrun. rewrite <-Hrun. by vm_compute. }
  assert (Hr : p_roles (k_peers k) !! 2 = Some (Some Observe)).
  { apply (f_equal (fun out => match out with CDone k1 _ => p_roles (k_peers k1) !! 2 | CCrash _ => None end)) in Hrun.
    cbn in Hrun. rewrite <-Hrun. by vm_compute. }
  destruct (frame "demo" 2 [2] k) as [k' []|k'] eqn:Hf.
  - exists k, k'. rewrite He. split_and!; [done|done|].
    exact (proj2 (only_controller_edits "demo" 2 [2] k k' ltac:(by rewrite Hr) Hf) ltac:(by rewrite Hr)).
  - exfalso. revert Hf. unfold frame. rewrite rd_bind, Hr. cbn. unfold reply, send, mbind, CtlM_bind, rd, when. cbn [encodable demo_encodable].
    match goal with |- write ?i ?m ?s = _ -> _ => destruct (write_cases i m s) as [[_ ->]|[_ [-> | ->]]]; discriminate end.
Defined.

(** C6: "saved" is the truth: when the loop saves (on request, on its schedule
    or before it ends), a client is told [Saved] only of the core's revision,
    and only once the directory's live state, the one the next boot loads, is
    the core's state, in [current.json]; whatever fails, the live state is the
    one from before or the core's. *)
Theorem saved_is_durable `{Json, Sha256, Encodable} k k' :
  let d := w_files (k_disk k) in
  json_ok (persisted k) -> seq_ok d ->
  (forall q src path, live_spec d = Some (q, src, path) -> pe_rev q <= c_rev (k_core k)) ->
  (w_own (k_disk k) = false -> not_tmp (live_spec d)) ->
  Control.save k = CDone k' tt ->
  saved_or_kept (live_spec d) (persisted k) (w_files (k_disk k'))
  /\ exists l, k_log k' = k_log k ++ l
     /\ forall id rev generation, EvSent id (MSaved rev generation) ∈ l ->
          rev = c_rev (k_core k)
          /\ live_spec (w_files (k_disk k')) = Some (persisted k, SCurrent, CURRENT).
Proof.
  intros d Hj Hok Hrev Hown Hs. destruct (encode_decode _ Hj) as (bytes & He & Hd).
  pose proof (save_spec (persisted k) (live_spec d) (w_own (k_disk k)) bytes He Hd) as Hsave.
  specialize (Hsave ltac:(by intros [[q src] path] Hx; apply (Hrev q src path)) Hown (k_disk k) ltac:(done)).
  revert Hs. unfold Control.save. rewrite upd_bind, rd_bind. unfold mbind at 1, CtlM_bind at 1, on_disk.
  change (k_disk (set_sched _ k)) with (k_disk k). change (persisted (set_sched _ k)) with (persisted k).
  destruct (Store.save (persisted k) (k_disk k)) as [w r|w]; [|done]. destruct Hsave as (Hk & Hset & _).
  set (S := fun k2 => says (truly_saved (persisted k) w) (k_log k) w k2 /\ k_core k2 = k_core k).
  assert (Hal : forall code detail, keeps S (alarm code detail)).
  { intros code detail. apply keeps_and; [by apply alarm_says|]. apply (alarm_keeps (fun c _ => c = k_core k)). }
  intros Hrun. enough (S k') as [(-> & l & Hl & Hp) _].
  { split; [done|]. exists l. split; [done|]. intros id rev g Hin. by destruct (Hp _ _ Hin) as (-> & Hlive & _). }
  refine (leads_done S _ (fun _ => S) _ k' tt _ _ Hrun).
  2: { split; [|done]. split; [done|]. exists []. rewrite app_nil_r. split; [done|]. by intros ? ? ?%elem_of_nil. }
  destruct r as [cm|e]; [|apply Hal]. apply keeps_bind; [destruct (cm_orphaned cm); [apply Hal|apply keeps_ret]|]. intros _.
  apply leads_rd_bind. intros k0 [_ Hc]. rewrite Hc. apply (leads_conseq S _ _ (fun _ => S)); [|by intros k2 [_ ?]|done].
  destruct (Hset eq_refl) as [Hcur Htmp]. apply keeps_and; [|apply (broadcast_keeps (fun c _ => c = k_core k))].
  apply broadcast_says. split; [done|]. by split; [apply settled_live|].
Qed.

(** Revision 7 of the demo core, saved over an empty directory. *)
Lemma saved_is_durable_witness :
  let _ := one_json (persisted demo_control) in
  exists k', Control.save demo_control = CDone k' tt
  /\ saved_or_kept (live_spec ∅) (persisted demo_control) (w_files (k_disk k')).
Proof.
  intros J. destruct (Control.save demo_control) as [k' []|k'] eqn:Hs.
  - exists k'. split; [done|]. refine (proj1 (saved_is_durable demo_control k' _ _ _ _ Hs)).
    + apply one_json_ok.
    + intros seq path Hin. exfalso. assert (gens_of (dir_names ∅) = []) as E by by vm_compute.
      change (w_files (k_disk demo_control)) with (∅ : Dir) in Hin. rewrite E in Hin. by apply elem_of_nil in Hin.
    + intros q src path Hl. exfalso. revert Hl. by vm_compute.
    + done.
  - exfalso. apply (f_equal finished) in Hs. revert Hs. by vm_compute.
Defined.

(** The solos outlive their controller by exactly the grace: when it goes
    at one time and nobody takes its place, a tick before the grace is over
    changes nothing of the core, and one after it leaves no solo, with the mix
    state as it was. *)
Theorem solo_grace `{LibmOk} `{Encodable} channels id u k k' :
  core_wf channels (k_core k) -> p_controller (k_peers k) = Some id ->
  (_ ← drop_peer id; _ ← upd (set_clock u); tick_solos) k = CDone k' tt ->
  let over := se_solo_grace (r_settings (k_run k)) <=? since u (v_now (k_env k)) in
  c_s (k_core k') = c_s (k_core k)
  /\ if over then c_solo (k_core k') = ∅ else k_core k' = k_core k /\ p_lost (k_peers k') = Some (v_now (k_env k)).
Proof.
  intros Hwf Hc. rewrite (bind_done _ _ _ _ _ (drop_peer_eq id k)), upd_bind.
  set (k1 := set_clock u (dropped id k)).
  assert (Hp : p_controller (k_peers k1) = None /\ p_lost (k_peers k1) = Some (v_now (k_env k)) /\ k_core k1 = k_core k
    /\ r_settings (k_run k1) = r_settings (k_run k) /\ v_now (k_env k1) = u).
  { subst k1. unfold dropped. rewrite !decide_True by done. by destruct (decide (is_Some _)). }
  clearbody k1. destruct Hp as (Hp1 & Hp2 & Hcore & Hset & Hnow). unfold tick_solos, now. rewrite !rd_bind, Hp1, Hp2, Hset, Hnow.
  destruct (_ <=? _); cbn zeta; cbn [when]; [|intros [= <-]; by rewrite Hcore].
  rewrite upd_bind. unfold mbind, CtlM_bind, on_core. change (k_core (set_controller None None k1)) with (k_core k1).
  rewrite Hcore. destruct (clear_solos_run (k_core k) Hwf) as [_ He]. pose proof (clear_solos_s (k_core k)) as Hcs.
  destruct (clear_solos (k_core k)) as [c r]. cbn in He, Hcs. destruct r as [out|e]; [|by intros [= <-]].
  intros Hpub. pose proof (publish_core out None (fun c' => c' = c) (set_core c (set_controller None None k1)) eq_refl) as Hk.
  rewrite Hpub in Hk. by rewrite Hk.
Qed.

Lemma solo_grace_witness :
  exists k', (_ ← drop_peer 1; _ ← upd (set_clock 10000000020); tick_solos) demo_soloed = CDone k' tt
    /\ c_solo (k_core demo_soloed) <> ∅ /\ c_solo (k_core k') = ∅.
Proof.
  destruct ((_ ← drop_peer 1; _ ← upd (set_clock 10000000020); tick_solos) demo_soloed) as [k' []|k'] eqn:Ht.
  - exists k'. split_and!; [done|intros E; by vm_compute in E|].
    exact (proj2 (solo_grace 8 1 10000000020 demo_soloed k' demo_soloed_wf eq_refl Ht)).
  - exfalso. apply (f_equal finished) in Ht. revert Ht. by vm_compute.
Defined.

(** C31: a run that ends has let go of everything, in order: the backend was
    stopped before anyone was told that the driver is released, no connection
    is left, and each one that was ever sent anything was closed after its
    last message. *)
Theorem exits_release `{Libm, Json, Sha256, ClientJson, Encodable} engine_build
    core disk counters alarms settings v pops turns k exit :
  run engine_build turns (Control_new core disk counters alarms settings v pops) = CDone k (Some exit) ->
  r_driver (k_run k) = false /\ EvDriverStopped ∈ k_log k /\ stop_first (k_log k)
  /\ p_roles (k_peers k) = ∅ /\ forall id, left_open (k_log k) id = false.
Proof.
  intros Hrun.
  destruct (leads_done _ _ _ _ k _ (run_ends engine_build turns) (new_tidy core disk counters alarms settings v pops) Hrun)
    as ([T1 T2 T3] & Hd & Hr).
  split_and!; [done|by apply T3|done|done|]. intros id. apply not_true_iff_false. intros Ho.
  destruct (T1 id Ho) as [x Hx]. by rewrite Hr, lookup_empty in Hx.
Qed.

Lemma exits_release_witness :
  exists k exit, demo_run true = CDone k (Some exit) /\ r_driver (k_run k) = false /\ left_open (k_log k) 1 = false.
Proof.
  destruct (demo_run true) as [k [exit|]|k] eqn:Hrun.
  2-3: exfalso; apply (f_equal (fun out => match out with CDone _ e => bool_decide (is_Some e) | CCrash _ => false end)) in Hrun;
    revert Hrun; by vm_compute.
  exists k, exit. split; [done|]. destruct (exits_release "demo" demo_core _ _ _ _ _ _ (demo_turns true) k exit Hrun) as (Hd & _ & _ & _ & Ho).
  by split.
Defined.

(** The queue to the RT thread stays within its bounds and is emptied by a
    thread that keeps up: after any turns the ring holds at most its size and
    every waiting group fits one block; and if the thread takes the ring before
    each attempt, one flush leaves nothing waiting, so that what the thread
    took and finds in the ring brings it in step with the core. *)
Theorem queue_catches_up `{LibmOk} `{Json, Sha256, ClientJson, Encodable} engine_build channels mem0
    core disk counters alarms settings v pops turns k exit :
  core_wf channels core -> synced core mem0 ->
  run engine_build turns (Control_new core disk counters alarms settings v pops) = CDone k exit ->
  ring_ok (k_queue k)
  /\ (keeps_up (k_queue k) ->
      exists k', flush_rt k = CDone k' tt /\ q_pending (k_queue k') = []
        /\ synced (k_core k') (rt_run mem0 (rc_op <$> (q_taken (k_queue k') ++ q_ring (k_queue k'))))).
Proof.
  intros Hwf Hs Hrun. set (k0 := Control_new core disk counters alarms settings v pops) in *.
  assert (Hb0 : bounded k0) by (split; cbn; [lia|done]). assert (Ho0 : owed channels (c_topo core) mem0 [] k0) by by split.
  pose proof (leads_done _ _ _ k0 k exit (run_bounded engine_build turns) Hb0 Hrun) as [Hr Hg].
  pose proof (leads_done _ _ _ k0 k exit (run_spec engine_build channels _ mem0 turns) Ho0 Hrun) as [[Hwf' _] Hsync].
  rewrite app_nil_r in Hsync. split; [by split|]. intros [Hl Hn]. eexists. split; [reflexivity|].
  assert (Hnil : q_pending (flush_groups (q_pending (k_queue k)) (k_queue k)) = []) by by apply flush_drains.
  split; [exact Hnil|]. cbn [k_core k_queue set_queue]. revert Hsync.
  change (all_ops (k_queue k)) with ((rc_op <$> (q_taken (k_queue k) ++ q_ring (k_queue k))) ++ concat (q_pending (k_queue k))).
  rewrite <-flush_ops. unfold all_ops. by rewrite Hnil, app_nil_r.
Qed.

Lemma queue_catches_up_witness :
  exists k exit, demo_run false = CDone k exit /\ ring_ok (k_queue k).
Proof.
  destruct (demo_run_done false) as (k & exit & Hrun). exists k, exit. split; [exact Hrun|].
  exact (proj1 (queue_catches_up "demo" 8 (rt_run mem_init (full_sync demo_core)) demo_core _ _ _ _ _ _ (demo_turns false) k exit demo_core_wf demo_synced Hrun)).
Defined.

(** The loop only ends for a reason: with no crash in the file operations
    (they may all fail) every run of turns ends, and each tick goes on, or
    ends the run exactly as what it read says: a faulted backend first, then
    the backend's own end, then a shutdown. *)
Theorem control_goes_on `{Libm, Json, Sha256, ClientJson, Encodable} engine_build turns k :
  calm (k_disk k) ->
  (exists k' exit, run engine_build turns k = CDone k' exit)
  /\ forall inp, exists k' exit, tick inp k = CDone k' exit /\ ends_by (tick_end inp k) exit.
Proof.
  intros Hc. split.
  - pose proof (run_going engine_build turns k Hc Logic.I) as Hr. destruct (run _ _ k) as [k' exit|]; [by exists k', exit|done].
  - intros inp. pose proof (tick_goes inp k k Hc eq_refl) as Ht. destruct (tick inp k) as [k' exit|]; [|done].
    exists k', exit. split; [done|]. apply Ht.
Qed.

Lemma control_goes_on_witness : exists k' exit, tick (demo_tick true) demo_control = CDone k' exit /\ exit = Some (ExFault "clock lost").
Proof. exact (proj2 (control_goes_on "demo" [] demo_control (Forall_nil_2 _)) (demo_tick true)). Defined.
