(* ===== verification/MirrorSpec.v ===== *)
(** * The server's copy of the engine follows the core

    [mirror_of mv log id]: a mirror after what the log sent to connection [id],
    in order, and after the closing of the connection.  Over what the loop says
    the mirror never meets a gap, and what it holds is what the core was at the
    revision it was told last. *)

From S2P Require Import Prelude F64 Text MixState Msg Shape Topology TopologyWf Reconciled Rt Core CoreSync CoreCmd CoreApply Disk Codec Store Wire Control Mirror CtlFrame CtlPeers CtlLive CtlTruth ControlSpec.
From stdpp Require Import options.
Local Open Scope Z_scope.
#[local] Unset Default Proof Using.

Definition mirror_hears (id : Z) (mv : Mirror) (ev : Event) : Mirror :=
  match ev with
  | EvSent j msg => if decide (j = id) then (mirror_apply msg mv).1 else mv
  | EvClosed j => if decide (j = id) then mirror_disconnected mv else mv
  | _ => mv
  end.

Definition mirror_of (mv : Mirror) (log : list Event) (id : Z) : Mirror := foldl (mirror_hears id) mv log.

Lemma mirror_of_snoc mv log ev id : mirror_of mv (log ++ [ev]) id = mirror_hears id (mirror_of mv log id) ev.
Proof. unfold mirror_of. by rewrite foldl_app. Qed.

Lemma mirror_changes ch mv :
  foldl mirror_change mv ch
  = let '(s, t) := foldl view_change (mv_state mv, mv_transient mv) ch in
    mkMirror (mv_hello mv) (mv_topology mv) s t (mv_rev mv) (mv_synced mv).
Proof.
  revert mv. induction ch as [|c ch IH]; intros mv; [by destruct mv|]. cbn [foldl]. rewrite IH.
  unfold mirror_change at 1 2 3 4 5 6. by destruct (view_change (mv_state mv, mv_transient mv) c).
Qed.

(** A mirror that was told [rev], or nothing. *)
Definition holds_told (H : Z -> View) (top : Z) (mv : Mirror) (rev : option Z) : Prop :=
  match rev with
  | Some r => mv_synced mv = true /\ mv_rev mv = r /\ 0 <= r <= top /\ same_view (mv_state mv, mv_transient mv) (H r)
  | None => mv_synced mv = false
  end.

(** A delta that follows is taken, and a message the loop sends is never a gap. *)
Lemma delta_held H top mv r rev o ch :
  top <= u64_max -> msg_true H top (MDelta rev o ch) -> rev = u64_wrapping_add r 1 -> holds_told H top mv (Some r) ->
  holds_told H top (mirror_apply (MDelta rev o ch) mv).1 (Some rev)
  /\ (mirror_apply (MDelta rev o ch) mv).2 = Some (MvChanged o ch).
Proof.
  intros Htop [Hr Hd] He (Hs & Hrev & Hb & Hv).
  assert (rev = r + 1) as ->.
  { destruct (decide (r = u64_max)) as [->|Hne]; [|rewrite He; apply u64_wrapping_add_small; lia].
    assert (u64_wrapping_add u64_max 1 = 0) by done. lia. }
  replace (r + 1 - 1) with r in Hd by lia. rewrite <-Hv in Hd.
  cbn [mirror_apply]. rewrite Hs, Hrev. cbn [negb orb].
  rewrite (proj2 (Z.leb_gt (r + 1) r)), Z.eqb_refl by lia. cbn [negb fst snd]. split; [|done].
  rewrite mirror_changes. destruct (foldl view_change (mv_state mv, mv_transient mv) ch) as [s t].
  cbn [holds_told mv_synced mv_rev mv_state mv_transient]. split_and!; [done|done|lia..|done].
Qed.

(** What the mirror makes of an event that agrees with the history. *)
Lemma hears_told H top mv r id ev :
  top <= u64_max -> event_true H top ev ->
  (forall rev o ch, ev = EvSent id (MDelta rev o ch) -> exists r', r = Some r' /\ rev = u64_wrapping_add r' 1) ->
  holds_told H top mv r -> holds_told H top (mirror_hears id mv ev) (told_event id r ev).
Proof.
  intros Htop Hev Hd Hm. destruct ev as [j msg|j| | ]; try done; cbn [mirror_hears told_event];
    [|by case_decide].
  destruct (decide (j = id)) as [->|Hj]; [|by destruct msg].
  destruct msg as [h|rp|t|rev s t|rev o ch| | | | | | ]; try (destruct r as [r|]; exact Hm).
  - destruct Hev as [Hr Hs]. cbn. split_and!; [done|done|lia..|by symmetry].
  - destruct (Hd _ _ _ eq_refl) as (r' & -> & He). by apply (delta_held H top mv r' rev o ch).
Qed.

Lemma deltas_ok_prefix log ev : deltas_ok (log ++ [ev]) -> deltas_ok log.
Proof. intros Hd l1 id rev o ch l2 ->. apply (Hd l1 id rev o ch (l2 ++ [ev])). by rewrite <-app_assoc. Qed.

Lemma mirror_told H top mv log id :
  top <= u64_max -> mv_synced mv = false -> Forall (event_true H top) log -> deltas_ok log ->
  holds_told H top (mirror_of mv log id) (told log id).
Proof.
  intros Htop Hmv. induction log as [|ev log IH] using rev_ind; intros Hl Hd; [done|].
  apply Forall_app in Hl as [Hl He]. inversion_clear He.
  rewrite mirror_of_snoc, told_snoc. apply hears_told; [done|done| |].
  - intros rev o ch ->. by apply (Hd log id rev o ch []).
  - apply IH; [done|]. by eapply deltas_ok_prefix.
Qed.

(** The mirror never has to ask for the state again. *)
Lemma no_resync H top mv log1 log2 id msg :
  top <= u64_max -> mv_synced mv = false -> Forall (event_true H top) (log1 ++ EvSent id msg :: log2) ->
  deltas_ok (log1 ++ EvSent id msg :: log2) -> (mirror_apply msg (mirror_of mv log1 id)).2 <> Some MvResync.
Proof.
  intros Htop Hmv Hl Hd. apply Forall_app in Hl as [Hl1 Hl2]. inversion_clear Hl2 as [|?? Hm _].
  assert (Hd1 : deltas_ok log1).
  { intros l1 id' rev o ch l2 ->. apply (Hd l1 id' rev o ch (l2 ++ EvSent id msg :: log2)). by rewrite <-app_assoc. }
  pose proof (mirror_told H top mv log1 id Htop Hmv Hl1 Hd1) as Ht.
  destruct msg as [h|rp|t|rev s t|rev o ch| | | | | | ]; try done.
  destruct (Hd log1 id rev o ch log2 eq_refl) as (r & Hr & He). rewrite Hr in Ht.
  by rewrite (proj2 (delta_held H top _ r rev o ch Htop Hm He Ht)).
Qed.

(** After a run there is a history that all that was said is true of, and every
    connection that said hello was told its present. *)
Lemma run_history `{LibmOk} `{Json, Sha256, ClientJson} `{StatesFit} engine_build channels
    core disk counters alarms settings v pops turns k exit :
  core_wf channels core -> 0 <= c_rev core -> c_rev core + run_revs turns <= u64_max ->
  run engine_build turns (Control_new core disk counters alarms settings v pops) = CDone k exit ->
  exists Hh, same_view (Hh (c_rev (k_core k))) (view (k_core k)) /\ c_rev (k_core k) <= u64_max
    /\ Forall (event_true Hh (c_rev (k_core k))) (k_log k) /\ deltas_ok (k_log k)
    /\ forall id role, p_roles (k_peers k) !! id = Some (Some role) -> told (k_log k) id = Some (c_rev (k_core k)).
Proof.
  intros Hwf Hr Hb Hrun.
  destruct (leads_done _ _ _ _ k exit (run_live engine_build channels turns) (new_live _ _ disk counters alarms settings v pops Hwf) Hrun)
    as (_ & _ & [Hd Hu] & _).
  destruct (leads_done _ _ _ _ k exit (run_true engine_build channels turns _ Hb)
              (new_honest channels core disk counters alarms settings v pops Hwf Hr) Hrun)
    as (Hh & c & (_ & [Hn _] & Hle) & [Hc Hl]).
  subst c. exists Hh. split_and!; [done|lia|done..].
Qed.

(** A mirror that was told the present. *)
Lemma mirror_present Hh k mv id :
  same_view (Hh (c_rev (k_core k))) (view (k_core k)) -> c_rev (k_core k) <= u64_max -> mv_synced mv = false ->
  Forall (event_true Hh (c_rev (k_core k))) (k_log k) -> deltas_ok (k_log k) -> told (k_log k) id = Some (c_rev (k_core k)) ->
  let mv' := mirror_of mv (k_log k) id in
  mv_synced mv' = true /\ mv_rev mv' = c_rev (k_core k) /\ same_view (mv_state mv', mv_transient mv') (view (k_core k)).
Proof.
  intros Hn Htop Hmv Hl Hd Ht. cbn zeta. pose proof (mirror_told Hh _ mv (k_log k) id Htop Hmv Hl Hd) as Hm.
  rewrite Ht in Hm. destruct Hm as (Hs & Hrev & _ & Hv). split_and!; [done|done|by rewrite Hv].
Qed.

(** C10: the server's mirror follows the engine: after any run that stays within
    the revisions a u64 counts, the mirror of every connection that said hello
    is in step and holds the core's revision, its mix state, its solos (in some
    order), its listen slots and its test signal; and no message on the way made
    a mirror ask for the state again. *)
Theorem mirror_follows `{LibmOk} `{Json, Sha256, ClientJson} `{StatesFit} engine_build channels
    core disk counters alarms settings v pops turns k exit mv :
  core_wf channels core -> 0 <= c_rev core -> c_rev core + run_revs turns <= u64_max -> mv_synced mv = false ->
  run engine_build turns (Control_new core disk counters alarms settings v pops) = CDone k exit ->
  (forall id role, p_roles (k_peers k) !! id = Some (Some role) ->
     let mv' := mirror_of mv (k_log k) id in
     mv_synced mv' = true /\ mv_rev mv' = c_rev (k_core k) /\ same_view (mv_state mv', mv_transient mv') (view (k_core k)))
  /\ (forall id log1 msg log2, k_log k = log1 ++ EvSent id msg :: log2 ->
        (mirror_apply msg (mirror_of mv log1 id)).2 <> Some MvResync).
Proof.
  intros Hwf Hr Hb Hmv Hrun.
  destruct (run_history engine_build channels core disk counters alarms settings v pops turns k exit Hwf Hr Hb Hrun)
    as (Hh & Hn & Htop & Hl & Hd & Hu). split.
  - intros id role Hid. apply (mirror_present Hh); try done. by apply (Hu id role).
  - intros id log1 msg log2 Heq. rewrite Heq in Hl, Hd. by eapply no_resync.
Qed.

Lemma mirror_follows_witness :
  exists k exit, demo_run false = CDone k exit
    /\ forall id role, p_roles (k_peers k) !! id = Some (Some role) ->
         mv_rev (mirror_of Mirror_default (k_log k) id) = c_rev (k_core k).
Proof.
  destruct (demo_run_done false) as (k & exit & Hrun). exists k, exit. split; [exact Hrun|]. intros id role Hid.
  exact (proj1 (proj2 (proj1 (mirror_follows "demo" 8 demo_core _ _ _ _ _ _ (demo_turns false) k exit Mirror_default
    demo_core_wf ltac:(by vm_compute) ltac:(by vm_compute) eq_refl Hrun) id role Hid))).
Defined.
