(* ===== verification/AsyncWire.v ===== *)
(** * The server's end of the pipes ([iem-server/src/engine/wire.rs])

    The same frames read and written by asynchronous code: a read that is
    interrupted is an error here, the rest is the protocol's own reading of
    Frame ([wire_reads_frames]).  Bytes and samples as in Frame. *)

From S2P Require Import Prelude Frame.
From stdpp Require Import options.
Local Open Scope Z_scope.

Inductive WireError :=
| WeIo (k : IoKind)
| WeTooLarge (n : Z)
| WeTooManySamples (n : Z)
| WeClosed
| WeMalformed (e : FrameError).

Definition media_pipe (pipe : string) : string := pipe +:+ ".media".

(** The loop of [read_exact_or_closed]; [eof] is the error of an end of stream
    before the first byte. *)
Fixpoint afill (fuel want : nat) (got : list Z) (eof : WireError) (rd : Reader)
    : option (Reader * result WireError (list Z)) :=
  match fuel with
  | O => None
  | S fuel =>
      let rest := (want - length got)%nat in
      if decide (rest = 0%nat) then Some (rd, Ok got)
      else
        match reader_read rest rd with
        | (rd, Ok []) => Some (rd, Err (match got with [] => eof | _ => WeIo UnexpectedEof end))
        | (rd, Ok bytes) => afill fuel want (got ++ bytes) eof rd
        | (rd, Err k) => Some (rd, Err (WeIo k))
        end
  end.

Definition read_exact_or_closed (want : nat) (rd : Reader) : option (Reader * result WireError (list Z)) :=
  afill (fill_fuel want rd) want [] WeClosed rd.

(** tokio's [read_exact]. *)
Definition async_read_exact (want : nat) (rd : Reader) : option (Reader * result WireError (list Z)) :=
  afill (fill_fuel want rd) want [] (WeIo UnexpectedEof) rd.

Definition wire_read_frame (rd : Reader) : option (Reader * result WireError (list Z)) :=
  match read_exact_or_closed 4 rd with
  | None => None
  | Some (rd, Err e) => Some (rd, Err e)
  | Some (rd, Ok head) =>
      let len := from_le_bytes head in
      if MAX_FRAME <? len then Some (rd, Err (WeTooLarge len)) else async_read_exact (Z.to_nat len) rd
  end.

(** The bytes written whole; [written] and [flushed] are the writer's errors. *)
Definition write_all (bytes : list Z) (written flushed : option IoKind) : result WireError (list Z) :=
  match written, flushed with
  | Some k, _ => Err (WeIo k)
  | None, Some k => Err (WeIo k)
  | None, None => Ok bytes
  end.

Definition write_msg (body : result string (list Z)) (written flushed : option IoKind) : result WireError (list Z) :=
  match write_frame body None None with
  | Err (FrTooLarge n) => Err (WeTooLarge n)
  | Err e => Err (WeMalformed e)
  | Ok out => write_all out written flushed
  end.

Definition read_media_frame (rd : Reader) : option (Reader * result WireError (MediaHeader * list Z)) :=
  match read_exact_or_closed MEDIA_HEADER rd with
  | None => None
  | Some (rd, Err e) => Some (rd, Err e)
  | Some (rd, Ok head) =>
      let channels := default 0 (head !! 6%nat) in
      let frames := from_le_bytes (take 2 (drop 16 head)) in
      let n := channels * frames in
      if MAX_SAMPLES <? n then Some (rd, Err (WeTooManySamples n))
      else
        match async_read_exact (Z.to_nat (4 * n)) rd with
        | None => None
        | Some (rd, Err e) => Some (rd, Err e)
        | Some (rd, Ok body) =>
            match read_media (mkReader (head ++ body) []) with
            | None => None
            | Some (_, Err e) => Some (rd, Err (WeMalformed e))
            | Some (_, Ok x) => Some (rd, Ok x)
            end
        end
  end.

Definition write_media_frame (h : MediaHeader) (samples : list Z) (written flushed : option IoKind) : result WireError (list Z) :=
  match write_media h samples None None with
  | Err k => Err (WeIo k)
  | Ok out => write_all out written flushed
  end.

(** ** Against the protocol's own reading *)

Definition wire_error (e : FrameError) : WireError :=
  match e with FrIo k => WeIo k | FrTooLarge n => WeTooLarge n | FrClosed => WeClosed end.

Definition wire_result {A : Type} (x : Reader * result FrameError A) : Reader * result WireError A :=
  (x.1, match x.2 with Ok a => Ok a | Err e => Err (wire_error e) end).

(** A plan that interrupts no read. *)
Definition uninterrupted (plan : list ReadEvent) : Prop := Forall (fun ev => ev <> RFail Interrupted) plan.

Lemma read_uninterrupted want rd : uninterrupted (rd_plan rd) -> uninterrupted (rd_plan (reader_read want rd).1).
Proof. unfold reader_read. destruct rd as [bytes [|[n|k] plan]]; [done|by intros [_ Hp]%Forall_cons..]. Qed.

Lemma fill_uninterrupted fuel want got eof rd x :
  uninterrupted (rd_plan rd) -> fill fuel want got eof rd = Some x -> uninterrupted (rd_plan x.1).
Proof.
  revert got rd. induction fuel as [|fuel IH]; intros got rd Hp; [done|]. cbn [fill].
  case_decide; [by intros [= <-]|]. pose proof (read_uninterrupted (want - length got) rd Hp) as Hp'.
  destruct (reader_read _ rd) as [rd' [[|b bs]|k]]; cbn [fst] in Hp'; [by intros [= <-]|by apply IH|].
  destruct k; try (by intros [= <-]). by apply IH.
Qed.

Lemma afill_fill fuel want got eof rd :
  uninterrupted (rd_plan rd) -> afill fuel want got (wire_error eof) rd = wire_result <$> fill fuel want got eof rd.
Proof.
  revert got rd. induction fuel as [|fuel IH]; intros got rd Hp; [done|]. cbn [afill fill].
  case_decide; [done|]. pose proof (read_uninterrupted (want - length got) rd Hp) as Hp'.
  destruct (reader_read _ rd) as [rd' [[|b bs]|k]] eqn:Hr; cbn [fst] in Hp'.
  - by destruct got.
  - by apply IH.
  - assert (Hk : k <> Interrupted).
    { destruct rd as [bytes [|[n|k'] plan]]; [done..|]. cbn in Hr. injection Hr as _ ->.
      apply Forall_cons in Hp as [Hne _]. congruence. }
    by destruct k.
Qed.

Lemma read_closed_head want rd :
  uninterrupted (rd_plan rd) -> read_exact_or_closed want rd = wire_result <$> read_head want rd.
Proof. apply (afill_fill _ _ _ FrClosed). Qed.

Lemma async_exact want rd : uninterrupted (rd_plan rd) -> async_read_exact want rd = wire_result <$> read_exact want rd.
Proof. apply (afill_fill _ _ _ (FrIo UnexpectedEof)). Qed.

(** Every reading ends. *)
Lemma afill_total fuel want got eof rd :
  (want - length got + length (rd_plan rd) < fuel)%nat -> is_Some (afill fuel want got eof rd).
Proof.
  revert got rd. induction fuel as [|fuel IH]; intros got rd Hf; [lia|]. cbn [afill].
  case_decide as Hz; [by eexists|]. destruct (reader_read _ rd) as [rd' [[|b bs]|k]] eqn:Hr; [by eexists| |by eexists].
  apply IH. rewrite length_app. cbn [length]. enough (length (rd_plan rd') <= length (rd_plan rd))%nat by lia.
  destruct rd as [bytes [|[n|k] plan]]; cbn in Hr; injection Hr as <- _; cbn; lia.
Qed.

(** What the header of a media frame says. *)
Definition parse_head (head : list Z) : result FrameError MediaHeader :=
  if negb (bool_decide (take 4 head = MAGIC)) then Err (FrIo InvalidData)
  else if negb (bool_decide (head !! 4%nat = Some MEDIA_VERSION)) then Err (FrIo InvalidData)
  else
    let h := mkMediaHeader (default 0 (head !! 5%nat)) (default 0 (head !! 6%nat)) (from_le_bytes (take 8 (drop 8 head)))
               (from_le_bytes (take 2 (drop 16 head))) in
    if MAX_SAMPLES <? media_samples h then Err (FrTooLarge (media_samples h)) else Ok h.

Lemma read_media_head rd rd1 head :
  read_head MEDIA_HEADER rd = Some (rd1, Ok head) -> length head = MEDIA_HEADER ->
  read_media rd =
  match parse_head head with
  | Err e => Some (rd1, Err e)
  | Ok h =>
      match read_exact (Z.to_nat (4 * media_samples h)) rd1 with
      | None => None
      | Some (rd, Err e) => Some (rd, Err e)
      | Some (rd, Ok bytes) => Some (rd, Ok (h, from_le_bytes <$> chunks4 bytes))
      end
  end.
Proof.
  intros Hr Hl. unfold read_media, parse_head. rewrite Hr. unfold MEDIA_HEADER in Hl.
  do 20 (destruct head as [|? head]; [done|]). destruct head; [|done].
  change (take 4 (drop 4 _)) with [z3; z4; z5; z6]. cbn [lookup list_lookup default].
  case_bool_decide; cbn [negb]; [|done]. destruct (Z.eqb_spec z3 MEDIA_VERSION) as [->|Hv]; cbn [negb].
  - rewrite bool_decide_eq_true_2 by done. cbn [negb]. change (id z4) with z4. change (id z5) with z5. by case_match.
  - by rewrite bool_decide_eq_false_2 by congruence.
Qed.

Lemma reader_read_length want rd rd' bytes : reader_read want rd = (rd', Ok bytes) -> (length bytes <= want)%nat.
Proof.
  unfold reader_read. destruct rd as [all [|[n|k] plan]]; cbn [rd_plan rd_bytes]; cbv zeta; [| |done]; intros Hr; simplify_eq;
    rewrite length_take; destruct want; lia.
Qed.

(** A filled buffer has the size asked for. *)
Lemma fill_length fuel want got eof rd rd' bytes :
  (length got <= want)%nat -> fill fuel want got eof rd = Some (rd', Ok bytes) -> length bytes = want.
Proof.
  revert got rd. induction fuel as [|fuel IH]; intros got rd Hl; [done|]. cbn [fill].
  case_decide; [intros [= _ <-]; lia|].
  destruct (reader_read _ rd) as [rd1 [[|b bs]|k]] eqn:Hr; [done| |destruct k; try done; by apply IH].
  apply IH. rewrite length_app. enough (length (b :: bs) <= want - length got)%nat by lia.
  by apply (reader_read_length _ rd rd1).
Qed.

Lemma head_length rd rd1 head : read_head MEDIA_HEADER rd = Some (rd1, Ok head) -> length head = MEDIA_HEADER.
Proof. apply fill_length. cbn. lia. Qed.

(** A buffer with a header and the samples it announces, read again. *)
Lemma read_media_buffer head body :
  length head = MEDIA_HEADER ->
  (forall h, parse_head head = Ok h -> length body = Z.to_nat (4 * media_samples h)) ->
  exists rd, read_media (mkReader (head ++ body) []) =
    Some (rd, match parse_head head with Err e => Err e | Ok h => Ok (h, from_le_bytes <$> chunks4 body) end).
Proof.
  intros Hl Hb.
  destruct (read_head_ok MEDIA_HEADER (mkReader (head ++ body) [])) as (rd1 & Hp & [(_ & Hr & Hb1)|(Hlt & _)]); [constructor| |].
  2: { cbn [rd_bytes] in Hlt. rewrite length_app in Hlt. lia. }
  cbn [rd_bytes] in *. rewrite take_app_length' in Hr by done. rewrite drop_app_length' in Hb1 by done.
  rewrite (read_media_head _ rd1 head Hr Hl). destruct (parse_head head) as [h|e]; [|by eexists].
  rewrite <-(Hb h eq_refl).
  destruct (read_exact_ok (length body) rd1 Hp) as (rd2 & _ & [(_ & -> & _)|(Hlt & _)]); [|rewrite Hb1 in Hlt; lia].
  exists rd2. by rewrite Hb1, firstn_all.
Qed.

Lemma parse_head_samples head h :
  parse_head head = Ok h ->
  media_samples h = default 0 (head !! 6%nat) * from_le_bytes (take 2 (drop 16 head)) /\ media_samples h <= MAX_SAMPLES.
Proof.
  unfold parse_head. repeat case_match; try done. intros [= <-].
  match goal with Hm : (_ <? _) = false |- _ => apply Z.ltb_ge in Hm; split; [unfold media_samples; cbn; lia|exact Hm] end.
Qed.

(** ** Properties *)

(** The server reads the pipes as the protocol defines them: on any stream
    cut up in any way, unless a read is interrupted, it reads the control frame
    the engine's library reads, or fails with the same error, and it accepts
    exactly the media frames that library accepts. *)
Theorem wire_reads_frames rd :
  uninterrupted (rd_plan rd) ->
  wire_read_frame rd = wire_result <$> read_frame rd
  /\ forall rd' x, read_media_frame rd = Some (rd', Ok x) <-> read_media rd = Some (rd', Ok x).
Proof.
  intros Hp. split.
  - unfold wire_read_frame, read_frame. rewrite read_closed_head by done.
    destruct (read_head 4 rd) as [[rd1 [head|e]]|] eqn:Hh; [|done..]. cbn [fmap option_fmap option_map wire_result fst snd].
    destruct (MAX_FRAME <? _); [done|]. apply async_exact. by apply (fill_uninterrupted _ _ _ _ _ _ Hp Hh).
  - intros rd' x. unfold read_media_frame. rewrite read_closed_head by done.
    destruct (read_head MEDIA_HEADER rd) as [[rd1 [head|e]]|] eqn:Hh; cbn [fmap option_fmap option_map wire_result fst snd].
    + pose proof (head_length _ _ _ Hh) as Hl. pose proof (fill_uninterrupted _ _ _ _ _ _ Hp Hh) as Hp1. cbn [fst] in Hp1.
      rewrite (read_media_head rd rd1 head Hh Hl).
      set (n := default 0 (head !! 6%nat) * from_le_bytes (take 2 (drop 16 head))).
      assert (Hn : forall h, parse_head head = Ok h -> media_samples h = n /\ n <= MAX_SAMPLES).
      { intros h Hh'. destruct (parse_head_samples head h Hh') as [He ?]. split; [done|]. unfold n. lia. }
      destruct (Z.ltb_spec MAX_SAMPLES n) as [Hbig|Hsmall].
      { destruct (parse_head head) as [h|e]; [|split; intros [=]]. destruct (Hn h eq_refl). lia. }
      rewrite async_exact by done. destruct (read_exact (Z.to_nat (4 * n)) rd1) as [[rd2 [body|e]]|] eqn:Hb;
        cbn [fmap option_fmap option_map wire_result fst snd].
      * assert (Hlb : length body = Z.to_nat (4 * n)) by (revert Hb; apply fill_length; cbn; lia).
        destruct (read_media_buffer head body Hl) as (rd3 & ->).
        { intros h Hh'. by destruct (Hn h Hh') as [-> _]. }
        destruct (parse_head head) as [h|e]; [|split; intros [=]]. destruct (Hn h eq_refl) as [-> _]. rewrite Hb. split; intros; by simplify_eq.
      * destruct (parse_head head) as [h|e']; [|split; intros [=]]. destruct (Hn h eq_refl) as [-> _]. rewrite Hb. split; intros [=].
      * destruct (parse_head head) as [h|e']; [|split; intros [=]]. destruct (Hn h eq_refl) as [-> _]. rewrite Hb. split; intros; by simplify_eq.
    + unfold read_media. rewrite Hh. split; by intros [= _ ?].
    + unfold read_media. by rewrite Hh.
Qed.

Lemma wire_reads_frames_witness :
  let rd := mkReader [3; 0; 0; 0; 1; 2; 3; 9] [RChunk 1; RChunk 0; RChunk 5; RFail WouldBlock] in
  wire_read_frame rd = Some (mkReader [1; 2; 3; 9] [], Err (WeIo WouldBlock))
  /\ wire_read_frame (mkReader (rd_bytes rd) [RChunk 1]) = Some (mkReader [9] [], Ok [1; 2; 3]).
Proof.
  cbn zeta. split.
  - rewrite (proj1 (wire_reads_frames (mkReader [3; 0; 0; 0; 1; 2; 3; 9] [RChunk 1; RChunk 0; RChunk 5; RFail WouldBlock])
      ltac:(by repeat constructor))). by vm_compute.
  - by vm_compute.
Defined.
