(* ===== verification/Client.v ===== *)
(** * The engine client ([iem-server/src/engine/client.rs])

    The server's one connection to the engine: a task connects, says hello and
    feeds every message into the mirror; any number of callers send requests,
    each with an id and a slot its reply is put in; a dropped connection is torn
    down and tried again.  [client_step] is one step between two lock or channel
    operations of the task, of a caller or of the writer; a list of
    [ClientStep]s is an interleaving of them.  Durations are milliseconds. *)

From S2P Require Import Prelude Text MixState Msg Wire Frame AsyncWire Mirror.
From stdpp Require Import options.
Local Open Scope Z_scope.
#[local] Unset Default Proof Using.

Definition REQUEST_TIMEOUT : Z := 2000.
Definition APPLY_TIMEOUT : Z := 1000.
Definition BACKOFF_MIN : Z := 250.
Definition BACKOFF_MAX : Z := 2000.
Definition SUPERSEDED_WAIT : Z := 5000.

(** What the server's views are told. *)
Inductive EngineEvent :=
| EeConnected
| EeDisconnected
| EeReset
| EeChanged (origin : option Z) (changes : list Change)
| EeMeters (m : Meters)
| EeStatus (s : Status)
| EeAlarm (a : Alarm).

Inductive EngineError := ErDisconnected | ErRefused (body : ErrorBody) | ErTimeout.

(** Why a connection ended. *)
Inductive End := Dropped | EndSuperseded.

(** What the receiver of a request's channel sees: nothing yet, the reply, or
    that the sender is gone. *)
Inductive Slot := Waiting | Answered (r : result ErrorBody Z) | Gone.

(** Where a caller is: in [send], with the id taken, or the slot in [pending];
    in [reply]; in [applied], with the revision it waits for; done. *)
Inductive CallPhase :=
| Taken
| Inserted
| Replying
| Applying (rev : Z)
| Done (r : result EngineError Z).

Record Call := mkCall {
  ca_cmd : Cmd;
  ca_origin : option Z;
  ca_applied : bool;
  ca_phase : CallPhase;
  ca_slot : Slot;
}.

(** Where the task is.  [teardown] takes four locks. *)
Inductive Task :=
| Connecting
| Reading
| Tearing (n : nat) (end_ : option End)
| Sleeping (wait : Z).

(** What is seen of the client: its events, its frames on the pipe, and the
    callers' results. *)
Inductive Output :=
| OuEvent (e : EngineEvent)
| OuFrame (bytes : list Z)
| OuResult (id : Z) (r : result EngineError Z)
| OuRefused.

Record Client := mkClient {
  cl_name : string;
  cl_mirror : Mirror;
  cl_out : bool;
  cl_queue : option (list (list Z));
  cl_pending : gset Z;
  cl_next : Z;
  cl_connected : bool;
  cl_rev : Z;
  cl_task : Task;
  cl_backoff : Z;
  cl_calls : gmap Z Call;
  cl_log : list Output;
}.

Definition next_backoff (current : Z) : Z := Z.min (current * 2) BACKOFF_MAX.

Definition Client_build (build : string) : Client :=
  mkClient ("iem-server " +:+ build) Mirror_default false None ∅ 1 false 0 Connecting BACKOFF_MIN ∅ [].

(** serde_json both ways. *)
Class EngineJson := engine_of_json : list Z -> result string EngineMsg.
Class ClientFrames := client_to_json : ClientMsg -> result string (list Z).

Section client.
Context `{EngineJson, ClientFrames}.

Definition encode (msg : ClientMsg) : option (list Z) :=
  match write_frame (client_to_json msg) None None with Ok out => Some out | Err _ => None end.

(** *** The parts of the state *)

Definition cl_set_mirror (mv : Mirror) (c : Client) : Client :=
  mkClient (cl_name c) mv (cl_out c) (cl_queue c) (cl_pending c) (cl_next c) (cl_connected c) (cl_rev c) (cl_task c)
    (cl_backoff c) (cl_calls c) (cl_log c).
Definition cl_set_out (out : bool) (queue : option (list (list Z))) (c : Client) : Client :=
  mkClient (cl_name c) (cl_mirror c) out queue (cl_pending c) (cl_next c) (cl_connected c) (cl_rev c) (cl_task c)
    (cl_backoff c) (cl_calls c) (cl_log c).
Definition cl_set_pending (p : gset Z) (c : Client) : Client :=
  mkClient (cl_name c) (cl_mirror c) (cl_out c) (cl_queue c) p (cl_next c) (cl_connected c) (cl_rev c) (cl_task c)
    (cl_backoff c) (cl_calls c) (cl_log c).
Definition cl_set_next (n : Z) (c : Client) : Client :=
  mkClient (cl_name c) (cl_mirror c) (cl_out c) (cl_queue c) (cl_pending c) n (cl_connected c) (cl_rev c) (cl_task c)
    (cl_backoff c) (cl_calls c) (cl_log c).
Definition cl_set_connected (b : bool) (c : Client) : Client :=
  mkClient (cl_name c) (cl_mirror c) (cl_out c) (cl_queue c) (cl_pending c) (cl_next c) b (cl_rev c) (cl_task c)
    (cl_backoff c) (cl_calls c) (cl_log c).
Definition cl_set_rev (rev : Z) (c : Client) : Client :=
  mkClient (cl_name c) (cl_mirror c) (cl_out c) (cl_queue c) (cl_pending c) (cl_next c) (cl_connected c) rev (cl_task c)
    (cl_backoff c) (cl_calls c) (cl_log c).
Definition cl_set_task (t : Task) (backoff : Z) (c : Client) : Client :=
  mkClient (cl_name c) (cl_mirror c) (cl_out c) (cl_queue c) (cl_pending c) (cl_next c) (cl_connected c) (cl_rev c) t
    backoff (cl_calls c) (cl_log c).
Definition cl_set_calls (m : gmap Z Call) (c : Client) : Client :=
  mkClient (cl_name c) (cl_mirror c) (cl_out c) (cl_queue c) (cl_pending c) (cl_next c) (cl_connected c) (cl_rev c) (cl_task c)
    (cl_backoff c) m (cl_log c).
Definition cl_say (o : Output) (c : Client) : Client :=
  mkClient (cl_name c) (cl_mirror c) (cl_out c) (cl_queue c) (cl_pending c) (cl_next c) (cl_connected c) (cl_rev c) (cl_task c)
    (cl_backoff c) (cl_calls c) (cl_log c ++ [o]).

Definition ca_set_phase (p : CallPhase) (ca : Call) : Call := mkCall (ca_cmd ca) (ca_origin ca) (ca_applied ca) p (ca_slot ca).
Definition ca_set_slot (s : Slot) (ca : Call) : Call := mkCall (ca_cmd ca) (ca_origin ca) (ca_applied ca) (ca_phase ca) s.

Definition ce_emit (e : EngineEvent) : Client -> Client := cl_say (OuEvent e).

(** Onto the channel: lost when the writer is gone. *)
Definition to_writer (bytes : list Z) (c : Client) : Client :=
  cl_set_out (cl_out c) ((fun q => q ++ [bytes]) <$> cl_queue c) c.

(** The sender of each of [ids] is dropped. *)
Definition drop_senders (ids : gset Z) (m : gmap Z Call) : gmap Z Call :=
  map_imap (fun id ca => Some (if decide (id ∈ ids) then ca_set_slot Gone ca else ca)) m.

(** *** Callers *)

(** The caller's result, for its channel is used up. *)
Definition finish (id : Z) (r : result EngineError Z) (ca : Call) (c : Client) : Client :=
  cl_say (OuResult id r) (cl_set_calls (<[id := ca_set_phase (Done r) ca]> (cl_calls c)) c).

Definition send_start (cmd : Cmd) (origin : option Z) (applied : bool) (c : Client) : Client :=
  if negb (cl_connected c) then cl_say OuRefused c
  else
    cl_set_calls (<[cl_next c := mkCall cmd origin applied Taken Waiting]> (cl_calls c))
      (cl_set_next (u64_wrapping_add (cl_next c) 1) c).

Definition send_insert (id : Z) (ca : Call) (c : Client) : Client :=
  cl_set_pending ({[id]} ∪ cl_pending c) (cl_set_calls (<[id := ca_set_phase Inserted ca]> (cl_calls c)) c).

Definition send_queue (id : Z) (ca : Call) (c : Client) : Client :=
  match encode (CRequest id (ca_origin ca) (ca_cmd ca)), cl_out c, cl_queue c with
  | Some bytes, true, Some _ =>
      to_writer bytes (cl_set_calls (<[id := ca_set_phase Replying ca]> (cl_calls c)) c)
  | _, _, _ => finish id (Err ErDisconnected) ca (cl_set_pending (cl_pending c ∖ {[id]}) c)
  end.

(** [reply] with its channel's receiver ready. *)
Definition reply_ready (id : Z) (ca : Call) (c : Client) : option Client :=
  match ca_slot ca with
  | Waiting => None
  | Answered (Ok rev) =>
      Some (if ca_applied ca then cl_set_calls (<[id := ca_set_phase (Applying rev) ca]> (cl_calls c)) c
            else finish id (Ok rev) ca c)
  | Answered (Err body) => Some (finish id (Err (ErRefused body)) ca c)
  | Gone => Some (finish id (Err ErDisconnected) ca c)
  end.

Definition reply_timeout (id : Z) (ca : Call) (c : Client) : option Client :=
  match ca_slot ca with
  | Waiting => Some (finish id (Err ErTimeout) ca (cl_set_pending (cl_pending c ∖ {[id]}) c))
  | _ => None
  end.

(** *** The task *)

Definition connection_start (c : Client) : Client :=
  let queue := match encode (CHello PROTO Control (cl_name c)) with Some bytes => [bytes] | None => [] end in
  cl_set_task Reading (cl_backoff c) (cl_set_out true (Some queue) c).

Definition connection_end (e : End) (c : Client) : Client :=
  cl_set_task (Tearing 4 (Some e)) (if cl_connected c then BACKOFF_MIN else cl_backoff c) c.

Definition teardown_step (n : nat) (c : Client) : Client :=
  match n with
  | 4 => cl_set_out false (cl_queue c) c
  | 3 => cl_set_pending ∅ (cl_set_calls (drop_senders (cl_pending c) (cl_calls c)) c)
  | 2 => cl_set_mirror (mirror_disconnected (cl_mirror c)) c
  | _ => if cl_connected c then ce_emit EeDisconnected (cl_set_connected false c) else c
  end%nat.

Definition go_to_sleep (end_ : option End) (c : Client) : Client :=
  let wait := match end_ with Some EndSuperseded => SUPERSEDED_WAIT | _ => cl_backoff c end in
  cl_set_task (Sleeping wait) (next_backoff (cl_backoff c)) c.

(** A reply goes to the request of its id, if one waits. *)
Definition handle_reply (rp : Reply) (c : Client) : Client :=
  if decide (rp_id rp ∈ cl_pending c) then
    let answer := match rp_error rp with None => Ok (rp_rev rp) | Some e => Err e end in
    cl_set_pending (cl_pending c ∖ {[rp_id rp]}) (cl_set_calls (alter (ca_set_slot (Answered answer)) (rp_id rp) (cl_calls c)) c)
  else c.

(** The messages of the mirror. *)
Definition handle_mirror (msg : EngineMsg) (c : Client) : Client :=
  let '(mv, event) := mirror_apply msg (cl_mirror c) in
  let c := cl_set_rev (mv_rev mv) (cl_set_mirror mv c) in
  match event with
  | Some MvReset =>
      ce_emit EeReset (if cl_connected c then c else ce_emit EeConnected (cl_set_connected true c))
  | Some (MvChanged origin changes) => ce_emit (EeChanged origin changes) c
  | Some MvResync =>
      let id := cl_next c in
      let c := cl_set_next (u64_wrapping_add id 1) c in
      match encode (CRequest id None GetState) with
      | Some bytes => if cl_out c then to_writer bytes c else c
      | None => c
      end
  | Some MvTopology | None => c
  end.

Definition client_handle (msg : EngineMsg) (c : Client) : Client * option End :=
  match msg with
  | MReply rp => (handle_reply rp c, None)
  | MMeters m => (ce_emit (EeMeters m) c, None)
  | MStatus s => (ce_emit (EeStatus s) c, None)
  | MAlarm a => (ce_emit (EeAlarm a) c, None)
  | MSuperseded => (c, Some EndSuperseded)
  | MDriverReleased _ => (c, None)
  | MSaved _ _ => (c, None)
  | other => (handle_mirror other c, None)
  end.

(** One turn of the connection's loop. *)
Definition connection_turn (read : result WireError (list Z)) (c : Client) : Client :=
  match read with
  | Err _ => connection_end Dropped c
  | Ok body =>
      match engine_of_json body with
      | Err _ => c
      | Ok msg => match client_handle msg c with (c, None) => c | (c, Some e) => connection_end e c end
      end
  end.

(** *** Interleavings *)

Inductive ClientStep :=
| CsSend (cmd : Cmd) (origin : option Z) (applied : bool)
| CsInsert (id : Z)
| CsQueue (id : Z)
| CsReply (id : Z)
| CsTimeout (id : Z)
| CsApplied (id : Z)
| CsApplyTimeout (id : Z)
| CsWrite
| CsWriterGone
| CsConnect (ok : bool)
| CsRead (read : result WireError (list Z))
| CsTear
| CsWake.

(** [None]: not a step from here. *)
Definition client_step (s : ClientStep) (c : Client) : option Client :=
  match s with
  | CsSend cmd origin applied => Some (send_start cmd origin applied c)
  | CsInsert id =>
      ca ← cl_calls c !! id; match ca_phase ca with Taken => Some (send_insert id ca c) | _ => None end
  | CsQueue id =>
      ca ← cl_calls c !! id; match ca_phase ca with Inserted => Some (send_queue id ca c) | _ => None end
  | CsReply id =>
      ca ← cl_calls c !! id; match ca_phase ca with Replying => reply_ready id ca c | _ => None end
  | CsTimeout id =>
      ca ← cl_calls c !! id; match ca_phase ca with Replying => reply_timeout id ca c | _ => None end
  | CsApplied id =>
      ca ← cl_calls c !! id;
      match ca_phase ca with Applying rev => if rev <=? cl_rev c then Some (finish id (Ok rev) ca c) else None | _ => None end
  | CsApplyTimeout id =>
      ca ← cl_calls c !! id;
      match ca_phase ca with Applying rev => if rev <=? cl_rev c then None else Some (finish id (Err ErTimeout) ca c) | _ => None end
  | CsWrite =>
      match cl_queue c with
      | Some (bytes :: queue) => Some (cl_say (OuFrame bytes) (cl_set_out (cl_out c) (Some queue) c))
      | _ => None
      end
  | CsWriterGone => match cl_queue c with Some _ => Some (cl_set_out (cl_out c) None c) | None => None end
  | CsConnect ok =>
      match cl_task c with
      | Connecting => Some (if ok then connection_start c else cl_set_task (Tearing 4 None) (cl_backoff c) c)
      | _ => None
      end
  | CsRead read => match cl_task c with Reading => Some (connection_turn read c) | _ => None end
  | CsTear =>
      match cl_task c with
      | Tearing (S n) e => Some (cl_set_task (Tearing n e) (cl_backoff c) (teardown_step (S n) c))
      | Tearing O e => Some (go_to_sleep e c)
      | _ => None
      end
  | CsWake => match cl_task c with Sleeping _ => Some (cl_set_task Connecting (cl_backoff c) c) | _ => None end
  end.

Definition client_run (steps : list ClientStep) (c : Client) : option Client :=
  foldl (fun c s => c ≫= client_step s) (Some c) steps.
End client.
