(* ===== verification/ClientSpec.v ===== *)
(** * What the engine client promises

    After any interleaving of the task, the callers and the writer: a caller's
    success or refusal is the engine's reply to its own request, each caller
    has one result, and nobody waits on a connection that is gone. *)

From S2P Require Import Prelude Text MixState Msg Wire Frame AsyncWire Mirror Client.
From stdpp Require Import options.
Local Open Scope Z_scope.
#[local] Unset Default Proof Using.

Section client.
Context `{EngineJson, ClientFrames}.

(** ** The callers *)

Definition answer_of (rp : Reply) : result ErrorBody Z :=
  match rp_error rp with None => Ok (rp_rev rp) | Some e => Err e end.

(** Among [steps], the slot of [id] was put in [pending], and later a reply to
    [id] was read, with answer [a]. *)
Definition answered_by (steps : list ClientStep) (id : Z) (a : result ErrorBody Z) : Prop :=
  exists s1 s2 s3 body rp, steps = s1 ++ CsInsert id :: s2 ++ CsRead (Ok body) :: s3
    /\ engine_of_json body = Ok (MReply rp) /\ rp_id rp = id /\ answer_of rp = a.

(** What a caller may have been told. *)
Definition result_ok (steps : list ClientStep) (id : Z) (r : result EngineError Z) : Prop :=
  match r with
  | Ok rev => answered_by steps id (Ok rev)
  | Err (ErRefused body) => answered_by steps id (Err body)
  | Err _ => True
  end.

(** A connection whose callers have not been given up. *)
Definition live_task (t : Task) : Prop :=
  match t with Reading => True | Tearing n _ => (3 <= n)%nat | _ => False end.

Record call_ok (steps : list ClientStep) (pending : gset Z) (t : Task) (id : Z) (ca : Call) : Prop := {
  ca_ok_phase :
    match ca_phase ca with
    | Taken => ca_slot ca = Waiting
    | Inserted => CsInsert id ∈ steps /\ (ca_slot ca = Waiting -> id ∈ pending)
    | Replying => CsInsert id ∈ steps /\ (ca_slot ca = Waiting -> id ∈ pending /\ live_task t)
    | Applying rev => answered_by steps id (Ok rev)
    | Done r => result_ok steps id r
    end;
  ca_ok_slot : forall a, ca_slot ca = Answered a -> answered_by steps id a;
  ca_ok_pending : id ∈ pending -> ca_slot ca = Waiting /\ (ca_phase ca = Inserted \/ ca_phase ca = Replying);
}.

Definition results (log : list Output) : list (Z * result EngineError Z) :=
  omap (fun o => match o with OuResult id r => Some (id, r) | _ => None end) log.

Record calls_ok (steps : list ClientStep) (c : Client) : Prop := {
  ok_next : 1 <= cl_next c <= 1 + Z.of_nat (length steps);
  ok_calls : forall id ca, cl_calls c !! id = Some ca -> id < cl_next c /\ call_ok steps (cl_pending c) (cl_task c) id ca;
  ok_pending : forall id, id ∈ cl_pending c -> is_Some (cl_calls c !! id);
  ok_results : forall id r, (id, r) ∈ results (cl_log c) -> exists ca, cl_calls c !! id = Some ca /\ ca_phase ca = Done r;
  ok_once : NoDup (results (cl_log c)).*1;
}.

Lemma answered_snoc steps s id a : answered_by steps id a -> answered_by (steps ++ [s]) id a.
Proof.
  intros (s1 & s2 & s3 & body & rp & -> & Hb & Hi & Ha). exists s1, s2, (s3 ++ [s]), body, rp. split_and!; [|done..].
  by rewrite <-!app_assoc, <-!app_comm_cons, <-!app_assoc.
Qed.

Lemma answered_now steps id body rp :
  CsInsert id ∈ steps -> engine_of_json body = Ok (MReply rp) -> rp_id rp = id ->
  answered_by (steps ++ [CsRead (Ok body)]) id (answer_of rp).
Proof.
  intros (s1 & s2 & ->)%list_elem_of_split Hb Hi. exists s1, s2, [], body, rp. split_and!; [|done..]. by rewrite <-app_assoc.
Qed.

Lemma result_snoc steps s id r : result_ok steps id r -> result_ok (steps ++ [s]) id r.
Proof. destruct r as [rev|[]]; cbn; auto using answered_snoc. Qed.

Lemma call_ok_snoc steps s p t t' id ca : (live_task t -> live_task t') -> call_ok steps p t id ca -> call_ok (steps ++ [s]) p t' id ca.
Proof.
  intros Ht [Hp Hs Hw]. split; [|auto using answered_snoc|done].
  destruct (ca_phase ca); [done| | |by apply answered_snoc|by apply result_snoc].
  { destruct Hp as [Hi Hl]. split; [by apply elem_of_app; left|done]. }
  destruct Hp as [Hi Hl]. split; [by apply elem_of_app; left|]. intros He. destruct (Hl He). auto.
Qed.

Lemma results_app log o : results (log ++ [o]) = results log ++ match o with OuResult id r => [(id, r)] | _ => [] end.
Proof. unfold results. rewrite omap_app. by destruct o. Qed.

(** A step that leaves the callers alone. *)
Lemma calls_same steps s c c' :
  calls_ok steps c -> cl_calls c' = cl_calls c -> cl_pending c' = cl_pending c ->
  cl_next c <= cl_next c' <= cl_next c + 1 -> results (cl_log c') = results (cl_log c) ->
  (live_task (cl_task c) -> live_task (cl_task c')) -> calls_ok (steps ++ [s]) c'.
Proof.
  intros [Hn Hc Hp Hr Ho] Ec Ep En El Ht. split; rewrite ?Ec, ?Ep, ?El; try done.
  - rewrite length_app. cbn. lia.
  - intros id ca Hi. destruct (Hc id ca Hi) as [Hlt Hok]. split; [lia|]. by eapply call_ok_snoc.
Qed.

(** A step that changes one caller, or adds one, whose result may be given. *)
Lemma calls_one steps s c c' id ca' :
  calls_ok steps c -> cl_calls c' = <[id := ca']> (cl_calls c) -> (forall j, j <> id -> j ∈ cl_pending c' <-> j ∈ cl_pending c) ->
  cl_next c <= cl_next c' <= cl_next c + 1 -> id < cl_next c' -> cl_task c' = cl_task c ->
  (forall ca r, cl_calls c !! id = Some ca -> ca_phase ca <> Done r) ->
  (results (cl_log c') = results (cl_log c) \/ exists r, results (cl_log c') = results (cl_log c) ++ [(id, r)] /\ ca_phase ca' = Done r) ->
  call_ok (steps ++ [s]) (cl_pending c') (cl_task c) id ca' -> calls_ok (steps ++ [s]) c'.
Proof.
  intros [Hn Hc Hp Hr Ho] Ec Ep En Hid Et Hnd El Hca.
  assert (Hnew : forall r, (id, r) ∉ results (cl_log c)).
  { intros r Hin. destruct (Hr id r Hin) as (ca & Hi & Hd). by apply (Hnd ca r). }
  split; rewrite ?Ec, ?Et.
  - rewrite length_app. cbn. lia.
  - intros j ca. rewrite lookup_insert_Some. intros [[<- <-]|[Hj Hi]]; [done|]. destruct (Hc j ca Hi) as [Hlt Hok].
    split; [lia|]. apply (call_ok_snoc _ s _ _ (cl_task c)) in Hok; [|done]. destruct Hok as [H1 H2 H3]. split; [|done|].
    + destruct (ca_phase ca); try done; by rewrite Ep.
    + rewrite Ep by done. exact H3.
  - intros j Hj. destruct (decide (j = id)) as [->|Hne]; [rewrite lookup_insert_eq; by eexists|].
    rewrite lookup_insert_ne by done. apply Hp. by apply Ep.
  - assert (Hold : forall j r, (j, r) ∈ results (cl_log c) -> exists ca, <[id:=ca']> (cl_calls c) !! j = Some ca /\ ca_phase ca = Done r).
    { intros j r Hin. assert (j <> id) by (intros ->; by apply (Hnew r)). rewrite lookup_insert_ne by done. by apply Hr. }
    intros j r. destruct El as [-> |(r' & -> & Hd)]; [apply Hold|]. rewrite elem_of_app, list_elem_of_singleton.
    intros [Hin|[= -> ->]]; [by apply Hold|]. exists ca'. by rewrite lookup_insert_eq.
  - destruct El as [-> |(r' & -> & Hd)]; [done|]. rewrite fmap_app. apply NoDup_app. split_and!; [done| |apply NoDup_singleton].
    intros j Hj Hin. cbn in Hin. apply list_elem_of_singleton in Hin as ->.
    apply list_elem_of_fmap in Hj as ([j r] & -> & Hj). by apply (Hnew r).
Qed.

Lemma inserted_snoc steps s id : CsInsert id ∈ steps -> CsInsert id ∈ steps ++ [s].
Proof. intros Hi. apply elem_of_app. by left. Qed.

Lemma inserted_now steps id : CsInsert id ∈ steps ++ [CsInsert id].
Proof. apply elem_of_app. right. by constructor. Qed.

(** A caller at the end of its call. *)
Lemma finish_call_ok steps s c c' id ca r :
  calls_ok steps c -> cl_calls c !! id = Some ca -> (forall r', ca_phase ca <> Done r') ->
  cl_calls c' = cl_calls c -> cl_log c' = cl_log c -> cl_next c' = cl_next c -> cl_task c' = cl_task c ->
  (forall j, j <> id -> j ∈ cl_pending c' <-> j ∈ cl_pending c) -> id ∉ cl_pending c' ->
  result_ok (steps ++ [s]) id r -> calls_ok (steps ++ [s]) (finish id r ca c').
Proof.
  intros Hok Hca Hnd Ec El En Et Ep Hid Hr. destruct (ok_calls _ _ Hok id ca Hca) as [Hlt [H1 H2 H3]].
  apply (calls_one _ _ c _ id (ca_set_phase (Done r) ca)); [done|cbn; by rewrite Ec|done|cbn; lia|cbn; lia|done|congruence| |].
  - right. exists r. split; [|done]. cbn. by rewrite El, results_app.
  - split; [done| |done]. intros a Ha. apply answered_snoc, H2, Ha.
Qed.

Lemma send_start_ok steps s cmd origin applied c :
  calls_ok steps c -> 1 + Z.of_nat (length steps) < u64_max -> calls_ok (steps ++ [s]) (send_start cmd origin applied c).
Proof.
  intros Hok Hb. unfold send_start. pose proof (ok_next _ _ Hok) as Hn. destruct (cl_connected c); cbn [negb].
  - assert (Hnew : u64_wrapping_add (cl_next c) 1 = cl_next c + 1) by (apply u64_wrapping_add_small; lia).
    assert (Hf : cl_calls c !! cl_next c = None).
    { destruct (cl_calls c !! cl_next c) as [ca|] eqn:Hca; [|done]. destruct (ok_calls _ _ Hok _ _ Hca). lia. }
    eapply (calls_one _ _ c _ (cl_next c)); [done|cbn; done|done|cbn; lia|cbn; lia|done|congruence|by left|].
    split; cbn; [done..|]. intros Hp. destruct (ok_pending _ _ Hok _ Hp) as [ca Hca]. congruence.
  - apply (calls_same _ _ c); [done..|cbn; lia|cbn; by rewrite results_app, app_nil_r|done].
Qed.

Lemma send_insert_ok steps id ca c :
  calls_ok steps c -> cl_calls c !! id = Some ca -> ca_phase ca = Taken -> calls_ok (steps ++ [CsInsert id]) (send_insert id ca c).
Proof.
  intros Hok Hca Hph. destruct (ok_calls _ _ Hok id ca Hca) as [Hlt [H1 H2 H3]]. rewrite Hph in H1.
  eapply (calls_one _ _ c _ id); [done|cbn; done|intros j Hj; cbn; set_solver|cbn; lia|cbn; lia|done|congruence|by left|].
  split; cbn; [split; [apply inserted_now|set_solver]|intros a Ha; apply answered_snoc, H2, Ha|]. intros _. split; [done|by left].
Qed.

Lemma send_queue_ok steps id ca c :
  calls_ok steps c -> cl_calls c !! id = Some ca -> ca_phase ca = Inserted -> (cl_out c = true -> live_task (cl_task c)) ->
  calls_ok (steps ++ [CsQueue id]) (send_queue id ca c).
Proof.
  intros Hok Hca Hph Hlive. destruct (ok_calls _ _ Hok id ca Hca) as [Hlt [H1 H2 H3]]. rewrite Hph in H1. destruct H1 as [Hins H1].
  assert (Hfail : calls_ok (steps ++ [CsQueue id]) (finish id (Err ErDisconnected) ca (cl_set_pending (cl_pending c ∖ {[id]}) c))).
  { eapply finish_call_ok; [done|done|congruence|done..| | |done]; cbn; set_solver. }
  unfold send_queue. destruct (encode _) as [bytes|]; [|exact Hfail]. destruct (cl_out c); [|exact Hfail].
  destruct (cl_queue c) as [q|]; [|exact Hfail].
  eapply (calls_one _ _ c _ id); [done|cbn; done|done|cbn; lia|cbn; lia|done|congruence|by left|].
  split; cbn; [split; [by apply inserted_snoc|]|intros a Ha; apply answered_snoc, H2, Ha|intros Hp; split; [by apply H3|by right]].
  intros Hw. split; [by apply H1|by apply Hlive].
Qed.

Lemma reply_ready_ok steps id ca c c' :
  calls_ok steps c -> cl_calls c !! id = Some ca -> ca_phase ca = Replying -> reply_ready id ca c = Some c' ->
  calls_ok (steps ++ [CsReply id]) c'.
Proof.
  intros Hok Hca Hph. destruct (ok_calls _ _ Hok id ca Hca) as [Hlt [H1 H2 H3]]. unfold reply_ready.
  destruct (ca_slot ca) as [|a|] eqn:Hs; [done|specialize (H2 a eq_refl)|].
  - assert (Hid : id ∉ cl_pending c) by (intros Hp; by destruct (H3 Hp)).
    destruct a as [rev|body]; [destruct (ca_applied ca)|]; intros [= <-].
    + eapply (calls_one _ _ c _ id); [done|cbn; done|done|cbn; lia|cbn; lia|done|congruence|by left|].
      split; cbn; [by apply answered_snoc| |done]. intros a Ha. apply answered_snoc. rewrite Hs in Ha. by injection Ha as <-.
    + eapply finish_call_ok; [done|done|congruence|done..|cbn; by apply answered_snoc].
    + eapply finish_call_ok; [done|done|congruence|done..|cbn; by apply answered_snoc].
  - assert (Hid : id ∉ cl_pending c) by (intros Hp; by destruct (H3 Hp)).
    intros [= <-]. by eapply finish_call_ok; [done|done|congruence|..].
Qed.

Lemma reply_timeout_ok steps id ca c c' :
  calls_ok steps c -> cl_calls c !! id = Some ca -> ca_phase ca = Replying -> reply_timeout id ca c = Some c' ->
  calls_ok (steps ++ [CsTimeout id]) c'.
Proof.
  intros Hok Hca Hph. unfold reply_timeout. destruct (ca_slot ca); [|done..]. intros [= <-].
  eapply finish_call_ok; [done|done|congruence|done..| | |done]; cbn; set_solver.
Qed.

Lemma applying_ok steps s id ca rev r c :
  calls_ok steps c -> cl_calls c !! id = Some ca -> ca_phase ca = Applying rev -> (r = Ok rev \/ r = Err ErTimeout) ->
  calls_ok (steps ++ [s]) (finish id r ca c).
Proof.
  intros Hok Hca Hph Hr. destruct (ok_calls _ _ Hok id ca Hca) as [Hlt [H1 H2 H3]]. rewrite Hph in H1, H3.
  eapply finish_call_ok; [done|done|congruence|done..| |].
  - intros Hp. destruct (H3 Hp) as [_ []]; done.
  - destruct Hr as [-> | ->]; [by apply answered_snoc|done].
Qed.

Lemma handle_reply_ok steps body rp c :
  calls_ok steps c -> engine_of_json body = Ok (MReply rp) -> calls_ok (steps ++ [CsRead (Ok body)]) (handle_reply rp c).
Proof.
  intros Hok Hb. unfold handle_reply. case_decide as Hp; [|apply (calls_same _ _ c); (done || lia)].
  destruct (ok_pending _ _ Hok _ Hp) as [ca Hca]. destruct (ok_calls _ _ Hok _ ca Hca) as [Hlt [H1 H2 H3]].
  destruct (H3 Hp) as [Hs Hph]. fold (answer_of rp).
  assert (Hins : CsInsert (rp_id rp) ∈ steps) by (destruct Hph as [He|He]; rewrite He in H1; by destruct H1).
  eapply (calls_one _ _ c _ (rp_id rp) (ca_set_slot (Answered (answer_of rp)) ca)); [done| | |cbn; lia|cbn; lia|done| |by left|].
  - cbn. apply map_eq. intros j. destruct (decide (j = rp_id rp)) as [->|Hj].
    + by rewrite lookup_alter_eq, Hca, lookup_insert_eq.
    + by rewrite lookup_alter_ne, lookup_insert_ne by done.
  - intros j Hj. cbn. set_solver.
  - intros ca2 r Hca2 Hd. rewrite Hca in Hca2. injection Hca2 as <-. destruct Hph; congruence.
  - split.
    + cbn. destruct Hph as [-> | ->]; (split; [by apply inserted_snoc|done]).
    + intros a [= <-]. by apply answered_now.
    + cbn. set_solver.
Qed.

(** Every caller still waiting is given up. *)
Lemma drain_ok steps e c :
  calls_ok steps c -> cl_task c = Tearing 3 e ->
  calls_ok (steps ++ [CsTear]) (cl_set_task (Tearing 2 e) (cl_backoff c) (teardown_step 3 c)).
Proof.
  intros [Hn Hc Hp Hr Ho] Ht. split; cbn; try done.
  - rewrite length_app. cbn. lia.
  - intros id ca'. unfold drop_senders. rewrite map_lookup_imap. intros (ca & Hca & [= <-])%bind_Some.
    destruct (Hc id ca Hca) as [Hlt [H1 H2 H3]]. split; [done|]. case_decide as Hid.
    + destruct (H3 Hid) as [Hs Hph]. split; cbn; [|done|done].
      destruct Hph as [He|He]; rewrite He in *; (split; [apply inserted_snoc; by destruct H1|done]).
    + split; [|intros a Ha; by apply answered_snoc, H2|done]. destruct (ca_phase ca); try done.
      * destruct H1 as [Hi Hw]. split; [by apply inserted_snoc|]. intros Hs. by destruct Hid; apply Hw.
      * destruct H1 as [Hi Hw]. split; [by apply inserted_snoc|]. intros Hs. by destruct Hid; apply Hw.
      * by apply answered_snoc.
      * by apply result_snoc.
  - intros id r Hin. destruct (Hr id r Hin) as (ca & Hca & Hd). exists (if decide (id ∈ cl_pending c) then ca_set_slot Gone ca else ca).
    unfold drop_senders. rewrite map_lookup_imap, Hca. cbn. split; [done|]. by case_decide.
Qed.

(** ** The task *)

(** Connected and Disconnected, one after the other. *)
Definition told_connected (log : list Output) : option bool :=
  foldl (fun b o =>
    match o with
    | OuEvent EeConnected => match b with Some false => Some true | _ => None end
    | OuEvent EeDisconnected => match b with Some true => Some false | _ => None end
    | _ => b
    end) (Some false) log.

Record task_ok (c : Client) : Prop := {
  ok_out : cl_out c = true -> match cl_task c with Reading => True | Tearing n _ => n = 4%nat | _ => False end;
  ok_connected : cl_connected c = true -> match cl_task c with Reading => True | Tearing n _ => (0 < n)%nat | _ => False end;
  ok_told : told_connected (cl_log c) = Some (cl_connected c);
  ok_rev : cl_rev c = mv_rev (cl_mirror c);
  ok_tearing : forall n e, cl_task c = Tearing n e -> (n <= 4)%nat;
  ok_backoff : BACKOFF_MIN <= cl_backoff c <= BACKOFF_MAX;
  ok_wait : forall wait, cl_task c = Sleeping wait -> BACKOFF_MIN <= wait <= BACKOFF_MAX \/ wait = SUPERSEDED_WAIT;
}.

Lemma told_connected_app log o :
  told_connected (log ++ [o]) =
  match o with
  | OuEvent EeConnected => match told_connected log with Some false => Some true | _ => None end
  | OuEvent EeDisconnected => match told_connected log with Some true => Some false | _ => None end
  | _ => told_connected log
  end.
Proof. unfold told_connected. by rewrite foldl_app. Qed.

Lemma new_ok build : calls_ok [] (Client_build build) /\ task_ok (Client_build build).
Proof.
  split; split; try done; cbn.
  - intros id r Hin. by apply not_elem_of_nil in Hin.
  - constructor.
Qed.

Lemma task_same c c' :
  task_ok c -> cl_out c' = cl_out c -> cl_task c' = cl_task c -> cl_connected c' = cl_connected c ->
  told_connected (cl_log c') = told_connected (cl_log c) -> cl_rev c' = cl_rev c -> cl_mirror c' = cl_mirror c ->
  cl_backoff c' = cl_backoff c -> task_ok c'.
Proof. intros [] Eo Et Ec El Er Em Eb. split; rewrite ?Eo, ?Et, ?Ec, ?El, ?Er, ?Em, ?Eb; done. Qed.

Lemma finish_task id r ca c : task_ok c -> task_ok (finish id r ca c).
Proof. intros Hok. apply (task_same c); [done..| |done|done|done]. cbn. by rewrite told_connected_app. Qed.

Lemma finish_task' id r ca p c : task_ok c -> task_ok (finish id r ca (cl_set_pending p c)).
Proof. intros Hok. apply finish_task. by apply (task_same c). Qed.

Lemma handle_mirror_parts msg c :
  let c' := handle_mirror msg c in
  cl_calls c' = cl_calls c /\ cl_pending c' = cl_pending c /\ cl_task c' = cl_task c /\ results (cl_log c') = results (cl_log c)
  /\ (cl_next c' = cl_next c \/ cl_next c' = u64_wrapping_add (cl_next c) 1) /\ cl_mirror c' = (mirror_apply msg (cl_mirror c)).1
  /\ cl_rev c' = mv_rev (cl_mirror c') /\ cl_out c' = cl_out c /\ cl_backoff c' = cl_backoff c.
Proof.
  cbn zeta. unfold handle_mirror. destruct (mirror_apply msg (cl_mirror c)) as [mv [[| |o ch|]|]]; cbn -[u64_wrapping_add].
  - split_and!; try done. by left.
  - destruct (cl_connected c); cbn; rewrite !results_app, ?app_nil_r; split_and!; try done; by left.
  - rewrite results_app, app_nil_r. split_and!; try done. by left.
  - destruct (encode _) as [bytes|]; [destruct (cl_out c) eqn:Ho|]; cbn -[u64_wrapping_add]; split_and!; try done; by right.
  - split_and!; try done. by left.
Qed.

Lemma handle_mirror_task msg c : cl_task c = Reading -> task_ok c -> task_ok (handle_mirror msg c).
Proof.
  intros Ht [Ho Hc Hl Hr Hte Hb Hw]. destruct (handle_mirror_parts msg c) as (_ & _ & Et & _ & _ & Em & Er & Eo & Eb).
  split; rewrite ?Et, ?Ht, ?Eb; try done.
  unfold handle_mirror. destruct (mirror_apply msg (cl_mirror c)) as [mv [[| |o ch|]|]]; cbn -[u64_wrapping_add]; try done.
  - destruct (cl_connected c) eqn:Hcc; cbn; rewrite ?told_connected_app; [by rewrite Hcc|by rewrite Hl].
  - by rewrite told_connected_app.
  - destruct (encode _) as [bytes|]; [destruct (cl_out c)|]; done.
Qed.

Lemma connection_end_ok e c : cl_task c = Reading -> task_ok c -> task_ok (connection_end e c).
Proof.
  intros Ht [Ho Hc Hl Hr Hte Hb Hw]. split; cbn; try done.
  - intros _. lia.
  - intros n e'. injection 1 as <- _. lia.
  - destruct (cl_connected c); [unfold BACKOFF_MIN, BACKOFF_MAX; lia|done].
Qed.

Lemma connection_turn_ok steps read c :
  calls_ok steps c -> task_ok c -> cl_task c = Reading -> 1 + Z.of_nat (length steps) < u64_max ->
  calls_ok (steps ++ [CsRead read]) (connection_turn read c) /\ task_ok (connection_turn read c).
Proof.
  intros Hok Htk Ht Hb. pose proof (ok_next _ _ Hok) as Hn.
  assert (Hend : forall e, calls_ok (steps ++ [CsRead read]) (connection_end e c) /\ task_ok (connection_end e c)).
  { intros e. split; [|by apply connection_end_ok]. apply (calls_same _ _ c); try done; cbn; lia. }
  unfold connection_turn. destruct read as [body|e]; [|apply Hend]. destruct (engine_of_json body) as [msg|] eqn:Hm.
  2: { split; [|done]. apply (calls_same _ _ c); (done || lia). }
  assert (Hemit : forall e, e <> EeConnected -> e <> EeDisconnected ->
    calls_ok (steps ++ [CsRead (Ok body)]) (ce_emit e c) /\ task_ok (ce_emit e c)).
  { intros e He1 He2. split.
    - apply (calls_same _ _ c); [done|done|done|cbn; lia|cbn; by rewrite results_app, app_nil_r|done].
    - apply (task_same c); [done..| |done|done|done]. cbn. rewrite told_connected_app. by destruct e. }
  assert (Hmir : calls_ok (steps ++ [CsRead (Ok body)]) (handle_mirror msg c) /\ task_ok (handle_mirror msg c)).
  { split; [|by apply handle_mirror_task]. destruct (handle_mirror_parts msg c) as (Ec & Ep & Et & El & En & _).
    rewrite u64_wrapping_add_small in En by lia. apply (calls_same _ _ c); try done; [lia|by rewrite Et]. }
  destruct msg as [h|rp|t|rev st t|rev o ch|m|st|rev g|a|reason|]; cbn [client_handle]; try exact Hmir; try (by apply Hemit); try (apply Hend).
  - split; [by apply handle_reply_ok|]. unfold handle_reply. case_decide; [by apply (task_same c)|done].
  - split; [|done]. apply (calls_same _ _ c); (done || lia).
  - split; [|done]. apply (calls_same _ _ c); (done || lia).
Qed.

Lemma tear_calls steps n e c :
  calls_ok steps c -> cl_task c = Tearing (S n) e -> (n <= 3)%nat ->
  calls_ok (steps ++ [CsTear]) (cl_set_task (Tearing n e) (cl_backoff c) (teardown_step (S n) c)).
Proof.
  intros Hok Ht Hn. destruct (decide (n = 2%nat)) as [->|Hne]; [by apply drain_ok|].
  assert (Hs : forall c', cl_calls c' = cl_calls c -> cl_pending c' = cl_pending c -> cl_next c' = cl_next c ->
    results (cl_log c') = results (cl_log c) -> calls_ok (steps ++ [CsTear]) (cl_set_task (Tearing n e) (cl_backoff c) c')).
  { intros c' E1 E2 E3 E4. apply (calls_same _ _ c); try done; [cbn; lia|]. rewrite Ht. cbn. lia. }
  destruct n as [|[|[|[|n]]]]; [|by apply Hs|done|by apply Hs|lia].
  cbn [teardown_step]. destruct (cl_connected c); [|by apply Hs]. apply Hs; try done. cbn. by rewrite results_app, app_nil_r.
Qed.

(** A field of [task_ok] after a step, with what held before it. *)
Ltac task_field Ho Hc :=
  cbn; try done; try (intros Hx; specialize (Ho Hx); (done || lia)); try (intros Hx; specialize (Hc Hx); (done || lia));
  try (intros ?? [= <- _]; lia); try lia.

Lemma tear_task n e c :
  task_ok c -> cl_task c = Tearing (S n) e -> task_ok (cl_set_task (Tearing n e) (cl_backoff c) (teardown_step (S n) c)).
Proof.
  intros Htk Ht. pose proof (ok_tearing c Htk (S n) e Ht) as Hn. destruct Htk as [Ho Hc Hl Hr Hte Hb Hw]. rewrite Ht in Ho, Hc.
  destruct n as [|[|[|[|n]]]]; [..|lia]; cbn [teardown_step]; [|split; task_field Ho Hc..].
  destruct (cl_connected c) eqn:Hcc; split; task_field Ho Hc; [by rewrite told_connected_app, Hl|by rewrite Hcc..].
Qed.

(** ** Any interleaving *)

Lemma client_step_ok steps s c c' :
  calls_ok steps c -> task_ok c -> 1 + Z.of_nat (length steps) < u64_max -> client_step s c = Some c' ->
  calls_ok (steps ++ [s]) c' /\ task_ok c'.
Proof.
  intros Hok Htk Hb. destruct s as [cmd origin applied|id|id|id|id|id|id| | |ok|read| |]; cbn [client_step].
  - intros [= <-]. split; [by apply send_start_ok|]. unfold send_start. destruct (cl_connected c); cbn [negb]; apply (task_same c); try done.
    cbn. by rewrite told_connected_app.
  - intros (ca & Hca & Hs)%bind_Some. destruct (ca_phase ca) eqn:Hp; [injection Hs as <-|done..].
    split; [by apply send_insert_ok|by apply (task_same c)].
  - intros (ca & Hca & Hs)%bind_Some. destruct (ca_phase ca) eqn:Hp; [done|injection Hs as <-|done..]. split.
    + apply send_queue_ok; try done. intros Ho. pose proof (ok_out c Htk Ho) as Hl. destruct (cl_task c); try done. cbn in *. lia.
    + unfold send_queue. destruct (encode _), (cl_out c) eqn:Ho, (cl_queue c); try by apply finish_task'. by apply (task_same c).
  - intros (ca & Hca & Hs)%bind_Some. destruct (ca_phase ca) eqn:Hp; try done. split; [by eapply reply_ready_ok|].
    unfold reply_ready in Hs. destruct (ca_slot ca) as [|[rev|body]|]; [done|destruct (ca_applied ca)|..]; injection Hs as <-;
      [by apply (task_same c)|by apply finish_task..].
  - intros (ca & Hca & Hs)%bind_Some. destruct (ca_phase ca) eqn:Hp; try done. split; [by eapply reply_timeout_ok|].
    unfold reply_timeout in Hs. destruct (ca_slot ca); [|done..]. injection Hs as <-. by apply finish_task'.
  - intros (ca & Hca & Hs)%bind_Some. destruct (ca_phase ca) as [| | |rev|] eqn:Hp; try done. destruct (_ <=? _); [|done].
    injection Hs as <-. split; [eapply applying_ok; by eauto|by apply finish_task].
  - intros (ca & Hca & Hs)%bind_Some. destruct (ca_phase ca) as [| | |rev|] eqn:Hp; try done. destruct (_ <=? _); [done|].
    injection Hs as <-. split; [eapply applying_ok; by eauto|by apply finish_task].
  - destruct (cl_queue c) as [[|bytes q]|]; [done| |done]. intros [= <-]. split.
    + apply (calls_same _ _ c); try done; [cbn; lia|]. cbn. by rewrite results_app, app_nil_r.
    + apply (task_same c); try done. cbn. by rewrite told_connected_app.
  - destruct (cl_queue c) as [q|]; [|done]. intros [= <-]. split; [apply (calls_same _ _ c); try done; cbn; lia|by apply (task_same c)].
  - destruct (cl_task c) eqn:Ht; try done. intros [= <-]. destruct Htk as [Ho Hc Hl Hr Hte Hbk Hw]. rewrite Ht in Ho, Hc. split.
    + destruct ok; apply (calls_same _ _ c); try done; try (cbn; lia); by rewrite Ht.
    + destruct ok; split; cbn; try done; try (intros Hx; by destruct (Ho Hx)); try (intros Hx; by destruct (Hc Hx)); intros ?? [= <- _]; lia.
  - destruct (cl_task c) eqn:Ht; try done. intros [= <-]. by apply connection_turn_ok.
  - destruct (cl_task c) as [| |[|n] e|] eqn:Ht; try done; intros [= <-].
    + destruct Htk as [Ho Hc Hl Hr Hte Hbk Hw]. rewrite Ht in Ho, Hc. split.
      * apply (calls_same _ _ c); try done; [cbn; lia|rewrite Ht; cbn; lia].
      * split; cbn; try done; try (intros Hx; by specialize (Ho Hx)); try (intros Hx; specialize (Hc Hx); lia).
        -- unfold next_backoff, BACKOFF_MIN, BACKOFF_MAX in *. lia.
        -- intros w [= <-]. destruct e as [[]|]; [by left|by right|by left].
    + pose proof (ok_tearing c Htk _ _ Ht). split; [apply tear_calls; (done || lia)|by apply tear_task].
  - destruct (cl_task c) eqn:Ht; try done. intros [= <-]. destruct Htk as [Ho Hc Hl Hr Hte Hbk Hw]. rewrite Ht in Ho, Hc. split.
    + apply (calls_same _ _ c); try done; [cbn; lia|by rewrite Ht].
    + split; cbn; try done; try (intros Hx; by specialize (Ho Hx)); intros Hx; by specialize (Hc Hx).
Qed.

Lemma client_run_snoc steps s c : client_run (steps ++ [s]) c = client_run steps c ≫= client_step s.
Proof. unfold client_run. by rewrite foldl_app. Qed.

Lemma client_run_ok steps build c :
  1 + Z.of_nat (length steps) <= u64_max -> client_run steps (Client_build build) = Some c -> calls_ok steps c /\ task_ok c.
Proof.
  revert c. induction steps as [|s steps IH] using rev_ind; intros c Hb; [intros [= <-]; apply new_ok|].
  rewrite client_run_snoc. rewrite length_app in Hb. cbn in Hb. intros (c0 & Hc0 & Hs)%bind_Some.
  destruct (IH c0 ltac:(lia) Hc0) as [Hok Htk]. eapply client_step_ok; [done|done|lia|done].
Qed.

(** ** Why the client waits *)

Definition is_word (s : ClientStep) : bool := match s with CsConnect _ | CsRead _ => true | _ => false end.

(** The last the client had of the pipe is that another controller took over. *)
Definition superseded (steps : list ClientStep) : bool :=
  match last (filter (fun s => is_word s = true) steps) with
  | Some (CsRead (Ok body)) => match engine_of_json body with Ok MSuperseded => true | _ => false end
  | _ => false
  end.

Lemma superseded_word steps s : is_word s = true -> superseded (steps ++ [s]) = superseded [s].
Proof.
  intros Hw. unfold superseded. rewrite filter_app, !filter_cons_True by done. by rewrite filter_nil, last_snoc.
Qed.

Lemma superseded_other steps s : is_word s = false -> superseded (steps ++ [s]) = superseded steps.
Proof.
  intros Hw. unfold superseded. rewrite filter_app, filter_cons_False by congruence. by rewrite filter_nil, app_nil_r.
Qed.

Record task_why (steps : list ClientStep) (c : Client) : Prop := {
  tw_tearing : forall n e, cl_task c = Tearing n e -> match e with Some EndSuperseded => true | _ => false end = superseded steps;
  tw_sleeping : forall wait, cl_task c = Sleeping wait ->
    if superseded steps then wait = SUPERSEDED_WAIT
    else BACKOFF_MIN <= wait <= BACKOFF_MAX /\ cl_backoff c = next_backoff wait;
}.

Lemma task_why_same steps s c c' :
  is_word s = false -> cl_task c' = cl_task c -> cl_backoff c' = cl_backoff c -> task_why steps c -> task_why (steps ++ [s]) c'.
Proof. intros Hw Et Eb [H1 H2]. split; rewrite superseded_other, Et by done; [done|]. by rewrite Eb. Qed.

Lemma task_why_idle steps c : match cl_task c with Connecting | Reading => True | _ => False end -> task_why steps c.
Proof. intros Ht. split; intros; by rewrite H1 in Ht. Qed.

Lemma client_handle_task msg c c' : client_handle msg c = (c', None) -> cl_task c' = cl_task c.
Proof.
  destruct msg; cbn [client_handle]; try (by intros [= <-]);
    try (intros [= <-]; by match goal with |- cl_task (handle_mirror ?m c) = _ => destruct (handle_mirror_parts m c) as (_ & _ & Et & _) end).
  intros [= <-]. unfold handle_reply. by case_decide.
Qed.

Lemma connection_turn_why steps read c : cl_task c = Reading -> task_why (steps ++ [CsRead read]) (connection_turn read c).
Proof.
  intros Ht. assert (Hend : forall e, match e with EndSuperseded => true | _ => false end = superseded [CsRead read] ->
    task_why (steps ++ [CsRead read]) (connection_end e c)).
  { intros e He. split; [|done]. intros n e' [= <- <-]. by rewrite superseded_word. }
  unfold connection_turn. destruct read as [body|e]; [|by apply Hend]. destruct (engine_of_json body) as [msg|] eqn:Hm; [|apply task_why_idle; by rewrite Ht].
  destruct (client_handle msg c) as [c' [e|]] eqn:Hh; [|apply task_why_idle; by rewrite (client_handle_task _ _ _ Hh), Ht].
  assert (Hs : msg = MSuperseded /\ c' = c /\ e = EndSuperseded) by (destruct msg; cbn in Hh; by simplify_eq).
  destruct Hs as (-> & -> & ->). apply Hend.
  transitivity (match engine_of_json body with Ok MSuperseded => true | _ => false end); [by rewrite Hm|done].
Qed.

Lemma client_step_why steps s c c' : task_ok c -> task_why steps c -> client_step s c = Some c' -> task_why (steps ++ [s]) c'.
Proof.
  intros Htk Hwhy. destruct s as [cmd origin applied|id|id|id|id|id|id| | |ok|read| |]; cbn [client_step].
  - intros [= <-]. apply (task_why_same _ _ c); try done; unfold send_start; by destruct (cl_connected c).
  - intros (ca & _ & Hs)%bind_Some. destruct (ca_phase ca); [injection Hs as <-|done..]. by apply (task_why_same _ _ c).
  - intros (ca & _ & Hs)%bind_Some. destruct (ca_phase ca); [done|injection Hs as <-|done..].
    apply (task_why_same _ _ c); try done; unfold send_queue; by destruct (encode _), (cl_out c), (cl_queue c).
  - intros (ca & _ & Hs)%bind_Some. destruct (ca_phase ca); try done.
    unfold reply_ready in Hs. destruct (ca_slot ca) as [|[rev|body]|]; [done|destruct (ca_applied ca)|..]; injection Hs as <-; by apply (task_why_same _ _ c).
  - intros (ca & _ & Hs)%bind_Some. destruct (ca_phase ca); try done. unfold reply_timeout in Hs.
    destruct (ca_slot ca); [|done..]. injection Hs as <-. by apply (task_why_same _ _ c).
  - intros (ca & _ & Hs)%bind_Some. destruct (ca_phase ca); try done. destruct (_ <=? _); [|done]. injection Hs as <-. by apply (task_why_same _ _ c).
  - intros (ca & _ & Hs)%bind_Some. destruct (ca_phase ca); try done. destruct (_ <=? _); [done|]. injection Hs as <-. by apply (task_why_same _ _ c).
  - destruct (cl_queue c) as [[|bytes q]|]; [done| |done]. intros [= <-]. by apply (task_why_same _ _ c).
  - destruct (cl_queue c) as [q|]; [|done]. intros [= <-]. by apply (task_why_same _ _ c).
  - destruct (cl_task c); try done. intros [= <-]. destruct ok; [by apply task_why_idle|]. split; [|done].
    intros n e [= <- <-]. by rewrite superseded_word.
  - destruct (cl_task c) eqn:Ht; try done. intros [= <-]. by apply connection_turn_why.
  - destruct (cl_task c) as [| |[|n] e|] eqn:Ht; try done; intros [= <-].
    + pose proof (tw_tearing _ _ Hwhy _ _ Ht) as He. split; [done|]. unfold go_to_sleep. cbn [cl_task cl_set_task cl_backoff]. intros w [= <-].
      rewrite superseded_other by done. rewrite <-He. destruct e as [[]|]; [|done|]; (split; [apply (ok_backoff _ Htk)|done]).
    + pose proof (tw_tearing _ _ Hwhy _ _ Ht) as He. split; [|done]. intros m e' [= <- <-]. by rewrite superseded_other.
  - destruct (cl_task c); try done. intros [= <-]. by apply task_why_idle.
Qed.

Lemma client_run_why steps build c :
  1 + Z.of_nat (length steps) <= u64_max -> client_run steps (Client_build build) = Some c -> task_why steps c.
Proof.
  revert c. induction steps as [|s steps IH] using rev_ind; intros c Hb; [intros [= <-]; by apply task_why_idle|].
  rewrite client_run_snoc. rewrite length_app in Hb. cbn in Hb. intros (c0 & Hc0 & Hs)%bind_Some.
  destruct (client_run_ok steps build c0 ltac:(lia) Hc0) as [_ Htk]. by eapply client_step_why; [| apply IH; [lia|]|].
Qed.
End client.

(** ** Properties *)

(** A caller is told what the engine said of its own request: in any
    interleaving of any callers with the connection, and across any number of
    connections, a caller that is given a revision or a refusal was registered
    under its id before a reply to that id was read, with that revision or that
    refusal; and no caller is given two results. *)
Theorem answers_are_replies `{EngineJson, ClientFrames} build steps c :
  client_run steps (Client_build build) = Some c -> 1 + Z.of_nat (length steps) <= u64_max ->
  (forall id r, OuResult id r ∈ cl_log c -> result_ok steps id r) /\ NoDup (results (cl_log c)).*1.
Proof.
  intros Hc Hb. destruct (client_run_ok steps build c Hb Hc) as [Hok _]. split; [|apply (ok_once _ _ Hok)]. intros id r Hin.
  assert (Hr : (id, r) ∈ results (cl_log c)) by (apply list_elem_of_omap; by exists (OuResult id r)).
  destruct (ok_results _ _ Hok id r Hr) as (ca & Hca & Hp). destruct (ok_calls _ _ Hok id ca Hca) as [_ [Hph _ _]]. by rewrite Hp in Hph.
Qed.

(** C40: nobody waits on a connection that is gone: whenever the client is between
    connections, however the last one ended and whoever was in the middle of
    what, it says it is not connected, every caller in [reply] can finish at
    once, and one still in [send] is refused as soon as it goes on: it finds no
    writer, whether its request was registered yet or not.  The client waits five
    seconds when the last it read was that another controller took over, and
    otherwise a quarter of a second to two seconds, with twice that to come next
    up to two; its views were told of each loss and each return in turn. *)
Theorem nobody_left_waiting `{EngineJson, ClientFrames} build steps c :
  client_run steps (Client_build build) = Some c -> 1 + Z.of_nat (length steps) <= u64_max ->
  told_connected (cl_log c) = Some (cl_connected c)
  /\ forall wait, cl_task c = Sleeping wait ->
    cl_connected c = false
    /\ (if superseded steps then wait = SUPERSEDED_WAIT
        else BACKOFF_MIN <= wait <= BACKOFF_MAX /\ cl_backoff c = Z.min (wait * 2) BACKOFF_MAX)
    /\ (forall id ca, cl_calls c !! id = Some ca -> ca_phase ca = Taken ->
          exists c1, client_step (CsInsert id) c = Some c1
          /\ client_step (CsQueue id) c1 = Some (finish id (Err ErDisconnected) (ca_set_phase Inserted ca) (cl_set_pending (cl_pending c1 ∖ {[id]}) c1)))
    /\ (forall id ca, cl_calls c !! id = Some ca -> ca_phase ca = Replying -> is_Some (client_step (CsReply id) c))
    /\ (forall id ca, cl_calls c !! id = Some ca -> ca_phase ca = Inserted ->
          client_step (CsQueue id) c = Some (finish id (Err ErDisconnected) ca (cl_set_pending (cl_pending c ∖ {[id]}) c))).
Proof.
  intros Hc Hb. destruct (client_run_ok steps build c Hb Hc) as [Hok Htk]. split; [apply (ok_told _ Htk)|]. intros wait Ht.
  pose proof (ok_connected _ Htk) as Hcn. pose proof (ok_out _ Htk) as Ho. rewrite Ht in Hcn, Ho.
  assert (Hout : cl_out c = false) by (destruct (cl_out c); [by destruct Ho|done]).
  split_and!; [by destruct (cl_connected c); [destruct Hcn|]|exact (tw_sleeping _ _ (client_run_why steps build c Hb Hc) wait Ht)|..].
  - intros id ca Hca Hp. cbn. rewrite Hca. cbn. rewrite Hp. eexists. split; [done|]. unfold send_insert. cbn. rewrite lookup_insert_eq. cbn.
    unfold send_queue. cbn. rewrite Hout. by destruct (encode _).
  - intros id ca Hca Hp. cbn. rewrite Hca. cbn. rewrite Hp. destruct (ok_calls _ _ Hok id ca Hca) as [_ [Hph _ _]].
    rewrite Hp, Ht in Hph. unfold reply_ready. destruct (ca_slot ca) as [|[rev|body]|].
    + by destruct (proj2 Hph eq_refl).
    + destruct (ca_applied ca); by eexists.
    + by eexists.
    + by eexists.
  - intros id ca Hca Hp. cbn. rewrite Hca. cbn. rewrite Hp. unfold send_queue. rewrite Hout. by destruct (encode _).
Qed.

(** The engine of the demo: a state, a reply to the first request, nonsense. *)
#[local] Instance demo_engine : EngineJson :=
  fun bytes =>
    match bytes with
    | [0] => Ok (MState 3 MixState_default Transient_default)
    | [1] => Ok (MReply (mkReply 1 4 None))
    | _ => Err "no message"
    end.
#[local] Instance demo_client_frames : ClientFrames := fun _ => Ok [7].

(** Two requests; one is answered, the other still waits when the pipe drops. *)
Definition demo_steps : list ClientStep :=
  [CsConnect true; CsWrite; CsRead (Ok [0]); CsSend Ping None false; CsInsert 1; CsSend SaveNow (Some 2) true; CsQueue 1; CsInsert 2;
   CsRead (Ok [9]); CsRead (Ok [1]); CsQueue 2; CsReply 1; CsRead (Err WeClosed); CsTear; CsTear; CsTear; CsTear; CsTear].

Lemma demo_steps_run :
  exists c, client_run demo_steps (Client_build "demo") = Some c /\ cl_task c = Sleeping 250 /\ OuResult 1 (Ok 4) ∈ cl_log c
    /\ ca_phase <$> cl_calls c !! 2 = Some Replying.
Proof.
  assert (Hr : (fun c => (cl_task c, results (cl_log c), ca_phase <$> cl_calls c !! 2)) <$> client_run demo_steps (Client_build "demo")
               = Some (Sleeping 250, [(1, Ok 4)], Some Replying)) by by vm_compute.
  destruct (client_run demo_steps (Client_build "demo")) as [c|]; [|done]. cbn in Hr. injection Hr as Ht Hl Hp. exists c.
  split_and!; [done|done| |done]. assert (Hin : (1, Ok 4) ∈ results (cl_log c)) by (rewrite Hl; by constructor).
  apply list_elem_of_omap in Hin as (o & Ho & He). by destruct o; simplify_eq.
Qed.

Lemma answers_are_replies_witness : answered_by demo_steps 1 (Ok 4).
Proof.
  destruct demo_steps_run as (c & Hc & _ & Hin & _). exact (proj1 (answers_are_replies "demo" demo_steps c Hc ltac:(by vm_compute)) 1 (Ok 4) Hin).
Defined.

Lemma nobody_left_waiting_witness : exists c, client_run demo_steps (Client_build "demo") = Some c /\ is_Some (client_step (CsReply 2) c).
Proof.
  destruct demo_steps_run as (c & Hc & Ht & _ & Hp). exists c. split; [done|].
  destruct (proj2 (nobody_left_waiting "demo" demo_steps c Hc ltac:(by vm_compute)) 250 Ht) as (_ & _ & _ & Hr & _).
  destruct (cl_calls c !! 2) as [ca|] eqn:Hca; [|done]. apply (Hr 2 ca Hca). by injection Hp.
Defined.
