(* ===== verification/ServerSpec.v ===== *)
(** * The server and the engine

    The control loop composed with the client: what the loop sent on a
    connection, the client reads, in order, between the steps of its callers. *)

From S2P Require Import Prelude F64 Text MixState Msg Shape Topology TopologyWf Reconciled Rt Core CoreSync CoreCmd CoreApply Disk Codec Store Wire Frame AsyncWire Control Mirror CtlFrame CtlPeers CtlLive CtlTruth ControlSpec MirrorSpec Client ClientSpec.
From stdpp Require Import options.
Local Open Scope Z_scope.
#[local] Unset Default Proof Using.

(** What the loop sent to a connection. *)
Definition sent_to (id : Z) (log : list Event) : list EngineMsg :=
  omap (fun ev => match ev with EvSent j msg => if decide (j = id) then Some msg else None | _ => None end) log.

(** What the client read. *)
Definition reads (steps : list ClientStep) : list (result WireError (list Z)) :=
  omap (fun s => match s with CsRead r => Some r | _ => None end) steps.

Definition mirror_fold (msgs : list EngineMsg) (mv : Mirror) : Mirror := foldl (fun mv msg => (mirror_apply msg mv).1) mv msgs.

Lemma mirror_of_sent mv log id : EvClosed id ∉ log -> mirror_of mv log id = mirror_fold (sent_to id log) mv.
Proof.
  unfold mirror_of, mirror_fold, sent_to. revert mv. induction log as [|ev log IH]; intros mv Hn; [done|].
  apply not_elem_of_cons in Hn as [Hne Hn]. cbn [foldl]. rewrite IH by done. destruct ev as [j msg|j| | ]; cbn; try done.
  - by case_decide.
  - case_decide; [congruence|done].
Qed.

Section client.
Context `{EngineJson, ClientFrames}.

(** A frame the client reads as a message. *)
Definition is_message (r : result WireError (list Z)) (msg : EngineMsg) : Prop :=
  exists body, r = Ok body /\ engine_of_json body = Ok msg.

Lemma reads_app steps s : reads (steps ++ [s]) = reads steps ++ match s with CsRead r => [r] | _ => [] end.
Proof. unfold reads. rewrite omap_app. by destruct s. Qed.

Lemma turn_mirror body msg c :
  engine_of_json body = Ok msg -> cl_mirror (connection_turn (Ok body) c) = (mirror_apply msg (cl_mirror c)).1.
Proof.
  intros Hm. unfold connection_turn. rewrite Hm.
  destruct msg as [h|rp|t|rev st t|rev o ch|m|st|rev g|a|reason|]; cbn [client_handle]; try done;
    try (by destruct (handle_mirror_parts (MHello h) c) as (_ & _ & _ & _ & _ & ? & _));
    try (by destruct (handle_mirror_parts (MTopology t) c) as (_ & _ & _ & _ & _ & ? & _));
    try (by destruct (handle_mirror_parts (MState rev st t) c) as (_ & _ & _ & _ & _ & ? & _));
    try (by destruct (handle_mirror_parts (MDelta rev o ch) c) as (_ & _ & _ & _ & _ & ? & _)).
  unfold handle_reply. by case_decide.
Qed.

(** A step that is no reading and no tearing down leaves the mirror alone. *)
Lemma step_mirror s c c' :
  client_step s c = Some c' -> match s with CsRead _ | CsTear => False | _ => True end -> cl_mirror c' = cl_mirror c.
Proof.
  destruct s as [cmd origin applied|id|id|id|id|id|id| | |ok|read| |]; cbn [client_step]; intros Hs Hn; try done.
  - injection Hs as <-. unfold send_start. by destruct (cl_connected c).
  - apply bind_Some in Hs as (ca & _ & Hs). by destruct (ca_phase ca); simplify_eq.
  - apply bind_Some in Hs as (ca & _ & Hs). destruct (ca_phase ca); try done. injection Hs as <-. unfold send_queue.
    by destruct (encode _), (cl_out c), (cl_queue c).
  - apply bind_Some in Hs as (ca & _ & Hs). destruct (ca_phase ca); try done. unfold reply_ready in Hs.
    by destruct (ca_slot ca) as [|[]|]; [done|destruct (ca_applied ca)|..]; simplify_eq.
  - apply bind_Some in Hs as (ca & _ & Hs). destruct (ca_phase ca); try done. unfold reply_timeout in Hs.
    by destruct (ca_slot ca); simplify_eq.
  - apply bind_Some in Hs as (ca & _ & Hs). destruct (ca_phase ca); try done. by case_match; simplify_eq.
  - apply bind_Some in Hs as (ca & _ & Hs). destruct (ca_phase ca); try done. by case_match; simplify_eq.
  - by destruct (cl_queue c) as [[|bytes q]|]; simplify_eq.
  - by destruct (cl_queue c); simplify_eq.
  - destruct (cl_task c); try done. injection Hs as <-. by destruct ok.
  - by destruct (cl_task c); simplify_eq.
Qed.

Lemma run_mirror steps c c' msgs :
  client_run steps c = Some c' -> CsTear ∉ steps -> Forall2 is_message (reads steps) msgs ->
  cl_mirror c' = mirror_fold msgs (cl_mirror c).
Proof.
  revert c' msgs. induction steps as [|s steps IH] using rev_ind; intros c' msgs.
  { intros [= <-] _ Hr. by inversion Hr. }
  rewrite client_run_snoc, reads_app. intros (c0 & Hc0 & Hs)%bind_Some Ht Hr.
  apply not_elem_of_app in Ht as [Ht Hts]. assert (Hne : s <> CsTear) by (intros ->; apply Hts; by constructor).
  assert (Hcase : (exists r, s = CsRead r) \/ match s with CsRead _ | CsTear => False | _ => True end) by (destruct s; eauto).
  destruct Hcase as [(r & ->)|Hnr].
  - apply Forall2_app_inv_l in Hr as (msgs1 & msgs2 & Hr1 & Hr2 & ->). apply Forall2_cons_inv_l in Hr2 as (msg & rest & Hm & Hr3 & ->).
    apply Forall2_nil_inv_l in Hr3 as ->. destruct Hm as (body & -> & Hb). cbn in Hs. destruct (cl_task c0); try done. injection Hs as <-.
    fold (connection_turn (Ok body) c0). rewrite (turn_mirror body msg) by done. unfold mirror_fold. rewrite foldl_app. cbn. by rewrite (IH c0 msgs1).
  - assert (He : match s with CsRead r => [r] | _ => [] end = []) by by destruct s. rewrite He, app_nil_r in Hr.
    rewrite (step_mirror _ _ _ Hs) by done. by apply IH.
Qed.

(** A reply the client read was sent. *)
Lemma answer_sent steps msgs id j rev :
  answered_by steps j (Ok rev) -> Forall2 is_message (reads steps) (sent_to id msgs) ->
  exists rp, EvSent id (MReply rp) ∈ msgs /\ rp_id rp = j /\ rp_rev rp = rev.
Proof.
  intros (s1 & s2 & s3 & body & rp & -> & Hb & Hj & Ha) Hr. exists rp.
  assert (Hin : Ok body ∈ reads (s1 ++ CsInsert j :: s2 ++ CsRead (Ok body) :: s3)).
  { apply list_elem_of_omap. exists (CsRead (Ok body)). split; [|done]. set_solver. }
  apply list_elem_of_lookup in Hin as [n Hn]. destruct (Forall2_lookup_l _ _ _ _ _ Hr Hn) as (msg & Hmsg & body' & Hbody & Hm).
  injection Hbody as <-. rewrite Hb in Hm. injection Hm as <-. apply list_elem_of_lookup_2, list_elem_of_omap in Hmsg as (ev & Hev & He).
  destruct ev as [i msg| | |]; try done. case_decide; [|done]. simplify_eq. split_and!; [done|done|].
  unfold answer_of in Ha. destruct (rp_error rp); [done|]. by injection Ha.
Qed.
End client.

(** C12: an acknowledged edit is in the server's copy: once the client has read
    what a run of the engine sent on its connection, whatever its callers did
    in between, its copy is in step with the core, and every caller that was
    given a revision to wait for finds it reached. *)
Theorem acknowledged_is_visible `{LibmOk} `{Json, Sha256, ClientJson} `{StatesFit} `{EngineJson, ClientFrames}
    engine_build channels core disk counters alarms settings v pops turns k exit id role build steps c :
  core_wf channels core -> 0 <= c_rev core -> c_rev core + run_revs turns <= u64_max ->
  run engine_build turns (Control_new core disk counters alarms settings v pops) = CDone k exit ->
  p_roles (k_peers k) !! id = Some (Some role) -> EvClosed id ∉ k_log k ->
  client_run steps (Client_build build) = Some c -> 1 + Z.of_nat (length steps) <= u64_max ->
  CsTear ∉ steps -> Forall2 is_message (reads steps) (sent_to id (k_log k)) ->
  mv_synced (cl_mirror c) = true /\ cl_rev c = c_rev (k_core k)
  /\ same_view (mv_state (cl_mirror c), mv_transient (cl_mirror c)) (view (k_core k))
  /\ forall j ca rev, cl_calls c !! j = Some ca -> ca_phase ca = Applying rev ->
       client_step (CsApplied j) c = Some (finish j (Ok rev) ca c).
Proof.
  intros Hwf Hr Hb Hrun Hid Hcl Hc Hlen Ht Hreads.
  destruct (run_history engine_build channels core disk counters alarms settings v pops turns k exit Hwf Hr Hb Hrun)
    as (Hh & Hn & Htop & Hl & Hd & Hu).
  destruct (mirror_present Hh k Mirror_default id Hn Htop eq_refl Hl Hd (Hu id role Hid)) as (Hs & Hrev & Hv).
  rewrite mirror_of_sent in Hs, Hrev, Hv by done. pose proof (run_mirror _ _ _ _ Hc Ht Hreads) as Hm. cbn [cl_mirror Client_build] in Hm.
  rewrite <-Hm in Hs, Hrev, Hv. destruct (client_run_ok steps build c Hlen Hc) as [Hok Htk].
  assert (Hcr : cl_rev c = c_rev (k_core k)) by (by rewrite (ok_rev c Htk)).
  split_and!; [done..|]. intros j ca rev Hj Hp. cbn. rewrite Hj. cbn. rewrite Hp.
  destruct (ok_calls _ _ Hok j ca Hj) as [_ [Hph _ _]]. rewrite Hp in Hph.
  destruct (answer_sent steps (k_log k) id j rev Hph Hreads) as (rp & Hin & _ & <-).
  rewrite Forall_forall in Hl. specialize (Hl _ Hin). cbn in Hl. rewrite Hcr. by rewrite (proj2 (Z.leb_le _ _) Hl).
Qed.

(** What the demo's run sent on connection 1, each message a byte. *)
Definition demo_sent : list EngineMsg := match demo_run false with CDone k _ => sent_to 1 (k_log k) | CCrash _ => [] end.

#[export] Instance demo_engine_json : EngineJson :=
  fun bytes => match bytes with [n] => ok_or (demo_sent !! Z.to_nat n) "no message" | _ => Err "no message" end.

#[export] Instance demo_frames : ClientFrames := fun _ => Ok [].

(** The client's fifth request is answered at revision 8. *)
Definition demo_client_steps : list ClientStep :=
  [CsConnect true; CsRead (Ok [0]); CsRead (Ok [1]); CsRead (Ok [2])]
  ++ replicate 5 (CsSend GetState (Some 3) true)
  ++ [CsInsert 5; CsQueue 5; CsWrite; CsRead (Ok [3]); CsReply 5; CsRead (Ok [4]); CsRead (Ok [5]); CsRead (Ok [6])].

Lemma demo_reads : Forall2 is_message (reads demo_client_steps) demo_sent.
Proof.
  assert (He : reads demo_client_steps = (fun n => Ok [Z.of_nat n]) <$> seq 0 (length demo_sent)) by by vm_compute.
  rewrite He. apply Forall2_fmap_l, Forall2_same_length_lookup_2; [by rewrite length_seq|].
  intros i n msg Hn Hm. apply lookup_seq in Hn as [-> _]. exists [Z.of_nat i]. split; [done|]. cbn -[demo_sent].
  by rewrite Nat2Z.id, Hm.
Qed.

Lemma demo_open k exit : demo_run false = CDone k exit -> p_roles (k_peers k) !! 1 = Some (Some Msg.Control) /\ EvClosed 1 ∉ k_log k.
Proof.
  intros Hrun. split.
  - assert (Hr : match demo_run false with CDone k _ => p_roles (k_peers k) !! 1 | _ => None end = Some (Some Msg.Control)) by by vm_compute.
    by rewrite Hrun in Hr.
  - assert (Hc : match demo_run false with CDone k _ => forallb (fun ev => match ev with EvClosed _ => false | _ => true end) (k_log k) | _ => false end = true)
      by by vm_compute.
    rewrite Hrun, forallb_forall in Hc. intros Hin%list_elem_of_In. by specialize (Hc _ Hin).
Qed.

Lemma acknowledged_is_visible_witness :
  exists k exit c ca, demo_run false = CDone k exit /\ client_run demo_client_steps (Client_build "demo") = Some c
    /\ cl_rev c = c_rev (k_core k) /\ client_step (CsApplied 5) c = Some (finish 5 (Ok 8) ca c).
Proof.
  destruct (demo_run_done false) as (k & exit & Hrun).
  destruct (client_run demo_client_steps (Client_build "demo")) as [c|] eqn:Hc; [|by vm_compute in Hc].
  assert (Hca : (fun ca => ca_phase ca) <$> (client_run demo_client_steps (Client_build "demo") ≫= fun c => cl_calls c !! 5) = Some (Applying 8))
    by by vm_compute.
  rewrite Hc in Hca. cbn in Hca. apply fmap_Some in Hca as (ca & Hca & Hp).
  destruct (demo_open k exit Hrun) as [Hid Hcl].
  assert (Hreads : Forall2 is_message (reads demo_client_steps) (sent_to 1 (k_log k))).
  { pose proof demo_reads as Hr. unfold demo_sent in Hr. rewrite Hrun in Hr. exact Hr. }
  assert (Hnt : CsTear ∉ demo_client_steps).
  { assert (Hf : Forall (fun s => s <> CsTear) demo_client_steps) by by repeat constructor.
    rewrite Forall_forall in Hf. intros Hin. by apply (Hf CsTear Hin). }
  exists k, exit, c, ca. split; [done|]. split; [done|].
  destruct (acknowledged_is_visible "demo" 8 demo_core _ _ _ _ _ _ (demo_turns false) k exit 1 Msg.Control "demo" demo_client_steps c
    demo_core_wf ltac:(by vm_compute) ltac:(by vm_compute) Hrun Hid Hcl Hc ltac:(by vm_compute) Hnt Hreads) as (_ & Hrev & _ & Hdone).
  split; [done|]. by apply Hdone.
Defined.
