(* ===== verification/MediaSpec.v ===== *)
(** * The media path: what is heard is the filtered tap

    [sent_on id i log]: the frames of stream [i] a client was sent.  Each is a
    stretch, without a gap, of the frames the reference makes of all the tap
    gave; the talkback's samples are the reference's, whatever is dropped for
    lack of room. *)

From S2P Require Import Prelude F64 CoreApply Frame Media.
From Stdlib Require Import SpecFloat.
From stdpp Require Import options.
Local Open Scope Z_scope.
#[local] Unset Default Proof Using.

Definition sent_frame (id i : Z) (ev : PumpEvent) : option MediaFrame :=
  match ev with
  | PuSent j fr => if decide (j = id /\ md_stream fr.1 = i) then Some fr else None
  | PuClosed _ => None
  end.

Definition sent_on (id i : Z) (log : list PumpEvent) : list MediaFrame := omap (sent_frame id i) log.

(** All that the ring of tap [i] gave. *)
Definition tapped (i : nat) (rounds : list PumpIn) : list (f64 * f64) := pairs (concat ((fun r => pu_got r i) <$> rounds)).

Definition whole (rounds : list PumpIn) : Prop := Forall (fun r => forall i, Nat.even (length (pu_got r i)) = true) rounds.

Lemma tapped_snoc i rounds r : whole rounds -> tapped i (rounds ++ [r]) = tapped i rounds ++ pairs (pu_got r i).
Proof.
  intros Hw. unfold tapped. rewrite fmap_app, concat_app. cbn [fmap list_fmap concat]. rewrite app_nil_r.
  apply pairs_app. induction Hw as [|x l Hx _ IH]; [done|]. cbn [fmap list_fmap concat].
  rewrite length_app, Nat.even_add, Hx, IH. done.
Qed.

(** A stretch of [l]. *)
Definition stretch {A : Type} (l s : list A) : Prop := exists n m, s = take m (drop n l).

Lemma stretch_grows {A : Type} (l l' s : list A) : stretch l s -> stretch (l ++ l') s.
Proof.
  intros (n & m & ->). exists n, (m `min` length (drop n l))%nat. destruct (decide (n <= length l)%nat) as [Hn|Hn].
  - rewrite drop_app_le by done. rewrite take_app_le by lia. by rewrite <-take_take, firstn_all.
  - rewrite (drop_ge l) by lia. by rewrite take_nil, Nat.min_0_r.
Qed.

Lemma stretch_open {A : Type} (l l' s : list A) n :
  (n <= length l)%nat -> s `prefix_of` l' -> stretch (l ++ l') (drop n l ++ s).
Proof.
  intros Hn [k ->]. exists n, (length (drop n l) + length s)%nat. rewrite drop_app_le by done.
  by rewrite app_assoc, take_app_length' by (by rewrite length_app).
Qed.

Lemma sent_on_app id i l l' : sent_on id i (l ++ l') = sent_on id i l ++ sent_on id i l'.
Proof. apply omap_app. Qed.

Lemma sent_on_other id i j frames : j <> id -> sent_on id i (PuSent j <$> frames) = [].
Proof. intros Hj. induction frames as [|fr frames IH]; [done|]. cbn. by rewrite decide_False by tauto. Qed.

Lemma take_conns_log id i conns cur log : sent_on id i (foldl take_conn (cur, log) conns).2 = sent_on id i log.
Proof.
  revert cur log. induction conns as [|c conns IH]; intros cur log; [done|]. cbn [foldl]. unfold take_conn at 2. cbn [fst snd].
  rewrite IH, sent_on_app. destruct cur; cbn; by rewrite app_nil_r.
Qed.

Lemma take_conns_current conns cur log :
  (foldl take_conn (cur, log) conns).1 = match last conns with Some c => Some c | None => cur end.
Proof.
  induction conns as [|c conns _] using rev_ind; [done|]. by rewrite foldl_app, last_snoc.
Qed.

Lemma tap_frames_stream `{RtMath} stream ps : Forall (fun fr => md_stream fr.1 = stream) (tap_frames stream ps).
Proof.
  apply Forall_lookup. intros i fr. unfold tap_frames. rewrite list_lookup_imap.
  destruct (_ !! i); [|done]. by intros [= <-].
Qed.

Lemma sent_on_stream id i j frames :
  Forall (fun fr => md_stream fr.1 = j) frames -> sent_on id i (PuSent id <$> frames) = if decide (j = i) then frames else [].
Proof.
  induction 1 as [|fr frames Hs _ IH]; [by case_decide|]. cbn. rewrite Hs. case_decide as Hd; case_decide as He; try tauto.
  f_equal. exact IH.
Qed.

(** ** The media thread *)

Definition framers_hold `{RtMath} (rounds : list PumpIn) (fs : list TapFramer) : Prop :=
  exists f0 f1 f2 f3, fs = [f0; f1; f2; f3]
    /\ framer_holds 0 (tapped 0 rounds) (f0, tap_frames 0 (tapped 0 rounds))
    /\ framer_holds 1 (tapped 1 rounds) (f1, tap_frames 1 (tapped 1 rounds))
    /\ framer_holds 2 (tapped 2 rounds) (f2, tap_frames 2 (tapped 2 rounds))
    /\ framer_holds 3 (tapped 3 rounds) (f3, tap_frames 3 (tapped 3 rounds)).

Lemma framer_feed `{RtMath} rounds r (i : nat) f :
  whole rounds -> framer_holds (Z.of_nat i) (tapped i rounds) (f, tap_frames (Z.of_nat i) (tapped i rounds)) ->
  let '(g, more) := tap_feed (pu_got r i) f in
  tap_frames (Z.of_nat i) (tapped i (rounds ++ [r])) = tap_frames (Z.of_nat i) (tapped i rounds) ++ more
  /\ framer_holds (Z.of_nat i) (tapped i (rounds ++ [r])) (g, tap_frames (Z.of_nat i) (tapped i (rounds ++ [r])))
  /\ Forall (fun fr => md_stream fr.1 = Z.of_nat i) more.
Proof.
  intros Hw Hf. apply (feed_pairs_hold _ (pairs (pu_got r i))) in Hf. rewrite <-tapped_snoc in Hf by done.
  rewrite feed_pair_out in Hf. unfold tap_feed. destruct (foldl feed_pair (f, []) (pairs (pu_got r i))) as [g more].
  pose proof (fh_out _ _ _ Hf) as Ho. cbn [snd] in Ho. rewrite <-Ho. split_and!; [done|exact Hf|].
  pose proof (tap_frames_stream (Z.of_nat i) (tapped i (rounds ++ [r]))) as Hs. rewrite <-Ho in Hs.
  by apply Forall_app in Hs as [_ Hs].
Qed.

(** A round's frames: each stream's, as its reference has them next. *)
Lemma framers_feed `{RtMath} rounds r fs :
  whole rounds -> framers_hold rounds fs ->
  let fed := imap (fun i f => tap_feed (pu_got r i) f) fs in
  framers_hold (rounds ++ [r]) fed.*1
  /\ forall (i : nat) id, (i < 4)%nat ->
       tap_frames (Z.of_nat i) (tapped i (rounds ++ [r]))
       = tap_frames (Z.of_nat i) (tapped i rounds) ++ sent_on id (Z.of_nat i) (PuSent id <$> concat fed.*2).
Proof.
  intros Hw (f0 & f1 & f2 & f3 & -> & H0 & H1 & H2 & H3). cbn zeta. cbn [imap]. unfold compose.
  pose proof (framer_feed rounds r 0 f0 Hw H0) as K0. pose proof (framer_feed rounds r 1 f1 Hw H1) as K1.
  pose proof (framer_feed rounds r 2 f2 Hw H2) as K2. pose proof (framer_feed rounds r 3 f3 Hw H3) as K3.
  destruct (tap_feed (pu_got r 0) f0) as [g0 o0], (tap_feed (pu_got r 1) f1) as [g1 o1],
    (tap_feed (pu_got r 2) f2) as [g2 o2], (tap_feed (pu_got r 3) f3) as [g3 o3].
  destruct K0 as (E0 & G0 & S0), K1 as (E1 & G1 & S1), K2 as (E2 & G2 & S2), K3 as (E3 & G3 & S3).
  cbn [fmap list_fmap concat fst snd]. rewrite app_nil_r. split; [by exists g0, g1, g2, g3|].
  intros i id Hi. rewrite !fmap_app, !sent_on_app.
  rewrite !(sent_on_stream id _ _ o0 S0), !(sent_on_stream id _ _ o1 S1), !(sent_on_stream id _ _ o2 S2), !(sent_on_stream id _ _ o3 S3).
  destruct i as [|[|[|[|i]]]]; [| | | |lia]; cbn -[tap_frames]; rewrite ?app_nil_r; assumption.
Qed.

(** What holds after the rounds, of what a client was sent. *)
Record sent_well `{RtMath} (rounds : list PumpIn) (p : Pump) (log : list PumpEvent) (id : Z) (i : nat) : Prop := {
  sw_stretch : stretch (tap_frames (Z.of_nat i) (tapped i rounds)) (sent_on id (Z.of_nat i) log);
  sw_current : mp_current p = Some id ->
    exists n, (n <= length (tap_frames (Z.of_nat i) (tapped i rounds)))%nat
              /\ sent_on id (Z.of_nat i) log = drop n (tap_frames (Z.of_nat i) (tapped i rounds));
  sw_new : id ∉ concat (pu_conns <$> rounds) -> mp_current p <> Some id /\ sent_on id (Z.of_nat i) log = [];
}.

Lemma prefix_omap {A B : Type} (f : A -> option B) n l : omap f (take n l) `prefix_of` omap f l.
Proof. exists (omap f (drop n l)). by rewrite <-omap_app, take_drop. Qed.

(** A round writes to the connection taken last, or to the one before. *)
Lemma round_cases p r :
  let frames := concat (imap (fun i f => tap_feed (pu_got r i) f) (mp_framers p)).*2 in
  let '(p', more) := media_round r p in
  let conns := (foldl take_conn (mp_current p, []) (pu_conns r)) in
  mp_framers p' = (imap (fun i f => tap_feed (pu_got r i) f) (mp_framers p)).*1
  /\ ((mp_current p' = None /\ more = conns.2)
      \/ (exists c, conns.1 = Some c
          /\ ((mp_current p' = None /\ more = conns.2 ++ (PuSent c <$> take (pu_writes r) frames) ++ [PuClosed c])
              \/ (mp_current p' = Some c /\ more = conns.2 ++ (PuSent c <$> frames))))).
Proof.
  cbn zeta. unfold media_round. destruct (foldl take_conn (mp_current p, []) (pu_conns r)) as [[c|] log]; cbn [fst snd];
    [|by split; [|left]].
  destruct (pu_closed r c); [by split; [|left]|]. destruct (_ <? _)%nat; (split; [done|]; right; exists c; split; [done|]);
    [by left|by right].
Qed.

Section sent.
Context `{RtMath} (rounds : list PumpIn) (r : PumpIn) (p : Pump) (log : list PumpEvent) (id : Z) (i : nat).
Hypothesis Hw : whole rounds.
Hypothesis Hnd : NoDup (concat (pu_conns <$> rounds ++ [r])).
Hypothesis Hs : sent_well rounds p log id i.

Lemma conns_split : NoDup (concat (pu_conns <$> rounds) ++ pu_conns r).
Proof using Hnd. clear Hs. rewrite fmap_app, concat_app in Hnd. cbn in Hnd. by rewrite app_nil_r in Hnd. Qed.

Lemma current_source c :
  (foldl take_conn (mp_current p, []) (pu_conns r)).1 = Some c -> c ∈ pu_conns r \/ mp_current p = Some c.
Proof using.
  rewrite take_conns_current. destruct (last (pu_conns r)) as [d|] eqn:Hl; [|by right].
  intros [= ->]. left. by apply last_Some_elem_of.
Qed.

(** The client of the moment was sent everything since some frame. *)
Lemma current_open :
  (foldl take_conn (mp_current p, []) (pu_conns r)).1 = Some id ->
  exists n, (n <= length (tap_frames (Z.of_nat i) (tapped i rounds)))%nat
            /\ sent_on id (Z.of_nat i) log = drop n (tap_frames (Z.of_nat i) (tapped i rounds)).
Proof using Hnd Hs.
  intros [Hin|Hc]%current_source; [|by apply (sw_current _ _ _ _ _ Hs)].
  pose proof conns_split as Hsp. apply NoDup_app in Hsp as (_ & Hsp & _).
  destruct (sw_new _ _ _ _ _ Hs) as [_ He]; [by intros Hi; apply (Hsp id)|].
  exists (length (tap_frames (Z.of_nat i) (tapped i rounds))). by rewrite He, drop_all.
Qed.

Lemma round_sent :
  framers_hold rounds (mp_framers p) -> (i < 4)%nat ->
  sent_well (rounds ++ [r]) (media_round r p).1 (log ++ (media_round r p).2) id i.
Proof using Hw Hnd Hs.
  intros Hf Hi. destruct (framers_feed rounds r (mp_framers p) Hw Hf) as [_ Hfr]. specialize (Hfr i id Hi).
  pose proof (round_cases p r) as Hc. cbn zeta in Hc. destruct (media_round r p) as [p' more]. destruct Hc as [_ Hc].
  set (frames := concat (imap (fun i f => tap_feed (pu_got r i) f) (mp_framers p)).*2) in *. cbn [fst snd].
  set (T := tap_frames (Z.of_nat i) (tapped i rounds)) in *. cbn zeta in Hfr.
  assert (Hnew : id ∉ concat (pu_conns <$> rounds ++ [r]) -> id ∉ concat (pu_conns <$> rounds) /\ id ∉ pu_conns r).
  { rewrite fmap_app, concat_app. cbn. rewrite app_nil_r, not_elem_of_app. done. }
  assert (Hlog : sent_on id (Z.of_nat i) (foldl take_conn (mp_current p, []) (pu_conns r)).2 = []) by apply take_conns_log.
  (* the client was sent nothing more, and is not the one of the moment *)
  assert (Hquiet : sent_on id (Z.of_nat i) more = [] -> mp_current p' <> Some id ->
                   sent_well (rounds ++ [r]) p' (log ++ more) id i).
  { intros Hm Hn. split; rewrite sent_on_app, Hm, app_nil_r; [|done|].
    - rewrite Hfr. apply stretch_grows, (sw_stretch _ _ _ _ _ Hs).
    - intros [Ho _]%Hnew. split; [done|by apply (sw_new _ _ _ _ _ Hs)]. }
  (* the client is the one of the moment, and was sent some of the frames, or all *)
  assert (Hmine : forall n, (foldl take_conn (mp_current p, []) (pu_conns r)).1 = Some id ->
      sent_on id (Z.of_nat i) more = sent_on id (Z.of_nat i) (PuSent id <$> take n frames) ->
      (mp_current p' = Some id -> take n frames = frames) -> sent_well (rounds ++ [r]) p' (log ++ more) id i).
  { intros n Hcur Hm Hall. destruct (current_open Hcur) as (m & Hm1 & Hm2). fold T in Hm1, Hm2.
    split; rewrite sent_on_app, Hm, Hm2, ?Hfr.
    - apply stretch_open; [done|]. rewrite fmap_take. apply prefix_omap.
    - intros He%Hall. exists m. rewrite He, drop_app_le by done. split; [rewrite length_app; lia|done].
    - intros [Ho Hr]%Hnew. exfalso. apply current_source in Hcur as [Hcur|Hcur]; [done|].
      by apply (sw_new _ _ _ _ _ Hs) in Ho as [Ho _]. }
  destruct Hc as [[Hp ->]|(c & Hcur & Hc)]; [apply Hquiet; [done|by rewrite Hp]|].
  destruct (decide (c = id)) as [->|Hne].
  - destruct Hc as [[Hp ->]|[Hp ->]].
    + apply (Hmine (pu_writes r)); [done| |by rewrite Hp]. rewrite !sent_on_app, Hlog. cbn [app]. apply app_nil_r.
    + apply (Hmine (length frames)); [done| |by rewrite firstn_all]. by rewrite sent_on_app, Hlog, firstn_all.
  - apply Hquiet.
    + destruct Hc as [[_ ->]|[_ ->]]; rewrite !sent_on_app, Hlog, sent_on_other by done; done.
    + destruct Hc as [[-> _]|[-> _]]; congruence.
Qed.
End sent.

(** C28: every listener hears the tap: whoever connects, closes or stops reading,
    the frames a media client is sent on a stream are an unbroken stretch of the
    frames of the reference: all that the tap's ring gave, convolved with the
    half-band filter, every second sample, cut into 20 ms frames numbered from 0. *)
Theorem listeners_hear_the_tap `{RtMath} rounds id (i : nat) :
  whole rounds -> NoDup (concat (pu_conns <$> rounds)) -> (i < 4)%nat ->
  stretch (tap_frames (Z.of_nat i) (tapped i rounds)) (sent_on id (Z.of_nat i) (media_pump rounds).2).
Proof.
  intros Hw Hnd Hi. enough (framers_hold rounds (mp_framers (media_pump rounds).1)
    /\ sent_well rounds (media_pump rounds).1 (media_pump rounds).2 id i) as [_ [Hs _ _]] by done.
  induction rounds as [|r rounds IH] using rev_ind.
  - split; [|split; [by exists 0%nat, 0%nat|done|done]].
    exists (TapFramer_new 0), (TapFramer_new 1), (TapFramer_new 2), (TapFramer_new 3).
    split; [done|]. split_and!; apply TapFramer_new_holds.
  - apply Forall_app in Hw as [Hw _]. assert (Hnd' := Hnd). rewrite fmap_app, concat_app in Hnd'.
    apply NoDup_app in Hnd' as [Hnd' _]. destruct (IH Hw Hnd') as [Hf Hs].
    unfold media_pump in *. rewrite foldl_app. cbn [foldl].
    destruct (foldl _ (Pump_new, []) rounds) as [p log]. cbn [fst snd] in *.
    pose proof (round_sent rounds r p log id i Hw Hnd Hs Hf Hi) as Hs'.
    pose proof (round_cases p r) as Hc. cbn zeta in Hc. destruct (media_round r p) as [p' more]. destruct Hc as [Hc _].
    split; [|done]. cbn [fst snd]. rewrite Hc. by apply framers_feed.
Qed.

Definition demo_rounds : list PumpIn :=
  [mkPumpIn [1] (fun _ => [f64_1; f64_half]) (fun _ => false) 9;
   mkPumpIn [2] (fun i => if (i =? 1)%nat then [] else [f64_half; f64_1; f64_0; f64_0]) (fun _ => false) 0].

Lemma listeners_hear_the_tap_witness :
  whole demo_rounds /\ stretch (tap_frames 0 (tapped 0 demo_rounds)) (sent_on 2 0 (media_pump demo_rounds).2).
Proof.
  assert (Hw : whole demo_rounds).
  { repeat apply Forall_cons_2; [done| |by apply Forall_nil_2]. intros i. cbn. by destruct (i =? 1)%nat. }
  split; [exact Hw|]. apply (listeners_hear_the_tap demo_rounds 2 0); [exact Hw| |lia].
  apply (bool_decide_unpack _). by vm_compute.
Defined.

(** A frame is 20 ms of stereo, one [write_media] accepts. *)
Lemma tap_frame_size `{RtMath} stream ps fr :
  fr ∈ tap_frames stream ps -> Z.of_nat (length fr.2) = media_samples fr.1 /\ media_samples fr.1 <= MAX_SAMPLES.
Proof.
  intros [i Hi]%list_elem_of_lookup. unfold tap_frames in Hi. rewrite list_lookup_imap in Hi.
  destruct (chunks (2 * FRAME) (tap_samples ps) !! i) as [c|] eqn:Hc; [|done]. injection Hi as <-. cbn [fst snd].
  apply list_elem_of_lookup_2, chunk_length in Hc. rewrite Hc. vm_compute. split; [done|by intros].
Qed.

(** The frames and the framer's buffer are all the samples: nothing is lost. *)
Lemma tap_frames_complete `{RtMath} stream pieces :
  Forall (fun piece => Nat.even (length piece) = true) pieces ->
  let '(f, frames) := tap_run pieces (TapFramer_new stream) in
  concat frames.*2 ++ tf_buf f = tap_samples (pairs (concat pieces)).
Proof.
  intros Hp. rewrite tap_run_pairs by done.
  pose proof (feed_pairs_hold stream (pairs (concat pieces)) [] _ (TapFramer_new_holds stream)) as Hf.
  destruct (foldl feed_pair (TapFramer_new stream, []) (pairs (concat pieces))) as [f frames].
  destruct Hf as [_ _ _ _ _ _ Hb Ho]. cbn [fst snd app] in *. rewrite Hb, Ho.
  rewrite <-(chunks_rest (2 * FRAME) (tap_samples (pairs (concat pieces)))) at 2 by (unfold FRAME; lia). f_equal. f_equal.
  unfold tap_frames. rewrite fmap_imap. unfold compose. cbn [snd]. generalize (chunks (2 * FRAME) (tap_samples (pairs (concat pieces)))).
  intros l. apply list_eq. intros i. rewrite list_lookup_imap. by destruct (l !! i).
Qed.

(** The talkback after the media frames [ins], each with the room its ring had. *)
Definition talk_run `{RtMath} (ins : list (list f64 * nat)) : TalkbackFeed * list (list f64 * nat) :=
  foldl (fun '(f, outs) '(samples, room) => let '(f, out) := talk_feed samples room f in (f, outs ++ [out])) (TalkbackFeed_new, []) ins.

Lemma talk_run_holds `{RtMath} ins : feed_holds (concat ins.*1) (talk_run ins).1.
Proof.
  induction ins as [|[samples room] ins IH] using rev_ind; [apply TalkbackFeed_new_holds|].
  unfold talk_run in *. rewrite foldl_app. cbn [foldl]. destruct (foldl _ (TalkbackFeed_new, []) ins) as [f outs]. cbn [fst] in IH.
  unfold talk_feed. pose proof (talk_fold_holds samples _ f IH) as Hf. destruct (foldl talk_sample (f, []) samples) as [g s].
  rewrite fmap_app, concat_app. cbn [fmap list_fmap concat fst]. rewrite app_nil_r. apply Hf.
Qed.

(** C29: the talkback enters as the reference has it: whatever was fed before and
    dropped, a frame's samples reach the ring as their place in the convolution
    of all talkback with the half-band filter, zeros stuffed between the samples
    and a sample that is no number heard as silence; what the ring has no room
    for is dropped at the end of the frame and counted, and no more. *)
Theorem talkback_is_reference `{RtMath} ins samples room :
  let before := concat ins.*1 in
  let fed := drop (2 * length before) (talk_samples (before ++ samples)) in
  let '(pushed, dropped) := (talk_feed samples room (talk_run ins).1).2 in
  pushed = take room fed /\ dropped = (2 * length samples - room)%nat /\ (length pushed + dropped = 2 * length samples)%nat.
Proof.
  cbn zeta. pose proof (talk_fold_holds samples _ _ (talk_run_holds ins)) as Hf. unfold talk_feed.
  destruct (foldl talk_sample ((talk_run ins).1, []) samples) as [g s]. destruct Hf as [_ Hs]. cbn [snd].
  assert (Hl : forall xs, length (talk_samples xs) = (2 * length xs)%nat).
  { intros xs. unfold talk_samples. by rewrite length_fmap, length_seq, stuffed_length. }
  assert (Hlen : length s = (2 * length samples)%nat).
  { apply (f_equal length) in Hs. rewrite length_app, !Hl, length_app in Hs. lia. }
  rewrite Hs, drop_app_length' by (by rewrite Hl). rewrite length_take, length_drop, Hlen. split_and!; [done|lia|lia].
Qed.
