(* ===== verification/Health.v ===== *)
(** * The box's health ([iem-dante-dev/src/health.rs], [lib.rs])

    [parse_units] reads systemd's words, [server_answer] the server's version
    reply, [verdict] judges the box from both and from two reads of the device's
    control socket; [parse_args] is the command line.  The device's own judgement
    [device_reasons] and the status record belong to a library and are
    parameters, as is the JSON of the reply's body; the reply is taken as text. *)

From S2P Require Import Prelude Text.
From Stdlib Require Import Ascii.
From stdpp Require Import options.
Local Open Scope Z_scope.
#[local] Unset Default Proof Using.

(** ** Words *)

Inductive Active :=
| AcActive | AcReloading | AcInactive | AcFailed | AcActivating | AcDeactivating | AcMaintenance | AcRefreshing | AcOther.

#[export] Instance Active_eq_dec : EqDecision Active.
Proof. solve_decision. Defined.

Definition Active_from_word (word : string) : Active :=
  if decide (word = "active") then AcActive
  else if decide (word = "reloading") then AcReloading
  else if decide (word = "inactive") then AcInactive
  else if decide (word = "failed") then AcFailed
  else if decide (word = "activating") then AcActivating
  else if decide (word = "deactivating") then AcDeactivating
  else if decide (word = "maintenance") then AcMaintenance
  else if decide (word = "refreshing") then AcRefreshing
  else AcOther.

Inductive UnitResult :=
| UrSuccess | UrResources | UrProtocol | UrTimeout | UrExitCode | UrSignal | UrCoreDump | UrWatchdog
| UrStartLimitHit | UrOomKill | UrExecCondition | UrOther.

Definition UnitResult_from_word (word : string) : UnitResult :=
  if decide (word = "success") then UrSuccess
  else if decide (word = "resources") then UrResources
  else if decide (word = "protocol") then UrProtocol
  else if decide (word = "timeout") then UrTimeout
  else if decide (word = "exit-code") then UrExitCode
  else if decide (word = "signal") then UrSignal
  else if decide (word = "core-dump") then UrCoreDump
  else if decide (word = "watchdog") then UrWatchdog
  else if decide (word = "start-limit-hit") then UrStartLimitHit
  else if decide (word = "oom-kill") then UrOomKill
  else if decide (word = "exec-condition") then UrExecCondition
  else UrOther.

Record Unit := mkUnit { un_active : Active; un_result : UnitResult; un_restarts : Z; un_active_since_us : Z }.
Definition Unit_default : Unit := mkUnit AcOther UrOther 0 0.

Record Units := mkUnits { us_engine : Unit; us_server : Unit; us_device : Unit }.
Definition Units_default : Units := mkUnits Unit_default Unit_default Unit_default.

(** ** [systemctl show] *)

(** One [Key=Value] of a block. *)
Definition unit_key (acc : Unit * option string) (key value : string) : Unit * option string :=
  let '(u, id) := acc in
  if decide (key = "Id") then (u, Some value)
  else if decide (key = "ActiveState")
  then (mkUnit (Active_from_word value) (un_result u) (un_restarts u) (un_active_since_us u), id)
  else if decide (key = "Result")
  then (mkUnit (un_active u) (UnitResult_from_word value) (un_restarts u) (un_active_since_us u), id)
  else if decide (key = "NRestarts")
  then (mkUnit (un_active u) (un_result u) (default 0 (parse_u32 value)) (un_active_since_us u), id)
  else if decide (key = "ActiveEnterTimestampMonotonic")
  then (mkUnit (un_active u) (un_result u) (un_restarts u) (default 0 (parse_u64 value)), id)
  else (u, id).

Definition unit_line (acc : Unit * option string) (line : string) : Unit * option string :=
  match split_once "=" line with Some (key, value) => unit_key acc key value | None => acc end.

Definition put_unit (units : Units) (block : Unit * option string) : Units :=
  match block.2 with
  | Some id =>
      if decide (id = "iem-engine.service") then mkUnits block.1 (us_server units) (us_device units)
      else if decide (id = "iem-server.service") then mkUnits (us_engine units) block.1 (us_device units)
      else if decide (id = "iem-dante.service") then mkUnits (us_engine units) (us_server units) block.1
      else units
  | None => units
  end.

Definition parse_units (text : string) : Units :=
  foldl (fun units block => put_unit units (foldl unit_line (Unit_default, None) (lines block)))
    Units_default (split (newline +:+ newline) text).

(** ** The server's answer *)

Inductive ServerAnswer :=
| Silent
| Answered (git_hash : string).

(** [serde_json::from_str::<VersionReply>], its [git_hash]. *)
Class VersionJson := version_reply : string -> option string.

Definition is_ascii_space (c : ascii) : bool :=
  let n := nat_of_ascii c in
  (n =? 32)%nat || (n =? 9)%nat || (n =? 10)%nat || (n =? 12)%nat || (n =? 13)%nat.

(** [split_ascii_whitespace]. *)
Fixpoint words (s : string) (word : string) : list string :=
  match s with
  | EmptyString => if decide (word = "") then [] else [word]
  | String c s =>
      if is_ascii_space c then (if decide (word = "") then words s "" else word :: words s "")
      else words s (word +:+ String c "")
  end.

Definition server_answer `{VersionJson} (text : string) : ServerAnswer :=
  match split_once (carriage +:+ newline +:+ carriage +:+ newline) text with
  | None => Silent
  | Some (top, body) =>
      match words (default "" (head (lines top))) "" with
      | version :: status :: _ =>
          if negb (bool_decide (status = "200")) then Silent
          else if bool_decide (strip_prefix "HTTP/1." version = None) then Silent
          else match version_reply body with Some git_hash => Answered git_hash | None => Silent end
      | _ => Silent
      end
  end.

(** ** The verdict *)

Inductive State := Healthy | Degraded | Failed | Stopped.

Definition exit_code (s : State) : Z :=
  match s with Healthy => 0 | Degraded | Failed => 1 | Stopped => 3 end.

Inductive Reason :=
| UnitFailed | UnitDown | Restarted | NoStatus | ClockNotReady | Holdover | PumpFree | PumpStalled | PumpRebootstrap
| ServerDown | BuildMismatch.

#[export] Instance Reason_eq_dec : EqDecision Reason.
Proof. solve_decision. Defined.

(** The library's. *)
Inductive DeviceReason := DrNoStatus | DrClockNotReady | DrHoldover | DrPumpFree | DrPumpStalled | DrPumpRebootstrap.

Definition Reason_from (r : DeviceReason) : Reason :=
  match r with
  | DrNoStatus => NoStatus
  | DrClockNotReady => ClockNotReady
  | DrHoldover => Holdover
  | DrPumpFree => PumpFree
  | DrPumpStalled => PumpStalled
  | DrPumpRebootstrap => PumpRebootstrap
  end.

Inductive Build := Same | OtherBuild.

(** What the verdict uses of the device's library. *)
Class Device := {
  Status : Type;
  Clock : Type;
  Pump : Type;
  status_clock : Status -> Clock;
  status_engine : Status -> option Pump;
  device_reasons : option Status -> option Status -> bool -> list DeviceReason;
}.

Record Verdict `{Device} := mkVerdict {
  v_state : State;
  v_reasons : list Reason;
  v_units : Units;
  v_clock : option Clock;
  v_pump : option Pump;
  v_answers : bool;
  v_build : option Build;
}.

Inductive Shape := ShEngine | ShDevice.

#[export] Instance Shape_eq_dec : EqDecision Shape.
Proof. solve_decision. Defined.

Definition shape (u : Units) : option Shape :=
  if bool_decide (un_active (us_engine u) <> AcInactive) || bool_decide (un_active (us_server u) <> AcInactive) then Some ShEngine
  else if bool_decide (un_active (us_device u) <> AcInactive) then Some ShDevice
  else None.

Definition same_build (git_hash own_build : string) : bool :=
  bool_decide (git_hash <> "") && bool_decide (is_Some (strip_prefix git_hash own_build)).

Definition fails (reason : Reason) (clock_grace : bool) : bool :=
  match reason with
  | UnitFailed | UnitDown | NoStatus | PumpStalled | ServerDown => true
  | ClockNotReady => negb clock_grace
  | Restarted | Holdover | PumpFree | PumpRebootstrap | BuildMismatch => false
  end.

Definition CLOCK_GRACE_US : Z := 30000000.

Definition build_of (server : ServerAnswer) (own_build : string) : option Build :=
  match server with
  | Silent => None
  | Answered git_hash => Some (if same_build git_hash own_build then Same else OtherBuild)
  end.

(** [u64::saturating_sub]. *)
Definition u64_saturating_sub (a b : Z) : Z := Z.max 0 (a - b).

Definition when_r (b : bool) (r : Reason) : list Reason := if b then [r] else [].

Definition host_of (sh : Shape) (u : Units) : Unit := match sh with ShEngine => us_engine u | ShDevice => us_device u end.
Definition needed_of (sh : Shape) (u : Units) : list Unit :=
  match sh with ShEngine => [us_engine u; us_server u] | ShDevice => [us_device u] end.
Definition all_units (u : Units) : list Unit := [us_engine u; us_server u; us_device u].

Section verdict.
Context `{Device}.

(** The host's reasons, and whether its clock is within its grace. *)
Definition host_reasons (host : Unit) (first second : option Status) (engine : bool) (now_mono_us : Z) : bool * list Reason :=
  if bool_decide (un_active host = AcActive) then
    foldl (fun '(grace, reasons) r =>
             let reason := Reason_from r in
             (if bool_decide (reason = ClockNotReady)
              then u64_saturating_sub now_mono_us (un_active_since_us host) <=? CLOCK_GRACE_US else grace,
              reasons ++ [reason]))
      (false, []) (device_reasons first second engine)
  else (false, []).

Definition unit_reasons (sh : Shape) (u : Units) : list Reason :=
  when_r (existsb (fun x => bool_decide (un_active x = AcFailed)) (all_units u)) UnitFailed
  ++ when_r (existsb (fun x => bool_decide (un_active x <> AcActive) && bool_decide (un_active x <> AcFailed)) (needed_of sh u)) UnitDown
  ++ when_r (existsb (fun x => 0 <? un_restarts x) (all_units u)) Restarted.

Definition server_reasons (sh : Shape) (u : Units) (build : option Build) : list Reason :=
  if bool_decide (sh = ShEngine) && bool_decide (un_active (us_server u) = AcActive) then
    match build with None => [ServerDown] | Some OtherBuild => [BuildMismatch] | Some Same => [] end
  else [].

Definition verdict (u : Units) (first second : option Status) (server : ServerAnswer) (own_build : string) (now_mono_us : Z) : Verdict :=
  let build := build_of server own_build in
  let shown := match second with Some s => Some s | None => first end in
  let v st rs := mkVerdict _ st rs u (status_clock <$> shown) (shown ≫= status_engine) (bool_decide (is_Some build)) build in
  match shape u with
  | None => v Stopped []
  | Some sh =>
      let '(grace, host) := host_reasons (host_of sh u) first second (bool_decide (sh = ShEngine)) now_mono_us in
      let reasons := unit_reasons sh u ++ host ++ server_reasons sh u build in
      v (if existsb (fun r => fails r grace) reasons then Failed
         else match reasons with [] => Healthy | _ => Degraded end) reasons
  end.
End verdict.

(** ** The command line ([lib.rs]) *)

Definition SOCKET : string := "/run/iem-dante/control.sock".
Definition SERVER_PORT : Z := 80.

Record Options := mkOptions { op_socket : string; op_server_port : Z }.

Inductive Command :=
| HealthOf (o : Options)
| Help.

(** The errors, with what their texts quote. *)
Inductive Usage :=
| UnknownArgument (arg : string)
| NeedsValue (arg : string)
| GivenTwice (arg : string)
| NeedsPath
| NotAPort (text : string).

Definition one_of (words : list string) (arg : string) : bool := bool_decide (arg ∈ words).

(** The loop over the arguments: help, or the socket and the port given. *)
Fixpoint health_args (args : list string) (socket port : option string) : result Usage (option (option string * option string)) :=
  match args with
  | [] => Ok (Some (socket, port))
  | arg :: args =>
      if one_of ["--help"; "-h"] arg then Ok None
      else if one_of ["--socket"; "--server-port"] arg then
        match args with
        | [] => Err (NeedsValue arg)
        | value :: args =>
            let socket_arg := bool_decide (arg = "--socket") in
            if bool_decide (is_Some (if socket_arg then socket else port)) then Err (GivenTwice arg)
            else if socket_arg then health_args args (Some value) port else health_args args socket (Some value)
        end
      else Err (UnknownArgument arg)
  end.

Definition parse_health (args : list string) : result Usage Command :=
  given ← health_args args None None;
  match given with
  | None => Ok Help
  | Some (socket, port) =>
      socket ← match socket with
               | Some path => if decide (path = "") then Err NeedsPath else Ok path
               | None => Ok SOCKET
               end;
      port ← match port with
             | None => Ok SERVER_PORT
             | Some text => match parse_uint u16_max text with
                            | Some n => if 0 <? n then Ok n else Err (NotAPort text)
                            | None => Err (NotAPort text)
                            end
             end;
      Ok (HealthOf (mkOptions socket port))
  end.

Definition parse_args (args : list string) : option (result Usage Command) :=
  match args with
  | first :: args => if decide (first = "health") then Some (parse_health args) else None
  | [] => None
  end.

Definition parse_ctl (args : list string) : option string :=
  match args with
  | first :: args =>
      if decide (first = "ctl") then
        match args with
        | [] => None
        | arg :: _ => if one_of ["--socket"; "--help"; "-h"] arg then None else Some (join " " args)
        end
      else None
  | [] => None
  end.

(** The exit code of [health] for its command line: the usage, an error of it,
    or the state's unless the line could not be printed. *)
Definition run_health (command : result Usage Command) (check : Options -> State) (printed : bool) : Z :=
  match command with
  | Ok Help => 0
  | Err _ => 2
  | Ok (HealthOf opts) => let state := check opts in if printed then exit_code state else 1
  end.
