(* ===== verification/HealthSpec.v ===== *)
(** * What the health line says

    [parse_units] reads the three units from any text [systemctl show] may
    print, in any order of units and of properties; the verdict's state is the
    one its documentation names, and its reasons are in order and without
    repetition. *)

From S2P Require Import Prelude Text Health.
From Stdlib Require Import Ascii.
From stdpp Require Import options.
Local Open Scope Z_scope.
#[local] Unset Default Proof Using.

(** ** [systemctl show] *)

Definition nl : ascii := "010"%char.

(** A [Key=Value] line as systemd prints it. *)
Definition property_ok (kv : string * string) : Prop :=
  lacks "=" kv.1 /\ lacks nl kv.1 /\ lacks "013" kv.1 /\ lacks nl kv.2 /\ lacks "013" kv.2.

Definition property_text (kv : string * string) : string := kv.1 +:+ "=" +:+ kv.2.
Definition block_text (kvs : list (string * string)) : string := join newline (property_text <$> kvs).

(** The blocks with an empty line between them, and a newline at the end. *)
Definition show_text (blocks : list (list (string * string))) : string :=
  join (newline +:+ newline) (block_text <$> blocks) +:+ newline.

Definition blocks_ok (blocks : list (list (string * string))) : Prop :=
  Forall (fun kvs => kvs <> [] /\ Forall property_ok kvs) blocks.

Definition read_block (kvs : list (string * string)) : Unit * option string :=
  foldl (fun acc '(k, v) => unit_key acc k v) (Unit_default, None) kvs.

Lemma lacks_app c a b : lacks c a -> lacks c b -> lacks c (a +:+ b).
Proof. unfold lacks. intros Ha Hb. by rewrite str_forallb_app, Ha, Hb. Qed.

Lemma property_lines kvs : Forall property_ok kvs -> line_text (property_text <$> kvs).
Proof.
  intros Hk. apply Forall_fmap. eapply Forall_impl; [exact Hk|]. intros [k v] (H1 & H2 & H3 & H4 & H5). cbn in *.
  unfold property_text. cbn [fst snd]. split_and!; [by apply lacks_app; [|apply lacks_app]..|].
  by destruct k.
Qed.

Lemma block_lines kvs acc : Forall property_ok kvs ->
  foldl unit_line acc (property_text <$> kvs) = foldl (fun acc '(k, v) => unit_key acc k v) acc kvs.
Proof.
  intros Hk. revert acc. induction Hk as [|[k v] kvs (He & _) _ IH]; intros acc; [done|].
  cbn [fmap list_fmap foldl]. rewrite <-IH. f_equal. unfold unit_line, property_text. cbn [fst snd] in *.
  by rewrite split_once_app.
Qed.

Definition gap : string := newline +:+ newline.

(** Lines with no empty one among them hold no empty line. *)
Lemma split_once_block ls t : line_text ls -> ls <> [] ->
  split_once gap (join newline ls +:+ t) = ('(x, y) ← split_once gap t; Some (join newline ls +:+ x, y)).
Proof.
  intros Hls. induction Hls as [|l ls (Hn & _ & _) Hls IH]; [done|]. intros _. destruct ls as [|l' ls].
  { cbn [join]. by apply split_once_skip. }
  rewrite join_cons, !str_app_assoc. unfold gap at 1. change (newline +:+ newline) with (String nl newline) at 1.
  rewrite split_once_skip by done. change (newline +:+ ?x) with (String nl x). cbn [split_once].
  assert (Hd : exists d m, join newline (l' :: ls) = String d m /\ d <> nl).
  { inversion_clear Hls as [|?? (Hl & _ & He) _]. destruct l' as [|d m]; [done|]. unfold lacks in Hl. cbn in Hl. bool_inv.
    destruct ls as [|l'' ls]; [by exists d, m|]. rewrite join_cons, str_app_cons. by eexists _, _. }
  destruct Hd as (d & m & Hj & Hd). cbn [strip_prefix]. rewrite decide_True by done. rewrite Hj, str_app_cons. cbn [strip_prefix newline].
  rewrite decide_False by (intros <-; by apply Hd). rewrite <-str_app_cons, <-Hj. change (String nl newline) with gap. rewrite IH by done.
  destruct (split_once gap t) as [[x y]|]; [|done]. cbn. by rewrite !str_app_assoc.
Qed.

Lemma lines_join_newline ls : line_text ls -> ls <> [] -> lines (join newline ls +:+ newline) = ls.
Proof.
  intros Hls Hne. unfold lines. assert (Hs : split newline (join newline ls +:+ newline) = ls ++ [""]).
  { induction Hls as [|l ls (Hn & _ & _) Hls IH]; [done|]. destruct ls as [|l' ls].
    - cbn [join]. rewrite (split_cons _ _ l ""); [done|done|]. rewrite <-(str_app_nil_r newline). by apply split_once_app.
    - rewrite join_cons, !str_app_assoc. erewrite split_cons; [|done|by apply split_once_app]. by rewrite IH. }
  rewrite Hs. clear Hne Hs. induction Hls as [|l ls (_ & Hc & _) Hls IH]; [done|].
  destruct (ls ++ [""]) as [|x xs] eqn:He; [by destruct ls|]. cbn [app]. rewrite He. cbn [chomp].
  change carriage with (String "013" ""). rewrite strip_suffix_lacks by done. cbn [default from_option]. f_equal. exact IH.
Qed.

Definition put_block (units : Units) (block : string) : Units :=
  put_unit units (foldl unit_line (Unit_default, None) (lines block)).

Lemma parse_blocks units blocks : blocks_ok blocks -> blocks <> [] ->
  foldl put_block units (split gap (show_text blocks)) = foldl put_unit units (read_block <$> blocks).
Proof.
  intros Hb. revert units. induction Hb as [|kvs blocks [Hne Hk] Hb IH]; intros units; [done|]. intros _.
  assert (Hls : line_text (property_text <$> kvs)) by (by apply property_lines).
  assert (Hnl : property_text <$> kvs <> []) by (by destruct kvs).
  destruct blocks as [|kvs' blocks].
  - unfold show_text. cbn [fmap list_fmap join]. rewrite split_one by (unfold block_text; by rewrite split_once_block).
    cbn [foldl]. unfold put_block. unfold block_text at 1. rewrite lines_join_newline by done. by rewrite block_lines.
  - assert (Hs : forall r, split_once gap (block_text kvs +:+ gap +:+ r) = Some (block_text kvs, r)).
    { intros r. unfold block_text. rewrite split_once_block by done.
      change (split_once gap (gap +:+ r)) with (Some ("", r)). cbn [mbind option_bind]. by rewrite str_app_nil_r. }
    unfold show_text. cbn [fmap list_fmap]. rewrite join_cons, !str_app_assoc. erewrite split_cons; [|done|apply Hs].
    cbn [foldl]. unfold put_block at 2. unfold block_text at 1. rewrite lines_join, block_lines by done.
    by apply (IH (put_unit units (read_block kvs))).
Qed.

(** ** Any order *)

(** Steps that commute for different keys may come in any order. *)
Lemma foldl_perm_key {A B K : Type} (f : A -> B -> A) (key : B -> K) a l l' :
  (forall a x y, key x <> key y -> f (f a x) y = f (f a y) x) ->
  l ≡ₚ l' -> NoDup (key <$> l) -> foldl f a l = foldl f a l'.
Proof.
  intros Hf Hp. revert a. induction Hp as [|x l l' _ IH|x y l|l1 l2 l3 H1 IH1 H2 IH2]; intros a Hn; cbn [foldl] in *.
  - done.
  - apply IH. by inversion Hn.
  - rewrite Hf; [done|]. intros He. inversion_clear Hn as [|?? Hin]. apply Hin. rewrite He. by left.
  - rewrite IH1 by done. apply IH2. by rewrite <-H1.
Qed.

Lemma unit_key_comm acc k v k' v' : k <> k' -> unit_key (unit_key acc k v) k' v' = unit_key (unit_key acc k' v') k v.
Proof. destruct acc as [u id]. intros Hk. unfold unit_key. repeat (case_decide; subst; try done). Qed.

Lemma put_unit_comm us b b' : b.2 <> b'.2 -> put_unit (put_unit us b) b' = put_unit (put_unit us b') b.
Proof.
  destruct b as [u [id|]], b' as [u' [id'|]]; try done. cbn. intros Hid. unfold put_unit. cbn.
  repeat (case_decide; subst; try done).
Qed.

(** What systemd shows of a unit, in its words. *)
Record Shown := mkShown { sh_active : string; sh_result : string; sh_restarts : Z; sh_since_us : Z }.

Definition shown_ok (s : Shown) : Prop := 0 <= sh_restarts s <= 4294967295 /\ u64_ok (sh_since_us s).

Definition unit_of (s : Shown) : Unit :=
  mkUnit (Active_from_word (sh_active s)) (UnitResult_from_word (sh_result s)) (sh_restarts s) (sh_since_us s).

Definition known_properties (id : string) (s : Shown) : list (string * string) :=
  [("Id", id); ("ActiveState", sh_active s); ("Result", sh_result s); ("NRestarts", dec (sh_restarts s));
   ("ActiveEnterTimestampMonotonic", dec (sh_since_us s))].

(** A block of the unit: its properties and any others, once each, in any order. *)
Definition shows (id : string) (s : Shown) (kvs : list (string * string)) : Prop :=
  shown_ok s /\ NoDup kvs.*1 /\ exists others, kvs ≡ₚ known_properties id s ++ others.

Lemma other_keys acc known others :
  NoDup (known ++ others).*1 -> known.*1 = (known_properties "" (mkShown "" "" 0 0)).*1 ->
  foldl (fun acc '(k, v) => unit_key acc k v) acc others = acc.
Proof.
  rewrite fmap_app. intros Hn Hk. rewrite Hk in Hn. apply NoDup_app in Hn as (_ & Hn & _). clear Hk.
  revert acc. induction others as [|[k v] others IH]; intros acc; [done|]. cbn [foldl].
  assert (Hk : forall key, key ∈ (known_properties "" (mkShown "" "" 0 0)).*1 -> k <> key).
  { intros key Hin ->. apply (Hn key Hin). by left. }
  rewrite IH; [|intros x Hx Hin; apply (Hn x Hx); by right]. destruct acc as [u id]. unfold unit_key.
  repeat (rewrite decide_False by (apply Hk; cbn; set_solver)). done.
Qed.

Lemma read_shown id s kvs : shows id s kvs -> read_block kvs = (unit_of s, Some id).
Proof.
  intros ([Hr Ht] & Hn & others & Hp). unfold read_block.
  rewrite (foldl_perm_key _ fst _ kvs (known_properties id s ++ others)); [|intros a [k v] [k' v']; apply unit_key_comm|done|done].
  rewrite foldl_app, (other_keys _ (known_properties id s)); [|by rewrite <-Hp|done].
  transitivity (mkUnit (Active_from_word (sh_active s)) (UnitResult_from_word (sh_result s))
    (default 0 (parse_u32 (dec (sh_restarts s)))) (default 0 (parse_u64 (dec (sh_since_us s)))), Some id); [reflexivity|].
  unfold parse_u32, parse_u64. by rewrite !parse_dec.
Qed.

(** The units are read from whatever [systemctl show] prints of them: in any
    order of the three units and of their properties, with any other properties
    between them, each unit gets its own words and numbers. *)
Theorem units_read_in_any_order blocks b1 b2 b3 engine server device :
  shows "iem-engine.service" engine b1 -> shows "iem-server.service" server b2 -> shows "iem-dante.service" device b3 ->
  blocks ≡ₚ [b1; b2; b3] -> blocks_ok blocks ->
  parse_units (show_text blocks) = mkUnits (unit_of engine) (unit_of server) (unit_of device).
Proof.
  intros H1 H2 H3 Hp Hb. assert (Hne : blocks <> []) by (intros ->; by apply Permutation_nil_l in Hp).
  unfold parse_units. fold put_block. fold gap. rewrite parse_blocks by done.
  assert (Hr : read_block <$> [b1; b2; b3] = [(unit_of engine, Some "iem-engine.service");
            (unit_of server, Some "iem-server.service"); (unit_of device, Some "iem-dante.service")]).
  { cbn. by rewrite (read_shown _ _ _ H1), (read_shown _ _ _ H2), (read_shown _ _ _ H3). }
  rewrite <-(foldl_perm_key put_unit snd _ (read_block <$> [b1; b2; b3])).
  - by rewrite Hr.
  - apply put_unit_comm.
  - by rewrite Hp.
  - rewrite Hr. by apply (bool_decide_unpack _).
Qed.

Definition demo_shown : Shown := mkShown "active" "success" 2 77.
Definition demo_blocks : list (list (string * string)) :=
  [[("Id", "iem-dante.service"); ("Result", "success"); ("ActiveState", "active"); ("NRestarts", "2"); ("ActiveEnterTimestampMonotonic", "77")];
   [("ActiveState", "active"); ("MainPID", "12=3"); ("Id", "iem-engine.service"); ("NRestarts", "2"); ("ActiveEnterTimestampMonotonic", "77"); ("Result", "success")];
   [("Id", "iem-server.service"); ("ActiveState", "active"); ("Result", "success"); ("NRestarts", "2"); ("ActiveEnterTimestampMonotonic", "77")]].

Lemma units_read_in_any_order_witness :
  parse_units (show_text demo_blocks) = mkUnits (unit_of demo_shown) (unit_of demo_shown) (unit_of demo_shown).
Proof.
  assert (Hok : shown_ok demo_shown) by (by vm_compute).
  apply (units_read_in_any_order demo_blocks (demo_blocks !!! 1%nat) (demo_blocks !!! 2%nat) (demo_blocks !!! 0%nat)).
  - split_and!; [exact Hok|by apply (bool_decide_unpack _)|exists [("MainPID", "12=3")]; by apply (bool_decide_unpack _)].
  - split_and!; [exact Hok|by apply (bool_decide_unpack _)|exists []; by apply (bool_decide_unpack _)].
  - split_and!; [exact Hok|by apply (bool_decide_unpack _)|exists []; by apply (bool_decide_unpack _)].
  - by apply (bool_decide_unpack _).
  - repeat apply Forall_cons_2; try apply Forall_nil_2; (split; [done|]); repeat apply Forall_cons_2; try apply Forall_nil_2;
      split_and!; by vm_compute.
Defined.

(** ** The verdict *)

(** The order of the reasons. *)
Definition rank (r : Reason) : nat :=
  match r with
  | UnitFailed => 0 | UnitDown => 1 | Restarted => 2 | NoStatus => 3 | ClockNotReady => 4 | Holdover => 5
  | PumpFree => 6 | PumpStalled => 7 | PumpRebootstrap => 8 | ServerDown => 9 | BuildMismatch => 10
  end.

(** The library lists the device's reasons in its order, each once. *)
Class DeviceOrder `{Device} : Prop :=
  device_in_order : forall first second engine,
    StronglySorted lt (rank ∘ Reason_from <$> device_reasons first second engine).

(** Why a reason fails the box rather than degrade it. *)
Definition fatal (host : Unit) (now_mono_us : Z) (r : Reason) : Prop :=
  r = UnitFailed \/ r = UnitDown \/ r = NoStatus \/ r = PumpStalled \/ r = ServerDown
  \/ (r = ClockNotReady /\ CLOCK_GRACE_US < now_mono_us - un_active_since_us host).

(** What a healthy box is. *)
Record sound `{Device} (u : Units) (sh : Shape) (first second : option Status) (build : option Build) : Prop := {
  so_needed : Forall (fun x => un_active x = AcActive) (needed_of sh u);
  so_failed : Forall (fun x => un_active x <> AcFailed) (all_units u);
  so_restarts : Forall (fun x => un_restarts x <= 0) (all_units u);
  so_device : device_reasons first second (bool_decide (sh = ShEngine)) = [];
  so_build : sh = ShEngine -> build = Some Same;
}.

Section verdict.
Context `{Device} `{!DeviceOrder}.

Lemma host_reasons_eq host first second engine now :
  un_active host = AcActive ->
  host_reasons host first second engine now
  = (bool_decide (ClockNotReady ∈ Reason_from <$> device_reasons first second engine)
     && (u64_saturating_sub now (un_active_since_us host) <=? CLOCK_GRACE_US),
     Reason_from <$> device_reasons first second engine).
Proof using Type.
  intros Ha. unfold host_reasons. rewrite bool_decide_true by done. generalize (device_reasons first second engine). intros l.
  induction l as [|r l IH] using rev_ind; [done|]. rewrite foldl_app, IH, fmap_app. cbn [foldl fmap list_fmap].
  apply (f_equal (fun g => (g, (Reason_from <$> l) ++ [Reason_from r]))). destruct (decide (Reason_from r = ClockNotReady)) as [Hr|Hr].
  - rewrite Hr, (bool_decide_true (_ = _)), (bool_decide_true (_ ∈ _)); [done| |done]. rewrite elem_of_app. right. by left.
  - rewrite (bool_decide_false (_ = _)) by done. f_equal. apply bool_decide_ext. rewrite elem_of_app, list_elem_of_singleton.
    split; [by left|intros [?|He]; [done|by destruct Hr]].
Qed.

Lemma host_reasons_idle host first second engine now :
  un_active host <> AcActive -> host_reasons host first second engine now = (false, []).
Proof using Type. intros Ha. unfold host_reasons. by rewrite bool_decide_false. Qed.

Lemma ranks_app l1 l2 k :
  StronglySorted lt (rank <$> l1) -> StronglySorted lt (rank <$> l2) ->
  Forall (fun r => (rank r < k)%nat) l1 -> Forall (fun r => (k <= rank r)%nat) l2 -> StronglySorted lt (rank <$> l1 ++ l2).
Proof using Type.
  intros H1 H2 Hl Hr. rewrite fmap_app. induction Hl as [|r l1 Hk _ IH]; [done|]. cbn in *. inversion_clear H1 as [|?? Hs Hf].
  constructor; [by apply IH|]. apply Forall_app_2; [done|]. apply Forall_fmap. eapply Forall_impl; [exact Hr|]. cbn. lia.
Qed.

Lemma unit_reasons_ranks sh u :
  StronglySorted lt (rank <$> unit_reasons sh u) /\ Forall (fun r => (rank r < 3)%nat) (unit_reasons sh u).
Proof using Type.
  unfold unit_reasons, when_r. repeat case_match; cbn; split; repeat constructor; cbn; lia.
Qed.

Lemma device_ranks first second engine :
  Forall (fun r => (3 <= rank r < 9)%nat) (Reason_from <$> device_reasons first second engine).
Proof using Type. apply Forall_fmap, Forall_forall. intros r _. destruct r; cbn; lia. Qed.

Lemma server_reasons_ranks sh u build :
  StronglySorted lt (rank <$> server_reasons sh u build) /\ Forall (fun r => (9 <= rank r)%nat) (server_reasons sh u build).
Proof using Type.
  unfold server_reasons. destruct (_ && _); [|by split; constructor]. destruct build as [[]|]; cbn; split; repeat constructor; cbn; lia.
Qed.

Lemma existsb_iff {A : Type} (f : A -> bool) l : existsb f l = true <-> Exists (fun x => f x = true) l.
Proof using Type. rewrite existsb_exists, Exists_exists. by setoid_rewrite list_elem_of_In. Qed.

Lemma existsb_not {A : Type} (f : A -> bool) l : existsb f l = false <-> Forall (fun x => f x = false) l.
Proof using Type.
  induction l as [|x l IH]; cbn; [by split|]. rewrite orb_false_iff, IH, Forall_cons. done.
Qed.

Lemma when_r_nil b r : when_r b r = [] <-> b = false.
Proof using Type. by destruct b. Qed.

Lemma unit_reasons_nil sh u :
  unit_reasons sh u = [] <->
  Forall (fun x => un_active x <> AcFailed) (all_units u) /\ Forall (fun x => un_active x = AcActive) (needed_of sh u)
  /\ Forall (fun x => un_restarts x <= 0) (all_units u).
Proof using Type.
  unfold unit_reasons. rewrite !app_nil, !when_r_nil, !existsb_not.
  assert (Hf : Forall (fun x => bool_decide (un_active x = AcFailed) = false) (all_units u)
               <-> Forall (fun x => un_active x <> AcFailed) (all_units u)).
  { apply Forall_iff. intros x. apply bool_decide_eq_false. }
  rewrite Hf. assert (Hr : Forall (fun x => (0 <? un_restarts x) = false) (all_units u) <-> Forall (fun x => un_restarts x <= 0) (all_units u)).
  { apply Forall_iff. intros x. apply Z.ltb_ge. }
  rewrite Hr. split; intros (H1 & H2 & H3); split_and!; try done.
  - assert (Hsub : Forall (fun x => un_active x <> AcFailed) (needed_of sh u)).
    { unfold all_units in H1. rewrite !Forall_cons in H1. destruct H1 as (Ha & Hb & Hc & _).
      destruct sh; repeat apply Forall_cons_2; try apply Forall_nil_2; done. }
    apply Forall_forall. intros x Hx. eapply Forall_forall in H2; [|exact Hx]. eapply Forall_forall in Hsub; [|exact Hx].
    cbn in *. rewrite andb_false_iff, !bool_decide_eq_false in H2. destruct H2 as [H2|H2]; [|done]. by apply dec_stable.
  - eapply Forall_impl; [exact H2|]. intros x Hx. cbn in *. by rewrite Hx.
Qed.

(** The state, of reasons and grace. *)
Lemma state_of_reasons grace (rs : list Reason) (st : State) :
  st = (if existsb (fun r => fails r grace) rs then Failed else match rs with [] => Healthy | _ => Degraded end) ->
  (st = Healthy <-> rs = []) /\ (st = Failed <-> Exists (fun r => fails r grace = true) rs) /\ st <> Stopped.
Proof using Type.
  intros ->. rewrite <-existsb_iff. destruct rs as [|r rs]; [naive_solver|]. destruct (existsb _ (r :: rs)) eqn:He; naive_solver.
Qed.

Lemma shape_none u : shape u = None <-> Forall (fun x => un_active x = AcInactive) (all_units u).
Proof using Type.
  unfold shape, all_units. rewrite !Forall_cons. repeat case_bool_decide; cbn; (split; [done || naive_solver|]); try done;
    intros (Ha & Hb & Hc & _); by exfalso; auto.
Qed.
End verdict.

Lemma fails_fatal host now r g :
  (r = ClockNotReady -> g = (u64_saturating_sub now (un_active_since_us host) <=? CLOCK_GRACE_US)) ->
  fails r g = true <-> fatal host now r.
Proof.
  unfold fatal, u64_saturating_sub. intros Hg. destruct r; cbn; try naive_solver.
  rewrite (Hg eq_refl), negb_true_iff, Z.leb_gt. unfold CLOCK_GRACE_US.
  split; [intros; do 5 right; split; [done|lia]|]. intros [?|[?|[?|[?|[?|[_ ?]]]]]]; try done; lia.
Qed.

(** The verdict is what its documentation says: stopped exactly when all
    three units are inactive, healthy exactly when the units that must run are
    active, none failed or restarted, the device has nothing to report and the
    server answers this build; failed exactly when a reason is fatal, a clock
    that is not ready only past the grace; and the reasons are listed in their
    order, each at most once. *)
Theorem verdict_says `{Device} `{!DeviceOrder} u first second server own_build now :
  let v := verdict u first second server own_build now in
  let build := build_of server own_build in
  (v_state v = Stopped <-> Forall (fun x => un_active x = AcInactive) (all_units u))
  /\ (v_state v = Healthy <-> exists sh, shape u = Some sh /\ sound u sh first second build)
  /\ (v_state v = Failed <-> exists sh r, shape u = Some sh /\ r ∈ v_reasons v /\ fatal (host_of sh u) now r)
  /\ StronglySorted lt (rank <$> v_reasons v).
Proof.
  cbn zeta. unfold verdict. rewrite <-shape_none. destruct (shape u) as [sh|] eqn:Hsh; cycle 1.
  { cbn. split; [done|split; [|split; [|constructor]]]; (split; [done|]); [by intros (? & ? & _)|by intros (? & ? & ? & _)]. }
  set (build := build_of server own_build).
  set (dr := Reason_from <$> device_reasons first second (bool_decide (sh = ShEngine))).
  assert (Hhost : exists g, host_reasons (host_of sh u) first second (bool_decide (sh = ShEngine)) now
       = (g, if decide (un_active (host_of sh u) = AcActive) then dr else [])
     /\ (ClockNotReady ∈ dr -> un_active (host_of sh u) = AcActive ->
         g = (u64_saturating_sub now (un_active_since_us (host_of sh u)) <=? CLOCK_GRACE_US))).
  { destruct (decide (un_active (host_of sh u) = AcActive)) as [Ha|Ha].
    - rewrite host_reasons_eq by done. eexists. split; [done|]. intros Hin _. by rewrite bool_decide_true.
    - rewrite host_reasons_idle by done. eexists. by split. }
  destruct Hhost as (g & -> & Hg). set (hr := if decide _ then dr else []) in *. cbn [v_state v_reasons].
  set (rs := unit_reasons sh u ++ hr ++ server_reasons sh u build).
  destruct (state_of_reasons g rs _ eq_refl) as (Hh & Hf & Hs).
  destruct (unit_reasons_ranks sh u) as [Ru Lu]. destruct (server_reasons_ranks sh u build) as [Rs Ls].
  assert (Hd : Forall (fun r => (3 <= rank r < 9)%nat) hr) by (subst hr; case_decide; [apply device_ranks|constructor]).
  assert (Rd : StronglySorted lt (rank <$> hr)).
  { subst hr dr. case_decide; [|constructor]. rewrite <-list_fmap_compose. apply device_in_order. }
  assert (Hclock : forall r, r ∈ rs -> r = ClockNotReady -> r ∈ dr /\ un_active (host_of sh u) = AcActive).
  { intros r Hin ->. subst rs. rewrite !elem_of_app in Hin. destruct Hin as [Hin|[Hin|Hin]].
    - eapply Forall_forall in Lu; [|exact Hin]. cbn in Lu. lia.
    - subst hr. case_decide; [done|]. by apply elem_of_nil in Hin.
    - eapply Forall_forall in Ls; [|exact Hin]. cbn in Ls. lia. }
  split; [|split; [|split]].
  - by split.
  - rewrite Hh. subst rs. rewrite !app_nil, unit_reasons_nil. split.
    + intros ((Hfa & Hn & Hr) & Hhr & Hsr). exists sh. split; [done|]. split; [done..| |].
      * assert (Ha : un_active (host_of sh u) = AcActive).
        { destruct sh; cbn [needed_of host_of] in *; by apply Forall_cons in Hn as [? _]. }
        subst hr. rewrite decide_True in Hhr by done. by apply fmap_nil_inv in Hhr.
      * intros ->. unfold server_reasons in Hsr. cbn [needed_of] in Hn. apply Forall_cons in Hn as [_ Hn]. apply Forall_cons in Hn as [Hn _].
        rewrite !bool_decide_true in Hsr by done. cbn in Hsr. by destruct build as [[]|].
    + intros (sh' & [= <-] & [Sn Sf Sr Sd Sb]). split; [done|]. split.
      * subst hr dr. rewrite Sd. by case_decide.
      * unfold server_reasons. case_bool_decide as He; [|done]. rewrite (Sb He). by destruct (bool_decide _).
  - rewrite Hf, Exists_exists. split.
    + intros (r & Hin & Hr). exists sh, r. split; [done|]. split; [done|].
      apply (fails_fatal _ _ _ g); [|done]. intros He. destruct (Hclock r Hin He) as [Hc Ha]. subst r. by apply Hg.
    + intros (sh' & r & [= <-] & Hin & Hr). exists r. split; [done|].
      apply (fails_fatal (host_of sh u) now); [|done]. intros He. destruct (Hclock r Hin He) as [Hc Ha]. subst r. by apply Hg.
  - apply (ranks_app _ _ 3); [done| |done|].
    + apply (ranks_app _ _ 9); [done|done| |done]. eapply Forall_impl; [exact Hd|]. cbn. lia.
    + apply Forall_app_2; (eapply Forall_impl; [eassumption|]); cbn; lia.
Qed.

Definition demo_device : Device := {|
  Status := bool;
  Clock := bool;
  Pump := bool;
  status_clock := fun s => s;
  status_engine := Some;
  device_reasons := fun first second _ =>
    match first, second with
    | Some _, Some ready => if ready then [] else [DrClockNotReady; DrPumpStalled]
    | _, _ => [DrNoStatus]
    end;
|}.

Lemma demo_device_order : @DeviceOrder demo_device.
Proof.
  intros first second engine. destruct first as [f|], second as [[]|]; cbn; repeat constructor; cbn; lia.
Qed.

Definition demo_units : Units :=
  let u := mkUnit AcActive UrSuccess 0 5 in mkUnits u u (mkUnit AcInactive UrSuccess 0 0).

Lemma verdict_says_witness :
  let v := @verdict demo_device demo_units (Some true) (Some true) (Answered "ab1") "ab12cd" 100 in
  v_state v = Healthy /\ exists sh, shape demo_units = Some sh
    /\ @sound demo_device demo_units sh (Some true) (Some true) (Some Same).
Proof.
  cbn zeta. assert (Hv : v_state (@verdict demo_device demo_units (Some true) (Some true) (Answered "ab1") "ab12cd" 100) = Healthy)
    by (by vm_compute).
  split; [exact Hv|].
  apply (proj1 (proj2 (@verdict_says demo_device demo_device_order demo_units (Some true) (Some true) (Answered "ab1") "ab12cd" 100))).
  exact Hv.
Defined.

(** The command line: what is understood, whatever the order of the options. *)
Lemma parse_health_options (socket : string) (n : Z) :
  socket <> "" -> 0 < n <= u16_max ->
  parse_args ["health"; "--socket"; socket; "--server-port"; dec n] = Some (Ok (HealthOf (mkOptions socket n)))
  /\ parse_args ["health"; "--server-port"; dec n; "--socket"; socket] = Some (Ok (HealthOf (mkOptions socket n))).
Proof.
  intros Hs Hn. unfold parse_args, parse_health. rewrite !(decide_True _ _ (eq_refl "health")).
  change (health_args ["--socket"; socket; "--server-port"; dec n] None None) with (Ok (E := Usage) (Some (Some socket, Some (dec n)))).
  change (health_args ["--server-port"; dec n; "--socket"; socket] None None) with (Ok (E := Usage) (Some (Some socket, Some (dec n)))).
  cbn [mbind result_bind]. destruct (decide (socket = "")); [done|]. rewrite parse_dec by lia.
  by rewrite (proj2 (Z.ltb_lt 0 n)) by lia.
Qed.

(** An option twice, an unknown word or a value that is missing is refused. *)
Lemma parse_health_refuses arg v v' rest :
  arg = "--socket" \/ arg = "--server-port" ->
  parse_health [arg] = Err (NeedsValue arg) /\ parse_health (arg :: v :: arg :: v' :: rest) = Err (GivenTwice arg).
Proof. by intros [-> | ->]. Qed.
