(* ===== verification/LoginGuard.v ===== *)
(** * Addresses

    The standard library's [IpAddr]: its textual form as [str::parse] reads it,
    [to_canonical] and [is_loopback]. *)

From S2P Require Import Prelude Text.
From Stdlib Require Import Ascii.
From stdpp Require Import options.
Local Open Scope Z_scope.
#[local] Unset Default Proof Using.

(** Four bytes, or eight 16-bit segments. *)
Inductive IpAddr :=
| IpV4 (a b c d : Z)
| IpV6 (s0 s1 s2 s3 s4 s5 s6 s7 : Z).

#[export] Instance IpAddr_eq_dec : EqDecision IpAddr.
Proof. solve_decision. Defined.

Definition ip_code (ip : IpAddr) : bool * list Z :=
  match ip with
  | IpV4 a b c d => (false, [a; b; c; d])
  | IpV6 s0 s1 s2 s3 s4 s5 s6 s7 => (true, [s0; s1; s2; s3; s4; s5; s6; s7])
  end.

Definition ip_decode (code : bool * list Z) : option IpAddr :=
  match code with
  | (false, [a; b; c; d]) => Some (IpV4 a b c d)
  | (true, [s0; s1; s2; s3; s4; s5; s6; s7]) => Some (IpV6 s0 s1 s2 s3 s4 s5 s6 s7)
  | _ => None
  end.

#[export] Instance IpAddr_countable : Countable IpAddr.
Proof. apply (inj_countable ip_code ip_decode). by intros []. Defined.

(** An IPv4-mapped IPv6 address is the IPv4 address. *)
Definition to_canonical (ip : IpAddr) : IpAddr :=
  match ip with
  | IpV6 0 0 0 0 0 65535 ab cd => IpV4 (ab / 256) (ab mod 256) (cd / 256) (cd mod 256)
  | ip => ip
  end.

Definition is_loopback (ip : IpAddr) : bool :=
  match ip with
  | IpV4 a _ _ _ => a =? 127
  | IpV6 s0 s1 s2 s3 s4 s5 s6 s7 => bool_decide ([s0; s1; s2; s3; s4; s5; s6; s7] = [0; 0; 0; 0; 0; 0; 0; 1])
  end.

(** ** [parse::<IpAddr>()]

    A reader of the text: what it read and what is left. *)

Definition hex_val (c : ascii) : option Z :=
  let n := Z.of_nat (nat_of_ascii c) in
  if (48 <=? n) && (n <=? 57) then Some (n - 48)
  else if (97 <=? n) && (n <=? 102) then Some (n - 87)
  else if (65 <=? n) && (n <=? 70) then Some (n - 55)
  else None.

(** Digits up to the first other character; [None] past [digits] of them or
    past [max]. *)
Fixpoint read_digits (value : ascii -> option Z) (radix max : Z) (digits : nat) (acc : Z) (n : nat) (s : string) : option (Z * nat * string) :=
  match s with
  | String c rest =>
      match value c with
      | Some d =>
          let acc := acc * radix + d in
          if (max <? acc) || (digits <? S n)%nat then None else read_digits value radix max digits acc (S n) rest
      | None => Some (acc, n, s)
      end
  | EmptyString => Some (acc, n, s)
  end.

Definition read_number (value : ascii -> option Z) (radix max : Z) (digits : nat) (zero_prefix : bool) (s : string) : option (Z * string) :=
  match read_digits value radix max digits 0 0 s with
  | None => None
  | Some (_, O, _) => None
  | Some (v, n, rest) =>
      if negb zero_prefix && bool_decide (is_Some (strip_prefix "0" s)) && (1 <? n)%nat then None else Some (v, rest)
  end.

Definition read_byte : string -> option (Z * string) := read_number digit_val 10 255 3 false.
Definition read_segment : string -> option (Z * string) := read_number hex_val 16 u16_max 4 true.

Definition read_ipv4 (s : string) : option ((Z * Z * Z * Z) * string) :=
  '(a, s) ← read_byte s; s ← strip_prefix "." s;
  '(b, s) ← read_byte s; s ← strip_prefix "." s;
  '(c, s) ← read_byte s; s ← strip_prefix "." s;
  '(d, s) ← read_byte s;
  Some ((a, b, c, d), s).

(** After a colon, but for the first group. *)
Definition separator (first : bool) (s : string) : option string := if first then Some s else strip_prefix ":" s.

(** Groups of an IPv6 address, [limit] at most; whether the last two are an
    IPv4 address. *)
Fixpoint read_groups (limit : nat) (first : bool) (s : string) : list Z * bool * string :=
  match limit with
  | O => ([], false, s)
  | S limit' =>
      match (if (1 <? limit)%nat then s ← separator first s; read_ipv4 s else None) with
      | Some ((a, b, c, d), rest) => ([a * 256 + b; c * 256 + d], true, rest)
      | None =>
          match (s ← separator first s; read_segment s) with
          | Some (g, rest) => let '(gs, v4, rest) := read_groups limit' false rest in (g :: gs, v4, rest)
          | None => ([], false, s)
          end
      end
  end.

Definition read_ipv6 (s : string) : option (list Z * string) :=
  let '(top, v4, rest) := read_groups 8 true s in
  if (length top =? 8)%nat then Some (top, rest)
  else if v4 then None
  else
    rest ← strip_prefix "::" rest;
    let '(tail, _, rest) := read_groups (8 - (length top + 1)) true rest in
    Some (top ++ replicate (8 - length top - length tail) 0 ++ tail, rest).

Definition parse_ip (s : string) : option IpAddr :=
  match read_ipv4 s with
  | Some ((a, b, c, d), rest) => if decide (rest = "") then Some (IpV4 a b c d) else None
  | None =>
      match read_ipv6 s with
      | Some (groups, rest) => if decide (rest = "") then ip_decode (true, groups) else None
      | None => None
      end
  end.

Example parse_ip_examples :
  parse_ip "192.168.1.20" = Some (IpV4 192 168 1 20) /\ parse_ip "192.168.01.20" = None /\ parse_ip "1.2.3.256" = None
  /\ parse_ip "2001:db8::1" = Some (IpV6 8193 3512 0 0 0 0 0 1) /\ parse_ip "::" = Some (IpV6 0 0 0 0 0 0 0 0)
  /\ parse_ip "::ffff:10.0.0.1" = Some (IpV6 0 0 0 0 0 65535 2560 1) /\ parse_ip "1:2:3:4:5:6:7" = None
  /\ parse_ip "1:2:3:4:5:6:7:8:9" = None /\ parse_ip "fe80::1 " = None.
Proof. by vm_compute. Qed.

(** * Login protection ([iem-server/src/login_guard.rs])

    The budgets of failed logins: a streak per client and member, a window per
    client, a window per origin, with the delays they owe; the keys clients are
    counted under; and the gate before the hashing.  Instants and durations are
    nanoseconds.  A [HashMap] is a [gmap]; the order it is gone through in, which
    only an eviction among equals depends on, is the class [HashIter]. *)

From S2P Require Import Prelude Text.
From Stdlib Require Import Ascii.
From stdpp Require Import options.
Local Open Scope Z_scope.
#[local] Unset Default Proof Using.

Definition secs (n : Z) : Z := n * 1000000000.

Definition FREE_FAILURES : Z := 3.
Definition STREAK_DECAY : Z := secs (15 * 60).
Definition MAX_DELAY : Z := secs 60.
Definition CLIENT_WINDOW : Z := secs (10 * 60).
Definition CLIENT_WINDOW_FAILURES : nat := 20.
Definition CLIENT_SPACING : Z := secs 60.
Definition ENGINEER_WINDOW : Z := secs (60 * 60).
Definition ENGINEER_WINDOW_FAILURES : nat := 30.
Definition ENGINEER_SPACING : Z := secs 5.
Definition MAX_TRACKED : Z := 4096.
Definition HASH_CONCURRENCY : nat := 2.
Definition HASH_QUEUE : nat := 8.

(** ** Who is counted *)

Inductive Origin := Lan | Tunnel.

#[export] Instance Origin_eq_dec : EqDecision Origin.
Proof. solve_decision. Defined.

#[export] Instance Origin_countable : Countable Origin.
Proof.
  apply (inj_countable' (fun o => match o with Lan => true | Tunnel => false end) (fun b : bool => if b then Lan else Tunnel)).
  by intros [].
Defined.

Record ClientKey := mkClientKey { ck_origin : Origin; ck_ip : IpAddr }.

#[export] Instance ClientKey_eq_dec : EqDecision ClientKey.
Proof. solve_decision. Defined.

#[export] Instance ClientKey_countable : Countable ClientKey.
Proof. apply (inj_countable' (fun k => (ck_origin k, ck_ip k)) (fun '(o, ip) => mkClientKey o ip)). by intros []. Defined.

(** An IPv6 client is its /64. *)
Definition budget_ip (ip : IpAddr) : IpAddr :=
  match to_canonical ip with
  | IpV6 s0 s1 s2 s3 _ _ _ _ => IpV6 s0 s1 s2 s3 0 0 0 0
  | v4 => v4
  end.

Definition HostAddrs : Type := gset IpAddr.

Definition HostAddrs_new (addrs : list IpAddr) : HostAddrs := list_to_set (to_canonical <$> addrs).

(** The interfaces as read, or none when they cannot be read. *)
Definition HostAddrs_read (interfaces : option (list IpAddr)) : HostAddrs :=
  match interfaces with Some addrs => HostAddrs_new addrs | None => ∅ end.

Definition host_contains (peer : IpAddr) (host : HostAddrs) : bool :=
  let peer := to_canonical peer in is_loopback peer || bool_decide (peer ∈ host).

(** [str::trim] of the visible ASCII a header's text is. *)
Fixpoint trim_start (s : string) : string :=
  match s with
  | String c rest => if (nat_of_ascii c =? 32)%nat || (nat_of_ascii c =? 9)%nat then trim_start rest else s
  | EmptyString => ""
  end.
Fixpoint trim_end (s : string) : string :=
  match s with
  | String c rest =>
      match trim_end rest with
      | EmptyString => if (nat_of_ascii c =? 32)%nat || (nat_of_ascii c =? 9)%nat then "" else String c ""
      | rest => String c rest
      end
  | EmptyString => ""
  end.
Definition trim (s : string) : string := trim_end (trim_start s).

(** [header]: the text of [cf-connecting-ip], when it is there and text. *)
Definition from_request (peer : IpAddr) (header : option string) (host : HostAddrs) : ClientKey :=
  let peer := to_canonical peer in
  match (if host_contains peer host then header ≫= parse_ip ∘ trim else None) with
  | Some ip => mkClientKey Tunnel (budget_ip ip)
  | None => mkClientKey Lan (budget_ip peer)
  end.

(** ** The budgets *)

Inductive FailureEffect := Counted | EngineerBudgetExhausted.

Record LoginStats := mkLoginStats { lan_failures : Z; tunnel_failures : Z; engineer_budget_trips : Z }.

Record Streak := mkStreak { sk_failures : Z; sk_last : Z }.

Record OriginBudget := mkOriginBudget { ob_failures : list Z; ob_admitted : option Z }.

Record Inner := mkInner {
  g_streaks : gmap (ClientKey * string) Streak;
  g_clients : gmap ClientKey (list Z);
  g_lan : OriginBudget;
  g_tunnel : OriginBudget;
  g_stats : LoginStats;
}.

Definition OriginBudget_default : OriginBudget := mkOriginBudget [] None.
Definition Inner_default : Inner := mkInner ∅ ∅ OriginBudget_default OriginBudget_default (mkLoginStats 0 0 0).

Definition origin_budget (o : Origin) (g : Inner) : OriginBudget := match o with Lan => g_lan g | Tunnel => g_tunnel g end.

Definition set_budget (o : Origin) (b : OriginBudget) (g : Inner) : Inner :=
  match o with
  | Lan => mkInner (g_streaks g) (g_clients g) b (g_tunnel g) (g_stats g)
  | Tunnel => mkInner (g_streaks g) (g_clients g) (g_lan g) b (g_stats g)
  end.
Definition set_streaks (m : gmap (ClientKey * string) Streak) (g : Inner) : Inner :=
  mkInner m (g_clients g) (g_lan g) (g_tunnel g) (g_stats g).
Definition set_clients (m : gmap ClientKey (list Z)) (g : Inner) : Inner :=
  mkInner (g_streaks g) m (g_lan g) (g_tunnel g) (g_stats g).
Definition set_stats (s : LoginStats) (g : Inner) : Inner :=
  mkInner (g_streaks g) (g_clients g) (g_lan g) (g_tunnel g) s.

(** [saturating_duration_since]. *)
Definition since (now then_ : Z) : Z := Z.max 0 (now - then_).

Definition streak_delay (failures : Z) : Z :=
  if failures <? FREE_FAILURES then 0
  else
    let exponent := failures - FREE_FAILURES in
    if 6 <=? exponent then MAX_DELAY else Z.min (secs (Z.shiftl 1 exponent)) MAX_DELAY.

Fixpoint prune (window : list Z) (now span : Z) : list Z :=
  match window with
  | oldest :: rest => if span <=? since now oldest then prune rest now span else window
  | [] => []
  end.

(** The order a map's entries come in, each once. *)
Class HashIter := {
  iter_streaks : gmap (ClientKey * string) Streak -> list ((ClientKey * string) * Streak);
  iter_clients : gmap ClientKey (list Z) -> list (ClientKey * list Z);
  iter_streaks_perm : forall m, iter_streaks m ≡ₚ map_to_list m;
  iter_clients_perm : forall m, iter_clients m ≡ₚ map_to_list m;
}.

(** [min_by_key]: the first of the smallest. *)
Fixpoint min_by {A : Type} (less : A -> A -> bool) (l : list A) : option A :=
  match l with
  | [] => None
  | x :: l => match min_by less l with Some y => Some (if less y x then y else x) | None => Some x end
  end.

(** [None] before [Some]. *)
Definition opt_less (a b : option Z) : bool :=
  match a, b with None, Some _ => true | Some a, Some b => a <? b | _, None => false end.

Section guard.
Context `{HashIter}.

Definition evict_oldest_streak (m : gmap (ClientKey * string) Streak) : gmap (ClientKey * string) Streak :=
  match min_by (fun a b => sk_last a.2 <? sk_last b.2) (iter_streaks m) with
  | Some (key, _) => delete key m
  | None => m
  end.

Definition evict_oldest_client (m : gmap ClientKey (list Z)) : gmap ClientKey (list Z) :=
  match min_by (fun a b => opt_less (last a.2) (last b.2)) (iter_clients m) with
  | Some (key, _) => delete key m
  | None => m
  end.

(** *** Admission *)

(** The streak's wait, if it owes one; an old streak is forgotten. *)
Definition check_streak (key : ClientKey * string) (now : Z) (g : Inner) : Inner * option Z :=
  match g_streaks g !! key with
  | Some streak =>
      let gone := since now (sk_last streak) in
      if STREAK_DECAY <=? gone then (set_streaks (delete key (g_streaks g)) g, None)
      else
        let delay := streak_delay (sk_failures streak) in
        (g, if gone <? delay then Some (delay - gone) else None)
  | None => (g, None)
  end.

Definition check_client (client : ClientKey) (now : Z) (g : Inner) : Inner * option Z :=
  match g_clients g !! client with
  | Some window =>
      let window := prune window now CLIENT_WINDOW in
      (set_clients (<[client := window]> (g_clients g)) g,
       if (CLIENT_WINDOW_FAILURES <=? length window)%nat then
         match last window with
         | Some l => if since now l <? CLIENT_SPACING then Some (CLIENT_SPACING - since now l) else None
         | None => None
         end
       else None)
  | None => (g, None)
  end.

Definition check_origin (o : Origin) (now : Z) (g : Inner) : Inner * option Z :=
  let b := origin_budget o g in
  let failures := prune (ob_failures b) now ENGINEER_WINDOW in
  let wait :=
    if (ENGINEER_WINDOW_FAILURES <? length failures)%nat then
      match ob_admitted b with
      | Some l => if since now l <? ENGINEER_SPACING then Some (ENGINEER_SPACING - since now l) else None
      | None => None
      end
    else None in
  (set_budget o (mkOriginBudget failures (match wait with Some _ => ob_admitted b | None => Some now end)) g, wait).

Definition check (client : ClientKey) (member : string) (now : Z) (g : Inner) : Inner * result Z unit :=
  match check_streak (client, member) now g with
  | (g, Some wait) => (g, Err wait)
  | (g, None) =>
      match check_client client now g with
      | (g, Some wait) => (g, Err wait)
      | (g, None) =>
          match check_origin (ck_origin client) now g with
          | (g, Some wait) => (g, Err wait)
          | (g, None) => (g, Ok tt)
          end
      end
  end.

(** *** What a login's end records *)

Definition count_streak (key : ClientKey * string) (now : Z) (g : Inner) : Inner :=
  let failures :=
    match g_streaks g !! key with
    | Some streak => if since now (sk_last streak) <? STREAK_DECAY then Z.min (sk_failures streak + 1) 4294967295 else 1
    | None => 1
    end in
  let m :=
    if bool_decide (g_streaks g !! key = None) && (MAX_TRACKED <=? Z.of_nat (size (g_streaks g)))
    then evict_oldest_streak (g_streaks g) else g_streaks g in
  set_streaks (<[key := mkStreak failures now]> m) g.

(** A window pushed at its end, kept to [max]. *)
Definition push_kept (max : nat) (window : list Z) (now : Z) : list Z :=
  let window := window ++ [now] in if (max <? length window)%nat then tail window else window.

Definition count_client (client : ClientKey) (now : Z) (g : Inner) : Inner :=
  let m :=
    if bool_decide (g_clients g !! client = None) && (MAX_TRACKED <=? Z.of_nat (size (g_clients g)))
    then evict_oldest_client (g_clients g) else g_clients g in
  let window := prune (default [] (m !! client)) now CLIENT_WINDOW in
  set_clients (<[client := push_kept CLIENT_WINDOW_FAILURES window now]> m) g.

Definition count_stats (o : Origin) (s : LoginStats) : LoginStats :=
  match o with
  | Lan => mkLoginStats (u64_wrapping_add (lan_failures s) 1) (tunnel_failures s) (engineer_budget_trips s)
  | Tunnel => mkLoginStats (lan_failures s) (u64_wrapping_add (tunnel_failures s) 1) (engineer_budget_trips s)
  end.

Definition count_origin (o : Origin) (now : Z) (g : Inner) : Inner * FailureEffect :=
  let b := origin_budget o g in
  let failures := prune (ob_failures b) now ENGINEER_WINDOW in
  let g := set_budget o (mkOriginBudget (push_kept (S ENGINEER_WINDOW_FAILURES) failures now) (ob_admitted b)) g in
  if (length failures =? ENGINEER_WINDOW_FAILURES)%nat
  then
    let s := g_stats g in
    (set_stats (mkLoginStats (lan_failures s) (tunnel_failures s) (u64_wrapping_add (engineer_budget_trips s) 1)) g,
     EngineerBudgetExhausted)
  else (g, Counted).

Definition record_failure (client : ClientKey) (member : string) (now : Z) (g : Inner) : Inner * FailureEffect :=
  let g := count_client client now (count_streak (client, member) now g) in
  count_origin (ck_origin client) now (set_stats (count_stats (ck_origin client) (g_stats g)) g).

Definition record_success (client : ClientKey) (member : string) (g : Inner) : Inner :=
  set_streaks (delete (client, member) (g_streaks g)) g.
End guard.

(** ** The gate before the hashing

    The requests in each phase of [acquire], counted: those that found no free
    permit, those that took a place in the queue, those that found it full and
    give their count back, and those that hash. *)

Record HashGate := mkHashGate {
  hg_free : nat;
  hg_count : nat;
  hg_max : nat;
  hg_late : nat;
  hg_queued : nat;
  hg_leaving : nat;
  hg_hashing : nat;
}.

Definition HashGate_new (concurrency max_waiting : nat) : HashGate := mkHashGate concurrency 0 max_waiting 0 0 0 0.

Inductive GateEvent :=
| GeTry
| GeQueue
| GeRefused
| GeAdmitted
| GeCancelled
| GeDone.

Definition gate_step (ev : GateEvent) (g : HashGate) : option HashGate :=
  let '(mkHashGate free count max late queued leaving hashing) := g in
  match ev with
  | GeTry =>
      match free with
      | S free => Some (mkHashGate free count max late queued leaving (S hashing))
      | O => Some (mkHashGate 0 count max (S late) queued leaving hashing)
      end
  | GeQueue =>
      match late with
      | S late =>
          if (max <=? count)%nat
          then Some (mkHashGate free (S count) max late queued (S leaving) hashing)
          else Some (mkHashGate free (S count) max late (S queued) leaving hashing)
      | O => None
      end
  | GeRefused =>
      match leaving, count with
      | S leaving, S count => Some (mkHashGate free count max late queued leaving hashing)
      | _, _ => None
      end
  | GeAdmitted =>
      match queued, free, count with
      | S queued, S free, S count => Some (mkHashGate free count max late queued leaving (S hashing))
      | _, _, _ => None
      end
  | GeCancelled =>
      match queued, count with
      | S queued, S count => Some (mkHashGate free count max late queued leaving hashing)
      | _, _ => None
      end
  | GeDone =>
      match hashing with
      | S hashing => Some (mkHashGate (S free) count max late queued leaving hashing)
      | O => None
      end
  end.

Definition gate_run (evs : list GateEvent) (g : HashGate) : option HashGate :=
  foldl (fun g ev => g ≫= gate_step ev) (Some g) evs.

(** The permits are never overdrawn, and no more requests queue than may. *)
Lemma gate_bounds evs concurrency max_waiting g :
  gate_run evs (HashGate_new concurrency max_waiting) = Some g ->
  (hg_hashing g + hg_free g = concurrency /\ hg_queued g <= max_waiting /\ hg_count g = hg_queued g + hg_leaving g)%nat.
Proof.
  enough (gate_run evs (HashGate_new concurrency max_waiting) = Some g ->
    (hg_hashing g + hg_free g = concurrency /\ hg_queued g <= hg_max g /\ hg_count g = hg_queued g + hg_leaving g
     /\ hg_max g = max_waiting)%nat) by (intros ?; lia || naive_solver lia).
  unfold gate_run. revert g. induction evs as [|ev evs IH] using rev_ind; intros g; cbn; [intros [= <-]; cbn; lia|].
  rewrite foldl_app. cbn. destruct (foldl _ _ evs) as [g0|]; [|done]. specialize (IH g0 eq_refl). cbn.
  destruct g0 as [free count max late queued leaving hashing]. cbn in IH.
  destruct ev; cbn; repeat case_match; intros Hg; simplify_eq; cbn in *;
    repeat match goal with Hm : (_ <=? _)%nat = _ |- _ => first [apply Nat.leb_le in Hm|apply Nat.leb_gt in Hm] end; lia.
Qed.
