(* ===== verification/GuardSpec.v ===== *)
(** * What the login guard promises

    [guard_run ops]: the guard after a sequence of checks, failures and
    successes, with the history of what was admitted and recorded.  The waits
    [spec_wait] are a function of the history alone: the guard's bounded books
    answer as if it remembered everything, as long as it tracks no more keys
    than it has room for.  Without that, no delay is longer than a minute, a
    client that waits a minute is admitted, and the books stay bounded. *)

From S2P Require Import Prelude Text LoginGuard.
From stdpp Require Import options.
Local Open Scope Z_scope.
#[local] Unset Default Proof Using.

Inductive Op :=
| OpCheck (client : ClientKey) (member : string) (t : Z)
| OpFailure (client : ClientKey) (member : string) (t : Z)
| OpSuccess (client : ClientKey) (member : string).

Inductive Past :=
| LetIn (client : ClientKey) (t : Z)
| FailedAt (client : ClientKey) (member : string) (t : Z)
| Succeeded (client : ClientKey) (member : string).

Section run.
Context `{HashIter}.

Definition guard_op (acc : Inner * list Past) (op : Op) : Inner * list Past :=
  let '(g, log) := acc in
  match op with
  | OpCheck c m t => match check c m t g with (g, Ok _) => (g, log ++ [LetIn c t]) | (g, Err _) => (g, log) end
  | OpFailure c m t => ((record_failure c m t g).1, log ++ [FailedAt c m t])
  | OpSuccess c m => (record_success c m g, log ++ [Succeeded c m])
  end.

Definition guard_run (ops : list Op) : Inner * list Past := foldl guard_op (Inner_default, []) ops.
End run.

(** ** The history *)

Definition streak_event (key : ClientKey * string) (s : option Streak) (p : Past) : option Streak :=
  match p with
  | FailedAt c m t =>
      if decide ((c, m) = key) then
        Some (mkStreak (match s with
                        | Some s => if t - sk_last s <? STREAK_DECAY then Z.min (sk_failures s + 1) 4294967295 else 1
                        | None => 1
                        end) t)
      else s
  | Succeeded c m => if decide ((c, m) = key) then None else s
  | LetIn _ _ => s
  end.

(** The consecutive failures of a client and member. *)
Definition streak_after (log : list Past) (key : ClientKey * string) : option Streak := foldl (streak_event key) None log.

Definition client_failures (log : list Past) (c : ClientKey) : list Z :=
  omap (fun p => match p with FailedAt c' _ t => if decide (c' = c) then Some t else None | _ => None end) log.
Definition origin_failures (log : list Past) (o : Origin) : list Z :=
  omap (fun p => match p with FailedAt c _ t => if decide (ck_origin c = o) then Some t else None | _ => None end) log.
Definition admissions (log : list Past) (o : Origin) : list Z :=
  omap (fun p => match p with LetIn c t => if decide (ck_origin c = o) then Some t else None | _ => None end) log.

(** The instants within [span] of [now]. *)
Definition recent (span now : Z) (l : list Z) : list Z := filter (fun t => now - t < span) l.

(** What is left of [delay] since [t]. *)
Definition owed (delay now t : Z) : option Z := if now - t <? delay then Some (delay - (now - t)) else None.

Definition streak_wait (log : list Past) (key : ClientKey * string) (now : Z) : option Z :=
  s ← streak_after log key; owed (streak_delay (sk_failures s)) now (sk_last s).

Definition client_wait (log : list Past) (c : ClientKey) (now : Z) : option Z :=
  let fs := recent CLIENT_WINDOW now (client_failures log c) in
  if (20 <=? length fs)%nat then t ← last fs; owed (secs 60) now t else None.

Definition origin_wait (log : list Past) (o : Origin) (now : Z) : option Z :=
  if (30 <? length (recent ENGINEER_WINDOW now (origin_failures log o)))%nat
  then t ← last (admissions log o); owed (secs 5) now t else None.

Definition first_wait (ws : list (option Z)) : result Z unit :=
  match omap id ws with w :: _ => Err w | [] => Ok tt end.

Definition spec_check (log : list Past) (c : ClientKey) (m : string) (now : Z) : result Z unit :=
  first_wait [streak_wait log (c, m) now; client_wait log c now; origin_wait log (ck_origin c) now].

(** ** Windows *)

Definition lastn (n : nat) (l : list Z) : list Z := drop (length l - n) l.

Definition sorted_to (T : Z) (l : list Z) : Prop := StronglySorted Z.le l /\ Forall (fun t => t <= T) l.

Lemma since_past now t : t <= now -> since now t = now - t.
Proof. unfold since. lia. Qed.

Lemma recent_all span now a l : now - a < span -> Forall (fun t => a <= t) l -> recent span now l = l.
Proof.
  intros Ha Hl. unfold recent. induction Hl as [|t l Ht _ IH]; [done|]. rewrite filter_cons_True by lia. by rewrite IH.
Qed.

Lemma prune_recent span now l : sorted_to now l -> prune l now span = recent span now l.
Proof.
  intros [Hs Hl]. induction Hs as [|a l Hs IH Ha]; [done|]. apply Forall_cons in Hl as [Hle Hl].
  cbn [prune]. rewrite since_past by done. destruct (Z.leb_spec span (now - a)) as [Hold|Hnew].
  - unfold recent. rewrite filter_cons_False by lia. by apply IH.
  - unfold recent. rewrite filter_cons_True by lia. f_equal. symmetry. by apply (recent_all span now a).
Qed.

Lemma recent_later span T T' l : T <= T' -> recent span T' (recent span T l) = recent span T' l.
Proof.
  intros HT. unfold recent. rewrite list_filter_filter. apply list_filter_iff. intros t. lia.
Qed.

Lemma sorted_recent span now T l : sorted_to T l -> sorted_to T (recent span now l).
Proof.
  intros [Hs Hl]. unfold recent. split.
  - induction Hs as [|a l Hs IH Ha]; [constructor|]. apply Forall_cons in Hl as [_ Hl]. rewrite filter_cons. case_decide; [|by apply IH].
    constructor; [by apply IH|]. apply Forall_forall. intros t [_ Ht]%list_elem_of_filter. by eapply Forall_forall in Ha.
  - apply Forall_forall. intros t [_ Ht]%list_elem_of_filter. by eapply Forall_forall in Hl.
Qed.

Lemma lastn_short n l : (length l <= n)%nat -> lastn n l = l.
Proof. intros Hn. unfold lastn. by rewrite (proj2 (Nat.sub_0_le _ _)). Qed.

Lemma length_lastn n l : length (lastn n l) = Nat.min n (length l).
Proof. unfold lastn. rewrite length_drop. lia. Qed.

(** The newest of what is recent is what is recent of the newest. *)
Lemma recent_lastn span now n T l : sorted_to T l -> recent span now (lastn n l) = lastn n (recent span now l).
Proof.
  intros [Hs _]. induction Hs as [|a l Hs IH Ha]; [done|]. destruct (decide (now - a < span)) as [Hnew|Hold].
  - rewrite (recent_all span now a (a :: l)) by (done || by constructor).
    apply (recent_all span now a); [done|]. unfold lastn. apply Forall_drop. by constructor.
  - assert (Hr : recent span now (a :: l) = recent span now l) by (unfold recent; by rewrite filter_cons_False).
    rewrite Hr. destruct (decide (S (length l) <= n)%nat) as [Hle|Hgt].
    + rewrite lastn_short by (cbn; lia). rewrite Hr, lastn_short; [done|]. unfold recent.
      pose proof (length_filter (fun t => now - t < span) l). lia.
    + rewrite <-IH. f_equal. unfold lastn. cbn [length]. by replace (S (length l) - n)%nat with (S (length l - n)) by lia.
Qed.

Lemma push_kept_lastn n l now : (0 < n)%nat -> push_kept n (lastn n l) now = lastn n (l ++ [now]).
Proof.
  intros Hn. unfold push_kept. rewrite length_app, length_lastn. cbn [length].
  destruct (Nat.ltb_spec n (Nat.min n (length l) + 1)) as [Hfull|Hroom].
  - unfold lastn. rewrite length_app. cbn [length].
    replace (length l + 1 - n)%nat with (S (length l - n)) by lia.
    rewrite (drop_app_le l) by lia. destruct (drop (length l - n) l) as [|x xs] eqn:Hd.
    { apply (f_equal length) in Hd. rewrite length_drop in Hd. cbn in Hd. lia. }
    cbn [app tail]. f_equal. rewrite <-Nat.add_1_r, <-drop_drop, Hd. done.
  - by rewrite !lastn_short by (rewrite ?length_app; cbn [length]; lia).
Qed.

Lemma last_lastn n l : (0 < n)%nat -> last (lastn n l) = last l.
Proof.
  intros Hn. unfold lastn. destruct (decide (l = [])) as [->|Hl]; [by rewrite drop_nil|].
  destruct l as [|x l _] using rev_ind; [done|]. rewrite drop_app_le by (rewrite length_app; cbn; lia). by rewrite !last_snoc.
Qed.

Lemma sorted_snoc T t l : sorted_to T l -> T <= t -> sorted_to t (l ++ [t]).
Proof.
  intros [Hs Hl] Ht. split.
  - apply StronglySorted_app_2; [|done|by repeat constructor]. intros x y Hx Hy%list_elem_of_singleton. subst.
    eapply Forall_forall in Hl; [|exact Hx]. cbn in Hl. lia.
  - apply Forall_app_2; [|by constructor]. eapply Forall_impl; [exact Hl|]. cbn. lia.
Qed.

Lemma sorted_later T T' l : T <= T' -> sorted_to T l -> sorted_to T' l.
Proof. intros HT [Hs Hl]. split; [done|]. eapply Forall_impl; [exact Hl|]. cbn. lia. Qed.

(** ** The books against the history *)

Definition alive (T : Z) (s : option Streak) : option Streak :=
  s ← s; if T - sk_last s <? STREAK_DECAY then Some s else None.

Definition failed_keys (log : list Past) : list (ClientKey * string) :=
  omap (fun p => match p with FailedAt c m _ => Some (c, m) | _ => None end) log.

(** What the history says of times up to [T]. *)
Record past (T : Z) (log : list Past) : Prop := {
  pa_streak : forall key s, streak_after log key = Some s -> sk_last s <= T;
  pa_client : forall c, sorted_to T (client_failures log c);
  pa_origin : forall o, sorted_to T (origin_failures log o);
  pa_admitted : forall o t, last (admissions log o) = Some t -> t <= T;
}.

Record tracks (T : Z) (log : list Past) (g : Inner) : Prop := {
  tr_past : past T log;
  tr_streak_past : forall key s, g_streaks g !! key = Some s -> sk_last s <= T;
  tr_streak : forall key, alive T (g_streaks g !! key) = alive T (streak_after log key);
  tr_client_past : forall c, sorted_to T (default [] (g_clients g !! c));
  tr_client : forall c, recent CLIENT_WINDOW T (default [] (g_clients g !! c))
                        = lastn 20 (recent CLIENT_WINDOW T (client_failures log c));
  tr_origin_past : forall o, sorted_to T (ob_failures (origin_budget o g));
  tr_origin : forall o, recent ENGINEER_WINDOW T (ob_failures (origin_budget o g))
                        = lastn 31 (recent ENGINEER_WINDOW T (origin_failures log o));
  tr_admitted : forall o, ob_admitted (origin_budget o g) = last (admissions log o);
  tr_keys : dom (g_streaks g) ⊆ list_to_set (failed_keys log);
  tr_clients : dom (g_clients g) ⊆ list_to_set (failed_keys log).*1;
}.

Lemma alive_later T T' s : T <= T' -> alive T' (alive T s) = alive T' s.
Proof.
  intros HT. unfold alive. destruct s as [s|]; [|done]. cbn. destruct (Z.ltb_spec (T - sk_last s) STREAK_DECAY); [done|].
  cbn. destruct (Z.ltb_spec (T' - sk_last s) STREAK_DECAY); [lia|done].
Qed.

Lemma past_later T T' log : T <= T' -> past T log -> past T' log.
Proof.
  intros HT [H1 H2 H3 H4]. split.
  - intros key s Hs. specialize (H1 _ _ Hs). lia.
  - intros c. by eapply sorted_later.
  - intros o. by eapply sorted_later.
  - intros o t Ht. specialize (H4 _ _ Ht). lia.
Qed.

Lemma lastn_later span n T T' w l :
  T <= T' -> sorted_to T l -> recent span T w = lastn n (recent span T l) -> recent span T' w = lastn n (recent span T' l).
Proof.
  intros HT Hl He. rewrite <-(recent_later span T T' w HT), He, (recent_lastn _ _ _ T) by (by apply sorted_recent).
  by rewrite recent_later.
Qed.

Lemma tracks_later T T' log g : T <= T' -> tracks T log g -> tracks T' log g.
Proof.
  intros HT [H1 H2 H3 H4 H5 H6 H7 H8 H9 H10]. split; try done.
  - by eapply past_later.
  - intros key s Hs. specialize (H2 _ _ Hs). lia.
  - intros key. by rewrite <-(alive_later T), H3, alive_later.
  - intros c. by eapply sorted_later.
  - intros c. eapply lastn_later; [done|by apply (pa_client _ _ H1)|done].
  - intros o. by eapply sorted_later.
  - intros o. eapply lastn_later; [done|by apply (pa_origin _ _ H1)|done].
Qed.

(** *** Checks *)

Lemma streak_delay_bounds n : 0 <= streak_delay n <= MAX_DELAY.
Proof.
  unfold streak_delay, FREE_FAILURES. destruct (Z.ltb_spec n 3); [by vm_compute|].
  destruct (Z.leb_spec 6 (n - 3)) as [|Hlt]; [by vm_compute|]. pose proof (Z.le_min_r (secs (Z.shiftl 1 (n - 3))) MAX_DELAY).
  split; [|done]. apply Z.min_glb; [|by vm_compute]. unfold secs. rewrite Z.shiftl_1_l. pose proof (Z.pow_nonneg 2 (n - 3)). lia.
Qed.

Section checks.
Context (T : Z) (log : list Past).

Lemma check_streak_tracks key g :
  tracks T log g -> let '(g', wait) := check_streak key T g in tracks T log g' /\ wait = streak_wait log key T.
Proof.
  intros Ht. unfold check_streak, streak_wait. pose proof (tr_streak _ _ _ Ht key) as Hk.
  pose proof (pa_streak _ _ (tr_past _ _ _ Ht) key) as Hpast.
  assert (Hdead : forall s, streak_after log key = Some s -> STREAK_DECAY <= T - sk_last s ->
                  owed (streak_delay (sk_failures s)) T (sk_last s) = None).
  { intros s Hs Hd. unfold owed. pose proof (streak_delay_bounds (sk_failures s)).
    destruct (Z.ltb_spec (T - sk_last s) (streak_delay (sk_failures s))); [|done].
    unfold STREAK_DECAY, MAX_DELAY, secs in *. lia. }
  destruct (g_streaks g !! key) as [s|] eqn:Hs.
  - rewrite since_past by (by eapply tr_streak_past). cbn in Hk. destruct (Z.leb_spec STREAK_DECAY (T - sk_last s)) as [Hold|Hnew].
    + split.
      * destruct Ht as [K1 K2 K3 K4 K5 K6 K7 K8 K9 K10]. split; try done; cbn [set_streaks g_streaks g_clients].
        -- intros k v [_ Hv]%lookup_delete_Some. by eapply K2.
        -- intros k. destruct (decide (k = key)) as [->|Hne]; [|by rewrite lookup_delete_ne].
           rewrite lookup_delete_eq, <-K3, Hs. cbn. by rewrite (proj2 (Z.ltb_ge _ _)).
        -- rewrite dom_delete. set_solver.
      * destruct (streak_after log key) as [s'|]; [|done]. cbn in *.
        destruct (Z.ltb_spec (T - sk_last s') STREAK_DECAY); [|by rewrite Hdead].
        rewrite (proj2 (Z.ltb_ge _ _)) in Hk by done. done.
    + split; [done|]. rewrite (proj2 (Z.ltb_lt _ _)) in Hk by done.
      destruct (streak_after log key) as [s'|]; [|done]. cbn in Hk. destruct (T - sk_last s' <? STREAK_DECAY); [|done].
      injection Hk as <-. done.
  - split; [done|]. destruct (streak_after log key) as [s'|]; [|done]. cbn in *.
    destruct (Z.ltb_spec (T - sk_last s') STREAK_DECAY); [done|by rewrite Hdead].
Qed.

Lemma window_counts span n k g_w l :
  (k <= n)%nat -> recent span T g_w = lastn n (recent span T l) ->
  (k <=? length (recent span T g_w))%nat = (k <=? length (recent span T l))%nat.
Proof.
  intros Hk ->. rewrite length_lastn. destruct (Nat.leb_spec k (length (recent span T l))); [apply Nat.leb_le|apply Nat.leb_gt]; lia.
Qed.

Lemma check_client_tracks c g :
  tracks T log g -> let '(g', wait) := check_client c T g in tracks T log g' /\ wait = client_wait log c T.
Proof.
  intros Ht. unfold check_client, client_wait. pose proof (tr_client _ _ _ Ht c) as Hc. pose proof (tr_client_past _ _ _ Ht c) as Hp.
  destruct (g_clients g !! c) as [w|] eqn:Hw; cbn [default from_option id] in *; cycle 1.
  { split; [done|]. destruct (recent CLIENT_WINDOW T (client_failures log c)) as [|x l] eqn:Hr; [done|].
    apply (f_equal length) in Hc. rewrite length_lastn in Hc. cbn in Hc. lia. }
  rewrite prune_recent by done. split.
  - destruct Ht as [K1 K2 K3 K4 K5 K6 K7 K8 K9 K10]. split; try done; cbn [set_clients g_streaks g_clients].
    + intros c'. destruct (decide (c' = c)) as [->|Hne]; [rewrite lookup_insert_eq; by apply sorted_recent|by rewrite lookup_insert_ne].
    + intros c'. destruct (decide (c' = c)) as [->|Hne]; [|by rewrite lookup_insert_ne].
      rewrite lookup_insert_eq. cbn [default from_option id]. by rewrite recent_later by lia.
    + rewrite dom_insert. assert (c ∈ dom (g_clients g)) by (by apply elem_of_dom). set_solver.
  - unfold CLIENT_WINDOW_FAILURES. rewrite (window_counts _ 20 20 _ _ (le_n _) Hc). destruct (20 <=? _)%nat; [|done].
    rewrite Hc, last_lastn by lia. unfold owed, CLIENT_SPACING.
    destruct (last (recent CLIENT_WINDOW T (client_failures log c))) as [l|] eqn:Hl; [|done]. cbn.
    rewrite since_past; [done|]. apply last_Some_elem_of in Hl.
    destruct (sorted_recent CLIENT_WINDOW T T _ (pa_client _ _ (tr_past _ _ _ Ht) c)) as [_ Hf]. by eapply Forall_forall in Hf.
Qed.

Lemma check_origin_tracks c g :
  tracks T log g ->
  let '(g', wait) := check_origin (ck_origin c) T g in
  wait = origin_wait log (ck_origin c) T
  /\ tracks T (log ++ match wait with None => [LetIn c T] | Some _ => [] end) g'.
Proof.
  intros Ht. set (o := ck_origin c). unfold check_origin, origin_wait.
  pose proof (tr_origin _ _ _ Ht o) as Ho. pose proof (tr_origin_past _ _ _ Ht o) as Hp.
  rewrite prune_recent by done. set (fs := recent ENGINEER_WINDOW T (ob_failures (origin_budget o g))) in *.
  assert (Hcount : (ENGINEER_WINDOW_FAILURES <? length fs)%nat = (30 <? length (recent ENGINEER_WINDOW T (origin_failures log o)))%nat).
  { unfold ENGINEER_WINDOW_FAILURES, fs. exact (window_counts _ 31 31 _ _ (le_n _) Ho). }
  rewrite Hcount, (tr_admitted _ _ _ Ht o).
  assert (Hwait : (if (30 <? length (recent ENGINEER_WINDOW T (origin_failures log o)))%nat then
      match last (admissions log o) with
      | Some l => if since T l <? ENGINEER_SPACING then Some (ENGINEER_SPACING - since T l) else None
      | None => None
      end else None) =
    (if (30 <? length (recent ENGINEER_WINDOW T (origin_failures log o)))%nat then t ← last (admissions log o); owed (secs 5) T t else None)).
  { destruct (30 <? _)%nat; [|done]. destruct (last (admissions log o)) as [l|] eqn:Hl; [|done]. cbn.
    by rewrite since_past by (by eapply pa_admitted; [apply Ht|]). }
  rewrite Hwait. clear Hwait. split; [done|].
  set (wait := if (30 <? length (recent ENGINEER_WINDOW T (origin_failures log o)))%nat then _ else None). clearbody wait.
  assert (Hb : forall o', ob_failures (origin_budget o' (set_budget o (mkOriginBudget fs
      (match wait with Some _ => last (admissions log o) | None => Some T end)) g))
      = if decide (o' = o) then fs else ob_failures (origin_budget o' g)).
  { intros o'. by destruct o, o'. }
  assert (Hba : forall o' b, ob_admitted (origin_budget o' (set_budget o b g))
      = if decide (o' = o) then ob_admitted b else ob_admitted (origin_budget o' g)).
  { intros o' b. by destruct o, o'. }
  assert (Hs : forall b, g_streaks (set_budget o b g) = g_streaks g /\ g_clients (set_budget o b g) = g_clients g) by (by destruct o).
  assert (Hf : forall key, streak_after (log ++ match wait with None => [LetIn c T] | Some _ => [] end) key = streak_after log key).
  { intros key. unfold streak_after. rewrite foldl_app. by destruct wait. }
  assert (Hcf : forall c', client_failures (log ++ match wait with None => [LetIn c T] | Some _ => [] end) c' = client_failures log c').
  { intros c'. unfold client_failures. rewrite omap_app. destruct wait; cbn; by rewrite app_nil_r. }
  assert (Hof : forall o', origin_failures (log ++ match wait with None => [LetIn c T] | Some _ => [] end) o' = origin_failures log o').
  { intros o'. unfold origin_failures. rewrite omap_app. destruct wait; cbn; by rewrite app_nil_r. }
  assert (Had : forall o', last (admissions (log ++ match wait with None => [LetIn c T] | Some _ => [] end) o')
      = if decide (o' = o) then match wait with Some _ => last (admissions log o) | None => Some T end else last (admissions log o')).
  { intros o'. unfold admissions. rewrite omap_app. destruct wait; cbn; [rewrite app_nil_r; by case_decide; subst|].
    fold o. case_decide as Hd; [rewrite decide_True by done; by rewrite last_snoc|rewrite decide_False by done; by rewrite app_nil_r]. }
  assert (Hk : failed_keys (log ++ match wait with None => [LetIn c T] | Some _ => [] end) = failed_keys log).
  { unfold failed_keys. rewrite omap_app. destruct wait; cbn; by rewrite app_nil_r. }
  destruct Ht as [K1 K2 K3 K4 K5 K6 K7 K8 K9 K10].
  split.
  - destruct K1 as [P1 P2 P3 P4]. split; intros *; rewrite ?Hf, ?Hcf, ?Hof; [by apply P1|by apply P2|by apply P3|].
    rewrite Had. case_decide; [|by apply P4]. destruct wait; [by apply P4|]. intros [= <-]. lia.
  - intros key. rewrite (proj1 (Hs _)). by apply K2.
  - intros key. by rewrite (proj1 (Hs _)), Hf.
  - intros c'. rewrite (proj2 (Hs _)). by apply K4.
  - intros c'. by rewrite (proj2 (Hs _)), Hcf.
  - intros o'. rewrite Hb. case_decide; [by apply sorted_recent|by apply K6].
  - intros o'. rewrite Hb, Hof. case_decide as Hd; [|by apply K7]. subst o'. unfold fs. rewrite recent_later by lia. by apply K7.
  - intros o'. rewrite Had, Hba. case_decide as Hd; [done|]. by rewrite <-K8.
  - by rewrite (proj1 (Hs _)), Hk.
  - by rewrite (proj2 (Hs _)), Hk.
Qed.

(** A check answers as the history says. *)
Lemma check_tracks c m g :
  tracks T log g ->
  let '(g', r) := check c m T g in
  r = spec_check log c m T /\ tracks T (log ++ match r with Ok _ => [LetIn c T] | Err _ => [] end) g'.
Proof.
  intros Ht. unfold check, spec_check. pose proof (check_streak_tracks (c, m) g Ht) as H1.
  destruct (check_streak (c, m) T g) as [g1 w1]. destruct H1 as [Ht1 ->].
  destruct (streak_wait log (c, m) T) as [w|]; [by rewrite app_nil_r|].
  pose proof (check_client_tracks c g1 Ht1) as H2. destruct (check_client c T g1) as [g2 w2]. destruct H2 as [Ht2 ->].
  destruct (client_wait log c T) as [w|]; [by rewrite app_nil_r|].
  pose proof (check_origin_tracks c g2 Ht2) as H3. destruct (check_origin (ck_origin c) T g2) as [g3 w3]. destruct H3 as [-> Ht3].
  by destruct (origin_wait log (ck_origin c) T).
Qed.
End checks.

(** *** Records *)

(** There is room for the keys of the history. *)
Definition fits (log : list Past) : Prop :=
  Z.of_nat (size (list_to_set (failed_keys log) : gset (ClientKey * string))) <= MAX_TRACKED
  /\ Z.of_nat (size (list_to_set (failed_keys log).*1 : gset ClientKey)) <= MAX_TRACKED.

Lemma room {K V : Type} `{Countable K} (m : gmap K V) (k : K) (X : gset K) :
  dom m ⊆ X -> k ∈ X -> Z.of_nat (size X) <= MAX_TRACKED ->
  bool_decide (m !! k = None) && (MAX_TRACKED <=? Z.of_nat (size m)) = false.
Proof.
  intros Hd Hk Hs. case_bool_decide as Hn; [|done]. cbn. apply Z.leb_gt.
  assert (Hlt : (size (dom m) < size X)%nat).
  { apply subset_size. split; [done|]. intros Hx. apply Hx in Hk. by apply elem_of_dom in Hk as [? ?]; congruence. }
  rewrite size_dom in Hlt. lia.
Qed.

Section records.
Context `{HashIter} (T : Z) (log : list Past) (c : ClientKey) (m : string) (g : Inner).
Hypothesis Ht : tracks T log g.

Lemma failed_keys_snoc : failed_keys (log ++ [FailedAt c m T]) = failed_keys log ++ [(c, m)].
Proof using. unfold failed_keys. by rewrite omap_app. Qed.

Lemma count_streak_eq : fits (log ++ [FailedAt c m T]) ->
  exists n, streak_after (log ++ [FailedAt c m T]) (c, m) = Some (mkStreak n T)
    /\ count_streak (c, m) T g = set_streaks (<[(c, m) := mkStreak n T]> (g_streaks g)) g.
Proof using Ht.
  intros [Hf _]. rewrite failed_keys_snoc in Hf. unfold streak_after. rewrite foldl_app. cbn [foldl streak_event]. rewrite decide_True by done.
  eexists. split; [done|]. unfold count_streak.
  rewrite (room _ _ (list_to_set (failed_keys log ++ [(c, m)]))); [| |set_solver|done].
  2: { pose proof (tr_keys _ _ _ Ht). set_solver. }
  do 3 f_equal. fold (streak_after log (c, m)). pose proof (tr_streak _ _ _ Ht (c, m)) as Hk.
  pose proof (tr_streak_past _ _ _ Ht (c, m)) as Hp.
  destruct (g_streaks g !! (c, m)) as [s|]; destruct (streak_after log (c, m)) as [s'|]; cbn in Hk; [| | |done].
  - rewrite since_past by auto. destruct (T - sk_last s <? STREAK_DECAY), (T - sk_last s' <? STREAK_DECAY); by simplify_eq.
  - rewrite since_past by auto. by destruct (T - sk_last s <? STREAK_DECAY).
  - by destruct (T - sk_last s' <? STREAK_DECAY).
Qed.

Lemma count_client_eq : fits (log ++ [FailedAt c m T]) ->
  count_client c T g
  = set_clients (<[c := push_kept 20 (recent CLIENT_WINDOW T (default [] (g_clients g !! c))) T]> (g_clients g)) g.
Proof using Ht.
  intros [_ Hf]. rewrite failed_keys_snoc in Hf. unfold count_client.
  rewrite (room _ _ (list_to_set (failed_keys log ++ [(c, m)]).*1)); [| | |done].
  - by rewrite prune_recent by (by apply (tr_client_past _ _ _ Ht)).
  - pose proof (tr_clients _ _ _ Ht). rewrite fmap_app. set_solver.
  - rewrite fmap_app. set_solver.
Qed.
End records.

Lemma recent_push span n T w l :
  (0 < n)%nat -> 0 < span -> recent span T w = lastn n (recent span T l) -> sorted_to T l ->
  recent span T (push_kept n (recent span T w) T) = lastn n (recent span T (l ++ [T])).
Proof.
  intros Hn Hs Hw Hl. rewrite Hw, push_kept_lastn by done.
  assert (Hsn : recent span T (l ++ [T]) = recent span T l ++ [T]).
  { unfold recent. rewrite filter_app. f_equal. by rewrite filter_cons_True by lia. }
  rewrite (recent_lastn _ _ _ T).
  - rewrite Hsn. f_equal. unfold recent. rewrite filter_app, list_filter_filter_l by done. f_equal. by rewrite filter_cons_True by lia.
  - rewrite <-Hsn. apply sorted_recent, sorted_snoc with T; [done|lia].
Qed.

Lemma sorted_push n T w : sorted_to T w -> sorted_to T (push_kept n w T).
Proof.
  intros Hw. apply (sorted_snoc T T) in Hw; [|lia]. unfold push_kept. destruct (_ <? _)%nat; [|done].
  destruct (w ++ [T]) as [|x l]; [done|]. destruct Hw as [Hs Hf]. cbn. split; [by inversion Hs|by inversion Hf].
Qed.

Lemma record_failure_tracks `{HashIter} T log c m g :
  tracks T log g -> fits (log ++ [FailedAt c m T]) -> tracks T (log ++ [FailedAt c m T]) (record_failure c m T g).1.
Proof.
  intros Ht Hfit. destruct (count_streak_eq T log c m g Ht Hfit) as (n & Hn & Hcs).
  assert (Hcc : count_client c T (count_streak (c, m) T g)
    = set_clients (<[c := push_kept 20 (recent CLIENT_WINDOW T (default [] (g_clients g !! c))) T]> (g_clients g))
        (set_streaks (<[(c, m) := mkStreak n T]> (g_streaks g)) g)).
  { rewrite Hcs. pose proof (count_client_eq T log c m g Ht Hfit) as Hc. unfold count_client in *.
    cbn [set_streaks g_clients]. apply (f_equal g_clients) in Hc. cbn [set_clients g_clients] in Hc. unfold set_clients at 1. by rewrite Hc. }
  unfold record_failure. rewrite Hcc. clear Hcc Hcs. set (o := ck_origin c).
  set (w := push_kept 20 (recent CLIENT_WINDOW T (default [] (g_clients g !! c))) T).
  set (b := push_kept 31 (recent ENGINEER_WINDOW T (ob_failures (origin_budget o g))) T).
  set (x := set_clients (<[c := w]> (g_clients g)) (set_streaks (<[(c, m) := mkStreak n T]> (g_streaks g)) g)).
  assert (Hg : exists g', (count_origin o T (set_stats (count_stats o (g_stats x)) x)).1 = g'
     /\ g_streaks g' = <[(c, m) := mkStreak n T]> (g_streaks g) /\ g_clients g' = <[c := w]> (g_clients g)
     /\ (forall o', ob_failures (origin_budget o' g') = if decide (o' = o) then b else ob_failures (origin_budget o' g))
     /\ (forall o', ob_admitted (origin_budget o' g') = ob_admitted (origin_budget o' g))).
  { eexists. split; [done|]. unfold count_origin, b. pose proof (tr_origin_past _ _ _ Ht o) as Hp.
    destruct o; cbn in Hp |- *; rewrite prune_recent by done; destruct (_ =? _)%nat; cbn; split_and!; try done; by intros []. }
  destruct Hg as (g' & -> & Hgs & Hgc & Hgf & Hga).
  assert (Hcf : forall c', client_failures (log ++ [FailedAt c m T]) c' = if decide (c' = c) then client_failures log c ++ [T] else client_failures log c').
  { intros c'. unfold client_failures. rewrite omap_app. cbn. case_decide as H1; case_decide as H2; subst; try done. by rewrite app_nil_r. }
  assert (Hof : forall o', origin_failures (log ++ [FailedAt c m T]) o' = if decide (o' = o) then origin_failures log o ++ [T] else origin_failures log o').
  { intros o'. unfold origin_failures. rewrite omap_app. cbn. fold o. case_decide as H1; case_decide as H2; subst; try done. by rewrite app_nil_r. }
  assert (Had : forall o', admissions (log ++ [FailedAt c m T]) o' = admissions log o').
  { intros o'. unfold admissions. rewrite omap_app. cbn. by rewrite app_nil_r. }
  assert (Hsk : forall key, streak_after (log ++ [FailedAt c m T]) key = if decide (key = (c, m)) then Some (mkStreak n T) else streak_after log key).
  { intros key. case_decide as Hd; [by subst|]. unfold streak_after. rewrite foldl_app. cbn. by rewrite decide_False. }
  destruct Ht as [[P1 P2 P3 P4] K2 K3 K4 K5 K6 K7 K8 K9 K10]. split.
  - split; intros *.
    + rewrite Hsk. case_decide; [intros [= <-]; cbn; lia|apply P1].
    + rewrite Hcf. case_decide; [by apply sorted_snoc with T; [|lia]|apply P2].
    + rewrite Hof. case_decide; [by apply sorted_snoc with T; [|lia]|apply P3].
    + rewrite Had. apply P4.
  - intros key s. rewrite Hgs. intros [[<- <-]|[_ Hs]]%lookup_insert_Some; [cbn; lia|by eapply K2].
  - intros key. rewrite Hgs, Hsk. case_decide as Hd; [subst; by rewrite lookup_insert_eq|by rewrite lookup_insert_ne].
  - intros c'. rewrite Hgc. destruct (decide (c' = c)) as [->|Hd]; [|by rewrite lookup_insert_ne].
    rewrite lookup_insert_eq. apply sorted_push, sorted_recent, K4.
  - intros c'. rewrite Hgc, Hcf. case_decide as Hd; [|by rewrite lookup_insert_ne]. subst.
    rewrite lookup_insert_eq. cbn [default from_option id]. unfold w. by apply recent_push; [lia|by vm_compute| |].
  - intros o'. rewrite Hgf. case_decide as Hd; [|apply K6]. apply sorted_push, sorted_recent, K6.
  - intros o'. rewrite Hgf, Hof. case_decide as Hd; [|apply K7]. subst. unfold b. by apply recent_push; [lia|by vm_compute| |].
  - intros o'. by rewrite Hga, Had.
  - rewrite Hgs, dom_insert, failed_keys_snoc. set_solver.
  - rewrite Hgc, dom_insert, failed_keys_snoc, fmap_app. set_solver.
Qed.

Lemma record_success_tracks T log c m g :
  tracks T log g -> tracks T (log ++ [Succeeded c m]) (record_success c m g).
Proof.
  intros [[P1 P2 P3 P4] K2 K3 K4 K5 K6 K7 K8 K9 K10].
  assert (Hcf : forall c', client_failures (log ++ [Succeeded c m]) c' = client_failures log c').
  { intros c'. unfold client_failures. rewrite omap_app. cbn. by rewrite app_nil_r. }
  assert (Hof : forall o, origin_failures (log ++ [Succeeded c m]) o = origin_failures log o).
  { intros o. unfold origin_failures. rewrite omap_app. cbn. by rewrite app_nil_r. }
  assert (Had : forall o, admissions (log ++ [Succeeded c m]) o = admissions log o).
  { intros o. unfold admissions. rewrite omap_app. cbn. by rewrite app_nil_r. }
  assert (Hk : failed_keys (log ++ [Succeeded c m]) = failed_keys log).
  { unfold failed_keys. rewrite omap_app. cbn. by rewrite app_nil_r. }
  assert (Hsk : forall key, streak_after (log ++ [Succeeded c m]) key = if decide (key = (c, m)) then None else streak_after log key).
  { intros key. unfold streak_after. rewrite foldl_app. cbn. case_decide as H1; case_decide as H2; subst; done. }
  split; intros *; rewrite ?Hcf, ?Hof, ?Had, ?Hk; cbn [record_success set_streaks g_streaks g_clients]; try by auto.
  - split; intros *; rewrite ?Hcf, ?Hof, ?Had; [|apply P2|apply P3|apply P4]. rewrite Hsk. case_decide; [done|apply P1].
  - intros [_ Hs]%lookup_delete_Some. by eapply K2.
  - rewrite Hsk. case_decide as Hd; [subst; by rewrite lookup_delete_eq|by rewrite lookup_delete_ne].
  - destruct o; [exact (K6 Lan)|exact (K6 Tunnel)].
  - destruct o; [exact (K7 Lan)|exact (K7 Tunnel)].
  - destruct o; [exact (K8 Lan)|exact (K8 Tunnel)].
  - rewrite dom_delete. set_solver.
Qed.

(** ** Runs *)

Definition op_time (op : Op) : option Z :=
  match op with OpCheck _ _ t | OpFailure _ _ t => Some t | OpSuccess _ _ => None end.

(** The instants come in order, none after [T]. *)
Definition in_order (T : Z) (ops : list Op) : Prop := sorted_to T (omap op_time ops).

Lemma in_order_app T ops op :
  in_order T (ops ++ [op]) ->
  exists T', T' <= T /\ in_order T' ops /\ match op_time op with Some t => t = T' | None => T' = T end.
Proof.
  unfold in_order. rewrite omap_app. intros [Hs Hl]. destruct (op_time op) as [t|] eqn:Ht; cbn in Hs, Hl; rewrite Ht in Hs, Hl.
  - apply Forall_app in Hl as [Hl Ht']. rewrite Forall_singleton in Ht'. exists t. split; [done|]. split; [|done].
    split; [by eapply StronglySorted_app_1_l|]. apply Forall_forall. intros x Hx.
    eapply StronglySorted_app_1_elem_of; [exact Hs|exact Hx|by left].
  - exists T. rewrite app_nil_r in Hs. rewrite app_nil_r in Hl. split; [lia|]. by split.
Qed.

Lemma fits_prefix log p : fits (log ++ p) -> fits log.
Proof.
  unfold fits, failed_keys. rewrite omap_app, fmap_app, !list_to_set_app_L. intros [H1 H2]. split.
  - etrans; [|exact H1]. apply inj_le, subseteq_size. set_solver.
  - etrans; [|exact H2]. apply inj_le, subseteq_size. set_solver.
Qed.

Lemma tracks_init T : tracks T [] Inner_default.
Proof.
  assert (Hs : sorted_to T []) by (by split; constructor).
  split; try done; intros o; by destruct o.
Qed.

Lemma run_tracks `{HashIter} T ops :
  in_order T ops -> fits (guard_run ops).2 -> tracks T (guard_run ops).2 (guard_run ops).1.
Proof.
  revert T. induction ops as [|op ops IH] using rev_ind; intros T Ho Hf.
  { apply tracks_init. }
  destruct (in_order_app _ _ _ Ho) as (T' & HT & Ho' & Ht). unfold guard_run in *. rewrite foldl_app in *. cbn [foldl] in *.
  destruct (foldl guard_op (Inner_default, []) ops) as [g log] eqn:Hrun. specialize (IH T' Ho'). cbn [fst snd] in IH.
  apply (tracks_later T'); [done|]. destruct op as [c m t|c m t|c m]; cbn [op_time] in Ht; subst; cbn [guard_op] in *.
  - assert (Hfl : fits log) by (destruct (check c m T' g) as [? []]; cbn in Hf; [by eapply fits_prefix|done]).
    pose proof (check_tracks T' log c m g (IH Hfl)) as Hc. destruct (check c m T' g) as [g' [[]|w]]; destruct Hc as [_ Hc];
      [exact Hc|by rewrite app_nil_r in Hc].
  - apply record_failure_tracks; [|done]. apply IH. by eapply fits_prefix.
  - apply record_success_tracks, IH. by eapply fits_prefix.
Qed.

(** C37: the login guard's books lose nothing that counts: after any logins in
    time's order, as long as no more clients and members failed than it has room
    for, a check answers what the whole history says: the delay left of the
    consecutive failures of this client and member, of the client's twenty in
    ten minutes, or of its origin's thirty in an hour, whichever is first. *)
Theorem guard_refines_history `{HashIter} ops T client member :
  in_order T ops -> fits (guard_run ops).2 ->
  (check client member T (guard_run ops).1).2 = spec_check (guard_run ops).2 client member T.
Proof.
  intros Ho Hf. pose proof (check_tracks T _ client member _ (run_tracks T ops Ho Hf)) as Hc.
  destruct (check client member T (guard_run ops).1) as [g r]. by destruct Hc as [-> _].
Qed.

Definition demo_iter : HashIter.
Proof. by refine {| iter_streaks := map_to_list; iter_clients := map_to_list |}. Defined.

Definition demo_client : ClientKey := from_request (IpV4 192 168 1 7) (Some "10.0.0.1") ∅.
Definition demo_ops : list Op :=
  [OpCheck demo_client "ann" (secs 1); OpFailure demo_client "ann" (secs 2); OpFailure demo_client "ann" (secs 3);
   OpSuccess demo_client "bob"; OpFailure demo_client "ann" (secs 4); OpFailure demo_client "ann" (secs 5)].

Lemma guard_refines_history_witness :
  (check demo_client "ann" (secs 6) (@guard_run demo_iter demo_ops).1).2
  = spec_check (@guard_run demo_iter demo_ops).2 demo_client "ann" (secs 6)
  /\ spec_check (@guard_run demo_iter demo_ops).2 demo_client "ann" (secs 6) = Err (secs 1).
Proof.
  split; [|by vm_compute]. apply (@guard_refines_history demo_iter demo_ops (secs 6)).
  - split; [|by repeat constructor]. repeat constructor; by vm_compute.
  - by vm_compute.
Defined.

(** ** Bounds, whoever fails *)

Record bounded (T : Z) (g : Inner) : Prop := {
  bd_streak : map_Forall (fun _ s => sk_last s <= T) (g_streaks g);
  bd_client : map_Forall (fun _ w => Forall (fun t => t <= T) w /\ (length w <= CLIENT_WINDOW_FAILURES)%nat) (g_clients g);
  bd_origin : forall o, Forall (fun t => t <= T) (ob_failures (origin_budget o g))
                        /\ (length (ob_failures (origin_budget o g)) <= S ENGINEER_WINDOW_FAILURES)%nat;
  bd_admitted : forall o t, ob_admitted (origin_budget o g) = Some t -> t <= T;
  bd_streaks : Z.of_nat (size (g_streaks g)) <= MAX_TRACKED;
  bd_clients : Z.of_nat (size (g_clients g)) <= MAX_TRACKED;
}.

Lemma prune_suffix w now span : exists l, w = l ++ prune w now span.
Proof.
  induction w as [|t w [l IH]]; [by exists []|]. cbn [prune]. destruct (_ <=? _); [|by exists []].
  exists (t :: l). cbn. by rewrite <-IH.
Qed.

Lemma window_pruned T n w now span :
  Forall (fun t => t <= T) w /\ (length w <= n)%nat -> Forall (fun t => t <= T) (prune w now span) /\ (length (prune w now span) <= n)%nat.
Proof.
  destruct (prune_suffix w now span) as [l Hl]. intros [Hw Hn]. rewrite Hl, Forall_app in Hw. rewrite Hl, length_app in Hn.
  split; [apply Hw|lia].
Qed.

Lemma window_pushed T n w :
  (0 < n)%nat -> Forall (fun t => t <= T) w /\ (length w <= n)%nat -> Forall (fun t => t <= T) (push_kept n w T) /\ (length (push_kept n w T) <= n)%nat.
Proof.
  intros Hn [Hw Hl]. assert (Hw' : Forall (fun t => t <= T) (w ++ [T])) by (apply Forall_app_2; [done|by constructor]).
  unfold push_kept. rewrite length_app. cbn [length]. destruct (Nat.ltb_spec n (length w + 1)) as [Hf|Hf].
  - pose proof (length_app w [T]) as Ha. destruct (w ++ [T]) as [|x l]; [cbn in Ha; lia|]. apply Forall_cons in Hw' as [_ Hw'].
    cbn in *. split; [done|lia].
  - split; [done|rewrite length_app; cbn; lia].
Qed.

Lemma min_by_elem {A : Type} (less : A -> A -> bool) l : match min_by less l with Some x => x ∈ l | None => l = [] end.
Proof.
  induction l as [|x l IH]; [done|]. cbn. destruct (min_by less l) as [y|]; [destruct (less y x)|]; [by right|by left|by left].
Qed.

Lemma evict_size {K V : Type} `{Countable K} (m : gmap K V) (iter : gmap K V -> list (K * V)) (less : K * V -> K * V -> bool) :
  iter m ≡ₚ map_to_list m -> Z.of_nat (size m) <= MAX_TRACKED ->
  let m' := match min_by less (iter m) with Some (key, _) => delete key m | None => m end in
  m' ⊆ m /\ Z.of_nat (size m') <= MAX_TRACKED /\ (MAX_TRACKED <= Z.of_nat (size m) -> Z.of_nat (size m') < MAX_TRACKED).
Proof.
  intros Hi Hs. cbn zeta. pose proof (min_by_elem less (iter m)) as He. destruct (min_by less (iter m)) as [[key v]|].
  - rewrite Hi in He. apply elem_of_map_to_list in He. split; [apply delete_subseteq|].
    assert (Hz : (0 < size m)%nat).
    { destruct (decide (size m = 0%nat)) as [Hz|]; [|lia]. apply map_size_empty_inv in Hz. by subst. }
    rewrite map_size_delete_Some by (by eexists). lia.
  - split; [done|]. split; [done|]. intros Hm. exfalso. rewrite He in Hi. symmetry in Hi. apply Permutation_nil_r in Hi.
    apply map_to_list_empty_iff in Hi. subst. rewrite map_size_empty in Hm. by vm_compute in Hm.
Qed.

(** An entry put after making room. *)
Lemma tracked_insert {K V : Type} `{Countable K} (m : gmap K V) iter less (P : V -> Prop) k v :
  iter m ≡ₚ map_to_list m -> Z.of_nat (size m) <= MAX_TRACKED -> map_Forall (fun _ => P) m ->
  let m' := if bool_decide (m !! k = None) && (MAX_TRACKED <=? Z.of_nat (size m))
            then match min_by less (iter m) with Some (key, _) => delete key m | None => m end else m in
  m' ⊆ m /\ (P v -> map_Forall (fun _ => P) (<[k := v]> m') /\ Z.of_nat (size (<[k := v]> m')) <= MAX_TRACKED).
Proof.
  intros Hi Hs HP. cbn zeta. destruct (evict_size m iter less Hi Hs) as (Hsub & Hle & Hlt).
  set (e := match min_by less (iter m) with Some (key, _) => delete key m | None => m end) in *.
  assert (Hin : forall m', m' ⊆ m -> P v -> map_Forall (fun _ => P) (<[k := v]> m')).
  { intros m' Hm Hv. apply map_Forall_insert_2; [done|]. intros j x Hj. eapply HP. by eapply lookup_weaken. }
  assert (Hsz : forall m' : gmap K V, Z.of_nat (size m') < MAX_TRACKED -> Z.of_nat (size (<[k := v]> m')) <= MAX_TRACKED).
  { intros m' Hm. destruct (m' !! k) eqn:Hk; [rewrite map_size_insert_Some by done; lia|]. rewrite map_size_insert_None by done. lia. }
  case_bool_decide as Hk; cbn [andb]; [destruct (Z.leb_spec MAX_TRACKED (Z.of_nat (size m))) as [Hf|Hf]|].
  - split; [done|]. intros Hv. split; [by apply Hin|by apply Hsz, Hlt].
  - split; [done|]. intros Hv. split; [by apply Hin|by apply Hsz].
  - split; [done|]. intros Hv. split; [by apply Hin|]. rewrite map_size_insert_Some; [done|]. by apply not_eq_None_Some.
Qed.

Lemma bounded_later T T' g : T <= T' -> bounded T g -> bounded T' g.
Proof.
  intros HT [H1 H2 H3 H4 H5 H6]. split; try done.
  - eapply map_Forall_impl; [exact H1|]. cbn. lia.
  - eapply map_Forall_impl; [exact H2|]. cbn. intros _ w [Hw Hl]. split; [|done]. eapply Forall_impl; [exact Hw|]. cbn. lia.
  - intros o. destruct (H3 o) as [Hw Hl]. split; [|done]. eapply Forall_impl; [exact Hw|]. cbn. lia.
  - intros o t Ht. specialize (H4 o t Ht). lia.
Qed.

Lemma check_bounded T c m g : bounded T g -> bounded T (check c m T g).1.
Proof.
  intros Hb. unfold check.
  assert (H1 : bounded T (check_streak (c, m) T g).1).
  { unfold check_streak. destruct (g_streaks g !! (c, m)) as [s|] eqn:Hs; [|done]. destruct (_ <=? _); [|done].
    destruct Hb as [K1 K2 K3 K4 K5 K6]. split; try done; cbn [fst set_streaks g_streaks]; [by apply map_Forall_delete|].
    rewrite map_size_delete_Some by done. lia. }
  destruct (check_streak (c, m) T g) as [g1 [w|]]; [done|]. cbn [fst] in H1.
  assert (H2 : bounded T (check_client c T g1).1).
  { unfold check_client. destruct (g_clients g1 !! c) as [w|] eqn:Hs; [|done].
    destruct H1 as [K1 K2 K3 K4 K5 K6]. split; try done; cbn [fst set_clients g_clients].
    - apply map_Forall_insert_2; [|done]. by apply window_pruned, (K2 c).
    - by rewrite map_size_insert_Some. }
  destruct (check_client c T g1) as [g2 [w|]]; [done|]. cbn [fst] in H2.
  assert (H3 : bounded T (check_origin (ck_origin c) T g2).1).
  { unfold check_origin. set (o := ck_origin c). set (wait := if (_ <? _)%nat then _ else None). clearbody wait. cbn [fst].
    destruct H2 as [K1 K2 K3 K4 K5 K6]. split; [by destruct o|by destruct o| | |by destruct o|by destruct o].
    - intros o'. destruct (decide (o' = o)) as [->|Hne]; [|pose proof (K3 o'); by destruct o, o'].
      pose proof (window_pruned T _ _ T ENGINEER_WINDOW (K3 o)) as Hp. by destruct o.
    - intros o' t. destruct (decide (o' = o)) as [->|Hne]; [|pose proof (K4 o' t); by destruct o, o'].
      pose proof (K4 o t). destruct wait; [by destruct o|]. destruct o; cbn; intros [= <-]; lia. }
  by destruct (check_origin (ck_origin c) T g2) as [g3 [w|]].
Qed.

Lemma bounded_stats T x g : bounded T g -> bounded T (set_stats x g).
Proof.
  intros [K1 K2 K3 K4 K5 K6]. by split.
Qed.

Lemma record_failure_bounded `{HashIter} T c m g : bounded T g -> bounded T (record_failure c m T g).1.
Proof.
  intros Hb. unfold record_failure.
  assert (H1 : bounded T (count_streak (c, m) T g)).
  { destruct Hb as [K1 K2 K3 K4 K5 K6]. unfold count_streak.
    set (n := match g_streaks g !! (c, m) with Some _ => _ | None => 1 end).
    destruct (tracked_insert (g_streaks g) iter_streaks (fun a b => sk_last a.2 <? sk_last b.2) (fun s => sk_last s <= T)
                (c, m) (mkStreak n T) (iter_streaks_perm _) K5 K1) as [_ Hi].
    destruct Hi as [Hi1 Hi2]; [cbn; lia|]. by split. }
  assert (H2 : bounded T (count_client c T (count_streak (c, m) T g))).
  { generalize dependent (count_streak (c, m) T g). intros g1 [K1 K2 K3 K4 K5 K6]. unfold count_client, evict_oldest_client.
    set (w := push_kept _ _ T).
    destruct (tracked_insert (g_clients g1) iter_clients (fun a b => opt_less (last a.2) (last b.2))
                (fun w => Forall (fun t => t <= T) w /\ (length w <= CLIENT_WINDOW_FAILURES)%nat)
                c w (iter_clients_perm _) K6 K2) as [Hsub Hi].
    destruct Hi as [Hi1 Hi2]; [|by split].
    apply window_pushed; [unfold CLIENT_WINDOW_FAILURES; lia|]. apply window_pruned.
    set (m' := if _ && _ then _ else g_clients g1) in *.
    destruct (m' !! c) as [w'|] eqn:Hw; [|by split; [constructor|cbn; lia]]. cbn. apply (K2 c). by eapply lookup_weaken. }
  generalize dependent (count_client c T (count_streak (c, m) T g)). intros g2 [K1 K2 K3 K4 K5 K6].
  unfold count_origin. set (o := ck_origin c).
  assert (Hp : Forall (fun t => t <= T) (push_kept 31 (prune (ob_failures (origin_budget o g2)) T ENGINEER_WINDOW) T)
    /\ (length (push_kept 31 (prune (ob_failures (origin_budget o g2)) T ENGINEER_WINDOW) T) <= 31)%nat).
  { apply window_pushed; [lia|]. by apply window_pruned. }
  assert (Hgo : bounded T (set_budget o (mkOriginBudget (push_kept 31 (prune (ob_failures (origin_budget o g2)) T ENGINEER_WINDOW) T)
      (ob_admitted (origin_budget o g2))) (set_stats (count_stats o (g_stats g2)) g2))).
  { split; [by destruct o|by destruct o| | |by destruct o|by destruct o].
    - intros o'. pose proof (K3 o') as K. by destruct o, o'.
    - intros o' t Ht. apply (K4 o'). by destruct o, o'. }
  replace (origin_budget o (set_stats (count_stats o (g_stats g2)) g2)) with (origin_budget o g2) by (by destruct o).
  destruct (_ =? _)%nat; [by apply bounded_stats|exact Hgo].
Qed.

Lemma record_success_bounded T c m g : bounded T g -> bounded T (record_success c m g).
Proof.
  intros [K1 K2 K3 K4 K5 K6]. split; try done; cbn [record_success set_streaks g_streaks].
  - by apply map_Forall_delete.
  - etrans; [|exact K5]. apply inj_le. apply map_subseteq_size, delete_subseteq.
Qed.

Lemma guard_run_bounded `{HashIter} T ops : in_order T ops -> bounded T (guard_run ops).1.
Proof.
  revert T. induction ops as [|op ops IH] using rev_ind; intros T Ho.
  { split; try done; [intros o|by intros []]. by destruct o; split; [constructor|cbn; lia|constructor|cbn; lia]. }
  destruct (in_order_app _ _ _ Ho) as (T' & HT & Ho' & Ht). specialize (IH T' Ho').
  unfold guard_run in *. rewrite foldl_app. cbn [foldl]. destruct (foldl guard_op (Inner_default, []) ops) as [g log]. cbn [fst] in IH.
  apply (bounded_later T'); [done|]. destruct op as [c m t|c m t|c m]; cbn [op_time guard_op] in *; subst.
  - pose proof (check_bounded T' c m g IH). by destruct (check c m T' g) as [g' []].
  - by apply record_failure_bounded.
  - by apply record_success_bounded.
Qed.

Lemma check_waits T now c m g w :
  bounded T g -> T <= now -> (check c m now g).2 = Err w -> 0 < w <= MAX_DELAY /\ now + w <= T + MAX_DELAY.
Proof.
  intros [K1 K2 K3 K4 K5 K6] Hnow. unfold check.
  assert (H1 : forall w, (check_streak (c, m) now g).2 = Some w -> 0 < w <= MAX_DELAY /\ now + w <= T + MAX_DELAY).
  { intros v. unfold check_streak. destruct (g_streaks g !! (c, m)) as [s|] eqn:Hs; [|done]. specialize (K1 _ _ Hs). cbn in K1.
    destruct (_ <=? _); [done|]. cbn. rewrite since_past by lia. pose proof (streak_delay_bounds (sk_failures s)).
    destruct (Z.ltb_spec (now - sk_last s) (streak_delay (sk_failures s))); intros [= <-]. lia. }
  assert (Hc : forall g, g_clients (check_streak (c, m) now g).1 = g_clients g
     /\ forall o, origin_budget o (check_streak (c, m) now g).1 = origin_budget o g).
  { intros x. unfold check_streak. destruct (g_streaks x !! (c, m)); [|done]. destruct (_ <=? _); split; try done; by intros []. }
  specialize (Hc g) as [Hc Ho]. destruct (check_streak (c, m) now g) as [g1 [v|]]; cbn [fst snd] in *.
  { intros [= <-]. by apply H1. }
  assert (H2 : forall w, (check_client c now g1).2 = Some w -> 0 < w <= MAX_DELAY /\ now + w <= T + MAX_DELAY).
  { intros v. unfold check_client. rewrite Hc. destruct (g_clients g !! c) as [l|] eqn:Hl; [|done].
    destruct (window_pruned T _ l now CLIENT_WINDOW (K2 _ _ Hl)) as [Hf _]. cbn [snd]. destruct (_ <=? _)%nat; [|done].
    destruct (last (prune l now CLIENT_WINDOW)) as [t|] eqn:Ht; [|done]. apply last_Some_elem_of in Ht.
    eapply Forall_forall in Ht; [|exact Hf]. cbn in Ht. rewrite since_past by lia.
    destruct (Z.ltb_spec (now - t) CLIENT_SPACING) as [Hlt|]; [|done]. intros [= <-]. unfold CLIENT_SPACING, MAX_DELAY in *. lia. }
  assert (Ho2 : origin_budget (ck_origin c) (check_client c now g1).1 = origin_budget (ck_origin c) g).
  { rewrite <-Ho. unfold check_client. destruct (g_clients g1 !! c); [|done]. by destruct (ck_origin c). }
  destruct (check_client c now g1) as [g2 [v|]]; cbn [fst snd] in *.
  { intros [= <-]. by apply H2. }
  assert (H3 : forall w, (check_origin (ck_origin c) now g2).2 = Some w -> 0 < w <= MAX_DELAY /\ now + w <= T + MAX_DELAY).
  { intros v. unfold check_origin. cbn [snd]. rewrite Ho2. destruct (_ <? _)%nat; [|done].
    destruct (ob_admitted (origin_budget (ck_origin c) g)) as [t|] eqn:Ht; [|done]. apply K4 in Ht. rewrite since_past by lia.
    destruct (Z.ltb_spec (now - t) ENGINEER_SPACING) as [Hlt|]; [|done]. intros [= <-]. unfold ENGINEER_SPACING, MAX_DELAY, secs in *. lia. }
  destruct (check_origin (ck_origin c) now g2) as [g3 [v|]]; cbn [snd] in *; [|done]. intros [= <-]. by apply H3.
Qed.

(** C38: never a lockout, and no memory without bound: after any logins in time's
    order, from however many clients, every wait is over at most a minute after
    the last of them, a client that comes a minute after it is admitted, and the
    guard holds at most 4096 streaks and 4096 clients with at most twenty
    instants each, and 31 per origin. *)
Theorem never_a_lockout `{HashIter} ops T client member :
  in_order T ops ->
  let g := (guard_run ops).1 in
  (forall now w, T <= now -> (check client member now g).2 = Err w -> 0 < w <= MAX_DELAY /\ now + w <= T + MAX_DELAY)
  /\ (forall now, T + MAX_DELAY <= now -> (check client member now g).2 = Ok tt)
  /\ Z.of_nat (size (g_streaks g)) <= MAX_TRACKED /\ Z.of_nat (size (g_clients g)) <= MAX_TRACKED
  /\ map_Forall (fun _ w => (length w <= 20)%nat) (g_clients g)
  /\ (forall o, (length (ob_failures (origin_budget o g)) <= 31)%nat).
Proof.
  intros Ho g. pose proof (guard_run_bounded T ops Ho) as Hb. fold g in Hb. split; [|split].
  - intros now w Hn Hw. by apply (check_waits T now client member g).
  - intros now Hn. destruct (check client member now g).2 as [[]|w] eqn:Hc; [done|]. exfalso.
    apply (check_waits T) in Hc as [Hw Hle]; [lia|done|]. assert (0 < MAX_DELAY) by (by vm_compute). lia.
  - destruct Hb as [K1 K2 K3 K4 K5 K6]. split_and!; [done|done| |by apply K3].
    eapply map_Forall_impl; [exact K2|]. by intros _ w [_ Hw].
Qed.

Lemma never_a_lockout_witness :
  (check demo_client "ann" (secs 66) (@guard_run demo_iter demo_ops).1).2 = Ok tt
  /\ exists w, (check demo_client "ann" (secs 5) (@guard_run demo_iter demo_ops).1).2 = Err w.
Proof.
  assert (Ho : in_order (secs 5) demo_ops) by (split; [repeat constructor; by vm_compute|by repeat constructor]).
  split; [|by eexists; vm_compute].
  apply (proj1 (proj2 (@never_a_lockout demo_iter demo_ops (secs 5) demo_client "ann" Ho))). by vm_compute.
Defined.
