(* ===== verification/Roster.v ===== *)
(** * The roster ([iem-core/src/roster.rs], [config.rs])

    The people, the line-ups that place them on the site's sets and name the
    inputs' owners, and every check a roster passes: on its own ([problems]) and
    against the engine's topology ([problems_against]); the text a problem is
    reported in names valid ids and positions only.  The TOML reader is a
    library's: an error of it is its message and where it is. *)

From S2P Require Import Prelude Text MixState Msg.
From Stdlib Require Import Ascii.
From stdpp Require Import options.
Local Open Scope Z_scope.
#[local] Unset Default Proof Using.

(** ** Text *)

Definition ENGINEER : string := "engineer".
Definition MAX_LINEUP_ID : nat := 32.

Definition is_ascii_uppercase (c : ascii) : bool := (65 <=? nat_of_ascii c)%nat && (nat_of_ascii c <=? 90)%nat.

Definition lineup_char (c : ascii) : bool :=
  is_ascii_lowercase c || is_ascii_digit c || bool_decide (c = "_"%char) || bool_decide (c = "-"%char).

Definition valid_lineup_id (id : string) : bool :=
  negb (bool_decide (id = "")) && (slen id <=? MAX_LINEUP_ID)%nat && str_forallb lineup_char id.

Definition member_char (c : ascii) : bool :=
  is_ascii_lowercase c || is_ascii_uppercase c || is_ascii_digit c || bool_decide (c = "_"%char) || bool_decide (c = "-"%char).

Definition validate_member_id (member_id : string) : result string unit :=
  if decide (member_id = "") then Err "member_id cannot be empty"
  else if negb (str_forallb member_char member_id)
  then Err ("member_id '" +:+ member_id +:+ "' contains invalid characters (only a-z, A-Z, 0-9, _, - allowed)")
  else Ok tt.

Definition valid_person_id (id : string) : bool :=
  match validate_member_id id with Ok _ => true | Err _ => false end
  && str_forallb (fun c => negb (is_ascii_uppercase c)) id.

(** [trim().is_empty()]: nothing but white space, of Unicode in UTF-8. *)
Fixpoint blank (s : string) : bool :=
  match s with
  | EmptyString => true
  | String a s =>
      let n := nat_of_ascii a in
      if ((9 <=? n) && (n <=? 13) || (n =? 32))%nat then blank s
      else
        match s with
        | String b s =>
            let k := nat_of_ascii b in
            if ((n =? 194) && ((k =? 133) || (k =? 160)))%nat then blank s
            else
              match s with
              | String c s =>
                  let j := nat_of_ascii c in
                  if ((n =? 225) && (k =? 154) && (j =? 128)
                      || (n =? 226) && (k =? 128) && ((128 <=? j) && (j <=? 138) || (j =? 168) || (j =? 169) || (j =? 175))
                      || (n =? 226) && (k =? 129) && (j =? 159)
                      || (n =? 227) && (k =? 128) && (j =? 128))%nat
                  then blank s else false
              | EmptyString => false
              end
        | EmptyString => false
        end
  end.

(** [U+2026]. *)
Definition ellipsis : string := String (ascii_of_nat 226) (String (ascii_of_nat 128) (String (ascii_of_nat 166) "")).

Definition quote : ascii := ascii_of_nat 34.
Definition backquote : ascii := ascii_of_nat 96.
Definition backslash : ascii := ascii_of_nat 92.

(** [open]: the mark of the span we are in; [escaped]: after a backslash. *)
Fixpoint redact_in (open : option ascii) (escaped : bool) (message : string) : string :=
  match message with
  | EmptyString => ""
  | String c rest =>
      match open with
      | None =>
          if bool_decide (c = quote) || bool_decide (c = backquote)
          then String c (ellipsis +:+ String c (redact_in (Some c) escaped rest))
          else String c (redact_in None escaped rest)
      | Some q =>
          if escaped then redact_in open false rest
          else if bool_decide (c = backslash) then redact_in open true rest
          else if bool_decide (c = q) then redact_in None escaped rest
          else redact_in open escaped rest
      end
  end.

Definition redact (message : string) : string := redact_in None false message.

(** A library's parse error: its message and where its span starts. *)
Record TomlError := mkTomlError { te_message : string; te_start : option Z }.

Fixpoint count_newlines (s : string) : Z :=
  match s with EmptyString => 0 | String c s => (if bool_decide (c = "010"%char) then 1 else 0) + count_newlines s end.

Definition parse_error (text : string) (e : TomlError) : string :=
  let message := redact (te_message e) in
  match te_start e with
  | Some start =>
      let end_ := Z.to_nat (Z.min start (Z.of_nat (slen text))) in
      "line " +:+ dec (count_newlines (str_take end_ text) + 1) +:+ ": " +:+ message
  | None => message
  end.

Definition quoted (value : string) (valid : bool) (n : nat) : string :=
  if valid then "'" +:+ value +:+ "'" else "#" +:+ dec (Z.of_nat n).
Definition unquoted (value : string) (valid : bool) (n : nat) : string :=
  if valid then value else "#" +:+ dec (Z.of_nat n).
Definition someone (id fallback : string) : string :=
  if valid_person_id id then "'" +:+ id +:+ "'" else fallback.

(** ** The roster *)

Record Person := mkPerson { pe_id : string; pe_name : string; pe_takes_over : option string }.

Record LineupInput := mkLineupInput { li_name : string; li_owner : option string }.

Record Lineup := mkLineup {
  lu_id : string;
  lu_name : string;
  lu_main : bool;
  lu_leaders : list string;
  lu_sets : gmap string string;
  lu_inputs : gmap string LineupInput;
}.

Record Equipment := mkEquipment { eq_sets : list string; eq_inputs : list string }.

Record Roster := mkRoster { ro_people : list Person; ro_lineups : list Lineup; ro_equipment : option Equipment }.

Record MixFact := mkMixFact { mf_id : string; mf_stereo : bool; mf_hears : list string }.
Record TopologyFacts := mkTopologyFacts { tf_mixes : list MixFact; tf_inputs : list string; tf_engineer : string }.

(** A [BTreeMap]'s entries in order. *)
Definition entries {V : Type} (m : gmap string V) : list (string * V) :=
  omap (fun k => pair k <$> m !! k) (btree_keys m).

(** The first that satisfies. *)
Definition find {A : Type} (p : A -> bool) (l : list A) : option A := snd <$> list_find (fun x => Is_true (p x)) l.

Definition lineup_set_of (l : Lineup) (person : string) : option string :=
  fst <$> find (fun '(_, p) => bool_decide (p = person)) (entries (lu_sets l)).
Definition person_on (l : Lineup) (set : string) : option string := lu_sets l !! set.
Definition plays (l : Lineup) (person : string) : bool := bool_decide (is_Some (lineup_set_of l person)).
Definition leads (l : Lineup) (person : string) : bool := bool_decide (person ∈ lu_leaders l).

Definition has_set (e : Equipment) (id : string) : bool := bool_decide (id ∈ eq_sets e).
Definition has_input (e : Equipment) (id : string) : bool := bool_decide (id ∈ eq_inputs e).

Definition roster_person (r : Roster) (id : string) : option Person := find (fun p => bool_decide (pe_id p = id)) (ro_people r).
Definition roster_lineup (r : Roster) (id : string) : option Lineup := find (fun l => bool_decide (lu_id l = id)) (ro_lineups r).
(** A panic without a main line-up. *)
Definition roster_main (r : Roster) : option Lineup := find lu_main (ro_lineups r).
Definition roster_set_of (r : Roster) (lineup person : string) : option string :=
  l ← roster_lineup r lineup; lineup_set_of l person.
Definition leads_any (r : Roster) (person : string) : bool := existsb (fun l => leads l person) (ro_lineups r).

(** ** Problems *)

Definition note (b : bool) (problem : string) : list string := if b then [problem] else [].

(** A line of each element, with its index. *)
Definition each {A : Type} (f : nat -> A -> list string) (l : list A) : list string := concat (imap f l).

(** The same, with the set of the values seen before. *)
Fixpoint each_seen {A : Type} (key : A -> string) (f : nat -> bool -> A -> list string) (i : nat) (seen : gset string) (l : list A)
    : list string :=
  match l with
  | [] => []
  | x :: l => f i (bool_decide (key x ∈ seen)) x ++ each_seen key f (S i) ({[key x]} ∪ seen) l
  end.

Definition who (i : nat) (p : Person) : string := "person " +:+ quoted (pe_id p) (valid_person_id (pe_id p)) (S i).

Definition person_problems (i : nat) (seen : bool) (p : Person) : list string :=
  note (negb (valid_person_id (pe_id p))) (who i p +:+ ": the id must be lower-case a-z 0-9 _ -, at least one")
  ++ note (bool_decide (pe_id p = ENGINEER)) (who i p +:+ " is the engineer's id, never a person's")
  ++ note seen (who i p +:+ " is listed twice")
  ++ note (blank (pe_name p)) (who i p +:+ " has no name").

(** [taken]: who claimed an id last. *)
Fixpoint takes_over_problems (i : nat) (taken : gmap string string) (people : list Person) : list string :=
  match people with
  | [] => []
  | p :: people =>
      match pe_takes_over p with
      | None => takes_over_problems (S i) taken people
      | Some t =>
          if negb (valid_person_id t) || bool_decide (t = pe_id p) || bool_decide (t = ENGINEER)
          then (who i p +:+ ": takes_over must be another member's lower-case id") :: takes_over_problems (S i) taken people
          else
            match taken !! t with
            | Some first => ["takes_over '" +:+ t +:+ "' is claimed by both " +:+ first +:+ " and " +:+ who i p]
            | None => []
            end ++ takes_over_problems (S i) (<[t := who i p]> taken) people
      end
  end.

Definition lineup_named (i : nat) (l : Lineup) : string := "lineup " +:+ quoted (lu_id l) (valid_lineup_id (lu_id l)) (S i).

Definition set_problems (ids : gset string) (lineup : string) (j : nat) (placed : bool) (x : string * string) : list string :=
  let '(set, p) := x in
  let set := "set " +:+ quoted set (valid_id set) (S j) in
  let wearer := someone p "its wearer" in
  note (negb (bool_decide (p ∈ ids))) (lineup +:+ ": " +:+ set +:+ ": " +:+ wearer +:+ " is not a person")
  ++ note placed (lineup +:+ ": " +:+ set +:+ ": " +:+ wearer +:+ " wears another set too").

Definition leader_problems (placed : gset string) (lineup : string) (k : nat) (leader : string) : list string :=
  note (negb (bool_decide (leader ∈ placed)))
    (lineup +:+ ": leader " +:+ quoted leader (valid_person_id leader) (S k) +:+ " wears no set of it").

Definition input_problems (placed : gset string) (lineup : string) (k : nat) (x : string * LineupInput) : list string :=
  let '(input, i) := x in
  let input := "input " +:+ quoted input (valid_id input) (S k) in
  note (blank (li_name i)) (lineup +:+ ": " +:+ input +:+ " has no name")
  ++ match li_owner i with
     | Some o => note (negb (bool_decide (o ∈ placed)))
                   (lineup +:+ ": " +:+ input +:+ ": owner " +:+ someone o "its owner" +:+ " wears no set of it")
     | None => []
     end.

(** What a line-up places outside the equipment. *)
Definition equipment_lineup_problems (e : Equipment) (lineup : string) (l : Lineup) : list string :=
  each (fun j set => note (negb (has_set e set))
          (lineup +:+ ": set " +:+ quoted set (valid_id set) (S j) +:+ " is not in [equipment] sets")) (btree_keys (lu_sets l))
  ++ each (fun k '(input, i) => note (bool_decide (is_Some (li_owner i)) && negb (has_input e input))
          (lineup +:+ ": input " +:+ quoted input (valid_id input) (S k) +:+ " has an owner and is not in [equipment] inputs"))
       (entries (lu_inputs l)).

(** An id that is no valid id is not remembered as seen. *)
Fixpoint listed_problems (what : string) (n : nat) (seen : gset string) (ids : list string) : list string :=
  match ids with
  | [] => []
  | id :: ids =>
      let named := "[equipment]: " +:+ what +:+ " " +:+ quoted id (valid_id id) (S n) in
      if negb (valid_id id) then (named +:+ " is no valid id") :: listed_problems what (S n) seen ids
      else if bool_decide (id ∈ seen) then (named +:+ " is listed twice") :: listed_problems what (S n) seen ids
      else listed_problems what (S n) ({[id]} ∪ seen) ids
  end.

Definition own_problems (e : Equipment) : list string :=
  listed_problems "set" 0 ∅ (eq_sets e) ++ listed_problems "input" 0 ∅ (eq_inputs e).

Definition wearers (l : Lineup) : gset string := list_to_set (entries (lu_sets l)).*2.

Definition lineup_problems (ids : gset string) (equipment : option Equipment) (i : nat) (seen : bool) (l : Lineup) : list string :=
  let lineup := lineup_named i l in
  note (negb (valid_lineup_id (lu_id l))) (lineup +:+ ": the id must be 1 to " +:+ dec (Z.of_nat MAX_LINEUP_ID) +:+ " of a-z 0-9 _ -")
  ++ note seen (lineup +:+ " is listed twice")
  ++ note (blank (lu_name l)) (lineup +:+ " has no name")
  ++ note (lu_main l && bool_decide (lu_sets l = ∅)) (lineup +:+ " is main and has no sets")
  ++ each_seen snd (set_problems ids lineup) 0 ∅ (entries (lu_sets l))
  ++ each (leader_problems (wearers l) lineup) (lu_leaders l)
  ++ each (input_problems (wearers l) lineup) (entries (lu_inputs l))
  ++ match equipment with Some e => equipment_lineup_problems e lineup l | None => [] end.

Definition mains (r : Roster) : nat := length (filter (fun l => lu_main l = true) (ro_lineups r)).

Definition problems (r : Roster) : list string :=
  let ids : gset string := list_to_set (pe_id <$> ro_people r) in
  note (bool_decide (ro_people r = [])) "the roster has no people"
  ++ each_seen pe_id person_problems 0 ∅ (ro_people r)
  ++ takes_over_problems 0 ∅ (ro_people r)
  ++ each_seen lu_id (lineup_problems ids (ro_equipment r)) 0 ∅ (ro_lineups r)
  ++ note (negb (mains r =? 1)%nat) ("exactly one lineup must be main, not " +:+ dec (Z.of_nat (mains r)))
  ++ match ro_equipment r with Some e => own_problems e | None => [] end.

(** ** Problems against a topology *)

Definition fact_of (facts : TopologyFacts) (id : string) : option MixFact := find (fun m => bool_decide (mf_id m = id)) (tf_mixes facts).

(** A stereo mix other than the engineer's. *)
Definition is_set (facts : TopologyFacts) (id : string) : bool :=
  match fact_of facts id with
  | Some m => mf_stereo m && negb (bool_decide (mf_id m = tf_engineer facts))
  | None => false
  end.

Definition not_set (where_ : string) (j : nat) (set : string) : string :=
  where_ +:+ ": set " +:+ quoted set (valid_id set) (S j) +:+ " is not a stereo mix of the site other than the engineer's".
Definition not_input (where_ : string) (k : nat) (input : string) : string :=
  where_ +:+ ": input " +:+ quoted input (valid_id input) (S k) +:+ " is not an input of the site".

Definition placed_problems (facts : TopologyFacts) (where_ : string) (sets inputs : list string) : list string :=
  each (fun j set => note (negb (is_set facts set)) (not_set where_ j set)) sets
  ++ each (fun k input => note (negb (bool_decide (input ∈ tf_inputs facts))) (not_input where_ k input)) inputs.

Definition hearing_problems (facts : TopologyFacts) (line : string) (l : Lineup) (k : nat) (leader : string) : list string :=
  match lineup_set_of l leader with
  | None => []
  | Some set =>
      let sets := btree_keys (lu_sets l) in
      let who := unquoted leader (valid_person_id leader) (S k) in
      let n := (default 0 (position (fun s => bool_decide (s = set)) sets) + 1)%nat in
      let own := unquoted set (valid_id set) n in
      let hears := match fact_of facts set with Some m => mf_hears m | None => [] end in
      each (fun j other => note (negb (bool_decide (other = set)) && negb (bool_decide (other ∈ hears)))
        ("leader " +:+ who +:+ " in " +:+ line +:+ ": set " +:+ own +:+ " does not hear "
         +:+ unquoted other (valid_id other) (S j) +:+ "; the site needs peers (F30)")) sets
  end.

Definition lineup_against (facts : TopologyFacts) (i : nat) (l : Lineup) : list string :=
  let valid := valid_lineup_id (lu_id l) in
  placed_problems facts (lineup_named i l) (btree_keys (lu_sets l)) (btree_keys (lu_inputs l))
  ++ let line := if valid then lu_id l else "lineup #" +:+ dec (Z.of_nat i + 1) in
     each (hearing_problems facts line l) (lu_leaders l).

Definition problems_against (r : Roster) (facts : TopologyFacts) : list string :=
  each (lineup_against facts) (ro_lineups r)
  ++ match ro_equipment r with
     | Some e => placed_problems facts "[equipment]" (eq_sets e) (eq_inputs e)
     | None => []
     end.

(** ** The facts *)

(** Of the topology the engine announces. *)
Definition facts_from (t : TopologyInfo) : TopologyFacts :=
  mkTopologyFacts ((fun m => mkMixFact (mi_id m) (mi_channels m =? 2) (mi_mixes m ++ mi_peers m)) <$> ti_mixes t)
    (ii_id <$> ti_inputs t) (ti_engineer t).

(** Of a site file's [engine] table. *)
Record EngineMix := mkEngineMix { em_id : string; em_tx : list Z; em_mixes : list string; em_peers : list string }.
Record EngineTable := mkEngineTable { et_engineer : string; et_inputs : list string; et_mixes : list EngineMix }.

Definition facts_of (e : EngineTable) : TopologyFacts :=
  mkTopologyFacts ((fun m => mkMixFact (em_id m) (length (em_tx m) =? 2)%nat (em_mixes m ++ em_peers m)) <$> et_mixes e)
    (et_inputs e) (et_engineer e).

Inductive RosterError :=
| RosterParse (e : string)
| RosterSite (e : string).

(** The library's reader of a site file: its [engine] table, if it has one. *)
Definition site_facts (read : string -> result TomlError (option EngineTable)) (site_text : string) : result RosterError TopologyFacts :=
  match read site_text with
  | Err e => Err (RosterSite (parse_error site_text e))
  | Ok None => Err (RosterSite "no [engine] table")
  | Ok (Some engine) => Ok (facts_of engine)
  end.

(** The [engine] table of a site read before, as the library turns it into one. *)
Definition engine_facts {Table : Type} (try_into : Table -> result TomlError EngineTable) (table : Table) : result RosterError TopologyFacts :=
  match try_into table with
  | Ok engine => Ok (facts_of engine)
  | Err e => Err (RosterSite ("[engine]: " +:+ redact (te_message e)))
  end.

Definition roster_parse (read : string -> result TomlError Roster) (text : string) : result RosterError Roster :=
  match read text with Ok r => Ok r | Err e => Err (RosterParse (parse_error text e)) end.

(** Reading and checking a roster ([roster_watch.rs]). *)
Definition validate (read : string -> result TomlError Roster) (text : string) (facts : option TopologyFacts) : result (list string) Roster :=
  match roster_parse read text with
  | Err e => Err [match e with RosterParse e => "roster file: " +:+ e | RosterSite e => "site file: " +:+ e end]
  | Ok r =>
      let found := problems r ++ match facts with Some f => problems_against r f | None => [] end in
      match found with [] => Ok r | _ => Err found end
  end.
