(* ===== verification/RosterSpec.v ===== *)
(** * What a roster's checks promise

    [validate] accepts exactly the well-formed rosters, and what it says of the
    others does not depend on the names in them, nor on an id that is no valid
    id: a value typed into the wrong field never reaches a log.

    Then the facts of the topology a roster is checked against, offline and running. *)

From S2P Require Import Prelude Text MixState Msg Roster.
From Stdlib Require Import Ascii.
From stdpp Require Import options.
Local Open Scope Z_scope.
#[local] Unset Default Proof Using.

(** ** Well-formed rosters *)

Definition person_wf (p : Person) : Prop :=
  valid_person_id (pe_id p) = true /\ pe_id p <> ENGINEER /\ blank (pe_name p) = false.

Definition takes_wf (p : Person) : Prop :=
  forall t, pe_takes_over p = Some t -> valid_person_id t = true /\ t <> pe_id p /\ t <> ENGINEER.

(** Somebody wears a set of the line-up. *)
Definition wears (l : Lineup) (person : string) : Prop := exists set, lu_sets l !! set = Some person.

Record lineup_wf (people : list string) (e : option Equipment) (l : Lineup) : Prop := {
  lw_id : valid_lineup_id (lu_id l) = true;
  lw_name : blank (lu_name l) = false;
  lw_main : lu_main l = true -> lu_sets l <> ∅;
  lw_people : forall set p, lu_sets l !! set = Some p -> p ∈ people;
  lw_once : forall s1 s2 p, lu_sets l !! s1 = Some p -> lu_sets l !! s2 = Some p -> s1 = s2;
  lw_leaders : forall leader, leader ∈ lu_leaders l -> wears l leader;
  lw_inputs : forall input i, lu_inputs l !! input = Some i -> blank (li_name i) = false;
  lw_owners : forall input i o, lu_inputs l !! input = Some i -> li_owner i = Some o -> wears l o;
  lw_listed : forall e', e = Some e' ->
    (forall set, is_Some (lu_sets l !! set) -> set ∈ eq_sets e')
    /\ (forall input i, lu_inputs l !! input = Some i -> is_Some (li_owner i) -> input ∈ eq_inputs e');
}.

Definition list_wf (ids : list string) : Prop := Forall (fun id => valid_id id = true) ids /\ NoDup ids.

Record roster_wf (r : Roster) : Prop := {
  rw_people : ro_people r <> [];
  rw_persons : Forall person_wf (ro_people r);
  rw_person_ids : NoDup (pe_id <$> ro_people r);
  rw_takes : Forall takes_wf (ro_people r);
  rw_takes_once : NoDup (omap pe_takes_over (ro_people r));
  rw_lineups : Forall (lineup_wf (pe_id <$> ro_people r) (ro_equipment r)) (ro_lineups r);
  rw_lineup_ids : NoDup (lu_id <$> ro_lineups r);
  rw_main : exists l, filter (fun l => lu_main l = true) (ro_lineups r) = [l];
  rw_equipment : forall e, ro_equipment r = Some e -> list_wf (eq_sets e) /\ list_wf (eq_inputs e);
}.

(** Against a topology. *)
Record fits_site (facts : TopologyFacts) (r : Roster) : Prop := {
  fs_sets : forall l set, l ∈ ro_lineups r -> is_Some (lu_sets l !! set) -> is_set facts set = true;
  fs_inputs : forall l input, l ∈ ro_lineups r -> is_Some (lu_inputs l !! input) -> input ∈ tf_inputs facts;
  fs_leaders : forall l leader set other m, l ∈ ro_lineups r -> leader ∈ lu_leaders l ->
    lineup_set_of l leader = Some set -> is_Some (lu_sets l !! other) -> other <> set ->
    fact_of facts set = Some m -> other ∈ mf_hears m;
  fs_equipment : forall e, ro_equipment r = Some e ->
    Forall (fun set => is_set facts set = true) (eq_sets e) /\ Forall (fun input => input ∈ tf_inputs facts) (eq_inputs e);
}.

(** ** Entries *)

Lemma elem_of_entries {V : Type} (m : gmap string V) k v : (k, v) ∈ entries m <-> m !! k = Some v.
Proof.
  unfold entries. rewrite list_elem_of_omap. split.
  - intros (k' & _ & Hk). destruct (m !! k') as [v'|] eqn:Hv; [|done]. cbn in Hk. by injection Hk as <- <-.
  - intros Hv. exists k. rewrite elem_of_btree_keys, Hv. split; [by eexists|done].
Qed.

Lemma entries_keys {V : Type} (m : gmap string V) : (entries m).*1 = btree_keys m.
Proof.
  unfold entries. assert (Hk : Forall (fun k => is_Some (m !! k)) (btree_keys m)).
  { apply Forall_forall. intros k. apply elem_of_btree_keys. }
  induction Hk as [|k l [v Hv] _ IH]; [done|]. cbn. rewrite Hv. cbn. by rewrite IH.
Qed.

Lemma elem_of_wearers l p : p ∈ wearers l <-> wears l p.
Proof.
  unfold wearers, wears. rewrite elem_of_list_to_set, list_elem_of_fmap. setoid_rewrite <-elem_of_entries. split.
  - intros [[s q] [-> Hin]]. by exists s.
  - intros [s Hin]. by exists (s, p).
Qed.

(** Each value once: no two keys have the same. *)
Lemma entries_once (m : gmap string string) :
  NoDup (entries m).*2 <-> forall s1 s2 p, m !! s1 = Some p -> m !! s2 = Some p -> s1 = s2.
Proof.
  setoid_rewrite <-elem_of_entries. pose proof (NoDup_btree_keys m) as Hk. rewrite <-entries_keys in Hk.
  induction (entries m) as [|[k v] l IH]; [split; [intros _ s1 s2 p Hs; by apply elem_of_nil in Hs|constructor]|].
  cbn in *. apply NoDup_cons in Hk as [Hk Hl]. rewrite NoDup_cons, IH by done. split.
  - intros [Hv Ho] s1 s2 p. rewrite !elem_of_cons. intros [H1|H1] [H2|H2]; simplify_eq; [done| | |by eapply Ho].
    + destruct Hv. apply list_elem_of_fmap. by exists (s2, v).
    + destruct Hv. apply list_elem_of_fmap. by exists (s1, v).
  - intros Ho. split.
    + intros [[k' v'] [-> Hin]]%list_elem_of_fmap. cbn in *. assert (k = k') as -> by (eapply Ho; [left|right; exact Hin]).
      apply Hk, list_elem_of_fmap. by exists (k', v').
    + intros s1 s2 p H1 H2. by eapply Ho; right.
Qed.

(** ** No problems *)

Lemma note_nil b s : note b s = [] <-> b = false.
Proof. by destruct b. Qed.

Lemma each_nil {A : Type} (f : nat -> A -> list string) (Q : A -> Prop) l :
  (forall i x, f i x = [] <-> Q x) -> each f l = [] <-> Forall Q l.
Proof.
  intros Hf. unfold each. revert f Hf. induction l as [|x l IH]; intros f Hf; [done|]. cbn [imap concat].
  rewrite app_nil, Hf, Forall_cons. rewrite (IH (f ∘ S)); [done|]. intros i y. apply Hf.
Qed.

Lemma each_seen_nil {A : Type} (key : A -> string) f (Q : A -> Prop) i seen l :
  (forall i s x, f i s x = [] <-> Q x /\ s = false) ->
  each_seen key f i seen l = [] <-> Forall Q l /\ NoDup (key <$> l) /\ Forall (fun x => key x ∉ seen) l.
Proof.
  intros Hf. revert i seen. induction l as [|x l IH]; intros i seen; cbn [each_seen].
  { split; [intros _; repeat constructor|done]. }
  rewrite app_nil, Hf, IH, bool_decide_eq_false, fmap_cons, NoDup_cons, !Forall_cons.
  assert (Hin : Forall (fun y => key y ∉ {[key x]} ∪ seen) l <-> key x ∉ key <$> l /\ Forall (fun y => key y ∉ seen) l).
  { rewrite !Forall_forall. split.
    - intros Hl. split; [intros [y [He Hy]]%list_elem_of_fmap; specialize (Hl y Hy); set_solver|intros y Hy; specialize (Hl y Hy); set_solver].
    - intros [Hx Hl] y Hy. specialize (Hl y Hy). cbn. rewrite not_elem_of_union, elem_of_singleton. split; [|done].
      intros He. apply Hx, list_elem_of_fmap. by exists y. }
  rewrite Hin. tauto.
Qed.

Lemma takes_over_nil i taken people :
  takes_over_problems i taken people = [] <->
  Forall takes_wf people /\ NoDup (omap pe_takes_over people) /\ Forall (fun t => taken !! t = None) (omap pe_takes_over people).
Proof.
  revert i taken. induction people as [|p people IH]; intros i taken; cbn [takes_over_problems].
  { split; [intros _; repeat constructor|done]. }
  rewrite Forall_cons. cbn [omap list_omap]. destruct (pe_takes_over p) as [t|] eqn:Ht; cycle 1.
  { assert (Hp : takes_wf p) by (intros t Ht'; congruence). rewrite IH. tauto. }
  assert (Hw : takes_wf p <-> negb (valid_person_id t) || bool_decide (t = pe_id p) || bool_decide (t = ENGINEER) = false).
  { rewrite !orb_false_iff, negb_false_iff, !bool_decide_eq_false. unfold takes_wf. split.
    - intros Hp. destruct (Hp t Ht) as (? & ? & ?). tauto.
    - intros [[? ?] ?] t' Ht'. rewrite Ht in Ht'. by injection Ht' as <-. }
  destruct (negb (valid_person_id t) || bool_decide (t = pe_id p) || bool_decide (t = ENGINEER)) eqn:Hb.
  { split; [done|]. intros [[Hp _] _]. apply Hw in Hp. done. }
  rewrite app_nil, IH, NoDup_cons, Forall_cons.
  assert (Hl : Forall (fun t' => <[t := who i p]> taken !! t' = None) (omap pe_takes_over people)
               <-> t ∉ omap pe_takes_over people /\ Forall (fun t' => taken !! t' = None) (omap pe_takes_over people)).
  { rewrite !Forall_forall. split.
    - intros Hl. split; [intros Hin; specialize (Hl t Hin); by rewrite lookup_insert_eq in Hl|].
      intros t' Hin. specialize (Hl t' Hin). by apply lookup_insert_None in Hl as [? _].
    - intros [Hn Hl] t' Hin. apply lookup_insert_None. split; [by apply Hl|]. by intros ->. }
  rewrite Hl. assert (Hk : match taken !! t with
      | Some first => ["takes_over '" +:+ t +:+ "' is claimed by both " +:+ first +:+ " and " +:+ who i p] | None => [] end = []
      <-> taken !! t = None) by (by destruct (taken !! t)).
  rewrite Hk. tauto.
Qed.

Lemma listed_nil what n seen ids :
  listed_problems what n seen ids = [] <-> Forall (fun id => valid_id id = true) ids /\ NoDup ids /\ Forall (fun id => id ∉ seen) ids.
Proof.
  revert n seen. induction ids as [|id ids IH]; intros n seen; cbn [listed_problems].
  { split; [intros _; repeat constructor|done]. }
  rewrite !Forall_cons, NoDup_cons. destruct (valid_id id); cbn [negb]; [|split; [done|by intros [[? _] _]]].
  case_bool_decide as Hs; [split; [done|by intros (_ & _ & ? & _)]|]. rewrite IH.
  assert (Hin : Forall (fun y => y ∉ {[id]} ∪ seen) ids <-> id ∉ ids /\ Forall (fun y => y ∉ seen) ids).
  { rewrite !Forall_forall. split; [intros Hl; split; [intros Hy; specialize (Hl id Hy); set_solver|intros y Hy; specialize (Hl y Hy); set_solver]|].
    intros [Hx Hl] y Hy. specialize (Hl y Hy). cbn. rewrite not_elem_of_union, elem_of_singleton. split; [by intros ->|done]. }
  rewrite Hin. tauto.
Qed.

Lemma person_problems_nil i seen p : person_problems i seen p = [] <-> person_wf p /\ seen = false.
Proof.
  unfold person_problems, person_wf. rewrite !app_nil, !note_nil, negb_false_iff, bool_decide_eq_false. tauto.
Qed.

Lemma sets_nil ids lineup l :
  each_seen snd (set_problems ids lineup) 0 ∅ (entries (lu_sets l)) = [] <->
  (forall set p, lu_sets l !! set = Some p -> p ∈ ids)
  /\ (forall s1 s2 p, lu_sets l !! s1 = Some p -> lu_sets l !! s2 = Some p -> s1 = s2).
Proof.
  rewrite (each_seen_nil _ _ (fun x => x.2 ∈ ids)).
  - rewrite entries_once. setoid_rewrite <-(elem_of_entries (lu_sets l)). rewrite !Forall_forall. split.
    + intros (H1 & H2 & _). split; [|done]. intros set p Hin. by apply (H1 (set, p)).
    + intros [H1 H2]. split_and!; [|done|intros x _; apply not_elem_of_empty]. intros [set p] Hin. by eapply H1.
  - intros j placed [set p]. unfold set_problems. rewrite app_nil, !note_nil, negb_false_iff, bool_decide_eq_true. done.
Qed.

Lemma inputs_nil lineup l :
  each (input_problems (wearers l) lineup) (entries (lu_inputs l)) = [] <->
  (forall input i, lu_inputs l !! input = Some i -> blank (li_name i) = false)
  /\ (forall input i o, lu_inputs l !! input = Some i -> li_owner i = Some o -> wears l o).
Proof.
  rewrite (each_nil _ (fun x => blank (li_name x.2) = false /\ forall o, li_owner x.2 = Some o -> wears l o)).
  - setoid_rewrite <-(elem_of_entries (lu_inputs l)). rewrite Forall_forall. split.
    + intros Hx. split; [intros input i Hin; apply (Hx _ Hin)|intros input i o Hin; apply (Hx _ Hin)].
    + intros [H1 H2] [input i] Hin. split; [by eapply H1|intros o; by apply (H2 input i o)].
  - intros k [input i]. unfold input_problems. rewrite app_nil, note_nil. cbn. destruct (li_owner i) as [o|].
    + rewrite note_nil, negb_false_iff, bool_decide_eq_true, elem_of_wearers. naive_solver.
    + naive_solver.
Qed.

Lemma equipment_lineup_nil e lineup l :
  equipment_lineup_problems e lineup l = [] <->
  (forall set, is_Some (lu_sets l !! set) -> set ∈ eq_sets e)
  /\ (forall input i, lu_inputs l !! input = Some i -> is_Some (li_owner i) -> input ∈ eq_inputs e).
Proof.
  unfold equipment_lineup_problems. rewrite app_nil.
  rewrite (each_nil _ (fun set => set ∈ eq_sets e)), (each_nil _ (fun x => is_Some (li_owner x.2) -> x.1 ∈ eq_inputs e)).
  - setoid_rewrite <-(elem_of_btree_keys (lu_sets l)). setoid_rewrite <-(elem_of_entries (lu_inputs l)).
    rewrite !Forall_forall. split; intros [H1 H2]; (split; [done|]).
    + intros input i Hin. by apply (H2 (input, i)).
    + intros [input i] Hin. by apply H2.
  - intros k [input i]. rewrite note_nil, andb_false_iff, bool_decide_eq_false, negb_false_iff. unfold has_input.
    rewrite bool_decide_eq_true. cbn. destruct (li_owner i);
      [|split; [intros _ [? ?]; done|intros _; left; by intros [? ?]]].
    split; [intros [Hn|?]; [by destruct Hn|done]|]. intros Hi. right. apply Hi. by eexists.
  - intros j set. rewrite note_nil, negb_false_iff. apply bool_decide_eq_true.
Qed.

Lemma lineup_problems_nil people e i seen l :
  lineup_problems (list_to_set people) e i seen l = [] <-> lineup_wf people e l /\ seen = false.
Proof.
  unfold lineup_problems. rewrite !app_nil, !note_nil, negb_false_iff, sets_nil, inputs_nil.
  rewrite (each_nil _ (fun leader => wears l leader)); cycle 1.
  { intros k leader. unfold leader_problems. by rewrite note_nil, negb_false_iff, bool_decide_eq_true, elem_of_wearers. }
  rewrite andb_false_iff, bool_decide_eq_false, Forall_forall. setoid_rewrite elem_of_list_to_set.
  assert (He : match e with Some e => equipment_lineup_problems e (lineup_named i l) l | None => [] end = [] <->
    forall e', e = Some e' -> (forall set, is_Some (lu_sets l !! set) -> set ∈ eq_sets e')
      /\ (forall input i, lu_inputs l !! input = Some i -> is_Some (li_owner i) -> input ∈ eq_inputs e')).
  { destruct e as [e|]; [|split; [by intros _ e'|done]]. rewrite equipment_lineup_nil. split; [by intros Hp e' [= <-]|]. intros Hp. by apply Hp. }
  rewrite He. split.
  - intros (H1 & H2 & H3 & H4 & [H5 H6] & H7 & [H8 H9] & H10). split; [|done]. split; try done.
    intros Hm. by destruct H4 as [H4|H4]; [rewrite Hm in H4|].
  - intros [[H1 H2 H3 H4 H5 H6 H7 H8 H9] ->]. split_and!; try done. destruct (lu_main l); [right; by apply H3|by left].
Qed.

(** The checks find nothing exactly in a well-formed roster. *)
Lemma problems_nil r : problems r = [] <-> roster_wf r.
Proof.
  unfold problems. rewrite !app_nil, !note_nil, bool_decide_eq_false, takes_over_nil.
  rewrite (each_seen_nil _ _ person_wf) by (intros; apply person_problems_nil).
  rewrite (each_seen_nil _ _ (lineup_wf (pe_id <$> ro_people r) (ro_equipment r))) by (intros; apply lineup_problems_nil).
  assert (Hm : negb (mains r =? 1)%nat = false <-> exists l, filter (fun l => lu_main l = true) (ro_lineups r) = [l]).
  { unfold mains. rewrite negb_false_iff, Nat.eqb_eq. destruct (filter _ _) as [|x [|y l]]; cbn; split; try done;
      [by intros [z Hz]|by exists x|by intros [z Hz]]. }
  assert (He : match ro_equipment r with Some e => own_problems e | None => [] end = [] <->
    forall e, ro_equipment r = Some e -> list_wf (eq_sets e) /\ list_wf (eq_inputs e)).
  { unfold own_problems, list_wf. destruct (ro_equipment r) as [e|]; [|split; [by intros _ e|done]]. rewrite app_nil, !listed_nil. split.
    - intros [(H1 & H2 & _) (H3 & H4 & _)] e' [= <-]. done.
    - intros Hw. destruct (Hw e eq_refl) as [[H1 H2] [H3 H4]]. split_and!; try done; apply Forall_forall; intros; apply not_elem_of_empty. }
  rewrite Hm, He. split.
  - intros (H1 & (H2 & H3 & _) & (H4 & H5 & _) & (H6 & H7 & _) & H8 & H9). by split.
  - intros [H1 H2 H3 H4 H5 H6 H7 H8 H9]. split_and!; try done; apply Forall_forall; intros; apply not_elem_of_empty || apply lookup_empty.
Qed.

(** ** Against a site *)

Lemma placed_nil facts where_ sets inputs :
  placed_problems facts where_ sets inputs = [] <->
  Forall (fun set => is_set facts set = true) sets /\ Forall (fun input => input ∈ tf_inputs facts) inputs.
Proof.
  unfold placed_problems. rewrite app_nil.
  rewrite (each_nil _ (fun set => is_set facts set = true)) by (intros; by rewrite note_nil, negb_false_iff).
  rewrite (each_nil _ (fun input => input ∈ tf_inputs facts)) by (intros; by rewrite note_nil, negb_false_iff, bool_decide_eq_true).
  done.
Qed.

Definition hears_all (facts : TopologyFacts) (l : Lineup) (leader : string) : Prop :=
  forall set other m, lineup_set_of l leader = Some set -> is_Some (lu_sets l !! other) -> other <> set ->
    fact_of facts set = Some m -> other ∈ mf_hears m.

(** Each leader's set that the site has hears all the others. *)
Lemma hearing_nil facts line l k leader :
  (forall set, is_Some (lu_sets l !! set) -> is_Some (fact_of facts set)) ->
  hearing_problems facts line l k leader = [] <-> hears_all facts l leader.
Proof.
  intros Hf. unfold hearing_problems, hears_all. destruct (lineup_set_of l leader) as [set|] eqn:Hs; [|split; [intros _ ? ? ? [=]|done]].
  assert (Hin : is_Some (lu_sets l !! set)).
  { unfold lineup_set_of, find in Hs. destruct (list_find _ (entries (lu_sets l))) as [[j [s p]]|] eqn:Hfd; [|done]. cbn in Hs. injection Hs as <-.
    apply list_find_Some in Hfd as (Hl & _ & _). apply list_elem_of_lookup_2, elem_of_entries in Hl. by eexists. }
  destruct (Hf set Hin) as [m Hm]. rewrite Hm.
  rewrite (each_nil _ (fun other => other = set \/ other ∈ mf_hears m)).
  - rewrite Forall_forall. setoid_rewrite elem_of_btree_keys. split.
    + intros Ho set' other m' [= <-] Hother Hne Hm'. rewrite Hm in Hm'. injection Hm' as <-. by destruct (Ho other Hother).
    + intros Ho other Hother. destruct (decide (other = set)) as [->|Hne]; [by left|right; by eapply Ho].
  - intros j other. rewrite note_nil, andb_false_iff, !negb_false_iff, !bool_decide_eq_true. done.
Qed.

Lemma is_set_fact facts set : is_set facts set = true -> is_Some (fact_of facts set).
Proof. unfold is_set. by destruct (fact_of facts set); [eexists|]. Qed.

Lemma lineup_against_nil facts i l :
  lineup_against facts i l = [] <->
  (forall set, is_Some (lu_sets l !! set) -> is_set facts set = true)
  /\ (forall input, is_Some (lu_inputs l !! input) -> input ∈ tf_inputs facts)
  /\ (forall leader, leader ∈ lu_leaders l -> hears_all facts l leader).
Proof.
  unfold lineup_against. cbn zeta. rewrite app_nil, placed_nil, !Forall_forall.
  setoid_rewrite (elem_of_btree_keys (lu_sets l)). setoid_rewrite (elem_of_btree_keys (lu_inputs l)).
  split.
  - intros [[H1 H2] H3]. split_and!; [done|done|].
    rewrite (each_nil _ (hears_all facts l)) in H3; [by apply Forall_forall|]. intros k leader. apply hearing_nil.
    intros set Hs. by apply is_set_fact, H1.
  - intros (H1 & H2 & H3). split; [done|]. rewrite (each_nil _ (hears_all facts l)); [by apply Forall_forall|].
    intros k leader. apply hearing_nil. intros set Hs. by apply is_set_fact, H1.
Qed.

Lemma problems_against_nil r facts : problems_against r facts = [] <-> fits_site facts r.
Proof.
  unfold problems_against. rewrite app_nil, (each_nil _ (fun l => lineup_against facts 0 l = [])) by
    (intros i l; by rewrite !lineup_against_nil).
  rewrite Forall_forall. setoid_rewrite lineup_against_nil.
  assert (He : match ro_equipment r with Some e => placed_problems facts "[equipment]" (eq_sets e) (eq_inputs e) | None => [] end = [] <->
    forall e, ro_equipment r = Some e -> Forall (fun set => is_set facts set = true) (eq_sets e)
      /\ Forall (fun input => input ∈ tf_inputs facts) (eq_inputs e)).
  { destruct (ro_equipment r) as [e|]; [|split; [by intros _ e|done]]. rewrite placed_nil. split; [by intros Hp e' [= <-]|]. intros Hp. by apply Hp. }
  rewrite He. split.
  - intros [Hl Hq]. split; [| | |done].
    + intros l set Hin. by apply (Hl l Hin).
    + intros l input Hin. by apply (Hl l Hin).
    + intros l leader set other m Hin Hle. destruct (Hl l Hin) as (_ & _ & Hh). by apply (Hh leader Hle).
  - intros [H1 H2 H3 H4]. split; [|done]. intros l Hin. split_and!; [intros set; by apply (H1 l)|intros input; by apply (H2 l)|].
    intros leader Hle set other m. by apply (H3 l leader).
Qed.

(** C39: a roster is accepted exactly when it is well-formed: people with ids of
    their own, line-ups that place each person on one set, one of them main,
    leaders and owners who play, every set and owned input listed, and, when the
    engine is known, every set and input one of the site's and every leader's
    set hearing the others; whatever else it holds is refused with a reason. *)
Theorem validate_iff read text facts r :
  validate read text facts = Ok r <->
  read text = Ok r /\ roster_wf r /\ (forall f, facts = Some f -> fits_site f r).
Proof.
  unfold validate, roster_parse. destruct (read text) as [r'|e]; [|split; [done|by intros [? _]]]. cbn zeta.
  set (found := problems r' ++ _). assert (Hf : found = [] <-> roster_wf r' /\ forall f, facts = Some f -> fits_site f r').
  { subst found. rewrite app_nil, problems_nil. destruct facts as [f|]; [|naive_solver].
    rewrite problems_against_nil. split; [intros [? ?]; split; [done|by intros f' [= <-]]|]. intros [? Hp]. split; [done|by apply Hp]. }
  destruct found as [|x l].
  - destruct (proj1 Hf eq_refl) as [Hw Hs]. split; [intros [= <-]; done|]. by intros ([= ->] & _).
  - split; [done|]. intros ([= ->] & Hw & Hs). by assert (x :: l = []) by (by apply Hf).
Qed.

(** ** Nothing private in a problem *)

Lemma each_rename {A B : Type} (g : A -> B) f f' l : (forall i x, f' i (g x) = f i x) -> each f' (g <$> l) = each f l.
Proof. intros Hf. unfold each. rewrite imap_fmap. f_equal. apply imap_ext. intros i x _. apply Hf. Qed.

Lemma each_seen_rename {A B : Type} (h : string -> string) `{!Inj eq eq h} (g : A -> B) key key' f f' i seen seen' l :
  (forall i b x, f' i b (g x) = f i b x) -> (forall x, key' (g x) = h (key x)) -> (forall k, h k ∈ seen' <-> k ∈ seen) ->
  each_seen key' f' i seen' (g <$> l) = each_seen key f i seen l.
Proof.
  intros Hf Hk. revert i seen seen'. induction l as [|x l IH]; intros i seen seen' Hs; [done|]. cbn [fmap list_fmap each_seen].
  rewrite Hf, Hk. f_equal; [f_equal; by apply bool_decide_ext|]. apply IH. intros k. set_unfold. rewrite Hs.
  split; [intros [He|?]; [left; by apply (inj h)|by right]|intros [->|?]; [by left|by right]].
Qed.

Lemma btree_keys_fmap {V W : Type} (g : V -> W) (m : gmap string V) : btree_keys (g <$> m) = btree_keys m.
Proof. unfold btree_keys. by rewrite map_to_list_fmap, <-list_fmap_compose. Qed.

Lemma entries_fmap {V W : Type} (g : V -> W) (m : gmap string V) : entries (g <$> m) = prod_map id g <$> entries m.
Proof.
  unfold entries. rewrite btree_keys_fmap. induction (btree_keys m) as [|k l IH]; [done|]. cbn. rewrite lookup_fmap, IH.
  by destruct (m !! k).
Qed.

(** Other names and other invalid ids in the same places. *)
Section renamed.
Context (rho lam nu : string -> string).
Context `{!Inj eq eq rho, !Inj eq eq lam}.
Hypothesis rho_valid : forall id, valid_person_id id = true -> rho id = id.
Hypothesis lam_valid : forall id, valid_lineup_id id = true -> lam id = id.
Hypothesis nu_blank : forall name, blank (nu name) = blank name.

Definition rename_person (p : Person) : Person := mkPerson (rho (pe_id p)) (nu (pe_name p)) (rho <$> pe_takes_over p).
Definition rename_input (i : LineupInput) : LineupInput := mkLineupInput (nu (li_name i)) (rho <$> li_owner i).
Definition rename_lineup (l : Lineup) : Lineup :=
  mkLineup (lam (lu_id l)) (nu (lu_name l)) (lu_main l) (rho <$> lu_leaders l) (rho <$> lu_sets l) (rename_input <$> lu_inputs l).
Definition rename_roster (r : Roster) : Roster :=
  mkRoster (rename_person <$> ro_people r) (rename_lineup <$> ro_lineups r) (ro_equipment r).

Lemma rho_person id : valid_person_id (rho id) = valid_person_id id.
Proof using All.
  destruct (valid_person_id id) eqn:Hv; [by rewrite rho_valid|]. destruct (valid_person_id (rho id)) eqn:Hr; [|done].
  pose proof Hr as Hr'. apply rho_valid, (inj rho) in Hr'. congruence.
Qed.

Lemma lam_lineup id : valid_lineup_id (lam id) = valid_lineup_id id.
Proof using All.
  destruct (valid_lineup_id id) eqn:Hv; [by rewrite lam_valid|]. destruct (valid_lineup_id (lam id)) eqn:Hr; [|done].
  pose proof Hr as Hr'. apply lam_valid, (inj lam) in Hr'. congruence.
Qed.

Lemma rho_quoted id n : quoted (rho id) (valid_person_id (rho id)) n = quoted id (valid_person_id id) n.
Proof using All. rewrite rho_person. unfold quoted. destruct (valid_person_id id) eqn:Hv; [by rewrite rho_valid|done]. Qed.
Lemma rho_unquoted id n : unquoted (rho id) (valid_person_id (rho id)) n = unquoted id (valid_person_id id) n.
Proof using All. rewrite rho_person. unfold unquoted. destruct (valid_person_id id) eqn:Hv; [by rewrite rho_valid|done]. Qed.
Lemma rho_someone id fallback : someone (rho id) fallback = someone id fallback.
Proof using All. unfold someone. rewrite rho_person. destruct (valid_person_id id) eqn:Hv; [by rewrite rho_valid|done]. Qed.
Lemma lam_quoted id n : quoted (lam id) (valid_lineup_id (lam id)) n = quoted id (valid_lineup_id id) n.
Proof using All. rewrite lam_lineup. unfold quoted. destruct (valid_lineup_id id) eqn:Hv; [by rewrite lam_valid|done]. Qed.

Lemma rho_engineer id : bool_decide (rho id = ENGINEER) = bool_decide (id = ENGINEER).
Proof using All.
  apply bool_decide_ext. rewrite <-(rho_valid ENGINEER) at 1 by (by vm_compute). split; [apply (inj rho)|by intros ->].
Qed.

Lemma rename_who i p : who i (rename_person p) = who i p.
Proof using All. unfold who. cbn. by rewrite rho_quoted. Qed.

Lemma rename_wearers l p : rho p ∈ wearers (rename_lineup l) <-> p ∈ wearers l.
Proof using All.
  rewrite !elem_of_wearers. unfold wears. cbn. setoid_rewrite lookup_fmap_Some. split.
  - intros (set & p' & Hp & Hs). apply (inj rho) in Hp as <-. by exists set.
  - intros (set & Hs). by exists set, p.
Qed.

Lemma rename_set_problems ids ids' lineup j placed x :
  (forall p, rho p ∈ ids' <-> p ∈ ids) -> set_problems ids' lineup j placed (prod_map id rho x) = set_problems ids lineup j placed x.
Proof using All.
  intros Hi. destruct x as [set p]. unfold set_problems. cbn. rewrite rho_someone. do 2 f_equal. f_equal. by apply bool_decide_ext.
Qed.

Lemma rename_leader_problems l lineup k leader :
  leader_problems (wearers (rename_lineup l)) lineup k (rho leader) = leader_problems (wearers l) lineup k leader.
Proof using All.
  unfold leader_problems. rewrite rho_quoted. do 2 f_equal. apply bool_decide_ext, rename_wearers.
Qed.

Lemma rename_input_problems l lineup k x :
  input_problems (wearers (rename_lineup l)) lineup k (prod_map id rename_input x) = input_problems (wearers l) lineup k x.
Proof using All.
  destruct x as [input i]. unfold input_problems. cbn. rewrite nu_blank. f_equal. destruct (li_owner i) as [o|]; [|done].
  cbn. rewrite rho_someone. do 2 f_equal. apply bool_decide_ext, rename_wearers.
Qed.

Lemma rename_equipment_problems e lineup l : equipment_lineup_problems e lineup (rename_lineup l) = equipment_lineup_problems e lineup l.
Proof using All.
  unfold equipment_lineup_problems. cbn. rewrite btree_keys_fmap, entries_fmap. f_equal. apply each_rename.
  intros k [input i]. cbn. do 2 f_equal. apply bool_decide_ext. by rewrite fmap_is_Some.
Qed.

Lemma rename_lineup_problems ids ids' e i seen l :
  (forall p, rho p ∈ ids' <-> p ∈ ids) -> lineup_problems ids' e i seen (rename_lineup l) = lineup_problems ids e i seen l.
Proof using All.
  intros Hi. unfold lineup_problems. assert (Hn : lineup_named i (rename_lineup l) = lineup_named i l) by (unfold lineup_named; cbn; by rewrite lam_quoted).
  rewrite Hn. cbn [rename_lineup lu_id lu_name lu_main lu_leaders lu_sets lu_inputs]. rewrite lam_lineup, nu_blank, !entries_fmap.
  rewrite (each_seen_rename rho (prod_map id rho) snd snd (set_problems ids (lineup_named i l)) _ 0 ∅ ∅);
    [|intros; by apply rename_set_problems|by intros []|intros k; set_solver].
  fold (rename_lineup l). rewrite (each_rename rho (leader_problems (wearers l) (lineup_named i l))) by (intros; apply rename_leader_problems).
  rewrite (each_rename (prod_map id rename_input) (input_problems (wearers l) (lineup_named i l))) by (intros; apply rename_input_problems).
  assert (Hm : bool_decide (rho <$> lu_sets l = ∅) = bool_decide (lu_sets l = ∅)) by (apply bool_decide_ext; apply fmap_empty_iff).
  rewrite Hm. destruct e; [|done]. by rewrite rename_equipment_problems.
Qed.

Lemma rename_takes_over i taken people :
  takes_over_problems i taken (rename_person <$> people) = takes_over_problems i taken people.
Proof using All.
  revert i taken. induction people as [|p people IH]; intros i taken; [done|]. cbn [fmap list_fmap takes_over_problems].
  cbn [rename_person pe_takes_over pe_id]. destruct (pe_takes_over p) as [t|]; cbn [fmap option_fmap option_map]; [|apply IH].
  rewrite rho_person, rho_engineer, rename_who.
  assert (He : bool_decide (rho t = rho (pe_id p)) = bool_decide (t = pe_id p)).
  { apply bool_decide_ext. split; [apply (inj rho)|by intros ->]. }
  rewrite He. destruct (valid_person_id t) eqn:Hv; cbn [negb orb]; [|f_equal; apply IH].
  destruct (_ || _); [f_equal; apply IH|]. rewrite rho_valid by done. f_equal. apply IH.
Qed.

Lemma rename_person_problems i seen p : person_problems i seen (rename_person p) = person_problems i seen p.
Proof using All. unfold person_problems. rewrite rename_who. cbn. by rewrite rho_person, rho_engineer, nu_blank. Qed.

Lemma rename_mains r : mains (rename_roster r) = mains r.
Proof using Type.
  unfold mains. cbn. induction (ro_lineups r) as [|l ls IH]; [done|]. cbn [fmap list_fmap]. rewrite !filter_cons. cbn.
  case_decide; cbn; by rewrite IH.
Qed.

Lemma rename_problems r : problems (rename_roster r) = problems r.
Proof using All.
  unfold problems. rewrite rename_mains. cbn [rename_roster ro_people ro_lineups ro_equipment].
  assert (Hids : forall p, rho p ∈ (list_to_set (pe_id <$> (rename_person <$> ro_people r)) : gset string)
                           <-> p ∈ (list_to_set (pe_id <$> ro_people r) : gset string)).
  { intros p. rewrite !elem_of_list_to_set, <-list_fmap_compose, !list_elem_of_fmap. unfold compose. cbn. split.
    - intros (q & Hq & Hin). apply (inj rho) in Hq. by exists q.
    - intros (q & -> & Hin). by exists q. }
  rewrite (each_seen_rename rho rename_person pe_id pe_id person_problems _ 0 ∅ ∅);
    [|intros; apply rename_person_problems|done|intros k; set_solver].
  rewrite rename_takes_over.
  rewrite (each_seen_rename lam rename_lineup lu_id lu_id (lineup_problems (list_to_set (pe_id <$> ro_people r)) (ro_equipment r)) _ 0 ∅ ∅);
    [|intros; by apply rename_lineup_problems|done|intros k; set_solver].
  f_equal. f_equal. apply bool_decide_ext. by destruct (ro_people r).
Qed.

Lemma rename_set_of l leader : lineup_set_of (rename_lineup l) (rho leader) = lineup_set_of l leader.
Proof using All.
  unfold lineup_set_of, find. cbn. rewrite entries_fmap, list_find_fmap. unfold compose.
  rewrite (list_find_ext _ (fun x => Is_true (let '(_, p) := x in bool_decide (p = leader)))).
  - by destruct (list_find _ (entries (lu_sets l))) as [[j [s p]]|].
  - intros [s p]. cbn. rewrite !bool_decide_spec. split; [apply (inj rho)|by intros ->].
Qed.

Lemma rename_hearing facts line l k leader :
  hearing_problems facts line (rename_lineup l) k (rho leader) = hearing_problems facts line l k leader.
Proof using All.
  unfold hearing_problems. rewrite rename_set_of, rho_unquoted. cbn. by rewrite btree_keys_fmap.
Qed.

Lemma rename_against r facts : problems_against (rename_roster r) facts = problems_against r facts.
Proof using All.
  unfold problems_against. cbn [rename_roster ro_lineups ro_equipment]. f_equal. apply each_rename. intros i l.
  unfold lineup_against, lineup_named. cbn [rename_lineup lu_id lu_sets lu_inputs lu_leaders].
  rewrite !btree_keys_fmap, lam_quoted. f_equal. rewrite lam_lineup.
  assert (Hl : (if valid_lineup_id (lu_id l) then lam (lu_id l) else "lineup #" +:+ dec (Z.of_nat i + 1))
               = (if valid_lineup_id (lu_id l) then lu_id l else "lineup #" +:+ dec (Z.of_nat i + 1))).
  { destruct (valid_lineup_id (lu_id l)) eqn:Hv; [by rewrite lam_valid|done]. }
  rewrite Hl. fold (rename_lineup l). apply each_rename. intros k leader. apply rename_hearing.
Qed.
End renamed.

(** No name reaches a log: what a roster's checks report does not change
    when every name in it becomes another (a missing one staying missing), and
    with it every value of an id field that is no valid id, in the same places
    and as different from each other as before. *)
Theorem problems_keep_names_secret rho lam nu r facts :
  Inj eq eq rho -> Inj eq eq lam ->
  (forall id, valid_person_id id = true -> rho id = id) -> (forall id, valid_lineup_id id = true -> lam id = id) ->
  (forall name, blank (nu name) = blank name) ->
  problems (rename_roster rho lam nu r) = problems r
  /\ problems_against (rename_roster rho lam nu r) facts = problems_against r facts.
Proof. intros. split; [by apply rename_problems|by apply rename_against]. Qed.

Definition demo_roster : Roster :=
  mkRoster [mkPerson "ann" "Ann" None; mkPerson "Bob B." "Bob" (Some "carl")]
    [mkLineup "sunday" "Sunday" true ["Bob B."] (<["m1" := "ann"]> (<["m2" := "Bob B."]> ∅)) (<["mic1" := mkLineupInput "Ann's" (Some "Dave")]> ∅)]
    None.

(** Names that are no ids are doubled. *)
Definition demo_rho (id : string) : string := if valid_person_id id then id else "X" +:+ id.

Lemma problems_keep_names_secret_witness :
  let r := rename_roster demo_rho (fun x => x) (fun n => "  " +:+ n) demo_roster in
  problems r = problems demo_roster /\ length (problems demo_roster) = 2%nat /\ ro_people r <> ro_people demo_roster.
Proof.
  cbn zeta. split; [|split; [by vm_compute|done]].
  apply (problems_keep_names_secret demo_rho (fun x => x) (fun n => "  " +:+ n) demo_roster (mkTopologyFacts [] [] "")).
  - intros x y. unfold demo_rho. destruct (valid_person_id x) eqn:Hx, (valid_person_id y) eqn:Hy; intros He; try congruence.
    + subst x. apply andb_true_iff in Hx as [_ Hx]. done.
    + subst y. apply andb_true_iff in Hy as [_ Hy]. done.
    + by injection He.
  - by intros x y.
  - intros id Hv. unfold demo_rho. by rewrite Hv.
  - done.
  - done.
Defined.

(** * The roster's facts, offline and running

    The offline check reads the site file's [engine] table ([site_facts]), a
    reload checks against what the running engine announces ([facts_from]); of a
    site the engine compiles, both are the same facts. *)

From S2P Require Import Prelude Text MixState Msg Shape Topology TopologyWf Roster.
From stdpp Require Import options.
#[local] Unset Default Proof Using.

(** The [engine] table as the roster's reader sees it. *)
Definition table_of (site : Site) : EngineTable :=
  mkEngineTable (site_engineer site) (si_id <$> site_inputs site)
    ((fun m => mkEngineMix (sm_id m) (sm_tx m) (sm_mixes m) (sm_peers m)) <$> site_mixes site).

(** Index [s] is the mix called [name]. *)
Definition named (ids : list string) (s : nat) (name : string) : Prop := ids !! s = Some name.

Lemma named_omap ids ss names : Forall2 (named ids) ss names -> omap (fun s => ids !! s) ss = names.
Proof. induction 1 as [|s name ss names Hn _ IH]; [done|]. cbn. unfold named in Hn. rewrite Hn. cbn. by rewrite IH. Qed.

Lemma named_app ids more ss names : Forall2 (named ids) ss names -> Forall2 (named (ids ++ more)) ss names.
Proof. intros Hn. eapply Forall2_impl; [exact Hn|]. intros s name Hs. by apply lookup_app_l_Some. Qed.

Lemma declared_named pre name s :
  NoDup (sm_id <$> pre) -> index_of sm_id pre !! name = Some s -> named (sm_id <$> pre) s name.
Proof. intros Hnd Hs. apply index_of_Some in Hs; [|done]. unfold named. by rewrite list_lookup_fmap. Qed.

Lemma compile_heard_named pre mix heard0 names0 names heard :
  NoDup (sm_id <$> pre) -> Forall2 (named (sm_id <$> pre)) heard0 names0 ->
  foldM (compile_heard (index_of sm_id pre) mix) heard0 names = Ok heard ->
  Forall2 (named (sm_id <$> pre)) heard (names0 ++ names).
Proof.
  intros Hnd. revert heard0 names0. induction names as [|name names IH]; intros heard0 names0 Hn; cbn.
  - intros [= <-]. by rewrite app_nil_r.
  - unfold compile_heard at 1. destruct (index_of sm_id pre !! name) as [s|] eqn:Hs; [|done].
    case_decide; [done|]. intros Hf. rewrite cons_middle, app_assoc. eapply IH; [|exact Hf].
    apply Forall2_app; [done|]. repeat constructor. by apply declared_named.
Qed.

(** A compiled mix against its table. *)
Record mix_named (ids : list string) (x : SiteMix) (n : MixNode) : Prop := {
  mn_named_id : mn_id n = sm_id x;
  mn_named_tx : (if mn_mono n then 1 else 2) = length (sm_tx x);
  mn_named_mixes : Forall2 (named ids) (mn_mixes n) (sm_mixes x);
}.

Lemma compile_mixes_named site acc :
  NoDup (sm_id <$> site_mixes site) -> compile_mixes site = Ok acc ->
  Forall2 (mix_named (sm_id <$> site_mixes site)) (site_mixes site) (xa_mixes acc)
  /\ xa_declared acc = index_of sm_id (site_mixes site).
Proof.
  intros Hnd. unfold compile_mixes.
  apply (foldM_ind _ (fun pre acc => Forall2 (mix_named (sm_id <$> site_mixes site)) pre (xa_mixes acc)
                                     /\ xa_declared acc = index_of sm_id pre)).
  { split; [constructor|done]. }
  intros pre x post s s' Hl [Hm Hd] Hf. unfold compile_mix in Hf.
  destruct (_ && _) eqn:Hn; cbn in Hf; [|done]. apply andb_true_iff in Hn as [Hn1 Hn2].
  destruct (check_channels _ _ _ _) as [used|]; cbn in Hf; [|done].
  destruct (foldM _ _ _) as [heard|] eqn:Hh; cbn in Hf; [|done]. simplify_eq. cbn.
  assert (Hlen : length (xa_mixes s) = length pre) by (symmetry; by eapply Forall2_length).
  split; [|by rewrite index_of_snoc, Hd, Hlen]. apply Forall2_app; [done|]. repeat constructor; cbn.
  - apply Nat.leb_le in Hn1, Hn2. destruct (Nat.eqb_spec (length (sm_tx x)) 1); lia.
  - assert (Hnp : NoDup (sm_id <$> pre)) by (rewrite Hl, fmap_app in Hnd; by apply NoDup_app in Hnd as [Hnd _]).
    rewrite Hd in Hh. pose proof (compile_heard_named pre (sm_id x) [] [] _ _ Hnp ltac:(constructor) Hh) as Hhn.
    rewrite Hl, fmap_app. by apply named_app.
Qed.

Lemma compile_peer_named ids declared mixes engineer m mix peers0 names0 names peers :
  (forall name s, declared !! name = Some s -> named ids s name) -> Forall2 (named ids) peers0 names0 ->
  foldM (compile_peer declared mixes engineer m mix) peers0 names = Ok peers -> Forall2 (named ids) peers (names0 ++ names).
Proof.
  intros Hd. revert peers0 names0. induction names as [|name names IH]; intros peers0 names0 Hn; cbn.
  - intros [= <-]. by rewrite app_nil_r.
  - unfold compile_peer at 1. destruct (declared !! name) as [s|] eqn:Hs; [|done].
    destruct (peer_allowed _ _ _ _ _); [|done]. intros Hf. rewrite cons_middle, app_assoc. eapply IH; [|exact Hf].
    apply Forall2_app; [done|]. repeat constructor. by apply Hd.
Qed.

(** The peers of the mixes compiled so far, in the table's order. *)
Lemma compile_peers_named ids site declared engineer mixes0 mixes :
  (forall name s, declared !! name = Some s -> named ids s name) -> length mixes0 = length (site_mixes site) ->
  compile_peers site declared engineer mixes0 = Ok mixes ->
  forall m x n, site_mixes site !! m = Some x -> mixes !! m = Some n -> Forall2 (named ids) (mn_peers n) (sm_peers x).
Proof.
  intros Hd Hlen Hf.
  enough (length mixes = length mixes0 /\ forall m x n, (m < length (zip (seq 0 (length (site_mixes site))) (site_mixes site)))%nat ->
    site_mixes site !! m = Some x -> mixes !! m = Some n -> Forall2 (named ids) (mn_peers n) (sm_peers x)) as [_ Hp].
  { intros m x n Hx Hm. apply (Hp m); [|done..]. rewrite length_zip_with, length_seq, Nat.min_id. by eapply lookup_lt_Some. }
  revert Hf. unfold compile_peers. apply (foldM_ind _ (fun pre mixes => length mixes = length mixes0 /\ forall m x n, (m < length pre)%nat ->
    site_mixes site !! m = Some x -> mixes !! m = Some n -> Forall2 (named ids) (mn_peers n) (sm_peers x))).
  { split; [done|]. intros m x n Hm. cbn in Hm. lia. }
  intros pre [m x] post s s' Hl [Hls Hp] Hf. pose proof (zip_seq_prefix _ _ _ _ _ Hl) as Hm. cbn in Hm. subst m.
  assert (Hx : site_mixes site !! length pre = Some x).
  { assert (Hz : zip (seq 0 (length (site_mixes site))) (site_mixes site) !! length pre = Some (length pre, x)) by (by rewrite Hl, list_lookup_middle).
    apply lookup_zip_Some in Hz as [_ Hz]. done. }
  unfold compile_mix_peers in Hf. destruct (_ && _); [done|]. destruct (foldM _ _ _) as [peers|] eqn:Hpe; cbn in Hf; [|done].
  simplify_eq. split; [by rewrite length_alter|]. intros m y n Hmlt Hy Hn. rewrite length_app in Hmlt. cbn in Hmlt.
  destruct (decide (m = length pre)) as [->|Hne].
  - rewrite list_lookup_alter_eq in Hn. apply fmap_Some in Hn as (n0 & _ & ->). rewrite Hx in Hy. injection Hy as <-. cbn.
    exact (compile_peer_named ids declared s engineer (length pre) (sm_id x) [] [] _ _ Hd ltac:(constructor) Hpe).
  - rewrite list_lookup_alter_ne in Hn by done. apply (Hp m); [lia|done..].
Qed.

(** A roster is checked against the same site offline and running: of every
    site the engine compiles, the facts of the site file's table are the facts
    of the topology the engine announces. *)
Theorem facts_agree `{TopoHash} site t : compile site = Ok t -> facts_from (info t) = facts_of (table_of site).
Proof.
  intros Hc. pose proof (compile_topo_wf site t Hc) as [_ Hids].
  apply compile_inv in Hc as (seen & ins & inputs & groups & acc & engineer & mixes & carries & Hck & Hin & Hgr & Hmx
          & Hen & Hpe & _ & Hti & _ & Htm & _ & _ & _ & _ & Hte & _).
  apply check_ids_ok in Hck as (Hnd & _ & _).
  apply compile_inputs_inv in Hin as [_ _ _ Iids Iun _ _]. apply compile_groups_inv in Hgr as [Gsame _ _ _]; [|done]. cbn in Gsame.
  destruct (ungroup_same _ _ Gsame) as (Uids & _ & _).
  assert (Hndm : NoDup (sm_id <$> site_mixes site)).
  { unfold site_ids in Hnd. rewrite !NoDup_app in Hnd. by destruct Hnd as (_ & _ & _ & _ & ?). }
  pose proof (compile_mixes_inv site acc Hndm Hmx) as [_ _ _ _ _ _ Xheard Xpeers].
  destruct (compile_mixes_named site acc Hndm Hmx) as [Hmn Hdec].
  pose proof (compile_peers_inv _ _ _ _ _ Xheard Xpeers Hpe) as [Psame _].
  assert (Hd : forall name s, xa_declared acc !! name = Some s -> named (sm_id <$> site_mixes site) s name).
  { intros name s Hs. rewrite Hdec in Hs. by apply declared_named. }
  assert (Hlen : length (xa_mixes acc) = length (site_mixes site)) by (symmetry; by eapply Forall2_length).
  pose proof (compile_peers_named _ _ _ _ _ _ Hd Hlen Hpe) as Hpn.
  assert (Hmid : forall s, mn_id <$> t_mixes t !! s = (sm_id <$> site_mixes site) !! s).
  { intros s. rewrite Htm, <-list_lookup_fmap, ids_of_shadows, <-(unpeer_ids mixes), Psame, unpeer_ids, !list_lookup_fmap.
    destruct (xa_mixes acc !! s) as [n|] eqn:Hs.
    - destruct (Forall2_lookup_r _ _ _ _ _ Hmn Hs) as (x & Hx & [Hid _ _]). rewrite Hx. cbn. by rewrite Hid.
    - destruct (site_mixes site !! s) as [x|] eqn:Hx; [|done].
      destruct (Forall2_lookup_l _ _ _ _ _ Hmn Hx) as (n & Hn & _). congruence. }
  unfold facts_from, facts_of, info, table_of. cbn. f_equal.
  - apply list_eq. intros i. rewrite !list_lookup_fmap.
    destruct (t_mixes t !! i) as [n|] eqn:Hn; cycle 1.
    { specialize (Hmid i). rewrite Hn, list_lookup_fmap in Hmid. by destruct (site_mixes site !! i). }
    rewrite Htm, set_shadows_lookup in Hn. apply fmap_Some in Hn as (n1 & Hn1 & ->). cbn.
    destruct (unpeer_lookup _ _ _ _ Psame Hn1) as (n0 & Hn0 & Eid & _ & Emono & Emix & _).
    destruct (Forall2_lookup_r _ _ _ _ _ Hmn Hn0) as (x & Hx & [Hid Htx Hmix]). rewrite Hx. cbn.
    do 2 f_equal; [congruence| |].
    + rewrite <-Htx, Emono. by destruct (mn_mono n1).
    + assert (Ho : forall l : list nat,
        omap (fun m => mn_id <$> t_mixes t !! m) l = omap (fun s => (sm_id <$> site_mixes site) !! s) l).
      { intros l. induction l as [|s l IH]; [done|]. cbn. by rewrite Hmid, IH. }
      rewrite !Ho. f_equal; [|by apply named_omap, (Hpn i)]. rewrite <-Emix. by apply named_omap.
  - rewrite Hti, <-list_fmap_compose. change (in_id <$> inputs = si_id <$> site_inputs site). by rewrite Uids.
  - rewrite Hmid, Hte. unfold compile_engineer in Hen. destruct (xa_declared acc !! site_engineer site) as [m|] eqn:Hm; [|done].
    destruct (is_stereo _ _); [|done]. injection Hen as <-. apply Hd in Hm. unfold named in Hm. by rewrite Hm.
Qed.

Lemma facts_agree_witness : facts_from (info demo_topo) = facts_of (table_of demo_site) /\ length (tf_mixes (facts_of (table_of demo_site))) = 4.
Proof. split; [exact (facts_agree demo_site demo_topo demo_compiles)|by vm_compute]. Defined.
