(* ===== verification/Config.v ===== *)
(** * The site's configuration ([iem-core/src/config.rs])

    The settings with their defaults, every check, the text of a parse error,
    the header value made of the allowed origins and the links for the UI.  The
    tables the engine reads ([engine] and [guard]) are left out.

    Then what the checks promise. *)

From S2P Require Import Prelude Text MixState LoginGuard Roster.
From Stdlib Require Import Ascii.
From stdpp Require Import options.
Local Open Scope Z_scope.
#[local] Unset Default Proof Using.

Definition CATEGORIES : list string := ["mics"; "stems"; "tech"].
Definition LETS_ENCRYPT : string := "https://acme-v02.api.letsencrypt.org/directory".
Definition DEFAULT_PROPAGATION_S : Z := 20.
Definition MAX_PROPAGATION_S : Z := 600.

(** ** Text *)

(** [split_once] and [rsplit_once] at a character. *)
Fixpoint rsplit_char (c : ascii) (s : string) : option (string * string) :=
  match s with
  | EmptyString => None
  | String a s =>
      match rsplit_char c s with
      | Some (x, y) => Some (String a x, y)
      | None => if bool_decide (a = c) then Some ("", s) else None
      end
  end.

Definition is_ascii_alphanumeric (c : ascii) : bool := is_ascii_lowercase c || is_ascii_uppercase c || is_ascii_digit c.
Definition is_ascii_graphic (c : ascii) : bool := (33 <=? nat_of_ascii c)%nat && (nat_of_ascii c <=? 126)%nat.

Definition to_ascii_lowercase (c : ascii) : ascii := if is_ascii_uppercase c then ascii_of_nat (nat_of_ascii c + 32) else c.
Fixpoint ascii_lower (s : string) : string :=
  match s with EmptyString => "" | String c s => String (to_ascii_lowercase c) (ascii_lower s) end.
Definition eq_ignore_ascii_case (a b : string) : bool := bool_decide (ascii_lower a = ascii_lower b).

Definition host_char (c : ascii) : bool := is_ascii_alphanumeric c || bool_decide (c = "."%char) || bool_decide (c = "-"%char).
Definition starts_with (p s : string) : bool := bool_decide (is_Some (strip_prefix p s)).
Definition ends_with (p s : string) : bool := bool_decide (is_Some (strip_suffix p s)).

Definition valid_frame_origin (origin : string) : bool :=
  match strip_prefix "https://" origin with
  | None => false
  | Some rest =>
      let '(host, port) := match rsplit_char ":" rest with Some (h, p) => (h, Some p) | None => (rest, None) end in
      let host_ok := negb (bool_decide (host = "")) && negb (starts_with "." host) && negb (ends_with "." host)
                     && str_forallb host_char host in
      let port_ok := match port with
                     | Some p => str_forallb is_ascii_digit p && bool_decide (is_Some (parse_uint u16_max p))
                     | None => true
                     end in
      host_ok && port_ok
  end.

Definition str_contains (p s : string) : bool := bool_decide (is_Some (split_once p s)).
Definition first_piece (sep s : string) : string := match split sep s with x :: _ => x | [] => "" end.

Definition acme_url_allowed (url : string) : bool :=
  match strip_prefix "https://" url with
  | Some rest => negb (bool_decide (rest = "")) && negb (starts_with "/" rest)
  | None =>
      match strip_prefix "http://" url with
      | None => false
      | Some rest =>
          let authority := first_piece "/" rest in
          if str_contains "@" authority then false
          else
            let host :=
              match strip_prefix "[" authority with
              | Some v6 => match split_once "]" v6 with Some (host, _) => Some host | None => None end
              | None => Some (first_piece ":" authority)
              end in
            match host with
            | None => false
            | Some host =>
                eq_ignore_ascii_case host "localhost"
                || match parse_ip host with Some ip => is_loopback ip | None => false end
            end
      end
  end.

Definition dns_label (label : string) : bool :=
  (1 <=? slen label)%nat && (slen label <=? 63)%nat
  && str_forallb (fun c => is_ascii_alphanumeric c || bool_decide (c = "-"%char)) label
  && negb (starts_with "-" label) && negb (ends_with "-" label).

Definition is_dns_name (name : string) : bool :=
  let labels := split "." name in
  (slen name <=? 253)%nat && (2 <=? length labels)%nat && forallb dns_label labels.

Definition local_char (c : ascii) : bool :=
  is_ascii_graphic c && negb (bool_decide (c ∈ ["@"; "<"; ">"; ","; ":"]%char)).

Definition is_email (address : string) : bool :=
  match split_once "@" address with
  | Some (local, domain) => negb (bool_decide (local = "")) && str_forallb local_char local && is_dns_name domain
  | None => false
  end.

(** Every second piece between quotes is replaced. *)
Fixpoint redact_parts (i : nat) (parts : list string) : string :=
  match parts with
  | [] => ""
  | part :: parts =>
      (if Nat.even i then String quote (ellipsis +:+ String quote "") else part) +:+ redact_parts (S i) parts
  end.

(** The parse error of the site file. *)
Definition config_parse_error (content : string) (e : TomlError) : string :=
  let text :=
    match split (String quote "") (te_message e) with
    | first :: parts => first +:+ redact_parts 0 parts
    | [] => ""
    end in
  match te_start e with
  | Some start =>
      let at_ := Z.to_nat start in
      let before := if (at_ <=? slen content)%nat && is_char_boundary content at_ then str_take at_ content else "" in
      "line " +:+ dec (count_newlines before + 1) +:+ ": " +:+ text
  | None => text
  end.

(** ** The configuration *)

Record SiteMember := mkSiteMember { me_id : string; me_name : string; me_mix : string }.
Record SiteInputMeta := mkSiteInputMeta { im_id : string; im_name : string; im_category : option string; im_owner : option string }.
Record AcmeConfig := mkAcmeConfig { ac_directory : string; ac_contact : option string; ac_propagation_s : Z }.

Definition AcmeConfig_default : AcmeConfig := mkAcmeConfig LETS_ENCRYPT None DEFAULT_PROPAGATION_S.

Record Config := mkConfig {
  cf_port : Z;
  cf_engine_pipe : string;
  cf_members : list SiteMember;
  cf_inputs : list SiteInputMeta;
  cf_jwt_secret : string;
  cf_vapid_private_key : string;
  cf_tls : bool;
  cf_https_port : Z;
  cf_tls_cert : string;
  cf_tls_key : string;
  cf_https_domain : option string;
  cf_local_public_ip : option string;
  cf_lan_url : option string;
  cf_frame_ancestors : list string;
  cf_acme : option AcmeConfig;
  cf_vapid_subject : string;
  cf_backup_schedule : list string;
  cf_backup_retention_days : Z;
  cf_tunnel_ready_url : string;
}.

(** The default with the settings that are checked. *)
Definition config_of (members : list SiteMember) (inputs : list SiteInputMeta) (tls : bool) (domain : option string) (lan_url : option string)
    (origins : list string) (acme : option AcmeConfig) : Config :=
  mkConfig 80 "iemmixer-engine" members inputs "" "" tls 443 "cert.pem" "key.pem" domain None lan_url origins acme
    "mailto:admin@example.org" ["13:00"; "21:00"] 60 "http://127.0.0.1:20241/ready".

Definition Config_default : Config := config_of [] [] false None None [] None.

Definition cf_member (c : Config) (id : string) : option SiteMember := find (fun m => bool_decide (me_id m = id)) (cf_members c).

(** ** Its checks *)

Definition member_problems (i : nat) (seen : bool) (m : SiteMember) : list string :=
  match validate_member_id (me_id m) with
  | Err e => [e]
  | Ok _ => note (negb (str_forallb (fun c => negb (is_ascii_uppercase c)) (me_id m))) ("member id '" +:+ me_id m +:+ "' must be lower case")
  end
  ++ note seen ("member '" +:+ me_id m +:+ "' is listed twice")
  ++ note (negb (valid_id (me_mix m))) ("member '" +:+ me_id m +:+ "': '" +:+ me_mix m +:+ "' is not a mix id").

Definition site_input_problems (members : gset string) (i : nat) (seen : bool) (m : SiteInputMeta) : list string :=
  note (negb (valid_id (im_id m))) ("input '" +:+ im_id m +:+ "' is not an input id")
  ++ note seen ("input '" +:+ im_id m +:+ "' is listed twice")
  ++ match im_category m with
     | Some c => note (negb (bool_decide (c ∈ CATEGORIES)))
                   ("input '" +:+ im_id m +:+ "': category '" +:+ c +:+ "' is not one of " +:+ join ", " CATEGORIES)
     | None => []
     end
  ++ match im_owner m with
     | Some o => note (negb (bool_decide (o ∈ members))) ("input '" +:+ im_id m +:+ "': owner '" +:+ o +:+ "' is not a member")
     | None => []
     end.

Definition acme_problems (c : Config) (acme : AcmeConfig) : list string :=
  note (negb (cf_tls c)) "[acme] needs tls = true: the certificate is for the HTTPS listener"
  ++ match cf_https_domain c with
     | None => ["[acme] needs https_domain: the certificate is for that name"]
     | Some name => note (negb (is_dns_name name)) ("[acme] https_domain '" +:+ name +:+ "' is not a DNS name like mixer.example.org")
     end
  ++ note (negb (acme_url_allowed (ac_directory acme))) ("[acme] directory '" +:+ ac_directory acme +:+ "' is not an https URL")
  ++ match ac_contact acme with
     | Some contact => note (negb (is_email contact)) ("[acme] contact '" +:+ contact +:+ "' is not an address like owner@example.org")
     | None => []
     end
  ++ note (MAX_PROPAGATION_S <? ac_propagation_s acme)
       ("[acme] propagation_s " +:+ dec (ac_propagation_s acme) +:+ " is above " +:+ dec MAX_PROPAGATION_S).

Definition config_problems (c : Config) : list string :=
  let ids : gset string := list_to_set (me_id <$> cf_members c) in
  each_seen me_id member_problems 0 ∅ (cf_members c)
  ++ each_seen im_id (site_input_problems ids) 0 ∅ (cf_inputs c)
  ++ each (fun _ a => note (negb (valid_frame_origin a))
             ("frame_ancestors: '" +:+ a +:+ "' is not an https origin (https://host or https://host:port)")) (cf_frame_ancestors c)
  ++ match cf_acme c with Some acme => acme_problems c acme | None => [] end.

Inductive ConfigError := CfIo (e : string) | CfParse (e : string) | CfInvalid (e : string).

Definition config_validate (c : Config) : result ConfigError unit :=
  match config_problems c with [] => Ok tt | problems => Err (CfInvalid (join "; " problems)) end.

(** [content]: the file, or the error of reading it. *)
Definition config_load (read : string -> result TomlError Config) (content : result string string) : result ConfigError Config :=
  match content with
  | Err e => Err (CfIo e)
  | Ok content =>
      match read content with
      | Err e => Err (CfParse (config_parse_error content e))
      | Ok config => match config_validate config with Ok _ => Ok config | Err e => Err e end
      end
  end.

Definition frame_ancestors_source (c : Config) : string :=
  match cf_frame_ancestors c with [] => "'none'" | l => join " " l end.

(** The certificate is another module's to fill in. *)
Record SiteLinks := mkSiteLinks { sl_lan_url : option string; sl_public_host : option string }.
Definition site_links (c : Config) : SiteLinks := mkSiteLinks (cf_lan_url c) (cf_https_domain c).

(** * What a configuration's checks promise

    [config_load] accepts exactly the well-formed files; an accepted one has no
    origin that could say more than an origin in the [Content-Security-Policy]
    header; the text of a parse error hides what the parser quotes unless the
    quoted text holds a quote of its own. *)

From S2P Require Import Prelude Text MixState LoginGuard Roster RosterSpec.
From Stdlib Require Import Ascii.
From stdpp Require Import options.
Local Open Scope Z_scope.
#[local] Unset Default Proof Using.

(** ** Well-formed configurations *)

Definition member_wf (m : SiteMember) : Prop :=
  (exists u, validate_member_id (me_id m) = Ok u) /\ str_forallb (fun c => negb (is_ascii_uppercase c)) (me_id m) = true
  /\ valid_id (me_mix m) = true.

Definition input_wf (members : list string) (m : SiteInputMeta) : Prop :=
  valid_id (im_id m) = true
  /\ (forall c, im_category m = Some c -> c ∈ CATEGORIES)
  /\ (forall o, im_owner m = Some o -> o ∈ members).

Definition acme_wf (c : Config) (acme : AcmeConfig) : Prop :=
  cf_tls c = true
  /\ (exists name, cf_https_domain c = Some name /\ is_dns_name name = true)
  /\ acme_url_allowed (ac_directory acme) = true
  /\ (forall contact, ac_contact acme = Some contact -> is_email contact = true)
  /\ ac_propagation_s acme <= MAX_PROPAGATION_S.

Record config_wf (c : Config) : Prop := {
  cw_members : Forall member_wf (cf_members c);
  cw_member_ids : NoDup (me_id <$> cf_members c);
  cw_inputs : Forall (input_wf (me_id <$> cf_members c)) (cf_inputs c);
  cw_input_ids : NoDup (im_id <$> cf_inputs c);
  cw_origins : Forall (fun a => valid_frame_origin a = true) (cf_frame_ancestors c);
  cw_acme : forall acme, cf_acme c = Some acme -> acme_wf c acme;
}.

(** A note of what an optional setting holds. *)
Lemma option_note_nil {A : Type} (o : option A) (p : A -> bool) (s : A -> string) :
  match o with Some x => note (negb (p x)) (s x) | None => [] end = [] <-> (forall x, o = Some x -> p x = true).
Proof.
  destruct o as [x|]; [|split; [done|done]]. rewrite note_nil, negb_false_iff.
  split; [by intros Hp y [= <-]|intros Hp; by apply Hp].
Qed.

Lemma member_problems_nil i seen m : member_problems i seen m = [] <-> member_wf m /\ seen = false.
Proof.
  unfold member_problems, member_wf. rewrite !app_nil, !note_nil, negb_false_iff.
  destruct (validate_member_id (me_id m)) as [u|e].
  - rewrite note_nil, negb_false_iff. split; [intros (? & ? & ?); split; [split; [by exists u|done]|done]|tauto].
  - split; [intros [? _]; done|intros [[[u ?] _] _]; done].
Qed.

Lemma site_input_nil ids i seen m :
  site_input_problems (list_to_set ids) i seen m = [] <-> input_wf ids m /\ seen = false.
Proof.
  unfold site_input_problems, input_wf.
  rewrite !app_nil, !note_nil, negb_false_iff, !option_note_nil.
  setoid_rewrite bool_decide_eq_true. setoid_rewrite elem_of_list_to_set. tauto.
Qed.

Lemma acme_nil c acme : acme_problems c acme = [] <-> acme_wf c acme.
Proof.
  unfold acme_problems, acme_wf. rewrite !app_nil, !note_nil, !negb_false_iff, option_note_nil, Z.ltb_ge.
  assert (Hd : match cf_https_domain c with
               | None => ["[acme] needs https_domain: the certificate is for that name"]
               | Some name => note (negb (is_dns_name name)) ("[acme] https_domain '" +:+ name +:+ "' is not a DNS name like mixer.example.org")
               end = [] <-> exists name, cf_https_domain c = Some name /\ is_dns_name name = true).
  { destruct (cf_https_domain c) as [name|]; [rewrite note_nil, negb_false_iff|];
      (split; [|intros (n & Hn & Hk)]); [by exists name|congruence|done|done]. }
  rewrite Hd. tauto.
Qed.

Lemma config_problems_nil c : config_problems c = [] <-> config_wf c.
Proof.
  unfold config_problems. rewrite !app_nil.
  rewrite (each_seen_nil me_id _ member_wf) by apply member_problems_nil.
  rewrite (each_seen_nil im_id _ (input_wf (me_id <$> cf_members c))) by (intros; apply site_input_nil).
  rewrite (each_nil _ (fun a => valid_frame_origin a = true)) by (intros; rewrite note_nil; apply negb_false_iff).
  assert (Ha : match cf_acme c with Some acme => acme_problems c acme | None => [] end = []
               <-> forall acme, cf_acme c = Some acme -> acme_wf c acme).
  { destruct (cf_acme c) as [acme|]; [rewrite acme_nil|split; done].
    split; [by intros Hw a [= <-]|intros Hw; by apply Hw]. }
  rewrite Ha. split.
  - intros ((Hm & Hn & _) & (Hi & Hj & _) & Ho & Hac). by constructor.
  - intros [Hm Hn Hi Hj Ho Hac].
    split; [split; [done|split; [done|apply Forall_forall; set_solver]]|].
    split; [split; [done|split; [done|apply Forall_forall; set_solver]]|]. done.
Qed.

(** [Config::load] gives the configuration of a file exactly when the file is
    read and parsed and what it holds is well formed: distinct lower-case
    members on valid mixes, distinct inputs of known categories and owners,
    origins, and an ACME table that can work. *)
Lemma config_load_ok read content c :
  config_load read content = Ok c <-> exists text, content = Ok text /\ read text = Ok c /\ config_wf c.
Proof.
  unfold config_load, config_validate. setoid_rewrite <-config_problems_nil. destruct content as [text|e]; [|split; [done|by intros (? & ? & _)]].
  destruct (read text) as [c'|e] eqn:Hr; [|split; [done|intros (t & [= <-] & ? & _); congruence]].
  destruct (config_problems c') as [|p l] eqn:Hp.
  - split; [intros [= <-]; by exists text|intros (t & [= <-] & Ht & _); congruence].
  - split; [done|]. intros (t & [= <-] & Ht & Hn). congruence.
Qed.

(** ** The origins in the header *)

Definition origin_char (c : ascii) : bool := host_char c || bool_decide (c ∈ [":"; "/"]%char).

Lemma str_forallb_impl (p q : ascii -> bool) s :
  (forall c, p c = true -> q c = true) -> str_forallb p s = true -> str_forallb q s = true.
Proof. intros Hpq. induction s as [|c s IH]; cbn; [done|]. rewrite !andb_true_iff. intros [Hc Hs]. auto. Qed.

Lemma rsplit_char_Some c s a b : rsplit_char c s = Some (a, b) -> s = a +:+ String c b.
Proof.
  revert a b. induction s as [|x s IH]; intros a b; cbn; [done|].
  destruct (rsplit_char c s) as [[y z]|].
  - intros [= <- <-]. rewrite str_app_cons. f_equal. by apply IH.
  - case_bool_decide; [|done]. intros [= <- <-]. by subst.
Qed.

Lemma host_is_origin c : host_char c = true -> origin_char c = true.
Proof. unfold origin_char. by intros ->. Qed.

Lemma digit_is_origin c : is_ascii_digit c = true -> origin_char c = true.
Proof. unfold origin_char, host_char, is_ascii_alphanumeric. intros ->. by rewrite !orb_true_r. Qed.

Lemma origin_chars a : valid_frame_origin a = true -> is_Some (strip_prefix "https://" a) /\ str_forallb origin_char a = true.
Proof.
  unfold valid_frame_origin. destruct (strip_prefix "https://" a) as [rest|] eqn:Hp; [|done].
  apply strip_prefix_Some in Hp as ->. intros Hv. split; [by eexists|]. rewrite str_forallb_app. apply andb_true_iff. split; [done|].
  destruct (rsplit_char ":" rest) as [[host port]|] eqn:Hr; cbn beta iota in Hv; bool_inv.
  - apply rsplit_char_Some in Hr as ->. rewrite str_forallb_app. cbn [str_forallb].
    apply andb_true_iff. split; [by eapply str_forallb_impl; [apply host_is_origin|]|].
    apply andb_true_iff. split; [done|]. by eapply str_forallb_impl; [apply digit_is_origin|].
  - by eapply str_forallb_impl; [apply host_is_origin|].
Qed.

Lemma join_forallb p sep l :
  str_forallb p sep = true -> Forall (fun a => str_forallb p a = true) l -> str_forallb p (join sep l) = true.
Proof.
  intros Hs. induction 1 as [|a l Ha Hl IH]; [done|]. destruct l as [|b l]; [done|].
  by rewrite join_cons, !str_forallb_app, Ha, Hs, IH.
Qed.

(** What a loaded configuration puts in the Content-Security-Policy header
    cannot say more than its origins: without any it is ['none']; otherwise it
    is text of letters, digits and [. - : /] and single spaces, which splits at
    the spaces into the configured origins again, each with its [https://]. *)
Theorem frame_ancestors_safe read content c :
  config_load read content = Ok c ->
  if decide (cf_frame_ancestors c = []) then frame_ancestors_source c = "'none'"
  else str_forallb (fun x => origin_char x || bool_decide (x = " "%char)) (frame_ancestors_source c) = true
       /\ split " " (frame_ancestors_source c) = cf_frame_ancestors c
       /\ Forall (fun a => is_Some (strip_prefix "https://" a)) (cf_frame_ancestors c).
Proof.
  rewrite config_load_ok. intros (text & _ & _ & Hw). pose proof (cw_origins c Hw) as Ho.
  pose proof (Forall_impl _ _ _ Ho origin_chars) as Hall. unfold frame_ancestors_source.
  destruct (cf_frame_ancestors c) as [|a l] eqn:Hl; [by rewrite decide_True|]. rewrite decide_False by done.
  apply Forall_and in Hall as [Hp Hc]. split; [|split; [|done]].
  - apply join_forallb; [done|]. eapply Forall_impl; [exact Hc|]. intros x Hx. eapply str_forallb_impl; [|exact Hx].
    by intros y ->.
  - apply split_join_lacking; [|done]. eapply Forall_impl; [exact Hc|]. intros x Hx. eapply str_forallb_impl; [|exact Hx].
    intros y Hy. apply negb_true_iff, bool_decide_eq_false. by intros ->.
Qed.

Definition site_example : Config :=
  config_of [mkSiteMember "anna" "Anna" "mix1"; mkSiteMember "engineer" "Engineer" "eng"]
    [mkSiteInputMeta "kick" "Kick" (Some "mics") (Some "anna")] true (Some "mixer.example.org") None
    ["https://surface.example"; "https://stage.example:8443"]
    (Some (mkAcmeConfig LETS_ENCRYPT (Some "owner@example.org") 20)).

Lemma frame_ancestors_safe_witness :
  config_load (fun _ => Ok site_example) (Ok "") = Ok site_example
  /\ frame_ancestors_source site_example = "https://surface.example https://stage.example:8443"
  /\ split " " (frame_ancestors_source site_example) = ["https://surface.example"; "https://stage.example:8443"].
Proof.
  assert (Hl : config_load (fun _ => Ok site_example) (Ok "") = Ok site_example) by (vm_compute; reflexivity).
  split; [exact Hl|]. split; [vm_compute; reflexivity|].
  pose proof (frame_ancestors_safe (fun _ => Ok site_example) (Ok "") site_example Hl) as Hs. cbn [decide] in Hs.
  exact (proj1 (proj2 Hs)).
Defined.

(** ** What a parse error says *)

(** A message that quotes one value without a quote of its own says the same
    whatever the value. *)
Lemma parse_error_hides content a v b start :
  lacks quote a -> lacks quote v -> lacks quote b ->
  config_parse_error content (mkTomlError (a +:+ String quote (v +:+ String quote b)) start)
  = config_parse_error content (mkTomlError (a +:+ String quote (String quote b)) start).
Proof.
  intros Ha Hv Hb.
  assert (Hsplit : forall w, lacks quote w -> split (String quote "") (a +:+ String quote (w +:+ String quote b)) = [a; w; b]).
  { intros w Hw.
    assert (Ho : forall x y, lacks quote x -> split_once (String quote "") (x +:+ String quote y) = Some (x, y)).
    { intros x y Hx. exact (split_once_app quote "" x y Hx). }
    rewrite (split_cons _ _ a (w +:+ String quote b)) by (done || by apply Ho).
    rewrite (split_cons _ _ w b) by (done || by apply Ho).
    by rewrite split_one by by apply split_once_None. }
  unfold config_parse_error. cbn [te_message te_start]. rewrite (Hsplit v) by done.
  pose proof (Hsplit "" eq_refl) as He. rewrite str_app_nil_l in He. rewrite He. done.
Qed.

(** A value with a quote in it: serde writes it with the quote escaped, and
    what follows the quote is shown. *)
Definition quoted_secret : TomlError :=
  mkTomlError ("invalid type: string " +:+ String quote ("pa" +:+ String backslash (String quote ("secret" +:+ String quote ", expected u16")))) None.

Example parse_error_leaks : str_contains "secret" (config_parse_error "" quoted_secret) = true.
Proof. vm_compute. reflexivity. Qed.

(** The roster's own redaction follows the escape. *)
Example redact_does_not_leak : str_contains "secret" (parse_error "" quoted_secret) = false.
Proof. vm_compute. reflexivity. Qed.
