(* ===== verification/UiMsg.v ===== *)
(** * The UI's messages ([iem-core/src/ws.rs], [types.rs], [tunnel.rs], [lineup.rs])

    What a mixer page sends and what it is sent; the channel strips; the merge
    of a new list of them into the page's.  A [f32] is a [spec_float] of 24 bits;
    an [f64] made of one is rounded to 53 bits, which is exact. *)

From S2P Require Import Prelude F64 Text.
From Stdlib Require Import SpecFloat.
From stdpp Require Import options.
Local Open Scope Z_scope.

(** ** [f32] *)

Definition f32 : Type := spec_float.
Definition f32_of_int (n : Z) : f32 := binary_normalize 24 128 n 0 false.
Definition f64_of_f32 (x : f32) : f64 :=
  match x with S754_finite s m e => binary_round f64_prec f64_emax s m e | x => x end.
Definition f32_leb (x y : f32) : bool := SFleb x y.
Definition f32_is_finite (x : f32) : bool := f64_is_finite x.
Definition f32_min (x y : f32) : f32 :=
  if f64_is_nan x then y else if f64_is_nan y then x else if SFltb y x then y else x.

(** ** Channels *)

Record Channel := mkChannel {
  ch_id : string;
  ch_name : string;
  ch_level_db : f32;
  ch_pan : f32;
  ch_muted : bool;
  ch_category : string;
  ch_eq : bool;
  ch_own : bool;
}.

Definition find_channel (id : string) (l : list Channel) : option Channel :=
  snd <$> list_find (fun c => ch_id c = id) l.

(** The first channel of an id, replaced. *)
Fixpoint replace_channel (f : Channel -> Channel) (id : string) (l : list Channel) : list Channel :=
  match l with
  | [] => []
  | c :: l => if decide (ch_id c = id) then f c :: l else c :: replace_channel f id l
  end.

Definition channel_ids (l : list Channel) : gset string := list_to_set (ch_id <$> l).

Definition is_touched (touched : gmap string bool) (id : string) : bool := default false (touched !! id).

Definition merge_or_replace_channels (existing incoming : list Channel) (touched : gmap string bool) : list Channel :=
  match existing with
  | [] => incoming
  | _ =>
      if negb (bool_decide (channel_ids existing = channel_ids incoming)) then incoming
      else
        foldl (fun l c => if is_touched touched (ch_id c) then l else replace_channel (fun _ => c) (ch_id c) l) existing incoming
  end.

Definition is_valid_ui_pan (value : f32) : bool := f32_leb (S754_zero false) value && f32_leb value (f32_of_int 1).

(** ** What a page sends *)

Inductive UiCmd :=
| UiSetLevel (id : string) (level_db : f32)
| UiSetMute (id : string) (muted : bool)
| UiSetPan (id : string) (pan : f32)
| UiSetGlobalLevel (level_db : f32)
| UiSetGlobalMute (muted : bool)
| UiSetStemsLevel (level_db : f32)
| UiSetStemsMute (muted : bool)
| UiUpdateCustomization (pinned hidden : list string)
| UiSetSolo (soloed : list string)
| UiListenStart (member_id : string)
| UiListenStop
| UiGetEqParams (target : string)
| UiSetEqBand (target : string) (band : Z) (param : string) (value : f32)
| UiCallEngineer
| UiClearAlert
| UiTalkStart
| UiTalkStop
| UiGetLimiterParams
| UiSetLimiterParam (param : string) (value : f32)
| UiSetLimiterEnabled (enabled : bool)
| UiResetLimiterActivity
| UiGetConsole
| UiSetInput (input : string) (trim_db : option f32) (muted processing : option bool)
| UiResetLimiterStats (mix : string).

(** ** What a page is sent *)

Record UiEqBand := mkUiEqBand { ub_type : string; ub_freq_hz : f32; ub_gain_db : f32; ub_bw : f32; ub_enabled : bool }.
Record AlertInfo := mkAlertInfo { ai_from_member : string; ai_from_name : string }.
Record ConsoleInput := mkConsoleInput { ci_id : string; ci_name : string; ci_trim_db : f32; ci_muted : bool; ci_processing : bool }.
Record ConsoleMix := mkConsoleMix { cx_id : string; cx_name : string; cx_active_seconds : f64 }.
Record PageLink := mkPageLink { pl_id : string; pl_name : string }.
Record LoginFailures := mkLoginFailures { lf_lan : Z; lf_tunnel : Z; lf_engineer_budget_trips : Z }.
Record ConsoleInfo := mkConsoleInfo {
  co_inputs : list ConsoleInput;
  co_limiters : list ConsoleMix;
  co_pages : list PageLink;
  co_login : LoginFailures;
}.

Inductive TunnelState := TunnelOk | TunnelDown.
Record TunnelStatusInfo := mkTunnelStatusInfo { ts_state : TunnelState; ts_ready_connections : Z; ts_since_secs : Z }.
Record LineupRef := mkLineupRef { lr_id : string; lr_name : string }.

Inductive ServerMsg :=
| SmHello (proto : Z) (build : string) (min_client_proto : Z)
| SmState (channels : list Channel) (connected : bool) (global_level_db : option f32) (global_muted : option bool)
    (mix : option string) (stems_level_db : option f32) (stems_muted : option bool) (group : option string)
| SmMeters (meters : gmap string (f32 * f32))
| SmChannelUpdate (id : string) (level_db : f32) (muted : bool) (pan : f32)
| SmGlobalVolumeUpdate (level_db : f32) (muted : bool)
| SmStemsVolumeUpdate (level_db : f32) (muted : bool)
| SmConnectionChanged (connected : bool)
| SmCustomizationUpdate (pinned hidden : list string)
| SmNetworkMode (mode : string)
| SmSoloUpdate (soloed : list string)
| SmAudioStatus (status : string) (target : option string)
| SmEqParams (target track_name : string) (bands : list UiEqBand)
| SmEngineerAlert (from_member from_name : string)
| SmAlertCleared (member_id : string)
| SmActiveAlerts (alerts : list AlertInfo)
| SmTalkAcquired (talk_id : string)
| SmTalkBusy (holder : string)
| SmTalkReleased
| SmEngineerTalking (active : bool)
| SmLimiterParams (mix track_name : string) (limit_db limit_norm : f32) (enabled : bool) (active_seconds : f64)
| SmTunnelStatus (info : TunnelStatusInfo)
| SmConsole (info : ConsoleInfo)
| SmInputUpdate (input : ConsoleInput)
| SmLineupChanged (active : LineupRef).

Definition UI_PROTO : Z := 3.
Definition MIN_CLIENT_PROTO : Z := 3.
