(* ===== verification/SiteView.v ===== *)
(** * The site as the UI sees it ([iem-server/src/site_view.rs], [roster_state.rs])

    The members and input labels of the configuration, or the people, sets and
    inputs of the line-up that plays, joined with the engine's topology; what
    does not fit is left out and reported.  Ids are ASCII. *)

From S2P Require Import Prelude Text MixState Msg LoginGuard Roster Config.
From Stdlib Require Import Ascii.
From stdpp Require Import options.
Local Open Scope Z_scope.
#[local] Unset Default Proof Using.

Definition ENGINEER_ID : string := "engineer".

(** ** The roster in use *)

Record RosterState := mkRosterState { rs_roster : Roster; rs_sha256 : string; rs_active : string }.

(** A panic when there is neither the active nor a main line-up. *)
Definition rs_lineup (r : RosterState) : option Lineup :=
  match roster_lineup (rs_roster r) (rs_active r) with Some l => Some l | None => roster_main (rs_roster r) end.

Definition is_leader (r : RosterState) (person : string) : option bool := (fun l => leads l person) <$> rs_lineup r.

Record PersonView := mkPersonView { pv_id : string; pv_name : string; pv_playing : bool }.

(** A roster with the line-up that plays. *)
Definition Playing : Type := Roster * Lineup.

Definition site_members (cfg : Config) (playing : option Playing) : list SiteMember :=
  match playing with
  | None => cf_members cfg
  | Some (r, l) =>
      omap (fun '(set, person) => (fun p => mkSiteMember (pe_id p) (pe_name p) set) <$> roster_person r person) (entries (lu_sets l))
      ++ option_list (cf_member cfg ENGINEER_ID)
  end.

Definition person_sets (cfg : Config) (r : Roster) : gset string :=
  match ro_equipment r with
  | Some e => list_to_set (eq_sets e)
  | None =>
      list_to_set (me_mix <$> filter (fun m => me_id m <> ENGINEER_ID) (cf_members cfg))
      ∪ list_to_set (concat ((fun l => btree_keys (lu_sets l)) <$> ro_lineups r))
  end.

Definition input_owners (cfg : Config) (r : Roster) (id : string) : list string :=
  let lineups := omap (fun l => i ← lu_inputs l !! id; li_owner i) (ro_lineups r) in
  match lineups, ro_equipment r with
  | [], None => omap im_owner (filter (fun m => im_id m = id) (cf_inputs cfg))
  | _, _ => lineups
  end.

Definition roster_foreign_input (cfg : Config) (r : Roster) (lineup : Lineup) (id : string) : bool :=
  if bool_decide (is_Some (lu_inputs lineup !! id)) then false
  else
    match ro_equipment r with
    | Some e => has_input e id
    | None => existsb (fun o => negb (bool_decide (o = ENGINEER_ID)) && negb (plays lineup o)) (input_owners cfg r id)
    end.

Definition tile (m : SiteMember) : PersonView := mkPersonView (me_id m) (me_name m) true.

Definition people (cfg : Config) (playing : option Playing) : list PersonView :=
  match playing with
  | None => tile <$> cf_members cfg
  | Some (r, l) =>
      (tile <$> filter (fun m => me_id m <> ENGINEER_ID) (site_members cfg playing))
      ++ ((fun p => mkPersonView (pe_id p) (pe_name p) false) <$> filter (fun p => plays l (pe_id p) = false) (ro_people r))
      ++ (tile <$> option_list (cf_member cfg ENGINEER_ID))
  end.

(** ** The view *)

Record InputView := mkInputView {
  iv_id : InputId;
  iv_name : string;
  iv_category : string;
  iv_owner : option string;
  iv_group : option GroupId;
}.

Record MixView := mkMixView {
  xv_id : MixId;
  xv_name : string;
  xv_member : option string;
  xv_hears : list MixId;
  xv_mono : bool;
}.

Record Page := mkPage { pg_id : string; pg_name : string; pg_mix : MixId; pg_member : option string }.

Record SiteView := mkSiteView {
  sv_members : list SiteMember;
  sv_inputs : list InputView;
  sv_mixes : list MixView;
  sv_group : option GroupId;
  sv_engineer_mix : option MixId;
  sv_leaders : list string;
  sv_people : list PersonView;
  sv_vacant : list MixId;
  sv_foreign_inputs : list InputId;
}.

Definition to_ascii_uppercase (c : ascii) : ascii := if is_ascii_lowercase c then ascii_of_nat (nat_of_ascii c - 32) else c.
Fixpoint ascii_upper (s : string) : string :=
  match s with EmptyString => "" | String c s => String (to_ascii_uppercase c) (ascii_upper s) end.

Definition title (id : string) : string := match id with EmptyString => "" | String c s => String (to_ascii_uppercase c) s end.

Definition known_members (cfg : Config) (playing : option Playing) (topo : TopologyInfo) : list SiteMember :=
  filter (fun m => me_mix m ∈ mi_id <$> ti_mixes topo) (site_members cfg playing).

Definition input_label (cfg : Config) (id : string) : option SiteInputMeta := find (fun m => bool_decide (im_id m = id)) (cf_inputs cfg).

Definition input_view (cfg : Config) (playing : option Playing) (i : InputInfo) : InputView :=
  let meta := input_label cfg (ii_id i) in
  let category :=
    match ii_group i with
    | Some _ => "stems"
    | None => default "mics" (m ← meta; im_category m)
    end in
  let listed := '(_, l) ← playing; lu_inputs l !! ii_id i in
  let site_owner := m ← meta; im_owner m in
  let owner :=
    match playing, listed with
    | None, _ => site_owner
    | Some _, Some l => li_owner l
    | Some _, None => o ← site_owner; if bool_decide (o = ENGINEER_ID) then Some o else None
    end in
  let name :=
    match listed, meta with
    | Some l, _ => li_name l
    | None, Some m => im_name m
    | None, None => ascii_upper (ii_id i)
    end in
  mkInputView (ii_id i) name category owner (ii_group i).

Definition mix_view (members : list SiteMember) (m : MixInfo) : MixView :=
  let member := find (fun s => bool_decide (me_mix s = mi_id m)) members in
  mkMixView (mi_id m) (match member with Some s => me_name s | None => title (mi_id m) end) (me_id <$> member)
    (mi_mixes m ++ mi_peers m) (mi_channels m =? 1).

(** A member whose mix hears another. *)
Definition hears_another (topo : TopologyInfo) (m : SiteMember) : bool :=
  existsb (fun x => bool_decide (mi_id x = me_mix m) && (negb (bool_decide (mi_mixes x = [])) || negb (bool_decide (mi_peers x = []))))
    (ti_mixes topo).

Definition view_leaders (playing : option Playing) (members : list SiteMember) (topo : TopologyInfo) : list string :=
  match playing with
  | Some (_, l) => lu_leaders l
  | None => me_id <$> filter (fun m => me_id m <> ENGINEER_ID /\ hears_another topo m = true) members
  end.

Definition view_vacant (cfg : Config) (playing : option Playing) (topo : TopologyInfo) : list MixId :=
  match playing with
  | Some (r, l) => filter (fun m => person_on l m = None /\ m ∈ person_sets cfg r) (mi_id <$> ti_mixes topo)
  | None => []
  end.

Definition view_foreign (cfg : Config) (playing : option Playing) (topo : TopologyInfo) : list InputId :=
  match playing with
  | Some (r, l) => filter (fun i => roster_foreign_input cfg r l i = true) (ii_id <$> ti_inputs topo)
  | None => []
  end.

Definition build_view (cfg : Config) (playing : option Playing) (topo : TopologyInfo) : SiteView :=
  let members := known_members cfg playing topo in
  mkSiteView members (input_view cfg playing <$> ti_inputs topo) (mix_view members <$> ti_mixes topo)
    (gi_id <$> head (ti_groups topo)) (Some (ti_engineer topo)) (view_leaders playing members topo)
    (people cfg playing) (view_vacant cfg playing topo) (view_foreign cfg playing topo).

(** Every mismatch between the configuration and the topology. *)
Definition view_problems (cfg : Config) (playing : option Playing) (topo : TopologyInfo) : list string :=
  let inputs := ii_id <$> ti_inputs topo in
  each (fun _ m => note (negb (bool_decide (me_mix m ∈ mi_id <$> ti_mixes topo)))
          ("member '" +:+ me_id m +:+ "': the engine has no mix '" +:+ me_mix m +:+ "'")) (site_members cfg playing)
  ++ each (fun _ i => note (bool_decide (input_label cfg i = None)) ("input '" +:+ i +:+ "' has no [[inputs]] label")) inputs
  ++ each (fun _ m => note (negb (bool_decide (im_id m ∈ inputs))) ("[[inputs]] '" +:+ im_id m +:+ "' is not an engine input")) (cf_inputs cfg)
  ++ match playing with
     | Some (_, l) =>
         each (fun _ id => note (negb (bool_decide (id ∈ inputs)))
                 ("lineup '" +:+ lu_id l +:+ "': input '" +:+ id +:+ "' is not an engine input")) (btree_keys (lu_inputs l))
     | None => []
     end.

Definition build_with (cfg : Config) (roster : option RosterState) (topo : TopologyInfo) : option (SiteView * list string) :=
  match roster with
  | None => Some (build_view cfg None topo, view_problems cfg None topo)
  | Some r =>
      l ← rs_lineup r;
      let playing := Some (rs_roster r, l) in
      Some (build_view cfg playing topo, view_problems cfg playing topo)
  end.

Definition is_foreign_input (v : SiteView) (id : string) : bool := bool_decide (id ∈ sv_foreign_inputs v).
Definition sv_member (v : SiteView) (id : string) : option SiteMember := find (fun m => bool_decide (me_id m = id)) (sv_members v).
Definition sv_mix (v : SiteView) (id : MixId) : option MixView := find (fun m => bool_decide (xv_id m = id)) (sv_mixes v).
Definition sv_input (v : SiteView) (id : string) : option InputView := find (fun i => bool_decide (iv_id i = id)) (sv_inputs v).

Definition sv_page (v : SiteView) (id : string) : option Page :=
  match sv_member v id with
  | Some m => Some (mkPage (me_id m) (me_name m) (me_mix m) (Some (me_id m)))
  | None =>
      (fun m => mkPage (xv_id m) (xv_name m) (xv_id m) None)
      <$> find (fun m => bool_decide (xv_id m = id) && bool_decide (xv_member m = None) && negb (bool_decide (xv_id m ∈ sv_vacant v)))
            (sv_mixes v)
  end.

Definition mix_pages (v : SiteView) : list Page :=
  omap (fun m => sv_page v (xv_id m)) (filter (fun m => xv_member m = None) (sv_mixes v)).

Definition member_of_mix (v : SiteView) (mix : MixId) : option SiteMember := find (fun m => bool_decide (me_mix m = mix)) (sv_members v).
Definition sv_mix_name (v : SiteView) (mix : MixId) : string := match sv_mix v mix with Some m => xv_name m | None => title mix end.
Definition own_input (v : SiteView) (member : string) : option InputId :=
  iv_id <$> find (fun i => bool_decide (iv_owner i = Some member)) (sv_inputs v).
