(* ===== verification/View.v ===== *)
(** * The UI's view of the engine ([iem-server/src/view.rs])

    The channels and the full state of a mixer page, the updates a change
    produces for it, and the engine command a UI command becomes, with the
    server's permissions.  The text of a float in a refusal is the parameter
    [ShowF32]; [debug_str] is the escaped text of an ASCII string. *)

From S2P Require Import Prelude F64 Text MixState Msg Mirror Roster Config UiMsg SiteView.
From Stdlib Require Import Ascii SpecFloat.
From stdpp Require Import vector.
From stdpp Require Import options.
Local Open Scope Z_scope.
#[local] Unset Default Proof Using.

(** [Display] of an [f32]. *)
Class ShowF32 := show_f32 : f32 -> string.

(** ** Decibels and positions *)

Definition FADER_MIN_DB : f32 := f32_of_int (-60).
Definition FADER_MAX_DB : f32 := f32_of_int 12.
Definition f32_half : f32 := Eval vm_compute in f64_as_f32 f64_half.
Definition LIMIT_MIN_DB : f64 := Eval vm_compute in f64_lit (-6) 0.
Definition OUT_NAME : string := "IEM VOL".
Definition GROUP_NAME : string := "STEMS".

Definition ui_db (db : f64) : f32 :=
  if f64_ltb (f64_of_f32 FADER_MIN_DB) db then f64_as_f32 (f64_min db (f64_of_f32 FADER_MAX_DB)) else FADER_MIN_DB.

Definition engine_db (ui : f32) : option f64 :=
  if negb (f32_is_finite ui) then None
  else if f32_leb ui FADER_MIN_DB then Some DB_OFF
  else Some (f64_of_f32 (f32_min ui FADER_MAX_DB)).

Definition ui_pan (p : f64) : f32 := f64_as_f32 (f64_clamp ((p + f64_1) / f64_2)%F f64_0 f64_1).

Definition engine_pan (u : f32) : option f64 :=
  if is_valid_ui_pan u then Some (f64_of_f32 u * f64_2 - f64_1)%F else None.

(** The slider of the limiter. *)
Definition limit_db (norm : f32) : f64 := (LIMIT_MIN_DB + f64_of_f32 norm * - LIMIT_MIN_DB)%F.
Definition limit_norm (db : f64) : f32 := f64_as_f32 (f64_clamp ((db - LIMIT_MIN_DB) / - LIMIT_MIN_DB)%F f64_0 f64_1).

(** ** Who looks *)

Record Viewer := mkViewer { vw_sub : string; vw_engineer : bool }.

Inductive ViewError :=
| VeUnknownId (id : string)
| VeBadValue (what : string)
| VeForbidden (what : string)
| VeNoGroup
| VeNotACommand
| VeSwitching.

Definition of_page (page : Page) : Viewer :=
  match pg_member page with
  | Some m => mkViewer m (bool_decide (m = ENGINEER_ID))
  | None => mkViewer ENGINEER_ID true
  end.

Definition viewer_leads (viewer : Viewer) (view : SiteView) : bool :=
  vw_engineer viewer || bool_decide (vw_sub viewer ∈ sv_leaders view).

(** ** What a page shows *)

(** An input that is there and not another band's. *)
Definition present_input (view : SiteView) (id : string) : bool :=
  bool_decide (is_Some (sv_input view id)) && negb (is_foreign_input view id).

Definition view_source (view : SiteView) (page : Page) (id : string) : option Source :=
  if present_input view id then Some (SrcInput id)
  else
    m ← sv_mix view (pg_mix page);
    SrcMix <$> Roster.find (fun h => bool_decide (h = id) && negb (bool_decide (h ∈ sv_vacant view))) (xv_hears m).

Definition shows_input (view : SiteView) (viewer : Viewer) (id : string) : bool := present_input view id.

Definition solo_shown (view : SiteView) (viewer : Viewer) (s : Source) : bool :=
  match s with SrcInput id => shows_input view viewer id | SrcMix _ => true end.

Definition soloed_seen (view : SiteView) (viewer : Viewer) (sources : list Source) : list string :=
  Source_to_string <$>
  filter (fun s => solo_shown view viewer s = true) sources.

Definition heard (view : SiteView) (page : Page) (viewer : Viewer) : list MixId :=
  if negb (viewer_leads viewer view) then []
  else
    match sv_mix view (pg_mix page) with
    | Some m => filter (fun h => h ∉ sv_vacant view) (xv_hears m)
    | None => []
    end.

Definition masked (mv : Mirror) (page : Page) (s : Source) : bool :=
  let solo := mirror_solo mv (pg_mix page) in
  negb (bool_decide (solo = [])) && negb (bool_decide (s ∈ solo)).

Definition channel_values (mv : Mirror) (page : Page) (s : Source) : f32 * bool * f32 :=
  let l := mirror_level mv (pg_mix page) s in
  (ui_db (lv_gain_db l), lv_muted l || masked mv page s, ui_pan (lv_pan l)).

Definition input_channel (view : SiteView) (mv : Mirror) (page : Page) (viewer : Viewer) (i : InputView) : Channel :=
  let own := m ← pg_member page; own_input view m in
  let '(level_db, muted, pan) := channel_values mv page (SrcInput (iv_id i)) in
  mkChannel (iv_id i) (iv_name i) level_db pan muted (iv_category i)
    (vw_engineer viewer || bool_decide (iv_owner i = Some (vw_sub viewer)))
    (bool_decide (own = Some (iv_id i))).

Definition mix_channel (view : SiteView) (mv : Mirror) (page : Page) (viewer : Viewer) (h : MixId) : Channel :=
  let '(level_db, muted, pan) := channel_values mv page (SrcMix h) in
  mkChannel h (sv_mix_name view h) level_db pan muted "mixes" (vw_engineer viewer) false.

Definition channels (view : SiteView) (mv : Mirror) (page : Page) (viewer : Viewer) : list Channel :=
  (input_channel view mv page viewer <$> filter (fun i => shows_input view viewer (iv_id i) = true) (sv_inputs view))
  ++ (mix_channel view mv page viewer <$> heard view page viewer).

Definition state_msg (view : SiteView) (mv : Mirror) (page : Page) (viewer : Viewer) (connected : bool) : ServerMsg :=
  let out := mirror_out mv (pg_mix page) in
  let strip := mirror_group mv (pg_mix page) <$> sv_group view in
  SmState (channels view mv page viewer) connected (Some (ui_db (o_volume_db out))) (Some (o_muted out)) (Some (pg_mix page))
    (ui_db ∘ g_gain_db <$> strip) (g_muted <$> strip) (sv_group view).

Definition channel_update (ch : Channel) : ServerMsg :=
  SmChannelUpdate (ch_id ch) (ch_level_db ch) (ch_muted ch) (ch_pan ch).

(** A source whose level the viewer sees. *)
Definition shown_source (view : SiteView) (page : Page) (viewer : Viewer) (s : Source) : bool :=
  match s with
  | SrcInput id => shows_input view viewer id
  | SrcMix id => bool_decide (id ∈ heard view page viewer)
  end.

(** The updates of one change; the mirror holds all of them. *)
Definition change_updates (view : SiteView) (mv : Mirror) (page : Page) (viewer : Viewer) (c : Change) : list ServerMsg :=
  match c with
  | ChLevel mix source _ =>
      if bool_decide (mix = pg_mix page) && shown_source view page viewer source then
        let '(level_db, muted, pan) := channel_values mv page source in
        [SmChannelUpdate (Source_to_string source) level_db muted pan]
      else []
  | ChMixOut mix o =>
      if bool_decide (mix = pg_mix page) then [SmGlobalVolumeUpdate (ui_db (o_volume_db o)) (o_muted o)] else []
  | ChGroup mix group state =>
      if bool_decide (mix = pg_mix page) && bool_decide (sv_group view = Some group)
      then [SmStemsVolumeUpdate (ui_db (g_gain_db state)) (g_muted state)]
      else []
  | ChSolo mix sources =>
      if bool_decide (mix = pg_mix page)
      then SmSoloUpdate (soloed_seen view viewer sources) :: (channel_update <$> channels view mv page viewer)
      else []
  | _ => []
  end.

Definition updates_seen (view : SiteView) (mv : Mirror) (page : Page) (viewer : Viewer) (changes : list Change) : list ServerMsg :=
  concat (change_updates view mv page viewer <$> changes).

Definition updates_for (view : SiteView) (mv : Mirror) (page : Page) (changes : list Change) : list ServerMsg :=
  updates_seen view mv page (of_page page) changes.

(** ** The EQ *)

(** [{:?}] of an ASCII string. *)
Definition debug_char (c : ascii) : string :=
  if bool_decide (c = quote) || bool_decide (c = backslash) then String backslash (String c "")
  else if bool_decide (c = "009"%char) then String backslash "t"
  else if bool_decide (c = "010"%char) then String backslash "n"
  else if bool_decide (c = "013"%char) then String backslash "r"
  else if bool_decide (c = "000"%char) then String backslash "0"
  else if (nat_of_ascii c <? 32)%nat || (nat_of_ascii c =? 127)%nat then
    let n := Z.of_nat (nat_of_ascii c) in
    String backslash ("u{" +:+ (if n <? 16 then String (hex_digit n) "" else hex [n]) +:+ "}")
  else String c "".
Fixpoint debug_chars (s : string) : string := match s with EmptyString => "" | String c s => debug_char c +:+ debug_chars s end.
Definition debug_str (s : string) : string := String quote (debug_chars s +:+ String quote "").

Definition eq_target (view : SiteView) (page : Page) (viewer : Viewer) (target : string) : result ViewError (EqTarget * string) :=
  if bool_decide (target = pg_mix page) then Ok (EqMix (pg_mix page), OUT_NAME)
  else if bool_decide (sv_group view = Some target) then Ok (EqGroup (pg_mix page) target, GROUP_NAME)
  else
    match (if shows_input view viewer target then sv_input view target else None) with
    | Some i =>
        if vw_engineer viewer || bool_decide (iv_owner i = Some (vw_sub viewer)) then Ok (EqInput (iv_id i), iv_name i)
        else Err (VeForbidden "an input's EQ is its owner's or the engineer's")
    | None =>
        match view_source view page target with
        | Some (SrcMix m) =>
            if vw_engineer viewer then Ok (EqMix m, sv_mix_name view m)
            else Err (VeForbidden "another mix's EQ is the engineer's")
        | Some _ => Err (VeForbidden "another mix's EQ is the engineer's")
        | None => Err (VeUnknownId target)
        end
    end.

Definition current_eq (mv : Mirror) (target : EqTarget) : Eq :=
  match target with
  | EqInput id => i_eq (mirror_input mv id)
  | EqMix m => o_eq (mirror_out mv m)
  | EqGroup mix group => g_eq (mirror_group mv mix group)
  end.

Definition kind_name (k : BandKind) : string :=
  match k with HighPass => "highpass" | LowShelf => "lowshelf" | Peak => "band" | HighShelf => "highshelf" end.

Definition eq_bands (eq : Eq) : list UiEqBand :=
  (fun b => mkUiEqBand (kind_name (b_kind b)) (f64_as_f32 (b_freq_hz b)) (f64_as_f32 (f64_max (b_gain_db b) DB_OFF))
              (f64_as_f32 (b_bw_oct b)) (b_enabled b))
  <$> vec_to_list (e_bands eq).

(** One value of a band; [None]: no such parameter. *)
Definition band_with (b : EqBand) (param : string) (value : f32) : option EqBand :=
  let v := f64_of_f32 value in
  if bool_decide (param = "freq_hz") then Some (mkEqBand (b_kind b) (b_enabled b) v (b_gain_db b) (b_bw_oct b))
  else if bool_decide (param = "gain_db") then
    Some (mkEqBand (b_kind b) (if bool_decide (b_kind b = HighPass) then b_enabled b else true) (b_freq_hz b) v (b_bw_oct b))
  else if bool_decide (param = "bw_oct") then Some (mkEqBand (b_kind b) (b_enabled b) (b_freq_hz b) (b_gain_db b) v)
  else if bool_decide (param = "enabled") then
    Some (mkEqBand (b_kind b) (f32_leb f32_half value) (b_freq_hz b) (b_gain_db b) (b_bw_oct b))
  else None.

Definition apply_band `{ShowF32} (eq : Eq) (band : Z) (param : string) (value : f32) : result ViewError Eq :=
  if negb (f32_is_finite value) then Err (VeBadValue (param +:+ " " +:+ show_f32 value))
  else
    match decide (Z.to_nat band < 5)%nat with
    | right _ => Err (VeBadValue ("band " +:+ dec band))
    | left Hb =>
        let i := nat_to_fin Hb in
        match band_with (e_bands eq !!! i) param value with
        | Some b => Ok (mkEq (e_gain_db eq) (vinsert i b (e_bands eq)))
        | None => Err (VeBadValue ("EQ parameter " +:+ debug_str param))
        end
    end.

Definition eq_params_msg (view : SiteView) (mv : Mirror) (page : Page) (viewer : Viewer) (target : string) : result ViewError ServerMsg :=
  '(t, name) ← eq_target view page viewer target;
  Ok (SmEqParams target name (eq_bands (current_eq mv t))).

Definition limiter_msg (mv : Mirror) (page : Page) (active_seconds : f64) : ServerMsg :=
  let l := o_limiter (mirror_out mv (pg_mix page)) in
  SmLimiterParams (pg_mix page) OUT_NAME (f64_as_f32 (l_limit_db l)) (limit_norm (l_limit_db l)) (l_enabled l) active_seconds.

(** ** Commands *)

Section command.
Context `{ShowF32} (view : SiteView) (mv : Mirror) (page : Page) (viewer : Viewer).

Definition cmd_source (id : string) : result ViewError Source :=
  match view_source view page id with
  | None => Err (VeUnknownId id)
  | Some (SrcMix m) =>
      if negb (viewer_leads viewer view) then Err (VeForbidden "the mixes a set hears are its leader's") else Ok (SrcMix m)
  | Some s => Ok s
  end.

(** The sources of a list of ids, or the first refusal. *)
Fixpoint cmd_sources (ids : list string) : result ViewError (list Source) :=
  match ids with
  | [] => Ok []
  | id :: ids => s ← cmd_source id; l ← cmd_sources ids; Ok (s :: l)
  end.

Definition cmd_db (v : f32) : result ViewError f64 :=
  match engine_db v with Some db => Ok db | None => Err (VeBadValue (show_f32 v +:+ " dB")) end.
Definition cmd_group : result ViewError GroupId := match sv_group view with Some g => Ok g | None => Err VeNoGroup end.
Definition cmd_engineer (what : string) : result ViewError unit := if vw_engineer viewer then Ok tt else Err (VeForbidden what).

Definition one_command (msg : UiCmd) : result ViewError Cmd :=
  let mix := pg_mix page in
  match msg with
  | UiSetLevel id level_db => s ← cmd_source id; db ← cmd_db level_db; Ok (SetLevel mix s (Some db) None None)
  | UiSetMute id muted => s ← cmd_source id; Ok (SetLevel mix s None None (Some muted))
  | UiSetPan id pan =>
      s ← cmd_source id;
      p ← match engine_pan pan with Some p => Ok p | None => Err (VeBadValue ("pan " +:+ show_f32 pan)) end;
      Ok (SetLevel mix s None (Some p) None)
  | UiSetGlobalLevel level_db => db ← cmd_db level_db; Ok (SetMix mix (Some db) None)
  | UiSetGlobalMute muted => Ok (SetMix mix None (Some muted))
  | UiSetStemsLevel level_db => g ← cmd_group; db ← cmd_db level_db; Ok (SetGroup mix g (Some db) None)
  | UiSetStemsMute muted => g ← cmd_group; Ok (SetGroup mix g None (Some muted))
  | UiSetSolo soloed => l ← cmd_sources soloed; Ok (SetSolo mix l)
  | UiSetLimiterParam param value =>
      if negb (bool_decide (param = "limit")) then Err (VeBadValue ("limiter parameter " +:+ debug_str param))
      else if negb (is_valid_ui_pan value) then Err (VeBadValue ("limit " +:+ show_f32 value))
      else Ok (SetLimiter mix None (Some (limit_db value)))
  | UiSetLimiterEnabled enabled => Ok (SetLimiter mix (Some enabled) None)
  | UiResetLimiterActivity => Ok (ResetLimiterStats mix)
  | UiSetEqBand target band param value =>
      '(target, _) ← eq_target view page viewer target;
      eq ← apply_band (current_eq mv target) band param value;
      Ok (SetEq target eq)
  | UiSetInput input trim_db muted processing =>
      _ ← cmd_engineer "input controls are the engineer's";
      if negb (bool_decide (is_Some (sv_input view input))) then Err (VeUnknownId input)
      else if match trim_db with Some t => negb (f32_is_finite t) | None => false end then Err (VeBadValue "trim")
      else Ok (SetInput input (f64_of_f32 <$> trim_db) muted processing)
  | UiResetLimiterStats other =>
      _ ← cmd_engineer "another mix's limiter is the engineer's";
      if negb (bool_decide (is_Some (sv_mix view other))) then Err (VeUnknownId other) else Ok (ResetLimiterStats other)
  | _ => Err VeNotACommand
  end.

Definition command (msg : UiCmd) : result ViewError (list Cmd) := cmd ← one_command msg; Ok [cmd].

End command.

(** Mute All: every level of the page's mix, but the inputs the viewer does
    not see. *)
Definition mute_all (view : SiteView) (page : Page) (viewer : Viewer) : Cmd :=
  let hears := match sv_mix view (pg_mix page) with Some m => xv_hears m | None => [] end in
  let sources :=
    (SrcInput ∘ iv_id <$> filter (fun i => shows_input view viewer (iv_id i) = true) (sv_inputs view)) ++ (SrcMix <$> hears) in
  Batch ((fun s => SetLevel (pg_mix page) s None None (Some true)) <$> sources).

Example conversions_ok :
  engine_db (f32_of_int (-60)) = Some DB_OFF /\ ui_db DB_OFF = FADER_MIN_DB /\ ui_db (f64_lit 20 0) = FADER_MAX_DB
  /\ engine_pan f32_half = Some f64_0 /\ ui_pan f64_0 = f32_half
  /\ b_enabled <$> band_with (off Peak f64_1 f64_1) "enabled" (f64_as_f32 (f64_lit 4 1)) = Some false
  /\ b_enabled <$> band_with (off Peak f64_1 f64_1) "enabled" f32_half = Some true
  /\ limit_db (f32_of_int 1) = f64_0 /\ limit_norm (limit_db (f32_of_int 0)) = S754_zero false.
Proof. vm_compute. tauto. Qed.
