(* ===== verification/BandStore.v ===== *)
(** * Presets, history, pins and hides ([iem-server/src/band_store.rs], [iem-core/src/band.rs])

    One file per member and kind in a data directory, written whole; what a
    preset holds of a page's mix, and the batches that restore it as a ramp.
    The JSON of a file is the parameter [Serde], a UTC day's text the parameter
    [UtcDay]; a write is given its outcome: the file is replaced by a rename,
    after which the directory's sync may still fail. *)

From S2P Require Import Prelude F64 Text MixState Msg Mirror Roster Config UiMsg SiteView View.
From stdpp Require Import options.
Local Open Scope Z_scope.
#[local] Unset Default Proof Using.

(** ** The files *)

Definition BAND_SCHEMA : Z := 3.
Definition PRESETS_FORMAT : string := "iemmixer-presets".
Definition SNAPSHOTS_FORMAT : string := "iemmixer-snapshots".
Definition CUSTOMIZATION_FORMAT : string := "iemmixer-customization".
Definition MAX_PRESETS : nat := 20.
Definition MAX_SNAPSHOTS : nat := 50.

Record MixSend := mkMixSend { se_src : Source; se_gain_db : f64; se_pan : f64; se_muted : bool }.

Record Preset := mkPreset {
  pr_name : string;
  pr_created_at : Z;
  pr_updated_at : Z;
  pr_sends : list MixSend;
  pr_groups : gmap GroupId f64;
  pr_input_eq : gmap InputId Eq;
  pr_archived : bool;
  pr_legacy_member : option string;
}.

Record Snapshot := mkSnapshot {
  sn_timestamp : Z;
  sn_label : string;
  sn_pinned : bool;
  sn_sends : list MixSend;
  sn_groups : gmap GroupId f64;
  sn_input_eq : gmap InputId Eq;
  sn_archived : bool;
  sn_legacy_member : option string;
}.

Record PresetFile := mkPresetFile { pf_format : string; pf_schema : Z; pf_member : string; pf_presets : list Preset }.
Record SnapshotFile := mkSnapshotFile { sf_format : string; sf_schema : Z; sf_member : string; sf_snapshots : list Snapshot }.
Record CustomizationFile := mkCustomizationFile {
  cu_format : string;
  cu_schema : Z;
  cu_member : string;
  cu_pinned : list Source;
  cu_hidden : list Source;
}.

Definition PresetFile_new (member : string) (presets : list Preset) : PresetFile := mkPresetFile PRESETS_FORMAT BAND_SCHEMA member presets.
Definition SnapshotFile_new (member : string) (snapshots : list Snapshot) : SnapshotFile :=
  mkSnapshotFile SNAPSHOTS_FORMAT BAND_SCHEMA member snapshots.
Definition CustomizationFile_new (member : string) (pinned hidden : list Source) : CustomizationFile :=
  mkCustomizationFile CUSTOMIZATION_FORMAT BAND_SCHEMA member pinned hidden.

Record PresetInfo := mkPresetInfo { pi_name : string; pi_channel_count : nat; pi_created_at : Z; pi_updated_at : Z; pi_archived : bool }.
Record SnapshotInfo := mkSnapshotInfo { si_timestamp : Z; si_label : string; si_pinned : bool; si_channel_count : nat; si_archived : bool }.
Definition PresetInfo_from (p : Preset) : PresetInfo :=
  mkPresetInfo (pr_name p) (length (pr_sends p)) (pr_created_at p) (pr_updated_at p) (pr_archived p).
Definition SnapshotInfo_from (s : Snapshot) : SnapshotInfo :=
  mkSnapshotInfo (sn_timestamp s) (sn_label s) (sn_pinned s) (length (sn_sends s)) (sn_archived s).

(** [serde_json]. *)
Class Serde (F : Type) := { to_json : F -> string; of_json : string -> result string F }.

(** The trait of the files. *)
Class BandFile (F : Type) := {
  bf_format : string;
  bf_header : F -> string * Z;
  bf_new_for : string -> F;
}.
#[export] Instance preset_file : BandFile PresetFile :=
  {| bf_format := PRESETS_FORMAT; bf_header f := (pf_format f, pf_schema f); bf_new_for m := PresetFile_new m [] |}.
#[export] Instance snapshot_file : BandFile SnapshotFile :=
  {| bf_format := SNAPSHOTS_FORMAT; bf_header f := (sf_format f, sf_schema f); bf_new_for m := SnapshotFile_new m [] |}.
#[export] Instance customization_file : BandFile CustomizationFile :=
  {| bf_format := CUSTOMIZATION_FORMAT; bf_header f := (cu_format f, cu_schema f); bf_new_for m := CustomizationFile_new m [] [] |}.

(** ** The store *)

Inductive StoreError :=
| SeIo (e : string)
| SeCorrupt (path e : string)
| SeFull
| SeArchived
| SeBadMember (e : string).

Inductive FileText := Readable (text : string) | Unreadable (e : string).
Inductive WriteOutcome := Written | NotWritten (e : string) | NotSynced (e : string).

Record BandStore := mkBandStore { bs_dir : string; bs_files : gmap string FileText }.

Definition bs_path (b : BandStore) (kind member : string) : result StoreError string :=
  match validate_member_id member with
  | Err e => Err (SeBadMember e)
  | Ok _ => Ok (bs_dir b +:+ "/" +:+ kind +:+ "/" +:+ member +:+ ".json")
  end.

Definition bs_read {F : Type} `{BandFile F} `{Serde F} (b : BandStore) (kind member : string) : result StoreError F :=
  path ← bs_path b kind member;
  match bs_files b !! path with
  | None => Ok (bf_new_for member)
  | Some (Unreadable e) => Err (SeIo (path +:+ ": " +:+ e))
  | Some (Readable text) =>
      match of_json text with
      | Err e => Err (SeCorrupt path e)
      | Ok file =>
          let '(format, schema) := bf_header file in
          if negb (bool_decide (format = bf_format (F := F))) || negb (schema =? BAND_SCHEMA)
          then Err (SeCorrupt path ("format " +:+ debug_str format +:+ ", schema " +:+ dec schema))
          else Ok file
      end
  end.

Definition bs_put (b : BandStore) (path text : string) : BandStore := mkBandStore (bs_dir b) (<[path := Readable text]> (bs_files b)).

Definition bs_write {F : Type} `{Serde F} (w : WriteOutcome) (b : BandStore) (kind member : string) (file : F)
    : BandStore * result StoreError unit :=
  match bs_path b kind member with
  | Err e => (b, Err e)
  | Ok path =>
      match w with
      | Written => (bs_put b path (to_json file), Ok tt)
      | NotWritten e => (b, Err (SeIo (path +:+ ": " +:+ e)))
      | NotSynced e => (bs_put b path (to_json file), Err (SeIo (path +:+ ": " +:+ e)))
      end
  end.

(** The write, and what the operation answers after it. *)
Definition bs_store {F A : Type} `{Serde F} (w : WriteOutcome) (b : BandStore) (kind member : string) (file : F) (a : A)
    : BandStore * result StoreError A :=
  let '(b, r) := bs_write w b kind member file in (b, _ ← r; Ok a).

(** A stable sort: [sort_by_key]. *)
Fixpoint sort_insert {A : Type} (le : A -> A -> bool) (x : A) (l : list A) : list A :=
  match l with
  | [] => [x]
  | y :: l => if le x y then x :: y :: l else y :: sort_insert le x l
  end.
Definition sort_by {A : Type} (le : A -> A -> bool) (l : list A) : list A := foldr (sort_insert le) [] l.

Definition position_by {A : Type} (p : A -> bool) (l : list A) : option nat := fst <$> list_find (fun x => p x = true) l.

(** What a preset or snapshot holds of a page's mix. *)
Record Captured := mkCaptured { cap_sends : list MixSend; cap_groups : gmap GroupId f64; cap_input_eq : gmap InputId Eq }.

(** *** Presets *)

Section presets.
Context `{Serde PresetFile}.

Definition presets (b : BandStore) (member : string) : result StoreError (list Preset) :=
  file ← bs_read b "presets" member;
  Ok (sort_by (fun p q => pr_updated_at q <=? pr_updated_at p) (pf_presets file)).

Definition preset (b : BandStore) (member name : string) : result StoreError (option Preset) :=
  l ← presets b member; Ok (find (fun p => bool_decide (pr_name p = name)) l).

Definition with_presets (f : PresetFile) (l : list Preset) : PresetFile := mkPresetFile (pf_format f) (pf_schema f) (pf_member f) l.

(** Where it goes, and when it was made. *)
Definition preset_place (l : list Preset) (name : string) (now : Z) : result StoreError (option nat * Z) :=
  match list_find (fun p => pr_name p = name) l with
  | Some (i, p) => if pr_archived p then Err SeArchived else Ok (Some i, pr_created_at p)
  | None => if (MAX_PRESETS <=? length l)%nat then Err SeFull else Ok (None, now)
  end.

Definition save_preset (w : WriteOutcome) (member name : string) (content : Captured) (now : Z) (b : BandStore)
    : BandStore * result StoreError Preset :=
  match (file ← bs_read b "presets" member; place ← preset_place (pf_presets file) name now; Ok (file, place)) with
  | Err e => (b, Err e)
  | Ok (file, (existing, created_at)) =>
      let p := mkPreset name created_at now (cap_sends content) (cap_groups content) (cap_input_eq content) false None in
      let l := match existing with Some i => <[i := p]> (pf_presets file) | None => pf_presets file ++ [p] end in
      bs_store w b "presets" member (with_presets file l) p
  end.

Definition delete_preset (w : WriteOutcome) (member name : string) (b : BandStore) : BandStore * result StoreError bool :=
  match bs_read b "presets" member with
  | Err e => (b, Err e)
  | Ok file =>
      match list_find (fun p => pr_name p = name) (pf_presets file) with
      | None => (b, Ok false)
      | Some (i, p) =>
          if pr_archived p then (b, Err SeArchived)
          else bs_store w b "presets" member (with_presets file (delete i (pf_presets file))) true
      end
  end.

End presets.

(** *** History *)

Definition AUTO_LABEL : string := "auto".
Definition i64_max : Z := 9223372036854775807.
Definition i64_succ (t : Z) : Z := if t =? i64_max then - i64_max - 1 else t + 1.

(** [chrono]'s UTC day of a Unix time. *)
Class UtcDay := utc_day : Z -> string.

Definition by_time : list Snapshot -> list Snapshot := sort_by (fun s t => sn_timestamp s <=? sn_timestamp t).

(** Oldest unpinned first out; at most [length] rounds. *)
Fixpoint prune_fuel (fuel : nat) (l : list Snapshot) : list Snapshot :=
  match fuel with
  | O => l
  | S fuel =>
      if (length l <=? MAX_SNAPSHOTS)%nat then l
      else match position_by (fun s => negb (sn_pinned s)) l with
           | Some i => prune_fuel fuel (delete i l)
           | None => l
           end
  end.
Definition prune (l : list Snapshot) : list Snapshot := let l := by_time l in prune_fuel (length l) l.

(** The walk over the taken seconds, ascending from the entry's own. *)
Fixpoint next_free (taken : list Z) (t : Z) : Z :=
  match taken with
  | [] => t
  | x :: taken => if x =? t then next_free taken (i64_succ t) else t
  end.

Definition taken_from (l : list Snapshot) (t : Z) : list Z :=
  merge_sort Z.le (elements (list_to_set (filter (fun x => t <= x) (sn_timestamp <$> l)) : gset Z)).

Definition at_time (t : Z) (s : Snapshot) : Snapshot :=
  mkSnapshot t (sn_label s) (sn_pinned s) (sn_sends s) (sn_groups s) (sn_input_eq s) (sn_archived s) (sn_legacy_member s).

Section snapshots.
Context `{Serde SnapshotFile}.

Definition snapshots (b : BandStore) (member : string) : result StoreError (list Snapshot) :=
  file ← bs_read b "snapshots" member;
  Ok (sort_by (fun s t => sn_timestamp t <=? sn_timestamp s) (sf_snapshots file)).

Definition snapshot (b : BandStore) (member : string) (ts : Z) : result StoreError (option Snapshot) :=
  l ← snapshots b member; Ok (find (fun s => sn_timestamp s =? ts) l).

Definition with_snapshots (f : SnapshotFile) (l : list Snapshot) : SnapshotFile :=
  mkSnapshotFile (sf_format f) (sf_schema f) (sf_member f) l.

Definition add_snapshot (w : WriteOutcome) (member : string) (s : Snapshot) (b : BandStore) : BandStore * result StoreError Z :=
  match bs_read b "snapshots" member with
  | Err e => (b, Err e)
  | Ok file =>
      let id := next_free (taken_from (sf_snapshots file) (sn_timestamp s)) (sn_timestamp s) in
      bs_store w b "snapshots" member (with_snapshots file (prune (sf_snapshots file ++ [at_time id s]))) id
  end.

Definition edit_snapshot (w : WriteOutcome) (member : string) (ts : Z) (f : list Snapshot -> nat -> list Snapshot) (b : BandStore)
    : BandStore * result StoreError bool :=
  match bs_read b "snapshots" member with
  | Err e => (b, Err e)
  | Ok file =>
      match list_find (fun s => sn_timestamp s = ts) (sf_snapshots file) with
      | None => (b, Ok false)
      | Some (i, s) =>
          if sn_archived s then (b, Err SeArchived)
          else bs_store w b "snapshots" member (with_snapshots file (f (sf_snapshots file) i)) true
      end
  end.

Definition delete_snapshot (w : WriteOutcome) (member : string) (ts : Z) : BandStore -> BandStore * result StoreError bool :=
  edit_snapshot w member ts (fun l i => delete i l).

Definition pin_snapshot (w : WriteOutcome) (member : string) (ts : Z) (pinned : bool) (label : option string)
    : BandStore -> BandStore * result StoreError bool :=
  edit_snapshot w member ts (fun l i =>
    alter (fun s => mkSnapshot (sn_timestamp s) (default (sn_label s) label) pinned (sn_sends s) (sn_groups s) (sn_input_eq s)
                      (sn_archived s) (sn_legacy_member s)) i l).

Definition has_auto_snapshot_on `{UtcDay} (b : BandStore) (member day : string) : result StoreError bool :=
  l ← snapshots b member;
  Ok (existsb (fun s => bool_decide (sn_label s = AUTO_LABEL) && bool_decide (utc_day (sn_timestamp s) = day)) l).

End snapshots.

(** *** Pins and hides *)

Section customizations.
Context `{Serde CustomizationFile}.

Definition customization (b : BandStore) (member : string) : result StoreError CustomizationFile := bs_read b "customizations" member.

Definition save_customization (w : WriteOutcome) (member : string) (pinned hidden : list Source) (b : BandStore)
    : BandStore * result StoreError unit :=
  bs_write w b "customizations" member (CustomizationFile_new member pinned hidden).

End customizations.

(** ** Capture and ramp *)

Definition capture (view : SiteView) (mv : Mirror) (page : Page) : Captured :=
  let hears := match sv_mix view (pg_mix page) with Some m => xv_hears m | None => [] end in
  let sources := (SrcInput ∘ iv_id <$> sv_inputs view) ++ (SrcMix <$> hears) in
  mkCaptured
    ((fun src => let l := mirror_level mv (pg_mix page) src in mkMixSend src (lv_gain_db l) (lv_pan l) (lv_muted l)) <$> sources)
    (match sv_group view with Some g => {[g := g_gain_db (mirror_group mv (pg_mix page) g)]} | None => ∅ end)
    (list_to_map
       ((fun i => (iv_id i, i_eq (mirror_input mv (iv_id i))))
        <$> rev (filter (fun i => pg_member page <> None /\ iv_owner i = pg_member page) (sv_inputs view)))).

Definition RAMP_STEPS : nat := 5.
Definition RAMP_STEP_MS : Z := 10.

Section ramp.
Context `{Libm} `{RtMath}.

Definition lin_db (g : f64) : f64 := if f64_ltb f64_0 g then (f64_20 * f64_log10 g)%F else DB_OFF.
Definition same (a b : f64) : bool := f64_leb (f64_abs (a - b)%F) (f64_lit 1 9).

Definition level_step (mix : MixId) (src : Source) (gain_db pan : f64) (muted : option bool) : Cmd :=
  SetLevel mix src (Some gain_db) (Some pan) muted.

(** The command of one level at step [k], counted from 1. *)
Definition send_step (mix : MixId) (cur : Level) (s : MixSend) (k : nat) : Cmd :=
  let a := if lv_muted cur then f64_0 else db_to_lin (lv_gain_db cur) in
  let b := if se_muted s then f64_0 else db_to_lin (se_gain_db s) in
  let last := (k =? RAMP_STEPS)%nat in
  let f := (f64_of_u64 (Z.of_nat k) / f64_of_u64 (Z.of_nat RAMP_STEPS))%F in
  let gain_db := if last && negb (se_muted s) then se_gain_db s else lin_db (a + (b - a) * f)%F in
  let pan := if last then se_pan s else (lv_pan cur + (se_pan s - lv_pan cur) * f)%F in
  let muted :=
    match lv_muted cur, se_muted s with
    | false, true => if last then Some true else None
    | true, false => if (k =? 1)%nat then Some false else None
    | _, _ => None
    end in
  level_step mix (se_src s) gain_db pan muted.

Definition group_step (mix : MixId) (g : GroupId) (cur target : f64) (k : nat) : Cmd :=
  let a := db_to_lin cur in
  let b := db_to_lin target in
  let gain_db :=
    if (k =? RAMP_STEPS)%nat then target
    else lin_db (a + (b - a) * f64_of_u64 (Z.of_nat k) / f64_of_u64 (Z.of_nat RAMP_STEPS))%F in
  SetGroup mix g (Some gain_db) None.

Definition send_known (view : SiteView) (page : Page) (s : MixSend) : bool := shown_source view page (of_page page) (se_src s).
Definition send_same (cur : Level) (s : MixSend) : bool :=
  same (lv_gain_db cur) (se_gain_db s) && same (lv_pan cur) (se_pan s) && bool_decide (lv_muted cur = se_muted s).

(** The sends and the groups that move. *)
Definition moving_sends (view : SiteView) (mv : Mirror) (page : Page) (sends : list MixSend) : list MixSend :=
  filter (fun s => send_known view page s = true /\ send_same (mirror_level mv (pg_mix page) (se_src s)) s = false) sends.
Definition moving_groups (view : SiteView) (mv : Mirror) (page : Page) (groups : gmap GroupId f64) : list (GroupId * f64) :=
  filter (fun p => sv_group view = Some p.1 /\ same (g_gain_db (mirror_group mv (pg_mix page) p.1)) p.2 = false) (entries groups).

Definition ramp_step (view : SiteView) (mv : Mirror) (page : Page) (sends : list MixSend) (groups : gmap GroupId f64) (k : nat) : list Cmd :=
  ((fun s => send_step (pg_mix page) (mirror_level mv (pg_mix page) (se_src s)) s k) <$> moving_sends view mv page sends)
  ++ ((fun p => group_step (pg_mix page) p.1 (g_gain_db (mirror_group mv (pg_mix page) p.1)) p.2 k) <$> moving_groups view mv page groups).

(** The stored gains of the levels that end muted. *)
Definition ramp_settle (view : SiteView) (mv : Mirror) (page : Page) (sends : list MixSend) : list Cmd :=
  (fun s => SetLevel (pg_mix page) (se_src s) (Some (se_gain_db s)) None None)
  <$> filter (fun s => se_muted s = true) (moving_sends view mv page sends).

Definition ramp (view : SiteView) (mv : Mirror) (page : Page) (sends : list MixSend) (groups : gmap GroupId f64) : list (list Cmd) * nat :=
  let steps := ramp_step view mv page sends groups <$> seq 1 RAMP_STEPS in
  let settle := ramp_settle view mv page sends in
  let steps := if bool_decide (settle = []) then steps else steps ++ [settle] in
  let skipped :=
    (length (filter (fun s => send_known view page s = false) sends)
     + length (filter (fun p => sv_group view <> Some p.1) (entries groups)))%nat in
  (filter (fun s => s <> []) steps, skipped).

End ramp.
