(* ===== verification/Sessions.v ===== *)
(** * What the pages share ([iem-server/src/solo.rs], [talk.rs], [meters.rs])

    The janitor that clears the solo of a mix nobody looks at any more, the
    talkback lock, and the merge of the engine's meters into what a page shows.
    Instants are milliseconds. *)

From S2P Require Import Prelude F64 Text MixState Msg Wire SiteView BandStore.
From Stdlib Require Import SpecFloat.
From stdpp Require Import options.
Local Open Scope Z_scope.
#[local] Unset Default Proof Using.

(** [now.saturating_duration_since(t)]. *)
Definition since_ms (now t : Z) : Z := Z.max 0 (now - t).

(** ** Solo clean-up *)

Definition SOLO_GRACE : Z := 10000.

Record SoloJanitor := mkSoloJanitor { sj_open : gmap string nat; sj_left : gmap string Z }.
Definition SoloJanitor_default : SoloJanitor := mkSoloJanitor ∅ ∅.

Definition solo_connected (mix : string) (j : SoloJanitor) : SoloJanitor :=
  mkSoloJanitor (<[mix := S (default 0%nat (sj_open j !! mix))]> (sj_open j)) (delete mix (sj_left j)).

Definition solo_disconnected (mix : string) (now : Z) (j : SoloJanitor) : SoloJanitor :=
  match sj_open j !! mix with
  | None => j
  | Some n =>
      let n := Nat.pred n in
      if (n =? 0)%nat then mkSoloJanitor (delete mix (sj_open j)) (<[mix := now]> (sj_left j))
      else mkSoloJanitor (<[mix := n]> (sj_open j)) (sj_left j)
  end.

Definition solo_due (now : Z) (j : SoloJanitor) : SoloJanitor * list string :=
  let due := filter (fun m => match sj_left j !! m with Some t => SOLO_GRACE <=? since_ms now t | None => false end = true) (btree_keys (sj_left j)) in
  (mkSoloJanitor (sj_open j) (foldl (fun l m => delete m l) (sj_left j) due), due).

(** ** The talkback lock *)

Definition TALK_SILENCE : Z := 2000.

Record Held := mkHeld {
  hd_session : Z;
  hd_who : string;
  hd_id : string;
  hd_since : Z;
  hd_bound : bool;
  hd_last_frame : Z;
}.
Definition TalkLock : Type := option Held.

Definition held_silent (now : Z) (h : Held) : bool := TALK_SILENCE <? since_ms now (hd_last_frame h).

(** [Err]: who holds it. *)
Definition talk_acquire (session : Z) (who id : string) (now : Z) (l : TalkLock) : TalkLock * result string string :=
  match l with
  | Some h => if hd_session h =? session then (l, Ok (hd_id h)) else (l, Err (hd_who h))
  | None => (Some (mkHeld session who id now false now), Ok id)
  end.

Definition talk_admit (id : string) (now : Z) (l : TalkLock) : TalkLock * result string Z :=
  match l with
  | None => (l, Err "no lock")
  | Some h =>
      if negb (bool_decide (hd_id h = id)) then (l, Err "wrong id")
      else if hd_bound h then (l, Err "already bound")
      else if held_silent now h then (l, Err "too late")
      else (Some (mkHeld (hd_session h) (hd_who h) (hd_id h) (hd_since h) true now), Ok (hd_session h))
  end.

Definition talk_bind (id : string) (now : Z) (l : TalkLock) : TalkLock * option Z :=
  let '(l, r) := talk_admit id now l in (l, match r with Ok session => Some session | Err _ => None end).

Definition talk_frame (id : string) (now : Z) (l : TalkLock) : TalkLock :=
  match l with
  | Some h =>
      if bool_decide (hd_id h = id) then Some (mkHeld (hd_session h) (hd_who h) (hd_id h) (hd_since h) (hd_bound h) now) else l
  | None => l
  end.

Definition talk_release (session : Z) (l : TalkLock) : TalkLock * bool :=
  match l with
  | Some h => if hd_session h =? session then (None, true) else (l, false)
  | None => (l, false)
  end.

Definition talk_expire (now : Z) (l : TalkLock) : TalkLock * option Z :=
  match l with
  | Some h => if held_silent now h then (None, Some (hd_session h)) else (l, None)
  | None => (l, None)
  end.

Definition talk_is_bound (id : string) (l : TalkLock) : bool :=
  match l with Some h => hd_bound h && bool_decide (hd_id h = id) | None => false end.
Definition talk_holder (l : TalkLock) : option string := hd_who <$> l.

(** ** Meters *)

Definition METER_PERIOD_MS : Z := 100.

Definition Peak2 : Type := f64 * f64.

Record Merged := mkMerged {
  mg_inputs : list Peak2;
  mg_mixes : list Peak2;
  mg_groups : list Peak2;
  mg_active_s : list f64;
  mg_own : list Peak2;
}.
Definition Merged_default : Merged := mkMerged [] [] [] [] [].

Record MeterMerge := mkMeterMerge { mm_cur : Merged; mm_fresh : bool; mm_active_s : list f64 }.
Definition MeterMerge_default : MeterMerge := mkMeterMerge Merged_default false [].

(** The longer list's length; missing peaks are zero. *)
Fixpoint merge_peaks (into from : list Peak2) : list Peak2 :=
  match into, from with
  | [], [] => []
  | a :: into, [] => a :: into
  | [], b :: from => (f64_max f64_0 b.1, f64_max f64_0 b.2) :: merge_peaks [] from
  | a :: into, b :: from => (f64_max a.1 b.1, f64_max a.2 b.2) :: merge_peaks into from
  end.

Definition merge_push (m : Meters) (mm : MeterMerge) : MeterMerge :=
  let cur := mm_cur mm in
  mkMeterMerge
    (mkMerged (merge_peaks (mg_inputs cur) (me_inputs m)) (merge_peaks (mg_mixes cur) (me_mixes m))
       (merge_peaks (mg_groups cur) (me_groups m)) (mg_active_s cur) (merge_peaks (mg_own cur) (me_own m)))
    true (me_limiter_active_s m).

Definition merge_take (mm : MeterMerge) : MeterMerge * option Merged :=
  if negb (mm_fresh mm) then (mm, None)
  else
    let cur := mm_cur mm in
    (mkMeterMerge Merged_default false (mm_active_s mm),
     Some (mkMerged (mg_inputs cur) (mg_mixes cur) (mg_groups cur) (mm_active_s mm) (mg_own cur))).

Definition mix_position (topo : TopologyInfo) (mix : MixId) : option nat := position_by (fun x => bool_decide (mi_id x = mix)) (ti_mixes topo).

(** The pairs of a zip, inserted in order. *)
Definition put_peaks (l : list (string * Peak2)) (m : gmap string Peak2) : gmap string Peak2 := foldl (fun m p => <[p.1 := p.2]> m) m l.

Definition page_meters (m : Merged) (topo : TopologyInfo) (page : Page) (group : option GroupId) : gmap string Peak2 :=
  let out := put_peaks (zip (ii_id <$> ti_inputs topo) (mg_inputs m)) ∅ in
  let out := put_peaks (zip (mi_id <$> ti_mixes topo) (mg_mixes m)) out in
  let mix := mix_position topo (pg_mix page) in
  let peers := match m ← mix; ti_mixes topo !! m with Some x => mi_peers x | None => [] end in
  let out := put_peaks (omap (fun p => v ← (i ← mix_position topo p; mg_own m !! i); Some (p, v)) peers) out in
  let g := g ← group; position_by (fun x => bool_decide (gi_id x = g)) (ti_groups topo) in
  match mix, g, group with
  | Some mix, Some g, Some group =>
      match mg_groups m !! (mix * length (ti_groups topo) + g)%nat with Some v => <[group := v]> out | None => out end
  | _, _, _ => out
  end.

Definition active_seconds (active_s : list f64) (topo : TopologyInfo) (mix : MixId) : f64 :=
  default f64_0 (i ← mix_position topo mix; active_s !! i).
