(* ===== verification/Pages.v ===== *)
(** * The pages' sessions ([iem-server/src/mixer_ws.rs], [console.rs], [lib.rs])

    The state the pages share, what one mixer socket is sent first and after an
    engine event or a change of the band, one UI command, the alerts and the
    console, and the gate in front of the engine ([may_change], [apply],
    [freeze], [thaw]).  The sockets, the tokens and the pushes to phones are left
    out; the band's files are a map, a write is given its outcome. *)

From S2P Require Import Prelude F64 Text MixState Msg Wire Mirror Frame AsyncWire Client LoginGuard Roster Config UiMsg SiteView View BandStore Sessions.
From stdpp Require Import options.
Local Open Scope Z_scope.
#[local] Unset Default Proof Using.

(** Where a UI event goes. *)
Inductive To := ToAll | ToPage (page : string) | ToSession (session : Z).

(** What the server does to the outside. *)
Inductive ServerOut :=
| SoBroadcast (to : To) (msg : ServerMsg)
| SoLineup (l : LineupRef)
| SoCommand (cmd : Cmd) (origin : option Z)
| SoPushEngineers (name member : string).

(** What a site view is built from. *)
Definition SiteCacheKey : Type := string * option (string * string).

Record Server := mkServer {
  sr_config : Config;
  sr_dir : string;
  sr_roster : option RosterState;
  sr_mirror : Mirror;
  sr_connected : bool;
  sr_frozen : bool;
  sr_settling : bool;
  sr_missed : bool;
  sr_active_s : list f64;
  sr_sessions : Z;
  sr_solo : SoloJanitor;
  sr_talk : TalkLock;
  sr_alerts : gmap string (string * string);
  sr_auto : gmap string string;
  sr_files : gmap string FileText;
  sr_login : LoginStats;
  sr_out : list ServerOut;
}.

Definition put_frozen (frozen missed : bool) (s : Server) : Server :=
  mkServer (sr_config s) (sr_dir s) (sr_roster s) (sr_mirror s) (sr_connected s) frozen (sr_settling s) missed (sr_active_s s)
    (sr_sessions s) (sr_solo s) (sr_talk s) (sr_alerts s) (sr_auto s) (sr_files s) (sr_login s) (sr_out s).
Definition put_missed (missed : bool) (s : Server) : Server := put_frozen (sr_frozen s) missed s.
Definition put_shared (solo : SoloJanitor) (talk : TalkLock) (alerts : gmap string (string * string)) (s : Server) : Server :=
  mkServer (sr_config s) (sr_dir s) (sr_roster s) (sr_mirror s) (sr_connected s) (sr_frozen s) (sr_settling s) (sr_missed s) (sr_active_s s)
    (sr_sessions s) solo talk alerts (sr_auto s) (sr_files s) (sr_login s) (sr_out s).
Definition put_solo_janitor (solo : SoloJanitor) (s : Server) : Server := put_shared solo (sr_talk s) (sr_alerts s) s.
Definition put_talk (talk : TalkLock) (s : Server) : Server := put_shared (sr_solo s) talk (sr_alerts s) s.
Definition put_alerts (alerts : gmap string (string * string)) (s : Server) : Server := put_shared (sr_solo s) (sr_talk s) alerts s.
Definition put_files (auto : gmap string string) (files : gmap string FileText) (s : Server) : Server :=
  mkServer (sr_config s) (sr_dir s) (sr_roster s) (sr_mirror s) (sr_connected s) (sr_frozen s) (sr_settling s) (sr_missed s) (sr_active_s s)
    (sr_sessions s) (sr_solo s) (sr_talk s) (sr_alerts s) auto files (sr_login s) (sr_out s).
Definition sr_say (o : list ServerOut) (s : Server) : Server :=
  mkServer (sr_config s) (sr_dir s) (sr_roster s) (sr_mirror s) (sr_connected s) (sr_frozen s) (sr_settling s) (sr_missed s) (sr_active_s s)
    (sr_sessions s) (sr_solo s) (sr_talk s) (sr_alerts s) (sr_auto s) (sr_files s) (sr_login s) (sr_out s ++ o).
Definition next_session (s : Server) : Server * Z :=
  (mkServer (sr_config s) (sr_dir s) (sr_roster s) (sr_mirror s) (sr_connected s) (sr_frozen s) (sr_settling s) (sr_missed s) (sr_active_s s)
    (u64_wrapping_add (sr_sessions s) 1) (sr_solo s) (sr_talk s) (sr_alerts s) (sr_auto s) (sr_files s) (sr_login s) (sr_out s), sr_sessions s).

(** A panic when the roster has neither its active nor a main line-up: the
    state here is one without. *)
Definition sr_lineup (s : Server) : option Lineup := r ← sr_roster s; rs_lineup r.

(** ** The site *)

(** The view over the topology the engine announced; [None] before. *)
Definition site (s : Server) : option SiteView :=
  topo ← mv_topology (sr_mirror s); fst <$> build_with (sr_config s) (sr_roster s) topo.

Definition site_key (roster : option RosterState) (topo : TopologyInfo) : SiteCacheKey :=
  (ti_hash topo, (fun r => (rs_sha256 r, rs_active r)) <$> roster).

(** The same through the cache of the view built last. *)
Definition site_cached (s : Server) (cache : option (SiteCacheKey * SiteView)) : option (SiteCacheKey * SiteView) * option SiteView :=
  match mv_topology (sr_mirror s) with
  | None => (cache, None)
  | Some topo =>
      let key := site_key (sr_roster s) topo in
      match cache with
      | Some (built_for, view) =>
          if bool_decide (built_for = key) then (cache, Some view)
          else match build_with (sr_config s) (sr_roster s) topo with
               | Some (view, _) => (Some (key, view), Some view)
               | None => (cache, None)
               end
      | None =>
          match build_with (sr_config s) (sr_roster s) topo with
          | Some (view, _) => (Some (key, view), Some view)
          | None => (cache, None)
          end
      end
  end.

Definition server_page (s : Server) (id : string) : option Page :=
  match site s with
  | Some view => sv_page view id
  | None =>
      let playing := match sr_roster s with Some r => pair (rs_roster r) <$> rs_lineup r | None => None end in
      (fun m => mkPage (me_id m) (me_name m) (me_mix m) (Some (me_id m)))
      <$> Roster.find (fun m => bool_decide (me_id m = id)) (site_members (sr_config s) playing)
  end.

#[export] Instance Page_eq_dec : EqDecision Page.
Proof. solve_decision. Defined.

(** ** The gate *)

Inductive ChangeError := CeRefused (e : ViewError) | CeEngine.

Definition may_change (s : Server) (page : Page) : result ViewError unit :=
  if sr_frozen s || sr_settling s || negb (bool_decide (server_page s (pg_id page) = Some page)) then Err VeSwitching else Ok tt.

(** Whether a command changes the page's mix for good. *)
Fixpoint changes_mix (mix : MixId) (cmd : Cmd) : bool :=
  match cmd with
  | SetLevel m _ _ _ _ | SetMix m _ _ | SetGroup m _ _ _ | SetLimiter m _ _ => bool_decide (m = mix)
  | SetEq (EqMix m) _ | SetEq (EqGroup m _) _ => bool_decide (m = mix)
  | SetEq (EqInput _) _ => false
  | Batch ops => existsb (changes_mix mix) ops
  | _ => false
  end.

(** The band's store: its files are the server's. *)
Definition band_dir (s : Server) (lineup : option string) : string :=
  match lineup with Some id => sr_dir s +:+ "/lineups/" +:+ id | None => sr_dir s end.
Definition band_of (s : Server) (lineup : option string) : BandStore := mkBandStore (band_dir s lineup) (sr_files s).
Definition band (s : Server) : BandStore := band_of s (lu_id <$> sr_lineup s).

Definition snapshot_key (lineup : option string) (member : string) : string :=
  match lineup with Some l => l +:+ "/" +:+ member | None => member end.

Section pages.
Context `{Serde PresetFile, Serde SnapshotFile, Serde CustomizationFile, UtcDay, ShowF32}.

(** The daily snapshot of the page's mix, before the first change of a day.
    [now]: Unix seconds. *)
Definition auto_snapshot (w : WriteOutcome) (now : Z) (page : Page) (s : Server) : Server :=
  match pg_member page with
  | None => s
  | Some member =>
      let lineup := lu_id <$> sr_lineup s in
      let key := snapshot_key lineup member in
      let today := utc_day now in
      if bool_decide (sr_auto s !! key = Some today) then s
      else
        let b := band_of s lineup in
        let taken s := put_files (<[key := today]> (sr_auto s)) (sr_files s) s in
        match has_auto_snapshot_on b member today with
        | Err _ => s
        | Ok true => taken s
        | Ok false =>
            match site s with
            | None => s
            | Some view =>
                let c := capture view (sr_mirror s) page in
                let '(b, r) := add_snapshot w member
                                 (mkSnapshot now AUTO_LABEL false (cap_sends c) (cap_groups c) (cap_input_eq c) false None) b in
                let s := put_files (sr_auto s) (bs_files b) s in
                match r with Ok _ => taken s | Err _ => s end
            end
        end
  end.

(** Up to the queueing; the callers then wait until the mirror holds each. *)
Definition server_apply (w : WriteOutcome) (now : Z) (page : Page) (cmds : list Cmd) (origin : option Z) (s : Server)
    : Server * result ChangeError unit :=
  match may_change s page with
  | Err e => (s, Err (CeRefused e))
  | Ok _ =>
      let s := if existsb (changes_mix (pg_mix page)) cmds then auto_snapshot w now page s else s in
      if sr_connected s then (sr_say ((fun cmd => SoCommand cmd origin) <$> cmds) s, Ok tt)
      else (s, if bool_decide (cmds = []) then Ok tt else Err CeEngine)
  end.

(** ** The switch's side *)

Definition announce_lineup (s : Server) : Server :=
  match sr_lineup s with Some l => sr_say [SoLineup (mkLineupRef (lu_id l) (lu_name l))] s | None => s end.

Definition thaw_after (changed : bool) (s : Server) : Server :=
  let was := sr_frozen s in
  let missed := sr_missed s in
  let s := put_frozen false false s in
  if was && (changed || missed) then announce_lineup s else s.
Definition thaw : Server -> Server := thaw_after true.
Definition thaw_unchanged : Server -> Server := thaw_after false.

(** [barrier]: the [Ping] came back.  [Ok]: whether it was frozen before. *)
Definition freeze (barrier : bool) (s : Server) : Server * result unit bool :=
  let was := sr_frozen s in
  let s := put_frozen true (sr_missed s) s in
  if barrier then (s, Ok was) else (if was then s else thaw_unchanged s, Err tt).

Definition frozen_for_page (s : Server) : Server * bool :=
  (if sr_frozen s then put_missed true s else s, sr_frozen s).

(** ** What a session sends its page *)

Definition is_person (page : Page) : bool :=
  match pg_member page with Some m => negb (bool_decide (m = ENGINEER_ID)) | None => false end.

Definition full_state (s : Server) (page : Page) (viewer : Viewer) : ServerMsg :=
  match site s with
  | Some view => state_msg view (sr_mirror s) page viewer (sr_connected s)
  | None => SmState [] false None None (Some (pg_mix page)) None None None
  end.

Definition solo_msg (s : Server) (page : Page) (viewer : Viewer) : ServerMsg :=
  let sources := mirror_solo (sr_mirror s) (pg_mix page) in
  SmSoloUpdate match site s with Some view => soloed_seen view viewer sources | None => Source_to_string <$> sources end.

Definition customization_msg (s : Server) (page : Page) : ServerMsg :=
  match pg_member page with
  | Some m =>
      match customization (band s) m with
      | Ok c => SmCustomizationUpdate (Source_to_string <$> cu_pinned c) (Source_to_string <$> cu_hidden c)
      | Err _ => SmCustomizationUpdate [] []
      end
  | None => SmCustomizationUpdate [] []
  end.

(** A member's alert is theirs, under their id. *)
Definition alert_catchup (active : gmap string (string * string)) (page : string) : option ServerMsg :=
  if bool_decide (page = ENGINEER_ID) then
    if bool_decide (active = ∅) then None
    else Some (SmActiveAlerts ((fun p => mkAlertInfo p.2.1 p.2.2) <$> entries active))
  else if bool_decide (is_Some (active !! page)) then Some (SmEngineerAlert page "")
  else None.

Definition lineup_msg (s : Server) : option ServerMsg := (fun l => SmLineupChanged (mkLineupRef (lu_id l) (lu_name l))) <$> sr_lineup s.

Inductive OnLineup := OlClose (told : list ServerMsg) | OlRefresh (msgs : list ServerMsg).

Definition on_lineup (s : Server) (page : Page) (viewer : Viewer) : OnLineup :=
  let told := option_list (lineup_msg s) in
  if is_person page then OlClose told else OlRefresh (told ++ [full_state s page viewer; customization_msg s page]).

Definition opening (s : Server) (page : Page) (viewer : Viewer) : list ServerMsg :=
  option_list (lineup_msg s) ++ [full_state s page viewer; customization_msg s page; solo_msg s page viewer]
  ++ option_list (alert_catchup (sr_alerts s) (pg_id page)).

Definition addressed (to : To) (page : string) (session : Z) : bool :=
  match to with ToAll => true | ToPage p => bool_decide (p = page) | ToSession s => s =? session end.

Definition may_open (sub : string) (engineer : bool) (page : Page) : bool := engineer || bool_decide (pg_member page = Some sub).
Definition proto_ok (proto : Z) : bool := (MIN_CLIENT_PROTO <=? proto) && (proto <=? UI_PROTO).

(** A person's page that hears nothing of the engine now. *)
Definition closing (page : Page) (s : Server) : Server * bool :=
  if is_person page then
    let '(s, frozen) := frozen_for_page s in
    (s, frozen || negb (bool_decide (server_page s (pg_id page) = Some page)))
  else (s, false).

Definition is_channel_update (m : ServerMsg) : bool := match m with SmChannelUpdate _ _ _ _ => true | _ => false end.
Definition is_solo (c : Change) : bool := match c with ChSolo _ _ => true | _ => false end.

(** What a session hears back of its own change. *)
Definition own_echo_seen (view : SiteView) (mv : Mirror) (page : Page) (viewer : Viewer) (changes : list Change) : list ServerMsg :=
  filter (fun m => is_channel_update m = true) (updates_seen view mv page viewer (filter (fun c => is_solo c = true) changes)).

(** *** The console *)

Definition console_input (id : InputId) (name : string) (s : InputState) : ConsoleInput :=
  mkConsoleInput id name (f64_as_f32 (f64_max (i_trim_db s) DB_OFF)) (i_muted s) (i_processing s).

Definition input_updates (view : SiteView) (changes : list Change) : list ServerMsg :=
  omap (fun c => match c with
                 | ChInput id state => (fun i => SmInputUpdate (console_input id (iv_name i) state)) <$> sv_input view id
                 | _ => None
                 end) changes.

Definition server_active (s : Server) (mix : MixId) : f64 :=
  match mv_topology (sr_mirror s) with Some topo => active_seconds (sr_active_s s) topo mix | None => f64_0 end.

Definition console_info (view : SiteView) (s : Server) : ConsoleInfo :=
  mkConsoleInfo
    ((fun i => console_input (iv_id i) (iv_name i) (mirror_input (sr_mirror s) (iv_id i))) <$> sv_inputs view)
    ((fun m => mkConsoleMix (xv_id m) (xv_name m) (server_active s (xv_id m))) <$> sv_mixes view)
    ((fun p => mkPageLink (pg_id p) (pg_name p)) <$> mix_pages view)
    (mkLoginFailures (lan_failures (sr_login s)) (tunnel_failures (sr_login s)) (engineer_budget_trips (sr_login s))).

Definition call_engineer (page : Page) (s : Server) : Server :=
  match pg_member page with
  | None => s
  | Some member =>
      if bool_decide (member = ENGINEER_ID) || bool_decide (is_Some (sr_alerts s !! member)) then s
      else
        sr_say [SoBroadcast (ToPage ENGINEER_ID) (SmEngineerAlert member (pg_name page));
                SoBroadcast (ToPage member) (SmEngineerAlert member "");
                SoPushEngineers (pg_name page) member]
          (put_alerts (<[member := (member, pg_name page)]> (sr_alerts s)) s)
  end.

Definition clear_alert (page : Page) (s : Server) : Server :=
  let '(alerts, cleared) :=
    if bool_decide (pg_id page = ENGINEER_ID) then (∅, btree_keys (sr_alerts s))
    else if bool_decide (is_Some (sr_alerts s !! pg_id page)) then (delete (pg_id page) (sr_alerts s), [pg_id page])
    else (sr_alerts s, []) in
  sr_say (concat ((fun m => [SoBroadcast (ToPage ENGINEER_ID) (SmAlertCleared m); SoBroadcast (ToPage m) (SmAlertCleared m)]) <$> cleared))
    (put_alerts alerts s).

(** *** An engine event *)

Definition engine_event (session : Z) (page : Page) (viewer : Viewer) (ev : EngineEvent) (s : Server) : Server * list ServerMsg :=
  match ev with
  | EeConnected => (s, [SmConnectionChanged true; full_state s page viewer])
  | EeDisconnected => (s, [SmConnectionChanged false])
  | EeReset =>
      let '(s, closing) := closing page s in
      (s, if closing then [] else [full_state s page viewer; solo_msg s page viewer])
  | EeChanged origin changes =>
      let '(s, closing) := closing page s in
      if closing then (s, [])
      else
        match site s with
        | None => (s, [])
        | Some view =>
            (s, (if bool_decide (origin = Some session) then own_echo_seen view (sr_mirror s) page viewer changes
                 else updates_seen view (sr_mirror s) page viewer changes)
                ++ (if vw_engineer viewer then input_updates view changes else []))
        end
  | EeMeters _ | EeStatus _ | EeAlarm _ => (s, [])
  end.

Definition meters_msg (page : Page) (viewer : Viewer) (merged : Merged) (s : Server) : option ServerMsg :=
  view ← site s;
  topo ← mv_topology (sr_mirror s);
  Some (SmMeters (filter (fun p => sv_input view p.1 = None \/ shows_input view viewer p.1 = true)
                    (page_meters merged topo page (sv_group view)))).

(** A mixer socket opens, after its hello, and closes. *)
Definition session_open (page : Page) (viewer : Viewer) (s : Server) : Server * list ServerMsg :=
  let s := put_solo_janitor (solo_connected (pg_mix page) (sr_solo s)) s in (s, opening s page viewer).

Definition session_cleanup (now_ms : Z) (page : Page) (session : Z) (s : Server) : Server :=
  let s := put_solo_janitor (solo_disconnected (pg_mix page) now_ms (sr_solo s)) s in
  let '(talk, released) := talk_release session (sr_talk s) in
  let s := put_talk talk s in
  if released then sr_say [SoBroadcast ToAll (SmEngineerTalking false)] s else s.

(** *** A UI command *)

(** The channels among the ids, with their sources. *)
Definition known_ids (view : SiteView) (page : Page) (ids : list string) : list (string * Source) :=
  omap (fun id => pair id <$> view_source view page id) ids.

(** [talk_id]: a fresh one.  The messages go to the session itself. *)
Definition handle (w : WriteOutcome) (now now_ms : Z) (talk_id : string) (session : Z) (page : Page) (viewer : Viewer) (msg : UiCmd)
    (s : Server) : Server * list ServerMsg :=
  match msg with
  | UiUpdateCustomization pinned hidden =>
      match pg_member page, site s with
      | Some member, Some view =>
          let pinned := known_ids view page pinned in
          let hidden := known_ids view page hidden in
          match may_change s page with
          | Err _ => (s, [])
          | Ok _ =>
              let '(b, r) := save_customization w member pinned.*2 hidden.*2 (band s) in
              let s := put_files (sr_auto s) (bs_files b) s in
              match r with
              | Err _ => (s, [])
              | Ok _ => (sr_say [SoBroadcast (ToPage (pg_id page)) (SmCustomizationUpdate pinned.*1 hidden.*1)] s, [])
              end
          end
      | _, _ => (s, [])
      end
  | UiGetEqParams target =>
      match site s with
      | None => (s, [])
      | Some view => (s, match eq_params_msg view (sr_mirror s) page viewer target with Ok m => [m] | Err _ => [] end)
      end
  | UiGetLimiterParams => (s, [limiter_msg (sr_mirror s) page (server_active s (pg_mix page))])
  | UiGetConsole =>
      match site s with
      | Some view => (s, if vw_engineer viewer then [SmConsole (console_info view s)] else [])
      | None => (s, [])
      end
  | UiCallEngineer => (call_engineer page s, [])
  | UiClearAlert => (clear_alert page s, [])
  | UiTalkStart =>
      if negb (vw_engineer viewer) then (s, [])
      else
        let '(talk, got) := talk_acquire session (vw_sub viewer) talk_id now_ms (sr_talk s) in
        let s := put_talk talk s in
        match got with
        | Ok id => (sr_say [SoBroadcast ToAll (SmEngineerTalking true)] s, [SmTalkAcquired id])
        | Err holder => (s, [SmTalkBusy holder])
        end
  | UiTalkStop =>
      let '(talk, released) := talk_release session (sr_talk s) in
      let s := put_talk talk s in
      if released then (sr_say [SoBroadcast ToAll (SmEngineerTalking false)] s, [SmTalkReleased]) else (s, [])
  | UiListenStart _ | UiListenStop => (s, [])
  | _ =>
      match site s with
      | None => (s, [])
      | Some view =>
          match command view (sr_mirror s) page viewer msg with
          | Ok cmds => ((server_apply w now page cmds (Some session) s).1, [])
          | Err _ => (s, [])
          end
      end
  end.

(** The janitor every [JANITOR_PERIOD]: the solos to clear and the lock. *)
Definition JANITOR_PERIOD : Z := 250.
Definition janitor (now_ms : Z) (s : Server) : Server :=
  let '(solo, due) := solo_due now_ms (sr_solo s) in
  let s := put_solo_janitor solo s in
  let clear := filter (fun mix => mirror_solo (sr_mirror s) mix <> []) due in
  let s := sr_say (if sr_connected s then (fun mix => SoCommand (SetSolo mix []) None) <$> clear else []) s in
  let '(talk, expired) := talk_expire now_ms (sr_talk s) in
  let s := put_talk talk s in
  match expired with
  | Some session => sr_say [SoBroadcast (ToSession session) SmTalkReleased; SoBroadcast ToAll (SmEngineerTalking false)] s
  | None => s
  end.

End pages.
