(* ===== verification/Lineups.v ===== *)
(** * The line-ups' states and their rules ([iem-core/src/backup.rs],
    [iem-server/src/lineup_store.rs], [backup.rs], [roster_watch.rs])

    What a line-up's stored state holds, what the running state follows, and the
    pure rules that carry both over to another roster: a person's mix goes along
    to their new set, a set nobody wears is silent, only a leader hears another
    person's mix.  A [BTreeSet] is a [gset]; [==] of two states compares their
    numbers as IEEE 754 does. *)

From S2P Require Import Prelude F64 Text MixState Msg Shape Codec Mirror Roster Config UiMsg SiteView View BandStore.
From stdpp Require Import options.
Local Open Scope Z_scope.
#[local] Unset Default Proof Using.

(** ** A backup *)

Definition BACKUP_FORMAT : string := "iemmixer-backup".
Definition BACKUP_VERSION : Z := 2.

(** [mb_lineups]: the entries of a map, in order. *)
Inductive MixerBackup := mkMixerBackup {
  mb_format : string;
  mb_version : Z;
  mb_timestamp : string;
  mb_rev : Z;
  mb_state : MixState;
  mb_customizations : gmap string CustomizationFile;
  mb_lineup : option string;
  mb_lineups : list (string * MixerBackup);
  mb_follows : option string;
  mb_silenced : gset string;
}.

Inductive BackupError := BeJson (e : string) | BeFormat (format : string) | BeVersion (version : Z).

Definition BackupError_text (e : BackupError) : string :=
  match e with
  | BeJson e => "not JSON: " +:+ e
  | BeFormat format => "not an iemmixer backup (format " +:+ debug_str format +:+ ")"
  | BeVersion v => "backup version " +:+ dec v +:+ " is not supported (this server reads version " +:+ dec BACKUP_VERSION +:+ ")"
  end.

Definition MixerBackup_new (timestamp : string) (rev : Z) (state : MixState) : MixerBackup :=
  mkMixerBackup BACKUP_FORMAT BACKUP_VERSION timestamp rev state ∅ None [] None ∅.

(** The two fields read first. *)
Record BackupHead := mkBackupHead { hd_format : string; hd_version : Z }.

Definition MixerBackup_parse `{Serde BackupHead} `{Serde MixerBackup} (text : string) : result BackupError MixerBackup :=
  match of_json (F := BackupHead) text with
  | Err e => Err (BeJson e)
  | Ok head =>
      if negb (bool_decide (hd_format head = BACKUP_FORMAT)) then Err (BeFormat (hd_format head))
      else if negb (hd_version head =? BACKUP_VERSION) then Err (BeVersion (hd_version head))
      else match of_json (F := MixerBackup) text with Ok b => Ok b | Err e => Err (BeJson e) end
  end.

(** Levels stored across every mix. *)
Definition level_count (b : MixerBackup) : nat :=
  sum_list ((fun p : MixId * Mix => size (m_inputs p.2) + size (m_mixes p.2))%nat <$> map_to_list (s_mixes (mb_state b))).

Definition put_state (state : MixState) (silenced : gset string) (follows : option string) (b : MixerBackup) : MixerBackup :=
  mkMixerBackup (mb_format b) (mb_version b) (mb_timestamp b) (mb_rev b) state (mb_customizations b) (mb_lineup b) (mb_lineups b)
    follows silenced.
Definition put_customizations (c : gmap string CustomizationFile) (b : MixerBackup) : MixerBackup :=
  mkMixerBackup (mb_format b) (mb_version b) (mb_timestamp b) (mb_rev b) (mb_state b) c (mb_lineup b) (mb_lineups b)
    (mb_follows b) (mb_silenced b).
Definition put_lineup (lineup : option string) (b : MixerBackup) : MixerBackup :=
  mkMixerBackup (mb_format b) (mb_version b) (mb_timestamp b) (mb_rev b) (mb_state b) (mb_customizations b) lineup (mb_lineups b)
    (mb_follows b) (mb_silenced b).

(** *** [==] *)

Definition map_eqb {V : Type} (eqb : V -> V -> bool) (m1 m2 : gmap string V) : bool :=
  (size m1 =? size m2)%nat
  && forallb (fun p : string * V => match m2 !! p.1 with Some v => eqb p.2 v | None => false end) (map_to_list m1).

Definition Mix_eqb (a b : Mix) : bool :=
  MixOut_eqb (m_out a) (m_out b) && map_eqb Level_eqb (m_inputs a) (m_inputs b)
  && map_eqb MixGroup_eqb (m_groups a) (m_groups b) && map_eqb Level_eqb (m_mixes a) (m_mixes b).

Definition MixState_eqb (a b : MixState) : bool :=
  map_eqb InputState_eqb (s_inputs a) (s_inputs b) && map_eqb Mix_eqb (s_mixes a) (s_mixes b).

#[export] Instance CustomizationFile_eq_dec : EqDecision CustomizationFile.
Proof. solve_decision. Defined.

Fixpoint MixerBackup_eqb (a b : MixerBackup) : bool :=
  bool_decide (mb_format a = mb_format b) && (mb_version a =? mb_version b) && bool_decide (mb_timestamp a = mb_timestamp b)
  && (mb_rev a =? mb_rev b) && MixState_eqb (mb_state a) (mb_state b)
  && bool_decide (mb_customizations a = mb_customizations b) && bool_decide (mb_lineup a = mb_lineup b)
  && (fix lineups_eqb (l1 l2 : list (string * MixerBackup)) : bool :=
        match l1, l2 with
        | [], [] => true
        | (k, x) :: l1, (k', y) :: l2 => bool_decide (k = k') && MixerBackup_eqb x y && lineups_eqb l1 l2
        | _, _ => false
        end) (mb_lineups a) (mb_lineups b)
  && bool_decide (mb_follows a = mb_follows b) && bool_decide (mb_silenced a = mb_silenced b).

(** *** Taking one, and what one lacks *)

Definition StoreError_text (e : StoreError) : string :=
  match e with
  | SeIo e => e
  | SeCorrupt path e => path +:+ " is not a band schema-3 file: " +:+ e
  | SeFull => "maximum " +:+ dec (Z.of_nat MAX_PRESETS) +:+ " presets reached"
  | SeArchived => "archived entries are read-only"
  | SeBadMember e => "member id: " +:+ e
  end.

Definition backup_capture `{Serde CustomizationFile} (view : SiteView) (mv : Mirror) (store : BandStore) (timestamp : string)
    : result string MixerBackup :=
  c ← foldM (fun acc m =>
         match customization store (me_id m) with
         | Ok c => Ok (<[me_id m := c]> acc)
         | Err e => Err ("the pins and hides of " +:+ me_id m +:+ " are unreadable: " +:+ StoreError_text e)
         end) ∅ (sv_members view);
  Ok (put_customizations c (MixerBackup_new timestamp (mv_rev mv) (mv_state mv))).

Definition keep_mix (mix cur : Mix) : Mix :=
  mkMix (m_out mix) (m_inputs mix ∪ m_inputs cur) (m_groups mix ∪ m_groups cur) (m_mixes mix ∪ m_mixes cur).

(** The backup's state with what it lacks taken from the running one. *)
Definition keep_running (backup current : MixState) : MixState :=
  mkMixState (s_inputs backup ∪ s_inputs current)
    (union_with (fun mix cur => Some (keep_mix mix cur)) (s_mixes backup) (s_mixes current)).

(** ** What the running state follows *)

Record SwitchIntent := mkSwitchIntent { si_from : string; si_to : string }.

Record Pending := mkPending { pd_follows : string; pd_silenced : gset string; pd_digest : string }.

Record Running := mkRunning {
  rn_lineup : string;
  rn_follows : option string;
  rn_silenced : gset string;
  rn_pending : option Pending;
}.

Record ActiveFile := mkActiveFile { af_format : string; af_lineup : string; af_since : Z }.

(** With its pending import settled: it went in when the engine holds the state
    it sent. *)
Definition resolved (running : Running) (held : string) : Running :=
  match rn_pending running with
  | Some p =>
      if bool_decide (pd_digest p = held) then mkRunning (rn_lineup running) (Some (pd_follows p)) (pd_silenced p) None
      else mkRunning (rn_lineup running) (rn_follows running) (rn_silenced running) None
  | None => running
  end.

Definition sha256_hex `{Sha256} (bytes : string) : string := hex (sha256 bytes).

Definition state_digest `{Sha256} `{Serde MixState} (state : MixState) : string := sha256_hex (to_json state).

(** ** A roster in place of another *)

(** The people of [new] that [old] lacks, and those of [old] that [new] lacks. *)
Definition missing_people (from other : Roster) : list string :=
  pe_id <$> filter (fun p => roster_person other (pe_id p) = None) (ro_people from).
Definition people_diff (old new : Roster) : list string * list string := (missing_people new old, missing_people old new).

Definition removes_everyone (old new : Roster) : bool :=
  negb (bool_decide (ro_people old = [])) && forallb (fun p => bool_decide (roster_person new (pe_id p) = None)) (ro_people old).

(** Who wears another set: from which to which. *)
Definition lineup_moves (before after : Lineup) : list (string * string) :=
  omap (fun p : string * string =>
          from ← lineup_set_of before p.2; if decide (from = p.1) then None else Some (from, p.1))
    (entries (lu_sets after)).

Definition moves (old new : Roster) (lineup : string) : list (string * string) :=
  match roster_lineup old lineup, roster_lineup new lineup with
  | Some before, Some after => lineup_moves before after
  | _, _ => []
  end.

(** A mix as it arrives on set [to], coming from [from]. *)
Definition moved_mix (from to : MixId) (mix : Mix) : Mix :=
  match m_mixes mix !! to with
  | Some heard => mkMix (m_out mix) (m_inputs mix) (m_groups mix) (<[from := heard]> (delete to (m_mixes mix)))
  | None => mix
  end.

(** Every move copies from the mixes as they were before any. *)
Definition apply_moves (moves : list (string * string)) (state : MixState) : MixState :=
  let before := s_mixes state in
  mkMixState (s_inputs state)
    (foldl (fun mixes '(from, to) =>
              match before !! from with Some mix => <[to := moved_mix from to mix]> mixes | None => mixes end)
       before moves).

Definition move_silenced (moves : list (string * string)) (silenced : gset string) : gset string :=
  foldl (fun acc '(from, to) => if decide (from ∈ silenced) then acc ∪ {[to]} else acc ∖ {[to]}) silenced moves.

(** *** A line-up's rules *)

Definition set_muted (muted : bool) (x : Mix) : Mix :=
  mkMix (mkMixOut (o_volume_db (m_out x)) muted (o_eq (m_out x)) (o_limiter (m_out x))) (m_inputs x) (m_groups x) (m_mixes x).
Definition mute_heard (x : Mix) : Mix :=
  mkMix (m_out x) (m_inputs x) (m_groups x) ((fun l => mkLevel (lv_gain_db l) (lv_pan l) true) <$> m_mixes x).

(** One set's mix, and whether the rules have silenced it. *)
Definition fit_mix (lineup : Lineup) (set : string) (silenced : bool) (mix : Mix) : Mix * bool :=
  match person_on lineup set with
  | None => if o_muted (m_out mix) then (mix, silenced) else (set_muted true mix, true)
  | Some person =>
      let mix := if silenced then set_muted false mix else mix in
      (if leads lineup person then mix else mute_heard mix, false)
  end.

Definition fit_set (lineup : Lineup) (acc : MixState * gset string) (set : string) : MixState * gset string :=
  let '(state, silenced) := acc in
  match s_mixes state !! set with
  | None => (state, silenced)
  | Some mix =>
      let '(mix, s) := fit_mix lineup set (bool_decide (set ∈ silenced)) mix in
      (mkMixState (s_inputs state) (<[set := mix]> (s_mixes state)),
       if s then silenced ∪ {[set]} else silenced ∖ {[set]})
  end.

(** Over the sets in any order: each touches its own mix only. *)
Definition fit_sets (sets : gset string) (lineup : Lineup) (acc : MixState * gset string) : MixState * gset string :=
  foldl (fit_set lineup) acc (elements sets).

Definition roster_sets (r : Roster) : gset string := ⋃ ((fun l => dom (lu_sets l)) <$> ro_lineups r).

Definition fit_recorded (r : Roster) (lineup : Lineup) : MixState * gset string -> MixState * gset string :=
  fit_sets (roster_sets r) lineup.

(** The state the engine takes when [lineup] starts to play. *)
Definition target_state_recorded (target : option MixState) (current : MixState) (r : Roster) (lineup : Lineup) (silenced : gset string)
    : MixState * gset string :=
  let state := match target with Some stored => keep_running stored current | None => current end in
  fit_recorded r lineup (state, silenced).

(** *** The solos a change of wearers ends *)

Definition soloed_changing (t : Transient) (before after : Lineup) : list MixId :=
  solo_mix <$> filter (fun s => solo_sources s <> [] /\ person_on before (solo_mix s) <> person_on after (solo_mix s)) (t_solo t).
Definition every_solo (t : Transient) : list MixId := solo_mix <$> filter (fun s => solo_sources s <> []) (t_solo t).

(** *** The rosters the states may follow *)

Record Base := mkBase { ba_roster : Roster; ba_sha256 : string }.

Record Follows := mkFollows { fo_known : list Base; fo_unmarked : option Base }.

Definition known_base (f : Follows) (sha : string) : option Base := find (fun b => bool_decide (ba_sha256 b = sha)) (fo_known f).

Definition base_of (f : Follows) (marker : option string) (new_sha : string) : option Roster :=
  match marker with
  | Some sha => if decide (sha = new_sha) then None else ba_roster <$> known_base f sha
  | None => ba_roster <$> fo_unmarked f
  end.

Definition follows_sets (f : Follows) : gset string :=
  ⋃ ((fun b => roster_sets (ba_roster b)) <$> fo_known f ++ option_list (fo_unmarked f)).

(** A state and its record made to follow [new]. *)
Definition follow (from : option Roster) (new : Roster) (sets : gset string) (lineup : Lineup) (topology : option TopologyInfo)
    (acc : MixState * gset string) : MixState * gset string :=
  let '(state, silenced) := acc in
  let shift := match from with Some f => moves f new (lu_id lineup) | None => [] end in
  let state := apply_moves shift state in
  let silenced := move_silenced shift silenced in
  let state := match topology with Some t => (reconcile t state).1 | None => state end in
  fit_sets sets lineup (state, silenced).
