(* ===== verification/LineupSpec.v ===== *)
(** * A line-up's rules and a person's mix

    [moves], [apply_moves] and [fit_sets] set by set: a person's mix goes along
    to their new set, what the rules mute and what they give back. *)

From S2P Require Import Prelude F64 Text MixState Msg Shape Codec Mirror Roster RosterSpec Config UiMsg SiteView View BandStore Lineups.
From stdpp Require Import options.
Local Open Scope Z_scope.
#[local] Unset Default Proof Using.

(** ** Moves, set by set *)

(** Which set's mix a set takes: its wearer's of before. *)
Definition source_of (before after : Lineup) (set : string) : option string :=
  p ← lu_sets after !! set; from ← lineup_set_of before p; if decide (from = set) then None else Some from.

Lemma omap_keys_nodup {A B : Type} (f : string * A -> option (B * string)) (l : list (string * A)) :
  (forall k a y, f (k, a) = Some y -> y.2 = k) -> NoDup l.*1 -> NoDup (omap f l).*2.
Proof.
  intros Hf. induction l as [|[k a] l IH]; cbn; [constructor|]. intros [Hk Hnd]%NoDup_cons.
  destruct (f (k, a)) as [[b k']|] eqn:Hfk; cbn; [|by apply IH]. pose proof (Hf _ _ _ Hfk) as Hk'. cbn in Hk'. subst k'.
  constructor; [|by apply IH]. intros ([b' k2] & Heq & Hin)%list_elem_of_fmap. cbn in Heq. subst k2.
  apply list_elem_of_omap in Hin as ([k3 a3] & Hin & Hf3). pose proof (Hf _ _ _ Hf3) as Hk3. cbn in Hk3. subst k3.
  apply Hk. apply list_elem_of_fmap. by exists (k, a3).
Qed.

Lemma moves_targets before after : NoDup (lineup_moves before after).*2.
Proof.
  unfold lineup_moves. apply omap_keys_nodup.
  - intros k p y Hy. cbn in Hy. destruct (lineup_set_of before p); cbn in Hy; [|done]. case_decide; by simplify_eq/=.
  - rewrite entries_keys. apply NoDup_btree_keys.
Qed.

Lemma elem_of_moves before after a b : (a, b) ∈ lineup_moves before after <-> source_of before after b = Some a.
Proof.
  unfold lineup_moves, source_of. rewrite list_elem_of_omap. split.
  - intros ([k p] & Hin%elem_of_entries & Hf). cbn in Hf. destruct (lineup_set_of before p) as [from|] eqn:Hp; cbn in Hf; [|done].
    case_decide; [done|]. simplify_eq/=. rewrite Hin. cbn. rewrite Hp. cbn. by rewrite decide_False.
  - destruct (lu_sets after !! b) as [p|] eqn:Hb; cbn; [|done]. destruct (lineup_set_of before p) as [from|] eqn:Hp; cbn; [|done].
    case_decide; [done|]. intros [= ->]. exists (b, p). split; [by apply elem_of_entries|]. cbn. rewrite Hp. cbn. by rewrite decide_False.
Qed.

Lemma foldl_same {A B : Type} (f g : A -> B -> A) (l : list B) (a : A) : (forall a b, f a b = g a b) -> foldl f a l = foldl g a l.
Proof. intros Hfg. revert a. induction l as [|b l IH]; intros a; cbn; [done|]. by rewrite Hfg. Qed.

(** A fold of writes to distinct keys, at a key. *)
Lemma foldl_moves_lookup {V : Type} (f : string -> string -> option V) (l : list (string * string)) (m : gmap string V) set :
  NoDup l.*2 ->
  foldl (fun acc '(from, to) => match f from to with Some x => <[to := x]> acc | None => acc end) m l !! set
  = match (list_find (fun p : string * string => p.2 = set) l) with
    | Some (_, (from, _)) => match f from set with Some x => Some x | None => m !! set end
    | None => m !! set
    end.
Proof.
  revert m. induction l as [|[a b] l IH]; intros m Hnd; cbn; [done|]. apply NoDup_cons in Hnd as [Hb Hnd]. rewrite IH by done.
  destruct (decide (b = set)) as [->|Hne].
  - destruct (list_find _ l) as [[i [a' b']]|] eqn:Hf; cbn.
    + apply list_find_Some in Hf as (Hi & Hp & _). cbn in Hp. subst b'. destruct Hb. apply list_elem_of_fmap.
      exists (a', set). split; [done|]. by eapply list_elem_of_lookup_2.
    + destruct (f a set); [by rewrite lookup_insert_eq|done].
  - destruct (list_find _ l) as [[i [a' b']]|] eqn:Hf; cbn.
    + destruct (f a b); [by rewrite lookup_insert_ne|done].
    + destruct (f a b); [by rewrite lookup_insert_ne|done].
Qed.

Lemma find_move before after set :
  match list_find (fun p : string * string => p.2 = set) (lineup_moves before after) with
  | Some (_, (from, _)) => source_of before after set = Some from
  | None => source_of before after set = None
  end.
Proof.
  destruct (list_find _ _) as [[i [a b]]|] eqn:Hf.
  - apply list_find_Some in Hf as (Hi & Hp & _). cbn in Hp. subst b. apply elem_of_moves. by eapply list_elem_of_lookup_2.
  - destruct (source_of before after set) as [a|] eqn:Hs; [|done]. apply elem_of_moves in Hs.
    apply list_find_None in Hf. rewrite Forall_forall in Hf. by destruct (Hf _ Hs).
Qed.

(** The mix a set has after the moves. *)
Definition arriving (before after : Lineup) (s : MixState) (set : string) : option Mix :=
  match source_of before after set with
  | Some from => match s_mixes s !! from with Some mix => Some (moved_mix from set mix) | None => s_mixes s !! set end
  | None => s_mixes s !! set
  end.

Lemma apply_moves_lookup before after s set :
  s_mixes (apply_moves (lineup_moves before after) s) !! set = arriving before after s set.
Proof.
  unfold apply_moves. cbn -[lineup_moves].
  replace (foldl _ (s_mixes s) (lineup_moves before after)) with
    (foldl (fun acc '(from, to) => match (fun from to => moved_mix from to <$> s_mixes s !! from) from to with
                                   | Some x => <[to := x]> acc | None => acc end) (s_mixes s) (lineup_moves before after)).
  2:{ apply foldl_same. intros acc [a b]. by destruct (s_mixes s !! a). }
  rewrite (foldl_moves_lookup (fun from to => moved_mix from to <$> s_mixes s !! from)) by apply moves_targets.
  pose proof (find_move before after set) as Hf. unfold arriving.
  destruct (list_find _ _) as [[i [a b]]|]; rewrite Hf; [|done]. by destruct (s_mixes s !! a).
Qed.

(** Whether the rules had silenced what a set has after the moves. *)
Definition arriving_silenced (before after : Lineup) (silenced : gset string) (set : string) : bool :=
  bool_decide (default set (source_of before after set) ∈ silenced).

Lemma foldl_silenced_elem (silenced : gset string) (l : list (string * string)) (acc : gset string) set :
  NoDup l.*2 ->
  set ∈ foldl (fun acc '(from, to) => if decide (from ∈ silenced) then acc ∪ {[to]} else acc ∖ {[to]}) acc l
  <-> match list_find (fun p : string * string => p.2 = set) l with
      | Some (_, (from, _)) => from ∈ silenced
      | None => set ∈ acc
      end.
Proof.
  revert acc. induction l as [|[a b] l IH]; intros acc Hnd; cbn; [done|]. apply NoDup_cons in Hnd as [Hb Hnd]. rewrite IH by done.
  destruct (decide (b = set)) as [->|Hne].
  - destruct (list_find _ l) as [[i [a' b']]|] eqn:Hf; cbn.
    + apply list_find_Some in Hf as (Hi & Hp & _). cbn in Hp. subst b'. destruct Hb. apply list_elem_of_fmap.
      exists (a', set). split; [done|]. by eapply list_elem_of_lookup_2.
    + case_decide; set_solver.
  - destruct (list_find _ l) as [[i [a' b']]|] eqn:Hf; cbn; [done|]. case_decide; set_solver.
Qed.

Lemma move_silenced_elem before after silenced set :
  set ∈ move_silenced (lineup_moves before after) silenced <-> arriving_silenced before after silenced set = true.
Proof.
  unfold move_silenced, arriving_silenced. rewrite foldl_silenced_elem by apply moves_targets.
  pose proof (find_move before after set) as Hf. rewrite bool_decide_eq_true.
  destruct (list_find _ _) as [[i [a b]]|]; by rewrite Hf.
Qed.

(** ** The rules, set by set *)

Definition fitted (lineup : Lineup) (acc : MixState * gset string) (set : string) : option (Mix * bool) :=
  fit_mix lineup set (bool_decide (set ∈ acc.2)) <$> s_mixes acc.1 !! set.

Lemma fit_set_other lineup acc a set :
  a <> set -> s_mixes (fit_set lineup acc a).1 !! set = s_mixes acc.1 !! set /\ (set ∈ (fit_set lineup acc a).2 <-> set ∈ acc.2).
Proof.
  intros Hne. destruct acc as [s sil]. unfold fit_set. destruct (s_mixes s !! a) as [x|]; [|done].
  destruct (fit_mix lineup a _ x) as [y b]. cbn. rewrite lookup_insert_ne by done. split; [done|]. destruct b; set_solver.
Qed.

Lemma fit_set_own lineup acc set :
  match fitted lineup acc set with
  | Some (y, b) => s_mixes (fit_set lineup acc set).1 !! set = Some y /\ (set ∈ (fit_set lineup acc set).2 <-> b = true)
  | None => fit_set lineup acc set = acc /\ s_mixes acc.1 !! set = None
  end.
Proof.
  destruct acc as [s sil]. unfold fitted, fit_set. cbn [fst snd]. destruct (s_mixes s !! set) as [x|] eqn:Hx; cbn [fmap option_fmap option_map]; [|done].
  destruct (fit_mix lineup set _ x) as [y b]. cbn. rewrite lookup_insert_eq. split; [done|]. destruct b; set_solver.
Qed.

Lemma fit_set_inputs lineup acc set : s_inputs (fit_set lineup acc set).1 = s_inputs acc.1.
Proof. destruct acc as [s sil]. unfold fit_set. destruct (s_mixes s !! set); [|done]. by destruct (fit_mix _ _ _ _). Qed.

Lemma foldl_fit_lookup lineup l acc set :
  NoDup l ->
  let acc' := foldl (fit_set lineup) acc l in
  match (if decide (set ∈ l) then fitted lineup acc set else None) with
  | Some (y, b) => s_mixes acc'.1 !! set = Some y /\ (set ∈ acc'.2 <-> b = true)
  | None => s_mixes acc'.1 !! set = s_mixes acc.1 !! set /\ (set ∈ acc'.2 <-> set ∈ acc.2)
  end.
Proof.
  cbv zeta. revert acc. induction l as [|a l IH]; intros acc Hnd.
  { rewrite decide_False; [done|]. apply not_elem_of_nil. }
  apply NoDup_cons in Hnd as [Ha Hnd]. cbn [foldl]. specialize (IH (fit_set lineup acc a) Hnd).
  destruct (decide (a = set)) as [->|Hne].
  - rewrite decide_True by by left. rewrite decide_False in IH by done. destruct IH as [IH1 IH2].
    pose proof (fit_set_own lineup acc set) as Ho. destruct (fitted lineup acc set) as [[y b]|].
    + rewrite IH1, IH2. done.
    + rewrite IH1, IH2. by destruct Ho as [-> _].
  - destruct (fit_set_other lineup acc a set Hne) as [H1 H2].
    assert (Hf : fitted lineup (fit_set lineup acc a) set = fitted lineup acc set).
    { unfold fitted. rewrite H1. by rewrite (bool_decide_ext _ _ H2). }
    rewrite Hf in IH. destruct (decide (set ∈ l)) as [Hin|Hin].
    + rewrite decide_True by by right. destruct (fitted lineup acc set) as [[y b]|]; [done|]. by rewrite <-H1, <-H2.
    + rewrite decide_False; [by rewrite <-H1, <-H2|]. intros [?|?]%elem_of_cons; [by subst|done].
Qed.

Lemma fit_sets_lookup sets lineup acc set :
  let acc' := fit_sets sets lineup acc in
  match (if decide (set ∈ sets) then fitted lineup acc set else None) with
  | Some (y, b) => s_mixes acc'.1 !! set = Some y /\ (set ∈ acc'.2 <-> b = true)
  | None => s_mixes acc'.1 !! set = s_mixes acc.1 !! set /\ (set ∈ acc'.2 <-> set ∈ acc.2)
  end.
Proof.
  pose proof (foldl_fit_lookup lineup (elements sets) acc set (NoDup_elements sets)) as Hl. cbv zeta in *. unfold fit_sets.
  destruct (decide (set ∈ sets)) as [Hin|Hin].
  - by rewrite decide_True in Hl by by apply elem_of_elements.
  - by rewrite decide_False in Hl by by rewrite elem_of_elements.
Qed.

Lemma fit_sets_inputs sets lineup acc : s_inputs (fit_sets sets lineup acc).1 = s_inputs acc.1.
Proof.
  unfold fit_sets. generalize (elements sets). intros l. revert acc.
  induction l as [|a l IH]; intros acc; cbn; [done|]. by rewrite IH, fit_set_inputs.
Qed.

(** ** What the rules promise *)

Definition same_but_mutes (x y : Mix) : Prop :=
  o_volume_db (m_out y) = o_volume_db (m_out x) /\ o_eq (m_out y) = o_eq (m_out x) /\ o_limiter (m_out y) = o_limiter (m_out x)
  /\ m_inputs y = m_inputs x /\ m_groups y = m_groups x
  /\ forall m, (fun l => (lv_gain_db l, lv_pan l)) <$> m_mixes y !! m = (fun l => (lv_gain_db l, lv_pan l)) <$> m_mixes x !! m.

(** What a line-up's rules make of a set's mix; [silenced]: they had muted it. *)
Record follows_rules (lineup : Lineup) (set : string) (silenced : bool) (x y : Mix) (silenced' : bool) : Prop := {
  fr_same : same_but_mutes x y;
  fr_vacant : person_on lineup set = None -> o_muted (m_out y) = true /\ m_mixes y = m_mixes x;
  fr_worn : forall p, person_on lineup set = Some p -> o_muted (m_out y) = if silenced then false else o_muted (m_out x);
  fr_leader : forall p, person_on lineup set = Some p -> leads lineup p = true -> m_mixes y = m_mixes x;
  fr_alone : forall p m l, person_on lineup set = Some p -> leads lineup p = false -> m_mixes y !! m = Some l -> lv_muted l = true;
  fr_record : silenced' = true <-> person_on lineup set = None /\ (silenced = true \/ o_muted (m_out x) = false);
}.

Lemma fit_mix_rules lineup set silenced x :
  follows_rules lineup set silenced x (fit_mix lineup set silenced x).1 (fit_mix lineup set silenced x).2.
Proof.
  unfold fit_mix. destruct (person_on lineup set) as [p|] eqn:Hp.
  - split; cbn [fst snd].
    + unfold same_but_mutes. destruct silenced, (leads lineup p); cbn; split_and!; try done; intros m; rewrite ?lookup_fmap;
        by destruct (m_mixes x !! m).
    + congruence.
    + intros q _. by destruct silenced, (leads lineup p).
    + intros q Hq Hl. assert (q = p) as -> by congruence. rewrite Hl. by destruct silenced.
    + intros q m l Hq Hl Hm. assert (q = p) as -> by congruence. rewrite Hl in Hm.
      destruct silenced; cbn in Hm; rewrite lookup_fmap in Hm; destruct (m_mixes x !! m); by simplify_eq/=.
    + split; [done|]. intros [? _]. congruence.
  - destruct (o_muted (m_out x)) eqn:Hm; (split; cbn [fst snd]; [by unfold same_but_mutes; split_and!|by intros _; split; cbn|congruence|congruence|congruence|]).
    + split; [by intros ->; auto|]. intros [_ [?|?]]; congruence.
    + split; [by auto|done].
Qed.

(** The rules on what they made. *)
Lemma fit_mix_again lineup set silenced x :
  let '(y, b) := fit_mix lineup set silenced x in fit_mix lineup set b y = (y, b).
Proof.
  unfold fit_mix. destruct (person_on lineup set) as [p|].
  - destruct (leads lineup p); [done|]. f_equal. unfold mute_heard. cbn. f_equal. rewrite <-map_fmap_compose. by apply map_fmap_ext.
  - destruct (o_muted (m_out x)) eqn:Hm; [by rewrite Hm|done].
Qed.

Lemma acc_eq (a b : MixState * gset string) :
  s_inputs a.1 = s_inputs b.1 ->
  (forall set, s_mixes a.1 !! set = s_mixes b.1 !! set /\ (set ∈ a.2 <-> set ∈ b.2)) -> a = b.
Proof.
  intros Hi Hs. destruct a as [[ia ma] sa], b as [[ib mb] sb]. cbn in *. subst ib.
  assert (ma = mb) as -> by (apply map_eq; intros set; apply Hs).
  assert (sa = sb) as -> by (apply set_eq; intros set; apply Hs). done.
Qed.

(** The rules on one set of many. *)
Lemma fit_sets_own sets lineup acc set x :
  set ∈ sets -> s_mixes acc.1 !! set = Some x ->
  let acc' := fit_sets sets lineup acc in
  s_mixes acc'.1 !! set = Some (fit_mix lineup set (bool_decide (set ∈ acc.2)) x).1
  /\ bool_decide (set ∈ acc'.2) = (fit_mix lineup set (bool_decide (set ∈ acc.2)) x).2.
Proof.
  intros Hin Hx. pose proof (fit_sets_lookup sets lineup acc set) as Hl. cbv zeta in *.
  rewrite decide_True in Hl by done. unfold fitted in Hl. rewrite Hx in Hl. cbn in Hl.
  destruct (fit_mix _ _ _ x) as [y b]. destruct Hl as [-> Hb]. split; [done|]. cbn. destruct b; [by apply bool_decide_eq_true, Hb|].
  apply bool_decide_eq_false. intros ?%Hb. done.
Qed.

Lemma fit_sets_elsewhere sets lineup acc set :
  set ∉ sets \/ s_mixes acc.1 !! set = None ->
  let acc' := fit_sets sets lineup acc in
  s_mixes acc'.1 !! set = s_mixes acc.1 !! set /\ (set ∈ acc'.2 <-> set ∈ acc.2).
Proof.
  intros Hs. pose proof (fit_sets_lookup sets lineup acc set) as Hl. cbv zeta in *.
  destruct (decide (set ∈ sets)); [|done]. destruct Hs as [|Hs]; [done|]. unfold fitted in Hl. rewrite Hs in Hl |- *. exact Hl.
Qed.

(** Where every set is as the rules have it they change nothing. *)
Definition fit_already (sets : gset string) (lineup : Lineup) (acc : MixState * gset string) : Prop :=
  forall set x, set ∈ sets -> s_mixes acc.1 !! set = Some x ->
  fit_mix lineup set (bool_decide (set ∈ acc.2)) x = (x, bool_decide (set ∈ acc.2)).

Lemma fit_sets_already sets lineup acc : fit_already sets lineup acc -> fit_sets sets lineup acc = acc.
Proof.
  intros Hf. apply acc_eq; [apply fit_sets_inputs|]. intros set.
  destruct (decide (set ∈ sets)) as [Hin|]; [|apply fit_sets_elsewhere; by left].
  destruct (s_mixes acc.1 !! set) as [x|] eqn:Hx; [|rewrite <-Hx; apply fit_sets_elsewhere; by right].
  destruct (fit_sets_own sets lineup acc set x Hin Hx) as [-> Hb]. rewrite (Hf set x Hin Hx) in Hb |- *. split; [done|].
  cbn [snd] in Hb. rewrite <-(bool_decide_eq_true (set ∈ (fit_sets sets lineup acc).2)), Hb. apply bool_decide_eq_true.
Qed.

Lemma fit_sets_fit sets lineup acc : fit_already sets lineup (fit_sets sets lineup acc).
Proof.
  intros set y Hin Hy. destruct (s_mixes acc.1 !! set) as [x|] eqn:Hx.
  - destruct (fit_sets_own sets lineup acc set x Hin Hx) as [Hx' Hb]. rewrite Hx' in Hy. injection Hy as <-. rewrite Hb.
    pose proof (fit_mix_again lineup set (bool_decide (set ∈ acc.2)) x) as Ha. by destruct (fit_mix _ _ _ x).
  - destruct (fit_sets_elsewhere sets lineup acc set (or_intror Hx)) as [Hn _]. congruence.
Qed.

(** C33: A line-up's rules on a state hold set by set: on every set they are held
    on, nothing of its mix changes but mutes; a set nobody wears is muted; a set
    someone wears is as it was, or unmuted when it was the rules that had muted
    it; on the set of one who is no leader every mix it hears is muted.  The
    record names exactly the sets muted for want of a wearer, so a set its
    wearer muted is never unmuted.  Holding the rules again changes nothing. *)
Theorem rules_hold (sets : gset string) (lineup : Lineup) (acc : MixState * gset string) :
  let acc' := fit_sets sets lineup acc in
  s_inputs acc'.1 = s_inputs acc.1
  /\ (forall set x, set ∈ sets -> s_mixes acc.1 !! set = Some x ->
        exists y, s_mixes acc'.1 !! set = Some y
        /\ follows_rules lineup set (bool_decide (set ∈ acc.2)) x y (bool_decide (set ∈ acc'.2)))
  /\ (forall set, set ∉ sets \/ s_mixes acc.1 !! set = None ->
        s_mixes acc'.1 !! set = s_mixes acc.1 !! set /\ (set ∈ acc'.2 <-> set ∈ acc.2))
  /\ fit_sets sets lineup acc' = acc'.
Proof.
  intros acc'. split_and!.
  - apply fit_sets_inputs.
  - intros set x Hin Hx. destruct (fit_sets_own sets lineup acc set x Hin Hx) as [Hy Hb]. eexists. split; [exact Hy|].
    unfold acc'. rewrite Hb. apply fit_mix_rules.
  - intros set Hs. by apply fit_sets_elsewhere.
  - apply fit_sets_already, fit_sets_fit.
Qed.

(** ** Giving back, and going along *)

(** C34: What the rules silence they give back: a set nobody wore, muted by the
    rules for it, has its own mute again once someone wears it, and with a leader
    on it its whole mix; the record forgets it. *)
Theorem silenced_given_back (sets : gset string) (without with_ : Lineup) (acc : MixState * gset string) (set p : string) (x : Mix) :
  set ∈ sets -> set ∉ acc.2 -> s_mixes acc.1 !! set = Some x ->
  person_on without set = None -> person_on with_ set = Some p ->
  let acc' := fit_sets sets with_ (fit_sets sets without acc) in
  set ∉ acc'.2
  /\ exists y, s_mixes acc'.1 !! set = Some y /\ m_out y = m_out x /\ (leads with_ p = true -> y = x).
Proof.
  intros Hin Hns Hx Hw Hp acc'.
  pose proof (fit_sets_lookup sets without acc set) as H1. pose proof (fit_sets_lookup sets with_ (fit_sets sets without acc) set) as H2.
  fold acc' in H2. cbv zeta in *. rewrite decide_True in H1, H2 by done.
  unfold fitted in H1, H2. rewrite Hx in H1. cbn in H1. rewrite bool_decide_false in H1 by done. unfold fit_mix in H1. rewrite Hw in H1.
  destruct x as [[vol [] eq lim] i g m]; cbn in H1; destruct H1 as [H1 Hb]; rewrite H1 in H2; cbn in H2; unfold fit_mix in H2;
    rewrite Hp in H2.
  - rewrite bool_decide_false in H2 by by rewrite Hb. destruct H2 as [H2 Hb2]. split; [by rewrite Hb2|].
    eexists. split; [exact H2|]. by destruct (leads with_ p).
  - rewrite bool_decide_true in H2 by by rewrite Hb. destruct H2 as [H2 Hb2]. split; [by rewrite Hb2|].
    eexists. split; [exact H2|]. by destruct (leads with_ p).
Qed.

(** The state before the rules: moved, and for the running one shaped. *)
Definition shifted (before after : Lineup) (topology : option TopologyInfo) (s : MixState) : MixState :=
  let s := apply_moves (lineup_moves before after) s in
  match topology with Some t => (reconcile t s).1 | None => s end.

Lemma follow_moves old new sets before after topology s silenced :
  roster_lineup old (lu_id after) = Some before -> roster_lineup new (lu_id after) = Some after ->
  follow (Some old) new sets after topology (s, silenced)
  = fit_sets sets after (shifted before after topology s, move_silenced (lineup_moves before after) silenced).
Proof. intros Hb Ha. unfold follow, moves. by rewrite Hb, Ha. Qed.

(** A mix of another place shaped for this one: what both have is kept. *)
Lemma reconcile_mix_kept t node from x :
  mix_fits t from x -> forall heard,
  let x' := mkMix (m_out x) (m_inputs x) (m_groups x) heard in
  map_Forall (fun _ l => level_ok l = true) heard ->
  let y := reconcile_mix t node (Some x') in
  m_out y = m_out x /\ m_inputs y = m_inputs x /\ m_groups y = m_groups x
  /\ forall m l, heard !! m = Some l -> m ∈ mi_mixes node ++ mi_peers node -> m_mixes y !! m = Some l.
Proof.
  intros (Ho & Hi & Hm & Hg & Hli & Hlm & Hlg) heard x' Hh y. split_and!.
  - cbn. by apply cap_out_id.
  - eapply (map_eq_keys _ _ _ (map_or cap_level Level_default) Hi (reconcile_mix_inputs t node (Some x'))).
    intros i v Hv. apply cap_level_id. by eapply Hli.
  - eapply (map_eq_keys _ _ _ (map_or cap_group MixGroup_default) Hg (reconcile_mix_groups t node (Some x'))).
    intros i v Hv. apply cap_group_id. by eapply Hlg.
  - intros m l Hl Hm'. unfold y. rewrite reconcile_mix_mixes, decide_True by done. cbn. rewrite Hl. cbn. f_equal.
    apply cap_level_id. by eapply Hh.
Qed.

(** Whether the topology lets the set [b] hear the mix [m]. *)
Definition may_hear (topology : option TopologyInfo) (b m : MixId) : Prop :=
  match topology with
  | Some t => exists node, node ∈ ti_mixes t /\ mi_id node = b /\ m ∈ mi_mixes node ++ mi_peers node
  | None => True
  end.

Lemma mix_by_id t node node' : mixes_distinct t -> node ∈ ti_mixes t -> node' ∈ ti_mixes t -> mi_id node' = mi_id node -> node = node'.
Proof.
  intros Hd [i Hi]%list_elem_of_lookup [j Hj]%list_elem_of_lookup Hid.
  assert (i = j) as ->; [|congruence]. apply (NoDup_lookup _ _ _ (mi_id node) Hd); rewrite list_lookup_fmap; [by rewrite Hi|by rewrite Hj; cbn; rewrite Hid].
Qed.

(** What a mix moved from [a] to [b] hears. *)
Lemma moved_hears a b mx m l :
  m <> b -> m_mixes mx !! (if decide (m = a) then b else m) = Some l -> m_mixes (moved_mix a b mx) !! m = Some l.
Proof.
  intros Hne. unfold moved_mix. case_decide as Hm.
  - intros Hl. rewrite Hl. subst m. apply lookup_insert_eq.
  - intros Hl. destruct (m_mixes mx !! b); [|done]. cbn. by rewrite lookup_insert_ne, lookup_delete_ne by done.
Qed.

(** The state the moved mix stands in before the rules. *)
Lemma shifted_moved before after topology s a b mx :
  match topology with Some t => mixes_distinct t /\ fits t s /\ b ∈ mi_id <$> ti_mixes t | None => True end ->
  source_of before after b = Some a -> s_mixes s !! a = Some mx ->
  exists y, s_mixes (shifted before after topology s) !! b = Some y
  /\ m_out y = m_out mx /\ m_inputs y = m_inputs mx /\ m_groups y = m_groups mx
  /\ forall m l, m_mixes (moved_mix a b mx) !! m = Some l -> may_hear topology b m -> m_mixes y !! m = Some l.
Proof.
  intros Ht Hs Hmx. unfold shifted.
  assert (Harr : s_mixes (apply_moves (lineup_moves before after) s) !! b = Some (moved_mix a b mx)).
  { rewrite apply_moves_lookup. unfold arriving. by rewrite Hs, Hmx. }
  assert (Hm : moved_mix a b mx = mkMix (m_out mx) (m_inputs mx) (m_groups mx) (m_mixes (moved_mix a b mx))).
  { unfold moved_mix. destruct (m_mixes mx !! b); by destruct mx. }
  destruct topology as [t|].
  2:{ exists (moved_mix a b mx). split; [exact Harr|]. rewrite Hm. cbn. by split_and!. }
  destruct Ht as (Hd & Hfit & Hb). apply list_elem_of_fmap in Hb as (node & -> & Hnode).
  eexists. split; [by apply reconcile_mix_lookup|]. rewrite Harr, Hm.
  assert (Hfrom : exists from, from ∈ ti_mixes t /\ mi_id from = a).
  { destruct Hfit as (_ & _ & Hk & _). assert (Hin : a ∈ mi_id <$> ti_mixes t) by by apply Hk.
    apply list_elem_of_fmap in Hin as (from & -> & Hin). by exists from. }
  destruct Hfrom as (from & Hfrom & <-). destruct Hfit as (_ & _ & _ & Hx). pose proof (Hx from mx Hfrom Hmx) as Hmf.
  destruct (reconcile_mix_kept t node from mx Hmf (m_mixes (moved_mix (mi_id from) (mi_id node) mx))) as (Ho & Hi & Hg & Hl).
  { destruct Hmf as (_ & _ & _ & _ & _ & Hlm & _).
    unfold moved_mix. destruct (m_mixes mx !! mi_id node) as [heard|] eqn:Hh; [|exact Hlm]. cbn.
    apply map_Forall_insert_2; [by eapply Hlm|]. by apply map_Forall_delete. }
  split_and!; [exact Ho|exact Hi|exact Hg|]. intros m l Hml (node' & Hn' & Hid & Hhear). apply Hl; [exact Hml|].
  by rewrite (mix_by_id t node node').
Qed.

(** C19: A person who wears another set of a line-up in the new roster takes their
    mix along: the set they wear now has every level of an input, every group
    strip, the volume, EQ and limiter of the set they wore, every level of
    another mix that it heard and that the new set may hear (whom their old set
    heard on the new one, they hear on the old one), muted unless they lead the line-up; and its own mute,
    unless it was the rules that had muted it.  So for a line-up's stored state
    and, shaped by the topology, for the running one. *)
Theorem mix_goes_along (old new : Roster) (sets : gset string) (before after : Lineup) (topology : option TopologyInfo) (s : MixState)
    (silenced : gset string) (p a b : string) (mx : Mix) :
  roster_lineup old (lu_id after) = Some before -> roster_lineup new (lu_id after) = Some after ->
  lu_sets after !! b = Some p -> lineup_set_of before p = Some a -> a <> b -> b ∈ sets -> s_mixes s !! a = Some mx ->
  match topology with Some t => mixes_distinct t /\ fits t s /\ b ∈ mi_id <$> ti_mixes t | None => True end ->
  let '(s', silenced') := follow (Some old) new sets after topology (s, silenced) in
  b ∉ silenced'
  /\ exists y, s_mixes s' !! b = Some y
     /\ m_inputs y = m_inputs mx /\ m_groups y = m_groups mx
     /\ m_out y = mkMixOut (o_volume_db (m_out mx)) (if decide (a ∈ silenced) then false else o_muted (m_out mx)) (o_eq (m_out mx))
                    (o_limiter (m_out mx))
     /\ forall m l, m <> b -> m_mixes mx !! (if decide (m = a) then b else m) = Some l -> may_hear topology b m ->
          m_mixes y !! m = Some (mkLevel (lv_gain_db l) (lv_pan l) (if leads after p then lv_muted l else true)).
Proof.
  intros Hb Ha Hp Hset Hne Hin Hmx Ht. rewrite (follow_moves old new _ before) by done.
  assert (Hs : source_of before after b = Some a).
  { unfold source_of. rewrite Hp. cbn. rewrite Hset. cbn. by rewrite decide_False. }
  destruct (shifted_moved before after topology s a b mx Ht Hs Hmx) as (x & Hx & Ho & Hi & Hg & Hl).
  pose proof (fit_sets_lookup sets after (shifted before after topology s, move_silenced (lineup_moves before after) silenced) b) as Hfit.
  destruct (fit_sets _ _ _) as [s' silenced']. cbv zeta in Hfit. rewrite decide_True in Hfit by done.
  unfold fitted in Hfit. cbn [fst snd] in Hfit. rewrite Hx in Hfit. cbn [fmap option_fmap option_map] in Hfit.
  assert (Hrec : bool_decide (b ∈ move_silenced (lineup_moves before after) silenced) = bool_decide (a ∈ silenced)).
  { apply bool_decide_ext. rewrite move_silenced_elem. unfold arriving_silenced. rewrite Hs. cbn. by rewrite bool_decide_eq_true. }
  rewrite Hrec in Hfit. unfold fit_mix, person_on in Hfit. rewrite Hp in Hfit. destruct Hfit as [Hy Hnb].
  split; [rewrite Hnb; done|]. eexists. split; [exact Hy|].
  assert (Hl' : forall m l, m <> b -> m_mixes mx !! (if decide (m = a) then b else m) = Some l -> may_hear topology b m -> m_mixes x !! m = Some l).
  { intros m l Hmb Hlm. apply Hl. by apply moved_hears. }
  clear Hrec Hnb Hl. destruct mx as [[vol mu eq lim] i g h]. cbn in Ho, Hi, Hg. case_bool_decide; [rewrite decide_True by done|rewrite decide_False by done];
    destruct (leads after p); cbn; rewrite ?Ho; split_and!; try done; intros m l Hmb Hlm Hhear;
    specialize (Hl' m l Hmb Hlm Hhear).
  1,3: rewrite Hl'; by destruct l.
  all: by rewrite lookup_fmap, Hl'.
Qed.

(** ** An example *)

Definition swap_info : TopologyInfo :=
  mkTopologyInfo "h" 48000 "m3" [mkInputInfo "mic1" 1 false None] []
    [mkMixInfo "m1" 2 [] []; mkMixInfo "m2" 2 ["m1"] []; mkMixInfo "m3" 2 [] []].

(** Ann leads; she and Bob swap sets, and at first nobody wears [m3]. *)
Definition swap_band (m1 m2 : string) (m3 : gmap string string) : Lineup :=
  mkLineup "main" "Main band" true ["ann"] (<["m1" := m1]> (<["m2" := m2]> m3)) ∅.
Definition swap_before : Lineup := swap_band "ann" "bob" ∅.
Definition swap_after : Lineup := swap_band "bob" "ann" {["m3" := "carl"]}.
Definition swap_roster (l : Lineup) : Roster :=
  mkRoster [mkPerson "ann" "Ann" None; mkPerson "bob" "Bob" None; mkPerson "carl" "Carl" None] [l] None.
Definition swap_state : MixState :=
  let s := (reconcile swap_info MixState_default).1 in
  mkMixState (s_inputs s) (alter (set_muted true) "m1" (s_mixes s)).

Lemma swap_fits : fits swap_info swap_state /\ mixes_distinct swap_info.
Proof.
  assert (Hd : mixes_distinct swap_info) by by apply (bool_decide_unpack (NoDup _)); vm_compute.
  split; [|done]. destruct (reconcile_fits swap_info MixState_default Hd) as (H1 & H2 & H3 & H4).
  unfold swap_state. split_and!; cbn [s_inputs s_mixes]; [done|done| |].
  - intros id. rewrite <-H3. by rewrite lookup_alter_is_Some.
  - intros node x Hn Hx. apply lookup_alter_Some in Hx as [(_ & y & Hy & ->)|[_ Hx]]; [|by apply H4].
    by pose proof (H4 node y Hn Hy).
Qed.

Lemma silenced_given_back_witness :
  let acc' := fit_sets {["m3"]} swap_after (fit_sets {["m3"]} swap_before (swap_state, ∅)) in
  "m3" ∉ acc'.2 /\ is_Some (s_mixes acc'.1 !! "m3").
Proof.
  destruct (s_mixes swap_state !! "m3") as [x|] eqn:Hx; [|by vm_compute in Hx].
  destruct (silenced_given_back {["m3"]} swap_before swap_after (swap_state, ∅) "m3" "carl" x) as [H (y & Hy & _)];
    [set_solver|set_solver|done|reflexivity|reflexivity|]. by split; [|exists y].
Defined.

Lemma mix_goes_along_witness :
  let '(s', silenced') := follow (Some (swap_roster swap_before)) (swap_roster swap_after) {["m1"; "m2"; "m3"]} swap_after (Some swap_info)
                            (swap_state, {["m1"]}) in
  "m2" ∉ silenced' /\ (o_muted ∘ m_out <$> s_mixes s' !! "m2") = Some false.
Proof.
  destruct (s_mixes swap_state !! "m1") as [x|] eqn:Hx; [|by vm_compute in Hx].
  pose proof (mix_goes_along (swap_roster swap_before) (swap_roster swap_after) {["m1"; "m2"; "m3"]} swap_before swap_after (Some swap_info)
    swap_state {["m1"]} "ann" "m1" "m2" x) as H.
  destruct (follow _ _ _ _ _ _) as [s' silenced'].
  destruct H as (Hb & y & Hy & _ & _ & Ho & _);
    [reflexivity|reflexivity|reflexivity|reflexivity|done|set_solver|done| |].
  - destruct swap_fits as [Hf Hd]. split_and!; [done|done|cbn; set_solver].
  - split; [done|]. rewrite Hy. cbn. by rewrite Ho.
Defined.
