(* ===== verification/LineupStore.v ===== *)
(** * The line-ups' files ([iem-server/src/lineup_store.rs]) and the server around them

    A [World] is the server, the engine as it really is, and what the
    environment does next: the outcome of each write, the engine's answer to
    each request, what the pages had on their way when they are frozen, whether
    the engine comes back.  Every script past its end is a success.  An
    operation is a function of the world; [None] is the process's end, the world
    then holding what the disk and the engine hold.

    A durable write is a synced temporary file renamed over the old one: it
    leaves the old file or the new one.  The directories and the temporary
    files, which nothing reads, are left out. *)

From S2P Require Import Prelude F64 Text MixState Msg Shape Codec Mirror Client LoginGuard Roster Config UiMsg SiteView View BandStore Sessions Pages Lineups.
From Stdlib Require Import Ascii.
From stdpp Require Import options.
Local Open Scope Z_scope.
#[local] Unset Default Proof Using.

(** ** The world *)

(** An [io::Error]: its kind's text and its own. *)
Record FileError := mkFileError { fe_kind : string; fe_text : string }.

(** The kind of the system's error with this text. *)
Class OsKind := os_kind : string -> string.

(** [FsDies]: the process ends at the write; whether it was done. *)
Inductive FsOutcome := FsOk | FsFails (e : FileError) | FsDies (done : bool).

(** [EaLost]: no answer; whether the engine took the request all the same, and
    whether the connection is gone (a timeout otherwise).  [EaDies]: the process
    ends with the request on its way. *)
Inductive EngAnswer := EaTaken | EaRefused (b : ErrorBody) | EaLost (taken gone : bool) | EaDies (taken : bool).

(** The roster in use has not reached the states, which follow [us_base]. *)
Record Unsettled := mkUnsettled { us_base : option Base; us_refusing : bool }.
Definition Unsettled_new (base : option Base) : Unsettled := mkUnsettled base true.

(** The PIN hashes, as in their file ([pin_store.rs]): [pn_archived] is an older
    server's, never written back. *)
Record PinFile := mkPinFile { pn_engineer : option string; pn_members : gmap string string; pn_archived : gmap string string }.
Record PinStore := mkPinStore { ps_file : PinFile; ps_path : string }.

(** What the engineer's devices hear, and the tasks started. *)
Inductive Told := ToldLineup (name : string) | ToldAlarm (title body : string) | ToldReplay | ToldSettle.

(** [w_waited]: how long an absent engine has been waited for, reading by
    reading. *)
Record World := mkWorld {
  w_server : Server;
  w_unsettled : option Unsettled;
  w_fallback : bool;
  w_unrecorded : Z;
  w_busy : bool;
  w_engine : MixState * Transient;
  w_disk : list FsOutcome;
  w_answers : list EngAnswer;
  w_landing : list (MixState * Transient);
  w_syncs : list bool;
  w_now : Z;
  w_at : string;
  w_told : list Told;
  w_pins : PinStore;
  w_waited : list Z;
}.

Definition put_server (s : Server) (w : World) : World :=
  mkWorld s (w_unsettled w) (w_fallback w) (w_unrecorded w) (w_busy w) (w_engine w) (w_disk w) (w_answers w) (w_landing w) (w_syncs w)
    (w_now w) (w_at w) (w_told w) (w_pins w) (w_waited w).
Definition put_engine (e : MixState * Transient) (w : World) : World :=
  mkWorld (w_server w) (w_unsettled w) (w_fallback w) (w_unrecorded w) (w_busy w) e (w_disk w) (w_answers w) (w_landing w) (w_syncs w)
    (w_now w) (w_at w) (w_told w) (w_pins w) (w_waited w).
Definition put_scripts (disk : list FsOutcome) (answers : list EngAnswer) (landing : list (MixState * Transient)) (syncs : list bool)
    (w : World) : World :=
  mkWorld (w_server w) (w_unsettled w) (w_fallback w) (w_unrecorded w) (w_busy w) (w_engine w) disk answers landing syncs
    (w_now w) (w_at w) (w_told w) (w_pins w) (w_waited w).
Definition put_roster_mode (u : option Unsettled) (fallback : bool) (unrecorded : Z) (w : World) : World :=
  mkWorld (w_server w) u fallback unrecorded (w_busy w) (w_engine w) (w_disk w) (w_answers w) (w_landing w) (w_syncs w)
    (w_now w) (w_at w) (w_told w) (w_pins w) (w_waited w).
Definition w_say (t : Told) (w : World) : World :=
  mkWorld (w_server w) (w_unsettled w) (w_fallback w) (w_unrecorded w) (w_busy w) (w_engine w) (w_disk w) (w_answers w) (w_landing w)
    (w_syncs w) (w_now w) (w_at w) (w_told w ++ [t]) (w_pins w) (w_waited w).

Definition put_pins (ps : PinStore) (w : World) : World :=
  mkWorld (w_server w) (w_unsettled w) (w_fallback w) (w_unrecorded w) (w_busy w) (w_engine w) (w_disk w) (w_answers w) (w_landing w)
    (w_syncs w) (w_now w) (w_at w) (w_told w) ps (w_waited w).
Definition put_waited (l : list Z) (w : World) : World :=
  mkWorld (w_server w) (w_unsettled w) (w_fallback w) (w_unrecorded w) (w_busy w) (w_engine w) (w_disk w) (w_answers w) (w_landing w)
    (w_syncs w) (w_now w) (w_at w) (w_told w) (w_pins w) l.

Definition w_files (w : World) : gmap string FileText := sr_files (w_server w).
Definition put_w_files (fs : gmap string FileText) (w : World) : World := put_server (put_files (sr_auto (w_server w)) fs (w_server w)) w.
Definition w_mirror (w : World) : Mirror := sr_mirror (w_server w).

(** *** Operations *)

Definition Io (A : Type) : Type := World -> World * option A.

#[export] Instance Io_ret : MRet Io := fun A a w => (w, Some a).
#[export] Instance Io_bind : MBind Io :=
  fun A B k m w => match m w with (w, Some a) => k a w | (w, None) => (w, None) end.

Definition gets {A : Type} (f : World -> A) : Io A := fun w => (w, Some (f w)).
Definition modify (f : World -> World) : Io unit := fun w => (f w, Some tt).

(** [?]: an error ends the operation. *)
Definition try_ {E A B : Type} (m : Io (result E A)) (k : A -> Io (result E B)) : Io (result E B) :=
  r ← m; match r with Ok a => k a | Err e => mret (Err e) end.
Notation "'let?' x ':=' m 'in' k" := (try_ m (fun x => k)) (at level 200, x name, m at level 100, k at level 200, only parsing).

(** [map_err]. *)
Definition or_else {E E' A : Type} (f : E -> E') (m : Io (result E A)) : Io (result E' A) := r ← m; mret (map_err f r).

(** ** Files *)

Definition write_durable (path data : string) : Io (result FileError unit) := fun w =>
  let done := put_w_files (<[path := Readable data]> (w_files w)) in
  let next := put_scripts (tail (w_disk w)) (w_answers w) (w_landing w) (w_syncs w) w in
  match w_disk w with
  | [] | FsOk :: _ => (done next, Some (Ok tt))
  | FsFails e :: _ => (next, Some (Err e))
  | FsDies b :: _ => (if b then done next else next, None)
  end.

(** Removing a file; none is fine. *)
Definition remove_file (path : string) : Io (result FileError unit) := fun w =>
  let done := put_w_files (delete path (w_files w)) in
  let next := put_scripts (tail (w_disk w)) (w_answers w) (w_landing w) (w_syncs w) w in
  match w_disk w with
  | [] | FsOk :: _ => (done next, Some (Ok tt))
  | FsFails e :: _ => (next, Some (Err e))
  | FsDies b :: _ => (if b then done next else next, None)
  end.

Definition invalid (what : string) : FileError := mkFileError "invalid data" what.

Definition check_lineup_id (id : string) : result FileError unit :=
  if valid_lineup_id id then Ok tt else Err (mkFileError "invalid input parameter" ("'" +:+ id +:+ "' is not a lineup id")).

Definition LINEUPS_DIR : string := "lineups".
Definition ACTIVE_NAME : string := "active.json".
Definition SWITCH_NAME : string := "switch.json".
Definition STATE_NAME : string := "state.json".
Definition APPLIED_NAME : string := "applied-roster.toml".
Definition RUNNING_NAME : string := "running.json".
Definition ROSTERS_NAME : string := "rosters.kept".
Definition ACTIVE_FORMAT : string := "iemmixer-active-lineup".

Definition ls_path (dir name : string) : string := dir +:+ "/" +:+ name.
Definition data_dir (dir id : string) : string := ls_path dir id.

(** The store's directory of a server. *)
Definition store_dir (w : World) : string := ls_path (sr_dir (w_server w)) LINEUPS_DIR.

Section store.
Context `{OsKind, Serde ActiveFile, Serde SwitchIntent, Serde Running, Serde BackupHead, Serde MixerBackup}.

Definition read_optional (fs : gmap string FileText) (path : string) : result FileError (option string) :=
  match fs !! path with
  | None => Ok None
  | Some (Readable text) => Ok (Some text)
  | Some (Unreadable e) => Err (mkFileError (os_kind e) (path +:+ ": " +:+ e))
  end.

(** What a readable file says, an error naming the file. *)
Definition read_as {A : Type} (of_text : string -> result string A) (fs : gmap string FileText) (path : string)
    : result FileError (option A) :=
  text ← read_optional fs path;
  match text with
  | None => Ok None
  | Some text => match of_text text with Ok a => Ok (Some a) | Err e => Err (invalid (path +:+ ": " +:+ e)) end
  end.

Definition lineup_id_or_text (id : string) : result string unit := map_err fe_text (check_lineup_id id).

Definition ls_active (dir : string) (fs : gmap string FileText) : result FileError (option string) :=
  read_as (fun text =>
             file ← of_json (F := ActiveFile) text;
             if negb (bool_decide (af_format file = ACTIVE_FORMAT))
             then Err ("format " +:+ debug_str (af_format file) +:+ " is not " +:+ debug_str ACTIVE_FORMAT)
             else _ ← lineup_id_or_text (af_lineup file); Ok (af_lineup file))
    fs (ls_path dir ACTIVE_NAME).

Definition ls_state (dir id : string) (fs : gmap string FileText) : result FileError (option MixerBackup) :=
  _ ← check_lineup_id id;
  read_as (fun text => map_err BackupError_text (MixerBackup_parse text)) fs (ls_path (data_dir dir id) STATE_NAME).

Definition ls_running (dir : string) (fs : gmap string FileText) : result FileError (option Running) :=
  read_as (fun text => r ← of_json (F := Running) text; _ ← lineup_id_or_text (rn_lineup r); Ok r) fs (ls_path dir RUNNING_NAME).

Definition ls_intent (dir : string) (fs : gmap string FileText) : result FileError (option SwitchIntent) :=
  read_as (fun text => i ← of_json (F := SwitchIntent) text;
                       _ ← lineup_id_or_text (si_from i); _ ← lineup_id_or_text (si_to i); Ok i)
    fs (ls_path dir SWITCH_NAME).

Definition ls_applied_roster (dir : string) (fs : gmap string FileText) : result FileError (option string) :=
  read_optional fs (ls_path dir APPLIED_NAME).

Definition is_hex (c : ascii) : bool := is_ascii_digit c || ((97 <=? nat_of_ascii c)%nat && (nat_of_ascii c <=? 102)%nat).

Definition ls_kept (dir sha256 : string) : option string :=
  if (slen sha256 =? 64)%nat && str_forallb is_hex sha256 then Some (ls_path (ls_path dir ROSTERS_NAME) (sha256 +:+ ".toml")) else None.

Definition ls_kept_roster (dir sha256 : string) (fs : gmap string FileText) : result FileError (option string) :=
  match ls_kept dir sha256 with Some path => read_optional fs path | None => Ok None end.

(** *** Writing *)

(** A file written under the store's directory. *)
Definition set_file (name data : string) : Io (result FileError unit) := dir ← gets store_dir; write_durable (ls_path dir name) data.

Definition checked (id : string) (m : Io (result FileError unit)) : Io (result FileError unit) :=
  match check_lineup_id id with Err e => mret (Err e) | Ok _ => m end.

Definition set_active (id : string) (since : Z) : Io (result FileError unit) :=
  checked id (set_file ACTIVE_NAME (to_json (mkActiveFile ACTIVE_FORMAT id since))).

Definition save_state (id : string) (backup : MixerBackup) : Io (result FileError unit) :=
  checked id (dir ← gets store_dir; write_durable (ls_path (data_dir dir id) STATE_NAME) (to_json backup)).

Definition set_running (r : Running) : Io (result FileError unit) := checked (rn_lineup r) (set_file RUNNING_NAME (to_json r)).

Definition set_intent (i : SwitchIntent) : Io (result FileError unit) :=
  checked (si_from i) (checked (si_to i) (set_file SWITCH_NAME (to_json i))).

Definition clear_intent : Io (result FileError unit) := dir ← gets store_dir; remove_file (ls_path dir SWITCH_NAME).

Definition set_applied_roster (text : string) : Io (result FileError unit) := set_file APPLIED_NAME text.

Definition keep_roster (sha256 text : string) : Io (result FileError unit) :=
  dir ← gets store_dir;
  fs ← gets w_files;
  match ls_kept dir sha256 with
  | None => mret (Err (invalid ("'" +:+ sha256 +:+ "' is no SHA-256")))
  | Some path => if decide (is_Some (fs !! path)) then mret (Ok tt) else write_durable path text
  end.

End store.

(** ** The engine *)

(** What a request does to what the engine holds; the server here ends solos
    only. *)
Definition engine_step (topo : option TopologyInfo) (cmd : Cmd) (e : MixState * Transient) : MixState * Transient :=
  match cmd with
  | ImportState state => (match topo with Some t => (reconcile t state).1 | None => state end, e.2)
  | SetSolo mix sources => (e.1, mkTransient (put_solo mix sources (t_solo e.2)) (t_listen e.2) (t_test_signal e.2))
  | _ => e
  end.

Definition set_mirror (connected : bool) (mv : Mirror) (w : World) : World :=
  let s := w_server w in
  put_server (mkServer (sr_config s) (sr_dir s) (sr_roster s) mv connected (sr_frozen s) (sr_settling s) (sr_missed s) (sr_active_s s)
    (sr_sessions s) (sr_solo s) (sr_talk s) (sr_alerts s) (sr_auto s) (sr_files s) (sr_login s) (sr_out s)) w.

(** The mirror holding what the engine holds. *)
Definition mirror_holds (rev : Z) (e : MixState * Transient) (mv : Mirror) : Mirror :=
  mkMirror (mv_hello mv) (mv_topology mv) e.1 e.2 rev true.

Definition next_rev (cmd : Cmd) (rev : Z) : Z := match cmd with Ping => rev | _ => u64_wrapping_add rev 1 end.

Definition request_applied (cmd : Cmd) : Io (result EngineError unit) := fun w =>
  if negb (sr_connected (w_server w)) then (w, Some (Err ErDisconnected))
  else
    let next := put_scripts (w_disk w) (tail (w_answers w)) (w_landing w) (w_syncs w) w in
    let held := engine_step (mv_topology (w_mirror w)) cmd (w_engine w) in
    match w_answers w with
    | [] | EaTaken :: _ =>
        (set_mirror true (mirror_holds (next_rev cmd (mv_rev (w_mirror w))) held (w_mirror w)) (put_engine held next), Some (Ok tt))
    | EaRefused b :: _ => (next, Some (Err (ErRefused b)))
    | EaLost taken gone :: _ =>
        let next := if taken then put_engine held next else next in
        if gone then (set_mirror false (mirror_disconnected (w_mirror w)) next, Some (Err ErDisconnected))
        else (next, Some (Err ErTimeout))
    | EaDies taken :: _ => (if taken then put_engine held next else next, None)
    end.

(** Whether the mirror is synced, now or within the wait. *)
Definition wait_synced : Io bool := fun w =>
  if mv_synced (w_mirror w) then (w, Some true)
  else
    let next := put_scripts (w_disk w) (w_answers w) (w_landing w) (tail (w_syncs w)) w in
    match w_syncs w with
    | [] | true :: _ => (set_mirror true (mirror_holds (mv_rev (w_mirror w)) (w_engine w) (w_mirror w)) next, Some true)
    | false :: _ => (next, Some false)
    end.

(** *** The gate *)

(** What the pages had on their way reaches the engine before the barrier. *)
Definition land : Io unit := fun w =>
  match w_landing w with
  | e :: l => if sr_frozen (w_server w) then (w, Some tt) else (put_engine e (put_scripts (w_disk w) (w_answers w) l (w_syncs w) w), Some tt)
  | [] => (w, Some tt)
  end.

(** The flag is set before the barrier, which does not look at it. *)
Definition freeze_pages : Io (result EngineError bool) :=
  _ ← land;
  r ← request_applied Ping;
  was ← gets (fun w => sr_frozen (w_server w));
  _ ← modify (fun w => put_server (freeze (is_ok r) (w_server w)).1 w);
  mret (match r with Ok _ => Ok was | Err e => Err e end).

Definition thaw_pages : Io unit := modify (fun w => put_server (thaw (w_server w)) w).
Definition thaw_pages_unchanged : Io unit := modify (fun w => put_server (thaw_unchanged (w_server w)) w).
Definition announce : Io unit := modify (fun w => put_server (announce_lineup (w_server w)) w).

Definition put_roster (r : option RosterState) (settling : bool) (s : Server) : Server :=
  mkServer (sr_config s) (sr_dir s) r (sr_mirror s) (sr_connected s) (sr_frozen s) settling (sr_missed s) (sr_active_s s)
    (sr_sessions s) (sr_solo s) (sr_talk s) (sr_alerts s) (sr_auto s) (sr_files s) (sr_login s) (sr_out s).

Definition set_roster (r : option RosterState) : Io unit :=
  modify (fun w => put_server (put_roster r (sr_settling (w_server w)) (w_server w)) w).

Definition settling_of (u : option Unsettled) : bool := match u with Some u => us_refusing u | None => false end.

Definition set_unsettled (u : option Unsettled) : Io unit :=
  modify (fun w => put_roster_mode u (w_fallback w) (w_unrecorded w)
                     (put_server (put_roster (sr_roster (w_server w)) (settling_of u) (w_server w)) w)).

Definition tell (t : Told) : Io unit := modify (w_say t).

(** ** The start *)

(** What a start keeps in memory: nothing but the roster it loaded.  The engine
    announces its topology before its state, so the mirror has it by the time it
    is synced; it is left in place here. *)
Definition server_new (roster : option RosterState) (frozen settling : bool) (s : Server) : Server :=
  mkServer (sr_config s) (sr_dir s) roster
    (mkMirror None (mv_topology (sr_mirror s)) MixState_default Transient_default 0 false) false
    frozen settling false [] 1 SoloJanitor_default None ∅ ∅ (sr_files s) (mkLoginStats 0 0 0) [].

(** The server of a process that starts on [roster]; [base]: what the states
    follow.  An unreadable intent refuses the start. *)
Definition server_start `{OsKind, Serde SwitchIntent} (roster : option RosterState) (fallback : bool) (base : option Base) (w : World)
    : result FileError World :=
  cut_short ← match roster with
              | Some _ => intent ← ls_intent (store_dir w) (w_files w); Ok (bool_decide (is_Some intent))
              | None => Ok false
              end;
  let unsettled := (fun _ => Unsettled_new base) <$> roster in
  Ok (put_roster_mode unsettled fallback 0 (put_server (server_new roster cut_short (settling_of unsettled) (w_server w)) w)).

(** ** Paths *)

Lemma ls_path_inj dir a b : ls_path dir a = ls_path dir b -> a = b.
Proof. unfold ls_path. intros Heq. apply (inj (String.app _)) in Heq. by injection Heq. Qed.

(** An id holds no slash, so no line-up's file is a file of the store's own. *)
Lemma lineup_id_lacks id : valid_lineup_id id = true -> lacks "/"%char id.
Proof.
  unfold valid_lineup_id, lacks. intros Hv. bool_inv.
  match goal with H : str_forallb lineup_char _ = true |- _ => revert H end. clear.
  induction id as [|c id IH]; [done|]. cbn. intros Hc. bool_inv.
  rewrite IH by done. destruct (bool_decide_reflect (c = "/"%char)) as [->|]; [done|done].
Qed.

Lemma lacks_suffix c a b : lacks c (a +:+ b) -> lacks c b.
Proof. unfold lacks. rewrite str_forallb_app. intros Hl. by bool_inv. Qed.

Lemma ls_names_ne dir a b : a <> b -> ls_path dir a <> ls_path dir b.
Proof. by intros Hne Heq%ls_path_inj. Qed.

(** ** Texts that read back *)

(** A number as bits, so that what is countable has a text that reads back. *)
Fixpoint to_bits (p : positive) : string :=
  match p with xH => "" | xO p => String "0" (to_bits p) | xI p => String "1" (to_bits p) end.
Fixpoint of_bits (s : string) : option positive :=
  match s with
  | EmptyString => Some xH
  | String c s => p ← of_bits s; Some (if bool_decide (c = "0"%char) then xO p else xI p)
  end.
Lemma of_to_bits p : of_bits (to_bits p) = Some p.
Proof. induction p as [p IH|p IH|]; cbn; [by rewrite IH..|done]. Qed.

Definition bits_of_json {A : Type} `{Countable A} (s : string) : result string A :=
  match of_bits s with
  | Some p => match countable.decode p with Some a => Ok a | None => Err "another's number" end
  | None => Err "not a number"
  end.
Lemma bits_back {A : Type} `{Countable A} (a : A) : bits_of_json (to_bits (countable.encode a)) = Ok a.
Proof. unfold bits_of_json. by rewrite of_to_bits, decode_encode. Qed.
