(* ===== verification/Switch.v ===== *)
(** * Switching the line-up that plays ([iem-server/src/lineup_switch.rs])

    The switch, its steps, the replay of one a restart or the engine cut short,
    and the way back, as operations of the world ([LineupStore]). *)

From S2P Require Import Prelude F64 Text MixState Msg Shape Codec Mirror Client LoginGuard Roster Config UiMsg SiteView View BandStore Sessions Pages Lineups LineupStore.
From stdpp Require Import options.
Local Open Scope Z_scope.
#[local] Unset Default Proof Using.

Record AuthClaims := mkAuthClaims { ac_sub : string; ac_engineer : bool; ac_exp : Z; ac_iat : Z }.

Inductive SwitchError :=
| SwNotConfigured
| SwForbidden
| SwBusy
| SwUnknown (id : string)
| SwSame
| SwNotSynced
| SwIo (e : string)
| SwEngine (e : EngineError)
| SwPending (why : string).

Definition ErrCode_name (c : ErrCode) : string :=
  match c with
  | BadRequest => "BadRequest" | Unsupported => "Unsupported" | UnknownId => "UnknownId" | BadValue => "BadValue"
  | Forbidden => "Forbidden" | NoSource => "NoSource" | NotController => "NotController" | TooLarge => "TooLarge"
  | NotSupervisor => "NotSupervisor"
  end.

Definition EngineError_text (e : EngineError) : string :=
  match e with
  | ErDisconnected => "the engine is not connected"
  | ErRefused b => "the engine refused: ErrorBody { code: " +:+ ErrCode_name (eb_code b) +:+ ", msg: " +:+ debug_str (eb_msg b) +:+ " }"
  | ErTimeout => "the engine did not answer in time"
  end.

Definition SwitchError_text (e : SwitchError) : string :=
  match e with
  | SwNotConfigured => "this site has no roster"
  | SwForbidden => "only a band leader or the engineer switches the band"
  | SwBusy => "the band is being switched already"
  | SwUnknown _ => "no such lineup"
  | SwSame => "that band plays already"
  | SwNotSynced => "the engine state is not synced"
  | SwIo e => e
  | SwEngine e => "the engine did not take the band's mixes: " +:+ EngineError_text e
  | SwPending e => "the band switch finishes once the engine answers again: " +:+ e
  end.

Definition io_error (what : string) (e : FileError) : SwitchError := SwIo (what +:+ ": " +:+ fe_kind e).

Definition may_switch (r : Roster) (by_ : AuthClaims) : bool := ac_engineer by_ || leads_any r (ac_sub by_).

Section switch.
Context `{OsKind, Serde ActiveFile, Serde SwitchIntent, Serde Running, Serde BackupHead, Serde MixerBackup, Serde MixState,
  Serde CustomizationFile, Sha256}.

(** ** What the running state follows *)

(** A failure is only logged. *)
Definition note_running (r : Running) : Io unit := _ ← set_running r; mret tt.

Definition running_of (held : string) : Io (option Running) :=
  w ← gets id;
  match ls_running (store_dir w) (w_files w) with
  | Err _ | Ok None => mret None
  | Ok (Some r) =>
      match rn_pending r with
      | None => mret (Some r)
      | Some _ => let settled := resolved r held in _ ← note_running settled; mret (Some settled)
      end
  end.

Definition running_for (lineup held : string) : Io (option string * gset string) :=
  r ← running_of held;
  mret (match r with
        | Some r => if decide (rn_lineup r = lineup) then (rn_follows r, rn_silenced r) else (None, ∅)
        | None => (None, ∅)
        end).

(** Each solo's end; a failure is only logged. *)
Fixpoint end_solos (mixes : list MixId) : Io unit :=
  match mixes with
  | [] => mret tt
  | mix :: mixes => _ ← request_applied (SetSolo mix []); end_solos mixes
  end.

(** ** The switch *)

Definition set_active_in_use (id : string) : Io unit :=
  r ← gets (fun w => sr_roster (w_server w));
  match r with
  | Some r => set_roster (Some (mkRosterState (rs_roster r) (rs_sha256 r) id))
  | None => mret tt
  end.

Inductive Failed := FailedBack (e : SwitchError) | FailedPending (e : SwitchError).

(** The state [lineup] plays from and what it follows then. *)
Definition target_of (stored : option MixerBackup) (current : MixState) (running : option string * gset string) (r : Roster)
    (lineup : Lineup) : MixState * Running :=
  let '(from, follows, silenced) :=
    match stored with
    | Some b => (Some (mb_state b), mb_follows b, mb_silenced b)
    | None => (None, running.1, running.2)
    end in
  let '(target, silenced) := target_state_recorded from current r lineup silenced in
  (target, mkRunning (lu_id lineup) follows silenced None).

(** The target's state to the engine, then the target recorded active. *)
Definition forward (r : Roster) (live : MixerBackup) (from : string) (to : Lineup) : Io (result SwitchError unit) :=
  w ← gets id;
  match ls_state (store_dir w) (lu_id to) (w_files w) with
  | Err e => mret (Err (io_error "the band's stored state is unreadable" e))
  | Ok stored =>
      let '(target, running) := target_of stored (mb_state live) (mb_follows live, mb_silenced live) r to in
      let soloed :=
        match roster_lineup r from with
        | Some before => soloed_changing (mv_transient (w_mirror w)) before to
        | None => []
        end in
      let? _ := or_else SwEngine (request_applied (ImportState target)) in
      let? _ := or_else (io_error "the band that plays was not recorded") (set_active (lu_id to) (w_now w)) in
      _ ← note_running running;
      _ ← end_solos soloed;
      mret (Ok tt)
  end.

(** The live state as the active line-up's stored state. *)
Definition live_state (view : SiteView) (from : string) : Io (result Failed MixerBackup) :=
  w ← gets id;
  if negb (mv_synced (w_mirror w)) then mret (Err (FailedBack SwNotSynced))
  else
    match backup_capture view (w_mirror w) (band_of (w_server w) (Some from)) (w_at w) with
    | Err e => mret (Err (FailedBack (SwIo e)))
    | Ok live =>
        rf ← running_for from (state_digest (mv_state (w_mirror w)));
        mret (Ok (put_state (mb_state live) rf.2 rf.1 (put_lineup (Some from) live)))
    end.

(** The band that played plays on, once its state is back in for sure. *)
Definition go_back (live : MixerBackup) (e : SwitchError) : Io (result Failed unit) :=
  back ← request_applied (ImportState (mb_state live));
  match back with
  | Err _ => mret (Err (FailedPending e))
  | Ok _ => _ ← clear_intent; mret (Err (FailedBack e))
  end.

Definition switch_steps (r : Roster) (view : SiteView) (from : string) (to : Lineup) : Io (result Failed unit) :=
  let? live := live_state view from in
  let? _ := or_else (FailedBack ∘ io_error "the band's state was not stored") (save_state from live) in
  let? _ := or_else (FailedBack ∘ io_error "the switch's intent was not written") (set_intent (mkSwitchIntent from (lu_id to))) in
  done ← forward r live from to;
  match done with
  | Err e => go_back live e
  | Ok _ => _ ← clear_intent; mret (Ok tt)
  end.

(** The pages frozen, then the steps. *)
Definition switch_run (r : Roster) (view : SiteView) (from : string) (to : Lineup) : Io (result SwitchError unit) :=
  synced ← gets (mv_synced ∘ w_mirror);
  if negb synced then mret (Err SwNotSynced)
  else
    let? was := or_else SwEngine freeze_pages in
    if was : bool then mret (Err SwBusy)
    else
      done ← switch_steps r view from to;
      match done with
      | Ok _ => mret (Ok tt)
      | Err (FailedBack e) => _ ← thaw_pages; mret (Err e)
      | Err (FailedPending e) => _ ← tell ToldReplay; mret (Err (SwPending (SwitchError_text e)))
      end.

(** The roster is read again under the lock; nothing runs in between here. *)
Definition switch_lineup (to : string) (by_ : AuthClaims) : Io (result SwitchError unit) :=
  w ← gets id;
  match sr_roster (w_server w) with
  | None => mret (Err SwNotConfigured)
  | Some r =>
      if negb (may_switch (rs_roster r) by_) then mret (Err SwForbidden)
      else if w_busy w then mret (Err SwBusy)
      else
        match rs_lineup r, roster_lineup (rs_roster r) to with
        | None, _ => fun w => (w, None)
        | Some _, None => mret (Err (SwUnknown to))
        | Some from, Some target =>
            if decide (lu_id target = lu_id from) then mret (Err SwSame)
            else if sr_frozen (w_server w) || sr_settling (w_server w) then mret (Err SwBusy)
            else
              result ← match site (w_server w) with
                       | Some view => switch_run (rs_roster r) view (lu_id from) target
                       | None => mret (Err SwNotSynced)
                       end;
              match result with
              | Ok _ =>
                  _ ← set_active_in_use (lu_id target);
                  _ ← thaw_pages;
                  _ ← tell (ToldLineup (lu_name target));
                  mret (Ok tt)
              | Err e => mret (Err e)
              end
        end
  end.

(** ** Finishing a switch, and going back *)

Definition NOT_SYNCED : string := "the engine state is not synced".

(** [lineup]'s state to the engine, recorded on disk and in use. *)
Definition play (r : Roster) (lineup : Lineup) (stored : option MixerBackup) (other : option Lineup) : Io (result string unit) :=
  w ← gets id;
  if negb (mv_synced (w_mirror w)) then mret (Err NOT_SYNCED)
  else
    let current := mv_state (w_mirror w) in
    let soloed := match other with Some o => soloed_changing (mv_transient (w_mirror w)) o lineup | None => [] end in
    running ← running_of (state_digest current);
    let running := match running with Some r => (rn_follows r, rn_silenced r) | None => (None, ∅) end in
    let '(target, running) := target_of stored current running r lineup in
    let? _ := or_else EngineError_text (request_applied (ImportState target)) in
    let? _ := or_else fe_text (set_active (lu_id lineup) (w_now w)) in
    _ ← note_running running;
    _ ← end_solos soloed;
    _ ← set_active_in_use (lu_id lineup);
    mret (Ok tt).

(** The line-up with this id, or the one in use. *)
Definition lineup_or_active (r : RosterState) (id : string) : option Lineup :=
  match roster_lineup (rs_roster r) id with Some l => Some l | None => rs_lineup r end.

(** Reading what is left to finish; [None]: nothing is, and the pages are freed. *)
Definition unfinished : Io (result string (option (SwitchIntent * RosterState))) :=
  w ← gets id;
  match ls_intent (store_dir w) (w_files w) with
  | Err e => mret (Err (fe_text e))
  | Ok intent =>
      match intent, sr_roster (w_server w) with
      | Some i, Some r => mret (Ok (Some (i, r)))
      | _, _ => _ ← thaw_pages; mret (Ok None)
      end
  end.

Definition replay_intent : Io (result string unit) :=
  let? left := unfinished in
  match left with
  | None => mret (Ok tt)
  | Some (intent, r) =>
      w ← gets id;
      match ls_active (store_dir w) (w_files w) with
      | Err e => mret (Err (fe_text e))
      | Ok active =>
          match lineup_or_active r (si_to intent) with
          | None => fun w => (w, None)
          | Some lineup =>
              let other := roster_lineup (rs_roster r) (si_from intent) in
              let? _ :=
                (if decide (active = Some (si_to intent))
                 then match other with
                      | Some before => _ ← end_solos (soloed_changing (mv_transient (w_mirror w)) before lineup); mret (Ok tt)
                      | None => mret (Ok tt)
                      end
                 else match ls_state (store_dir w) (lu_id lineup) (w_files w) with
                      | Err e => mret (Err (fe_text e))
                      | Ok stored => play (rs_roster r) lineup stored other
                      end) in
              let? _ := or_else fe_text clear_intent in
              _ ← thaw_pages;
              _ ← tell (ToldLineup (lu_name lineup));
              mret (Ok tt)
          end
      end
  end.

Definition fall_back : Io (result string unit) :=
  let? left := unfinished in
  match left with
  | None => mret (Ok tt)
  | Some (intent, r) =>
      w ← gets id;
      match lineup_or_active r (si_from intent) with
      | None => fun w => (w, None)
      | Some lineup =>
          let stored := match ls_state (store_dir w) (lu_id lineup) (w_files w) with Ok stored => stored | Err _ => None end in
          let? _ := play (rs_roster r) lineup stored (roster_lineup (rs_roster r) (si_to intent)) in
          let? _ := or_else fe_text clear_intent in
          _ ← thaw_pages;
          mret (Ok tt)
      end
  end.

Definition MAX_REPLAYS : nat := 3.

Definition NOT_SWITCHED : string := "Kapela neprepnutá".
Definition FELL_BACK : string := "Prepnutie kapely sa nedalo dokončiť: hrá znova kapela pred ním.".
Definition GAVE_UP : string :=
  "Prepnutie kapely sa nedalo dokončiť a kapela pred ním sa nevrátila: server nevie, čie mixy engine drží. Mixy sa dajú znova meniť; skontroluj ich a prepni kapelu znova.".
Definition GAVE_UP_KEPT : string :=
  GAVE_UP +:+ " Server nevedel zmazať rozpracované prepnutie: pri ďalšom štarte sa ho pokúsi dokončiť.".

Inductive Replayed := ReplayedNothing | ReplayedFinished (tries : nat) | ReplayedFellBack (tries : nat) | ReplayedGaveUp.

(** Up to [MAX_REPLAYS] tries of [op], each once the engine has synced: the try
    that did it.  [fuel] counts the waits; [None] is out of fuel. *)
Fixpoint attempts (fuel tries : nat) (op : Io (result string unit)) : Io (option (option nat)) :=
  if (MAX_REPLAYS <=? tries)%nat then mret (Some None)
  else
    match fuel with
    | O => mret None
    | S fuel =>
        synced ← wait_synced;
        if synced : bool then
          r ← op;
          match r with Ok _ => mret (Some (Some (S tries))) | Err _ => attempts fuel (S tries) op end
        else attempts fuel tries op
    end.

Definition replay_when_synced (fuel : nat) : Io (option Replayed) :=
  frozen ← gets (fun w => sr_frozen (w_server w));
  if negb frozen then mret (Some ReplayedNothing)
  else
    done ← attempts fuel 0 replay_intent;
    match done with
    | None => mret None
    | Some (Some tries) => mret (Some (ReplayedFinished tries))
    | Some None =>
        back ← attempts fuel 0 fall_back;
        match back with
        | None => mret None
        | Some (Some _) => _ ← tell (ToldAlarm NOT_SWITCHED FELL_BACK); mret (Some (ReplayedFellBack MAX_REPLAYS))
        | Some None =>
            cleared ← clear_intent;
            _ ← thaw_pages;
            _ ← tell (ToldAlarm NOT_SWITCHED (if is_ok cleared then GAVE_UP else GAVE_UP_KEPT));
            mret (Some ReplayedGaveUp)
        end
    end.

End switch.
