(* ===== verification/SwitchSpec.v ===== *)
(** * One band plays

    A switch of the line-up that plays, with any failure or the process's end at
    any step: what is recorded, what is in use and what the engine holds are one
    band's, or the switch's intent stands and the pages stay frozen until the
    replay has finished it.

    The first part is a program logic for the operations of the world: [spec m P
    Q] is a triple over the [Scene], what of a world matters here. *)

From S2P Require Import Prelude F64 Text MixState Msg Shape Codec Mirror Client LoginGuard Roster Config UiMsg SiteView View BandStore Sessions Pages Lineups LineupStore Switch.
From Stdlib Require Import Ascii.
From stdpp Require Import options.
Local Open Scope Z_scope.
#[local] Unset Default Proof Using.

(** ** The scene *)

(** [sc_running]: what [running.json] holds, which [sc_files] leaves out. *)
Record Scene := mkScene {
  sc_dir : string;
  sc_files : gmap string FileText;
  sc_running : option FileText;
  sc_state : MixState;
  sc_held : option MixState;
  sc_topology : option TopologyInfo;
  sc_frozen : bool;
  sc_settling : bool;
  sc_roster : option RosterState;
}.

(** What the mirror shows, when it is synced. *)
Definition shown (mv : Mirror) : option MixState := if mv_synced mv then Some (mv_state mv) else None.

Definition running_path (dir : string) : string := ls_path dir RUNNING_NAME.

Definition look (w : World) : Scene :=
  let dir := store_dir w in
  mkScene dir (delete (running_path dir) (w_files w)) (w_files w !! running_path dir) (w_engine w).1 (shown (w_mirror w))
    (mv_topology (w_mirror w)) (sr_frozen (w_server w)) (sr_settling (w_server w)) (sr_roster (w_server w)).

Definition on_files (f : gmap string FileText -> gmap string FileText) (v : Scene) : Scene :=
  mkScene (sc_dir v) (f (sc_files v)) (sc_running v) (sc_state v) (sc_held v) (sc_topology v) (sc_frozen v) (sc_settling v) (sc_roster v).
Definition on_running (x : option FileText) (v : Scene) : Scene :=
  mkScene (sc_dir v) (sc_files v) x (sc_state v) (sc_held v) (sc_topology v) (sc_frozen v) (sc_settling v) (sc_roster v).
Definition on_state (s : MixState) (v : Scene) : Scene :=
  mkScene (sc_dir v) (sc_files v) (sc_running v) s (sc_held v) (sc_topology v) (sc_frozen v) (sc_settling v) (sc_roster v).
Definition on_held (h : option MixState) (v : Scene) : Scene :=
  mkScene (sc_dir v) (sc_files v) (sc_running v) (sc_state v) h (sc_topology v) (sc_frozen v) (sc_settling v) (sc_roster v).
Definition on_frozen (b : bool) (v : Scene) : Scene :=
  mkScene (sc_dir v) (sc_files v) (sc_running v) (sc_state v) (sc_held v) (sc_topology v) b (sc_settling v) (sc_roster v).
Definition on_roster (r : option RosterState) (v : Scene) : Scene :=
  mkScene (sc_dir v) (sc_files v) (sc_running v) (sc_state v) (sc_held v) (sc_topology v) (sc_frozen v) (sc_settling v) r.

(** ** Triples *)

Definition spec {A : Type} (P : Scene -> Prop) (m : Io A) (Q : option A -> Scene -> Prop) : Prop :=
  forall w w' o, P (look w) -> m w = (w', o) -> Q o (look w').

Lemma scene_bind {A B : Type} (m : Io A) (k : A -> Io B) P Q R :
  spec P m Q -> (forall a, spec (Q (Some a)) (k a) R) -> (forall v, Q None v -> R None v) -> spec P (m ≫= k) R.
Proof.
  intros Hm Hk Hn w w' o HP Hw. unfold mbind, Io_bind in Hw. destruct (m w) as [w1 [a|]] eqn:Hm1.
  - apply (Hk a w1); [|done]. by apply (Hm w).
  - injection Hw as <- <-. apply Hn. by apply (Hm w).
Qed.

Lemma scene_ret {A : Type} (a : A) P (Q : option A -> Scene -> Prop) : (forall v, P v -> Q (Some a) v) -> spec P (mret a) Q.
Proof. intros H w w' o HP [= <- <-]. by apply H. Qed.

Lemma spec_get {A B : Type} (f : World -> A) (k : A -> Io B) P Q :
  (forall w, P (look w) -> spec (eq (look w)) (k (f w)) Q) -> spec P (gets f ≫= k) Q.
Proof. intros H w w' o HP Hw. by apply (H w HP w). Qed.

Lemma scene_conseq {A : Type} (m : Io A) (P P' : Scene -> Prop) (Q Q' : option A -> Scene -> Prop) :
  spec P' m Q' -> (forall v, P v -> P' v) -> (forall o v, Q' o v -> Q o v) -> spec P m Q.
Proof. intros Hm HP HQ w w' o Hw Heq. apply HQ, (Hm w); [by apply HP|done]. Qed.

Lemma spec_try {E A B : Type} (m : Io (result E A)) (k : A -> Io (result E B)) P Q R :
  spec P m Q -> (forall a, spec (Q (Some (Ok a))) (k a) R) -> (forall e v, Q (Some (Err e)) v -> R (Some (Err e)) v) ->
  (forall v, Q None v -> R None v) -> spec P (try_ m k) R.
Proof.
  intros Hm Hk He Hn. eapply scene_bind; [done| |done]. intros [a|e]; [apply Hk|]. apply scene_ret. by intros v; apply He.
Qed.

Lemma spec_or_else {E E' A : Type} (f : E -> E') (m : Io (result E A)) P Q R :
  spec P m Q -> (forall o v, Q o v -> R (map_err f <$> o) v) -> spec P (or_else f m) R.
Proof.
  intros Hm HR. eapply scene_bind; [done| |].
  - intros a. apply scene_ret. intros v Hv. by apply (HR (Some a)).
  - intros v Hv. by apply (HR None).
Qed.

(** An operation that leaves the scene alone. *)
Definition unseen {A : Type} (m : Io A) : Prop := forall w w' o, m w = (w', o) -> look w' = look w /\ is_Some o.

Lemma spec_unseen {A : Type} (m : Io A) P : unseen m -> spec P m (fun o v => P v /\ is_Some o).
Proof. intros H w w' o HP Hw. destruct (H _ _ _ Hw) as [-> ?]. done. Qed.

Lemma tell_unseen t : unseen (tell t).
Proof. by intros w w' o [= <- <-]. Qed.

(** *** The operations *)

(** How a write or a removal ends. *)
Definition did (f : gmap string FileText -> gmap string FileText) (v : Scene) (o : option (result FileError unit)) (v' : Scene) : Prop :=
  match o with
  | Some (Ok _) => v' = on_files f v
  | Some (Err _) => v' = v
  | None => v' = v \/ v' = on_files f v
  end.

Lemma look_insert path data w :
  path <> running_path (store_dir w) ->
  look (put_w_files (<[path := data]> (w_files w)) w) = on_files (<[path := data]>) (look w).
Proof.
  intros Hp. unfold look, on_files. cbn. change (store_dir (put_w_files _ w)) with (store_dir w).
  f_equal; [by apply delete_insert_ne|by apply lookup_insert_ne].
Qed.

Lemma look_delete path w :
  path <> running_path (store_dir w) -> look (put_w_files (delete path (w_files w)) w) = on_files (delete path) (look w).
Proof.
  intros Hp. unfold look, on_files. cbn. change (store_dir (put_w_files _ w)) with (store_dir w).
  f_equal; [by apply delete_delete|by apply lookup_delete_ne].
Qed.

Lemma write_durable_did path data w w' o :
  path <> running_path (store_dir w) -> write_durable path data w = (w', o) ->
  did (<[path := Readable data]>) (look w) o (look w').
Proof.
  intros Hp. pose proof (look_insert path (Readable data) w Hp) as Hl. unfold write_durable.
  destruct (w_disk w) as [|[|e|[]] l]; intros [= <- <-]; cbn; auto.
Qed.

Lemma remove_file_did path w w' o :
  path <> running_path (store_dir w) -> remove_file path w = (w', o) -> did (delete path) (look w) o (look w').
Proof.
  intros Hp. pose proof (look_delete path w Hp) as Hl. unfold remove_file.
  destruct (w_disk w) as [|[|e|[]] l]; intros [= <- <-]; cbn; auto.
Qed.

(** How a request ends; [v1]: with the request taken. *)
Definition asked (v v1 : Scene) (o : option (result EngineError unit)) (v' : Scene) : Prop :=
  match o with
  | Some (Ok _) => v' = on_held (Some (sc_state v1)) v1
  | Some (Err (ErRefused _)) => v' = v
  | Some (Err _) => exists (b : bool) h, (h = sc_held v \/ h = None) /\ v' = on_held h (if b then v1 else v)
  | None => exists b : bool, v' = if b then v1 else v
  end.

Definition taken_state (topo : option TopologyInfo) (cmd : Cmd) (s : MixState) : MixState :=
  match cmd, topo with
  | ImportState state, Some t => (reconcile t state).1
  | ImportState state, None => state
  | _, _ => s
  end.

Definition taken (cmd : Cmd) (v : Scene) : Scene := on_state (taken_state (sc_topology v) cmd (sc_state v)) v.

Lemma engine_step_state topo cmd e : (engine_step topo cmd e).1 = taken_state topo cmd e.1.
Proof. by destruct cmd, topo. Qed.

Lemma on_held_id v : on_held (sc_held v) v = v.
Proof. by destruct v. Qed.

Lemma request_asked cmd w w' o : request_applied cmd w = (w', o) -> asked (look w) (taken cmd (look w)) o (look w').
Proof.
  unfold request_applied, taken, asked. pose proof (engine_step_state (mv_topology (w_mirror w)) cmd (w_engine w)) as Hs.
  destruct (sr_connected (w_server w)); cbn [negb].
  2:{ intros [= <- <-]. exists false, (sc_held (look w)). split; [by left|by rewrite on_held_id]. }
  destruct (w_answers w) as [|a l]; [intros [= <- <-]|destruct a as [|b|taken gone|taken]; [intros [= <- <-]| | |]].
  1,2: unfold look, on_held, on_state; cbn; by rewrite Hs.
  - by intros [= <- <-].
  - destruct gone; intros [= <- <-]; exists taken; [exists None|exists (sc_held (look w))]; (split; [auto|]);
      destruct taken; unfold look, on_held, on_state; cbn; by rewrite ?Hs.
  - intros [= <- <-]. exists taken. destruct taken; unfold look, on_state; cbn; by rewrite ?Hs.
Qed.

(** *** Sequencing them *)

(** [m], from [v], is a write of [f]; is a request. *)
Definition writes (m : Io (result FileError unit)) (f : gmap string FileText -> gmap string FileText) (v : Scene) : Prop :=
  forall w w' o, look w = v -> m w = (w', o) -> did f v o (look w').

Lemma spec_writes {B : Type} m f v (k : result FileError unit -> Io B) Q :
  writes m f v -> spec (eq (on_files f v)) (k (Ok tt)) Q -> (forall e, spec (eq v) (k (Err e)) Q) ->
  Q None v -> Q None (on_files f v) -> spec (eq v) (m ≫= k) Q.
Proof.
  intros Hm Hok Herr H1 H2. eapply (scene_bind _ _ _ (did f v)).
  - intros w w' o -> Hw. by eapply Hm.
  - intros [[]|e] w w' o Hd Hw; [eapply Hok|eapply Herr]; try exact Hw; done.
  - by intros v' [->| ->].
Qed.

Lemma spec_try_writes {E B : Type} (h : FileError -> E) m f v (k : unit -> Io (result E B)) Q :
  writes m f v -> spec (eq (on_files f v)) (k tt) Q -> (forall e, Q (Some (Err (h e))) v) ->
  Q None v -> Q None (on_files f v) -> spec (eq v) (try_ (or_else h m) k) Q.
Proof.
  intros Hm Hok Herr H1 H2. eapply spec_try; [eapply (spec_or_else h m _ (did f v) (fun o v' => exists o', o = map_err h <$> o' /\ did f v o' v'))| | |].
  - intros w w' o -> Hw. by eapply Hm.
  - eauto.
  - intros [] w w' o (o' & Ho & Hd) Hw. destruct o' as [[[]|e]|]; simplify_eq/=. by eapply Hok.
  - intros e v' (o' & Ho & Hd). destruct o' as [[[]|e']|]; by simplify_eq/=.
  - intros v' (o' & Ho & Hd). destruct o' as [[]|]; simplify_eq/=. by destruct Hd as [->| ->].
Qed.

Lemma spec_asks {B : Type} cmd v (k : result EngineError unit -> Io B) Q :
  spec (eq (on_held (Some (sc_state (taken cmd v))) (taken cmd v))) (k (Ok tt)) Q ->
  (forall e (b : bool) h, h = sc_held v \/ h = None -> spec (eq (on_held h (if b then taken cmd v else v))) (k (Err e)) Q) ->
  (forall b : bool, Q None (if b then taken cmd v else v)) ->
  spec (eq v) (request_applied cmd ≫= k) Q.
Proof.
  intros Hok Herr Hd. eapply (scene_bind _ _ _ (asked v (taken cmd v))).
  - intros w w' o -> Hw. by apply request_asked.
  - intros [[]|e] w w' o Ha Hw; [by eapply Hok|].
    destruct e as [|b|]; cbn in Ha; [|eapply (Herr _ false (sc_held v)); [by left|by rewrite on_held_id|exact Hw]|];
      destruct Ha as (b & h & Hh & Hv); (eapply (Herr _ b h); [done| |exact Hw]); by rewrite Hv.
  - by intros v' [b ->].
Qed.

(** [or_else] and [?] after a request. *)
Lemma spec_try_asks {E B : Type} (h : EngineError -> E) cmd v (k : unit -> Io (result E B)) Q :
  spec (eq (on_held (Some (sc_state (taken cmd v))) (taken cmd v))) (k tt) Q ->
  (forall e (b : bool) x, x = sc_held v \/ x = None -> Q (Some (Err (h e))) (on_held x (if b then taken cmd v else v))) ->
  (forall b : bool, Q None (if b then taken cmd v else v)) ->
  spec (eq v) (try_ (or_else h (request_applied cmd)) k) Q.
Proof.
  intros Hok Herr Hd w w' o Hv Hw.
  refine (spec_asks cmd v (fun r => match map_err h r with Ok a => k a | Err e => mret (Err e) end) Q Hok _ Hd w w' o Hv _).
  - intros e b x Hx. apply scene_ret. intros v' <-. by apply Herr.
  - rewrite <-Hw. unfold try_, or_else, mbind, Io_bind. by destruct (request_applied cmd w) as [? [[]|]].
Qed.

(** *** Paths and what the files say *)

Section files.
Context `{OsKind, Serde ActiveFile, Serde SwitchIntent, Serde Running, Serde BackupHead, Serde MixerBackup, Serde MixState,
  Serde CustomizationFile, Sha256}.

Definition state_path (dir id : string) : string := ls_path (data_dir dir id) STATE_NAME.

Lemma state_path_ne dir id name : lacks "/"%char name -> state_path dir id <> ls_path dir name.
Proof.
  intros Hl Heq. unfold state_path, data_dir, ls_path in Heq. rewrite !str_app_assoc in Heq. apply (inj (String.app dir)) in Heq.
  injection Heq as Heq. change (id +:+ "/state.json" = name) in Heq. rewrite <-Heq in Hl. by apply lacks_suffix in Hl.
Qed.

Lemma state_path_inj dir id id' : state_path dir id = state_path dir id' -> id = id'.
Proof.
  unfold state_path, data_dir, ls_path. rewrite !str_app_assoc. intros Heq. apply (inj (String.app dir)) in Heq.
  injection Heq as Heq. change (id +:+ "/state.json" = id' +:+ "/state.json") in Heq. revert id' Heq.
  assert (Hlen : forall a b, a +:+ "/state.json" = b +:+ "/state.json" -> slen a = slen b).
  { intros a b Hab. apply (f_equal slen) in Hab. rewrite !slen_app in Hab. lia. }
  induction id as [|c id IH]; intros [|c' id'] Heq; [done|discriminate (Hlen "" (String c' id') Heq)|discriminate (Hlen (String c id) "" Heq)|].
  injection Heq as -> Heq. f_equal. by apply IH.
Qed.

(** What a file says depends on the file only. *)
Lemma read_as_lookup {A : Type} (f : string -> result string A) fs fs' path :
  fs !! path = fs' !! path -> read_as f fs path = read_as f fs' path.
Proof. unfold read_as, read_optional. by intros ->. Qed.

Definition active_of (v : Scene) : result FileError (option string) := ls_active (sc_dir v) (sc_files v).
Definition intent_of (v : Scene) : result FileError (option SwitchIntent) := ls_intent (sc_dir v) (sc_files v).
Definition stored_of (id : string) (v : Scene) : result FileError (option MixerBackup) := ls_state (sc_dir v) id (sc_files v).

Lemma ls_state_lookup dir id fs fs' :
  fs !! state_path dir id = fs' !! state_path dir id -> ls_state dir id fs = ls_state dir id fs'.
Proof. intros Hl. unfold ls_state. destruct (check_lineup_id id); [|done]. by apply read_as_lookup. Qed.

Lemma look_active w : ls_active (store_dir w) (w_files w) = active_of (look w).
Proof. apply read_as_lookup. cbn. rewrite lookup_delete_ne; [done|by apply ls_names_ne]. Qed.
Lemma look_intent w : ls_intent (store_dir w) (w_files w) = intent_of (look w).
Proof. apply read_as_lookup. cbn. rewrite lookup_delete_ne; [done|by apply ls_names_ne]. Qed.
Lemma look_stored w id : ls_state (store_dir w) id (w_files w) = stored_of id (look w).
Proof. apply ls_state_lookup. cbn. rewrite lookup_delete_ne; [done|]. apply not_eq_sym, state_path_ne. by vm_compute. Qed.

(** *** After a write *)

Class SerdeOk (F : Type) `{Serde F} : Prop := serde_back : forall x : F, of_json (to_json x) = Ok x.

Context `{!SerdeOk ActiveFile, !SerdeOk SwitchIntent}.

Definition write_active (dir id : string) (since : Z) : gmap string FileText -> gmap string FileText :=
  <[ls_path dir ACTIVE_NAME := Readable (to_json (mkActiveFile ACTIVE_FORMAT id since))]>.
Definition write_intent (dir : string) (i : SwitchIntent) : gmap string FileText -> gmap string FileText :=
  <[ls_path dir SWITCH_NAME := Readable (to_json i)]>.
Definition write_state (dir id : string) (b : MixerBackup) : gmap string FileText -> gmap string FileText :=
  <[state_path dir id := Readable (to_json b)]>.
Definition drop_intent (dir : string) : gmap string FileText -> gmap string FileText := delete (ls_path dir SWITCH_NAME).

Lemma check_ok id : valid_lineup_id id = true -> check_lineup_id id = Ok tt.
Proof. unfold check_lineup_id. by intros ->. Qed.

Lemma active_written dir id since fs :
  valid_lineup_id id = true -> ls_active dir (write_active dir id since fs) = Ok (Some id).
Proof.
  intros Hv. unfold ls_active, read_as, read_optional, write_active. rewrite lookup_insert_eq. cbn.
  rewrite serde_back. cbn. rewrite bool_decide_true by done. cbn. unfold lineup_id_or_text. by rewrite check_ok.
Qed.

Lemma intent_written dir i fs :
  valid_lineup_id (si_from i) = true -> valid_lineup_id (si_to i) = true -> ls_intent dir (write_intent dir i fs) = Ok (Some i).
Proof.
  intros Hf Ht. unfold ls_intent, read_as, read_optional, write_intent. rewrite lookup_insert_eq. cbn.
  rewrite serde_back. cbn. unfold lineup_id_or_text. by rewrite !check_ok.
Qed.

Lemma intent_dropped dir fs : ls_intent dir (drop_intent dir fs) = Ok None.
Proof. unfold ls_intent, read_as, read_optional, drop_intent. by rewrite lookup_delete_eq. Qed.

End files.

(** The files are distinct. *)
Ltac other_file :=
  first [apply read_as_lookup | apply ls_state_lookup]; unfold write_active, write_intent, write_state, drop_intent;
  cbn [sc_files sc_dir on_files on_running on_state on_held on_frozen on_roster];
  rewrite ?lookup_insert_ne, ?lookup_delete_ne;
  try first [done | by apply ls_names_ne | by apply state_path_ne; vm_compute | by apply not_eq_sym, state_path_ne; vm_compute].

(** ** The operations of the switch *)

Section operations.
Context `{OsKind, Serde ActiveFile, Serde SwitchIntent, Serde Running, Serde BackupHead, Serde MixerBackup, Serde MixState,
  Serde CustomizationFile, Sha256}.

Lemma checked_writes id m f v : writes m f v -> writes (checked id m) f v.
Proof.
  intros Hm w w' o Hl. unfold checked. destruct (check_lineup_id id); [by apply Hm|]. by intros [= <- <-].
Qed.

Lemma set_file_writes name data v :
  name <> RUNNING_NAME -> writes (set_file name data) (<[ls_path (sc_dir v) name := Readable data]>) v.
Proof. intros Hn w w' o <- Hw. apply write_durable_did in Hw; [done|by apply ls_names_ne]. Qed.

Lemma set_active_writes id since v : writes (set_active id since) (write_active (sc_dir v) id since) v.
Proof. by apply checked_writes, set_file_writes. Qed.

Lemma set_intent_writes i v : writes (set_intent i) (write_intent (sc_dir v) i) v.
Proof. by apply checked_writes, checked_writes, set_file_writes. Qed.

Lemma save_state_writes id b v : writes (save_state id b) (write_state (sc_dir v) id b) v.
Proof.
  apply checked_writes. intros w w' o <- Hw. apply write_durable_did in Hw; [done|by apply state_path_ne; vm_compute].
Qed.

Lemma clear_intent_writes v : writes clear_intent (drop_intent (sc_dir v)) v.
Proof. intros w w' o <- Hw. apply remove_file_did in Hw; [done|by apply ls_names_ne]. Qed.

(** What the running state follows is in its own file. *)
Lemma note_running_spec r v : spec (eq v) (note_running r) (fun _ v' => exists x, v' = on_running x v).
Proof.
  intros w w' o -> Hw. unfold note_running, mbind, Io_bind in Hw.
  assert (Hset : forall w' o, set_running r w = (w', o) -> exists x, look w' = on_running x (look w)).
  { clear w' o Hw. intros w' o. unfold set_running, checked. destruct (check_lineup_id _).
    2:{ intros [= <- <-]. by exists (sc_running (look w)). }
    unfold set_file, mbind, Io_bind, gets, write_durable.
    assert (Hput : look (put_w_files (<[running_path (store_dir w) := Readable (to_json r)]> (w_files w)) w)
                   = on_running (Some (Readable (to_json r))) (look w)).
    { unfold look, on_running. cbn. change (store_dir (put_w_files _ w)) with (store_dir w).
      by rewrite lookup_insert_eq, delete_insert_eq. }
    destruct (w_disk w) as [|[|e|[]] l]; intros [= <- <-]; try (by exists (sc_running (look w)));
      exists (Some (Readable (to_json r))); exact Hput. }
  destruct (set_running r w) as [w1 [a|]] eqn:Hs; injection Hw as <- <-; by apply (Hset _ _ eq_refl).
Qed.

(** What it follows, from the file of it. *)
Definition recorded_for (dir lineup held : string) (x : option FileText) : option string * gset string :=
  match ls_running dir (partial_alter (fun _ => x) (running_path dir) ∅) with
  | Ok (Some r) => let r := resolved r held in if decide (rn_lineup r = lineup) then (rn_follows r, rn_silenced r) else (None, ∅)
  | _ => (None, ∅)
  end.

Lemma running_for_spec lineup held v :
  spec (eq v) (running_for lineup held)
    (fun o v' => (exists x, v' = on_running x v) /\ forall a, o = Some a -> a = recorded_for (sc_dir v) lineup held (sc_running v)).
Proof.
  intros w w' o -> Hw. unfold running_for, running_of in Hw. unfold mbind, Io_bind, gets, mret, Io_ret in Hw. cbn in Hw.
  assert (Hread : ls_running (store_dir w) (w_files w)
                  = ls_running (sc_dir (look w)) (partial_alter (fun _ => sc_running (look w)) (running_path (sc_dir (look w))) ∅)).
  { apply read_as_lookup. by rewrite lookup_partial_alter_eq. }
  assert (Hsame : exists x, look w = on_running x (look w)) by by exists (sc_running (look w)).
  unfold recorded_for. rewrite <-Hread. destruct (ls_running _ _) as [[r|]|e]; [|by simplify_eq; split; [|intros ? [= <-]]..].
  cbn zeta. destruct (rn_pending r) as [p|] eqn:Hp.
  - destruct (note_running (resolved r held) w) as [w1 o1] eqn:Hn.
    pose proof (note_running_spec _ _ w w1 o1 eq_refl Hn) as Hr. destruct o1; injection Hw as <- <-; (split; [done|]); [|done].
    by intros ? [= <-].
  - replace (resolved r held) with r by (unfold resolved; by rewrite Hp). injection Hw as <- <-. split; [done|]. by intros ? [= <-].
Qed.

(** The end of a solo changes no mix. *)
Lemma end_solos_spec mixes v : spec (eq v) (end_solos mixes) (fun _ v' => exists h, v' = on_held h v).
Proof.
  revert v. induction mixes as [|m mixes IH]; intros v; cbn [end_solos].
  - apply scene_ret. intros ? <-. exists (sc_held v). by rewrite on_held_id.
  - assert (Ht : taken (SetSolo m []) v = v) by by destruct v. apply spec_asks; rewrite Ht.
    + eapply scene_conseq; [apply IH|done|]. cbn. intros _ v' [h ->]. by exists h.
    + intros _ b h _. replace (if b then v else v) with v by by destruct b.
      eapply scene_conseq; [apply IH|done|]. cbn. intros _ v' [h' ->]. by exists h'.
    + intros b. exists (sc_held v). rewrite on_held_id. by destruct b.
Qed.

(** *** The gate *)

Lemma modify_spec f v g : (forall w, look w = v -> look (f w) = g) -> spec (eq v) (modify f) (fun o v' => o = Some tt /\ v' = g).
Proof. intros Hf w w' o Hv [= <- <-]. split; [done|]. by apply Hf. Qed.

Lemma look_frozen s' w b :
  sr_frozen s' = b -> sr_dir s' = sr_dir (w_server w) -> sr_files s' = sr_files (w_server w) -> sr_mirror s' = sr_mirror (w_server w) ->
  sr_settling s' = sr_settling (w_server w) -> sr_roster s' = sr_roster (w_server w) -> look (put_server s' w) = on_frozen b (look w).
Proof.
  intros E1 E2 E3 E4 E5 E6. unfold look, on_frozen, store_dir, w_files, w_mirror. cbn. by rewrite E1, E2, E3, E4, E5, E6.
Qed.

Lemma thaw_after_frozen changed s :
  let s' := thaw_after changed s in
  sr_frozen s' = false /\ sr_dir s' = sr_dir s /\ sr_files s' = sr_files s /\ sr_mirror s' = sr_mirror s
  /\ sr_settling s' = sr_settling s /\ sr_roster s' = sr_roster s.
Proof.
  unfold thaw_after. cbv zeta. destruct (sr_frozen s && _); [|done].
  unfold announce_lineup. by destruct (sr_lineup _).
Qed.

Lemma thaw_spec v : spec (eq v) thaw_pages (fun o v' => o = Some tt /\ v' = on_frozen false v).
Proof.
  apply modify_spec. intros w <-. destruct (thaw_after_frozen true (w_server w)) as (?&?&?&?&?&?). by apply look_frozen.
Qed.

Definition with_active (id : string) (r : option RosterState) : option RosterState :=
  (fun r => mkRosterState (rs_roster r) (rs_sha256 r) id) <$> r.

Lemma set_active_in_use_spec id v :
  spec (eq v) (set_active_in_use id) (fun o v' => o = Some tt /\ v' = on_roster (with_active id (sc_roster v)) v).
Proof.
  intros w w' o -> Hw. unfold set_active_in_use, gets, mbind, Io_bind in Hw.
  destruct (sr_roster (w_server w)) as [r|] eqn:Hr; injection Hw as <- <-; (split; [done|]); unfold look, on_roster; cbn; by rewrite Hr.
Qed.

(** The barrier: what lands, then the pages frozen and the mirror what the
    engine holds. *)
Definition landed_state (w : World) : MixState :=
  match w_landing w with e :: _ => if sr_frozen (w_server w) then (w_engine w).1 else e.1 | [] => (w_engine w).1 end.

Lemma land_spec w w' o : land w = (w', o) -> o = Some tt /\ look w' = on_state (landed_state w) (look w).
Proof.
  unfold land, landed_state. destruct (w_landing w) as [|e l]; [|destruct (sr_frozen _)]; intros [= <- <-]; (split; [done|]); done.
Qed.

Lemma taken_ping v : taken Ping v = v.
Proof. by destruct v as [? ? ? ? ? [] ? ? ?]. Qed.

Lemma freeze_spec w w' o :
  sr_frozen (w_server w) = false -> freeze_pages w = (w', o) ->
  let v := on_state (landed_state w) (look w) in
  match o with
  | Some (Ok was) => was = false /\ look w' = on_frozen true (on_held (Some (landed_state w)) v)
  | Some (Err _) => exists h, look w' = on_held h v
  | None => look w' = v
  end.
Proof.
  intros Hf Hw v. unfold freeze_pages, mbind, Io_bind in Hw. destruct (land w) as [w1 o1] eqn:Hl.
  destruct (land_spec _ _ _ Hl) as [-> Hv]. fold v in Hv. destruct (request_applied Ping w1) as [w2 o2] eqn:Hr.
  apply request_asked in Hr. rewrite Hv, taken_ping in Hr.
  assert (Hfw : forall b h, look w2 = on_held h v -> look (put_server (freeze b (w_server w2)).1 w2) = on_frozen b (look w2)).
  { intros b h Hh. assert (Hf2 : sr_frozen (w_server w2) = false) by (apply (f_equal sc_frozen) in Hh; cbn in Hh; congruence).
    unfold freeze. destruct b; [by apply look_frozen|]. rewrite Hf2. cbn -[look].
    destruct (thaw_after_frozen false (put_frozen true (sr_missed (w_server w2)) (w_server w2))) as (?&?&?&?&?&?). by apply look_frozen. }
  assert (Hwas : forall h, look w2 = on_held h v -> sr_frozen (w_server w2) = false).
  { intros h Hh. apply (f_equal sc_frozen) in Hh. cbn in Hh. congruence. }
  assert (Hh2 : forall h, on_frozen false (on_held h v) = on_held h v).
  { intros h. unfold v, on_frozen, on_held. cbn. by rewrite Hf. }
  unfold gets, modify, mret, Io_ret in Hw. destruct o2 as [[[]|e]|]; injection Hw as <- <-.
  - cbn in Hr. split; [by eapply Hwas|]. etrans; [by apply (Hfw true _ Hr)|]. by rewrite Hr.
  - assert (He : exists h, look w2 = on_held h v).
    { destruct e; cbn in Hr; [|by exists (sc_held v); rewrite on_held_id|]; destruct Hr as ([] & h & _ & ->); by exists h. }
    destruct He as [h He]. exists h. etrans; [by apply (Hfw false _ He)|]. by rewrite He.
  - by destruct Hr as [[] ->].
Qed.

End operations.

(** ** The steps *)

(** What no step of a switch changes but the gate and the roster in use. *)
Definition kept (v v' : Scene) : Prop :=
  sc_dir v' = sc_dir v /\ sc_topology v' = sc_topology v /\ sc_frozen v' = sc_frozen v /\ sc_settling v' = sc_settling v
  /\ sc_roster v' = sc_roster v.

Lemma kept_trans v1 v2 v3 : kept v1 v2 -> kept v2 v3 -> kept v1 v3.
Proof. unfold kept. intros (?&?&?&?&?) (?&?&?&?&?). split_and!; congruence. Qed.

Section steps.
Context `{OsKind, Serde ActiveFile, Serde SwitchIntent, Serde Running, Serde BackupHead, Serde MixerBackup, Serde MixState,
  Serde CustomizationFile, Sha256}.
Context `{!SerdeOk ActiveFile, !SerdeOk SwitchIntent}.
Context (r : Roster) (from : string) (to : Lineup) (t : TopologyInfo) (s : MixState).
Hypothesis Hfrom : valid_lineup_id from = true.
Hypothesis Hto : valid_lineup_id (lu_id to) = true.
Hypothesis Hne : lu_id to <> from.
Hypothesis Hdistinct : mixes_distinct t.
Hypothesis Hfits : fits t s.

Definition the_intent : SwitchIntent := mkSwitchIntent from (lu_id to).

Lemma reconcile_live : (reconcile t s).1 = s.
Proof. by rewrite reconcile_fixed. Qed.

Definition target_state (stored : option MixerBackup) (running : option string * gset string) : MixState :=
  (reconcile t (target_of stored s running r to).1).1.

Definition not_pending (e : SwitchError) : Prop := forall why, e <> SwPending why.

(** Nothing else of the scene changes, nor the target's stored state. *)
Definition stays (v v' : Scene) : Prop := kept v v' /\ stored_of (lu_id to) v' = stored_of (lu_id to) v.

Lemma stays_trans v1 v2 v3 : stays v1 v2 -> stays v2 v3 -> stays v1 v3.
Proof. intros [? ?] [? ?]. split; [by eapply kept_trans|congruence]. Qed.

(** The band before is recorded, or the target is and its state is in. *)
Definition recorded (T : result FileError MixState) (v : Scene) : Prop :=
  active_of v = Ok (Some from) \/ active_of v = Ok (Some (lu_id to)) /\ T = Ok (sc_state v).

Definition forward_end (v : Scene) (T : result FileError MixState) (o : option (result SwitchError unit)) (v' : Scene) : Prop :=
  stays v v' /\ intent_of v' = Ok (Some the_intent)
  /\ match o with
     | Some (Ok _) => active_of v' = Ok (Some (lu_id to)) /\ T = Ok (sc_state v')
     | Some (Err e) => active_of v' = Ok (Some from) /\ not_pending e
     | None => recorded T v'
     end.

Lemma forward_spec live v :
  sc_topology v = Some t -> active_of v = Ok (Some from) -> intent_of v = Ok (Some the_intent) -> mb_state live = s ->
  spec (eq v) (forward r live from to)
    (forward_end v ((fun stored => target_state stored (mb_follows live, mb_silenced live)) <$> stored_of (lu_id to) v)).
Proof.
  intros Ht Ha Hi Hl. apply spec_get. intros w ->. cbn [id]. rewrite look_stored.
  destruct (stored_of (lu_id to) (look w)) as [stored|e]; [|by apply scene_ret; intros v1 <-].
  rewrite Hl. assert (HT : target_state stored (mb_follows live, mb_silenced live)
    = (reconcile t (target_of stored s (mb_follows live, mb_silenced live) r to).1).1) by done.
  destruct (target_of stored s (mb_follows live, mb_silenced live) r to) as [target running]. cbn [fst] in HT.
  assert (Htk : taken (ImportState target) (look w) = on_state (reconcile t target).1 (look w)) by (unfold taken; by rewrite Ht).
  apply spec_try_asks; rewrite Htk.
  2:{ intros e b h _. unfold forward_end. by destruct b. }
  2:{ intros b. unfold forward_end. destruct b; (split_and!; [done|done|by left]). }
  assert (Hst : forall v, stored_of (lu_id to) (on_files (write_active (sc_dir v) (lu_id to) (w_now w)) v) = stored_of (lu_id to) v)
    by (intros v; other_file).
  eapply spec_try_writes; [apply set_active_writes| | | |].
  2:{ by intros e. }
  2:{ split; [done|split; [done|by left]]. }
  2:{ split; [by split; [|etrans; [apply Hst|]]|split]; [rewrite <-Hi; other_file|]. right. split; [by apply active_written|by rewrite <-HT]. }
  set (v := on_files _ _). assert (Hv : forward_end (look w) (Ok (target_state stored (mb_follows live, mb_silenced live))) (Some (Ok tt)) v).
  { rewrite HT. split; [by split; [|etrans; [apply Hst|]]|split; [|by split; [apply active_written|]]]. rewrite <-Hi. unfold v. other_file. }
  assert (Hv' : forward_end (look w) (Ok (target_state stored (mb_follows live, mb_silenced live))) None v).
  { destruct Hv as (? & ? & ?). split_and!; [done|done|by right]. }
  eapply scene_bind; [apply note_running_spec| |].
  - intros []. eapply (scene_bind _ _ _ (fun _ v' => exists x h, v' = on_held h (on_running x v))).
    + intros w2 w2' o [x Hx] Hw. destruct (end_solos_spec _ _ _ _ _ eq_refl Hw) as [h ->]. exists x, h. by rewrite Hx.
    + intros []. apply scene_ret. intros v' (x & h & ->). exact Hv.
    + intros v' (x & h & ->). exact Hv'.
  - intros v' (x & ->). exact Hv'.
Qed.

Definition steps_end (v : Scene) (T : result FileError MixState) (o : option (result Failed unit)) (v' : Scene) : Prop :=
  stays v v'
  /\ match o with
     | Some (Ok _) => active_of v' = Ok (Some (lu_id to)) /\ T = Ok (sc_state v')
     | Some (Err (FailedBack e)) => active_of v' = Ok (Some from) /\ sc_state v' = s /\ not_pending e
     | Some (Err (FailedPending _)) => active_of v' = Ok (Some from) /\ intent_of v' = Ok (Some the_intent)
     | None =>
         recorded T v'
         /\ (intent_of v' = Ok (Some the_intent)
             \/ intent_of v' = Ok None /\ (active_of v' = Ok (Some from) -> sc_state v' = s))
     end.

Lemma go_back_spec live e T v v1 :
  not_pending e -> mb_state live = s -> sc_topology v1 = Some t -> stays v v1 -> active_of v1 = Ok (Some from) -> intent_of v1 = Ok (Some the_intent) ->
  spec (eq v1) (go_back live e) (steps_end v T).
Proof.
  intros He Hl Ht Hk Ha Hi. unfold go_back. rewrite Hl.
  assert (Htk : taken (ImportState s) v1 = on_state s v1) by (unfold taken; by rewrite Ht; cbn; rewrite reconcile_live).
  set (v2 := on_held (Some s) (on_state s v1)). assert (Hd : stays v (on_files (drop_intent (sc_dir v2)) v2)).
  { eapply stays_trans; [done|]. split; [done|]. unfold v2. other_file. }
  assert (Ha' : active_of (on_files (drop_intent (sc_dir v2)) v2) = Ok (Some from)) by (rewrite <-Ha; unfold v2; other_file).
  apply spec_asks; rewrite Htk.
  - change (spec (eq v2) (clear_intent ≫= fun _ => mret (Err (FailedBack e))) (steps_end v T)).
    eapply spec_writes; [apply clear_intent_writes| | | |].
    + apply scene_ret. intros v' <-. split; [done|split; [exact Ha'|done]].
    + intros e1. apply scene_ret. by intros v' <-.
    + split; [done|]. split; by left.
    + split; [done|]. split; [by left|]. right. by split; [apply intent_dropped|].
  - intros e' b h _. apply scene_ret. intros v' <-. unfold steps_end. by destruct b.
  - intros b. unfold steps_end. destruct b; (split; [done|]; split; by left).
Qed.

(** The target plays and is recorded: clearing the intent may fail. *)
Lemma switched_spec v T v1 :
  stays v v1 -> active_of v1 = Ok (Some (lu_id to)) -> T = Ok (sc_state v1) -> intent_of v1 = Ok (Some the_intent) ->
  spec (eq v1) (_ ← clear_intent; mret (Ok tt)) (steps_end v T).
Proof.
  intros Hk Ha HT Hi.
  assert (Ha' : active_of (on_files (drop_intent (sc_dir v1)) v1) = Ok (Some (lu_id to))) by (rewrite <-Ha; other_file).
  assert (Hd : stays v (on_files (drop_intent (sc_dir v1)) v1)).
  { eapply stays_trans; [done|]. split; [done|]. other_file. }
  eapply spec_writes; [apply clear_intent_writes| | | |].
  - by apply scene_ret; intros v' <-.
  - intros e. by apply scene_ret; intros v' <-.
  - split; [done|]. split; [by right|by left].
  - split; [done|]. split; [by right|]. right. split; [apply intent_dropped|]. rewrite Ha'. congruence.
Qed.

(** From the live state on. *)
Lemma steps_stored_spec live v T v1 :
  mb_state live = s -> sc_topology v1 = Some t -> sc_state v1 = s -> active_of v1 = Ok (Some from) -> intent_of v1 = Ok None ->
  T = (fun stored => target_state stored (mb_follows live, mb_silenced live)) <$> stored_of (lu_id to) v1 ->
  stays v v1 ->
  spec (eq v1)
    (let? _ := or_else (FailedBack ∘ io_error "the band's state was not stored") (save_state from live) in
     let? _ := or_else (FailedBack ∘ io_error "the switch's intent was not written") (set_intent the_intent) in
     done ← forward r live from to;
     match done with
     | Err e => go_back live e
     | Ok _ => _ ← clear_intent; mret (Ok tt)
     end) (steps_end v T).
Proof.
  intros Hl Ht Hs Ha Hi HT Hk.
  assert (Hnone : forall v', stays v v' -> intent_of v' = Ok None -> active_of v' = Ok (Some from) -> sc_state v' = s -> steps_end v T None v').
  { intros v' ????. split; [done|]. split; [by left|]. by right. }
  assert (Hst2 : stored_of (lu_id to) (on_files (write_state (sc_dir v1) from live) v1) = stored_of (lu_id to) v1).
  { other_file. by intros ?%state_path_inj. }
  assert (Hk2 : stays v (on_files (write_state (sc_dir v1) from live) v1)) by (by eapply stays_trans; [|split; [|exact Hst2]]).
  eapply spec_try_writes; [apply save_state_writes| | | |]; [|done|by apply Hnone|].
  2:{ apply Hnone; try done; [rewrite <-Hi|rewrite <-Ha]; other_file. }
  set (v2 := on_files _ v1). assert (Ha2 : active_of v2 = Ok (Some from)) by (rewrite <-Ha; unfold v2; other_file).
  assert (Hi2 : intent_of v2 = Ok None) by (rewrite <-Hi; unfold v2; other_file).
  assert (Hst3 : stored_of (lu_id to) (on_files (write_intent (sc_dir v2) the_intent) v2) = stored_of (lu_id to) v2) by other_file.
  assert (Hk3 : stays v (on_files (write_intent (sc_dir v2) the_intent) v2)) by (by eapply stays_trans; [|split; [|exact Hst3]]).
  assert (Ha3 : active_of (on_files (write_intent (sc_dir v2) the_intent) v2) = Ok (Some from)) by (rewrite <-Ha2; other_file).
  eapply spec_try_writes; [apply set_intent_writes| | | |]; [|done|by apply Hnone|].
  2:{ split; [done|]. split; [by left|]. left. by apply intent_written. }
  set (v3 := on_files _ v2) in *.
  assert (Hi3 : intent_of v3 = Ok (Some the_intent)) by by apply intent_written.
  assert (Hst : stored_of (lu_id to) v3 = stored_of (lu_id to) v1) by exact (eq_trans Hst3 Hst2).
  eapply scene_bind; [by apply forward_spec| |].
  - intros [[]|e] w w' o (Hk4 & Hi' & Hend) Hw; cbn in Hend.
    + destruct Hend as [Hae HTe]. rewrite Hst, <-HT in HTe. refine (switched_spec v T (look w) _ Hae HTe Hi' w w' o eq_refl Hw).
      by eapply stays_trans.
    + refine (go_back_spec live e T v (look w) (proj2 Hend) Hl _ _ (proj1 Hend) Hi' w w' o eq_refl Hw); [|by eapply stays_trans].
      destruct Hk4 as [Hk4 _]; destruct Hk4 as (_ & -> & _). exact Ht.
  - intros v' (Hk4 & Hi' & Hend). split; [by eapply stays_trans|]. split; [|by left]. by rewrite HT, <-Hst.
Qed.

Lemma steps_spec view v :
  sc_topology v = Some t -> sc_state v = s -> sc_held v = Some s -> active_of v = Ok (Some from) -> intent_of v = Ok None ->
  spec (eq v) (switch_steps r view from to)
    (steps_end v ((fun stored => target_state stored (recorded_for (sc_dir v) from (state_digest s) (sc_running v))) <$> stored_of (lu_id to) v)).
Proof.
  intros Ht Hs Hh Ha Hi. set (T := _ <$> _). set (rec := recorded_for _ _ _ _) in T.
  assert (Hrest : forall x, stays v (on_running x v)) by done.
  assert (Hnone : forall x, steps_end v T None (on_running x v)) by (intros x; split; [done|]; split; [by left|]; by right).
  eapply (spec_try _ _ _ (fun o v' => (exists x, v' = on_running x v)
    /\ match o with
       | Some (Ok live) => mb_state live = s /\ (mb_follows live, mb_silenced live) = rec
       | Some (Err e) => exists e', e = FailedBack e' /\ not_pending e'
       | None => True
       end)).
  - apply spec_get. intros w ->. cbn [id]. assert (Hsame : look w = on_running (sc_running (look w)) (look w)) by by destruct w.
    destruct (mv_synced (w_mirror w)) eqn:Hsy; cbn [negb]; [|apply scene_ret; intros v' <-; split; [exact (ex_intro _ _ Hsame)|by eexists; split; [done|intros ?]]].
    assert (Hm : mv_state (w_mirror w) = s).
    { cbn in Hh. unfold shown in Hh. rewrite Hsy in Hh. by injection Hh. }
    destruct (backup_capture _ _ _ _) as [live|e] eqn:Hc; [|apply scene_ret; intros v' <-; split; [exact (ex_intro _ _ Hsame)|by eexists; split; [done|intros ?]]].
    assert (Hlive : mb_state live = s).
    { unfold backup_capture in Hc. apply bind_ok in Hc as (c & _ & [= <-]). exact Hm. }
    rewrite Hm. eapply scene_bind; [apply running_for_spec| |].
    + intros a. apply scene_ret. intros v' [Hx Ha']. split; [done|]. split; [done|].
      unfold put_state. cbn [mb_follows mb_silenced]. rewrite <-surjective_pairing. exact (Ha' a eq_refl).
    + intros v' [Hx _]. done.
  - intros live w w' o [[x Hv] Hl] Hw. destruct Hl as [Hs1 Hrec].
    refine (steps_stored_spec live v T (on_running x v) Hs1 Ht Hs Ha Hi _ (Hrest x) w w' o (eq_sym Hv) Hw).
    unfold T. by rewrite <-Hrec.
  - by intros e v' [[x ->] (e' & -> & ?)].
  - intros v' [[x ->] _]. done.
Qed.

End steps.

(** ** The switch *)

Section switch.
Context `{OsKind, Serde ActiveFile, Serde SwitchIntent, Serde Running, Serde BackupHead, Serde MixerBackup, Serde MixState,
  Serde CustomizationFile, Sha256}.
Context `{!SerdeOk ActiveFile, !SerdeOk SwitchIntent}.

(** One band plays, and no switch is on its way. *)
Record at_rest (w : World) (rs : RosterState) (from : Lineup) (t : TopologyInfo) : Prop := {
  ar_roster : sr_roster (w_server w) = Some rs;
  ar_from : rs_lineup rs = Some from;
  ar_valid : valid_lineup_id (lu_id from) = true;
  ar_free : sr_frozen (w_server w) = false;
  ar_topology : mv_topology (w_mirror w) = Some t;
  ar_distinct : mixes_distinct t;
  ar_fits : fits t (landed_state w);
  ar_active : active_of (look w) = Ok (Some (lu_id from));
  ar_intent : intent_of (look w) = Ok None;
}.

(** The state the target's band plays from. *)
Definition target_at (w : World) (rs : RosterState) (from target : Lineup) (t : TopologyInfo) : result FileError MixState :=
  let s := landed_state w in
  (fun stored =>
     target_state (rs_roster rs) target t s stored
       (recorded_for (store_dir w) (lu_id from) (state_digest s) (w_files w !! running_path (store_dir w))))
  <$> stored_of (lu_id target) (look w).

Definition switch_end (w : World) (rs : RosterState) (from target : Lineup) (t : TopologyInfo) (o : option (result SwitchError unit))
    (v : Scene) : Prop :=
  let s := landed_state w in
  let intent := mkSwitchIntent (lu_id from) (lu_id target) in
  let T := target_at w rs from target t in
  stored_of (lu_id target) v = stored_of (lu_id target) (look w) /\ sc_topology v = Some t
  /\ match o with
  | Some (Ok _) =>
      sc_frozen v = false /\ active_of v = Ok (Some (lu_id target))
      /\ sc_roster v = Some (mkRosterState (rs_roster rs) (rs_sha256 rs) (lu_id target))
      /\ T = Ok (sc_state v)
  | Some (Err (SwPending _)) =>
      sc_frozen v = true /\ active_of v = Ok (Some (lu_id from)) /\ sc_roster v = Some rs /\ intent_of v = Ok (Some intent)
  | Some (Err _) =>
      sc_frozen v = false /\ active_of v = Ok (Some (lu_id from)) /\ sc_roster v = Some rs
      /\ (sc_state v = s \/ sc_state v = (w_engine w).1)
  | None =>
      recorded (lu_id from) target T v
      /\ (intent_of v = Ok (Some intent) \/ intent_of v = Ok None /\ (active_of v = Ok (Some (lu_id from)) -> sc_state v = s))
  end.

Lemma roster_lineup_id r id l : roster_lineup r id = Some l -> lu_id l = id.
Proof.
  unfold roster_lineup, Roster.find. intros Hf. destruct (list_find _ _) as [[i x]|] eqn:Hl; [|done]. cbn in Hf. simplify_eq.
  apply list_find_Some in Hl as (_ & Hp & _). apply Is_true_eq_true in Hp. by bool_inv.
Qed.

(** A switch refused, or failed before it froze the pages. *)
Lemma switch_refused w rs from target t e h (s : MixState) v :
  at_rest w rs from t -> s = landed_state w \/ s = (w_engine w).1 -> (forall y, e <> SwPending y) ->
  v = on_held h (on_state s (look w)) -> switch_end w rs from target t (Some (Err e)) v.
Proof.
  intros [] Hs He ->. split; [done|]. split; [done|]. destruct e; try (by split_and!). exfalso. by eapply He.
Qed.

Lemma switch_run_spec w w' o rs from target t view :
  at_rest w rs from t -> valid_lineup_id (lu_id target) = true -> lu_id target <> lu_id from ->
  switch_run (rs_roster rs) view (lu_id from) target w = (w', o) ->
  match o with
  | Some (Ok _) =>
      stored_of (lu_id target) (look w') = stored_of (lu_id target) (look w) /\ sc_topology (look w') = Some t
      /\ sc_frozen (look w') = true /\ active_of (look w') = Ok (Some (lu_id target)) /\ sc_roster (look w') = Some rs
      /\ target_at w rs from target t = Ok (sc_state (look w'))
  | _ => switch_end w rs from target t o (look w')
  end.
Proof.
  intros Hrest Hto Hne Hw. pose proof Hrest as []. unfold switch_run, mbind, Io_bind, gets, mret, Io_ret in Hw. cbn in Hw.
  destruct (mv_synced (w_mirror w)); cbn [negb] in Hw.
  2:{ injection Hw as <- <-. eapply (switch_refused _ _ _ _ _ _ (sc_held (look w))); [done|by right|done|by destruct w]. }
  unfold try_, or_else, mbind, Io_bind, mret, Io_ret in Hw. destruct (freeze_pages w) as [w1 o1] eqn:Hfz.
  apply freeze_spec in Hfz; [|done]. cbv zeta in Hfz. destruct o1 as [[was|e]|]; cbn in Hw.
  - destruct Hfz as [-> Hv]. destruct (switch_steps _ _ _ _ w1) as [w2 o2] eqn:Hst.
    set (v1 := on_frozen true _) in Hv.
    pose proof (steps_spec (rs_roster rs) (lu_id from) target t (landed_state w) ar_valid0 Hto Hne ar_distinct0 ar_fits0 view v1
      ar_topology0 eq_refl eq_refl ar_active0 ar_intent0 w1 w2 o2 (eq_sym Hv) Hst) as [Hk Hend].
    destruct Hk as [(Hkd & Hkt & Hkf & Hks & Hkr) Hst'].
    destruct o2 as [[[]|[e|e]]|].
    + injection Hw as <- <-. destruct Hend as [Hae HT]. split_and!; [exact Hst'|exact (eq_trans Hkt ar_topology0)|exact Hkf|exact Hae| |exact HT].
      rewrite Hkr. exact ar_roster0.
    + destruct Hend as (Hae & Hse & Hnp). injection Hw as <- <-.
      pose proof (thaw_spec _ w2 _ _ eq_refl eq_refl) as [_ Hv3]. rewrite Hv3.
      assert (Hgoal : sc_frozen (on_frozen false (look w2)) = false /\ active_of (on_frozen false (look w2)) = Ok (Some (lu_id from))
        /\ sc_roster (on_frozen false (look w2)) = Some rs
        /\ (sc_state (on_frozen false (look w2)) = landed_state w \/ sc_state (on_frozen false (look w2)) = (w_engine w).1)).
      { split_and!; [done|exact Hae|exact (eq_trans Hkr ar_roster0)|by left]. }
      split; [exact Hst'|]. split; [exact (eq_trans Hkt ar_topology0)|]. destruct e; try exact Hgoal. exfalso. by eapply Hnp.
    + destruct Hend as [Hae Hie]. injection Hw as <- <-. split; [exact Hst'|]. split; [exact (eq_trans Hkt ar_topology0)|]. split_and!; [exact Hkf|exact Hae| |exact Hie].
      exact (eq_trans Hkr ar_roster0).
    + injection Hw as <- <-. by split; [exact Hst'|split; [exact (eq_trans Hkt ar_topology0)|]].
  - injection Hw as <- <-. destruct Hfz as [h Hh]. eapply switch_refused; [done| | |exact Hh]; [by left|done].
  - injection Hw as <- <-. rewrite Hfz. split; [done|]. split; [done|]. split; [by left|]. by right.
Qed.

Lemma switch_lineup_spec (w w' : World) (o : option (result SwitchError unit)) (rs : RosterState) (from target : Lineup)
    (t : TopologyInfo) (to : string) (by_ : AuthClaims) :
  at_rest w rs from t -> roster_lineup (rs_roster rs) to = Some target -> valid_lineup_id to = true ->
  switch_lineup to by_ w = (w', o) -> switch_end w rs from target t o (look w').
Proof.
  intros Hrest Htarget Hto Hw. pose proof Hrest as [].
  assert (Href : forall e, not_pending e -> switch_end w rs from target t (Some (Err e)) (look w)).
  { intros e He. eapply (switch_refused _ _ _ _ _ _ (sc_held (look w)) (w_engine w).1); [done|by right|exact He|by destruct w]. }
  unfold switch_lineup, mbind, Io_bind, gets, mret, Io_ret in Hw. cbn [id] in Hw. rewrite ar_roster0 in Hw.
  destruct (may_switch _ _); cbn [negb] in Hw; [|injection Hw as <- <-; by apply Href].
  destruct (w_busy w); [injection Hw as <- <-; by apply Href|]. rewrite ar_from0, Htarget in Hw.
  destruct (decide _) as [|Hne]; [injection Hw as <- <-; by apply Href|].
  destruct (sr_frozen _ || _); [injection Hw as <- <-; by apply Href|].
  destruct (site (w_server w)) as [view|]; [|injection Hw as <- <-; by apply Href].
  destruct (switch_run _ _ _ _ w) as [w1 o1] eqn:Hr.
  assert (Hid : lu_id target = to) by by eapply roster_lineup_id.
  eapply switch_run_spec in Hr; [|done|by rewrite Hid|done].
  destruct o1 as [[[]|e]|]; [|by injection Hw as <- <-..].
  destruct Hr as (Hst' & Hkt & Hf & Ha & Hros & HT).
  destruct (set_active_in_use _ w1) as [w2 o2] eqn:E2. destruct (set_active_in_use_spec _ _ _ _ _ eq_refl E2) as [-> Hv2].
  destruct (thaw_pages w2) as [w3 o3] eqn:E3. destruct (thaw_spec _ _ _ _ eq_refl E3) as [-> Hv3].
  destruct (tell _ w3) as [w4 o4] eqn:E4. destruct (tell_unseen _ _ _ _ E4) as [Hv4 [? ->]].
  injection Hw as <- <-. rewrite Hv4, Hv3, Hv2, Hros. split; [exact Hst'|]. split; [exact Hkt|]. split_and!; [done|exact Ha|done|exact HT].
Qed.

End switch.

(** ** How often the engine is waited for *)

(** [m] waits for nothing. *)
Definition steady {A : Type} (m : Io A) : Prop := forall w w' o, m w = (w', o) -> w_syncs w' = w_syncs w.

Lemma steady_bind {A B : Type} (m : Io A) (k : A -> Io B) : steady m -> (forall a, steady (k a)) -> steady (m ≫= k).
Proof.
  intros Hm Hk w w' o Hw. unfold mbind, Io_bind in Hw. destruct (m w) as [w1 [a|]] eqn:E1.
  - rewrite (Hk a _ _ _ Hw). by apply (Hm _ _ _ E1).
  - injection Hw as <- <-. by apply (Hm _ _ _ E1).
Qed.
Lemma steady_ret {A : Type} (a : A) : steady (mret a).
Proof. by intros w w' o [= <- <-]. Qed.
Lemma steady_gets {A : Type} (f : World -> A) : steady (gets f).
Proof. by intros w w' o [= <- <-]. Qed.
Lemma steady_modify f : (forall w, w_syncs (f w) = w_syncs w) -> steady (modify f).
Proof. intros Hf w w' o [= <- <-]. apply Hf. Qed.
Lemma steady_die {A : Type} : steady (fun w => (w, None) : World * option A).
Proof. by intros w w' o [= <- <-]. Qed.
Lemma steady_request cmd : steady (request_applied cmd).
Proof. intros w w' o. unfold request_applied. intros Hw. repeat case_match; by simplify_eq. Qed.
Lemma steady_write path data : steady (write_durable path data).
Proof. intros w w' o. unfold write_durable. intros Hw. repeat case_match; by simplify_eq. Qed.
Lemma steady_remove path : steady (remove_file path).
Proof. intros w w' o. unfold remove_file. intros Hw. repeat case_match; by simplify_eq. Qed.

Create HintDb steady discriminated.
#[export] Hint Resolve steady_ret steady_gets steady_die steady_request steady_write steady_remove : steady.

(** One step of looking through an operation. *)
Ltac steady :=
  repeat first
    [ progress eauto with steady
    | progress intros
    | apply steady_bind
    | apply steady_modify; done
    | match goal with
      | |- steady (try_ _ _) => unfold try_
      | |- steady (or_else _ _) => unfold or_else
      | |- steady (checked _ _) => unfold checked
      | |- steady (match ?x with _ => _ end) => destruct x
      end ].

(** ** The replay *)

Section replay.
Context `{OsKind, Serde ActiveFile, Serde SwitchIntent, Serde Running, Serde BackupHead, Serde MixerBackup, Serde MixState,
  Serde CustomizationFile, Sha256}.
Context `{!SerdeOk ActiveFile, !SerdeOk SwitchIntent}.
Context (r : Roster) (sha : string) (from to : Lineup) (t : TopologyInfo).
(** What is stored for each line-up, all along. *)
Context (stored_at : string -> result FileError (option MixerBackup)).

(** The engine holds the state the line-up plays from: what is stored for it,
    completed from some running state and under its rules. *)
Definition band_state (lineup : Lineup) (stored : option MixerBackup) (s : MixState) : Prop :=
  exists current running, s = (reconcile t (target_of stored current running r lineup).1).1.

(** What a band plays from: what is stored for it, where that can be read. *)
Definition readable (stored : result FileError (option MixerBackup)) : option MixerBackup :=
  match stored with Ok stored => stored | Err _ => None end.

Definition plays_stored (lineup : Lineup) (v : Scene) : Prop :=
  exists stored, stored_of (lu_id lineup) v = Ok stored /\ band_state lineup stored (sc_state v).

Definition the_switch : SwitchIntent := mkSwitchIntent (lu_id from) (lu_id to).

(** A switch is unfinished: the pages are frozen and its intent stands. *)
Definition unfinished_at (v : Scene) : Prop :=
  sc_frozen v = true /\ intent_of v = Ok (Some the_switch) /\ sc_topology v = Some t
  /\ exists active, sc_roster v = Some (mkRosterState r sha active)
     /\ (active_of v = Ok (Some (lu_id to)) -> active = lu_id to /\ plays_stored to v).

Definition as_stored (v : Scene) : Prop := forall id, stored_of id v = stored_at id.

(** One band plays, as recorded and in use. *)
Definition plays_on (lineup : Lineup) (v : Scene) : Prop :=
  sc_frozen v = false /\ intent_of v = Ok None /\ active_of v = Ok (Some (lu_id lineup))
  /\ sc_roster v = Some (mkRosterState r sha (lu_id lineup))
  /\ as_stored v /\ band_state lineup (readable (stored_at (lu_id lineup))) (sc_state v).

(** The process ended with the intent gone: the band recorded is the engine's. *)
Definition ended (lineup : Lineup) (v : Scene) : Prop :=
  intent_of v = Ok None /\ active_of v = Ok (Some (lu_id lineup))
  /\ as_stored v /\ band_state lineup (readable (stored_at (lu_id lineup))) (sc_state v).

Definition play_end (lineup : Lineup) (stored : option MixerBackup) (v : Scene) (o : option (result string unit)) (v' : Scene) : Prop :=
  sc_dir v' = sc_dir v /\ sc_topology v' = sc_topology v /\ sc_frozen v' = sc_frozen v
  /\ intent_of v' = intent_of v /\ (forall id, stored_of id v' = stored_of id v)
  /\ match o with
     | Some (Ok _) =>
         active_of v' = Ok (Some (lu_id lineup)) /\ sc_roster v' = with_active (lu_id lineup) (sc_roster v)
         /\ band_state lineup stored (sc_state v')
     | Some (Err _) => active_of v' = active_of v /\ sc_roster v' = sc_roster v
     | None => active_of v' = active_of v \/ active_of v' = Ok (Some (lu_id lineup)) /\ band_state lineup stored (sc_state v')
     end.

Lemma play_spec lineup stored other v :
  valid_lineup_id (lu_id lineup) = true -> sc_topology v = Some t ->
  spec (eq v) (play r lineup stored other) (play_end lineup stored v).
Proof.
  intros Hv Ht. apply spec_get. intros w ->. cbn [id].
  destruct (mv_synced _); cbn [negb]; [|by apply scene_ret; intros v' <-].
  eapply (scene_bind _ _ _ (fun _ v' => exists x, v' = on_running x (look w))).
  { intros w1 w1' o -> Hw. unfold running_of, gets, mbind, Io_bind, mret, Io_ret in Hw. cbn [id] in Hw.
    assert (Hsame : exists x, look w1 = on_running x (look w1)) by by exists (sc_running (look w1)).
    destruct (ls_running _ _) as [[rn|]|e]; try by injection Hw as <- <-.
    destruct (rn_pending rn); [|by injection Hw as <- <-].
    destruct (note_running _ w1) as [w2 o2] eqn:Hn. pose proof (note_running_spec _ _ _ _ _ eq_refl Hn) as Hx.
    destruct o2; by injection Hw as <- <-. }
  2:{ intros v' [x ->]. split_and!; try done. by left. }
  intros running w1 w1' o [x Hx]. revert w1 w1' o Hx. cbv zeta.
  set (run := match running with Some _ => _ | None => _ end).
  assert (HT : band_state lineup stored (reconcile t (target_of stored (mv_state (w_mirror w)) run r lineup).1).1) by by eexists _, run.
  revert HT. destruct (target_of stored (mv_state (w_mirror w)) run r lineup) as [target after]. cbn [fst]. intros HT.
  enough (Hgoal : spec (eq (on_running x (look w)))
    (let? _ := or_else EngineError_text (request_applied (ImportState target)) in
     let? _ := or_else fe_text (set_active (lu_id lineup) (w_now w)) in
     _ ← note_running after;
     _ ← end_solos (match other with Some o => soloed_changing (mv_transient (w_mirror w)) o lineup | None => [] end);
     _ ← set_active_in_use (lu_id lineup);
     mret (Ok tt)) (play_end lineup stored (look w))).
  { intros w1 w1' o Hx. by apply Hgoal. }
  set (v0 := on_running x (look w)).
  assert (Htk : taken (ImportState target) v0 = on_state (reconcile t target).1 v0) by (unfold taken; cbn -[look]; by rewrite Ht).
  apply spec_try_asks; rewrite Htk.
  2:{ intros e b h _. by destruct b. }
  2:{ intros b. destruct b; (split_and!; try done; by left). }
  set (v1 := on_held (Some (reconcile t target).1) (on_state (reconcile t target).1 v0)).
  change (spec (eq v1)
    (let? _ := or_else fe_text (set_active (lu_id lineup) (w_now w)) in
     _ ← note_running after;
     _ ← end_solos (match other with Some o => soloed_changing (mv_transient (w_mirror w)) o lineup | None => [] end);
     _ ← set_active_in_use (lu_id lineup);
     mret (Ok tt)) (play_end lineup stored (look w))).
  set (v2 := on_files (write_active (sc_dir v1) (lu_id lineup) (w_now w)) v1).
  assert (Ha : active_of v2 = Ok (Some (lu_id lineup))) by by apply active_written.
  assert (Hi : intent_of v2 = intent_of (look w)) by (unfold v2; other_file).
  assert (Hst : forall id, stored_of id v2 = stored_of id (look w)) by (intros id; unfold v2; other_file).
  assert (Hnone : forall x h, play_end lineup stored (look w) None (on_held h (on_running x v2))).
  { intros y h. split_and!; [done|done|done|exact Hi|exact Hst|]. right. by split. }
  eapply spec_try_writes; [apply set_active_writes| | | |].
  2:{ by intros e. }
  2:{ split_and!; try done. by left. }
  2:{ exact (Hnone (sc_running v2) (sc_held v2)). }
  fold v2. eapply scene_bind; [apply note_running_spec| |].
  2:{ intros v' [y ->]. exact (Hnone y (sc_held v2)). }
  intros []. eapply (scene_bind _ _ _ (fun _ v' => exists y h, v' = on_held h (on_running y v2))).
  { intros w2 w2' o [y Hy] Hw. destruct (end_solos_spec _ _ _ _ _ eq_refl Hw) as [h ->]. exists y, h. by rewrite Hy. }
  2:{ intros v' (y & h & ->). apply Hnone. }
  intros [] w3 w3' o (y & h & Hv3) Hw. unfold mbind, Io_bind, mret, Io_ret in Hw.
  destruct (set_active_in_use _ w3) as [w4 o4] eqn:E4. destruct (set_active_in_use_spec _ _ _ _ _ eq_refl E4) as [-> Hv4].
  injection Hw as <- <-. rewrite Hv4, Hv3. split_and!; [done|done|done|exact Hi|exact Hst|exact Ha|done|exact HT].
Qed.

Hypothesis Hfrom : valid_lineup_id (lu_id from) = true.
Hypothesis Hto : valid_lineup_id (lu_id to) = true.
Hypothesis Hrfrom : roster_lineup r (lu_id from) = Some from.
Hypothesis Hrto : roster_lineup r (lu_id to) = Some to.

Lemma unfinished_read w rs :
  intent_of (look w) = Ok (Some the_switch) -> sr_roster (w_server w) = Some rs ->
  unfinished w = (w, Some (Ok (Some (the_switch, rs)))).
Proof. intros Hi Hr. unfold unfinished, gets, mbind, Io_bind. cbn [id]. by rewrite look_intent, Hi, Hr. Qed.

(** The last steps of a replay and of a way back. *)
Lemma finish_spec lineup (tail : Io (result string unit)) v :
  (forall v', spec (eq v') tail (fun o v => v = v' /\ o = Some (Ok tt))) ->
  intent_of v = Ok (Some the_switch) -> active_of v = Ok (Some (lu_id lineup)) ->
  sc_roster v = Some (mkRosterState r sha (lu_id lineup)) ->
  as_stored v -> band_state lineup (readable (stored_at (lu_id lineup))) (sc_state v) ->
  spec (eq v) (let? _ := or_else fe_text clear_intent in _ ← thaw_pages; tail)
    (fun o v' => match o with
                 | Some (Ok _) => plays_on lineup v'
                 | Some (Err _) => v' = v
                 | None => v' = v \/ ended lineup v'
                 end).
Proof.
  intros Htail Hi Ha Hr Hst Hb.
  assert (Hx : forall id, stored_of id (on_files (drop_intent (sc_dir v)) v) = stored_of id v) by (intros id; other_file).
  assert (Ha' : active_of (on_files (drop_intent (sc_dir v)) v) = Ok (Some (lu_id lineup))) by (rewrite <-Ha; other_file).
  eapply spec_try_writes; [apply clear_intent_writes| | | |].
  - intros w w' o Hv Hw. unfold mbind, Io_bind in Hw. destruct (thaw_pages w) as [w1 o1] eqn:E1.
    destruct (thaw_spec _ _ _ _ eq_refl E1) as [-> Hv1]. destruct (Htail _ _ _ _ eq_refl Hw) as [Hv2 ->].
    rewrite Hv2, Hv1, <-Hv. split; [done|split; [apply intent_dropped|split; [exact Ha'|split; [exact Hr|]]]].
    split; [intros id; etrans; [apply Hx|apply Hst]|exact Hb].
  - done.
  - by left.
  - right. split; [apply intent_dropped|split; [exact Ha'|]]. split; [intros id; etrans; [apply Hx|apply Hst]|exact Hb].
Qed.

Lemma tell_tail told v : spec (eq v) (_ ← tell told; mret (Ok tt : result string unit)) (fun o v' => v' = v /\ o = Some (Ok tt)).
Proof. intros w w' o -> Hw. unfold mbind, Io_bind in Hw. by injection Hw as <- <-. Qed.

(** One try to finish the switch. *)
Definition replay_end (o : option (result string unit)) (v : Scene) : Prop :=
  match o with
  | Some (Ok _) => plays_on to v
  | Some (Err _) => unfinished_at v /\ as_stored v
  | None => intent_of v = Ok (Some the_switch) /\ (active_of v = Ok (Some (lu_id to)) -> plays_stored to v) \/ ended to v
  end.

Lemma replay_finish told v :
  unfinished_at v -> as_stored v -> active_of v = Ok (Some (lu_id to)) -> plays_stored to v -> sc_roster v = Some (mkRosterState r sha (lu_id to)) ->
  spec (eq v) (let? _ := or_else fe_text clear_intent in _ ← thaw_pages; _ ← tell told; mret (Ok tt)) replay_end.
Proof.
  intros Hu Has Ha [stored [Hst Hb]] Hr. pose proof Hu as (_ & Hi & _).
  eapply scene_conseq; [apply (finish_spec to _ v (tell_tail told) Hi Ha Hr Has)|done|]; [by rewrite <-Has, Hst|].
  intros [[[]|e]|] v'; [done|by intros ->|]. intros [->|He]; [left|by right]. split; [done|]. intros _. by exists stored.
Qed.

Lemma replay_intent_spec : spec (fun v => unfinished_at v /\ as_stored v) replay_intent replay_end.
Proof.
  intros w w' o [(Hf & Hi & Ht & active & Hr & Hj) Has] Hw. set (rs := mkRosterState r sha active) in Hr.
  unfold replay_intent, try_ at 1, mbind at 1, Io_bind at 1 in Hw.
  rewrite (unfinished_read w rs Hi Hr) in Hw. unfold gets at 1, mbind at 1, Io_bind at 1 in Hw. cbn [id] in Hw.
  rewrite look_active in Hw. destruct (active_of (look w)) as [recorded|e] eqn:Ha.
  2:{ injection Hw as <- <-. split; [|done]. split_and!; try done. exists active. split; [done|]. by rewrite Ha. }
  unfold lineup_or_active in Hw. cbn [rs_roster rs si_to si_from the_switch] in Hw. rewrite Hrto, Hrfrom in Hw.
  revert w' o Hw. destruct (decide _) as [->|Hn]; intros w' o Hw.
  - destruct (Hj eq_refl) as [-> Hp].
    assert (Hu : forall h, unfinished_at (on_held h (look w))).
    { intros h. split_and!; try done. exists (lu_id to). split; [exact Hr|]. done. }
    revert Hw. apply (spec_try _ _ (eq (look w)) (fun o v' => (exists h, v' = on_held h (look w)) /\ forall e, o <> Some (Err e)) replay_end);
      try done.
    + eapply scene_bind; [apply end_solos_spec| |].
      * intros []. apply scene_ret. by intros v' [h ->]; split; [exists h|].
      * by intros v' [h ->]; split; [exists h|].
    + intros [] w1 w1' o1 [[h Hv] _]. by apply (replay_finish _ (on_held h (look w)) (Hu h) Has).
    + intros e v' [_ He]. by destruct (He e).
    + intros v' [[h ->] _]. left. split; [done|]. done.
  - rewrite look_stored in Hw. destruct (stored_of (lu_id to) (look w)) as [stored|e] eqn:Hst.
    2:{ injection Hw as <- <-. split; [|done]. split_and!; try done. exists active. split; [done|]. rewrite Ha. congruence. }
    revert Hw. apply (spec_try _ _ (eq (look w)) (play_end to stored (look w)) replay_end); try done.
    + by apply play_spec.
    + intros [] w1 w1' o1 (Hd1 & Ht1 & Hf1 & Hi1 & Hst1 & Ha1 & Hr1 & Hb1).
      assert (Hp : plays_stored to (look w1)) by (exists stored; by rewrite Hst1).
      assert (Hr' : sc_roster (look w1) = Some (mkRosterState r sha (lu_id to))) by by rewrite Hr1, Hr.
      apply (replay_finish _ (look w1)); try done; [|intros id; by rewrite Hst1].
      split_and!; [congruence|congruence|congruence|]. by exists (lu_id to).
    + intros e v' (Hd1 & Ht1 & Hf1 & Hi1 & Hst1 & Ha1 & Hr1). split; [|intros id; by rewrite Hst1].
      split_and!; [congruence|congruence|congruence|]. exists active. split; [by rewrite Hr1|]. rewrite Ha1, Ha. congruence.
    + intros v' (Hd1 & Ht1 & Hf1 & Hi1 & Hst1 & Ha1). left. split; [congruence|]. intros Ha2. destruct Ha1 as [Ha1|[_ Hb]].
      * rewrite Ha1, Ha in Ha2. congruence.
      * exists stored. by rewrite Hst1.
Qed.

Lemma ret_tail v : spec (eq v) (mret (Ok tt : result string unit)) (fun o v' => v' = v /\ o = Some (Ok tt)).
Proof. apply scene_ret. by intros v' <-. Qed.

(** *** Going back *)

(** Unfinished, whatever the engine holds. *)
Definition adrift (v : Scene) : Prop :=
  sc_frozen v = true /\ intent_of v = Ok (Some the_switch) /\ sc_topology v = Some t
  /\ as_stored v /\ exists active, sc_roster v = Some (mkRosterState r sha active).

Definition back_end (o : option (result string unit)) (v : Scene) : Prop :=
  match o with
  | Some (Ok _) => plays_on from v
  | Some (Err _) => adrift v
  | None => intent_of v = Ok (Some the_switch) \/ ended from v
  end.

Lemma fall_back_spec : spec adrift fall_back back_end.
Proof.
  intros w w' o (Hf & Hi & Ht & Has & active & Hr) Hw. set (rs := mkRosterState r sha active) in Hr.
  unfold fall_back, try_ at 1, mbind at 1, Io_bind at 1 in Hw.
  rewrite (unfinished_read w rs Hi Hr) in Hw. unfold gets at 1, mbind at 1, Io_bind at 1 in Hw. cbn [id] in Hw.
  unfold lineup_or_active in Hw. cbn [rs_roster rs si_to si_from the_switch] in Hw. rewrite Hrto, Hrfrom, look_stored in Hw.
  set (stored := match stored_of _ _ with Ok stored => stored | Err _ => None end) in Hw.
  assert (Hst : stored = readable (stored_at (lu_id from))) by (unfold stored; by rewrite Has).
  revert Hw. apply (spec_try _ _ (eq (look w)) (play_end from stored (look w)) back_end); try done.
  - by apply play_spec.
  - intros [] w1 w1' o1 (Hd1 & Ht1 & Hf1 & Hi1 & Hst1 & Ha1 & Hr1 & Hb1).
    assert (Hr' : sc_roster (look w1) = Some (mkRosterState r sha (lu_id from))) by by rewrite Hr1, Hr.
    assert (Has1 : as_stored (look w1)) by (intros id; by rewrite Hst1). rewrite Hst in Hb1.
    revert w1' o1. enough (Hg : spec (eq (look w1)) (let? _ := or_else fe_text clear_intent in _ ← thaw_pages; mret (Ok tt)) back_end)
      by (intros; by eapply Hg).
    eapply scene_conseq; [apply (finish_spec from _ (look w1) ret_tail (eq_trans Hi1 Hi) Ha1 Hr' Has1 Hb1)|done|].
    intros [[[]|e]|] v'; [done|intros ->|intros [->|?]; [left; congruence|by right]].
    split_and!; [congruence|congruence|congruence|done|by eexists].
  - intros e v' (Hd1 & Ht1 & Hf1 & Hi1 & Hst1 & Ha1 & Hr1). split_and!; [congruence|congruence|congruence|intros id; by rewrite Hst1|].
    exists active. by rewrite Hr1.
  - intros v' (Hd1 & Ht1 & Hf1 & Hi1 & _). left. congruence.
Qed.

(** *** The tries *)

Lemma wait_synced_spec v : spec (eq v) wait_synced (fun o v' => is_Some o /\ exists h, v' = on_held h v).
Proof.
  intros w w' o -> Hw. unfold wait_synced in Hw.
  assert (Hsame : exists h, look w = on_held h (look w)) by (exists (sc_held (look w)); by rewrite on_held_id).
  destruct (mv_synced _); [injection Hw as <- <-; by split|].
  destruct (w_syncs w) as [|[] l]; injection Hw as <- <-; (split; [done|]); [by eexists|by eexists|exact Hsame].
Qed.

Lemma attempts_spec (J D C : Scene -> Prop) op fuel tries :
  (forall v h, J v -> J (on_held h v)) ->
  spec J op (fun o v => match o with Some (Ok _) => D v | Some (Err _) => J v | None => C v end) ->
  spec J (attempts fuel tries op) (fun o v => match o with Some (Some (Some _)) => D v | Some _ => J v | None => C v end).
Proof.
  intros HJ Hop. revert tries. induction fuel as [|fuel IH]; intros tries; cbn [attempts].
  all: destruct (_ <=? _)%nat; [by apply scene_ret|]. { by apply scene_ret. }
  eapply (scene_bind _ _ _ (fun o v => is_Some o /\ J v)).
  - intros w w' o Hv Hw. destruct (wait_synced_spec _ _ _ _ eq_refl Hw) as [? [h ->]]. split; [done|]. by apply HJ.
  - intros [].
    + eapply scene_bind; [eapply scene_conseq; [exact Hop|by intros v [_ ?]|intros o v Ho; exact Ho]| |done].
      intros [[]|e]; [by apply scene_ret|]. apply IH.
    + eapply scene_conseq; [apply IH|by intros v [_ ?]|done].
  - intros v [[? ?] _]. done.
Qed.

Definition replayed_end (o : option (option Replayed)) (v : Scene) : Prop :=
  match o with
  | Some (Some (ReplayedFinished _)) => plays_on to v
  | Some (Some (ReplayedFellBack _)) => plays_on from v
  | Some (Some ReplayedGaveUp) => sc_frozen v = false
  | Some (Some ReplayedNothing) | Some None => adrift v
  | None => intent_of v = Ok (Some the_switch) \/ intent_of v = Ok None
  end.

Lemma unfinished_adrift v : unfinished_at v /\ as_stored v -> adrift v.
Proof. intros [(?&?&?&a&?&_) ?]. split_and!; [done..|]. by exists a. Qed.

Lemma give_up_spec v :
  adrift v ->
  spec (eq v)
    (cleared ← clear_intent;
     _ ← thaw_pages;
     _ ← tell (ToldAlarm NOT_SWITCHED (if is_ok cleared then GAVE_UP else GAVE_UP_KEPT));
     mret (Some ReplayedGaveUp)) replayed_end.
Proof.
  intros (Hf & Hi & _).
  assert (Hfree : forall body v, spec (eq v) (_ ← thaw_pages; _ ← tell (ToldAlarm NOT_SWITCHED body); mret (Some ReplayedGaveUp)) replayed_end).
  { intros body v' w w' o Hv Hw. unfold mbind, Io_bind in Hw. destruct (thaw_pages w) as [w1 o1] eqn:E1.
    destruct (thaw_spec _ _ _ _ eq_refl E1) as [-> Hv1]. injection Hw as <- <-. change (sc_frozen (look w1) = false). by rewrite Hv1. }
  eapply spec_writes; [apply clear_intent_writes|apply Hfree|intros e; apply Hfree| |].
  - by left.
  - right. apply intent_dropped.
Qed.

Lemma replay_when_synced_spec fuel : spec (fun v => unfinished_at v /\ as_stored v) (replay_when_synced fuel) replayed_end.
Proof.
  intros w w' o Hu Hw. pose proof Hu as [(Hf & _) _].
  unfold replay_when_synced, gets in Hw. unfold mbind at 1, Io_bind at 1 in Hw. change (sr_frozen (w_server w)) with (sc_frozen (look w)) in Hw.
  rewrite Hf in Hw. cbn [negb] in Hw.
  revert Hw. refine ((_ : spec (eq (look w)) _ replayed_end) w w' o eq_refl).
  eapply (scene_bind _ _ _ (fun o v => match o with Some (Some (Some _)) => plays_on to v | Some _ => unfinished_at v /\ as_stored v
                                             | None => replay_end None v end)).
  - eapply scene_conseq; [apply (attempts_spec (fun v => unfinished_at v /\ as_stored v) (plays_on to) (replay_end None)); [|apply replay_intent_spec]|by intros v <-|done].
    by intros v h.
  - intros [[tries|]|]; [by apply scene_ret| |by apply scene_ret; intros v ?%unfinished_adrift].
    eapply (scene_bind _ _ _ (fun o v => match o with Some (Some (Some _)) => plays_on from v | Some _ => adrift v
                                               | None => back_end None v end)).
    + eapply scene_conseq; [apply (attempts_spec adrift (plays_on from) (back_end None)); [|apply fall_back_spec]|by intros v ?%unfinished_adrift|done].
      by intros v h.
    + intros [[back|]|]; [| |by apply scene_ret].
      * intros w1 w1' o1 Hp Hw. by injection Hw as <- <-.
      * intros w1 w1' o1 Ha Hw. by eapply give_up_spec.
    + intros v [?|[? _]]; [by left|by right].
  - intros v [[? _]|[? _]]; [by left|by right].
Qed.

End replay.

Section fuel.
Context `{OsKind, Serde ActiveFile, Serde SwitchIntent, Serde Running, Serde BackupHead, Serde MixerBackup, Serde MixState,
  Serde CustomizationFile, Sha256}.

Lemma steady_note r : steady (note_running r).
Proof. unfold note_running, set_running, set_file. steady. Qed.
Lemma steady_end_solos mixes : steady (end_solos mixes).
Proof. induction mixes; cbn [end_solos]; steady. Qed.
Hint Resolve steady_note steady_end_solos : steady.

Lemma steady_play r lineup stored other : steady (play r lineup stored other).
Proof. unfold play, running_of, set_active, set_file, set_active_in_use, set_roster. steady. Qed.
Hint Resolve steady_play : steady.

Lemma steady_unfinished : steady unfinished.
Proof. unfold unfinished, thaw_pages. steady. Qed.
Hint Resolve steady_unfinished : steady.

Lemma steady_replay : steady replay_intent.
Proof. unfold replay_intent, clear_intent, thaw_pages, tell. steady. Qed.
Lemma steady_fall_back : steady fall_back.
Proof. unfold fall_back, clear_intent, thaw_pages. steady. Qed.

(** Enough waits: as many as fail, and one for each try. *)
Lemma attempts_enough op fuel tries w w' o :
  steady op -> (length (w_syncs w) + (MAX_REPLAYS - tries) <= fuel)%nat -> attempts fuel tries op w = (w', o) ->
  o <> Some None /\ (length (w_syncs w') <= length (w_syncs w))%nat.
Proof.
  intros Hop. revert tries w w' o. induction fuel as [|fuel IH]; intros tries w w' o Hf Hw; cbn [attempts] in Hw.
  all: destruct (Nat.leb_spec MAX_REPLAYS tries) as [Hm|Hm]; [by injection Hw as <- <-|]. { lia. }
  unfold mbind at 1, Io_bind at 1 in Hw. unfold wait_synced in Hw.
  assert (Hgo : forall w1, (length (w_syncs w1) <= length (w_syncs w))%nat ->
    (op ≫= fun r => match r with Ok _ => mret (Some (Some (S tries))) | Err _ => attempts fuel (S tries) op end) w1 = (w', o) ->
    o <> Some None /\ (length (w_syncs w') <= length (w_syncs w))%nat).
  { intros w1 Hl Hw1. unfold mbind, Io_bind in Hw1. destruct (op w1) as [w2 [[[]|e]|]] eqn:E2; pose proof (Hop _ _ _ E2) as Hs.
    - injection Hw1 as <- <-. split; [done|]. by rewrite Hs.
    - apply IH in Hw1; [|rewrite Hs; lia]. rewrite Hs in Hw1. split; [apply Hw1|]. destruct Hw1. lia.
    - injection Hw1 as <- <-. split; [done|]. by rewrite Hs. }
  destruct (mv_synced _); [by eapply Hgo|].
  destruct (w_syncs w) as [|[] l] eqn:Es; cbn in Hf; [eapply Hgo; [|exact Hw]; cbn; lia|eapply Hgo; [|exact Hw]; cbn; lia|].
  apply IH in Hw; cbn; [|cbn; lia]. cbn in Hw. split; [apply Hw|]. destruct Hw. lia.
Qed.

End fuel.

(** ** Every switch is finished, taken back or given up *)

Section finishing.
Context `{OsKind, Serde ActiveFile, Serde SwitchIntent, Serde Running, Serde BackupHead, Serde MixerBackup, Serde MixState,
  Serde CustomizationFile, Sha256}.
Context `{!SerdeOk ActiveFile, !SerdeOk SwitchIntent}.

(** Enough waits, and how it ends. *)
Lemma replay_ends_spec (r : Roster) (sha : string) (from to : Lineup) (t : TopologyInfo) (fuel : nat) (w w' : World)
    (o : option (option Replayed)) :
  unfinished_at r sha from to t (look w) ->
  valid_lineup_id (lu_id from) = true -> valid_lineup_id (lu_id to) = true ->
  roster_lineup r (lu_id from) = Some from -> roster_lineup r (lu_id to) = Some to ->
  (length (w_syncs w) + MAX_REPLAYS <= fuel)%nat -> replay_when_synced fuel w = (w', o) ->
  match o with
  | Some (Some (ReplayedFinished _)) => plays_on r sha t (fun id => stored_of id (look w)) to (look w')
  | Some (Some (ReplayedFellBack _)) => plays_on r sha t (fun id => stored_of id (look w)) from (look w')
  | Some (Some ReplayedGaveUp) => sc_frozen (look w') = false
  | Some (Some ReplayedNothing) | Some None => False
  | None => intent_of (look w') = Ok (Some (mkSwitchIntent (lu_id from) (lu_id to))) \/ intent_of (look w') = Ok None
  end.
Proof.
  intros Hu Hvf Hvt Hrf Hrt Hfuel Hw. pose proof Hu as (Hf & _).
  pose proof (replay_when_synced_spec r sha from to t (fun id => stored_of id (look w)) Hvf Hvt Hrf Hrt fuel w w' o (conj Hu (fun _ => eq_refl)) Hw) as Hend.
  enough (Hn : o <> Some None /\ o <> Some (Some ReplayedNothing)) by (by destruct o as [[[]|]|], Hn).
  clear Hend. revert Hw. unfold replay_when_synced, gets. unfold mbind at 1, Io_bind at 1.
  change (sr_frozen (w_server w)) with (sc_frozen (look w)). rewrite Hf. cbn [negb].
  unfold mbind at 1, Io_bind at 1. destruct (attempts fuel 0 replay_intent w) as [w1 o1] eqn:E1.
  apply (attempts_enough _ _ _ _ _ _ steady_replay) in E1; [|lia]. destruct E1 as [Hn1 Hl1].
  destruct o1 as [[[n|]|]|]; [by intros [= <- <-]| |done|by intros [= <- <-]].
  unfold mbind at 1, Io_bind at 1. destruct (attempts fuel 0 fall_back w1) as [w2 o2] eqn:E2.
  apply (attempts_enough _ _ _ _ _ _ steady_fall_back) in E2; [|lia]. destruct E2 as [Hn2 Hl2].
  destruct o2 as [[[m|]|]|]; [by intros [= <- <-]| |done|by intros [= <- <-]].
  unfold mbind, Io_bind. destruct (clear_intent w2) as [w3 [c|]]; [|by intros [= <- <-]]. by intros [= <- <-].
Qed.

(** A pending switch is unfinished. *)
Lemma pending_unfinished w rs from target t why v :
  lu_id target <> lu_id from -> switch_end w rs from target t (Some (Err (SwPending why))) v ->
  unfinished_at (rs_roster rs) (rs_sha256 rs) from target t v.
Proof.
  intros Hne (_ & Ht & Hf & Ha & Hr & Hi). split_and!; [done..|]. exists (rs_active rs).
  split; [by destruct rs|]. rewrite Ha. congruence.
Qed.

(** A start finds the switch the process ended in. *)
Lemma start_unfinished w rs from target t w1 sha a fallback base w2 :
  switch_end w rs from target t None (look w1) -> lu_id target <> lu_id from -> active_of (look w1) = Ok (Some a) ->
  server_start (Some (mkRosterState (rs_roster rs) sha a)) fallback base w1 = Ok w2 ->
  unfinished_at (rs_roster rs) sha from target t (look w2)
  \/ sc_frozen (look w2) = false /\ sc_roster (look w2) = Some (mkRosterState (rs_roster rs) sha a)
     /\ active_of (look w2) = Ok (Some a) /\ intent_of (look w2) = Ok None
     /\ (forall id, stored_of id (look w2) = stored_of id (look w1))
     /\ (a = lu_id from /\ sc_state (look w2) = landed_state w
         \/ a = lu_id target /\ target_at w rs from target t = Ok (sc_state (look w2))).
Proof.
  intros (Hst & Ht & Hrec & Hi) Hne Ha Hs. unfold server_start in Hs.
  rewrite look_intent in Hs. rename Hi into Hint.
  assert (Hlook : exists b, look w2 = on_roster (Some (mkRosterState (rs_roster rs) sha a)) (on_held None
    (mkScene (sc_dir (look w1)) (sc_files (look w1)) (sc_running (look w1)) (sc_state (look w1)) None (sc_topology (look w1)) b true None))
    /\ (intent_of (look w1) = Ok (Some (mkSwitchIntent (lu_id from) (lu_id target))) -> b = true)
    /\ (intent_of (look w1) = Ok None -> b = false)).
  { destruct Hint as [Hi|[Hi _]]; rewrite Hi in Hs; injection Hs as <-.
    - exists true. split; [done|]. by rewrite Hi.
    - exists false. split; [done|]. by rewrite Hi. }
  destruct Hlook as (b & Hl & Hb1 & Hb2). rewrite Hl.
  assert (Hplays : active_of (look w1) = Ok (Some (lu_id target)) -> target_at w rs from target t = Ok (sc_state (look w1))).
  { intros Ha2. destruct Hrec as [Hrec|[_ HT]]; [|done]. rewrite Hrec in Ha2. congruence. }
  destruct Hint as [Hi|[Hi Hs0]].
  - left. split_and!; [by apply Hb1|exact Hi|exact Ht|]. exists a. split; [done|]. intros Ha2. assert (Ha3 : active_of (look w1) = Ok (Some (lu_id target))) by exact Ha2.
    split; [rewrite Ha in Ha3; congruence|]. apply Hplays, fmap_ok in Ha3 as (stored & Hso & HT).
    exists stored. split; [exact (eq_trans Hst Hso)|]. eexists _, _. exact HT.
  - right. split_and!; [by apply Hb2|done|exact Ha|exact Hi|done|].
    destruct Hrec as [Hrec|[Hrec HT]]; [left|right]; (split; [rewrite Hrec in Ha; congruence|]); [by apply Hs0|exact HT].
Qed.

(** One of the two bands plays: recorded, in use, the pages free, and the engine
    holding its mixes: [s], those of the band before, or what is stored for the
    band, completed from a running state only where nothing readable is. *)
Definition one_band (r : Roster) (sha : string) (from target : Lineup) (t : TopologyInfo) (s : MixState) (v : Scene) : Prop :=
  exists l, (l = from \/ l = target)
  /\ sc_frozen v = false /\ intent_of v = Ok None /\ active_of v = Ok (Some (lu_id l))
  /\ sc_roster v = Some (mkRosterState r sha (lu_id l))
  /\ (l = from /\ sc_state v = s
      \/ band_state r t l (readable (stored_of (lu_id l) v)) (sc_state v)).

(** C1: A switch of the band, whatever fails and wherever the process ends.  A
    switch that succeeded has the target recorded on disk and in use, and the
    engine holds the state the target plays from.  One that failed leaves the
    band before recorded and in use, its mixes in the engine, the pages free;
    one that is pending leaves the intent on disk and the pages frozen.  When
    the process ends in it, either the intent stands on disk, or none does and
    the band recorded there is the one whose mixes the engine holds. *)
Theorem switch_is_whole (w w' : World) (o : option (result SwitchError unit)) (rs : RosterState) (from target : Lineup)
    (t : TopologyInfo) (to : string) (by_ : AuthClaims) :
  at_rest w rs from t -> roster_lineup (rs_roster rs) to = Some target -> valid_lineup_id to = true ->
  switch_lineup to by_ w = (w', o) -> switch_end w rs from target t o (look w').
Proof. apply switch_lineup_spec. Qed.

(** C26: The replay of an unfinished switch ends: with as many waits as the engine
    stays away for and one for each try, it has finished the switch, gone back
    or given up, and the pages are free.  Finished, the target plays: recorded
    on disk and in use, the intent gone, the engine holding what was stored for it
    when the replay began (a running state under its rules where nothing readable
    was); gone back, the band before does.  No stored state changes. *)
Theorem replay_ends (r : Roster) (sha : string) (from to : Lineup) (t : TopologyInfo) (fuel : nat) (w w' : World)
    (o : option (option Replayed)) :
  unfinished_at r sha from to t (look w) ->
  valid_lineup_id (lu_id from) = true -> valid_lineup_id (lu_id to) = true ->
  roster_lineup r (lu_id from) = Some from -> roster_lineup r (lu_id to) = Some to ->
  (length (w_syncs w) + MAX_REPLAYS <= fuel)%nat -> replay_when_synced fuel w = (w', o) ->
  match o with
  | Some (Some (ReplayedFinished _)) => plays_on r sha t (fun id => stored_of id (look w)) to (look w')
  | Some (Some (ReplayedFellBack _)) => plays_on r sha t (fun id => stored_of id (look w)) from (look w')
  | Some (Some ReplayedGaveUp) => sc_frozen (look w') = false
  | Some (Some ReplayedNothing) | Some None => False
  | None => intent_of (look w') = Ok (Some (mkSwitchIntent (lu_id from) (lu_id to))) \/ intent_of (look w') = Ok None
  end.
Proof. apply replay_ends_spec. Qed.

(** C2: The process ends anywhere in a switch; it starts again, and the replay of
    the start does not give up.  Then one band plays, one of the two the switch
    was between: it is recorded, in use, and the engine holds its mixes, however
    the disk and the engine failed in between. *)
Theorem crash_is_finished (w w1 w2 w3 : World) (rs : RosterState) (from target : Lineup) (t : TopologyInfo) (to sha a : string)
    (by_ : AuthClaims) (fallback : bool) (base : option Base) (fuel : nat) (rep : Replayed) :
  at_rest w rs from t -> roster_lineup (rs_roster rs) to = Some target -> roster_lineup (rs_roster rs) (lu_id from) = Some from ->
  valid_lineup_id to = true -> to <> lu_id from ->
  switch_lineup to by_ w = (w1, None) -> active_of (look w1) = Ok (Some a) ->
  server_start (Some (mkRosterState (rs_roster rs) sha a)) fallback base w1 = Ok w2 ->
  (length (w_syncs w2) + MAX_REPLAYS <= fuel)%nat -> replay_when_synced fuel w2 = (w3, Some (Some rep)) -> rep <> ReplayedGaveUp ->
  one_band (rs_roster rs) sha from target t (landed_state w) (look w3).
Proof.
  intros Hrest Htarget Hfrom Hto Hne Hsw Ha Hst Hfuel Hrep Hg. assert (Hid : lu_id target = to) by by eapply roster_lineup_id.
  rewrite <-Hid in *. pose proof (ar_valid _ _ _ _ Hrest) as Hvf.
  pose proof (switch_lineup_spec _ _ _ _ _ _ _ _ _ Hrest Htarget Hto Hsw) as Hend.
  destruct (start_unfinished _ _ _ _ _ _ _ _ _ _ _ Hend Hne Ha Hst) as [Hu|(Hf & Hr & Ha2 & Hi & Hst2 & Hs)].
  - pose proof (replay_ends_spec _ _ _ _ _ _ _ _ _ Hu Hvf Hto Hfrom Htarget Hfuel Hrep) as Hp. clear -Hp Hg.
    destruct rep as [|n|n|]; try done; destruct Hp as (Hf & Hi & Ha & Hr & Has & Hb); rewrite <-Has in Hb; [exists target|exists from]; split_and!; auto.
  - unfold replay_when_synced, gets in Hrep. unfold mbind at 1, Io_bind at 1 in Hrep.
    change (sr_frozen (w_server w2)) with (sc_frozen (look w2)) in Hrep. rewrite Hf in Hrep. injection Hrep as <- <-.
    destruct Hs as [[-> Hs]|[-> HT]]; [exists from|exists target]; split_and!; auto. right.
    apply fmap_ok in HT as (stored & Hso & HT). destruct Hend as (Hst' & _).
    rewrite Hst2, Hst', Hso. by eexists _, _.
Qed.

End finishing.

(** ** A site for the witnesses *)

#[export] Instance SwitchIntent_eq_dec : EqDecision SwitchIntent.
Proof. solve_decision. Defined.
#[export] Instance SwitchIntent_countable : Countable SwitchIntent.
Proof. refine (inj_countable' (fun i => (si_from i, si_to i)) (fun p => mkSwitchIntent p.1 p.2) _). by intros []. Defined.
#[export] Instance ActiveFile_eq_dec : EqDecision ActiveFile.
Proof. solve_decision. Defined.
#[export] Instance ActiveFile_countable : Countable ActiveFile.
Proof. refine (inj_countable' (fun a => (af_format a, af_lineup a, af_since a)) (fun p => mkActiveFile p.1.1 p.1.2 p.2) _). by intros []. Defined.

#[export] Instance demo_intents : Serde SwitchIntent := {| to_json i := to_bits (countable.encode i); of_json := bits_of_json |}.
#[export] Instance demo_intents_ok : SerdeOk SwitchIntent.
Proof. intros i. apply bits_back. Qed.
#[export] Instance demo_actives : Serde ActiveFile := {| to_json a := to_bits (countable.encode a); of_json := bits_of_json |}.
#[export] Instance demo_actives_ok : SerdeOk ActiveFile.
Proof. intros a. apply bits_back. Qed.
#[local] Instance demo_kind : OsKind := fun _ => "other error".
#[local] Instance demo_running : Serde Running := {| to_json _ := "{}"; of_json _ := Err "empty" |}.
#[local] Instance demo_heads : Serde BackupHead := {| to_json _ := "{}"; of_json _ := Err "empty" |}.
#[local] Instance demo_backups : Serde MixerBackup := {| to_json _ := "{}"; of_json _ := Err "empty" |}.
#[local] Instance demo_states : Serde MixState := {| to_json _ := "{}"; of_json _ := Err "empty" |}.
#[local] Instance demo_customs : Serde CustomizationFile := {| to_json _ := "{}"; of_json _ := Err "empty" |}.

(** Ana and Bob share the only set, each in a band of their own. *)
Definition demo_main : Lineup := mkLineup "main" "Main band" true ["ana"] {["m1" := "ana"]} ∅.
Definition demo_youth : Lineup := mkLineup "youth" "Youth band" false ["bob"] {["m1" := "bob"]} ∅.
Definition demo_roster : Roster := mkRoster [mkPerson "ana" "Ana" None; mkPerson "bob" "Bob" None] [demo_main; demo_youth] None.
Definition demo_in_use : RosterState := mkRosterState demo_roster "abc" "main".
Definition demo_live : MixState := (reconcile demo_info MixState_default).1.
Definition demo_files : gmap string FileText :=
  {["/data/lineups/active.json" := Readable (to_json (mkActiveFile ACTIVE_FORMAT "main" 5))]}.
Definition demo_band_server : Server :=
  mkServer (config_of [] [] false None None [] None) "/data" (Some demo_in_use)
    (mkMirror None (Some demo_info) demo_live Transient_default 7 true) true false false false [] 1 SoloJanitor_default None ∅ ∅
    demo_files (mkLoginStats 0 0 0) [].

(** The process ends as the target is to be recorded. *)
Definition demo_world : World :=
  mkWorld demo_band_server None false 0 false (demo_live, Transient_default) [FsOk; FsOk; FsDies false] [] [] [false] 9 "now" [] (mkPinStore (mkPinFile None ∅ ∅) "/data/secrets/pin_hashes.json") [].

Definition demo_ana : AuthClaims := mkAuthClaims "ana" false 0 0.

Lemma demo_fits : fits demo_info demo_live.
Proof. apply reconcile_fits. unfold mixes_distinct; cbn. apply NoDup_singleton. Qed.

Lemma demo_at_rest disk answers syncs :
  at_rest (put_scripts disk answers [] syncs demo_world) demo_in_use demo_main demo_info.
Proof.
  split; [reflexivity|reflexivity|reflexivity|reflexivity|reflexivity| |exact demo_fits|vm_compute; reflexivity|vm_compute; reflexivity].
  unfold mixes_distinct; cbn. apply NoDup_singleton.
Qed.

(** With nothing failing: Bob's band plays. *)
Lemma switch_is_whole_witness :
  let w := put_scripts [] [] [] [] demo_world in
  let v := look (switch_lineup "youth" demo_ana w).1 in
  (switch_lineup "youth" demo_ana w).2 = Some (Ok tt) /\ sc_frozen v = false /\ active_of v = Ok (Some "youth").
Proof.
  intros w v. destruct (switch_lineup "youth" demo_ana w) as [w' o] eqn:Hw.
  pose proof (switch_is_whole w w' o demo_in_use demo_main demo_youth demo_info "youth" demo_ana
                (demo_at_rest _ _ _) eq_refl eq_refl Hw) as (_ & _ & Hend).
  assert (Ho : o = Some (Ok tt)) by (apply (f_equal snd) in Hw; cbn in Hw; rewrite <-Hw; vm_compute; reflexivity).
  subst o. destruct Hend as (Hf & Ha & _). split; [reflexivity|]. split; [exact Hf|exact Ha].
Defined.

(** The process ends before the target is recorded; the next start finishes the
    switch once the engine, away at first, has synced. *)
Lemma crash_is_finished_witness :
  exists w3, one_band demo_roster "abc" demo_main demo_youth demo_info demo_live (look w3) /\ active_of (look w3) = Ok (Some "youth").
Proof.
  destruct (switch_lineup "youth" demo_ana demo_world) as [w1 o1] eqn:E1.
  assert (Ho1 : o1 = None) by (apply (f_equal snd) in E1; cbn in E1; rewrite <-E1; vm_compute; reflexivity). subst o1.
  assert (Ha : active_of (look w1) = Ok (Some "main")) by (apply (f_equal fst) in E1; cbn in E1; rewrite <-E1; vm_compute; reflexivity).
  destruct (server_start (Some demo_in_use) false None w1) as [w2|e] eqn:E2.
  2:{ exfalso. apply (f_equal fst) in E1. cbn in E1. rewrite <-E1 in E2. vm_compute in E2. discriminate E2. }
  assert (Hl : length (w_syncs w2) = 1%nat).
  { apply (f_equal fst) in E1. cbn in E1. rewrite <-E1 in E2. vm_compute in E2. injection E2 as <-. reflexivity. }
  destruct (replay_when_synced 4 w2) as [w3 o3] eqn:E3.
  assert (Ho3 : o3 = Some (Some (ReplayedFinished 1)) /\ active_of (look w3) = Ok (Some "youth")).
  { apply (f_equal fst) in E1. cbn in E1. rewrite <-E1 in E2. vm_compute in E2. injection E2 as <-. vm_compute in E3.
    injection E3 as <- <-. split; vm_compute; reflexivity. }
  destruct Ho3 as [-> Ha3]. exists w3. split; [|exact Ha3].
  refine (crash_is_finished demo_world w1 w2 w3 demo_in_use demo_main demo_youth demo_info "youth" "abc" "main" demo_ana false None 4
           (ReplayedFinished 1) (demo_at_rest _ _ _) eq_refl eq_refl eq_refl _ E1 Ha E2 _ E3 _); [discriminate|rewrite Hl; reflexivity|discriminate].
Defined.

(** A switch whose engine does not answer, twice: it is pending, and finished
    when the engine answers again. *)
Lemma replay_ends_witness :
  let w := put_scripts [] [EaTaken; EaLost true true] [] [false; true] demo_world in
  let w1 := (switch_lineup "youth" demo_ana w).1 in
  exists w2, replay_when_synced 5 w1 = (w2, Some (Some (ReplayedFinished 1))) /\ plays_on demo_roster "abc" demo_info (fun id => stored_of id (look w1)) demo_youth (look w2).
Proof.
  intros w w1. destruct (replay_when_synced 5 w1) as [w2 o] eqn:E2.
  assert (Ho : o = Some (Some (ReplayedFinished 1))) by (apply (f_equal snd) in E2; cbn in E2; rewrite <-E2; vm_compute; reflexivity).
  subst o. exists w2. split; [reflexivity|].
  refine (replay_ends demo_roster "abc" demo_main demo_youth demo_info 5 w1 w2 _ _ eq_refl eq_refl eq_refl eq_refl _ E2).
  - split_and!; [vm_compute; reflexivity..|]. exists "main". split; [vm_compute; reflexivity|].
    intros Ha. exfalso. vm_compute in Ha. discriminate Ha.
  - assert (Hl : length (w_syncs w1) = 2%nat) by (vm_compute; reflexivity). rewrite Hl. reflexivity.
Defined.

(** ** What a failed removal of the intent does *)

(** A switch that failed and was taken back, its intent not removed: the pages
    are free and Ana's band plays on, and the next start makes Bob's band play. *)
Example failed_switch_happens_later :
  let e := mkFileError "permission denied" "Access is denied." in
  let w := put_scripts [FsOk; FsOk; FsFails e; FsFails e] [] [] [] demo_world in
  let '(w1, o) := switch_lineup "youth" demo_ana w in
  o = Some (Err (SwIo "the band that plays was not recorded: permission denied"))
  /\ sc_frozen (look w1) = false /\ active_of (look w1) = Ok (Some "main")
  /\ match server_start (Some demo_in_use) false None w1 with
     | Ok w2 =>
         let '(w3, rep) := replay_when_synced 3 w2 in
         rep = Some (Some (ReplayedFinished 1)) /\ active_of (look w3) = Ok (Some "youth")
     | Err _ => False
     end.
Proof. vm_compute. tauto. Qed.

Section two_states.

(** Ana's band has the mix muted, Bob's has not. *)
Definition muted_state (muted : bool) : MixState := mkMixState (s_inputs demo_live) (set_muted muted <$> s_mixes demo_live).
Definition stored_backup (lineup : string) : MixerBackup := MixerBackup_new "now" 1 (muted_state (bool_decide (lineup = "main"))).
#[local] Instance stored_heads : Serde BackupHead :=
  {| to_json _ := ""; of_json _ := Ok (mkBackupHead BACKUP_FORMAT BACKUP_VERSION) |}.
#[local] Instance stored_backups : Serde MixerBackup :=
  {| to_json b := default "" (mb_lineup b); of_json lineup := Ok (stored_backup lineup) |}.

(** A switch cut short, both bands' states stored. *)
Definition unfinished_world (disk : list FsOutcome) : World :=
  let files := <["/data/lineups/main/state.json" := Readable "main"]> (<["/data/lineups/youth/state.json" := Readable "youth"]>
    (write_intent "/data/lineups" (mkSwitchIntent "main" "youth") demo_files)) in
  put_scripts disk [] [] [] (put_w_files files (put_server (put_frozen true false demo_band_server) demo_world)).

Definition m1_muted (w : World) : option bool := (fun x => o_muted (m_out x)) <$> s_mixes (w_engine w).1 !! "m1".

(** The replay cannot remove the intent, then the process ends on the way back
    before Ana's band is recorded: the next start finds Bob's recorded, removes
    the intent and frees the pages, and the engine holds Ana's mixes. *)
Example way_back_cut_short :
  let e := mkFileError "permission denied" "Access is denied." in
  let '(w1, o) := replay_when_synced 3 (unfinished_world [FsOk; FsOk; FsFails e; FsFails e; FsFails e; FsDies false]) in
  o = None /\ active_of (look w1) = Ok (Some "youth")
  /\ match server_start (Some (mkRosterState demo_roster "abc" "youth")) false None w1 with
     | Ok w2 =>
         let '(w3, rep) := replay_when_synced 3 w2 in
         rep = Some (Some (ReplayedFinished 1)) /\ sc_frozen (look w3) = false
         /\ active_of (look w3) = Ok (Some "youth") /\ m1_muted w3 = Some true
         /\ m1_muted (replay_when_synced 3 (unfinished_world [])).1 = Some false
     | Err _ => False
     end.
Proof. vm_compute. tauto. Qed.

End two_states.
