(* ===== verification/People.v ===== *)
(** * The people's data ([iem-server/src/pin_store.rs], [photo_store.rs],
    [people_removal.rs], and of [roster_watch.rs] [follow_people])

    PIN hashes, photos and the line-ups' files of a person, and their removal:
    whoever is no person of the roster loses everything, and nobody else loses
    anything.  The files are those of the world ([LineupStore]); a directory is
    there when a file is below it, and each look at the disk takes its outcome
    from the script like a write. *)

From S2P Require Import Prelude F64 Text MixState Msg Shape Codec Mirror Client LoginGuard Roster Config UiMsg SiteView View BandStore Sessions Pages Lineups LineupStore.
From Stdlib Require Import Ascii.
From stdpp Require Import options.
Local Open Scope Z_scope.
#[local] Unset Default Proof Using.

(** ** Looking at the disk *)

(** A look at the files; what it sees is of one moment. *)
Definition look_at {A : Type} (f : gmap string FileText -> A) : Io (result FileError A) := fun w =>
  let next := put_scripts (tail (w_disk w)) (w_answers w) (w_landing w) (w_syncs w) w in
  match w_disk w with
  | [] | FsOk :: _ => (next, Some (Ok (f (w_files w))))
  | FsFails e :: _ => (next, Some (Err e))
  | FsDies _ :: _ => (next, None)
  end.

(** A set's elements in order. *)
Definition in_order (X : gset string) : list string := btree_keys (gset_to_gmap () X).

Definition below (dir path : string) : option string := strip_prefix (dir +:+ "/") path.

(** The directories and the files right below [dir]. *)
Definition dirs_in (dir : string) (fs : gmap string FileText) : gset string :=
  list_to_set (omap (fun path => rest ← below dir path; fst <$> split_once "/" rest) (btree_keys fs)).
Definition files_in (dir : string) (fs : gmap string FileText) : gset string :=
  list_to_set (omap (fun path => rest ← below dir path;
                                 match split_once "/" rest with Some _ => None | None => Some rest end) (btree_keys fs)).
Definition tree (dir : string) (fs : gmap string FileText) : list string :=
  filter (fun path => is_Some (below dir path)) (btree_keys fs).

Definition exists_file (path : string) : Io (result FileError bool) := look_at (fun fs => bool_decide (is_Some (fs !! path))).

(** [remove_dir_all]: file by file; the first that fails ends it. *)
Fixpoint remove_all (paths : list string) : Io (result FileError unit) :=
  match paths with
  | [] => mret (Ok tt)
  | path :: paths => let? _ := remove_file path in remove_all paths
  end.

(** ** PIN hashes *)

Definition PIN_HASHES_FILE : string := "pin_hashes.json".
Definition PinFile_default : PinFile := mkPinFile None ∅ ∅.

Definition InvalidInput (what : string) : FileError := mkFileError "invalid input parameter" what.

Definition check_phc (owner phc : string) : result FileError unit :=
  match strip_prefix "$argon2id$" phc with
  | Some _ => Ok tt
  | None => Err (invalid ("the PIN entry for " +:+ owner +:+ " is not an argon2id hash"))
  end.

Definition check_member (member_id : string) : result FileError unit :=
  match validate_member_id member_id with
  | Err e => Err (InvalidInput e)
  | Ok _ =>
      if decide (member_id = ENGINEER_ID) then Err (InvalidInput "the engineer PIN is stored with set_engineer_hash") else Ok tt
  end.

Definition pn_set_members (members : gmap string string) (f : PinFile) : PinFile := mkPinFile (pn_engineer f) members (pn_archived f).
Definition pn_set_engineer (engineer : option string) (f : PinFile) : PinFile := mkPinFile engineer (pn_members f) (pn_archived f).
Definition pn_set_archived (archived : gmap string string) (f : PinFile) : PinFile := mkPinFile (pn_engineer f) (pn_members f) archived.

Definition pin_file : Io PinFile := gets (ps_file ∘ w_pins).
Definition set_pin_file (f : PinFile) : Io unit := modify (fun w => put_pins (mkPinStore f (ps_path (w_pins w))) w).

Section pins.
Context `{OsKind, Serde PinFile}.

(** Every hash of a file in the order they are checked. *)
Definition all_hashes (f : PinFile) : list (string * string) :=
  option_list ((fun phc => (ENGINEER_ID, phc)) <$> pn_engineer f) ++ entries (pn_members f) ++ entries (pn_archived f).

Definition pins_load (secrets_dir : string) (fs : gmap string FileText) : result FileError PinStore :=
  let path := ls_path secrets_dir PIN_HASHES_FILE in
  file ← match fs !! path with
         | None => Ok PinFile_default
         | Some (Unreadable e) => Err (mkFileError (os_kind e) e)
         | Some (Readable text) =>
             match of_json (F := PinFile) text with Ok f => Ok f | Err e => Err (invalid (path +:+ ": " +:+ e)) end
         end;
  _ ← foldM (fun _ p => check_phc p.1 p.2) tt (all_hashes file);
  Ok (mkPinStore file path).

(** The archived hashes are never written. *)
Definition pins_save : Io (result FileError unit) :=
  ps ← gets w_pins;
  write_durable (ps_path ps) (to_json (pn_set_archived ∅ (ps_file ps))).

(** A change of the file, undone when it cannot be saved. *)
Definition save_or (undo : PinFile -> PinFile) : Io (result FileError unit) :=
  saved ← pins_save;
  match saved with
  | Ok _ => mret (Ok tt)
  | Err e => f ← pin_file; _ ← set_pin_file (undo f); mret (Err e)
  end.

Definition remove_member (member_id : string) : Io (result FileError bool) :=
  match check_member member_id with
  | Err e => mret (Err e)
  | Ok _ =>
      f ← pin_file;
      match pn_members f !! member_id with
      | None => mret (Ok false)
      | Some old =>
          _ ← set_pin_file (pn_set_members (delete member_id (pn_members f)) f);
          let? _ := save_or (fun f => pn_set_members (<[member_id := old]> (pn_members f)) f) in
          mret (Ok true)
      end
  end.

Definition drop_archived : Io (result FileError (list string)) :=
  f ← pin_file;
  if decide (pn_archived f = ∅) then mret (Ok [])
  else
    let kept := pn_archived f in
    _ ← set_pin_file (pn_set_archived ∅ f);
    let? _ := save_or (pn_set_archived kept) in
    mret (Ok (btree_keys kept)).

Definition member_ids (f : PinFile) : list string := btree_keys (pn_members f).
Definition engineer_hash (f : PinFile) : option string := pn_engineer f.
Definition member_hash (f : PinFile) (member_id : string) : option string := pn_members f !! member_id.
Definition has_hashes (f : PinFile) : bool := bool_decide (is_Some (pn_engineer f)) || negb (bool_decide (pn_members f = ∅)).

Definition set_engineer_hash (phc : string) : Io (result FileError unit) :=
  match check_phc ENGINEER_ID phc with
  | Err e => mret (Err e)
  | Ok _ =>
      f ← pin_file;
      let old := pn_engineer f in
      _ ← set_pin_file (pn_set_engineer (Some phc) f);
      save_or (pn_set_engineer old)
  end.

Definition set_member_hash (member_id phc : string) : Io (result FileError unit) :=
  match (_ ← check_member member_id; check_phc member_id phc) with
  | Err e => mret (Err e)
  | Ok _ =>
      f ← pin_file;
      let old := pn_members f !! member_id in
      _ ← set_pin_file (pn_set_members (<[member_id := phc]> (pn_members f)) f);
      save_or (fun f => pn_set_members (match old with
                                        | Some old => <[member_id := old]> (pn_members f)
                                        | None => delete member_id (pn_members f)
                                        end) f)
  end.

(** ** A person's photo and files *)

Definition PHOTOS_DIR : string := "photos".
Definition PHOTO_EXT : string := "jpg".
Definition KINDS : list string := ["presets"; "snapshots"; "customizations"].
Definition ARCHIVE_DIR : string := "archive".

Definition config_dir : Io string := gets (sr_dir ∘ w_server).

Definition photo_path (dir member_id : string) : string := ls_path (ls_path dir PHOTOS_DIR) (member_id +:+ "." +:+ PHOTO_EXT).

Definition photo_remove (member_id : string) : Io (result FileError bool) :=
  match validate_member_id member_id with
  | Err e => mret (Err (InvalidInput e))
  | Ok _ =>
      dir ← config_dir;
      let path := photo_path dir member_id in
      let? found := exists_file path in
      if negb found then mret (Ok false) else let? _ := remove_file path in mret (Ok true)
  end.

Definition lineup_dirs (root : string) : Io (result FileError (list string)) :=
  look_at (fun fs => filter (fun name => valid_lineup_id name = true) (in_order (dirs_in root fs))).

(** [<stem>.<ext>] of a lower-case person id. *)
Definition stem_of (ext name : string) : option string :=
  stem ← (rest ← strip_suffix ext name; strip_suffix "." rest); if valid_person_id stem then Some stem else None.

Definition stems (dir ext : string) (out : gset string) : Io (result FileError (gset string)) :=
  look_at (fun fs => out ∪ list_to_set (omap (stem_of ext) (elements (files_in dir fs)))).

(** A line-up's directory for each kind. *)
Definition kind_dirs (root : string) (dirs : list string) : list string :=
  dirs ≫= fun name => (fun kind => ls_path (ls_path root name) kind) <$> KINDS.

Fixpoint all_stems (dirs : list string) (out : gset string) : Io (result FileError (gset string)) :=
  match dirs with
  | [] => mret (Ok out)
  | dir :: dirs => let? out := stems dir "json" out in all_stems dirs out
  end.

Definition held_ids : Io (result FileError (gset string)) :=
  dir ← config_dir;
  let? out := stems (ls_path dir PHOTOS_DIR) PHOTO_EXT ∅ in
  let root := ls_path dir LINEUPS_DIR in
  let? dirs := lineup_dirs root in
  all_stems (kind_dirs root dirs) out.

Definition drop_archive : Io (result FileError bool) :=
  dir ← config_dir;
  paths ← gets (tree (ls_path dir ARCHIVE_DIR) ∘ w_files);
  match paths with
  | [] => mret (Ok false)
  | _ => let? _ := remove_all paths in mret (Ok true)
  end.

Fixpoint those_there (paths : list string) : Io (result FileError (list string)) :=
  match paths with
  | [] => mret (Ok [])
  | path :: paths =>
      let? found := exists_file path in
      let? rest := those_there paths in
      mret (Ok (if found : bool then path :: rest else rest))
  end.

Definition files_of (root id : string) : Io (result FileError (list string)) :=
  let? dirs := lineup_dirs root in
  those_there ((fun dir => ls_path dir (id +:+ ".json")) <$> kind_dirs root dirs).

(** Each file deleted; how many were, and the first failure. *)
Fixpoint delete_each (paths : list string) (files : nat) (failed : option FileError) : Io (nat * option FileError) :=
  match paths with
  | [] => mret (files, failed)
  | path :: paths =>
      r ← remove_file path;
      match r with
      | Ok _ => delete_each paths (S files) failed
      | Err e => delete_each paths files (match failed with Some e => Some e | None => Some e end)
      end
  end.

Definition remove_person (id : string) : Io (result FileError bool) :=
  if negb (valid_person_id id) then mret (Err (InvalidInput "a removal takes a lower-case person id only"))
  else
    let? pin := remove_member id in
    photo ← photo_remove id;
    let '(photo, failed) := match photo with Ok found => (found, None) | Err e => (false, Some e) end in
    dir ← config_dir;
    let? paths := files_of (ls_path dir LINEUPS_DIR) id in
    '(files, failed) ← delete_each paths 0 failed;
    mret (match failed with
          | Some e => Err e
          | None => Ok (pin || photo || (0 <? Z.of_nat files))
          end).

(** ** Everyone who is no person of the roster *)

Record People := mkPeople { pp_removed : list string; pp_problems : list string }.
Definition People_default : People := mkPeople [] [].

Definition NOT_A_PERSON_ID : string := "a PIN hash whose id is no lower-case person id was not removed".

Definition and_problem (p : string) (out : People) : People := mkPeople (pp_removed out) (pp_problems out ++ [p]).

Definition or_problem {A : Type} (what : string) (r : result FileError A) (out : People) : People :=
  match r with Ok _ => out | Err e => and_problem (what +:+ ": " +:+ fe_kind e) out end.

Definition push_new (l : list string) (id : string) : list string := if decide (id ∈ l) then l else l ++ [id].

Fixpoint remove_each (r : Roster) (gone : list string) (out : People) : Io People :=
  match gone with
  | [] => mret out
  | id :: gone =>
      if decide (id = ENGINEER_ID \/ is_Some (roster_person r id)) then remove_each r gone out
      else if negb (valid_person_id id) then remove_each r gone (and_problem NOT_A_PERSON_ID out)
      else
        done ← remove_person id;
        remove_each r gone
          (match done with
           | Ok true => mkPeople (pp_removed out ++ [id]) (pp_problems out)
           | Ok false => out
           | Err e => and_problem ("person '" +:+ id +:+ "' was not removed: " +:+ fe_kind e) out
           end)
  end.

Definition follow_people (r : Roster) (removed : list string) : Io People :=
  pins ← drop_archived;
  archive ← drop_archive;
  held ← held_ids;
  f ← pin_file;
  let out :=
    or_problem "the people's photos and files were not looked through" held
      (or_problem "the archive an older server wrote was not deleted" archive
         (or_problem "the PIN hashes an older server archived were not deleted" pins People_default)) in
  let held := match held with Ok held => in_order held | Err _ => [] end in
  remove_each r (foldl push_new removed (member_ids f ++ held)) out.

(** ** What a removal leaves alone *)

Definition kind_file (dir name kind id : string) : string :=
  ls_path (ls_path (ls_path (ls_path dir LINEUPS_DIR) name) kind) (id +:+ ".json").

(** The files of one person. *)
Definition own_file (dir id path : string) : Prop :=
  path = photo_path dir id \/ exists name kind, valid_lineup_id name = true /\ kind ∈ KINDS /\ path = kind_file dir name kind id.

Definition pins_of (w : World) : PinFile := ps_file (w_pins w).
Definition dir_of (w : World) : string := sr_dir (w_server w).

(** Hashes of [f] that [G] lost, and nobody else. *)
Definition fewer (G : string -> Prop) (f f' : PinFile) : Prop :=
  pn_engineer f' = pn_engineer f
  /\ forall id, pn_members f' !! id = pn_members f !! id \/ G id /\ pn_members f' !! id = None.

(** A file is as it was, or was somebody's of [G] or archived and is gone, or is
    the hashes' file, saved with nobody but [G] missing. *)
Definition spared (G : string -> Prop) (w : World) (fs : gmap string FileText) (path : string) : Prop :=
  fs !! path = w_files w !! path
  \/ (is_Some (below (ls_path (dir_of w) ARCHIVE_DIR) path) \/ exists id, G id /\ own_file (dir_of w) id path) /\ fs !! path = None
  \/ path = ps_path (w_pins w) /\ exists f, fewer G (pins_of w) f /\ fs !! path = Some (Readable (to_json (pn_set_archived ∅ f))).

(** What else the world holds is as it was. *)
Definition rewritten (w : World) (disk : list FsOutcome) (fs : gmap string FileText) (f : PinFile) : World :=
  put_pins (mkPinStore f (ps_path (w_pins w))) (put_scripts disk (w_answers w) (w_landing w) (w_syncs w) (put_w_files fs w)).

Definition spares (G : string -> Prop) (w w' : World) : Prop :=
  exists disk fs f, w' = rewritten w disk fs f /\ fewer G (pins_of w) f /\ forall path, spared G w fs path.

(** Whatever [m] does in the directory [dir] spares everyone but [G]. *)
Definition does {A : Type} (dir : string) (G : string -> Prop) (m : Io A) : Prop :=
  forall w w' o, dir_of w = dir -> m w = (w', o) -> spares G w w'.

Lemma rewritten_id w : rewritten w (w_disk w) (w_files w) (pins_of w) = w.
Proof. by destruct w as [[] ? ? ? ? ? ? ? ? ? ? ? ? [] ?]. Qed.

Lemma rewritten_twice w d fs f d' fs' f' : rewritten (rewritten w d fs f) d' fs' f' = rewritten w d' fs' f'.
Proof. done. Qed.

Lemma fewer_refl G f : fewer G f f.
Proof. split; [done|]. intros id. by left. Qed.

Lemma fewer_trans G f1 f2 f3 : fewer G f1 f2 -> fewer G f2 f3 -> fewer G f1 f3.
Proof.
  intros [He1 H1] [He2 H2]. split; [congruence|]. intros id.
  destruct (H2 id) as [->|[Hg Hn]]; [apply H1|by right].
Qed.

Lemma spares_refl G w : spares G w w.
Proof.
  exists (w_disk w), (w_files w), (pins_of w). rewrite rewritten_id. split; [done|]. split; [apply fewer_refl|]. intros path. by left.
Qed.

Lemma spares_trans G w1 w2 w3 : spares G w1 w2 -> spares G w2 w3 -> spares G w1 w3.
Proof.
  intros (d & fs & f & -> & Hf & Hp) (d' & fs' & f' & -> & Hf' & Hp'). exists d', fs', f'.
  split; [apply rewritten_twice|]. split; [by eapply fewer_trans|]. intros path.
  destruct (Hp' path) as [Hs|[[Ht Hn]|(-> & f2 & Hf2 & Hs)]].
  - unfold spared. rewrite Hs. apply Hp.
  - right. by left.
  - right. right. split; [done|]. exists f2. split; [by eapply fewer_trans|done].
Qed.

Lemma fewer_weaken (G G' : string -> Prop) f f' : (forall id, G id -> G' id) -> fewer G f f' -> fewer G' f f'.
Proof. intros Hg [He Hm]. split; [done|]. intros id. destruct (Hm id) as [|[]]; auto. Qed.

Lemma spares_weaken (G G' : string -> Prop) w w' : (forall id, G id -> G' id) -> spares G w w' -> spares G' w w'.
Proof.
  intros Hg (d & fs & f & -> & Hf & Hp). exists d, fs, f. split; [done|]. split; [by eapply fewer_weaken|]. intros path.
  destruct (Hp path) as [|[[[|(id & Hid & Ho)] Hn]|(Hpa & f2 & Hf2 & Hs)]]; [by left|right; left; by auto| |].
  - right. left. split; [|done]. right. exists id. auto.
  - right. right. split; [done|]. exists f2. split; [by eapply fewer_weaken|done].
Qed.

Lemma spares_dir G w w' : spares G w w' -> dir_of w' = dir_of w.
Proof. by intros (d & fs & f & -> & _). Qed.

Section steps.
Context (dir : string) (G : string -> Prop).

Lemma does_bind {A B : Type} (m : Io A) (k : A -> Io B) :
  does dir G m -> (forall a, does dir G (k a)) -> does dir G (m ≫= k).
Proof.
  intros Hm Hk w w' o Hd Hw. unfold mbind, Io_bind in Hw. destruct (m w) as [w1 [a|]] eqn:Hm1.
  - pose proof (Hm _ _ _ Hd Hm1) as Hs. eapply spares_trans; [done|]. eapply Hk, Hw. by rewrite (spares_dir _ _ _ Hs).
  - injection Hw as <- <-. by eapply Hm.
Qed.

Lemma does_ret {A : Type} (a : A) : does dir G (mret a).
Proof. intros w w' o _ [= <- <-]. apply spares_refl. Qed.

Lemma does_gets {A : Type} (f : World -> A) : does dir G (gets f).
Proof. intros w w' o _ [= <- <-]. apply spares_refl. Qed.

Lemma does_try {E A B : Type} (m : Io (result E A)) (k : A -> Io (result E B)) :
  does dir G m -> (forall a, does dir G (k a)) -> does dir G (try_ m k).
Proof. intros Hm Hk. apply does_bind; [done|]. intros [a|e]; [apply Hk|apply does_ret]. Qed.

(** A step that takes one outcome and changes no more than one file. *)
Lemma spares_file w d fs : (forall path, spared G w fs path) -> spares G w (rewritten w d fs (pins_of w)).
Proof. intros Hp. exists d, fs, (pins_of w). split; [done|]. split; [apply fewer_refl|done]. Qed.

Lemma does_look {A : Type} (f : gmap string FileText -> A) : does dir G (look_at f).
Proof.
  intros w w' o _. unfold look_at.
  assert (Hs : spares G w (put_scripts (tail (w_disk w)) (w_answers w) (w_landing w) (w_syncs w) w)).
  { pose proof (spares_file w (tail (w_disk w)) (w_files w)) as Hsp. destruct w as [[] ? ? ? ? ? ? ? ? ? ? ? ? [] ?]. apply Hsp.
    intros path. by left. }
  destruct (w_disk w) as [|[|e|[]] l]; by intros [= <- <-].
Qed.

(** The world after a write or a removal that took an outcome. *)
Lemma written_files w fs :
  put_w_files fs (put_scripts (tail (w_disk w)) (w_answers w) (w_landing w) (w_syncs w) w) = rewritten w (tail (w_disk w)) fs (pins_of w).
Proof. by destruct w as [? ? ? ? ? ? ? ? ? ? ? ? ? [] ?]. Qed.

Lemma rewritten_same w d : put_scripts d (w_answers w) (w_landing w) (w_syncs w) w = rewritten w d (w_files w) (pins_of w).
Proof. by destruct w as [[] ? ? ? ? ? ? ? ? ? ? ? ? [] ?]. Qed.

Lemma remove_file_cases path w w' o :
  remove_file path w = (w', o) ->
  exists fs, w' = rewritten w (tail (w_disk w)) fs (pins_of w)
  /\ match o with
     | Some (Ok _) => fs = delete path (w_files w)
     | Some (Err _) => fs = w_files w
     | None => fs = w_files w \/ fs = delete path (w_files w)
     end.
Proof.
  unfold remove_file. rewrite !written_files, rewritten_same.
  destruct (w_disk w) as [|[|e|[]] l]; intros [= <- <-]; cbn [tail]; by eexists; auto.
Qed.

Lemma write_durable_cases path data w w' o :
  write_durable path data w = (w', o) ->
  exists fs, w' = rewritten w (tail (w_disk w)) fs (pins_of w)
  /\ match o with
     | Some (Ok _) => fs = <[path := Readable data]> (w_files w)
     | Some (Err _) => fs = w_files w
     | None => fs = w_files w \/ fs = <[path := Readable data]> (w_files w)
     end.
Proof.
  unfold write_durable. rewrite !written_files, rewritten_same.
  destruct (w_disk w) as [|[|e|[]] l]; intros [= <- <-]; cbn [tail]; by eexists; auto.
Qed.

Lemma does_remove_file path : (forall w, dir_of w = dir -> spared G w (delete path (w_files w)) path) -> does dir G (remove_file path).
Proof.
  intros Hp w w' o Hd0 Hw. destruct (remove_file_cases _ _ _ _ Hw) as (fs & -> & Hfs).
  assert (Hd : fs = w_files w \/ fs = delete path (w_files w)) by (destruct o as [[]|]; auto). clear Hfs Hw.
  apply spares_file. intros p. destruct Hd as [->| ->]; [by left|].
  destruct (decide (p = path)) as [->|]; [by apply Hp|]. left. by apply lookup_delete_ne.
Qed.

(** The hashes changed, saved or changed back. *)
Lemma save_change w w' o f undo :
  fewer G (pins_of w) f -> fewer G (pins_of w) (undo f) ->
  save_or undo (put_pins (mkPinStore f (ps_path (w_pins w))) w) = (w', o) -> spares G w w'.
Proof.
  intros Hf Hu Hw. unfold save_or, mbind at 1, Io_bind at 1 in Hw. destruct (pins_save _) as [w1 o1] eqn:Hs.
  change (write_durable (ps_path (w_pins w)) (to_json (pn_set_archived ∅ f)) (put_pins (mkPinStore f (ps_path (w_pins w))) w) = (w1, o1)) in Hs.
  apply write_durable_cases in Hs as (fs & -> & Hfs).
  assert (Hp : fs = w_files w \/ fs = <[ps_path (w_pins w) := Readable (to_json (pn_set_archived ∅ f))]> (w_files w))
    by (destruct o1 as [[]|]; auto).
  assert (Hsp : forall path, spared G w fs path).
  { intros path. destruct Hp as [->| ->]; [by left|]. destruct (decide (path = ps_path (w_pins w))) as [->|].
    - right. right. split; [done|]. exists f. by rewrite lookup_insert_eq.
    - left. by apply lookup_insert_ne. }
  destruct o1 as [[[]|e]|]; cbn in Hw; injection Hw as <- <-; eexists _, fs, _; (split; [reflexivity|split; [|exact Hsp]]); done.
Qed.

Lemma fewer_delete f id : G id -> fewer G f (pn_set_members (delete id (pn_members f)) f).
Proof.
  intros Hg. split; [done|]. intros id'. cbn. destruct (decide (id' = id)) as [->|].
  - right. by rewrite lookup_delete_eq.
  - left. by rewrite lookup_delete_ne.
Qed.

Lemma does_remove_member id : G id -> does dir G (remove_member id).
Proof.
  intros Hg w w' o Hd Hw. unfold remove_member in Hw. destruct (check_member id); [|by eapply does_ret].
  unfold pin_file, gets, mbind at 1, Io_bind at 1 in Hw. change ((ps_file ∘ w_pins) w) with (pins_of w) in Hw.
  destruct (pn_members (pins_of w) !! id) as [old|] eqn:Hold; [|by eapply does_ret].
  unfold mbind at 1, Io_bind at 1, set_pin_file, modify, try_, mbind, Io_bind in Hw.
  destruct (save_or _ _) as [w1 o1] eqn:Hs. apply save_change in Hs; [|by apply fewer_delete|].
  - destruct o1 as [[]|]; by injection Hw as <- <-.
  - cbn. rewrite insert_delete_id by done. split; [done|]. by left.
Qed.

Lemma does_drop_archived : does dir G drop_archived.
Proof.
  intros w w' o Hd Hw. unfold drop_archived in Hw.
  unfold pin_file, gets, mbind at 1, Io_bind at 1 in Hw. change ((ps_file ∘ w_pins) w) with (pins_of w) in Hw.
  case_decide; [by eapply does_ret|].
  unfold mbind at 1, Io_bind at 1, set_pin_file, modify, try_, mbind, Io_bind in Hw.
  destruct (save_or _ _) as [w1 o1] eqn:Hs. apply save_change in Hs; [|split; [done|]; by left..].
  destruct o1 as [[]|]; by injection Hw as <- <-.
Qed.

Lemma does_config {A : Type} (k : string -> Io A) : does dir G (k dir) -> does dir G (config_dir ≫= k).
Proof. intros Hk w w' o <- Hw. by eapply Hk. Qed.

Lemma does_remove_all paths : Forall (fun path => is_Some (below (ls_path dir ARCHIVE_DIR) path)) paths -> does dir G (remove_all paths).
Proof.
  induction 1 as [|path paths Hp _ IH]; cbn; [apply does_ret|]. apply does_try; [|done].
  apply does_remove_file. intros w <-. right. left. split; [by left|by apply lookup_delete_eq].
Qed.

Lemma does_drop_archive : does dir G drop_archive.
Proof.
  apply does_config. intros w w' o Hd Hw. unfold gets, mbind, Io_bind in Hw. cbn in Hw.
  pose proof (list_elem_of_filter (fun path => is_Some (below (ls_path dir ARCHIVE_DIR) path))) as Hin.
  destruct (tree _ _) as [|path paths] eqn:Ht; [by eapply does_ret|].
  revert Hd Hw. apply does_try; [|intros; apply does_ret]. apply does_remove_all. rewrite <-Ht. apply Forall_forall. intros x Hx.
  by apply list_elem_of_filter in Hx as [].
Qed.

Lemma does_stems d ext out : does dir G (stems d ext out).
Proof. apply does_look. Qed.

Lemma does_all_stems dirs out : does dir G (all_stems dirs out).
Proof. revert out. induction dirs as [|d dirs IH]; intros out; cbn; [apply does_ret|]. apply does_try; [apply does_stems|done]. Qed.

Lemma does_held_ids : does dir G held_ids.
Proof.
  apply does_config, does_try; [apply does_stems|]. intros out. apply does_try; [apply does_look|]. intros dirs. apply does_all_stems.
Qed.

Lemma does_those_there paths : does dir G (those_there paths).
Proof.
  induction paths as [|path paths IH]; cbn; [apply does_ret|]. apply does_try; [apply does_look|]. intros found.
  apply does_try; [done|]. intros rest. apply does_ret.
Qed.

Lemma does_own_file id path : G id -> own_file dir id path -> does dir G (remove_file path).
Proof.
  intros Hg Ho. apply does_remove_file. intros w <-. right. left. split; [|by apply lookup_delete_eq]. right. by exists id.
Qed.

Lemma does_delete_each id paths n e : G id -> Forall (own_file dir id) paths -> does dir G (delete_each paths n e).
Proof.
  intros Hg Hp. revert n e. induction Hp as [|path paths Ho _ IH]; intros n e; cbn; [apply does_ret|].
  apply does_bind; [by eapply does_own_file|]. intros [[]|]; apply IH.
Qed.

Lemma does_photo id : G id -> does dir G (photo_remove id).
Proof.
  intros Hg. unfold photo_remove. destruct (validate_member_id id); [|apply does_ret]. apply does_config, does_try; [apply does_look|].
  intros []; cbn; [|apply does_ret]. apply does_try; [|intros; apply does_ret]. eapply does_own_file; [done|by left].
Qed.

(** The files [files_of] finds are the person's. *)
Lemma those_there_sub paths w w' l : those_there paths w = (w', Some (Ok l)) -> forall path, path ∈ l -> path ∈ paths.
Proof.
  revert w l. induction paths as [|p paths IH]; intros w l; cbn.
  - intros [= _ <-]. done.
  - unfold try_, mbind, Io_bind. destruct (exists_file p w) as [w1 [[found|]|]]; [|done..].
    destruct (those_there paths w1) as [w2 [[rest|]|]] eqn:Hr; [|done..]. intros [= <- <-] path Hin.
    apply elem_of_cons. destruct found; [apply elem_of_cons in Hin as [->|Hin]; [by left|]|]; right; by eapply IH.
Qed.

Lemma elem_of_kind_dirs root dirs d :
  d ∈ kind_dirs root dirs <-> exists name kind, name ∈ dirs /\ kind ∈ KINDS /\ d = ls_path (ls_path root name) kind.
Proof.
  unfold kind_dirs. rewrite list_elem_of_bind. split.
  - intros (name & Hd & Hn). apply list_elem_of_fmap in Hd as (kind & -> & Hk). by exists name, kind.
  - intros (name & kind & Hn & Hk & ->). exists name. split; [|done]. apply list_elem_of_fmap. by exists kind.
Qed.

Lemma files_of_own id w w' l : files_of (ls_path dir LINEUPS_DIR) id w = (w', Some (Ok l)) -> Forall (own_file dir id) l.
Proof.
  unfold files_of, try_, mbind at 1, Io_bind at 1. destruct (lineup_dirs _ w) as [w1 [[dirs|]|]] eqn:Hd; [|done..]. intros Hl.
  apply Forall_forall. intros path Hin. apply (those_there_sub _ _ _ _ Hl) in Hin.
  apply list_elem_of_fmap in Hin as (d & -> & (name & kind & Hn & Hk & ->)%elem_of_kind_dirs). right. exists name, kind. split_and!; [|done|done].
  revert Hd. unfold lineup_dirs, look_at. destruct (w_disk w) as [|[]]; intros [= _ <-]; by apply list_elem_of_filter in Hn as [].
Qed.

Lemma does_remove_person id : G id -> does dir G (remove_person id).
Proof.
  intros Hg. unfold remove_person. destruct (negb _); [apply does_ret|]. apply does_try; [by apply does_remove_member|]. intros pin.
  apply does_bind; [by apply does_photo|]. intros photo. destruct (match photo with Ok _ => _ | Err _ => _ end) as [ph failed].
  apply does_config. intros w w' o Hd Hw. unfold try_, mbind at 1, Io_bind at 1 in Hw.
  destruct (files_of _ id w) as [w1 r] eqn:Hf.
  assert (Hs : spares G w w1).
  { revert Hf. revert Hd. apply does_try; [apply does_look|]. intros dirs. apply does_those_there. }
  eapply spares_trans; [exact Hs|]. apply spares_dir in Hs. destruct r as [[paths|e]|]; [|injection Hw as <- <-; apply spares_refl..].
  revert Hw. rewrite Hd in Hs. revert Hs. apply does_bind; [|intros []; apply does_ret].
  apply (does_delete_each id); [done|by eapply files_of_own].
Qed.

Lemma does_remove_each r gone out :
  (forall id, id <> ENGINEER_ID -> roster_person r id = None -> valid_person_id id = true -> G id) -> does dir G (remove_each r gone out).
Proof.
  intros Hg. revert out. induction gone as [|id gone IH]; intros out; cbn; [apply does_ret|]. case_decide as Hp; [done|].
  destruct (valid_person_id id) eqn:Hv; cbn; [|done]. apply does_bind; [|done]. apply does_remove_person, Hg; [tauto| |done].
  destruct (roster_person r id); [exfalso; apply Hp; right; by eexists|done].
Qed.

End steps.

(** Who is no person of the roster. *)
Definition goner (r : Roster) (id : string) : Prop := id <> ENGINEER_ID /\ roster_person r id = None /\ valid_person_id id = true.

Lemma does_follow_people dir r removed : does dir (goner r) (follow_people r removed).
Proof.
  unfold follow_people. apply does_bind; [apply does_drop_archived|]. intros pins. apply does_bind; [apply does_drop_archive|]. intros archive.
  apply does_bind; [apply does_held_ids|]. intros held. apply does_bind; [apply does_gets|]. intros f.
  apply does_remove_each. by intros id He Hr Hv.
Qed.

(** ** What a removal removes *)

Lemma str_app_inj_r (a b c : string) : a +:+ c = b +:+ c -> a = b.
Proof. intros Heq. pose proof (strip_suffix_app c a) as Ha. rewrite Heq, strip_suffix_app in Ha. by injection Ha. Qed.

Lemma person_id_lacks id : valid_person_id id = true -> lacks "/"%char id.
Proof.
  unfold valid_person_id, validate_member_id, lacks. case_decide; [done|]. destruct (str_forallb member_char id) eqn:Hm; [|done]. intros _.
  revert Hm. clear. induction id as [|c id IH]; [done|]. cbn. intros Hc. bool_inv. rewrite IH by done.
  destruct (bool_decide_reflect (c = "/"%char)) as [->|]; [done|done].
Qed.

Lemma below_Some dir path rest : below dir path = Some rest <-> path = ls_path dir rest.
Proof. unfold below, ls_path. by rewrite strip_prefix_Some, str_app_assoc. Qed.

Lemma elem_of_files_in dir fs name : lacks "/"%char name -> name ∈ files_in dir fs <-> is_Some (fs !! ls_path dir name).
Proof.
  intros Hl. unfold files_in. rewrite elem_of_list_to_set, list_elem_of_omap. split.
  - intros (path & Hin%elem_of_btree_keys & Hp). destruct (below dir path) as [rest|] eqn:Hb; [|done]. cbn in Hp.
    destruct (split_once "/" rest); [done|]. injection Hp as ->. apply below_Some in Hb as ->. done.
  - intros Hs. exists (ls_path dir name). split; [by apply elem_of_btree_keys|].
    assert (below dir (ls_path dir name) = Some name) as -> by by apply below_Some. cbn. by rewrite split_once_None.
Qed.

Lemma elem_of_dirs_in dir fs name rest : lacks "/"%char name -> is_Some (fs !! ls_path dir (name +:+ "/" +:+ rest)) -> name ∈ dirs_in dir fs.
Proof.
  intros Hl Hs. unfold dirs_in. apply elem_of_list_to_set, list_elem_of_omap. exists (ls_path dir (name +:+ "/" +:+ rest)).
  split; [by apply elem_of_btree_keys|].
  assert (below dir (ls_path dir (name +:+ "/" +:+ rest)) = Some (name +:+ "/" +:+ rest)) as -> by by apply below_Some. cbn.
  by rewrite split_once_app.
Qed.

Lemma elem_of_in_order X x : x ∈ in_order X <-> x ∈ X.
Proof. unfold in_order. rewrite elem_of_btree_keys. split; [by intros [? [? _]%lookup_gset_to_gmap_Some]|]. intros Hx. exists (). by apply lookup_gset_to_gmap_Some. Qed.

Lemma stem_of_Some ext name id : stem_of ext name = Some id <-> name = id +:+ "." +:+ ext /\ valid_person_id id = true.
Proof.
  unfold stem_of. split.
  - destruct (strip_suffix ext name) as [rest|] eqn:Hr; [|done]. cbn. destruct (strip_suffix "." rest) as [stem|] eqn:Hs; [|done]. cbn.
    apply strip_suffix_Some in Hr as ->. apply strip_suffix_Some in Hs as ->.
    destruct (valid_person_id stem) eqn:Hv; [|done]. intros [= <-]. by rewrite str_app_assoc.
  - intros [-> Hv]. rewrite <-str_app_assoc, strip_suffix_app. cbn. rewrite strip_suffix_app. cbn. by rewrite Hv.
Qed.

Lemma elem_of_stems dir ext fs (out : gset string) id :
  lacks "/"%char ("." +:+ ext) ->
  id ∈ out ∪ list_to_set (omap (stem_of ext) (elements (files_in dir fs)))
  <-> id ∈ out \/ valid_person_id id = true /\ is_Some (fs !! ls_path dir (id +:+ "." +:+ ext)).
Proof.
  intros Hl. rewrite elem_of_union, elem_of_list_to_set, list_elem_of_omap.
  assert (Hn : valid_person_id id = true -> lacks "/"%char (id +:+ "." +:+ ext)).
  { intros Hv. unfold lacks. rewrite str_forallb_app, (person_id_lacks _ Hv). exact Hl. }
  split; (intros [Ho|Hx]; [by left|right]).
  - destruct Hx as (name & Hin & [-> Hv]%stem_of_Some). split; [done|]. apply elem_of_elements, elem_of_files_in in Hin; auto.
  - destruct Hx as [Hv Hs]. exists (id +:+ "." +:+ ext). split; [|by apply stem_of_Some]. apply elem_of_elements, elem_of_files_in; auto.
Qed.

(** *** Paths of different people *)

Definition SECRETS_DIR : string := "secrets".

Definition pins_in_place (w : World) : Prop := ps_path (w_pins w) = ls_path (ls_path (dir_of w) SECRETS_DIR) PIN_HASHES_FILE.

Lemma kind_lacks kind : kind ∈ KINDS -> lacks "/"%char kind.
Proof. unfold KINDS. rewrite !elem_of_cons, elem_of_nil. by intros [->|[->|[->|[]]]]. Qed.

Lemma photo_path_top dir id : photo_path dir id = dir +:+ "/photos/" +:+ id +:+ ".jpg".
Proof. unfold photo_path, ls_path. by rewrite !str_app_assoc. Qed.

Lemma kind_file_top dir name kind id : kind_file dir name kind id = dir +:+ "/lineups/" +:+ name +:+ "/" +:+ kind +:+ "/" +:+ id +:+ ".json".
Proof. unfold kind_file, ls_path. by rewrite !str_app_assoc. Qed.

Lemma own_file_inj dir id id' path : own_file dir id path -> own_file dir id' path -> id = id'.
Proof.
  unfold own_file. rewrite !photo_path_top. intros [->|(name & kind & Hn & Hk & ->)] [Heq|(name' & kind' & Hn' & Hk' & Heq)].
  - apply (inj (String.app dir)), (inj (String.app "/photos/")) in Heq. by apply str_app_inj_r in Heq.
  - rewrite kind_file_top in Heq. by apply (inj (String.app dir)) in Heq.
  - rewrite kind_file_top in Heq. by apply (inj (String.app dir)) in Heq.
  - rewrite !kind_file_top in Heq. apply (inj (String.app dir)), (inj (String.app "/lineups/")) in Heq.
    apply (f_equal (split_once "/")) in Heq. rewrite !split_once_app in Heq by by apply lineup_id_lacks. injection Heq as _ Heq.
    change (kind +:+ "/" +:+ id +:+ ".json" = kind' +:+ "/" +:+ id' +:+ ".json") in Heq.
    apply (f_equal (split_once "/")) in Heq. rewrite !split_once_app in Heq by by apply kind_lacks. injection Heq as _ Heq.
    by apply str_app_inj_r in Heq.
Qed.

Lemma own_file_elsewhere dir id path :
  own_file dir id path -> below (ls_path dir ARCHIVE_DIR) path = None /\ path <> ls_path (ls_path dir SECRETS_DIR) PIN_HASHES_FILE.
Proof.
  intros Ho.
  assert (Ha : forall rest, path <> ls_path (ls_path dir ARCHIVE_DIR) rest /\ path <> ls_path (ls_path dir SECRETS_DIR) rest).
  { intros rest. unfold ls_path. rewrite !str_app_assoc. destruct Ho as [->|(name & kind & _ & _ & ->)]; rewrite ?photo_path_top, ?kind_file_top;
      split; intros Heq; by apply (inj (String.app dir)) in Heq. }
  split; [|apply Ha]. destruct (below _ path) as [rest|] eqn:Hb; [|done]. apply below_Some in Hb. by destruct (proj1 (Ha rest)).
Qed.

(** What somebody has here. *)
Definition holds (w : World) (id : string) : Prop :=
  is_Some (pn_members (pins_of w) !! id) \/ exists path, own_file (dir_of w) id path /\ is_Some (w_files w !! path).

Lemma holds_spared G w w' id : pins_in_place w -> spares G w w' -> ~ G id -> holds w' id <-> holds w id.
Proof.
  intros Hp (d & fs & f & -> & [_ Hf] & Hs) Hg.
  assert (Hm : pn_members f !! id = pn_members (pins_of w) !! id) by (destruct (Hf id) as [|[]]; done).
  assert (Hfile : forall path, own_file (dir_of w) id path -> fs !! path = w_files w !! path).
  { intros path Ho. destruct (Hs path) as [|[[[Ha|(id' & Hid & Ho')] _]|[-> _]]]; [done|exfalso..].
    - rewrite (proj1 (own_file_elsewhere _ _ _ Ho)) in Ha. by destruct Ha.
    - by rewrite (own_file_inj _ _ _ _ Ho Ho') in Hg.
    - by apply (proj2 (own_file_elsewhere _ _ _ Ho)). }
  unfold holds. change (pn_members (pins_of (rewritten w d fs f)) !! id) with (pn_members f !! id). rewrite Hm.
  change (dir_of (rewritten w d fs f)) with (dir_of w). change (w_files (rewritten w d fs f)) with fs.
  split; (intros [|(path & Ho & Hx)]; [by left|right; exists path; split; [done|]]); by rewrite (Hfile _ Ho) in *.
Qed.

Lemma pins_in_place_spared G w w' : spares G w w' -> pins_in_place w -> pins_in_place w'.
Proof. by intros (d & fs & f & -> & _). Qed.

(** *** With a disk that works *)

Definition quiet (w : World) : Prop := w_disk w = [].

Lemma quiet_rewritten w fs : quiet w -> quiet (rewritten w (tail (w_disk w)) fs (pins_of w)).
Proof. unfold quiet. by intros Hq; cbn; rewrite Hq. Qed.

Lemma quiet_look {A : Type} (f : gmap string FileText -> A) w : quiet w -> look_at f w = (w, Some (Ok (f (w_files w)))).
Proof. intros Hq. unfold look_at. rewrite rewritten_same, Hq. cbn [tail]. by rewrite <-Hq, rewritten_id. Qed.

Lemma quiet_remove path w : quiet w -> exists w', remove_file path w = (w', Some (Ok tt)) /\ quiet w' /\ w' = rewritten w [] (delete path (w_files w)) (pins_of w).
Proof. intros Hq. unfold remove_file. rewrite written_files, Hq. eexists. by split_and!. Qed.

(** The hashes changed and saved. *)
Lemma quiet_save undo f w :
  quiet w -> save_or undo (put_pins (mkPinStore f (ps_path (w_pins w))) w)
             = (rewritten w [] (<[ps_path (w_pins w) := Readable (to_json (pn_set_archived ∅ f))]> (w_files w)) f, Some (Ok tt)).
Proof.
  intros Hq. unfold save_or, mbind at 1, Io_bind at 1.
  change (pins_save (put_pins (mkPinStore f (ps_path (w_pins w))) w))
    with (write_durable (ps_path (w_pins w)) (to_json (pn_set_archived ∅ f)) (put_pins (mkPinStore f (ps_path (w_pins w))) w)).
  unfold write_durable. rewrite written_files. change (w_disk (put_pins _ w)) with (w_disk w). by rewrite Hq.
Qed.

(** What the disk says of the hashes. *)
Definition reads_back (w : World) : Prop :=
  match w_files w !! ps_path (w_pins w) with
  | None => pins_of w = PinFile_default
  | Some (Readable text) => of_json text = Ok (pins_of w)
  | Some (Unreadable _) => False
  end.

Definition SerdePins : Prop := forall f : PinFile, of_json (to_json f) = Ok f.

Lemma saved_reads_back w fs f :
  SerdePins -> pn_archived f = ∅ -> fs !! ps_path (w_pins w) = Some (Readable (to_json (pn_set_archived ∅ f))) ->
  reads_back (rewritten w [] fs f).
Proof.
  intros Hs Ha Hf. unfold reads_back. cbn. change (w_files (rewritten w [] fs f)) with fs. rewrite Hf, Hs.
  change (pins_of (rewritten w [] fs f)) with f. destruct f as [e m a]. cbn in *. by subst.
Qed.

Lemma quiet_remove_member id w :
  quiet w -> valid_person_id id = true -> id <> ENGINEER_ID ->
  exists w' b, remove_member id w = (w', Some (Ok b)) /\ quiet w'
  /\ (b = true <-> is_Some (pn_members (pins_of w) !! id)) /\ pn_members (pins_of w') !! id = None
  /\ pn_archived (pins_of w') = pn_archived (pins_of w)
  /\ (forall path, path <> ps_path (w_pins w) -> w_files w' !! path = w_files w !! path)
  /\ (SerdePins -> pn_archived (pins_of w) = ∅ -> reads_back w -> reads_back w').
Proof.
  intros Hq Hv Hne. unfold remove_member.
  assert (check_member id = Ok tt) as ->.
  { unfold check_member. unfold valid_person_id in Hv. destruct (validate_member_id id); [|done]. by rewrite decide_False. }
  unfold pin_file, gets, mbind at 1, Io_bind at 1. change ((ps_file ∘ w_pins) w) with (pins_of w).
  destruct (pn_members (pins_of w) !! id) as [old|] eqn:Hold.
  - unfold mbind at 1, Io_bind at 1, set_pin_file, modify, try_, mbind, Io_bind. rewrite quiet_save by done.
    eexists _, true. split; [reflexivity|]. split_and!; [done|done|cbn; by apply lookup_delete_eq|done| |].
    + intros path Hp. cbn. by apply lookup_insert_ne.
    + intros Hs Ha _. apply saved_reads_back; [done|done|]. by apply lookup_insert_eq.
  - exists w, false. split_and!; auto. split; [done|]. by intros [].
Qed.

Lemma quiet_photo dir id w :
  quiet w -> dir_of w = dir -> valid_person_id id = true ->
  exists fs b, photo_remove id w = (rewritten w [] fs (pins_of w), Some (Ok b))
  /\ (b = true <-> is_Some (w_files w !! photo_path dir id)) /\ fs = delete (photo_path dir id) (w_files w).
Proof.
  intros Hq Hd Hv. unfold photo_remove. unfold valid_person_id in Hv. destruct (validate_member_id id); [|done].
  unfold config_dir, gets, mbind at 1, Io_bind at 1. change ((sr_dir ∘ w_server) w) with (dir_of w). rewrite Hd.
  unfold try_ at 1, mbind at 1, Io_bind at 1, exists_file. rewrite quiet_look by done.
  destruct (bool_decide_reflect (is_Some (w_files w !! photo_path dir id))) as [Hs|Hs]; cbn.
  - unfold try_, mbind, Io_bind. destruct (quiet_remove (photo_path dir id) w Hq) as (w' & -> & _ & ->). by eexists _, true.
  - exists (w_files w), false. split; [|split; [done|]].
    + by rewrite <-Hq, rewritten_id.
    + by rewrite delete_id by by apply eq_None_not_Some.
Qed.

Lemma quiet_those_there paths w :
  quiet w -> exists l, those_there paths w = (w, Some (Ok l)) /\ forall path, path ∈ l <-> path ∈ paths /\ is_Some (w_files w !! path).
Proof.
  intros Hq. induction paths as [|p paths (l & Hl & Hin)]; cbn.
  - exists []. split; [done|]. intros path. rewrite elem_of_nil. tauto.
  - unfold try_, mbind, Io_bind, exists_file. rewrite quiet_look, Hl by done.
    eexists. split; [reflexivity|]. intros path. rewrite elem_of_cons. case_bool_decide as Hs.
    + rewrite elem_of_cons, Hin. naive_solver.
    + rewrite Hin. naive_solver.
Qed.

Lemma quiet_files_of dir id w :
  quiet w -> exists l, files_of (ls_path dir LINEUPS_DIR) id w = (w, Some (Ok l))
  /\ forall path, path ∈ l <-> is_Some (w_files w !! path)
                    /\ exists name kind, valid_lineup_id name = true /\ kind ∈ KINDS /\ path = kind_file dir name kind id.
Proof.
  intros Hq. unfold files_of, try_, mbind, Io_bind, lineup_dirs. rewrite quiet_look by done.
  destruct (quiet_those_there ((fun d => ls_path d (id +:+ ".json")) <$> kind_dirs (ls_path dir LINEUPS_DIR)
    (filter (fun name => valid_lineup_id name = true) (in_order (dirs_in (ls_path dir LINEUPS_DIR) (w_files w))))) w Hq) as (l & Hl & Hin).
  exists l. split; [exact Hl|]. intros path. rewrite Hin, list_elem_of_fmap. split.
  - intros [(d & -> & (name & kind & Hn & Hk & ->)%elem_of_kind_dirs) Hs]. split; [done|]. exists name, kind.
    apply list_elem_of_filter in Hn as [Hv _]. done.
  - intros [Hs (name & kind & Hv & Hk & ->)]. split; [|done]. exists (ls_path (ls_path (ls_path dir LINEUPS_DIR) name) kind). split; [done|].
    apply elem_of_kind_dirs. exists name, kind. split_and!; [|done|done]. apply list_elem_of_filter. split; [done|]. apply elem_of_in_order.
    apply (elem_of_dirs_in _ _ _ (kind +:+ "/" +:+ id +:+ ".json")); [by apply lineup_id_lacks|].
    replace (ls_path _ _) with (kind_file dir name kind id); [done|]. rewrite kind_file_top. unfold ls_path. by rewrite !str_app_assoc.
Qed.

Lemma quiet_delete_each paths n e w :
  quiet w -> exists w', delete_each paths n e w = (w', Some ((n + length paths)%nat, e)) /\ quiet w' /\ pins_of w' = pins_of w
  /\ ps_path (w_pins w') = ps_path (w_pins w) /\ dir_of w' = dir_of w
  /\ forall path, w_files w' !! path = if decide (path ∈ paths) then None else w_files w !! path.
Proof.
  revert n w. induction paths as [|p paths IH]; intros n w Hq.
  - exists w. cbn. rewrite Nat.add_0_r. by split_and!.
  - cbn. unfold mbind, Io_bind. destruct (quiet_remove p w Hq) as (w1 & -> & Hq1 & ->).
    destruct (IH (S n) _ Hq1) as (w' & -> & Hq' & Hp & Hps & Hd & Hf). exists w'.
    split_and!; [do 2 f_equal; f_equal; cbn; lia|done|done|done|done|].
    intros path. rewrite Hf. change (w_files (rewritten _ _ ?fs _)) with fs.
    destruct (decide (path = p)) as [->|Hne].
    + rewrite lookup_delete_eq. rewrite (decide_True (P := p ∈ p :: paths)) by apply elem_of_cons, or_introl, eq_refl. by case_decide.
    + rewrite lookup_delete_ne by done. apply decide_ext. rewrite elem_of_cons. tauto.
Qed.

Lemma quiet_remove_person id w :
  quiet w -> pins_in_place w -> valid_person_id id = true -> id <> ENGINEER_ID ->
  exists w' b, remove_person id w = (w', Some (Ok b)) /\ quiet w' /\ (b = true <-> holds w id) /\ ~ holds w' id
  /\ pn_archived (pins_of w') = pn_archived (pins_of w)
  /\ (SerdePins -> pn_archived (pins_of w) = ∅ -> reads_back w -> reads_back w').
Proof.
  intros Hq Hp Hv Hne. unfold remove_person. rewrite Hv. cbn [negb].
  destruct (quiet_remove_member id w Hq Hv Hne) as (w1 & pin & H1 & Hq1 & Hpin & Hn1 & Ha1 & Hf1 & Hr1).
  assert (Hd1 : dir_of w1 = dir_of w /\ ps_path (w_pins w1) = ps_path (w_pins w)).
  { destruct (does_remove_member (dir_of w) (eq id) id eq_refl w w1 _ eq_refl H1) as (? & ? & ? & -> & _). done. }
  destruct Hd1 as [Hd1 Hps1].
  unfold try_ at 1, mbind at 1, Io_bind at 1. rewrite H1. unfold mbind at 1, Io_bind at 1.
  destruct (quiet_photo (dir_of w) id w1 Hq1 Hd1 Hv) as (fs2 & photo & -> & Hphoto & Hf2).
  unfold config_dir, gets, mbind at 1, Io_bind at 1. change ((sr_dir ∘ w_server) (rewritten w1 [] fs2 (pins_of w1))) with (dir_of w1). rewrite Hd1.
  unfold try_, mbind at 1, Io_bind at 1. set (w2 := rewritten w1 [] fs2 (pins_of w1)).
  destruct (quiet_files_of (dir_of w) id w2 eq_refl) as (paths & -> & Hin). change (w_files w2) with fs2 in Hin.
  unfold mbind, Io_bind. destruct (quiet_delete_each paths 0 None w2 eq_refl) as (w' & -> & Hq' & Hpins & Hps & Hd & Hf).
  change (pins_of w2) with (pins_of w1) in Hpins. change (ps_path (w_pins w2)) with (ps_path (w_pins w1)) in Hps.
  change (dir_of w2) with (dir_of w1) in Hd. change (w_files w2) with fs2 in Hf.
  assert (Helse : forall path, own_file (dir_of w) id path -> path <> ps_path (w_pins w)).
  { intros path Ho. rewrite Hp. by apply (own_file_elsewhere _ _ _ Ho). }
  eexists w', _. split; [reflexivity|]. split; [done|]. split_and!.
  - rewrite !orb_true_iff, Hpin, Hphoto, Z.ltb_lt. rewrite Hf1 by by apply Helse; left. unfold holds. split.
    + intros [[Hm|Hx]|Hl]; [by left|right; eexists; split; [by left|done]|].
      destruct paths as [|path paths]; [cbn in Hl; lia|]. destruct (proj1 (Hin path)) as [Hs (name & kind & Hnm & Hk & ->)]; [apply elem_of_cons; by left|].
      right. eexists. split; [right; by exists name, kind|]. subst fs2. apply lookup_delete_is_Some in Hs as [_ Hs].
      rewrite Hf1 in Hs; [done|]. apply Helse. right. by exists name, kind.
    + intros [Hm|(path & Ho & Hs)]; [by left; left|]. destruct Ho as [->|Hk]; [by left; right|].
      destruct (decide (path = photo_path (dir_of w) id)) as [->|Hnp]; [by left; right|]. right.
      assert (Hpin2 : path ∈ paths).
      { apply Hin. split; [|done]. subst fs2. rewrite lookup_delete_ne by done. rewrite Hf1; [done|]. apply Helse. by right. }
      destruct paths; [by apply elem_of_nil in Hpin2|cbn; lia].
  - intros [Hm|(path & Ho & Hs)].
    + rewrite Hpins, Hn1 in Hm. by destruct Hm.
    + rewrite Hd, Hd1 in Ho. rewrite Hf in Hs. case_decide as Hnin; [by destruct Hs|]. destruct Ho as [->|Hk].
      * subst fs2. rewrite lookup_delete_eq in Hs. by destruct Hs.
      * apply Hnin, Hin. by split.
  - congruence.
  - intros Hs Ha Hr. specialize (Hr1 Hs Ha Hr). unfold reads_back in *. rewrite Hpins, Hps, Hf, Hps1 in *.
    rewrite decide_False.
    + subst fs2. rewrite lookup_delete_ne; [done|]. apply Helse. by left.
    + intros [_ (name & kind & Hnm & Hk & Heq)]%Hin. eapply Helse; [|by symmetry]. right. by exists name, kind.
Qed.

Lemma quiet_all_stems dirs out w :
  quiet w -> exists out', all_stems dirs out w = (w, Some (Ok out'))
  /\ forall id, id ∈ out' <-> id ∈ out \/ valid_person_id id = true /\ exists d, d ∈ dirs /\ is_Some (w_files w !! ls_path d (id +:+ ".json")).
Proof.
  intros Hq. revert out. induction dirs as [|d dirs IH]; intros out; cbn.
  - exists out. split; [done|]. intros id. split; [by left|]. intros [|(_ & d & Hd & _)]; [done|by apply elem_of_nil in Hd].
  - unfold try_, mbind, Io_bind, stems. rewrite quiet_look by done. edestruct IH as (out' & -> & Hin). exists out'. split; [done|].
    intros id. rewrite Hin, elem_of_stems by done. change ("." +:+ "json") with ".json".
    setoid_rewrite elem_of_cons. naive_solver.
Qed.

Lemma quiet_held_ids w :
  quiet w -> exists held, held_ids w = (w, Some (Ok held))
  /\ forall id, id ∈ held <-> valid_person_id id = true /\ exists path, own_file (dir_of w) id path /\ is_Some (w_files w !! path).
Proof.
  intros Hq. unfold held_ids, config_dir, gets, mbind at 1, Io_bind at 1. change ((sr_dir ∘ w_server) w) with (dir_of w).
  unfold try_, mbind, Io_bind, stems, lineup_dirs. rewrite !quiet_look by done.
  edestruct quiet_all_stems as (held & -> & Hin); [done|]. exists held. split; [done|]. intros id. rewrite Hin, elem_of_stems by done. split.
  - intros [[Hn|[Hv Hs]]|(Hv & d & (name & kind & Hn & Hk & ->)%elem_of_kind_dirs & Hs)].
    + by apply elem_of_empty in Hn.
    + split; [done|]. eexists. split; [by left|done].
    + split; [done|]. eexists. split; [|exact Hs]. right. exists name, kind. apply list_elem_of_filter in Hn as []. done.
  - intros [Hv (path & [->|(name & kind & Hn & Hk & ->)] & Hs)]; [left; by right|right]. split; [done|].
    eexists. split; [|exact Hs]. apply elem_of_kind_dirs. exists name, kind. split_and!; [|done|done]. apply list_elem_of_filter.
    split; [done|]. apply elem_of_in_order, (elem_of_dirs_in _ _ _ (kind +:+ "/" +:+ id +:+ ".json")); [by apply lineup_id_lacks|].
    replace (ls_path _ _) with (kind_file (dir_of w) name kind id); [done|]. rewrite kind_file_top. unfold ls_path. by rewrite !str_app_assoc.
Qed.

Lemma elem_of_push_new l ids id : id ∈ foldl push_new l ids <-> id ∈ l \/ id ∈ ids.
Proof.
  revert l. induction ids as [|x ids IH]; intros l; cbn; [rewrite elem_of_nil; tauto|]. rewrite IH, elem_of_cons. unfold push_new.
  case_decide; rewrite ?elem_of_app, ?elem_of_cons, ?elem_of_nil; naive_solver.
Qed.

Lemma holds_shrinks G w w' id : pins_in_place w -> spares G w w' -> holds w' id -> holds w id.
Proof.
  intros Hp (d & fs & f & -> & [_ Hf] & Hs) [Hm|(path & Ho & Hx)]; [left|right].
  - change (is_Some (pn_members f !! id)) in Hm. destruct (Hf id) as [<-|[_ Hn]]; [done|]. rewrite Hn in Hm. by destruct Hm.
  - exists path. split; [done|]. change (is_Some (fs !! path)) in Hx. destruct (Hs path) as [<-|[[_ Hn]|[-> _]]]; [done| |].
    + rewrite Hn in Hx. by destruct Hx.
    + by destruct (proj2 (own_file_elsewhere _ _ _ Ho)).
Qed.

(** The removals one after another. *)
Lemma quiet_remove_each r gone out w :
  quiet w -> pins_in_place w ->
  exists w' out', remove_each r gone out w = (w', Some out') /\ quiet w'
  /\ (forall id, id ∈ pp_removed out' <-> id ∈ pp_removed out \/ id ∈ gone /\ goner r id /\ holds w id)
  /\ (forall id, id ∈ gone -> goner r id -> ~ holds w' id)
  /\ (forall p, p ∈ pp_problems out' -> p ∈ pp_problems out \/ p = NOT_A_PERSON_ID)
  /\ pn_archived (pins_of w') = pn_archived (pins_of w)
  /\ (SerdePins -> pn_archived (pins_of w) = ∅ -> reads_back w -> reads_back w').
Proof.
  revert out w. induction gone as [|id gone IH]; intros out w Hq Hp.
  { exists w, out. split; [done|]. setoid_rewrite elem_of_nil. split_and!; naive_solver. }
  destruct (decide (goner r id)) as [Hg|Hg].
  - destruct Hg as (Hne & Hr & Hv).
    destruct (quiet_remove_person id w Hq Hp Hv Hne) as (w1 & b & H1 & Hq1 & Hb & Hn1 & Ha1 & Hr1).
    pose proof (does_remove_person (dir_of w) (eq id) id eq_refl w w1 _ eq_refl H1) as Hsp.
    set (out1 := if b then mkPeople (pp_removed out ++ [id]) (pp_problems out) else out).
    pose proof (pins_in_place_spared _ _ _ Hsp Hp) as Hp1.
    destruct (IH out1 w1 Hq1 Hp1) as (w' & out' & He & Hq' & Hrem & Hgone & Hprob & Ha & Hrb).
    exists w', out'. split.
    { cbn. rewrite decide_False by (intros [|[]]; congruence). rewrite Hv. cbn. unfold mbind, Io_bind. rewrite H1. by destruct b. }
    pose proof (does_remove_each (dir_of w1) (fun _ => True) r gone out1 ltac:(done) w1 w' _ eq_refl He) as Hsp'.
    split_and!; [done| | | |congruence|].
    + intros i. rewrite Hrem, elem_of_cons.
      assert (Ho1 : i ∈ pp_removed out1 <-> i ∈ pp_removed out \/ i = id /\ b = true).
      { subst out1. destruct b; cbn; rewrite ?elem_of_app, ?elem_of_cons, ?elem_of_nil; naive_solver. }
      rewrite Ho1, Hb. destruct (decide (i = id)) as [->|Hni]; [unfold goner; tauto|].
      rewrite (holds_spared (eq id) w w1 i Hp Hsp) by congruence. tauto.
    + intros i [->|Hi]%elem_of_cons Hgi Hh; [|by apply (Hgone i)]. apply Hn1. by eapply holds_shrinks.
    + intros p Hpr%Hprob. by destruct b.
    + intros Hs Ha0 Hr0. apply Hrb; [done|congruence|by apply Hr1].
  - assert (Hsame : exists out1, remove_each r (id :: gone) out = remove_each r gone out1 /\ pp_removed out1 = pp_removed out
              /\ forall p, p ∈ pp_problems out1 -> p ∈ pp_problems out \/ p = NOT_A_PERSON_ID).
    { cbn. case_decide as Hd; [by exists out; auto|]. destruct (valid_person_id id) eqn:Hv; cbn.
      - destruct Hg. unfold goner. destruct (roster_person r id); [destruct Hd; right; by eexists|]. tauto.
      - eexists. split_and!; [done|done|]. cbn. intros p. rewrite elem_of_app, list_elem_of_singleton. tauto. }
    destruct Hsame as (out1 & -> & Hrem1 & Hprob1).
    destruct (IH out1 w Hq Hp) as (w' & out' & He & Hq' & Hrem & Hgone & Hprob & Ha & Hrb).
    exists w', out'. split_and!; [done|done| | | |done|done].
    + intros i. rewrite Hrem, elem_of_cons, Hrem1. naive_solver.
    + intros i [->|Hi]%elem_of_cons Hgi; [done|by apply Hgone].
    + intros p [Hpr|]%Hprob; [by apply Hprob1|by right].
Qed.

Lemma quiet_drop_archived w :
  quiet w -> exists w' l, drop_archived w = (w', Some (Ok l)) /\ quiet w' /\ pn_archived (pins_of w') = ∅
  /\ (SerdePins -> reads_back w -> reads_back w').
Proof.
  intros Hq. unfold drop_archived, pin_file, gets, mbind at 1, Io_bind at 1. change ((ps_file ∘ w_pins) w) with (pins_of w).
  case_decide as Ha; [by exists w, []|].
  unfold mbind at 1, Io_bind at 1, set_pin_file, modify, try_, mbind, Io_bind. rewrite quiet_save by done.
  eexists _, _. split; [reflexivity|]. split_and!; [done|done|]. intros Hs _. apply saved_reads_back; [done|done|]. by apply lookup_insert_eq.
Qed.

Lemma quiet_remove_all paths w :
  quiet w -> exists w', remove_all paths w = (w', Some (Ok tt)) /\ quiet w' /\ pins_of w' = pins_of w
  /\ ps_path (w_pins w') = ps_path (w_pins w) /\ dir_of w' = dir_of w
  /\ forall path, w_files w' !! path = if decide (path ∈ paths) then None else w_files w !! path.
Proof.
  revert w. induction paths as [|p paths IH]; intros w Hq.
  - exists w. by split_and!.
  - cbn. unfold try_, mbind, Io_bind. destruct (quiet_remove p w Hq) as (w1 & -> & Hq1 & ->).
    destruct (IH _ Hq1) as (w' & -> & Hq' & Hp & Hps & Hd & Hf). exists w'. split_and!; [done..|].
    intros path. rewrite Hf. change (w_files (rewritten _ _ ?fs _)) with fs.
    destruct (decide (path = p)) as [->|Hne].
    + rewrite lookup_delete_eq. rewrite (decide_True (P := p ∈ p :: paths)) by apply elem_of_cons, or_introl, eq_refl. by case_decide.
    + rewrite lookup_delete_ne by done. apply decide_ext. rewrite elem_of_cons. tauto.
Qed.

Lemma quiet_drop_archive w :
  quiet w -> pins_in_place w -> exists w' b, drop_archive w = (w', Some (Ok b)) /\ quiet w' /\ pins_of w' = pins_of w
  /\ (forall path, is_Some (below (ls_path (dir_of w) ARCHIVE_DIR) path) -> w_files w' !! path = None)
  /\ (reads_back w -> reads_back w').
Proof.
  intros Hq Hpl. unfold drop_archive, config_dir, gets, mbind at 1, Io_bind at 1. change ((sr_dir ∘ w_server) w) with (dir_of w).
  unfold mbind at 1, Io_bind at 1. change ((tree ?d ∘ w_files) w) with (tree d (w_files w)).
  assert (Htree : forall path, path ∈ tree (ls_path (dir_of w) ARCHIVE_DIR) (w_files w)
            <-> is_Some (below (ls_path (dir_of w) ARCHIVE_DIR) path) /\ is_Some (w_files w !! path)).
  { intros path. unfold tree. by rewrite list_elem_of_filter, elem_of_btree_keys. }
  assert (Hgo : exists w', remove_all (tree (ls_path (dir_of w) ARCHIVE_DIR) (w_files w)) w = (w', Some (Ok tt)) /\ quiet w'
            /\ pins_of w' = pins_of w
            /\ (forall path, is_Some (below (ls_path (dir_of w) ARCHIVE_DIR) path) -> w_files w' !! path = None)
            /\ (reads_back w -> reads_back w')).
  { destruct (quiet_remove_all (tree (ls_path (dir_of w) ARCHIVE_DIR) (w_files w)) w Hq) as (w' & He & Hq' & Hp & Hps & Hd & Hf).
    exists w'. split_and!; [done..| |].
    - intros path Hb. rewrite Hf. case_decide as Hn; [done|]. apply eq_None_not_Some. intros Hs. by apply Hn, Htree.
    - unfold reads_back. rewrite Hp, Hps, Hf. rewrite decide_False; [done|]. intros [[rest Hb] _]%Htree.
      apply below_Some in Hb. rewrite Hpl in Hb. unfold ls_path in Hb. rewrite !str_app_assoc in Hb. by apply (inj (String.app (dir_of w))) in Hb. }
  destruct Hgo as (w' & He & Hgo). destruct (tree _ _) as [|path paths].
  - injection He as ->. by exists w', false.
  - unfold try_, mbind, Io_bind. rewrite He. by exists w', true.
Qed.

(** ** Properties *)

(** C15: The people's data follows the roster.  Whatever fails and wherever the
    process ends, the photos, files and PIN hashes of the roster's people and of
    the engineer are as they were, in memory and in the saved file, and nothing
    else of the server changes.  With a disk that works, nobody else keeps
    anything: exactly those who had something are named as removed, no problem
    but an id that is no person's is named, what an older server archived is
    gone, and the saved hashes are those in memory. *)
Theorem removal_is_exact (w w' : World) (o : option People) (r : Roster) (removed : list string) :
  pins_in_place w -> SerdePins -> reads_back w -> follow_people r removed w = (w', o) ->
  spares (goner r) w w'
  /\ (w_disk w = [] ->
      exists p, o = Some p
      /\ (forall id, id ∈ pp_removed p <-> goner r id /\ holds w id)
      /\ (forall id, goner r id -> ~ holds w' id)
      /\ (forall x, x ∈ pp_problems p -> x = NOT_A_PERSON_ID)
      /\ pn_archived (pins_of w') = ∅ /\ reads_back w'
      /\ forall path, is_Some (below (ls_path (dir_of w) ARCHIVE_DIR) path) -> w_files w' !! path = None).
Proof.
  intros Hp Hser Hrb Hw. split; [by eapply does_follow_people|]. intros Hq.
  unfold follow_people, mbind at 1, Io_bind at 1 in Hw.
  destruct (quiet_drop_archived w Hq) as (w1 & l & H1 & Hq1 & Ha1 & Hr1). rewrite H1 in Hw.
  pose proof (does_drop_archived (dir_of w) (fun _ => False) w w1 _ eq_refl H1) as Hs1.
  pose proof (pins_in_place_spared _ _ _ Hs1 Hp) as Hp1. pose proof (spares_dir _ _ _ Hs1) as Hd1.
  unfold mbind at 1, Io_bind at 1 in Hw.
  destruct (quiet_drop_archive w1 Hq1 Hp1) as (w2 & b & H2 & Hq2 & Hpins2 & Harch & Hr2). rewrite H2 in Hw.
  pose proof (does_drop_archive (dir_of w1) (fun _ => False) w1 w2 _ eq_refl H2) as Hs2.
  pose proof (pins_in_place_spared _ _ _ Hs2 Hp1) as Hp2. pose proof (spares_dir _ _ _ Hs2) as Hd2.
  unfold mbind at 1, Io_bind at 1 in Hw. destruct (quiet_held_ids w2 Hq2) as (held & H3 & Hheld). rewrite H3 in Hw.
  unfold pin_file, gets, mbind, Io_bind in Hw. change ((ps_file ∘ w_pins) w2) with (pins_of w2) in Hw. cbn [or_problem] in Hw.
  destruct (quiet_remove_each r (foldl push_new removed (member_ids (pins_of w2) ++ in_order held)) People_default w2 Hq2 Hp2)
    as (w3 & p & H4 & Hq3 & Hrem & Hgone & Hprob & Ha3 & Hr3).
  pose proof (does_remove_each (dir_of w2) (fun _ => True) r _ _ ltac:(done) w2 w3 _ eq_refl H4) as Hs3.
  rewrite H4 in Hw. injection Hw as <- <-. exists p. split; [done|].
  assert (Hholds : forall id, holds w2 id <-> holds w id).
  { intros id. rewrite (holds_spared _ w1 w2 id Hp1 Hs2) by tauto. by rewrite (holds_spared _ w w1 id Hp Hs1) by tauto. }
  assert (Hall : forall id, goner r id -> holds w2 id -> id ∈ foldl push_new removed (member_ids (pins_of w2) ++ in_order held)).
  { intros id Hg Hh. apply elem_of_push_new. right. apply elem_of_app. destruct Hh as [Hm|Hf].
    - left. by apply elem_of_btree_keys.
    - right. apply elem_of_in_order, Hheld. split; [apply Hg|done]. }
  assert (Ha2 : pn_archived (pins_of w2) = ∅) by by rewrite Hpins2.
  split_and!.
  - intros id. rewrite Hrem, <-Hholds. cbn. rewrite elem_of_nil. split; [tauto|]. intros [Hg Hh]. right. auto.
  - intros id Hg Hh. pose proof (holds_shrinks _ _ _ id Hp2 Hs3 Hh) as Hh2. by apply (Hgone id); auto.
  - intros x [Hx|]%Hprob; [by apply elem_of_nil in Hx|done].
  - congruence.
  - apply Hr3; auto.
  - intros path Hb. rewrite <-Hd1 in Hb. pose proof (Harch path Hb) as Hn.
    destruct Hs3 as (d & fs & f & -> & _ & Hsp). change (fs !! path = None).
    destruct (Hsp path) as [->|[[_ Hn']|[-> _]]]; [done|done|exfalso]. destruct Hb as [rest Hb%below_Some].
    rewrite Hp2, Hd2 in Hb. unfold ls_path in Hb. rewrite !str_app_assoc in Hb. by apply (inj (String.app (dir_of w1))) in Hb.
Qed.

End pins.

(** ** An example *)

#[export] Instance PinFile_eq_dec : EqDecision PinFile.
Proof. solve_decision. Defined.
#[export] Instance PinFile_countable : Countable PinFile.
Proof.
  refine (inj_countable' (fun f => (pn_engineer f, pn_members f, pn_archived f)) (fun p => mkPinFile p.1.1 p.1.2 p.2) _). by intros [].
Defined.
#[local] Instance demo_pin_texts : Serde PinFile := {| to_json f := to_bits (countable.encode f); of_json := bits_of_json |}.
#[local] Instance demo_os_kind : OsKind := fun _ => "other error".

(** Bob is no person of the roster any more; Ann and the engineer stay. *)
Definition demo_pins : PinFile := mkPinFile (Some "e") {["ann" := "a"; "bob" := "b"]} ∅.
Definition demo_home : gmap string FileText :=
  {["/data/photos/ann.jpg" := Readable "A"; "/data/photos/bob.jpg" := Readable "B";
    "/data/lineups/main/presets/bob.json" := Readable "{}";
    "/data/secrets/pin_hashes.json" := Readable (to_json demo_pins)]}.
Definition demo_house : World :=
  mkWorld
    (mkServer (config_of [] [] false None None [] None) "/data" None (mkMirror None None MixState_default Transient_default 0 false)
       false false false false [] 1 SoloJanitor_default None ∅ ∅ demo_home (mkLoginStats 0 0 0) [])
    None false 0 false (MixState_default, Transient_default) [] [] [] [] 0 "now" [] (mkPinStore demo_pins "/data/secrets/pin_hashes.json") [].
Definition demo_only_ann : Roster := mkRoster [mkPerson "ann" "Ann" None] [] None.

Lemma removal_is_exact_witness :
  exists w' p, follow_people demo_only_ann ["bob"] demo_house = (w', Some p) /\ "bob" ∈ pp_removed p /\ ~ holds w' "bob".
Proof.
  destruct (follow_people demo_only_ann ["bob"] demo_house) as [w' o] eqn:Hw.
  destruct (removal_is_exact demo_house w' o demo_only_ann ["bob"]) as [_ Hq]; [done|intros f; apply bits_back| |done|].
  { unfold reads_back. change (w_files demo_house !! ps_path (w_pins demo_house)) with (demo_home !! "/data/secrets/pin_hashes.json").
    assert (demo_home !! "/data/secrets/pin_hashes.json" = Some (Readable (to_json demo_pins))) as -> by reflexivity. apply bits_back. }
  destruct Hq as (p & -> & Hrem & Hgone & _); [done|].
  assert (Hg : goner demo_only_ann "bob") by (split_and!; [done|reflexivity|reflexivity]).
  exists w', p. split_and!; [done| |by apply Hgone]. apply Hrem. split; [done|]. left. by eexists.
Defined.
