(* ===== verification/Migrate.v ===== *)
(** * The migration to line-ups ([iem-server/src/lineup_store.rs])

    The band's files of before the roster ([<kind>/<member>.json]) become the
    main line-up's, once: staged in a directory of their own, which is renamed
    into place; what is left to delete after that is written down beside them and
    finished by the next call.  A copy is created empty, written and synced, each
    a step of the disk's script. *)

From S2P Require Import Prelude F64 Text MixState Msg Shape Codec Mirror Client LoginGuard Roster Config UiMsg SiteView View BandStore Sessions Pages Lineups LineupStore People.
From Stdlib Require Import Ascii.
From stdpp Require Import options.
Local Open Scope Z_scope.
#[local] Unset Default Proof Using.

Definition STAGING_DIR : string := "lineups.migrating".
Definition PENDING_NAME : string := "migration.json".
Definition PENDING_FILE : string := "lineups/migration.json".
Definition PENDING_FORMAT : string := "iemmixer-migration".

Record MigrationReport := mkMigrationReport { mr_moved : list string; mr_taken_over : list (string * string); mr_removed : list string }.
Definition MigrationReport_default : MigrationReport := mkMigrationReport [] [] [].

(** Where a test may fail it. *)
Inductive MigrationStep := StepCommit | StepFinish.

Record MigrationPending := mkMigrationPending { mp_format : string; mp_delete : list string; mp_remove : list string }.

Definition file_of (kind id : string) : string := ls_path kind (id +:+ ".json").

(** A file takes [text]. *)
Definition put_file (path : string) (text : FileText) : Io (result FileError unit) := fun w =>
  let done := put_w_files (<[path := text]> (w_files w)) in
  let next := put_scripts (tail (w_disk w)) (w_answers w) (w_landing w) (w_syncs w) w in
  match w_disk w with
  | [] | FsOk :: _ => (done next, Some (Ok tt))
  | FsFails e :: _ => (next, Some (Err e))
  | FsDies b :: _ => (if b then done next else next, None)
  end.

(** [rename] of a directory onto a name that is free. *)
Definition moved_tree (from to : string) (fs : gmap string FileText) : gmap string FileText :=
  foldl (fun out path =>
           match below from path, fs !! path with
           | Some rest, Some text => <[ls_path to rest := text]> (delete path out)
           | _, _ => out
           end) fs (btree_keys fs).

Definition rename_dir (from to : string) : Io (result FileError unit) := fun w =>
  let done := put_w_files (moved_tree from to (w_files w)) in
  let next := put_scripts (tail (w_disk w)) (w_answers w) (w_landing w) (w_syncs w) w in
  match w_disk w with
  | [] | FsOk :: _ => (done next, Some (Ok tt))
  | FsFails e :: _ => (next, Some (Err e))
  | FsDies b :: _ => (if b then done next else next, None)
  end.

Definition exists_dir (dir : string) : Io (result FileError bool) := look_at (fun fs => negb (bool_decide (tree dir fs = []))).

Section migration.
Context `{OsKind, Serde PinFile, Serde MigrationPending, Serde ActiveFile}.

Definition copy_durable (from to : string) : Io (result FileError bool) :=
  let? here := exists_file from in
  if negb here then mret (Ok false)
  else
    let? there := exists_file to in
    if there : bool then mret (Ok false)
    else
      fs ← gets w_files;
      match fs !! from with
      | Some (Readable text) =>
          let? _ := put_file to (Readable "") in
          let? _ := put_file to (Readable text) in
          let? _ := look_at (fun _ => tt) in
          mret (Ok true)
      | Some (Unreadable e) => mret (Err (mkFileError (os_kind e) e))
      | None => mret (Ok false)
      end.

Definition migration_problems (r : Roster) : list string :=
  problems r
  ++ each (fun i p => match pe_takes_over p with
                      | Some t => note (bool_decide (is_Some (roster_person r t)))
                                    ("person #" +:+ dec (Z.of_nat (S i)) +:+ ": takes_over names a person, whose files are their own")
                      | None => []
                      end) (ro_people r).

(** The kinds' files copied one after another; whether any was. *)
Fixpoint copy_kinds (copy : string -> Io (result FileError bool)) (kinds : list string) (copied : bool) : Io (result FileError bool) :=
  match kinds with
  | [] => mret (Ok copied)
  | kind :: kinds => let? c := copy kind in copy_kinds copy kinds (copied || c)
  end.

Definition stays (r : Roster) (id : string) : bool := bool_decide (id = ENGINEER_ID \/ is_Some (roster_person r id)).

(** Each member's own files under their own id. *)
Fixpoint copy_members (r : Roster) (takers : list (string * string)) (dir main : string) (ids : list string) (moved : list string)
    : Io (result FileError (list string)) :=
  match ids with
  | [] => mret (Ok moved)
  | id :: ids =>
      if negb (stays r id) && bool_decide (id ∈ takers.*2) then copy_members r takers dir main ids moved
      else
        let? copied := copy_kinds (fun kind => copy_durable (ls_path dir (file_of kind id)) (ls_path main (file_of kind id))) KINDS false in
        copy_members r takers dir main ids (if copied && stays r id then moved ++ [id] else moved)
  end.

(** The files taken over under the taker's id. *)
Fixpoint copy_taken (dir main : string) (takers taken : list (string * string)) : Io (result FileError (list (string * string))) :=
  match takers with
  | [] => mret (Ok taken)
  | (person, from) :: takers =>
      let? copied :=
        copy_kinds (fun kind =>
                      let src := ls_path dir (file_of kind from) in
                      let? c := copy_durable src (ls_path main (file_of kind person)) in
                      if c : bool then mret (Ok true)
                      else let? _ := copy_durable src (ls_path main (file_of kind from)) in mret (Ok false)) KINDS false in
      copy_taken dir main takers (if copied : bool then taken ++ [(person, from)] else taken)
  end.

(** The copies' originals deleted; one that is gone is fine. *)
Fixpoint delete_files (paths : list string) : Io (result FileError unit) :=
  match paths with
  | [] => mret (Ok tt)
  | path :: paths =>
      r ← remove_file path;
      match r with
      | Ok _ => delete_files paths
      | Err e => if decide (fe_kind e = "entity not found") then delete_files paths else mret (Err e)
      end
  end.

Fixpoint remove_former (r : Roster) (ids removed : list string) : Io (result FileError (list string)) :=
  match ids with
  | [] => mret (Ok removed)
  | id :: ids =>
      if bool_decide (roster_person r id = None) then
        let? gone := remove_person id in remove_former r ids (if gone : bool then removed ++ [id] else removed)
      else remove_former r ids removed
  end.

Definition finish (r : Roster) : Io (result FileError (list string)) :=
  dir ← config_dir;
  fs ← gets w_files;
  let path := ls_path dir PENDING_FILE in
  match read_optional fs path with
  | Err e => mret (Err e)
  | Ok None => mret (Ok [])
  | Ok (Some text) =>
      match of_json (F := MigrationPending) text with
      | Err e => mret (Err (invalid (path +:+ ": " +:+ e)))
      | Ok pending =>
          if negb (bool_decide (mp_format pending = PENDING_FORMAT))
          then mret (Err (invalid (path +:+ ": format " +:+ debug_str (mp_format pending) +:+ " is not " +:+ debug_str PENDING_FORMAT)))
          else
            match foldM (fun _ id => map_err (fun e => invalid (path +:+ ": " +:+ e)) (validate_member_id id)) tt
                    (mp_delete pending ++ mp_remove pending) with
            | Err e => mret (Err e)
            | Ok _ =>
                let? _ := delete_files (mp_delete pending ≫= fun id => (fun kind => ls_path dir (file_of kind id)) <$> KINDS) in
                let? removed := remove_former r (mp_remove pending) [] in
                let? _ := remove_file path in
                mret (Ok removed)
            end
      end
  end.

Definition legacy_ids (cfg : Config) : list string :=
  filter (fun id => id <> ENGINEER_ID) (me_id <$> cf_members cfg) ++ [ENGINEER_ID].

Definition takers_of (r : Roster) : list (string * string) :=
  omap (fun p => (fun x => (pe_id p, x)) <$> pe_takes_over p) (ro_people r).

Definition pending_of (r : Roster) (cfg : Config) : MigrationPending :=
  let former := legacy_ids cfg ++ (takers_of r).*2 in
  mkMigrationPending PENDING_FORMAT former (filter (fun id => stays r id = false) former).

(** The staged line-ups, ready to be renamed into place. *)
Definition stage (r : Roster) (cfg : Config) (dir staging main_id : string) : Io (result FileError MigrationReport) :=
  let main := data_dir staging main_id in
  let? moved := copy_members r (takers_of r) dir main (legacy_ids cfg) [] in
  let? taken := copy_taken dir main (takers_of r) [] in
  let? _ := write_durable (ls_path staging PENDING_NAME) (to_json (pending_of r cfg)) in
  now ← gets w_now;
  let? _ := checked main_id (write_durable (ls_path staging ACTIVE_NAME) (to_json (mkActiveFile ACTIVE_FORMAT main_id now))) in
  mret (Ok (mkMigrationReport moved taken [])).

Definition migrate_with (fault : MigrationStep -> result FileError unit) (r : Roster) (cfg : Config) : Io (result FileError MigrationReport) :=
  dir ← config_dir;
  let live := ls_path dir LINEUPS_DIR in
  let? migrated := exists_file (ls_path live ACTIVE_NAME) in
  if migrated : bool then let? removed := finish r in mret (Ok (mkMigrationReport [] [] removed))
  else
    match migration_problems r with
    | (_ :: _) as problems => mret (Err (InvalidInput ("the roster cannot migrate the legacy band files: " +:+ join "; " problems)))
    | [] =>
        let? there := exists_dir live in
        if there : bool
        then mret (Err (invalid (live +:+ " exists without " +:+ ACTIVE_NAME +:+ ": no migration commits over it (move it aside)")))
        else
          let staging := ls_path dir STAGING_DIR in
          let? left := exists_dir staging in
          let? _ := (if left : bool then fs ← gets w_files; remove_all (tree staging fs) else mret (Ok tt)) in
          match roster_main r with
          | None => fun w => (w, None)
          | Some main =>
              let? report := stage r cfg dir staging (lu_id main) in
              match fault StepCommit with
              | Err e => mret (Err e)
              | Ok _ =>
                  let? _ := rename_dir staging live in
                  match fault StepFinish with
                  | Err e => mret (Err e)
                  | Ok _ =>
                      let? removed := finish r in
                      mret (Ok (mkMigrationReport (mr_moved report) (mr_taken_over report) removed))
                  end
              end
          end
    end.

Definition migrate_legacy : Roster -> Config -> Io (result FileError MigrationReport) := migrate_with (fun _ => Ok tt).

End migration.
