(* ===== verification/Watch.v ===== *)
(** * The roster in use ([iem-server/src/roster_watch.rs])

    Loading the roster at the start, applying a changed file to the running
    server, and putting it into the line-ups' states: [transition] and around it
    [reload], [settle], the watch of the file and the start.  What is only logged
    is left out. *)

From S2P Require Import Prelude F64 Text MixState Msg Shape Codec Mirror Client LoginGuard Roster Config UiMsg SiteView View BandStore Sessions Pages Lineups LineupStore Switch People Migrate.
From Stdlib Require Import Ascii.
From stdpp Require Import options.
Local Open Scope Z_scope.
#[local] Unset Default Proof Using.

Definition ROSTER_FILE : string := "roster.toml".
Definition STATUS_FILE : string := "roster.status.json".
Definition NOT_UTF8 : string := "roster file: not UTF-8 text".
Definition MAX_SETTLES : Z := 3.

(** ** UTF-8 ([str::from_utf8]) *)

Definition byte_in (lo hi : nat) (c : ascii) : bool := (lo <=? nat_of_ascii c)%nat && (nat_of_ascii c <=? hi)%nat.

Fixpoint utf8_fuel (fuel : nat) (s : string) : bool :=
  match fuel with
  | O => false
  | S fuel =>
      match s with
      | EmptyString => true
      | String a s =>
          if byte_in 0 127 a then utf8_fuel fuel s
          else
            match s with
            | EmptyString => false
            | String b s =>
                if byte_in 194 223 a then byte_in 128 191 b && utf8_fuel fuel s
                else
                  match s with
                  | EmptyString => false
                  | String c s =>
                      let second lo hi := byte_in lo hi b && byte_in 128 191 c in
                      if byte_in 224 224 a then second 160%nat 191%nat && utf8_fuel fuel s
                      else if byte_in 237 237 a then second 128%nat 159%nat && utf8_fuel fuel s
                      else if byte_in 225 239 a then second 128%nat 191%nat && utf8_fuel fuel s
                      else
                        match s with
                        | EmptyString => false
                        | String d s =>
                            let second lo hi := byte_in lo hi b && byte_in 128 191 c && byte_in 128 191 d in
                            if byte_in 240 240 a then second 144%nat 191%nat && utf8_fuel fuel s
                            else if byte_in 241 243 a then second 128%nat 191%nat && utf8_fuel fuel s
                            else if byte_in 244 244 a then second 128%nat 143%nat && utf8_fuel fuel s
                            else false
                        end
                  end
            end
      end
  end.

Definition from_utf8 (s : string) : bool := utf8_fuel (S (slen s)) s.

(** ** What became of a file *)

Record Status := mkStatus {
  st_sha256 : string;
  st_ok : bool;
  st_applied : bool;
  st_at : Z;
  st_problems : list string;
  st_added : list string;
  st_removed : list string;
}.

Definition Status_applied (sha256 : string) (at_ : Z) (added removed problems : list string) : Status :=
  mkStatus sha256 (bool_decide (problems = [])) true at_ problems added removed.
Definition Status_refused (sha256 : string) (at_ : Z) (problems : list string) : Status := mkStatus sha256 false false at_ problems [] [].

Inductive Applied :=
| ApUnchanged
| ApApplied (added removed problems : list string)
| ApRefused (why : list string)
| ApDeferred (why : list string).

Definition missing_active (active : string) : string :=
  "the roster has no lineup '" +:+ active +:+ "', which plays: switch to a lineup it keeps first".
Definition EVERYONE_REMOVED : string :=
  "the roster keeps none of the people of the roster in use: it would remove them all".
Definition NOT_FOUND : string := "roster file: not found".
Definition FALLBACK : string := "in use instead: the roster applied last".
Definition ABSENT_ALARM : Z := 60.
Definition ABSENT_TITLE : string := "Engine neodpovedá".
Definition ABSENT_BODY : string :=
  "Server poslal enginu zmenu zostavy a engine odvtedy neodpovedá: mixy sa nedajú meniť, kým sa engine neozve. Server naň čaká ďalej a zmenu potom dokončí alebo vráti.".
Definition NOT_SYNCED : string := "the engine state is not synced: the roster waits for it".
Definition NOT_RECORDED : string := "what the running state follows could not be written: the roster waits".
Definition UNFINISHED_SWITCH : string := "a band switch is not finished: the roster waits for it".

Definition absent_alarm_due (alarmed : bool) (waited after : Z) : bool := negb alarmed && (after <=? waited).

(** A file replaced through a synced temporary one; then its directory synced,
    which may fail with the file replaced. *)
Definition atomic_write (path data : string) : Io (result FileError unit) := let? _ := write_durable path data in look_at (fun _ => tt).

(** The next reading of how long an engine is waited for. *)
Definition next_waited : Io Z := fun w => (put_waited (tail (w_waited w)) w, Some (default 0 (head (w_waited w)))).

Section watch.
Context `{OsKind, Serde ActiveFile, Serde SwitchIntent, Serde Running, Serde BackupHead, Serde MixerBackup, Serde MixState,
  Serde CustomizationFile, Serde PinFile, Serde MigrationPending, Serde Status, Sha256}.

(** The reader of a roster's TOML. *)
Context (read : string -> result TomlError Roster).

Definition applied_base (w : World) : option Base :=
  match ls_applied_roster (store_dir w) (w_files w) with
  | Ok (Some text) => match roster_parse read text with Ok r => Some (mkBase r (sha256_hex text)) | Err _ => None end
  | _ => None
  end.

(** Failures that are only logged. *)
Definition keep (sha256 text : string) : Io unit := _ ← keep_roster sha256 text; mret tt.
Definition record_applied (text : string) : Io unit := _ ← set_applied_roster text; mret tt.

Definition write_status (s : Status) : Io (result FileError unit) :=
  dir ← config_dir; atomic_write (ls_path dir STATUS_FILE) (to_json s).
Definition note_status (s : Status) : Io unit := _ ← write_status s; mret tt.

(** The roster file's bytes. *)
Definition read_roster : Io (result string (option string)) :=
  dir ← config_dir;
  fs ← gets w_files;
  let path := ls_path dir ROSTER_FILE in
  mret (match fs !! path with
        | None => Ok None
        | Some (Readable bytes) => Ok (Some bytes)
        | Some (Unreadable e) => Err (path +:+ ": " +:+ e)
        end).

(** ** The start *)

(** The roster in use on the files' side. *)
Definition adopt (cfg : Config) (r : Roster) (sha256 : string) (remove : bool) : Io (result (list string) (RosterState * People)) :=
  let? report := or_else (fun e => [fe_text e]) (migrate_legacy r cfg) in
  w ← gets id;
  match ls_active (store_dir w) (w_files w), roster_main r with
  | Err e, _ => mret (Err [fe_text e])
  | Ok None, None => fun w => (w, None)
  | Ok active, main =>
      let active := match active, main with Some a, _ => a | None, Some m => lu_id m | None, None => "" end in
      match roster_lineup r active with
      | None => mret (Err [missing_active active])
      | Some _ =>
          people ← (if remove then follow_people r [] else mret People_default);
          mret (Ok (mkRosterState r sha256 active, mkPeople (mr_removed report ++ pp_removed people) (pp_problems people)))
      end
  end.

Record Loaded := mkLoaded { ld_roster : RosterState; ld_fallback : bool }.

Inductive Start := StartFile (base : option Roster) | StartFallback.

Definition take (cfg : Config) (bytes sha256 : string) (facts : option TopologyFacts) (start : Start)
    : Io (result (list string) (RosterState * People)) :=
  if negb (from_utf8 bytes) then mret (Err [NOT_UTF8])
  else
    match validate read bytes facts with
    | Err problems => mret (Err problems)
    | Ok r =>
        match start with
        | StartFile (Some base) =>
            if removes_everyone base r then mret (Err [EVERYONE_REMOVED]) else adopt cfg r sha256 true
        | StartFile None => adopt cfg r sha256 true
        | StartFallback => adopt cfg r sha256 false
        end
    end.

(** What is left to do when [roster.toml] cannot be used. *)
Definition load_recorded (cfg : Config) (facts : option TopologyFacts) (recorded : option string) (sha256 : string) (problems : list string)
    (there : bool) : Io (result string (option Loaded)) :=
  let refuse :=
    if there
    then now ← gets w_now;
         _ ← note_status (Status_refused sha256 now problems);
         mret (Err (ROSTER_FILE +:+ ": " +:+ join "; " problems))
    else mret (Ok None) in
  match recorded with
  | None => refuse
  | Some text =>
      let copy := sha256_hex text in
      taken ← take cfg text copy facts StartFallback;
      match taken with
      | Err _ => refuse
      | Ok (state, _) =>
          _ ← keep copy text;
          now ← gets w_now;
          _ ← note_status (Status_refused sha256 now (problems ++ [FALLBACK]));
          mret (Ok (Some (mkLoaded state true)))
      end
  end.

Definition load (cfg : Config) (facts : option TopologyFacts) : Io (result string (option Loaded)) :=
  let? file := read_roster in
  w ← gets id;
  let recorded := match ls_applied_roster (store_dir w) (w_files w) with Ok recorded => recorded | Err _ => None end in
  let base := t ← recorded; match roster_parse read t with Ok r => Some r | Err _ => None end in
  match file with
  | None => load_recorded cfg facts recorded "" [NOT_FOUND] false
  | Some bytes =>
      let sha256 := sha256_hex bytes in
      taken ← take cfg bytes sha256 facts (StartFile base);
      match taken with
      | Ok (state, people) =>
          _ ← keep sha256 bytes;
          now ← gets w_now;
          _ ← note_status (Status_applied sha256 now [] (pp_removed people) (pp_problems people));
          mret (Ok (Some (mkLoaded state false)))
      | Err problems => load_recorded cfg facts recorded sha256 problems true
      end
  end.

(** ** A roster in place of another *)

(** A line-up, its stored state, and what it becomes. *)
Definition Planned : Type := string * MixerBackup * MixerBackup.

(** Best effort. *)
Fixpoint undo (written : list Planned) : Io unit :=
  match written with
  | [] => mret tt
  | (id, original, _) :: written => _ ← save_state id original; undo written
  end.

Fixpoint write_rest (written planned : list Planned) : Io (result Applied unit) :=
  match planned with
  | [] => mret (Ok tt)
  | (id, original, next) :: planned =>
      r ← save_state id next;
      match r with
      | Ok _ => write_rest (written ++ [(id, original, next)]) planned
      | Err e =>
          _ ← undo written;
          mret (Err (ApRefused ["the stored state of lineup " +:+ id +:+ " was not written: " +:+ fe_kind e]))
      end
  end.
Definition write_planned (planned : list Planned) : Io (result Applied unit) := write_rest [] planned.

(** The roster a marker names, from the kept ones. *)
Definition learn (dir : string) (fs : gmap string FileText) (marker : option string) (f : Follows) : Follows :=
  match marker with
  | None => f
  | Some sha =>
      if existsb (fun b => bool_decide (ba_sha256 b = sha)) (fo_known f) then f
      else
        match ls_kept_roster dir sha fs with
        | Ok (Some text) =>
            match roster_parse read text with
            | Ok r => mkFollows (fo_known f ++ [mkBase r sha]) (fo_unmarked f)
            | Err _ => f
            end
        | _ => f
        end
  end.

(** The other line-ups' stored states, each marker's roster learned. *)
Fixpoint gather (dir : string) (fs : gmap string FileText) (lineups : list Lineup) (f : Follows)
    : result Applied (Follows * list (Lineup * MixerBackup)) :=
  match lineups with
  | [] => Ok (f, [])
  | l :: lineups =>
      match ls_state dir (lu_id l) fs with
      | Err e => Err (ApRefused ["the stored state of lineup " +:+ lu_id l +:+ " is unreadable: " +:+ fe_kind e])
      | Ok None => gather dir fs lineups f
      | Ok (Some b) =>
          match gather dir fs lineups (learn dir fs (mb_follows b) f) with
          | Err e => Err e
          | Ok (f, states) => Ok (f, (l, b) :: states)
          end
      end
  end.

(** A stored state made to follow [new]. *)
Definition goes_over (f : Follows) (new : Roster) (new_sha : string) (sets : gset string) (l : Lineup) (stored : MixerBackup) : MixerBackup :=
  let '(state, silenced) :=
    follow (base_of f (mb_follows stored) new_sha) new sets l None (mb_state stored, mb_silenced stored) in
  put_state state silenced (Some new_sha) stored.

Definition plan (f : Follows) (new : Roster) (new_sha : string) (sets : gset string) (states : list (Lineup * MixerBackup)) : list Planned :=
  omap (fun '(l, stored) =>
          let next := goes_over f new new_sha sets l stored in
          if MixerBackup_eqb next stored then None else Some (lu_id l, stored, next)) states.

(** Whether the engine took an import whose answer was lost: it is waited for.
    [fuel] counts the waits. *)
Fixpoint landed (fuel : nat) (sent : MixState) (alarmed : bool) : Io bool :=
  match fuel with
  | O => fun w => (w, None)
  | S fuel =>
      synced ← wait_synced;
      back ← (if synced : bool then r ← request_applied Ping; mret (is_ok r) else mret false);
      if back : bool then gets (fun w => MixState_eqb (mv_state (w_mirror w)) sent)
      else
        waited ← next_waited;
        if absent_alarm_due alarmed waited ABSENT_ALARM
        then _ ← tell (ToldAlarm ABSENT_TITLE ABSENT_BODY); landed fuel sent true
        else landed fuel sent alarmed
  end.

Definition landed_fuel (w : World) : nat := S (length (w_syncs w) + length (w_answers w)).

Record Transition := mkTransition { tn_moved : nat; tn_frozen : option bool }.

(** What a transition works out of the roster before anything is sent. *)
Record Course := mkCourse {
  co_new : Roster;
  co_sha : string;
  co_lineup : Lineup;
  co_topology : TopologyInfo;
  co_sets : gset string;
  co_from : option Roster;
  co_marker : option string;
  co_recorded : gset string;
  co_planned : list Planned;
}.

Definition shaped (c : Course) (s : MixState) : MixState := (reconcile (co_topology c) s).1.

Definition next_of (c : Course) (current : MixState) : MixState * Running :=
  let '(next, silenced) := follow (co_from c) (co_new c) (co_sets c) (co_lineup c) (Some (co_topology c)) (current, co_recorded c) in
  (next, mkRunning (lu_id (co_lineup c)) (Some (co_sha c)) silenced None).

Definition soloed_now (c : Course) (t : Transient) : list MixId :=
  if bool_decide (co_marker c = Some (co_sha c)) then []
  else match (f ← co_from c; roster_lineup f (lu_id (co_lineup c))) with
       | Some b => soloed_changing t b (co_lineup c)
       | None => every_solo t
       end.

Definition import_failed (active : string) (e : EngineError) : Applied :=
  let why := ["the engine did not take lineup " +:+ active +:+ "'s new mixes: " +:+ EngineError_text e] in
  match e with ErRefused _ => ApRefused why | ErDisconnected | ErTimeout => ApDeferred why end.

Definition prior (c : Course) (pending : option Pending) : Running :=
  mkRunning (lu_id (co_lineup c)) (co_marker c) (co_recorded c) pending.

(** The running state through one import, the pages frozen: what it follows
    then. *)
Definition import_next (c : Course) (next : MixState) (running : Running) : Io (result Applied Running) :=
  let pending := mkPending (co_sha c) (rn_silenced running) (state_digest next) in
  noted ← set_running (prior c (Some pending));
  match noted with
  | Err _ => mret (Err (ApDeferred [NOT_RECORDED]))
  | Ok _ =>
      answer ← request_applied (ImportState next);
      sent ← match answer with
             | Ok _ => mret (Ok running)
             | Err (ErRefused b) => mret (Err (import_failed (lu_id (co_lineup c)) (ErRefused b)))
             | Err e =>
                 fuel ← gets landed_fuel;
                 there ← landed fuel next false;
                 mret (if there : bool then Ok running else Err (import_failed (lu_id (co_lineup c)) e))
             end;
      _ ← (match sent with Err _ => note_running (prior c None) | Ok _ => mret tt end);
      mret sent
  end.

Definition thaw_unless (was : bool) : Io unit := if was then mret tt else thaw_pages_unchanged.

(** The states over to the new roster, the pages frozen. *)
Definition frozen_steps (c : Course) : Io (result Applied unit) :=
  w ← gets id;
  let m := w_mirror w in
  let '(next, running) := next_of c (mv_state m) in
  taken ← (if mv_synced m
           then if MixState_eqb next (shaped c (mv_state m)) then mret (Ok running) else import_next c next running
           else mret (Err (ApDeferred [NOT_SYNCED])));
  match taken with
  | Ok running => _ ← note_running running; _ ← end_solos (soloed_now c (mv_transient m)); mret (Ok tt)
  | Err not => mret (Err not)
  end.

Definition carry_out (c : Course) : Io (result Applied (option bool)) :=
  m ← gets w_mirror;
  let '(next, running) := next_of c (mv_state m) in
  if MixState_eqb next (shaped c (mv_state m)) && bool_decide (soloed_now c (mv_transient m) = [])
  then
    let? _ := write_planned (co_planned c) in
    _ ← note_running running;
    mret (Ok None)
  else
    let? was := or_else (import_failed (lu_id (co_lineup c))) freeze_pages in
    wrote ← write_planned (co_planned c);
    match wrote with
    | Err not => _ ← thaw_unless was; mret (Err not)
    | Ok _ =>
        taken ← frozen_steps c;
        match taken with
        | Ok _ => mret (Ok (Some was))
        | Err not => _ ← undo (co_planned c); _ ← thaw_unless was; mret (Err not)
        end
    end.

Definition transition (follows : Follows) (new : Roster) (new_sha active : string) : Io (result Applied Transition) :=
  w ← gets id;
  match roster_lineup new active with
  | None => mret (Err (ApRefused [missing_active active]))
  | Some lineup =>
      if sr_frozen (w_server w) then mret (Err (ApDeferred [UNFINISHED_SWITCH]))
      else
        match (if mv_synced (w_mirror w) then mv_topology (w_mirror w) else None) with
        | None => mret (Err (ApDeferred [NOT_SYNCED]))
        | Some topology =>
            let sets := follows_sets follows ∪ roster_sets new in
            '(marker, recorded) ← running_for active (state_digest (mv_state (w_mirror w)));
            w ← gets id;
            match gather (store_dir w) (w_files w) (filter (fun l => lu_id l <> active) (ro_lineups new))
                    (learn (store_dir w) (w_files w) marker follows) with
            | Err e => mret (Err e)
            | Ok (f, states) =>
                let from := base_of f marker new_sha in
                let c := mkCourse new new_sha lineup topology sets from marker recorded (plan f new new_sha sets states) in
                let? frozen := carry_out c in
                mret (Ok (mkTransition (match from with Some f => length (moves f new active) | None => O end) frozen))
            end
        end
  end.

(** ** Into use *)

Definition UNRECORDED_TITLE : string := "Zmena zostavy čaká".
Definition UNRECORDED_BODY : string :=
  "Server nevie zapísať súbor lineups/running.json, preto zmenu zostavy nepreniesol do mixov a skúša to znova. Skontroluj miesto na disku a práva k priečinku lineups.".
Definition UNSETTLED_TITLE : string := "Zostava neplatí v mixoch".
Definition UNSETTLED_BODY : string :=
  "Server nevedel preniesť zmenu zostavy do mixov: presunutí ľudia ešte nemajú svoje mixy na nových setoch a pravidlá zostavy (napr. stíšené prázdne sety) neplatia. Mixy sa dajú meniť; doplní sa to pri ďalšej zmene zostavy.".
Definition FALLBACK_TITLE : string := "Zostava zo zálohy".
Definition FALLBACK_BODY : string :=
  "Server sa spustil so zostavou použitou naposledy: roster.toml sa nedá použiť (dôvod je v roster.status.json).".

(** A pending record that could not be written. *)
Definition unrecorded (not : Applied) : bool :=
  match not with ApDeferred why => existsb (fun w => bool_decide (w = NOT_RECORDED)) why | _ => false end.
Definition waits (not : Applied) : bool := match not with ApDeferred _ => negb (unrecorded not) | _ => false end.

Definition set_unrecorded (n : Z) : Io unit := modify (fun w => put_roster_mode (w_unsettled w) (w_fallback w) n w).
Definition set_fallback (b : bool) : Io unit := modify (fun w => put_roster_mode (w_unsettled w) b (w_unrecorded w) w).

(** The third in a row is told, once. *)
Definition count_unrecorded (not : Applied) : Io unit :=
  if negb (unrecorded not) then mret tt
  else
    n ← gets w_unrecorded;
    _ ← set_unrecorded (n + 1);
    if n + 1 =? MAX_SETTLES then tell (ToldAlarm UNRECORDED_TITLE UNRECORDED_BODY) else mret tt.

(** The rosters the states may follow as [old] is replaced. *)
Definition follows_of (old : RosterState) (unsettled : option Unsettled) : Follows :=
  let old_base := mkBase (rs_roster old) (rs_sha256 old) in
  let base := u ← unsettled; us_base u in
  mkFollows (old_base :: option_list base) (match unsettled with Some _ => base | None => Some old_base end).

(** Whom the look through the people's data removed besides. *)
Definition and_removed (removed more : list string) : list string := foldl push_new removed more.

(** The new roster in use, and the pages free. *)
Definition into_use (new : Roster) (text sha256 active : string) (frozen : option bool) : Io unit :=
  _ ← set_roster (Some (mkRosterState new sha256 active));
  _ ← set_unsettled None;
  _ ← record_applied text;
  if bool_decide (frozen = Some false) then thaw_pages else announce.

Definition reload (old : RosterState) (new : Roster) (text sha256 : string) : Io Applied :=
  if removes_everyone (rs_roster old) new then mret (ApRefused [EVERYONE_REMOVED])
  else
    match rs_lineup old with
    | None => fun w => (w, None)
    | Some lineup =>
        let active := lu_id lineup in
        _ ← keep sha256 text;
        unsettled ← gets w_unsettled;
        done ← transition (follows_of old unsettled) new sha256 active;
        match done with
        | Err not => _ ← count_unrecorded not; mret not
        | Ok done =>
            _ ← set_unrecorded 0;
            let '(added, removed) := people_diff (rs_roster old) new in
            _ ← into_use new text sha256 active (tn_frozen done);
            people ← follow_people new removed;
            mret (ApApplied added (and_removed removed (pp_removed people)) (pp_problems people))
        end
    end.

(** The roster file in use as what the states follow; one that changed since is
    the watch's. *)
Definition record_in_use (sha256 : string) : Io unit :=
  file ← read_roster;
  match file with
  | Ok (Some bytes) =>
      if bool_decide (sha256_hex bytes = sha256) && from_utf8 bytes then record_applied bytes else mret tt
  | _ => mret tt
  end.

Definition settle : Io (result Applied unit) :=
  unsettled ← gets w_unsettled;
  match unsettled with
  | None => mret (Ok tt)
  | Some u =>
      r ← gets (fun w => sr_roster (w_server w));
      match r with
      | None => _ ← set_unsettled None; mret (Ok tt)
      | Some r =>
          match rs_lineup r with
          | None => fun w => (w, None)
          | Some lineup =>
              let follows := mkFollows (option_list (us_base u)) (us_base u) in
              let? done := transition follows (rs_roster r) (rs_sha256 r) (lu_id lineup) in
              _ ← set_unsettled None;
              _ ← record_in_use (rs_sha256 r);
              _ ← (if bool_decide (tn_frozen done = Some false) then thaw_pages else mret tt);
              mret (Ok tt)
          end
      end
  end.

Definition give_up_settling : Io unit :=
  unsettled ← gets w_unsettled;
  match unsettled with Some u => set_unsettled (Some (mkUnsettled (us_base u) false)) | None => mret tt end.

(** [fuel] counts the waits and the tries; [None]: out of it. *)
Fixpoint settle_when_synced (fuel : nat) (refusals : Z) : Io (option unit) :=
  match fuel with
  | O => mret None
  | S fuel =>
      settling ← gets (fun w => sr_settling (w_server w));
      if negb settling then mret (Some tt)
      else
        synced ← wait_synced;
        if negb synced then settle_when_synced fuel refusals
        else
          done ← settle;
          match done with
          | Ok _ => mret (Some tt)
          | Err not =>
              if waits not then settle_when_synced fuel refusals
              else if refusals + 1 =? MAX_SETTLES
              then _ ← give_up_settling; _ ← tell (ToldAlarm UNSETTLED_TITLE UNSETTLED_BODY); mret (Some tt)
              else settle_when_synced fuel (refusals + 1)
          end
  end.

(** ** The file *)

(** The first roster of a server without one. *)
Definition adopt_live (r : Roster) (text sha256 : string) : Io Applied :=
  cfg ← gets (fun w => sr_config (w_server w));
  adopted ← adopt cfg r sha256 true;
  match adopted with
  | Err problems => mret (ApRefused problems)
  | Ok (state, people) =>
      _ ← keep sha256 text;
      _ ← set_unsettled (Some (Unsettled_new None));
      _ ← set_roster (Some state);
      _ ← announce;
      _ ← tell ToldSettle;
      mret (ApApplied [] (pp_removed people) (pp_problems people))
  end.

(** What the running engine says of the site. *)
Definition topology_facts (w : World) : option TopologyFacts := facts_from <$> mv_topology (w_mirror w).

Definition apply_text (text sha256 : string) : Io Applied :=
  w ← gets id;
  let current := sr_roster (w_server w) in
  if match current with Some r => bool_decide (rs_sha256 r = sha256) | None => false end then mret ApUnchanged
  else
    match validate read text (topology_facts w) with
    | Err problems => mret (ApRefused problems)
    | Ok r => match current with None => adopt_live r text sha256 | Some old => reload old r text sha256 end
    end.

Definition fallback_alarm : Io unit :=
  fallback ← gets w_fallback;
  if fallback : bool then tell (ToldAlarm FALLBACK_TITLE FALLBACK_BODY) else mret tt.

(** The removals a fall-back start held back. *)
Definition held_back : Io People :=
  r ← gets (fun w => sr_roster (w_server w));
  match r with Some r => follow_people (rs_roster r) [] | None => mret People_default end.

Definition check_file : Io (option Applied) :=
  file ← read_roster;
  match file with
  | Ok None | Err _ => mret None
  | Ok (Some bytes) =>
      let sha256 := sha256_hex bytes in
      applied ← (if from_utf8 bytes then apply_text bytes sha256 else mret (ApRefused [NOT_UTF8]));
      fallback ← gets w_fallback;
      now ← gets w_now;
      _ ← match applied with
          | ApUnchanged =>
              if fallback : bool
              then _ ← set_fallback false; people ← held_back; note_status (Status_applied sha256 now [] (pp_removed people) (pp_problems people))
              else mret tt
          | ApApplied added removed problems => _ ← set_fallback false; note_status (Status_applied sha256 now added removed problems)
          | ApRefused problems => note_status (Status_refused sha256 now (if fallback : bool then problems ++ [FALLBACK] else problems))
          | ApDeferred _ => mret tt
          end;
      mret (Some applied)
  end.

(** The file's length and time of modification. *)
Definition Stamp : Type := option (Z * option Z).

(** One look at the file, whose stamp is [now]: what the next compares with. *)
Definition poll (now seen : Stamp) : Io Stamp :=
  if decide (now = seen) then mret seen
  else
    done ← check_file;
    mret (match done with Some (ApDeferred _) => None | _ => now end).

End watch.
