(* ===== verification/WatchSpec.v ===== *)
(** * Nobody moves twice

    What a transition of the states to another roster leaves behind, whatever
    fails and wherever the process ends: every line-up's state is as it was or has
    gone over, once; and what tries again only finishes the rest. *)

From S2P Require Import Prelude F64 Text MixState Msg Shape Codec Mirror Client LoginGuard Roster RosterSpec Config UiMsg SiteView View BandStore Sessions Pages Lineups LineupSpec LineupStore Switch SwitchSpec People Migrate Watch.
From Stdlib Require Import Ascii.
From stdpp Require Import options.
Local Open Scope Z_scope.
#[local] Unset Default Proof Using.

(** ** [==] on states *)

Lemma f64_eqb_sym x y : f64_eqb x y = true -> f64_eqb y x = true.
Proof. intros He. destruct (f64_eqb_spec _ _ He) as [->|(s & s' & -> & ->)]; [done|by destruct s, s']. Qed.

Lemma f64_in_eqb r v : range_ok r = true -> f64_in r v = true -> f64_eqb v v = true.
Proof. intros Hr Hv. by eapply f64_eqb_refl, f64_in_nan. Qed.

Section map_eqb.
Context {V : Type} (eqb : V -> V -> bool).

Lemma map_eqb_spec (m1 m2 : gmap string V) :
  map_eqb eqb m1 m2 = true
  <-> forall k, match m1 !! k, m2 !! k with Some a, Some b => eqb a b = true | None, None => True | _, _ => False end.
Proof.
  unfold map_eqb. rewrite andb_true_iff, Nat.eqb_eq, forallb_forall. split.
  - intros [Hs Hf] k.
    assert (Hsub : dom m1 ⊆ dom m2).
    { intros i [a Ha]%elem_of_dom. specialize (Hf (i, a)). cbn in Hf. apply elem_of_dom. destruct (m2 !! i); [by eexists|].
      exfalso. by apply diff_false_true, Hf, list_elem_of_In, elem_of_map_to_list. }
    assert (Hd : dom m1 = dom m2).
    { apply set_subseteq_size_eq; [done|]. by rewrite !size_dom, Hs. }
    destruct (m1 !! k) as [a|] eqn:Ha.
    + specialize (Hf (k, a)). cbn in Hf. destruct (m2 !! k); [apply Hf|exfalso; apply diff_false_true, Hf]; by apply list_elem_of_In, elem_of_map_to_list.
    + destruct (m2 !! k) as [b|] eqn:Hb; [|done]. assert (Hk : k ∈ dom m1) by (rewrite Hd; by apply elem_of_dom).
      apply elem_of_dom in Hk as [? ?]. congruence.
  - intros Hk. split.
    + rewrite <-!size_dom. f_equal. apply set_eq. intros k. rewrite !elem_of_dom. specialize (Hk k).
      destruct (m1 !! k), (m2 !! k); try done; by split; intros [].
    + intros [k a] Hin. apply list_elem_of_In, elem_of_map_to_list in Hin. specialize (Hk k). cbn. rewrite Hin in Hk. by destruct (m2 !! k).
Qed.

Lemma map_eqb_sym m1 m2 :
  (forall a b, eqb a b = true -> eqb b a = true) -> map_eqb eqb m1 m2 = true -> map_eqb eqb m2 m1 = true.
Proof.
  rewrite !map_eqb_spec. intros He Hk k. specialize (Hk k). destruct (m1 !! k), (m2 !! k); auto.
Qed.

Lemma map_eqb_refl m : (forall k a, m !! k = Some a -> eqb a a = true) -> map_eqb eqb m m = true.
Proof. rewrite map_eqb_spec. intros He k. destruct (m !! k) eqn:Hk; [by eapply He|done]. Qed.

End map_eqb.

Ltac eqb_sym := repeat match goal with
  | H : context [bool_decide (?a = ?b)] |- _ => rewrite (bool_decide_ext (a = b) (b = a)) in H by (split; congruence)
  end.

Lemma EqBand_eqb_sym a b : EqBand_eqb a b = true -> EqBand_eqb b a = true.
Proof.
  unfold EqBand_eqb. rewrite !andb_true_iff, !bool_decide_eq_true. intros [[[[? ?] ?] ?] ?]. split_and!; auto using f64_eqb_sym.
Qed.

Lemma bands_eqb_sym a b : bands_eqb a b = true -> bands_eqb b a = true.
Proof.
  unfold bands_eqb. rewrite !andb_true_iff, !Nat.eqb_eq. revert b. induction a as [|x a IH]; intros [|y b]; cbn; try (by intros []).
  rewrite !andb_true_iff. intros [[= Hl] [Hx Hr]]. destruct (IH b) as [Hl' Hr']; [done|]. split_and!; [congruence|by apply EqBand_eqb_sym|done].
Qed.

Lemma Eq_eqb_sym a b : Eq_eqb a b = true -> Eq_eqb b a = true.
Proof. unfold Eq_eqb. rewrite !andb_true_iff. intros []. auto using f64_eqb_sym, bands_eqb_sym. Qed.

Lemma Limiter_eqb_sym a b : Limiter_eqb a b = true -> Limiter_eqb b a = true.
Proof. unfold Limiter_eqb. rewrite !andb_true_iff, !bool_decide_eq_true. intros []. auto using f64_eqb_sym. Qed.

Lemma InputState_eqb_sym a b : InputState_eqb a b = true -> InputState_eqb b a = true.
Proof. unfold InputState_eqb. rewrite !andb_true_iff, !bool_decide_eq_true. intros [[[? ?] ?] ?]. split_and!; auto using f64_eqb_sym, Eq_eqb_sym. Qed.

Lemma Level_eqb_sym a b : Level_eqb a b = true -> Level_eqb b a = true.
Proof. unfold Level_eqb. rewrite !andb_true_iff, !bool_decide_eq_true. intros [[? ?] ?]. split_and!; auto using f64_eqb_sym. Qed.

Lemma MixGroup_eqb_sym a b : MixGroup_eqb a b = true -> MixGroup_eqb b a = true.
Proof. unfold MixGroup_eqb. rewrite !andb_true_iff, !bool_decide_eq_true. intros [[? ?] ?]. split_and!; auto using f64_eqb_sym, Eq_eqb_sym. Qed.

Lemma MixOut_eqb_sym a b : MixOut_eqb a b = true -> MixOut_eqb b a = true.
Proof.
  unfold MixOut_eqb. rewrite !andb_true_iff, !bool_decide_eq_true. intros [[[? ?] ?] ?]. split_and!; auto using f64_eqb_sym, Eq_eqb_sym, Limiter_eqb_sym.
Qed.

Lemma Mix_eqb_sym a b : Mix_eqb a b = true -> Mix_eqb b a = true.
Proof.
  unfold Mix_eqb. rewrite !andb_true_iff. intros [[[? ?] ?] ?].
  split_and!; auto using MixOut_eqb_sym, map_eqb_sym, Level_eqb_sym, MixGroup_eqb_sym.
Qed.

Lemma MixState_eqb_sym a b : MixState_eqb a b = true -> MixState_eqb b a = true.
Proof. unfold MixState_eqb. rewrite !andb_true_iff. intros []. auto using map_eqb_sym, InputState_eqb_sym, Mix_eqb_sym. Qed.

(** Values in range equal themselves. *)
Lemma bands_eqb_refl l : forallb band_ok l = true -> bands_eqb l l = true.
Proof.
  unfold bands_eqb. rewrite Nat.eqb_refl. cbn. induction l as [|b l IH]; [done|]. cbn. rewrite !andb_true_iff. intros [Hb Hl]. split; [|auto].
  unfold band_ok in Hb. bool_inv. unfold EqBand_eqb. rewrite !bool_decide_true by done. cbn.
  by rewrite (f64_in_eqb EQ_FREQ), (f64_in_eqb EQ_GAIN_DB), (f64_in_eqb EQ_BW).
Qed.

Lemma Eq_eqb_refl e : eq_ok e = true -> Eq_eqb e e = true.
Proof. unfold eq_ok, Eq_eqb. intros He. bool_inv. by rewrite (f64_in_eqb EQ_GAIN_DB), bands_eqb_refl. Qed.

Lemma Level_eqb_refl l : level_ok l = true -> Level_eqb l l = true.
Proof.
  unfold level_ok, Level_eqb. intros He. bool_inv. rewrite (f64_in_eqb FADER_DB), (f64_in_eqb PAN) by done. by rewrite bool_decide_true.
Qed.

Lemma InputState_eqb_refl i : input_ok i = true -> InputState_eqb i i = true.
Proof.
  unfold input_ok, InputState_eqb. intros He. bool_inv. rewrite (f64_in_eqb TRIM_DB), Eq_eqb_refl by done. by rewrite !bool_decide_true.
Qed.

Lemma MixGroup_eqb_refl g : group_ok g = true -> MixGroup_eqb g g = true.
Proof.
  unfold group_ok, MixGroup_eqb. intros He. bool_inv. rewrite (f64_in_eqb FADER_DB), Eq_eqb_refl by done. by rewrite bool_decide_true.
Qed.

Lemma MixOut_eqb_refl o : out_ok o = true -> MixOut_eqb o o = true.
Proof.
  unfold out_ok, MixOut_eqb, Limiter_eqb. intros He. bool_inv.
  rewrite (f64_in_eqb FADER_DB), Eq_eqb_refl, (f64_in_eqb LIMIT_DB) by done. by rewrite !bool_decide_true.
Qed.

Lemma fits_eqb_refl t s : fits t s -> MixState_eqb s s = true.
Proof.
  intros (Hi & Hio & Hm & Hf). unfold MixState_eqb. apply andb_true_iff. split.
  - apply map_eqb_refl. intros k i Hk. apply InputState_eqb_refl. by apply (Hio k).
  - apply map_eqb_refl. intros k x Hk. assert (Hn : k ∈ mi_id <$> ti_mixes t) by (apply Hm; by eexists).
    apply list_elem_of_fmap in Hn as (node & -> & Hn). destruct (Hf node x Hn Hk) as (Ho & _ & _ & _ & Hl & Hl2 & Hg).
    unfold Mix_eqb. rewrite MixOut_eqb_refl by done. cbn. rewrite !andb_true_iff. split_and!; apply map_eqb_refl; intros i a Ha.
    + apply Level_eqb_refl. by apply (Hl i).
    + apply MixGroup_eqb_refl. by apply (Hg i).
    + apply Level_eqb_refl. by apply (Hl2 i).
Qed.

(** ** A state that has gone over *)

(** What the rules look at. *)
Lemma fit_mix_eqb lineup set b x y : Mix_eqb x y = true -> fit_mix lineup set b x = (x, b) -> fit_mix lineup set b y = (y, b).
Proof.
  unfold Mix_eqb. rewrite !andb_true_iff. intros [[[Ho _] _] Hl]. unfold MixOut_eqb in Ho. rewrite !andb_true_iff, bool_decide_eq_true in Ho.
  destruct Ho as [[[_ Hmu] _] _]. unfold fit_mix. destruct (person_on lineup set) as [p|].
  2:{ rewrite <-Hmu. destruct (o_muted (m_out x)) eqn:Hx; [done|]. intros [= Heq <-]. exfalso. rewrite <-Heq in Hx. done. }
  destruct b; [by destruct (leads lineup p)|]. destruct (leads lineup p); [done|]. intros [= Heq]. f_equal. destruct y as [o i g m]. unfold mute_heard.
  cbn. f_equal. apply map_eq. intros k. rewrite lookup_fmap. cbn in Hl. rewrite map_eqb_spec in Hl. specialize (Hl k).
  destruct (m !! k) as [l|]; [|done]. cbn. destruct (m_mixes x !! k) as [l'|] eqn:Hx; [|done].
  rewrite <-Heq in Hx. cbn in Hx. rewrite lookup_fmap in Hx. destruct (m_mixes x !! k); [|done]. injection Hx as <-.
  unfold Level_eqb in Hl. rewrite !andb_true_iff, bool_decide_eq_true in Hl. destruct Hl as [_ Hl]. cbn in Hl. destruct l. cbn in Hl. by subst.
Qed.

Lemma fit_already_eqb sets lineup n s sil :
  MixState_eqb n s = true -> fit_already sets lineup (n, sil) -> fit_already sets lineup (s, sil).
Proof.
  unfold MixState_eqb. rewrite andb_true_iff, !map_eqb_spec. intros [_ Hm] Hf set y Hin Hy. cbn in *. specialize (Hm set).
  rewrite Hy in Hm. destruct (s_mixes n !! set) as [x|] eqn:Hx; [|done]. eapply fit_mix_eqb; [exact Hm|]. by apply (Hf set x).
Qed.

(** The rules keep the shape. *)
Lemma set_muted_fits t node b x : mix_fits t node x -> mix_fits t node (set_muted b x).
Proof. by destruct x. Qed.
Lemma mute_heard_fits t node x : mix_fits t node x -> mix_fits t node (mute_heard x).
Proof.
  intros (Ho & Hi & Hm & Hg & Hil & Hml & Hgl). unfold mix_fits, mute_heard. cbn. split_and!; try done.
  - intros id. by rewrite lookup_fmap, fmap_is_Some.
  - intros k l Hl. apply lookup_fmap_Some in Hl as (l' & <- & Hl). exact (Hml k l' Hl).
Qed.
Lemma fit_mix_fits t node lineup set b x : mix_fits t node x -> mix_fits t node (fit_mix lineup set b x).1.
Proof.
  intros Hx. unfold fit_mix. destruct (person_on lineup set) as [p|]; [|destruct (o_muted _); [done|by apply set_muted_fits]].
  cbn. destruct (leads lineup p), b; auto using set_muted_fits, mute_heard_fits.
Qed.

Lemma fit_sets_fits t sets lineup acc : fits t acc.1 -> fits t (fit_sets sets lineup acc).1.
Proof.
  intros (Hi & Hio & Hm & Hf). unfold fits. rewrite fit_sets_inputs. split_and!; try done.
  - intros id. rewrite <-Hm. destruct (decide (id ∈ sets)) as [Hin|].
    + destruct (s_mixes acc.1 !! id) as [x|] eqn:Hx.
      * destruct (fit_sets_own sets lineup acc id x Hin Hx) as [-> _]. split; intros _; by eexists.
      * destruct (fit_sets_elsewhere sets lineup acc id (or_intror Hx)) as [-> _]. by rewrite Hx.
    + by destruct (fit_sets_elsewhere sets lineup acc id ltac:(by left)) as [-> _].
  - intros node y Hn Hy. destruct (decide (mi_id node ∈ sets)) as [Hin|].
    + destruct (s_mixes acc.1 !! mi_id node) as [x|] eqn:Hx.
      * destruct (fit_sets_own sets lineup acc _ x Hin Hx) as [Hx' _]. rewrite Hx' in Hy. injection Hy as <-. by apply fit_mix_fits, Hf.
      * destruct (fit_sets_elsewhere sets lineup acc _ (or_intror Hx)) as [Hn' _]. congruence.
    + destruct (fit_sets_elsewhere sets lineup acc (mi_id node) ltac:(by left)) as [Hn' _]. rewrite Hn' in Hy. by apply Hf.
Qed.

Lemma follow_fits from new sets lineup t s sil : mixes_distinct t -> fits t (follow from new sets lineup (Some t) (s, sil)).1.
Proof. intros Hd. unfold follow. apply fit_sets_fits. cbn. by apply reconcile_fits. Qed.

Lemma follow_fit from new sets lineup topology acc : fit_already sets lineup (follow from new sets lineup topology acc).
Proof. destruct acc. apply fit_sets_fit. Qed.

Lemma apply_no_moves s : apply_moves [] s = s.
Proof. by destruct s. Qed.

(** Following nobody, where the rules hold already. *)
Lemma follow_settled new sets lineup topology s sil :
  match topology with Some t => mixes_distinct t /\ fits t s | None => True end -> fit_already sets lineup (s, sil) ->
  follow None new sets lineup topology (s, sil) = (s, sil).
Proof.
  intros Ht Hf. unfold follow. rewrite apply_no_moves. cbn [move_silenced foldl].
  assert (match topology with Some t => (reconcile t s).1 | None => s end = s) as ->.
  { destruct topology as [t|]; [|done]. destruct Ht. by rewrite reconcile_fixed. }
  by apply fit_sets_already.
Qed.

(** ** The roster a state follows *)

Section markers.
Context `{OsKind, Serde ActiveFile, Serde SwitchIntent, Serde Running, Serde BackupHead, Serde MixerBackup, Serde MixState,
  Serde CustomizationFile, Serde PinFile, Serde MigrationPending, Serde Status, Sha256}.
Context (read : string -> result TomlError Roster).

(** The roster a marker names: known, or kept and readable. *)
Definition kept_base (dir : string) (fs : gmap string FileText) (sha : string) : option Base :=
  match ls_kept_roster dir sha fs with
  | Ok (Some text) => match roster_parse read text with Ok r => Some (mkBase r sha) | Err _ => None end
  | _ => None
  end.
Definition known_of (f : Follows) (dir : string) (fs : gmap string FileText) (sha : string) : option Base :=
  match known_base f sha with Some b => Some b | None => kept_base dir fs sha end.

(** The roster a state marked [marker] comes from on its way to [new_sha]. *)
Definition move_base (f : Follows) (dir : string) (fs : gmap string FileText) (marker : option string) (new_sha : string) : option Roster :=
  match marker with
  | Some sha => if decide (sha = new_sha) then None else ba_roster <$> known_of f dir fs sha
  | None => ba_roster <$> fo_unmarked f
  end.

Context (f0 : Follows) (dir : string) (fs : gmap string FileText).

(** Learned from [f0] and the kept rosters. *)
Definition learned (f : Follows) : Prop :=
  fo_unmarked f = fo_unmarked f0
  /\ forall sha, match known_base f sha with Some b => known_of f0 dir fs sha = Some b | None => known_base f0 sha = None end.

Lemma learned_self : learned f0.
Proof. split; [done|]. intros sha. unfold known_of. by destruct (known_base f0 sha). Qed.

Lemma find_Some_app {A : Type} (p : A -> bool) (l l' : list A) :
  find p (l ++ l') = match find p l with Some x => Some x | None => find p l' end.
Proof.
  unfold find. induction l as [|a l IH]; [by destruct (snd <$> _)|]. cbn. destruct (p a) eqn:Hp.
  - by rewrite !decide_True by done.
  - rewrite !decide_False by by rewrite ?Is_true_false. rewrite <-!(option_fmap_compose _ snd). by destruct (list_find _ (l ++ l')) as [[]|], (list_find _ l) as [[]|], (list_find _ l') as [[]|].
Qed.

Lemma existsb_known (f : Follows) sha :
  existsb (fun b => bool_decide (ba_sha256 b = sha)) (fo_known f) = bool_decide (is_Some (known_base f sha)).
Proof.
  unfold known_base, find. induction (fo_known f) as [|b l IH]; [done|]. cbn. destruct (bool_decide_reflect (ba_sha256 b = sha)) as [Hb|Hb]; cbn.
  - rewrite decide_True by done. by rewrite bool_decide_true by by eexists.
  - rewrite decide_False by (by intros []). rewrite IH. apply bool_decide_ext. by rewrite !fmap_is_Some.
Qed.

(** [f] knows what [f0] and the kept rosters do of [sha]. *)
Definition knows (f : Follows) (sha : string) : Prop := known_base f sha = known_of f0 dir fs sha.

Lemma learn_cases marker f :
  learn read dir fs marker f = f /\ (forall sha, marker = Some sha -> known_base f sha = None -> kept_base dir fs sha = None)
  \/ exists sha b, marker = Some sha /\ known_base f sha = None /\ kept_base dir fs sha = Some b
     /\ learn read dir fs marker f = mkFollows (fo_known f ++ [b]) (fo_unmarked f) /\ ba_sha256 b = sha.
Proof.
  destruct marker as [sha|]; [|by left]. cbn. rewrite existsb_known. case_bool_decide as Hk.
  { left. split; [done|]. intros ? [= <-] Hn. rewrite Hn in Hk. by destruct Hk. }
  apply eq_None_not_Some in Hk.
  destruct (kept_base dir fs sha) as [b|] eqn:Hb.
  - right. exists sha, b. revert Hb. unfold kept_base. destruct (ls_kept_roster dir sha fs) as [[text|]|]; [|done..].
    destruct (roster_parse read text); [|done]. by intros [= <-].
  - left. split; [|by intros ? [= <-]]. revert Hb. unfold kept_base. destruct (ls_kept_roster dir sha fs) as [[text|]|]; [|done..].
    by destruct (roster_parse read text).
Qed.

Lemma known_base_snoc f b unmarked sha :
  known_base (mkFollows (fo_known f ++ [b]) unmarked) sha
  = match known_base f sha with Some x => Some x | None => if bool_decide (ba_sha256 b = sha) then Some b else None end.
Proof.
  unfold known_base. cbn [fo_known]. rewrite find_Some_app. destruct (find _ (fo_known f)); [done|]. unfold find. cbn.
  case_bool_decide; [by rewrite decide_True|rewrite decide_False by (by intros []); done].
Qed.

Lemma learned_learn marker f : learned f -> learned (learn read dir fs marker f).
Proof.
  intros [Hu Hk]. destruct (learn_cases marker f) as [[-> _]|(sha & b & -> & Hn & Hb & -> & Hsha)]; [done|]. split; [done|].
  intros sha'. rewrite known_base_snoc. specialize (Hk sha'). destruct (known_base f sha'); [done|].
  case_bool_decide as Heq; [|done]. rewrite Hsha in Heq. subst sha'. unfold known_of. by rewrite Hk.
Qed.

Lemma knows_learn marker f sha : learned f -> knows f sha -> knows (learn read dir fs marker f) sha.
Proof.
  intros Hl Hk. pose proof (learned_learn marker f Hl) as [_ Hl']. unfold knows in *. specialize (Hl' sha).
  destruct (known_base (learn read dir fs marker f) sha) as [b|] eqn:Hb; [done|].
  destruct (learn_cases marker f) as [[He _]|(sha' & b & _ & Hn & _ & He & _)]; [congruence|]. rewrite He, known_base_snoc in Hb.
  by destruct (known_base f sha); simplify_eq.
Qed.

Lemma learn_knows f sha : learned f -> knows (learn read dir fs (Some sha) f) sha.
Proof.
  intros Hl. pose proof (learned_learn (Some sha) f Hl) as [_ Hl']. specialize (Hl' sha). unfold knows.
  destruct (known_base (learn read dir fs (Some sha) f) sha) as [b|] eqn:Hb; [done|]. unfold known_of. rewrite Hl'.
  destruct (learn_cases (Some sha) f) as [[He Hk]|(sha' & b & [= <-] & Hn & _ & He & Hs)].
  - rewrite He in Hb. by rewrite (Hk sha).
  - rewrite He, known_base_snoc, Hn, bool_decide_true in Hb by done. done.
Qed.

Lemma base_of_learned f marker sha :
  learned f -> (forall m, marker = Some m -> knows f m) -> base_of f marker sha = move_base f0 dir fs marker sha.
Proof.
  intros [Hu _] Hk. destruct marker as [m|]; cbn; [|by rewrite Hu]. case_decide; [done|]. by rewrite (Hk m).
Qed.

(** What is gathered: the stored states there are. *)
Lemma gather_spec ls f f' states :
  gather read dir fs ls f = Ok (f', states) -> learned f -> NoDup (lu_id <$> ls) ->
  learned f' /\ (forall sha, knows f sha -> knows f' sha)
  /\ (forall l, l ∈ ls -> exists stored, ls_state dir (lu_id l) fs = Ok stored)
  /\ (forall l b, (l, b) ∈ states <-> l ∈ ls /\ ls_state dir (lu_id l) fs = Ok (Some b))
  /\ NoDup (lu_id <$> states.*1)
  /\ forall l b sha, (l, b) ∈ states -> mb_follows b = Some sha -> knows f' sha.
Proof.
  revert f f' states. induction ls as [|l ls IH]; intros f f' states; cbn [gather].
  { intros [= <- <-] Hl _. split_and!; try done; intros *; rewrite ?elem_of_nil; try tauto. constructor. }
  intros Hg Hl. cbn [fmap list_fmap]. intros [Hnin Hnd]%NoDup_cons. destruct (ls_state dir (lu_id l) fs) as [[b|]|e] eqn:Hls; [| |done].
  - destruct (gather read dir fs ls (learn read dir fs (mb_follows b) f)) as [[f2 states2]|] eqn:Hg2; [|done]. injection Hg as <- <-.
    destruct (IH _ _ _ Hg2 (learned_learn _ _ Hl) Hnd) as (Hl2 & Hk2 & Hex & Hin & Hnd2 & Hm). split_and!.
    + done.
    + intros sha Hs. by apply Hk2, knows_learn.
    + intros l' [->|Hl']%elem_of_cons; [by eexists|by apply Hex].
    + intros l' b'. rewrite !elem_of_cons, Hin. split.
      * intros [[= -> ->]|[]]; auto.
      * intros [[->|] Hb]; [left; congruence|by right].
    + cbn. apply NoDup_cons. split; [|done]. intros (l' & Heq & (p & -> & Hp)%list_elem_of_fmap)%list_elem_of_fmap. destruct p as [l' b']. cbn in Heq.
      apply Hin in Hp as [Hp _]. apply Hnin. rewrite Heq. by apply list_elem_of_fmap_2.
    + intros l' b' sha [[= -> ->]|Hp]%elem_of_cons Hf; [|by eapply Hm]. apply Hk2. rewrite Hf. by apply learn_knows.
  - destruct (IH _ _ _ Hg Hl Hnd) as (Hl2 & Hk2 & Hex & Hin & Hnd2 & Hm). split_and!; try done.
    + intros l' [->|Hl']%elem_of_cons; [by eexists|by apply Hex].
    + intros l' b'. rewrite elem_of_cons, Hin. split; [tauto|]. intros [[->|] Hb]; [congruence|done].
Qed.

End markers.

(** ** The stored states *)

(** What reads as a backup reads as its header. *)
Class BackupTexts `{Serde BackupHead, Serde MixerBackup} : Prop :=
  bt_head : forall (text : string) (b : MixerBackup), of_json text = Ok b -> of_json text = Ok (mkBackupHead (mb_format b) (mb_version b)).

(** A backup whose text is read back: serde_json writes no number that is not
    finite, so this is asked of the backups that are written. *)
Definition text_back `{Serde MixerBackup} (b : MixerBackup) : Prop := of_json (to_json b) = Ok b.

Section stored.
Context `{OsKind, Serde ActiveFile, Serde SwitchIntent, Serde Running, Serde BackupHead, Serde MixerBackup, Serde MixState,
  Serde CustomizationFile, Serde PinFile, Serde MigrationPending, Serde Status, Sha256}.
Context `{!BackupTexts}.

Definition well_headed (b : MixerBackup) : Prop := mb_format b = BACKUP_FORMAT /\ mb_version b = BACKUP_VERSION.

Lemma parsed_headed text b : MixerBackup_parse text = Ok b -> well_headed b.
Proof.
  unfold MixerBackup_parse. destruct (of_json (F := BackupHead) text) as [head|] eqn:Hh; [|done].
  destruct (bool_decide_reflect (hd_format head = BACKUP_FORMAT)) as [Hf|]; cbn; [|done].
  destruct (hd_version head =? BACKUP_VERSION) eqn:Hv; cbn; [|done]. destruct (of_json (F := MixerBackup) text) as [b'|] eqn:Hb; [|done].
  intros [= <-]. apply bt_head in Hb. rewrite Hh in Hb. injection Hb as ->. cbn in *. split; [done|by apply Z.eqb_eq].
Qed.

Lemma stored_headed dir id fs b : ls_state dir id fs = Ok (Some b) -> well_headed b /\ valid_lineup_id id = true.
Proof.
  unfold ls_state, check_lineup_id. destruct (valid_lineup_id id); [|done]. cbn. unfold read_as, read_optional.
  destruct (fs !! _) as [[text|e]|]; cbn; [|done..]. destruct (MixerBackup_parse text) as [b'|] eqn:Hp; cbn; [|done].
  intros [= <-]. split; [by eapply parsed_headed|done].
Qed.

Lemma state_written dir id b fs : valid_lineup_id id = true -> well_headed b -> text_back b -> ls_state dir id (write_state dir id b fs) = Ok (Some b).
Proof.
  intros Hv [Hf Hver] Hback. unfold ls_state. rewrite check_ok by done. cbn. unfold read_as, read_optional, write_state. unfold state_path. rewrite lookup_insert_eq. cbn.
  unfold MixerBackup_parse. rewrite (bt_head _ _ Hback), Hback. cbn. rewrite Hf, Hver. by rewrite bool_decide_true.
Qed.

Context (P : list Planned) (dir : string) (fs0 : gmap string FileText).

Definition ids_of : list string := P.*1.*1.

(** What a transition writes: each planned state as it was or as planned. *)
Definition files_ok (fs : gmap string FileText) : Prop :=
  (forall path, (forall id, id ∈ ids_of -> path <> state_path dir id) -> fs !! path = fs0 !! path)
  /\ forall id b n, (id, b, n) ∈ P -> ls_state dir id fs = Ok (Some b) \/ ls_state dir id fs = Ok (Some n).

Definition planned_ok : Prop :=
  NoDup ids_of /\ forall id b n, (id, b, n) ∈ P -> ls_state dir id fs0 = Ok (Some b) /\ well_headed n /\ text_back b /\ text_back n.

Context (Hplan : planned_ok).

Lemma files_ok_self : files_ok fs0.
Proof. split; [done|]. intros id b n Hp. left. by apply (proj2 Hplan id b n). Qed.

Lemma planned_unique id b n b' n' : (id, b, n) ∈ P -> (id, b', n') ∈ P -> b = b' /\ n = n'.
Proof.
  destruct Hplan as [Hnd _]. unfold ids_of in Hnd. clear Hplan. induction P as [|[[id1 b1] n1] l IH]; [by intros ?%elem_of_nil|].
  cbn in Hnd. apply NoDup_cons in Hnd as [Hnin Hnd]. intros Hp Hp'.
  assert (Hin : forall b n, (id, b, n) ∈ l -> id ∈ l.*1.*1).
  { intros b2 n2 Hl. apply list_elem_of_fmap. exists (id, b2). split; [done|]. apply list_elem_of_fmap. by exists (id, b2, n2). }
  apply elem_of_cons in Hp as [Hp|Hp], Hp' as [Hp'|Hp']; [by simplify_eq| | |by apply IH].
  - injection Hp as -> -> ->. destruct Hnin. by eapply Hin.
  - injection Hp' as -> -> ->. destruct Hnin. by eapply Hin.
Qed.

Lemma planned_id id b n : (id, b, n) ∈ P -> id ∈ ids_of.
Proof. intros Hp. apply list_elem_of_fmap. exists (id, b). split; [done|]. apply list_elem_of_fmap. by exists (id, b, n). Qed.

(** Reading a state that another's file replaced. *)
Lemma state_other id id' b fs : id <> id' -> ls_state dir id (write_state dir id' b fs) = ls_state dir id fs.
Proof.
  intros Hne. apply ls_state_lookup. unfold write_state. apply lookup_insert_ne. intros Heq%state_path_inj. congruence.
Qed.

Lemma files_ok_write id b n x fs : (id, b, n) ∈ P -> x = b \/ x = n -> files_ok fs -> files_ok (write_state dir id x fs).
Proof.
  intros Hp Hx [Ho Hs]. split.
  - intros path Hpath. unfold write_state. rewrite lookup_insert_ne; [by apply Ho|]. intros Heq. by eapply Hpath; [by eapply planned_id|].
  - intros id' b' n' Hp'. destruct (decide (id' = id)) as [->|]; [|by rewrite state_other by done; apply Hs].
    destruct (planned_unique _ _ _ _ _ Hp Hp') as [-> ->]. destruct (proj2 Hplan _ _ _ Hp') as (Hst & Hn & Hbb & Hbn).
    destruct (stored_headed _ _ _ _ Hst) as [Hb Hv]. destruct Hx as [->| ->]; [left|right]; by apply state_written.
Qed.

(** Those in [l] are as planned. *)
Definition all_went (l : list Planned) (fs : gmap string FileText) : Prop :=
  forall id b n, (id, b, n) ∈ l -> ls_state dir id fs = Ok (Some n).

(** The other scene is the same but for the files. *)
Definition refiled (v v' : Scene) : Prop := exists fs, v' = on_files (fun _ => fs) v /\ files_ok fs.

Lemma refiled_trans v1 v2 v3 : refiled v1 v2 -> refiled v2 v3 -> refiled v1 v3.
Proof. intros (fs & -> & _) (fs' & -> & Hf). by exists fs'. Qed.

Lemma refiled_self v : files_ok (sc_files v) -> refiled v v.
Proof. intros Hf. exists (sc_files v). split; [by destruct v|done]. Qed.

Lemma undo_spec l v :
  (forall p, p ∈ l -> p ∈ P) -> sc_dir v = dir -> files_ok (sc_files v) -> spec (eq v) (undo l) (fun _ v' => refiled v v').
Proof.
  revert v. induction l as [|[[id b] n] l IH]; intros v Hl Hd Hf; cbn [undo].
  { apply scene_ret. intros v' <-. by apply refiled_self. }
  assert (Hw : files_ok (write_state (sc_dir v) id b (sc_files v))).
  { rewrite Hd. eapply files_ok_write; [apply Hl; by left|by left|done]. }
  apply (spec_writes _ _ _ _ _ (save_state_writes id b v)).
  - eapply scene_conseq; [apply (IH (on_files (write_state (sc_dir v) id b) v)); [intros p Hp; apply Hl; by right|done|exact Hw]|done|].
    cbn. intros _ v' (fs & -> & Hf'). by exists fs.
  - intros _. apply IH; [intros p Hp; apply Hl; by right|done|done].
  - by apply refiled_self.
  - by exists (write_state (sc_dir v) id b (sc_files v)).
Qed.

Lemma write_rest_spec written rest v :
  (forall p, p ∈ written ++ rest -> p ∈ P) -> NoDup (written ++ rest).*1.*1 -> sc_dir v = dir -> files_ok (sc_files v) ->
  all_went written (sc_files v) ->
  spec (eq v) (write_rest written rest)
    (fun o v' => refiled v v' /\ (o = Some (Ok tt) -> all_went (written ++ rest) (sc_files v'))).
Proof.
  revert written v. induction rest as [|[[id b] n] rest IH]; intros written v Hl Hnd Hd Hf Hw; cbn [write_rest].
  { apply scene_ret. intros v' <-. split; [by apply refiled_self|]. by rewrite app_nil_r. }
  assert (Hp : (id, b, n) ∈ P) by (apply Hl, elem_of_app; right; by left).
  assert (Hwf : files_ok (write_state (sc_dir v) id n (sc_files v))) by (rewrite Hd; eapply files_ok_write; [done|by right|done]).
  apply (spec_writes _ _ _ _ _ (save_state_writes id n v)).
  - eapply scene_conseq; [apply (IH (written ++ [(id, b, n)]) (on_files (write_state (sc_dir v) id n) v))|done|].
    + intros p. rewrite <-app_assoc. apply Hl.
    + by rewrite <-app_assoc.
    + done.
    + exact Hwf.
    + intros id' b' n' Hin. change (sc_files (on_files (write_state (sc_dir v) id n) v)) with (write_state (sc_dir v) id n (sc_files v)).
      rewrite Hd. destruct (proj2 Hplan _ _ _ Hp) as (Hst & Hn & _ & Hbn). destruct (stored_headed _ _ _ _ Hst) as [_ Hv].
      apply elem_of_app in Hin as [Hin|Hin].
      * rewrite state_other; [by eapply Hw|]. intros ->. rewrite fmap_app, fmap_app in Hnd. apply NoDup_app in Hnd as (_ & Hdis & _).
        apply (Hdis id); [|by left]. apply list_elem_of_fmap. exists (id, b'). split; [done|]. apply list_elem_of_fmap. by exists (id, b', n').
      * apply list_elem_of_singleton in Hin as [= -> -> ->]. by apply state_written.
    + cbn. intros o v' [Hr Ho]. split; [|by rewrite <-app_assoc in Ho]. destruct Hr as (fs & -> & Hfs). by exists fs.
  - intros e. eapply scene_bind; [apply (undo_spec written); [intros p Hin; apply Hl, elem_of_app; by left|done|done]| |].
    + intros []. apply scene_ret. by intros v' Hv'.
    + intros v' Hv'. done.
  - split; [by apply refiled_self|done].
  - split; [by exists (write_state (sc_dir v) id n (sc_files v))|done].
Qed.

Lemma write_planned_spec v :
  sc_dir v = dir -> files_ok (sc_files v) ->
  spec (eq v) (write_planned P) (fun o v' => refiled v v' /\ (o = Some (Ok tt) -> all_went P (sc_files v'))).
Proof. intros Hd Hf. apply (write_rest_spec [] P); [done|apply Hplan|done|done|]. intros id b n Hin. by apply elem_of_nil in Hin. Qed.

End stored.

(** ** What the running state follows *)

Section running.
Context `{OsKind, Serde ActiveFile, Serde SwitchIntent, Serde Running, Serde BackupHead, Serde MixerBackup, Serde MixState,
  Serde CustomizationFile, Serde PinFile, Serde MigrationPending, Serde Status, Sha256}.
Context `{!SerdeOk Running}.

(** What the file says of [lineup]'s state, with the engine's held. *)
Definition view (lineup : string) (v : Scene) : option string * gset string :=
  recorded_for (sc_dir v) lineup (state_digest (sc_state v)) (sc_running v).

Definition written (r : Running) : option FileText := Some (Readable (to_json r)).

Lemma recorded_written dir lineup held r :
  valid_lineup_id (rn_lineup r) = true -> rn_lineup r = lineup ->
  recorded_for dir lineup held (written r) = (rn_follows (resolved r held), rn_silenced (resolved r held)).
Proof.
  intros Hv Hl. unfold recorded_for, ls_running, read_as, read_optional. rewrite lookup_partial_alter_eq. cbn. rewrite serde_back. cbn.
  unfold lineup_id_or_text. rewrite check_ok by done. cbn. rewrite decide_True; [done|]. unfold resolved.
  destruct (rn_pending r); [by case_bool_decide|done].
Qed.

(** A record kept, or not. *)
Definition noted (r : Running) (v v' : Scene) : Prop := v' = v \/ v' = on_running (written r) v.

Lemma set_running_cases r w w' o :
  set_running r w = (w', o) ->
  match o with
  | Some (Ok _) => look w' = on_running (written r) (look w)
  | Some (Err _) => look w' = look w
  | None => noted r (look w) (look w')
  end.
Proof.
  unfold set_running, checked. destruct (check_lineup_id _); [|by intros [= <- <-]].
  unfold set_file, mbind, Io_bind, gets, write_durable.
  assert (Hput : look (put_w_files (<[running_path (store_dir w) := Readable (to_json r)]> (w_files w)) w) = on_running (written r) (look w)).
  { unfold look, on_running. cbn. change (store_dir (put_w_files _ w)) with (store_dir w). by rewrite lookup_insert_eq, delete_insert_eq. }
  destruct (w_disk w) as [|[|e|[]] l]; intros [= <- <-]; try exact Hput; try done; [by right|by left].
Qed.

Lemma note_running_noted r v : spec (eq v) (note_running r) (fun _ v' => noted r v v').
Proof.
  intros w w' o -> Hw. unfold note_running, mbind, Io_bind in Hw. destruct (set_running r w) as [w1 o1] eqn:Hs.
  apply set_running_cases in Hs. destruct o1 as [[]|]; injection Hw as <- <-; [by right|by left|done].
Qed.

(** Reading it settles what is pending, with the view as it was. *)
Lemma running_for_view lineup v :
  spec (eq v) (running_for lineup (state_digest (sc_state v)))
    (fun o v' => (exists x, v' = on_running x v)
                 /\ (forall s, view lineup (on_state s v) = view lineup v -> view lineup (on_state s v') = view lineup v)
                 /\ forall a, o = Some a -> a = view lineup v).
Proof.
  intros w w' o -> Hw. pose proof (running_for_spec _ _ _ _ _ _ eq_refl Hw) as [Hx Ha]. split_and!; [done| |exact Ha]. clear Ha Hx. intros s Hsame.
  unfold running_for, running_of in Hw. unfold mbind, Io_bind, gets, mret, Io_ret in Hw. cbn in Hw.
  assert (Hread : ls_running (store_dir w) (w_files w)
                  = ls_running (sc_dir (look w)) (partial_alter (fun _ => sc_running (look w)) (running_path (sc_dir (look w))) ∅)).
  { apply read_as_lookup. by rewrite lookup_partial_alter_eq. }
  destruct (ls_running (store_dir w) (w_files w)) as [[r|]|e] eqn:Hr; [|by injection Hw as <- <-..].
  destruct (rn_pending r) as [p|] eqn:Hp; [|by injection Hw as <- <-].
  assert (Hval : valid_lineup_id (rn_lineup r) = true).
  { revert Hr. unfold ls_running, read_as. destruct (read_optional _ _) as [[text|]|]; cbn; [|done..].
    destruct (of_json text) as [r'|]; cbn; [|done]. unfold lineup_id_or_text, check_lineup_id.
    destruct (valid_lineup_id (rn_lineup r')) eqn:Hv'; [|done]. cbn. by intros [= <-]. }
  destruct (note_running _ w) as [w1 o1] eqn:Hn. apply (note_running_noted _ _ _ _ _ eq_refl) in Hn.
  set (r' := resolved r (state_digest (w_engine w).1)) in *.
  assert (Hlook : look w' = look w1) by (by destruct o1; injection Hw as <- <-). rewrite Hlook.
  destruct Hn as [->| ->]; [done|]. unfold view. cbn [sc_dir sc_state sc_running on_running on_state].
  assert (Hl' : rn_lineup r' = rn_lineup r) by (unfold r', resolved; rewrite Hp; by case_bool_decide).
  assert (Hold : recorded_for (store_dir w) lineup (state_digest (w_engine w).1) (w_files w !! running_path (store_dir w))
                 = if decide (rn_lineup r' = lineup) then (rn_follows r', rn_silenced r') else (None, ∅)).
  { unfold recorded_for. cbn [sc_dir sc_running look] in Hread. by rewrite <-Hread. }
  transitivity (if decide (rn_lineup r' = lineup) then (rn_follows r', rn_silenced r') else (None, ∅)); [|by symmetry].
  assert (Hpend : rn_pending r' = None) by (unfold r', resolved; rewrite Hp; by case_bool_decide).
  case_decide as Hd.
  - rewrite recorded_written by (rewrite ?Hl'; congruence). unfold resolved. by rewrite Hpend.
  - unfold recorded_for, ls_running, read_as, read_optional. rewrite lookup_partial_alter_eq. cbn. rewrite serde_back. cbn.
    unfold lineup_id_or_text. rewrite check_ok by congruence. cbn. unfold resolved. rewrite Hpend. by rewrite decide_False.
Qed.

End running.

Lemma bind_run {A B : Type} (m : Io A) (k : A -> Io B) w :
  (m ≫= k) w = match m w with (w1, Some a) => k a w1 | (w1, None) => (w1, None) end.
Proof. done. Qed.

(** ** The running state goes over *)

Section course.
Context `{OsKind, Serde ActiveFile, Serde SwitchIntent, Serde Running, Serde BackupHead, Serde MixerBackup, Serde MixState,
  Serde CustomizationFile, Serde PinFile, Serde MigrationPending, Serde Status, Sha256}.
Context `{!SerdeOk Running, !BackupTexts}.

Lemma landed_spec fuel sent alarmed v :
  spec (eq v) (landed fuel sent alarmed)
    (fun o v' => (exists h, v' = on_held h v) /\ forall b, o = Some b -> b = MixState_eqb (sc_state v) sent).
Proof.
  revert alarmed v. induction fuel as [|fuel IH]; intros alarmed v; cbn [landed].
  { intros w w' o -> [= <- <-]. split; [|done]. exists (sc_held (look w)). by rewrite on_held_id. }
  eapply scene_bind; [apply wait_synced_spec| |].
  2:{ intros v' [_ [h ->]]. split; [by exists h|done]. }
  intros synced. eapply (scene_bind _ _ _ (fun o v' => exists h, v' = on_held h v /\ (o = Some true -> h = Some (sc_state v)))).
  - intros w w' o [_ [h Hh]] Hw. destruct synced.
    + unfold mbind, Io_bind in Hw. destruct (request_applied Ping w) as [w1 o1] eqn:Hr. apply request_asked in Hr. rewrite taken_ping, Hh in Hr.
      destruct o1 as [[[]|e]|]; injection Hw as <- <-; cbn in Hr.
      * exists (Some (sc_state v)). by rewrite Hr.
      * destruct e; cbn in Hr; [|by exists h; rewrite Hr|]; destruct Hr as ([] & h' & _ & ->); by exists h'.
      * destruct Hr as [[] ->]; by exists h.
    + injection Hw as <- <-. exists h. by rewrite Hh.
  - intros back. destruct back.
    + intros w w' o (h & Hh & Hs) [= <- <-]. specialize (Hs eq_refl). subst h. split; [by exists (Some (sc_state v))|]. intros b [= <-].
      apply (f_equal sc_held) in Hh. unfold look, shown in Hh. cbn in Hh. destruct (mv_synced (w_mirror w)); [|done]. by injection Hh as ->.
    + eapply (scene_bind _ _ _ (fun o v' => exists h, v' = on_held h v)).
      * intros w w' o (h & Hh & _) [= <- <-]. exists h. by rewrite <-Hh.
      * intros waited. destruct (absent_alarm_due alarmed waited ABSENT_ALARM).
        -- eapply (scene_bind _ _ _ (fun o v' => exists h, v' = on_held h v)).
           ++ intros w w' o [h Hh] [= <- <-]. by exists h.
           ++ intros [] w w' o [h Hh] Hw. destruct (IH true (on_held h v) w w' o (eq_sym Hh) Hw) as [[h' Hh'] Hb]. split; [by exists h'|done].
           ++ intros v' [h ->]. split; [by exists h|done].
        -- intros w w' o [h Hh] Hw. destruct (IH alarmed (on_held h v) w w' o (eq_sym Hh) Hw) as [[h' Hh'] Hb]. split; [by exists h'|done].
      * intros v' [h ->]. split; [by exists h|done].
  - intros v' (h & -> & _). split; [by exists h|done].
Qed.

(** A mirror is synced over a connection only. *)
Definition synced_connected (w : World) : Prop := mv_synced (w_mirror w) = true -> sr_connected (w_server w) = true.
Definition scripted (w : World) : nat := length (w_syncs w) + length (w_answers w).

(** The wait for the engine takes as many turns as it stays away for and answers
    badly, and one more. *)
Lemma landed_ends fuel sent alarmed w w' :
  synced_connected w -> (scripted w < fuel)%nat -> landed fuel sent alarmed w = (w', None) -> exists taken, EaDies taken ∈ w_answers w.
Proof.
  revert alarmed w. induction fuel as [|fuel IH]; intros alarmed w Hc Hf Hw; [lia|]. cbn [landed] in Hw.
  (* The turn over again. *)
  assert (Hturn : forall w1, synced_connected w1 -> (scripted w1 < scripted w)%nat -> (forall a, a ∈ w_answers w1 -> a ∈ w_answers w) ->
    (waited ← next_waited;
     if absent_alarm_due alarmed waited ABSENT_ALARM
     then _ ← tell (ToldAlarm ABSENT_TITLE ABSENT_BODY); landed fuel sent true
     else landed fuel sent alarmed) w1 = (w', None) -> exists taken, EaDies taken ∈ w_answers w).
  { intros w1 Hc1 Hs Ha Hrun. unfold mbind, Io_bind in Hrun. cbn in Hrun.
    assert (Hd : exists alarmed' w2, synced_connected w2 /\ scripted w2 = scripted w1 /\ w_answers w2 = w_answers w1 /\ landed fuel sent alarmed' w2 = (w', None)).
    { destruct (absent_alarm_due _ _ _); [exists true|exists alarmed]; eexists; (split_and!; [| | |exact Hrun]); done. }
    destruct Hd as (al & w2 & Hc2 & Hs2 & Ha2 & Hrun2). apply IH in Hrun2 as [tk Htk]; [|done|lia]. exists tk. apply Ha. by rewrite <-Ha2. }
  rewrite bind_run in Hw.
  assert (Hask : forall w1, mv_synced (w_mirror w1) = true -> sr_connected (w_server w1) = true -> (scripted w1 <= scripted w)%nat ->
    w_answers w1 = w_answers w ->
    (back ← (r ← request_applied Ping; mret (is_ok r));
     if back : bool then gets (fun w => MixState_eqb (mv_state (w_mirror w)) sent)
     else waited ← next_waited;
          if absent_alarm_due alarmed waited ABSENT_ALARM
          then _ ← tell (ToldAlarm ABSENT_TITLE ABSENT_BODY); landed fuel sent true
          else landed fuel sent alarmed) w1 = (w', None) -> exists taken, EaDies taken ∈ w_answers w).
  { intros w1 Hs1 Hc1 Hsc Ha1 Hrun. rewrite !bind_run in Hrun. unfold request_applied in Hrun. rewrite Hc1 in Hrun. cbn [negb] in Hrun.
    destruct (w_answers w1) as [|a l] eqn:Hl; [done|]. destruct a as [|b|tk gone|tk]; [done|..].
    - eapply Hturn; [| | |exact Hrun]; [by intros _|unfold scripted in *; cbn; rewrite Hl in Hsc; cbn in Hsc; lia|].
      intros a Hin. cbn in Hin. rewrite <-Ha1. by right.
    - destruct gone; (eapply Hturn; [| | |exact Hrun]); destruct tk; try (by intros _); try (by intros ?);
        try (unfold scripted in *; cbn; rewrite Hl in Hsc; cbn in Hsc; lia); intros a Hin; cbn in Hin; rewrite <-Ha1; by right.
    - exists tk. rewrite <-Ha1. by left. }
  unfold wait_synced in Hw. destruct (mv_synced (w_mirror w)) eqn:Hs.
  { eapply Hask; [| | | |exact Hw]; auto. }
  destruct (w_syncs w) as [|[] l] eqn:Hl; [eapply Hask; [| | | |exact Hw]..|eapply Hturn; [| | |exact Hw]]; try done;
    try (unfold scripted; cbn; rewrite Hl; cbn; lia).
Qed.

Context (c : Course).
Notation active := (lu_id (co_lineup c)).
Hypothesis Hvalid : valid_lineup_id active = true.
Hypothesis Hdistinct : mixes_distinct (co_topology c).

(** The engine's state once it has gone over, and the record. *)
Definition arrive (s : MixState) : MixState * gset string :=
  let '(n, silenced) := follow (co_from c) (co_new c) (co_sets c) (co_lineup c) (Some (co_topology c)) (s, co_recorded c) in
  (if MixState_eqb n (shaped c s) then s else n, silenced).

Definition before (s : MixState) (v : Scene) : Prop := sc_state v = s /\ view active v = (co_marker c, co_recorded c).
Definition arrived (s : MixState) (v : Scene) : Prop := sc_state v = (arrive s).1 /\ view active v = (Some (co_sha c), (arrive s).2).

Lemma next_of_eq s :
  next_of c s = ((follow (co_from c) (co_new c) (co_sets c) (co_lineup c) (Some (co_topology c)) (s, co_recorded c)).1,
                 mkRunning active (Some (co_sha c)) (arrive s).2 None).
Proof. unfold next_of, arrive. by destruct (follow _ _ _ _ _ _) as [n sil]. Qed.

Lemma next_silenced s : rn_silenced (next_of c s).2 = (arrive s).2.
Proof. by rewrite next_of_eq. Qed.

Lemma next_fits s : fits (co_topology c) (next_of c s).1.
Proof. rewrite next_of_eq. by apply follow_fits. Qed.

Lemma arrive_sent s : MixState_eqb (next_of c s).1 (shaped c s) = false -> (arrive s).1 = (next_of c s).1.
Proof. rewrite next_of_eq. unfold arrive. destruct (follow _ _ _ _ _ _) as [n sil]. cbn. by intros ->. Qed.

Lemma arrive_stays s : MixState_eqb (next_of c s).1 (shaped c s) = true -> (arrive s).1 = s.
Proof. rewrite next_of_eq. unfold arrive. destruct (follow _ _ _ _ _ _) as [n sil]. cbn. by intros ->. Qed.

(** The digest tells what is sent from what was. *)
Definition told_apart (s : MixState) : Prop := state_digest (next_of c s).1 = state_digest s -> (next_of c s).1 = s.

(** The record once it has arrived. *)
Lemma view_arrived v s : sc_state v = (arrive s).1 -> sc_running v = written (next_of c s).2 -> arrived s v.
Proof.
  intros Hs Hr. split; [done|]. unfold view. rewrite Hr, next_of_eq. cbn [snd]. by rewrite recorded_written.
Qed.

(** The record of an import on its way, by what the engine holds. *)
Definition on_its_way (s : MixState) : Running :=
  prior c (Some (mkPending (co_sha c) (arrive s).2 (state_digest (next_of c s).1))).

Lemma view_on_its_way v s : sc_running v = written (on_its_way s) -> sc_state v = (next_of c s).1 -> MixState_eqb (next_of c s).1 (shaped c s) = false -> arrived s v.
Proof.
  intros Hr Hs Hne. split; [by rewrite arrive_sent|]. unfold view. rewrite Hr. unfold on_its_way, prior. rewrite recorded_written by done.
  unfold resolved. cbn [rn_pending pd_digest]. rewrite Hs. by rewrite bool_decide_true.
Qed.

Lemma view_not_in v s :
  told_apart s -> sc_running v = written (on_its_way s) -> sc_state v = s -> (next_of c s).1 <> s -> view active v = (co_marker c, co_recorded c).
Proof.
  intros Hd Hr Hs Hn. unfold view. rewrite Hr. unfold on_its_way, prior. rewrite recorded_written by done.
  unfold resolved. cbn [rn_pending pd_digest]. rewrite bool_decide_false; [done|]. rewrite Hs. intros He. by apply Hn, Hd.
Qed.

Lemma view_prior v : sc_running v = written (prior c None) -> view active v = (co_marker c, co_recorded c).
Proof. intros Hr. unfold view. rewrite Hr. unfold prior. by rewrite recorded_written. Qed.

(** The rest of the scene is as it was. *)
Definition but_running (v v' : Scene) : Prop := exists x s h, v' = on_running x (on_state s (on_held h v)).

Definition import_end (s : MixState) (v : Scene) (o : option (result Applied Running)) (v' : Scene) : Prop :=
  but_running v v'
  /\ match o with
     | Some (Ok r) => r = (next_of c s).2 /\ arrived s v'
     | Some (Err _) => before s v'
     | None => before s v' \/ arrived s v'
     end.

Lemma import_next_spec s v :
  told_apart s -> fits (co_topology c) s -> sc_topology v = Some (co_topology c) -> before s v -> MixState_eqb (next_of c s).1 (shaped c s) = false ->
  spec (eq v) (import_next c (next_of c s).1 (next_of c s).2) (import_end s v).
Proof.
  intros Htold Hfit Ht Hb Hne.
  assert (Hsent : (next_of c s).1 <> s).
  { intros He. unfold shaped in Hne. rewrite He, reconcile_fixed in Hne by done. cbn [fst] in Hne. by rewrite (fits_eqb_refl _ _ Hfit) in Hne. }
  assert (Htaken : (reconcile (co_topology c) (next_of c s).1).1 = (next_of c s).1) by (rewrite reconcile_fixed; [done|done|apply next_fits]).
  assert (Hstate : sc_state v = s) by apply Hb.
  (* The world with the import on its way. *)
  set (v1 := on_running (written (on_its_way s)) v).
  assert (Hin : forall h (b : bool), let v2 := on_held h (if b then taken (ImportState (next_of c s).1) v1 else v1) in
            but_running v v2 /\ sc_running v2 = written (on_its_way s) /\ sc_state v2 = if b then (next_of c s).1 else s).
  { intros h b. destruct b; cbn zeta; unfold taken, taken_state; cbn; rewrite ?Ht, ?Htaken.
    - split_and!; [|done|done]. by exists (written (on_its_way s)), (next_of c s).1, h.
    - split_and!; [|done|done]. exists (written (on_its_way s)), (sc_state v), h. by destruct v. }
  assert (Hview : forall h (b : bool), let v2 := on_held h (if b then taken (ImportState (next_of c s).1) v1 else v1) in
            if b then arrived s v2 else before s v2).
  { intros h b. destruct (Hin h b) as (_ & Hr & Hs). cbn zeta in *. destruct b; [by apply view_on_its_way|].
    split; [done|]. by eapply view_not_in. }
  assert (Hheld : forall x, on_held (sc_held x) x = x) by (intros []; done).
  eapply (scene_bind _ _ _ (fun o v' => match o with Some (Ok _) => v' = v1 | Some (Err _) => v' = v | None => v' = v \/ v' = v1 end)).
  { intros w w' o -> Hw. apply set_running_cases in Hw. rewrite next_silenced in Hw.
    destruct o as [[]|]; [exact Hw|exact Hw|]. destruct Hw; auto. }
  2:{ intros v' [->| ->].
      - split; [|by left]. exists (sc_running v), (sc_state v), (sc_held v). by destruct v.
      - destruct (Hin (sc_held v1) false) as (Hbr & _). pose proof (Hview (sc_held v1) false) as Hv. cbv zeta iota in Hbr, Hv.
        rewrite (Hheld v1) in Hbr, Hv. split; [done|by left]. }
  intros [[]|e].
  2:{ apply scene_ret. intros v' ->. split; [|done]. exists (sc_running v), (sc_state v), (sc_held v). by destruct v. }
  (* The answer. *)
  assert (Hgone : forall not w w' o h, look w = on_held h v1 -> (_ ← note_running (prior c None); mret (Err not : result Applied Running)) w = (w', o) ->
            import_end s v o (look w')).
  { intros not w w' o h Hl Hw. unfold mbind, Io_bind in Hw. destruct (note_running (prior c None) w) as [w1 o1] eqn:Hn.
    apply (note_running_noted _ _ _ _ _ eq_refl) in Hn. rewrite Hl in Hn.
    assert (Hend : but_running v (look w1) /\ before s (look w1)).
    { destruct Hn as [->| ->]; [by split; [apply (Hin h false)|apply (Hview h false)]|]. split.
      - exists (written (prior c None)), (sc_state v), h. by destruct v.
      - split; [done|]. by apply view_prior. }
    destruct o1; injection Hw as <- <-; (split; [apply Hend|]); [apply Hend|left; apply Hend]. }
  eapply (scene_bind _ _ _ (asked v1 (taken (ImportState (next_of c s).1) v1))).
  { intros w w' o Hv1 Hw. apply request_asked in Hw. by rewrite Hv1 in Hw. }
  2:{ intros v' [b ->]. pose proof (Hin (sc_held v1) b) as (Hbr & _). pose proof (Hview (sc_held v1) b) as Hv.
      cbn zeta in *. assert (Heq : on_held (sc_held v1) (if b then taken (ImportState (next_of c s).1) v1 else v1)
        = if b then taken (ImportState (next_of c s).1) v1 else v1) by (by destruct b; [destruct v|rewrite Hheld]).
      rewrite Heq in Hbr, Hv. split; [done|]. destruct b; auto. }
  intros answer. eapply (scene_bind _ _ _ (fun o v' =>
    match o with
    | Some (Ok r) => r = (next_of c s).2 /\ exists h, v' = on_held h (taken (ImportState (next_of c s).1) v1)
    | Some (Err not) => exists h, v' = on_held h v1
    | None => exists h (b : bool), v' = on_held h (if b then taken (ImportState (next_of c s).1) v1 else v1)
    end)).
  - assert (Hlost : forall e, e = ErDisconnected \/ e = ErTimeout ->
      spec (fun v' => exists (b : bool) h, v' = on_held h (if b then taken (ImportState (next_of c s).1) v1 else v1))
        (fuel ← gets landed_fuel; there ← landed fuel (next_of c s).1 false;
         mret (if there : bool then Ok (next_of c s).2 else Err (import_failed active e)))
        (fun o v' => match o with
           | Some (Ok r) => r = (next_of c s).2 /\ exists h, v' = on_held h (taken (ImportState (next_of c s).1) v1)
           | Some (Err not) => exists h, v' = on_held h v1
           | None => exists h (b : bool), v' = on_held h (if b then taken (ImportState (next_of c s).1) v1 else v1)
           end)).
    { intros e _ w w' o (b & h & Hl) Hw. unfold gets, mbind, Io_bind in Hw.
      destruct (landed (landed_fuel w) (next_of c s).1 false w) as [w1 o1] eqn:Hland.
      destruct (landed_spec _ _ _ _ _ _ _ eq_refl Hland) as [[h1 Hh1] Hb1]. rewrite Hl in Hh1, Hb1.
      destruct o1 as [there|]; injection Hw as <- <-; [|by exists h1, b; destruct b].
      specialize (Hb1 there eq_refl). pose proof (Hin h b) as (_ & _ & Hst). cbn zeta in Hst. rewrite Hst in Hb1. subst there.
      destruct b.
      - rewrite (fits_eqb_refl _ _ (next_fits s)). split; [done|]. by exists h1.
      - destruct (MixState_eqb s (next_of c s).1) eqn:He; [|by exists h1]. exfalso. apply MixState_eqb_sym in He.
        unfold shaped in Hne. rewrite reconcile_fixed in Hne by done. cbn [fst] in Hne. congruence. }
    destruct answer as [[]|[|b|]].
    + apply scene_ret. intros v' Hv'. cbn in Hv'. split; [done|]. by eexists.
    + intros w w' o Ha Hw. eapply Hlost; [by left| |exact Hw]. destruct Ha as (b & h & _ & ->). by exists b, h.
    + apply scene_ret. intros v' ->. exists (sc_held v1). by rewrite Hheld.
    + intros w w' o Ha Hw. eapply Hlost; [by right| |exact Hw]. destruct Ha as (b & h & _ & ->). by exists b, h.
  - intros [r|not].
    + intros w w' o (-> & h & Hl) [= <- <-]. rewrite Hl. split; [apply (Hin h true)|]. split; [done|]. apply (Hview h true).
    + intros w w' o [h Hl] Hw. by eapply Hgone.
  - intros v' (h & b & ->). split; [apply (Hin h b)|]. pose proof (Hview h b) as Hv. destruct b; auto.
Qed.

(** It went over: recorded, or as it was where that makes no difference. *)
Definition went (s : MixState) (v : Scene) : Prop := arrived s v \/ before s v /\ (arrive s).1 = s.

Lemma went_state s v : went s v -> sc_state v = (arrive s).1.
Proof. intros [[]|[[] ?]]; congruence. Qed.

Lemma but_running_self v : but_running v v.
Proof. exists (sc_running v), (sc_state v), (sc_held v). by destruct v. Qed.

Lemma but_running_trans v1 v2 v3 : but_running v1 v2 -> but_running v2 v3 -> but_running v1 v3.
Proof. intros (x & s & h & ->) (x' & s' & h' & ->). by exists x', s', h'. Qed.

(** What follows a running state that went over. *)
Lemma went_noted s v solos :
  went s v ->
  spec (eq v) (_ ← note_running (next_of c s).2; _ ← end_solos solos; mret (Ok tt : result Applied unit))
    (fun o v' => but_running v v' /\ went s v' /\ forall r, o = Some r -> r = Ok tt).
Proof.
  intros Hw. eapply (scene_bind _ _ _ (fun _ v' => but_running v v' /\ went s v')).
  - intros w w' o -> Hn. apply (note_running_noted _ _ _ _ _ eq_refl) in Hn as [->| ->]; [by split; [apply but_running_self|]|].
    split; [by exists (written (next_of c s).2), (sc_state (look w)), (sc_held (look w))|]. left. apply view_arrived; [|done]. by apply went_state in Hw.
  - intros []. eapply (scene_bind _ _ _ (fun _ v' => but_running v v' /\ went s v')).
    + intros w w' o [Hb Hwe] He. destruct (end_solos_spec _ _ _ _ _ eq_refl He) as [h ->]. split; [|done].
      eapply but_running_trans; [done|]. by exists (sc_running (look w)), (sc_state (look w)), h.
    + intros []. apply scene_ret. intros v' []. split_and!; [done..|]. by intros r [= <-].
    + by intros v' [].
  - by intros v' [].
Qed.

Definition steps_done (s : MixState) (v : Scene) (o : option (result Applied unit)) (v' : Scene) : Prop :=
  but_running v v'
  /\ match o with Some (Ok _) => went s v' | Some (Err _) => before s v' | None => before s v' \/ arrived s v' end.

(** The steps from what the mirror shows. *)
Lemma taken_over_spec s v solos :
  told_apart s -> fits (co_topology c) s -> sc_topology v = Some (co_topology c) -> before s v ->
  spec (eq v)
    (taken ← (if MixState_eqb (next_of c s).1 (shaped c s) then mret (Ok (next_of c s).2) else import_next c (next_of c s).1 (next_of c s).2);
     match taken with
     | Ok running => _ ← note_running running; _ ← end_solos solos; mret (Ok tt)
     | Err not => mret (Err not)
     end) (steps_done s v).
Proof.
  intros Htold Hfit Ht Hb. eapply (scene_bind _ _ _ (fun o v' =>
    but_running v v'
    /\ match o with Some (Ok r) => r = (next_of c s).2 /\ went s v' | Some (Err _) => before s v' | None => before s v' \/ arrived s v' end)).
  - destruct (MixState_eqb _ _) eqn:He.
    + apply scene_ret. intros v' <-. split; [apply but_running_self|]. split; [done|]. right. split; [done|]. by apply arrive_stays.
    + eapply scene_conseq; [by apply import_next_spec|done|]. intros o v' [Hbr Ho]. split; [done|].
      destruct o as [[r|e]|]; try done. destruct Ho as [-> Ho]. split; [done|by left].
  - intros [r|e].
    + intros w w' o (Hbr & -> & Hg) Hw. apply (went_noted _ _ _ Hg _ _ _ eq_refl) in Hw as (Hbr' & Hg' & Ho).
      split; [by eapply but_running_trans|]. destruct o as [r|]; [by rewrite (Ho r eq_refl)|]. destruct Hg' as [|[]]; auto.
    + apply scene_ret. by intros v' [].
  - by intros v' [].
Qed.

Lemma gets_bind {A B : Type} (f : World -> A) (k : A -> Io B) w : (gets f ≫= k) w = k (f w) w.
Proof. done. Qed.

Lemma synced_held w s : sc_held (look w) = Some s -> mv_synced (w_mirror w) = true /\ mv_state (w_mirror w) = s.
Proof. change (sc_held (look w)) with (shown (w_mirror w)). unfold shown. destruct (mv_synced _); [by intros [= <-]|done]. Qed.

Lemma frozen_steps_spec s v :
  told_apart s -> fits (co_topology c) s -> sc_topology v = Some (co_topology c) -> before s v -> sc_held v = Some s ->
  spec (eq v) (frozen_steps c) (steps_done s v).
Proof.
  intros Htold Hfit Ht Hb Hh w w' o -> Hw. destruct (synced_held _ _ Hh) as [Hs Hst].
  eapply (taken_over_spec s _ (soloed_now c (mv_transient (w_mirror w)))); [done..|]. rewrite <-Hw.
  unfold frozen_steps. rewrite gets_bind. unfold id. cbn zeta. rewrite Hs, Hst. by destruct (next_of c s).
Qed.

(** Where it has arrived, it stays. *)
Lemma arrive_fits s : fits (co_topology c) s -> fits (co_topology c) (arrive s).1.
Proof.
  intros Hf. destruct (MixState_eqb (next_of c s).1 (shaped c s)) eqn:He; [by rewrite arrive_stays|]. rewrite arrive_sent by done. apply next_fits.
Qed.

Lemma arrive_fit s : fits (co_topology c) s -> fit_already (co_sets c) (co_lineup c) (arrive s).
Proof.
  intros Hf. unfold arrive. destruct (follow _ _ _ _ _ _) as [n sil] eqn:Hn.
  assert (Hfit : fit_already (co_sets c) (co_lineup c) (n, sil)) by (rewrite <-Hn; apply follow_fit).
  destruct (MixState_eqb n (shaped c s)) eqn:He; [|done]. unfold shaped in He. rewrite reconcile_fixed in He by done.
  by eapply fit_already_eqb.
Qed.

Lemma arrive_settled s :
  co_from c = None -> fits (co_topology c) s -> fit_already (co_sets c) (co_lineup c) (s, co_recorded c) -> arrive s = (s, co_recorded c).
Proof. intros Hfr Hf Hfit. unfold arrive. rewrite Hfr, follow_settled by done. by destruct (MixState_eqb _ _). Qed.

(** *** The whole course *)

Lemma thaw_unchanged_spec v : spec (eq v) thaw_pages_unchanged (fun o v' => o = Some tt /\ v' = on_frozen false v).
Proof.
  apply modify_spec. intros w <-. destruct (thaw_after_frozen false (w_server w)) as (?&?&?&?&?&?). by apply look_frozen.
Qed.

Context (s0 s1 : MixState) (v0 : Scene).
Notation all_planned_went v := (all_went (sc_dir v0) (co_planned c) (sc_files v)).
Hypothesis Hplanned : planned_ok (co_planned c) (sc_dir v0) (sc_files v0).
Hypothesis Htold : told_apart s1.
Hypothesis Hfits : fits (co_topology c) s1.
Hypothesis Htopology : sc_topology v0 = Some (co_topology c).
Hypothesis Hbefore : before s0 v0.
Hypothesis Hlands : view active (on_state s1 v0) = view active v0.
Hypothesis Hfree : sc_frozen v0 = false.

(** What a course leaves alone: all but the files, the running state and the gate. *)
Definition in_course (v : Scene) : Prop :=
  sc_dir v = sc_dir v0 /\ sc_topology v = sc_topology v0 /\ sc_settling v = sc_settling v0 /\ sc_roster v = sc_roster v0
  /\ files_ok (co_planned c) (sc_dir v0) (sc_files v0) (sc_files v).

Definition course_end (o : option (result Applied (option bool))) (v : Scene) : Prop :=
  in_course v /\ exists s, (s = s0 \/ s = s1)
  /\ match o with
     | Some (Ok frozen) =>
         all_planned_went v /\ went s v /\ (frozen = None /\ sc_frozen v = false \/ frozen = Some false /\ sc_frozen v = true)
     | Some (Err _) => before s v /\ sc_frozen v = false
     | None => before s v \/ all_planned_went v /\ arrived s v
     end.

Lemma in_course_self : in_course v0.
Proof. split_and!; try done. by apply files_ok_self. Qed.

Lemma in_course_refiled v v' :
  in_course v -> refiled (co_planned c) (sc_dir v0) (sc_files v0) v v' -> in_course v'.
Proof. intros (?&?&?&?&_) (fs & -> & Hf). by split_and!. Qed.

Lemma in_course_running v v' : in_course v -> but_running v v' -> in_course v'.
Proof. intros (?&?&?&?&?) (x & s & h & ->). by split_and!. Qed.

(** Nothing to change in the running state. *)
Lemma course_stays_spec :
  MixState_eqb (next_of c s0).1 (shaped c s0) = true ->
  spec (eq v0) (let? _ := write_planned (co_planned c) in _ ← note_running (next_of c s0).2; mret (Ok None)) course_end.
Proof.
  intros He. eapply spec_try; [by apply write_planned_spec, files_ok_self| | |].
  - intros [] w w' o [Hr Hall] Hw. specialize (Hall eq_refl). pose proof (in_course_refiled _ _ in_course_self Hr) as Hin.
    destruct Hr as (fs & Hl & _).
    assert (Hg : went s0 (look w)) by (right; split; [by rewrite Hl|by apply arrive_stays]).
    assert (Hfr : sc_frozen (look w) = false) by by rewrite Hl.
    unfold mbind, Io_bind in Hw. destruct (note_running (next_of c s0).2 w) as [w1 o1] eqn:Hn.
    apply (note_running_noted _ _ _ _ _ eq_refl) in Hn.
    assert (Hend : in_course (look w1) /\ all_planned_went (look w1) /\ went s0 (look w1) /\ sc_frozen (look w1) = false).
    { destruct Hn as [->| ->]; [done|]. split_and!; [|done| |done].
      - eapply in_course_running; [exact Hin|]. by exists (written (next_of c s0).2), (sc_state (look w)), (sc_held (look w)).
      - left. apply view_arrived; [|done]. by apply went_state in Hg. }
    destruct Hend as (Hin1 & Hall1 & Hg1 & Hf1). destruct o1; injection Hw as <- <-; (split; [done|]); exists s0; (split; [by left|]).
    + split_and!; auto.
    + destruct Hg1 as [|[]]; auto.
  - intros e v [Hr _]. split; [by eapply in_course_refiled, Hr; apply in_course_self|]. exists s0. destruct Hr as (fs & -> & _). by split; [left|].
  - intros v [Hr _]. split; [by eapply in_course_refiled, Hr; apply in_course_self|]. exists s0. destruct Hr as (fs & -> & _). split; [by left|]. by left.
Qed.

(** With the pages frozen. *)
Definition frozen_scene : Scene := on_frozen true (on_held (Some s1) (on_state s1 v0)).

Definition on_course (v : Scene) : Prop := in_course v /\ before s1 v.

Lemma on_course_frozen : on_course frozen_scene.
Proof. split; [apply in_course_self|]. split; [done|]. etrans; [exact Hlands|]. apply Hbefore. Qed.

Lemma on_course_end_err e v : on_course v -> course_end (Some (Err e)) (on_frozen false v).
Proof. intros [Hin Hb]. split; [exact Hin|]. exists s1. by split; [right|]. Qed.

Lemma on_course_end_none v : on_course v -> course_end None v.
Proof. intros [Hin Hb]. split; [exact Hin|]. exists s1. split; [by right|]. by left. Qed.

(** The pages set free after a failure. *)
Lemma course_fails_spec e :
  spec on_course (_ ← thaw_unless false; mret (Err e : result Applied (option bool))) course_end.
Proof.
  intros w w' o Hon Hw. eapply (scene_bind thaw_pages_unchanged _ _ _ course_end); [apply thaw_unchanged_spec| | |reflexivity|exact Hw].
  - intros []. apply scene_ret. intros v [_ ->]. by apply on_course_end_err.
  - by intros v [].
Qed.

Lemma course_moves_spec :
  spec (eq frozen_scene)
    (wrote ← write_planned (co_planned c);
     match wrote with
     | Err not => _ ← thaw_unless false; mret (Err not)
     | Ok _ =>
         taken ← frozen_steps c;
         match taken with
         | Ok _ => mret (Ok (Some false))
         | Err not => _ ← undo (co_planned c); _ ← thaw_unless false; mret (Err not)
         end
     end) course_end.
Proof.
  assert (Hre : forall v v', on_course v -> refiled (co_planned c) (sc_dir v0) (sc_files v0) v v' -> on_course v').
  { intros v v' [Hin Hb] Hr. split; [by eapply in_course_refiled|]. by destruct Hr as (fs & -> & _). }
  eapply scene_bind; [apply (write_planned_spec _ _ _ Hplanned frozen_scene); [done|by apply files_ok_self]| |].
  - intros [[]|e].
    2:{ eapply scene_conseq; [apply course_fails_spec| |done]. intros v [Hr _]. eapply Hre, Hr. apply on_course_frozen. }
    intros w w' o [Hr Hall] Hw. specialize (Hall eq_refl). pose proof (Hre _ _ on_course_frozen Hr) as [Hin Hb].
    assert (Hfh : sc_frozen (look w) = true /\ sc_held (look w) = Some s1) by by destruct Hr as (fs & -> & _).
    destruct Hfh as [Hfr Hh]. clear Hr. revert w' o Hw. generalize (eq_refl (look w)). generalize (look w) at 1 as v; intros v Hv.
    assert (Ht : sc_topology v = Some (co_topology c)) by (subst v; destruct Hin as (_ & -> & _); done).
    intros w' o Hw. eapply (scene_bind (frozen_steps c) _ (eq v) _ course_end); [subst v; by apply frozen_steps_spec| | |by subst v|exact Hw].
    + subst v. intros [[]|e].
      * apply scene_ret. intros v' [Hbr Hg]. split; [by eapply in_course_running|]. exists s1. split; [by right|].
        destruct Hbr as (x & s & h & ->). split_and!; [done|done|]. by right.
      * intros w1 w1' o1 [Hbr Hb1] Hw1. assert (Hon : on_course (look w1)) by (split; [by eapply in_course_running|done]).
        refine (scene_bind _ _ (eq (look w1)) (fun _ => on_course) course_end _ (fun _ => course_fails_spec e) on_course_end_none _ _ _ eq_refl Hw1).
        eapply scene_conseq; [eapply (undo_spec _ _ _ Hplanned); [done|apply Hon|apply Hon]|done|]. cbn. intros _ v' Hr. by eapply Hre.
    + subst v. intros v' [Hbr Ho]. split; [by eapply in_course_running|]. exists s1. split; [by right|].
      destruct Ho as [|]; [by left|right]. by destruct Hbr as (x & s & h & ->).
  - intros v [Hr _]. apply on_course_end_none. eapply Hre, Hr. apply on_course_frozen.
Qed.

Lemma carry_out_spec w w' o :
  look w = v0 -> sc_held v0 = Some s0 -> landed_state w = s1 -> carry_out c w = (w', o) -> course_end o (look w').
Proof.
  intros Hl Hh Hs1 Hw. rewrite <-Hl in Hh. destruct (synced_held _ _ Hh) as [_ Hst].
  unfold carry_out in Hw. rewrite gets_bind in Hw. cbn zeta in Hw. rewrite Hst in Hw.
  destruct (MixState_eqb (next_of c s0).1 (shaped c s0) && bool_decide (soloed_now c (mv_transient (w_mirror w)) = [])) eqn:He.
  - eapply (course_stays_spec (proj1 (andb_prop _ _ He)) w); [done|]. rewrite <-Hw. destruct (next_of c s0). cbn [fst] in He. by rewrite He.
  - assert (Hw2 : (let? was := or_else (import_failed active) freeze_pages in
                   wrote ← write_planned (co_planned c);
                   match wrote with
                   | Err not => _ ← thaw_unless was; mret (Err not)
                   | Ok _ => taken ← frozen_steps c;
                       match taken with
                       | Ok _ => mret (Ok (Some was))
                       | Err not => _ ← undo (co_planned c); _ ← thaw_unless was; mret (Err not)
                       end
                   end) w = (w', o)) by (rewrite <-Hw; destruct (next_of c s0); cbn [fst] in He; rewrite He; reflexivity).
    clear Hw He. unfold try_, or_else in Hw2. rewrite !bind_run in Hw2.
    destruct (freeze_pages w) as [w1 o1] eqn:Hf. apply freeze_spec in Hf; [|by rewrite <-Hl in Hfree]. cbn zeta in Hf. rewrite Hs1, Hl in Hf.
    destruct o1 as [[was|e]|]; cbn in Hw2.
    + destruct Hf as [-> Hl1]. by eapply (course_moves_spec w1).
    + destruct Hf as [h Hl1]. injection Hw2 as <- <-. rewrite Hl1.
      assert (Hx : on_held h (on_state s1 v0) = on_frozen false (on_held h (on_state s1 v0))) by (unfold on_frozen, on_held; cbn; by rewrite Hfree).
      rewrite Hx. apply (on_course_end_err (import_failed active e)). split; [apply in_course_self|]. split; [done|]. etrans; [exact Hlands|]. apply Hbefore.
    + injection Hw2 as <- <-. rewrite Hf. apply on_course_end_none. split; [apply in_course_self|]. split; [done|]. etrans; [exact Hlands|]. apply Hbefore.
Qed.

End course.

(** ** Where a state comes from, among the kept rosters *)

Section bases.
Context `{OsKind, Serde ActiveFile, Serde SwitchIntent, Serde Running, Serde BackupHead, Serde MixerBackup, Serde MixState,
  Serde CustomizationFile, Serde PinFile, Serde MigrationPending, Serde Status, Sha256}.
Context (read : string -> result TomlError Roster).

Fixpoint last_char (s : string) : option ascii :=
  match s with
  | EmptyString => None
  | String c EmptyString => Some c
  | String _ s => last_char s
  end.

Lemma last_char_app a c b : last_char (a +:+ String c b) = last_char (String c b).
Proof. induction a as [|x [|y a] IH]; [done|done|exact IH]. Qed.

(** No kept roster is the file of a state, nor of the running state. *)
Lemma kept_roster_last dir sha path : ls_kept dir sha = Some path -> last_char path = Some "l"%char.
Proof.
  unfold ls_kept. destruct (_ && _); [|done]. intros [= <-]. unfold ls_path.
  rewrite <-(str_app_assoc _ "/" _), <-!str_app_assoc. apply last_char_app.
Qed.

Lemma kept_not_state dir sha path id : ls_kept dir sha = Some path -> path <> state_path dir id.
Proof.
  intros Hk%kept_roster_last ->. unfold state_path, data_dir, ls_path in Hk. change ("/" +:+ STATE_NAME) with "/state.json" in Hk.
  by rewrite last_char_app in Hk.
Qed.

Lemma kept_not_running dir sha path : ls_kept dir sha = Some path -> path <> running_path dir.
Proof.
  intros Hk%kept_roster_last ->. unfold running_path, ls_path in Hk. change ("/" +:+ RUNNING_NAME) with "/running.json" in Hk. by rewrite last_char_app in Hk.
Qed.

(** The files that say it are all that counts. *)
Definition same_kept (dir : string) (fs fs' : gmap string FileText) : Prop :=
  forall sha path, ls_kept dir sha = Some path -> fs !! path = fs' !! path.

Lemma move_base_kept f dir fs fs' marker sha :
  same_kept dir fs fs' -> move_base read f dir fs marker sha = move_base read f dir fs' marker sha.
Proof.
  intros Hk. destruct marker as [m|]; cbn; [|done]. case_decide; [done|]. unfold known_of. destruct (known_base f m); [done|].
  unfold kept_base, ls_kept_roster. specialize (Hk m). destruct (ls_kept dir m) as [path|]; [|done].
  unfold read_optional. by rewrite (Hk path eq_refl).
Qed.

End bases.

(** ** A transition *)

Section transition.
Context `{OsKind, Serde ActiveFile, Serde SwitchIntent, Serde Running, Serde BackupHead, Serde MixerBackup, Serde MixState,
  Serde CustomizationFile, Serde PinFile, Serde MigrationPending, Serde Status, Sha256}.
Context `{!SerdeOk Running, !BackupTexts}.
Context (read : string -> result TomlError Roster).
Context (f : Follows) (new : Roster) (new_sha active : string).

(** The line-ups that do not play, and the sets the rules are about. *)
Definition others : list Lineup := filter (fun l => lu_id l <> active) (ro_lineups new).
Definition sets_of : gset string := follows_sets f ∪ roster_sets new.

(** A line-up's stored state gone over, the kept rosters being those of [fs0]. *)
Definition over (dir : string) (fs0 : gmap string FileText) (l : Lineup) (b : MixerBackup) : MixerBackup :=
  let '(state, silenced) :=
    follow (move_base read f dir fs0 (mb_follows b) new_sha) new sets_of l None (mb_state b, mb_silenced b) in
  put_state state silenced (Some new_sha) b.

(** Its state now: as it was or gone over; gone over, or as it was where that is
    the same. *)
Definition as_was_or_over (dir : string) (fs0 fs : gmap string FileText) (l : Lineup) : Prop :=
  match ls_state dir (lu_id l) fs0 with
  | Ok (Some b) => ls_state dir (lu_id l) fs = Ok (Some b) \/ ls_state dir (lu_id l) fs = Ok (Some (over dir fs0 l b))
  | r => ls_state dir (lu_id l) fs = r
  end.
Definition gone_over (dir : string) (fs0 fs : gmap string FileText) (l : Lineup) : Prop :=
  match ls_state dir (lu_id l) fs0 with
  | Ok (Some b) =>
      ls_state dir (lu_id l) fs = Ok (Some (over dir fs0 l b))
      \/ ls_state dir (lu_id l) fs = Ok (Some b) /\ MixerBackup_eqb (over dir fs0 l b) b = true
  | r => ls_state dir (lu_id l) fs = r
  end.

(** No file but the stored states of the others. *)
Definition only_states (dir : string) (fs0 fs : gmap string FileText) : Prop :=
  forall path, (forall l, l ∈ others -> path <> state_path dir (lu_id l)) -> fs !! path = fs0 !! path.

Lemma over_headed dir fs0 l b : well_headed b -> well_headed (over dir fs0 l b).
Proof. unfold over. by destruct (follow _ _ _ _ _ _). Qed.

Lemma over_same_kept dir fs fs' l b : same_kept dir fs fs' -> over dir fs l b = over dir fs' l b.
Proof. intros Hk. unfold over. by rewrite (move_base_kept _ _ _ _ _ _ _ Hk). Qed.

(** Nobody is moved a second time. *)
Lemma over_once dir fs l b : over dir fs l (over dir fs l b) = over dir fs l b.
Proof.
  unfold over at 2 3. destruct (follow _ new sets_of l None (mb_state b, mb_silenced b)) as [s sil] eqn:Hf.
  unfold over, put_state. cbn [mb_follows mb_state mb_silenced move_base]. rewrite decide_True by done. rewrite follow_settled; [done|done|]. rewrite <-Hf. apply follow_fit.
Qed.

(** *** What is planned *)

Lemma filter_map_nodup (l : list Lineup) (P : Lineup -> Prop) `{!forall x, Decision (P x)} :
  NoDup (lu_id <$> l) -> NoDup (lu_id <$> filter P l).
Proof. intros Hn. eapply sublist_NoDup; [exact Hn|]. apply fmap_sublist, sublist_filter. Qed.

Lemma named_once (l : list Lineup) a b : NoDup (lu_id <$> l) -> a ∈ l -> b ∈ l -> lu_id a = lu_id b -> a = b.
Proof.
  induction l as [|x l IH]; cbn; [by intros _ ?%elem_of_nil|]. intros [Hn Hnd]%NoDup_cons [->|Ha]%elem_of_cons [->|Hb]%elem_of_cons Heq; try done.
  - destruct Hn. rewrite Heq. by apply list_elem_of_fmap_2.
  - destruct Hn. rewrite <-Heq. by apply list_elem_of_fmap_2.
  - by apply IH.
Qed.

Section planned.
Context (dir : string) (fs0 fs : gmap string FileText) (f' : Follows) (states : list (Lineup * MixerBackup)).
Hypothesis Hnodup : NoDup (lu_id <$> ro_lineups new).
Hypothesis Hkept : same_kept dir fs fs0.
Hypothesis Hsame : forall l, ls_state dir (lu_id l) fs = ls_state dir (lu_id l) fs0.
(** Their texts, and those of what they become, are read back. *)
Hypothesis Htexts :
  forall l b, l ∈ others -> ls_state dir (lu_id l) fs0 = Ok (Some b) -> text_back b /\ text_back (over dir fs0 l b).
Context (marker : option string).
Hypothesis Hgather : gather read dir fs others (learn read dir fs marker f) = Ok (f', states).
Notation planned := (plan f' new new_sha sets_of states).

Lemma gathered :
  (forall l b, (l, b) ∈ states <-> l ∈ others /\ ls_state dir (lu_id l) fs0 = Ok (Some b))
  /\ (forall l, l ∈ others -> exists stored, ls_state dir (lu_id l) fs0 = Ok stored)
  /\ NoDup (lu_id <$> states.*1)
  /\ base_of f' marker new_sha = move_base read f dir fs0 marker new_sha
  /\ forall l b, (l, b) ∈ states -> goes_over f' new new_sha sets_of l b = over dir fs0 l b.
Proof.
  destruct (gather_spec read f dir fs _ _ _ _ Hgather (learned_learn _ _ _ _ _ _ (learned_self _ _ _ _))
    (filter_map_nodup _ _ Hnodup)) as (Hl & Hkn & Hex & Hin & Hnd & Hm).
  assert (Hb : forall m, (forall s, m = Some s -> knows read f dir fs f' s) -> base_of f' m new_sha = move_base read f dir fs0 m new_sha).
  { intros m Hk. rewrite <-(move_base_kept read f dir fs fs0 m new_sha Hkept). by apply base_of_learned. }
  split_and!.
  - intros l b. by rewrite Hin, Hsame.
  - intros l Hlo. rewrite <-Hsame. by apply Hex.
  - done.
  - apply Hb. intros s ->. apply Hkn, learn_knows, learned_self.
  - intros l b Hlb. unfold goes_over, over. rewrite Hb; [done|]. intros s Hs. by eapply Hm.
Qed.

Lemma planned_in id b n :
  (id, b, n) ∈ planned <-> exists l, (l, b) ∈ states /\ id = lu_id l /\ n = over dir fs0 l b /\ MixerBackup_eqb (over dir fs0 l b) b = false.
Proof.
  destruct gathered as (_ & _ & _ & _ & Hgo). unfold plan. rewrite list_elem_of_omap. split.
  - intros ([l b'] & Hin & Hp). cbn in Hp. rewrite (Hgo _ _ Hin) in Hp. destruct (MixerBackup_eqb _ _) eqn:He; [done|]. injection Hp as <- <- <-. eauto.
  - intros (l & Hin & -> & -> & He). exists (l, b). split; [done|]. cbn. by rewrite (Hgo _ _ Hin), He.
Qed.

Lemma planned_states : planned_ok planned dir fs0.
Proof.
  destruct gathered as (Hin & _ & Hnd & _). split.
  - unfold ids_of, plan. clear Hin. revert Hnd. generalize states as l. clear. induction l as [|[l b] states IH]; cbn; [constructor|].
    intros [Hn Hnd]%NoDup_cons. destruct (MixerBackup_eqb _ b); [by apply IH|]. cbn. apply NoDup_cons. split; [|by apply IH].
    intros Hin. apply Hn. apply list_elem_of_fmap in Hin as ([id b1] & -> & Hin). apply list_elem_of_fmap in Hin as ([[id1 b2] n] & [= -> ->] & Hin).
    apply list_elem_of_omap in Hin as ([l' b'] & Hin & Hp). destruct (MixerBackup_eqb _ _); [done|]. injection Hp as <- <- <-.
    apply list_elem_of_fmap. exists l'. split; [done|]. apply list_elem_of_fmap. by exists (l', b').
  - intros id b n (l & Hlb & -> & -> & _)%planned_in. apply Hin in Hlb as [Hl Hs]. split; [done|].
    destruct (Htexts _ _ Hl Hs). split_and!; [|done..]. apply over_headed. by apply (stored_headed _ _ _ _ Hs).
Qed.

(** What files with the planned states written say. *)
Lemma files_others fs' : files_ok planned dir fs0 fs' ->
  only_states dir fs0 fs' /\ (forall l, l ∈ others -> as_was_or_over dir fs0 fs' l)
  /\ (all_went dir planned fs' -> forall l, l ∈ others -> gone_over dir fs0 fs' l).
Proof.
  intros [Ho Hs]. destruct gathered as (Hin & Hex & Hnd & _).
  assert (Hids : forall id, id ∈ ids_of planned -> exists l b n, (lu_id l, b, n) ∈ planned /\ id = lu_id l /\ l ∈ others /\ (l, b) ∈ states /\ n = over dir fs0 l b).
  { intros id ([id' b] & -> & Hi)%list_elem_of_fmap. apply list_elem_of_fmap in Hi as ([[id1 b1] n] & [= -> ->] & Hi).
    pose proof Hi as (l & Hlb & -> & -> & _)%planned_in. exists l, b1, (over dir fs0 l b1). split_and!; try done. by apply (Hin l b1). }
  assert (Hpath : only_states dir fs0 fs').
  { intros path Hp. apply Ho. intros id (l & b & n & _ & -> & Hl & _)%Hids. by apply Hp. }
  assert (Hone : forall l, l ∈ others ->
    (exists b, ls_state dir (lu_id l) fs0 = Ok (Some b) /\ (lu_id l, b, over dir fs0 l b) ∈ planned)
    \/ ls_state dir (lu_id l) fs' = ls_state dir (lu_id l) fs0
       /\ forall b, ls_state dir (lu_id l) fs0 = Ok (Some b) -> MixerBackup_eqb (over dir fs0 l b) b = true).
  { intros l Hl. destruct (decide (lu_id l ∈ ids_of planned)) as [Hi|Hi].
    - left. apply Hids in Hi as (l' & b & n & Hp & Heq & Hl' & Hlb & ->).
      assert (l' = l) as -> by (apply (named_once others); [by apply filter_map_nodup|done|done|by rewrite Heq]).
      exists b. split; [|done]. by apply (Hin l b).
    - right. split; [apply ls_state_lookup, Ho; intros id Hid Heq%state_path_inj; by subst|].
      intros b Hb. destruct (MixerBackup_eqb _ b) eqn:He; [done|]. destruct Hi. eapply planned_id. apply planned_in. exists l. split_and!; try done.
      by apply Hin. }
  split_and!; [done| |].
  - intros l Hl. unfold as_was_or_over. destruct (Hone l Hl) as [(b & Hb & Hp)|[Heq _]].
    + rewrite Hb. by apply Hs.
    + rewrite Heq. destruct (ls_state dir (lu_id l) fs0) as [[b|]|]; auto.
  - intros Hall l Hl. unfold gone_over. destruct (Hone l Hl) as [(b & Hb & Hp)|[Heq He]].
    + rewrite Hb. left. by apply (Hall _ b).
    + rewrite Heq. destruct (ls_state dir (lu_id l) fs0) as [[b|]|]; auto.
Qed.

End planned.

(** *** What it comes to *)

Context (lineup : Lineup) (t : TopologyInfo).

(** Its course, but for what is planned. *)
Definition course_from (v : Scene) (planned : list Planned) : Course :=
  let '(marker, recorded) := view active v in
  mkCourse new new_sha lineup t sets_of (move_base read f (sc_dir v) (sc_files v) marker new_sha) marker recorded planned.

(** A server about to carry out the transition: what an engine's mixes come to
    depends on neither the pages' last changes nor a pending record of them. *)
Record at_ease (w : World) : Prop := {
  ea_lineup : roster_lineup new active = Some lineup;
  ea_valid : valid_lineup_id active = true;
  ea_nodup : NoDup (lu_id <$> ro_lineups new);
  ea_free : sr_frozen (w_server w) = false;
  ea_held : sc_held (look w) = Some (w_engine w).1;
  ea_topology : mv_topology (w_mirror w) = Some t;
  ea_distinct : mixes_distinct t;
  ea_fits : fits t (w_engine w).1;
  ea_landed_fits : fits t (landed_state w);
  ea_landed : view active (on_state (landed_state w) (look w)) = view active (look w);
  ea_told : told_apart (course_from (look w) []) (landed_state w);
  ea_texts : forall l b, l ∈ others -> ls_state (store_dir w) (lu_id l) (sc_files (look w)) = Ok (Some b) ->
    text_back b /\ text_back (over (store_dir w) (sc_files (look w)) l b);
}.

Definition transition_end (w : World) (o : option (result Applied Transition)) (v : Scene) : Prop :=
  let v0 := look w in
  let c := course_from v0 [] in
  let dir := sc_dir v0 in
  let gone := forall l, l ∈ others -> gone_over dir (sc_files v0) (sc_files v) l in
  sc_dir v = dir /\ sc_topology v = sc_topology v0 /\ sc_settling v = sc_settling v0 /\ sc_roster v = sc_roster v0
  /\ only_states dir (sc_files v0) (sc_files v)
  /\ (forall l, l ∈ others -> as_was_or_over dir (sc_files v0) (sc_files v) l)
  /\ exists s, (s = (w_engine w).1 \/ s = landed_state w)
  /\ match o with
     | Some (Ok tn) => gone /\ went c s v /\ (tn_frozen tn = None /\ sc_frozen v = false \/ tn_frozen tn = Some false /\ sc_frozen v = true)
     | Some (Err _) => before c s v /\ sc_frozen v = false
     | None => before c s v \/ gone /\ arrived c s v
     end.

(** The order of arrival is not the pages' business. *)
Lemma running_for_landing l held w w' o : running_for l held w = (w', o) -> w_landing w' = w_landing w.
Proof.
  unfold running_for, running_of, note_running, set_running, checked, set_file, write_durable. intros Hw.
  unfold mbind, Io_bind, gets, mret, Io_ret in Hw. cbn in Hw. repeat case_match; by simplify_eq.
Qed.

Lemma nothing_done w v :
  at_ease w -> (exists x, v = on_running x (look w)) -> view active v = view active (look w) ->
  forall o, match o with Some (Ok _) => False | _ => True end -> transition_end w o v.
Proof.
  intros Hw [x ->] Hv o Ho. unfold transition_end. split_and!; try done.
  - intros l _. unfold as_was_or_over. cbn. destruct (ls_state _ _ _) as [[b|]|]; auto.
  - exists (w_engine w).1. split; [by left|].
    assert (Hb : before (course_from (look w) []) (w_engine w).1 (on_running x (look w))).
    { split; [done|]. unfold course_from. destruct (view active (look w)) as [marker recorded] eqn:He. cbn.
      destruct (roster_lineup_id _ _ _ (ea_lineup _ Hw)). exact Hv. }
    destruct o as [[]|]; [done|by split; [|apply Hw]|by left].
Qed.

(** What the files say, the running state's left out. *)
Lemma look_state w l : ls_state (store_dir w) (lu_id l) (w_files w) = ls_state (store_dir w) (lu_id l) (sc_files (look w)).
Proof.
  apply ls_state_lookup. cbn. rewrite lookup_delete_ne; [done|]. intros Heq. symmetry in Heq. revert Heq. by apply state_path_ne.
Qed.

Lemma look_kept w : same_kept (store_dir w) (w_files w) (sc_files (look w)).
Proof. intros sha path Hk. cbn. rewrite lookup_delete_ne; [done|]. intros Heq. by apply (kept_not_running _ _ _ Hk). Qed.

Lemma course_planned v planned s v' :
  (before (course_from v planned) s v' <-> before (course_from v []) s v')
  /\ (arrived (course_from v planned) s v' <-> arrived (course_from v []) s v')
  /\ (went (course_from v planned) s v' <-> went (course_from v []) s v').
Proof. unfold course_from. by destruct (view active v). Qed.

Lemma transition_spec w w' o :
  at_ease w -> transition read f new new_sha active w = (w', o) -> transition_end w o (look w').
Proof.
  intros He Hw. destruct (synced_held _ _ (ea_held _ He)) as [Hsync Hst].
  unfold transition in Hw. rewrite gets_bind in Hw. unfold id in Hw. rewrite (ea_lineup _ He), (ea_free _ He), Hsync, (ea_topology _ He), Hst in Hw.
  cbn zeta in Hw. rewrite bind_run in Hw. destruct (running_for active (state_digest (w_engine w).1) w) as [w1 o1] eqn:Hrun.
  pose proof (running_for_landing _ _ _ _ _ Hrun) as Hland.
  destruct (running_for_view active (look w) w w1 o1 eq_refl Hrun) as ([x Hl1] & Hview & Hread).
  pose proof (Hview (landed_state w) (ea_landed _ He)) as Hview1. specialize (Hview (w_engine w).1 eq_refl).
  assert (Hv : view active (look w1) = view active (look w)) by (rewrite <-Hview, Hl1; done).
  destruct o1 as [[marker recorded]|]; [|injection Hw as <- <-; apply nothing_done; eauto].
  specialize (Hread _ eq_refl). rewrite gets_bind in Hw.
  destruct (gather _ _ _ _ _) as [[f' states]|e] eqn:Hg; [|injection Hw as <- <-; apply nothing_done; eauto].
  change (filter _ (ro_lineups new)) with others in Hg.
  assert (Hdir : store_dir w1 = sc_dir (look w)) by (change (store_dir w1) with (sc_dir (look w1)); by rewrite Hl1).
  assert (Hfiles : sc_files (look w1) = sc_files (look w)) by by rewrite Hl1.
  pose proof (look_kept w1) as Hkept. pose proof (look_state w1) as Hsame. rewrite Hdir, Hfiles in Hkept, Hsame. rewrite Hdir in Hg.
  pose proof (planned_states _ _ _ _ _ (ea_nodup _ He) Hkept Hsame (ea_texts _ He) _ Hg) as Hplan.
  destruct (gathered _ _ _ _ _ (ea_nodup _ He) Hkept Hsame _ Hg) as (_ & _ & _ & Hbase & _).
  cbn zeta in Hw. unfold try_ in Hw. rewrite bind_run in Hw. change (follows_sets f ∪ roster_sets new) with sets_of in Hw. rewrite Hbase in Hw.
  set (planned := plan f' new new_sha sets_of states) in *.
  assert (Hc : mkCourse new new_sha lineup t sets_of (move_base read f (sc_dir (look w)) (sc_files (look w)) marker new_sha) marker recorded planned
               = course_from (look w) planned) by (unfold course_from; by rewrite <-Hread).
  rewrite Hc in Hw. destruct (carry_out (course_from (look w) planned) w1) as [w2 o2] eqn:Hcarry.
  assert (Hid : lu_id (co_lineup (course_from (look w) planned)) = active).
  { unfold course_from. destruct (view active (look w)). by eapply roster_lineup_id, (ea_lineup w). }
  assert (Htopo : co_topology (course_from (look w) planned) = t) by (unfold course_from; by destruct (view active (look w))).
  assert (Hpl : co_planned (course_from (look w) planned) = planned) by (unfold course_from; by destruct (view active (look w))).
  assert (Hbefore : before (course_from (look w) planned) (w_engine w).1 (look w1)).
  { split; [by rewrite Hl1|]. rewrite Hid, Hv. unfold course_from. by destruct (view active (look w)). }
  assert (Hs1 : landed_state w1 = landed_state w).
  { unfold landed_state. rewrite Hland. apply (f_equal sc_state) in Hl1 as Hl1s. apply (f_equal sc_frozen) in Hl1. cbn in Hl1, Hl1s. by rewrite Hl1, Hl1s. }
  eapply (carry_out_spec (course_from (look w) planned)) with (v0 := look w1) (s0 := (w_engine w).1) (s1 := landed_state w) in Hcarry.
  all: rewrite ?Hid, ?Htopo, ?Hpl, ?Hdir, ?Hfiles; try first [apply He|done].
  2: by rewrite <-Hdir in Hplan.
  2: { pose proof (ea_told _ He) as Htold. clear -Htold. revert Htold. unfold told_apart, course_from. by destruct (view active (look w)). }
  2,4,5: by rewrite Hl1; apply He.
  2: by rewrite Hview1, Hv.
  clear Hview Hview1 Hv Hbefore Hid Htopo Hc. unfold course_end, in_course in Hcarry. rewrite Hpl, Hfiles in Hcarry.
  change (sc_dir (look w1)) with (store_dir w1) in Hcarry. rewrite Hdir in Hcarry.
  destruct Hcarry as ((Ed & Et & Ese & Ero & Hok) & s & Hs & Ho). rewrite Hl1 in Et, Ese, Ero.
  destruct (files_others _ _ _ _ _ (ea_nodup _ He) Hkept Hsame _ Hg _ Hok) as (Honly & Hwas & Hgone). fold planned in Hgone.
  destruct (course_planned (look w) planned s (look w2)) as (Hb & Har & Hgo).
  assert (Hend : w' = w2 /\ match o2 with
    | Some (Ok frozen) => exists n, o = Some (Ok (mkTransition n frozen))
    | Some (Err e) => o = Some (Err e) | None => o = None end) by (destruct o2 as [[]|]; injection Hw as <- <-; eauto).
  clear Hw. destruct Hend as [-> Hend]. unfold transition_end. split_and!; try done. exists s. split; [done|].
  destruct o2 as [[fr|e]|]; [destruct Hend as [n ->]|rewrite Hend..].
  - destruct Ho as (Hall & Hwent & Hfr). split_and!; [by apply Hgone|by apply Hgo|done].
  - by rewrite <-Hb.
  - destruct Ho as [|[]]; [left; by apply Hb|right]. split; [by apply Hgone|by apply Har].
Qed.

End transition.

(** ** Trying again *)

Section again.
Context `{OsKind, Serde ActiveFile, Serde SwitchIntent, Serde Running, Serde BackupHead, Serde MixerBackup, Serde MixState,
  Serde CustomizationFile, Serde PinFile, Serde MigrationPending, Serde Status, Sha256}.
Context `{!SerdeOk Running, !BackupTexts}.
Context (read : string -> result TomlError Roster) (f f2 : Follows) (new : Roster) (new_sha active : string) (lineup : Lineup) (t : TopologyInfo).

(** What is tried knows the same rosters. *)
Definition same_bases (dir : string) (fs : gmap string FileText) : Prop :=
  (forall marker, move_base read f2 dir fs marker new_sha = move_base read f dir fs marker new_sha)
  /\ sets_of f2 new = sets_of f new.

(** What the first left: its files and the engine's mixes. *)
Definition left_by (v v' : Scene) : Prop :=
  sc_dir v' = sc_dir v /\ sc_files v' = sc_files v /\ sc_running v' = sc_running v /\ sc_state v' = sc_state v.

Context (dir : string) (fs0 fs1 : gmap string FileText).
Hypothesis Honly : only_states new active dir fs0 fs1.
Hypothesis Hbases : same_bases dir fs0.

Lemma only_states_kept : same_kept dir fs1 fs0.
Proof. intros sha path Hk. apply Honly. intros l _. by eapply kept_not_state. Qed.

Lemma bases_left marker : move_base read f2 dir fs1 marker new_sha = move_base read f dir fs0 marker new_sha.
Proof. by rewrite (move_base_kept _ _ _ _ _ _ _ only_states_kept), (proj1 Hbases). Qed.

Lemma over_left l b : over read f2 new new_sha dir fs1 l b = over read f new new_sha dir fs0 l b.
Proof. unfold over. by rewrite bases_left, (proj2 Hbases). Qed.

Lemma gone_again fs l :
  as_was_or_over read f new new_sha dir fs0 fs1 l -> gone_over read f2 new new_sha dir fs1 fs l -> gone_over read f new new_sha dir fs0 fs l.
Proof.
  unfold as_was_or_over, gone_over. destruct (ls_state dir (lu_id l) fs0) as [[b|]|e]; try (by intros ->).
  intros [->| ->]; rewrite !over_left; [done|]. rewrite over_once. intros [|[]]; by left.
Qed.

Notation course1 v := (course_from read f new new_sha active lineup t v []).
Notation course2 v := (course_from read f2 new new_sha active lineup t v []).

Lemma went_again v0 v1 v2 v3 s :
  mixes_distinct t -> lu_id lineup = active -> fits t s -> sc_dir v0 = dir -> sc_files v0 = fs0 -> sc_dir v1 = dir -> sc_files v1 = fs1 ->
  left_by v1 v2 -> before (course1 v0) s v1 \/ arrived (course1 v0) s v1 -> went (course2 v2) (sc_state v2) v3 -> went (course1 v0) s v3.
Proof.
  intros Hd Hid Hf Hd0 Hf0 Hd1 Hf1 (Ed & Ef & Er & Es) Hfirst Hsecond.
  assert (Hview : view active v2 = view active v1) by (unfold view; by rewrite Ed, Er, Es).
  assert (Hco : forall v, lu_id (co_lineup (course1 v)) = active /\ co_topology (course1 v) = t /\ co_sets (course1 v) = sets_of f new
                /\ co_lineup (course1 v) = lineup /\ (co_marker (course1 v), co_recorded (course1 v)) = view active v /\ co_sha (course1 v) = new_sha)
    by (intros v; unfold course_from; by destruct (view active v)).
  destruct (Hco v0) as (Hl & Ht & Hse & Hli & Hv & Hsha).
  destruct Hfirst as [[Hs Hw]|[Hs Hw]]; rewrite Hl in Hw.
  - assert (Hc : course2 v2 = course1 v0).
    { unfold course_from. rewrite Hview, Hw, <-Hv, Hd0, Hf0, Ed, Ef, Hd1, Hf1, (proj2 Hbases). by rewrite bases_left. }
    rewrite Hc, Es, Hs in Hsecond. exact Hsecond.
  - rewrite Hsha in Hw. set (s2 := (arrive (course1 v0) s).1) in *. set (rec := (arrive (course1 v0) s).2) in *.
    assert (Hc : course2 v2 = mkCourse new new_sha lineup t (sets_of f new) None (Some new_sha) rec []).
    { unfold course_from. rewrite Hview, Hw. cbn. by rewrite decide_True, (proj2 Hbases). }
    assert (Harr : arrive (course2 v2) s2 = (s2, rec)).
    { assert (Hfs : fits t s2) by (rewrite <-Ht at 1; apply arrive_fits; by rewrite Ht).
      assert (Hfit : fit_already (sets_of f new) lineup (s2, rec)).
      { replace (s2, rec) with (arrive (course1 v0) s) by (unfold s2, rec; by destruct (arrive _ _)).
        pose proof (arrive_fit (course1 v0)) as Hx. rewrite Ht, Hse, Hli in Hx. by apply Hx. }
      rewrite Hc. by apply arrive_settled. }
    left. rewrite Es, Hs in Hsecond. unfold arrived. rewrite Hl, Hsha. fold s2 rec.
    destruct Hsecond as [[Hs3 Hv3]|[[Hs3 Hv3] _]]; rewrite Hc in Hv3; cbn in Hv3; rewrite Hid in Hv3.
    + rewrite Harr in Hs3. split; [exact Hs3|]. rewrite <-Hc, Harr in Hv3. exact Hv3.
    + by split.
Qed.

End again.

(** *** The claims *)

Section claims.
Context `{OsKind, Serde ActiveFile, Serde SwitchIntent, Serde Running, Serde BackupHead, Serde MixerBackup, Serde MixState,
  Serde CustomizationFile, Serde PinFile, Serde MigrationPending, Serde Status, Sha256}.
Context `{!SerdeOk Running, !BackupTexts}.

(** C3: A changed roster over the mixes, whatever fails and wherever the process
    ends.  Carried out, every other line-up's stored state has gone over to the
    new roster and so have the engine's mixes.  Failed, the pages are free and
    the running state is as it was.  When the process ends in it, the running
    state is as it was, or it has gone over and every stored state has before
    it.  No stored state is ever anything but what it was or what it becomes,
    and no other file changes. *)
Theorem roster_change_is_whole (read : string -> result TomlError Roster) (f : Follows) (new : Roster) (new_sha active : string)
    (lineup : Lineup) (t : TopologyInfo) (w w' : World) (o : option (result Applied Transition)) :
  at_ease read f new new_sha active lineup t w -> transition read f new new_sha active w = (w', o) ->
  transition_end read f new new_sha active lineup t w o (look w').
Proof. apply transition_spec. Qed.

(** C4: Nobody is moved twice.  The transition failed or the process ended in it,
    anywhere; a later one, from the files and the mixes it left, succeeds.  Then
    every stored state is what the first state becomes by going over once, and
    so are the engine's mixes. *)
Theorem nobody_moves_twice (read : string -> result TomlError Roster) (f f2 : Follows) (new : Roster) (new_sha active : string)
    (lineup : Lineup) (t : TopologyInfo) (w w1 w2 w3 : World) (o : option (result Applied Transition)) (tn : Transition) :
  at_ease read f new new_sha active lineup t w -> transition read f new new_sha active w = (w1, o) ->
  left_by (look w1) (look w2) -> w_landing w2 = [] -> at_ease read f2 new new_sha active lineup t w2 ->
  same_bases read f f2 new new_sha (store_dir w) (sc_files (look w)) ->
  transition read f2 new new_sha active w2 = (w3, Some (Ok tn)) ->
  (forall l, l ∈ others new active -> gone_over read f new new_sha (store_dir w) (sc_files (look w)) (sc_files (look w3)) l)
  /\ exists s, (s = (w_engine w).1 \/ s = landed_state w) /\ went (course_from read f new new_sha active lineup t (look w) []) s (look w3).
Proof.
  intros He Hw Hleft Hland He2 Hb Hw2. pose proof Hleft as (Ed & Ef & _).
  destruct (transition_spec _ _ _ _ _ _ _ _ _ _ He Hw) as (Hdir & _ & _ & _ & Honly & Hwas & s & Hs & Ho).
  destruct (transition_spec _ _ _ _ _ _ _ _ _ _ He2 Hw2) as (_ & _ & _ & _ & _ & _ & s2 & Hs2 & Hgone & Hwent & _).
  rewrite Ed, Hdir, Ef in Hgone. split.
  - intros l Hl. eapply gone_again; [exact Honly|exact Hb|by apply Hwas|by apply Hgone].
  - exists s. split; [done|].
    assert (Hfirst : before (course_from read f new new_sha active lineup t (look w) []) s (look w1)
                     \/ arrived (course_from read f new new_sha active lineup t (look w) []) s (look w1)).
    { destruct o as [[tn1|e]|]; [destruct Ho as (_ & [|[]] & _)|destruct Ho|destruct Ho as [|[]]]; auto. }
    eapply (went_again read f f2 _ _ _ _ _ _ _ _ Honly Hb (look w) (look w1) (look w2)); try done.
    + apply He.
    + eapply roster_lineup_id, He.
    + destruct Hs as [->| ->]; apply He.
    + assert (Hs2' : s2 = sc_state (look w2)) by (unfold landed_state in Hs2; rewrite Hland in Hs2; by destruct Hs2). by subst s2.
Qed.

End claims.

(** ** An example *)

#[export] Instance Pending_eq_dec : EqDecision Pending.
Proof. solve_decision. Defined.
#[export] Instance Pending_countable : Countable Pending.
Proof. refine (inj_countable' (fun p => (pd_follows p, pd_silenced p, pd_digest p)) (fun p => mkPending p.1.1 p.1.2 p.2) _). by intros []. Defined.
#[export] Instance Running_eq_dec : EqDecision Running.
Proof. solve_decision. Defined.
#[export] Instance Running_countable : Countable Running.
Proof.
  refine (inj_countable' (fun r => (rn_lineup r, rn_follows r, rn_silenced r, rn_pending r)) (fun p => mkRunning p.1.1.1 p.1.1.2 p.1.2 p.2) _).
  by intros [].
Defined.

Section example.

(** Ann and Bob swap their sets in both bands; Carl gets the third in one. *)
Definition swap_youth (m1 m2 : string) : Lineup := mkLineup "youth" "Youth band" false ["ann"] (<["m1" := m1]> {["m2" := m2]}) ∅.
Definition swap_people : list Person := [mkPerson "ann" "Ann" None; mkPerson "bob" "Bob" None; mkPerson "carl" "Carl" None].
Definition swap_from : Roster := mkRoster swap_people [swap_before; swap_youth "ann" "bob"] None.
Definition swap_to : Roster := mkRoster swap_people [swap_after; swap_youth "bob" "ann"] None.
Definition swap_follows : Follows := mkFollows [mkBase swap_from "0"] (Some (mkBase swap_from "0")).

(** Youth's stored state, before and gone over. *)
Definition swap_stored : MixerBackup := MixerBackup_new "then" 1 swap_state.
Definition swap_over : MixerBackup :=
  let '(s, silenced) := follow (Some swap_from) swap_to (follows_sets swap_follows ∪ roster_sets swap_to) (swap_youth "bob" "ann") None (swap_state, ∅) in
  put_state s silenced (Some "1") swap_stored.

#[local] Instance swap_kind : OsKind := fun _ => "other error".
#[local] Instance swap_customs : Serde CustomizationFile := {| to_json _ := ""; of_json _ := Err "" |}.
#[local] Instance swap_pins : Serde PinFile := {| to_json _ := ""; of_json _ := Err "" |}.
#[local] Instance swap_migration : Serde MigrationPending := {| to_json _ := ""; of_json _ := Err "" |}.
#[local] Instance swap_status : Serde Status := {| to_json _ := ""; of_json _ := Err "" |}.
#[local] Instance swap_running : Serde Running := {| to_json r := to_bits (countable.encode r); of_json := bits_of_json |}.
#[local] Instance swap_running_ok : SerdeOk Running.
Proof. intros r. apply bits_back. Qed.
#[local] Instance swap_heads : Serde BackupHead := {| to_json _ := ""; of_json _ := Ok (mkBackupHead BACKUP_FORMAT BACKUP_VERSION) |}.
#[local] Instance swap_backups : Serde MixerBackup :=
  {| to_json b := if mb_follows b then "over" else "stored"; of_json text := Ok (if decide (text = "over") then swap_over else swap_stored) |}.
#[local] Instance swap_texts : BackupTexts.
Proof. intros text b. unfold of_json, swap_backups, swap_heads. intros [= <-]. by destruct (decide _). Qed.
#[local] Instance swap_states : Serde MixState :=
  {| to_json s := if (default false (o_muted ∘ m_out <$> s_mixes s !! "m1")) then "m1" else "m2"; of_json _ := Err "" |}.
#[local] Instance swap_sha : Sha256 := fun s => Z.of_nat ∘ nat_of_ascii <$> String.list_ascii_of_string s.

Definition no_toml : string -> result TomlError Roster := fun _ => Err (mkTomlError "no TOML" None).

(** The process ends once the engine has taken its new mixes. *)
Definition swap_world : World :=
  mkWorld
    (mkServer (config_of [] [] false None None [] None) "/data" (Some (mkRosterState swap_from "0" "main"))
       (mkMirror None (Some swap_info) swap_state Transient_default 7 true) true false false false [] 1 SoloJanitor_default None ∅ ∅
       {["/data/lineups/youth/state.json" := Readable "stored"]} (mkLoginStats 0 0 0) [])
    None false 0 false (swap_state, Transient_default) [FsOk; FsOk; FsDies false] [] [] [] 9 "now" [] (mkPinStore (mkPinFile None ∅ ∅) "/data/secrets/pin_hashes.json") [].

Definition swap_again (w : World) : World :=
  put_scripts [] [] [] []
    (put_server
       (mkServer (sr_config (w_server w)) (sr_dir (w_server w)) (sr_roster (w_server w))
          (mkMirror None (Some swap_info) (w_engine w).1 Transient_default 8 true) true false false false [] 1 SoloJanitor_default None ∅ ∅
          (w_files w) (mkLoginStats 0 0 0) []) w).

Definition swap_run (w : World) := transition no_toml swap_follows swap_to "1" "main" w.

(** Fits what the reconciliation leaves alone. *)
Lemma reconciled_fits s : (reconcile swap_info s).1 = s -> fits swap_info s.
Proof. intros <-. apply reconcile_fits, swap_fits. Qed.

Lemma swap_ease w :
  sr_frozen (w_server w) = false -> mv_synced (w_mirror w) = true -> mv_state (w_mirror w) = (w_engine w).1 ->
  mv_topology (w_mirror w) = Some swap_info -> (reconcile swap_info (w_engine w).1).1 = (w_engine w).1 -> w_landing w = [] ->
  told_apart (course_from no_toml swap_follows swap_to "1" "main" swap_after swap_info (look w) []) (w_engine w).1 ->
  (forall l b, l ∈ others swap_to "main" -> ls_state (store_dir w) (lu_id l) (sc_files (look w)) = Ok (Some b) ->
     text_back b /\ text_back (over no_toml swap_follows swap_to "1" (store_dir w) (sc_files (look w)) l b)) ->
  at_ease no_toml swap_follows swap_to "1" "main" swap_after swap_info w.
Proof.
  intros Hfr Hs Hst Ht Hre Hl Htold Htexts. assert (Hland : landed_state w = (w_engine w).1) by (unfold landed_state; by rewrite Hl).
  split; rewrite ?Hland; try done.
  - apply (bool_decide_unpack (NoDup _)). vm_compute. done.
  - change (sc_held (look w)) with (shown (w_mirror w)). unfold shown. by rewrite Hs, Hst.
  - apply swap_fits.
  - by apply reconciled_fits.
  - by apply reconciled_fits.
Qed.

Lemma swap_youth_only l : l ∈ others swap_to "main" -> l = swap_youth "bob" "ann".
Proof. change (others swap_to "main") with [swap_youth "bob" "ann"]. by intros ?%list_elem_of_singleton. Qed.

Lemma swap_before_ease : at_ease no_toml swap_follows swap_to "1" "main" swap_after swap_info swap_world.
Proof.
  apply swap_ease; [reflexivity..| |].
  - intros Hd. vm_compute in Hd. discriminate Hd.
  - intros l b ->%swap_youth_only Hb. vm_compute in Hb. injection Hb as <-. split; vm_compute; reflexivity.
Qed.

Lemma swap_again_ease : at_ease no_toml swap_follows swap_to "1" "main" swap_after swap_info (swap_again (swap_run swap_world).1).
Proof.
  apply swap_ease; [vm_compute; reflexivity..| |].
  - intros _. vm_compute. reflexivity.
  - intros l b ->%swap_youth_only Hb. vm_compute in Hb. injection Hb as <-. split; vm_compute; reflexivity.
Qed.

Lemma swap_left w : left_by (look w) (look (swap_again w)).
Proof. by split_and!. Qed.

Lemma swap_same dir fs : same_bases no_toml swap_follows swap_follows swap_to "1" dir fs.
Proof. by split. Qed.

(** The stored state had gone over when the process ended, and the next one moves
    nobody again. *)
Lemma nobody_moves_twice_witness :
  let w1 := (swap_run swap_world).1 in
  let w3 := (swap_run (swap_again w1)).1 in
  (swap_run swap_world).2 = None
  /\ gone_over no_toml swap_follows swap_to "1" (store_dir swap_world) (sc_files (look swap_world)) (sc_files (look w3)) (swap_youth "bob" "ann")
  /\ went (course_from no_toml swap_follows swap_to "1" "main" swap_after swap_info (look swap_world) []) swap_state (look w3).
Proof.
  assert (E1 : swap_run swap_world = ((swap_run swap_world).1, (swap_run swap_world).2)) by by destruct (swap_run swap_world).
  assert (E3 : exists tn, (swap_run (swap_again (swap_run swap_world).1)).2 = Some (Ok tn)) by (eexists; vm_compute; reflexivity).
  destruct E3 as [tn E3]. intros w1 w3.
  destruct (nobody_moves_twice no_toml swap_follows swap_follows swap_to "1" "main" swap_after swap_info swap_world w1 (swap_again w1) w3
              (swap_run swap_world).2 tn swap_before_ease E1 (swap_left _) eq_refl swap_again_ease (swap_same _ _)) as [Hg (s & Hs & Hw)].
  - fold (swap_run (swap_again w1)). rewrite (surjective_pairing (swap_run (swap_again w1))). apply pair_eq. by split.
  - split_and!; [vm_compute; reflexivity| |].
    + apply Hg. change (others swap_to "main") with [swap_youth "bob" "ann"]. by apply list_elem_of_singleton.
    + assert (s = swap_state) as <- by (by destruct Hs as [-> | ->]). exact Hw.
Defined.

(** The same crash: the mixes have gone over, the record of it on its way. *)
Lemma roster_change_is_whole_witness :
  let w1 := (swap_run swap_world).1 in
  transition_end no_toml swap_follows swap_to "1" "main" swap_after swap_info swap_world None (look w1)
  /\ ls_state (store_dir w1) "youth" (w_files w1) = Ok (Some swap_over).
Proof.
  intros w1. destruct (swap_run swap_world) as [w1' o1] eqn:E1.
  assert (Ho : o1 = None) by (apply (f_equal snd) in E1; cbn in E1; rewrite <-E1; vm_compute; reflexivity). subst o1. split.
  - exact (roster_change_is_whole no_toml swap_follows swap_to "1" "main" swap_after swap_info swap_world w1' None swap_before_ease E1).
  - apply (f_equal fst) in E1. cbn in E1. unfold w1. rewrite <-E1. vm_compute. reflexivity.
Defined.

End example.
