(* ===== verification/Backup.v ===== *)
(** * Backups ([iem-server/src/backup_store.rs], [backup.rs], [backup_routes.rs])

    The backups' files with their names, what a backup of the running state
    holds, the preview of a restore and the restore itself, in the [World] of
    the server's operations; then that a save never overwrites a backup, that
    the retention deletes old ones only, and that a restore gives back what was
    captured.  The requests' extraction and the check of the engineer's token,
    which come before [restore], are left out, and so is what is only logged. *)

From S2P Require Import Prelude F64 Text MixState Msg Shape Codec Mirror Client LoginGuard Roster RosterSpec Config UiMsg SiteView View BandStore Sessions Pages Lineups LineupSpec LineupStore Switch SwitchSpec People Migrate Watch WatchSpec.
From Stdlib Require Import Ascii SpecFloat.
From stdpp Require Import options.
Local Open Scope Z_scope.
#[local] Unset Default Proof Using.

(** ** What is shown *)

(** [format!("{:.d}")], with [{:+.d}] for [plus]: the exact value rounded to
    [d] decimals, ties to even. *)
Definition rounded (n den : Z) : Z :=
  let q := n / den in
  let r := n mod den in
  if (den <? 2 * r) || ((den =? 2 * r) && Z.odd q) then q + 1 else q.

Definition fixed_digits (d : nat) (q : Z) : string :=
  let p := 10 ^ Z.of_nat d in
  match d with O => dec q | _ => dec (q / p) +:+ "." +:+ dec_pad d (q mod p) end.

Definition signed (plus s : bool) (text : string) : string := (if s then "-" else if plus then "+" else "") +:+ text.

Definition fixed (plus : bool) (d : nat) (v : f64) : string :=
  match v with
  | S754_nan => "NaN"
  | S754_infinity s => signed plus s "inf"
  | S754_zero s => signed plus s (fixed_digits d 0)
  | S754_finite s m e =>
      let n := Z.pos m * 10 ^ Z.of_nat d in
      signed plus s (fixed_digits d (if 0 <=? e then n * 2 ^ e else rounded n (2 ^ (- e))))
  end.

(** [f64::round]: ties away from zero. *)
Definition f64_round (x : f64) : f64 :=
  let t := f64_trunc x in
  if f64_leb f64_half (f64_abs (x - t)%F) then (t + (if f64_ltb x f64_0 then f64_neg f64_1 else f64_1))%F else t.

Definition f64_100 : f64 := Eval vm_compute in f64_lit 100 0.

Definition db (v : f64) : string := if f64_leb v DB_OFF then "off" else fixed false 1 v +:+ " dB".

Definition pan (p : f64) : string :=
  let pct := f64_round (f64_abs p * f64_100)%F in
  if f64_ltb pct f64_1 then "C" else if f64_ltb p f64_0 then "L" +:+ fixed false 0 pct else "R" +:+ fixed false 0 pct.

Definition level (l : Level) : string :=
  db (lv_gain_db l) +:+ " " +:+ pan (lv_pan l) +:+ (if lv_muted l then " muted" else "").

Definition on (b : bool) : string := if b then "on" else "off".

Definition eq_summary (e : Eq) : string :=
  let bands :=
    (fun b => fixed false 0 (b_freq_hz b) +:+ " Hz " +:+ fixed true 1 (b_gain_db b) +:+ " dB " +:+ fixed false 2 (b_bw_oct b) +:+ " oct")
    <$> filter (fun b => b_enabled b = true) (vec_to_list (e_bands e)) in
  if bool_decide (bands = []) then "flat" else join ", " bands.

(** ** The preview *)

Inductive RestoreCategory := RcLevel | RcGroup | RcOutput | RcEq | RcLimiter | RcInput | RcCustomization.

Record RestoreChange := mkRestoreChange { rc_category : RestoreCategory; rc_description : string; rc_current : string; rc_backup : string }.
Record SkippedEntry := mkSkippedEntry { sk_category : RestoreCategory; sk_description : string; sk_reason : string }.

Record RestorePreview := mkRestorePreview {
  rp_changes : list RestoreChange;
  rp_unchanged : nat;
  rp_skipped : list SkippedEntry;
  rp_not_in_backup : list SkippedEntry;
  rp_lineups : list string;
}.
Definition RestorePreview_default : RestorePreview := mkRestorePreview [] 0 [] [] [].

Definition put_lineups (l : list string) (p : RestorePreview) : RestorePreview :=
  mkRestorePreview (rp_changes p) (rp_unchanged p) (rp_skipped p) (rp_not_in_backup p) l.

(** What [Diff] collects. *)
Definition and_unchanged (p : RestorePreview) : RestorePreview :=
  mkRestorePreview (rp_changes p) (S (rp_unchanged p)) (rp_skipped p) (rp_not_in_backup p) (rp_lineups p).
Definition and_change (c : RestoreChange) (p : RestorePreview) : RestorePreview :=
  mkRestorePreview (rp_changes p ++ [c]) (rp_unchanged p) (rp_skipped p) (rp_not_in_backup p) (rp_lineups p).

Definition diff_value (cat : RestoreCategory) (what cur new : string) : RestorePreview -> RestorePreview :=
  if decide (cur = new) then and_unchanged else and_change (mkRestoreChange cat what cur new).
Definition diff_eq (what : string) (cur new : Eq) : RestorePreview -> RestorePreview :=
  if Eq_eqb cur new then and_unchanged else and_change (mkRestoreChange RcEq what (eq_summary cur) (eq_summary new)).
Definition diff_skip (cat : RestoreCategory) (what : string) (p : RestorePreview) : RestorePreview :=
  mkRestorePreview (rp_changes p) (rp_unchanged p) (rp_skipped p ++ [mkSkippedEntry cat what "not in the running topology"])
    (rp_not_in_backup p) (rp_lineups p).
Definition diff_keep (cat : RestoreCategory) (what : string) (p : RestorePreview) : RestorePreview :=
  mkRestorePreview (rp_changes p) (rp_unchanged p) (rp_skipped p)
    (rp_not_in_backup p ++ [mkSkippedEntry cat what "not in the backup; stays as it is"]) (rp_lineups p).

(** One after another over what a map holds. *)
Definition walk {A : Type} (f : A -> RestorePreview -> RestorePreview) (l : list A) (p : RestorePreview) : RestorePreview :=
  foldl (fun p a => f a p) p l.

Definition input_name (view : SiteView) (id : InputId) : string := match sv_input view id with Some i => iv_name i | None => id end.

(** What [new] holds and [old] has not. *)
Definition new_keys {V W : Type} (new : gmap string V) (old : gmap string W) : list string :=
  filter (fun k => old !! k = None) (btree_keys new).

Definition mix_not_in_backup (view : SiteView) (backup : MixState) (mix : MixId) (cur : Mix) (p : RestorePreview) : RestorePreview :=
  let name := sv_mix_name view mix in
  match s_mixes backup !! mix with
  | None => diff_keep RcOutput name p
  | Some old =>
      let p := walk (fun id => diff_keep RcLevel (input_name view id +:+ " → " +:+ name))
                 (filter (fun id => is_Some (s_inputs backup !! id)) (new_keys (m_inputs cur) (m_inputs old))) p in
      let p := walk (fun m => diff_keep RcLevel (sv_mix_name view m +:+ " → " +:+ name))
                 (filter (fun m => is_Some (s_mixes backup !! m)) (new_keys (m_mixes cur) (m_mixes old))) p in
      walk (fun g => diff_keep RcGroup ((if decide (sv_group view = Some g) then GROUP_NAME else g) +:+ " → " +:+ name))
        (new_keys (m_groups cur) (m_groups old)) p
  end.

Definition not_in_backup (view : SiteView) (current backup : MixState) (p : RestorePreview) : RestorePreview :=
  let p := walk (fun id => diff_keep RcInput (input_name view id)) (new_keys (s_inputs current) (s_inputs backup)) p in
  walk (fun '(mix, cur) => mix_not_in_backup view backup mix cur) (entries (s_mixes current)) p.

Definition input_diff (name : string) (cur new : InputState) (p : RestorePreview) : RestorePreview :=
  let p := diff_value RcInput (name +:+ ": trim") (db (i_trim_db cur)) (db (i_trim_db new)) p in
  let p := diff_value RcInput (name +:+ ": processing") (on (i_processing cur)) (on (i_processing new)) p in
  let p := diff_value RcInput (name +:+ ": mute") (on (i_muted cur)) (on (i_muted new)) p in
  diff_eq (name +:+ " EQ") (i_eq cur) (i_eq new) p.

Definition limiter_text (l : Limiter) : string := on (l_enabled l) +:+ " " +:+ db (l_limit_db l).
Definition strip_text (s : MixGroup) : string := db (g_gain_db s) +:+ (if g_muted s then " muted" else "").

Definition level_diff (view : SiteView) (name : string) (cur : Mix) (src : Source) (l : Level) (p : RestorePreview) : RestorePreview :=
  let src_name :=
    match src with
    | SrcInput i => iv_name <$> sv_input view i
    | SrcMix m => (fun _ => sv_mix_name view m) <$> sv_mix view m
    end in
  match src_name with
  | None => diff_skip RcLevel (Source_to_string src +:+ " → " +:+ name) p
  | Some src_name =>
      diff_value RcLevel (src_name +:+ " → " +:+ name) (level (default Level_default (Mix_level cur src))) (level l) p
  end.

Definition group_diff (view : SiteView) (name : string) (cur : Mix) (g : GroupId) (strip : MixGroup) (p : RestorePreview) : RestorePreview :=
  if decide (sv_group view = Some g) then
    let c := default MixGroup_default (m_groups cur !! g) in
    let p := diff_value RcGroup (GROUP_NAME +:+ " → " +:+ name) (strip_text c) (strip_text strip) p in
    diff_eq (GROUP_NAME +:+ " → " +:+ name +:+ " EQ") (g_eq c) (g_eq strip) p
  else diff_skip RcGroup (g +:+ " → " +:+ name) p.

Definition mix_diff (view : SiteView) (current : MixState) (mix : MixId) (new : Mix) (p : RestorePreview) : RestorePreview :=
  if decide (sv_mix view mix = None) then diff_skip RcOutput mix p
  else
    let name := sv_mix_name view mix in
    let cur := default Mix_default (s_mixes current !! mix) in
    let co := m_out cur in
    let no := m_out new in
    let p := diff_value RcOutput (name +:+ ": IEM VOL") (db (o_volume_db co)) (db (o_volume_db no)) p in
    let p := diff_value RcOutput (name +:+ ": IEM VOL mute") (on (o_muted co)) (on (o_muted no)) p in
    let p := diff_eq (name +:+ ": IEM VOL EQ") (o_eq co) (o_eq no) p in
    let p := diff_value RcLimiter (name +:+ ": limiter") (limiter_text (o_limiter co)) (limiter_text (o_limiter no)) p in
    let p := walk (fun '(i, l) => level_diff view name cur (SrcInput i) l) (entries (m_inputs new)) p in
    let p := walk (fun '(m, l) => level_diff view name cur (SrcMix m) l) (entries (m_mixes new)) p in
    walk (fun '(g, strip) => group_diff view name cur g strip) (entries (m_groups new)) p.

Definition customization_text (f : CustomizationFile) : string :=
  dec (Z.of_nat (length (cu_pinned f))) +:+ " pinned, " +:+ dec (Z.of_nat (length (cu_hidden f))) +:+ " hidden".

(** [CustomizationFile::default]. *)
Definition CustomizationFile_default : CustomizationFile := mkCustomizationFile "" 0 "" [] [].

Definition customization_diff (view : SiteView) (current : string -> option CustomizationFile) (member : string) (c : CustomizationFile)
    (p : RestorePreview) : RestorePreview :=
  match sv_member view member with
  | None => diff_skip RcCustomization member p
  | Some m =>
      let cur := default CustomizationFile_default (current member) in
      if bool_decide (cu_pinned cur = cu_pinned c) && bool_decide (cu_hidden cur = cu_hidden c) then and_unchanged p
      else and_change (mkRestoreChange RcCustomization (me_name m +:+ ": pins and hides") (customization_text cur) (customization_text c)) p
  end.

Definition preview (view : SiteView) (current : MixState) (current_customizations : string -> option CustomizationFile)
    (backup : MixerBackup) : RestorePreview :=
  let p := walk (fun '(id, new) p => match sv_input view id with
                                     | None => diff_skip RcInput id p
                                     | Some i => input_diff (iv_name i) (default InputState_default (s_inputs current !! id)) new p
                                     end) (entries (s_inputs (mb_state backup))) RestorePreview_default in
  let p := walk (fun '(mix, new) => mix_diff view current mix new) (entries (s_mixes (mb_state backup))) p in
  let p := walk (fun '(member, c) => customization_diff view current_customizations member c) (entries (mb_customizations backup)) p in
  not_in_backup view current (mb_state backup) p.

(** ** The files *)

Definition BACKUPS_DIR : string := "backups".
Definition MAX_SAME_NAME : nat := 1000.

Record BackupInfo := mkBackupInfo {
  bi_filename : string;
  bi_timestamp : string;
  bi_size_bytes : Z;
  bi_send_count : nat;
  bi_track_count : nat;
}.

(** [s.get(..n)] and [s.get(n..)]. *)
Definition get_to (n : nat) (s : string) : option string :=
  if (n <=? slen s)%nat && is_char_boundary s n then Some (str_take n s) else None.
Definition get_from (n : nat) (s : string) : option string :=
  if (n <=? slen s)%nat && is_char_boundary s n then Some (String.substring n (slen s - n) s) else None.

Fixpoint str_flat (f : ascii -> string) (s : string) : string :=
  match s with EmptyString => "" | String c s => f c +:+ str_flat f s end.

Definition timestamp_to_filename (timestamp : string) : string :=
  let ts := default timestamp (get_to 19 timestamp) in
  let stem := str_flat (fun c => if bool_decide (c = "-"%char) || bool_decide (c = ":"%char) then ""
                                 else if decide (c = "T"%char) then "_" else String c "") ts in
  let ms := r ← get_from 19 timestamp; r ← strip_prefix "." r; ms ← strip_suffix "Z" r;
            if negb (bool_decide (ms = "")) && str_forallb is_digit ms then Some ms else None in
  (match ms with Some ms => stem +:+ "_" +:+ ms | None => stem end) +:+ ".json".

Definition numbered (first : string) (n : Z) : string :=
  if n =? 1 then first else default first (strip_suffix ".json" first) +:+ "_" +:+ dec n +:+ ".json".

(** A [.json] file's stem. *)
Definition json_stem (name : string) : option string :=
  stem ← strip_suffix ".json" name; if decide (stem = "") then None else Some stem.

Definition backup_time (stem : string) : option string :=
  time ← get_to 15 stem;
  rest ← get_from 15 stem;
  if str_contains "_" time && (bool_decide (rest = "") || starts_with "_" rest) then Some time else None.

(** [create_new]: the name claimed with an empty file. *)
Definition ALREADY_EXISTS : string := "entity already exists".
Definition create_new (path : string) : Io (result FileError unit) := fun w =>
  if decide (is_Some (w_files w !! path)) then (w, Some (Err (mkFileError ALREADY_EXISTS "File exists")))
  else put_file path (Readable "") w.

Section backups.
Context `{OsKind, Serde ActiveFile, Serde SwitchIntent, Serde Running, Serde BackupHead, Serde MixerBackup, Serde MixState,
  Serde CustomizationFile, Sha256}.

Definition backups_dir : Io string := dir ← config_dir; mret (ls_path dir BACKUPS_DIR).

(** The names from the [n]-th on; [fuel] counts those left. *)
Fixpoint save_from (fuel : nat) (n : Z) (dir first json : string) : Io (result FileError string) :=
  match fuel with
  | O => mret (Err (mkFileError "other error" (dec (Z.of_nat MAX_SAME_NAME) +:+ " backups named " +:+ first +:+ " exist already")))
  | S fuel =>
      let filename := numbered first n in
      let path := ls_path dir filename in
      claimed ← create_new path;
      match claimed with
      | Err e => if decide (fe_kind e = ALREADY_EXISTS) then save_from fuel (n + 1) dir first json else mret (Err e)
      | Ok _ =>
          wrote ← atomic_write path json;
          match wrote with
          | Ok _ => mret (Ok filename)
          | Err e => _ ← remove_file path; mret (Err e)
          end
      end
  end.

Definition backup_save (b : MixerBackup) : Io (result FileError string) :=
  dir ← backups_dir;
  let? _ := look_at (fun _ => tt) in
  save_from MAX_SAME_NAME 1 dir (timestamp_to_filename (mb_timestamp b)) (to_json b).

Definition info_of (fs : gmap string FileText) (dir filename : string) : option BackupInfo :=
  _ ← json_stem filename;
  match fs !! ls_path dir filename with
  | Some (Readable text) =>
      match MixerBackup_parse text with
      | Ok b => Some (mkBackupInfo filename (mb_timestamp b) (Z.of_nat (slen text)) (level_count b) (size (s_mixes (mb_state b))))
      | Err _ => None
      end
  | _ => None
  end.

(** Newest first. *)
Definition backup_list : Io (list BackupInfo) :=
  dir ← backups_dir;
  found ← look_at (fun fs => omap (info_of fs dir) (rev (in_order (files_in dir fs))));
  mret (match found with Ok infos => infos | Err _ => [] end).

Definition backup_load (config_dir filename : string) (fs : gmap string FileText) : result string MixerBackup :=
  if str_contains "/" filename || str_contains "\" filename || str_contains ".." filename
  then Err ("invalid filename: " +:+ filename)
  else
    match fs !! ls_path (ls_path config_dir BACKUPS_DIR) filename with
    | None => Err "read error: No such file or directory (os error 2)"
    | Some (Unreadable e) => Err ("read error: " +:+ e)
    | Some (Readable text) => match MixerBackup_parse text with Ok b => Ok b | Err e => Err (BackupError_text e) end
    end.

(** Older than the cutoff. *)
Definition outdated (cutoff filename : string) : bool :=
  match json_stem filename ≫= backup_time with Some time => String.ltb time cutoff | None => false end.

Fixpoint prune_each (dir cutoff : string) (names : list string) (deleted : nat) : Io nat :=
  match names with
  | [] => mret deleted
  | name :: names =>
      if outdated cutoff name then
        r ← remove_file (ls_path dir name);
        prune_each dir cutoff names (if is_ok r then S deleted else deleted)
      else prune_each dir cutoff names deleted
  end.

Definition prune_before (cutoff : string) : Io nat :=
  dir ← backups_dir;
  names ← look_at (fun fs => in_order (files_in dir fs));
  match names with Err _ => mret 0%nat | Ok names => prune_each dir cutoff names 0%nat end.

End backups.

(** ** Capturing and restoring *)

(** An HTTP answer that refuses. *)
Record Reject := mkReject { rj_status : Z; rj_code : string; rj_message : string }.

Record RestoreResult := mkRestoreResult { re_restored : nat; re_skipped : list SkippedEntry }.

Definition SWITCHING_TEXT : string := "the band is being switched".
Definition busy : Reject := mkReject 409 "SWITCHING" SWITCHING_TEXT.
Definition unavailable : Reject := mkReject 503 "ENGINE_UNAVAILABLE" "The engine is not connected".

(** What the operation answers, and the process's end. *)
Definition or_die {A : Type} (o : option A) : Io A := fun w => (w, o).

Definition set_lineups (lineups : list (string * MixerBackup)) (b : MixerBackup) : MixerBackup :=
  mkMixerBackup (mb_format b) (mb_version b) (mb_timestamp b) (mb_rev b) (mb_state b) (mb_customizations b) (mb_lineup b) lineups
    (mb_follows b) (mb_silenced b).

Definition lineup_of_backup (b : MixerBackup) (id : string) : option MixerBackup :=
  (fun p => p.2.2) <$> list_find (fun p : string * MixerBackup => p.1 = id) (mb_lineups b).

Section restoring.
Context `{OsKind, Serde ActiveFile, Serde SwitchIntent, Serde Running, Serde BackupHead, Serde MixerBackup, Serde MixState,
  Serde CustomizationFile, Sha256}.

Definition inactive_lineups (dir : string) (fs : gmap string FileText) (active : string) (r : Roster)
    : result string (list (string * MixerBackup)) :=
  m ← foldM (fun (acc : gmap string MixerBackup) l =>
               match ls_state dir (lu_id l) fs with
               | Err e => Err ("the stored state of lineup " +:+ lu_id l +:+ " is unreadable: " +:+ fe_text e)
               | Ok None => Ok acc
               | Ok (Some b) => Ok (<[lu_id l := b]> acc)
               end) ∅ (filter (fun l => lu_id l <> active) (ro_lineups r));
  Ok (entries m).

Definition lineups_to_restore (b : MixerBackup) (active : string) (r : Roster) : list string :=
  filter (fun id => id <> active /\ is_Some (roster_lineup r id)) (mb_lineups b).*1.

(** A band's pins and hides, in the file of the band that is [lineup]. *)
Definition save_pins (lineup : option string) (member : string) (pinned hidden : list Source) : Io (result StoreError unit) :=
  s ← gets w_server;
  match bs_path (band_of s lineup) "customizations" member with
  | Err e => mret (Err e)
  | Ok path =>
      or_else (fun e => SeIo (path +:+ ": " +:+ fe_text e)) (atomic_write path (to_json (CustomizationFile_new member pinned hidden)))
  end.

Definition known_source (view : SiteView) (s : Source) : bool :=
  match s with
  | SrcInput i => bool_decide (is_Some (sv_input view i))
  | SrcMix m => bool_decide (is_Some (sv_mix view m))
  end.
Definition keep_known (view : SiteView) (l : list Source) : list Source := filter (fun s => known_source view s = true) l.

(** The pins and hides a line-up's backup holds of its people. *)
Fixpoint restore_people (view : SiteView) (lineup : Lineup) (people : list (string * CustomizationFile)) : Io (result string unit) :=
  match people with
  | [] => mret (Ok tt)
  | (person, c) :: people =>
      if negb (bool_decide (person = ENGINEER_ID)) && negb (plays lineup person) then restore_people view lineup people
      else
        let? _ := or_else (fun e => "the pins and hides of " +:+ person +:+ " in lineup " +:+ lu_id lineup +:+ " were not written: " +:+ StoreError_text e)
                    (save_pins (Some (lu_id lineup)) person (keep_known view (cu_pinned c)) (keep_known view (cu_hidden c))) in
        restore_people view lineup people
  end.

Fixpoint restore_each (view : SiteView) (r : Roster) (b : MixerBackup) (ids : list string) : Io (result string unit) :=
  match ids with
  | [] => mret (Ok tt)
  | id :: ids =>
      match lineup_of_backup b id, roster_lineup r id with
      | Some state, Some lineup =>
          let? _ := or_else (fun e => "the stored state of lineup " +:+ id +:+ " was not written: " +:+ fe_text e) (save_state id state) in
          let? _ := restore_people view lineup (entries (mb_customizations state)) in
          restore_each view r b ids
      | _, _ => restore_each view r b ids
      end
  end.

Definition restore_lineups (view : SiteView) (active : string) (r : Roster) (b : MixerBackup) : Io (result string (list string)) :=
  let ids := lineups_to_restore b active r in
  let? _ := restore_each view r b ids in mret (Ok ids).

(** [None]: a panic, for a roster without its line-up. *)
Definition live_lineup_fits (b : MixerBackup) (r : option RosterState) : option (result string unit) :=
  match r with
  | None => Some (Ok tt)
  | Some r =>
      of_ ← match mb_lineup b with Some id => Some id | None => lu_id <$> roster_main (rs_roster r) end;
      now ← lu_id <$> rs_lineup r;
      Some (if decide (of_ = now) then Ok tt
            else Err ("this backup's live state is lineup " +:+ of_ +:+ "'s and lineup " +:+ now +:+ " plays: switch to " +:+ of_ +:+ " first"))
  end.

Definition preview_of (w : World) (b : MixerBackup) : option (result Reject RestorePreview) :=
  let s := w_server w in
  fits ← live_lineup_fits b (sr_roster s);
  match fits with
  | Err e => Some (Err (mkReject 409 "LINEUP_MISMATCH" e))
  | Ok _ =>
      match site s with
      | None => Some (Err unavailable)
      | Some view =>
          let p := preview view (mv_state (w_mirror w)) (fun m => match customization (band s) m with Ok c => Some c | Err _ => None end) b in
          ids ← match sr_roster s with
                | Some r => (fun l => lineups_to_restore b (lu_id l) (rs_roster r)) <$> rs_lineup r
                | None => Some []
                end;
          Some (Ok (put_lineups ids p))
      end
  end.

(** A backup of the running state, saved. *)
Definition capture_now : Io (result string (string * MixerBackup)) :=
  w ← gets id;
  let s := w_server w in
  match site s with
  | None => mret (Err "the engine has not announced its topology")
  | Some view =>
      if negb (mv_synced (w_mirror w)) then mret (Err "the engine state is not synced")
      else if sr_frozen s then mret (Err SWITCHING_TEXT)
      else
        match backup_capture view (w_mirror w) (band s) (w_at w) with
        | Err e => mret (Err e)
        | Ok b =>
            let? b :=
              match sr_roster s with
              | None => mret (Ok b)
              | Some r =>
                  l ← or_die (rs_lineup r);
                  mret (match inactive_lineups (store_dir w) (w_files w) (lu_id l) (rs_roster r) with
                        | Err e => Err e
                        | Ok ls => Ok (set_lineups ls (Lineups.put_lineup (Some (lu_id l)) b))
                        end)
              end in
            let? name := or_else fe_text (backup_save b) in
            mret (Ok (name, b))
        end
  end.

(** What the running state is to be, and what is recorded of it. *)
Definition import_of (w : World) (b : MixerBackup) : Io (MixState * option Running) :=
  let held := mv_state (w_mirror w) in
  let import := keep_running (mb_state b) held in
  match sr_roster (w_server w) with
  | None => mret (import, None)
  | Some r =>
      l ← or_die (rs_lineup r);
      '(_, silenced) ← running_for (lu_id l) (state_digest held);
      let '(import, silenced) := fit_recorded (rs_roster r) l (import, silenced) in
      mret (import, Some (mkRunning (lu_id l) None silenced None))
  end.

(** The people's pins and hides; a failure is only logged. *)
Fixpoint restore_members (view : SiteView) (lineup : option string) (people : list (string * CustomizationFile)) : Io unit :=
  match people with
  | [] => mret tt
  | (member, c) :: people =>
      _ ← (if decide (is_Some (sv_member view member))
           then _ ← save_pins lineup member (keep_known view (cu_pinned c)) (keep_known view (cu_hidden c)); mret tt
           else mret tt);
      restore_members view lineup people
  end.

Definition restore (filename : string) : Io (result Reject RestoreResult) :=
  w ← gets id;
  let s := w_server w in
  if w_busy w || sr_frozen s || sr_settling s then mret (Err busy)
  else
    match backup_load (sr_dir s) filename (w_files w) with
    | Err e =>
        mret (Err (if starts_with "invalid filename" e then mkReject 400 "INVALID_FILENAME" e else mkReject 404 "NOT_FOUND" e))
    | Ok b =>
        let? p := or_die (preview_of w b) in
        '(import, running) ← import_of w b;
        let? _ := or_else (fun e => mkReject 502 "RESTORE_FAILED" (EngineError_text e)) (request_applied (ImportState import)) in
        _ ← match running with Some running => note_running running | None => mret tt end;
        w ← gets id;
        match site (w_server w) with
        | None => mret (Err unavailable)
        | Some view =>
            _ ← restore_members view (lu_id <$> sr_lineup (w_server w)) (entries (mb_customizations b));
            let? _ :=
              match sr_roster (w_server w) with
              | None => mret (Ok [])
              | Some r =>
                  l ← or_die (rs_lineup r);
                  or_else (fun e => mkReject 500 "RESTORE_INCOMPLETE" ("the live state was restored, but " +:+ e))
                    (restore_lineups view (lu_id l) (rs_roster r) b)
              end in
            mret (Ok (mkRestoreResult (length (rp_changes p)) (rp_skipped p)))
        end
    end.

End restoring.

(** ** A save overwrites nothing *)

Section saving.
Context `{OsKind, Serde ActiveFile, Serde SwitchIntent, Serde Running, Serde BackupHead, Serde MixerBackup, Serde MixState,
  Serde CustomizationFile, Sha256}.

(** A new file beside those there were. *)
Definition one_more (path text : string) (fs fs' : gmap string FileText) : Prop :=
  fs !! path = None /\ fs' = <[path := Readable text]> fs.

Lemma create_new_spec path w w' o :
  create_new path w = (w', o) ->
  match o with
  | Some (Ok _) => one_more path "" (w_files w) (w_files w')
  | Some (Err _) => w_files w' = w_files w
  | None => w_files w' = w_files w \/ one_more path "" (w_files w) (w_files w')
  end.
Proof.
  unfold create_new, put_file. case_decide as Hd; [by intros [= <- <-]|]. apply eq_None_not_Some in Hd.
  destruct (w_disk w) as [|[|e|[]] l]; intros [= <- <-]; auto; try (by split); try (right; by split).
Qed.

(** What [atomic_write] may leave. *)
Lemma atomic_write_spec path data w w' o :
  atomic_write path data w = (w', o) ->
  match o with
  | Some (Ok _) => w_files w' = <[path := Readable data]> (w_files w)
  | _ => w_files w' = w_files w \/ w_files w' = <[path := Readable data]> (w_files w)
  end.
Proof.
  unfold atomic_write, try_, mbind, Io_bind, write_durable, look_at. intros Hw.
  destruct (w_disk w) as [|[|e|[]] l]; cbn in Hw; [by injection Hw as <- <-| |by injection Hw as <- <-; left|by injection Hw as <- <-; right|by injection Hw as <- <-; left].
  destruct l as [|[|e|[]] l]; injection Hw as <- <-; auto; by right.
Qed.

Lemma remove_file_spec path w w' o :
  remove_file path w = (w', o) -> w_files w' = w_files w \/ w_files w' = delete path (w_files w).
Proof. unfold remove_file. intros Hw. repeat case_match; simplify_eq; auto. Qed.

(** What a save leaves: the backup under a name of its own, or nothing that
    was there before changed. *)
Definition save_end (json dir : string) (first : string) (n : Z) (fs : gmap string FileText) (o : option (result FileError string))
    (fs' : gmap string FileText) : Prop :=
  match o with
  | Some (Ok name) => (exists k, n <= k /\ name = numbered first k) /\ one_more (ls_path dir name) json fs fs'
  | _ => fs' = fs \/ exists k text, n <= k /\ (text = "" \/ text = json) /\ one_more (ls_path dir (numbered first k)) text fs fs'
  end.

Lemma save_from_spec fuel n dir first json w w' o :
  save_from fuel n dir first json w = (w', o) -> save_end json dir first n (w_files w) o (w_files w').
Proof.
  revert n w. induction fuel as [|fuel IH]; intros n w; cbn [save_from]; [intros [= <- <-]; by left|]. intros Hw.
  rewrite bind_run in Hw. destruct (create_new _ w) as [w1 [[[]|e]|]] eqn:Hc; apply create_new_spec in Hc.
  - destruct Hc as [Hn Hf]. rewrite bind_run in Hw. set (path := ls_path dir (numbered first n)) in *.
    assert (Hwr : forall text fs2, (fs2 = w_files w1 \/ fs2 = <[path := Readable json]> (w_files w1)) -> text = "" ->
      exists t, (t = "" \/ t = json) /\ fs2 = <[path := Readable t]> (w_files w)).
    { intros text fs2 [->| ->] _; rewrite Hf; [by exists ""; auto|]. exists json. rewrite insert_insert_eq. auto. }
    destruct (atomic_write path json w1) as [w2 o2] eqn:Ha. apply atomic_write_spec in Ha.
    destruct o2 as [[[]|e]|].
    + injection Hw as <- <-. split; [by exists n|]. split; [done|]. by rewrite Ha, Hf, insert_insert_eq.
    + rewrite bind_run in Hw. destruct (Hwr "" _ Ha eq_refl) as (t & Ht & Hf2).
      destruct (remove_file path w2) as [w3 o3] eqn:Hr. apply remove_file_spec in Hr.
      assert (Hend : w_files w3 = w_files w \/ exists k text, n <= k /\ (text = "" \/ text = json) /\ one_more (ls_path dir (numbered first k)) text (w_files w) (w_files w3)).
      { destruct Hr as [->| ->]; rewrite Hf2; [right; exists n, t; by split_and!|left]. by rewrite delete_insert_id. }
      destruct o3; injection Hw as <- <-; exact Hend.
    + injection Hw as <- <-. destruct (Hwr "" _ Ha eq_refl) as (t & Ht & Hf2). right. exists n, t. by split_and!.
  - rewrite <-Hc. case_decide; [|injection Hw as <- <-; by left]. apply IH in Hw. unfold save_end in *.
    destruct o as [[name|]|]; [destruct Hw as [(k & Hk & ->) Ho]; split; [exists k; split; [lia|done]|done]| |];
      (destruct Hw as [|(k & t & Hk & Ht)]; [by left|right; exists k, t; split; [lia|done]]).
  - injection Hw as <- <-. destruct Hc as [|Hc]; [by left|right]. exists n, "". split_and!; [lia|by left|done].
Qed.

End saving.

(** ** The retention *)

Section pruning.

(** Only outdated backups are deleted. *)
Definition pruned_from (dir cutoff : string) (names : list string) (fs fs' : gmap string FileText) : Prop :=
  forall path, fs' !! path = fs !! path
    \/ fs' !! path = None /\ exists name, name ∈ names /\ path = ls_path dir name /\ outdated cutoff name = true.

Lemma prune_each_spec dir cutoff names deleted w w' o :
  prune_each dir cutoff names deleted w = (w', o) ->
  pruned_from dir cutoff names (w_files w) (w_files w')
  /\ (w_disk w = [] -> w_disk w' = [] /\ is_Some o /\ forall name, name ∈ names -> outdated cutoff name = true -> w_files w' !! ls_path dir name = None).
Proof.
  revert deleted w. induction names as [|name names IH]; intros deleted w; cbn [prune_each].
  { intros [= <- <-]. split; [by left|]. intros Hd. split_and!; [done..|]. by intros name ?%elem_of_nil. }
  assert (Hmore : forall fs fs', pruned_from dir cutoff names fs fs' -> pruned_from dir cutoff (name :: names) fs fs').
  { intros fs fs' Hp path. destruct (Hp path) as [|(Hn & x & Hx & Hxx)]; [by left|right]. split; [done|]. exists x. split; [by right|done]. }
  destruct (outdated cutoff name) eqn:Ho; intros Hw.
  - rewrite bind_run in Hw. destruct (remove_file (ls_path dir name) w) as [w1 o1] eqn:Hr. pose proof (remove_file_spec _ _ _ _ Hr) as Hf.
    assert (Hone : pruned_from dir cutoff [name] (w_files w) (w_files w1)).
    { intros path. destruct Hf as [->| ->]; [by left|]. destruct (decide (path = ls_path dir name)) as [->|Hne].
      - right. rewrite lookup_delete_eq. split; [done|]. exists name. split; [by left|done].
      - left. by rewrite lookup_delete_ne. }
    assert (Hall : forall fs', pruned_from dir cutoff names (w_files w1) fs' -> pruned_from dir cutoff (name :: names) (w_files w) fs').
    { intros fs' Hp path. destruct (Hmore _ _ Hp path) as [Heq|]; [|by right]. destruct (Hone path) as [He|(Hn & x & Hx & Hxx)].
      - left. congruence.
      - right. rewrite Heq. split; [done|]. exists x. split; [|done]. apply list_elem_of_singleton in Hx as ->. by left. }
    destruct o1 as [r1|].
    + apply IH in Hw as [Hp Hq]. split; [by apply Hall|]. intros Hd.
      unfold remove_file in Hr. rewrite Hd in Hr. injection Hr as <- <-. destruct (Hq eq_refl) as (Hd' & Hsome & Hgone).
      split_and!; [done..|]. intros x [->|Hx]%elem_of_cons Hox; [|by apply Hgone].
      destruct (Hp (ls_path dir name)) as [->|[-> _]]; [|done]. apply lookup_delete_eq.
    + injection Hw as <- <-. split; [apply Hall; by left|]. intros Hd. unfold remove_file in Hr. rewrite Hd in Hr. by injection Hr.
  - apply IH in Hw as [Hp Hq]. split; [by apply Hmore|]. intros Hd. destruct (Hq Hd) as (? & ? & Hgone). split_and!; [done..|].
    intros x [->|Hx]%elem_of_cons Hox; [congruence|by apply Hgone].
Qed.

Lemma look_at_files {A : Type} (f : gmap string FileText -> A) w w' o : look_at f w = (w', o) -> w_files w' = w_files w.
Proof. unfold look_at. intros Hw. repeat case_match; by simplify_eq. Qed.

Lemma prune_before_spec cutoff w w' o :
  prune_before cutoff w = (w', o) ->
  exists names, pruned_from (ls_path (sr_dir (w_server w)) BACKUPS_DIR) cutoff names (w_files w) (w_files w').
Proof.
  intros Hw. set (dir := ls_path (sr_dir (w_server w)) BACKUPS_DIR).
  change ((names ← look_at (fun fs => in_order (files_in dir fs));
           match names with Err _ => mret 0%nat | Ok names => prune_each dir cutoff names 0%nat end) w = (w', o)) in Hw.
  rewrite bind_run in Hw. destruct (look_at _ w) as [w1 o1] eqn:Hl. apply look_at_files in Hl. rewrite <-Hl.
  destruct o1 as [[names|e]|]; [apply prune_each_spec in Hw as [Hp _]; eexists; exact Hp|injection Hw as <- <-; exists []; by left..].
Qed.

End pruning.

(** ** A restore gives back what was captured *)

(** *** The state *)

Lemma union_same {V : Type} (a b : gmap string V) : (forall k, is_Some (a !! k) <-> is_Some (b !! k)) -> a ∪ b = a.
Proof.
  intros Hk. apply map_eq. intros k. rewrite lookup_union. specialize (Hk k). destruct (a !! k) as [x|], (b !! k) as [y|]; try done.
  exfalso. destruct Hk as [_ Hk]. by destruct Hk as [? ?]; [eexists|].
Qed.

Lemma keep_mix_same t node a b : mix_fits t node a -> mix_fits t node b -> keep_mix a b = a.
Proof.
  intros (_ & Ai & Am & Ag & _) (_ & Bi & Bm & Bg & _). destruct a as [o i g m]. unfold keep_mix. cbn in *. f_equal; apply union_same; intros k.
  - by rewrite Ai, Bi.
  - by rewrite Ag, Bg.
  - by rewrite Am, Bm.
Qed.

(** Of one topology, the backup lacks nothing. *)
Lemma keep_running_same t a b : fits t a -> fits t b -> keep_running a b = a.
Proof.
  intros (Ai & _ & Am & Af) (Bi & _ & Bm & Bf). destruct a as [ai am], b as [bi bm]. unfold keep_running. cbn in *. f_equal.
  - apply union_same. intros k. by rewrite Ai, Bi.
  - apply map_eq. intros k. rewrite lookup_union_with. destruct (am !! k) as [x|] eqn:Ha, (bm !! k) as [y|] eqn:Hb; cbn; try done.
    + assert (Hn : k ∈ mi_id <$> ti_mixes t) by (apply Am; by eexists). apply list_elem_of_fmap in Hn as (node & -> & Hn).
      by rewrite (keep_mix_same t node x y (Af node x Hn Ha) (Bf node y Hn Hb)).
    + exfalso. assert (Hn : k ∈ mi_id <$> ti_mixes t) by (apply Bm; by eexists). apply Am in Hn as [? ?]. congruence.
Qed.

(** *** Paths *)

Lemma slash_first a b x y : lacks "/"%char a -> lacks "/"%char b -> a +:+ String "/" x = b +:+ String "/" y -> a = b /\ x = y.
Proof.
  revert b. unfold lacks. induction a as [|c a IH]; intros [|c' b] Ha Hb Heq; cbn in Ha, Hb.
  - by injection Heq.
  - injection Heq as <- _. by rewrite bool_decide_true in Hb.
  - injection Heq as -> _. by rewrite bool_decide_true in Ha.
  - injection Heq as <- Heq. apply andb_true_iff in Ha as [_ Ha], Hb as [_ Hb]. destruct (IH b Ha Hb Heq) as [-> ->]. done.
Qed.

Definition lineup_ok (lineup : option string) : Prop := match lineup with Some id => valid_lineup_id id = true | None => True end.

(** A band's pins are no line-up's state and not the running state's file. *)
Lemma pins_path_beside s lineup member path :
  lineup_ok lineup -> bs_path (band_of s lineup) "customizations" member = Ok path ->
  path <> running_path (ls_path (sr_dir s) LINEUPS_DIR)
  /\ forall id, valid_lineup_id id = true -> path <> state_path (ls_path (sr_dir s) LINEUPS_DIR) id.
Proof.
  intros Hok. unfold bs_path. destruct (validate_member_id member); [|done]. cbn [band_of bs_dir]. intros [= <-].
  destruct lineup as [id|]; cbn [band_dir lineup_ok] in *.
  - split.
    + unfold running_path, ls_path. rewrite !str_app_assoc. intros Heq%(inj (String.app _)). injection Heq as Heq.
      change (id +:+ ("/customizations/" +:+ member +:+ ".json") = RUNNING_NAME) in Heq.
      assert (Hl : lacks "/"%char RUNNING_NAME) by by vm_compute. rewrite <-Heq in Hl. by apply lacks_suffix in Hl.
    + intros id' Hok'. unfold state_path, data_dir, ls_path. rewrite !str_app_assoc. intros Heq%(inj (String.app _)). injection Heq as Heq.
      change (id +:+ String "/" ("customizations/" +:+ member +:+ ".json") = id' +:+ String "/" "state.json") in Heq.
      apply slash_first in Heq as [_ Heq]; [discriminate Heq|by apply lineup_id_lacks..].
  - split; [|intros id' _]; unfold state_path, data_dir, running_path, ls_path; rewrite !str_app_assoc;
      intros Heq%(inj (String.app _)); discriminate Heq.
Qed.

(** *** What else a restore writes *)

Section sidelong.
Context `{OsKind, Serde ActiveFile, Serde SwitchIntent, Serde Running, Serde BackupHead, Serde MixerBackup, Serde MixState,
  Serde CustomizationFile, Sha256}.

(** The engine's mixes, the roster and the topology are as they were. *)
Definition beside_state (v v' : Scene) : Prop :=
  sc_dir v' = sc_dir v /\ sc_state v' = sc_state v /\ sc_topology v' = sc_topology v /\ sc_roster v' = sc_roster v.

(** And so are the stored states. *)
Definition sidelong (v v' : Scene) : Prop :=
  beside_state v v' /\ forall id, valid_lineup_id id = true -> stored_of id v' = stored_of id v.

Lemma sidelong_self v : sidelong v v.
Proof. by split_and!. Qed.
Lemma sidelong_trans v1 v2 v3 : sidelong v1 v2 -> sidelong v2 v3 -> sidelong v1 v3.
Proof.
  intros [(?&?&?&?) Hs] [(?&?&?&?) Hs2]. split; [split_and!; congruence|]. intros id Hid. by rewrite Hs2, Hs.
Qed.
Lemma sidelong_running x v : sidelong v (on_running x v).
Proof. by split_and!. Qed.
Lemma sidelong_held h v : sidelong v (on_held h v).
Proof. by split_and!. Qed.

(** A program that goes on from a scene. *)
Definition aside {A : Type} (m : Io A) : Prop := forall v, spec (eq v) m (fun _ v' => sidelong v v').

Lemma aside_bind {A B : Type} (m : Io A) (k : A -> Io B) : aside m -> (forall a, aside (k a)) -> aside (m ≫= k).
Proof.
  intros Hm Hk v. eapply (scene_bind _ _ _ (fun _ v' => sidelong v v')); [apply Hm| |done].
  intros a w w' o Hv Hw. eapply sidelong_trans; [exact Hv|]. by eapply (Hk a (look w) w).
Qed.
Lemma aside_ret {A : Type} (a : A) : aside (mret a).
Proof. intros v. apply scene_ret. intros v' <-. apply sidelong_self. Qed.

Lemma save_pins_aside lineup member pinned hidden : lineup_ok lineup -> aside (save_pins lineup member pinned hidden).
Proof.
  intros Hok v w w' o -> Hw. unfold save_pins in Hw. rewrite gets_bind in Hw.
  destruct (bs_path _ _ _) as [path|e] eqn:Hp; [|injection Hw as <- <-; apply sidelong_self].
  destruct (pins_path_beside _ _ _ _ Hok Hp) as [Hr Hs]. unfold or_else in Hw. rewrite bind_run in Hw.
  destruct (atomic_write path _ w) as [w1 o1] eqn:Ha.
  assert (Hl : look w' = look w1) by (by destruct o1; injection Hw as <- <-). rewrite Hl. clear Hw Hl.
  unfold atomic_write, try_ in Ha. rewrite bind_run in Ha. destruct (write_durable path _ w) as [w2 o2] eqn:Hd.
  apply write_durable_did in Hd; [|done].
  assert (Hl : look w1 = look w2).
  { destruct o2 as [[]|]; [|by injection Ha as <- <-..]. unfold look_at in Ha. repeat case_match; by simplify_eq. }
  rewrite Hl. assert (Hin : sidelong (look w) (on_files (<[path := Readable (to_json (CustomizationFile_new member pinned hidden))]>) (look w))).
  { split; [done|]. intros id Hid. apply ls_state_lookup. cbn. rewrite lookup_insert_ne; [done|]. by apply Hs. }
  destruct o2 as [[]|]; cbn in Hd; [by rewrite Hd|rewrite Hd; apply sidelong_self|]. destruct Hd as [->| ->]; [apply sidelong_self|done].
Qed.

Lemma or_else_aside {E E' A : Type} (f : E -> E') (m : Io (result E A)) : aside m -> aside (or_else f m).
Proof. intros Hm. apply aside_bind; [done|]. intros a. apply aside_ret. Qed.

Lemma restore_members_aside view lineup people : lineup_ok lineup -> aside (restore_members view lineup people).
Proof.
  intros Hok. induction people as [|[member c] people IH]; cbn [restore_members]; [apply aside_ret|].
  apply aside_bind; [|done]. case_decide; [|apply aside_ret]. apply aside_bind; [by apply save_pins_aside|]. intros a. apply aside_ret.
Qed.

Lemma restore_people_aside view lineup people : valid_lineup_id (lu_id lineup) = true -> aside (restore_people view lineup people).
Proof.
  intros Hok. induction people as [|[person c] people IH]; cbn [restore_people]; [apply aside_ret|].
  destruct (_ && _); [done|]. apply aside_bind; [by apply or_else_aside, save_pins_aside|]. intros [[]|e]; [done|apply aside_ret].
Qed.

(** *** The line-ups' states *)

Context `{!BackupTexts}.

(** Each one restored is as in the backup, the others as they were. *)
Definition restored (b : MixerBackup) (r : Roster) (ids : list string) (v v' : Scene) : Prop :=
  forall id, valid_lineup_id id = true ->
    match lineup_of_backup b id with
    | Some st => id ∈ ids -> is_Some (roster_lineup r id) -> stored_of id v' = Ok (Some st)
    | None => stored_of id v' = stored_of id v
    end /\ (id ∉ ids -> stored_of id v' = stored_of id v).

Lemma restore_each_spec view r b ids v :
  (forall id l, roster_lineup r id = Some l -> valid_lineup_id id = true) ->
  (forall id st, lineup_of_backup b id = Some st -> text_back st /\ well_headed st) ->
  spec (eq v) (restore_each view r b ids)
    (fun o v' => beside_state v v' /\ (o = Some (Ok tt) -> restored b r ids v v')).
Proof.
  intros Hids Hback. revert v. induction ids as [|id ids IH]; intros v; cbn [restore_each].
  { apply scene_ret. intros v' <-. split; [done|]. intros _ id Hid. split; [|done]. destruct (lineup_of_backup b id); [|done].
    intros Hin. by apply elem_of_nil in Hin. }
  assert (Hskip : (lineup_of_backup b id = None \/ roster_lineup r id = None) ->
    spec (eq v) (restore_each view r b ids) (fun o v' => beside_state v v' /\ (o = Some (Ok tt) -> restored b r (id :: ids) v v'))).
  { intros Hno. eapply scene_conseq; [apply IH|done|]. cbn. intros o v' [Hb Ho]. split; [done|]. intros ->. intros id' Hid'.
    destruct (Ho eq_refl id' Hid') as [H1' H2']. split; [|intros Hn; apply H2'; intros Hx; apply Hn; by right].
    destruct (lineup_of_backup b id') as [st|] eqn:Hl'; [|done]. intros [->|Hx]%elem_of_cons Hr; [|by apply H1'].
    destruct Hno as [Hno|Hno]; [congruence|]. rewrite Hno in Hr. by destruct Hr. }
  destruct (lineup_of_backup b id) as [st|] eqn:Hst; [|by apply Hskip; left].
  destruct (roster_lineup r id) as [l|] eqn:Hr; [|by apply Hskip; right].
  destruct (Hback _ _ Hst) as [Htb Hwh]. pose proof (Hids _ _ Hr) as Hv. clear Hskip.
  pose proof (roster_lineup_id _ _ _ Hr) as Hlid.
  set (vw := on_files (write_state (sc_dir v) id st) v).
  assert (Hvw : stored_of id vw = Ok (Some st)) by (by apply state_written).
  assert (Hother : forall id', valid_lineup_id id' = true -> id' <> id -> stored_of id' vw = stored_of id' v) by (intros id' _ Hne; by apply state_other).
  eapply spec_try_writes; [apply save_state_writes| | | |]; [|done..].
  eapply (spec_try _ _ _ (fun _ v' => sidelong vw v')).
  - apply restore_people_aside. by rewrite Hlid.
  - intros [] w w' o [Hbe Hsto] Hw. apply (IH _ w w' o eq_refl) in Hw as [Hbe2 Ho].
    assert (Hbb : beside_state v (look w')) by (destruct Hbe as (?&?&?&?), Hbe2 as (?&?&?&?); split_and!; etrans; eauto).
    split; [exact Hbb|]. intros ->. intros id' Hid'. destruct (Ho eq_refl id' Hid') as [H1' H2']. rewrite Hsto in H1', H2' by done.
    destruct (decide (id' = id)) as [->|Hne].
    + rewrite Hst in H1' |- *. split; [|intros Hn; exfalso; apply Hn; by left]. intros _ Hsome.
      destruct (decide (id ∈ ids)); [by apply H1'|]. by rewrite H2'.
    + rewrite Hother in H1', H2' by done. split; [|intros Hn; apply H2'; intros Hx; apply Hn; by right].
      destruct (lineup_of_backup b id') as [st'|]; [|done]. intros [->|Hx]%elem_of_cons Hsome; [done|by apply H1'].
  - intros e v' [Hbe _]. split; [exact Hbe|done].
  - intros v' [Hbe _]. split; [exact Hbe|done].
Qed.

(** *** What a capture holds *)

Lemma entries_find (m : gmap string MixerBackup) id :
  (fun p => p.2.2) <$> list_find (fun p : string * MixerBackup => p.1 = id) (entries m) = m !! id.
Proof.
  destruct (list_find _ (entries m)) as [[i [k x]]|] eqn:Hf; cbn.
  - apply list_find_Some in Hf as (Hi & Hk & _). cbn in Hk. subst k. symmetry. by apply elem_of_entries, list_elem_of_lookup; exists i.
  - apply list_find_None in Hf. rewrite Forall_forall in Hf. destruct (m !! id) as [x|] eqn:Hx; [|done].
    apply elem_of_entries in Hx. by destruct (Hf _ Hx).
Qed.

Lemma inactive_fold dir fs ls (acc m : gmap string MixerBackup) :
  foldM (fun (acc : gmap string MixerBackup) l =>
           match ls_state dir (lu_id l) fs with
           | Err e => Err ("the stored state of lineup " +:+ lu_id l +:+ " is unreadable: " +:+ fe_text e)
           | Ok None => Ok acc
           | Ok (Some b) => Ok (<[lu_id l := b]> acc)
           end) acc ls = Ok m ->
  (forall id st, acc !! id = Some st -> ls_state dir id fs = Ok (Some st)) ->
  forall id st, (m !! id = Some st -> ls_state dir id fs = Ok (Some st) /\ (is_Some (acc !! id) \/ id ∈ lu_id <$> ls))
    /\ (ls_state dir id fs = Ok (Some st) -> id ∈ lu_id <$> ls \/ is_Some (acc !! id) -> m !! id = Some st).
Proof.
  revert acc. induction ls as [|l ls IH]; intros acc; cbn.
  { intros [= <-] Hacc id st. split; [intros Hm; split; [by apply Hacc|left; by eexists]|].
    intros Hs [Hin|[st' Hst]]; [by apply elem_of_nil in Hin|]. pose proof (Hacc _ _ Hst). congruence. }
  destruct (ls_state dir (lu_id l) fs) as [[b|]|e] eqn:Hl; [| |done]; intros Hf Hacc id st.
  - assert (Hacc2 : forall id st, <[lu_id l := b]> acc !! id = Some st -> ls_state dir id fs = Ok (Some st)).
    { intros id' st' [[<- <-]|[_ Hx]]%lookup_insert_Some; [done|by apply Hacc]. }
    destruct (IH _ Hf Hacc2 id st) as [H1' H2']. split.
    + intros Hm. destruct (H1' Hm) as [Hs [Ha|Hin]]; (split; [done|]); [|right; by right].
      destruct (decide (id = lu_id l)) as [->|Hne]; [right; by left|]. rewrite lookup_insert_ne in Ha by done. by left.
    + intros Hs [[->|Hin]%elem_of_cons|Ha]; apply H2'; try done; [right; rewrite lookup_insert_eq; by eexists|by left|].
      right. destruct (decide (id = lu_id l)) as [->|Hne]; [rewrite lookup_insert_eq; by eexists|by rewrite lookup_insert_ne].
  - destruct (IH _ Hf Hacc id st) as [H1' H2']. split.
    + intros Hm. destruct (H1' Hm) as [Hs [Ha|Hin]]; (split; [done|]); [by left|right; by right].
    + intros Hs [[->|Hin]%elem_of_cons|Ha]; [congruence|by apply H2'; [|left]|by apply H2'; [|right]].
Qed.

Lemma backup_capture_parts view mv store now b :
  backup_capture view mv store now = Ok b -> mb_state b = mv_state mv /\ well_headed b.
Proof. unfold backup_capture. destruct (foldM _ _ _); cbn; [|done]. by intros [= <-]. Qed.

(** What a capture of [l]'s band holds, and where it is. *)
Definition captured_by (w w1 : World) (rs : RosterState) (l : Lineup) (name : string) (b : MixerBackup) : Prop :=
  mb_state b = mv_state (w_mirror w) /\ mb_lineup b = Some (lu_id l) /\ well_headed b
  /\ (forall id st, lineup_of_backup b id = Some st
        <-> ls_state (store_dir w) id (w_files w) = Ok (Some st)
            /\ exists l', l' ∈ ro_lineups (rs_roster rs) /\ lu_id l' = id /\ id <> lu_id l)
  /\ one_more (ls_path (ls_path (sr_dir (w_server w)) BACKUPS_DIR) name) (to_json b) (w_files w) (w_files w1).

Lemma backup_save_spec b w w' o :
  backup_save b w = (w', o) ->
  save_end (to_json b) (ls_path (sr_dir (w_server w)) BACKUPS_DIR) (timestamp_to_filename (mb_timestamp b)) 1 (w_files w) o (w_files w').
Proof.
  intros Hw. set (dir := ls_path (sr_dir (w_server w)) BACKUPS_DIR).
  change ((let? _ := look_at (fun _ => tt) in save_from MAX_SAME_NAME 1 dir (timestamp_to_filename (mb_timestamp b)) (to_json b)) w = (w', o)) in Hw.
  unfold try_ in Hw. rewrite bind_run in Hw. destruct (look_at _ w) as [w1 o1] eqn:Hl. apply look_at_files in Hl. rewrite <-Hl.
  destruct o1 as [[[]|e]|]; [by apply save_from_spec in Hw|injection Hw as <- <-; by left..].
Qed.

Lemma capture_spec w w1 name b rs l :
  sr_roster (w_server w) = Some rs -> rs_lineup rs = Some l -> capture_now w = (w1, Some (Ok (name, b))) -> captured_by w w1 rs l name b.
Proof.
  intros Hrs Hl Hw. unfold capture_now in Hw. rewrite gets_bind in Hw. unfold id in Hw. cbn zeta in Hw.
  destruct (site (w_server w)) as [view|]; [|done]. destruct (mv_synced (w_mirror w)); cbn [negb] in Hw; [|done].
  destruct (sr_frozen (w_server w)); [done|]. destruct (backup_capture _ _ _ _) as [b0|] eqn:Hb; [|done].
  rewrite Hrs in Hw. unfold try_ in Hw. rewrite !bind_run in Hw. unfold or_die in Hw. rewrite Hl in Hw.
  destruct (inactive_lineups _ _ _ _) as [ls|] eqn:Hls; [|done]. unfold mret at 1, Io_ret at 1 in Hw. rewrite bind_run in Hw.
  apply backup_capture_parts in Hb as [Hst Hwh]. set (b1 := set_lineups ls (Lineups.put_lineup (Some (lu_id l)) b0)) in *.
  unfold or_else in Hw. rewrite bind_run in Hw. destruct (backup_save b1 w) as [w2 o2] eqn:Hs. apply backup_save_spec in Hs.
  destruct o2 as [[n|]|]; [|done..]. injection Hw as <- <- <-. destruct Hs as [_ Hs].
  split_and!; [done..| |exact Hs]. intros id st. unfold inactive_lineups in Hls.
  destruct (foldM _ ∅ _) as [m|] eqn:Hm in Hls; [|done]. injection Hls as <-. unfold lineup_of_backup. cbn [b1 set_lineups mb_lineups]. rewrite entries_find.
  destruct (inactive_fold _ _ _ _ _ Hm ltac:(intros ? ?; by rewrite lookup_empty) id st) as [H1' H2']. split.
  - intros Hx. destruct (H1' Hx) as [Hy [[? Ha]|Hin]]; [by rewrite lookup_empty in Ha|]. split; [done|].
    apply list_elem_of_fmap in Hin as (l' & -> & [Hne Hin]%list_elem_of_filter). by exists l'.
  - intros [Hx (l' & Hin & <- & Hne)]. apply H2'; [done|]. left. apply list_elem_of_fmap_2. by apply list_elem_of_filter.
Qed.

(** *** The restore *)

(** [l]'s band plays, and the mirror holds what the engine does. *)
Record at_hand (rs : RosterState) (l : Lineup) (t : TopologyInfo) (w : World) : Prop := {
  ah_roster : sr_roster (w_server w) = Some rs;
  ah_lineup : rs_lineup rs = Some l;
  ah_ids : forall l', l' ∈ ro_lineups (rs_roster rs) -> valid_lineup_id (lu_id l') = true;
  ah_topology : mv_topology (w_mirror w) = Some t;
  ah_distinct : mixes_distinct t;
  ah_fits : fits t (w_engine w).1;
  ah_held : sc_held (look w) = Some (w_engine w).1;
}.

(** What the engine is to play, of a backup of [l]'s band. *)
Definition given_back (rs : RosterState) (l : Lineup) (v : Scene) (s : MixState) : MixState :=
  (fit_recorded (rs_roster rs) l (s, (view (lu_id l) v).2)).1.

Lemma roster_lineup_in r id l : roster_lineup r id = Some l -> l ∈ ro_lineups r.
Proof.
  unfold roster_lineup, Roster.find. destruct (list_find _ _) as [[i x]|] eqn:Hl; [|done]. cbn. intros [= <-].
  apply list_find_Some in Hl as (Hl & _). by eapply list_elem_of_lookup_2.
Qed.

Lemma roster_main_in r l : roster_main r = Some l -> l ∈ ro_lineups r.
Proof.
  unfold roster_main, Roster.find. destruct (list_find _ _) as [[i x]|] eqn:Hl; [|done]. cbn. intros [= <-].
  apply list_find_Some in Hl as (Hl & _). by eapply list_elem_of_lookup_2.
Qed.

Lemma rs_lineup_in rs l : rs_lineup rs = Some l -> l ∈ ro_lineups (rs_roster rs).
Proof.
  unfold rs_lineup. destruct (roster_lineup _ _) as [l'|] eqn:Hl; [intros [= <-]; by eapply roster_lineup_in|]. by apply roster_main_in.
Qed.

Lemma import_of_spec rs l t w0 b v :
  at_hand rs l t w0 -> look w0 = v -> fits t (mb_state b) ->
  spec (eq v) (import_of w0 b)
    (fun o v' => (exists x, v' = on_running x v)
                 /\ forall i r, o = Some (i, r) -> i = given_back rs l v (mb_state b) /\ is_Some r).
Proof.
  intros Hh <- Hb. destruct (synced_held _ _ (ah_held _ _ _ _ Hh)) as [Hs Hst]. unfold import_of.
  rewrite (ah_roster _ _ _ _ Hh), (ah_lineup _ _ _ _ Hh), Hst, (keep_running_same t) by (done || apply Hh).
  intros w w' o Hv Hw. unfold or_die in Hw. rewrite bind_run in Hw. cbn beta iota zeta in Hw. rewrite bind_run in Hw.
  destruct (running_for _ _ w) as [w1 o1] eqn:Hr. apply (running_for_spec _ _ (look w0) _ _ _ Hv) in Hr as [Hx Ha].
  destruct o1 as [[m sil]|]; [|by injection Hw as <- <-]. specialize (Ha _ eq_refl).
  destruct (fit_recorded _ _ _) as [i sil2] eqn:Hf. injection Hw as <- <-. split; [done|]. intros ? ? [= <- <-]. split; [|by eexists].
  unfold given_back, view. change (sc_state (look w0)) with (w_engine w0).1. rewrite <-Ha. cbn [snd]. by rewrite Hf.
Qed.

(** How a restore of [b] ends, from [w]. *)
Definition restore_end (rs : RosterState) (l : Lineup) (b : MixerBackup) (w : World) (o : option (result Reject RestoreResult)) (v : Scene) : Prop :=
  let back := given_back rs l (look w) (mb_state b) in
  match o with
  | Some (Ok _) => sc_state v = back /\ restored b (rs_roster rs) (lineups_to_restore b (lu_id l) (rs_roster rs)) (look w) v
  | Some (Err e) => 409 <= rj_status e /\ (rj_status e < 500 -> v = look w) /\ (rj_status e = 500 -> sc_state v = back)
  | None => sc_state v = back \/ sc_state v = (w_engine w).1
  end.

Lemma or_else_run {E E' A : Type} (f : E -> E') (m : Io (result E A)) w :
  or_else f m w = match m w with (w1, Some r) => (w1, Some (map_err f r)) | (w1, None) => (w1, None) end.
Proof. done. Qed.

Lemma preview_of_refuses w b e : preview_of w b = Some (Err e) -> rj_status e = 409 \/ rj_status e = 503.
Proof.
  unfold preview_of. intros Hp. apply bind_Some in Hp as (f & _ & Hp). destruct f; [|injection Hp as <-; by left].
  destruct (site _); [|injection Hp as <-; by right]. by apply bind_Some in Hp as (ids & _ & Hp).
Qed.

(** What follows the import, which is [v]'s state. *)
Lemma restore_rest_spec rs l b p v :
  sc_roster v = Some rs -> rs_lineup rs = Some l ->
  (forall l', l' ∈ ro_lineups (rs_roster rs) -> valid_lineup_id (lu_id l') = true) ->
  (forall id st, lineup_of_backup b id = Some st -> text_back st /\ well_headed st) ->
  spec (eq v)
    (w ← gets id;
     match site (w_server w) with
     | None => mret (Err unavailable)
     | Some view =>
         _ ← restore_members view (lu_id <$> sr_lineup (w_server w)) (entries (mb_customizations b));
         let? _ :=
           match sr_roster (w_server w) with
           | None => mret (Ok [])
           | Some r =>
               l ← or_die (rs_lineup r);
               or_else (fun e => mkReject 500 "RESTORE_INCOMPLETE" ("the live state was restored, but " +:+ e))
                 (restore_lineups view (lu_id l) (rs_roster r) b)
           end in
         mret (Ok (mkRestoreResult (length (rp_changes p)) (rp_skipped p)))
     end)
    (fun o v' => sc_state v' = sc_state v
       /\ match o with
          | Some (Ok _) => restored b (rs_roster rs) (lineups_to_restore b (lu_id l) (rs_roster rs)) v v'
          | Some (Err e) => 500 <= rj_status e
          | None => True
          end).
Proof.
  intros Hr Hl Hids Hb w w' o -> Hw. rewrite gets_bind in Hw. unfold id in Hw. destruct (site _) as [vw|]; [|by injection Hw as <- <-].
  unfold sr_lineup in Hw. change (sr_roster (w_server w) = Some rs) in Hr. rewrite Hr in Hw. cbn in Hw. rewrite Hl in Hw.
  pose proof (rs_lineup_in _ _ Hl) as Hin. rewrite bind_run in Hw. destruct (restore_members _ _ _ w) as [w1 o1] eqn:Hm.
  apply (restore_members_aside _ (Some (lu_id l)) _ (Hids _ Hin) _ _ _ _ eq_refl) in Hm as [(_ & Hst & _) Hsto].
  destruct o1 as [[]|]; [|by injection Hw as <- <-]. unfold try_, or_die in Hw. rewrite !bind_run in Hw. unfold or_else, restore_lineups, try_ in Hw.
  rewrite !bind_run in Hw. destruct (restore_each _ _ _ _ w1) as [w2 o2] eqn:He.
  assert (Hval : forall id l', roster_lineup (rs_roster rs) id = Some l' -> valid_lineup_id id = true).
  { intros id l' Hl'. rewrite <-(roster_lineup_id _ _ _ Hl'). by eapply Hids, roster_lineup_in. }
  apply (restore_each_spec _ _ _ _ _ Hval Hb _ _ _ eq_refl) in He as [(_ & Hst2 & _) Hre].
  destruct o2 as [[[]|e]|]; injection Hw as <- <-; (split; [congruence|]); [|done..].
  intros id Hid. specialize (Hre eq_refl id Hid). by rewrite Hsto in Hre.
Qed.

Lemma restore_spec rs l t name b w w' o :
  at_hand rs l t w -> backup_load (sr_dir (w_server w)) name (w_files w) = Ok b -> fits t (mb_state b) ->
  (forall id st, lineup_of_backup b id = Some st -> text_back st /\ well_headed st) ->
  restore name w = (w', o) -> restore_end rs l b w o (look w').
Proof.
  intros Hh Hload Hfit Hb Hw. unfold restore in Hw. rewrite gets_bind in Hw. unfold id in Hw. cbn zeta in Hw.
  destruct (_ || _); [by injection Hw as <- <-|]. rewrite Hload in Hw. unfold try_ at 1 in Hw. rewrite bind_run in Hw. unfold or_die at 1 in Hw.
  destruct (preview_of w b) as [[p|e]|] eqn:Hp; [|injection Hw as <- <-; apply preview_of_refuses in Hp; cbn; split_and!; [lia|done|lia]|injection Hw as <- <-; by right].
  rewrite bind_run in Hw. destruct (import_of w b w) as [w1 o1] eqn:Hi.
  apply (import_of_spec _ _ _ _ _ _ Hh eq_refl Hfit _ _ _ eq_refl) in Hi as [[x Hx] Hi].
  destruct o1 as [[i r]|]; [|injection Hw as <- <-; rewrite Hx; by right]. destruct (Hi _ _ eq_refl) as [-> [r' ->]]. clear Hi.
  unfold try_ at 1 in Hw. rewrite bind_run, or_else_run in Hw. destruct (request_applied (ImportState _) w1) as [w2 o2] eqn:Hq. apply request_asked in Hq.
  assert (Ht : taken (ImportState (given_back rs l (look w) (mb_state b))) (look w1) = on_state (given_back rs l (look w) (mb_state b)) (look w1)).
  { unfold taken. f_equal. rewrite Hx. change (sc_topology (on_running x (look w))) with (mv_topology (w_mirror w)). rewrite (ah_topology _ _ _ _ Hh). cbn.
    rewrite reconcile_fixed; [done|apply Hh|by apply fit_sets_fits]. }
  rewrite Ht, Hx in Hq. clear Ht. destruct o2 as [[[]|e]|]; cbn [asked] in Hq.
  - cbn beta iota delta [map_err] in Hw. rewrite bind_run in Hw. destruct (note_running r' w2) as [w3 o3] eqn:Hn. apply (note_running_spec _ _ _ _ _ eq_refl) in Hn as [y Hy].
    rewrite Hq in Hy. destruct o3 as [[]|]; [|injection Hw as <- <-; rewrite Hy; by left].
    apply (restore_rest_spec rs l b p (look w3)) in Hw as [Hst Ho]; [|rewrite Hy; apply Hh|apply Hh|apply Hh|done|done].
    assert (Hback : sc_state (look w') = given_back rs l (look w) (mb_state b)) by (by rewrite Hst, Hy).
    destruct o as [[r|e]|]; [split; [done|]|split; [lia|]; split; [lia|done]|by left]. intros id Hid. specialize (Ho id Hid). by rewrite Hy in Ho.
  - injection Hw as <- <-. cbn. split_and!; lia.
  - injection Hw as <- <-. destruct Hq as [[] ->]; [by left|by right].
Qed.

(** *** The file of a capture *)

(** A name of the backups' directory. *)
Definition plain_name (name : string) : bool := negb (str_contains "/" name || str_contains "\" name || str_contains ".." name).

Lemma backup_loaded dir name b fs :
  plain_name name = true -> fs !! ls_path (ls_path dir BACKUPS_DIR) name = Some (Readable (to_json b)) -> well_headed b -> text_back b ->
  backup_load dir name fs = Ok b.
Proof.
  unfold plain_name, backup_load. intros Hp Hf [Hfo Hve] Hb. apply negb_true_iff in Hp. rewrite Hp, Hf.
  unfold MixerBackup_parse. rewrite (bt_head _ _ Hb), Hb. cbn. rewrite Hfo, Hve. by rewrite bool_decide_true.
Qed.

Lemma lineup_of_backup_in b id st : lineup_of_backup b id = Some st -> id ∈ (mb_lineups b).*1.
Proof.
  unfold lineup_of_backup. destruct (list_find _ _) as [[i [k x]]|] eqn:Hf; [|done]. intros _.
  apply list_find_Some in Hf as (Hi & Hk & _). cbn in Hk. subst k. apply list_elem_of_fmap. exists (id, x). split; [done|]. by eapply list_elem_of_lookup_2.
Qed.

Lemma roster_lineup_some r l : l ∈ ro_lineups r -> is_Some (roster_lineup r (lu_id l)).
Proof.
  intros Hin. unfold roster_lineup, Roster.find. destruct (list_find _ _) as [[i x]|] eqn:Hf; [by eexists|].
  apply list_find_None in Hf. rewrite Forall_forall in Hf. exfalso. apply (Hf _ Hin). by rewrite bool_decide_true.
Qed.

(** What a restore of a captured backup leaves in the other bands' files. *)
Lemma restored_capture w w1 rs l name b v v' :
  (forall l', l' ∈ ro_lineups (rs_roster rs) -> valid_lineup_id (lu_id l') = true) ->
  captured_by w w1 rs l name b -> restored b (rs_roster rs) (lineups_to_restore b (lu_id l) (rs_roster rs)) v v' ->
  forall l' st, l' ∈ ro_lineups (rs_roster rs) -> lu_id l' <> lu_id l -> stored_of (lu_id l') (look w) = Ok (Some st) ->
    stored_of (lu_id l') v' = Ok (Some st).
Proof.
  intros Hids (_ & _ & _ & Hl & _) Hre l' st Hin Hne Hst. rewrite <-look_stored in Hst.
  assert (Hlo : lineup_of_backup b (lu_id l') = Some st) by (apply Hl; split; [done|by exists l']).
  destruct (Hre _ (Hids _ Hin)) as [H1' _]. rewrite Hlo in H1'. apply H1'; [|by apply roster_lineup_some].
  unfold lineups_to_restore. apply list_elem_of_filter. split; [by split; [|apply roster_lineup_some]|by eapply lineup_of_backup_in].
Qed.

Definition other_bands_back (rs : RosterState) (l : Lineup) (v v' : Scene) : Prop :=
  forall l' st, l' ∈ ro_lineups (rs_roster rs) -> lu_id l' <> lu_id l -> stored_of (lu_id l') v = Ok (Some st) ->
    stored_of (lu_id l') v' = Ok (Some st).

(** C35: A backup saved meets no other: it has a name of its own, and a save that
    fails or dies leaves every file there was as it was. *)
Theorem backup_never_overwrites (b : MixerBackup) (w w' : World) (o : option (result FileError string)) (path : string) (f : FileText) :
  backup_save b w = (w', o) -> w_files w !! path = Some f ->
  w_files w' !! path = Some f
  /\ forall name, o = Some (Ok name) ->
       ls_path (ls_path (sr_dir (w_server w)) BACKUPS_DIR) name <> path
       /\ w_files w' !! ls_path (ls_path (sr_dir (w_server w)) BACKUPS_DIR) name = Some (Readable (to_json b))
       /\ exists k, 1 <= k /\ name = numbered (timestamp_to_filename (mb_timestamp b)) k.
Proof.
  intros Hs%backup_save_spec Hf. unfold save_end, one_more in Hs.
  assert (Hkeep : forall p text, w_files w !! p = None -> <[p := Readable text]> (w_files w) !! path = Some f /\ p <> path).
  { intros p text Hp. assert (p <> path) by congruence. by rewrite lookup_insert_ne. }
  destruct o as [[name|e]|].
  - destruct Hs as [Hk [Hn Hfs]]. rewrite Hfs. destruct (Hkeep _ (to_json b) Hn) as [H1' H2']. split; [done|]. intros ? [= <-].
    split_and!; [done|apply lookup_insert_eq|done].
  - destruct Hs as [->|(k & text & _ & _ & Hn & ->)]; (split; [|done]); [done|by apply Hkeep].
  - destruct Hs as [->|(k & text & _ & _ & Hn & ->)]; (split; [|done]); [done|by apply Hkeep].
Qed.

(** C5: A backup of the running state, restored later while the same band plays: the
    engine plays the captured mixes, fitted to who plays, and every other band's
    state is stored again as it was.  A restore that is refused changes nothing,
    one whose other bands' files could not be written has the mixes back, and one
    cut short leaves the old mixes or the captured ones. *)
Theorem restore_gives_back (rs : RosterState) (l : Lineup) (t : TopologyInfo) (w w1 w2 w3 : World) (name : string) (b : MixerBackup)
    (o : option (result Reject RestoreResult)) :
  at_hand rs l t w -> at_hand rs l t w2 ->
  capture_now w = (w1, Some (Ok (name, b))) -> plain_name name = true ->
  text_back b -> (forall l' st, l' ∈ ro_lineups (rs_roster rs) -> stored_of (lu_id l') (look w) = Ok (Some st) -> text_back st) ->
  let path := ls_path (ls_path (sr_dir (w_server w)) BACKUPS_DIR) name in
  sr_dir (w_server w2) = sr_dir (w_server w) -> w_files w2 !! path = w_files w1 !! path ->
  restore name w2 = (w3, o) ->
  let v := look w3 in
  let back := given_back rs l (look w2) (w_engine w).1 in
  match o with
  | Some (Ok _) => sc_state v = back /\ other_bands_back rs l (look w) v
  | Some (Err e) => 409 <= rj_status e /\ (rj_status e < 500 -> v = look w2) /\ (rj_status e = 500 -> sc_state v = back)
  | None => sc_state v = back \/ sc_state v = (w_engine w2).1
  end.
Proof.
  intros Hh Hh2 Hc Hp Hb Hbs path Hdir Hfile Hr v back.
  pose proof (capture_spec _ _ _ _ _ _ (ah_roster _ _ _ _ Hh) (ah_lineup _ _ _ _ Hh) Hc) as Hcap.
  pose proof Hcap as (Hst & _ & Hwh & Hl & [_ Hfs]).
  assert (Hstate : mb_state b = (w_engine w).1) by (rewrite Hst; apply synced_held, Hh).
  assert (Hend : restore_end rs l b w2 o v).
  { apply (restore_spec rs l t name b); try done.
    - apply backup_loaded; try done. rewrite Hdir. fold path. rewrite Hfile, Hfs. apply lookup_insert_eq.
    - rewrite Hstate. apply Hh.
    - intros id st Hid. apply Hl in Hid as [Hs (l' & Hin & <- & _)]. split; [|by eapply stored_headed]. apply (Hbs l'); [done|]. by rewrite <-look_stored. }
  unfold restore_end in Hend. rewrite Hstate in Hend. destruct o as [[r|e]|]; [|done..]. destruct Hend as [He Hre]. split; [done|].
  unfold other_bands_back. by eapply restored_capture; [apply Hh|..].
Qed.

End sidelong.

(** ** A backup taken and given back *)

Section example.

#[local] Instance saved_kind : OsKind := fun _ => "other error".
#[local] Instance saved_customs : Serde CustomizationFile := {| to_json _ := ""; of_json _ := Err "" |}.
#[local] Instance saved_running : Serde Running := {| to_json r := to_bits (countable.encode r); of_json := bits_of_json |}.
#[local] Instance saved_heads : Serde BackupHead := {| to_json _ := ""; of_json _ := Ok (mkBackupHead BACKUP_FORMAT BACKUP_VERSION) |}.
#[local] Instance saved_states : Serde MixState :=
  {| to_json s := if (default false (o_muted ∘ m_out <$> s_mixes s !! "m1")) then "muted" else "heard"; of_json _ := Err "" |}.
#[local] Instance saved_sha : Sha256 := fun s => Z.of_nat ∘ nat_of_ascii <$> String.list_ascii_of_string s.

(** Bob's stored state, another in its place, and the backup. *)
Definition saved_youth : MixerBackup := MixerBackup_new "then" 1 (muted_state true).
Definition saved_later : MixerBackup := MixerBackup_new "later" 1 (muted_state false).
Definition saved_at : string := "2026-03-01T19:30:00.250Z".
Definition saved_backup : MixerBackup :=
  set_lineups [("youth", saved_youth)]
    (Lineups.put_lineup (Some "main") (put_customizations {["ana" := CustomizationFile_new "ana" [] []]} (MixerBackup_new saved_at 7 demo_live))).

#[local] Instance saved_backups : Serde MixerBackup :=
  {| to_json b := mb_timestamp b;
     of_json text := Ok (if decide (text = saved_at) then saved_backup else if decide (text = "then") then saved_youth else saved_later) |}.
#[local] Instance saved_texts : BackupTexts.
Proof. intros text b. unfold of_json, saved_backups, saved_heads. intros [= <-]. by repeat destruct (decide _). Qed.

Definition saved_world (files : gmap string FileText) (s : MixState) : World :=
  mkWorld
    (mkServer (config_of [] [] false None None [] None) "/data" (Some demo_in_use)
       (mkMirror None (Some demo_info) s Transient_default 7 true) true false false false [] 1 SoloJanitor_default None ∅ ∅
       files (mkLoginStats 0 0 0) [])
    None false 0 false (s, Transient_default) [] [] [] [] 9 saved_at [] (mkPinStore (mkPinFile None ∅ ∅) "/data/secrets/pin_hashes.json") [].

(** Its name's first choice is taken. *)
Definition saved_name : string := "20260301_193000_250_2.json".
Definition saved_before : World :=
  saved_world (<["/data/backups/20260301_193000_250.json" := Readable "then"]> {["/data/lineups/youth/state.json" := Readable "then"]}) demo_live.
Definition saved_after : World := (capture_now saved_before).1.
(** Ana's mix is muted since, and Bob's band has other mixes. *)
Definition saved_moved : World :=
  saved_world (<["/data/lineups/youth/state.json" := Readable "later"]> (w_files saved_after)) (muted_state true).

Lemma saved_at_hand files s : fits demo_info s -> at_hand demo_in_use demo_main demo_info (saved_world files s).
Proof.
  intros Hs. split; try done; [|unfold mixes_distinct; cbn; apply NoDup_singleton].
  intros l' Hin. cbn in Hin.
  repeat (apply elem_of_cons in Hin as [->|Hin]; [done|]). by apply elem_of_nil in Hin.
Qed.

Lemma muted_fits : fits demo_info (muted_state true).
Proof.
  assert (Hr : (reconcile demo_info (muted_state true)).1 = muted_state true) by (vm_compute; reflexivity).
  rewrite <-Hr. apply reconcile_fits. unfold mixes_distinct. cbn. apply NoDup_singleton.
Qed.

Lemma saved_main : stored_of "main" (look saved_before) = Ok None.
Proof. vm_compute. reflexivity. Qed.
Lemma saved_other : stored_of "youth" (look saved_before) = Ok (Some saved_youth).
Proof. vm_compute. reflexivity. Qed.

Lemma saved_texts_back l' st : l' ∈ ro_lineups demo_roster -> stored_of (lu_id l') (look saved_before) = Ok (Some st) -> text_back st.
Proof.
  intros [->|[->|[]%elem_of_nil]%elem_of_cons]%elem_of_cons; cbn [lu_id demo_main demo_youth].
  - rewrite saved_main. discriminate.
  - rewrite saved_other. intros [= <-]. by vm_compute.
Qed.

Lemma backup_never_overwrites_witness :
  let w' := (backup_save saved_backup saved_before).1 in
  (backup_save saved_backup saved_before).2 = Some (Ok saved_name)
  /\ w_files w' !! "/data/backups/20260301_193000_250.json" = Some (Readable "then")
  /\ w_files w' !! "/data/backups/20260301_193000_250_2.json" = Some (Readable saved_at).
Proof.
  destruct (backup_never_overwrites saved_backup saved_before (backup_save saved_backup saved_before).1
              (backup_save saved_backup saved_before).2 "/data/backups/20260301_193000_250.json" (Readable "then")
              (surjective_pairing _) eq_refl) as [Hkept Hnew].
  intros w'. assert (Ho : (backup_save saved_backup saved_before).2 = Some (Ok saved_name)) by (vm_compute; reflexivity).
  split; [exact Ho|]. split; [exact Hkept|]. exact (proj1 (proj2 (Hnew saved_name Ho))).
Defined.

(** Ana's mix is heard again and Bob's band has its mixes of then. *)
Lemma restore_gives_back_witness :
  let w3 := (restore saved_name saved_moved).1 in
  capture_now saved_before = (saved_after, Some (Ok (saved_name, saved_backup)))
  /\ is_Some ((restore saved_name saved_moved).2) /\ (w_engine saved_moved).1 <> demo_live
  /\ (w_engine w3).1 = demo_live /\ stored_of "youth" (look w3) = Ok (Some saved_youth).
Proof.
  assert (Hc : capture_now saved_before = (saved_after, Some (Ok (saved_name, saved_backup)))).
  { rewrite (surjective_pairing (capture_now saved_before)). apply pair_eq. split; [reflexivity|]. vm_compute. reflexivity. }
  assert (Ho : exists r, (restore saved_name saved_moved).2 = Some (Ok r)) by (eexists; vm_compute; reflexivity). destruct Ho as [r Ho].
  intros w3. split; [exact Hc|]. split; [rewrite Ho; by eexists|].
  split; [intros Hm; apply (f_equal (fun s => (o_muted ∘ m_out) <$> s_mixes s !! "m1")) in Hm; vm_compute in Hm; discriminate Hm|].
  pose proof (restore_gives_back demo_in_use demo_main demo_info saved_before saved_after saved_moved w3 saved_name saved_backup
                (restore saved_name saved_moved).2 (saved_at_hand _ _ demo_fits) (saved_at_hand _ _ muted_fits) Hc eq_refl) as Hr.
  specialize (Hr ltac:(vm_compute; reflexivity)). cbn zeta in Hr. rewrite Ho in Hr. destruct Hr as [Hs Hb].
  - exact saved_texts_back.
  - reflexivity.
  - vm_compute. reflexivity.
  - rewrite <-Ho. apply surjective_pairing.
  - split; [transitivity (given_back demo_in_use demo_main (look saved_moved) (w_engine saved_before).1); [exact Hs|vm_compute; reflexivity]|]. apply (Hb demo_youth); [right; left|discriminate|exact saved_other].
Defined.

End example.
