(* ===== verification/PersonSpec.v ===== *)
(** * A person changes their own mix

    [command] with the control core behind it: whatever somebody who is not the
    engineer sends from their page, the engine changes nothing but their page's
    mix and the EQ of the inputs they own. *)

From S2P Require Import Prelude F64 Text MixState Msg Shape Topology TopologyWf Reconciled Rt Core CoreSync CoreCmd CoreApply CoreSpec Wire Mirror Roster Config UiMsg SiteView View.
From stdpp Require Import options.
Local Open Scope Z_scope.
#[local] Unset Default Proof Using.

(** ** What the setters announce *)

Section says.
Context `{Libm}.

Lemma set_input_says i new c c' p :
  set_input i new c = (c', Ok p) ->
  p_changes p = [] \/ exists node, t_inputs (c_topo c) !! i = Some node /\ p_changes p = [ChInput (in_id node) new].
Proof.
  unfold set_input. destruct (r_inputs (c_s c) !! i), (t_inputs (c_topo c) !! i) as [node|]; try (intros [= _ <-]; by left).
  destruct (InputState_eqb _ _); intros [= _ <-]; [by left|right; by exists node].
Qed.

Lemma set_out_says m new c c' p :
  set_out m new c = (c', Ok p) ->
  p_changes p = [] \/ exists node, t_mixes (c_topo c) !! m = Some node /\ p_changes p = [ChMixOut (mn_id node) new].
Proof.
  unfold set_out. destruct (r_mixes (c_s c) !! m), (t_mixes (c_topo c) !! m) as [node|]; try (intros [= _ <-]; by left).
  destruct (MixOut_eqb _ _); intros [= _ <-]; [by left|right; by exists node].
Qed.

Lemma set_level_says m k new c c' p :
  set_level m k new c = (c', Ok p) ->
  p_changes p = [] \/ exists node src, t_mixes (c_topo c) !! m = Some node /\ source (c_topo c) m k = Some src
                      /\ p_changes p = [ChLevel (mn_id node) src new].
Proof.
  unfold set_level. destruct (t_mixes (c_topo c) !! m) as [node|], (source (c_topo c) m k) as [src|]; try (intros [= _ <-]; by left).
  destruct (r ← _; _) as [slot|]; [|intros [= _ <-]; by left].
  destruct (Level_eqb _ _); intros [= _ <-]; [by left|right; by exists node, src].
Qed.

Lemma set_group_says m g new c c' p :
  set_group m g new c = (c', Ok p) ->
  p_changes p = [] \/ exists node group, t_mixes (c_topo c) !! m = Some node /\ p_changes p = [ChGroup (mn_id node) group new].
Proof.
  unfold set_group. destruct (t_mixes (c_topo c) !! m) as [node|], (t_groups (c_topo c) !! g) as [group|]; try (intros [= _ <-]; by left).
  destruct (r ← _; _) as [old|]; [|intros [= _ <-]; by left].
  destruct (MixGroup_eqb _ _); intros [= _ <-]; [by left|right; by exists node, (gn_id group)].
Qed.

Lemma set_solo_says mix sources c c' p :
  set_solo mix sources c = (c', Ok p) -> p_changes p = [] \/ exists l, p_changes p = [ChSolo mix l].
Proof.
  unfold set_solo, find_mix, lift, gets, modify, mbind, CoreM_bind.
  destruct (mix_index _ _); cbn; [|done]. case_match; [done|]. cbn. destruct (foldM _ _ _); cbn; [|done].
  case_decide; intros [= _ <-]; [by left|right; eauto].
Qed.

End says.

(** ** The commands of a page *)

Definition owns (view : SiteView) (viewer : Viewer) (id : InputId) : Prop :=
  exists i, sv_input view id = Some i /\ iv_owner i = Some (vw_sub viewer) /\ is_foreign_input view id = false.

Definition page_cmd (view : SiteView) (page : Page) (viewer : Viewer) (cmd : Cmd) : Prop :=
  match cmd with
  | SetLevel m s _ _ _ => m = pg_mix page /\ shown_source view page viewer s = true
  | SetMix m _ _ | SetGroup m _ _ _ | SetLimiter m _ _ | ResetLimiterStats m | SetSolo m _ => m = pg_mix page
  | SetEq (EqMix m) _ | SetEq (EqGroup m _) _ => m = pg_mix page
  | SetEq (EqInput id) _ => owns view viewer id
  | _ => False
  end.

(** The first of a list that satisfies is in it and does. *)
Lemma find_Some {A : Type} (p : A -> bool) l x : Roster.find p l = Some x -> x ∈ l /\ p x = true.
Proof.
  unfold Roster.find. destruct (list_find _ l) as [[i y]|] eqn:Hf; cbn; [|done]. intros [= <-].
  apply list_find_Some in Hf as (Hl & Hp & _). split; [by eapply list_elem_of_lookup_2|by apply Is_true_true].
Qed.

Lemma sv_input_id view id i : sv_input view id = Some i -> iv_id i = id /\ i ∈ sv_inputs view.
Proof. intros [Hin Hp]%find_Some. by apply bool_decide_eq_true in Hp. Qed.

Lemma cmd_source_shown view page viewer id s :
  cmd_source view page viewer id = Ok s -> shown_source view page viewer s = true.
Proof.
  unfold cmd_source, view_source. destruct (present_input view id) eqn:Hp; [by intros [= <-]|].
  destruct (sv_mix view (pg_mix page)) as [m|] eqn:Hm; cbn; [|done].
  match goal with |- context [Roster.find ?p ?l] => destruct (Roster.find p l) as [h|] eqn:Hf end; cbn; [|done].
  destruct (viewer_leads viewer view) eqn:Hl; cbn; [|done]. intros [= <-]. cbn. unfold heard. rewrite Hl, Hm. cbn.
  apply find_Some in Hf as [Hin Hb]. bool_inv. by apply bool_decide_eq_true, list_elem_of_filter.
Qed.

Lemma eq_target_page view page viewer target t name eq :
  vw_engineer viewer = false -> eq_target view page viewer target = Ok (t, name) -> page_cmd view page viewer (SetEq t eq).
Proof.
  intros He. unfold eq_target. case_bool_decide; [by intros [= <- <-]|]. case_bool_decide; [by intros [= <- <-]|].
  destruct (shows_input view viewer target) eqn:Hs.
  - destruct (sv_input view target) as [i|] eqn:Hi.
    + rewrite He. cbn. case_bool_decide as Ho; [|done]. intros [= <- <-]. cbn. apply sv_input_id in Hi as Hid. destruct Hid as [Hid _].
      exists i. rewrite Hid. split; [done|]. split; [done|]. unfold shows_input, present_input in Hs. bool_inv. done.
    + destruct (view_source view page target) as [[]|]; [done|by rewrite He|done].
  - destruct (view_source view page target) as [[]|]; [done|by rewrite He|done].
Qed.

Lemma command_page_cmd `{ShowF32} view mv page viewer msg cmds :
  vw_engineer viewer = false -> command view mv page viewer msg = Ok cmds -> exists cmd, cmds = [cmd] /\ page_cmd view page viewer cmd.
Proof.
  intros He. unfold command. destruct (one_command view mv page viewer msg) as [cmd|] eqn:Hc; [|done]. intros [= <-].
  exists cmd. split; [done|]. revert Hc.
  destruct msg; cbn [one_command]; unfold cmd_engineer; rewrite ?He; try done;
    try (destruct (cmd_source view page viewer _) as [s|] eqn:Hs; cbn; [|done]; apply cmd_source_shown in Hs);
    repeat match goal with
    | |- (match ?m with Ok _ => _ | Err _ => _ end = _) -> _ => destruct m; cbn; [|done]
    | |- ((?m ≫= _) = _) -> _ => let E := fresh "E" in destruct m eqn:E; cbn; [|done]
    | |- ((if ?b then _ else _) = _) -> _ => destruct b; [done|]
    end; try (by intros [= <-]).
  destruct a as [t name]. destruct (apply_band _ _ _ _) as [eq|]; cbn; [|done]. intros [= <-]. by eapply eq_target_page.
Qed.

(** ** What they change *)

(** The state and the transient state before and after agree but for the mix
    of the page, without the levels it does not show, and the EQ of the inputs
    the viewer owns. *)
Record person_kept (view : SiteView) (page : Page) (viewer : Viewer) (v w : MixState * Transient) : Prop := {
  pk_mixes : forall m, m <> pg_mix page -> s_mixes w.1 !! m = s_mixes v.1 !! m;
  pk_levels : forall s, shown_source view page viewer s = false ->
    Mix_level (or_default Mix_default (s_mixes w.1 !! pg_mix page)) s = Mix_level (or_default Mix_default (s_mixes v.1 !! pg_mix page)) s;
  pk_inputs : forall id, s_inputs w.1 !! id = s_inputs v.1 !! id \/
    owns view viewer id /\ exists a b, s_inputs v.1 !! id = Some a /\ s_inputs w.1 !! id = Some b
      /\ i_trim_db b = i_trim_db a /\ i_muted b = i_muted a /\ i_processing b = i_processing a;
  pk_solo : filter (fun s => solo_mix s <> pg_mix page) (t_solo w.2) ≡ₚ filter (fun s => solo_mix s <> pg_mix page) (t_solo v.2);
  pk_listen : t_listen w.2 = t_listen v.2;
  pk_test : t_test_signal w.2 = t_test_signal v.2;
}.

Lemma person_kept_refl view page viewer v : person_kept view page viewer v v.
Proof. split; intros; (done || by left). Qed.

Lemma person_kept_same view page viewer v w w' : same_view w w' -> person_kept view page viewer v w -> person_kept view page viewer v w'.
Proof.
  intros [H1 H2 H3 H4] [K1 K2 K3 K4 K5 K6]. rewrite H1, H3, H4 in *. split; try done. by rewrite <-H2.
Qed.

(** One change of a page. *)
Definition page_change (view : SiteView) (page : Page) (viewer : Viewer) (v : MixState) (ch : Change) : Prop :=
  match ch with
  | ChLevel m s _ => m = pg_mix page /\ shown_source view page viewer s = true
  | ChMixOut m _ | ChGroup m _ _ | ChSolo m _ | ChLimiterStatsReset m => m = pg_mix page
  | ChInput id b => owns view viewer id /\ exists a, s_inputs v !! id = Some a
      /\ i_trim_db b = i_trim_db a /\ i_muted b = i_muted a /\ i_processing b = i_processing a
  | ChListen _ | ChTestSignal _ => False
  end.

Lemma put_solo_filter mix sources l :
  filter (fun s => solo_mix s <> mix) (put_solo mix sources l) = filter (fun s => solo_mix s <> mix) l.
Proof.
  unfold put_solo. assert (Hf : filter (fun s => solo_mix s <> mix) (filter (fun s => solo_mix s <> mix) l) = filter (fun s => solo_mix s <> mix) l).
  { apply filter_all, Forall_forall. intros s Hs. by apply list_elem_of_filter in Hs as [? _]. }
  destruct sources; [done|]. rewrite filter_app, Hf, filter_cons_False, filter_nil, app_nil_r by (cbn; tauto). done.
Qed.

Lemma alter_mix_kept view page viewer f s t :
  (forall src x, shown_source view page viewer src = false -> Mix_level (f x) src = Mix_level x src) ->
  person_kept view page viewer (s, t) (alter_mirror_mix f (pg_mix page) s, t).
Proof.
  intros Hf. unfold alter_mirror_mix. split; cbn; try done; try (by left).
  - intros m Hm. by rewrite lookup_insert_ne.
  - intros src Hs. rewrite lookup_insert_eq. cbn. by apply Hf.
Qed.

Lemma page_change_kept view page viewer v ch :
  page_change view page viewer v.1 ch -> person_kept view page viewer v (view_change v ch).
Proof.
  destruct v as [s t], ch as [id b|m o|m src l|m g st|m l|l|l|m]; cbn [fst page_change]; intros Hc; try done.
  - destruct Hc as [Ho (a & Ha & Hrest)]. split; cbn; try done. intros id'. destruct (decide (id' = id)) as [->|Hne].
    + right. split; [done|]. exists a, b. by rewrite lookup_insert_eq.
    + left. by rewrite lookup_insert_ne.
  - subst m. by apply alter_mix_kept.
  - destruct Hc as [-> Hs]. apply alter_mix_kept. intros src' x Hs'. assert (src' <> src) by congruence.
    destruct src, src'; cbn; try done; by rewrite lookup_insert_ne by congruence.
  - subst m. by apply alter_mix_kept.
  - subst m. cbn. split; cbn; try done; try (by left). by rewrite put_solo_filter.
  - apply person_kept_refl.
Qed.

Section core.
Context `{LibmOk} {channels : Z}.

Lemma mix_index_id c mix m : core_wf channels c -> mix_index (c_topo c) mix = Some m ->
  exists node, t_mixes (c_topo c) !! m = Some node /\ mn_id node = mix.
Proof. intros Hwf Hm. apply (wf_mix_index _ _ (cw_topo _ _ Hwf)), fmap_Some in Hm as (node & Hn & ->). by exists node. Qed.

Lemma state_input c i node :
  core_wf channels c -> t_inputs (c_topo c) !! i = Some node ->
  s_inputs (core_state c) !! in_id node = Some (get_input c i).
Proof.
  intros Hwf Hi. pose proof (cw_layout _ _ Hwf) as Hl. unfold core_state, to_state. cbn [s_inputs].
  destruct (lookup_lt_is_Some_2 (r_inputs (c_s c)) i) as [st Hst].
  { rewrite (lo_inputs _ _ Hl). by eapply lookup_lt_Some. }
  unfold get_input. rewrite Hst. cbn.
  apply (zip_insert_lookup in_id _ _ i); [apply (wf_nodup_inputs (cw_topo _ _ Hwf))|apply (lo_inputs _ _ Hl)|done|done].
Qed.

(** Every command of a page announces at most one change, of that page. *)
Lemma page_cmd_says view page viewer cmd c c' p :
  core_wf channels c -> page_cmd view page viewer cmd -> one cmd c = (c', Ok p) ->
  p_changes p = [] \/ exists ch, p_changes p = [ch] /\ page_change view page viewer (core_state c) ch.
Proof.
  intros Hwf Hp.
  assert (Hmix : forall mix m node, mix_index (c_topo c) mix = Some m -> t_mixes (c_topo c) !! m = Some node -> mn_id node = mix).
  { intros mix m node Hm Hn. destruct (mix_index_id _ _ _ Hwf Hm) as (n & Hn' & <-). congruence. }
  destruct cmd as [|mix vol mu|mix src gain pan mu|mix g gain mu|[id|mix|mix g] eq|mix en li|mix|mix l| | | | | | | | | | | | | |]; try done; cbn [one page_cmd] in *;
    unfold cmd_set_mix, cmd_set_level, cmd_set_group, cmd_set_eq, cmd_set_limiter, cmd_reset_limiter, find_mix, find_group, find_input, gets, lift, mret, CoreM_ret.
  - unfold mbind, CoreM_bind. destruct (mix_index _ _) as [m|] eqn:Hm; cbn; [|done]. destruct (capped_opt _ _ _ _); cbn; [|done].
    intros [Hs|(node & Hn & Hs)]%set_out_says; [by left|right]. eexists. split; [done|]. cbn. by rewrite (Hmix _ _ _ Hm Hn).
  - destruct Hp as [-> Hsh]. unfold mbind, CoreM_bind. destruct (mix_index _ _) as [m|] eqn:Hm; cbn; [|done].
    destruct (slot _ _ _) as [k|] eqn:Hk; cbn; [|done]. do 2 (destruct (capped_opt _ _ _ _); cbn; [|done]).
    intros [Hs|(node & src' & Hn & Hsrc & Hs)]%set_level_says; [by left|right]. eexists. split; [done|]. cbn.
    rewrite (Hmix _ _ _ Hm Hn). split; [done|]. destruct (slot_source (cw_topo _ _ Hwf) _ _ Hn) as [Hb _]. apply Hb in Hk. congruence.
  - unfold mbind, CoreM_bind. destruct (mix_index _ _) as [m|] eqn:Hm; cbn; [|done]. destruct (group_index _ _); cbn; [|done].
    destruct (capped_opt _ _ _ _); cbn; [|done].
    intros [Hs|(node & gr & Hn & Hs)]%set_group_says; [by left|right]. eexists. split; [done|]. cbn. by rewrite (Hmix _ _ _ Hm Hn).
  - destruct (eq_is_finite eq); cbn; [|done]. unfold mbind, CoreM_bind. destruct (input_index _ _) as [i|] eqn:Hi; cbn; [|done].
    intros [Hs|(node & Hn & Hs)]%set_input_says; [by left|right]. eexists. split; [done|]. cbn.
    apply (wf_input_index _ _ (cw_topo _ _ Hwf)) in Hi. rewrite Hn in Hi. cbn in Hi. injection Hi as Hi. rewrite Hi.
    split; [done|]. exists (get_input c i). rewrite <-Hi. split; [by apply state_input|done].
  - destruct (eq_is_finite eq); cbn; [|done]. unfold mbind, CoreM_bind. destruct (mix_index _ _) as [m|] eqn:Hm; cbn; [|done].
    intros [Hs|(node & Hn & Hs)]%set_out_says; [by left|right]. eexists. split; [done|]. cbn. by rewrite (Hmix _ _ _ Hm Hn).
  - destruct (eq_is_finite eq); cbn; [|done]. unfold mbind, CoreM_bind. destruct (mix_index _ _) as [m|] eqn:Hm; cbn; [|done].
    destruct (group_index _ _); cbn; [|done].
    intros [Hs|(node & gr & Hn & Hs)]%set_group_says; [by left|right]. eexists. split; [done|]. cbn. by rewrite (Hmix _ _ _ Hm Hn).
  - unfold mbind, CoreM_bind. destruct (mix_index _ _) as [m|] eqn:Hm; cbn; [|done]. destruct (capped_opt _ _ _ _); cbn; [|done].
    intros [Hs|(node & Hn & Hs)]%set_out_says; [by left|right]. eexists. split; [done|]. cbn. by rewrite (Hmix _ _ _ Hm Hn).
  - unfold mbind, CoreM_bind. destruct (mix_index _ _) as [m|] eqn:Hm; cbn; [|done]. intros [= _ <-]. right. by eexists.
  - subst mix. intros [Hs|[l' Hs]]%set_solo_says; [by left|right]. by eexists.
Qed.

Lemma page_cmd_kept view page viewer cmd c c' o :
  core_wf channels c -> page_cmd view page viewer cmd -> Core.apply cmd c = (c', Ok o) ->
  person_kept view page viewer (Mirror.view c) (Mirror.view c').
Proof.
  intros Hwf Hp Ha. pose proof (apply_tells c cmd Hwf) as Ht. rewrite Ha in Ht. unfold outcome_tells in Ht. cbn [fst snd] in Ht.
  assert (Hb : forall ops, cmd <> Batch ops) by by destruct cmd.
  destruct (apply_one c cmd c' o Hb Ha) as (c1 & p & H1 & Hf).
  pose proof (finish_frame _ _ _ _ Hf) as (_ & _ & _ & _ & _ & _ & Hch).
  assert (He : out_effect o = EImported -> False).
  { revert Hf. rewrite finish_eq. intros [= _ <-]. cbn. assert (p_effect p = None) as ->; [|done].
    enough (Hn : no_effect (one cmd)) by (specialize (Hn c p); rewrite H1 in Hn; by apply Hn).
    apply batchable_no_effect. by destruct cmd. }
  destruct Ht as [[_ Hi]|Ht]; [by destruct He|].
  apply (person_kept_same _ _ _ _ _ _ Ht). rewrite Hch.
  destruct (page_cmd_says _ _ _ _ _ _ _ Hwf Hp H1) as [->|(ch & -> & Hc)]; [apply person_kept_refl|]. cbn [foldl].
  by apply page_change_kept.
Qed.

End core.

(** ** The property *)

(** C20: a command of somebody who is not the engineer changes, in the engine,
    nothing but their page's mix and the EQ of the inputs that are theirs: every
    other mix and its solo, the levels of the page's mix they do not see, every
    other input, the trim, mute and processing of their own, the listen taps and
    the test signal are as before. *)
Theorem person_keeps_to_their_page `{LibmOk} `{ShowF32} channels c view mv page viewer msg cmds :
  core_wf channels c -> vw_engineer viewer = false -> command view mv page viewer msg = Ok cmds ->
  let c' := foldl (fun c cmd => (Core.apply cmd c).1) c cmds in
  person_kept view page viewer (Mirror.view c) (Mirror.view c').
Proof.
  intros Hwf He Hc. destruct (command_page_cmd _ _ _ _ _ _ He Hc) as (cmd & -> & Hp). cbn [foldl].
  destruct (Core.apply cmd c) as [c' [o|e]] eqn:Ha; cbn [fst].
  - by eapply page_cmd_kept.
  - pose proof (apply_contract c cmd Hwf) as Hok. rewrite Ha in Hok. cbn in Hok. subst c'. apply person_kept_refl.
Qed.

Definition demo_config : Config :=
  config_of [mkSiteMember "anna" "Anna" "m1"; mkSiteMember "bob" "Bob" "m2"; mkSiteMember "engineer" "Engineer" "eng"]
    [mkSiteInputMeta "mic1" "Anna's mic" None (Some "anna"); mkSiteInputMeta "keys" "Keys" None (Some "bob")] false None None [] None.
Definition demo_view : SiteView := build_view demo_config None (info demo_topo).
Definition demo_mirror : Mirror := mkMirror None (Some (info demo_topo)) (core_state demo_core) (transient demo_core) 7 true.
Definition demo_page : Page := mkPage "anna" "Anna" "m1" (Some "anna").
Definition demo_viewer : Viewer := mkViewer "anna" false.
#[export] Instance demo_show_f32 : ShowF32 := fun _ => "?".

Lemma person_keeps_to_their_page_witness :
  exists cmds,
    command demo_view demo_mirror demo_page demo_viewer (UiSetMute "mic1" true) = Ok cmds
    /\ cmds = [SetLevel "m1" (SrcInput "mic1") None None (Some true)]
    /\ person_kept demo_view demo_page demo_viewer (Mirror.view demo_core)
         (Mirror.view (foldl (fun c cmd => (Core.apply cmd c).1) demo_core cmds)).
Proof.
  exists [SetLevel "m1" (SrcInput "mic1") None None (Some true)].
  assert (Hc : command demo_view demo_mirror demo_page demo_viewer (UiSetMute "mic1" true)
               = Ok [SetLevel "m1" (SrcInput "mic1") None None (Some true)]) by (vm_compute; reflexivity).
  split; [exact Hc|]. split; [reflexivity|].
  exact (person_keeps_to_their_page 8 demo_core demo_view demo_mirror demo_page demo_viewer _ _ demo_core_wf eq_refl Hc).
Defined.

(** What is not theirs is refused. *)
Example refusals :
  command demo_view demo_mirror demo_page demo_viewer (UiSetInput "mic1" None (Some true) None)
  = Err (VeForbidden "input controls are the engineer's")
  /\ command demo_view demo_mirror demo_page demo_viewer (UiSetEqBand "keys" 0 "gain_db" f64_zero)
     = Err (VeForbidden "an input's EQ is its owner's or the engineer's")
  /\ is_ok (command demo_view demo_mirror demo_page demo_viewer (UiSetEqBand "mic1" 0 "gain_db" f64_zero)) = true
  /\ command demo_view demo_mirror demo_page demo_viewer (UiSetMute "nope" true) = Err (VeUnknownId "nope").
Proof. split_and!; vm_compute; reflexivity. Qed.
