(* ===== verification/PageUi.v ===== *)
(** * A mixer page's connection ([iem-ui/src/pages/mixer/helpers.rs], [handshake.rs], [lifecycle.rs])

    The protocol handshake, the reconnect backoff and the watchdog, the page's
    numbered reads of the band that plays and what it makes of the answers, and
    its strips.  Times are whole milliseconds: [Date.now()] is one, and their
    differences are exact in a double.

    Then the page itself ([connection.rs], [state.rs], [components.rs]). *)

From S2P Require Import Prelude F64 Text Config UiMsg SiteView BandStore.
From Stdlib Require Import Ascii SpecFloat.
From stdpp Require Import options.
Local Open Scope Z_scope.
#[local] Unset Default Proof Using.

(** ** The handshake *)

Definition OUR_PROTO : Z := UI_PROTO.
Definition HELLO_TIMEOUT_MS : Z := 3000.
Definition RELOAD_GAP_MS : Z := 60000.
Definition CLOSE_RELOAD : Z := 4001.

Inductive Decision := Keep | Reload.

Definition may_reload (now : Z) (last_reload : option Z) : bool :=
  match last_reload with None => true | Some t => (RELOAD_GAP_MS <=? now - t) || (now <? t) end.

Definition on_hello (ours server_proto min_client_proto now : Z) (last_reload : option Z) : Decision :=
  let served := (min_client_proto <=? ours) && (ours <=? server_proto) in
  if served || negb (may_reload now last_reload) then Keep else Reload.

Definition on_missing_hello (now : Z) (last_reload : option Z) : Decision := if may_reload now last_reload then Reload else Keep.

Definition mixer_ws_url (scheme host page token : string) : string :=
  scheme +:+ "://" +:+ host +:+ "/ws/" +:+ page +:+ "?token=" +:+ token +:+ "&proto=" +:+ dec OUR_PROTO.

(** ** Reconnecting *)

Definition WS_WATCHDOG_INTERVAL_MS : Z := 5000.
Definition WS_STALENESS_THRESHOLD_MS : Z := 30000.
Definition MAX_WS_FAILURES : Z := 3.
Definition CLOSE_LINEUP : Z := 4003.

Definition backoff_delay_ms (attempt : Z) : Z :=
  if attempt =? 0 then 2000 else if attempt =? 1 then 4000 else if attempt =? 2 then 8000 else if attempt =? 3 then 15000 else 30000.

Definition is_stale (last_frame now threshold : Z) : bool := threshold <? now - last_frame.

Inductive ReconnectStep := StepWait | StepConnect | StepConnectAndCheckToken.

Definition reconnect_step (now last_attempt attempt failures : Z) : ReconnectStep :=
  if (0 <? last_attempt) && (now - last_attempt <? backoff_delay_ms attempt) then StepWait
  else if MAX_WS_FAILURES <=? failures then StepConnectAndCheckToken
  else StepConnect.

Inductive OnClose := OnReload | OnLineup | OnFailed.

Definition on_close (code : Z) : OnClose :=
  if code =? CLOSE_RELOAD then OnReload else if code =? CLOSE_LINEUP then OnLineup else OnFailed.
Definition close_counts (c : OnClose) : bool := match c with OnLineup => false | _ => true end.

(** A socket's state. *)
Inductive Ready := RsConnecting | RsOpen | RsClosing | RsClosed.
Inductive LeaveClose := LcNow | LcWhenOpen | LcNothing.
Definition leave_close (r : Ready) : LeaveClose :=
  match r with RsOpen => LcNow | RsConnecting => LcWhenOpen | _ => LcNothing end.

(** ** The band that plays *)

Record LineupInfo := mkLineupInfo {
  lfo_active : LineupRef;
  lfo_lineups : list LineupRef;
  lfo_playing : bool;
  lfo_leader : bool;
  lfo_can_switch : bool;
}.

#[export] Instance LineupRef_eq_dec : EqDecision LineupRef.
Proof. solve_decision. Defined.
#[export] Instance LineupInfo_eq_dec : EqDecision LineupInfo.
Proof. solve_decision. Defined.

Definition LINEUP_RECHECK_MS : Z := 5000.

Record LineupReads := mkLineupReads { lrd_issued : Z; lrd_applied : Z; lrd_last_at : Z }.
Definition LineupReads_default : LineupReads := mkLineupReads 0 0 0.

(** A read starts: its number. *)
Definition reads_start (now : Z) (r : LineupReads) : LineupReads * Z :=
  (mkLineupReads (lrd_issued r + 1) (lrd_applied r) now, lrd_issued r + 1).

(** Whether the answer of read [seq] is taken. *)
Definition reads_take (seq : Z) (r : LineupReads) : LineupReads * bool :=
  if lrd_applied r <? seq then (mkLineupReads (lrd_issued r) seq (lrd_last_at r), true) else (r, false).

(** The status of a failed read. *)
Definition LineupAnswer : Type := result Z (option LineupInfo).

Inductive LineupView :=
| LvReading
| LvLegacy
| LvUnknown
| LvRoster (info : LineupInfo)
| LvRereading (info : LineupInfo)
| LvSignedOut
| LvNoPage.

#[export] Instance LineupView_eq_dec : EqDecision LineupView.
Proof. solve_decision. Defined.

Definition lv_read (answer : LineupAnswer) : LineupView :=
  match answer with Ok (Some info) => LvRoster info | Ok None => LvLegacy | Err _ => LvUnknown end.

Definition lv_apply (answer : LineupAnswer) (v : LineupView) : LineupView :=
  match answer with
  | Ok known => lv_read (Ok known)
  | Err status =>
      if status =? 401 then LvSignedOut
      else if (status =? 403) || (status =? 404) then LvNoPage
      else
        match v with
        | LvRoster info | LvRereading info => LvRoster info
        | LvLegacy | LvSignedOut | LvNoPage => v
        | _ => LvUnknown
        end
  end.

Definition lv_reread (v : LineupView) : LineupView :=
  match v with LvRoster info | LvRereading info => LvRereading info | _ => LvReading end.

Definition lv_connects (v : LineupView) : bool :=
  match v with
  | LvReading | LvRereading _ | LvSignedOut | LvNoPage => false
  | LvLegacy | LvUnknown => true
  | LvRoster info => lfo_playing info
  end.

Definition lv_signed_out (v : LineupView) : bool := match v with LvSignedOut => true | _ => false end.
Definition lv_no_page (v : LineupView) : bool := match v with LvNoPage => true | _ => false end.

Definition lv_notice (v : LineupView) : option LineupInfo :=
  match v with LvRoster info => if lfo_playing info then None else Some info | _ => None end.

Definition lv_badge (v : LineupView) : option string :=
  match v with LvRoster info | LvRereading info => Some (lr_name (lfo_active info)) | _ => None end.

Definition lv_now_plays (active : LineupRef) (v : LineupView) : LineupView :=
  let f info := mkLineupInfo active (lfo_lineups info) (lfo_playing info) (lfo_leader info) (lfo_can_switch info) in
  match v with LvRoster info => LvRoster (f info) | LvRereading info => LvRereading (f info) | v => v end.

Definition lv_switch_here (page bearer : string) (engineer : bool) (v : LineupView) : option LineupInfo :=
  let own := if engineer then bool_decide (page = "engineer") else bool_decide (page = bearer) in
  match v with
  | LvRoster info | LvRereading info => if lfo_can_switch info && lfo_playing info && own then Some info else None
  | _ => None
  end.

Definition lv_reads_before_reconnect (v : LineupView) : bool := match v with LvRoster _ => true | _ => false end.

Definition lv_recheck_due (now last : Z) (v : LineupView) : bool :=
  let unsure := match v with LvReading | LvRereading _ | LvUnknown => true | _ => false end in
  (unsure || bool_decide (is_Some (lv_notice v))) && (LINEUP_RECHECK_MS <=? now - last).

Inductive LineupWrite := LwDisconnected | LwView (v : LineupView).

Definition lineup_writes (current : LineupView) (answer : LineupAnswer) (connected : bool) : list LineupWrite :=
  let next := lv_apply answer current in
  (if connected && negb (lv_connects next) then [LwDisconnected] else [])
  ++ (if bool_decide (next = current) then [] else [LwView next]).

(** ** The strips *)

Inductive Category := CatMain | CatMics | CatStems | CatTech | CatMixes | CatHidden.

Definition cat_matches (c : Category) (category : string) : bool :=
  match c with
  | CatMain | CatHidden => false
  | CatMics => bool_decide (category = "mics")
  | CatStems => bool_decide (category = "stems")
  | CatTech => bool_decide (category = "tech")
  | CatMixes => bool_decide (category = "mixes")
  end.

Record DisplayChannel := mkDisplayChannel { dc_id : string; dc_name : string; dc_mine : bool; dc_eq : bool }.

(** The place of a stem, by its name in capitals (of ASCII letters). *)
Definition stem_rank (ch : DisplayChannel) : nat :=
  let name := ascii_upper (dc_name ch) in
  if bool_decide (name = "CLICK") then 0%nat else if bool_decide (name = "GUIDE") then 1%nat else 2%nat.

Definition display_channels (chs : list Channel) (active : Category) (pinned hidden : list string) : list DisplayChannel :=
  let shown ch :=
    match active with
    | CatHidden => bool_decide (ch_id ch ∈ hidden)
    | CatMain => ch_own ch || bool_decide (ch_id ch ∈ pinned)
    | cat => cat_matches cat (ch_category ch) && negb (bool_decide (ch_id ch ∈ hidden))
    end in
  let result := (fun ch => mkDisplayChannel (ch_id ch) (ch_name ch) (ch_own ch) (ch_eq ch)) <$> filter (fun ch => shown ch = true) chs in
  match active with
  | CatStems => sort_by (fun a b => (stem_rank a <=? stem_rank b)%nat) result
  | CatMain => sort_by (fun a b => dc_mine a || negb (dc_mine b)) result
  | _ => result
  end.

Inductive MuteClick := MuteToggle (muted : bool) | MuteMasked (muted : bool).

Definition mute_click (id : string) (shown_muted : bool) (soloed : gset string) (pre_solo_mutes : gmap string bool) : MuteClick :=
  if negb (bool_decide (soloed = ∅)) && negb (bool_decide (id ∈ soloed))
  then MuteMasked (negb (default false (pre_solo_mutes !! id)))
  else MuteToggle (negb shown_muted).

Example stems_in_order :
  dc_id <$> display_channels
    [mkChannel "keys" "KEYS" (S754_zero false) (S754_zero false) false "stems" false false;
     mkChannel "guide" "Guide" (S754_zero false) (S754_zero false) false "stems" false false;
     mkChannel "click" "CLICK" (S754_zero false) (S754_zero false) false "stems" false false] CatStems [] []
  = ["click"; "guide"; "keys"].
Proof. reflexivity. Qed.

(** * A mixer page ([iem-ui/src/pages/mixer/connection.rs], [state.rs], [components.rs])

    The signals of a page that the server's messages and the user's solo and
    mute clicks change, one definition per message handler; a socket that opens
    or closes, the answers of [/api/lineup], the reconnect tick and the watchdog.
    Drawing, audio and the modals' own state are left out. *)

From S2P Require Import Prelude F64 Text UiMsg SiteView.
From Stdlib Require Import SpecFloat.
From stdpp Require Import options.
Local Open Scope Z_scope.
#[local] Unset Default Proof Using.

Inductive TalkState := TalkIdle | TalkLive | TalkInUse | TalkMicBlocked | TalkUnsupported.

Record LimiterView := mkLimiterView { lvw_limit_db : f32; lvw_limit_norm : f32; lvw_enabled : bool; lvw_active_seconds : f64 }.

Definition f32_zero : f32 := S754_zero false.

Record UiPage := mkUiPage {
  up_channels : list Channel;
  up_meters : gmap string (f32 * f32);
  up_connected : bool;
  up_loading : bool;
  up_touched : gmap string bool;
  up_global_level : f32;
  up_global_muted : bool;
  up_global_touched : bool;
  up_stems_level : f32;
  up_stems_muted : bool;
  up_stems_touched : bool;
  up_stems_group : option string;
  up_eq_bands : list UiEqBand;
  up_eq_loading : bool;
  up_limiter : LimiterView;
  up_limiter_loading : bool;
  up_data_pulse : bool;
  up_pinned : list string;
  up_hidden : list string;
  up_network_mode : string;
  up_page_mix : option string;
  up_soloed : gset string;
  up_pre_solo_mutes : gmap string bool;
  up_alert_data : option (string * string);
  up_alert_active : bool;
  up_talk_state : TalkState;
  up_talk_id : option string;
  up_console : option ConsoleInfo;
  up_engineer_talking : bool;
  up_tunnel : option TunnelStatusInfo;
  up_lineup : LineupView;
  up_reads : LineupReads;
  up_hello_seen : bool;
  up_visible : bool;
  up_last_meter : Z;
  up_last_frame : Z;
  up_attempt : Z;
  up_fails : Z;
  up_last_attempt : Z;
}.

(** A page as it is mounted. *)
Definition UiPage_new : UiPage :=
  mkUiPage [] ∅ false true ∅ f32_zero false false f32_zero false false None [] false (mkLimiterView (f32_of_int (-6)) f32_zero true f64_0) false false [] [] "" None ∅ ∅ None false TalkIdle None None false None LvReading LineupReads_default false true 0 0 0 0 0.

Definition put_channels (x : list Channel) (p : UiPage) : UiPage :=
  mkUiPage x (up_meters p) (up_connected p) (up_loading p) (up_touched p) (up_global_level p) (up_global_muted p) (up_global_touched p) (up_stems_level p) (up_stems_muted p) (up_stems_touched p) (up_stems_group p) (up_eq_bands p) (up_eq_loading p) (up_limiter p) (up_limiter_loading p) (up_data_pulse p) (up_pinned p) (up_hidden p) (up_network_mode p) (up_page_mix p) (up_soloed p) (up_pre_solo_mutes p) (up_alert_data p) (up_alert_active p) (up_talk_state p) (up_talk_id p) (up_console p) (up_engineer_talking p) (up_tunnel p) (up_lineup p) (up_reads p) (up_hello_seen p) (up_visible p) (up_last_meter p) (up_last_frame p) (up_attempt p) (up_fails p) (up_last_attempt p).
Definition put_meters (x : gmap string (f32 * f32)) (p : UiPage) : UiPage :=
  mkUiPage (up_channels p) x (up_connected p) (up_loading p) (up_touched p) (up_global_level p) (up_global_muted p) (up_global_touched p) (up_stems_level p) (up_stems_muted p) (up_stems_touched p) (up_stems_group p) (up_eq_bands p) (up_eq_loading p) (up_limiter p) (up_limiter_loading p) (up_data_pulse p) (up_pinned p) (up_hidden p) (up_network_mode p) (up_page_mix p) (up_soloed p) (up_pre_solo_mutes p) (up_alert_data p) (up_alert_active p) (up_talk_state p) (up_talk_id p) (up_console p) (up_engineer_talking p) (up_tunnel p) (up_lineup p) (up_reads p) (up_hello_seen p) (up_visible p) (up_last_meter p) (up_last_frame p) (up_attempt p) (up_fails p) (up_last_attempt p).
Definition put_connected (x : bool) (p : UiPage) : UiPage :=
  mkUiPage (up_channels p) (up_meters p) x (up_loading p) (up_touched p) (up_global_level p) (up_global_muted p) (up_global_touched p) (up_stems_level p) (up_stems_muted p) (up_stems_touched p) (up_stems_group p) (up_eq_bands p) (up_eq_loading p) (up_limiter p) (up_limiter_loading p) (up_data_pulse p) (up_pinned p) (up_hidden p) (up_network_mode p) (up_page_mix p) (up_soloed p) (up_pre_solo_mutes p) (up_alert_data p) (up_alert_active p) (up_talk_state p) (up_talk_id p) (up_console p) (up_engineer_talking p) (up_tunnel p) (up_lineup p) (up_reads p) (up_hello_seen p) (up_visible p) (up_last_meter p) (up_last_frame p) (up_attempt p) (up_fails p) (up_last_attempt p).
Definition put_loading (x : bool) (p : UiPage) : UiPage :=
  mkUiPage (up_channels p) (up_meters p) (up_connected p) x (up_touched p) (up_global_level p) (up_global_muted p) (up_global_touched p) (up_stems_level p) (up_stems_muted p) (up_stems_touched p) (up_stems_group p) (up_eq_bands p) (up_eq_loading p) (up_limiter p) (up_limiter_loading p) (up_data_pulse p) (up_pinned p) (up_hidden p) (up_network_mode p) (up_page_mix p) (up_soloed p) (up_pre_solo_mutes p) (up_alert_data p) (up_alert_active p) (up_talk_state p) (up_talk_id p) (up_console p) (up_engineer_talking p) (up_tunnel p) (up_lineup p) (up_reads p) (up_hello_seen p) (up_visible p) (up_last_meter p) (up_last_frame p) (up_attempt p) (up_fails p) (up_last_attempt p).
Definition put_touched (x : gmap string bool) (p : UiPage) : UiPage :=
  mkUiPage (up_channels p) (up_meters p) (up_connected p) (up_loading p) x (up_global_level p) (up_global_muted p) (up_global_touched p) (up_stems_level p) (up_stems_muted p) (up_stems_touched p) (up_stems_group p) (up_eq_bands p) (up_eq_loading p) (up_limiter p) (up_limiter_loading p) (up_data_pulse p) (up_pinned p) (up_hidden p) (up_network_mode p) (up_page_mix p) (up_soloed p) (up_pre_solo_mutes p) (up_alert_data p) (up_alert_active p) (up_talk_state p) (up_talk_id p) (up_console p) (up_engineer_talking p) (up_tunnel p) (up_lineup p) (up_reads p) (up_hello_seen p) (up_visible p) (up_last_meter p) (up_last_frame p) (up_attempt p) (up_fails p) (up_last_attempt p).
Definition put_global_level (x : f32) (p : UiPage) : UiPage :=
  mkUiPage (up_channels p) (up_meters p) (up_connected p) (up_loading p) (up_touched p) x (up_global_muted p) (up_global_touched p) (up_stems_level p) (up_stems_muted p) (up_stems_touched p) (up_stems_group p) (up_eq_bands p) (up_eq_loading p) (up_limiter p) (up_limiter_loading p) (up_data_pulse p) (up_pinned p) (up_hidden p) (up_network_mode p) (up_page_mix p) (up_soloed p) (up_pre_solo_mutes p) (up_alert_data p) (up_alert_active p) (up_talk_state p) (up_talk_id p) (up_console p) (up_engineer_talking p) (up_tunnel p) (up_lineup p) (up_reads p) (up_hello_seen p) (up_visible p) (up_last_meter p) (up_last_frame p) (up_attempt p) (up_fails p) (up_last_attempt p).
Definition put_global_muted (x : bool) (p : UiPage) : UiPage :=
  mkUiPage (up_channels p) (up_meters p) (up_connected p) (up_loading p) (up_touched p) (up_global_level p) x (up_global_touched p) (up_stems_level p) (up_stems_muted p) (up_stems_touched p) (up_stems_group p) (up_eq_bands p) (up_eq_loading p) (up_limiter p) (up_limiter_loading p) (up_data_pulse p) (up_pinned p) (up_hidden p) (up_network_mode p) (up_page_mix p) (up_soloed p) (up_pre_solo_mutes p) (up_alert_data p) (up_alert_active p) (up_talk_state p) (up_talk_id p) (up_console p) (up_engineer_talking p) (up_tunnel p) (up_lineup p) (up_reads p) (up_hello_seen p) (up_visible p) (up_last_meter p) (up_last_frame p) (up_attempt p) (up_fails p) (up_last_attempt p).
Definition put_global_touched (x : bool) (p : UiPage) : UiPage :=
  mkUiPage (up_channels p) (up_meters p) (up_connected p) (up_loading p) (up_touched p) (up_global_level p) (up_global_muted p) x (up_stems_level p) (up_stems_muted p) (up_stems_touched p) (up_stems_group p) (up_eq_bands p) (up_eq_loading p) (up_limiter p) (up_limiter_loading p) (up_data_pulse p) (up_pinned p) (up_hidden p) (up_network_mode p) (up_page_mix p) (up_soloed p) (up_pre_solo_mutes p) (up_alert_data p) (up_alert_active p) (up_talk_state p) (up_talk_id p) (up_console p) (up_engineer_talking p) (up_tunnel p) (up_lineup p) (up_reads p) (up_hello_seen p) (up_visible p) (up_last_meter p) (up_last_frame p) (up_attempt p) (up_fails p) (up_last_attempt p).
Definition put_stems_level (x : f32) (p : UiPage) : UiPage :=
  mkUiPage (up_channels p) (up_meters p) (up_connected p) (up_loading p) (up_touched p) (up_global_level p) (up_global_muted p) (up_global_touched p) x (up_stems_muted p) (up_stems_touched p) (up_stems_group p) (up_eq_bands p) (up_eq_loading p) (up_limiter p) (up_limiter_loading p) (up_data_pulse p) (up_pinned p) (up_hidden p) (up_network_mode p) (up_page_mix p) (up_soloed p) (up_pre_solo_mutes p) (up_alert_data p) (up_alert_active p) (up_talk_state p) (up_talk_id p) (up_console p) (up_engineer_talking p) (up_tunnel p) (up_lineup p) (up_reads p) (up_hello_seen p) (up_visible p) (up_last_meter p) (up_last_frame p) (up_attempt p) (up_fails p) (up_last_attempt p).
Definition put_stems_muted (x : bool) (p : UiPage) : UiPage :=
  mkUiPage (up_channels p) (up_meters p) (up_connected p) (up_loading p) (up_touched p) (up_global_level p) (up_global_muted p) (up_global_touched p) (up_stems_level p) x (up_stems_touched p) (up_stems_group p) (up_eq_bands p) (up_eq_loading p) (up_limiter p) (up_limiter_loading p) (up_data_pulse p) (up_pinned p) (up_hidden p) (up_network_mode p) (up_page_mix p) (up_soloed p) (up_pre_solo_mutes p) (up_alert_data p) (up_alert_active p) (up_talk_state p) (up_talk_id p) (up_console p) (up_engineer_talking p) (up_tunnel p) (up_lineup p) (up_reads p) (up_hello_seen p) (up_visible p) (up_last_meter p) (up_last_frame p) (up_attempt p) (up_fails p) (up_last_attempt p).
Definition put_stems_touched (x : bool) (p : UiPage) : UiPage :=
  mkUiPage (up_channels p) (up_meters p) (up_connected p) (up_loading p) (up_touched p) (up_global_level p) (up_global_muted p) (up_global_touched p) (up_stems_level p) (up_stems_muted p) x (up_stems_group p) (up_eq_bands p) (up_eq_loading p) (up_limiter p) (up_limiter_loading p) (up_data_pulse p) (up_pinned p) (up_hidden p) (up_network_mode p) (up_page_mix p) (up_soloed p) (up_pre_solo_mutes p) (up_alert_data p) (up_alert_active p) (up_talk_state p) (up_talk_id p) (up_console p) (up_engineer_talking p) (up_tunnel p) (up_lineup p) (up_reads p) (up_hello_seen p) (up_visible p) (up_last_meter p) (up_last_frame p) (up_attempt p) (up_fails p) (up_last_attempt p).
Definition put_stems_group (x : option string) (p : UiPage) : UiPage :=
  mkUiPage (up_channels p) (up_meters p) (up_connected p) (up_loading p) (up_touched p) (up_global_level p) (up_global_muted p) (up_global_touched p) (up_stems_level p) (up_stems_muted p) (up_stems_touched p) x (up_eq_bands p) (up_eq_loading p) (up_limiter p) (up_limiter_loading p) (up_data_pulse p) (up_pinned p) (up_hidden p) (up_network_mode p) (up_page_mix p) (up_soloed p) (up_pre_solo_mutes p) (up_alert_data p) (up_alert_active p) (up_talk_state p) (up_talk_id p) (up_console p) (up_engineer_talking p) (up_tunnel p) (up_lineup p) (up_reads p) (up_hello_seen p) (up_visible p) (up_last_meter p) (up_last_frame p) (up_attempt p) (up_fails p) (up_last_attempt p).
Definition put_eq_bands (x : list UiEqBand) (p : UiPage) : UiPage :=
  mkUiPage (up_channels p) (up_meters p) (up_connected p) (up_loading p) (up_touched p) (up_global_level p) (up_global_muted p) (up_global_touched p) (up_stems_level p) (up_stems_muted p) (up_stems_touched p) (up_stems_group p) x (up_eq_loading p) (up_limiter p) (up_limiter_loading p) (up_data_pulse p) (up_pinned p) (up_hidden p) (up_network_mode p) (up_page_mix p) (up_soloed p) (up_pre_solo_mutes p) (up_alert_data p) (up_alert_active p) (up_talk_state p) (up_talk_id p) (up_console p) (up_engineer_talking p) (up_tunnel p) (up_lineup p) (up_reads p) (up_hello_seen p) (up_visible p) (up_last_meter p) (up_last_frame p) (up_attempt p) (up_fails p) (up_last_attempt p).
Definition put_eq_loading (x : bool) (p : UiPage) : UiPage :=
  mkUiPage (up_channels p) (up_meters p) (up_connected p) (up_loading p) (up_touched p) (up_global_level p) (up_global_muted p) (up_global_touched p) (up_stems_level p) (up_stems_muted p) (up_stems_touched p) (up_stems_group p) (up_eq_bands p) x (up_limiter p) (up_limiter_loading p) (up_data_pulse p) (up_pinned p) (up_hidden p) (up_network_mode p) (up_page_mix p) (up_soloed p) (up_pre_solo_mutes p) (up_alert_data p) (up_alert_active p) (up_talk_state p) (up_talk_id p) (up_console p) (up_engineer_talking p) (up_tunnel p) (up_lineup p) (up_reads p) (up_hello_seen p) (up_visible p) (up_last_meter p) (up_last_frame p) (up_attempt p) (up_fails p) (up_last_attempt p).
Definition put_limiter (x : LimiterView) (p : UiPage) : UiPage :=
  mkUiPage (up_channels p) (up_meters p) (up_connected p) (up_loading p) (up_touched p) (up_global_level p) (up_global_muted p) (up_global_touched p) (up_stems_level p) (up_stems_muted p) (up_stems_touched p) (up_stems_group p) (up_eq_bands p) (up_eq_loading p) x (up_limiter_loading p) (up_data_pulse p) (up_pinned p) (up_hidden p) (up_network_mode p) (up_page_mix p) (up_soloed p) (up_pre_solo_mutes p) (up_alert_data p) (up_alert_active p) (up_talk_state p) (up_talk_id p) (up_console p) (up_engineer_talking p) (up_tunnel p) (up_lineup p) (up_reads p) (up_hello_seen p) (up_visible p) (up_last_meter p) (up_last_frame p) (up_attempt p) (up_fails p) (up_last_attempt p).
Definition put_limiter_loading (x : bool) (p : UiPage) : UiPage :=
  mkUiPage (up_channels p) (up_meters p) (up_connected p) (up_loading p) (up_touched p) (up_global_level p) (up_global_muted p) (up_global_touched p) (up_stems_level p) (up_stems_muted p) (up_stems_touched p) (up_stems_group p) (up_eq_bands p) (up_eq_loading p) (up_limiter p) x (up_data_pulse p) (up_pinned p) (up_hidden p) (up_network_mode p) (up_page_mix p) (up_soloed p) (up_pre_solo_mutes p) (up_alert_data p) (up_alert_active p) (up_talk_state p) (up_talk_id p) (up_console p) (up_engineer_talking p) (up_tunnel p) (up_lineup p) (up_reads p) (up_hello_seen p) (up_visible p) (up_last_meter p) (up_last_frame p) (up_attempt p) (up_fails p) (up_last_attempt p).
Definition put_data_pulse (x : bool) (p : UiPage) : UiPage :=
  mkUiPage (up_channels p) (up_meters p) (up_connected p) (up_loading p) (up_touched p) (up_global_level p) (up_global_muted p) (up_global_touched p) (up_stems_level p) (up_stems_muted p) (up_stems_touched p) (up_stems_group p) (up_eq_bands p) (up_eq_loading p) (up_limiter p) (up_limiter_loading p) x (up_pinned p) (up_hidden p) (up_network_mode p) (up_page_mix p) (up_soloed p) (up_pre_solo_mutes p) (up_alert_data p) (up_alert_active p) (up_talk_state p) (up_talk_id p) (up_console p) (up_engineer_talking p) (up_tunnel p) (up_lineup p) (up_reads p) (up_hello_seen p) (up_visible p) (up_last_meter p) (up_last_frame p) (up_attempt p) (up_fails p) (up_last_attempt p).
Definition put_pinned (x : list string) (p : UiPage) : UiPage :=
  mkUiPage (up_channels p) (up_meters p) (up_connected p) (up_loading p) (up_touched p) (up_global_level p) (up_global_muted p) (up_global_touched p) (up_stems_level p) (up_stems_muted p) (up_stems_touched p) (up_stems_group p) (up_eq_bands p) (up_eq_loading p) (up_limiter p) (up_limiter_loading p) (up_data_pulse p) x (up_hidden p) (up_network_mode p) (up_page_mix p) (up_soloed p) (up_pre_solo_mutes p) (up_alert_data p) (up_alert_active p) (up_talk_state p) (up_talk_id p) (up_console p) (up_engineer_talking p) (up_tunnel p) (up_lineup p) (up_reads p) (up_hello_seen p) (up_visible p) (up_last_meter p) (up_last_frame p) (up_attempt p) (up_fails p) (up_last_attempt p).
Definition put_hidden (x : list string) (p : UiPage) : UiPage :=
  mkUiPage (up_channels p) (up_meters p) (up_connected p) (up_loading p) (up_touched p) (up_global_level p) (up_global_muted p) (up_global_touched p) (up_stems_level p) (up_stems_muted p) (up_stems_touched p) (up_stems_group p) (up_eq_bands p) (up_eq_loading p) (up_limiter p) (up_limiter_loading p) (up_data_pulse p) (up_pinned p) x (up_network_mode p) (up_page_mix p) (up_soloed p) (up_pre_solo_mutes p) (up_alert_data p) (up_alert_active p) (up_talk_state p) (up_talk_id p) (up_console p) (up_engineer_talking p) (up_tunnel p) (up_lineup p) (up_reads p) (up_hello_seen p) (up_visible p) (up_last_meter p) (up_last_frame p) (up_attempt p) (up_fails p) (up_last_attempt p).
Definition put_network_mode (x : string) (p : UiPage) : UiPage :=
  mkUiPage (up_channels p) (up_meters p) (up_connected p) (up_loading p) (up_touched p) (up_global_level p) (up_global_muted p) (up_global_touched p) (up_stems_level p) (up_stems_muted p) (up_stems_touched p) (up_stems_group p) (up_eq_bands p) (up_eq_loading p) (up_limiter p) (up_limiter_loading p) (up_data_pulse p) (up_pinned p) (up_hidden p) x (up_page_mix p) (up_soloed p) (up_pre_solo_mutes p) (up_alert_data p) (up_alert_active p) (up_talk_state p) (up_talk_id p) (up_console p) (up_engineer_talking p) (up_tunnel p) (up_lineup p) (up_reads p) (up_hello_seen p) (up_visible p) (up_last_meter p) (up_last_frame p) (up_attempt p) (up_fails p) (up_last_attempt p).
Definition put_page_mix (x : option string) (p : UiPage) : UiPage :=
  mkUiPage (up_channels p) (up_meters p) (up_connected p) (up_loading p) (up_touched p) (up_global_level p) (up_global_muted p) (up_global_touched p) (up_stems_level p) (up_stems_muted p) (up_stems_touched p) (up_stems_group p) (up_eq_bands p) (up_eq_loading p) (up_limiter p) (up_limiter_loading p) (up_data_pulse p) (up_pinned p) (up_hidden p) (up_network_mode p) x (up_soloed p) (up_pre_solo_mutes p) (up_alert_data p) (up_alert_active p) (up_talk_state p) (up_talk_id p) (up_console p) (up_engineer_talking p) (up_tunnel p) (up_lineup p) (up_reads p) (up_hello_seen p) (up_visible p) (up_last_meter p) (up_last_frame p) (up_attempt p) (up_fails p) (up_last_attempt p).
Definition put_soloed (x : gset string) (p : UiPage) : UiPage :=
  mkUiPage (up_channels p) (up_meters p) (up_connected p) (up_loading p) (up_touched p) (up_global_level p) (up_global_muted p) (up_global_touched p) (up_stems_level p) (up_stems_muted p) (up_stems_touched p) (up_stems_group p) (up_eq_bands p) (up_eq_loading p) (up_limiter p) (up_limiter_loading p) (up_data_pulse p) (up_pinned p) (up_hidden p) (up_network_mode p) (up_page_mix p) x (up_pre_solo_mutes p) (up_alert_data p) (up_alert_active p) (up_talk_state p) (up_talk_id p) (up_console p) (up_engineer_talking p) (up_tunnel p) (up_lineup p) (up_reads p) (up_hello_seen p) (up_visible p) (up_last_meter p) (up_last_frame p) (up_attempt p) (up_fails p) (up_last_attempt p).
Definition put_pre_solo_mutes (x : gmap string bool) (p : UiPage) : UiPage :=
  mkUiPage (up_channels p) (up_meters p) (up_connected p) (up_loading p) (up_touched p) (up_global_level p) (up_global_muted p) (up_global_touched p) (up_stems_level p) (up_stems_muted p) (up_stems_touched p) (up_stems_group p) (up_eq_bands p) (up_eq_loading p) (up_limiter p) (up_limiter_loading p) (up_data_pulse p) (up_pinned p) (up_hidden p) (up_network_mode p) (up_page_mix p) (up_soloed p) x (up_alert_data p) (up_alert_active p) (up_talk_state p) (up_talk_id p) (up_console p) (up_engineer_talking p) (up_tunnel p) (up_lineup p) (up_reads p) (up_hello_seen p) (up_visible p) (up_last_meter p) (up_last_frame p) (up_attempt p) (up_fails p) (up_last_attempt p).
Definition put_alert_data (x : option (string * string)) (p : UiPage) : UiPage :=
  mkUiPage (up_channels p) (up_meters p) (up_connected p) (up_loading p) (up_touched p) (up_global_level p) (up_global_muted p) (up_global_touched p) (up_stems_level p) (up_stems_muted p) (up_stems_touched p) (up_stems_group p) (up_eq_bands p) (up_eq_loading p) (up_limiter p) (up_limiter_loading p) (up_data_pulse p) (up_pinned p) (up_hidden p) (up_network_mode p) (up_page_mix p) (up_soloed p) (up_pre_solo_mutes p) x (up_alert_active p) (up_talk_state p) (up_talk_id p) (up_console p) (up_engineer_talking p) (up_tunnel p) (up_lineup p) (up_reads p) (up_hello_seen p) (up_visible p) (up_last_meter p) (up_last_frame p) (up_attempt p) (up_fails p) (up_last_attempt p).
Definition put_alert_active (x : bool) (p : UiPage) : UiPage :=
  mkUiPage (up_channels p) (up_meters p) (up_connected p) (up_loading p) (up_touched p) (up_global_level p) (up_global_muted p) (up_global_touched p) (up_stems_level p) (up_stems_muted p) (up_stems_touched p) (up_stems_group p) (up_eq_bands p) (up_eq_loading p) (up_limiter p) (up_limiter_loading p) (up_data_pulse p) (up_pinned p) (up_hidden p) (up_network_mode p) (up_page_mix p) (up_soloed p) (up_pre_solo_mutes p) (up_alert_data p) x (up_talk_state p) (up_talk_id p) (up_console p) (up_engineer_talking p) (up_tunnel p) (up_lineup p) (up_reads p) (up_hello_seen p) (up_visible p) (up_last_meter p) (up_last_frame p) (up_attempt p) (up_fails p) (up_last_attempt p).
Definition put_talk_state (x : TalkState) (p : UiPage) : UiPage :=
  mkUiPage (up_channels p) (up_meters p) (up_connected p) (up_loading p) (up_touched p) (up_global_level p) (up_global_muted p) (up_global_touched p) (up_stems_level p) (up_stems_muted p) (up_stems_touched p) (up_stems_group p) (up_eq_bands p) (up_eq_loading p) (up_limiter p) (up_limiter_loading p) (up_data_pulse p) (up_pinned p) (up_hidden p) (up_network_mode p) (up_page_mix p) (up_soloed p) (up_pre_solo_mutes p) (up_alert_data p) (up_alert_active p) x (up_talk_id p) (up_console p) (up_engineer_talking p) (up_tunnel p) (up_lineup p) (up_reads p) (up_hello_seen p) (up_visible p) (up_last_meter p) (up_last_frame p) (up_attempt p) (up_fails p) (up_last_attempt p).
Definition put_talk_id (x : option string) (p : UiPage) : UiPage :=
  mkUiPage (up_channels p) (up_meters p) (up_connected p) (up_loading p) (up_touched p) (up_global_level p) (up_global_muted p) (up_global_touched p) (up_stems_level p) (up_stems_muted p) (up_stems_touched p) (up_stems_group p) (up_eq_bands p) (up_eq_loading p) (up_limiter p) (up_limiter_loading p) (up_data_pulse p) (up_pinned p) (up_hidden p) (up_network_mode p) (up_page_mix p) (up_soloed p) (up_pre_solo_mutes p) (up_alert_data p) (up_alert_active p) (up_talk_state p) x (up_console p) (up_engineer_talking p) (up_tunnel p) (up_lineup p) (up_reads p) (up_hello_seen p) (up_visible p) (up_last_meter p) (up_last_frame p) (up_attempt p) (up_fails p) (up_last_attempt p).
Definition put_console (x : option ConsoleInfo) (p : UiPage) : UiPage :=
  mkUiPage (up_channels p) (up_meters p) (up_connected p) (up_loading p) (up_touched p) (up_global_level p) (up_global_muted p) (up_global_touched p) (up_stems_level p) (up_stems_muted p) (up_stems_touched p) (up_stems_group p) (up_eq_bands p) (up_eq_loading p) (up_limiter p) (up_limiter_loading p) (up_data_pulse p) (up_pinned p) (up_hidden p) (up_network_mode p) (up_page_mix p) (up_soloed p) (up_pre_solo_mutes p) (up_alert_data p) (up_alert_active p) (up_talk_state p) (up_talk_id p) x (up_engineer_talking p) (up_tunnel p) (up_lineup p) (up_reads p) (up_hello_seen p) (up_visible p) (up_last_meter p) (up_last_frame p) (up_attempt p) (up_fails p) (up_last_attempt p).
Definition put_engineer_talking (x : bool) (p : UiPage) : UiPage :=
  mkUiPage (up_channels p) (up_meters p) (up_connected p) (up_loading p) (up_touched p) (up_global_level p) (up_global_muted p) (up_global_touched p) (up_stems_level p) (up_stems_muted p) (up_stems_touched p) (up_stems_group p) (up_eq_bands p) (up_eq_loading p) (up_limiter p) (up_limiter_loading p) (up_data_pulse p) (up_pinned p) (up_hidden p) (up_network_mode p) (up_page_mix p) (up_soloed p) (up_pre_solo_mutes p) (up_alert_data p) (up_alert_active p) (up_talk_state p) (up_talk_id p) (up_console p) x (up_tunnel p) (up_lineup p) (up_reads p) (up_hello_seen p) (up_visible p) (up_last_meter p) (up_last_frame p) (up_attempt p) (up_fails p) (up_last_attempt p).
Definition put_tunnel (x : option TunnelStatusInfo) (p : UiPage) : UiPage :=
  mkUiPage (up_channels p) (up_meters p) (up_connected p) (up_loading p) (up_touched p) (up_global_level p) (up_global_muted p) (up_global_touched p) (up_stems_level p) (up_stems_muted p) (up_stems_touched p) (up_stems_group p) (up_eq_bands p) (up_eq_loading p) (up_limiter p) (up_limiter_loading p) (up_data_pulse p) (up_pinned p) (up_hidden p) (up_network_mode p) (up_page_mix p) (up_soloed p) (up_pre_solo_mutes p) (up_alert_data p) (up_alert_active p) (up_talk_state p) (up_talk_id p) (up_console p) (up_engineer_talking p) x (up_lineup p) (up_reads p) (up_hello_seen p) (up_visible p) (up_last_meter p) (up_last_frame p) (up_attempt p) (up_fails p) (up_last_attempt p).
Definition put_lineup (x : LineupView) (p : UiPage) : UiPage :=
  mkUiPage (up_channels p) (up_meters p) (up_connected p) (up_loading p) (up_touched p) (up_global_level p) (up_global_muted p) (up_global_touched p) (up_stems_level p) (up_stems_muted p) (up_stems_touched p) (up_stems_group p) (up_eq_bands p) (up_eq_loading p) (up_limiter p) (up_limiter_loading p) (up_data_pulse p) (up_pinned p) (up_hidden p) (up_network_mode p) (up_page_mix p) (up_soloed p) (up_pre_solo_mutes p) (up_alert_data p) (up_alert_active p) (up_talk_state p) (up_talk_id p) (up_console p) (up_engineer_talking p) (up_tunnel p) x (up_reads p) (up_hello_seen p) (up_visible p) (up_last_meter p) (up_last_frame p) (up_attempt p) (up_fails p) (up_last_attempt p).
Definition put_reads (x : LineupReads) (p : UiPage) : UiPage :=
  mkUiPage (up_channels p) (up_meters p) (up_connected p) (up_loading p) (up_touched p) (up_global_level p) (up_global_muted p) (up_global_touched p) (up_stems_level p) (up_stems_muted p) (up_stems_touched p) (up_stems_group p) (up_eq_bands p) (up_eq_loading p) (up_limiter p) (up_limiter_loading p) (up_data_pulse p) (up_pinned p) (up_hidden p) (up_network_mode p) (up_page_mix p) (up_soloed p) (up_pre_solo_mutes p) (up_alert_data p) (up_alert_active p) (up_talk_state p) (up_talk_id p) (up_console p) (up_engineer_talking p) (up_tunnel p) (up_lineup p) x (up_hello_seen p) (up_visible p) (up_last_meter p) (up_last_frame p) (up_attempt p) (up_fails p) (up_last_attempt p).
Definition put_hello_seen (x : bool) (p : UiPage) : UiPage :=
  mkUiPage (up_channels p) (up_meters p) (up_connected p) (up_loading p) (up_touched p) (up_global_level p) (up_global_muted p) (up_global_touched p) (up_stems_level p) (up_stems_muted p) (up_stems_touched p) (up_stems_group p) (up_eq_bands p) (up_eq_loading p) (up_limiter p) (up_limiter_loading p) (up_data_pulse p) (up_pinned p) (up_hidden p) (up_network_mode p) (up_page_mix p) (up_soloed p) (up_pre_solo_mutes p) (up_alert_data p) (up_alert_active p) (up_talk_state p) (up_talk_id p) (up_console p) (up_engineer_talking p) (up_tunnel p) (up_lineup p) (up_reads p) x (up_visible p) (up_last_meter p) (up_last_frame p) (up_attempt p) (up_fails p) (up_last_attempt p).
Definition put_visible (x : bool) (p : UiPage) : UiPage :=
  mkUiPage (up_channels p) (up_meters p) (up_connected p) (up_loading p) (up_touched p) (up_global_level p) (up_global_muted p) (up_global_touched p) (up_stems_level p) (up_stems_muted p) (up_stems_touched p) (up_stems_group p) (up_eq_bands p) (up_eq_loading p) (up_limiter p) (up_limiter_loading p) (up_data_pulse p) (up_pinned p) (up_hidden p) (up_network_mode p) (up_page_mix p) (up_soloed p) (up_pre_solo_mutes p) (up_alert_data p) (up_alert_active p) (up_talk_state p) (up_talk_id p) (up_console p) (up_engineer_talking p) (up_tunnel p) (up_lineup p) (up_reads p) (up_hello_seen p) x (up_last_meter p) (up_last_frame p) (up_attempt p) (up_fails p) (up_last_attempt p).
Definition put_last_meter (x : Z) (p : UiPage) : UiPage :=
  mkUiPage (up_channels p) (up_meters p) (up_connected p) (up_loading p) (up_touched p) (up_global_level p) (up_global_muted p) (up_global_touched p) (up_stems_level p) (up_stems_muted p) (up_stems_touched p) (up_stems_group p) (up_eq_bands p) (up_eq_loading p) (up_limiter p) (up_limiter_loading p) (up_data_pulse p) (up_pinned p) (up_hidden p) (up_network_mode p) (up_page_mix p) (up_soloed p) (up_pre_solo_mutes p) (up_alert_data p) (up_alert_active p) (up_talk_state p) (up_talk_id p) (up_console p) (up_engineer_talking p) (up_tunnel p) (up_lineup p) (up_reads p) (up_hello_seen p) (up_visible p) x (up_last_frame p) (up_attempt p) (up_fails p) (up_last_attempt p).
Definition put_last_frame (x : Z) (p : UiPage) : UiPage :=
  mkUiPage (up_channels p) (up_meters p) (up_connected p) (up_loading p) (up_touched p) (up_global_level p) (up_global_muted p) (up_global_touched p) (up_stems_level p) (up_stems_muted p) (up_stems_touched p) (up_stems_group p) (up_eq_bands p) (up_eq_loading p) (up_limiter p) (up_limiter_loading p) (up_data_pulse p) (up_pinned p) (up_hidden p) (up_network_mode p) (up_page_mix p) (up_soloed p) (up_pre_solo_mutes p) (up_alert_data p) (up_alert_active p) (up_talk_state p) (up_talk_id p) (up_console p) (up_engineer_talking p) (up_tunnel p) (up_lineup p) (up_reads p) (up_hello_seen p) (up_visible p) (up_last_meter p) x (up_attempt p) (up_fails p) (up_last_attempt p).
Definition put_attempt (x : Z) (p : UiPage) : UiPage :=
  mkUiPage (up_channels p) (up_meters p) (up_connected p) (up_loading p) (up_touched p) (up_global_level p) (up_global_muted p) (up_global_touched p) (up_stems_level p) (up_stems_muted p) (up_stems_touched p) (up_stems_group p) (up_eq_bands p) (up_eq_loading p) (up_limiter p) (up_limiter_loading p) (up_data_pulse p) (up_pinned p) (up_hidden p) (up_network_mode p) (up_page_mix p) (up_soloed p) (up_pre_solo_mutes p) (up_alert_data p) (up_alert_active p) (up_talk_state p) (up_talk_id p) (up_console p) (up_engineer_talking p) (up_tunnel p) (up_lineup p) (up_reads p) (up_hello_seen p) (up_visible p) (up_last_meter p) (up_last_frame p) x (up_fails p) (up_last_attempt p).
Definition put_fails (x : Z) (p : UiPage) : UiPage :=
  mkUiPage (up_channels p) (up_meters p) (up_connected p) (up_loading p) (up_touched p) (up_global_level p) (up_global_muted p) (up_global_touched p) (up_stems_level p) (up_stems_muted p) (up_stems_touched p) (up_stems_group p) (up_eq_bands p) (up_eq_loading p) (up_limiter p) (up_limiter_loading p) (up_data_pulse p) (up_pinned p) (up_hidden p) (up_network_mode p) (up_page_mix p) (up_soloed p) (up_pre_solo_mutes p) (up_alert_data p) (up_alert_active p) (up_talk_state p) (up_talk_id p) (up_console p) (up_engineer_talking p) (up_tunnel p) (up_lineup p) (up_reads p) (up_hello_seen p) (up_visible p) (up_last_meter p) (up_last_frame p) (up_attempt p) x (up_last_attempt p).
Definition put_last_attempt (x : Z) (p : UiPage) : UiPage :=
  mkUiPage (up_channels p) (up_meters p) (up_connected p) (up_loading p) (up_touched p) (up_global_level p) (up_global_muted p) (up_global_touched p) (up_stems_level p) (up_stems_muted p) (up_stems_touched p) (up_stems_group p) (up_eq_bands p) (up_eq_loading p) (up_limiter p) (up_limiter_loading p) (up_data_pulse p) (up_pinned p) (up_hidden p) (up_network_mode p) (up_page_mix p) (up_soloed p) (up_pre_solo_mutes p) (up_alert_data p) (up_alert_active p) (up_talk_state p) (up_talk_id p) (up_console p) (up_engineer_talking p) (up_tunnel p) (up_lineup p) (up_reads p) (up_hello_seen p) (up_visible p) (up_last_meter p) (up_last_frame p) (up_attempt p) (up_fails p) x.

(** ** What a message changes *)

Definition METER_THROTTLE_MS : Z := 50.
Definition meter_update_due (now last_applied : Z) : bool := METER_THROTTLE_MS <=? now - last_applied.

Definition channel_update_applies (touched : gmap string bool) (id : string) : bool := negb (is_touched touched id).

Definition update_channel (id : string) (level_db : f32) (muted : bool) (pan : f32) (chs : list Channel) : list Channel :=
  replace_channel (fun c => mkChannel (ch_id c) (ch_name c) level_db pan muted (ch_category c) (ch_eq c) (ch_own c)) id chs.

Inductive SoloChange := SoloUnchanged | SoloCleared | SoloEntered | SoloSwitched.

Definition solo_change (current new : gset string) : SoloChange :=
  if bool_decide (new = current) then SoloUnchanged
  else if bool_decide (new = ∅) then SoloCleared
  else if bool_decide (current = ∅) then SoloEntered
  else SoloSwitched.

Definition with_muted (f : Channel -> bool) (c : Channel) : Channel :=
  mkChannel (ch_id c) (ch_name c) (ch_level_db c) (ch_pan c) (f c) (ch_category c) (ch_eq c) (ch_own c).

Definition show_exclusive_solo (soloed : gset string) (chs : list Channel) : list Channel :=
  with_muted (fun c => negb (bool_decide (ch_id c ∈ soloed))) <$> chs.

(** The mutes of the channels, the last of an id. *)
Definition saved_mutes (chs : list Channel) : gmap string bool := list_to_map (rev ((fun c => (ch_id c, ch_muted c)) <$> chs)).

Definition replace_input (input : ConsoleInput) : list ConsoleInput -> list ConsoleInput :=
  fix go l := match l with [] => [] | i :: l => if decide (ci_id i = ci_id input) then input :: l else i :: go l end.
Definition update_console_input (input : ConsoleInput) (c : ConsoleInfo) : ConsoleInfo :=
  mkConsoleInfo (replace_input input (co_inputs c)) (co_limiters c) (co_pages c) (co_login c).

Definition clears_shown_alert (shown : option (string * string)) (cleared : string) : bool :=
  match shown with Some (member, _) => bool_decide (member = cleared) | None => false end.

(** What a handler does besides: a reload with its time recorded, a read of the
    band, the talking overlay, a command or a socket. *)
Inductive UiEffect :=
| FxReload (now : Z)
| FxReadLineup (seq : Z)
| FxOverlay (on : bool)
| FxSend (msg : UiCmd)
| FxConnect
| FxCheckToken
| FxCloseSocket.

Definition opt_put {A : Type} (o : option A) (put : A -> UiPage -> UiPage) (p : UiPage) : UiPage :=
  match o with Some a => put a p | None => p end.

(** [read_lineup] up to its request. *)
Definition read_lineup (now : Z) (p : UiPage) : UiPage * list UiEffect :=
  let '(reads, seq) := reads_start now (up_reads p) in (put_reads reads p, [FxReadLineup seq]).

Definition on_solo_update (new_solo : list string) (p : UiPage) : UiPage :=
  let new_soloed : gset string := list_to_set new_solo in
  match solo_change (up_soloed p) new_soloed with
  | SoloUnchanged => p
  | SoloCleared => put_soloed new_soloed (put_pre_solo_mutes ∅ p)
  | SoloEntered => put_soloed new_soloed (put_pre_solo_mutes (saved_mutes (up_channels p)) p)
  | SoloSwitched => put_soloed new_soloed (put_channels (show_exclusive_solo new_soloed (up_channels p)) p)
  end.

(** A message's handler at [now], [last_reload] as the browser keeps it. *)
Definition on_message (now : Z) (last_reload : option Z) (msg : ServerMsg) (p : UiPage) : UiPage * list UiEffect :=
  match msg with
  | SmHello proto _ min_client_proto =>
      (put_hello_seen true p, match on_hello OUR_PROTO proto min_client_proto now last_reload with Reload => [FxReload now] | Keep => [] end)
  | SmState new_chs conn global_level_db global_muted mix stems_level_db stems_muted group =>
      let p := put_channels (merge_or_replace_channels (up_channels p) new_chs (up_touched p)) p in
      let p := opt_put global_level_db put_global_level p in
      let p := opt_put global_muted put_global_muted p in
      let p := opt_put mix (fun m => put_page_mix (Some m)) p in
      let p := opt_put stems_level_db put_stems_level p in
      let p := opt_put stems_muted put_stems_muted p in
      (put_loading false (put_connected conn (put_stems_group group p)), [])
  | SmMeters m =>
      if negb (up_visible p) then (p, [])
      else if meter_update_due now (up_last_meter p)
      then (put_data_pulse (negb (up_data_pulse p)) (put_meters (m ∪ up_meters p) (put_last_meter now p)), [])
      else (p, [])
  | SmChannelUpdate id level_db muted pan =>
      (if channel_update_applies (up_touched p) id then put_channels (update_channel id level_db muted pan (up_channels p)) p else p, [])
  | SmGlobalVolumeUpdate level_db muted =>
      (if up_global_touched p then p else put_global_muted muted (put_global_level level_db p), [])
  | SmStemsVolumeUpdate level_db muted =>
      (if up_stems_touched p then p else put_stems_muted muted (put_stems_level level_db p), [])
  | SmConnectionChanged conn => (put_connected conn p, [])
  | SmCustomizationUpdate pinned hidden => (put_hidden hidden (put_pinned pinned p), [])
  | SmNetworkMode mode => (put_network_mode mode p, [])
  | SmTunnelStatus info => (put_tunnel (Some info) p, [])
  | SmSoloUpdate soloed => (on_solo_update soloed p, [])
  | SmAudioStatus _ _ => (p, [])
  | SmEngineerAlert from_member from_name => (put_alert_active true (put_alert_data (Some (from_member, from_name)) p), [])
  | SmAlertCleared cleared =>
      let p := put_alert_active false p in
      (if clears_shown_alert (up_alert_data p) cleared then put_alert_data None p else p, [])
  | SmActiveAlerts alerts =>
      (match alerts with a :: _ => put_alert_data (Some (ai_from_member a, ai_from_name a)) p | [] => p end, [])
  | SmTalkAcquired talk_id => (put_talk_state TalkLive (put_talk_id (Some talk_id) p), [])
  | SmTalkBusy _ => (put_talk_state TalkInUse p, [])
  | SmTalkReleased => (put_talk_state TalkIdle (put_talk_id None p), [])
  | SmEngineerTalking active => (put_engineer_talking active p, [FxOverlay active])
  | SmEqParams _ _ bands => (put_eq_loading false (put_eq_bands bands p), [])
  | SmConsole info => (put_console (Some info) p, [])
  | SmInputUpdate input => (put_console (update_console_input input <$> up_console p) p, [])
  | SmLimiterParams _ _ limit_db limit_norm enabled active_seconds =>
      (put_limiter_loading false (put_limiter (mkLimiterView limit_db limit_norm enabled active_seconds) p), [])
  | SmLineupChanged active => read_lineup now (put_lineup (lv_now_plays active (up_lineup p)) p)
  end.

(** A frame: the watchdog is fed and the backoff starts again, then the
    message, if it reads as one. *)
Definition on_frame (now : Z) (last_reload : option Z) (msg : option ServerMsg) (p : UiPage) : UiPage * list UiEffect :=
  let p := put_attempt 0 (put_last_frame now p) in
  match msg with Some msg => on_message now last_reload msg p | None => (p, []) end.

(** ** The socket *)

(** A new socket; the meters' throttle and the hello are the socket's own. *)
Definition connect_websocket (now : Z) (token_expired : bool) (p : UiPage) : UiPage * list UiEffect :=
  if token_expired then (p, []) else (put_hello_seen false (put_last_meter 0 (put_last_frame now p)), [FxConnect]).

(** The connect effect. *)
Definition on_connects (now : Z) (token_expired : bool) (member : string) (p : UiPage) : UiPage * list UiEffect :=
  if bool_decide (member = "") || negb (lv_connects (up_lineup p)) then (p, []) else connect_websocket now token_expired p.

Definition on_open (p : UiPage) : UiPage := put_fails 0 p.

(** The socket is open [HELLO_TIMEOUT_MS] after it was made. *)
Definition on_hello_timeout (now : Z) (last_reload : option Z) (open : bool) (p : UiPage) : list UiEffect :=
  if up_hello_seen p || negb open then []
  else match on_missing_hello now last_reload with Reload => [FxReload now] | Keep => [] end.

Definition on_socket_close (now : Z) (last_reload : option Z) (code : Z) (p : UiPage) : UiPage * list UiEffect :=
  let close := on_close code in
  let '(p, fx) :=
    match close with
    | OnReload =>
        (put_connected false p, match on_missing_hello now last_reload with Reload => [FxReload now] | Keep => [] end)
    | OnLineup => read_lineup now (put_lineup (lv_reread (up_lineup p)) p)
    | OnFailed => (put_connected false p, [])
    end in
  (if close_counts close then put_attempt (up_attempt p + 1) (put_fails (up_fails p + 1) p) else p, fx).

(** The answer of read [seq]. *)
Definition on_lineup_answer (seq : Z) (answer : LineupAnswer) (p : UiPage) : UiPage :=
  let '(reads, taken) := reads_take seq (up_reads p) in
  let p := put_reads reads p in
  if negb taken then p
  else
    foldl (fun p w => match w with LwDisconnected => put_connected false p | LwView v => put_lineup v p end) p
      (lineup_writes (up_lineup p) answer (up_connected p)).

(** The tick every two seconds; [socket]: the page's socket, if it has one. *)
Definition reconnect_tick (now : Z) (token_expired : bool) (member : string) (socket : option Ready) (p : UiPage) : UiPage * list UiEffect :=
  let connects := lv_connects (up_lineup p) in
  let '(p, fx1) := if lv_recheck_due now (lrd_last_at (up_reads p)) (up_lineup p) then read_lineup now p else (p, []) in
  if negb connects then (p, fx1)
  else
    let step := reconnect_step now (up_last_attempt p) (up_attempt p) (up_fails p) in
    match step, socket with
    | StepWait, _ => (p, fx1)
    | _, Some RsClosed =>
        if bool_decide (member = "") then (p, fx1)
        else
          let fx2 := match step with StepConnectAndCheckToken => [FxCheckToken] | _ => [] end in
          let p := put_last_attempt now p in
          let '(p, fx3) :=
            if lv_reads_before_reconnect (up_lineup p)
            then read_lineup now (put_lineup (lv_reread (up_lineup p)) p)
            else connect_websocket now token_expired p in
          (p, fx1 ++ fx2 ++ fx3)
    | _, _ => (p, fx1)
    end.

(** The watchdog every five seconds. *)
Definition watchdog (now : Z) (socket : option Ready) (p : UiPage) : list UiEffect :=
  match socket with
  | Some RsOpen => if is_stale (up_last_frame p) now WS_STALENESS_THRESHOLD_MS then [FxCloseSocket] else []
  | _ => []
  end.

(** ** The user's clicks *)

Definition clear_solo (p : UiPage) : UiPage :=
  let saved := up_pre_solo_mutes p in
  put_soloed ∅ (put_pre_solo_mutes ∅ (put_channels (with_muted (fun c => default false (saved !! ch_id c)) <$> up_channels p) p)).

Definition on_mute_click (id : string) (p : UiPage) : UiPage * list UiEffect :=
  if negb (up_connected p) then (p, [])
  else
    let shown := match find_channel id (up_channels p) with Some c => ch_muted c | None => false end in
    match mute_click id shown (up_soloed p) (up_pre_solo_mutes p) with
    | MuteToggle m => (put_channels (replace_channel (with_muted (fun _ => m)) id (up_channels p)) p, [FxSend (UiSetMute id m)])
    | MuteMasked m => (put_pre_solo_mutes (<[id := m]> (up_pre_solo_mutes p)) p, [FxSend (UiSetMute id m)])
    end.

Definition on_solo_click (id : string) (p : UiPage) : UiPage * list UiEffect :=
  if negb (up_connected p) then (p, [])
  else if bool_decide (id ∈ up_soloed p) then (clear_solo p, [FxSend (UiSetSolo [])])
  else
    let p := if bool_decide (up_soloed p = ∅) then put_pre_solo_mutes (saved_mutes (up_channels p)) p else p in
    (put_soloed {[id]} (put_channels (with_muted (fun c => negb (bool_decide (ch_id c = id))) <$> up_channels p) p),
     [FxSend (UiSetSolo [id])]).

(** The header's button. *)
Definition on_clear_solo_click (p : UiPage) : UiPage * list UiEffect :=
  if negb (up_connected p) then (p, []) else (clear_solo p, [FxSend (UiSetSolo [])]).
