(* ===== verification/PageSpec.v ===== *)
(** * A page follows the engine

    A mixer socket with the server's mirror behind it and the page in front, as
    three queues that advance in any order: the engine's messages reach the
    mirror and become events, the session turns an event into messages with the
    mirror as it is then, the page handles a message.  Whatever the order, the
    page a viewer leaves alone ends up showing the mirror. *)

From S2P Require Import Prelude F64 Text MixState Msg Shape Topology TopologyWf Reconciled Rt Core CoreSync CoreCmd CoreApply Wire Mirror Client LoginGuard Roster Config UiMsg SiteView View BandStore Sessions Pages PersonSpec PageUi.
From stdpp Require Import options.
Local Open Scope Z_scope.
#[local] Unset Default Proof Using.

(** ** A page's strips *)

Notation Values := (f32 * bool * f32)%type.

(** The strip of a source, without its values. *)
Definition Strip : Type := Source * (Values -> Channel).

Definition input_strip (view : SiteView) (page : Page) (viewer : Viewer) (i : InputView) : Strip :=
  let own := m ← pg_member page; own_input view m in
  (SrcInput (iv_id i), fun v =>
     mkChannel (iv_id i) (iv_name i) v.1.1 v.2 v.1.2 (iv_category i)
       (vw_engineer viewer || bool_decide (iv_owner i = Some (vw_sub viewer)))
       (bool_decide (own = Some (iv_id i)))).

Definition mix_strip (view : SiteView) (viewer : Viewer) (h : MixId) : Strip :=
  (SrcMix h, fun v => mkChannel h (sv_mix_name view h) v.1.1 v.2 v.1.2 "mixes" (vw_engineer viewer) false).

Definition strips (view : SiteView) (page : Page) (viewer : Viewer) : list Strip :=
  (input_strip view page viewer <$> filter (fun i => shows_input view viewer (iv_id i) = true) (sv_inputs view))
  ++ (mix_strip view viewer <$> heard view page viewer).

Definition filled (st : list Strip) (vals : Source -> Values) : list Channel := (fun s => s.2 (vals s.1)) <$> st.

Lemma channels_filled view mv page viewer :
  channels view mv page viewer = filled (strips view page viewer) (channel_values mv page).
Proof.
  unfold channels, filled, strips. by rewrite fmap_app, <-!list_fmap_compose.
Qed.

(** A strip keeps its id and what is fixed. *)
Record strip_ok (s : Strip) : Prop := {
  so_id : forall v, ch_id (s.2 v) = Source_to_string s.1;
  so_values : forall v l m p,
    mkChannel (Source_to_string s.1) (ch_name (s.2 v)) l p m (ch_category (s.2 v)) (ch_eq (s.2 v)) (ch_own (s.2 v)) = s.2 (l, m, p);
  so_parts : forall v, (ch_level_db (s.2 v), ch_muted (s.2 v), ch_pan (s.2 v)) = v;
}.

Lemma strips_ok view page viewer : Forall strip_ok (strips view page viewer).
Proof.
  apply Forall_app; split; apply Forall_fmap, Forall_forall; intros x _; split; cbn; try done; by intros [[] ].
Qed.

Lemma shown_source_strips view page viewer s :
  shown_source view page viewer s = true -> s ∈ (strips view page viewer).*1.
Proof.
  unfold strips. rewrite fmap_app, <-!list_fmap_compose. destruct s as [id|h]; intros Hs; apply elem_of_app; [left|right]; apply list_elem_of_fmap.
  - assert (Hi := Hs). cbn in Hi. unfold shows_input, present_input in Hi. bool_inv. match goal with K : is_Some _ |- _ => destruct K as [i Hf] end.
    apply sv_input_id in Hf as [<- Hin]. exists i. split; [done|]. by apply list_elem_of_filter.
  - exists h. split; [done|]. by apply bool_decide_eq_true in Hs.
Qed.

Lemma strips_shown view page viewer s : s ∈ (strips view page viewer).*1 -> shown_source view page viewer s = true.
Proof.
  unfold strips. rewrite fmap_app, <-!list_fmap_compose, elem_of_app, !list_elem_of_fmap.
  intros [(i & -> & [Hs _]%list_elem_of_filter)|(h & -> & Hh)]; [done|]. by apply bool_decide_eq_true.
Qed.

(** ** What a page shows of the mix *)

Record Shown := mkShown {
  sh_channels : list Channel;
  sh_global : f32 * bool;
  sh_stems : f32 * bool;
  sh_group : option string;
  sh_mix : option string;
  sh_soloed : gset string;
}.

Definition shown (p : UiPage) : Shown :=
  mkShown (up_channels p) (up_global_level p, up_global_muted p) (up_stems_level p, up_stems_muted p) (up_stems_group p) (up_page_mix p)
    (up_soloed p).

(** No fader is held. *)
Definition untouched (p : UiPage) : Prop := up_touched p = ∅ /\ up_global_touched p = false /\ up_stems_touched p = false.

Definition show_solo (new : gset string) (s : Shown) : Shown :=
  mkShown (match solo_change (sh_soloed s) new with
           | SoloSwitched => show_exclusive_solo new (sh_channels s)
           | _ => sh_channels s
           end) (sh_global s) (sh_stems s) (sh_group s) (sh_mix s) new.

Definition show_channels (l : list Channel) (s : Shown) : Shown :=
  mkShown l (sh_global s) (sh_stems s) (sh_group s) (sh_mix s) (sh_soloed s).

Definition show_msg (s : Shown) (msg : ServerMsg) : Shown :=
  match msg with
  | SmState new _ gl gm mix sl sm group =>
      mkShown (merge_or_replace_channels (sh_channels s) new ∅) (default (sh_global s).1 gl, default (sh_global s).2 gm)
        (default (sh_stems s).1 sl, default (sh_stems s).2 sm) group (match mix with Some m => Some m | None => sh_mix s end) (sh_soloed s)
  | SmChannelUpdate id level_db muted pan => show_channels (update_channel id level_db muted pan (sh_channels s)) s
  | SmGlobalVolumeUpdate l m => mkShown (sh_channels s) (l, m) (sh_stems s) (sh_group s) (sh_mix s) (sh_soloed s)
  | SmStemsVolumeUpdate l m => mkShown (sh_channels s) (sh_global s) (l, m) (sh_group s) (sh_mix s) (sh_soloed s)
  | SmSoloUpdate l => show_solo (list_to_set l) s
  | _ => s
  end.

Lemma solo_unchanged (current new : gset string) : solo_change current new = SoloUnchanged -> new = current.
Proof. unfold solo_change. by repeat case_bool_decide. Qed.

Lemma on_frame_shown now last msg p :
  untouched p -> shown (on_frame now last (Some msg) p).1 = show_msg (shown p) msg /\ untouched (on_frame now last (Some msg) p).1.
Proof.
  intros (Ht & Hg & Hs). unfold untouched.
  destruct msg as [| ch c gl gm mix sl sm g | | | | | | | | | | | | | | | | | | | | | | ]; cbn [on_frame on_message fst];
    try (repeat case_match; by (split; [|cbn; rewrite ?Ht])).
  - destruct gl, gm, mix, sl, sm; cbn; by rewrite Ht.
  - cbn -[update_channel]. by rewrite Ht.
  - cbn. by rewrite Hg.
  - cbn. by rewrite Hs.
  - cbn. unfold on_solo_update, show_solo; cbn. destruct (solo_change _ _) eqn:Hc; try apply solo_unchanged in Hc; cbn; (split; [|by split_and!]); unfold shown; cbn; congruence.
Qed.

(** ** Values on the strips *)

Definition put_value (s : Source) (v : Values) (vals : Source -> Values) (x : Source) : Values := if decide (x = s) then v else vals x.

Lemma filled_ext st vals vals' : (forall s, s ∈ st.*1 -> vals s = vals' s) -> filled st vals = filled st vals'.
Proof.
  intros He. apply list_fmap_ext. intros i [s f] Hi. cbn. f_equal. apply He. apply list_elem_of_fmap. exists (s, f).
  split; [done|]. by eapply list_elem_of_lookup_2.
Qed.

Definition strip_ids (st : list Strip) : list string := (fun s => Source_to_string s.1) <$> st.

Lemma source_strip_id st s : s ∈ st.*1 -> Source_to_string s ∈ strip_ids st.
Proof. intros ([s' f] & -> & Hin)%list_elem_of_fmap. apply list_elem_of_fmap. by exists (s', f). Qed.

Lemma update_filled st vals s l m p :
  Forall strip_ok st -> NoDup (strip_ids st) -> s ∈ st.*1 ->
  update_channel (Source_to_string s) l m p (filled st vals) = filled st (put_value s (l, m, p) vals).
Proof.
  intros Hok Hnd Hin. induction Hok as [|[s' f] st Hs Hok IH]; [by apply elem_of_nil in Hin|]. cbn in *.
  apply NoDup_cons in Hnd as [Hni Hnd]. rewrite (so_id _ Hs). cbn. unfold put_value at 1. case_decide as He; case_decide as Hd; subst.
  - f_equal; [apply (so_values _ Hs)|]. apply filled_ext. intros x Hx. unfold put_value. case_decide as Hd; [|done]. subst.
    by apply source_strip_id in Hx.
  - exfalso. apply elem_of_cons in Hin as [->|Hin]; [done|]. apply source_strip_id in Hin. by rewrite <-He in Hin.
  - done.
  - f_equal. apply IH; [done|]. by apply elem_of_cons in Hin as [->|Hin].
Qed.

Definition value_update (vals : Source -> Values) (s : Source) : ServerMsg :=
  SmChannelUpdate (Source_to_string s) (vals s).1.1 (vals s).1.2 (vals s).2.

Lemma value_updates st vals cur l V :
  Forall strip_ok st -> NoDup (strip_ids st) -> (forall s, s ∈ l -> s ∈ st.*1) -> sh_channels V = filled st vals ->
  foldl show_msg V (value_update cur <$> l) = show_channels (filled st (fun s => if decide (s ∈ l) then cur s else vals s)) V.
Proof.
  intros Hok Hnd. revert V vals. induction l as [|s l IH]; intros V vals Hl Hv; cbn.
  - destruct V; cbn in *. unfold show_channels; cbn. f_equal. by rewrite Hv.
  - rewrite Hv, update_filled by (try done; apply Hl; left). rewrite (IH _ (put_value s (cur s) vals)); [|intros; apply Hl; by right|cbn].
    + unfold show_channels; cbn. f_equal. apply filled_ext. intros x _. unfold put_value.
      destruct (decide (x = s)) as [->|Hne]; repeat case_decide; set_solver.
    + f_equal. by destruct (cur s) as [[] ].
Qed.

(** *** The ids of a site's strips are distinct *)

Lemma site_view_of s view :
  site s = Some view -> exists topo playing, mv_topology (sr_mirror s) = Some topo /\ view = build_view (sr_config s) playing topo.
Proof.
  unfold site. destruct (mv_topology _) as [topo|]; cbn; [|done]. unfold build_with. destruct (sr_roster s) as [r|]; cbn.
  - destruct (rs_lineup r) as [l|]; cbn; [|done]. intros [= <-]. by exists topo, (Some (rs_roster r, l)).
  - intros [= <-]. by exists topo, None.
Qed.

Lemma omap_ids_nodup (t : Topology) (l : list nat) :
  NoDup (mn_id <$> t_mixes t) -> NoDup l -> NoDup (omap (fun m => mn_id <$> t_mixes t !! m) l).
Proof.
  intros Hids. induction 1 as [|m l Hni Hl IH]; cbn; [constructor|]. destruct (t_mixes t !! m) as [n|] eqn:Hm; cbn; [|done].
  apply NoDup_cons. split; [|done]. intros (m' & Hm' & Hn)%list_elem_of_omap.
  assert (m' = m) as ->; [|done]. apply (NoDup_lookup (mn_id <$> t_mixes t) _ _ (mn_id n) Hids).
  - by rewrite list_lookup_fmap.
  - by rewrite list_lookup_fmap, Hm.
Qed.

Lemma heard_ids cfg playing channels t page viewer :
  topo_wf channels t ->
  let view := build_view cfg playing (info t) in
  NoDup (heard view page viewer) /\ (forall h, h ∈ heard view page viewer -> h ∈ mn_id <$> t_mixes t).
Proof.
  intros Hwf view. unfold heard. destruct (negb _); [split; [constructor|set_solver]|].
  destruct (sv_mix view (pg_mix page)) as [m|] eqn:Hm; [|split; [constructor|set_solver]].
  apply find_Some in Hm as [Hin _]. cbn in Hin. apply list_elem_of_fmap in Hin as (x & -> & Hx). unfold info in Hx; cbn in Hx.
  apply list_elem_of_fmap in Hx as (n & -> & [i Hi]%list_elem_of_lookup). cbn. rewrite <-omap_app. split.
  - apply NoDup_filter, omap_ids_nodup; [|apply (wf_peers _ _ Hwf _ _ Hi)].
    pose proof (wf_ids _ _ Hwf) as Hnd. by apply NoDup_app in Hnd as (_ & _ & (_ & _ & Hnd)%NoDup_app).
  - intros h [_ (k & _ & Hk)%list_elem_of_omap]%list_elem_of_filter. apply fmap_Some in Hk as (n' & Hn' & ->).
    apply list_elem_of_fmap. exists n'. split; [done|]. by eapply list_elem_of_lookup_2.
Qed.

Lemma strip_ids_eq view page viewer :
  strip_ids (strips view page viewer)
  = (iv_id <$> filter (fun i => shows_input view viewer (iv_id i) = true) (sv_inputs view)) ++ heard view page viewer.
Proof.
  unfold strip_ids, strips. rewrite fmap_app, <-!list_fmap_compose. f_equal.
  rewrite <-(list_fmap_id (heard view page viewer)) at 2. by apply list_fmap_ext.
Qed.

Lemma strips_nodup cfg playing channels t page viewer :
  topo_wf channels t -> NoDup (strip_ids (strips (build_view cfg playing (info t)) page viewer)).
Proof.
  intros Hwf. destruct (heard_ids cfg playing channels t page viewer Hwf) as [Hh Hin]. set (view := build_view _ _ _) in *.
  pose proof (wf_ids _ _ Hwf) as Hnd. apply NoDup_app in Hnd as (Hi & Hd & _).
  assert (Hiv : iv_id <$> sv_inputs view = in_id <$> t_inputs t).
  { subst view. cbn. by rewrite <-!list_fmap_compose. }
  assert (Hsub : (iv_id <$> filter (fun i => shows_input view viewer (iv_id i) = true) (sv_inputs view)) `sublist_of` (in_id <$> t_inputs t)).
  { rewrite <-Hiv. apply fmap_sublist, sublist_filter. }
  rewrite strip_ids_eq. apply NoDup_app. split_and!; [by eapply sublist_NoDup| |done].
  intros x Hx%(sublist_subseteq _ _ Hsub) Hx'%Hin. apply (Hd x Hx). set_solver.
Qed.

(** ** A value, the changes still under way, and what a page shows of it *)

(** A page shows [b] of a value of the mirror; [says] is what a change gives. *)
Record tracked {A B : Type} (says : Change -> option A) (value : Mirror -> A) (f : A -> B) (mv : Mirror) (pending : list Change) (b : B) : Prop := {
  tr_last : forall a, last (omap says pending) = Some a -> value mv = a;
  tr_shown : b = f (value mv) \/ omap says pending <> [];
}.
#[global] Arguments tr_last {_ _ _ _ _ _ _ _}.
#[global] Arguments tr_shown {_ _ _ _ _ _ _ _}.

Section tracked.
Context {A B : Type} (says : Change -> option A) (value : Mirror -> A) (f : A -> B).

Lemma tracked_start mv : tracked says value f mv [] (f (value mv)).
Proof. split; [done|by left]. Qed.

Lemma tracked_push mv c pending b :
  (value (mirror_change mv c) = default (value mv) (says c)) ->
  tracked says value f mv pending b -> tracked says value f (mirror_change mv c) (pending ++ [c]) b.
Proof.
  intros Hv [Hl Hs]. destruct (says c) as [a|] eqn:Hc; split; rewrite omap_app; cbn; rewrite Hc, ?app_nil_r.
  - intros a'. rewrite last_app. cbn. intros [= <-]. by rewrite Hv.
  - right. by destruct (omap says pending).
  - intros a Ha. rewrite Hv. cbn. by apply Hl.
  - by rewrite Hv.
Qed.

(** The first of the changes is handled: the page shows what it says. *)
Lemma tracked_pop mv c pending b :
  tracked says value f mv (c :: pending) b ->
  tracked says value f mv pending (match says c with Some a => f a | None => b end).
Proof.
  intros [Hl Hs]. cbn in *. destruct (says c) as [a|] eqn:Hc; split; try done.
  - intros a' Ha. apply Hl. rewrite last_cons, Ha. done.
  - destruct (omap says pending) eqn:Ho; [left|by right]. by rewrite (Hl a).
Qed.

(** A page that reads the value anew. *)
Lemma tracked_read mv pending b : tracked says value f mv pending b -> tracked says value f mv pending (f (value mv)).
Proof. intros [Hl _]. split; [done|by left]. Qed.

End tracked.

(** *** What a change does to the mirror *)

Section said.
Context (mix : MixId).

Definition says_out (c : Change) : option MixOut :=
  match c with ChMixOut m o => if decide (m = mix) then Some o else None | _ => None end.
Definition says_group (g : GroupId) (c : Change) : option MixGroup :=
  match c with ChGroup m g' st => if decide (m = mix /\ g' = g) then Some st else None | _ => None end.
Definition says_solo (c : Change) : option (list Source) :=
  match c with ChSolo m l => if decide (m = mix) then Some l else None | _ => None end.
Definition says_level (s : Source) (c : Change) : option Level :=
  match c with ChLevel m s' l => if decide (m = mix /\ s' = s) then Some l else None | _ => None end.

(** The mix as the mirror has it. *)
Definition the_mix (mv : Mirror) : Mix := or_default Mix_default (s_mixes (mv_state mv) !! mix).

Lemma mirror_out_eq mv : mirror_out mv mix = m_out (the_mix mv).
Proof. unfold mirror_out, the_mix. by destruct (s_mixes _ !! mix). Qed.
Lemma mirror_group_eq mv g : mirror_group mv mix g = or_default MixGroup_default (m_groups (the_mix mv) !! g).
Proof. unfold mirror_group, the_mix. by destruct (s_mixes _ !! mix). Qed.
Lemma mirror_level_eq mv s : mirror_level mv mix s = or_default Level_default (Mix_level (the_mix mv) s).
Proof. unfold mirror_level, the_mix. destruct (s_mixes _ !! mix); [done|by destruct s]. Qed.

Lemma the_mix_change mv c :
  the_mix (mirror_change mv c) =
  match c with
  | ChMixOut m o => if decide (m = mix) then let x := the_mix mv in mkMix o (m_inputs x) (m_groups x) (m_mixes x) else the_mix mv
  | ChLevel m s l => if decide (m = mix) then put_source s l (the_mix mv) else the_mix mv
  | ChGroup m g st =>
      if decide (m = mix) then let x := the_mix mv in mkMix (m_out x) (m_inputs x) (<[g := st]> (m_groups x)) (m_mixes x) else the_mix mv
  | _ => the_mix mv
  end.
Proof.
  unfold mirror_change. destruct c; cbn; try done; unfold the_mix, alter_mirror_mix; cbn;
    (case_decide as Hd; [subst; by rewrite lookup_insert_eq|by rewrite lookup_insert_ne]).
Qed.

Lemma put_source_level s l x s' : Mix_level (put_source s l x) s' = if decide (s = s') then Some l else Mix_level x s'.
Proof.
  destruct s as [i|i], s' as [j|j]; cbn; try (case_decide; congruence || done);
    (destruct (decide (i = j)) as [->|Hne]; case_decide; rewrite ?lookup_insert_eq, ?lookup_insert_ne by congruence; congruence).
Qed.

Lemma mirror_out_change mv c : mirror_out (mirror_change mv c) mix = default (mirror_out mv mix) (says_out c).
Proof.
  rewrite !mirror_out_eq, the_mix_change. destruct c; cbn; try done; case_decide; try done. by destruct source.
Qed.

Lemma mirror_group_change g mv c : mirror_group (mirror_change mv c) mix g = default (mirror_group mv mix g) (says_group g c).
Proof.
  rewrite !mirror_group_eq, the_mix_change. destruct c as [| |m s l|m g' st| | | |]; cbn; try done; repeat case_decide; cbn; try done; try tauto.
  - by destruct s.
  - destruct_and!; subst. by rewrite lookup_insert_eq.
  - rewrite lookup_insert_ne by tauto. done.
Qed.

Lemma mirror_level_change s mv c : mirror_level (mirror_change mv c) mix s = default (mirror_level mv mix s) (says_level s c).
Proof.
  rewrite !mirror_level_eq, the_mix_change. destruct c as [| |m s' l|m g' st| | | |]; cbn; try done; repeat case_decide; cbn; try done; try tauto.
  - rewrite put_source_level. case_decide; [done|tauto].
  - rewrite put_source_level. case_decide; [tauto|done].
Qed.

Lemma mirror_solo_eq mv :
  mirror_solo mv mix = match head (filter (fun s => solo_mix s = mix) (t_solo (mv_transient mv))) with Some s => solo_sources s | None => [] end.
Proof.
  unfold mirror_solo. induction (t_solo (mv_transient mv)) as [|x l IH]; [done|]. rewrite filter_cons. cbn. case_decide; [done|].
  rewrite <-IH. by destruct (list_find _ l) as [[] |].
Qed.

Lemma put_solo_filter_eq m sources l :
  filter (fun s => solo_mix s = mix) (put_solo m sources l)
  = if decide (m = mix) then match sources with [] => [] | _ => [mkSolo m sources] end else filter (fun s => solo_mix s = mix) l.
Proof.
  assert (Hf : filter (fun s => solo_mix s = mix) (filter (fun s => solo_mix s <> m) l)
               = if decide (m = mix) then [] else filter (fun s => solo_mix s = mix) l).
  { rewrite list_filter_filter. case_decide as Hm.
    - subst. apply elem_of_nil_inv. intros x [[] _]%list_elem_of_filter. done.
    - apply list_filter_iff. naive_solver. }
  unfold put_solo. destruct sources as [|s0 sources]; [exact Hf|]. rewrite filter_app, Hf.
  rewrite filter_cons, filter_nil. cbn [solo_mix]. case_decide; [done|]. by rewrite app_nil_r.
Qed.

Lemma mirror_solo_change mv c : mirror_solo (mirror_change mv c) mix = default (mirror_solo mv mix) (says_solo c).
Proof.
  rewrite !mirror_solo_eq. unfold mirror_change. destruct c as [| | | |m l| | |]; cbn; try done.
  rewrite put_solo_filter_eq. case_decide; [by destruct l|done].
Qed.
End said.

(** ** The page follows *)

Section follow.
Context (view : SiteView) (page : Page) (viewer : Viewer).
Notation st := (strips view page viewer).
Notation mix := (pg_mix page).

Definition shown_out (o : MixOut) : f32 * bool := (ui_db (o_volume_db o), o_muted o).
Definition shown_stems (g : MixGroup) : f32 * bool := (ui_db (g_gain_db g), g_muted g).
Definition shown_solo (l : list Source) : gset string := list_to_set (soloed_seen view viewer l).

(** A change under way writes the strip of [s]. *)
Definition strip_said (s : Source) (pending : list Change) : Prop :=
  Exists (fun c => says_level mix s c <> None \/ says_solo mix c <> None) pending.

(** What the page shows, with [pending] the changes the session has not
    handled; [told]: the page has its solo. *)
Record follows (told : bool) (mv : Mirror) (pending : list Change) (V : Shown) : Prop := {
  fo_channels : exists vals, sh_channels V = filled st vals
    /\ forall s, s ∈ st.*1 -> vals s = channel_values mv page s \/ strip_said s pending;
  fo_out : tracked (says_out mix) (fun mv => mirror_out mv mix) shown_out mv pending (sh_global V);
  fo_stems : forall g, sv_group view = Some g ->
    tracked (says_group mix g) (fun mv => mirror_group mv mix g) shown_stems mv pending (sh_stems V);
  fo_solo : tracked (says_solo mix) (fun mv => mirror_solo mv mix) shown_solo mv pending
    (if told then sh_soloed V else shown_solo (mirror_solo mv mix));
  fo_fresh : told = false -> sh_soloed V = ∅;
  fo_group : sh_group V = sv_group view;
  fo_mix : sh_mix V = Some mix;
}.

Lemma channel_values_change mv c s :
  says_level mix s c = None -> says_solo mix c = None -> channel_values (mirror_change mv c) page s = channel_values mv page s.
Proof.
  intros Hl Hs. unfold channel_values, masked. by rewrite mirror_level_change, mirror_solo_change, Hl, Hs.
Qed.

(** A change reaches the mirror. *)
Lemma follows_push told mv c pending V :
  follows told mv pending V -> follows told (mirror_change mv c) (pending ++ [c]) V.
Proof.
  intros [(vals & Hv & Hs) Ho Hst Hso Hf Hg Hm]. split; try done.
  - exists vals. split; [done|]. intros s Hin. unfold strip_said. rewrite Exists_app, Exists_cons.
    destruct (says_level mix s c) eqn:Hl; [right; right; left; by left|].
    destruct (says_solo mix c) eqn:Hc; [right; right; left; by right|].
    rewrite channel_values_change by done. destruct (Hs s Hin); tauto.
  - apply tracked_push; [apply mirror_out_change|done].
  - intros g Hgr. apply tracked_push; [apply mirror_group_change|by apply Hst].
  - destruct told.
    + apply tracked_push; [apply mirror_solo_change|done].
    + apply (tracked_read _ (fun mv => mirror_solo mv mix) _ _ _ (shown_solo (mirror_solo mv mix))), tracked_push; [apply mirror_solo_change|done].
Qed.

Lemma follows_push_all told changes mv pending V :
  follows told mv pending V -> follows told (foldl mirror_change mv changes) (pending ++ changes) V.
Proof.
  revert mv pending. induction changes as [|c changes IH]; intros mv pending Hf; cbn; [by rewrite app_nil_r|].
  rewrite cons_middle, app_assoc. by apply IH, follows_push.
Qed.

(** Only the changes of the mirror matter. *)
Lemma follows_ext told mv mv' pending V :
  mv_state mv' = mv_state mv -> mv_transient mv' = mv_transient mv -> follows told mv pending V -> follows told mv' pending V.
Proof.
  intros Hs Ht [Hc Ho Hst Hso Hf Hg Hm].
  assert (Hl : forall s, mirror_level mv' mix s = mirror_level mv mix s) by (intros s; unfold mirror_level; by rewrite Hs).
  assert (Hsolo : mirror_solo mv' mix = mirror_solo mv mix) by (unfold mirror_solo; by rewrite Ht).
  assert (Hout : mirror_out mv' mix = mirror_out mv mix) by (unfold mirror_out; by rewrite Hs).
  assert (Hgrp : forall g, mirror_group mv' mix g = mirror_group mv mix g) by (intros g; unfold mirror_group; by rewrite Hs).
  split; try done.
  - destruct Hc as (vals & Hv & Hc). exists vals. split; [done|]. intros s Hin. unfold channel_values, masked. rewrite Hl, Hsolo. by apply Hc.
  - destruct Ho. split; by rewrite Hout.
  - intros g Hgr. destruct (Hst g Hgr). split; by rewrite Hgrp.
  - destruct Hso. split; by rewrite Hsolo.
Qed.

(** A change is handled: it is enough that the page has what it says. *)
Lemma follows_pop_with mv c pending V V' :
  follows true mv (c :: pending) V ->
  (forall vals, sh_channels V = filled st vals -> exists vals', sh_channels V' = filled st vals'
    /\ forall s, s ∈ st.*1 ->
         vals' s = channel_values mv page s \/ says_level mix s c = None /\ says_solo mix c = None /\ vals' s = vals s) ->
  sh_global V' = match says_out mix c with Some o => shown_out o | None => sh_global V end ->
  (forall g, sv_group view = Some g -> sh_stems V' = match says_group mix g c with Some x => shown_stems x | None => sh_stems V end) ->
  sh_soloed V' = match says_solo mix c with Some l => shown_solo l | None => sh_soloed V end ->
  sh_group V' = sh_group V -> sh_mix V' = sh_mix V -> follows true mv pending V'.
Proof.
  intros [(vals & Hv & Hs) Ho Hst Hso _ Hg Hm] Hc' Ho' Hst' Hso' Hg' Hm'. split; try congruence.
  - destruct (Hc' vals Hv) as (vals' & Hv' & Hs'). exists vals'. split; [done|]. intros s Hin.
    destruct (Hs' s Hin) as [|(Hl & Hn & Heq)]; [by left|]. destruct (Hs s Hin) as [|Hsaid]; [left; congruence|right].
    apply Exists_cons in Hsaid as [[|]|Hsaid]; done.
  - rewrite Ho'. by apply tracked_pop.
  - intros g Hgr. rewrite (Hst' g Hgr). by apply tracked_pop, Hst.
  - rewrite Hso'. by apply tracked_pop.
Qed.

Hypothesis Hnd : NoDup (strip_ids st).

Lemma exclusive_filled new vals :
  show_exclusive_solo new (filled st vals)
  = filled st (fun s => ((vals s).1.1, negb (bool_decide (Source_to_string s ∈ new)), (vals s).2)).
Proof.
  unfold show_exclusive_solo, filled. rewrite <-list_fmap_compose. apply list_fmap_ext. intros i s Hs. cbn.
  pose proof (strips_ok view page viewer) as Hok. eapply Forall_lookup in Hok as [Hid Hval Hpart]; [|done].
  unfold with_muted. rewrite Hid. pose proof (Hpart (vals s.1)) as Hp. destruct (vals s.1) as [[l m] p]. injection Hp as -> _ ->. apply Hval.
Qed.

Lemma solo_updates mv V :
  (exists vals, sh_channels V = filled st vals) ->
  foldl show_msg V (channel_update <$> channels view mv page viewer) = show_channels (filled st (channel_values mv page)) V.
Proof.
  intros [vals Hv].
  assert (Hu : channel_update <$> channels view mv page viewer = value_update (channel_values mv page) <$> st.*1).
  { rewrite channels_filled. unfold filled. rewrite <-!list_fmap_compose. apply list_fmap_ext. intros i s Hs. cbn.
    pose proof (strips_ok view page viewer) as Hok. eapply Forall_lookup in Hok as [Hid Hval Hpart]; [|done].
    unfold channel_update, value_update. rewrite Hid. pose proof (Hpart (channel_values mv page s.1)) as Hp.
    destruct (channel_values mv page s.1) as [[l m] p]. cbn. by injection Hp as -> -> ->. }
  rewrite Hu, (value_updates st vals) by (done || apply strips_ok). f_equal. apply filled_ext. intros s Hs. by rewrite decide_True.
Qed.

(** A change that says nothing of this mix. *)
Lemma follows_skip mv c pending V :
  follows true mv (c :: pending) V ->
  says_out mix c = None -> (forall g, sv_group view = Some g -> says_group mix g c = None) -> says_solo mix c = None ->
  (forall s, s ∈ st.*1 -> says_level mix s c = None) -> follows true mv pending V.
Proof.
  intros Hf Ho Hg Hs Hl. apply (follows_pop_with _ _ _ _ _ Hf); rewrite ?Ho, ?Hs; try done.
  - intros vals Hv. exists vals. split; [done|]. intros s Hin. right. by rewrite (Hl s Hin).
  - intros g Hgr. by rewrite (Hg g Hgr).
Qed.

Lemma level_pop mv m s l pending V :
  follows true mv (ChLevel m s l :: pending) V ->
  follows true mv pending (foldl show_msg V (change_updates view mv page viewer (ChLevel m s l))).
Proof.
  intros Hf. cbn [change_updates]. destruct (bool_decide (m = mix) && shown_source view page viewer s) eqn:Hb.
  - bool_inv. subst m. assert (Hin : s ∈ st.*1) by (by apply shown_source_strips). apply (follows_pop_with _ _ _ _ _ Hf); try done.
    + intros vals Hv. exists (put_value s (channel_values mv page s) vals). split.
      * destruct (channel_values mv page s) as [[lv mu] pa]. cbn. rewrite Hv. apply update_filled; (done || apply strips_ok).
      * intros s' _. unfold put_value. cbn. case_decide; [subst; by left|]. right. by rewrite decide_False by (intros [_ ->]; done).
  - apply (follows_skip _ _ _ _ Hf); try done. intros s' Hin. unfold says_level.
    destruct (decide (m = mix /\ s = s')) as [[Hm Hs]|]; [subst s'|done]. rewrite (strips_shown _ _ _ _ Hin), andb_true_r in Hb.
    by apply bool_decide_eq_false in Hb.
Qed.

Lemma solo_pop mv m l pending V :
  follows true mv (ChSolo m l :: pending) V ->
  follows true mv pending (foldl show_msg V (change_updates view mv page viewer (ChSolo m l))).
Proof.
  intros Hf. cbn [change_updates]. case_bool_decide as Hm.
  - subst m. cbn [foldl show_msg]. destruct (fo_channels _ _ _ _ Hf) as (vals & Hv & _).
    assert (Hc : exists vals', sh_channels (show_solo (list_to_set (soloed_seen view viewer l)) V) = filled st vals').
    { cbn. destruct (solo_change _ _); [by exists vals|by exists vals|by exists vals|]. eexists. rewrite Hv. apply exclusive_filled. }
    rewrite solo_updates by done. apply (follows_pop_with _ _ _ _ _ Hf); try done.
    + intros vals0 _. exists (channel_values mv page). split; [done|]. by left.
    + cbn. by rewrite decide_True.
  - apply (follows_skip _ _ _ _ Hf); try done. cbn. by rewrite decide_False.
Qed.

Lemma follows_pop mv c pending V :
  follows true mv (c :: pending) V -> follows true mv pending (foldl show_msg V (change_updates view mv page viewer c)).
Proof.
  intros Hf. destruct c as [|m o|m s l|m g x|m l| | |]; try (by apply (follows_skip _ _ _ _ Hf)).
  - cbn [change_updates]. case_bool_decide as Hm; [apply (follows_pop_with _ _ _ _ _ Hf)|apply (follows_skip _ _ _ _ Hf)]; try done; cbn.
    + intros vals Hv. exists vals. split; [done|]. by right.
    + by rewrite decide_True.
    + by rewrite decide_False.
  - by apply level_pop.
  - cbn [change_updates]. destruct (bool_decide _ && _) eqn:Hb; [apply (follows_pop_with _ _ _ _ _ Hf)|apply (follows_skip _ _ _ _ Hf)]; try done; cbn.
    + intros vals Hv. exists vals. split; [done|]. by right.
    + intros g' Hg'. bool_inv. by rewrite decide_True by (split; congruence).
    + intros g' Hg'. destruct (decide (m = mix /\ g = g')) as [[-> ->]|]; [|done]. by rewrite !bool_decide_true in Hb.
  - by apply solo_pop.
Qed.

(** An event of somebody else is handled. *)
Lemma follows_pop_all mv changes pending V :
  follows true mv (changes ++ pending) V -> follows true mv pending (foldl show_msg V (updates_seen view mv page viewer changes)).
Proof.
  revert V. induction changes as [|c changes IH]; intros V Hf; [done|]. unfold updates_seen in *. cbn [fmap list_fmap concat].
  rewrite foldl_app. apply IH. by apply follows_pop.
Qed.
End follow.

(** ** The three queues *)

Definition put_mirror (mv : Mirror) (s : Server) : Server :=
  mkServer (sr_config s) (sr_dir s) (sr_roster s) mv (sr_connected s) (sr_frozen s) (sr_settling s) (sr_missed s) (sr_active_s s)
    (sr_sessions s) (sr_solo s) (sr_talk s) (sr_alerts s) (sr_auto s) (sr_files s) (sr_login s) (sr_out s).

(** What the pages hear of a message of the engine, as [handle_mirror] emits it. *)
Definition mirror_events (e : option MirrorEvent) : list EngineEvent :=
  match e with Some (MvChanged origin changes) => [EeChanged origin changes] | Some MvReset => [EeReset] | _ => [] end.

Record WsSys := mkWsSys {
  ws_server : Server;
  ws_events : list EngineEvent;
  ws_msgs : list ServerMsg;
  ws_told : bool;
  ws_page : UiPage;
}.

(** What the session reads before its loop, after the state. *)
Definition opening_tail `{Serde CustomizationFile} (s : Server) (page : Page) (viewer : Viewer) : list ServerMsg :=
  [customization_msg s page; solo_msg s page viewer] ++ option_list (alert_catchup (sr_alerts s) (pg_id page)).

Lemma opening_split `{Serde CustomizationFile} s page viewer :
  opening s page viewer = option_list (lineup_msg s) ++ [full_state s page viewer] ++ opening_tail s page viewer.
Proof. done. Qed.

(** The session subscribed and read the state. *)
Definition ws_start (s : Server) (page : Page) (viewer : Viewer) (p : UiPage) : WsSys :=
  mkWsSys s [] (option_list (lineup_msg s) ++ [full_state s page viewer]) false p.

(** A message of another part of the server: talk, alerts, meters, status. *)
Definition beside (msg : ServerMsg) : bool :=
  match msg with
  | SmState _ _ _ _ _ _ _ _ | SmChannelUpdate _ _ _ _ | SmGlobalVolumeUpdate _ _ | SmStemsVolumeUpdate _ _ | SmSoloUpdate _ => false
  | _ => true
  end.

(** What decides the site is as it was. *)
Definition same_site (s s' : Server) : Prop :=
  sr_config s' = sr_config s /\ sr_roster s' = sr_roster s /\ sr_mirror s' = sr_mirror s /\ sr_frozen s' = sr_frozen s.

Definition event_beside (ev : EngineEvent) : bool := match ev with EeMeters _ | EeStatus _ | EeAlarm _ => true | _ => false end.

Inductive ws_step `{Serde CustomizationFile} (session : Z) (page : Page) (viewer : Viewer) : WsSys -> WsSys -> Prop :=
| WsEngine rev origin changes mv ev sys :
    mirror_apply (MDelta rev origin changes) (sr_mirror (ws_server sys)) = (mv, ev) -> origin <> Some session -> ev <> Some MvResync ->
    ws_step session page viewer sys
      (mkWsSys (put_mirror mv (ws_server sys)) (ws_events sys ++ mirror_events ev) (ws_msgs sys) (ws_told sys) (ws_page sys))
| WsOther ev sys :
    event_beside ev = true ->
    ws_step session page viewer sys (mkWsSys (ws_server sys) (ws_events sys ++ [ev]) (ws_msgs sys) (ws_told sys) (ws_page sys))
| WsServer s sys :
    same_site (ws_server sys) s ->
    ws_step session page viewer sys (mkWsSys s (ws_events sys) (ws_msgs sys) (ws_told sys) (ws_page sys))
| WsTell s events msgs p :
    ws_step session page viewer (mkWsSys s events msgs false p) (mkWsSys s events (msgs ++ opening_tail s page viewer) true p)
| WsSession s ev events msgs p :
    ws_step session page viewer (mkWsSys s (ev :: events) msgs true p)
      (let '(s, out) := engine_event session page viewer ev s in mkWsSys s events (msgs ++ out) true p)
| WsBeside msg sys :
    beside msg = true ->
    ws_step session page viewer sys (mkWsSys (ws_server sys) (ws_events sys) (ws_msgs sys ++ [msg]) (ws_told sys) (ws_page sys))
| WsPage now last_reload s events msg msgs told p :
    ws_step session page viewer (mkWsSys s events (msg :: msgs) told p)
      (mkWsSys s events msgs told (on_frame now last_reload (Some msg) p).1).

(** Everything under way has arrived. *)
Definition quiet (sys : WsSys) : Prop := ws_events sys = [] /\ ws_msgs sys = [] /\ ws_told sys = true.

(** The page shows the mirror. *)
Record shows (view : SiteView) (mv : Mirror) (page : Page) (viewer : Viewer) (p : UiPage) : Prop := {
  sw_channels : up_channels p = channels view mv page viewer;
  sw_global : (up_global_level p, up_global_muted p) = shown_out (mirror_out mv (pg_mix page));
  sw_stems : forall g, sv_group view = Some g -> (up_stems_level p, up_stems_muted p) = shown_stems (mirror_group mv (pg_mix page) g);
  sw_group : up_stems_group p = sv_group view;
  sw_mix : up_page_mix p = Some (pg_mix page);
  sw_soloed : up_soloed p = list_to_set (soloed_seen view viewer (mirror_solo mv (pg_mix page)));
}.

Definition event_changes (ev : EngineEvent) : list Change := match ev with EeChanged _ changes => changes | _ => [] end.
Definition event_ok (session : Z) (ev : EngineEvent) : Prop :=
  match ev with EeChanged origin _ => origin <> Some session | _ => event_beside ev = true end.

Lemma beside_shown msg V : beside msg = true -> show_msg V msg = V.
Proof. by destruct msg. Qed.

Lemma beside_all msgs V : Forall (fun m => beside m = true) msgs -> foldl show_msg V msgs = V.
Proof. induction 1 as [|m msgs Hm _ IH]; [done|]. cbn. by rewrite beside_shown. Qed.

(** A page that hears the engine. *)
Definition live (s : Server) (page : Page) : Prop :=
  is_person page = false \/ sr_frozen s = false /\ server_page s (pg_id page) = Some page.

Lemma closing_live page s : live s page -> closing page s = (s, false).
Proof.
  unfold closing, frozen_for_page. intros [->|[Hf Hp]]; [done|]. rewrite Hf, Hp. cbn. rewrite bool_decide_true by done. by destruct (is_person page).
Qed.

Lemma site_same s s' :
  sr_config s' = sr_config s -> sr_roster s' = sr_roster s -> mv_topology (sr_mirror s') = mv_topology (sr_mirror s) -> site s' = site s.
Proof. intros Hc Hr Ht. unfold site. by rewrite Hc, Hr, Ht. Qed.

Lemma live_same s s' page :
  sr_config s' = sr_config s -> sr_roster s' = sr_roster s -> mv_topology (sr_mirror s') = mv_topology (sr_mirror s) ->
  sr_frozen s' = sr_frozen s -> live s page -> live s' page.
Proof.
  intros Hc Hr Ht Hf. unfold live, server_page. rewrite (site_same s s'), Hf by done. by rewrite Hc, Hr.
Qed.

Lemma mirror_change_topology changes mv : mv_topology (foldl mirror_change mv changes) = mv_topology mv.
Proof.
  revert mv. induction changes as [|c changes IH]; intros mv; [done|]. cbn. rewrite IH. unfold mirror_change. by destruct (view_change _ _).
Qed.

Section run.
Context `{Serde CustomizationFile} (session : Z) (page : Page) (viewer : Viewer) (view : SiteView).

Record ws_inv (sys : WsSys) : Prop := {
  wi_site : site (ws_server sys) = Some view;
  wi_live : live (ws_server sys) page;
  wi_page : untouched (ws_page sys);
  wi_events : Forall (event_ok session) (ws_events sys);
  wi_follows : follows view page viewer (ws_told sys) (sr_mirror (ws_server sys)) (concat (event_changes <$> ws_events sys))
    (foldl show_msg (shown (ws_page sys)) (ws_msgs sys));
}.

Lemma start_inv s p :
  site s = Some view -> live s page -> untouched p -> up_channels p = [] -> up_soloed p = ∅ -> ws_inv (ws_start s page viewer p).
Proof.
  intros Hs Hl Hu Hch Hso. split; try done. cbn [ws_start ws_told ws_server ws_events ws_msgs ws_page fmap list_fmap concat].
  rewrite foldl_app. cbn [foldl]. rewrite beside_all by (unfold lineup_msg; destruct (sr_lineup s); repeat constructor).
  unfold full_state. rewrite Hs. unfold state_msg. cbn [show_msg]. split; cbn; try done.
  - exists (channel_values (sr_mirror s) page). rewrite Hch, channels_filled. split; [done|]. by left.
  - by apply (tracked_start _ (fun mv => mirror_out mv (pg_mix page)) shown_out).
  - intros g Hg. rewrite Hg. cbn. by apply (tracked_start _ (fun mv => mirror_group mv (pg_mix page) g) shown_stems).
  - by apply (tracked_start _ (fun mv => mirror_solo mv (pg_mix page)) (shown_solo view viewer)).
Qed.

Hypothesis Hnd : NoDup (strip_ids (strips view page viewer)).

Lemma tell_follows s pending V :
  site s = Some view -> follows view page viewer false (sr_mirror s) pending V ->
  follows view page viewer true (sr_mirror s) pending (foldl show_msg V (opening_tail s page viewer)).
Proof.
  intros Hs [Hc Ho Hst Hso Hf Hg Hm]. unfold opening_tail. rewrite foldl_app. cbn [foldl].
  rewrite beside_all by (unfold alert_catchup; repeat case_bool_decide; cbn; repeat constructor).
  rewrite (beside_shown (customization_msg s page)) by (unfold customization_msg; by repeat case_match).
  unfold solo_msg. rewrite Hs. cbn [show_msg]. split; cbn; try done.
  destruct Hc as (vals & Hv & Hc). specialize (Hf eq_refl). rewrite Hf. unfold solo_change.
  exists vals. rewrite (bool_decide_true (∅ = ∅)) by done. split; [by repeat case_bool_decide|done].
Qed.

(** A delta in the mirror's order is applied whole and announced. *)
Lemma delta_event rev origin changes mv mv' ev :
  mirror_apply (MDelta rev origin changes) mv = (mv', ev) -> ev <> Some MvResync ->
  mv_topology mv' = mv_topology mv /\
  (mv' = mv /\ ev = None
   \/ ev = Some (MvChanged origin changes) /\ mv_state mv' = mv_state (foldl mirror_change mv changes)
      /\ mv_transient mv' = mv_transient (foldl mirror_change mv changes)).
Proof.
  cbn. intros Ha Hr. destruct (negb (mv_synced mv) || (rev <=? mv_rev mv)); [injection Ha as <- <-; auto|].
  destruct (negb (rev =? mv_rev mv + 1)); injection Ha as <- <-; [done|]. cbn. rewrite mirror_change_topology. auto.
Qed.

Lemma engine_step_inv sys rev origin changes mv ev :
  mirror_apply (MDelta rev origin changes) (sr_mirror (ws_server sys)) = (mv, ev) -> origin <> Some session -> ev <> Some MvResync ->
  ws_inv sys ->
  ws_inv (mkWsSys (put_mirror mv (ws_server sys)) (ws_events sys ++ mirror_events ev) (ws_msgs sys) (ws_told sys) (ws_page sys)).
Proof.
  intros Hm Ho Hr [Hsi Hli Hpa Hev Hfo]. destruct (delta_event _ _ _ _ _ _ Hm Hr) as [Ht Hd]. split; cbn; try done.
  - rewrite <-Hsi. by apply site_same.
  - by apply (live_same (ws_server sys)).
  - apply Forall_app. split; [done|]. destruct Hd as [[-> ->]|[-> _] ]; cbn; [constructor|by repeat constructor].
  - destruct Hd as [[-> ->]|(-> & Hs & Ht')]; cbn; [by rewrite app_nil_r|].
    rewrite fmap_app, concat_app. cbn. rewrite app_nil_r. eapply follows_ext; [exact Hs|exact Ht'|]. by apply follows_push_all.
Qed.

Lemma input_updates_beside changes : Forall (fun m => beside m = true) (input_updates view changes).
Proof.
  apply Forall_forall. intros m (c & _ & Hc)%list_elem_of_omap. destruct c; try done. by destruct (sv_input view id); [injection Hc as <-|].
Qed.

(** The session leaves the server as it is and brings the page what the event says. *)
Lemma event_follows s ev events V :
  site s = Some view -> live s page -> event_ok session ev ->
  follows view page viewer true (sr_mirror s) (event_changes ev ++ events) V ->
  exists out, engine_event session page viewer ev s = (s, out) /\ follows view page viewer true (sr_mirror s) events (foldl show_msg V out).
Proof.
  intros Hs Hl He Hf. destruct ev as [| | |origin changes| | |]; try done; try (by exists []).
  cbn [engine_event]. rewrite closing_live, Hs, bool_decide_false by done. eexists. split; [done|].
  rewrite foldl_app. rewrite beside_all by (destruct (vw_engineer viewer); [apply input_updates_beside|constructor]).
  by apply follows_pop_all.
Qed.

Lemma ws_step_inv sys sys' : ws_step session page viewer sys sys' -> ws_inv sys -> ws_inv sys'.
Proof.
  intros Hstep Hi. destruct Hstep as [rev origin changes mv ev sys Hm Ho Hr|ev sys He|s sys (Hc & Hro & Hmi & Hfr)|s events msgs p|s ev events msgs p|msg sys Hb|now last s events msg msgs told p];
    [by eapply engine_step_inv|..]; destruct Hi as [Hsi Hli Hpa Hev Hfo]; cbn [ws_server ws_events ws_msgs ws_told ws_page] in *.
  - split; try done; cbn.
    + apply Forall_app. split; [done|]. constructor; [by destruct ev|constructor].
    + rewrite fmap_app, concat_app. by destruct ev; cbn; rewrite app_nil_r.
  - split; try done; cbn.
    + rewrite <-Hsi. apply site_same; congruence.
    + apply (live_same (ws_server sys)); congruence || done.
    + by rewrite Hmi.
  - split; try done; cbn. rewrite foldl_app. by apply tell_follows.
  - apply Forall_cons in Hev as [He Hev]. destruct (event_follows s ev _ _ Hsi Hli He Hfo) as (out & -> & Hf).
    split; try done; cbn. by rewrite foldl_app.
  - split; try done; cbn. by rewrite foldl_app, (beside_all [msg]) by (by repeat constructor).
  - destruct (on_frame_shown now last msg p Hpa) as [Hsh Hu]. split; try done; cbn [ws_page ws_msgs ws_server ws_told ws_events]. by rewrite Hsh.
Qed.

Lemma ws_steps_inv sys sys' : rtc (ws_step session page viewer) sys sys' -> ws_inv sys -> ws_inv sys'.
Proof. induction 1; [done|]. intros Hi. by apply IHrtc, (ws_step_inv x). Qed.

(** Nothing under way: the page shows the mirror. *)
Lemma quiet_shows sys : ws_inv sys -> quiet sys -> shows view (sr_mirror (ws_server sys)) page viewer (ws_page sys).
Proof.
  intros [_ _ _ _ Hf] (He & Hm & Ht). rewrite He, Hm, Ht in Hf. cbn in Hf.
  destruct Hf as [(vals & Hv & Hs) [_ Ho] Hst [_ Hso] _ Hg Hmx]. split; try done.
  - cbn in Hv. rewrite Hv, channels_filled. apply filled_ext. intros s Hin. destruct (Hs s Hin) as [|Hx]; [done|]. by apply Exists_nil in Hx.
  - by destruct Ho.
  - intros g Hgr. by destruct (tr_shown (Hst g Hgr)).
  - by destruct Hso.
Qed.
End run.

(** ** Everything arrives *)

Section drain.
Context `{Serde CustomizationFile} (session : Z) (page : Page) (viewer : Viewer).
Notation steps := (rtc (ws_step session page viewer)).

Lemma page_drain s told msgs p : exists p', steps (mkWsSys s [] msgs told p) (mkWsSys s [] [] told p').
Proof.
  revert p. induction msgs as [|m msgs IH]; intros p; [by exists p|].
  destruct (IH (on_frame 0 None (Some m) p).1) as [p' Hp]. exists p'. eapply rtc_l; [apply (WsPage _ _ _ 0 None)|done].
Qed.

Lemma event_same view s ev :
  site s = Some view -> live s page -> event_ok session ev -> exists out, engine_event session page viewer ev s = (s, out).
Proof.
  intros Hs Hl He. destruct ev; try done; try (by eexists). cbn [engine_event]. rewrite closing_live, Hs by done. by eexists.
Qed.

Lemma session_drain view s events msgs p :
  site s = Some view -> live s page -> Forall (event_ok session) events ->
  exists msgs', steps (mkWsSys s events msgs true p) (mkWsSys s [] msgs' true p).
Proof.
  intros Hs Hl Hev. revert msgs. induction Hev as [|ev events He _ IH]; intros msgs; [by exists msgs|].
  destruct (event_same view s ev Hs Hl He) as [out Ho]. destruct (IH (msgs ++ out)) as [msgs' Hm]. exists msgs'.
  eapply rtc_l; [apply WsSession|]. by rewrite Ho.
Qed.

Lemma drain view sys :
  ws_inv session page viewer view sys ->
  exists sys', steps sys sys' /\ quiet sys' /\ ws_server sys' = ws_server sys.
Proof.
  intros [Hs Hl _ Hev _]. destruct sys as [s events msgs told p]. cbn in *.
  assert (Ht : exists msgs', steps (mkWsSys s events msgs told p) (mkWsSys s events msgs' true p)).
  { destruct told; [by exists msgs|]. eexists. eapply rtc_once, WsTell. }
  destruct Ht as [msgs1 H1], (session_drain view s events msgs1 p Hs Hl Hev) as [msgs2 H2], (page_drain s true msgs2 p) as [p' H3].
  eexists. split; [by etrans; [|etrans]|done].
Qed.
End drain.

(** C11: a mixer page that was just mounted and that its viewer leaves alone ends
    up showing the engine's state: in any interleaving of the engine's deltas
    for other sessions' commands, the session's reading of the state and the solo,
    its handling of the events with the mirror as it is by then, and the page's
    handling of the messages, whenever nothing is under way the page shows the
    channels, master, stems and solo of the server's mirror; and what is
    under way can always finish, with no further message of the engine. *)
Theorem page_follows `{Serde CustomizationFile} rx_tx t s page viewer session p view sys :
  topo_wf rx_tx t -> mv_topology (sr_mirror s) = Some (info t) -> site s = Some view -> live s page ->
  untouched p -> up_channels p = [] -> up_soloed p = ∅ ->
  rtc (ws_step session page viewer) (ws_start s page viewer p) sys ->
  (quiet sys -> shows view (sr_mirror (ws_server sys)) page viewer (ws_page sys))
  /\ exists sys', rtc (ws_step session page viewer) sys sys' /\ quiet sys' /\ ws_server sys' = ws_server sys
     /\ shows view (sr_mirror (ws_server sys)) page viewer (ws_page sys').
Proof.
  intros Hwf Ht Hs Hl Hu Hc Hso Hrun.
  destruct (site_view_of _ _ Hs) as (topo & playing & Ht' & ->). assert (topo = info t) as -> by congruence.
  pose proof (strips_nodup (sr_config s) playing rx_tx t page viewer Hwf) as Hnd.
  assert (Hi : ws_inv session page viewer (build_view (sr_config s) playing (info t)) sys).
  { eapply ws_steps_inv; [exact Hnd|exact Hrun|]. by apply start_inv. }
  split; [exact (quiet_shows _ _ _ _ _ Hi)|]. destruct (drain _ _ _ _ _ Hi) as (sys' & Hr & Hq & He). exists sys'. split_and!; try done.
  rewrite <-He. apply (quiet_shows session); [|exact Hq]. exact (ws_steps_inv _ _ _ _ Hnd _ _ Hr Hi).
Qed.

Definition demo_server : Server :=
  mkServer demo_config "/data" None demo_mirror true false false false [] 3 SoloJanitor_default None ∅ ∅ ∅ (mkLoginStats 0 0 0) [].
#[export] Instance demo_customizations : Serde CustomizationFile := {| to_json _ := "{}"; of_json _ := Err "empty" |}.
Definition demo_mounted : UiPage := UiPage_new.

(** After the engine turned a microphone up and soloed it for another session. *)
Lemma page_follows_witness :
  let changes := [ChLevel "m1" (SrcInput "mic1") (mkLevel f64_zero f64_zero false); ChSolo "m1" [SrcInput "mic1"]] in
  let mv := (mirror_apply (MDelta 8 (Some 2) changes) demo_mirror).1 in
  exists sys', rtc (ws_step 1 demo_page demo_viewer) (ws_start demo_server demo_page demo_viewer demo_mounted) sys'
    /\ shows demo_view mv demo_page demo_viewer (ws_page sys') /\ up_soloed (ws_page sys') = {["mic1"]}.
Proof.
  intros changes mv.
  set (sys := mkWsSys (put_mirror mv demo_server) [EeChanged (Some 2) changes]
                (ws_msgs (ws_start demo_server demo_page demo_viewer demo_mounted)) false demo_mounted).
  assert (Hrun : rtc (ws_step 1 demo_page demo_viewer) (ws_start demo_server demo_page demo_viewer demo_mounted) sys).
  { apply rtc_once. apply (WsEngine 1 demo_page demo_viewer 8 (Some 2) changes mv (Some (MvChanged (Some 2) changes))
      (ws_start demo_server demo_page demo_viewer demo_mounted)); [vm_compute; reflexivity|done|done]. }
  destruct (page_follows 8 demo_topo demo_server demo_page demo_viewer 1 demo_mounted demo_view sys demo_wf eq_refl
    ltac:(vm_compute; reflexivity) ltac:(right; split; [reflexivity|vm_compute; reflexivity]) ltac:(by split_and!) eq_refl eq_refl Hrun)
    as [_ (sys' & Hr & _ & Hs & Hsh)].
  exists sys'. split; [by etrans|]. split; [exact Hsh|]. rewrite (sw_soloed _ _ _ _ _ Hsh). vm_compute. reflexivity.
Defined.

(** A mounted page keeps its solo when its socket opens again; the state comes
    first, the solo after it, and a solo that moved meanwhile shows the newly
    soloed channel unmuted even where its own mute is on. *)
Definition opened (mv : Mirror) (p : UiPage) : UiPage :=
  foldl (fun p m => (on_frame 0 None (Some m) p).1) p (opening (put_mirror mv demo_server) demo_page demo_viewer).

Example solo_moved_while_away :
  let mv1 := foldl mirror_change demo_mirror [ChSolo "m1" [SrcInput "mic1"]] in
  let mv2 := foldl mirror_change mv1 [ChSolo "m1" [SrcInput "keys"]; ChLevel "m1" (SrcInput "keys") (mkLevel f64_zero f64_zero true)] in
  let p := opened mv2 (opened mv1 demo_mounted) in
  ch_muted <$> find_channel "keys" (channels demo_view mv2 demo_page demo_viewer) = Some true
  /\ ch_muted <$> find_channel "keys" (up_channels p) = Some false
  /\ ch_muted <$> find_channel "keys" (up_channels (opened mv2 p)) = Some true.
Proof. vm_compute. tauto. Qed.
