(* ===== verification/BandSpec.v ===== *)
(** * A member's history

    What [add_snapshot] promises: the entry's id is the first free second, the
    pinned entries stay, at most fifty entries remain unless more are pinned, and
    what goes is the oldest of the unpinned.  A new entry of a history full of
    pinned ones goes at once ([full_of_pins]). *)

From S2P Require Import Prelude F64 Text MixState Msg Mirror Roster Config UiMsg SiteView View BandStore.
From stdpp Require Import sorting options.
Local Open Scope Z_scope.
#[local] Unset Default Proof Using.

(** ** Sorting and pruning *)

Lemma sort_insert_perm {A : Type} (le : A -> A -> bool) x l : sort_insert le x l ≡ₚ x :: l.
Proof.
  induction l as [|y l IH]; cbn; [done|]. destruct (le x y); [done|]. rewrite IH. apply Permutation_swap.
Qed.

Lemma sort_by_perm {A : Type} (le : A -> A -> bool) l : sort_by le l ≡ₚ l.
Proof. induction l as [|x l IH]; cbn; [done|]. by rewrite sort_insert_perm, IH. Qed.

Lemma sort_by_sorted {A : Type} (key : A -> Z) (le : A -> A -> bool) (R : Z -> Z -> Prop) `{!Transitive R} l :
  (forall x y, if le x y then R (key x) (key y) else R (key y) (key x)) ->
  StronglySorted (fun x y => R (key x) (key y)) (sort_by le l).
Proof.
  intros Hle. induction l as [|x l0 IH0]; [constructor|]. change (sort_by le (x :: l0)) with (sort_insert le x (sort_by le l0)).
  revert IH0. generalize (sort_by le l0).
  intros l. induction l as [|y l IH]; intros Hs; cbn; [by repeat constructor|].
  apply StronglySorted_cons in Hs as [Hy Hs]. generalize (Hle x y). destruct (le x y); intros Hxy.
  - apply StronglySorted_cons. split; [|by constructor]. constructor; [done|].
    eapply Forall_impl; [exact Hy|]. cbn. intros z Hz. by etrans.
  - apply StronglySorted_cons. split; [|by apply IH]. rewrite sort_insert_perm. by constructor.
Qed.

Notation ascending := (StronglySorted (fun x y => sn_timestamp x <= sn_timestamp y)).

Lemma by_time_sorted l : ascending (by_time l).
Proof. apply sort_by_sorted; [intros ???; lia|]. intros x y. destruct (Z.leb_spec (sn_timestamp x) (sn_timestamp y)); lia. Qed.

(** The entries that go, oldest unpinned first. *)
Record pruned (l kept dropped : list Snapshot) : Prop := {
  pn_split : kept ++ dropped ≡ₚ l;
  pn_unpinned : Forall (fun d => sn_pinned d = false) dropped;
  pn_oldest : forall d k, d ∈ dropped -> k ∈ kept -> sn_pinned k = false -> sn_timestamp d <= sn_timestamp k;
  pn_few : (length kept <= MAX_SNAPSHOTS)%nat \/ Forall (fun k => sn_pinned k = true) kept;
  pn_enough : dropped = [] \/ (MAX_SNAPSHOTS <= length kept)%nat;
  pn_order : ascending kept;
}.

(** The first unpinned entry of an ascending list is its oldest. *)
Lemma first_unpinned l i :
  ascending l -> position_by (fun s => negb (sn_pinned s)) l = Some i ->
  exists d, l ≡ₚ d :: delete i l /\ sn_pinned d = false /\ ascending (delete i l)
    /\ forall k, k ∈ delete i l -> sn_pinned k = false -> sn_timestamp d <= sn_timestamp k.
Proof.
  unfold position_by. intros Hs Hp. apply fmap_Some in Hp as ([j d] & Hf & ->). apply list_find_Some in Hf as (Hd & Hn & Hbefore).
  apply negb_true_iff in Hn. exists d. split; [by apply delete_Permutation|]. split; [done|].
  cbn [fst]. rewrite delete_take_drop. rewrite <-(take_drop_middle l j d Hd) in Hs.
  apply StronglySorted_app in Hs as (Hbd & Ht & [Hd' Hdr]%StronglySorted_cons). split.
  - apply StronglySorted_app. split_and!; try done. intros x y Hx Hy. apply Hbd; [done|by right].
  - intros k [[i Hk]%list_elem_of_lookup|Hk]%elem_of_app Hu.
    + apply lookup_take_Some in Hk as [Hk Hi]. exfalso. apply (Hbefore i k Hk Hi). by rewrite Hu.
    + by apply (proj1 (Forall_forall _ _) Hd').
Qed.

Lemma pruned_none l :
  ascending l -> (length l <= MAX_SNAPSHOTS)%nat \/ Forall (fun k => sn_pinned k = true) l -> pruned l l [].
Proof. intros Hs Hf. split; try done; [by rewrite app_nil_r|intros d k Hd; by apply elem_of_nil in Hd|by left]. Qed.

Lemma prune_fuel_pruned fuel l :
  (length l <= fuel)%nat -> ascending l -> exists dropped, pruned l (prune_fuel fuel l) dropped.
Proof.
  revert l. induction fuel as [|fuel IH]; intros l Hl Hs.
  - exists []. destruct l; [|cbn in Hl; lia]. apply pruned_none; [done|left; cbn; lia].
  - cbn. destruct (Nat.leb_spec (length l) MAX_SNAPSHOTS) as [Hle|Hgt].
    { exists []. apply pruned_none; [done|by left]. }
    destruct (position_by _ l) as [i|] eqn:Hp.
    + destruct (first_unpinned l i Hs Hp) as (d & Hperm & Hd & Hs' & Hold).
      assert (Hlen : S (length (delete i l)) = length l) by (by rewrite (Permutation_length Hperm)).
      destruct (IH (delete i l)) as [dropped [H1 H2 H3 H4 H5 H6] ]; [lia|done|]. exists (d :: dropped). split; try done.
      * etrans; [symmetry; apply Permutation_middle|]. rewrite H1. by symmetry.
      * by constructor.
      * intros x k [->|Hx]%elem_of_cons Hk Hu; [|by apply H3]. apply Hold; [|done]. rewrite <-H1. apply elem_of_app. by left.
      * right. destruct H5 as [->|?]; [|done]. rewrite app_nil_r in H1. rewrite H1. lia.
    + exists []. apply pruned_none; [done|right].
      unfold position_by in Hp. apply fmap_None, list_find_None in Hp. eapply Forall_impl; [exact Hp|]. cbn.
      intros k Hk. by destruct (sn_pinned k).
Qed.

Lemma prune_pruned l : exists dropped, pruned l (prune l) dropped.
Proof.
  unfold prune. destruct (prune_fuel_pruned (length (by_time l)) (by_time l)) as [dropped [H1 H2 H3 H4 H5 H6] ]; [done|apply by_time_sorted|].
  exists dropped. split; try done. rewrite H1. apply sort_by_perm.
Qed.

(** ** The next free second *)

Lemma next_free_spec taken t :
  StronglySorted Z.lt taken -> Forall (fun x => t <= x < i64_max) taken ->
  let r := next_free taken t in t <= r /\ r ∉ taken /\ forall x, t <= x < r -> x ∈ taken.
Proof.
  revert t. induction taken as [|x taken IH]; intros t Hs Hb; cbn; [split_and!; [lia|set_solver|lia]|].
  apply StronglySorted_cons in Hs as [Hx Hs]. apply Forall_cons in Hb as [Hxb Hb].
  destruct (Z.eqb_spec x t) as [->|Hne].
  - assert (Hsucc : i64_succ t = t + 1) by (unfold i64_succ; destruct (Z.eqb_spec t i64_max); lia).
    assert (Hb' : Forall (fun y => t + 1 <= y < i64_max) taken).
    { apply Forall_forall. intros y Hy. rewrite Forall_forall in Hx, Hb. specialize (Hx y Hy). specialize (Hb y Hy). lia. }
    destruct (IH (i64_succ t)) as (Hle & Hni & Hall); [done|by rewrite Hsucc|]. rewrite Hsucc in *. split_and!; [lia| |].
    + intros [Heq|Hin]%elem_of_cons; [lia|done].
    + intros y Hy. destruct (decide (y = t)) as [->|]; [by left|]. right. apply Hall. lia.
  - split_and!; [lia| |lia]. intros [Heq|Hin]%elem_of_cons; [lia|]. rewrite Forall_forall in Hx. specialize (Hx t Hin). lia.
Qed.

Lemma le_nodup_lt l : StronglySorted Z.le l -> NoDup l -> StronglySorted Z.lt l.
Proof.
  induction 1 as [|x l Hs IH Hx]; intros Hnd; [constructor|]. apply NoDup_cons in Hnd as [Hni Hnd].
  constructor; [by apply IH|]. apply Forall_forall. intros y Hy. rewrite Forall_forall in Hx. specialize (Hx y Hy).
  assert (y <> x) by (intros ->; done). lia.
Qed.

Lemma taken_from_spec l t :
  StronglySorted Z.lt (taken_from l t) /\ forall x, x ∈ taken_from l t <-> t <= x /\ x ∈ sn_timestamp <$> l.
Proof.
  unfold taken_from. set (g := list_to_set _ : gset Z). split.
  - apply le_nodup_lt; [apply StronglySorted_merge_sort; apply _|]. rewrite merge_sort_Permutation. apply NoDup_elements.
  - intros x. rewrite merge_sort_Permutation, elem_of_elements. unfold g. rewrite elem_of_list_to_set, list_elem_of_filter. done.
Qed.

(** The first second from [t] on that no entry has. *)
Definition first_free (l : list Snapshot) (t id : Z) : Prop :=
  t <= id /\ id ∉ sn_timestamp <$> l /\ forall x, t <= x < id -> x ∈ sn_timestamp <$> l.

Lemma next_free_first l t :
  Forall (fun s => sn_timestamp s < i64_max) l -> first_free l t (next_free (taken_from l t) t).
Proof.
  intros Hl. destruct (taken_from_spec l t) as [Hs Hin].
  destruct (next_free_spec (taken_from l t) t Hs) as (Hle & Hni & Hall).
  - apply Forall_forall. intros x [Ht (s & -> & Hx)%list_elem_of_fmap]%Hin. rewrite Forall_forall in Hl. specialize (Hl s Hx). lia.
  - split_and!; [done| |].
    + intros Hx. apply Hni, Hin. done.
    + intros x Hx. by apply Hin, Hall.
Qed.

(** ** The history *)

Lemma StronglySorted_rev {A : Type} (R : A -> A -> Prop) l : StronglySorted R l -> StronglySorted (fun x y => R y x) (rev l).
Proof.
  induction 1 as [|x l Hs IH Hx]; cbn; [constructor|]. apply StronglySorted_app. split_and!; [|done|by repeat constructor].
  intros y z Hy Hz. apply list_elem_of_singleton in Hz as ->. rewrite Forall_forall in Hx. apply Hx. by apply list_elem_of_In, in_rev, list_elem_of_In.
Qed.

Section history.
Context `{Serde SnapshotFile}.

Lemma bs_read_header b kind member (f : SnapshotFile) :
  bs_read b kind member = Ok f -> sf_format f = SNAPSHOTS_FORMAT /\ sf_schema f = BAND_SCHEMA.
Proof.
  unfold bs_read. destruct (bs_path b kind member) as [path|]; cbn; [|done].
  destruct (bs_files b !! path) as [[text|] |]; [|done|by intros [= <-]]. destruct (of_json text) as [g|]; [|done].
  destruct (negb (bool_decide _) || _) eqn:Hb; [done|]. intros [= <-]. bool_inv. split; [done|lia].
Qed.

(** A file just written is read. *)
Lemma bs_read_written b kind member path (f : SnapshotFile) :
  bs_path b kind member = Ok path -> of_json (to_json f) = Ok f -> sf_format f = SNAPSHOTS_FORMAT -> sf_schema f = BAND_SCHEMA ->
  bs_read (bs_put b path (to_json f)) kind member = Ok f.
Proof.
  intros Hp Hj Hf Hs. unfold bs_read. change (bs_path (bs_put b path (to_json f)) kind member) with (bs_path b kind member). rewrite Hp. cbn.
  rewrite lookup_insert_eq, Hj. cbn. by rewrite Hf, Hs.
Qed.

Lemma pruned_reordered l kept kept' dropped : pruned l kept dropped -> kept' ≡ₚ kept -> ascending kept' -> pruned l kept' dropped.
Proof.
  intros [H1 H2 H3 H4 H5 H6] Hp Hs. split; try done; rewrite ?Hp; try done. intros d k Hd Hk. rewrite Hp in Hk. by apply H3.
Qed.

(** A history that can take [s]: fewer than fifty entries, or fewer than fifty
    pinned ones and none later than [s]. *)
Definition room_for (s : Snapshot) (l : list Snapshot) : Prop :=
  (length l < MAX_SNAPSHOTS)%nat
  \/ (length (filter (fun x => sn_pinned x = true) l) < MAX_SNAPSHOTS)%nat /\ Forall (fun x => sn_timestamp x <= sn_timestamp s) l.

(** An entry there is room for is not pruned. *)
Lemma pruned_keeps_new l s id kept dropped :
  room_for s l -> first_free l (sn_timestamp s) id -> pruned (l ++ [at_time id s]) kept dropped -> at_time id s ∈ kept.
Proof.
  intros Hroom (Hle & Hni & _) [Hsplit Hun Hold _ Henough _]. set (new := at_time id s) in *.
  assert (Hin : new ∈ kept ++ dropped) by (rewrite Hsplit; apply elem_of_app; right; by left).
  apply elem_of_app in Hin as [|Hd]; [done|]. exfalso.
  assert (Hfull : (MAX_SNAPSHOTS <= length kept)%nat) by (destruct Henough as [->|]; [by apply elem_of_nil in Hd|done]).
  assert (Hlen : (length kept + length dropped = S (length l))%nat).
  { rewrite <-length_app, Hsplit, length_app. cbn. lia. }
  assert (Hpos : (0 < length dropped)%nat) by (destruct dropped; [by apply elem_of_nil in Hd|cbn; lia]).
  destruct Hroom as [|[Hpins Hlate]]; [lia|]. rewrite Forall_forall in Hun, Hlate.
  destruct (list_elem_of_split _ _ Hd) as (d1 & d2 & Hdd).
  assert (Hperm : kept ++ d1 ++ d2 ≡ₚ l).
  { apply (Permutation_cons_inv (a := new)). rewrite (Permutation_cons_append l), <-Hsplit, Hdd. by rewrite <-Permutation_middle, <-Permutation_middle. }
  assert (Hall : Forall (fun k => sn_pinned k = true) kept).
  { apply Forall_forall. intros k Hk. destruct (sn_pinned k) eqn:Hp; [done|]. exfalso.
    assert (Hkl : k ∈ l) by (rewrite <-Hperm; apply elem_of_app; by left).
    pose proof (Hold new k Hd Hk Hp) as Ht. cbn in Ht. specialize (Hlate k Hkl).
    apply Hni, list_elem_of_fmap. exists k. split; [lia|done]. }
  assert (Hf : filter (fun x => sn_pinned x = true) kept = kept).
  { clear -Hall. induction Hall as [|x k Hx _ IH]; [done|]. rewrite filter_cons_True by done. by rewrite IH. }
  assert (Hle2 : (length kept <= length (filter (fun x => sn_pinned x = true) l))%nat); [|lia].
  rewrite <-Hperm, filter_app, length_app, Hf. lia.
Qed.

Lemma find_only {A : Type} (f : A -> bool) l x : x ∈ l -> f x = true -> (forall y, y ∈ l -> f y = true -> y = x) -> Roster.find f l = Some x.
Proof.
  intros Hx Hf Hall. unfold Roster.find. destruct (list_find (fun x => Is_true (f x)) l) as [[i y]|] eqn:Hl; cbn.
  - apply list_find_Some in Hl as (Hy & Hp & _). f_equal. apply Hall; [by eapply list_elem_of_lookup_2|by apply Is_true_eq_true].
  - apply list_find_None in Hl. rewrite Forall_forall in Hl. exfalso. apply (Hl x Hx). by rewrite Hf.
Qed.

(** What is kept of an archive that is pinned. *)
Lemma pruned_keeps_archived l kept dropped x :
  pruned l kept dropped -> x ∈ l -> sn_pinned x = true -> x ∈ kept.
Proof.
  intros [Hsplit Hun _ _ _ _] Hx Hp. rewrite <-Hsplit in Hx. apply elem_of_app in Hx as [|Hd]; [done|].
  rewrite Forall_forall in Hun. specialize (Hun x Hd). congruence.
Qed.

(** C36: a snapshot is added to a member's history that has room for it (fewer than
    fifty entries, or fewer than fifty pinned ones and none later) and whose
    archived entries are pinned.  It is stored under the first free second from
    its own on, which is the answer, and it is read back under it.  The history
    read afterwards, newest first, is the old entries and the new one, less what
    was pruned: no pinned and no archived entry goes, an entry that goes is no
    newer than any unpinned one that stays, nothing goes while fifty or fewer
    remain, and more than fifty remain only when all are pinned.  Seconds that
    were distinct stay distinct. *)
Theorem history_kept member s b file b' id :
  bs_read b "snapshots" member = Ok file -> Forall (fun x => sn_timestamp x < i64_max) (sf_snapshots file) ->
  room_for s (sf_snapshots file) -> Forall (fun x => sn_archived x = true -> sn_pinned x = true) (sf_snapshots file) ->
  add_snapshot Written member s b = (b', Ok id) ->
  (let f := with_snapshots file (prune (sf_snapshots file ++ [at_time id s])) in of_json (to_json f) = Ok f) ->
  first_free (sf_snapshots file) (sn_timestamp s) id
  /\ exists l dropped, snapshots b' member = Ok l /\ pruned (sf_snapshots file ++ [at_time id s]) (rev l) dropped
     /\ snapshot b' member id = Ok (Some (at_time id s))
     /\ (forall x, x ∈ sf_snapshots file -> sn_archived x = true -> x ∈ l)
     /\ (NoDup (sn_timestamp <$> sf_snapshots file) -> NoDup (sn_timestamp <$> l)).
Proof.
  intros Hr Hmax Hroom Harch Ha Hj. unfold add_snapshot in Ha. rewrite Hr in Ha. pose proof (next_free_first _ (sn_timestamp s) Hmax) as Hfree.
  set (t := next_free _ _) in *. unfold bs_store, bs_write in Ha. destruct (bs_path b "snapshots" member) as [path|] eqn:Hp; [|done].
  cbn in Ha. injection Ha as <- <-. destruct (bs_read_header _ _ _ _ Hr) as [Hf Hs]. set (all := sf_snapshots file ++ [at_time t s]) in *.
  split; [done|]. destruct (prune_pruned all) as [dropped Hpr].
  set (newest := sort_by (fun x y => sn_timestamp y <=? sn_timestamp x)).
  assert (Hperm : newest (prune all) ≡ₚ prune all) by apply sort_by_perm.
  assert (Hl : snapshots (bs_put b path (to_json (with_snapshots file (prune all)))) member = Ok (newest (prune all)))
    by (unfold snapshots; by rewrite (bs_read_written b _ _ _ _ Hp Hj) by done).
  exists (newest (prune all)), dropped. split; [exact Hl|].
  assert (Hnew : at_time t s ∈ newest (prune all)) by (rewrite Hperm; by eapply pruned_keeps_new).
  split_and!.
  - apply (pruned_reordered _ _ _ _ Hpr).
    + etrans; [symmetry; apply Permutation_rev|done].
    + apply (StronglySorted_rev (fun x y => sn_timestamp y <= sn_timestamp x)).
      assert (Transitive (fun x y => y <= x)) by (intros ???; lia). apply (sort_by_sorted sn_timestamp _ (fun x y => y <= x)).
      intros x y. destruct (Z.leb_spec (sn_timestamp y) (sn_timestamp x)); lia.
  - unfold snapshot. rewrite Hl. cbn [mbind result_bind]. f_equal. apply find_only; [done|by apply Z.eqb_refl|].
    intros y Hy Hyt%Z.eqb_eq. rewrite Hperm in Hy. assert (Hya : y ∈ all) by (rewrite <-(pn_split _ _ _ Hpr); apply elem_of_app; by left).
    apply elem_of_app in Hya as [Hyf|Hyf]; [|by apply list_elem_of_singleton in Hyf]. exfalso. destruct Hfree as (_ & Hni & _).
    apply Hni, list_elem_of_fmap. by exists y.
  - intros x Hx Hxa. rewrite Hperm. eapply (pruned_keeps_archived _ _ _ _ Hpr); [apply elem_of_app; by left|].
    rewrite Forall_forall in Harch. by apply Harch.
  - intros Hnd. rewrite Hperm. destruct Hfree as (_ & Hni & _).
    assert (Hall : NoDup (sn_timestamp <$> (prune all ++ dropped))).
    { rewrite (pn_split _ _ _ Hpr). subst all. rewrite fmap_app. apply NoDup_app. split_and!; [done| |apply NoDup_singleton].
      intros x Hx Hx'. apply list_elem_of_singleton in Hx' as ->. done. }
    rewrite fmap_app in Hall. by apply NoDup_app in Hall as [? _].
Qed.

End history.

(** ** Concrete histories *)

Definition note_at (t : Z) (pinned : bool) : Snapshot := mkSnapshot t "note" pinned [] ∅ ∅ false None.

Definition noon_file : SnapshotFile := SnapshotFile_new "anna" [note_at 5 false; note_at 6 true].
Definition after_noon : SnapshotFile := with_snapshots noon_file [note_at 5 false; note_at 6 true; note_at 7 false].

(** Two texts and what they hold. *)
Definition noon_texts : Serde SnapshotFile :=
  {| to_json _ := "after"; of_json text := if decide (text = "noon") then Ok noon_file else Ok after_noon |}.
Definition noon_store : BandStore := mkBandStore "/d" (<["/d/snapshots/anna.json" := Readable "noon"]> ∅).

(** The seconds 5 and 6 are taken: the entry of second 5 is stored under 7. *)
Lemma history_kept_witness :
  exists b' l dropped, add_snapshot (H := noon_texts) Written "anna" (note_at 5 false) noon_store = (b', Ok 7)
    /\ first_free (sf_snapshots noon_file) 5 7
    /\ snapshots (H := noon_texts) b' "anna" = Ok l /\ pruned (sf_snapshots noon_file ++ [note_at 7 false]) (rev l) dropped.
Proof.
  destruct (history_kept (H := noon_texts) "anna" (note_at 5 false) noon_store noon_file
    (bs_put noon_store "/d/snapshots/anna.json" "after") 7
    ltac:(vm_compute; reflexivity) ltac:(repeat constructor) ltac:(left; vm_compute; lia) ltac:(by repeat constructor)
    ltac:(vm_compute; reflexivity) ltac:(vm_compute; reflexivity))
    as [Hf (l & d & Hl & Hp & _)].
  exists (bs_put noon_store "/d/snapshots/anna.json" "after"), l, d. split; [vm_compute; reflexivity|]. split; [exact Hf|]. split; [exact Hl|exact Hp].
Defined.

Example taken_seconds :
  next_free (taken_from (sf_snapshots noon_file) 5) 5 = 7 /\ next_free (taken_from (sf_snapshots noon_file) 4) 4 = 4.
Proof. vm_compute. tauto. Qed.

(** With fifty pinned entries a new one is pruned at once, and [add_snapshot]
    still answers with its id. *)
Example full_of_pins :
  let full := (fun i => note_at (Z.of_nat i) true) <$> seq 1 50 in
  sn_timestamp <$> filter (fun x => sn_pinned x = false) (prune (full ++ [note_at 100 false])) = []
  /\ length (prune (full ++ [note_at 100 false])) = 50%nat.
Proof. vm_compute. tauto. Qed.

(** An archived entry, which can be neither changed nor deleted, is pruned as
    any other. *)
Example archive_pruned :
  let old := mkSnapshot 1 "v1" false [] ∅ ∅ true (Some "anna") in
  let l := old :: ((fun i => note_at (Z.of_nat i) false) <$> seq 2 49) in
  existsb sn_archived l = true /\ existsb sn_archived (prune (l ++ [note_at 100 false])) = false.
Proof. vm_compute. tauto. Qed.
