(* ===== verification/RtSpec.v ===== *)
(** * What the RT processor promises

    The processor follows the core through the control loop, its commands are
    applied on time and whole, a HIL test signal never reaches the topology's
    outputs, every node's signal is clean, blocks and fade-outs complete. *)

From S2P Require Import Prelude F64 Text MixState Msg Shape Topology TopologyWf Reconciled Rt Core CoreSync CoreCmd CoreApply Disk Codec Store Chain Live Crash Boot Wire Control Dsp Mga Processor Render RtTargets RtHolds RtSched RtSafe RtFade DspSpec CtlFrame CtlRt CtlPeers CtlLive CtlEnd CtlTotal ControlSpec.
From Stdlib Require Import SpecFloat.
From stdpp Require Import vector.
From stdpp Require Import options.
Local Open Scope Z_scope.
#[local] Unset Default Proof Using.

(** ** The values of a well-formed core *)

(** The platform's power function gives a finite, non-negative linear gain for
    every EQ gain in range. *)
Class LibmSane `{Libm} : Prop := db_to_lin_sane : forall db, f64_in EQ_GAIN_DB db = true -> value_ok (db_to_lin db) = true.

Lemma value_ok_in r x :
  range_ok r = true -> match r.1 with S754_zero _ | S754_finite false _ _ => true | _ => false end = true ->
  f64_in r x = true -> value_ok x = true.
Proof.
  intros Hr Hlo Hx. unfold value_ok. rewrite (f64_in_finite r) by done. cbn.
  destruct r as [lo hi]. unfold f64_in in Hx; cbn in *. apply andb_prop in Hx as [Hx _].
  by destruct x as [[]|[]| |[]], lo as [[]|[]| |[]].
Qed.

Lemma band_valid `{LibmSane} b : Shape.band_ok b = true -> is_valid (dsp_band b) = true.
Proof.
  unfold Shape.band_ok, is_valid; cbn. intros Hb. bool_inv. rewrite db_to_lin_sane by done.
  rewrite (value_ok_in EQ_FREQ), (value_ok_in EQ_BW) by done. done.
Qed.

Lemma eq_params_valid `{LibmSane} e : Shape.eq_ok e = true -> eq_valid (eq_params e).
Proof.
  unfold Shape.eq_ok. intros [Hg Hb]%andb_prop. split; [|by apply db_to_lin_sane].
  cbn. rewrite vec_to_list_map, Forall_fmap. rewrite forallb_forall in Hb. apply Forall_forall. intros b Hin.
  apply band_valid, Hb. by apply list_elem_of_In.
Qed.

(** The core only asks for EQs the filters take. *)
Lemma want_sane `{LibmSane} topo c s op : layout_ok topo (c_s c) -> want c s = Some op -> op_sane op.
Proof.
  intros [_ Hi _ Hm] Hw. rewrite Forall_lookup in Hi.
  assert (Hrec : forall j r, r_mixes (c_s c) !! j = Some r -> Shape.eq_ok (o_eq (r_out r)) = true
    /\ forall g x, r_groups r !! g = Some x -> Shape.eq_ok (g_eq x) = true).
  { intros j r Hr. destruct (Hm _ _ Hr) as (Ho & _ & _ & _ & Hg). unfold out_ok in Ho. bool_inv. split; [done|].
    intros g x Hx. rewrite Forall_lookup in Hg. specialize (Hg _ _ Hx). unfold Shape.group_ok in Hg. by bool_inv. }
  destruct s; cbn in Hw; repeat case_decide; simplify_option_eq; cbn; try done.
  - apply eq_params_valid. specialize (Hi _ _ ltac:(eassumption)). unfold Shape.input_ok in Hi. by bool_inv.
  - apply eq_params_valid. eapply Hrec. eassumption.
  - apply eq_params_valid. eapply Hrec; eassumption.
Qed.

(** ** A processor of a topology *)

Record fits (topo : Topology) (T : ProcT) : Prop := {
  fi_inputs : length (pt_inputs T) = length (t_inputs topo);
  fi_mixes : length (pt_mixes T) = length (t_mixes topo);
  fi_parts : forall m x, pt_mixes T !! m = Some x -> length (mt_levels x) = levels topo m /\ length (mt_groups x) = length (t_groups topo);
  fi_listen : length (pt_listen T) = 2%nat;
}.

Lemma on_lt {A : Type} (l : list A) i j : unix i = Some j -> (j < length l)%nat -> on l i (fun _ => True).
Proof.
  unfold unix. destruct (Z.leb_spec 0 i); [|done]. intros [= <-] Hj. split; [done|].
  apply lookup_lt_is_Some_2 in Hj as [x Hx]. by exists x.
Qed.

Lemma on_lt_with {A : Type} (l : list A) i j (P : A -> Prop) :
  unix i = Some j -> (j < length l)%nat -> (forall x, l !! j = Some x -> P x) -> on l i P.
Proof.
  unfold unix. destruct (Z.leb_spec 0 i); [|done]. intros [= <-] Hj Hp. split; [done|].
  apply lookup_lt_is_Some_2 in Hj as [x Hx]. exists x. auto.
Qed.

Lemma want_slot_in `{Libm} topo c T s op : layout_ok topo (c_s c) -> fits topo T -> want c s = Some op -> slot_in T s.
Proof.
  intros [Hli _ Hlm Hm] [Fi Fm Fp Fl] Hw.
  assert (Hrec : forall m j r, unix m = Some j -> r_mixes (c_s c) !! j = Some r ->
    on (pt_mixes T) m (fun x => length (mt_levels x) = length (r_levels r) /\ length (mt_groups x) = length (r_groups r))).
  { intros m j r Hu Hr. eapply on_lt_with; [done|apply lookup_lt_Some in Hr; lia|]. intros x Hx.
    destruct (Hm _ _ Hr) as (_ & -> & _ & -> & _). by apply Fp. }
  destruct s; cbn in Hw; try (apply bind_Some in Hw as (j & Hj & Hw)); cbn [slot_in].
  - apply bind_Some in Hw as (x & Hx & _). apply lookup_lt_Some in Hx. eapply on_lt; [done|lia].
  - apply bind_Some in Hw as (x & Hx & _). apply lookup_lt_Some in Hx. eapply on_lt; [done|lia].
  - apply bind_Some in Hw as (x & Hx & _). eapply on_impl; [|by eapply Hrec]. done.
  - apply bind_Some in Hw as (x & Hx & _). eapply on_impl; [|by eapply Hrec]. done.
  - apply bind_Some in Hw as (x & Hx & _). eapply on_impl; [|by eapply Hrec]. done.
  - apply bind_Some in Hw as (i & Hk & Hw). apply bind_Some in Hw as (x & Hx & Hw). apply bind_Some in Hw as (l & Hl & _).
    eapply on_impl; [|by eapply Hrec]. intros y [Hy _]. eapply on_lt; [done|]. rewrite Hy. by eapply lookup_lt_Some.
  - apply bind_Some in Hw as (i & Hk & Hw). apply bind_Some in Hw as (x & Hx & Hw). apply bind_Some in Hw as (l & Hl & _).
    eapply on_impl; [|by eapply Hrec]. intros y [_ Hy]. eapply on_lt; [done|]. rewrite Hy. by eapply lookup_lt_Some.
  - apply bind_Some in Hw as (i & Hk & Hw). apply bind_Some in Hw as (x & Hx & Hw). apply bind_Some in Hw as (l & Hl & _).
    eapply on_impl; [|by eapply Hrec]. intros y [_ Hy]. eapply on_lt; [done|]. rewrite Hy. by eapply lookup_lt_Some.
  - destruct (decide _) as [->|_]; [eapply on_lt; [reflexivity|lia]|].
    destruct (decide _) as [->|_]; [eapply on_lt; [reflexivity|lia]|done].
Qed.

(** ** The processor started at a state *)

Section start.
Context `{LibmSane, RtMath} {channels : Z} (topo : Topology) (state : MixState) (counters : list Z) (opts : Options) (spares rx : nat).
Context (Hwf : topo_wf channels topo).

Definition started : Processor := with_hil_rt topo state counters opts spares rx.
Definition layout : Reconciled := (reconcile_topo topo state).1.

Lemma layout_fine : layout_ok topo layout.
Proof. apply (reconcile_topo_ok Hwf). Qed.

Lemma started_input i x :
  r_inputs layout !! i = Some x -> pt_inputs (p_targets started) !! i = Some (input_t (input_new (f64_of_u32 SAMPLE_RATE) x)).
Proof. intros Hx. cbn. rewrite <-list_fmap_compose, list_lookup_fmap. unfold layout in Hx. by rewrite Hx. Qed.

Lemma started_mix m r :
  r_mixes layout !! m = Some r ->
  pt_mixes (p_targets started) !! m = Some (mix_t (mix_new topo (f64_of_u32 SAMPLE_RATE) counters m r)).
Proof. intros Hr. cbn. rewrite list_lookup_fmap, list_lookup_imap. unfold layout in Hr. by rewrite Hr. Qed.

Lemma Equalizer_new_t n q fs : eq_valid q -> eq_targets (Equalizer_new n q fs) = (vec_to_list (ep_bands q), ep_global_gain q).
Proof. intros [Hb Hg]. unfold Equalizer_new. apply Equalizer_at_t. split_and!; [apply length_vec_to_list|done|done]. Qed.

Lemma eq_new_ok n e fs : Shape.eq_ok e = true -> eqt_ok (eq_targets (Equalizer_new n (eq_params e) fs)).
Proof.
  intros He. rewrite Equalizer_new_t by by apply eq_params_valid. destruct (eq_params_valid _ He) as [Hb Hg].
  split_and!; [apply length_vec_to_list|done|done].
Qed.

Lemma ml_new_t sr l base : f64_in LIMIT_DB l = true -> forall enabled, lim_t (ml_new sr enabled l base) = mkLimT enabled l.
Proof.
  intros Hl enabled. unfold ml_new, lim_t; cbn. f_equal. unfold clamp_limit.
  rewrite (f64_in_finite LIMIT_DB) by done. exact (f64_clamp_id LIMIT_DB l eq_refl Hl).
Qed.

Lemma StereoGain_new_t sr vol muted pan :
  gaint_feq (gain_t (StereoGain_new sr vol muted pan)) vol pan muted.
Proof. unfold StereoGain_new, gaint_feq. destruct (send_gains vol false pan) as [gl gr]. by split_and!; left. Qed.

Lemma mix_new_both (P : OutT -> Prop) sr m r :
  (forall base, P (mkOutT (eq_targets (Equalizer_new 2 (eq_params (o_eq (r_out r))) sr))
       (lim_t (ml_new sr (l_enabled (o_limiter (r_out r))) (l_limit_db (o_limiter (r_out r))) base))
       (gain_t (StereoGain_new sr (db_to_lin (o_volume_db (r_out r))) (o_muted (r_out r)) f64_0)))) ->
  both P (mix_t (mix_new topo sr counters m r)).
Proof.
  intros Hp. split; [apply Hp|]. cbn. destruct (t_mixes topo !! m) as [n|]; [|done]. cbn.
  destruct (mn_shadow n); [|done]. intros s [= <-]. apply Hp.
Qed.

Lemma started_fits : fits topo (p_targets started).
Proof.
  destruct layout_fine as [Hi _ Hm Hr]. split; cbn; [|rewrite length_fmap, length_imap; done| |done].
  - by rewrite !length_fmap.
  - intros m x Hx. rewrite list_lookup_fmap, list_lookup_imap in Hx.
    destruct (r_mixes layout !! m) as [r|] eqn:Hl; unfold layout in Hl; rewrite Hl in Hx; [|done]. cbn in Hx. injection Hx as <-.
    destruct (Hr _ _ Hl) as (_ & <- & _ & <- & _). cbn. by rewrite !length_fmap.
Qed.

Lemma started_ok : targets_ok (p_targets started).
Proof.
  destruct layout_fine as [Hi Hio Hm Hr]. split; cbn.
  - rewrite !Forall_fmap. eapply Forall_impl; [exact Hio|]. cbn. intros x Hx. apply eq_new_ok.
    unfold Shape.input_ok in Hx. by bool_inv.
  - rewrite Forall_fmap. apply Forall_lookup. intros m x Hx. rewrite list_lookup_imap in Hx.
    destruct (r_mixes layout !! m) as [r|] eqn:Hl; unfold layout in Hl; rewrite Hl in Hx; [|done]. cbn in Hx. injection Hx as <-.
    destruct (Hr _ _ Hl) as (Ho & _ & _ & _ & Hg). split.
    + apply mix_new_both. intros base. cbn. apply eq_new_ok. unfold out_ok in Ho. by bool_inv.
    + cbn. rewrite !Forall_fmap. eapply Forall_impl; [exact Hg|]. cbn. intros g Hg'. apply eq_new_ok.
      unfold Shape.group_ok in Hg'. by bool_inv.
Qed.

Lemma on_look {A : Type} (l : list A) i j x (P : A -> Prop) : unix i = Some j -> l !! j = Some x -> P x -> on l i P.
Proof. unfold unix. destruct (Z.leb_spec 0 i); [|done]. intros [= <-] Hx Hp. split; [done|]. by exists x. Qed.

Lemma eq_new_feq n e fs : Shape.eq_ok e = true -> eqt_feq (eq_targets (Equalizer_new n (eq_params e) fs)) (eq_params e).
Proof. intros He. rewrite Equalizer_new_t by by apply eq_params_valid. split; [reflexivity|by left]. Qed.

Lemma started_agrees rev flags : agrees (p_targets started) (want (Core_new topo state rev flags)).
Proof.
  destruct layout_fine as [_ Hio _ Hr]. rewrite Forall_lookup in Hio.
  intros s op Hw _. destruct s; cbn [want] in Hw; try (apply bind_Some in Hw as (j & Hj & Hw)); cbn [c_s Core_new] in Hw; fold layout in Hw.
  - apply bind_Some in Hw as (x & Hx & [= <-]). eapply on_look; [done|by apply started_input|]. cbn.
    destruct (i_processing x); by split_and!; left.
  - apply bind_Some in Hw as (x & Hx & [= <-]). eapply on_look; [done|by apply started_input|]. cbn. apply eq_new_feq.
    specialize (Hio _ _ Hx). cbn in Hio. unfold Shape.input_ok in Hio. by bool_inv.
  - apply bind_Some in Hw as (r & Hl & [= <-]). eapply on_look; [done|by apply started_mix|]. apply mix_new_both. intros base.
    apply StereoGain_new_t.
  - apply bind_Some in Hw as (r & Hl & [= <-]). eapply on_look; [done|by apply started_mix|]. apply mix_new_both. intros base.
    cbn [ot_eq]. apply eq_new_feq. destruct (Hr _ _ Hl) as (Ho & _). unfold out_ok in Ho. by bool_inv.
  - apply bind_Some in Hw as (r & Hl & [= <-]). eapply on_look; [done|by apply started_mix|]. apply mix_new_both. intros base.
    cbn [ot_lim]. destruct (Hr _ _ Hl) as (Ho & _). unfold out_ok in Ho. rewrite ml_new_t by by bool_inv. by split; [|left].
  - apply bind_Some in Hw as (i & Hk & Hw). apply bind_Some in Hw as (r & Hl & Hw). apply bind_Some in Hw as (l & Hll & [= <-]).
    eapply on_look; [done|by apply started_mix|]. eapply on_look; [done| |].
    { cbn. by rewrite <-list_fmap_compose, list_lookup_fmap, Hll. }
    unfold solo_out. cbn. rewrite lookup_empty. cbn. rewrite orb_false_r. apply StereoGain_new_t.
  - apply bind_Some in Hw as (i & Hk & Hw). apply bind_Some in Hw as (r & Hl & Hw). apply bind_Some in Hw as (l & Hll & [= <-]).
    eapply on_look; [done|by apply started_mix|]. eapply on_look; [done| |].
    { cbn. by rewrite <-list_fmap_compose, list_lookup_fmap, Hll. }
    apply StereoGain_new_t.
  - apply bind_Some in Hw as (i & Hk & Hw). apply bind_Some in Hw as (r & Hl & Hw). apply bind_Some in Hw as (l & Hll & [= <-]).
    eapply on_look; [done|by apply started_mix|]. eapply on_look; [done| |].
    { cbn. by rewrite <-list_fmap_compose, list_lookup_fmap, Hll. }
    cbn. apply eq_new_feq. destruct (Hr _ _ Hl) as (_ & _ & _ & _ & Hg). rewrite Forall_lookup in Hg. specialize (Hg _ _ Hll).
    cbn in Hg. unfold Shape.group_ok in Hg. by bool_inv.
  - destruct (decide _) as [->|_]; [injection Hw as <-; split; [done|]; by eexists|].
    destruct (decide _) as [->|_]; [injection Hw as <-; split; [done|]; by eexists|done].
Qed.

Lemma want_keyed c : keyed (want c).
Proof.
  intros s op Hw. destruct s; cbn in Hw; repeat case_decide; simplify_option_eq; done.
Qed.

Lemma started_held rev flags : held started (want (Core_new topo state rev flags)).
Proof. split_and!; [apply started_ok|apply want_keyed|apply started_agrees]. Qed.
End start.

(** ** Blocks, and what the other threads do between them *)

(** Commands the control thread pushed, talkback samples, samples the listeners
    took from every tap, a reopen of the driver, and the next block. *)
Record Between := mkBetween {
  bw_cmds : list RtCmd;
  bw_talk : list f64;
  bw_drain : nat;
  bw_reopen : bool;
  bw_block : Block;
}.

Definition between (e : Between) (p : Processor) : Processor :=
  let p := if bw_reopen e then discontinuity p else p in
  let r := p_rings p in
  set_rings (mkRings (rg_cmds r ++ bw_cmds e) (push_partial TALK_RING (rg_talk r) (bw_talk e)).1
               (drop (bw_drain e) <$> rg_taps r) (drop (bw_drain e) <$> rg_probes r)) p.

Fixpoint drive `{Libm, RtMath} (steps : list Between) (p : Processor) : option Processor :=
  match steps with
  | [] => Some p
  | e :: steps => '(p, _) ← process (between e p) (bw_block e); drive steps p
  end.

Definition frames_of (steps : list Between) : Z := foldr (fun e n => Z.of_nat (bk_frames (bw_block e)) + n) 0 steps.

Lemma frames_nonneg steps : 0 <= frames_of steps.
Proof. unfold frames_of. induction steps as [|e steps IH]; cbn [foldr]; lia. Qed.

Lemma between_same e p :
  p_targets (between e p) = p_targets p /\ p_time (between e p) = p_time p
  /\ rg_cmds (p_rings (between e p)) = rg_cmds (p_rings p) ++ bw_cmds e /\ p_topo (between e p) = p_topo p.
Proof.
  unfold between, discontinuity, restart_fade. destruct (bw_reopen e); [|done].
  destruct (ou_armed _); [|done]. by destruct (ou_fading_out _).
Qed.

Section drive.
Context `{Libm, RtMath}.

Lemma drive_spec steps p p' :
  drive steps p = Some p' -> 0 <= p_time p -> p_time p + frames_of steps <= u64_max ->
  exists applied, rg_cmds (p_rings p) ++ concat (bw_cmds <$> steps) = applied ++ rg_cmds (p_rings p')
    /\ ran applied p p' /\ p_time p' = p_time p + frames_of steps.
Proof.
  revert p. induction steps as [|e steps IH]; intros p; cbn [drive frames_of foldr fmap list_fmap concat].
  { intros [= <-] _ _. exists []. rewrite app_nil_r, Z.add_0_r. split_and!; [done|by apply ran_same|done]. }
  destruct (process (between e p) (bw_block e)) as [[q b']|] eqn:Hp; cbn [mbind option_bind]; [|done].
  intros Hd Hge Hmax. fold (frames_of steps) in *. pose proof (frames_nonneg steps).
  destruct (between_same e p) as (Ht & Htime & Hc & _).
  apply process_account in Hp as (moves & late & r & Hacc & _ & Hqt & Hqr & Hqtime & _); [|lia..].
  assert (Hq : p_time q = p_time p + Z.of_nat (bk_frames (bw_block e))).
  { rewrite Hqtime. rewrite (ac_time _ _ _ _ _ _ Hacc). lia. }
  destruct (IH _ Hd) as (applied & Ha & Hran & Hpt); [lia..|].
  exists (all_cmds (groups_at (p_time (between e p)) moves) ++ applied). split_and!; [| |lia].
  - pose proof (ac_ring _ _ _ _ _ _ Hacc) as Hring. rewrite Hc in Hring. rewrite <-app_assoc, <-Ha, Hqr, !app_assoc. by rewrite Hring.
  - eapply ran_app; [|exact Hran]. eapply ran_then; [|exact Hqt]. eapply ran_from; [exact (ac_ran _ _ _ _ _ _ Hacc)|done].
Qed.

Lemma drive_total steps p :
  no_panic (rg_cmds (p_rings p) ++ concat (bw_cmds <$> steps)) -> 0 <= p_time p -> p_time p + frames_of steps <= u64_max ->
  is_Some (drive steps p).
Proof.
  revert p. induction steps as [|e steps IH]; intros p; cbn [drive frames_of foldr fmap list_fmap concat]; [by eexists|].
  intros Hn Hge Hmax. fold (frames_of steps) in *. pose proof (frames_nonneg steps). rewrite app_assoc in Hn.
  destruct (between_same e p) as (_ & Htime & Hc & _).
  destruct (process_total (between e p) (bw_block e)) as [[q b'] Hp].
  { rewrite Hc. by apply Forall_app in Hn as [Hn _]. }
  rewrite Hp. cbn [mbind option_bind].
  apply process_account in Hp as (moves & late & r & Hacc & _ & _ & Hqr & Hqtime & _); [|lia..].
  pose proof (ac_time _ _ _ _ _ _ Hacc). apply IH; [|lia..].
  rewrite Hqr. pose proof (ac_ring _ _ _ _ _ _ Hacc) as Hring. rewrite Hc in Hring. rewrite Hring in Hn. unfold no_panic in *.
  rewrite <-app_assoc in Hn. by apply Forall_app in Hn as [_ Hn].
Qed.

(** A message stays in the memory. *)
Lemma rt_run_some ops mem s : (is_Some (mem s) \/ exists op, op ∈ ops /\ slot_of op = Some s) -> is_Some (rt_run mem ops s).
Proof.
  revert mem. induction ops as [|o ops IH]; intros mem Hor; cbn; [destruct Hor as [?|(op & []%elem_of_nil & _)]; done|].
  apply IH. unfold rt_write. case_decide; [by left; eexists|]. destruct Hor as [Hm|(op & [->|Hin]%elem_of_cons & Hs)]; [by left|done|].
  right. by exists op.
Qed.

(** Messages in step with a core name nodes of its topology. *)
Lemma synced_in topo c mem ops T :
  layout_ok topo (c_s c) -> fits topo T -> synced c (rt_run mem ops) -> Forall (op_in T) ops.
Proof.
  intros Hl Hf Hs. apply Forall_forall. intros op Hin s Hsl.
  assert (is_Some (rt_run mem ops s)) as [x Hx] by (apply rt_run_some; right; by exists op).
  specialize (Hs s). rewrite Hx in Hs. inversion Hs as [? y _ Hw Hy|]; subst. by eapply want_slot_in.
Qed.
End drive.

(** ** Holding a message is holding a numerically equal one *)

Section proper.
Context `{Libm, RtMath}.

Lemma f64_mul_feq a a' b : feq a a' -> feq (f64_mul a b) (f64_mul a' b).
Proof.
  intros [->|(s & s' & -> & ->)]; [by left|].
  destruct b as [t|t| |t m e]; [right; by eexists _, _|by left|by left|right; by eexists _, _].
Qed.

Lemma gains_zero s : gains (S754_zero s) = gains (S754_zero false).
Proof. by destruct s. Qed.

Lemma gains_feq p p' : feq p p' -> gains p = gains p'.
Proof. intros [->|(s & s' & -> & ->)]; [done|]. by rewrite gains_zero, (gains_zero s'). Qed.

Lemma gaint_feq_proper g v v' p p' muted : feq v v' -> feq p p' -> gaint_feq g v p muted -> gaint_feq g v' p' muted.
Proof.
  intros Hv Hp (Hl & Hr & Ho). unfold gaint_feq, send_gains in *. rewrite <-(gains_feq p p') by done.
  destruct (gains p) as [gl gr]. cbn in *. split_and!; [| |done]; (etrans; [eassumption|]); by apply f64_mul_feq.
Qed.

Lemma eqt_feq_proper e q q' : eq_params_feq q q' -> eqt_feq e q -> eqt_feq e q'.
Proof. intros [Hb Hg] [H1 H2]. split; by etrans. Qed.

Lemma holds_feq T op op' : op_feq op op' -> holds T op -> holds T op'.
Proof.
  destruct op, op'; cbn; try (by intros; simplify_eq); intros Hf; destruct_and?; subst; apply on_impl.
  - intros n (Ht & Hg & Hm). repeat match goal with Hx : _ = _ |- _ => rewrite <-Hx end. split_and!; [by etrans|done..].
  - intros n. by apply eqt_feq_proper.
  - intros x [Ho Hs]. split; [|intros s Hsh]; eapply gaint_feq_proper; try done; by apply Hs.
  - intros x [Ho Hs]. split; [|intros s Hsh]; eapply eqt_feq_proper; try done; by apply Hs.
  - intros x [[He Hl] Hs]. split; [by split; [|etrans]|]. intros s Hsh. destruct (Hs _ Hsh). by split; [|etrans].
  - intros x. apply on_impl. intros g. by apply gaint_feq_proper.
  - intros x. apply on_impl. intros g. apply gaint_feq_proper; [done|by left].
  - intros x. apply on_impl. intros g. by apply eqt_feq_proper.
Qed.

Lemma is_valid_feq b b' : dsp_band_feq b b' -> is_valid b = is_valid b'.
Proof. intros (_ & _ & Hf & Hg & Hw). unfold is_valid. by rewrite (value_ok_feq _ _ Hf), (value_ok_feq _ _ Hg), (value_ok_feq _ _ Hw). Qed.

Lemma eq_valid_feq q q' : eq_params_feq q q' -> eq_valid q' -> eq_valid q.
Proof.
  intros [Hb Hg] [Hv Hw]. split; [|by rewrite (value_ok_feq _ _ Hg)]. revert Hb Hv.
  generalize (vec_to_list (ep_bands q)) as l, (vec_to_list (ep_bands q')) as l'. induction 1 as [|b b' l l' Hbb _ IH]; [done|].
  intros [Hx Hl]%Forall_cons. constructor; [by rewrite (is_valid_feq _ _ Hbb)|auto].
Qed.

Lemma op_sane_feq op op' : op_feq op op' -> op_sane op' -> op_sane op.
Proof. destruct op, op'; cbn; try done; intros; destruct_and?; simplify_eq; by eapply eq_valid_feq. Qed.
End proper.

(** A processor that holds a memory in step with a core holds what the core wants. *)
Lemma held_wanted `{LibmSane, RtMath} topo c p mem :
  layout_ok topo (c_s c) -> synced c mem -> held p mem -> forall s op, want c s = Some op -> holds (p_targets p) op.
Proof.
  intros Hl Hs (_ & _ & Ha) s op Hw. specialize (Hs s). rewrite Hw in Hs. inversion Hs as [op' ? Hf Hm|]; subst.
  eapply holds_feq; [exact Hf|]. eapply Ha; [done|]. eapply op_sane_feq; [exact Hf|]. by eapply want_sane.
Qed.

(** ** A concrete processor for the witnesses *)

#[export] Instance demo_libm_sane : LibmSane.
Proof.
  intros db _. unfold db_to_lin. destruct (f64_ltb _ _); [|done]. unfold powf, demo_libm. by destruct (f64_div _ _).
Qed.

Definition demo_options : Options := mkOptions f64_0 false.
Definition demo_processor : Processor := with_hil_rt demo_topo MixState_default [0; 0] demo_options 2 0.

(** A block of [n] frames on a card of [ins] inputs carrying [x], with 8 topology
    outputs and 2 spare ones. *)
Definition demo_block (n ins : nat) (x : f64) : Block :=
  mkBlock n (fun c => if (c <? ins)%nat then replicate n x else []) (fun c => if (c <? 10)%nat then replicate n f64_0 else []).

(** The control loop's run of [ControlSpec], its commands given to a processor
    in one portion. *)
Definition demo_step (cmds : list RtCmd) : Between := mkBetween cmds [] 0 false (demo_block 2 8 f64_0).

Definition demo_pushed (k : Control) : list RtCmd := q_taken (k_queue k) ++ q_ring (k_queue k).

Lemma demo_drive_done :
  exists k exit p, demo_run false = CDone k exit /\ q_pending (k_queue k) = []
    /\ drive [demo_step (demo_pushed k)] demo_processor = Some p /\ rg_cmds (p_rings p) = [].
Proof.
  assert (Hc : match demo_run false with
    | CDone k _ => match drive [demo_step (demo_pushed k)] demo_processor with
                   | Some p => (length (rg_cmds (p_rings p)) + length (q_pending (k_queue k)))%nat
                   | None => 1%nat
                   end
    | CCrash _ => 1%nat
    end = 0%nat) by by vm_compute.
  destruct (demo_run false) as [k exit|k]; [|done]. destruct (drive _ _) as [p|] eqn:Hd; [|done].
  exists k, exit, p. split_and!; [done| |done|].
  - destruct (q_pending (k_queue k)); [done|cbn in Hc; lia].
  - destruct (rg_cmds (p_rings p)); [done|cbn in Hc; lia].
Qed.

(** ** Properties *)

(** C9: the processor follows the core through the control loop: started at the
    same state and given, in any portions and between any blocks, the commands
    the control loop pushed, it holds exactly the memory of a prefix of them, the
    rest being in its ring; and once its ring is empty and nothing waits, every
    node, shadow included, heads for what the core's state says. *)
Theorem processor_follows_core `{LibmOk} `{!LibmSane} `{RtMath, Json, Sha256, ClientJson, Encodable} engine_build channels
    topo state rev flags hil disk counters alarms settings v pops turns k exit opts spares rx steps p :
  topo_wf channels topo -> fits16 topo ->
  run engine_build turns (Control_new (with_hil (Core_new topo state rev flags) hil) disk counters alarms settings v pops) = CDone k exit ->
  drive steps (with_hil_rt topo state counters opts spares rx) = Some p ->
  frames_of steps <= u64_max ->
  concat (bw_cmds <$> steps) = q_taken (k_queue k) ++ q_ring (k_queue k) ->
  q_pending (k_queue k) = [] ->
  exists applied,
    q_taken (k_queue k) ++ q_ring (k_queue k) = applied ++ rg_cmds (p_rings p)
    /\ held p (rt_run (want (Core_new topo state rev flags)) (rc_op <$> applied))
    /\ (rg_cmds (p_rings p) = [] -> forall s op, want (k_core k) s = Some op -> holds (p_targets p) op).
Proof.
  intros Hwf H16 Hrun Hdrive Hfr Hcmds Hpend.
  set (c0 := Core_new topo state rev flags) in *. set (k0 := Control_new _ _ _ _ _ _ _) in *.
  assert (Ho : owed channels topo (want c0) [] k0).
  { split; [split; [|done]|intros s; change (option_Forall2 op_feq (want c0 s) (want c0 s)); reflexivity]. destruct (Core_new_wf (channels := channels) topo state rev flags Hwf H16). by split. }
  pose proof (run_spec engine_build channels topo (want c0) turns k0 Ho) as Hk. rewrite Hrun in Hk.
  destruct Hk as [[Hkwf Hkt] Hks]. rewrite app_nil_r in Hks. unfold all_ops in Hks. rewrite Hpend, app_nil_r in Hks.
  pose proof (cw_layout _ _ Hkwf) as Hl. rewrite Hkt in Hl.
  destruct (drive_spec steps _ p Hdrive) as (applied & Ha & [_ Hran] & _); [done|by cbn; lia|]. cbn [app rg_cmds p_rings with_hil_rt] in Ha.
  rewrite Hcmds in Ha. rewrite Ha in Hks.
  assert (Hin : Forall (op_in (p_targets (started topo state counters opts spares rx))) (rc_op <$> applied)).
  { pose proof (synced_in topo (k_core k) _ _ _ Hl (started_fits topo state counters opts spares rx Hwf) Hks) as Hin.
    rewrite fmap_app in Hin. by apply Forall_app in Hin as [Hin _]. }
  exists applied. split; [done|]. pose proof (Hran _ Hin (started_held topo state counters opts spares rx Hwf rev flags)) as Hheld.
  split; [done|]. intros Hring. rewrite Hring, app_nil_r in Hks. by eapply held_wanted.
Qed.

Lemma processor_follows_core_witness :
  exists k exit p, demo_run false = CDone k exit /\ forall s op, want (k_core k) s = Some op -> holds (p_targets p) op.
Proof.
  destruct demo_drive_done as (k & exit & p & Hrun & Hpend & Hd & Hring). exists k, exit, p. split; [done|].
  assert (Hcmds : concat (bw_cmds <$> [demo_step (demo_pushed k)]) = q_taken (k_queue k) ++ q_ring (k_queue k))
    by (cbn; by rewrite app_nil_r).
  assert (Hfr : frames_of [demo_step (demo_pushed k)] <= u64_max) by done.
  destruct (processor_follows_core "demo" 8 demo_topo MixState_default 7 demo_flags [9; 10] _ _ _ _ _ _ (demo_turns false) k exit
    demo_options 2 0 _ p demo_wf demo_fits16 Hrun Hd Hfr Hcmds Hpend) as (applied & _ & _ & Hw).
  exact (Hw Hring).
Defined.

(** C16: commands are applied on time and whole.  A block is a course of moves,
    each taking one whole group off the front of the ring and applying it, or
    rendering the next frames from where the last rendering ended, up to the
    block's last frame; nothing else happens in it but the count of late blocks
    and the meters at its end.  In that course at most [MAX_CMDS_PER_BLOCK]
    commands are taken, none before its time; unless the block counts as late,
    each group is applied at the very sample it is due (at the block's start if
    it was overdue, at once after the groups before it) and nothing due in the
    block is left; and a ring of whole groups within the budget never makes a
    block late. *)
Theorem commands_on_time `{Libm, RtMath} p b p' b' :
  process p b = Some (p', b') -> 0 <= p_time p -> p_time p + Z.of_nat (bk_frames b) <= u64_max ->
  exists moves late q,
    let log := groups_at (p_time p) moves in
    replay moves 0 p b = Some (bk_frames b, q, b') /\ Forall move_ok moves /\ p' = block_end late (bk_frames b) q
    /\ rg_cmds (p_rings p) = all_cmds log ++ rg_cmds (p_rings p')
    /\ wholes log (rg_cmds (p_rings p')) /\ (length (all_cmds log) <= MAX_CMDS_PER_BLOCK)%nat
    /\ Forall (fun e => p_time p <= e.1 < p_time p + Z.of_nat (bk_frames b)) log
    /\ (late = false -> on_time (p_time p) log)
    /\ (late = false -> 0 < Z.of_nat (bk_frames b) ->
        head_at (fun at_ => p_time p + Z.of_nat (bk_frames b) <= at_) (rg_cmds (p_rings p')))
    /\ rc_deferred (p_status p') = (if late then u64_wrapping_add (rc_deferred (p_status p)) 1 else rc_deferred (p_status p))
    /\ (grouped (rg_cmds (p_rings p)) -> (length (rg_cmds (p_rings p)) <= MAX_CMDS_PER_BLOCK)%nat -> late = false).
Proof.
  intros Hp Hge Hmax. pose proof Hp as Hp'.
  apply process_account in Hp as (moves & late & q & [R1 R2 R3 R4 R5 R6 R7 R8 R9 R10] & (Hre & Hmo & Hend) & _ & Hr & _ & _ & Hdef & _ & Hloop);
    [|done..].
  exists moves, late, q. cbn zeta. rewrite Hr. split_and!; try done.
  - intros Hl. apply R5; [done|lia|by left].
  - intros Hl Hf. rewrite <-R8. by apply R6.
  - intros Hg Hlen. destruct (process_grouped p b p' b' Hp' Hg Hlen) as (q' & b1 & Hq). congruence.
Qed.

Lemma commands_on_time_witness :
  let p := set_cmds [mkRtCmd 1 2 RtArm; mkRtCmd 0 0 (RtListen 0 None); mkRtCmd 3 1 RtNop] demo_processor in
  exists p' b', process p (demo_block 2 8 f64_0) = Some (p', b') /\ (length (rg_cmds (p_rings p')) <= 3)%nat.
Proof.
  intros p. destruct (process p (demo_block 2 8 f64_0)) as [[p' b']|] eqn:Hp.
  2:{ exfalso. apply (f_equal (fun o => bool_decide (is_Some o))) in Hp. revert Hp. by vm_compute. }
  exists p', b'. split; [done|].
  destruct (commands_on_time p _ p' b' Hp) as (moves & late & q & _ & _ & _ & Hr & _); [done..|].
  apply (f_equal length) in Hr. rewrite length_app in Hr. cbn in Hr. lia.
Defined.

(** Each block of [steps] is its course of moves over all of its frames, from
    [p] to [p']. *)
Fixpoint played `{Libm, RtMath} (steps : list Between) (p p' : Processor) : Prop :=
  match steps with
  | [] => p' = p
  | e :: steps => exists moves late q b',
      replay moves 0 (between e p) (bw_block e) = Some (bk_frames (bw_block e), q, b') /\ Forall move_ok moves
      /\ process (between e p) (bw_block e) = Some (block_end late (bk_frames (bw_block e)) q, b')
      /\ played steps (block_end late (bk_frames (bw_block e)) q) p'
  end.

Lemma drive_played `{Libm, RtMath} steps p p' :
  drive steps p = Some p' -> 0 <= p_time p -> p_time p + frames_of steps <= u64_max -> played steps p p'.
Proof.
  revert p. induction steps as [|e steps IH]; intros p; cbn [drive played frames_of foldr]; [by intros [= <-]|].
  destruct (process (between e p) (bw_block e)) as [[q b']|] eqn:Hp; cbn [mbind option_bind]; [|done].
  intros Hd Hge Hmax. fold (frames_of steps) in *. pose proof (frames_nonneg steps). destruct (between_same e p) as (_ & Htime & _).
  apply process_account in Hp as (moves & late & r & Hacc & (Hre & Hmo & ->) & _ & _ & Hqtime & _); [|lia..].
  exists moves, late, r, b'. split_and!; [done|done|done|]. apply IH; [done|..]; rewrite Hqtime, (ac_time _ _ _ _ _ _ Hacc); lia.
Qed.

(** C24: a block always completes: unless a command asks for a panic, every block
    is processed, all of its frames rendered in order in segments of at most
    [SEG] from its first to its last, and the processor's time moves by exactly
    its length; so does every sequence of blocks. *)
Theorem processor_goes_on `{Libm, RtMath} steps p :
  no_panic (rg_cmds (p_rings p) ++ concat (bw_cmds <$> steps)) -> 0 <= p_time p -> p_time p + frames_of steps <= u64_max ->
  exists p', drive steps p = Some p' /\ played steps p p' /\ p_time p' = p_time p + frames_of steps.
Proof.
  intros Hn Hge Hmax. destruct (drive_total steps p Hn Hge Hmax) as [p' Hd]. exists p'. split; [done|].
  split; [by apply drive_played|]. by destruct (drive_spec steps p p' Hd Hge Hmax) as (_ & _ & _ & ?).
Qed.

Lemma processor_goes_on_witness :
  exists p', drive [demo_step [mkRtCmd 0 1 RtFadeOut]; demo_step []] demo_processor = Some p' /\ p_time p' = 4.
Proof.
  assert (Hr : rg_cmds (p_rings demo_processor) = []) by reflexivity. assert (Ht : p_time demo_processor = 0) by reflexivity.
  destruct (processor_goes_on [demo_step [mkRtCmd 0 1 RtFadeOut]; demo_step []] demo_processor) as (p' & Hd & _ & Hp).
  - rewrite Hr. cbn. by repeat constructor.
  - by rewrite Ht.
  - by rewrite Ht.
  - exists p'. split; [exact Hd|]. by rewrite Hp, Ht.
Defined.

(** A HIL test signal of a tone on spare output 1, running. *)
Definition demo_hil : Processor :=
  start_test_rt 0 (f64_lit 1000 0) TEST_CAP 9600 (Some [false; true]) false demo_processor.

Lemma demo_hil_facts :
  (0 < length (p_hil_peaks demo_hil))%nat /\ sounds (p_test demo_hil ≫= te_mask) 0 = false
  /\ length (bk_out (demo_block 2 8 f64_1) (length (t_tx (p_topo demo_hil)) + 0)) = bk_frames (demo_block 2 8 f64_1)
  /\ hil (p_test demo_hil) = true
  /\ exists spec, t_mixes (p_topo demo_hil) !! 0%nat = Some spec /\ has_tx spec 0.
Proof. split_and!; [vm_compute; lia|by vm_compute..|]. eexists. split; [by vm_compute|by left]. Qed.

(** C14: a HIL test signal never reaches the topology's outputs: in every block
    that starts or ends no test signal, while one with a mask runs every output
    of every mix is silent, every sample of it; and with or without one a spare
    output that is not in the mask is silent. *)
Theorem hil_stays_off_the_mixes `{Libm, RtMath} channels p b p' b' :
  topo_wf channels (p_topo p) -> length (p_mixes p) = length (t_mixes (p_topo p)) ->
  process p b = Some (p', b') -> 0 <= p_time p -> p_time p + Z.of_nat (bk_frames b) <= u64_max ->
  no_test (rg_cmds (p_rings p)) ->
  (forall t, p_test p = Some t -> p_time p + Z.of_nat (bk_frames b) <= te_end t) ->
  (hil (p_test p) = true -> forall m spec c, t_mixes (p_topo p) !! m = Some spec -> has_tx spec c ->
     length (bk_out b c) = bk_frames b -> forall i, (i < bk_frames b)%nat -> bk_out b' c !! i = Some f64_0)
  /\ (forall k, (k < length (p_hil_peaks p))%nat -> sounds (p_test p ≫= te_mask) k = false ->
      let c := (length (t_tx (p_topo p)) + k)%nat in
      length (bk_out b c) = bk_frames b -> forall i, (i < bk_frames b)%nat -> bk_out b' c !! i = Some f64_0).
Proof.
  intros Hwf Hlen Hp Hge Hmax Hnt Hend.
  assert (Hall : forall c, must_be_silent p (p_test p ≫= te_mask) c -> length (bk_out b c) = bk_frames b ->
    forall i, (i < bk_frames b)%nat -> bk_out b' c !! i = Some f64_0) by (intros c; by apply (process_silent p b p' b')).
  split.
  - intros Ht m spec c Hspec Htx. apply Hall. left.
    assert (Hlt : (m < length (t_mixes (p_topo p)))%nat) by by eapply lookup_lt_Some.
    split_and!.
    + unfold hil in Ht. destruct (p_test p) as [t|]; [|done]. by apply bool_decide_eq_true in Ht.
    + pose proof (proj1 (Forall_lookup _ _) (wf_mix_tx _ _ Hwf) _ _ Hspec) as (a & Ha & Hmt & Hst).
      destruct Htx as [Htx|Htx]; rewrite Hmt in Htx; cbn in Htx; [by simplify_eq|].
      destruct (mn_mono spec); [done|]. simplify_eq. by apply Hst.
    + exists m, spec. rewrite Hlen. split_and!; [|done..]. rewrite (wf_order _ _ Hwf), render_order_perm. apply elem_of_seq. lia.
  - intros k Hk Hs c. apply Hall. right. by exists k.
Qed.

Lemma hil_stays_off_the_mixes_witness :
  exists p' b', process demo_hil (demo_block 2 8 f64_1) = Some (p', b') /\ bk_out b' 0 !! 1%nat = Some f64_0 /\ bk_out b' (length (t_tx (p_topo demo_hil)) + 0) !! 1%nat = Some f64_0.
Proof.
  destruct (process demo_hil (demo_block 2 8 f64_1)) as [[p' b']|] eqn:Hp.
  2:{ exfalso. apply (f_equal (fun o => bool_decide (is_Some o))) in Hp. revert Hp. by vm_compute. }
  exists p', b'. split; [done|].
  destruct (hil_stays_off_the_mixes 8 demo_hil (demo_block 2 8 f64_1) p' b' demo_wf) as [Htx Hsp]; [by vm_compute|done|done|done|constructor| |].
  - intros t [= <-]. by vm_compute.
  - destruct demo_hil_facts as (Hk & Hs & Hl & Hh & spec & Hspec & Hc).
    split; [exact (Htx Hh 0%nat spec 0%nat Hspec Hc eq_refl 1%nat Nat.lt_1_2)|exact (Hsp 0%nat Hk Hs Hl 1%nat Nat.lt_1_2)].
Defined.

(** C21: whatever the card delivers (NaN, infinities, anything), every signal a
    node passes on is made of numbers within [LIMIT]: after any blocks and
    commands, in every input, shadow and mix. *)
Theorem signals_stay_clean `{Libm, RtMath} topo state counters opts spares rx steps p :
  drive steps (with_hil_rt topo state counters opts spares rx) = Some p ->
  (forall n x, n ∈ p_inputs p -> x ∈ (ir_p n).1 \/ x ∈ (ir_p n).2 -> f64_is_nan x = false /\ f64_leb (f64_abs x) LIMIT = true)
  /\ (forall m x, m ∈ p_mixes p -> x ∈ (mr_sum m).1 \/ x ∈ (mr_sum m).2 -> f64_is_nan x = false /\ f64_leb (f64_abs x) LIMIT = true)
  /\ (forall m s x, m ∈ p_mixes p -> mr_shadow m = Some s -> x ∈ (sh_out s).1 \/ x ∈ (sh_out s).2 ->
      f64_is_nan x = false /\ f64_leb (f64_abs x) LIMIT = true).
Proof.
  intros Hd. assert (Hc : clean_p p).
  { revert Hd. generalize (with_hil_clean topo state counters opts spares rx). generalize (with_hil_rt topo state counters opts spares rx) as q.
    induction steps as [|e steps IH]; intros q Hq; cbn [drive]; [by intros [= <-]|].
    destruct (process (between e q) (bw_block e)) as [[q' b']|] eqn:Hp; cbn [mbind option_bind]; [|done]. apply IH.
    apply process_clean in Hp; [done|]. unfold between, discontinuity, restart_fade. destruct (bw_reopen e); [|done].
    destruct (ou_armed _); [|done]. by destruct (ou_fading_out _). }
  assert (Hx : forall s x, clean s -> x ∈ s.1 \/ x ∈ s.2 -> f64_is_nan x = false /\ f64_leb (f64_abs x) LIMIT = true).
  { intros s x [Hl Hr] Hor. rewrite Forall_forall in Hl. rewrite Forall_forall in Hr. apply bad_sample_false. destruct Hor; auto. }
  destruct Hc as [Hi Hm]. rewrite Forall_forall in Hi. rewrite Forall_forall in Hm. split_and!.
  - intros n x Hn. by apply Hx, Hi.
  - intros m x Hin. by apply Hx, Hm.
  - intros m s x Hin Hs. apply Hx. by apply (Hm _ Hin).
Qed.

Lemma signals_stay_clean_witness :
  exists p, drive [mkBetween [] [] 0 false (demo_block 2 8 S754_nan)] demo_processor = Some p
    /\ forall n x, n ∈ p_inputs p -> x ∈ (ir_p n).1 -> f64_is_nan x = false.
Proof.
  destruct (drive [mkBetween [] [] 0 false (demo_block 2 8 S754_nan)] demo_processor) as [p|] eqn:Hd.
  2:{ exfalso. apply (f_equal (fun o => bool_decide (is_Some o))) in Hd. revert Hd. by vm_compute. }
  exists p. split; [done|]. intros n x Hn Hx.
  exact (proj1 (proj1 (signals_stay_clean demo_topo MixState_default [0; 0] demo_options 2 0 _ p Hd) n x Hn (or_introl Hx))).
Defined.

(** C22: a shutdown's fade-out completes: from any state of the processor, once
    [FadeOut] is applied, whatever other commands come (arming, test signals,
    reopens of the driver) the output stage is silent after the fade's length
    of samples, and the processor reports it. *)
Theorem fade_out_completes `{Libm, RtMath} p q steps p' :
  rt_apply RtFadeOut p = Some q -> drive steps q = Some p' ->
  no_fade_out (rg_cmds (p_rings q) ++ concat (bw_cmds <$> steps)) ->
  samples FADE_MS (p_sr p) <= frames_of steps ->
  rc_faded_out (p_status p') = true
  /\ is_moving (ou_fade (p_output p')) = false /\ f64_eqb f64_0 (ra_value (ou_fade (p_output p'))) = true.
Proof.
  intros Ha Hd Hn Hf. set (len := samples FADE_MS (p_sr p)) in *. assert (Hlen : 0 < len) by (unfold len, samples; lia).
  assert (Hq : fading len len q).
  { cbn in Ha. simplify_eq. destruct (fall_in (ra_value (ou_fade (p_output p))) len Hlen) as [Hr Ht]. by split. }
  clear Ha. assert (Hgo : forall k, 0 <= k -> fading len k q ->
    fading len (Z.max 0 (k - frames_of steps)) p' /\ (reported q \/ 0 < frames_of steps -> reported p')).
  { clear Hf Hq. revert q Hd Hn. induction steps as [|e steps IH]; intros q Hd Hn k Hk Hq; cbn [drive] in Hd.
    - injection Hd as <-. unfold frames_of; cbn [foldr]. split; [eapply fading_le; [|exact Hq]; lia|]. intros [|]; [done|lia].
    - destruct (process (between e q) (bw_block e)) as [[q1 b']|] eqn:Hp; cbn [mbind option_bind] in Hd; [|done].
      cbn [fmap list_fmap concat] in Hn. rewrite app_assoc in Hn. apply Forall_app in Hn as [Hn1 Hn2].
      assert (Hb : p_output (between e q) = p_output q /\ rc_faded_out (p_status (between e q)) = rc_faded_out (p_status q)
                   /\ rg_cmds (p_rings (between e q)) = rg_cmds (p_rings q) ++ bw_cmds e).
      { unfold between, discontinuity, restart_fade. destruct (bw_reopen e); [|done]. destruct (ou_armed _); [|done].
        by rewrite (fo_out _ _ _ Hq). }
      destruct Hb as (Hb1 & Hb2 & Hb3).
      apply (process_fading len k) in Hp as (F & N & R); [|by rewrite Hb3|by eapply fading_same|done].
      destruct (IH q1 Hd) with (k := Z.max 0 (k - Z.of_nat (bk_frames (bw_block e)))) as [F' R']; [by apply Forall_app|lia|done|].
      change (frames_of (e :: steps)) with (Z.of_nat (bk_frames (bw_block e)) + frames_of steps). pose proof (frames_nonneg steps).
      split; [eapply fading_le; [|exact F']; lia|]. intros Hor. apply R'.
      destruct (decide (bk_frames (bw_block e) = 0%nat)) as [Hz|Hz]; [|left; apply R; right; lia].
      destruct Hor as [Hrep|Hpos]; [left; apply R; left|right; lia]. unfold reported in *. by rewrite Hb1, Hb2. }
  destruct (Hgo len ltac:(lia) Hq) as [[F1 F2 F3] R]. destruct (ramp_rest len (ou_fade (p_output p'))) as [Hm Hv].
  { eapply ramp_in_le; [|exact F3]. lia. }
  split_and!; [by apply R; [right; lia|]|done|by rewrite Hv].
Qed.

(** Fifty milliseconds at 96 kHz, in blocks of 1200 frames of no channels. *)
Lemma fade_out_completes_witness :
  exists q p', rt_apply RtFadeOut demo_processor = Some q
    /\ drive (replicate 4 (mkBetween [mkRtCmd 0 1 RtArm] [] 0 true (demo_block 1200 0 f64_0))) q = Some p'
    /\ rc_faded_out (p_status p') = true.
Proof.
  destruct (rt_apply RtFadeOut demo_processor) as [q|] eqn:Hq; [|done].
  assert (Hring : rg_cmds (p_rings q) = [] /\ p_time q = 0) by (cbn in Hq; by simplify_eq). destruct Hring as [Hr Ht].
  set (steps := replicate 4 _).
  destruct (drive_total steps q) as [p' Hd]; [rewrite Hr; by repeat constructor|by rewrite Ht|by rewrite Ht|].
  exists q, p'. split_and!; [done|done|].
  apply (fade_out_completes demo_processor q steps p' Hq Hd); [rewrite Hr; by repeat constructor|by vm_compute].
Defined.

(** A block of the samples [xs] on every card input. *)
Definition demo_samples (xs : list f64) : Block :=
  mkBlock (length xs) (fun c => if (c <? 8)%nat then xs else []) (fun c => if (c <? 10)%nat then silence xs else []).

Definition demo_peak (blocks : list (list f64)) : option (list f64) :=
  p ← drive ((fun xs => mkBetween [] [] 0 false (demo_samples xs)) <$> blocks) demo_processor;
  ir_peak <$> p_inputs p !! 0%nat.

(** A bad sample silences the segment it is in, so what else is silenced depends
    on where the blocks are cut. *)
Lemma trip_depends_on_blocks :
  demo_peak [[f64_1; f64_1; f64_1; S754_nan]] = Some [f64_0; f64_0]
  /\ demo_peak [[f64_1; f64_1]; [f64_1; S754_nan]] = Some [f64_1; f64_1].
Proof. split; vm_compute; reflexivity. Qed.
